(* ===== verification/_CoqProject ===== *)
-Q . S2P
Prelude.v
Vec.v
Base64Spec.v
SimdBase64.v
Base64Lanes.v
Base64Decode.v
Base64Encode.v
SimdHex.v
ByteAlg.v
TinyLibc.v
Bytes.v
MbedBase64.v
Poly1305.v
Chacha20.v
ConstTime.v
ChachaPoly.v
Asn1Parse.v
Asn1Write.v
Asn1Named.v
LimbMem.v
BignumCore.v
BignumMul.v
BignumMont.v
BignumExp.v
BignumGcd.v
BignumIO.v
Eff.v
MbedBridge.v
MbedSafety.v
MbedContracts.v
MbedLiveness.v
Host.v
SecureTransport.v
SecureTransportProps.v
Schannel.v
SchannelBuffers.v
SchannelRecords.v
SchannelRead.v
SchannelTrust.v
SchannelWrite.v
RsaSign.v
NetworkFw.v
NetworkFwProps.v
BlockHash.v
Sha2.v
Sha256.v
Sha512.v
Sha1.v
Md5.v
Ripemd160.v
Keccak.v
Sha3.v
Digests.v
Md.v
MdMachine.v
OutBlocks.v
Hkdf.v
Pkcs5.v
HmacDrbg.v
