(* ===== verification/Prelude.v ===== *)
(** * tinygodriver: verification of the C layer

    tinygodriver makes Go's networking packages usable under TinyGo.  Where TinyGo has no
    runtime support, the Go packages call C through cgo; that C code is what this library
    models and proves.  Its parts, and the files here that deal with them:

    - _Vector kernels_: [src/encoding/simdbase64/vector_tinygo.c],
      [src/encoding/simdhex/vector_tinygo.c] and [src/internal/bytealg/vector_tinygo.c],
      written with the vector extensions of the compiler for SSSE3 and NEON.  [Vec] has
      the vector operations (sixteen bytes as a list of sixteen integers, with the wrap
      of each lane written out, and the two instruction sets as the type [arch]).
      [SimdBase64] is the base64 codec, [Base64Spec] the reference definition of RFC 4648
      decoding and encoding, [Base64Lanes] the lemmas on single vectors, [Base64Decode]
      and [Base64Encode] the theorems.  [SimdHex] and [ByteAlg] have model, reference
      definition and theorems of the hexadecimal codec and of masking, searching and
      header checking.
    - _C library gaps_: [src/database/sql/sqlite/tinygosqlite/tinygo_libc.c], the system
      call wrappers SQLite needs; [TinyLibc].
    - _mbedTLS bridge_: [src/internal/mbedtls/tls_mbedtls.c], TLS on Linux and optionally
      macOS; [MbedBridge] is the model, [MbedSafety], [MbedContracts] and [MbedLiveness]
      the theorems.
    - _Secure Transport bridge_: [src/internal/securetransport/securetransport.c], TLS 1.2
      on macOS; [SecureTransport] and [SecureTransportProps].
    - _Schannel bridge_: [src/internal/schannel/sspibridge.c], TLS on Windows; [Schannel]
      is the model, [SchannelBuffers], [SchannelRecords], [SchannelRead], [SchannelTrust]
      and [SchannelWrite] the theorems.
    - _Network.framework bridge_: [src/https/tls_darwin_nw.c], TLS 1.3 on macOS with blocks
      on dispatch threads; [NetworkFw] and [NetworkFwProps].
    - _RSA signing_: [src/internal/rsasign/rsasign_windows.c], [rsasign_darwin.c] and
      [src/internal/mbedtls/rsasign_mbedtls.c]; [RsaSign], a module per backend.

    - _mbedTLS primitives_: parts of the mbedTLS 3.6 the repository carries under
      [src/internal/mbedtls], which the mbedTLS bridge is linked with.  [MbedBase64] is
      [base64.c]; [Bytes] the byte-order accessors of [alignment.h] and [common.h];
      [Poly1305] and [Chacha20] the authenticator and the stream cipher of [poly1305.c]
      and [chacha20.c]; [ConstTime] the branch-free operations of [constant_time.c] and
      [constant_time_impl.h]; [ChachaPoly] the authenticated encryption of
      [chachapoly.c], built on the three; [Asn1Parse], [Asn1Write] and [Asn1Named] the
      DER reader of [asn1parse.c], the writer of [asn1write.c] and the named-data lists
      both files keep.  Each file has model, reference definition and theorems.
    - _mbedTLS big numbers_: the arithmetic on limb arrays of [bignum_core.c], with the
      multiply-accumulate step of [bn_mul.h].  [LimbMem] is the memory they work in;
      [BignumCore] has comparison, conditional moves, shifts, addition and subtraction,
      [BignumMul] the theorems on multiplication, [BignumMont] Montgomery multiplication,
      [BignumExp] exponentiation, [BignumGcd] greatest common divisor and inverse,
      [BignumIO] import, export and random numbers.
    - _mbedTLS hashes_: [md5.c], [sha1.c], [ripemd160.c], [sha256.c], [sha512.c] and
      [sha3.c].  The first five keep a count, a chaining state and a block buffer in the
      same way: [BlockHash] has that code once, over a block function, as well as what a
      hash of this kind is (padding, chaining, output), and the classes [Compression],
      [WholeBlocks] and [ProcessMany] for what it asks of the block function and the loops.
      [Sha2] has what SHA-256 and SHA-512 share and the functions of FIPS 180-4; [Sha256],
      [Sha512], [Sha1], [Md5] and [Ripemd160] the block functions, which are instances of
      the class, and the theorems.  [Keccak] is the permutation of SHA-3 and [Sha3] the
      sponge on it.
    - _mbedTLS digest layer_: [md.c] and [md_wrap.h].  [Digests] has the class
      [Streaming], what all hash functions promise, and an instance for each; [Md] is the
      layer over them, with its tables, its contexts and HMAC, proved against the class;
      [MdMachine] the abstract machine that a program calling it sees.
    - _On HMAC_: [Hkdf] is [hkdf.c], [Pkcs5] PBKDF2 of [pkcs5.c], [HmacDrbg] the random
      generator [hmac_drbg.c].  All three make their output in blocks of the size of the
      hash; [OutBlocks] has the lemmas on that.

    The Go packages call one bridge per platform; the bridges do not call each other.
    They share a shape (handshake or dial, read, write, close over a handle), and the
    signing backends share a header, whose contract is the class [Signer].

    ** How C becomes Gallina

    A buffer is a list of integers and an access outside it is a [Fault]; loops whose
    recursion is not structural take fuel, and running out is [NoFuel].  A C integer is a
    [Z] with its wrap-around or overflow check written out ([u8], [u32], [u64], [to_int],
    [add64]).  The kernels run in the [outcome] monad: their theorems state a [Done]
    result for the fuel the definitions compute from the lengths ([skip_fuel],
    [loop_fuel], [digit_fuel]: one more than the number of rounds the length allows), so
    they are memory-safety and termination statements at once.

    The mbedTLS primitives use the same [outcome] monad with their contexts as records;
    an error code is a value.  The loops over blocks, list cells and length octets take
    fuel computed from the lengths, and their theorems give a result for it.  The DER
    reader's cursor [*p] is an index into one buffer that is threaded through a reader
    monad, and the writer's cursor runs downwards in one, as the code's pointers do.  The
    answers of the allocator are a list the operation consumes.  The hashes take a state as
    the list of its words; their loops over blocks have one round of fuel per block and one
    to stop.  The [void *] of a digest context is a sum of the contexts it may point to, and
    using it as another member is a [Fault]; the allocator of that layer also counts the
    objects alive.  A piece of input may have the length the counters of the hash function
    can hold ([md_limit]: 2^32 or 2^64 bytes).  The loops that make output have fuel for one
    round per byte and one to stop.

    The big numbers work in one byte memory with pointers as indices, because the code lets
    operands overlap: [prog] is the state monad over it, [mpi m p n] the number in the [n]
    limbs at [p], [runs c m Q] says that [c] finishes from [m] without leaving the memory
    and [Q] holds of result and memory, [frame P m m'] that only bytes in [P] changed, and
    [apart] and [alias_ok] what the headers say of overlap.  Limbs have 64
    bits; alignment is not modelled.  Loops run over the bits or limbs of the
    operands; the fixed count of the gcd loop (the bits of both operands) is proved enough
    by a measure on the pair, not assumed.  The random generator is a parameter that is
    asked to fill the buffer it is given ([rng_fills]).

    The bridges run in the state monad [M] of [Eff].  What is outside the repository (the
    system, mbedTLS, Secure Transport, Schannel, Network.framework, CNG, the allocator)
    is an [environment], an arbitrary function from the history of calls to a response;
    where a proof relies on documented behaviour of it, that is a record [sane] per
    bridge, with an instance shown for a concrete environment.  The history of calls is
    part of the state and is what theorems on order speak of.  [Host] adds the bag of
    references the C code owns: releasing what is not held is a [Fault].  [wp] is partial
    correctness without faults for every fuel, used where the outside may legitimately
    never answer (a peer that never sends); [MbedLiveness] and [SecureTransportProps]
    have the theorems that bound the waits.  Threads (Network.framework) are transition
    systems whose moves are the atomic accesses of the code; their theorems quantify over
    all runs and bound their length.

    ** What the theorems show

    - [Base64Decode], [Base64Encode], [SimdHex], [ByteAlg], [TinyLibc]: the kernels stay
      inside their buffers, terminate and compute their reference definition, on both
      instruction sets; they stop early only for the stated reasons; the codecs round-trip.
    - [MbedBase64]: decoding accepts exactly the inputs of a declarative grammar, with the
      length and the bytes it says, and writes nothing when the buffer is too small.
      [Poly1305], [Chacha20]: the limb and word arithmetic computes the polynomial modulo
      2^130 - 5 and the block function of RFC 8439, in whatever pieces the message comes,
      without overflow, and the counter cannot wrap unnoticed.  [ConstTime]: the
      branch-free operations equal their branching definitions.  [ChachaPoly]: the context
      is the machine of states and errors that [chachapoly.h] describes, but for a second
      finish, which the header forbids and the code lets succeed; a decryption returns the
      plaintext exactly when the tag is right and zeroes otherwise; sealing and opening
      round-trip.
    - [Asn1Parse]: the reader stays within the bounds it is given, accepts exactly the
      encodings described by a declarative specification and leaves the cursor behind
      them.  [Asn1Write]: the writer emits the DER encoding just below the cursor or
      reports the lack of room; what it writes the reader reads back.  A negative integer
      is written as its low byte, which is not its DER encoding.  [Asn1Named]:
      storing keeps keys unique, and a failed allocation leaves the list as it was.
    - [BignumCore], [BignumMul], [BignumMont], [BignumExp], [BignumGcd]: every operation
      finishes inside its buffers, changes only its outputs and the scratch memory, and
      computes the sum, difference, shift, product, Montgomery product, power or gcd and
      inverse of the numbers, for every length, every compiled version and the overlaps
      allowed.  [BignumIO]: import and export are exact in both byte orders or report the
      lack of room; a random number is the first acceptable draw.
    - [Sha256], [Sha512], [Sha1], [Md5], [Ripemd160]: a message fed in whatever pieces has
      the digest that FIPS 180-4, RFC 1321 and the RIPEMD-160 paper define, the context is
      wiped, and nothing is written but the digest; the constants of SHA-2 are the
      fractional parts of the roots of primes.  A piece of 2^32 bytes is miscounted by the
      functions on 32-bit words ([sha256_long_piece]).  [Keccak]: all ways of unrolling the
      permutation compute that of FIPS 202, bit by bit; [Sha3]: the sponge gives its hash,
      in whatever pieces the message comes.
    - [Md], [MdMachine]: any sequence of calls that the interface allows (hashing, HMAC under
      several keys, resets, clones) on any number of contexts succeeds with the outputs of
      the machine; HMAC is that of RFC 2104 for keys of any length; every refusal of memory
      is reported and nothing leaks; names and types round-trip.  [Hkdf], [Pkcs5]: the
      derived bytes are those of RFC 5869 and PKCS #5 for inputs below [md_limit], the
      errors are exact, memory is returned on every path.  [HmacDrbg]: whatever the sequence
      of requests, reseedings and changes of the settings, the generator gives the bytes and
      errors of SP 800-90A and reseeds in time; the source of entropy is a parameter with
      its contract [entropy_ok].  An entropy length must be one for which the sums that
      check the seed do not wrap; the theorem's last clause shows a length that wraps them
      and the seeding that then leaves its buffer.
    - [MbedSafety], [MbedContracts], [MbedLiveness]: nothing is used after it was freed,
      freed twice or leaked; verification is configured before the first handshake step;
      reads and writes deliver the bytes in order; a deadline bounds reads and writes.
      The wait on macOS is the exception that [darwin_wait_unbounded] proves.
    - [SecureTransportProps]: the I/O callbacks keep the framework's contract, a peer is
      accepted only after a positive evaluation with the configured anchors, ownership of
      the context and the anchors is unambiguous.
    - [SchannelBuffers], [SchannelRecords]: the blocks of the three buffers and of the
      host name are resources that the connection owns ([bufs]); growing a buffer returns
      the old block, freeing the connection returns all four.  [SchannelRead],
      [SchannelWrite]: the bytes a caller reads are the plaintext of the records in order,
      whatever the sizes; a write goes out in records that fit, and the count it reports is
      that of the records the socket took whole.  [SchannelTrust]: protocol floor, trust
      decision, client certificates, handshake.
    - [NetworkFwProps]: in all interleavings the shared semaphore is released exactly
      once and not touched afterwards, a timed-out caller's buffer is not written, and the
      stream is handed over whole; the verification asked for is the one that is installed
      on the connection dialled, and it accepts only after a positive evaluation.
    - [RsaSign]: each backend meets the header's contract, makes its one signature with the
      key it parsed from the bytes given, and leaves nothing behind.

    ** What is not modelled

    The Go packages; the vendored SQLite amalgamation; [bridge.c] of the SQLite driver,
    whose functions pass their arguments on.  Of the vendored mbedTLS, everything but the
    parts above: the TLS and X.509 layers, PSA, PEM, the other ciphers, the hash code for
    the cryptographic instructions of Armv8 and the self tests of the hashes, the
    allocating numbers of [bignum.c] and what is built on them (the modular layers, RSA,
    elliptic curves, [mbedtls_mpi_core_get_mont_r2_unsafe] and the two ASN.1 functions
    [mbedtls_asn1_get_mpi] and [mbedtls_asn1_write_mpi]).  The bridge does not see the
    modelled primitives: what it relies on of mbedTLS is documented behaviour of the entry points it calls.  The time
    the constant-time functions take is not expressed, only what they compute.  In the
    bridges the numerical content of cryptography is the environment's, and time is what
    the clock calls answer.  Source and destination of the base64 kernels are separate
    lists, so decoding in place is not covered.  The heap of [Asn1Named] is the number of
    blocks alive and does not tell one block from another.  The round count of the gcd is
    taken without the wrap of [size_t], which differs only for operands of 2^60 bytes.

    This file has what all others share: outcomes, machine integers, buffers, tactics. *)

From stdpp Require Export base tactics list numbers list_monad list_numbers.
From Stdlib Require Export ZArith Lia.
Open Scope Z_scope.

(** ** Outcomes

    Running a C function either finishes with a value, commits undefined
    behaviour (an access outside the buffers it was given), or exhausts the fuel
    a loop was run with.  A theorem that an operation is [Done] is therefore at
    once a memory-safety and a termination statement. *)
Inductive outcome (A : Type) : Type :=
  | Done (a : A)
  | Fault
  | NoFuel.
Arguments Done {_} _.
Arguments Fault {_}.
Arguments NoFuel {_}.

#[export] Instance outcome_ret : MRet outcome := fun A a => Done a.
#[export] Instance outcome_bind : MBind outcome := fun A B f m =>
  match m with
  | Done a => f a
  | Fault => Fault
  | NoFuel => NoFuel
  end.

Lemma bind_Done {A B} (a : A) (f : A -> outcome B) : (Done a ≫= f) = f a.
Proof. reflexivity. Qed.

Lemma outcome_bind_assoc {A B C} (m : outcome A) (f : A -> outcome B) (g : B -> outcome C) :
  (m ≫= fun x => f x ≫= g) = ((m ≫= f) ≫= g).
Proof. by destruct m. Qed.

Lemma bind_Done_inv {A B} (m : outcome A) (f : A -> outcome B) b :
  (m ≫= f) = Done b -> exists a, m = Done a /\ f a = Done b.
Proof. destruct m; simpl; intros H; try discriminate; eauto. Qed.

(** ** Machine integers *)

Definition u8 (x : Z) : Z := x mod 2 ^ 8.
Definition u32 (x : Z) : Z := x mod 2 ^ 32.
Definition u64 (x : Z) : Z := x mod 2 ^ 64.

(** [(int)] of a [long]. *)
Definition to_int (x : Z) : Z := (x + 2 ^ 31) mod 2 ^ 32 - 2 ^ 31.

(** [size_t] subtraction, which wraps. *)
Definition size_sub (a b : Z) : Z := u64 (a - b).

Lemma to_int_id x : - 2 ^ 31 <= x < 2 ^ 31 -> to_int x = x.
Proof. intros. unfold to_int. rewrite Z.mod_small; lia. Qed.

Definition is_byte (x : Z) : Prop := 0 <= x < 256.
Definition is_bytes (l : list Z) : Prop := Forall is_byte l.

#[export] Instance is_byte_dec x : Decision (is_byte x).
Proof. unfold is_byte. apply _. Defined.
#[export] Instance is_bytes_dec l : Decision (is_bytes l).
Proof. unfold is_bytes. apply _. Defined.

Lemma size_sub_le a b : 0 <= b <= a -> a < 2 ^ 64 -> size_sub a b = a - b.
Proof. intros. unfold size_sub, u64. apply Z.mod_small. lia. Qed.

(** A property of every byte is decided by running it on the 256 of them. *)
Definition all_bytes (P : Z -> bool) : bool := forallb P (seqZ 0 256).

Lemma all_bytes_spec P : all_bytes P = true -> forall x, is_byte x -> P x = true.
Proof.
  unfold all_bytes, is_byte. intros H x Hx.
  rewrite forallb_forall in H. apply H, list_elem_of_In, elem_of_seqZ. lia.
Qed.

Definition all_below (n : Z) (P : Z -> bool) : bool := forallb P (seqZ 0 n).

Lemma all_below_spec n P : all_below n P = true -> forall x, 0 <= x < n -> P x = true.
Proof.
  unfold all_below. intros H x Hx.
  rewrite forallb_forall in H. apply H, list_elem_of_In, elem_of_seqZ. lia.
Qed.

(** ** Buffers

    A C buffer is the list of its bytes; a pointer into it is an offset. *)

Definition zlen {A} (l : list A) : Z := Z.of_nat (length l).
Definition ztake {A} (n : Z) (l : list A) : list A := take (Z.to_nat n) l.
Definition zdrop {A} (n : Z) (l : list A) : list A := drop (Z.to_nat n) l.

(** Reading [n] bytes at [off]: undefined outside the buffer. *)
Definition load (b : list Z) (off n : Z) : outcome (list Z) :=
  if (0 <=? off) && (0 <=? n) && (off + n <=? zlen b)
  then Done (ztake n (zdrop off b)) else Fault.

Definition load8 (b : list Z) (off : Z) : outcome Z :=
  if (0 <=? off) && (off <? zlen b)
  then Done (b !!! Z.to_nat off) else Fault.

(** Writing the bytes [bs] at [off]. *)
Definition store (b : list Z) (off : Z) (bs : list Z) : outcome (list Z) :=
  if (0 <=? off) && (off + zlen bs <=? zlen b)
  then Done (ztake off b ++ bs ++ zdrop (off + zlen bs) b) else Fault.

(** ** Automation *)

Create HintDb zlist discriminated.

Lemma zlen_nonneg {A} (l : list A) : 0 <= zlen l.
Proof. unfold zlen. lia. Qed.
#[export] Hint Resolve zlen_nonneg : zlist.

Lemma zlen_nil {A} : zlen (@nil A) = 0.
Proof. reflexivity. Qed.
Lemma zlen_cons {A} (x : A) l : zlen (x :: l) = 1 + zlen l.
Proof. unfold zlen. simpl length. lia. Qed.
Lemma zlen_singleton {A} (x : A) : zlen [x] = 1.
Proof. reflexivity. Qed.
Lemma zlen_app {A} (l k : list A) : zlen (l ++ k) = zlen l + zlen k.
Proof. unfold zlen. rewrite length_app. lia. Qed.
Lemma zlen_map {A B} (f : A -> B) l : zlen (map f l) = zlen l.
Proof. unfold zlen. by rewrite length_map. Qed.
Lemma zlen_replicate {A} n (x : A) : zlen (replicate n x) = Z.of_nat n.
Proof. unfold zlen. by rewrite length_replicate. Qed.
Lemma zlen_ztake {A} n (l : list A) : 0 <= n <= zlen l -> zlen (ztake n l) = n.
Proof. unfold zlen, ztake. rewrite length_take. lia. Qed.
Lemma zlen_zdrop {A} n (l : list A) : 0 <= n <= zlen l -> zlen (zdrop n l) = zlen l - n.
Proof. unfold zlen, zdrop. rewrite length_drop. lia. Qed.

Create Rewrite HintDb zlen.
#[export] Hint Rewrite @zlen_nil @zlen_cons @zlen_app @zlen_map @zlen_replicate : zlen.
Lemma zlen_ztake_max {A} n (l : list A) : zlen (ztake n l) = Z.max 0 (Z.min n (zlen l)).
Proof. unfold zlen, ztake. rewrite length_take. lia. Qed.
Lemma zlen_zdrop_max {A} n (l : list A) : zlen (zdrop n l) = Z.max 0 (zlen l - Z.max 0 n).
Proof. unfold zlen, zdrop. rewrite length_drop. lia. Qed.
#[export] Hint Rewrite @zlen_ztake_max @zlen_zdrop_max : zlen.

Lemma ztake_0 {A} (l : list A) : ztake 0 l = [].
Proof. reflexivity. Qed.
Lemma zdrop_0 {A} (l : list A) : zdrop 0 l = l.
Proof. reflexivity. Qed.
Lemma ztake_zdrop {A} n (l : list A) : ztake n l ++ zdrop n l = l.
Proof. apply take_drop. Qed.
Lemma zdrop_zdrop {A} n m (l : list A) :
  0 <= n -> 0 <= m -> zdrop n (zdrop m l) = zdrop (m + n) l.
Proof. intros. unfold zdrop. rewrite drop_drop. f_equal. lia. Qed.
Lemma ztake_all {A} n (l : list A) : zlen l <= n -> ztake n l = l.
Proof. unfold zlen, ztake. intros. apply take_ge. lia. Qed.
Lemma zdrop_all {A} n (l : list A) : zlen l <= n -> zdrop n l = [].
Proof. unfold zlen, zdrop. intros. apply drop_ge. lia. Qed.
Lemma ztake_ztake {A} n m (l : list A) : 0 <= n <= m -> ztake n (ztake m l) = ztake n l.
Proof. intros. unfold ztake. rewrite take_take. f_equal. lia. Qed.
Lemma ztake_add {A} n m (l : list A) :
  0 <= n -> 0 <= m -> ztake (n + m) l = ztake n l ++ ztake m (zdrop n l).
Proof.
  intros. unfold ztake, zdrop. rewrite Z2Nat.inj_add by lia.
  by rewrite take_take_drop.
Qed.
Lemma ztake_app_l {A} n (l k : list A) : n <= zlen l -> ztake n (l ++ k) = ztake n l.
Proof. unfold zlen, ztake. intros. apply take_app_le. lia. Qed.
Lemma zdrop_app_l {A} n (l k : list A) : n <= zlen l -> zdrop n (l ++ k) = zdrop n l ++ k.
Proof. unfold zlen, zdrop. intros. apply drop_app_le. lia. Qed.
Lemma zdrop_app_r {A} n (l k : list A) :
  zlen l <= n -> zdrop n (l ++ k) = zdrop (n - zlen l) k.
Proof.
  unfold zlen, zdrop. intros. rewrite drop_app_ge by lia. f_equal. lia.
Qed.
Lemma ztake_app_r {A} n (l k : list A) :
  zlen l <= n -> ztake n (l ++ k) = l ++ ztake (n - zlen l) k.
Proof.
  unfold zlen, ztake. intros. rewrite take_app_ge by lia. do 2 f_equal. lia.
Qed.

Lemma is_bytes_ztake n l : is_bytes l -> is_bytes (ztake n l).
Proof. apply Forall_take. Qed.
Lemma is_bytes_zdrop n l : is_bytes l -> is_bytes (zdrop n l).
Proof. apply Forall_drop. Qed.
Lemma is_bytes_app l k : is_bytes l -> is_bytes k -> is_bytes (l ++ k).
Proof. apply Forall_app_2. Qed.
#[export] Hint Resolve is_bytes_ztake is_bytes_zdrop is_bytes_app : zlist.

(** Turns boolean comparisons into arithmetic facts, in every hypothesis. *)
Ltac bool_to_prop :=
  repeat match goal with
  | H : (_ && _)%bool = true |- _ => apply andb_prop in H; destruct H
  | H : (_ || _)%bool = false |- _ => apply orb_false_elim in H; destruct H
  | H : negb _ = true |- _ => apply negb_true_iff in H
  | H : negb _ = false |- _ => apply negb_false_iff in H
  | H : (_ <=? _) = true |- _ => apply Z.leb_le in H
  | H : (_ <=? _) = false |- _ => apply Z.leb_gt in H
  | H : (_ <? _) = true |- _ => apply Z.ltb_lt in H
  | H : (_ <? _) = false |- _ => apply Z.ltb_ge in H
  | H : (_ >=? _) = true |- _ => rewrite Z.geb_leb in H; apply Z.leb_le in H
  | H : (_ >=? _) = false |- _ => rewrite Z.geb_leb in H; apply Z.leb_gt in H
  | H : (_ >? _) = true |- _ => rewrite Z.gtb_ltb in H; apply Z.ltb_lt in H
  | H : (_ >? _) = false |- _ => rewrite Z.gtb_ltb in H; apply Z.ltb_ge in H
  | H : (_ =? _) = true |- _ => apply Z.eqb_eq in H
  | H : (_ =? _) = false |- _ => apply Z.eqb_neq in H
  end.

(** Splits the first conditional or match of the goal. *)
Ltac split_if :=
  match goal with
  | |- context [if ?b then _ else _] => destruct b eqn:?
  end; bool_to_prop.

Ltac zlens := autorewrite with zlen in *; try lia; try (unfold zlen in *; lia).

Lemma load_Done b off n :
  0 <= off -> 0 <= n -> off + n <= zlen b -> load b off n = Done (ztake n (zdrop off b)).
Proof.
  intros. unfold load.
  rewrite (proj2 (Z.leb_le 0 off)), (proj2 (Z.leb_le 0 n)), (proj2 (Z.leb_le _ _)) by lia.
  done.
Qed.

Lemma load8_Done b off :
  0 <= off < zlen b -> load8 b off = Done (b !!! Z.to_nat off).
Proof.
  intros. unfold load8.
  rewrite (proj2 (Z.leb_le 0 off)), (proj2 (Z.ltb_lt _ _)) by lia. done.
Qed.

Lemma store_Done b off bs :
  0 <= off -> off + zlen bs <= zlen b ->
  store b off bs = Done (ztake off b ++ bs ++ zdrop (off + zlen bs) b).
Proof.
  intros. unfold store.
  rewrite (proj2 (Z.leb_le 0 off)), (proj2 (Z.leb_le _ _)) by lia. done.
Qed.

Lemma store_length b off bs b' : store b off bs = Done b' -> zlen b' = zlen b.
Proof.
  unfold store. split_if; [|done]. intros [= <-].
  pose proof (zlen_nonneg bs). zlens.
Qed.

(** ** Bits

    Two bytes are equal when their eight bits are; [byte_bits] proves such an
    equation between expressions built with shifts and masks, bit by bit. *)

Lemma is_byte_testbit x i : is_byte x -> 8 <= i -> Z.testbit x i = false.
Proof.
  intros [Hx Hy] Hi. destruct (Z.eq_dec x 0) as [->|]; [apply Z.testbit_0_l|].
  apply Z.bits_above_log2; [lia|].
  assert (Z.log2 x < 8) by (apply Z.log2_lt_pow2; lia). lia.
Qed.

Lemma byte_ext x y :
  is_byte x -> is_byte y ->
  Forall (fun i => Z.testbit x i = Z.testbit y i) (seqZ 0 8) -> x = y.
Proof.
  intros Hx Hy H. apply Z.bits_inj'. intros i Hi.
  destruct (Z.lt_ge_cases i 8).
  - rewrite Forall_forall in H. apply H, elem_of_seqZ. lia.
  - by rewrite !is_byte_testbit.
Qed.

Lemma u8_byte x : is_byte (u8 x).
Proof. unfold u8, is_byte. change 256 with (2 ^ 8). apply Z.mod_pos_bound. lia. Qed.

Lemma u8_id x : is_byte x -> u8 x = x.
Proof. intros. unfold u8. apply Z.mod_small. exact H. Qed.

Lemma is_byte_land x : is_byte x <-> Z.land x 255 = x.
Proof.
  change 255 with (Z.ones 8). rewrite Z.land_ones by lia. split.
  - intros. by apply Z.mod_small.
  - intros <-. apply u8_byte.
Qed.

Lemma byte_land_r x m : 0 <= m < 256 -> is_byte (Z.land x m).
Proof. intros Hm%is_byte_land. apply is_byte_land. by rewrite <- Z.land_assoc, Hm. Qed.

Lemma byte_lor x y : is_byte x -> is_byte y -> is_byte (Z.lor x y).
Proof. rewrite !is_byte_land. intros Hx Hy. by rewrite Z.land_lor_distr_l, Hx, Hy. Qed.

Lemma byte_shiftr x k : is_byte x -> 0 <= k -> is_byte (Z.shiftr x k).
Proof.
  intros Hx Hk. split; [apply Z.shiftr_nonneg, Hx|].
  rewrite Z.shiftr_div_pow2 by done. apply Z.div_lt_upper_bound; [lia|].
  destruct Hx. nia.
Qed.

Lemma land_le_r x m : 0 <= m -> 0 <= Z.land x m <= m.
Proof.
  intros Hm. split; [apply Z.land_nonneg; lia|].
  assert (m - Z.land x m = Z.ldiff m (Z.land x m)) as E.
  { apply Z.sub_nocarry_ldiff. rewrite Z.ldiff_land, <- Z.land_assoc, <- Z.ldiff_land.
    by rewrite Z.ldiff_diag, Z.land_0_r. }
  assert (0 <= Z.ldiff m (Z.land x m)) by (apply Z.ldiff_nonneg; lia). lia.
Qed.

Lemma byte_shiftl_land x m k :
  0 <= k -> 0 <= m -> m * 2 ^ k < 256 -> is_byte (Z.shiftl (Z.land x m) k).
Proof.
  intros Hk Hm Hb. pose proof (land_le_r x m Hm). unfold is_byte.
  rewrite Z.shiftl_mul_pow2 by done. nia.
Qed.

Lemma u8_testbit x i : 0 <= i < 8 -> Z.testbit (u8 x) i = Z.testbit x i.
Proof. intros. unfold u8. apply Z.mod_pow2_bits_low. lia. Qed.
Lemma u32_testbit x i : 0 <= i < 32 -> Z.testbit (u32 x) i = Z.testbit x i.
Proof. intros. unfold u32. apply Z.mod_pow2_bits_low. lia. Qed.

Lemma u32_testbit_high x i : 32 <= i -> Z.testbit (u32 x) i = false.
Proof. intros. unfold u32. apply Z.mod_pow2_bits_high. lia. Qed.

Create HintDb bytes discriminated.
#[export] Hint Resolve u8_byte byte_lor byte_shiftr byte_land_r : bytes.
#[export] Hint Extern 1 (is_byte (Z.shiftl (Z.land _ _) _)) =>
  (apply byte_shiftl_land; vm_compute; (reflexivity || discriminate)) : bytes.
#[export] Hint Extern 1 (_ <= _) => lia : bytes.
#[export] Hint Extern 1 (_ <= _ < _) => lia : bytes.
#[export] Hint Extern 2 (is_byte _) => (unfold is_byte in *; lia) : bytes.

Ltac testbit_step :=
  match goal with
  | |- context [Z.testbit (Z.land ?x ?y) ?i] => rewrite (Z.land_spec x y i)
  | |- context [Z.testbit (Z.lor ?x ?y) ?i] => rewrite (Z.lor_spec x y i)
  | |- context [Z.testbit (Z.shiftr ?x ?k) ?i] =>
      rewrite (Z.shiftr_spec x k i) by lia; let j := eval vm_compute in (i + k) in
      change (i + k) with j
  | |- context [Z.testbit (Z.shiftl ?x ?k) ?i] =>
      rewrite (Z.shiftl_spec x k i) by lia; let j := eval vm_compute in (i - k) in
      change (i - k) with j
  | |- context [Z.testbit (u8 ?x) ?i] => rewrite (u8_testbit x i) by lia
  | |- context [Z.testbit (u32 ?x) ?i] => 
      first [rewrite (u32_testbit x i) by lia | rewrite (u32_testbit_high x i) by lia]
  | |- context [Z.testbit ?x (Zneg ?p)] => rewrite (Z.testbit_neg_r x (Zneg p)) by lia
  | |- context [Z.testbit ?x ?i] =>
      rewrite (is_byte_testbit x i) by (assumption || lia)
  | |- context [Z.testbit (Zpos ?p) ?i] =>
      let b := eval vm_compute in (Z.testbit (Zpos p) i) in
      change (Z.testbit (Zpos p) i) with b
  | |- context [Z.testbit 0 ?i] => rewrite (Z.testbit_0_l i)
  end.

Ltac bool_simpl :=
  rewrite ?andb_false_r, ?andb_true_r, ?orb_false_r, ?orb_true_r, ?andb_false_l,
    ?andb_true_l, ?orb_false_l, ?orb_true_l.

(** [byte_bits]: the two sides are bytes and agree on each of the eight bits. *)
Ltac byte_bits :=
  apply byte_ext; [solve [eauto 12 with bytes] | solve [eauto 12 with bytes] |];
  let l := eval vm_compute in (seqZ 0 8) in change (seqZ 0 8) with l;
  repeat (apply Forall_cons; split); [.. | apply Forall_nil; exact I];
  repeat testbit_step; bool_simpl; try reflexivity.

(** Equates two lists element by element, without looking inside the elements. *)
Ltac list_eq :=
  repeat match goal with
  | |- _ :: _ = _ :: _ => apply (f_equal2 cons)
  end.

(** Reading a disjunction of bits as a sum. *)
Lemma lor_shiftl_add a b n : 0 <= n -> 0 <= b < 2 ^ n -> Z.lor (Z.shiftl a n) b = a * 2 ^ n + b.
Proof.
  intros Hn Hb. rewrite <- Z.shiftl_mul_pow2 by done.
  rewrite <- Z.lxor_lor; [rewrite Z.add_nocarry_lxor; [done|]|];
    apply Z.bits_inj'; intros i Hi; rewrite Z.land_spec, Z.testbit_0_l;
    (destruct (Z.lt_ge_cases i n);
     [rewrite Z.shiftl_spec_low by done; done
     |rewrite (Z.testbit_neg_r _ 0) || idtac;
      replace (Z.testbit b i) with false; [by rewrite andb_false_r|];
      symmetry; destruct (Z.eq_dec b 0) as [->|]; [apply Z.testbit_0_l|];
      apply Z.bits_above_log2; [lia|]; apply Z.log2_lt_pow2; [lia|];
      assert (2 ^ n <= 2 ^ i) by (apply Z.pow_le_mono_r; lia); lia]).
Qed.

(** A store that covers the tail of the previous one. *)
Lemma store_overlap b d p s q :
  0 <= d -> zlen s <= zlen q -> d + zlen p + zlen q <= zlen b ->
  (store b d (p ++ s) ≫= fun b' => store b' (d + zlen p) q) = store b d (p ++ q).
Proof.
  intros Hd Hs Hb. pose proof (zlen_nonneg p). pose proof (zlen_nonneg s).
  rewrite store_Done by (zlens). rewrite bind_Done.
  rewrite !store_Done by zlens. f_equal.
  set (x := ztake d b ++ p).
  assert (zlen x = d + zlen p) as Hx by (unfold x; zlens).
  replace (ztake d b ++ (p ++ s) ++ zdrop (d + zlen (p ++ s)) b)
    with (x ++ (s ++ zdrop (d + zlen (p ++ s)) b)) by (unfold x; by rewrite <- !app_assoc).
  rewrite ztake_app_l, (ztake_all _ x) by lia.
  rewrite zdrop_app_r by lia. rewrite zdrop_app_r by lia.
  rewrite zdrop_zdrop by (rewrite ?zlen_app; lia).
  unfold x. rewrite <- !app_assoc. do 4 f_equal. zlens.
Qed.

(** ** Splicing bytes into a buffer *)

Definition splice (b : list Z) (d : Z) (out : list Z) : list Z :=
  ztake d b ++ out ++ zdrop (d + zlen out) b.

Lemma store_splice b d out :
  0 <= d -> d + zlen out <= zlen b -> store b d out = Done (splice b d out).
Proof. apply store_Done. Qed.

Lemma zlen_splice b d out : 0 <= d -> d + zlen out <= zlen b -> zlen (splice b d out) = zlen b.
Proof. intros. pose proof (zlen_nonneg out). unfold splice. zlens. Qed.

Lemma is_bytes_splice b d out : is_bytes b -> is_bytes out -> is_bytes (splice b d out).
Proof. intros. unfold splice. auto with zlist. Qed.
#[export] Hint Resolve is_bytes_splice : zlist.

Lemma splice_nil b d : 0 <= d -> splice b d [] = b.
Proof. intros. unfold splice. rewrite zlen_nil, Z.add_0_r. cbn [app]. apply ztake_zdrop. Qed.

Lemma splice_splice b d o1 o2 :
  0 <= d -> d + zlen o1 + zlen o2 <= zlen b ->
  splice (splice b d o1) (d + zlen o1) o2 = splice b d (o1 ++ o2).
Proof.
  intros Hd Hb. pose proof (zlen_nonneg o1). pose proof (zlen_nonneg o2).
  assert (zlen (ztake d b ++ o1) = d + zlen o1) as Hx by zlens.
  unfold splice. rewrite (app_assoc (ztake d b) o1).
  rewrite ztake_app_l, (ztake_all _ (ztake d b ++ o1)) by lia.
  rewrite zdrop_app_r by lia. rewrite zdrop_zdrop by lia.
  rewrite Hx, zlen_app, <- !app_assoc. do 4 f_equal. lia.
Qed.

(** Writing the front after the back. *)
Lemma splice_before b d o1 o2 :
  0 <= d -> d + zlen o1 + zlen o2 <= zlen b ->
  splice (splice b (d + zlen o1) o2) d o1 = splice b d (o1 ++ o2).
Proof.
  intros Hd Hb. pose proof (zlen_nonneg o1). pose proof (zlen_nonneg o2).
  assert (zlen (ztake (d + zlen o1) b) = d + zlen o1) as Hx by zlens.
  unfold splice. rewrite ztake_app_l, ztake_ztake by lia.
  rewrite zdrop_app_r, Hx, Z.sub_diag, zdrop_0 by lia.
  rewrite zlen_app, <- !app_assoc. do 4 f_equal. lia.
Qed.

Lemma splice_read b d out :
  0 <= d -> d + zlen out <= zlen b -> ztake (zlen out) (zdrop d (splice b d out)) = out.
Proof.
  intros Hd Hb. pose proof (zlen_nonneg out). assert (zlen (ztake d b) = d) as L by zlens.
  unfold splice. rewrite zdrop_app_r by lia. rewrite L, Z.sub_diag, zdrop_0.
  rewrite ztake_app_l by lia. apply ztake_all. lia.
Qed.

Lemma splice_0_prefix b out : zlen out <= zlen b -> ztake (zlen out) (splice b 0 out) = out.
Proof. intros. rewrite <- (zdrop_0 (splice b 0 out)). apply splice_read; lia. Qed.

Lemma splice_0_suffix b out : zlen out <= zlen b -> zdrop (zlen out) (splice b 0 out) = zdrop (zlen out) b.
Proof.
  intros. unfold splice. rewrite ztake_0. cbn [app]. rewrite zdrop_app_r by lia.
  by rewrite Z.sub_diag, zdrop_0, Z.add_0_l.
Qed.

(** Appending to what was written at the front. *)
Lemma store_behind d out bs :
  zlen out + zlen bs <= zlen d ->
  store (splice d 0 out) (zlen out) bs = Done (splice d 0 (out ++ bs)).
Proof.
  intros H. pose proof (zlen_nonneg out). pose proof (zlen_nonneg bs).
  rewrite store_splice by (rewrite ?zlen_splice; lia). f_equal. apply (splice_splice d 0); lia.
Qed.

(** The byte behind a prefix. *)
Lemma load8_middle (p : list Z) z q : load8 (p ++ z :: q) (zlen p) = Done z.
Proof.
  pose proof (zlen_nonneg p). pose proof (zlen_nonneg q).
  rewrite load8_Done by (rewrite zlen_app, zlen_cons; lia).
  unfold zlen. by rewrite Nat2Z.id, list_lookup_total_middle.
Qed.

(** ** Boolean quantifiers *)

Lemma forallb_ext {A} (f g : A -> bool) l :
  (forall x, f x = g x) -> forallb f l = forallb g l.
Proof. intros H. induction l as [|x l IH]; cbn [forallb]; [done|]. by rewrite H, IH. Qed.

(** ** One element at a time *)

Lemma zdrop_cons (l : list Z) i :
  0 <= i < zlen l -> zdrop i l = l !!! Z.to_nat i :: zdrop (i + 1) l.
Proof.
  intros H. unfold zdrop. replace (Z.to_nat (i + 1)) with (S (Z.to_nat i)) by lia.
  apply drop_S. rewrite list_lookup_lookup_total_lt; [done|]. unfold zlen in H. lia.
Qed.

Lemma ztake_zdrop_cons (l : list Z) i n :
  0 <= i < zlen l -> 0 <= n ->
  ztake (1 + n) (zdrop i l) = l !!! Z.to_nat i :: ztake n (zdrop (i + 1) l).
Proof.
  intros. rewrite zdrop_cons by done. unfold ztake. by replace (Z.to_nat (1 + n)) with (S (Z.to_nat n)) by lia.
Qed.
