(* ===== verification/Vec.v ===== *)
(** * 128-bit vectors

    The vector type [u8x16] and the instructions the three SIMD kernels use
    (encoding/simdbase64, encoding/simdhex, internal/bytealg), written lane by
    lane.  A vector is the list of its 16 bytes, lane 0 first; [u32x4] is the same
    16 bytes read as little-endian words.  [arch] selects the instruction set, as
    the preprocessor conditions of the sources do. *)

From S2P Require Import Prelude.

Inductive arch : Set := Aarch64 | X86_64.

#[export] Instance arch_eq_dec : EqDecision arch.
Proof. solve_decision. Defined.

Definition vec := list Z.

(** ** Lane-wise operators *)

Definition vmap2 (f : Z -> Z -> Z) (a b : vec) : vec := zip_with f a b.
Definition vand : vec -> vec -> vec := vmap2 Z.land.
Definition vor : vec -> vec -> vec := vmap2 Z.lor.
Definition vxor : vec -> vec -> vec := vmap2 Z.lxor.
Definition vadd : vec -> vec -> vec := vmap2 (fun a b => u8 (a + b)).
Definition vsub : vec -> vec -> vec := vmap2 (fun a b => u8 (a - b)).
Definition vmin : vec -> vec -> vec := vmap2 Z.min.
Definition vshr (k : Z) (a : vec) : vec := map (fun x => Z.shiftr x k) a.
Definition vshl (k : Z) (a : vec) : vec := map (fun x => u8 (Z.shiftl x k)) a.

(** A comparison yields all ones where it holds. *)
Definition mask (b : bool) : Z := if b then 255 else 0.
Definition veq : vec -> vec -> vec := vmap2 (fun a b => mask (a =? b)).
Definition vne : vec -> vec -> vec := vmap2 (fun a b => mask (negb (a =? b))).
Definition vgt : vec -> vec -> vec := vmap2 (fun a b => mask (a >? b)).
Definition vlt : vec -> vec -> vec := vmap2 (fun a b => mask (a <? b)).
Definition vle : vec -> vec -> vec := vmap2 (fun a b => mask (a <=? b)).

(** [{x,x,...,x}], and a constant padded with zero lanes to 16. *)
Definition vsplat (x : Z) : vec := replicate 16 x.
Definition vconst (l : list Z) : vec := l ++ replicate (16 - length l) 0.

(** [__builtin_shufflevector]: the lane indices select from both operands. *)
Definition vshuffle (a b : vec) (idx : list nat) : vec :=
  map (fun i => (a ++ b) !!! i) idx.

(** ** Table lookup, shifts and reductions of the two instruction sets *)

(** TBL: an index of 16 or more gives 0. *)
Definition tbl (table indices : vec) : vec :=
  map (fun i => if i <? 16 then table !!! Z.to_nat i else 0) indices.
(** PSHUFB: a set high bit gives 0, otherwise the low four bits select. *)
Definition pshufb (table indices : vec) : vec :=
  map (fun i => if Z.testbit i 7 then 0 else table !!! Z.to_nat (Z.land i 15)) indices.

(** USHL: a signed count per lane, to the right when negative. *)
Definition ushl1 (x s : Z) : Z := if s <? 0 then Z.shiftr x (- s) else u8 (Z.shiftl x s).
Definition ushl : vec -> vec -> vec := vmap2 ushl1.

(** CLZ on 8-bit lanes. *)
Definition clz8 (x : Z) : Z := if x =? 0 then 8 else 7 - Z.log2 x.
Definition vclz (a : vec) : vec := map clz8 a.

(** SLI: shift left and insert, keeping the low [n] bits of the destination. *)
Definition vsli (n : Z) (dest a : vec) : vec :=
  vmap2 (fun d x => Z.lor (u8 (Z.shiftl x n)) (Z.land d (Z.ones n))) dest a.

(** UMINV and UMAXV. *)
Definition reduce_min (v : vec) : Z := foldr Z.min 255 v.
Definition reduce_max (v : vec) : Z := foldr Z.max 0 v.

(** PMOVMSKB: bit [i] is the high bit of lane [i]. *)
Fixpoint pmovmskb (v : vec) : Z :=
  match v with
  | [] => 0
  | x :: v => Z.b2z (Z.testbit x 7) + 2 * pmovmskb v
  end.

(** ** Reinterpretation as little-endian 32-bit words *)

Definition word4 (a b c d : Z) : Z :=
  Z.lor a (Z.lor (Z.shiftl b 8) (Z.lor (Z.shiftl c 16) (Z.shiftl d 24))).

Fixpoint to_u32x4 (v : vec) : list Z :=
  match v with
  | a :: b :: c :: d :: v => word4 a b c d :: to_u32x4 v
  | _ => []
  end.

Definition of_word (w : Z) : list Z :=
  [Z.land w 255; Z.land (Z.shiftr w 8) 255; Z.land (Z.shiftr w 16) 255;
   Z.land (Z.shiftr w 24) 255].
Definition of_u32x4 (w : list Z) : vec := w ≫= of_word.

Definition wshl (k : Z) (w : list Z) : list Z := map (fun x => u32 (Z.shiftl x k)) w.
Definition wshr (k : Z) (w : list Z) : list Z := map (fun x => Z.shiftr x k) w.

(** ** Structured loads and stores: LD3, LD4, ST3, ST4 *)

Fixpoint ld4 (l : list Z) : list (Z * Z * Z * Z) :=
  match l with
  | a :: b :: c :: d :: l => (a, b, c, d) :: ld4 l
  | _ => []
  end.
Fixpoint ld3 (l : list Z) : list (Z * Z * Z) :=
  match l with
  | a :: b :: c :: l => (a, b, c) :: ld3 l
  | _ => []
  end.
Fixpoint st3 (a b c : vec) : list Z :=
  match a, b, c with
  | x :: a, y :: b, z :: c => x :: y :: z :: st3 a b c
  | _, _, _ => []
  end.
Fixpoint st4 (a b c d : vec) : list Z :=
  match a, b, c, d with
  | x :: a, y :: b, z :: c, w :: d => x :: y :: z :: w :: st4 a b c d
  | _, _, _, _ => []
  end.

(** ** Lane-wise reading of vector code

    Vector expressions built from one operand [x] are maps over its lanes; the
    rewrite base [lanes] puts them in that form. *)

Lemma vmap2_map f g h (x : list Z) :
  vmap2 f (map g x) (map h x) = map (fun c => f (g c) (h c)) x.
Proof. unfold vmap2. induction x as [|c x IH]; simpl; [done|]. by rewrite IH. Qed.

Lemma vmap2_map_l f g (x : list Z) :
  vmap2 f (map g x) x = map (fun c => f (g c) c) x.
Proof. unfold vmap2. induction x as [|c x IH]; simpl; [done|]. by rewrite IH. Qed.

Lemma vmap2_map_r f h (x : list Z) :
  vmap2 f x (map h x) = map (fun c => f c (h c)) x.
Proof. unfold vmap2. induction x as [|c x IH]; simpl; [done|]. by rewrite IH. Qed.

Lemma vmap2_splat f (x : vec) k :
  length x = 16%nat -> vmap2 f x (vsplat k) = map (fun c => f c k) x.
Proof. intros H. unfold vmap2, vsplat. rewrite <- H. by rewrite zip_with_replicate_r_eq. Qed.

Lemma vmap2_splat_l f (x : vec) k :
  length x = 16%nat -> vmap2 f (vsplat k) x = map (fun c => f k c) x.
Proof. intros H. unfold vmap2, vsplat. rewrite <- H, zip_with_replicate_l; done. Qed.

Lemma vmap2_length f a b : length a = length b -> length (vmap2 f a b) = length a.
Proof. intros. unfold vmap2. rewrite length_zip_with. lia. Qed.

Lemma tbl_length t i : length (tbl t i) = length i.
Proof. apply length_map. Qed.

(** [pshufb] and [tbl] agree on the indices the code uses: 0..15 and 255. *)
Lemma pshufb_tbl t i :
  Forall (fun x => 0 <= x < 16 \/ x = 255) i -> pshufb t i = tbl t i.
Proof.
  intros H. unfold pshufb, tbl. apply map_ext_Forall.
  eapply Forall_impl; [exact H|]. intros x [Hx| ->]; [|reflexivity]. cbv beta.
  assert (forallb (fun x => negb (Z.testbit x 7) && (Z.land x 15 =? x)) (seqZ 0 16) = true)
    as Hc by (vm_compute; reflexivity).
  rewrite forallb_forall in Hc. specialize (Hc x).
  rewrite <- list_elem_of_In, elem_of_seqZ in Hc.
  specialize (Hc ltac:(lia)). apply andb_prop in Hc as [Ha%negb_true_iff Hb%Z.eqb_eq].
  rewrite Ha, Hb. by rewrite (proj2 (Z.ltb_lt x 16)) by lia.
Qed.

Lemma reduce_min_nonzero v :
  Forall (fun x => 0 <= x) v ->
  negb (reduce_min v =? 0) = forallb (fun x => negb (x =? 0)) v.
Proof.
  unfold reduce_min. induction 1 as [|x v Hx Hv IH]; [done|].
  assert (0 <= foldr Z.min 255 v) by (clear - Hv; induction Hv; cbn [foldr]; lia).
  cbn [foldr forallb]. rewrite <- IH.
  destruct (Z.eqb_spec x 0), (Z.eqb_spec (foldr Z.min 255 v) 0),
    (Z.eqb_spec (Z.min x (foldr Z.min 255 v)) 0); cbn [negb andb]; try reflexivity; exfalso; lia.
Qed.

Lemma pmovmskb_zero v : (pmovmskb v =? 0) = forallb (fun x => negb (Z.testbit x 7)) v.
Proof.
  assert (forall v, 0 <= pmovmskb v) as Hp.
  { clear v. induction v as [|x v IH]; [simpl; lia|].
    cbn [pmovmskb]. destruct (Z.testbit x 7); cbn [Z.b2z]; lia. }
  induction v as [|x v IH]; [done|].
  change (forallb (fun x => negb (Z.testbit x 7)) (x :: v)) with
    (negb (Z.testbit x 7) && forallb (fun x => negb (Z.testbit x 7)) v).
  rewrite <- IH. specialize (Hp v).
  cbn [pmovmskb]. destruct (Z.testbit x 7), (Z.eqb_spec (pmovmskb v) 0);
    cbn [Z.b2z negb andb]; [| |lia|]; apply Z.eqb_neq; lia.
Qed.

Lemma pmovmskb_full v :
  (pmovmskb v =? 2 ^ zlen v - 1) = forallb (fun x => Z.testbit x 7) v.
Proof.
  assert (forall v, 0 <= pmovmskb v <= 2 ^ zlen v - 1) as Hp.
  { clear v. induction v as [|x v IH]; [done|]. cbn [pmovmskb]. rewrite zlen_cons.
    rewrite Z.pow_add_r by (unfold zlen; lia). change (2 ^ 1) with 2.
    destruct (Z.testbit x 7); cbn [Z.b2z]; lia. }
  induction v as [|x v IH]; [done|].
  change (forallb (fun x => Z.testbit x 7) (x :: v)) with
    (Z.testbit x 7 && forallb (fun x => Z.testbit x 7) v).
  rewrite <- IH. specialize (Hp v). rewrite zlen_cons, Z.pow_add_r by (unfold zlen; lia).
  change (2 ^ 1) with 2. cbn [pmovmskb].
  destruct (Z.testbit x 7), (Z.eqb_spec (pmovmskb v) (2 ^ zlen v - 1)); cbn [Z.b2z andb];
    [apply Z.eqb_eq|apply Z.eqb_neq..]; lia.
Qed.

Lemma reduce_max_nonzero v :
  Forall (fun x => 0 <= x) v ->
  negb (reduce_max v =? 0) = existsb (fun x => negb (x =? 0)) v.
Proof.
  unfold reduce_max. induction 1 as [|x v Hx Hv IH]; [done|].
  assert (0 <= foldr Z.max 0 v) by (clear - Hv; induction Hv; cbn [foldr]; lia).
  cbn [foldr existsb]. rewrite <- IH.
  destruct (Z.eqb_spec x 0), (Z.eqb_spec (foldr Z.max 0 v) 0),
    (Z.eqb_spec (Z.max x (foldr Z.max 0 v)) 0); cbn [negb orb]; try reflexivity; exfalso; lia.
Qed.

(** Puts a vector expression over one operand, [H : length x = 16], into the form
    [map f x]. *)
Ltac lane_maps H :=
  unfold vand, vor, vadd, vsub, veq, vne, vgt, vlt, vle, vshr, vshl, vclz;
  repeat first [ match goal with
                 | |- context [vmap2 ?f ?y (vsplat ?k)] =>
                     rewrite (vmap2_splat f y k) by (rewrite ?length_map; exact H)
                 | |- context [vmap2 ?f (vsplat ?k) ?y] =>
                     rewrite (vmap2_splat_l f y k) by (rewrite ?length_map; exact H)
                 end
               | rewrite map_map | rewrite vmap2_map | rewrite vmap2_map_l
               | rewrite vmap2_map_r ].
