(* ===== verification/Base64Spec.v ===== *)
(** * Base64 as RFC 4648 defines it

    The reference the vector kernels are compared with: the two alphabets, the
    decoding of a text whose line breaks are ignored, the encoding of whole
    triples, and the round trip between them.  Nothing here is taken from the C
    sources. *)

From S2P Require Import Prelude.

(** ** The alphabets *)

Definition between (a c b : Z) : bool := (a <=? c) && (c <=? b).

(** The value of a character: [url] selects the table of section 5. *)
Definition b64_val (url : bool) (c : Z) : option Z :=
  if between 65 c 90 then Some (c - 65)
  else if between 97 c 122 then Some (c - 71)
  else if between 48 c 57 then Some (c + 4)
  else if c =? (if url then 45 else 43) then Some 62
  else if c =? (if url then 95 else 47) then Some 63
  else None.

Definition b64_char (url : bool) (k : Z) : Z :=
  if k <? 26 then k + 65
  else if k <? 52 then k + 71
  else if k <? 62 then k - 4
  else if k =? 62 then (if url then 45 else 43)
  else (if url then 95 else 47).

Definition is_nl (c : Z) : bool := (c =? 13) || (c =? 10).
Definition payload (cs : list Z) : list Z := filter (fun c => is_nl c = false) cs.

(** ** Groups of 24 bits *)

Definition group24 (d0 d1 d2 d3 : Z) : Z := d0 * 2 ^ 18 + d1 * 2 ^ 12 + d2 * 2 ^ 6 + d3.

Definition dec4 (d0 d1 d2 d3 : Z) : list Z :=
  let n := group24 d0 d1 d2 d3 in [n / 2 ^ 16; (n / 2 ^ 8) mod 2 ^ 8; n mod 2 ^ 8].

Fixpoint dec_groups (ds : list Z) : list Z :=
  match ds with
  | d0 :: d1 :: d2 :: d3 :: ds => dec4 d0 d1 d2 d3 ++ dec_groups ds
  | _ => []
  end.

Definition enc3 (b0 b1 b2 : Z) : list Z :=
  let n := b0 * 2 ^ 16 + b1 * 2 ^ 8 + b2 in
  [n / 2 ^ 18; (n / 2 ^ 12) mod 2 ^ 6; (n / 2 ^ 6) mod 2 ^ 6; n mod 2 ^ 6].

Fixpoint enc_groups (bs : list Z) : list Z :=
  match bs with
  | b0 :: b1 :: b2 :: bs => enc3 b0 b1 b2 ++ enc_groups bs
  | _ => []
  end.

(** ** Reference decoder and encoder *)

(** Decodes a text of whole quanta; CR and LF are ignored wherever they stand. *)
Definition ref_decode (url : bool) (cs : list Z) : option (list Z) :=
  ds ← mapM (b64_val url) (payload cs);
  if (zlen ds mod 4 =? 0) then Some (dec_groups ds) else None.

Definition ref_encode (url : bool) (bs : list Z) : list Z :=
  map (b64_char url) (enc_groups bs).

(** ** Facts about the alphabet *)

Lemma b64_val_range url c k : b64_val url c = Some k -> 0 <= k < 64.
Proof. unfold b64_val, between. intros. repeat case_match; bool_to_prop; simplify_eq; lia. Qed.

Lemma b64_val_char url k : 0 <= k < 64 -> b64_val url (b64_char url k) = Some k.
Proof.
  intros Hk.
  assert (all_below 64 (fun k => match b64_val url (b64_char url k) with
                                 | Some k' => k' =? k | None => false end) = true) as H
    by (destruct url; vm_compute; reflexivity).
  pose proof (all_below_spec _ _ H k Hk) as Hc. cbv beta in Hc.
  destruct (b64_val url (b64_char url k)); [|done]. by apply Z.eqb_eq in Hc as ->.
Qed.

Lemma b64_val_not_nl url c : is_Some (b64_val url c) -> is_nl c = false.
Proof.
  intros [k Hk]. destruct (is_nl c) eqn:E; [|done]. unfold is_nl in E.
  apply orb_prop in E as [->%Z.eqb_eq | ->%Z.eqb_eq]; destruct url; discriminate Hk.
Qed.

Lemma b64_char_byte url k : 0 <= k < 64 -> is_byte (b64_char url k).
Proof. intros. unfold b64_char, is_byte. destruct url; repeat case_match; bool_to_prop; lia. Qed.

(** ** Groups *)

(** Four-at-a-time induction. *)
Lemma list_ind4 {A} (P : list A -> Prop) :
  P [] ->
  (forall a b c d l, P l -> P (a :: b :: c :: d :: l)) ->
  forall l, zlen l mod 4 = 0 -> P l.
Proof.
  intros H0 H4 l. remember (length l) as n eqn:Hn. revert l Hn.
  induction n as [n IH] using lt_wf_ind. intros l -> Hl.
  destruct l as [|a [|b [|c [|d l]]]]; [done| | | |]; try (vm_compute in Hl; discriminate).
  apply H4. eapply IH; [|reflexivity|]; [simpl; lia|].
  rewrite !zlen_cons in Hl.
  replace (1 + (1 + (1 + (1 + zlen l)))) with (zlen l + 1 * 4) in Hl by lia.
  by rewrite Z_mod_plus_full in Hl.
Qed.

Lemma list_ind3 {A} (P : list A -> Prop) :
  P [] ->
  (forall a b c l, P l -> P (a :: b :: c :: l)) ->
  forall l, zlen l mod 3 = 0 -> P l.
Proof.
  intros H0 H4 l. remember (length l) as n eqn:Hn. revert l Hn.
  induction n as [n IH] using lt_wf_ind. intros l -> Hl.
  destruct l as [|a [|b [|c l]]]; [done| | |]; try (vm_compute in Hl; discriminate).
  apply H4. eapply IH; [|reflexivity|]; [simpl; lia|].
  rewrite !zlen_cons in Hl.
  replace (1 + (1 + (1 + zlen l))) with (zlen l + 1 * 3) in Hl by lia.
  by rewrite Z_mod_plus_full in Hl.
Qed.

Lemma dec_groups_app ds es :
  zlen ds mod 4 = 0 -> dec_groups (ds ++ es) = dec_groups ds ++ dec_groups es.
Proof. revert ds. apply list_ind4; [done|]. intros a b c d l IH. simpl. by rewrite IH. Qed.

Lemma enc_groups_app bs cs :
  zlen bs mod 3 = 0 -> enc_groups (bs ++ cs) = enc_groups bs ++ enc_groups cs.
Proof. revert bs. apply list_ind3; [done|]. intros a b c l IH. simpl. by rewrite IH. Qed.

Lemma zlen_dec_groups ds : zlen ds mod 4 = 0 -> 4 * zlen (dec_groups ds) = 3 * zlen ds.
Proof.
  revert ds. apply list_ind4; [done|]. intros a b c d l IH.
  cbn [dec_groups]. rewrite zlen_app, !zlen_cons. unfold dec4. rewrite !zlen_cons, zlen_nil. lia.
Qed.

Lemma zlen_enc_groups bs : zlen bs mod 3 = 0 -> 3 * zlen (enc_groups bs) = 4 * zlen bs.
Proof.
  revert bs. apply list_ind3; [done|]. intros a b c l IH.
  cbn [enc_groups]. rewrite zlen_app, !zlen_cons. unfold enc3. rewrite !zlen_cons, zlen_nil. lia.
Qed.

Lemma dec4_bytes d0 d1 d2 d3 :
  0 <= d0 < 64 -> 0 <= d1 < 64 -> 0 <= d2 < 64 -> 0 <= d3 < 64 ->
  is_bytes (dec4 d0 d1 d2 d3).
Proof.
  intros. unfold dec4, is_bytes, group24. rewrite !Forall_cons, Forall_nil.
  unfold is_byte. repeat split; first [apply Z.mod_pos_bound; lia | idtac].
  - apply Z.div_pos; lia.
  - apply Z.div_lt_upper_bound; lia.
Qed.

Lemma enc3_dec4 b0 b1 b2 :
  is_byte b0 -> is_byte b1 -> is_byte b2 ->
  exists k0 k1 k2 k3, enc3 b0 b1 b2 = [k0; k1; k2; k3] /\
    (0 <= k0 < 64 /\ 0 <= k1 < 64 /\ 0 <= k2 < 64 /\ 0 <= k3 < 64) /\
    dec4 k0 k1 k2 k3 = [b0; b1; b2].
Proof.
  unfold is_byte, enc3, dec4, group24. intros H0 H1 H2. do 4 eexists. split; [reflexivity|].
  change (2 ^ 18) with 262144. change (2 ^ 16) with 65536. change (2 ^ 12) with 4096.
  change (2 ^ 8) with 256. change (2 ^ 6) with 64.
  set (n := b0 * 65536 + b1 * 256 + b2). assert (0 <= n < 16777216) by lia.
  split; [repeat split; Z.div_mod_to_equations; lia|].
  assert (n / 262144 * 262144 + (n / 4096) mod 64 * 4096 + (n / 64) mod 64 * 64 + n mod 64 = n)
    as -> by (Z.div_mod_to_equations; lia).
  repeat f_equal; Z.div_mod_to_equations; lia.
Qed.

(** ** Reference decoder: composition and round trip *)

Lemma payload_app cs ds : payload (cs ++ ds) = payload cs ++ payload ds.
Proof. apply filter_app. Qed.

Lemma payload_nl cs : forallb is_nl cs = true -> payload cs = [].
Proof.
  induction cs as [|c cs IH]; [done|]. cbn [forallb]. intros [Hc Hcs]%andb_prop.
  unfold payload. rewrite filter_cons_False by congruence. by apply IH.
Qed.

Lemma mapM_b64_app {A B} (f : A -> option B) l k dl dk :
  mapM f l = Some dl -> mapM f k = Some dk -> mapM f (l ++ k) = Some (dl ++ dk).
Proof. rewrite !mapM_Some. apply Forall2_app. Qed.

Lemma payload_digits url cs ds : mapM (b64_val url) cs = Some ds -> payload cs = cs.
Proof.
  rewrite mapM_Some. intros H. unfold payload. induction H as [|c d cs ds Hc Hcs IH]; [done|].
  rewrite filter_cons_True; [by rewrite IH|]. eapply b64_val_not_nl; eauto.
Qed.

Lemma ref_decode_nil url : ref_decode url [] = Some [].
Proof. reflexivity. Qed.

Lemma ref_decode_nl url cs : forallb is_nl cs = true -> ref_decode url cs = Some [].
Proof. intros H. unfold ref_decode. by rewrite payload_nl. Qed.

Lemma ref_decode_app url cs1 cs2 o1 o2 :
  ref_decode url cs1 = Some o1 -> ref_decode url cs2 = Some o2 ->
  ref_decode url (cs1 ++ cs2) = Some (o1 ++ o2).
Proof.
  unfold ref_decode. rewrite payload_app.
  destruct (mapM (b64_val url) (payload cs1)) as [ds1|] eqn:E1; [|done].
  destruct (mapM (b64_val url) (payload cs2)) as [ds2|] eqn:E2; [|done].
  rewrite (mapM_b64_app _ _ _ _ _ E1 E2). simpl.
  destruct (zlen ds1 mod 4 =? 0) eqn:M1; [|done]. destruct (zlen ds2 mod 4 =? 0) eqn:M2; [|done].
  bool_to_prop. intros [= <-] [= <-].
  assert ((zlen (ds1 ++ ds2)) mod 4 = 0) as ->
    by (rewrite zlen_app; Z.div_mod_to_equations; lia).
  simpl. by rewrite dec_groups_app.
Qed.

Lemma ref_decode_digits url cs ds :
  mapM (b64_val url) cs = Some ds -> zlen cs mod 4 = 0 ->
  ref_decode url cs = Some (dec_groups ds).
Proof.
  intros H Hl. unfold ref_decode. rewrite (payload_digits _ _ _ H), H. simpl.
  unfold zlen in *. erewrite <- (length_mapM _ _ _ H), Hl. done.
Qed.

(** What the reference encoder writes, the reference decoder reads back. *)
Lemma ref_roundtrip url bs :
  is_bytes bs -> zlen bs mod 3 = 0 -> ref_decode url (ref_encode url bs) = Some bs.
Proof.
  intros Hb Hl. revert bs Hl Hb. apply (list_ind3 (fun bs => is_bytes bs -> _)); [done|].
  intros a b c l IH Hb. unfold is_bytes in Hb. rewrite !Forall_cons in Hb.
  destruct Hb as (Ha & Hb & Hc & Hl). unfold ref_encode. cbn [enc_groups].
  destruct (enc3_dec4 a b c Ha Hb Hc) as (k0 & k1 & k2 & k3 & -> & (R0 & R1 & R2 & R3) & D).
  rewrite map_app. apply (ref_decode_app _ _ _ [a; b; c]); [|by apply IH].
  rewrite (ref_decode_digits _ _ [k0; k1; k2; k3]).
  - cbn [dec_groups]. by rewrite app_nil_r, D.
  - cbn [map mapM]. rewrite !b64_val_char by done. reflexivity.
  - reflexivity.
Qed.
