(* ===== verification/SimdBase64.v ===== *)
(** * encoding/simdbase64/vector_tinygo.c

    The Base64 kernels of the TinyGo backend, on both instruction sets.  A buffer
    is the list of its bytes and a pointer is an offset into it, so [dst += 12]
    moves the offset [d]; an access outside a buffer is [Fault].  The loops carry
    as fuel the number of input characters left plus one: every iteration consumes
    a character or leaves the loop. *)

From S2P Require Import Prelude Vec Base64Spec.

(** ** Vector helpers *)

Definition load16 (p : list Z) (off : Z) : outcome vec := load p off 16.
Definition store16 (p : list Z) (off : Z) (v : vec) : outcome (list Z) := store p off v.
Definition splat8 (x : Z) : vec := vsplat x.
Definition splat32 (x : Z) : list Z := replicate 4 x.

(** [lookup]: TBL or PSHUFB. *)
Definition vlookup (a : arch) (table indices : vec) : vec :=
  match a with
  | Aarch64 => tbl table indices
  | X86_64 => pshufb table indices
  end.

Definition all_nonzero (a : arch) (v : vec) : bool :=
  match a with
  | Aarch64 => negb (reduce_min v =? 0)
  | X86_64 => pmovmskb (veq v (splat8 0)) =? 0
  end.

Definition min16 (a b : vec) : vec := vmin a b.

Definition decode_pack (a : arch) (v : vec) : vec :=
  match a with
  | Aarch64 =>
      let select_a := [0;1;2;4;5;6;8;9;10;12;13;14;255;255;255;255] in
      let select_b := [1;2;3;5;6;7;9;10;11;13;14;15;255;255;255;255] in
      let shift_a := vconst [2;4;6;2;4;6;2;4;6;2;4;6] in
      let shift_b := vconst [-4;-2;0;-4;-2;0;-4;-2;0;-4;-2;0] in
      let va := vlookup a v select_a in
      let vb := vlookup a v select_b in
      vor (ushl va shift_a) (ushl vb shift_b)
  | X86_64 =>
      let pack := [2;1;0;6;5;4;10;9;8;14;13;12;255;255;255;255] in
      let w := to_u32x4 v in
      let pairs := zip_with Z.lor (wshl 6 (zip_with Z.land w (splat32 0x003f003f)))
                                  (zip_with Z.land (wshr 8 w) (splat32 0x003f003f)) in
      let out := zip_with Z.lor (wshl 12 (zip_with Z.land pairs (splat32 0x00000fff)))
                                (wshr 16 pairs) in
      vlookup a (of_u32x4 out) pack
  end.

(** The four vectors of a 64-character block. *)
Record decode_block64 := Block64 { val0 : vec; val1 : vec; val2 : vec; val3 : vec }.

Definition decode_load64 (a : arch) (src : list Z) (off : Z) : outcome decode_block64 :=
  match a with
  | Aarch64 =>
      m ← load src off 64;
      let qs := ld4 m in
      Done (Block64 (map (fun q => q.1.1.1) qs) (map (fun q => q.1.1.2) qs)
                    (map (fun q => q.1.2) qs) (map (fun q => q.2) qs))
  | X86_64 =>
      v0 ← load16 src off; v1 ← load16 src (off + 16);
      v2 ← load16 src (off + 32); v3 ← load16 src (off + 48);
      Done (Block64 v0 v1 v2 v3)
  end.

Definition decode_store48 (ar : arch) (dst : list Z) (d : Z) (a b c e : vec)
    : outcome (list Z) :=
  match ar with
  | Aarch64 =>
      let out0 := vsli 2 (vshr 4 b) a in
      let out1 := vsli 4 (vshr 2 c) b in
      let out2 := vsli 6 e c in
      store dst d (st3 out0 out1 out2)
  | X86_64 =>
      dst ← store16 dst d (decode_pack ar a);
      dst ← store16 dst (d + 12) (decode_pack ar b);
      dst ← store16 dst (d + 24) (decode_pack ar c);
      store16 dst (d + 36) (decode_pack ar e)
  end.

Definition high_bits (a : arch) (x : vec) : vec :=
  match a with
  | Aarch64 => vshr 3 x
  | X86_64 => vand (vshr 4 x) (splat8 15)
  end.

Definition translate (a : arch) (x h valid delta special correction : vec) : vec :=
  match a with
  | Aarch64 => vadd x (vlookup a delta (vclz valid))
  | X86_64 => vadd (vadd x (vlookup a delta h)) (vand (veq x special) correction)
  end.

Definition store9 (dst : list Z) (d : Z) (v : vec) : outcome (list Z) :=
  store dst d (ztake 9 v).

(** [cpuid_ecx] is what CPUID leaf 1 leaves in ECX. *)
Definition tinygodriver_base64_available (a : arch) (cpuid_ecx : Z) : bool :=
  match a with
  | Aarch64 => true
  | X86_64 => negb (Z.land cpuid_ecx (Z.shiftl 1 9) =? 0)
  end.

(** ** Decoder *)

Record base64_result := Result { read : Z; written : Z }.

(** [while (n < slen && (src[n] == '\r' || src[n] == '\n')) n++;] *)
Fixpoint skip_nl (fuel : nat) (src : list Z) (s0 slen n : Z) : outcome Z :=
  match fuel with
  | O => NoFuel
  | S fuel =>
      if n <? slen then
        c ← load8 src (s0 + n);
        if is_nl c then skip_nl fuel src s0 slen (n + 1) else Done n
      else Done n
  end.

Definition skip_fuel (slen n : Z) : nat := S (Z.to_nat (slen - n)).

Section decode_small.
Context (a : arch) (url : bool) (src : list Z) (s0 slen : Z).

Let hi : vec := vconst [0;0;1;2;4;8;16;32].
Let lo : vec :=
  if url then [42;62;62;62;62;62;62;62;62;62;60;20;20;21;20;28]
  else [42;62;62;62;62;62;62;62;62;62;60;21;20;20;20;21].
Let delta : vec :=
  if url then vconst [0;0;17;4;191;191;185;185] else vconst [0;0;19;4;191;191;185;185].
Let tail4 : vec := [0;0;0;0;0;0;0;0;0;0;0;0;1;1;1;1].
Let tail8 : vec := [0;0;0;0;0;0;0;0;1;1;1;1;1;1;1;1].
Let tail12 : vec := [0;0;0;0;1;1;1;1;1;1;1;1;1;1;1;1].

Definition small_valid (x : vec) : vec :=
  let h := vand (vshr 4 x) (splat8 15) in
  vand (vlookup a lo (vand x (splat8 15))) (vlookup a hi h).

Definition small_values (x : vec) : vec :=
  let h := vand (vshr 4 x) (splat8 15) in
  let v := vadd x (vlookup a delta h) in
  if url then vadd v (vand (veq x (splat8 95)) (splat8 33))
  else vsub v (vand (veq x (splat8 47)) (splat8 3)).

(** The number of leading digits a rejected vector still yields. *)
Definition small_digits (valid : vec) : option Z :=
  if all_nonzero a (vor valid tail4) then Some 12
  else if all_nonzero a (vor valid tail8) then Some 8
  else if all_nonzero a (vor valid tail12) then Some 4
  else None.

Fixpoint decode_small_loop (fuel : nat) (dst : list Z) (d dlen n w : Z)
    : outcome (list Z * base64_result) :=
  match fuel with
  | O => NoFuel
  | S fuel =>
      n ← skip_nl (skip_fuel slen n) src s0 slen n;
      if (size_sub slen n <? 16) || (dlen <? 16) then Done (dst, Result n w)
      else
        x ← load16 src (s0 + n);
        let valid := small_valid x in
        let packed := decode_pack a (small_values x) in
        if all_nonzero a valid then
          dst ← store16 dst d packed;
          decode_small_loop fuel dst (d + 12) (dlen - 12) (n + 16) (w + 12)
        else
          match small_digits valid with
          | None => Done (dst, Result n w)
          | Some digits =>
              let produced := digits / 4 * 3 in
              dst ← store dst d (ztake (if digits =? 12 then 9
                                        else if digits =? 8 then 6 else 3) packed);
              decode_small_loop fuel dst (d + produced) (dlen - produced)
                                (n + digits) (w + produced)
          end
  end.
End decode_small.

Definition decode_small (a : arch) (dst : list Z) (d dlen : Z) (src : list Z) (s0 slen : Z)
    (url : bool) : outcome (list Z * base64_result) :=
  decode_small_loop a url src s0 slen (skip_fuel slen 0) dst d dlen 0 0.

Section decode.
Context (a : arch) (url : bool) (src : list Z) (slen : Z).

Definition decode_hi : vec :=
  match a with
  | Aarch64 => if url then [0;0;0;0;0;4;8;8;16;32;32;18;64;128;128;64]
               else [0;0;0;0;0;6;8;8;16;32;32;16;64;128;128;64]
  | X86_64 => vconst [0;0;1;2;4;8;16;32]
  end.
Definition decode_lo : vec :=
  match a with
  | Aarch64 =>
      if url then [169;248;248;248;248;248;248;248;248;249;241;160;161;165;160;162]
      else [169;248;248;248;248;248;248;248;248;249;241;162;161;161;160;164]
  | X86_64 => if url then [42;62;62;62;62;62;62;62;62;62;60;20;20;21;20;28]
              else [42;62;62;62;62;62;62;62;62;62;60;21;20;20;20;21]
  end.
Definition decode_delta : vec :=
  match a with
  | Aarch64 => if url then vconst [185;185;191;191;4;17;224]
               else vconst [185;185;191;191;4;16;19]
  | X86_64 => if url then vconst [0;0;17;4;191;191;185;185]
              else vconst [0;0;19;4;191;191;185;185]
  end.
Let special : vec := splat8 (if url then 95 else 47).
Let correction : vec := splat8 (if url then 33 else 253).
Let tail4 : vec := [0;0;0;0;0;0;0;0;0;0;0;0;1;1;1;1].

(** [v_i] and the translated lanes of one vector [x_i] of a block. *)
Definition decode_valid (x : vec) : vec :=
  vand (vlookup a decode_lo (vand x (splat8 15))) (vlookup a decode_hi (high_bits a x)).
Definition decode_values (x : vec) : vec :=
  translate a x (high_bits a x) (decode_valid x) decode_delta special correction.

(** The loop over 76-character lines. *)
Fixpoint decode_mime_loop (fuel : nat) (dst : list Z) (d dlen n w : Z)
    : outcome (list Z * Z * Z * Z * Z) :=
  match fuel with
  | O => NoFuel
  | S fuel =>
      if negb (size_sub slen n >=? 80) || negb (dlen >=? 57) then Done (dst, d, dlen, n, w)
      else
        eol ← load8 src (n + 76);
        if negb (is_nl eol) then Done (dst, d, dlen, n, w)
        else
          block ← decode_load64 a src n;
          x4 ← load16 src (n + 64);
          let v0 := decode_valid (val0 block) in
          let v1 := decode_valid (val1 block) in
          let v2 := decode_valid (val2 block) in
          let v3 := decode_valid (val3 block) in
          let v4 := decode_valid x4 in
          if negb (all_nonzero a (min16 (min16 v0 v1) (min16 (min16 v2 v3) (vor v4 tail4))))
          then Done (dst, d, dlen, n, w)
          else
            dst ← decode_store48 a dst d (decode_values (val0 block))
                    (decode_values (val1 block)) (decode_values (val2 block))
                    (decode_values (val3 block));
            dst ← store9 dst (d + 48) (decode_pack a (decode_values x4));
            let n := n + 77 in
            c1 ← load8 src (n - 1);
            n ← (if c1 =? 13 then c2 ← load8 src n; Done (if c2 =? 10 then n + 1 else n)
                 else Done n);
            decode_mime_loop fuel dst (d + 57) (dlen - 57) n (w + 57)
  end.

(** The loop over 64-character blocks. *)
Fixpoint decode_bulk_loop (fuel : nat) (dst : list Z) (d dlen n w : Z)
    : outcome (list Z * Z * Z * Z * Z) :=
  match fuel with
  | O => NoFuel
  | S fuel =>
      if negb (size_sub slen n >=? 64) || negb (dlen >=? 52) then Done (dst, d, dlen, n, w)
      else
        c ← load8 src n;
        if is_nl c then
          n ← skip_nl (skip_fuel slen (n + 1)) src 0 slen (n + 1);
          decode_bulk_loop fuel dst d dlen n w
        else
          block ← decode_load64 a src n;
          let v0 := decode_valid (val0 block) in
          let v1 := decode_valid (val1 block) in
          let v2 := decode_valid (val2 block) in
          let v3 := decode_valid (val3 block) in
          if all_nonzero a (min16 (min16 v0 v1) (min16 v2 v3)) then
            dst ← decode_store48 a dst d (decode_values (val0 block))
                    (decode_values (val1 block)) (decode_values (val2 block))
                    (decode_values (val3 block));
            decode_bulk_loop fuel dst (d + 48) (dlen - 48) (n + 64) (w + 48)
          else Done (dst, d, dlen, n, w)
  end.
End decode.

Definition tinygodriver_base64_decode (a : arch) (dst : list Z) (dlen : Z) (src : list Z)
    (slen : Z) (url : bool) : outcome (list Z * base64_result) :=
  if slen <? 256 then decode_small a dst 0 dlen src 0 slen url
  else
    n ← skip_nl (skip_fuel slen 0) src 0 slen 0;
    '(dst, d, dlen, n, w) ←
       decode_mime_loop a url src slen (skip_fuel slen 0) dst 0 dlen n 0;
    '(dst, d, dlen, n, w) ←
       decode_bulk_loop a url src slen (skip_fuel slen 0) dst d dlen n w;
    '(dst, tail) ← decode_small a dst d dlen src n (size_sub slen n) url;
    Done (dst, Result (read tail + n) (written tail + w)).

(** ** Encoder *)

Section encode.
Context (a : arch) (url : bool) (src : list Z).

Definition encode_offsets : vec :=
  if url then vconst [65;71;252;252;252;252;252;252;252;252;252;252;239;32]
  else vconst [65;71;252;252;252;252;252;252;252;252;252;252;237;240].

(** The sextets of the first twelve bytes of a vector. *)
Definition encode_sextets (x : vec) : vec :=
  match a with
  | Aarch64 =>
      let select_a := [0;0;1;2;3;3;4;5;6;6;7;8;9;9;10;11] in
      let select_b := [255;1;2;255;255;4;5;255;255;7;8;255;255;10;11;255] in
      let shift_a := [-2;4;2;0;-2;4;2;0;-2;4;2;0;-2;4;2;0] in
      let shift_b := [0;-4;-6;0;0;-4;-6;0;0;-4;-6;0;0;-4;-6;0] in
      let va := vlookup a x select_a in
      let vb := vlookup a x select_b in
      vand (vor (ushl va shift_a) (ushl vb shift_b)) (splat8 63)
  | X86_64 =>
      let expand := [2;1;0;255;5;4;3;255;8;7;6;255;11;10;9;255] in
      let w := to_u32x4 (vlookup a x expand) in
      of_u32x4
        (zip_with Z.lor
           (zip_with Z.lor
              (zip_with Z.lor (zip_with Z.land (wshr 18 w) (splat32 0x0000003f))
                              (zip_with Z.land (wshr 4 w) (splat32 0x00003f00)))
              (zip_with Z.land (wshl 10 w) (splat32 0x003f0000)))
           (zip_with Z.land (wshl 24 w) (splat32 0x3f000000)))
  end.

(** Saturating [v-51], plus one when [v > 25], selects the offset. *)
Definition encode_chars (v : vec) : vec :=
  let index := vadd (vand (vsub v (splat8 51)) (vgt v (splat8 51)))
                    (vand (vgt v (splat8 25)) (splat8 1)) in
  vadd v (vlookup a encode_offsets index).

Fixpoint encode_small_loop (fuel : nat) (dst : list Z) (d dlen s0 slen n : Z)
    : outcome (list Z * Z) :=
  match fuel with
  | O => NoFuel
  | S fuel =>
      if negb (size_sub slen n >=? 16) || negb (dlen >=? 16) then Done (dst, n)
      else
        x ← load16 src (s0 + n);
        dst ← store16 dst d (encode_chars (encode_sextets x));
        encode_small_loop fuel dst (d + 16) (dlen - 16) s0 slen (n + 12)
  end.

Definition encode_small (dst : list Z) (d dlen s0 slen : Z) : outcome (list Z * Z) :=
  encode_small_loop (skip_fuel slen 0) dst d dlen s0 slen 0.

(** Four-register TBL: an index of 64 or more gives 0. *)
Definition encode_lookup64 (t0 t1 t2 t3 v : vec) : vec :=
  map (fun i => if i <? 64 then (t0 ++ t1 ++ t2 ++ t3) !!! Z.to_nat i else 0) v.

Definition alphabet0 : vec := [65;66;67;68;69;70;71;72;73;74;75;76;77;78;79;80].
Definition alphabet1 : vec := [81;82;83;84;85;86;87;88;89;90;97;98;99;100;101;102].
Definition alphabet2 : vec := [103;104;105;106;107;108;109;110;111;112;113;114;115;116;117;118].
Definition alphabet3 : vec :=
  if url then [119;120;121;122;48;49;50;51;52;53;54;55;56;57;45;95]
  else [119;120;121;122;48;49;50;51;52;53;54;55;56;57;43;47].

Fixpoint encode_large_loop (fuel : nat) (dst : list Z) (d dlen slen n : Z)
    : outcome (list Z * Z * Z * Z) :=
  match fuel with
  | O => NoFuel
  | S fuel =>
      if negb (size_sub slen n >=? 48) || negb (dlen >=? 64) then Done (dst, d, dlen, n)
      else
        m ← load src n 48;
        let x0 := map (fun t => t.1.1) (ld3 m) in
        let x1 := map (fun t => t.1.2) (ld3 m) in
        let x2 := map (fun t => t.2) (ld3 m) in
        let enc := encode_lookup64 alphabet0 alphabet1 alphabet2 alphabet3 in
        let va := enc (vshr 2 x0) in
        let vb := enc (vand (vor (vshl 4 x0) (vshr 4 x1)) (splat8 63)) in
        let vc := enc (vand (vor (vshl 2 x1) (vshr 6 x2)) (splat8 63)) in
        let vd := enc (vand x2 (splat8 63)) in
        dst ← store dst d (st4 va vb vc vd);
        encode_large_loop fuel dst (d + 64) (dlen - 64) slen (n + 48)
  end.

Definition encode_large (dst : list Z) (dlen slen : Z) : outcome (list Z * Z) :=
  '(dst, d, dlen, n) ← encode_large_loop (skip_fuel slen 0) dst 0 dlen slen 0;
  '(dst, m) ← encode_small dst d dlen n (size_sub slen n);
  Done (dst, n + m).
End encode.

Definition tinygodriver_base64_encode (a : arch) (dst : list Z) (dlen : Z) (src : list Z)
    (slen : Z) (url : bool) : outcome (list Z * Z) :=
  match a with
  | Aarch64 => if slen >=? 256 then encode_large a url src dst dlen slen
               else encode_small a url src dst 0 dlen 0 slen
  | X86_64 => encode_small a url src dst 0 dlen 0 slen
  end.
