(* ===== verification/Base64Lanes.v ===== *)
(** * Lane lemmas for the Base64 kernels

    What one vector step of the kernels of SimdBase64 computes, on either
    instruction set: the classification of sixteen characters, their sextets, the
    packing of sextets into bytes and the spreading of bytes into characters. *)

From S2P Require Import Prelude Vec Base64Spec SimdBase64.

(** ** One-lane readings *)

Definition tbl1 (a : arch) (t : vec) (i : Z) : Z :=
  match a with
  | Aarch64 => if i <? 16 then t !!! Z.to_nat i else 0
  | X86_64 => if Z.testbit i 7 then 0 else t !!! Z.to_nat (Z.land i 15)
  end.

Lemma vlookup_map a t i : vlookup a t i = map (tbl1 a t) i.
Proof. by destruct a. Qed.

Definition is_digit (url : bool) (c : Z) : bool :=
  match b64_val url c with Some _ => true | None => false end.
Definition digits (url : bool) (cs : list Z) : bool := forallb (is_digit url) cs.
Definition val_of (url : bool) (c : Z) : Z := default 0 (b64_val url c).
(** The bytes a run of whole quanta stands for. *)
Definition bytes_of (url : bool) (cs : list Z) : list Z := dec_groups (map (val_of url) cs).

Lemma all_nonzero_spec a v :
  is_bytes v -> length v = 16%nat ->
  all_nonzero a v = forallb (fun x => negb (x =? 0)) v.
Proof.
  intros Hv Hl. destruct a; cbn [all_nonzero].
  - apply reduce_min_nonzero. eapply Forall_impl; [exact Hv|]. by intros x [].
  - rewrite pmovmskb_zero. unfold veq. unfold splat8. rewrite vmap2_splat by done.
    clear Hl. induction v as [|x v IH]; [done|].
    cbn [forallb map]. apply Forall_cons in Hv as [_ Hv]. rewrite IH by done.
    by destruct (x =? 0).
Qed.

(** ** Classification and values *)

Definition lane_ok (url : bool) (valid value : Z -> Z) (c : Z) : bool :=
  bool_decide (is_byte (valid c)) && bool_decide (is_byte (value c)) &&
  Bool.eqb (negb (valid c =? 0)) (is_digit url c) &&
  (if is_digit url c then value c =? val_of url c else true).

(** A vector step, given by its validity and value vectors, is correct when each
    lane says whether its character is a digit and, if so, what its sextet is. *)
Definition classifies (url : bool) (x valid value : vec) : Prop :=
  exists f g, valid = map f x /\ value = map g x /\
    forall c, is_byte c -> is_byte (f c) /\ is_byte (g c) /\
      negb (f c =? 0) = is_digit url c /\
      (is_digit url c = true -> g c = val_of url c).

Lemma classifies_intro url x valid value f g :
  valid = map f x -> value = map g x -> all_bytes (lane_ok url f g) = true ->
  classifies url x valid value.
Proof.
  intros -> -> H. exists f, g. split; [done|]. split; [done|]. intros c Hc.
  pose proof (all_bytes_spec _ H c Hc) as H1. unfold lane_ok in H1.
  apply andb_prop in H1 as [H1 H4]. apply andb_prop in H1 as [H1 H3].
  apply andb_prop in H1 as [H1 H2].
  apply bool_decide_eq_true in H1, H2. apply Bool.eqb_prop in H3.
  repeat split; try done; try apply H1; try apply H2.
  intros E. rewrite E in H4. by apply Z.eqb_eq.
Qed.

Ltac lanes H := rewrite ?vlookup_map; unfold splat8; lane_maps H.

Lemma small_classifies a url x :
  length x = 16%nat -> classifies url x (small_valid a url x) (small_values a url x).
Proof.
  intros H. destruct a, url; (eapply classifies_intro;
    [unfold small_valid; lanes H; reflexivity | unfold small_values; lanes H; reflexivity
    | vm_compute; reflexivity]).
Qed.

Lemma decode_classifies a url x :
  length x = 16%nat -> classifies url x (decode_valid a url x) (decode_values a url x).
Proof.
  intros H. destruct a, url; (eapply classifies_intro;
    [unfold decode_valid, high_bits; lanes H; reflexivity
    |unfold decode_values, decode_valid, translate, high_bits; lanes H; reflexivity
    |vm_compute; reflexivity]).
Qed.

(** ** Packing four sextets into three bytes *)

Definition sextet (x : Z) : Prop := 0 <= x < 64.

Lemma sextet_byte x : sextet x -> is_byte x.
Proof. unfold sextet, is_byte. lia. Qed.
#[export] Hint Resolve sextet_byte : bytes.

Lemma sextet_land x : sextet x -> x = Z.land x 63.
Proof.
  intros H. change 63 with (Z.ones 6). rewrite Z.land_ones by lia. symmetry.
  by apply Z.mod_small.
Qed.

Lemma dec4_bits d0 d1 d2 d3 :
  sextet d0 -> sextet d1 -> sextet d2 -> sextet d3 ->
  dec4 d0 d1 d2 d3 =
    [Z.lor (Z.shiftl d0 2) (Z.shiftr d1 4);
     Z.lor (Z.shiftl (Z.land d1 15) 4) (Z.shiftr d2 2);
     Z.lor (Z.shiftl (Z.land d2 3) 6) d3].
Proof.
  unfold sextet. intros. unfold dec4, group24.
  change 15 with (Z.ones 4). change 3 with (Z.ones 2).
  rewrite !Z.land_ones, !Z.shiftr_div_pow2 by lia.
  rewrite !lor_shiftl_add; [|Z.div_mod_to_equations; lia..].
  change (2 ^ 18) with 262144. change (2 ^ 16) with 65536. change (2 ^ 12) with 4096.
  change (2 ^ 8) with 256. change (2 ^ 6) with 64. change (2 ^ 4) with 16. change (2 ^ 2) with 4.
  repeat f_equal; Z.div_mod_to_equations; lia.
Qed.

Definition pack3 (a : arch) (v0 v1 v2 v3 : Z) : list Z :=
  match a with
  | Aarch64 => [Z.lor (u8 (Z.shiftl v0 2)) (Z.shiftr v1 4);
                Z.lor (u8 (Z.shiftl v1 4)) (Z.shiftr v2 2);
                Z.lor (u8 (Z.shiftl v2 6)) (u8 (Z.shiftl v3 0))]
  | X86_64 =>
      let w := word4 v0 v1 v2 v3 in
      let pairs := Z.lor (u32 (Z.shiftl (Z.land w 0x003f003f) 6))
                         (Z.land (Z.shiftr w 8) 0x003f003f) in
      let out := Z.lor (u32 (Z.shiftl (Z.land pairs 0x00000fff) 12)) (Z.shiftr pairs 16) in
      [Z.land (Z.shiftr out 16) 255; Z.land (Z.shiftr out 8) 255; Z.land out 255]
  end.

Lemma pack3_spec a d0 d1 d2 d3 :
  sextet d0 -> sextet d1 -> sextet d2 -> sextet d3 ->
  pack3 a d0 d1 d2 d3 = dec4 d0 d1 d2 d3.
Proof.
  intros H0 H1 H2 H3. rewrite dec4_bits by done.
  rewrite (sextet_land d0), (sextet_land d1), (sextet_land d2), (sextet_land d3) by done.
  apply sextet_byte in H0, H1, H2, H3.
  rewrite <- (Z.land_assoc d1 63 15), <- (Z.land_assoc d2 63 3).
  destruct a; unfold pack3, word4; cbv zeta; list_eq; try reflexivity; byte_bits.
Qed.

Lemma pack3_length a v0 v1 v2 v3 : zlen (pack3 a v0 v1 v2 v3) = 3.
Proof. by destruct a. Qed.

Lemma decode_pack_quads a v0 v1 v2 v3 v4 v5 v6 v7 v8 v9 v10 v11 v12 v13 v14 v15 :
  decode_pack a [v0;v1;v2;v3;v4;v5;v6;v7;v8;v9;v10;v11;v12;v13;v14;v15] =
  pack3 a v0 v1 v2 v3 ++ pack3 a v4 v5 v6 v7 ++ pack3 a v8 v9 v10 v11 ++
  pack3 a v12 v13 v14 v15 ++ [0;0;0;0].
Proof.
  destruct a;
    cbv -[Z.lor Z.land Z.shiftl Z.shiftr u8 u32]; reflexivity.
Qed.

(** ** What a classified vector yields *)

Ltac destruct16 x H :=
  do 16 (destruct x as [|? x]; [discriminate H|]); destruct x; [|discriminate H]; clear H.

Lemma negb_lor_1 x : is_byte x -> negb (Z.lor x 1 =? 0) = true.
Proof.
  intros [Hx _]. destruct (Z.eqb_spec (Z.lor x 1) 0) as [E|]; [|done].
  apply Z.lor_eq_0_iff in E as [_ ?]. lia.
Qed.

Lemma classifies_all a url x v s :
  classifies url x v s -> is_bytes x -> length x = 16%nat -> all_nonzero a v = digits url x.
Proof.
  intros (f & g & -> & -> & H) Hx Hl. rewrite all_nonzero_spec.
  - clear Hl. unfold digits. induction Hx as [|c x Hc Hx IH]; [done|].
    cbn [map forallb]. rewrite IH. f_equal. by apply H.
  - apply Forall_map. eapply Forall_impl; [exact Hx|]. intros c Hc. by apply H.
  - by rewrite length_map.
Qed.

(** With ones in the lanes from [k] on, only the first [k] characters count. *)
Definition tail_mask (k : nat) : vec := replicate k 0 ++ replicate (16 - k) 1.

Lemma classifies_tail a url x v s k :
  classifies url x v s -> is_bytes x -> length x = 16%nat -> (k <= 16)%nat ->
  all_nonzero a (vor v (tail_mask k)) = digits url (take k x).
Proof.
  intros (f & g & -> & -> & H) Hx Hl Hk.
  assert (length (tail_mask k) = 16%nat) as Ht
    by (unfold tail_mask; rewrite length_app, !length_replicate; lia).
  assert (Forall (fun c => is_byte (f c)) x) as Hf
    by (eapply Forall_impl; [exact Hx|]; intros c Hc; by apply H).
  rewrite all_nonzero_spec.
  - assert (forallb (fun y => negb (y =? 0))
      (vor (map f (drop k x)) (replicate (16 - k) 1)) = true) as Hd.
    { apply (Forall_drop _ k) in Hf. assert (length (drop k x) = 16 - k)%nat as <-
        by (rewrite length_drop; lia).
      clear - Hf. unfold vor, vmap2. induction Hf as [|c y Hc Hy IH]; [done|].
      cbn. rewrite IH. by rewrite negb_lor_1. }
    assert (length (take k x) = k) as Lk by (rewrite length_take; lia).
    rewrite <- (take_drop k x) at 1. rewrite map_app. unfold vor, vmap2, tail_mask.
    rewrite zip_with_app by (by rewrite length_map, length_replicate).
    rewrite forallb_app. unfold vor, vmap2 in Hd. rewrite Hd, andb_true_r.
    rewrite <- Lk at 2. apply (Forall_take _ k) in Hx. clear - Hx H. unfold digits.
    induction Hx as [|c y Hc Hy IH]; [done|]. cbn. rewrite IH, Z.lor_0_r. f_equal. by apply H.
  - unfold vor, vmap2, tail_mask. apply Forall_lookup_2. intros i y. rewrite lookup_zip_with_Some.
    intros (c & m & -> & Hc & Hm). apply byte_lor.
    + apply list_lookup_fmap_Some in Hc as (z & -> & Hz).
      eapply (Forall_lookup_1 _ _ _ _ Hf Hz).
    + apply list_elem_of_lookup_2, elem_of_app in Hm as [Hm|Hm];
        apply elem_of_replicate in Hm as [-> _]; unfold is_byte; lia.
  - unfold vor. rewrite vmap2_length; rewrite length_map; lia.
Qed.

Lemma digits_app url l k : digits url (l ++ k) = digits url l && digits url k.
Proof. apply forallb_app. Qed.

Lemma digits_cons url c l : digits url (c :: l) = is_digit url c && digits url l.
Proof. reflexivity. Qed.

Lemma val_of_sextet url c : sextet (val_of url c).
Proof.
  unfold val_of, sextet. destruct (b64_val url c) eqn:E; simpl; [|lia].
  by eapply b64_val_range.
Qed.

Lemma digits_mapM url cs : digits url cs = true -> mapM (b64_val url) cs = Some (map (val_of url) cs).
Proof.
  intros H. apply mapM_Some. induction cs as [|c cs IH]; [constructor|].
  rewrite digits_cons in H. apply andb_prop in H as [Hc Hcs].
  cbn [map]. constructor; [|by apply IH].
  unfold is_digit, val_of in *. by destruct (b64_val url c).
Qed.

Lemma ref_decode_bytes_of url cs :
  digits url cs = true -> zlen cs mod 4 = 0 -> ref_decode url cs = Some (bytes_of url cs).
Proof. intros. apply ref_decode_digits; [by apply digits_mapM|done]. Qed.

Lemma bytes_of_app url cs ds :
  zlen cs mod 4 = 0 -> bytes_of url (cs ++ ds) = bytes_of url cs ++ bytes_of url ds.
Proof. intros. unfold bytes_of. rewrite map_app. apply dec_groups_app. by rewrite zlen_map. Qed.

Lemma zlen_bytes_of url cs : zlen cs mod 4 = 0 -> 4 * zlen (bytes_of url cs) = 3 * zlen cs.
Proof.
  intros. unfold bytes_of. rewrite <- (zlen_map (val_of url) cs).
  apply zlen_dec_groups. by rewrite zlen_map.
Qed.

Lemma zlen_bytes_of_quanta url cs q : zlen cs = 4 * q -> zlen (bytes_of url cs) = 3 * q.
Proof.
  intros H. assert (zlen cs mod 4 = 0) as M by (rewrite H, Z.mul_comm; apply Z_mod_mult).
  pose proof (zlen_bytes_of url cs M). lia.
Qed.

Lemma bytes_of_quad url c0 c1 c2 c3 cs :
  bytes_of url (c0 :: c1 :: c2 :: c3 :: cs) =
  dec4 (val_of url c0) (val_of url c1) (val_of url c2) (val_of url c3) ++ bytes_of url cs.
Proof. reflexivity. Qed.

(** The first [3 m] packed bytes are those of the first [m] quanta, when these are
    digits; what the remaining lanes hold does not matter. *)
Lemma classifies_pack a url x v s m :
  classifies url x v s -> is_bytes x -> length x = 16%nat -> (m <= 4)%nat ->
  digits url (take (4 * m) x) = true ->
  take (3 * m) (decode_pack a s) = bytes_of url (take (4 * m) x).
Proof.
  intros (f & g & -> & -> & H) Hx Hl Hm Hd.
  assert (forall c, is_byte c -> is_digit url c = true -> g c = val_of url c) as G
    by (intros c Hc; by apply H). clear H.
  destruct16 x Hl. cbn [map]. rewrite decode_pack_quads.
  unfold is_bytes in Hx. rewrite !Forall_cons in Hx.
  destruct m as [|[|[|[|[|]]]]]; [done|..|lia]; cbn [take Nat.mul Nat.add] in Hd |- *;
    rewrite !digits_cons in Hd; rewrite !andb_true_iff in Hd; destruct_and!;
    rewrite !G by assumption; rewrite !bytes_of_quad, !pack3_spec by apply val_of_sextet;
    by destruct a.
Qed.

Lemma decode_pack_length a x : length x = 16%nat -> zlen (decode_pack a x) = 16.
Proof. intros Hl. destruct16 x Hl. rewrite decode_pack_quads. by destruct a. Qed.

(** ** Blocks of sixty-four characters *)

Definition nonzero (v : vec) : bool := forallb (fun x => negb (x =? 0)) v.

Lemma nonzero_min u v :
  is_bytes u -> is_bytes v -> length u = length v -> nonzero (vmin u v) = nonzero u && nonzero v.
Proof.
  intros Hu. revert v. unfold nonzero, vmin, vmap2.
  induction Hu as [|x u Hx Hu IH]; intros [|y v] Hv Hl; try discriminate; [done|].
  apply Forall_cons in Hv as [Hy Hv]. cbn [zip_with forallb].
  injection Hl as Hl. rewrite IH by assumption. unfold is_byte in *.
  destruct (Z.eqb_spec x 0), (Z.eqb_spec y 0), (Z.eqb_spec (Z.min x y) 0);
    cbn [negb andb]; rewrite ?andb_false_r; try done; exfalso; lia.
Qed.

Lemma vmin_bytes u v : is_bytes u -> is_bytes v -> is_bytes (vmin u v).
Proof.
  intros Hu. revert v. unfold vmin, vmap2, is_bytes.
  induction Hu as [|x u Hx Hu IH]; intros [|y v] Hv; cbn [zip_with]; try constructor.
  - apply Forall_cons in Hv as [Hy _]. unfold is_byte in *. lia.
  - apply Forall_cons in Hv as [_ Hv]. by apply IH.
Qed.

Lemma classifies_bytes url x v s : classifies url x v s -> is_bytes x -> is_bytes v.
Proof.
  intros (f & g & -> & -> & H) Hx. apply Forall_map. eapply Forall_impl; [exact Hx|].
  intros c Hc. by apply H.
Qed.

Lemma classifies_length url x v s : classifies url x v s -> length v = length x /\ length s = length x.
Proof. intros (f & g & -> & -> & H). by rewrite !length_map. Qed.

(** The shift-insert packing of the structured store. *)
Lemma sli_pack a b c e :
  sextet a -> sextet b -> sextet c -> sextet e ->
  [Z.lor (u8 (Z.shiftl a 2)) (Z.land (Z.shiftr b 4) (Z.ones 2));
   Z.lor (u8 (Z.shiftl b 4)) (Z.land (Z.shiftr c 2) (Z.ones 4));
   Z.lor (u8 (Z.shiftl c 6)) (Z.land e (Z.ones 6))] = dec4 a b c e.
Proof.
  intros H0 H1 H2 H3. rewrite dec4_bits by done.
  change (Z.ones 2) with 3. change (Z.ones 4) with 15. change (Z.ones 6) with 63.
  rewrite (sextet_land a), (sextet_land b), (sextet_land c), (sextet_land e) by done.
  apply sextet_byte in H0, H1, H2, H3.
  rewrite <- (Z.land_assoc b 63 15), <- (Z.land_assoc c 63 3).
  list_eq; try reflexivity; byte_bits.
Qed.

Lemma st3_columns url (g : Z -> Z) cs :
  zlen cs mod 4 = 0 -> is_bytes cs -> digits url cs = true ->
  (forall c, is_byte c -> is_digit url c = true -> g c = val_of url c) ->
  let qs := ld4 cs in
  let A := map g (map (fun q => q.1.1.1) qs) in
  let B := map g (map (fun q => q.1.1.2) qs) in
  let C := map g (map (fun q => q.1.2) qs) in
  let E := map g (map (fun q => q.2) qs) in
  st3 (vsli 2 (vshr 4 B) A) (vsli 4 (vshr 2 C) B) (vsli 6 E C) = bytes_of url cs.
Proof.
  intros Hm Hb Hd G. revert cs Hm Hb Hd.
  apply (list_ind4 (fun cs => is_bytes cs -> digits url cs = true -> _)); [done|].
  intros a b c e l IH Hb Hd. unfold is_bytes in Hb. rewrite !Forall_cons in Hb.
  rewrite !digits_cons, !andb_true_iff in Hd. destruct_and!.
  rewrite bytes_of_quad, <- IH by done.
  cbn [ld4 map vshr vsli vmap2 zip_with st3 fst snd]. unfold vsli, vmap2, vshr.
  cbn [zip_with map st3]. rewrite !G by done.
  rewrite <- sli_pack by apply val_of_sextet. reflexivity.
Qed.

Lemma digits_columns url cs :
  zlen cs mod 4 = 0 ->
  let qs := ld4 cs in
  digits url (map (fun q => q.1.1.1) qs) && digits url (map (fun q => q.1.1.2) qs) &&
  (digits url (map (fun q => q.1.2) qs) && digits url (map (fun q => q.2) qs)) = digits url cs.
Proof.
  revert cs. apply list_ind4; [done|]. intros a b c e l IH. cbn [ld4 map fst snd].
  rewrite !digits_cons. cbv zeta in IH. rewrite <- IH.
  destruct (is_digit url a), (is_digit url b), (is_digit url c), (is_digit url e);
    cbn [andb]; rewrite ?andb_false_r; reflexivity.
Qed.

Lemma ld4_columns cs :
  zlen cs = 64 -> is_bytes cs ->
  let qs := ld4 cs in
  Forall (fun col => length col = 16%nat /\ is_bytes col)
    [map (fun q => q.1.1.1) qs; map (fun q => q.1.1.2) qs;
     map (fun q => q.1.2) qs; map (fun q => q.2) qs].
Proof.
  intros Hl Hb. assert (4 * zlen (ld4 cs) = zlen cs /\
    is_bytes (map (fun q => q.1.1.1) (ld4 cs)) /\ is_bytes (map (fun q => q.1.1.2) (ld4 cs)) /\
    is_bytes (map (fun q => q.1.2) (ld4 cs)) /\ is_bytes (map (fun q => q.2) (ld4 cs)))
    as (L & ? & ? & ? & ?).
  { assert (zlen cs mod 4 = 0) as Hm by (by rewrite Hl). clear Hl. revert cs Hm Hb.
    apply (list_ind4 (fun cs => is_bytes cs -> _)); [by repeat split|].
    intros a b c e l IH Hb. unfold is_bytes in Hb. rewrite !Forall_cons in Hb.
    destruct Hb as (?&?&?&?&Hb). destruct (IH Hb) as (L & ?&?&?&?).
    cbn [ld4 map fst snd]. rewrite !zlen_cons.
    repeat split; try (apply Forall_cons; done); lia. }
  cbv zeta. rewrite !Forall_cons, Forall_nil, !length_map.
  assert (length (ld4 cs) = 16%nat) as -> by (unfold zlen in *; lia). done.
Qed.
