(* ===== verification/Base64Decode.v ===== *)
(** * The Base64 decoder refines its scalar reading

    [scalar_decode] is the decoder character by character: the same loops, with a
    quantum at a time in place of vectors.  The vector decoder of SimdBase64 runs
    it on both instruction sets ([decode_refines]); the scalar decoder is sound
    for RFC 4648 and stops only for a reason ([scalar_decode_sound]). *)

From S2P Require Import Prelude Vec Base64Spec SimdBase64 Base64Lanes.

(** ** Blocks *)

(** What the stores of one block leave beyond its 48 bytes. *)
Definition scratch (a : arch) : list Z :=
  match a with Aarch64 => [] | X86_64 => [0;0;0;0] end.

Lemma decode_pack_full a url x v s :
  classifies url x v s -> is_bytes x -> length x = 16%nat -> digits url x = true ->
  decode_pack a s = bytes_of url x ++ [0;0;0;0].
Proof.
  intros Hc Hx Hl Hd.
  assert (take 12 (decode_pack a s) = bytes_of url x) as <-.
  { change 12%nat with (3 * 4)%nat. rewrite (classifies_pack a url x v s 4) by
      (done || lia || (change (4 * 4)%nat with 16%nat; rewrite take_ge by lia; done)).
    by rewrite take_ge by lia. }
  destruct (classifies_length _ _ _ _ Hc) as [_ Hs]. rewrite Hl in Hs.
  clear - Hs. destruct16 s Hs. rewrite decode_pack_quads. by destruct a.
Qed.

Lemma zlen_nat16 {A} (x : list A) : zlen x = 16 -> length x = 16%nat.
Proof. unfold zlen. lia. Qed.

Record block_spec (a : arch) (url : bool) (src : list Z) (off : Z) (blk : decode_block64) : Prop := {
  block_lens : Forall (fun x => length x = 16%nat /\ is_bytes x)
                 [val0 blk; val1 blk; val2 blk; val3 blk];
  block_digits :
    digits url (val0 blk) && digits url (val1 blk) && (digits url (val2 blk) && digits url (val3 blk))
    = digits url (ztake 64 (zdrop off src));
  block_store : forall dst d, 0 <= d -> d + 52 <= zlen dst ->
    digits url (ztake 64 (zdrop off src)) = true ->
    decode_store48 a dst d (decode_values a url (val0 blk)) (decode_values a url (val1 blk))
      (decode_values a url (val2 blk)) (decode_values a url (val3 blk))
    = store dst d (bytes_of url (ztake 64 (zdrop off src)) ++ scratch a)
}.

Lemma decode_block_arm url src off :
  is_bytes src -> 0 <= off -> off + 64 <= zlen src ->
  exists blk, decode_load64 Aarch64 src off = Done blk /\ block_spec Aarch64 url src off blk.
Proof.
  intros Hb Ho Hl. cbn [decode_load64]. rewrite load_Done by lia. rewrite bind_Done. eexists.
  split; [reflexivity|]. set (cs := ztake 64 (zdrop off src)).
  assert (zlen cs = 64) as Hcs by (unfold cs; zlens).
  assert (zlen cs mod 4 = 0) as Hm by (by rewrite Hcs).
  assert (is_bytes cs) as Hbc by (unfold cs; auto with zlist).
  pose proof (ld4_columns cs Hcs Hbc) as Hcol. cbv zeta in Hcol.
  split; fold cs; cbn [val0 val1 val2 val3]; [done|by apply digits_columns|].
  intros dst d Hd1 Hd2 Hdig. rewrite app_nil_r.
  rewrite !Forall_cons in Hcol. destruct Hcol as ([L0 _] & [L1 _] & [L2 _] & [L3 _] & _).
  assert (exists g, (forall x, length x = 16%nat -> decode_values Aarch64 url x = map g x) /\
    forall c, is_byte c -> is_digit url c = true -> g c = val_of url c) as (g & Hg & G).
  { clear. eexists. split.
    - intros x H. unfold decode_values, decode_valid, translate, high_bits. lanes H. reflexivity.
    - intros c Hc Hd.
      assert (all_bytes (fun c => implb (is_digit url c)
        (nth 0 (decode_values Aarch64 url (replicate 16 c)) 0 =? val_of url c)) = true) as H
        by (destruct url; vm_compute; reflexivity).
      pose proof (all_bytes_spec _ H c Hc) as E. cbv beta in E. rewrite Hd in E.
      cbn [implb] in E. apply Z.eqb_eq in E. exact E. }
  rewrite !Hg by done. cbn [decode_store48]. by rewrite (st3_columns url g cs).
Qed.

Lemma decode_block_x86 url src off :
  is_bytes src -> 0 <= off -> off + 64 <= zlen src ->
  exists blk, decode_load64 X86_64 src off = Done blk /\ block_spec X86_64 url src off blk.
Proof.
  intros Hb Ho Hl. cbn [decode_load64]. unfold load16. rewrite !load_Done by lia.
  rewrite !bind_Done. eexists. split; [reflexivity|].
  set (x0 := ztake 16 (zdrop off src)). set (x1 := ztake 16 (zdrop (off + 16) src)).
  set (x2 := ztake 16 (zdrop (off + 32) src)). set (x3 := ztake 16 (zdrop (off + 48) src)).
  assert (ztake 64 (zdrop off src) = x0 ++ x1 ++ x2 ++ x3) as E.
  { unfold x0, x1, x2, x3. change 64 with (16 + (16 + (16 + 16))).
    rewrite !ztake_add, !zdrop_zdrop by lia.
    by replace (off + 16 + 16 + 16) with (off + 48) by lia;
      replace (off + 16 + 16) with (off + 32) by lia. }
  assert (length x0 = 16 /\ length x1 = 16 /\ length x2 = 16 /\ length x3 = 16)%nat as
    (L0 & L1 & L2 & L3) by (repeat split; apply zlen_nat16; unfold x0, x1, x2, x3; zlens).
  assert (is_bytes x0 /\ is_bytes x1 /\ is_bytes x2 /\ is_bytes x3) as (B0 & B1 & B2 & B3)
    by (repeat split; unfold x0, x1, x2, x3; auto with zlist).
  split; cbn [val0 val1 val2 val3]; rewrite ?E.
  - by rewrite !Forall_cons, Forall_nil.
  - rewrite !digits_app. by rewrite !andb_assoc.
  - intros dst d Hd1 Hd2 Hdig. rewrite !digits_app, !andb_true_iff in Hdig. destruct_and!.
    assert (forall x, length x = 16%nat -> is_bytes x -> digits url x = true ->
      decode_pack X86_64 (decode_values X86_64 url x) = bytes_of url x ++ [0;0;0;0]) as P
      by (intros; eapply decode_pack_full; eauto using decode_classifies).
    cbn [decode_store48]. unfold store16. rewrite !P by done.
    assert (forall x, length x = 16%nat -> zlen (bytes_of url x) = 12) as Z12.
    { intros x Hx. pose proof (zlen_bytes_of url x) as E'. unfold zlen in *. rewrite Hx in E'.
      specialize (E' eq_refl). lia. }
    rewrite !bytes_of_app by (unfold zlen; rewrite ?L0, ?L1, ?L2; reflexivity).
    pose proof (Z12 x0 L0). pose proof (Z12 x1 L1). pose proof (Z12 x2 L2). pose proof (Z12 x3 L3).
    set (b0 := bytes_of url x0) in *. set (b1 := bytes_of url x1) in *.
    set (b2 := bytes_of url x2) in *. set (b3 := bytes_of url x3) in *.
    assert (forall p q, zlen p + 12 + 4 <= 52 -> zlen q = 12 ->
      (store dst d (p ++ [0;0;0;0]) ≫= fun b => store b (d + zlen p) (q ++ [0;0;0;0]))
      = store dst d ((p ++ q) ++ [0;0;0;0])) as S.
    { intros p q Hp Hq. rewrite <- app_assoc. apply store_overlap; zlens. }
    replace (d + 12) with (d + zlen b0) by lia. replace (d + 24) with (d + zlen (b0 ++ b1)) by zlens.
    replace (d + 36) with (d + zlen ((b0 ++ b1) ++ b2)) by zlens.
    rewrite !outcome_bind_assoc. rewrite S by zlens. rewrite S by zlens. rewrite S by zlens.
    f_equal. cbn [scratch]. by rewrite <- !app_assoc.
Qed.

Lemma decode_block a url src off :
  is_bytes src -> 0 <= off -> off + 64 <= zlen src ->
  exists blk, decode_load64 a src off = Done blk /\ block_spec a url src off blk.
Proof. destruct a; [apply decode_block_arm | apply decode_block_x86]. Qed.

(** ** The scalar decoder

    Each loop takes the characters left and the room left in the output, and
    returns how many characters it consumed and the bytes it produced. *)

Fixpoint nl_run (cs : list Z) : Z :=
  match cs with
  | c :: cs => if is_nl c then 1 + nl_run cs else 0
  | [] => 0
  end.

(** Whole quanta of digits among the next sixteen characters. *)
Definition quanta (url : bool) (cs : list Z) : Z :=
  if digits url (ztake 16 cs) then 4
  else if digits url (ztake 12 cs) then 3
  else if digits url (ztake 8 cs) then 2
  else if digits url (ztake 4 cs) then 1 else 0.

Fixpoint scalar_small (fuel : nat) (url : bool) (dlen : Z) (cs : list Z) : Z * list Z :=
  match fuel with
  | O => (0, [])
  | S fuel =>
      let k := nl_run cs in
      let cs := zdrop k cs in
      if (zlen cs <? 16) || (dlen <? 16) then (k, [])
      else
        let q := quanta url cs in
        if q =? 0 then (k, [])
        else
          let r := scalar_small fuel url (dlen - 3 * q) (zdrop (4 * q) cs) in
          (k + 4 * q + r.1, bytes_of url (ztake (4 * q) cs) ++ r.2)
  end.

Definition eol_len (cs : list Z) : Z :=
  if (cs !!! 76%nat =? 13) && (cs !!! 77%nat =? 10) then 78 else 77.

Fixpoint scalar_mime (fuel : nat) (url : bool) (dlen : Z) (cs : list Z) : Z * list Z :=
  match fuel with
  | O => (0, [])
  | S fuel =>
      if (80 <=? zlen cs) && (57 <=? dlen) && is_nl (cs !!! 76%nat) && digits url (ztake 76 cs)
      then
        let r := scalar_mime fuel url (dlen - 57) (zdrop (eol_len cs) cs) in
        (eol_len cs + r.1, bytes_of url (ztake 76 cs) ++ r.2)
      else (0, [])
  end.

Fixpoint scalar_bulk (fuel : nat) (url : bool) (dlen : Z) (cs : list Z) : Z * list Z :=
  match fuel with
  | O => (0, [])
  | S fuel =>
      if (zlen cs <? 64) || (dlen <? 52) then (0, [])
      else if is_nl (cs !!! 0%nat) then
        let r := scalar_bulk fuel url dlen (zdrop (nl_run cs) cs) in (nl_run cs + r.1, r.2)
      else if digits url (ztake 64 cs) then
        let r := scalar_bulk fuel url (dlen - 48) (zdrop 64 cs) in
        (64 + r.1, bytes_of url (ztake 64 cs) ++ r.2)
      else (0, [])
  end.

Definition scalar_decode (url : bool) (dlen : Z) (cs : list Z) : Z * list Z :=
  let fuel := S (length cs) in
  if zlen cs <? 256 then scalar_small fuel url dlen cs
  else
    let k := nl_run cs in
    let r1 := scalar_mime fuel url dlen (zdrop k cs) in
    let r2 := scalar_bulk fuel url (dlen - zlen r1.2) (zdrop (k + r1.1) cs) in
    let cs3 := zdrop (k + r1.1 + r2.1) cs in
    let r3 := scalar_small (S (length cs3)) url (dlen - zlen r1.2 - zlen r2.2) cs3 in
    (k + r1.1 + r2.1 + r3.1, r1.2 ++ r2.2 ++ r3.2).

(** ** Output written so far

    [wrote b d out b']: [b'] is [b] with [out] written at [d] and at most four
    scratch bytes after it disturbed. *)
Record wrote (b : list Z) (d : Z) (out b' : list Z) : Prop := {
  wrote_len : zlen b' = zlen b;
  wrote_prefix : ztake (d + zlen out) b' = ztake d b ++ out;
  wrote_frame : zdrop (d + zlen out + 4) b' = zdrop (d + zlen out + 4) b
}.

Lemma wrote_nil b d : 0 <= d -> wrote b d [] b.
Proof.
  intros. split; [done| |done]. rewrite zlen_nil, app_nil_r. f_equal. lia.
Qed.

Lemma wrote_app b d o1 b1 o2 b2 :
  0 <= d -> wrote b d o1 b1 -> wrote b1 (d + zlen o1) o2 b2 -> wrote b d (o1 ++ o2) b2.
Proof.
  intros Hd [L1 P1 F1] [L2 P2 F2]. pose proof (zlen_nonneg o1). pose proof (zlen_nonneg o2).
  split; [congruence| |].
  - rewrite zlen_app, Z.add_assoc, P2, P1. by rewrite app_assoc.
  - rewrite zlen_app. replace (d + (zlen o1 + zlen o2) + 4) with (d + zlen o1 + zlen o2 + 4) by lia.
    rewrite F2. replace (d + zlen o1 + zlen o2 + 4) with (d + zlen o1 + 4 + zlen o2) by lia.
    rewrite <- !(zdrop_zdrop (zlen o2) (d + zlen o1 + 4)) by lia. by rewrite F1.
Qed.

Lemma store_wrote b d o s :
  0 <= d -> zlen s <= 4 -> d + zlen o + zlen s <= zlen b ->
  exists b', store b d (o ++ s) = Done b' /\ wrote b d o b'.
Proof.
  intros Hd Hs Hb. pose proof (zlen_nonneg o). pose proof (zlen_nonneg s).
  rewrite store_Done by zlens. eexists. split; [reflexivity|].
  assert (zlen (ztake d b ++ o) = d + zlen o) as Hx by zlens.
  split; [zlens| |]; rewrite <- app_assoc, (app_assoc _ o).
  - rewrite ztake_app_l, ztake_all by lia. done.
  - rewrite zdrop_app_r by lia. rewrite zdrop_app_r by lia.
    rewrite zdrop_zdrop by zlens. f_equal. zlens.
Qed.

(** ** Running the loops *)

(** The [len] characters at [off]. *)
Definition rest (src : list Z) (off len : Z) : list Z := ztake len (zdrop off src).

Lemma zlen_rest src off len :
  0 <= off -> 0 <= len -> off + len <= zlen src -> zlen (rest src off len) = len.
Proof. intros. unfold rest. zlens. Qed.

Lemma rest_drop src off len k :
  0 <= off -> 0 <= k <= len -> zdrop k (rest src off len) = rest src (off + k) (len - k).
Proof.
  intros. unfold rest, ztake, zdrop.
  rewrite skipn_firstn_comm, drop_drop. f_equal; [lia|f_equal; lia].
Qed.

Lemma rest_take src off len k :
  0 <= k <= len -> ztake k (rest src off len) = ztake k (zdrop off src).
Proof. intros. unfold rest. by rewrite ztake_ztake by lia. Qed.

Lemma rest_lookup src off len i :
  0 <= off -> 0 <= i < len -> off + len <= zlen src ->
  rest src off len !!! Z.to_nat i = src !!! Z.to_nat (off + i).
Proof.
  intros. unfold rest, ztake, zdrop. rewrite lookup_total_take_lt by lia.
  rewrite lookup_total_drop. f_equal. lia.
Qed.

Lemma rest_bytes src off len : is_bytes src -> is_bytes (rest src off len).
Proof. unfold rest. auto with zlist. Qed.

Lemma nl_run_bounds cs : 0 <= nl_run cs <= zlen cs.
Proof.
  induction cs as [|c cs IH]; cbn [nl_run]; [done|]. rewrite zlen_cons.
  destruct (is_nl c); lia.
Qed.

Lemma rest_cons src off len :
  0 <= off -> 0 < len -> off + len <= zlen src ->
  rest src off len = src !!! Z.to_nat off :: rest src (off + 1) (len - 1).
Proof.
  intros. rewrite <- (rest_drop src off len 1) by lia.
  pose proof (rest_lookup src off len 0 ltac:(lia) ltac:(lia) ltac:(lia)) as E.
  rewrite Z.add_0_r in E. change (Z.to_nat 0) with O in E.
  pose proof (zlen_rest src off len ltac:(lia) ltac:(lia) ltac:(lia)) as L.
  destruct (rest src off len) as [|c l]; [rewrite zlen_nil in L; lia|].
  by rewrite <- E.
Qed.

Lemma skip_nl_Done fuel src s0 slen n :
  0 <= s0 -> 0 <= n <= slen -> s0 + slen <= zlen src -> slen - n < Z.of_nat fuel ->
  skip_nl fuel src s0 slen n = Done (n + nl_run (rest src (s0 + n) (slen - n))).
Proof.
  revert n. induction fuel as [|fuel IH]; intros n Hs Hn Hl Hf; [lia|]. cbn [skip_nl].
  destruct (Z.ltb_spec n slen) as [Hlt|Hge].
  - rewrite load8_Done by lia. rewrite bind_Done. rewrite rest_cons by lia. cbn [nl_run].
    destruct (is_nl _); [|f_equal; lia].
    rewrite IH by lia. f_equal.
    replace (s0 + (n + 1)) with (s0 + n + 1) by lia. replace (slen - (n + 1)) with (slen - n - 1) by lia.
    lia.
  - replace (slen - n) with 0 by lia. unfold rest. rewrite ztake_0. cbn [nl_run]. f_equal. lia.
Qed.

Lemma skip_fuel_enough slen n : 0 <= n <= slen -> slen - n < Z.of_nat (skip_fuel slen n).
Proof. unfold skip_fuel. lia. Qed.

(** ** One vector of the compact decoder *)

Lemma small_step_valid a url x :
  is_bytes x -> zlen x = 16 -> all_nonzero a (small_valid a url x) = digits url x.
Proof.
  intros Hb Hl%zlen_nat16. eapply classifies_all; eauto using small_classifies.
Qed.

Lemma small_step_digits a url x :
  is_bytes x -> zlen x = 16 -> digits url x = false ->
  small_digits a (small_valid a url x) =
    if quanta url x =? 0 then None else Some (4 * quanta url x).
Proof.
  intros Hb Hl%zlen_nat16 Hd.
  assert (forall k, (k <= 16)%nat -> all_nonzero a (vor (small_valid a url x) (tail_mask k))
    = digits url (take k x)) as T
    by (intros; eapply classifies_tail; eauto using small_classifies).
  assert (ztake 16 x = x) as E by (apply ztake_all; unfold zlen; lia).
  unfold small_digits, quanta. rewrite E, Hd.
  pose proof (T 12%nat ltac:(lia)) as T12. pose proof (T 8%nat ltac:(lia)) as T8.
  pose proof (T 4%nat ltac:(lia)) as T4. cbn [tail_mask replicate Nat.sub app] in T12, T8, T4.
  rewrite T12, T8, T4.
  change (take 12 x) with (ztake 12 x). change (take 8 x) with (ztake 8 x).
  change (take 4 x) with (ztake 4 x).
  destruct (digits url (ztake 12 x)), (digits url (ztake 8 x)), (digits url (ztake 4 x)); reflexivity.
Qed.

Lemma quanta_digits url x :
  digits url (ztake (4 * quanta url x) x) = true /\ 0 <= quanta url x <= 4.
Proof.
  unfold quanta. destruct (digits url (ztake 16 x)) eqn:?; [done|].
  destruct (digits url (ztake 12 x)) eqn:?; [done|].
  destruct (digits url (ztake 8 x)) eqn:?; [done|].
  by destruct (digits url (ztake 4 x)) eqn:?.
Qed.

Lemma quanta_full url x : digits url (ztake 16 x) = true -> quanta url x = 4.
Proof. unfold quanta. by intros ->. Qed.

Lemma small_step_pack a url x m :
  is_bytes x -> zlen x = 16 -> 0 <= m <= 4 -> digits url (ztake (4 * m) x) = true ->
  ztake (3 * m) (decode_pack a (small_values a url x)) = bytes_of url (ztake (4 * m) x).
Proof.
  intros Hb Hl%zlen_nat16 Hm Hd. unfold ztake in *.
  replace (Z.to_nat (4 * m)) with (4 * Z.to_nat m)%nat in * by lia.
  replace (Z.to_nat (3 * m)) with (3 * Z.to_nat m)%nat by lia.
  eapply classifies_pack; eauto using small_classifies. lia.
Qed.

Lemma small_step_full a url x :
  is_bytes x -> zlen x = 16 -> digits url x = true ->
  decode_pack a (small_values a url x) = bytes_of url x ++ [0;0;0;0].
Proof.
  intros Hb Hl%zlen_nat16 Hd. eapply decode_pack_full; eauto using small_classifies.
Qed.

(** ** The loops run the scalar ones *)

Definition runs (m : outcome (list Z * base64_result)) (dst : list Z) (d n w : Z)
    (r : Z * list Z) : Prop :=
  exists dst', m = Done (dst', Result (n + r.1) (w + zlen r.2)) /\ wrote dst d r.2 dst'.

Lemma runs_step m dst d n w k o r dst1 :
  0 <= d -> wrote dst d o dst1 -> runs m dst1 (d + zlen o) (n + k) (w + zlen o) r ->
  runs m dst d n w (k + r.1, o ++ r.2).
Proof.
  intros Hd Ho (dst' & -> & Hw). exists dst'. cbn [fst snd]. rewrite zlen_app, !Z.add_assoc.
  split; [done|]. eauto using wrote_app.
Qed.

Lemma runs_stop dst d n w k :
  0 <= d -> runs (Done (dst, Result (n + k) w)) dst d n w (k, []).
Proof. intros. exists dst. cbn [fst snd]. rewrite zlen_nil, Z.add_0_r. auto using wrote_nil. Qed.

Section loops.
Context (a : arch) (url : bool) (src : list Z) (Hsrc : is_bytes src).

Lemma small_refines s0 slen fuel dst d dlen n w :
  0 <= s0 -> 0 <= n <= slen -> s0 + slen <= zlen src -> slen < 2 ^ 64 ->
  0 <= d -> d + dlen <= zlen dst -> slen - n < Z.of_nat fuel ->
  runs (decode_small_loop a url src s0 slen fuel dst d dlen n w) dst d n w
       (scalar_small fuel url dlen (rest src (s0 + n) (slen - n))).
Proof.
  revert dst d dlen n w. induction fuel as [|fuel IH]; intros dst d dlen n w Hs Hn Hl Hw Hd Hdl Hf;
    [lia|].
  cbn [decode_small_loop scalar_small].
  rewrite skip_nl_Done by (auto using skip_fuel_enough). rewrite bind_Done.
  set (cs := rest src (s0 + n) (slen - n)). set (k := nl_run cs).
  assert (0 <= k <= slen - n) as Hk
    by (pose proof (nl_run_bounds cs); unfold cs in *; rewrite zlen_rest in * by lia; lia).
  rewrite size_sub_le by lia.
  assert (zdrop k cs = rest src (s0 + (n + k)) (slen - (n + k))) as Ecs
    by (unfold cs; rewrite rest_drop by lia; f_equal; lia).
  rewrite Ecs. rewrite zlen_rest by lia.
  destruct ((slen - (n + k) <? 16) || (dlen <? 16)) eqn:E; [by apply runs_stop|].
  bool_to_prop. set (cs' := rest src (s0 + (n + k)) (slen - (n + k))) in *.
  unfold load16. rewrite load_Done by lia. rewrite bind_Done.
  set (x := ztake 16 (zdrop (s0 + (n + k)) src)).
  assert (zlen x = 16) as Hx by (unfold x; zlens).
  assert (is_bytes x) as Hxb by (unfold x; auto with zlist).
  assert (forall m, 0 <= m <= 16 -> ztake m cs' = ztake m x) as Tx
    by (intros; unfold cs', x; rewrite rest_take, ztake_ztake by lia; done).
  assert (quanta url cs' = quanta url x) as Eq
    by (unfold quanta; rewrite !Tx by lia; done).
  rewrite small_step_valid by done. rewrite Eq.
  destruct (quanta_digits url x) as [Hq Hq4]. set (q := quanta url x) in *.
  rewrite (Tx (4 * q)) by lia.
  assert (zlen (ztake (4 * q) x) = 4 * q) as Zq by zlens.
  assert (zlen (bytes_of url (ztake (4 * q) x)) = 3 * q) as Bq
    by (by apply zlen_bytes_of_quanta).
  assert (forall dst1, wrote dst d (bytes_of url (ztake (4 * q) x)) dst1 -> 0 < q ->
    runs (decode_small_loop a url src s0 slen fuel dst1 (d + 3 * q) (dlen - 3 * q)
            (n + k + 4 * q) (w + 3 * q)) dst d n w
      (k + 4 * q + (scalar_small fuel url (dlen - 3 * q) (zdrop (4 * q) cs')).1,
       bytes_of url (ztake (4 * q) x) ++
         (scalar_small fuel url (dlen - 3 * q) (zdrop (4 * q) cs')).2)) as Next.
  { intros dst1 Hw1 Hq0. eapply runs_step; [done|exact Hw1|]. rewrite Bq.
    unfold cs'. rewrite rest_drop by lia.
    replace (n + (k + 4 * q)) with (n + k + 4 * q) by lia.
    replace (s0 + (n + k) + 4 * q) with (s0 + (n + k + 4 * q)) by lia.
    replace (slen - (n + k) - 4 * q) with (slen - (n + k + 4 * q)) by lia.
    apply IH; try lia. rewrite (wrote_len _ _ _ _ Hw1). lia. }
  destruct (digits url x) eqn:Dx.
  - assert (q = 4) as Q4.
    { unfold q. apply quanta_full. rewrite ztake_all by lia. done. }
    rewrite Q4 in *. rewrite small_step_full by done.
    replace (ztake (4 * 4) x) with x in * by (symmetry; apply ztake_all; lia).
    destruct (store_wrote dst d (bytes_of url x) [0;0;0;0]) as (dst1 & E1 & W1);
      [lia|done|rewrite Bq; change (zlen [0;0;0;0]) with 4; lia|].
    unfold store16. rewrite E1, bind_Done. apply (Next dst1 W1). lia.
  - rewrite small_step_digits by done. fold q. destruct (q =? 0) eqn:Q0; [by apply runs_stop|].
    bool_to_prop.
    assert ((4 * q) / 4 * 3 = 3 * q) as -> by (Z.div_mod_to_equations; lia).
    assert (q < 4) as Hlt.
    { destruct (Z.eq_dec q 4) as [E4|]; [|lia]. rewrite E4 in Hq.
      rewrite ztake_all in Hq by lia. congruence. }
    assert ((if 4 * q =? 12 then 9 else if 4 * q =? 8 then 6 else 3) = 3 * q) as ->
      by (destruct (Z.eqb_spec (4 * q) 12), (Z.eqb_spec (4 * q) 8); lia).
    rewrite small_step_pack by (done || lia).
    destruct (store_wrote dst d (bytes_of url (ztake (4 * q) x)) []) as (dst1 & E1 & W1);
      [lia|done|rewrite Bq, zlen_nil; lia|].
    rewrite app_nil_r in E1. rewrite E1, bind_Done. apply (Next dst1 W1). lia.
Qed.

(** *** Blocks and lines *)

Definition runs_to (m : outcome (list Z * Z * Z * Z * Z)) (dst : list Z) (d dlen n w : Z)
    (r : Z * list Z) : Prop :=
  exists dst', m = Done (dst', d + zlen r.2, dlen - zlen r.2, n + r.1, w + zlen r.2) /\
    wrote dst d r.2 dst'.

Lemma runs_to_step m dst d dlen n w k o r dst1 :
  0 <= d -> wrote dst d o dst1 ->
  runs_to m dst1 (d + zlen o) (dlen - zlen o) (n + k) (w + zlen o) r ->
  runs_to m dst d dlen n w (k + r.1, o ++ r.2).
Proof.
  intros Hd Ho (dst' & -> & Hw). exists dst'. cbn [fst snd].
  rewrite zlen_app, !Z.add_assoc, Z.sub_add_distr. split; [done|]. eauto using wrote_app.
Qed.

Lemma runs_to_stop dst d dlen n w :
  0 <= d -> runs_to (Done (dst, d, dlen, n, w)) dst d dlen n w (0, []).
Proof.
  intros. exists dst. cbn [fst snd]. rewrite zlen_nil, !Z.add_0_r, Z.sub_0_r.
  auto using wrote_nil.
Qed.

Lemma runs_to_skip m dst d dlen n w k r :
  runs_to m dst d dlen (n + k) w r -> runs_to m dst d dlen n w (k + r.1, r.2).
Proof. intros (dst' & -> & Hw). exists dst'. cbn [fst snd]. by rewrite Z.add_assoc. Qed.

Lemma valid_nonzero x :
  length x = 16%nat -> is_bytes x ->
  nonzero (decode_valid a url x) = digits url x /\ is_bytes (decode_valid a url x) /\
  length (decode_valid a url x) = 16%nat.
Proof.
  intros Hl Hb. pose proof (decode_classifies a url x Hl) as C.
  pose proof (classifies_bytes _ _ _ _ C Hb) as B.
  destruct (classifies_length _ _ _ _ C) as [L _]. rewrite Hl in L.
  split; [|done]. rewrite <- (classifies_all a _ _ _ _ C Hb Hl).
  unfold nonzero. by rewrite all_nonzero_spec.
Qed.

Lemma min16_length u v : length u = 16%nat -> length v = 16%nat -> length (min16 u v) = 16%nat.
Proof. intros. unfold min16, vmin. rewrite vmap2_length; congruence. Qed.

(** The shared reduction of a block, alone or with a fifth vector. *)
Lemma block_valid off blk :
  block_spec a url src off blk ->
  let V x := decode_valid a url x in
  all_nonzero a (min16 (min16 (V (val0 blk)) (V (val1 blk)))
                       (min16 (V (val2 blk)) (V (val3 blk))))
    = digits url (ztake 64 (zdrop off src)) /\
  forall v4, is_bytes v4 -> length v4 = 16%nat ->
    all_nonzero a (min16 (min16 (V (val0 blk)) (V (val1 blk)))
                         (min16 (min16 (V (val2 blk)) (V (val3 blk))) v4))
    = digits url (ztake 64 (zdrop off src)) && all_nonzero a v4.
Proof.
  intros [Hl Hd _] V. rewrite !Forall_cons in Hl.
  destruct Hl as ([L0 B0] & [L1 B1] & [L2 B2] & [L3 B3] & _).
  destruct (valid_nonzero _ L0 B0) as (N0 & W0 & K0).
  destruct (valid_nonzero _ L1 B1) as (N1 & W1 & K1).
  destruct (valid_nonzero _ L2 B2) as (N2 & W2 & K2).
  destruct (valid_nonzero _ L3 B3) as (N3 & W3 & K3). rewrite <- Hd.
  pose proof (vmin_bytes _ _ W0 W1) as W01. pose proof (vmin_bytes _ _ W2 W3) as W23.
  pose proof (min16_length _ _ K0 K1) as K01. pose proof (min16_length _ _ K2 K3) as K23.
  unfold V, min16 in *. split.
  - rewrite all_nonzero_spec by (auto using vmin_bytes; apply min16_length; done).
    fold (nonzero (vmin (vmin (decode_valid a url (val0 blk)) (decode_valid a url (val1 blk)))
      (vmin (decode_valid a url (val2 blk)) (decode_valid a url (val3 blk))))).
    rewrite !nonzero_min by (done || congruence). by rewrite N0, N1, N2, N3.
  - intros v4 B4 K4.
    assert (length (vmin (vmin (decode_valid a url (val2 blk)) (decode_valid a url (val3 blk))) v4)
      = 16%nat) by (apply min16_length; done).
    rewrite !all_nonzero_spec by
      (auto using vmin_bytes || done || (apply min16_length; done)).
    fold (nonzero v4).
    fold (nonzero (vmin (vmin (decode_valid a url (val0 blk)) (decode_valid a url (val1 blk)))
      (vmin (vmin (decode_valid a url (val2 blk)) (decode_valid a url (val3 blk))) v4))).
    rewrite !nonzero_min by (auto using vmin_bytes || congruence).
    by rewrite N0, N1, N2, N3, andb_assoc.
Qed.

Lemma block_store_wrote off blk dst d :
  block_spec a url src off blk -> 0 <= off -> off + 64 <= zlen src ->
  0 <= d -> d + 52 <= zlen dst -> digits url (ztake 64 (zdrop off src)) = true ->
  exists dst1,
    decode_store48 a dst d (decode_values a url (val0 blk)) (decode_values a url (val1 blk))
      (decode_values a url (val2 blk)) (decode_values a url (val3 blk)) = Done dst1 /\
    wrote dst d (bytes_of url (ztake 64 (zdrop off src))) dst1 /\
    zlen (bytes_of url (ztake 64 (zdrop off src))) = 48.
Proof.
  intros Hb Ho Hl Hd Hdl Hdig. rewrite (block_store _ _ _ _ _ Hb) by done.
  assert (zlen (bytes_of url (ztake 64 (zdrop off src))) = 48) as E.
  { change 48 with (3 * 16). apply zlen_bytes_of_quanta. zlens. }
  destruct (store_wrote dst d (bytes_of url (ztake 64 (zdrop off src))) (scratch a))
    as (dst1 & E1 & W1); [done|destruct a; done|rewrite E; destruct a; cbn [scratch]; zlens|].
  eauto.
Qed.

Lemma bulk_refines slen fuel dst d dlen n w :
  0 <= n <= slen -> slen <= zlen src -> slen < 2 ^ 64 ->
  0 <= d -> d + dlen <= zlen dst -> slen - n < Z.of_nat fuel ->
  runs_to (decode_bulk_loop a url src slen fuel dst d dlen n w) dst d dlen n w
          (scalar_bulk fuel url dlen (rest src n (slen - n))).
Proof.
  revert dst d dlen n w.
  induction fuel as [|fuel IH]; intros dst d dlen n w Hn Hl Hw Hd Hdl Hf; [lia|].
  cbn [decode_bulk_loop scalar_bulk]. rewrite size_sub_le by lia. rewrite zlen_rest by lia.
  rewrite !Z.geb_leb, <- !Z.ltb_antisym.
  destruct ((slen - n <? 64) || (dlen <? 52)) eqn:E; [by apply runs_to_stop|]. bool_to_prop.
  rewrite load8_Done by lia. rewrite bind_Done.
  change 0%nat with (Z.to_nat 0). rewrite rest_lookup, Z.add_0_r by lia.
  destruct (is_nl (src !!! Z.to_nat n)) eqn:Enl.
  - rewrite skip_nl_Done by (try apply skip_fuel_enough; lia). rewrite bind_Done, Z.add_0_l.
    pose proof (nl_run_bounds (rest src n (slen - n))) as Hk. rewrite zlen_rest in Hk by lia.
    assert (n + 1 + nl_run (rest src (n + 1) (slen - (n + 1))) = n + nl_run (rest src n (slen - n)))
      as ->.
    { rewrite (rest_cons src n) by lia. cbn [nl_run]. rewrite Enl.
      replace (slen - (n + 1)) with (slen - n - 1) by lia. lia. }
    assert (0 < nl_run (rest src n (slen - n))).
    { rewrite rest_cons by lia. cbn [nl_run]. rewrite Enl.
      pose proof (nl_run_bounds (rest src (n + 1) (slen - n - 1))). lia. }
    apply runs_to_skip. rewrite rest_drop by lia.
    replace (slen - n - nl_run (rest src n (slen - n)))
      with (slen - (n + nl_run (rest src n (slen - n)))) by lia.
    apply IH; lia.
  - destruct (decode_block a url src n Hsrc) as (blk & -> & Hb); [lia..|]. rewrite bind_Done.
    rewrite (proj1 (block_valid n blk Hb)). rewrite rest_take by lia.
    destruct (digits url (ztake 64 (zdrop n src))) eqn:Hdig; [|by apply runs_to_stop].
    destruct (block_store_wrote n blk dst d Hb) as (dst1 & -> & W1 & B); [lia..|done|].
    rewrite bind_Done. eapply runs_to_step; [done|exact W1|]. rewrite B.
    rewrite rest_drop by lia. replace (slen - n - 64) with (slen - (n + 64)) by lia.
    apply IH; try lia. rewrite (wrote_len _ _ _ _ W1). lia.
Qed.

Lemma tail_vector x4 :
  zlen x4 = 16 -> is_bytes x4 ->
  let v := vor (decode_valid a url x4) [0;0;0;0;0;0;0;0;0;0;0;0;1;1;1;1] in
  is_bytes v /\ length v = 16%nat /\ all_nonzero a v = digits url (ztake 12 x4) /\
  (digits url (ztake 12 x4) = true ->
   ztake 9 (decode_pack a (decode_values a url x4)) = bytes_of url (ztake 12 x4)).
Proof.
  intros Hl%zlen_nat16 Hb v. pose proof (decode_classifies a url x4 Hl) as C.
  destruct (classifies_length _ _ _ _ C) as [L _]. rewrite Hl in L.
  repeat split.
  - pose proof (classifies_bytes _ _ _ _ C Hb) as B. clear - B. unfold v, vor, vmap2, is_bytes.
    apply Forall_lookup_2. intros i y. rewrite lookup_zip_with_Some.
    intros (c & m & -> & Hc & Hm). apply byte_lor; [by eapply (Forall_lookup_1 _ _ _ _ B)|].
    eapply (Forall_lookup_1 is_byte); [|exact Hm]. apply (bool_decide_unpack _). vm_compute. exact I.
  - unfold v, vor. rewrite vmap2_length; done.
  - unfold v. exact (classifies_tail a _ _ _ _ 12 C Hb Hl ltac:(lia)).
  - intros Hd. exact (classifies_pack a _ _ _ _ 3 C Hb Hl ltac:(lia) Hd).
Qed.

Lemma eol_step slen n :
  0 <= n -> n + 80 <= slen -> slen <= zlen src ->
  (c1 ← load8 src (n + 77 - 1);
   n' ← (if c1 =? 13 then c2 ← load8 src (n + 77); Done (if c2 =? 10 then n + 77 + 1 else n + 77)
         else Done (n + 77)); Done n')
  = Done (n + eol_len (rest src n (slen - n))).
Proof.
  intros Hn Hl Hs. rewrite (load8_Done src (n + 77 - 1)) by lia. rewrite bind_Done.
  unfold eol_len.
  assert (rest src n (slen - n) !!! 76%nat = src !!! Z.to_nat (n + 76)) as ->
    by (apply (rest_lookup src n (slen - n) 76); lia).
  assert (rest src n (slen - n) !!! 77%nat = src !!! Z.to_nat (n + 77)) as ->
    by (apply (rest_lookup src n (slen - n) 77); lia).
  replace (n + 77 - 1) with (n + 76) by lia.
  destruct (src !!! Z.to_nat (n + 76) =? 13); cbn [andb]; [|done].
  rewrite load8_Done by lia. rewrite !bind_Done.
  destruct (src !!! Z.to_nat (n + 77) =? 10); apply (f_equal Done); lia.
Qed.

Lemma mime_refines slen fuel dst d dlen n w :
  0 <= n <= slen -> slen <= zlen src -> slen < 2 ^ 64 ->
  0 <= d -> d + dlen <= zlen dst -> slen - n < Z.of_nat fuel ->
  runs_to (decode_mime_loop a url src slen fuel dst d dlen n w) dst d dlen n w
          (scalar_mime fuel url dlen (rest src n (slen - n))).
Proof.
  revert dst d dlen n w.
  induction fuel as [|fuel IH]; intros dst d dlen n w Hn Hl Hw Hd Hdl Hf; [lia|].
  cbn [decode_mime_loop scalar_mime]. rewrite size_sub_le by lia. rewrite zlen_rest by lia.
  rewrite !Z.geb_leb.
  destruct (80 <=? slen - n) eqn:E1; cbn [negb orb andb]; [|by apply runs_to_stop].
  destruct (57 <=? dlen) eqn:E2; cbn [negb orb andb]; [|by apply runs_to_stop]. bool_to_prop.
  rewrite (load8_Done src (n + 76)) by lia. rewrite bind_Done.
  assert (rest src n (slen - n) !!! 76%nat = src !!! Z.to_nat (n + 76)) as ->
    by (apply (rest_lookup src n (slen - n) 76); lia).
  destruct (is_nl (src !!! Z.to_nat (n + 76))); cbn [negb andb]; [|by apply runs_to_stop].
  destruct (decode_block a url src n Hsrc) as (blk & -> & Hb); [lia..|]. rewrite bind_Done.
  unfold load16. rewrite load_Done by lia. rewrite bind_Done.
  set (x4 := ztake 16 (zdrop (n + 64) src)).
  assert (zlen x4 = 16) as L4 by (unfold x4; zlens).
  assert (is_bytes x4) as B4 by (unfold x4; auto with zlist).
  destruct (tail_vector x4 L4 B4) as (Hv4 & Hl4 & Hd4 & Hp4).
  rewrite (proj2 (block_valid n blk Hb)), Hd4 by done. rewrite rest_take by lia.
  assert (ztake 76 (zdrop n src) = ztake 64 (zdrop n src) ++ ztake 12 x4) as ->.
  { change 76 with (64 + 12). rewrite ztake_add, zdrop_zdrop by lia. unfold x4.
    by rewrite ztake_ztake by lia. }
  rewrite digits_app. rewrite bytes_of_app by (rewrite zlen_ztake by zlens; reflexivity).
  destruct (digits url (ztake 64 (zdrop n src))) eqn:D64; cbn [andb negb];
    [|by apply runs_to_stop].
  destruct (digits url (ztake 12 x4)) eqn:D12; cbn [negb]; [|by apply runs_to_stop].
  destruct (block_store_wrote n blk dst d Hb) as (dst1 & -> & W1 & Z48); [lia..|done|].
  rewrite bind_Done. unfold store9. rewrite Hp4 by done.
  assert (zlen (bytes_of url (ztake 12 x4)) = 9) as Z9
    by (apply (zlen_bytes_of_quanta _ _ 3); zlens).
  destruct (store_wrote dst1 (d + 48) (bytes_of url (ztake 12 x4)) []) as (dst2 & E2' & W2);
    [lia|done|rewrite Z9, zlen_nil, (wrote_len _ _ _ _ W1); lia|].
  rewrite app_nil_r in E2'. rewrite E2', bind_Done.
  rewrite <- Z48 in W2. pose proof (wrote_app _ _ _ _ _ _ Hd W1 W2) as W.
  pose proof (eol_step slen n ltac:(lia) ltac:(lia) ltac:(lia)) as Eol.
  apply bind_Done_inv in Eol as (c1 & -> & Eol). rewrite bind_Done.
  apply bind_Done_inv in Eol as (n' & -> & [= ->]). rewrite bind_Done.
  assert (77 <= eol_len (rest src n (slen - n)) <= 78) as He by (unfold eol_len; case_match; lia).
  eapply runs_to_step; [done|exact W|]. rewrite zlen_app, Z48, Z9. change (48 + 9) with 57.
  rewrite rest_drop by lia.
  replace (slen - n - eol_len (rest src n (slen - n)))
    with (slen - (n + eol_len (rest src n (slen - n)))) by lia.
  apply IH; try lia. rewrite (wrote_len _ _ _ _ W). lia.
Qed.
End loops.

(** ** The scalar decoder is sound *)

(** [r.1] characters were consumed and stand for the bytes [r.2], which fit. *)
Definition sound (url : bool) (dlen : Z) (cs : list Z) (r : Z * list Z) : Prop :=
  0 <= r.1 <= zlen cs /\ ref_decode url (ztake r.1 cs) = Some r.2 /\
  zlen r.2 <= Z.max 0 dlen.

Lemma sound_stop url dlen cs : sound url dlen cs (0, []).
Proof.
  pose proof (zlen_nonneg cs). split; [|split]; cbn [fst snd];
    [lia|reflexivity|rewrite zlen_nil; lia].
Qed.

Lemma sound_step url dlen cs k o r :
  0 <= k <= zlen cs -> zlen o <= dlen -> ref_decode url (ztake k cs) = Some o ->
  sound url (dlen - zlen o) (zdrop k cs) r -> sound url dlen cs (k + r.1, o ++ r.2).
Proof.
  intros Hk Ho Hd (Hb & Hr & Hz). unfold sound. cbn [fst snd]. rewrite zlen_zdrop in Hb by lia.
  rewrite zlen_app. split_and!; [lia|lia| |lia].
  rewrite ztake_add by lia. by apply ref_decode_app.
Qed.

Lemma nl_run_all cs : forallb is_nl (ztake (nl_run cs) cs) = true.
Proof.
  induction cs as [|c cs IH]; [done|]. cbn [nl_run]. destruct (is_nl c) eqn:E; [|done].
  pose proof (nl_run_bounds cs). unfold ztake in *.
  replace (Z.to_nat (1 + nl_run cs)) with (S (Z.to_nat (nl_run cs))) by lia.
  cbn [take forallb]. by rewrite E, IH.
Qed.

Lemma sound_skip url dlen cs r :
  0 <= dlen -> sound url dlen (zdrop (nl_run cs) cs) r -> sound url dlen cs (nl_run cs + r.1, r.2).
Proof.
  intros Hd H. apply (sound_step url dlen cs (nl_run cs) [] r);
    [apply nl_run_bounds|done|apply ref_decode_nl, nl_run_all|].
  by rewrite zlen_nil, Z.sub_0_r.
Qed.

Lemma digits_step url dlen cs m r :
  0 <= m -> 4 * m <= zlen cs -> 3 * m <= dlen -> digits url (ztake (4 * m) cs) = true ->
  sound url (dlen - 3 * m) (zdrop (4 * m) cs) r ->
  sound url dlen cs (4 * m + r.1, bytes_of url (ztake (4 * m) cs) ++ r.2).
Proof.
  intros Hm Hl Hd Hdig Hr.
  assert (zlen (ztake (4 * m) cs) = 4 * m) as L by (apply zlen_ztake; lia).
  pose proof (zlen_bytes_of_quanta url _ _ L) as B.
  apply sound_step; [lia|lia| |by rewrite B].
  apply ref_decode_bytes_of; [done|]. rewrite L, Z.mul_comm. apply Z_mod_mult.
Qed.

Lemma scalar_small_sound fuel url dlen cs :
  0 <= dlen -> sound url dlen cs (scalar_small fuel url dlen cs).
Proof.
  revert dlen cs. induction fuel as [|fuel IH]; intros dlen cs Hd; [apply sound_stop|].
  cbn [scalar_small]. pose proof (nl_run_bounds cs) as Hk.
  assert (sound url dlen cs (nl_run cs, [])) as Stop.
  { pose proof (sound_skip url dlen cs (0, []) Hd (sound_stop _ _ _)) as S.
    cbn [fst snd] in S. by rewrite Z.add_0_r in S. }
  destruct (_ || _) eqn:E; [done|]. bool_to_prop.
  destruct (quanta_digits url (zdrop (nl_run cs) cs)) as [Hq Hq4].
  destruct (_ =? 0); [done|]. rewrite <- Z.add_assoc.
  eapply (sound_skip _ _ _ (_, _)); [done|]. apply digits_step; [lia|lia|lia|done|].
  apply IH. lia.
Qed.

Lemma eol_step_sound url cs :
  80 <= zlen cs -> is_nl (cs !!! 76%nat) = true -> digits url (ztake 76 cs) = true ->
  77 <= eol_len cs <= 78 /\
  ref_decode url (ztake (eol_len cs) cs) = Some (bytes_of url (ztake 76 cs)).
Proof.
  intros Hl Hnl Hd.
  assert (zlen (ztake 76 cs) = 76) as L by (apply zlen_ztake; lia).
  assert (ref_decode url (ztake 76 cs) = Some (bytes_of url (ztake 76 cs))) as D
    by (apply ref_decode_bytes_of; [done|by rewrite L]).
  assert (forall e, 77 <= e <= 78 -> forallb is_nl (ztake (e - 76) (zdrop 76 cs)) = true ->
    ref_decode url (ztake e cs) = Some (bytes_of url (ztake 76 cs))) as F.
  { intros e He Hn. replace e with (76 + (e - 76)) by lia. rewrite ztake_add by lia.
    rewrite <- (app_nil_r (bytes_of _ _)). apply ref_decode_app; [done|].
    by apply ref_decode_nl. }
  assert (zdrop 76 cs = cs !!! 76%nat :: cs !!! 77%nat :: zdrop 78 cs) as E.
  { unfold zdrop, zlen in *. change (Z.to_nat 76) with 76%nat. change (Z.to_nat 78) with 78%nat.
    rewrite (drop_S cs (cs !!! 76%nat) 76), (drop_S cs (cs !!! 77%nat) 77); [done|..];
      rewrite list_lookup_lookup_total_lt by lia; done. }
  unfold eol_len. destruct (Z.eqb_spec (cs !!! 76%nat) 13) as [E1|]; cbn [andb];
    [destruct (Z.eqb_spec (cs !!! 77%nat) 10) as [E2|]|]; cbv iota;
    (split; [lia|apply F; [lia|]]; rewrite E; unfold ztake;
     cbn [Z.sub Z.add Z.opp Z.pos_sub Pos.pred_double Z.to_nat take forallb];
     rewrite ?E1, ?E2; try reflexivity).
  change (is_nl (cs !!! 76%nat) && true = true). by rewrite Hnl.
Qed.

Lemma scalar_mime_sound fuel url dlen cs :
  0 <= dlen -> sound url dlen cs (scalar_mime fuel url dlen cs).
Proof.
  revert dlen cs. induction fuel as [|fuel IH]; intros dlen cs Hd; [apply sound_stop|].
  cbn [scalar_mime]. destruct (_ && _) eqn:E; [|apply sound_stop].
  apply andb_prop in E as [E E4]. apply andb_prop in E as [E E3]. bool_to_prop.
  destruct (eol_step_sound url cs) as [He Hr]; [lia|done..|].
  assert (zlen (bytes_of url (ztake 76 cs)) = 57) as B
    by (apply (zlen_bytes_of_quanta _ _ 19); rewrite zlen_ztake; lia).
  apply sound_step; [lia|lia|done|]. rewrite B. apply IH. lia.
Qed.

Lemma scalar_bulk_sound fuel url dlen cs :
  0 <= dlen -> sound url dlen cs (scalar_bulk fuel url dlen cs).
Proof.
  revert dlen cs. induction fuel as [|fuel IH]; intros dlen cs Hd; [apply sound_stop|].
  cbn [scalar_bulk]. destruct (_ || _) eqn:E; [apply sound_stop|]. bool_to_prop.
  destruct (is_nl _); [apply sound_skip; auto|].
  destruct (digits url (ztake 64 cs)) eqn:D; [|apply sound_stop].
  apply (digits_step url dlen cs 16); [lia|lia|lia|done|]. apply IH. lia.
Qed.

(** Why the decoder stops: too few characters, too little room, or a quantum that
    is not four digits; line breaks are never left in front. *)
Definition stopped (url : bool) (dlen : Z) (cs : list Z) (r : Z * list Z) : Prop :=
  nl_run (zdrop r.1 cs) = 0 /\
  (zlen (zdrop r.1 cs) < 16 \/ dlen - zlen r.2 < 16 \/
   digits url (ztake 4 (zdrop r.1 cs)) = false).

Lemma nl_run_idem cs : nl_run (zdrop (nl_run cs) cs) = 0.
Proof.
  induction cs as [|c cs IH]; [done|]. cbn [nl_run]. destruct (is_nl c) eqn:E.
  - pose proof (nl_run_bounds cs). unfold zdrop in *.
    by replace (Z.to_nat (1 + nl_run cs)) with (S (Z.to_nat (nl_run cs))) by lia.
  - rewrite zdrop_0. cbn [nl_run]. by rewrite E.
Qed.

Lemma stopped_step url dlen cs k o r :
  0 <= k -> 0 <= r.1 -> stopped url (dlen - zlen o) (zdrop k cs) r ->
  stopped url dlen cs (k + r.1, o ++ r.2).
Proof.
  unfold stopped. cbn [fst snd]. intros. rewrite zlen_app.
  rewrite zdrop_zdrop, Z.sub_add_distr in * by lia. done.
Qed.

Lemma stopped_skip url dlen cs k n o :
  0 <= k -> 0 <= n -> stopped url dlen (zdrop k cs) (n, o) -> stopped url dlen cs (k + n, o).
Proof. unfold stopped. cbn [fst snd]. intros ? ?. by rewrite zdrop_zdrop. Qed.

Lemma scalar_small_stopped fuel url dlen cs :
  0 <= dlen -> zlen cs < Z.of_nat fuel -> stopped url dlen cs (scalar_small fuel url dlen cs).
Proof.
  revert dlen cs. induction fuel as [|fuel IH]; intros dlen cs Hd Hf;
    [pose proof (zlen_nonneg cs); lia|].
  cbn [scalar_small]. pose proof (nl_run_bounds cs) as Hk.
  destruct (_ || _) eqn:E.
  { split; cbn [fst snd]; [apply nl_run_idem|]. apply orb_prop in E as [E|E]; bool_to_prop; [lia|].
    right. left. rewrite zlen_nil. lia. }
  bool_to_prop. destruct (quanta_digits url (zdrop (nl_run cs) cs)) as [Hq Hq4].
  destruct (_ =? 0) eqn:Q.
  { split; cbn [fst snd]; [apply nl_run_idem|]. right. right. bool_to_prop. unfold quanta in Q.
    repeat case_match; done || lia. }
  bool_to_prop. rewrite <- Z.add_assoc.
  set (cs' := zdrop (nl_run cs) cs) in *. set (q := quanta url cs') in *.
  assert (zlen (bytes_of url (ztake (4 * q) cs')) = 3 * q) as B
    by (apply zlen_bytes_of_quanta, zlen_ztake; lia).
  assert (zlen cs' = zlen cs - nl_run cs) by (unfold cs'; rewrite zlen_zdrop; lia).
  pose proof (scalar_small_sound fuel url (dlen - 3 * q) (zdrop (4 * q) cs') ltac:(lia)) as [R _].
  apply stopped_skip; [lia|lia|]. fold cs'. apply stopped_step; [lia|lia|]. rewrite B.
  apply IH; [lia|]. rewrite zlen_zdrop; lia.
Qed.

(** ** The whole decoder *)

Lemma scalar_decode_sound url dlen cs :
  0 <= dlen -> sound url dlen cs (scalar_decode url dlen cs).
Proof.
  intros Hd. unfold scalar_decode. cbv zeta. set (fuel := S (length cs)).
  destruct (zlen cs <? 256); [by apply scalar_small_sound|].
  pose proof (nl_run_bounds cs). set (k := nl_run cs) in *.
  pose proof (scalar_mime_sound fuel url dlen (zdrop k cs) Hd) as S1.
  set (r1 := scalar_mime fuel url dlen (zdrop k cs)) in *. pose proof S1 as (B1 & _ & L1).
  rewrite zlen_zdrop in B1 by lia.
  pose proof (scalar_bulk_sound fuel url (dlen - zlen r1.2) (zdrop (k + r1.1) cs) ltac:(lia)) as S2.
  set (r2 := scalar_bulk _ _ _ _) in *. pose proof S2 as (B2 & _ & L2).
  rewrite zlen_zdrop in B2 by lia.
  pose proof (scalar_small_sound (S (length (zdrop (k + r1.1 + r2.1) cs))) url
    (dlen - zlen r1.2 - zlen r2.2) (zdrop (k + r1.1 + r2.1) cs) ltac:(lia)) as S3.
  set (r3 := scalar_small _ _ _ _) in *.
  rewrite <- !Z.add_assoc.
  apply (sound_skip _ _ _ (r1.1 + (r2.1 + r3.1), r1.2 ++ r2.2 ++ r3.2)); [done|]. fold k.
  apply (sound_step _ _ _ _ _ (r2.1 + r3.1, r2.2 ++ r3.2));
    [rewrite zlen_zdrop; lia|lia|apply S1|].
  rewrite zdrop_zdrop by lia.
  apply sound_step; [rewrite zlen_zdrop; lia|lia|apply S2|].
  by rewrite zdrop_zdrop by lia.
Qed.

Lemma scalar_decode_stopped url dlen cs :
  0 <= dlen -> stopped url dlen cs (scalar_decode url dlen cs).
Proof.
  intros Hd. unfold scalar_decode. cbv zeta. set (fuel := S (length cs)).
  destruct (zlen cs <? 256); [apply scalar_small_stopped; [done|unfold zlen; lia]|].
  pose proof (nl_run_bounds cs). set (k := nl_run cs) in *.
  pose proof (scalar_mime_sound fuel url dlen (zdrop k cs) Hd) as (B1 & _ & L1).
  set (r1 := scalar_mime fuel url dlen (zdrop k cs)) in *. rewrite zlen_zdrop in B1 by lia.
  pose proof (scalar_bulk_sound fuel url (dlen - zlen r1.2) (zdrop (k + r1.1) cs) ltac:(lia))
    as (B2 & _ & L2).
  set (r2 := scalar_bulk _ _ _ _) in *. rewrite zlen_zdrop in B2 by lia.
  set (r3 := scalar_small _ _ _ _).
  assert (stopped url (dlen - zlen r1.2 - zlen r2.2) (zdrop (k + r1.1 + r2.1) cs) r3) as St.
  { apply scalar_small_stopped; [lia|]. unfold zlen. lia. }
  rewrite app_assoc. apply stopped_step; [lia| |by rewrite zlen_app, Z.sub_add_distr].
  pose proof (scalar_small_sound (S (length (zdrop (k + r1.1 + r2.1) cs))) url
    (dlen - zlen r1.2 - zlen r2.2) (zdrop (k + r1.1 + r2.1) cs) ltac:(lia)) as [R _].
  fold r3 in R. lia.
Qed.

(** The vector decoder runs the scalar one, on both instruction sets. *)
Lemma decode_refines a url src dst :
  is_bytes src -> zlen src < 2 ^ 64 ->
  exists dst', let r := scalar_decode url (zlen dst) src in
    tinygodriver_base64_decode a dst (zlen dst) src (zlen src) url
      = Done (dst', Result r.1 (zlen r.2)) /\
    wrote dst 0 r.2 dst'.
Proof.
  intros Hb Hl. pose proof (zlen_nonneg src) as Hn. pose proof (zlen_nonneg dst) as Hdn.
  unfold tinygodriver_base64_decode, scalar_decode. cbv zeta.
  assert (forall n, 0 <= n <= zlen src -> rest src n (zlen src - n) = zdrop n src) as Er
    by (intros; unfold rest; apply ztake_all; zlens).
  assert (skip_fuel (zlen src) 0 = S (length src)) as Ef by (unfold skip_fuel, zlen; lia).
  set (fuel := S (length src)) in *. rewrite !Ef.
  assert (zlen src < Z.of_nat fuel) as Hf by (unfold fuel, zlen; lia).
  destruct (Z.ltb_spec (zlen src) 256).
  - unfold decode_small. rewrite Ef.
    destruct (small_refines a url src Hb 0 (zlen src) fuel dst 0 (zlen dst) 0 0)
      as (dst' & E & W); [lia..|].
    rewrite Z.add_0_l, Er, zdrop_0 in E, W by lia. exists dst'. rewrite E. done.
  - rewrite skip_nl_Done by lia. rewrite bind_Done, !Z.add_0_l, Er, zdrop_0 by lia.
    pose proof (nl_run_bounds src) as Hk. set (k := nl_run src) in *.
    destruct (mime_refines a url src Hb (zlen src) fuel dst 0 (zlen dst) k 0)
      as (dst1 & E1 & W1); [lia..|]. rewrite Er in E1, W1 by lia. rewrite E1, bind_Done.
    pose proof (scalar_mime_sound fuel url (zlen dst) (zdrop k src) Hdn) as (B1 & _ & L1).
    set (r1 := scalar_mime fuel url (zlen dst) (zdrop k src)) in *. rewrite zlen_zdrop in B1 by lia.
    pose proof (wrote_len _ _ _ _ W1) as Len1. pose proof (zlen_nonneg r1.2).
    destruct (bulk_refines a url src Hb (zlen src) fuel dst1 (0 + zlen r1.2) (zlen dst - zlen r1.2)
      (k + r1.1) (0 + zlen r1.2)) as (dst2 & E2 & W2); [lia..|].
    rewrite Er in E2, W2 by lia. rewrite E2, bind_Done.
    pose proof (scalar_bulk_sound fuel url (zlen dst - zlen r1.2) (zdrop (k + r1.1) src) ltac:(lia))
      as (B2 & _ & L2).
    set (r2 := scalar_bulk _ _ _ _) in *. rewrite zlen_zdrop in B2 by lia.
    pose proof (wrote_len _ _ _ _ W2) as Len2. pose proof (zlen_nonneg r2.2).
    rewrite size_sub_le by lia. set (n2 := k + r1.1 + r2.1) in *.
    unfold decode_small.
    assert (skip_fuel (zlen src - n2) 0 = S (length (zdrop n2 src))) as Ef3.
    { unfold skip_fuel. f_equal. unfold zdrop, zlen. rewrite length_drop. lia. }
    rewrite Ef3.
    destruct (small_refines a url src Hb n2 (zlen src - n2) (S (length (zdrop n2 src))) dst2
      (0 + zlen r1.2 + zlen r2.2) (zlen dst - zlen r1.2 - zlen r2.2) 0 0) as (dst3 & E3 & W3);
      [try (rewrite <- Ef3; unfold skip_fuel); lia..|].
    rewrite Z.add_0_r, Z.sub_0_r, Er in E3, W3 by lia. rewrite E3, bind_Done.
    set (r3 := scalar_small _ _ _ _) in *. exists dst3. cbn [read written fst snd].
    split; [do 3 f_equal; rewrite ?zlen_app; unfold n2; lia|].
    eapply wrote_app; [lia|exact W1|]. eapply wrote_app; [lia|exact W2|exact W3].
Qed.

(** C1.  The decoder reads and writes only inside the two buffers, terminates, and
    leaves in the first [w] bytes of the output what RFC 4648 assigns to the first
    [r] characters of the input, line breaks ignored; at most four bytes after
    those are disturbed. *)
Theorem decode_correct (a : arch) (url : bool) (src dst : list Z)
  (Hsrc : is_bytes src) (Hlen : zlen src < 2 ^ 64) :
  exists dst' r w,
    tinygodriver_base64_decode a dst (zlen dst) src (zlen src) url = Done (dst', Result r w) /\
    0 <= r <= zlen src /\ 0 <= w <= zlen dst /\
    ref_decode url (ztake r src) = Some (ztake w dst') /\
    zlen dst' = zlen dst /\ zdrop (w + 4) dst' = zdrop (w + 4) dst.
Proof.
  destruct (decode_refines a url src dst Hsrc Hlen) as (dst' & E & [L P F]).
  pose proof (scalar_decode_sound url (zlen dst) src (zlen_nonneg dst)) as (B & D & W).
  set (r := scalar_decode _ _ _) in *. exists dst', r.1, (zlen r.2).
  pose proof (zlen_nonneg dst). pose proof (zlen_nonneg r.2). rewrite !Z.add_0_l in *.
  split_and!; try done; try lia. by rewrite P.
Qed.

(** C1 at a URL-safe text with a line break and too short a tail for a vector. *)
Definition sample_text : list Z :=
  [65;66;67;68;97;98;99;100;48;49;50;51;45;95;45;95;10;65;65;65;65;66;66;66;66].
Lemma decode_correct_witness :
  is_bytes sample_text /\ zlen sample_text < 2 ^ 64 /\
  exists dst' r w,
    tinygodriver_base64_decode X86_64 (replicate 32 0) 32 sample_text 25 true
      = Done (dst', Result r w) /\
    0 <= r <= 25 /\ 0 <= w <= 32 /\
    ref_decode true (ztake r sample_text) = Some (ztake w dst') /\
    zlen dst' = 32 /\ zdrop (w + 4) dst' = zdrop (w + 4) (replicate 32 0).
Proof.
  assert (is_bytes sample_text) as H by (apply (bool_decide_unpack _); vm_compute; exact I).
  split; [exact H|]. split; [vm_compute; reflexivity|].
  apply (decode_correct X86_64 true sample_text (replicate 32 0) H). vm_compute. reflexivity.
Defined.

(** The NEON and the SSSE3 decoder agree: the same characters consumed, the
    same count and the same bytes, on every input. *)
Theorem decode_arch_independent (url : bool) (src dst : list Z)
  (Hsrc : is_bytes src) (Hlen : zlen src < 2 ^ 64) :
  exists dst1 dst2 res,
    tinygodriver_base64_decode Aarch64 dst (zlen dst) src (zlen src) url = Done (dst1, res) /\
    tinygodriver_base64_decode X86_64 dst (zlen dst) src (zlen src) url = Done (dst2, res) /\
    ztake (written res) dst1 = ztake (written res) dst2 /\
    zdrop (written res + 4) dst1 = zdrop (written res + 4) dst2.
Proof.
  destruct (decode_refines Aarch64 url src dst Hsrc Hlen) as (d1 & E1 & [L1 P1 F1]).
  destruct (decode_refines X86_64 url src dst Hsrc Hlen) as (d2 & E2 & [L2 P2 F2]).
  set (r := scalar_decode _ _ _) in *. exists d1, d2, (Result r.1 (zlen r.2)).
  rewrite !Z.add_0_l in *. cbn [written]. split_and!; congruence.
Qed.

Lemma decode_arch_independent_witness :
  exists dst1 dst2 res,
    tinygodriver_base64_decode Aarch64 (replicate 32 7) 32 sample_text 25 true = Done (dst1, res) /\
    tinygodriver_base64_decode X86_64 (replicate 32 7) 32 sample_text 25 true = Done (dst2, res) /\
    ztake (written res) dst1 = ztake (written res) dst2 /\
    zdrop (written res + 4) dst1 = zdrop (written res + 4) dst2.
Proof.
  apply (decode_arch_independent true sample_text (replicate 32 7)).
  - apply (bool_decide_unpack _). vm_compute. exact I.
  - vm_compute. reflexivity.
Defined.

Lemma digits_false_None url cs :
  digits url cs = false -> exists c, In c cs /\ b64_val url c = None.
Proof.
  induction cs as [|c cs IH]; [done|]. rewrite digits_cons. unfold is_digit.
  destruct (b64_val url c) eqn:E; cbn [andb]; [|intros; exists c; split; [by left|done]].
  intros (x & Hx & Hn)%IH. exists x. split; [by right|done].
Qed.

(** The decoder gives up only for a reason: what it leaves does not begin with
    a line break, and either fewer than sixteen characters remain, or the output
    has room for fewer than sixteen bytes, or one of the next four characters is
    not in the alphabet. *)
Theorem decode_stops_for_a_reason (a : arch) (url : bool) (src dst : list Z)
  (Hsrc : is_bytes src) (Hlen : zlen src < 2 ^ 64) :
  exists dst' r w,
    tinygodriver_base64_decode a dst (zlen dst) src (zlen src) url = Done (dst', Result r w) /\
    nl_run (zdrop r src) = 0 /\
    (zlen src - r < 16 \/ zlen dst - w < 16 \/
     exists c, In c (ztake 4 (zdrop r src)) /\ b64_val url c = None).
Proof.
  destruct (decode_refines a url src dst Hsrc Hlen) as (dst' & E & _).
  pose proof (scalar_decode_sound url (zlen dst) src (zlen_nonneg dst)) as (B & _ & _).
  destruct (scalar_decode_stopped url (zlen dst) src (zlen_nonneg dst)) as [N S].
  set (r := scalar_decode _ _ _) in *. exists dst', r.1, (zlen r.2).
  split; [done|]. split; [done|]. rewrite zlen_zdrop in S by lia.
  destruct S as [|[|S]]; [by left|by right; left|]. right. right. by apply digits_false_None.
Qed.

Lemma decode_stops_witness :
  exists dst' r w,
    tinygodriver_base64_decode Aarch64 (replicate 40 0) 40 (sample_text ++ [33;33]) 27 true
      = Done (dst', Result r w) /\
    nl_run (zdrop r (sample_text ++ [33;33])) = 0 /\
    (27 - r < 16 \/ 40 - w < 16 \/
     exists c, In c (ztake 4 (zdrop r (sample_text ++ [33;33]))) /\ b64_val true c = None).
Proof.
  apply (decode_stops_for_a_reason Aarch64 true (sample_text ++ [33;33]) (replicate 40 0)).
  - apply (bool_decide_unpack _). vm_compute. exact I.
  - vm_compute. reflexivity.
Defined.
