(* ===== verification/Base64Encode.v ===== *)
(** * The Base64 encoder

    Both encoders of SimdBase64 write the RFC 4648 encoding of a whole number of
    triples, and what they write decodes back. *)

From S2P Require Import Prelude Vec Base64Spec SimdBase64 Base64Lanes Base64Decode.

(** ** Spreading three bytes over four sextets *)

Lemma enc3_bits b0 b1 b2 :
  is_byte b0 -> is_byte b1 -> is_byte b2 ->
  enc3 b0 b1 b2 =
    [Z.shiftr b0 2;
     Z.lor (Z.shiftl (Z.land b0 3) 4) (Z.shiftr b1 4);
     Z.lor (Z.shiftl (Z.land b1 15) 2) (Z.shiftr b2 6);
     Z.land b2 63].
Proof.
  unfold is_byte. intros. unfold enc3.
  change 63 with (Z.ones 6). change 15 with (Z.ones 4). change 3 with (Z.ones 2).
  rewrite !Z.land_ones, !Z.shiftr_div_pow2 by lia.
  rewrite !lor_shiftl_add; [|Z.div_mod_to_equations; lia..].
  change (2 ^ 18) with 262144. change (2 ^ 16) with 65536. change (2 ^ 12) with 4096.
  change (2 ^ 8) with 256. change (2 ^ 6) with 64. change (2 ^ 4) with 16. change (2 ^ 2) with 4.
  list_eq; try reflexivity; Z.div_mod_to_equations; lia.
Qed.

(** One quad of lanes of [encode_sextets]. *)
Definition spread4 (a : arch) (b0 b1 b2 : Z) : list Z :=
  match a with
  | Aarch64 => [Z.land (Z.lor (Z.shiftr b0 2) (u8 (Z.shiftl 0 0))) 63;
                Z.land (Z.lor (u8 (Z.shiftl b0 4)) (Z.shiftr b1 4)) 63;
                Z.land (Z.lor (u8 (Z.shiftl b1 2)) (Z.shiftr b2 6)) 63;
                Z.land (Z.lor (u8 (Z.shiftl b2 0)) (u8 (Z.shiftl 0 0))) 63]
  | X86_64 =>
      let w := word4 b2 b1 b0 0 in
      of_word (Z.lor (Z.lor (Z.lor (Z.land (Z.shiftr w 18) 0x0000003f)
                                   (Z.land (Z.shiftr w 4) 0x00003f00))
                            (Z.land (u32 (Z.shiftl w 10)) 0x003f0000))
                     (Z.land (u32 (Z.shiftl w 24)) 0x3f000000))
  end.

Lemma spread4_spec a b0 b1 b2 :
  is_byte b0 -> is_byte b1 -> is_byte b2 -> spread4 a b0 b1 b2 = enc3 b0 b1 b2.
Proof.
  intros H0 H1 H2. rewrite enc3_bits by done. assert (is_byte 0) by (unfold is_byte; lia).
  destruct a; unfold spread4, of_word, word4; cbv zeta; list_eq; try reflexivity; byte_bits.
Qed.

Lemma encode_sextets_quads a b0 b1 b2 b3 b4 b5 b6 b7 b8 b9 b10 b11 b12 b13 b14 b15 :
  encode_sextets a [b0;b1;b2;b3;b4;b5;b6;b7;b8;b9;b10;b11;b12;b13;b14;b15] =
  spread4 a b0 b1 b2 ++ spread4 a b3 b4 b5 ++ spread4 a b6 b7 b8 ++ spread4 a b9 b10 b11.
Proof. destruct a; cbv -[Z.lor Z.land Z.shiftl Z.shiftr u8 u32]; reflexivity. Qed.

Lemma enc_groups_bytes bs : zlen bs mod 3 = 0 -> is_bytes bs -> Forall sextet (enc_groups bs).
Proof.
  intros Hl Hb. revert bs Hl Hb. apply (list_ind3 (fun bs => is_bytes bs -> _)); [constructor|].
  intros a b c l IH Hb. unfold is_bytes in Hb. rewrite !Forall_cons in Hb. destruct_and!.
  cbn [enc_groups]. apply Forall_app. split; [|by apply IH].
  destruct (enc3_dec4 a b c) as (k0 & k1 & k2 & k3 & -> & R & _); [done..|].
  rewrite !Forall_cons, Forall_nil. unfold sextet. tauto.
Qed.

Lemma encode_sextets_spec a x :
  is_bytes x -> zlen x = 16 -> encode_sextets a x = enc_groups (ztake 12 x).
Proof.
  intros Hb Hl. assert (length x = 16%nat) as Hn by (unfold zlen in Hl; lia).
  destruct16 x Hn. unfold is_bytes in Hb. rewrite !Forall_cons in Hb. destruct_and!.
  rewrite encode_sextets_quads, !spread4_spec by done. reflexivity.
Qed.

Lemma encode_chars_spec a url v :
  length v = 16%nat -> Forall sextet v -> encode_chars a url v = map (b64_char url) v.
Proof.
  intros Hl Hv.
  assert (exists f, encode_chars a url v = map f v /\
    all_below 64 (fun k => f k =? b64_char url k) = true) as (f & -> & Hf).
  { destruct a, url; (eexists; split;
      [unfold encode_chars; lanes Hl; reflexivity | vm_compute; reflexivity]). }
  apply map_ext_Forall. eapply Forall_impl; [exact Hv|]. intros k Hk.
  apply Z.eqb_eq. exact (all_below_spec _ _ Hf k Hk).
Qed.

(** One step of the compact encoder. *)
Lemma encode_step a url x :
  is_bytes x -> zlen x = 16 ->
  encode_chars a url (encode_sextets a x) = ref_encode url (ztake 12 x).
Proof.
  intros Hb Hl. assert (zlen (ztake 12 x) = 12) as L by (apply zlen_ztake; lia).
  pose proof (zlen_enc_groups (ztake 12 x)) as E. rewrite L in E. specialize (E eq_refl).
  rewrite encode_sextets_spec by done. apply encode_chars_spec; [unfold zlen in E; lia|].
  apply enc_groups_bytes; [by rewrite L|auto with zlist].
Qed.

(** One step of the bulk encoder. *)
Lemma encode_lookup64_spec url v :
  Forall sextet v ->
  encode_lookup64 alphabet0 alphabet1 alphabet2 (alphabet3 url) v = map (b64_char url) v.
Proof.
  intros Hv. unfold encode_lookup64. apply map_ext_Forall.
  eapply Forall_impl; [exact Hv|]. intros k Hk. apply Z.eqb_eq.
  assert (all_below 64 (fun k => (if k <? 64 then
      (alphabet0 ++ alphabet1 ++ alphabet2 ++ alphabet3 url) !!! Z.to_nat k else 0)
      =? b64_char url k) = true) as Hf by (destruct url; vm_compute; reflexivity).
  exact (all_below_spec _ _ Hf k Hk).
Qed.

Lemma st4_columns (f : Z -> Z) m :
  zlen m mod 3 = 0 -> is_bytes m ->
  let x0 := map (fun t => t.1.1) (ld3 m) in
  let x1 := map (fun t => t.1.2) (ld3 m) in
  let x2 := map (fun t => t.2) (ld3 m) in
  st4 (map f (vshr 2 x0)) (map f (map (fun x => Z.land x 63) (vor (vshl 4 x0) (vshr 4 x1))))
      (map f (map (fun x => Z.land x 63) (vor (vshl 2 x1) (vshr 6 x2))))
      (map f (map (fun x => Z.land x 63) x2))
  = map f (enc_groups m).
Proof.
  intros Hl Hb. revert m Hl Hb. apply (list_ind3 (fun m => is_bytes m -> _)); [done|].
  intros a b c l IH Hb. unfold is_bytes in Hb. rewrite !Forall_cons in Hb. destruct_and!.
  cbn [enc_groups]. rewrite map_app, <- IH by done. rewrite enc3_bits by done.
  cbn [ld3 map fst snd]. unfold vshr, vshl, vor, vmap2. cbn [map zip_with st4 app].
  list_eq; try reflexivity; apply (f_equal f); byte_bits.
Qed.

Lemma ld3_columns m :
  zlen m = 48 -> length (map (fun t => t.1.1) (ld3 m)) = 16%nat /\
    length (map (fun t => t.1.2) (ld3 m)) = 16%nat /\ length (map (fun t => t.2) (ld3 m)) = 16%nat.
Proof.
  intros Hl. assert (length m = 48%nat) as Hn by (unfold zlen in Hl; lia). clear Hl.
  rewrite !length_map. assert (length (ld3 m) = 16%nat) as ->; [|done].
  do 16 (destruct m as [|? [|? [|? m]]]; try discriminate Hn; cbn [ld3 length]; f_equal;
    injection Hn as Hn). by destruct m.
Qed.

Lemma encode_large_step url m :
  is_bytes m -> zlen m = 48 ->
  let x0 := map (fun t => t.1.1) (ld3 m) in
  let x1 := map (fun t => t.1.2) (ld3 m) in
  let x2 := map (fun t => t.2) (ld3 m) in
  let enc := encode_lookup64 alphabet0 alphabet1 alphabet2 (alphabet3 url) in
  st4 (enc (vshr 2 x0)) (enc (vand (vor (vshl 4 x0) (vshr 4 x1)) (splat8 63)))
      (enc (vand (vor (vshl 2 x1) (vshr 6 x2)) (splat8 63))) (enc (vand x2 (splat8 63)))
  = ref_encode url m.
Proof.
  intros Hb Hl. cbv zeta. destruct (ld3_columns m Hl) as (L0 & L1 & L2).
  unfold vand, splat8. rewrite !vmap2_splat by
    (done || (unfold vor; rewrite vmap2_length; unfold vshl, vshr; rewrite !length_map in *; done)).
  unfold encode_lookup64 at 1 2 3 4. rewrite st4_columns by (done || by rewrite Hl).
  unfold ref_encode. rewrite <- encode_lookup64_spec; [done|].
  apply enc_groups_bytes; [by rewrite Hl|done].
Qed.

(** ** The loops *)

Lemma zlen_ref_encode url bs k : zlen bs = 3 * k -> zlen (ref_encode url bs) = 4 * k.
Proof.
  intros H. unfold ref_encode. rewrite zlen_map.
  assert (zlen bs mod 3 = 0) as M by (rewrite H, Z.mul_comm; apply Z_mod_mult).
  pose proof (zlen_enc_groups bs M). lia.
Qed.

Lemma ref_encode_app url bs cs k :
  zlen bs = 3 * k -> ref_encode url (bs ++ cs) = ref_encode url bs ++ ref_encode url cs.
Proof.
  intros H. unfold ref_encode. rewrite enc_groups_app, map_app; [done|].
  rewrite H, Z.mul_comm. apply Z_mod_mult.
Qed.

Section encode_loops.
Context (a : arch) (url : bool) (src : list Z) (Hsrc : is_bytes src).

(** [n] bytes, a whole number of triples, were encoded at [d]; [m] more follow. *)
Definition encoded (dst : list Z) (d s0 k : Z) : list Z :=
  splice dst d (ref_encode url (ztake (3 * k) (zdrop s0 src))).

Lemma encoded_step dst d s0 k1 k2 :
  0 <= s0 -> 0 <= d -> 0 <= k1 -> 0 <= k2 -> s0 + 3 * (k1 + k2) <= zlen src ->
  d + 4 * (k1 + k2) <= zlen dst ->
  encoded (encoded dst d s0 k1) (d + 4 * k1) (s0 + 3 * k1) k2 = encoded dst d s0 (k1 + k2).
Proof.
  intros. unfold encoded. rewrite Z.mul_add_distr_l, ztake_add, zdrop_zdrop by lia.
  rewrite (ref_encode_app _ _ _ k1) by zlens.
  assert (zlen (ref_encode url (ztake (3 * k1) (zdrop s0 src))) = 4 * k1) as L
    by (apply zlen_ref_encode; zlens).
  rewrite <- L. apply splice_splice; [lia|].
  rewrite L, (zlen_ref_encode _ _ k2) by zlens. lia.
Qed.

Lemma encoded_store dst d s0 k :
  0 <= s0 -> 0 <= d -> 0 <= k -> s0 + 3 * k <= zlen src -> d + 4 * k <= zlen dst ->
  store dst d (ref_encode url (ztake (3 * k) (zdrop s0 src))) = Done (encoded dst d s0 k) /\
  zlen (encoded dst d s0 k) = zlen dst.
Proof.
  intros. assert (zlen (ref_encode url (ztake (3 * k) (zdrop s0 src))) = 4 * k)
    by (apply zlen_ref_encode; zlens).
  split; [apply store_splice; lia|apply zlen_splice; lia].
Qed.

Lemma encode_small_loop_spec fuel dst d dlen s0 slen n :
  0 <= s0 -> 0 <= n <= slen -> s0 + slen <= zlen src -> slen < 2 ^ 64 ->
  0 <= d -> d + dlen <= zlen dst -> slen - n < Z.of_nat fuel ->
  exists k, encode_small_loop a url src fuel dst d dlen s0 slen n
      = Done (encoded dst d (s0 + n) k, n + 3 * k) /\
    0 <= k /\ n + 3 * k <= slen /\ 4 * k <= Z.max 0 dlen /\
    (slen - (n + 3 * k) < 16 \/ dlen - 4 * k < 16).
Proof.
  revert dst d dlen n.
  induction fuel as [|fuel IH]; intros dst d dlen n Hs Hn Hl Hw Hd Hdl Hf; [lia|].
  cbn [encode_small_loop]. rewrite size_sub_le, !Z.geb_leb, <- !Z.ltb_antisym by lia.
  destruct ((slen - n <? 16) || (dlen <? 16)) eqn:E.
  { exists 0. unfold encoded. rewrite Z.mul_0_r, ztake_0, Z.add_0_r.
    apply orb_prop in E as [E|E]; bool_to_prop;
      (split; [by rewrite splice_nil by lia|lia]). }
  bool_to_prop. unfold load16, store16. rewrite load_Done by lia. rewrite bind_Done.
  rewrite encode_step by (auto with zlist || zlens). rewrite ztake_ztake by lia.
  destruct (encoded_store dst d (s0 + n) 4) as [E1 L1]; [lia..|].
  change (3 * 4) with 12 in E1. rewrite E1, bind_Done.
  destruct (IH (encoded dst d (s0 + n) 4) (d + 16) (dlen - 16) (n + 12)) as (k & E2 & ? & ? & ? & ?);
    [lia..|].
  exists (4 + k). rewrite E2. replace (s0 + (n + 12)) with (s0 + n + 3 * 4) by lia.
  replace (d + 16) with (d + 4 * 4) by lia. rewrite encoded_step by lia.
  split; [do 2 f_equal; lia|lia].
Qed.

Lemma encode_small_spec dst d dlen s0 slen :
  0 <= s0 -> 0 <= slen -> s0 + slen <= zlen src -> slen < 2 ^ 64 ->
  0 <= d -> d + dlen <= zlen dst ->
  exists k, encode_small a url src dst d dlen s0 slen = Done (encoded dst d s0 k, 3 * k) /\
    0 <= k /\ 3 * k <= slen /\ 4 * k <= Z.max 0 dlen /\ (slen - 3 * k < 16 \/ dlen - 4 * k < 16).
Proof.
  intros. unfold encode_small.
  destruct (encode_small_loop_spec (skip_fuel slen 0) dst d dlen s0 slen 0) as (k & E & R);
    [unfold skip_fuel; lia..|].
  rewrite Z.add_0_r, Z.add_0_l in *. eauto.
Qed.

Lemma encode_large_loop_spec fuel dst d dlen slen n :
  0 <= n <= slen -> slen <= zlen src -> slen < 2 ^ 64 ->
  0 <= d -> d + dlen <= zlen dst -> slen - n < Z.of_nat fuel ->
  exists k, encode_large_loop url src fuel dst d dlen slen n
      = Done (encoded dst d n k, d + 4 * k, dlen - 4 * k, n + 3 * k) /\
    0 <= k /\ n + 3 * k <= slen /\ 4 * k <= Z.max 0 dlen.
Proof.
  revert dst d dlen n.
  induction fuel as [|fuel IH]; intros dst d dlen n Hn Hl Hw Hd Hdl Hf; [lia|].
  cbn [encode_large_loop]. rewrite size_sub_le, !Z.geb_leb, <- !Z.ltb_antisym by lia.
  destruct ((slen - n <? 48) || (dlen <? 64)) eqn:E.
  { exists 0. unfold encoded. rewrite Z.mul_0_r, ztake_0, !Z.mul_0_r, !Z.add_0_r, Z.sub_0_r.
    split; [by rewrite splice_nil by lia|lia]. }
  bool_to_prop. rewrite load_Done by lia. rewrite bind_Done. cbv zeta.
  rewrite encode_large_step by (auto with zlist || zlens).
  destruct (encoded_store dst d n 16) as [E1 L1]; [lia..|].
  change (3 * 16) with 48 in E1. rewrite E1, bind_Done.
  destruct (IH (encoded dst d n 16) (d + 64) (dlen - 64) (n + 48)) as (k & E2 & ? & ? & ?);
    [lia..|].
  exists (16 + k). rewrite E2. replace (n + 48) with (n + 3 * 16) by lia.
  replace (d + 64) with (d + 4 * 16) by lia. rewrite encoded_step by lia.
  split; [repeat (apply (f_equal Done) || apply (f_equal2 pair)); lia || done|lia].
Qed.

Lemma encode_large_spec dst slen :
  0 <= slen <= zlen src -> slen < 2 ^ 64 ->
  exists k, encode_large a url src dst (zlen dst) slen = Done (encoded dst 0 0 k, 3 * k) /\
    0 <= k /\ 3 * k <= slen /\ 4 * k <= zlen dst /\
    (slen - 3 * k < 16 \/ zlen dst - 4 * k < 16).
Proof.
  intros Hl Hw. unfold encode_large. pose proof (zlen_nonneg dst).
  destruct (encode_large_loop_spec (skip_fuel slen 0) dst 0 (zlen dst) slen 0)
    as (k & -> & ? & ? & ?); [unfold skip_fuel; lia..|].
  rewrite bind_Done, size_sub_le by lia.
  destruct (encoded_store dst 0 0 k) as [_ L]; [lia..|].
  destruct (encode_small_spec (encoded dst 0 0 k) (0 + 4 * k) (zlen dst - 4 * k) (0 + 3 * k)
    (slen - (0 + 3 * k))) as (k' & -> & ? & ? & ? & ?); [lia..|].
  rewrite bind_Done. exists (k + k').
  rewrite encoded_step by lia. split; [do 2 f_equal; lia|lia].
Qed.
End encode_loops.

(** ** The encoder *)

Lemma encode_spec a url src dst :
  is_bytes src -> zlen src < 2 ^ 64 ->
  exists k, tinygodriver_base64_encode a dst (zlen dst) src (zlen src) url
      = Done (splice dst 0 (ref_encode url (ztake (3 * k) src)), 3 * k) /\
    0 <= k /\ 3 * k <= zlen src /\ 4 * k <= zlen dst /\
    (zlen src - 3 * k < 16 \/ zlen dst - 4 * k < 16).
Proof.
  intros Hb Hw. pose proof (zlen_nonneg src). pose proof (zlen_nonneg dst).
  destruct (encode_small_spec a url src Hb dst 0 (zlen dst) 0 (zlen src)) as (k & E & R); [lia..|].
  assert (4 * k <= zlen dst) by lia.
  unfold tinygodriver_base64_encode. destruct a; [|exists k; rewrite E; split; [done|lia]].
  destruct (zlen src >=? 256); [|exists k; rewrite E; split; [done|lia]].
  destruct (encode_large_spec Aarch64 url src Hb dst (zlen src)) as (k' & E' & R'); [lia..|].
  exists k'. rewrite E'. split; [done|lia].
Qed.

(** C10.  The encoder stays inside its buffers and terminates; it consumes a whole
    number of triples, writes exactly their RFC 4648 encoding and touches nothing
    after it, and it stops only when fewer than sixteen input bytes or fewer than
    sixteen output bytes are left. *)
Theorem encode_correct (a : arch) (url : bool) (src dst : list Z)
  (Hsrc : is_bytes src) (Hlen : zlen src < 2 ^ 64) :
  exists dst' n,
    tinygodriver_base64_encode a dst (zlen dst) src (zlen src) url = Done (dst', n) /\
    0 <= n <= zlen src /\ n mod 3 = 0 /\ zlen dst' = zlen dst /\
    ztake (n / 3 * 4) dst' = ref_encode url (ztake n src) /\
    zdrop (n / 3 * 4) dst' = zdrop (n / 3 * 4) dst /\
    (zlen src - n < 16 \/ zlen dst - n / 3 * 4 < 16).
Proof.
  destruct (encode_spec a url src dst Hsrc Hlen) as (k & E & Hk & Hs & Hd & R).
  assert (3 * k / 3 * 4 = 4 * k) as E3 by (Z.div_mod_to_equations; lia).
  assert (zlen (ref_encode url (ztake (3 * k) src)) = 4 * k) as L
    by (apply zlen_ref_encode, zlen_ztake; lia).
  eexists _, (3 * k). split; [exact E|]. rewrite E3. rewrite <- L. split_and!; try lia.
  - rewrite Z.mul_comm. apply Z_mod_mult.
  - apply zlen_splice; lia.
  - apply splice_0_prefix. lia.
  - apply splice_0_suffix. lia.
Qed.

Definition sample_bytes : list Z := map (fun i => (i * 37 + 11) mod 256) (seqZ 0 30).
Lemma encode_correct_witness :
  exists dst' n,
    tinygodriver_base64_encode Aarch64 (replicate 50 0) 50 sample_bytes 30 false = Done (dst', n) /\
    0 <= n <= 30 /\ n mod 3 = 0 /\ zlen dst' = 50 /\
    ztake (n / 3 * 4) dst' = ref_encode false (ztake n sample_bytes) /\
    zdrop (n / 3 * 4) dst' = zdrop (n / 3 * 4) (replicate 50 0) /\
    (30 - n < 16 \/ 50 - n / 3 * 4 < 16).
Proof.
  apply (encode_correct Aarch64 false sample_bytes (replicate 50 0)).
  - apply (bool_decide_unpack _). vm_compute. exact I.
  - vm_compute. reflexivity.
Defined.

(** ** Round trip *)

Lemma ref_encode_digits url bs :
  is_bytes bs -> zlen bs mod 3 = 0 -> digits url (ref_encode url bs) = true.
Proof.
  intros Hb Hl. pose proof (enc_groups_bytes bs Hl Hb) as H. unfold ref_encode, digits.
  induction H as [|k l Hk Hl' IH]; [done|]. cbn [map forallb]. rewrite IH.
  unfold is_digit. by rewrite b64_val_char by exact Hk.
Qed.

Lemma digits_take url k cs : digits url cs = true -> digits url (ztake k cs) = true.
Proof.
  intros H. rewrite <- (ztake_zdrop k cs), digits_app in H. by apply andb_prop in H as [? _].
Qed.

Lemma digits_drop url k cs : digits url cs = true -> digits url (zdrop k cs) = true.
Proof.
  intros H. rewrite <- (ztake_zdrop k cs), digits_app in H. by apply andb_prop in H as [_ ?].
Qed.

(** A decodable prefix of an encoding is the encoding of a prefix. *)
Lemma ref_decode_prefix url bs r out :
  is_bytes bs -> zlen bs mod 3 = 0 -> 0 <= r <= zlen (ref_encode url bs) ->
  ref_decode url (ztake r (ref_encode url bs)) = Some out -> out = ztake (zlen out) bs.
Proof.
  intros Hb Hm Hr Hd. pose proof (ref_encode_digits url bs Hb Hm) as Hdig.
  pose proof (digits_take url r _ Hdig) as Hdr. pose proof Hd as Hd'.
  unfold ref_decode in Hd'.
  rewrite (payload_digits url _ _ (digits_mapM _ _ Hdr)), (digits_mapM _ _ Hdr) in Hd'.
  cbn [mbind option_bind] in Hd'. rewrite zlen_map, zlen_ztake in Hd' by lia.
  destruct (Z.eqb_spec (r mod 4) 0) as [R|]; [|done]. clear Hd'.
  set (k := r / 4). assert (r = 4 * k) as Er by (unfold k; Z.div_mod_to_equations; lia).
  set (m := zlen bs / 3). assert (zlen bs = 3 * m) as Em by (unfold m; Z.div_mod_to_equations; lia).
  rewrite (zlen_ref_encode _ _ m) in Hr by done.
  assert (zlen (ztake (3 * k) bs) = 3 * k) as L3 by (apply zlen_ztake; lia).
  assert (ztake r (ref_encode url bs) = ref_encode url (ztake (3 * k) bs)) as E.
  { rewrite <- (ztake_zdrop (3 * k) bs) at 1. rewrite (ref_encode_app _ _ _ k) by done.
    pose proof (zlen_ref_encode url _ _ L3) as L4.
    rewrite ztake_app_l by lia. apply ztake_all. lia. }
  rewrite E, ref_roundtrip in Hd; [injection Hd as <-; by rewrite L3|auto with zlist|].
  rewrite L3, Z.mul_comm. apply Z_mod_mult.
Qed.

(** Decoding what the encoder wrote gives back the encoded bytes, whatever
    instruction set each side uses; only a tail shorter than a vector, or an output
    that is nearly full, is left to the caller. *)
Theorem encode_decode_roundtrip (a b : arch) (url : bool) (src enc dst : list Z)
  (Hsrc : is_bytes src) (Hlen : zlen src < 2 ^ 62) :
  exists enc' n dst' r w,
    tinygodriver_base64_encode a enc (zlen enc) src (zlen src) url = Done (enc', n) /\
    let txt := ztake (n / 3 * 4) enc' in
    tinygodriver_base64_decode b dst (zlen dst) txt (zlen txt) url = Done (dst', Result r w) /\
    ztake w dst' = ztake w src /\ 0 <= w <= n /\
    (zlen txt - r < 16 \/ zlen dst - w < 16).
Proof.
  destruct (encode_spec a url src enc Hsrc) as (k & E & Hk & Hs & Hd & _); [lia|].
  assert (3 * k / 3 * 4 = 4 * k) as E3 by (Z.div_mod_to_equations; lia).
  set (bs := ztake (3 * k) src) in *. assert (zlen bs = 3 * k) as Lb by (apply zlen_ztake; lia).
  assert (is_bytes bs) as Hb by (unfold bs; auto with zlist).
  assert (zlen bs mod 3 = 0) as Hm by (rewrite Lb, Z.mul_comm; apply Z_mod_mult).
  pose proof (zlen_ref_encode url bs k Lb) as Lt. pose proof (ref_encode_digits url bs Hb Hm) as Hdig.
  set (txt := ref_encode url bs) in *.
  assert (is_bytes txt) as Ht.
  { unfold txt, ref_encode. apply Forall_map. eapply Forall_impl; [by apply enc_groups_bytes|].
    intros c Hc. by apply b64_char_byte. }
  destruct (decode_refines b url txt dst Ht) as (dst' & D & [_ P _]); [lia|].
  pose proof (scalar_decode_sound url (zlen dst) txt (zlen_nonneg dst)) as (B & Dec & W).
  destruct (scalar_decode_stopped url (zlen dst) txt (zlen_nonneg dst)) as [_ S].
  set (r := scalar_decode url (zlen dst) txt) in *. rewrite Z.add_0_l in P. cbn [app] in P.
  eexists _, (3 * k), dst', r.1, (zlen r.2). split; [exact E|]. cbv zeta.
  rewrite E3, <- Lt, splice_0_prefix by lia. split; [by rewrite Lt in D |- *|].
  pose proof (ref_decode_prefix url bs r.1 r.2 Hb Hm ltac:(fold txt; lia) Dec) as Out.
  assert (zlen r.2 <= 3 * k) as Hw by (rewrite Out, zlen_ztake_max, Lb; lia).
  pose proof (zlen_nonneg r.2).
  split_and!; [|lia|lia|].
  - change (ztake 0 dst) with (@nil Z) in P. cbn [app] in P. rewrite P, Out at 1.
    unfold bs. by rewrite ztake_ztake by lia.
  - rewrite zlen_zdrop in S by lia. destruct S as [|[|S]]; [by left|by right|].
    by rewrite digits_take in S by (by apply digits_drop).
Qed.

Lemma encode_decode_roundtrip_witness :
  exists enc' n dst' r w,
    tinygodriver_base64_encode Aarch64 (replicate 50 0) 50 sample_bytes 30 true = Done (enc', n) /\
    let txt := ztake (n / 3 * 4) enc' in
    tinygodriver_base64_decode X86_64 (replicate 40 0) 40 txt (zlen txt) true
      = Done (dst', Result r w) /\
    ztake w dst' = ztake w sample_bytes /\ 0 <= w <= n /\
    (zlen txt - r < 16 \/ 40 - w < 16).
Proof.
  apply (encode_decode_roundtrip Aarch64 X86_64 true sample_bytes (replicate 50 0) (replicate 40 0)).
  - apply (bool_decide_unpack _). vm_compute. exact I.
  - vm_compute. reflexivity.
Defined.
