(* ===== verification/SimdHex.v ===== *)
(** * encoding/simdhex/vector_tinygo.c

    The hexadecimal kernels: both write or read whole vectors and return how much
    of the input they took, leaving the rest to the scalar code of the caller. *)

From S2P Require Import Prelude Vec.

(** ** The code *)

Definition load16 (p : list Z) (off : Z) : outcome vec := load p off 16.
Definition store16 (p : list Z) (off : Z) (v : vec) : outcome (list Z) := store p off v.
Definition splat (x : Z) : vec := vsplat x.

Definition all_valid (a : arch) (v : vec) : bool :=
  match a with
  | Aarch64 => negb (reduce_min v =? 0)
  | X86_64 => pmovmskb v =? 0xffff
  end.

Definition loop_fuel (slen i : Z) : nat := S (Z.to_nat (slen - i)).

(** The lane arithmetic that turns nibbles into characters. *)
Definition hex_chars (v : vec) : vec :=
  vadd v (vadd (splat 48) (vand (vgt v (splat 9)) (splat 39))).

Fixpoint hex_encode_loop (fuel : nat) (dst : list Z) (d dlen : Z) (src : list Z) (slen i : Z)
    : outcome (list Z * Z) :=
  match fuel with
  | O => NoFuel
  | S fuel =>
      if (size_sub slen i >=? 16) && (dlen >=? 32) then
        x ← load16 src i;
        let hi := hex_chars (vshr 4 x) in
        let lo := hex_chars (vand x (splat 15)) in
        dst ← store16 dst d (vshuffle hi lo [0;16;1;17;2;18;3;19;4;20;5;21;6;22;7;23]%nat);
        dst ← store16 dst (d + 16)
                (vshuffle hi lo [8;24;9;25;10;26;11;27;12;28;13;29;14;30;15;31]%nat);
        hex_encode_loop fuel dst (d + 32) (dlen - 32) src slen (i + 16)
      else Done (dst, i)
  end.

Definition tinygodriver_hex_encode (dst : list Z) (dlen : Z) (src : list Z) (slen : Z)
    : outcome (list Z * Z) :=
  hex_encode_loop (loop_fuel slen 0) dst 0 dlen src slen 0.

(** Lanes that hold a letter, valid lanes, and the nibble of each lane. *)
Definition hex_alpha (x : vec) : vec := vle (vsub (vor x (splat 32)) (splat 97)) (splat 5).
Definition hex_valid (x : vec) : vec := vor (vle (vsub x (splat 48)) (splat 9)) (hex_alpha x).
Definition hex_nibbles (x : vec) : vec :=
  vadd (vand x (splat 15)) (vand (hex_alpha x) (splat 9)).

Fixpoint hex_decode_loop (a : arch) (fuel : nat) (dst : list Z) (d dlen : Z) (src : list Z)
    (slen i : Z) : outcome (list Z * Z) :=
  match fuel with
  | O => NoFuel
  | S fuel =>
      if (size_sub slen i >=? 32) && (dlen >=? 16) then
        x ← load16 src i;
        y ← load16 src (i + 16);
        if negb (all_valid a (vand (hex_valid x) (hex_valid y))) then Done (dst, i)
        else
          let dx := hex_nibbles x in
          let dy := hex_nibbles y in
          let hi := vshuffle dx dy [0;2;4;6;8;10;12;14;16;18;20;22;24;26;28;30]%nat in
          let lo := vshuffle dx dy [1;3;5;7;9;11;13;15;17;19;21;23;25;27;29;31]%nat in
          dst ← store16 dst d (vor (vshl 4 hi) lo);
          hex_decode_loop a fuel dst (d + 16) (dlen - 16) src slen (i + 32)
      else Done (dst, i)
  end.

Definition tinygodriver_hex_decode (a : arch) (dst : list Z) (dlen : Z) (src : list Z) (slen : Z)
    : outcome (list Z * Z) :=
  hex_decode_loop a (loop_fuel slen 0) dst 0 dlen src slen 0.

(** ** The reference *)

Definition hex_digit (k : Z) : Z := if k <? 10 then k + 48 else k + 87.

Definition hex_val (c : Z) : option Z :=
  if (48 <=? c) && (c <=? 57) then Some (c - 48)
  else if (97 <=? c) && (c <=? 102) then Some (c - 87)
  else if (65 <=? c) && (c <=? 70) then Some (c - 55)
  else None.

Definition ref_hex (bs : list Z) : list Z := bs ≫= fun b => [hex_digit (b / 16); hex_digit (b mod 16)].

Fixpoint ref_unhex (cs : list Z) : option (list Z) :=
  match cs with
  | [] => Some []
  | c :: d :: cs =>
      h ← hex_val c; l ← hex_val d; r ← ref_unhex cs; Some (h * 16 + l :: r)
  | _ => None
  end.

(** ** Encoding *)

Lemma ref_hex_cons b bs : ref_hex (b :: bs) = hex_digit (b / 16) :: hex_digit (b mod 16) :: ref_hex bs.
Proof. reflexivity. Qed.

Lemma ref_hex_app bs cs : ref_hex (bs ++ cs) = ref_hex bs ++ ref_hex cs.
Proof. apply bind_app. Qed.

Lemma zlen_ref_hex bs : zlen (ref_hex bs) = 2 * zlen bs.
Proof. induction bs as [|b bs IH]; [done|]. rewrite ref_hex_cons, !zlen_cons, IH. lia. Qed.

Lemma hex_chars_spec x :
  length x = 16%nat -> Forall (fun k => 0 <= k < 16) x -> hex_chars x = map hex_digit x.
Proof.
  intros H Hx. assert (exists f, hex_chars x = map f x /\
    all_below 16 (fun k => f k =? hex_digit k) = true) as (f & -> & Hf).
  { eexists. split; [unfold hex_chars, splat; lane_maps H; reflexivity|vm_compute; reflexivity]. }
  apply map_ext_Forall. eapply Forall_impl; [exact Hx|]. intros k Hk.
  apply Z.eqb_eq. exact (all_below_spec _ _ Hf k Hk).
Qed.

Ltac destruct16 x H :=
  do 16 (destruct x as [|? x]; [discriminate H|]); destruct x; [|discriminate H]; clear H.

(** The two stores of one iteration write the sixteen pairs in order. *)
Lemma hex_encode_step x :
  is_bytes x -> length x = 16%nat ->
  let hi := hex_chars (vshr 4 x) in
  let lo := hex_chars (vand x (splat 15)) in
  vshuffle hi lo [0;16;1;17;2;18;3;19;4;20;5;21;6;22;7;23]%nat ++
  vshuffle hi lo [8;24;9;25;10;26;11;27;12;28;13;29;14;30;15;31]%nat = ref_hex x.
Proof.
  intros Hb Hl. cbv zeta.
  assert (vand x (splat 15) = map (fun c => Z.land c 15) x) as ->
    by (unfold splat; lane_maps Hl; reflexivity).
  unfold vshr. rewrite !hex_chars_spec.
  - rewrite !map_map. unfold ref_hex.
    assert (map (fun b => hex_digit (Z.shiftr b 4)) x = map (fun b => hex_digit (b / 16)) x) as ->.
    { apply map_ext. intros b. by rewrite Z.shiftr_div_pow2 by lia. }
    assert (map (fun b => hex_digit (Z.land b 15)) x = map (fun b => hex_digit (b mod 16)) x) as ->.
    { apply map_ext. intros b. change 15 with (Z.ones 4). by rewrite Z.land_ones by lia. }
    destruct16 x Hl. reflexivity.
  - by rewrite length_map.
  - apply Forall_map. eapply Forall_impl; [exact Hb|]. intros b _.
    pose proof (land_le_r b 15). lia.
  - by rewrite length_map.
  - apply Forall_map. eapply Forall_impl; [exact Hb|]. intros b [].
    rewrite Z.shiftr_div_pow2 by lia. change (2 ^ 4) with 16. Z.div_mod_to_equations; lia.
Qed.

(** The buffer after the encodings of [n] bytes of [src] from [i] went to [d]. *)
Definition hexed (src dst : list Z) (d i n : Z) : list Z :=
  splice dst d (ref_hex (ztake n (zdrop i src))).

Lemma zlen_hexed src dst d i n :
  0 <= i -> 0 <= n -> i + n <= zlen src -> 0 <= d -> d + 2 * n <= zlen dst ->
  zlen (hexed src dst d i n) = zlen dst.
Proof. intros. unfold hexed. apply zlen_splice; rewrite ?zlen_ref_hex; zlens. Qed.

Lemma hexed_step src dst d i n m :
  0 <= i -> 0 <= n -> 0 <= m -> i + n + m <= zlen src -> 0 <= d -> d + 2 * (n + m) <= zlen dst ->
  hexed src (hexed src dst d i n) (d + 2 * n) (i + n) m = hexed src dst d i (n + m).
Proof.
  intros. unfold hexed.
  assert (zlen (ref_hex (ztake n (zdrop i src))) = 2 * n) as L by (rewrite zlen_ref_hex; zlens).
  rewrite <- L at 1. rewrite splice_splice; [|lia|rewrite L, zlen_ref_hex; zlens].
  rewrite <- ref_hex_app. rewrite <- zdrop_zdrop by lia. by rewrite <- ztake_add by lia.
Qed.

Lemma hex_encode_loop_spec src slen fuel : forall dst d dlen i,
  is_bytes src -> 0 <= i <= slen -> slen <= zlen src -> slen < 2 ^ 64 ->
  0 <= d -> d + dlen <= zlen dst -> slen - i < Z.of_nat fuel ->
  exists k, hex_encode_loop fuel dst d dlen src slen i
      = Done (hexed src dst d i (16 * k), i + 16 * k) /\
    0 <= k /\ i + 16 * k <= slen /\ 32 * k <= Z.max 0 dlen /\
    (slen - (i + 16 * k) < 16 \/ dlen - 32 * k < 32).
Proof.
  induction fuel as [|fuel IH]; intros dst d dlen i Hb Hi Hl Hw Hd Hdl Hf; [lia|].
  cbn [hex_encode_loop]. rewrite size_sub_le by lia.
  destruct ((slen - i >=? 16) && (dlen >=? 32)) eqn:E.
  2:{ exists 0. unfold hexed. change (ztake (16 * 0) (zdrop i src)) with (@nil Z).
      change (ref_hex []) with (@nil Z). rewrite splice_nil, Z.mul_0_r, Z.add_0_r by lia.
      split; [done|]. apply andb_false_iff in E as [E|E]; bool_to_prop; lia. }
  bool_to_prop. unfold load16. rewrite load_Done by lia. rewrite bind_Done. cbv zeta.
  set (x := ztake 16 (zdrop i src)).
  assert (zlen x = 16) as Hx by (unfold x; zlens).
  pose proof (hex_encode_step x ltac:(unfold x; auto with zlist) ltac:(unfold zlen in Hx; lia)) as E1.
  cbv zeta in E1. unfold store16.
  set (p := vshuffle _ _ [0;16;1;17;2;18;3;19;4;20;5;21;6;22;7;23]%nat) in *.
  set (q := vshuffle _ _ [8;24;9;25;10;26;11;27;12;28;13;29;14;30;15;31]%nat) in *.
  assert (zlen p = 16) as Hp by reflexivity. assert (zlen q = 16) as Hq by reflexivity.
  rewrite outcome_bind_assoc, (store_splice dst) by lia. rewrite bind_Done.
  replace (d + 16) with (d + zlen p) by lia. rewrite store_splice by (rewrite ?zlen_splice; lia). rewrite bind_Done.
  rewrite splice_splice, E1 by lia. change (splice dst d (ref_hex x)) with (hexed src dst d i 16).
  destruct (IH (hexed src dst d i 16) (d + 32) (dlen - 32) (i + 16)) as (k & E2 & R);
    [done|rewrite ?zlen_hexed; lia..|].
  exists (1 + k). rewrite E2. replace (d + 32) with (d + 2 * 16) by lia.
  rewrite hexed_step by lia. split; [do 2 f_equal; [f_equal; lia|lia]|lia].
Qed.

Lemma hex_encode_spec src dst :
  is_bytes src -> zlen src < 2 ^ 64 ->
  exists k, tinygodriver_hex_encode dst (zlen dst) src (zlen src)
      = Done (splice dst 0 (ref_hex (ztake (16 * k) src)), 16 * k) /\
    0 <= k /\ 16 * k <= zlen src /\ 32 * k <= zlen dst /\
    (zlen src - 16 * k < 16 \/ zlen dst - 32 * k < 32).
Proof.
  intros Hb Hw. pose proof (zlen_nonneg src). pose proof (zlen_nonneg dst).
  destruct (hex_encode_loop_spec src (zlen src) (loop_fuel (zlen src) 0) dst 0 (zlen dst) 0)
    as (k & E & R); [done|unfold loop_fuel; lia..|].
  exists k. split; [exact E|lia].
Qed.

(** The hexadecimal encoder consumes whole vectors, writes exactly their
    lower-case hexadecimal digits and nothing after them, and stops only when fewer
    than sixteen input bytes or thirty-two output bytes are left. *)
Theorem hex_encode_correct (src dst : list Z) (Hsrc : is_bytes src) (Hlen : zlen src < 2 ^ 64) :
  exists dst' n,
    tinygodriver_hex_encode dst (zlen dst) src (zlen src) = Done (dst', n) /\
    0 <= n <= zlen src /\ n mod 16 = 0 /\
    ztake (2 * n) dst' = ref_hex (ztake n src) /\
    zdrop (2 * n) dst' = zdrop (2 * n) dst /\
    (zlen src - n < 16 \/ zlen dst - 2 * n < 32).
Proof.
  destruct (hex_encode_spec src dst Hsrc Hlen) as (k & E & Hk & Hs & Hd & R).
  assert (zlen (ref_hex (ztake (16 * k) src)) = 2 * (16 * k)) as L by (rewrite zlen_ref_hex; zlens).
  eexists _, (16 * k). split; [exact E|]. rewrite <- L. split_and!; try lia.
  - rewrite Z.mul_comm. apply Z_mod_mult.
  - apply splice_0_prefix. lia.
  - apply splice_0_suffix. lia.
Qed.

Lemma hex_encode_correct_witness :
  exists dst' n,
    tinygodriver_hex_encode (replicate 70 0) 70 (seqZ 140 40) 40 = Done (dst', n) /\
    0 <= n <= 40 /\ n mod 16 = 0 /\
    ztake (2 * n) dst' = ref_hex (ztake n (seqZ 140 40)) /\
    zdrop (2 * n) dst' = zdrop (2 * n) (replicate 70 0) /\
    (40 - n < 16 \/ 70 - 2 * n < 32).
Proof.
  apply (hex_encode_correct (seqZ 140 40) (replicate 70 0)).
  - apply (bool_decide_unpack _). vm_compute. exact I.
  - vm_compute. reflexivity.
Defined.

(** ** Decoding *)

Definition is_hex (c : Z) : bool := match hex_val c with Some _ => true | None => false end.
Definition hexv (c : Z) : Z := default 0 (hex_val c).

Fixpoint pair_up (ks : list Z) : list Z :=
  match ks with
  | h :: l :: ks => h * 16 + l :: pair_up ks
  | _ => []
  end.

Lemma list_ind2 {A} (P : list A -> Prop) :
  P [] -> (forall a, P [a]) -> (forall a b l, P l -> P (a :: b :: l)) -> forall l, P l.
Proof.
  intros H0 H1 H2. fix IH 1. intros [|a [|b l]]; [exact H0|apply H1|apply H2, IH].
Qed.

Lemma ref_unhex_digits cs n :
  zlen cs = 2 * n -> forallb is_hex cs = true -> ref_unhex cs = Some (pair_up (map hexv cs)).
Proof.
  revert n. induction cs as [|c|c d cs IH] using list_ind2; intros n; [done|zlens|].
  rewrite !zlen_cons. intros Hn Hd. cbn [forallb] in Hd. unfold is_hex in Hd at 1 2.
  cbn [ref_unhex map pair_up]. unfold hexv at 1 2.
  destruct (hex_val c), (hex_val d); try discriminate Hd.
  cbn [mbind option_bind default andb] in *. rewrite (IH (n - 1)) by (lia || done). done.
Qed.

Lemma ref_unhex_app cs ds r s :
  ref_unhex cs = Some r -> ref_unhex ds = Some s -> ref_unhex (cs ++ ds) = Some (r ++ s).
Proof.
  revert r. induction cs as [|c|c d cs IH] using list_ind2; intros r; cbn [ref_unhex app];
    [intros [= <-]; done|done|].
  destruct (hex_val c) as [h|]; [|done]. destruct (hex_val d) as [l|]; [|done].
  cbn [mbind option_bind]. destruct (ref_unhex cs) as [r'|]; [|done].
  cbn [mbind option_bind]. intros [= <-] Hs. by rewrite (IH r').
Qed.

Lemma ref_unhex_len cs r : ref_unhex cs = Some r -> zlen cs = 2 * zlen r.
Proof.
  revert r. induction cs as [|c|c d cs IH] using list_ind2; intros r; cbn [ref_unhex];
    [intros [= <-]; done|done|].
  destruct (hex_val c) as [h|]; [|done]. destruct (hex_val d) as [l|]; [|done].
  cbn [mbind option_bind]. destruct (ref_unhex cs) as [r'|]; [|done].
  cbn [mbind option_bind]. intros [= <-]. rewrite !zlen_cons, (IH r') by done. lia.
Qed.

Lemma hex_valid_spec x :
  is_bytes x -> length x = 16%nat -> hex_valid x = map (fun c => mask (is_hex c)) x.
Proof.
  intros Hb H. assert (exists f, hex_valid x = map f x /\
    all_bytes (fun c => f c =? mask (is_hex c)) = true) as (f & -> & Hf).
  { eexists. split; [unfold hex_valid, hex_alpha, splat; lane_maps H; reflexivity|].
    vm_compute; reflexivity. }
  apply map_ext_Forall. eapply Forall_impl; [exact Hb|]. intros k Hk.
  apply Z.eqb_eq. exact (all_bytes_spec _ Hf k Hk).
Qed.

Lemma hex_nibbles_spec x :
  is_bytes x -> length x = 16%nat -> forallb is_hex x = true -> hex_nibbles x = map hexv x.
Proof.
  intros Hb H Hd. assert (exists f, hex_nibbles x = map f x /\
    all_bytes (fun c => implb (is_hex c) (f c =? hexv c)) = true) as (f & -> & Hf).
  { eexists. split; [unfold hex_nibbles, hex_alpha, splat; lane_maps H; reflexivity|].
    vm_compute; reflexivity. }
  apply map_ext_Forall, Forall_forall. intros c Hc.
  assert (is_hex c = true) as Hh by (rewrite forallb_forall in Hd; by apply Hd, list_elem_of_In).
  unfold is_bytes in Hb. rewrite Forall_forall in Hb.
  pose proof (all_bytes_spec _ Hf c (Hb c Hc)) as E. cbv beta in E. rewrite Hh in E.
  by apply Z.eqb_eq.
Qed.

Lemma all_valid_spec a x y :
  is_bytes x -> is_bytes y -> length x = 16%nat -> length y = 16%nat ->
  all_valid a (vand (hex_valid x) (hex_valid y)) = forallb is_hex x && forallb is_hex y.
Proof.
  intros Hx Hy Lx Ly. rewrite !hex_valid_spec by done.
  assert (forall P, forallb P (vand (map (fun c => mask (is_hex c)) x)
    (map (fun c => mask (is_hex c)) y)) = forallb (fun p => P (mask (is_hex p.1 && is_hex p.2)))
      (zip x y)) as E.
  { intros P. unfold vand, vmap2. clear. revert y.
    induction x as [|c x IH]; intros [|d y]; try done. cbn [map zip_with forallb zip fst snd].
    rewrite IH. by destruct (is_hex c), (is_hex d). }
  assert (forallb (fun p => is_hex p.1 && is_hex p.2) (zip x y)
    = forallb is_hex x && forallb is_hex y) as F.
  { clear - Lx Ly. rewrite <- Ly in Lx. clear Ly. revert y Lx.
    induction x as [|c x IH]; intros [|d y]; cbn [length forallb zip zip_with fst snd]; intros Hl;
      try done. rewrite IH by lia.
    by destruct (is_hex c), (is_hex d), (forallb is_hex x), (forallb is_hex y). }
  rewrite <- F. destruct a; unfold all_valid.
  - rewrite reduce_min_nonzero, E.
    + apply forallb_ext. intros p. by destruct (is_hex p.1 && is_hex p.2).
    + unfold vand, vmap2. clear. revert y.
      induction x as [|c x IH]; intros [|d y]; constructor; [|apply IH].
      by destruct (is_hex c), (is_hex d).
  - change 0xffff with (2 ^ 16 - 1). change 16 with (Z.of_nat 16).
    replace 16%nat with (length (vand (map (fun c => mask (is_hex c)) x)
      (map (fun c => mask (is_hex c)) y)))
      by (unfold vand; rewrite vmap2_length; rewrite !length_map; lia).
    rewrite pmovmskb_full, E. apply forallb_ext. intros p. by destruct (is_hex p.1 && is_hex p.2).
Qed.

Lemma hexv_bound c : 0 <= hexv c < 16.
Proof.
  unfold hexv, hex_val.
  destruct ((48 <=? c) && (c <=? 57)) eqn:E1, ((97 <=? c) && (c <=? 102)) eqn:E2,
    ((65 <=? c) && (c <=? 70)) eqn:E3; bool_to_prop; simpl; lia.
Qed.

Lemma nibbles_lor h l : 0 <= h < 16 -> 0 <= l < 16 -> Z.lor (u8 (Z.shiftl h 4)) l = h * 16 + l.
Proof.
  intros Hh Hl. rewrite u8_id; [by rewrite lor_shiftl_add by lia|].
  unfold is_byte. rewrite Z.shiftl_mul_pow2 by lia. lia.
Qed.

(** One iteration packs the thirty-two digits into sixteen bytes, in order. *)
Lemma hex_decode_step x y :
  is_bytes x -> is_bytes y -> length x = 16%nat -> length y = 16%nat ->
  forallb is_hex x = true -> forallb is_hex y = true ->
  let dx := hex_nibbles x in
  let dy := hex_nibbles y in
  vor (vshl 4 (vshuffle dx dy [0;2;4;6;8;10;12;14;16;18;20;22;24;26;28;30]%nat))
    (vshuffle dx dy [1;3;5;7;9;11;13;15;17;19;21;23;25;27;29;31]%nat)
  = pair_up (map hexv (x ++ y)).
Proof.
  intros Bx By Lx Ly Hx Hy. cbv zeta. rewrite !hex_nibbles_spec by done.
  unfold vor, vshl, vshuffle, vmap2. rewrite <- map_app.
  clear Bx By Hx Hy. destruct16 x Lx. destruct16 y Ly.
  cbn [app map lookup_total list_lookup_total zip_with pair_up].
  list_eq; [apply nibbles_lor; apply hexv_bound..|reflexivity].
Qed.

(** What the decoder has done once it stopped at [i + 32 * k]: the bytes of [32 * k]
    digits are at [d], and there is a reason not to go on. *)
Lemma hex_decode_loop_spec a src slen fuel : forall dst d dlen i,
  is_bytes src -> 0 <= i <= slen -> slen <= zlen src -> slen < 2 ^ 64 ->
  0 <= d -> d + dlen <= zlen dst -> slen - i < Z.of_nat fuel ->
  exists k out, hex_decode_loop a fuel dst d dlen src slen i
      = Done (splice dst d out, i + 32 * k) /\
    ref_unhex (ztake (32 * k) (zdrop i src)) = Some out /\
    0 <= k /\ i + 32 * k <= slen /\ 16 * k <= Z.max 0 dlen /\
    (slen - (i + 32 * k) < 32 \/ dlen - 16 * k < 16 \/
     forallb is_hex (ztake 32 (zdrop (i + 32 * k) src)) = false).
Proof.
  induction fuel as [|fuel IH]; intros dst d dlen i Hb Hi Hl Hw Hd Hdl Hf; [lia|].
  cbn [hex_decode_loop]. rewrite size_sub_le by lia.
  destruct ((slen - i >=? 32) && (dlen >=? 16)) eqn:E.
  2:{ exists 0, []. rewrite splice_nil, Z.mul_0_r, Z.add_0_r by lia.
      do 2 (split; [done|]). apply andb_false_iff in E as [E|E]; bool_to_prop; lia. }
  bool_to_prop. unfold load16. rewrite !load_Done by lia. rewrite !bind_Done. cbv zeta.
  set (x := ztake 16 (zdrop i src)). set (y := ztake 16 (zdrop (i + 16) src)).
  assert (zlen x = 16) as Lx by (unfold x; zlens). assert (zlen y = 16) as Ly by (unfold y; zlens).
  assert (ztake 32 (zdrop i src) = x ++ y) as Exy.
  { unfold x, y. rewrite <- zdrop_zdrop by lia. change 32 with (16 + 16). by rewrite ztake_add. }
  assert (is_bytes x /\ is_bytes y) as [Bx By] by (unfold x, y; auto with zlist).
  assert (length x = 16%nat /\ length y = 16%nat) as [Nx Ny] by (unfold zlen in *; lia).
  rewrite all_valid_spec, <- forallb_app, <- Exy by done.
  destruct (forallb is_hex (ztake 32 (zdrop i src))) eqn:V; cbn [negb].
  2:{ exists 0, []. rewrite splice_nil, Z.mul_0_r, Z.add_0_r by lia.
      do 2 (split; [done|]). split_and!; try lia. by right; right. }
  pose proof V as Vxy. rewrite Exy, forallb_app in Vxy. apply andb_prop in Vxy as [Vx Vy].
  unfold store16. pose proof (hex_decode_step x y Bx By Nx Ny Vx Vy) as Est. cbv zeta in Est.
  rewrite <- Exy in Est. rewrite Est. clear Est.
  pose proof (ref_unhex_digits (ztake 32 (zdrop i src)) 16 ltac:(zlens) V) as U.
  set (o := pair_up _) in *. pose proof (ref_unhex_len _ _ U) as Lo.
  rewrite zlen_ztake in Lo by zlens.
  rewrite store_splice, bind_Done by lia.
  destruct (IH (splice dst d o) (d + 16) (dlen - 16) (i + 32)) as (k & out & E2 & U2 & R);
    [done|rewrite ?zlen_splice; lia..|].
  exists (1 + k), (o ++ out). replace (i + 32 * (1 + k)) with (i + 32 + 32 * k) by lia.
  pose proof (ref_unhex_len _ _ U2) as Lo2. rewrite zlen_ztake in Lo2 by zlens.
  replace (d + 16) with (d + zlen o) in * by lia. rewrite E2, splice_splice by lia.
  split; [done|]. destruct R as (? & ? & ? & R). split; [|split_and!; [lia..|]].
  2:{ destruct R as [R|[R|R]]; [left|right; left|right; right]; lia || done. }
  replace (32 * (1 + k)) with (32 + 32 * k) by lia. rewrite ztake_add by lia.
  apply ref_unhex_app; [done|]. by rewrite zdrop_zdrop by lia.
Qed.

Lemma hex_decode_spec a src dst :
  is_bytes src -> zlen src < 2 ^ 64 ->
  exists k out, tinygodriver_hex_decode a dst (zlen dst) src (zlen src)
      = Done (splice dst 0 out, 32 * k) /\
    ref_unhex (ztake (32 * k) src) = Some out /\ zlen out = 16 * k /\
    0 <= k /\ 32 * k <= zlen src /\ 16 * k <= zlen dst /\
    (zlen src - 32 * k < 32 \/ zlen dst - 16 * k < 16 \/
     forallb is_hex (ztake 32 (zdrop (32 * k) src)) = false).
Proof.
  intros Hb Hw. pose proof (zlen_nonneg src). pose proof (zlen_nonneg dst).
  destruct (hex_decode_loop_spec a src (zlen src) (loop_fuel (zlen src) 0) dst 0 (zlen dst) 0)
    as (k & out & E & U & R); [done|unfold loop_fuel; lia..|].
  pose proof (ref_unhex_len _ _ U) as L. rewrite zdrop_0 in L. rewrite zlen_ztake in L by lia.
  exists k, out. split; [exact E|]. split; [exact U|]. rewrite Z.add_0_l in R.
  destruct R as (? & ? & ? & R). split_and!; [lia..|done].
Qed.

(** The hexadecimal decoder consumes whole blocks of thirty-two characters,
    each of which it has found to be hexadecimal digits of either case, writes the
    bytes they stand for and nothing after them, and stops only when a block of input,
    or room for its bytes, is missing, or when the next block has a character that
    is not a digit. *)
Theorem hex_decode_correct (a : arch) (src dst : list Z)
  (Hsrc : is_bytes src) (Hlen : zlen src < 2 ^ 64) :
  exists dst' n,
    tinygodriver_hex_decode a dst (zlen dst) src (zlen src) = Done (dst', n) /\
    0 <= n <= zlen src /\ n mod 32 = 0 /\
    ref_unhex (ztake n src) = Some (ztake (n / 2) dst') /\
    zdrop (n / 2) dst' = zdrop (n / 2) dst /\
    (zlen src - n < 32 \/ zlen dst - n / 2 < 16 \/
     forallb is_hex (ztake 32 (zdrop n src)) = false).
Proof.
  destruct (hex_decode_spec a src dst Hsrc Hlen) as (k & out & E & U & L & Hk & Hs & Hd & R).
  assert (32 * k / 2 = zlen out) as H2 by (Z.div_mod_to_equations; lia).
  eexists _, (32 * k). split; [exact E|]. rewrite H2. split_and!; try lia.
  - rewrite Z.mul_comm. apply Z_mod_mult.
  - rewrite splice_0_prefix by lia. done.
  - apply splice_0_suffix. lia.
  - rewrite L. exact R.
Qed.

Definition hex_text : list Z :=
  [52;101;54;102;116] ++ replicate 31 48.
Lemma hex_decode_correct_witness :
  exists dst' n,
    tinygodriver_hex_decode X86_64 (replicate 40 7) 40 (replicate 35 65 ++ hex_text) 71 = Done (dst', n) /\
    0 <= n <= 71 /\ n mod 32 = 0 /\
    ref_unhex (ztake n (replicate 35 65 ++ hex_text)) = Some (ztake (n / 2) dst') /\
    zdrop (n / 2) dst' = zdrop (n / 2) (replicate 40 7) /\
    (71 - n < 32 \/ 40 - n / 2 < 16 \/
     forallb is_hex (ztake 32 (zdrop n (replicate 35 65 ++ hex_text))) = false).
Proof.
  apply (hex_decode_correct X86_64 (replicate 35 65 ++ hex_text) (replicate 40 7)).
  - apply (bool_decide_unpack _). vm_compute. exact I.
  - vm_compute. reflexivity.
Defined.

(** ** Round trip *)

Lemma hex_val_digit k : 0 <= k < 16 -> hex_val (hex_digit k) = Some k.
Proof.
  intros Hk.
  assert (all_below 16 (fun k => bool_decide (hex_val (hex_digit k) = Some k)) = true) as H
    by (vm_compute; reflexivity).
  exact (bool_decide_eq_true_1 _ (all_below_spec _ _ H k Hk)).
Qed.

Lemma ref_unhex_hex bs : is_bytes bs -> ref_unhex (ref_hex bs) = Some bs.
Proof.
  induction 1 as [|b bs [Hb1 Hb2] Hbs IH]; [done|]. rewrite ref_hex_cons. cbn [ref_unhex].
  rewrite !hex_val_digit by (Z.div_mod_to_equations; lia). cbn [mbind option_bind].
  rewrite IH. cbn [mbind option_bind]. do 2 f_equal. Z.div_mod_to_equations; lia.
Qed.

Lemma ref_hex_bytes bs : is_bytes bs -> is_bytes (ref_hex bs).
Proof.
  induction 1 as [|b bs [Hb1 Hb2] Hbs IH]; [constructor|]. rewrite ref_hex_cons.
  repeat constructor; try exact IH; unfold hex_digit; split_if; Z.div_mod_to_equations; lia.
Qed.

Lemma ref_hex_is_hex bs : is_bytes bs -> forallb is_hex (ref_hex bs) = true.
Proof.
  induction 1 as [|b bs [Hb1 Hb2] Hbs IH]; [done|]. rewrite ref_hex_cons. cbn [forallb].
  unfold is_hex at 1 2. rewrite !hex_val_digit by (Z.div_mod_to_equations; lia). done.
Qed.

Lemma ztake_ref_hex n bs : 0 <= n <= zlen bs -> ztake (2 * n) (ref_hex bs) = ref_hex (ztake n bs).
Proof.
  intros Hn. rewrite <- (ztake_zdrop n bs) at 1.
  assert (zlen (ref_hex (ztake n bs)) = 2 * n) as L by (rewrite zlen_ref_hex; zlens).
  rewrite ref_hex_app, ztake_app_l by lia. apply ztake_all. lia.
Qed.

Lemma forallb_ztake_zdrop {A} (P : A -> bool) i n l :
  forallb P l = true -> forallb P (ztake n (zdrop i l)) = true.
Proof.
  intros H. rewrite <- (ztake_zdrop i l), forallb_app in H. apply andb_prop in H as [_ H].
  rewrite <- (ztake_zdrop n (zdrop i l)), forallb_app in H. by apply andb_prop in H as [H _].
Qed.

(** What the encoder wrote is never refused by the decoder: decoding it, on
    either instruction set and into a buffer that is large enough, reads all of it
    and gives back the encoded bytes. *)
Theorem hex_roundtrip (a : arch) (src enc dst : list Z)
  (Hsrc : is_bytes src) (Hlen : zlen src < 2 ^ 62) (Hroom : zlen src <= zlen dst) :
  exists enc' n dst' r,
    tinygodriver_hex_encode enc (zlen enc) src (zlen src) = Done (enc', n) /\
    tinygodriver_hex_decode a dst (zlen dst) (ztake (2 * n) enc') (2 * n) = Done (dst', r) /\
    r = 2 * n /\ ztake n dst' = ztake n src /\ zdrop n dst' = zdrop n dst.
Proof.
  destruct (hex_encode_spec src enc Hsrc) as (k & E & Hk & Hs & Hd & _); [lia|].
  set (bs := ztake (16 * k) src) in *. assert (zlen bs = 16 * k) as Lb by (apply zlen_ztake; lia).
  assert (is_bytes bs) as Hb by (unfold bs; auto with zlist).
  assert (zlen (ref_hex bs) = 2 * (16 * k)) as L by (rewrite zlen_ref_hex; lia).
  destruct (hex_decode_spec a (ref_hex bs) dst) as (j & out & D & U & Lo & Hj & Hr & Hw & R);
    [by apply ref_hex_bytes|lia|].
  rewrite L in *. assert (j = k) as ->.
  { destruct R as [R|[R|R]]; [lia|lia|].
    rewrite forallb_ztake_zdrop in R by (by apply ref_hex_is_hex). discriminate R. }
  rewrite ztake_all, ref_unhex_hex in U by (lia || done). injection U as <-.
  eexists _, (16 * k), _, (32 * k). split; [exact E|].
  rewrite <- L at 1. rewrite splice_0_prefix by lia.
  split; [exact D|]. split; [lia|]. rewrite <- Lo at 1 3 4.
  split; [rewrite splice_0_prefix by lia; done|apply splice_0_suffix; lia].
Qed.

Lemma hex_roundtrip_witness :
  exists enc' n dst' r,
    tinygodriver_hex_encode (replicate 100 0) 100 (seqZ 100 50) 50 = Done (enc', n) /\
    tinygodriver_hex_decode Aarch64 (replicate 60 0) 60 (ztake (2 * n) enc') (2 * n) = Done (dst', r) /\
    r = 2 * n /\ ztake n dst' = ztake n (seqZ 100 50) /\ zdrop n dst' = zdrop n (replicate 60 0).
Proof.
  apply (hex_roundtrip Aarch64 (seqZ 100 50) (replicate 100 0) (replicate 60 0)).
  - apply (bool_decide_unpack _). vm_compute. exact I.
  - vm_compute. reflexivity.
  - vm_compute. discriminate.
Defined.
