(* ===== verification/ByteAlg.v ===== *)
(** * internal/bytealg/vector_tinygo.c

    The byte kernels of the HTTP and WebSocket code: the payload mask of a WebSocket
    frame, the search for a byte, and the check of a header value.  Each has a vector
    loop and, but for the mask, a scalar tail. *)

From S2P Require Import Prelude Vec.

(** ** The code *)

Definition load16 (p : list Z) (off : Z) : outcome vec := load p off 16.
Definition store16 (p : list Z) (off : Z) (v : vec) : outcome (list Z) := store p off v.
Definition splat (c : Z) : vec := vsplat c.

Definition any (a : arch) (v : vec) : bool :=
  match a with
  | Aarch64 => negb (reduce_max v =? 0)
  | X86_64 => negb (pmovmskb v =? 0)
  end.

(** Every loop advances [i] towards [len] by one at least. *)
Definition loop_fuel (len i : Z) : nat := S (Z.to_nat (len - i)).

(** [store16(p+i, load16(p+i)^k)]. *)
Definition mask16 (p : list Z) (i : Z) (k : vec) : outcome (list Z) :=
  v ← load16 p i; store16 p i (vxor v k).

Fixpoint mask_loop64 (fuel : nat) (p : list Z) (len i : Z) (k : vec) : outcome (list Z * Z) :=
  match fuel with
  | O => NoFuel
  | S fuel =>
      if size_sub len i >=? 64 then
        p ← mask16 p i k;
        p ← mask16 p (i + 16) k;
        p ← mask16 p (i + 32) k;
        p ← mask16 p (i + 48) k;
        mask_loop64 fuel p len (i + 64) k
      else Done (p, i)
  end.

Fixpoint mask_loop16 (fuel : nat) (p : list Z) (len i : Z) (k : vec) : outcome (list Z * Z) :=
  match fuel with
  | O => NoFuel
  | S fuel =>
      if size_sub len i >=? 16 then
        p ← mask16 p i k;
        mask_loop16 fuel p len (i + 16) k
      else Done (p, i)
  end.

Definition tinygodriver_mask (p : list Z) (len key : Z) : outcome (list Z * Z) :=
  let k := of_u32x4 [key; key; key; key] in
  '(p, i) ← mask_loop64 (loop_fuel len 0) p len 0 k;
  mask_loop16 (loop_fuel len i) p len i k.

(** [for (size_t j = 0; j < 16; j++) if (p[i+j] == c) return i+j;] *)
Fixpoint index_lane (fuel : nat) (p : list Z) (i j c : Z) : outcome (option Z) :=
  match fuel with
  | O => NoFuel
  | S fuel =>
      if j <? 16 then
        x ← load8 p (i + j);
        if x =? c then Done (Some (i + j)) else index_lane fuel p i (j + 1) c
      else Done None
  end.

(** The vector loop: the index found, or the position where the tail starts. *)
Fixpoint index_loop (a : arch) (fuel : nat) (p : list Z) (len i c : Z) : outcome (Z + Z) :=
  match fuel with
  | O => NoFuel
  | S fuel =>
      if size_sub len i >=? 16 then
        v ← load16 p i;
        if any a (veq v (splat c)) then
          r ← index_lane 17 p i 0 c;
          match r with
          | Some k => Done (inl k)
          | None => index_loop a fuel p len (i + 16) c
          end
        else index_loop a fuel p len (i + 16) c
      else Done (inr i)
  end.

Fixpoint index_tail (fuel : nat) (p : list Z) (len i c : Z) : outcome Z :=
  match fuel with
  | O => NoFuel
  | S fuel =>
      if i <? len then
        x ← load8 p i;
        if x =? c then Done i else index_tail fuel p len (i + 1) c
      else Done (-1)
  end.

Definition tinygodriver_index_byte (a : arch) (p : list Z) (len c : Z) : outcome Z :=
  r ← index_loop a (loop_fuel len 0) p len 0 c;
  match r with
  | inl k => Done k
  | inr i => index_tail (loop_fuel len i) p len i c
  end.

(** Lanes that may not appear in a header value. *)
Definition header_bad (v : vec) : vec :=
  vor (vand (vlt v (splat 32)) (vne v (splat 9))) (veq v (splat 127)).

(** [None] when the loop returned 0, else where the tail starts. *)
Fixpoint header_loop (a : arch) (fuel : nat) (p : list Z) (len i : Z) : outcome (option Z) :=
  match fuel with
  | O => NoFuel
  | S fuel =>
      if size_sub len i >=? 16 then
        v ← load16 p i;
        if any a (header_bad v) then Done None else header_loop a fuel p len (i + 16)
      else Done (Some i)
  end.

Fixpoint header_tail (fuel : nat) (p : list Z) (len i : Z) : outcome Z :=
  match fuel with
  | O => NoFuel
  | S fuel =>
      if i <? len then
        x ← load8 p i;
        if ((x <? 32) && negb (x =? 9)) || (x =? 127) then Done 0
        else header_tail fuel p len (i + 1)
      else Done 1
  end.

Definition tinygodriver_header_value (a : arch) (p : list Z) (len : Z) : outcome Z :=
  r ← header_loop a (loop_fuel len 0) p len 0;
  match r with
  | None => Done 0
  | Some i => header_tail (loop_fuel len i) p len i
  end.

(** ** References *)

(** RFC 6455 section 5.3: octet [j] of the payload is combined with octet
    [j mod 4] of the key, whose octets are those of [key] in little-endian order. *)
Fixpoint xor_cycle (ks : list Z) (bs : list Z) : list Z :=
  match bs, ks with
  | b :: bs, k :: ks => Z.lxor b k :: xor_cycle (ks ++ [k]) bs
  | _, _ => []
  end.
Definition masked (key : Z) (bs : list Z) : list Z := xor_cycle (of_word key) bs.

Fixpoint first_index (c : Z) (bs : list Z) : option Z :=
  match bs with
  | [] => None
  | b :: bs => if b =? c then Some 0 else Z.succ <$> first_index c bs
  end.

(** RFC 9110: a field value has visible octets, spaces and tabs, no controls. *)
Definition header_ok (b : Z) : bool :=
  negb (((b <? 32) && negb (b =? 9)) || (b =? 127)).

(** ** The reductions *)

Lemma any_spec a (P : Z -> bool) v :
  any a (map (fun c => mask (P c)) v) = existsb P v.
Proof.
  destruct a; cbn [any].
  - rewrite reduce_max_nonzero.
    + induction v as [|c v IH]; [done|]. cbn [map existsb]. rewrite IH. by destruct (P c).
    + apply Forall_map, Forall_true. intros c. by destruct (P c).
  - rewrite pmovmskb_zero. induction v as [|c v IH]; [done|].
    cbn [map forallb existsb]. rewrite negb_andb, IH. by destruct (P c).
Qed.

(** ** The mask *)

Lemma zlen_xor_cycle ks bs : ks <> [] -> zlen (xor_cycle ks bs) = zlen bs.
Proof.
  revert ks. induction bs as [|b bs IH]; intros [|k ks] H; try done. cbn [xor_cycle].
  rewrite !zlen_cons, IH; [done|]. by destruct ks.
Qed.

Lemma masked_cycle key b0 b1 b2 b3 bs :
  masked key (b0 :: b1 :: b2 :: b3 :: bs) = masked key [b0; b1; b2; b3] ++ masked key bs.
Proof. reflexivity. Qed.

Lemma masked_app key bs cs n :
  zlen bs = 4 * n -> masked key (bs ++ cs) = masked key bs ++ masked key cs.
Proof.
  revert n. induction bs as [bs IH] using (well_founded_induction
    (well_founded_ltof _ (@length Z))). intros n L.
  destruct bs as [|b0 [|b1 [|b2 [|b3 bs]]]]; [done|zlens..|].
  cbn [app]. rewrite masked_cycle, (masked_cycle key b0 b1 b2 b3 bs).
  rewrite (IH bs ltac:(unfold ltof; simpl; lia) (n - 1)) by (zlens).
  by rewrite app_assoc.
Qed.

Lemma vxor_masked key v :
  length v = 16%nat -> vxor v (of_u32x4 [key; key; key; key]) = masked key v.
Proof. intros H. do 16 (destruct v as [|? v]; [discriminate H|]). destruct v; [done|discriminate H]. Qed.

Lemma xor_cycle_involutive ks bs : ks <> [] -> xor_cycle ks (xor_cycle ks bs) = bs.
Proof.
  revert ks. induction bs as [|b bs IH]; intros [|k ks] H; try done. cbn [xor_cycle].
  rewrite IH by (by destruct ks). by rewrite Z.lxor_assoc, Z.lxor_nilpotent, Z.lxor_0_r.
Qed.

Lemma zlen_masked key bs : zlen (masked key bs) = zlen bs.
Proof. by apply zlen_xor_cycle. Qed.

(** The buffer with [n] bytes from [i] masked. *)
Definition mask_range (key : Z) (p : list Z) (i n : Z) : list Z :=
  splice p i (masked key (ztake n (zdrop i p))).

Lemma zlen_mask_range key p i n :
  0 <= i -> 0 <= n -> i + n <= zlen p -> zlen (mask_range key p i n) = zlen p.
Proof. intros. unfold mask_range. apply zlen_splice; rewrite ?zlen_masked; zlens. Qed.

Lemma mask_range_after key p i n :
  0 <= i -> 0 <= n -> i + n <= zlen p -> zdrop (i + n) (mask_range key p i n) = zdrop (i + n) p.
Proof.
  intros. unfold mask_range, splice. rewrite app_assoc, zlen_masked.
  assert (zlen (ztake n (zdrop i p)) = n) as Ln by zlens. rewrite Ln.
  rewrite zdrop_app_r; rewrite zlen_app, zlen_masked, Ln; [|zlens].
  replace (i + n - (zlen (ztake i p) + n)) with 0 by zlens. apply zdrop_0.
Qed.

Lemma mask_range_step key p i n m j :
  0 <= i -> n = 4 * j -> 0 <= j -> 0 <= m -> i + n + m <= zlen p ->
  mask_range key (mask_range key p i n) (i + n) m = mask_range key p i (n + m).
Proof.
  intros Hi -> Hj Hm Hl. unfold mask_range at 1. rewrite mask_range_after by lia.
  unfold mask_range. set (o1 := ztake (4 * j) (zdrop i p)).
  assert (zlen o1 = 4 * j) as L by (unfold o1; zlens).
  replace (i + 4 * j) with (i + zlen (masked key o1)) at 1 by (rewrite zlen_masked; lia).
  rewrite splice_splice; [|lia|rewrite !zlen_masked, L; zlens].
  rewrite <- (masked_app _ _ _ j) by done. unfold o1.
  rewrite <- zdrop_zdrop by lia. by rewrite <- ztake_add by lia.
Qed.

Lemma mask16_spec key p i :
  0 <= i -> i + 16 <= zlen p ->
  mask16 p i (of_u32x4 [key; key; key; key]) = Done (mask_range key p i 16).
Proof.
  intros Hi Hl. unfold mask16, load16, store16. rewrite load_Done, bind_Done by lia.
  assert (zlen (ztake 16 (zdrop i p)) = 16) as L by zlens.
  rewrite vxor_masked by (unfold zlen in L; lia).
  apply store_splice; [lia|]. rewrite zlen_masked. lia.
Qed.

Lemma mask_loop16_spec key fuel : forall p len i,
  0 <= i <= len -> len <= zlen p -> len < 2 ^ 64 -> len - i < Z.of_nat fuel ->
  exists n, mask_loop16 fuel p len i (of_u32x4 [key; key; key; key])
      = Done (mask_range key p i (16 * n), i + 16 * n) /\ 0 <= n /\
    i + 16 * n <= len /\ len - (i + 16 * n) < 16.
Proof.
  induction fuel as [|fuel IH]; intros p len i Hi Hl Hw Hf; [lia|].
  cbn [mask_loop16]. rewrite size_sub_le by lia. split_if.
  - rewrite mask16_spec, bind_Done by lia.
    destruct (IH (mask_range key p i 16) len (i + 16)) as (n & E & R);
      [rewrite ?zlen_mask_range; lia..|].
    exists (1 + n). rewrite E, (mask_range_step _ _ _ _ _ 4) by lia.
    split; [do 2 f_equal; [f_equal; lia|lia]|lia].
  - exists 0. unfold mask_range. rewrite Z.mul_0_r, Z.add_0_r, ztake_0.
    change (masked key []) with (@nil Z). rewrite splice_nil by lia. split; [done|lia].
Qed.

Lemma mask_loop64_spec key fuel : forall p len i,
  0 <= i <= len -> len <= zlen p -> len < 2 ^ 64 -> len - i < Z.of_nat fuel ->
  exists n, mask_loop64 fuel p len i (of_u32x4 [key; key; key; key])
      = Done (mask_range key p i (64 * n), i + 64 * n) /\ 0 <= n /\ i + 64 * n <= len.
Proof.
  induction fuel as [|fuel IH]; intros p len i Hi Hl Hw Hf; [lia|].
  cbn [mask_loop64]. rewrite size_sub_le by lia. split_if.
  - rewrite mask16_spec, bind_Done by lia.
    rewrite mask16_spec, bind_Done by (rewrite ?zlen_mask_range; lia).
    rewrite (mask_range_step _ _ _ _ _ 4) by lia.
    rewrite mask16_spec, bind_Done by (rewrite ?zlen_mask_range; lia).
    rewrite (mask_range_step _ _ _ (16 + 16) _ 8) by lia.
    rewrite mask16_spec, bind_Done by (rewrite ?zlen_mask_range; lia).
    rewrite (mask_range_step _ _ _ (16 + 16 + 16) _ 12) by lia.
    destruct (IH (mask_range key p i 64) len (i + 64)) as (n & E & R);
      [rewrite ?zlen_mask_range; lia..|].
    exists (1 + n). change (16 + 16 + 16 + 16) with 64.
    rewrite E, (mask_range_step _ _ _ _ _ 16) by lia.
    split; [do 2 f_equal; [f_equal; lia|lia]|lia].
  - exists 0. unfold mask_range. rewrite Z.mul_0_r, Z.add_0_r, ztake_0.
    change (masked key []) with (@nil Z). rewrite splice_nil by lia. split; [done|lia].
Qed.

Lemma mask_spec p key :
  zlen p < 2 ^ 64 ->
  exists n, tinygodriver_mask p (zlen p) key = Done (mask_range key p 0 (16 * n), 16 * n) /\
    0 <= n /\ 16 * n <= zlen p /\ zlen p - 16 * n < 16.
Proof.
  intros Hw. pose proof (zlen_nonneg p). unfold tinygodriver_mask. cbv zeta.
  destruct (mask_loop64_spec key (loop_fuel (zlen p) 0) p (zlen p) 0) as (n & E & Hn & R);
    [unfold loop_fuel; lia..|].
  rewrite E, bind_Done.
  destruct (mask_loop16_spec key (loop_fuel (zlen p) (0 + 64 * n)) (mask_range key p 0 (64 * n))
    (zlen p) (0 + 64 * n)) as (m & E2 & R2);
    [unfold loop_fuel; rewrite ?zlen_mask_range; lia..|].
  rewrite E2. exists (4 * n + m). rewrite (mask_range_step _ _ _ _ _ (16 * n)) by lia.
  split; [do 2 f_equal; [f_equal; lia|lia]|lia].
Qed.

(** The mask covers all the whole vectors of the payload: it combines each
    octet of that prefix with the octet of the key its position selects, leaves the
    fewer than sixteen bytes after it as they were, and returns the length of the
    prefix, so that the caller can go on with the same key phase. *)
Theorem mask_correct (p : list Z) (key : Z) (Hlen : zlen p < 2 ^ 64) :
  exists p' n, tinygodriver_mask p (zlen p) key = Done (p', n) /\
    n mod 16 = 0 /\ 0 <= n <= zlen p /\ zlen p - n < 16 /\
    p' = masked key (ztake n p) ++ zdrop n p /\
    masked key p = masked key (ztake n p) ++ masked key (zdrop n p).
Proof.
  destruct (mask_spec p key Hlen) as (n & E & Hn & Hl & R).
  eexists _, (16 * n). split; [exact E|]. split_and!; try lia.
  - rewrite Z.mul_comm. apply Z_mod_mult.
  - unfold mask_range, splice. rewrite ztake_0, zdrop_0, zlen_masked, zlen_ztake by lia. done.
  - rewrite <- (masked_app _ _ _ (4 * n)); [by rewrite ztake_zdrop|]. rewrite zlen_ztake; lia.
Qed.

Lemma mask_correct_witness :
  exists p' n, tinygodriver_mask (seqZ 0 90) 90 0x12345678 = Done (p', n) /\
    n mod 16 = 0 /\ 0 <= n <= 90 /\ 90 - n < 16 /\
    p' = masked 0x12345678 (ztake n (seqZ 0 90)) ++ zdrop n (seqZ 0 90) /\
    masked 0x12345678 (seqZ 0 90)
      = masked 0x12345678 (ztake n (seqZ 0 90)) ++ masked 0x12345678 (zdrop n (seqZ 0 90)).
Proof. apply (mask_correct (seqZ 0 90) 0x12345678). vm_compute. reflexivity. Defined.

(** Masking twice with one key restores the payload, so the receiver of a
    frame unmasks with the operation the sender masked with. *)
Theorem mask_involutive (p p' : list Z) (key n : Z) (Hlen : zlen p < 2 ^ 64)
  (Hmask : tinygodriver_mask p (zlen p) key = Done (p', n)) :
  tinygodriver_mask p' (zlen p') key = Done (p, n).
Proof.
  destruct (mask_spec p key Hlen) as (m & E & Hm & Hl & R). rewrite E in Hmask.
  injection Hmask as <- <-. set (q := mask_range key p 0 (16 * m)).
  assert (zlen q = zlen p) as Lq by (apply zlen_mask_range; lia).
  destruct (mask_spec q key) as (k & F & Hk & Hkl & Rk); [lia|].
  assert (k = m) as -> by lia. rewrite F. do 2 f_equal.
  assert (zlen (masked key (ztake (16 * m) p)) = 16 * m) as L by (rewrite zlen_masked; zlens).
  assert (q = masked key (ztake (16 * m) p) ++ zdrop (16 * m) p) as ->.
  { unfold q, mask_range, splice. by rewrite ztake_0, zdrop_0, L. }
  unfold mask_range, splice. rewrite ztake_0, zdrop_0, zlen_masked. cbn [app].
  rewrite ztake_app_l, ztake_all, L, zdrop_app_r by lia.
  rewrite L, Z.add_0_l, Z.sub_diag, zdrop_0. unfold masked. rewrite xor_cycle_involutive by done.
  apply ztake_zdrop.
Qed.

Lemma mask_involutive_witness :
  tinygodriver_mask (masked 77 (seqZ 0 16) ++ [1; 2]) 18 77 = Done (seqZ 0 16 ++ [1; 2], 16).
Proof.
  apply (mask_involutive (seqZ 0 16 ++ [1; 2]) (masked 77 (seqZ 0 16) ++ [1; 2]) 77 16);
    vm_compute; reflexivity.
Defined.

(** ** Searching *)

Lemma index_lane_spec p i c fuel : forall j,
  0 <= i -> 0 <= j <= 16 -> i + 16 <= zlen p -> 16 - j < Z.of_nat fuel ->
  index_lane fuel p i j c
    = Done (Z.add (i + j) <$> first_index c (ztake (16 - j) (zdrop (i + j) p))).
Proof.
  induction fuel as [|fuel IH]; intros j Hi Hj Hl Hf; [lia|]. cbn [index_lane]. split_if.
  2:{ by replace (16 - j) with 0 by lia. }
  rewrite load8_Done, bind_Done by lia.
  replace (16 - j) with (1 + (16 - (j + 1))) by lia. rewrite ztake_zdrop_cons by lia.
  cbn [first_index]. split_if; [cbn; by rewrite Z.add_0_r|].
  rewrite IH by lia. replace (i + j + 1) with (i + (j + 1)) by lia.
  destruct (first_index _ _); [|done]. cbn. do 2 f_equal. lia.
Qed.

Lemma first_index_app c bs cs :
  first_index c (bs ++ cs) =
    match first_index c bs with
    | Some k => Some k
    | None => Z.add (zlen bs) <$> first_index c cs
    end.
Proof.
  induction bs as [|b bs IH].
  { cbn. destruct (first_index c cs); [cbn; f_equal; lia|done]. }
  cbn [app first_index]. destruct (b =? c); [done|]. rewrite IH, zlen_cons.
  destruct (first_index c bs), (first_index c cs); try done. cbn. f_equal. lia.
Qed.

Lemma first_index_existsb c bs :
  existsb (fun b => b =? c) bs = match first_index c bs with Some _ => true | None => false end.
Proof.
  induction bs as [|b bs IH]; [done|]. cbn [existsb first_index].
  destruct (b =? c); [done|]. rewrite IH. by destruct (first_index c bs).
Qed.

(** A step over [n] bytes without [c]. *)
Lemma first_index_skip c p i n len :
  0 <= i -> 0 <= n -> i + n <= len -> len <= zlen p ->
  first_index c (ztake n (zdrop i p)) = None ->
  Z.add (i + n) <$> first_index c (ztake (len - (i + n)) (zdrop (i + n) p))
    = Z.add i <$> first_index c (ztake (len - i) (zdrop i p)).
Proof.
  intros Hi Hn Hl Hp H. replace (len - i) with (n + (len - (i + n))) by lia.
  rewrite ztake_add by lia. rewrite first_index_app, H, zdrop_zdrop by lia.
  replace (zlen (ztake n (zdrop i p))) with n by zlens.
  destruct (first_index c (ztake (len - (i + n)) _)); [|done]. cbn. f_equal. lia.
Qed.

Lemma index_tail_spec p len c fuel : forall i,
  0 <= i <= len -> len <= zlen p -> len - i < Z.of_nat fuel ->
  index_tail fuel p len i c
    = Done (default (-1) (Z.add i <$> first_index c (ztake (len - i) (zdrop i p)))).
Proof.
  induction fuel as [|fuel IH]; intros i Hi Hl Hf; [lia|]. cbn [index_tail]. split_if.
  2:{ by replace (len - i) with 0 by lia. }
  rewrite load8_Done, bind_Done by lia.
  assert (ztake 1 (zdrop i p) = [p !!! Z.to_nat i]) as E1.
  { change 1 with (1 + 0). by rewrite ztake_zdrop_cons by lia. }
  split_if.
  - replace (len - i) with (1 + (len - i - 1)) by lia. rewrite ztake_zdrop_cons by lia.
    cbn [first_index]. rewrite (proj2 (Z.eqb_eq _ _)) by done. cbn. by rewrite Z.add_0_r.
  - rewrite IH by lia. rewrite first_index_skip; [done|lia..|].
    rewrite E1. cbn [first_index]. by rewrite (proj2 (Z.eqb_neq _ _)).
Qed.

Lemma any_index a p i c :
  0 <= i -> i + 16 <= zlen p ->
  any a (veq (ztake 16 (zdrop i p)) (splat c))
    = match first_index c (ztake 16 (zdrop i p)) with Some _ => true | None => false end.
Proof.
  intros Hi Hl. unfold splat, veq.
  assert (zlen (ztake 16 (zdrop i p)) = 16) as L by zlens.
  rewrite vmap2_splat by (unfold zlen in L; lia).
  by rewrite (any_spec a (fun b => b =? c)), first_index_existsb.
Qed.

Lemma index_loop_spec a p len c fuel : forall i,
  0 <= i <= len -> len <= zlen p -> len < 2 ^ 64 -> len - i < Z.of_nat fuel ->
  (r ← index_loop a fuel p len i c;
   match r with inl k => Done k | inr i => index_tail (loop_fuel len i) p len i c end)
  = Done (default (-1) (Z.add i <$> first_index c (ztake (len - i) (zdrop i p)))).
Proof.
  induction fuel as [|fuel IH]; intros i Hi Hl Hw Hf; [lia|]. cbn [index_loop].
  rewrite size_sub_le by lia. split_if.
  2:{ rewrite bind_Done. apply index_tail_spec; unfold loop_fuel; lia. }
  unfold load16. rewrite load_Done, bind_Done, any_index by lia.
  destruct (first_index c (ztake 16 (zdrop i p))) as [k|] eqn:E.
  - rewrite index_lane_spec by lia. rewrite bind_Done, !Z.add_0_r, Z.sub_0_r, E.
    cbn [fmap option_fmap option_map]. rewrite bind_Done.
    replace (len - i) with (16 + (len - i - 16)) by lia.
    rewrite ztake_add, first_index_app, E by lia. done.
  - rewrite IH by lia. rewrite first_index_skip by (lia || done). done.
Qed.

Lemma first_index_spec c bs :
  match first_index c bs with
  | Some k => 0 <= k < zlen bs /\ bs !!! Z.to_nat k = c /\ Forall (fun b => b <> c) (ztake k bs)
  | None => Forall (fun b => b <> c) bs
  end.
Proof.
  induction bs as [|b bs IH]; [constructor|]. cbn [first_index]. split_if.
  - subst. rewrite zlen_cons. pose proof (zlen_nonneg bs). split_and!; [lia..|done|constructor].
  - destruct (first_index c bs) as [k|]; cbn.
    + destruct IH as (Hk & Hc & Hf). rewrite zlen_cons. split; [lia|].
      unfold ztake in *. rewrite !Z2Nat.inj_succ by lia. split; [done|]. by constructor.
    + by constructor.
Qed.

(** [tinygodriver_index_byte] returns the index of the first occurrence of the
    byte, on either instruction set, and -1 exactly when there is none. *)
Theorem index_byte_correct (a : arch) (p : list Z) (c : Z) (Hlen : zlen p < 2 ^ 63) :
  exists r, tinygodriver_index_byte a p (zlen p) c = Done r /\
    ((0 <= r < zlen p /\ p !!! Z.to_nat r = c /\ Forall (fun b => b <> c) (ztake r p)) \/
     (r = -1 /\ Forall (fun b => b <> c) p)).
Proof.
  pose proof (zlen_nonneg p). unfold tinygodriver_index_byte.
  rewrite index_loop_spec by (unfold loop_fuel; lia).
  rewrite zdrop_0, Z.sub_0_r, ztake_all by lia. eexists. split; [done|].
  pose proof (first_index_spec c p) as H1. destruct (first_index c p) as [k|]; cbn.
  - left. done.
  - by right.
Qed.

Lemma index_byte_correct_witness :
  exists r, tinygodriver_index_byte X86_64 (seqZ 50 40) 40 85 = Done r /\
    ((0 <= r < 40 /\ seqZ 50 40 !!! Z.to_nat r = 85 /\ Forall (fun b => b <> 85) (ztake r (seqZ 50 40))) \/
     (r = -1 /\ Forall (fun b => b <> 85) (seqZ 50 40))).
Proof. apply (index_byte_correct X86_64 (seqZ 50 40) 85). vm_compute. reflexivity. Defined.

(** ** Header values *)

Lemma header_bad_spec x :
  length x = 16%nat -> header_bad x = map (fun c => mask (negb (header_ok c))) x.
Proof.
  intros H. unfold header_bad, splat. lane_maps H. apply map_ext. intros c. unfold header_ok.
  by destruct (c <? 32), (c =? 9), (c =? 127).
Qed.

Lemma existsb_negb {A} (P : A -> bool) l : existsb (fun x => negb (P x)) l = negb (forallb P l).
Proof. induction l as [|x l IH]; [done|]. cbn [existsb forallb]. rewrite IH. by destruct (P x). Qed.

Lemma header_tail_spec p len fuel : forall i,
  0 <= i <= len -> len <= zlen p -> len - i < Z.of_nat fuel ->
  header_tail fuel p len i
    = Done (if forallb header_ok (ztake (len - i) (zdrop i p)) then 1 else 0).
Proof.
  induction fuel as [|fuel IH]; intros i Hi Hl Hf; [lia|]. cbn [header_tail].
  destruct (Z.ltb_spec i len).
  2:{ by replace (len - i) with 0 by lia. }
  rewrite load8_Done, bind_Done by lia.
  replace (len - i) with (1 + (len - (i + 1))) by lia. rewrite ztake_zdrop_cons by lia.
  cbn [forallb]. unfold header_ok at 1. rewrite IH by lia.
  by destruct (_ || _).
Qed.

Lemma header_loop_spec a p len fuel : forall i,
  0 <= i <= len -> len <= zlen p -> len < 2 ^ 64 -> len - i < Z.of_nat fuel ->
  (r ← header_loop a fuel p len i;
   match r with None => Done 0 | Some i => header_tail (loop_fuel len i) p len i end)
  = Done (if forallb header_ok (ztake (len - i) (zdrop i p)) then 1 else 0).
Proof.
  induction fuel as [|fuel IH]; intros i Hi Hl Hw Hf; [lia|]. cbn [header_loop].
  rewrite size_sub_le by lia. destruct (len - i >=? 16) eqn:E; bool_to_prop.
  2:{ rewrite bind_Done. apply header_tail_spec; unfold loop_fuel; lia. }
  unfold load16. rewrite load_Done, bind_Done by lia.
  assert (zlen (ztake 16 (zdrop i p)) = 16) as L by zlens.
  rewrite header_bad_spec, any_spec, existsb_negb by (unfold zlen in L; lia).
  replace (len - i) with (16 + (len - (i + 16))) by lia.
  rewrite ztake_add, forallb_app by lia.
  destruct (forallb header_ok (ztake 16 (zdrop i p))); cbn [negb andb]; [|done].
  rewrite IH by lia. by rewrite zdrop_zdrop by lia.
Qed.

(** [tinygodriver_header_value] accepts a value exactly when no byte of it is a
    control character other than tab: in particular nothing it accepts can hold the
    CR or LF that would start a new header line. *)
Theorem header_value_correct (a : arch) (p : list Z) (Hlen : zlen p < 2 ^ 64) :
  exists r, tinygodriver_header_value a p (zlen p) = Done r /\
    (r = 1 \/ r = 0) /\
    (r = 1 <-> Forall (fun b => (32 <= b /\ b <> 127) \/ b = 9) p) /\
    (r = 1 -> (13 ∉ p) /\ (10 ∉ p) /\ (0 ∉ p)).
Proof.
  pose proof (zlen_nonneg p). unfold tinygodriver_header_value.
  rewrite header_loop_spec by (unfold loop_fuel; lia).
  rewrite zdrop_0, Z.sub_0_r, ztake_all by lia. eexists. split; [done|].
  assert (forallb header_ok p = true <-> Forall (fun b => (32 <= b /\ b <> 127) \/ b = 9) p) as E.
  { rewrite forallb_forall, Forall_forall. setoid_rewrite <- list_elem_of_In.
    apply forall_proper. intros b. unfold header_ok.
    destruct (Z.ltb_spec b 32), (Z.eqb_spec b 9), (Z.eqb_spec b 127); simpl; intuition (lia || done). }
  destruct (forallb header_ok p).
  - split; [by left|]. split; [by rewrite <- E|]. intros _. destruct E as [E _].
    specialize (E eq_refl). rewrite Forall_forall in E.
    split_and!; intros Hin%E; lia.
  - split; [by right|]. split; [|done]. rewrite <- E. done.
Qed.

Lemma header_value_correct_witness :
  exists r, tinygodriver_header_value Aarch64 (replicate 20 65 ++ [13; 10]) 22 = Done r /\
    (r = 1 \/ r = 0) /\
    (r = 1 <-> Forall (fun b => (32 <= b /\ b <> 127) \/ b = 9) (replicate 20 65 ++ [13; 10])) /\
    (r = 1 -> (13 ∉ replicate 20 65 ++ [13; 10]) /\ (10 ∉ replicate 20 65 ++ [13; 10])
      /\ (0 ∉ replicate 20 65 ++ [13; 10])).
Proof.
  apply (header_value_correct Aarch64 (replicate 20 65 ++ [13; 10])). vm_compute. reflexivity.
Defined.
