(* ===== verification/TinyLibc.v ===== *)
(** * database/sql/sqlite/tinygosqlite/tinygo_libc.c

    The POSIX wrappers SQLite needs on TinyGo's Linux: six of them prepare a system
    call, and [__procfdname] prints the name of a descriptor under /proc.  The system
    call itself is a parameter: it receives the request the wrapper builds. *)

From S2P Require Import Prelude.

(** ** System calls *)

Inductive sysno : Set :=
  | SYS_newfstatat | SYS_fstat | SYS_fchmod | SYS_mkdirat | SYS_utimensat.

Record timeval : Set := { tv_sec : Z; tv_usec : Z }.
Record timespec : Set := { ts_sec : Z; ts_nsec : Z }.

(** The arguments of a call: integers, the caller's pointers, and the array of two
    time stamps [__futimesat] has on its stack. *)
Inductive sysarg : Set :=
  | AInt (z : Z) | APath (p : list Z) | AStat (addr : Z) | ANull | ASpec (a m : timespec).

Definition AT_FDCWD : Z := -100.
Definition AT_SYMLINK_NOFOLLOW : Z := 0x100.

Section wrappers.
Context (syscall : sysno -> list sysarg -> Z).

Definition stat (path : list Z) (result : Z) : Z :=
  to_int (syscall SYS_newfstatat [AInt AT_FDCWD; APath path; AStat result; AInt 0]).
Definition lstat (path : list Z) (result : Z) : Z :=
  to_int (syscall SYS_newfstatat
            [AInt AT_FDCWD; APath path; AStat result; AInt AT_SYMLINK_NOFOLLOW]).
Definition fstat (fd result : Z) : Z := to_int (syscall SYS_fstat [AInt fd; AStat result]).
Definition fchmod (fd mode : Z) : Z := to_int (syscall SYS_fchmod [AInt fd; AInt mode]).
Definition mkdir (path : list Z) (mode : Z) : Z :=
  to_int (syscall SYS_mkdirat [AInt AT_FDCWD; APath path; AInt mode]).

Definition spec_of (t : timeval) : timespec :=
  {| ts_sec := tv_sec t; ts_nsec := tv_usec t * 1000 |}.

Definition __futimesat (fd : Z) (path : list Z) (times : option (timeval * timeval)) : Z :=
  match times with
  | None => to_int (syscall SYS_utimensat [AInt fd; APath path; ANull; AInt 0])
  | Some (t0, t1) =>
      to_int (syscall SYS_utimensat [AInt fd; APath path; ASpec (spec_of t0) (spec_of t1); AInt 0])
  end.
End wrappers.

(** ** __procfdname *)

(** "/proc/self/fd/" with its terminator. *)
Definition prefix : list Z := [47; 112; 114; 111; 99; 47; 115; 101; 108; 102; 47; 102; 100; 47; 0].

(** [while ((buffer[i] = prefix[i]) != 0) i++;] *)
Fixpoint copy_prefix (fuel : nat) (buffer : list Z) (i : Z) : outcome (list Z * Z) :=
  match fuel with
  | O => NoFuel
  | S fuel =>
      c ← load8 prefix i;
      buffer ← store buffer i [c];
      if c =? 0 then Done (buffer, i) else copy_prefix fuel buffer (i + 1)
  end.

(** [for (unsigned value = fd; value != 0; value /= 10) end++;] *)
Fixpoint count_digits (fuel : nat) (value end_ : Z) : outcome Z :=
  match fuel with
  | O => NoFuel
  | S fuel => if value =? 0 then Done end_ else count_digits fuel (value / 10) (end_ + 1)
  end.

(** [while (fd != 0) { buffer[--end] = (char)('0' + fd % 10); fd /= 10; }] *)
Fixpoint put_digits (fuel : nat) (buffer : list Z) (end_ fd : Z) : outcome (list Z) :=
  match fuel with
  | O => NoFuel
  | S fuel =>
      if fd =? 0 then Done buffer
      else
        buffer ← store buffer (end_ - 1) [48 + fd mod 10];
        put_digits fuel buffer (end_ - 1) (fd / 10)
  end.

(** A 32-bit value has at most ten digits. *)
Definition digit_fuel : nat := 11.

Definition __procfdname (buffer : list Z) (fd : Z) : outcome (list Z) :=
  '(buffer, i) ← copy_prefix 15 buffer 0;
  if fd =? 0 then
    buffer ← store buffer i [48];
    store buffer (i + 1) [0]
  else
    end_ ← count_digits digit_fuel fd i;
    buffer ← store buffer end_ [0];
    put_digits digit_fuel buffer end_ fd.

(** ** What the number printed is *)

(** Reading a decimal numeral, and the numeral of a number. *)
Definition read_dec (ds : list Z) : Z := fold_left (fun n d => n * 10 + (d - 48)) ds 0.

Fixpoint dec_rev (fuel : nat) (n : Z) : list Z :=
  match fuel with
  | O => []
  | S fuel => if n =? 0 then [] else 48 + n mod 10 :: dec_rev fuel (n / 10)
  end.
Definition decimal (n : Z) : list Z := if n =? 0 then [48] else rev (dec_rev 10 n).

(** ** Lemmas *)

Lemma read_dec_snoc ds d : read_dec (ds ++ [d]) = read_dec ds * 10 + (d - 48).
Proof. unfold read_dec. by rewrite fold_left_app. Qed.

Lemma read_dec_rev fuel : forall n,
  0 <= n < 10 ^ Z.of_nat fuel -> read_dec (rev (dec_rev fuel n)) = n.
Proof.
  induction fuel as [|fuel IH]; intros n Hn.
  { change (10 ^ Z.of_nat 0) with 1 in Hn. assert (n = 0) as -> by lia. done. }
  rewrite Nat2Z.inj_succ, Z.pow_succ_r in Hn by lia. cbn [dec_rev].
  destruct (Z.eqb_spec n 0) as [->|]; [done|]. cbn [rev]. rewrite read_dec_snoc, IH.
  - pose proof (Z.div_mod n 10). lia.
  - split; [apply Z.div_pos; lia|]. apply Z.div_lt_upper_bound; lia.
Qed.

Lemma dec_rev_digits fuel : forall n, Forall (fun d => 48 <= d <= 57) (dec_rev fuel n).
Proof.
  induction fuel as [|fuel IH]; intros n; cbn [dec_rev]; [constructor|].
  destruct (n =? 0); constructor; [|apply IH]. pose proof (Z.mod_pos_bound n 10). lia.
Qed.

Lemma zlen_dec_rev fuel : forall n, 0 <= zlen (dec_rev fuel n) <= Z.of_nat fuel.
Proof.
  induction fuel as [|fuel IH]; intros n; cbn [dec_rev]; [done|].
  destruct (n =? 0); [unfold zlen; simpl; lia|]. rewrite zlen_cons. specialize (IH (n / 10)). lia.
Qed.

(** The most significant digit is not zero. *)
Lemma dec_rev_last fuel : forall n,
  0 < n < 10 ^ Z.of_nat fuel -> exists d l, dec_rev fuel n = l ++ [d] /\ d <> 48.
Proof.
  induction fuel as [|fuel IH]; intros n Hn.
  { change (10 ^ Z.of_nat 0) with 1 in Hn. lia. }
  rewrite Nat2Z.inj_succ, Z.pow_succ_r in Hn by lia. cbn [dec_rev].
  destruct (Z.eqb_spec n 0); [lia|]. destruct (Z.eq_dec (n / 10) 0) as [E|E].
  - rewrite E. exists (48 + n mod 10), []. split.
    + by destruct fuel.
    + pose proof (Z.div_mod n 10). lia.
  - destruct (IH (n / 10)) as (d & l & -> & Hd).
    + pose proof (Z.div_pos n 10). split; [lia|]. apply Z.div_lt_upper_bound; lia.
    + by exists d, (48 + n mod 10 :: l).
Qed.

Lemma zlen_rev (l : list Z) : zlen (rev l) = zlen l.
Proof. unfold zlen. by rewrite length_rev. Qed.

Lemma count_digits_spec fuel : forall n e,
  0 <= n < 10 ^ Z.of_nat fuel -> count_digits (S fuel) n e = Done (e + zlen (dec_rev fuel n)).
Proof.
  induction fuel as [|fuel IH]; intros n e Hn; cbn [count_digits].
  { change (10 ^ Z.of_nat 0) with 1 in Hn. assert (n = 0) as -> by lia.
    cbn. by rewrite Z.add_0_r. }
  rewrite Nat2Z.inj_succ, Z.pow_succ_r in Hn by lia. cbn [dec_rev].
  destruct (Z.eqb_spec n 0); [by rewrite zlen_nil, Z.add_0_r|].
  assert (0 <= n / 10 < 10 ^ Z.of_nat fuel) as Hd.
  { split; [apply Z.div_pos; lia|]. apply Z.div_lt_upper_bound; lia. }
  change (count_digits (S fuel) (n / 10) (e + 1) = Done (e + zlen (48 + n mod 10 :: dec_rev fuel (n / 10)))).
  rewrite IH, zlen_cons by done. f_equal. lia.
Qed.

Lemma put_digits_spec fuel : forall n b e,
  0 <= n < 10 ^ Z.of_nat fuel -> zlen (dec_rev fuel n) <= e -> e <= zlen b ->
  put_digits (S fuel) b e n
    = Done (splice b (e - zlen (dec_rev fuel n)) (rev (dec_rev fuel n))).
Proof.
  induction fuel as [|fuel IH]; intros n b e Hn Hl He; cbn [put_digits].
  { change (10 ^ Z.of_nat 0) with 1 in Hn. assert (n = 0) as -> by lia. cbn [Z.eqb dec_rev rev].
    rewrite splice_nil; [done|]. unfold zlen in *; simpl in *; lia. }
  rewrite Nat2Z.inj_succ, Z.pow_succ_r in Hn by lia. cbn [dec_rev] in *.
  destruct (Z.eqb_spec n 0).
  { cbn [rev]. rewrite splice_nil; [done|]. unfold zlen in *; simpl in *; lia. }
  assert (0 <= n / 10 < 10 ^ Z.of_nat fuel) as Hd.
  { split; [apply Z.div_pos; lia|]. apply Z.div_lt_upper_bound; lia. }
  set (d := 48 + n mod 10) in *. set (ds := dec_rev fuel (n / 10)) in *.
  rewrite zlen_cons in *. assert (zlen [d] = 1) as L1 by done.
  pose proof (zlen_nonneg ds).
  rewrite store_splice, bind_Done by lia.
  change (put_digits (S fuel) (splice b (e - 1) [d]) (e - 1) (n / 10)
    = Done (splice b (e - (1 + zlen ds)) (rev (d :: ds)))).
  rewrite IH; [|done|fold ds; lia|rewrite zlen_splice; lia]. fold ds. f_equal.
  rewrite <- (zlen_rev ds). cbn [rev].
  replace (e - 1) with (e - 1 - zlen (rev ds) + zlen (rev ds)) at 1 by lia.
  rewrite splice_before by (rewrite zlen_rev; lia). f_equal. lia.
Qed.

Lemma copy_prefix_step fuel b i :
  0 <= i < 15 -> i < zlen b ->
  copy_prefix (S fuel) b i =
    let c := prefix !!! Z.to_nat i in
    if c =? 0 then Done (splice b i [c], i) else copy_prefix fuel (splice b i [c]) (i + 1).
Proof.
  intros Hi Hb. cbn [copy_prefix]. rewrite load8_Done, bind_Done by done.
  rewrite store_splice, bind_Done; [done|lia|]. change (zlen [_]) with 1. lia.
Qed.

Lemma copy_prefix_spec b : 15 <= zlen b -> copy_prefix 15 b 0 = Done (splice b 0 prefix, 14).
Proof.
  intros Hb.
  assert (forall k i, (i + k = 14)%nat ->
    copy_prefix (S k) (splice b 0 (take i prefix)) (Z.of_nat i) = Done (splice b 0 prefix, 14)) as H.
  2:{ rewrite <- (H 14%nat 0%nat) by done. rewrite splice_nil; [done|lia]. }
  induction k as [|k IH]; intros i Hi;
    assert (zlen (take i prefix) = Z.of_nat i) as L
      by (unfold zlen; rewrite length_take; change (length prefix) with 15%nat; lia);
    assert (forall c, splice (splice b 0 (take i prefix)) (Z.of_nat i) [c]
        = splice b 0 (take i prefix ++ [c])) as Sp
      by (intros c; rewrite <- splice_splice; [by rewrite L|lia|rewrite L; change (zlen [c]) with 1; lia]);
    rewrite copy_prefix_step by (rewrite ?zlen_splice; lia); cbv zeta; rewrite Sp.
  - assert (i = 14%nat) as -> by lia. reflexivity.
  - rewrite Nat2Z.id, <- (take_S_r prefix i)
      by (apply list_lookup_lookup_total_lt; change (length prefix) with 15%nat; lia).
    replace (prefix !!! i =? 0) with false.
    + replace (Z.of_nat i + 1) with (Z.of_nat (S i)) by lia. apply IH. lia.
    + do 14 (destruct i as [|i]; [done|]). lia.
Qed.

(** The buffer [__procfdname] leaves: the path, its terminator, the rest as it was. *)
Definition fd_path (fd : Z) : list Z := take 14 prefix ++ decimal fd ++ [0].

Lemma decimal_nonzero n : n <> 0 -> decimal n = rev (dec_rev 10 n).
Proof. intros. unfold decimal. by rewrite (proj2 (Z.eqb_neq _ _)). Qed.

Lemma prefix_splice b out :
  15 <= zlen b -> 14 + zlen out <= zlen b ->
  0 < zlen out -> splice (splice b 0 prefix) 14 out = splice b 0 (take 14 prefix ++ out).
Proof.
  intros Hb Ho Hp. unfold splice. rewrite !ztake_0. cbn [app].
  change (zlen prefix) with 15. rewrite zlen_app. change (zlen (take 14 prefix)) with 14.
  rewrite ztake_app_l by (change (zlen prefix) with 15; lia).
  change (ztake 14 prefix) with (take 14 prefix). rewrite <- app_assoc. do 2 f_equal.
  rewrite zdrop_app_r by (change (zlen prefix) with 15; lia).
  rewrite zdrop_zdrop by (change (zlen prefix) with 15; lia).
  change (zlen prefix) with 15. f_equal. lia.
Qed.

(** For every descriptor number and every buffer of 25 bytes or more,
    [__procfdname] terminates inside the buffer and leaves there the
    path "/proc/self/fd/N" with its terminator, the rest untouched; N is the decimal
    numeral of the number: digits only, no leading zero, and its value is the
    descriptor. *)
Theorem procfdname_correct (buffer : list Z) (fd : Z)
  (Hbuf : 25 <= zlen buffer) (Hfd : 0 <= fd < 2 ^ 32) :
  __procfdname buffer fd = Done (splice buffer 0 (fd_path fd)) /\
  Forall (fun d => 48 <= d <= 57) (decimal fd) /\ read_dec (decimal fd) = fd /\
  (fd <> 0 -> head (decimal fd) <> Some 48).
Proof.
  split_and!.
  - unfold __procfdname. rewrite copy_prefix_spec, bind_Done by lia.
    assert (zlen (splice buffer 0 prefix) = zlen buffer) as L
      by (apply zlen_splice; [lia|change (zlen prefix) with 15; lia]).
    unfold fd_path, decimal. destruct (Z.eqb_spec fd 0) as [->|].
    + assert (zlen [48] = 1 /\ zlen [0] = 1) as [L1 L0] by done.
      rewrite store_splice, bind_Done by lia. replace (14 + 1) with (14 + zlen [48]) by lia.
      rewrite store_splice by (rewrite ?(zlen_splice _ 14); lia). rewrite splice_splice by lia.
      rewrite prefix_splice; [done|..]; rewrite ?zlen_app; lia.
    + assert (0 <= fd < 10 ^ Z.of_nat 10) as Hfd10 by (change (10 ^ Z.of_nat 10) with 10000000000; lia).
      unfold digit_fuel. rewrite count_digits_spec, bind_Done by done.
      pose proof (zlen_dec_rev 10 fd) as Hl. set (ds := dec_rev 10 fd) in *.
      assert (zlen [0] = 1) as L0 by done.
      pose proof (zlen_rev ds) as Lr. rewrite store_splice, bind_Done by lia.
      rewrite put_digits_spec; [|done|fold ds; lia|fold ds; rewrite zlen_splice; lia]. fold ds.
      replace (14 + zlen ds - zlen ds) with 14 by lia. rewrite <- Lr, splice_before by lia.
      rewrite prefix_splice; [done|..]; rewrite ?zlen_app; lia.
  - unfold decimal. destruct (fd =? 0); [by repeat constructor|].
    apply Forall_rev, dec_rev_digits.
  - unfold decimal. destruct (Z.eqb_spec fd 0) as [->|]; [done|].
    apply read_dec_rev. change (10 ^ Z.of_nat 10) with 10000000000. lia.
  - intros Hn. rewrite decimal_nonzero by done.
    destruct (dec_rev_last 10 fd) as (d & l & -> & Hd).
    { change (10 ^ Z.of_nat 10) with 10000000000. lia. }
    rewrite rev_app_distr. cbn. congruence.
Qed.

Lemma procfdname_correct_witness :
  __procfdname (replicate 27 7) 4294967295 = Done (splice (replicate 27 7) 0 (fd_path 4294967295)) /\
  Forall (fun d => 48 <= d <= 57) (decimal 4294967295) /\ read_dec (decimal 4294967295) = 4294967295 /\
  (4294967295 <> 0 -> head (decimal 4294967295) <> Some 48).
Proof.
  apply (procfdname_correct (replicate 27 7) 4294967295); [vm_compute; discriminate|lia].
Defined.

(** ** __futimesat *)

(** The instant a time stamp names, in nanoseconds. *)
Definition instant (t : timespec) : Z := ts_sec t * 1000000000 + ts_nsec t.
Definition instant_us (t : timeval) : Z := tv_sec t * 1000000 + tv_usec t.

(** With valid time stamps [__futimesat] makes one utimensat call on the same
    file, whose time stamps are valid for the kernel (less than a second of
    nanoseconds, no 64-bit overflow) and name the instants given; without time stamps
    it passes the null pointer that asks for the current time. *)
Theorem futimesat_request (syscall : sysno -> list sysarg -> Z) (fd : Z) (path : list Z)
  (times : option (timeval * timeval))
  (Hvalid : match times with
            | None => True
            | Some (a, m) => 0 <= tv_usec a < 1000000 /\ 0 <= tv_usec m < 1000000
            end) :
  exists arg,
    __futimesat syscall fd path times
      = to_int (syscall SYS_utimensat [AInt fd; APath path; arg; AInt 0]) /\
    match times with
    | None => arg = ANull
    | Some (a, m) => exists sa sm, arg = ASpec sa sm /\
        0 <= ts_nsec sa < 1000000000 /\ 0 <= ts_nsec sm < 1000000000 /\
        instant sa = instant_us a * 1000 /\ instant sm = instant_us m * 1000
    end.
Proof.
  destruct times as [[a m]|]; eexists; (split; [reflexivity|]); [|done].
  eexists _, _. split; [reflexivity|]. unfold instant, instant_us, spec_of. simpl. lia.
Qed.

Lemma futimesat_request_witness :
  exists arg,
    __futimesat (fun _ _ => -1) 3 [97; 0] (Some ({| tv_sec := 5; tv_usec := 999999 |}, {| tv_sec := 6; tv_usec := 0 |}))
      = to_int (-1) /\
    exists sa sm, arg = ASpec sa sm /\
        0 <= ts_nsec sa < 1000000000 /\ 0 <= ts_nsec sm < 1000000000 /\
        instant sa = instant_us {| tv_sec := 5; tv_usec := 999999 |} * 1000 /\
        instant sm = instant_us {| tv_sec := 6; tv_usec := 0 |} * 1000.
Proof.
  apply (futimesat_request (fun _ _ => -1) 3 [97; 0]
    (Some ({| tv_sec := 5; tv_usec := 999999 |}, {| tv_sec := 6; tv_usec := 0 |}))).
  simpl. lia.
Defined.
