(* ===== verification/Bytes.v ===== *)
(** * Little-endian words

    Bytes read and written as integers, as [MBEDTLS_GET_UINT32_LE] and its like in
    [src/internal/mbedtls/alignment.h] do, with the lemmas the ciphers and the
    constant-time functions share. *)

From S2P Require Import Prelude.

(** ** Little-endian integers *)

Fixpoint le (bs : list Z) : Z :=
  match bs with [] => 0 | b :: bs => b + 2 ^ 8 * le bs end.

(** The [n] low bytes of [x]. *)
Fixpoint le_bytes (n : nat) (x : Z) : list Z :=
  match n with O => [] | S n => x mod 2 ^ 8 :: le_bytes n (x / 2 ^ 8) end.

Definition MBEDTLS_BYTE_0 (x : Z) : Z := Z.land x 0xff.
Definition MBEDTLS_BYTE_1 (x : Z) : Z := Z.land (Z.shiftr x 8) 0xff.
Definition MBEDTLS_BYTE_2 (x : Z) : Z := Z.land (Z.shiftr x 16) 0xff.
Definition MBEDTLS_BYTE_3 (x : Z) : Z := Z.land (Z.shiftr x 24) 0xff.

Definition MBEDTLS_GET_UINT32_LE (b : list Z) (off : Z) : outcome Z := l ← load b off 4; mret (le l).
Definition MBEDTLS_GET_UINT64_LE (b : list Z) (off : Z) : outcome Z := l ← load b off 8; mret (le l).
Definition MBEDTLS_PUT_UINT32_LE (x : Z) (b : list Z) (off : Z) : outcome (list Z) :=
  store b off (le_bytes 4 x).
Definition MBEDTLS_PUT_UINT64_LE (x : Z) (b : list Z) (off : Z) : outcome (list Z) :=
  store b off (le_bytes 8 x).

Definition word (x : Z) : Prop := 0 <= x < 2 ^ 32.

(** ** Facts *)

Lemma le_bytes_length n x : zlen (le_bytes n x) = Z.of_nat n.
Proof. revert x. induction n as [|n IH]; intros x; [done|]. cbn [le_bytes]. rewrite zlen_cons, IH. lia. Qed.

Lemma le_bytes_app n m x :
  le_bytes (n + m) x = le_bytes n x ++ le_bytes m (x / 2 ^ (8 * Z.of_nat n)).
Proof.
  revert x. induction n as [|n IH]; intros x; cbn [Nat.add le_bytes app].
  - change (8 * Z.of_nat 0) with 0. by rewrite Z.div_1_r.
  - rewrite IH. do 3 f_equal. rewrite Z.div_div by (try apply Z.pow_pos_nonneg; lia).
    rewrite <- Z.pow_add_r by lia. do 2 f_equal. lia.
Qed.

Lemma le_bytes_mod n x : le_bytes n (x mod 2 ^ (8 * Z.of_nat n)) = le_bytes n x.
Proof.
  revert x. induction n as [|n IH]; intros x; [done|]. cbn [le_bytes].
  assert (2 ^ (8 * Z.of_nat (S n)) = 2 ^ 8 * 2 ^ (8 * Z.of_nat n)) as E
    by (rewrite <- Z.pow_add_r by lia; f_equal; lia).
  assert (0 < 2 ^ (8 * Z.of_nat n)) by (apply Z.pow_pos_nonneg; lia).
  rewrite E, Z.rem_mul_r by lia. set (q := (x / 2 ^ 8) mod _).
  f_equal; [clearbody q; Z.div_mod_to_equations; lia|]. rewrite <- (IH (x / 2 ^ 8)). fold q. f_equal.
  clearbody q. Z.div_mod_to_equations; lia.
Qed.

Lemma le_bytes_congr n x y k : x = y + k * 2 ^ (8 * Z.of_nat n) -> le_bytes n x = le_bytes n y.
Proof. intros ->. rewrite <- (le_bytes_mod n (y + _)), Z_mod_plus_full. apply le_bytes_mod. Qed.

Lemma le_app l k : le (l ++ k) = le l + 2 ^ (8 * zlen l) * le k.
Proof.
  induction l as [|b l IH]; cbn [app le]; [change (zlen []) with 0; change (2 ^ (8 * 0)) with 1; lia|].
  rewrite IH, zlen_cons. pose proof (zlen_nonneg l).
  replace (8 * (1 + zlen l)) with (8 + 8 * zlen l) by lia. rewrite Z.pow_add_r by lia. ring.
Qed.

Lemma le_range l : is_bytes l -> 0 <= le l < 2 ^ (8 * zlen l).
Proof.
  induction 1 as [|b l Hb _ IH]; cbn [le]; [done|]. unfold is_byte in Hb. rewrite zlen_cons.
  pose proof (zlen_nonneg l). replace (8 * (1 + zlen l)) with (8 + 8 * zlen l) by lia.
  rewrite Z.pow_add_r by lia. lia.
Qed.

Lemma le_zeros n : le (replicate n 0) = 0.
Proof. induction n as [|n IH]; [done|]. cbn [replicate le]. by rewrite IH. Qed.

Lemma get_uint32_spec b off :
  0 <= off -> off + 4 <= zlen b -> is_bytes b ->
  MBEDTLS_GET_UINT32_LE b off = Done (le (ztake 4 (zdrop off b))) /\ word (le (ztake 4 (zdrop off b))).
Proof.
  intros H0 H1 Hb. unfold MBEDTLS_GET_UINT32_LE. rewrite load_Done, bind_Done by lia.
  split; [done|]. unfold word. assert (zlen (ztake 4 (zdrop off b)) = 4) as L by zlens.
  pose proof (le_range (ztake 4 (zdrop off b)) ltac:(auto with zlist)) as R. rewrite L in R. exact R.
Qed.

Lemma le_bytes_le l : is_bytes l -> le_bytes (length l) (le l) = l.
Proof.
  induction 1 as [|b l Hb _ IH]; [done|]. cbn [length le_bytes le]. unfold is_byte in Hb.
  rewrite (Z.mul_comm (2 ^ 8)), Z_mod_plus_full, Z.mod_small, Z.div_add, Z.div_small by lia.
  rewrite Z.add_0_l. by rewrite IH.
Qed.

Lemma is_bytes_le_bytes n x : is_bytes (le_bytes n x).
Proof.
  revert x. induction n as [|n IH]; intros x; cbn [le_bytes]; [constructor|].
  constructor; [|apply IH]. apply Z.mod_pos_bound. lia.
Qed.

Lemma is_bytes_replicate n x : is_byte x -> is_bytes (replicate n x).
Proof. intros. by apply Forall_replicate. Qed.

(** ** Words below a power of two *)

Lemma bits_below n x y (op : Z -> Z -> Z) (f : bool -> bool -> bool) : 0 <= n ->
  (forall x y i, 0 <= i -> Z.testbit (op x y) i = f (Z.testbit x i) (Z.testbit y i)) -> f false false = false ->
  0 <= x < 2 ^ n -> 0 <= y < 2 ^ n -> 0 <= op x y -> 0 <= op x y < 2 ^ n.
Proof.
  intros Hn Hop Hf Hx Hy H0. rewrite <- (Z.mod_small x (2 ^ n)), <- (Z.mod_small y (2 ^ n)) in H0 |- * by done.
  assert (op (x mod 2 ^ n) (y mod 2 ^ n) = op (x mod 2 ^ n) (y mod 2 ^ n) mod 2 ^ n) as ->.
  { apply Z.bits_inj'. intros i Hi. destruct (Z.lt_ge_cases i n).
    - by rewrite Z.mod_pow2_bits_low by lia.
    - rewrite Z.mod_pow2_bits_high, Hop, !Z.mod_pow2_bits_high by lia. done. }
  apply Z.mod_pos_bound. lia.
Qed.

Lemma lor_below n x y : 0 <= n -> 0 <= x < 2 ^ n -> 0 <= y < 2 ^ n -> 0 <= Z.lor x y < 2 ^ n.
Proof. intros. apply (bits_below n x y Z.lor orb); try done; [intros; apply Z.lor_spec|apply Z.lor_nonneg; lia]. Qed.
Lemma lxor_below n x y : 0 <= n -> 0 <= x < 2 ^ n -> 0 <= y < 2 ^ n -> 0 <= Z.lxor x y < 2 ^ n.
Proof. intros. apply (bits_below n x y Z.lxor xorb); try done; [intros; apply Z.lxor_spec|apply Z.lxor_nonneg; lia]. Qed.

Lemma land_below n x y : 0 <= n -> 0 <= x < 2 ^ n -> 0 <= y < 2 ^ n -> 0 <= Z.land x y < 2 ^ n.
Proof. intros. apply (bits_below n x y Z.land andb); try done; [intros; apply Z.land_spec|apply Z.land_nonneg; lia]. Qed.

Lemma shiftr_below n x k : 0 <= n -> 0 <= k -> 0 <= x < 2 ^ n -> 0 <= Z.shiftr x k < 2 ^ n.
Proof.
  intros Hn Hk Hx. rewrite Z.shiftr_div_pow2 by lia. assert (0 < 2 ^ k) by (apply Z.pow_pos_nonneg; lia).
  split; [apply Z.div_pos; lia|]. apply Z.div_lt_upper_bound; [lia|nia].
Qed.

Lemma testbit_high w x i : 0 <= w <= i -> 0 <= x < 2 ^ w -> Z.testbit x i = false.
Proof. intros Hi Hx. rewrite <- (Z.mod_small x (2 ^ w)) by done. apply Z.mod_pow2_bits_high. lia. Qed.
