(* ===== verification/MbedBase64.v ===== *)
(** * The base64 codec of mbedTLS

    [src/internal/mbedtls/base64.c], which reads the certificates and keys the bridge is
    configured with: the constant-time character maps, the encoder and the two-pass
    decoder, with the grammar of the texts it accepts.  The decoder is proved to accept
    exactly that grammar, to write exactly the bytes it denotes and nothing else, and to
    read back what the encoder writes. *)

From S2P Require Import Prelude Bytes Base64Spec.

Definition SIZE_MAX : Z := 2 ^ 64 - 1.
Definition MBEDTLS_ERR_BASE64_BUFFER_TOO_SMALL : Z := -0x2A.
Definition MBEDTLS_ERR_BASE64_INVALID_CHARACTER : Z := -0x2C.
Definition MBEDTLS_ERR_ERROR_CORRUPTION_DETECTED : Z := -0x6E.

(** ** Constant-time character maps *)

Definition mbedtls_ct_uchar_in_range_if (low high c t : Z) : Z :=
  let low_mask := Z.shiftr (u32 (c - low)) 8 in
  let high_mask := Z.shiftr (u32 (high - c)) 8 in
  Z.land (u8 (Z.lnot (Z.lor low_mask high_mask))) t.

Definition mbedtls_ct_base64_enc_char (value : Z) : Z :=
  let digit := 0 in
  let digit := Z.lor digit (mbedtls_ct_uchar_in_range_if 0 25 value (u8 (65 + value))) in
  let digit := Z.lor digit (mbedtls_ct_uchar_in_range_if 26 51 value (u8 (97 + value - 26))) in
  let digit := Z.lor digit (mbedtls_ct_uchar_in_range_if 52 61 value (u8 (48 + value - 52))) in
  let digit := Z.lor digit (mbedtls_ct_uchar_in_range_if 62 62 value 43) in
  Z.lor digit (mbedtls_ct_uchar_in_range_if 63 63 value 47).

(** [signed char] of an [int]. *)
Definition s8 (x : Z) : Z := (x + 2 ^ 7) mod 2 ^ 8 - 2 ^ 7.

Definition mbedtls_ct_base64_dec_value (c : Z) : Z :=
  let val := 0 in
  let val := Z.lor val (mbedtls_ct_uchar_in_range_if 65 90 c (u8 (c - 65 + 0 + 1))) in
  let val := Z.lor val (mbedtls_ct_uchar_in_range_if 97 122 c (u8 (c - 97 + 26 + 1))) in
  let val := Z.lor val (mbedtls_ct_uchar_in_range_if 48 57 c (u8 (c - 48 + 52 + 1))) in
  let val := Z.lor val (mbedtls_ct_uchar_in_range_if 43 43 c (u8 (c - 43 + 62 + 1))) in
  let val := Z.lor val (mbedtls_ct_uchar_in_range_if 47 47 c (u8 (c - 47 + 63 + 1))) in
  s8 (val - 1).

(** ** Encoder *)

Abbreviation enc_char := mbedtls_ct_base64_enc_char.

(** [*p++ = c] *)
Definition put (st : list Z * Z) (c : Z) : outcome (list Z * Z) :=
  dst ← store st.1 st.2 [c]; mret (dst, st.2 + 1).

(** The loop over whole triples; the pointer [src] is the offset [i]. *)
Fixpoint encode_triples (fuel : nat) (st : list Z * Z) (src : list Z) (i n : Z)
    : outcome (list Z * Z * Z) :=
  match fuel with
  | O => NoFuel
  | S fuel =>
      if i <? n then
        C1 ← load8 src i;
        C2 ← load8 src (i + 1);
        C3 ← load8 src (i + 2);
        st ← put st (enc_char (Z.land (Z.shiftr C1 2) 0x3F));
        st ← put st (enc_char (Z.land (Z.shiftl (Z.land C1 3) 4 + Z.shiftr C2 4) 0x3F));
        st ← put st (enc_char (Z.land (Z.shiftl (Z.land C2 15) 2 + Z.shiftr C3 6) 0x3F));
        st ← put st (enc_char (Z.land C3 0x3F));
        encode_triples fuel st src (u64 (i + 3)) n
      else mret (st, i)
  end.

(** The last one or two bytes, with their padding. *)
Definition encode_rest (st : list Z * Z) (src : list Z) (i slen : Z) : outcome (list Z * Z) :=
  if i <? slen then
    C1 ← load8 src i;
    C2 ← (if u64 (i + 1) <? slen then load8 src (i + 1) else mret 0);
    st ← put st (enc_char (Z.land (Z.shiftr C1 2) 0x3F));
    st ← put st (enc_char (Z.land (Z.shiftl (Z.land C1 3) 4 + Z.shiftr C2 4) 0x3F));
    st ← (if u64 (i + 1) <? slen
          then put st (enc_char (Z.land (Z.shiftl (Z.land C2 15) 2) 0x3F))
          else put st 61);
    put st 61
  else mret st.

(** The result: the return code, [*olen] and the contents of [dst]. *)
Definition b64_result : Type := Z * Z * option (list Z).

Definition mbedtls_base64_encode (dst : option (list Z)) (dlen : Z) (src : list Z) (slen : Z)
    : outcome b64_result :=
  if slen =? 0 then mret (0, 0, dst) else
  let n := u64 (slen / 3 + (if slen mod 3 =? 0 then 0 else 1)) in
  if n >? (SIZE_MAX - 1) / 4 then mret (MBEDTLS_ERR_BASE64_BUFFER_TOO_SMALL, SIZE_MAX, dst) else
  let n := u64 (n * 4) in
  match dst with
  | Some d =>
      if dlen <? u64 (n + 1) then mret (MBEDTLS_ERR_BASE64_BUFFER_TOO_SMALL, u64 (n + 1), dst) else
      let n := slen / 3 * 3 in
      '(st, i) ← encode_triples (S (Z.to_nat slen)) (d, 0) src 0 n;
      '(d, p) ← encode_rest st src i slen;
      d ← store d p [0];
      mret (0, p, Some d)
  | None => mret (MBEDTLS_ERR_BASE64_BUFFER_TOO_SMALL, u64 (n + 1), None)
  end.

(** ** Decoder *)

Abbreviation dec_value := mbedtls_ct_base64_dec_value.

Fixpoint skip_spaces (fuel : nat) (src : list Z) (slen i : Z) (spaces_present : bool)
    : outcome (Z * bool) :=
  match fuel with
  | O => NoFuel
  | S fuel =>
      if i <? slen then
        c ← load8 src i;
        if c =? 32 then skip_spaces fuel src slen (i + 1) true else mret (i, spaces_present)
      else mret (i, spaces_present)
  end.

(** The first pass: an error, or the index it ended at, the number of characters and the
    number of equal signs. *)
Fixpoint first_pass (fuel : nat) (src : list Z) (slen i n equals : Z)
    : outcome (Z + Z * Z * Z) :=
  match fuel with
  | O => NoFuel
  | S fuel =>
      if i <? slen then
        '(i, spaces_present) ← skip_spaces (S (Z.to_nat (slen - i))) src slen i false;
        if i =? slen then mret (inr (i, n, equals)) else
        c ← load8 src i;
        crlf ← (if (size_sub slen i >=? 2) && (c =? 13)
                then c' ← load8 src (i + 1); mret (c' =? 10) else mret false);
        if (crlf : bool) then first_pass fuel src slen (i + 1) n equals else
        if c =? 10 then first_pass fuel src slen (i + 1) n equals else
        if (spaces_present : bool) then mret (inl MBEDTLS_ERR_BASE64_INVALID_CHARACTER) else
        if c >? 127 then mret (inl MBEDTLS_ERR_BASE64_INVALID_CHARACTER) else
        if c =? 61 then
          let equals := u32 (equals + 1) in
          if equals >? 2 then mret (inl MBEDTLS_ERR_BASE64_INVALID_CHARACTER)
          else first_pass fuel src slen (i + 1) (u64 (n + 1)) equals
        else if negb (equals =? 0) then mret (inl MBEDTLS_ERR_BASE64_INVALID_CHARACTER)
        else if dec_value c <? 0 then mret (inl MBEDTLS_ERR_BASE64_INVALID_CHARACTER)
        else first_pass fuel src slen (i + 1) (u64 (n + 1)) equals
      else mret (inr (i, n, equals))
  end.

(** The second pass; [i] counts the characters left, the pointer [src] is the offset [s]. *)
Fixpoint second_pass (i : nat) (src : list Z) (s x digits : Z) (st : list Z * Z)
    : outcome (Z * Z * (list Z * Z)) :=
  match i with
  | O => mret (x, digits, st)
  | S i =>
      c ← load8 src s;
      if (c =? 13) || (c =? 10) || (c =? 32) then second_pass i src (s + 1) x digits st else
      if c =? 61 then mret (x, digits, st) else
      let x := u32 (Z.shiftl x 6) in
      let x := Z.lor x (u32 (dec_value c)) in
      if u32 (digits + 1) =? 4 then
        st ← put st (MBEDTLS_BYTE_2 x);
        st ← put st (MBEDTLS_BYTE_1 x);
        st ← put st (MBEDTLS_BYTE_0 x);
        second_pass i src (s + 1) x 0 st
      else second_pass i src (s + 1) x (u32 (digits + 1)) st
  end.

Definition last_digits (x digits : Z) (st : list Z * Z) : outcome (list Z * Z) :=
  if digits =? 3 then
    st ← put st (MBEDTLS_BYTE_2 (u32 (Z.shiftl x 6)));
    put st (MBEDTLS_BYTE_1 (u32 (Z.shiftl x 6)))
  else if digits =? 2 then put st (MBEDTLS_BYTE_2 (u32 (Z.shiftl x 12)))
  else mret st.

(** [olen] is the value [*olen] has before the call. *)
Definition mbedtls_base64_decode (dst : option (list Z)) (dlen olen : Z) (src : list Z) (slen : Z)
    : outcome b64_result :=
  r ← first_pass (S (Z.to_nat slen)) src slen 0 0 0;
  match r with
  | inl err => mret (err, olen, dst)
  | inr (i, n, equals) =>
      if (size_sub n equals) mod 4 =? 1 then mret (MBEDTLS_ERR_BASE64_INVALID_CHARACTER, olen, dst) else
      if negb (n mod 4 =? 0) then mret (MBEDTLS_ERR_BASE64_INVALID_CHARACTER, olen, dst) else
      let olen := size_sub (n / 4 * 3) equals in
      if (negb (olen =? 0) && match dst with None => true | Some _ => false end) || (dlen <? olen)
      then mret (MBEDTLS_ERR_BASE64_BUFFER_TOO_SMALL, olen, dst) else
      '(x, digits, st) ← second_pass (Z.to_nat i) src 0 0 0 (default [] dst, 0);
      '(d, p) ← last_digits x digits st;
      let dst := match dst with Some _ => Some d | None => None end in
      if negb (olen =? p) then mret (MBEDTLS_ERR_ERROR_CORRUPTION_DETECTED, olen, dst) else
      mret (0, olen, dst)
  end.

(** ** The accepted texts *)

(** Line breaks are LF or CR LF; blanks may stand before them and at the end. *)
Inductive eol : list Z -> Prop :=
  | eol_lf : eol [10]
  | eol_crlf : eol [13; 10].

Inductive laid_out : list Z -> list Z -> Prop :=
  | lo_end k : laid_out (replicate k 32) []
  | lo_break k e t cs : eol e -> laid_out t cs -> laid_out (replicate k 32 ++ e ++ t) cs
  | lo_char c t cs :
      c <> 32 -> c <> 10 -> c <> 13 -> laid_out t cs -> laid_out (c :: t) (c :: cs).

(** The bytes a sequence of digits stands for. *)
Fixpoint dec_digits (ds : list Z) : list Z :=
  match ds with
  | d0 :: d1 :: d2 :: d3 :: ds => dec4 d0 d1 d2 d3 ++ dec_digits ds
  | [d0; d1; d2] => take 2 (dec4 d0 d1 d2 0)
  | [d0; d1] => take 1 (dec4 d0 d1 0 0)
  | _ => []
  end.

(** [text] is base64 for [out]. *)
Definition is_base64 (text out : list Z) : Prop :=
  exists cs ds (pad : nat), laid_out text (cs ++ replicate pad 61) /\
    mapM (b64_val false) cs = Some ds /\ (pad <= 2)%nat /\ (zlen cs + Z.of_nat pad) mod 4 = 0 /\
    out = dec_digits ds.

(** The digits of a sequence of bytes, and its encoding. *)
Fixpoint enc_bytes (bs : list Z) : list Z :=
  match bs with
  | b0 :: b1 :: b2 :: bs => enc3 b0 b1 b2 ++ enc_bytes bs
  | [b0; b1] => take 3 (enc3 b0 b1 0)
  | [b0] => take 2 (enc3 b0 0 0)
  | [] => []
  end.

Definition padding (bs : list Z) : nat :=
  if zlen bs mod 3 =? 1 then 2 else if zlen bs mod 3 =? 2 then 1 else 0.

Definition std_encode (bs : list Z) : list Z :=
  map (b64_char false) (enc_bytes bs) ++ replicate (padding bs) 61.

(** ** Character maps *)

Lemma enc_char_spec k : 0 <= k < 64 -> enc_char k = b64_char false k.
Proof.
  assert (all_below 64 (fun k => enc_char k =? b64_char false k) = true) as H by reflexivity.
  intros Hk. apply Z.eqb_eq. exact (all_below_spec _ _ H k Hk).
Qed.

Lemma dec_value_spec c : is_byte c -> dec_value c = default (-1) (b64_val false c).
Proof.
  assert (all_bytes (fun c => dec_value c =? default (-1) (b64_val false c)) = true) as H
    by (vm_compute; reflexivity).
  intros Hc. apply Z.eqb_eq. exact (all_bytes_spec _ H c Hc).
Qed.

Lemma dec_value_neg c : is_byte c -> (dec_value c <? 0) = bool_decide (b64_val false c = None).
Proof.
  intros Hc. rewrite dec_value_spec by done. destruct (b64_val false c) as [k|] eqn:E; [|done].
  apply b64_val_range in E. transitivity false; [|done].
  apply Z.ltb_ge. simpl. lia.
Qed.

(** ** Writing at the front of a buffer *)

(** The destination after [out] was written to [d], with the pointer behind it. *)
Definition written (d out : list Z) : list Z * Z := (splice d 0 out, zlen out).

Lemma put_written d out c :
  zlen out < zlen d -> put (written d out) c = Done (written d (out ++ [c])).
Proof.
  intros H. pose proof (zlen_nonneg out). unfold put, written. cbn [fst snd].
  rewrite store_splice; [|lia|rewrite zlen_splice by lia; rewrite zlen_cons, zlen_nil; lia].
  rewrite bind_Done. cbv [mret outcome_ret].
  pose proof (splice_splice d 0 out [c]) as E. rewrite Z.add_0_l in E. rewrite E by zlens.
  do 2 f_equal. zlens.
Qed.

Lemma written_nil d : written d [] = (d, 0).
Proof. unfold written. rewrite splice_nil by lia. done. Qed.

(** ** Reading at an offset *)

Lemma zdrop_next i (c : Z) (src r : list Z) :
  0 <= i -> zdrop i src = c :: r ->
  load8 src i = Done c /\ zdrop (i + 1) src = r /\ i < zlen src.
Proof.
  intros Hi H. assert (i < zlen src).
  { assert (zlen (zdrop i src) = 1 + zlen r) as L by (rewrite H; zlens).
    pose proof (zlen_nonneg r). zlens. }
  rewrite (zdrop_cons src i) in H by lia. injection H as Hc Hr.
  rewrite load8_Done by lia. by rewrite Hc.
Qed.

(** ** Encoder *)

Lemma triple_bits b0 b1 b2 :
  is_byte b0 -> is_byte b1 -> is_byte b2 ->
  enc3 b0 b1 b2 =
    [Z.land (Z.shiftr b0 2) 0x3F; Z.land (Z.shiftl (Z.land b0 3) 4 + Z.shiftr b1 4) 0x3F;
     Z.land (Z.shiftl (Z.land b1 15) 2 + Z.shiftr b2 6) 0x3F; Z.land b2 0x3F].
Proof.
  unfold is_byte. intros H0 H1 H2. unfold enc3.
  change 0x3F with (Z.ones 6). change (Z.land b0 3) with (Z.land b0 (Z.ones 2)).
  change (Z.land b1 15) with (Z.land b1 (Z.ones 4)). rewrite !Z.land_ones by lia.
  rewrite !Z.shiftr_div_pow2, !Z.shiftl_mul_pow2 by lia.
  list_eq; try reflexivity; Z.div_mod_to_equations; lia.
Qed.

Lemma enc3_range b0 b1 b2 :
  is_byte b0 -> is_byte b1 -> is_byte b2 -> Forall (fun k => 0 <= k < 64) (enc3 b0 b1 b2).
Proof.
  intros H0 H1 H2. destruct (enc3_dec4 b0 b1 b2 H0 H1 H2) as (k0 & k1 & k2 & k3 & -> & R & _).
  destruct R as (R0 & R1 & R2 & R3). by rewrite !Forall_cons, Forall_nil.
Qed.

(** Unfolds the definition of a run of [put]s on a written buffer. *)
Ltac puts :=
  repeat (rewrite put_written by (rewrite ?zlen_app, ?zlen_cons, ?zlen_nil; lia); rewrite bind_Done);
  try (rewrite put_written by (rewrite ?zlen_app, ?zlen_cons, ?zlen_nil; lia));
  rewrite <- ?app_assoc; cbn [app].

Lemma encode_triples_spec d src n l : zlen l mod 3 = 0 ->
  forall fuel out i rest, is_bytes l -> 0 <= i -> zdrop i src = l ++ rest -> n = i + zlen l ->
    n + 3 < 2 ^ 64 -> 3 * zlen out + 4 * zlen l <= 3 * zlen d -> zlen l < Z.of_nat fuel ->
    encode_triples fuel (written d out) src i n =
      Done (written d (out ++ map (b64_char false) (enc_bytes l)), n).
Proof.
  revert l. refine (list_ind3 _ _ _).
  - intros fuel out i rest _ Hi Hs -> Hm Hc Hf. destruct fuel as [|fuel]; [zlens|].
    cbn [encode_triples]. rewrite zlen_nil, Z.add_0_r, Z.ltb_irrefl. cbn [enc_bytes map].
    by rewrite app_nil_r.
  - intros a b c l IH fuel out i rest Hb Hi Hs Hn Hm Hc Hf.
    unfold is_bytes in Hb. rewrite !Forall_cons in Hb. destruct Hb as (Ha & Hb & Hd & Hl).
    pose proof (zlen_nonneg l). rewrite !zlen_cons in *. destruct fuel as [|fuel]; [lia|].
    cbn [encode_triples]. rewrite (proj2 (Z.ltb_lt i n)) by lia. cbn [app] in Hs.
    destruct (zdrop_next _ _ _ _ Hi Hs) as (-> & Hs1 & _).
    destruct (zdrop_next (i + 1) _ _ _ ltac:(lia) Hs1) as (-> & Hs2 & _).
    replace (i + 1 + 1) with (i + 2) in Hs2 by lia.
    destruct (zdrop_next (i + 2) _ _ _ ltac:(lia) Hs2) as (-> & Hs3 & _).
    replace (i + 2 + 1) with (i + 3) in Hs3 by lia. rewrite !bind_Done. puts.
    unfold u64. rewrite Z.mod_small by lia.
    erewrite IH; [|done|lia|exact Hs3|lia|lia|rewrite ?zlen_app, ?zlen_cons, ?zlen_nil; lia|lia].
    cbn [enc_bytes]. pose proof (enc3_range a b c Ha Hb Hd) as R.
    rewrite triple_bits in * by done. rewrite !Forall_cons in R. destruct R as (R0 & R1 & R2 & R3 & _).
    rewrite !enc_char_spec by assumption. rewrite map_app. cbn [map].
    by rewrite <- app_assoc.
Qed.

Lemma padding_app l k : zlen l mod 3 = 0 -> padding (l ++ k) = padding k.
Proof.
  intros H. unfold padding. rewrite zlen_app.
  replace ((zlen l + zlen k) mod 3) with (zlen k mod 3); [done|Z.div_mod_to_equations; lia].
Qed.

Lemma enc_bytes_app l : zlen l mod 3 = 0 -> forall k, enc_bytes (l ++ k) = enc_bytes l ++ enc_bytes k.
Proof. revert l. refine (list_ind3 _ _ _); [done|]. intros a b c l IH k. cbn. by rewrite IH. Qed.

Lemma std_encode_app l k :
  zlen l mod 3 = 0 -> std_encode (l ++ k) = map (b64_char false) (enc_bytes l) ++ std_encode k.
Proof.
  intros H. unfold std_encode. by rewrite padding_app, enc_bytes_app, map_app, <- app_assoc.
Qed.

(** A list is whole triples and a rest of at most two. *)
Lemma split_triples {A} (l : list A) :
  exists l1 l2, l = l1 ++ l2 /\ zlen l1 = zlen l / 3 * 3 /\ zlen l1 mod 3 = 0 /\
    zlen l2 = zlen l mod 3.
Proof.
  pose proof (zlen_nonneg l). exists (ztake (zlen l / 3 * 3) l), (zdrop (zlen l / 3 * 3) l).
  rewrite ztake_zdrop, zlen_ztake, zlen_zdrop by (Z.div_mod_to_equations; lia).
  split_and!; try done; Z.div_mod_to_equations; lia.
Qed.

Lemma zlen_std_encode bs :
  zlen (std_encode bs) = 4 * (zlen bs / 3 + (if zlen bs mod 3 =? 0 then 0 else 1)).
Proof.
  destruct (split_triples bs) as (l & k & -> & Hl & Hm & Hk). rewrite std_encode_app by done.
  rewrite !zlen_app, zlen_map in *. rewrite <- Hk.
  assert (3 * zlen (enc_bytes l) = 4 * zlen l) as E.
  { clear -Hm. revert l Hm. refine (list_ind3 _ _ _); [done|]. intros a b c l IH.
    cbn [enc_bytes]. unfold enc3. rewrite zlen_app, !zlen_cons, zlen_nil. lia. }
  assert (zlen k < 3) by (rewrite Hk; apply Z.mod_pos_bound; lia).
  assert (zlen (std_encode k) = if zlen k =? 0 then 0 else 4) as ->.
  { destruct k as [|b0 [|b1 [|? k]]]; [reflexivity..|]. rewrite !zlen_cons in *.
    pose proof (zlen_nonneg k). lia. }
  split_if; Z.div_mod_to_equations; lia.
Qed.

Lemma zlen_enc_bytes_triples l : zlen l mod 3 = 0 -> 3 * zlen (enc_bytes l) = 4 * zlen l.
Proof.
  intros Hm. pose proof (zlen_std_encode l) as E. unfold std_encode, padding in E. rewrite Hm in E.
  cbn in E. rewrite app_nil_r, zlen_map in E. Z.div_mod_to_equations; lia.
Qed.

Lemma encode_rest_spec d src out i slen l rest :
  is_bytes l -> 0 <= i -> zdrop i src = l ++ rest -> slen = i + zlen l -> zlen l < 3 ->
  slen < 2 ^ 64 -> zlen out + zlen (std_encode l) <= zlen d ->
  encode_rest (written d out) src i slen = Done (written d (out ++ std_encode l)).
Proof.
  intros Hb Hi Hs -> Hl Hm Hc. unfold encode_rest.
  destruct l as [|b0 [|b1 [|? l]]]; rewrite ?zlen_cons, ?zlen_nil in *.
  - rewrite Z.add_0_r, Z.ltb_irrefl. cbn. by rewrite app_nil_r.
  - change (zlen (std_encode [b0])) with 4 in Hc.
    destruct (zdrop_next _ _ _ _ Hi Hs) as (-> & Hs1 & _). unfold u64. rewrite Z.mod_small by lia.
    rewrite (proj2 (Z.ltb_lt i _)), (proj2 (Z.ltb_ge (i + 1) _)) by lia. rewrite !bind_Done.
    change (mret 0 ≫= ?f) with (f 0). cbv beta. puts.
    unfold is_bytes in Hb. rewrite Forall_singleton in Hb. assert (is_byte 0) as H0 by done.
    pose proof (enc3_range b0 0 0 Hb H0 H0) as R. unfold std_encode. cbn [enc_bytes].
    rewrite triple_bits in * by done. rewrite !Forall_cons in R. destruct R as (R0 & R1 & _).
    by rewrite !enc_char_spec by assumption.
  - change (zlen (std_encode [b0; b1])) with 4 in Hc.
    destruct (zdrop_next _ _ _ _ Hi Hs) as (-> & Hs1 & _). unfold u64. rewrite Z.mod_small by lia.
    destruct (zdrop_next (i + 1) _ _ _ ltac:(lia) Hs1) as (-> & _ & _).
    rewrite (proj2 (Z.ltb_lt i _)), (proj2 (Z.ltb_lt (i + 1) _)) by lia. rewrite !bind_Done. puts.
    unfold is_bytes in Hb. rewrite !Forall_cons in Hb. destruct Hb as (H0 & H1 & _).
    assert (is_byte 0) as H2 by done.
    pose proof (enc3_range b0 b1 0 H0 H1 H2) as R. unfold std_encode. cbn [enc_bytes].
    rewrite triple_bits in * by done. change (Z.shiftr 0 6) with 0 in *. rewrite Z.add_0_r in *.
    rewrite !Forall_cons in R. destruct R as (R0 & R1 & R2 & _).
    by rewrite !enc_char_spec by assumption.
  - pose proof (zlen_nonneg l). lia.
Qed.

Lemma encode_body d src slen :
  is_bytes src -> 0 <= slen <= zlen src -> slen + 3 < 2 ^ 64 ->
  zlen (std_encode (ztake slen src)) < zlen d ->
  ('(st, i) ← encode_triples (S (Z.to_nat slen)) (d, 0) src 0 (slen / 3 * 3);
   '(d, p) ← encode_rest st src i slen;
   d ← store d p [0];
   mret (0, p, Some d)) =
  Done (0, zlen (std_encode (ztake slen src)), Some (splice d 0 (std_encode (ztake slen src) ++ [0]))).
Proof.
  intros Hb Hs Hm Hc. set (bs := ztake slen src) in *.
  assert (zlen bs = slen) as Lb by (unfold bs; zlens).
  destruct (split_triples bs) as (l & k & E & Hl & Hl3 & Hk).
  assert (is_bytes bs) as Bb by (unfold bs; auto with zlist).
  rewrite E in Bb. apply Forall_app in Bb as [Bl Bk].
  assert (zdrop 0 src = l ++ k ++ zdrop slen src) as Es.
  { rewrite zdrop_0, app_assoc, <- E. symmetry. apply ztake_zdrop. }
  pose proof (zlen_nonneg k). pose proof (zlen_nonneg l).
  assert (zlen bs = zlen l + zlen k) as Lk by (rewrite E; zlens).
  rewrite E, std_encode_app in Hc |- * by done. set (o1 := map _ (enc_bytes l)) in *.
  assert (3 * zlen o1 = 4 * zlen l) as Lo
    by (unfold o1; rewrite zlen_map; by apply zlen_enc_bytes_triples).
  rewrite zlen_app in Hc. pose proof (zlen_nonneg (std_encode k)).
  rewrite <- (written_nil d), <- Lb, <- Hl.
  rewrite (encode_triples_spec d src (zlen l) l Hl3 _ [] 0 (k ++ zdrop slen src));
    [|done|lia|done|lia|lia|rewrite (@zlen_nil Z); lia|lia]. rewrite bind_Done. cbv beta iota.
  assert (zdrop (zlen l) src = k ++ zdrop slen src) as Es'.
  { rewrite zdrop_0 in Es. rewrite Es at 1. rewrite zdrop_app_r by lia. by rewrite Z.sub_diag, zdrop_0. }
  rewrite (encode_rest_spec d src _ _ _ k (zdrop slen src)); [|done|lia|done|lia| |lia|cbn [app]; fold o1; lia].
  2: { rewrite Hk. apply Z.mod_pos_bound. lia. }
  rewrite bind_Done. cbv beta iota. cbn [app]. fold o1. unfold written.
  rewrite store_splice; [|zlens|rewrite zlen_splice; zlens]. rewrite bind_Done.
  pose proof (splice_splice d 0 (o1 ++ std_encode k) [0]) as X. rewrite Z.add_0_l in X.
  rewrite X by zlens. by rewrite zlen_app.
Qed.

(** The encoder computes the standard encoding and its length, terminates the text with a
    NUL, and touches the destination only when it holds them. *)
Lemma base64_encode_spec dst dlen src slen :
  is_bytes src -> 0 <= slen <= zlen src -> slen < 2 ^ 64 ->
  (forall d, dst = Some d -> dlen <= zlen d) ->
  let text := std_encode (ztake slen src) in
  mbedtls_base64_encode dst dlen src slen = Done
    (if slen =? 0 then (0, 0, dst)
     else if 2 ^ 64 <=? zlen text + 1 then (MBEDTLS_ERR_BASE64_BUFFER_TOO_SMALL, SIZE_MAX, dst)
     else match dst with
          | Some d => if zlen text <? dlen then (0, zlen text, Some (splice d 0 (text ++ [0])))
                      else (MBEDTLS_ERR_BASE64_BUFFER_TOO_SMALL, zlen text + 1, dst)
          | None => (MBEDTLS_ERR_BASE64_BUFFER_TOO_SMALL, zlen text + 1, None)
          end).
Proof.
  intros Hb Hs Hm Hd text. unfold mbedtls_base64_encode. destruct (slen =? 0) eqn:E0; [done|].
  bool_to_prop. assert (zlen (ztake slen src) = slen) as Lt by zlens.
  pose proof (zlen_std_encode (ztake slen src)) as Lx. rewrite Lt in Lx. fold text in Lx.
  set (n := slen / 3 + _) in *. assert (0 <= n <= 2 ^ 63) as Hn
    by (unfold n; split_if; Z.div_mod_to_equations; lia).
  assert (forall x, 0 <= x < 2 ^ 64 -> u64 x = x) as U by (intros; by apply Z.mod_small).
  cbv zeta. rewrite (U n) by lia. unfold SIZE_MAX at 1.
  destruct (n >? (2 ^ 64 - 1 - 1) / 4) eqn:E1; bool_to_prop.
  { rewrite (proj2 (Z.leb_le _ _)); [done|]. Z.div_mod_to_equations; lia. }
  change ((2 ^ 64 - 1 - 1) / 4) with (2 ^ 62 - 1) in E1.
  rewrite (proj2 (Z.leb_gt _ _)), (U (n * 4)), U by lia. replace (n * 4 + 1) with (zlen text + 1) by lia.
  destruct dst as [d|]; [|done]. specialize (Hd d eq_refl).
  destruct (dlen <? zlen text + 1) eqn:E2; bool_to_prop.
  { by rewrite (proj2 (Z.ltb_ge _ _)) by lia. }
  rewrite (proj2 (Z.ltb_lt (zlen text) _)) by lia. apply encode_body; [done..| |fold text; lia].
  assert (slen <= 3 * n) by (unfold n; split_if; Z.div_mod_to_equations; lia). lia.
Qed.

(** ** The first pass

    [layout] strips the permitted white space, [tally] counts what is left; the first pass
    is their composition. *)

Fixpoint layout (blank : bool) (t : list Z) : option (list Z) :=
  match t with
  | [] => Some []
  | c :: t =>
      if c =? 32 then layout true t
      else if c =? 10 then layout false t
      else if c =? 13 then
        match t with
        | c' :: _ => if c' =? 10 then layout false t else None
        | [] => None
        end
      else if blank then None
      else cons c <$> layout false t
  end.

Fixpoint tally (n equals : Z) (cs : list Z) : option (Z * Z) :=
  match cs with
  | [] => Some (n, equals)
  | c :: cs =>
      if c =? 61 then if equals + 1 >? 2 then None else tally (n + 1) (equals + 1) cs
      else if negb (equals =? 0) then None
      else match b64_val false c with None => None | Some _ => tally (n + 1) equals cs end
  end.

Lemma layout_blanks b k t : layout b (replicate k 32 ++ t) = layout (b || bool_decide (0 < k)%nat) t.
Proof.
  revert b. induction k as [|k IH]; intros b; cbn [replicate app].
  - by rewrite orb_false_r.
  - cbn [layout]. rewrite Z.eqb_refl, IH. by rewrite orb_true_r.
Qed.

Lemma layout_weaken t cs : layout true t = Some cs -> layout false t = Some cs.
Proof. destruct t as [|c t]; cbn [layout]; [done|]. by repeat case_match. Qed.

(** The functional and the inductive description of the layout agree. *)
Lemma laid_out_layout t cs : laid_out t cs -> layout false t = Some cs.
Proof.
  induction 1 as [k|k e t cs He _ IH|c t cs H1 H2 H3 _ IH].
  - rewrite <- (app_nil_r (replicate k 32)). by rewrite layout_blanks.
  - rewrite layout_blanks. by destruct He, (false || bool_decide (0 < k)%nat); cbn.
  - cbn [layout]. apply Z.eqb_neq in H1 as ->, H2 as ->, H3 as ->. by rewrite IH.
Qed.

Lemma layout_laid_out t : forall cs, layout false t = Some cs -> laid_out t cs.
Proof.
  enough (forall b cs, layout b t = Some cs ->
    if b then exists k e t', t = replicate k 32 ++ e ++ t' /\
        ((e = [] /\ t' = [] /\ cs = []) \/ eol e /\ laid_out t' cs)
    else laid_out t cs) as H by (intros cs; apply (H false)).
  assert (forall (b : bool) e t' cs, eol e -> laid_out t' cs ->
    if b then exists k e' t'', e ++ t' = replicate k 32 ++ e' ++ t'' /\
        ((e' = [] /\ t'' = [] /\ cs = []) \/ eol e' /\ laid_out t'' cs)
    else laid_out (e ++ t') cs) as Hbreak.
  { intros [] e t' cs He Ht; [exists 0%nat, e, t'; eauto|by apply (lo_break 0 e)]. }
  induction t as [t IH] using (induction_ltof1 _ (@length Z)). unfold ltof in IH.
  destruct t as [|c t]; intros b cs; cbn [layout].
  { intros [= <-]. destruct b; [exists 0%nat, [], []; naive_solver|apply (lo_end 0)]. }
  destruct (c =? 32) eqn:E32.
  { apply Z.eqb_eq in E32 as ->. intros (k & e & t' & -> & H)%IH; [|simpl; lia].
    destruct b; [exists (S k), e, t'; eauto|].
    destruct H as [(-> & -> & ->)|[He Ht]]; [|by apply (lo_break (S k))].
    rewrite !app_nil_r. apply (lo_end (S k)). }
  destruct (c =? 10) eqn:E10.
  { apply Z.eqb_eq in E10 as ->. intros H%IH; [|simpl; lia].
    apply (Hbreak b [10]); [constructor|done]. }
  destruct (c =? 13) eqn:E13.
  { apply Z.eqb_eq in E13 as ->. destruct t as [|c' t]; [done|].
    destruct (c' =? 10) eqn:E; [|done]. apply Z.eqb_eq in E as ->. intros H.
    apply (Hbreak b [13; 10]); [constructor|]. by apply (IH t ltac:(simpl; lia) false). }
  destruct b; [done|]. bool_to_prop. intros (cs' & Ht & ->)%fmap_Some.
  apply lo_char; [done..|]. by apply (IH t ltac:(simpl; lia) false).
Qed.

Lemma tally_spec cs n e :
  tally 0 0 cs = Some (n, e) ->
  exists cs0 ds, cs = cs0 ++ replicate (Z.to_nat e) 61 /\ mapM (b64_val false) cs0 = Some ds /\
    0 <= e <= 2 /\ n = zlen cs.
Proof.
  enough (forall n0 e0, 0 <= e0 -> tally n0 e0 cs = Some (n, e) ->
    exists cs0 ds, cs = cs0 ++ replicate (Z.to_nat (e - e0)) 61 /\ (0 < e0 -> cs0 = []) /\
      mapM (b64_val false) cs0 = Some ds /\ e0 <= e /\ (e0 <= 2 -> e <= 2) /\ n = n0 + zlen cs) as H.
  { intros (cs0 & ds & E & _ & Hd & H1 & H2 & ->)%H; [|lia]. rewrite Z.sub_0_r in E.
    exists cs0, ds. split_and!; try done; lia. }
  induction cs as [|c cs IH]; intros n0 e0 He; cbn [tally].
  { intros [= <- <-]. exists [], []. rewrite Z.sub_diag. split_and!; try done; try lia.
    rewrite zlen_nil. lia. }
  rewrite zlen_cons. destruct (c =? 61) eqn:E61.
  - destruct (e0 + 1 >? 2) eqn:E2; [done|]. bool_to_prop. subst c.
    intros (cs0 & ds & -> & H0 & Hd & H1 & H2 & ->)%IH; [|lia].
    rewrite H0 in * by lia. exists [], []. cbn [app].
    replace (Z.to_nat (e - e0)) with (S (Z.to_nat (e - (e0 + 1)))) by lia.
    split_and!; try done; lia.
  - destruct (e0 =? 0) eqn:E0; [|done]. cbn [negb]. bool_to_prop. subst e0.
    destruct (b64_val false c) as [v|] eqn:Ev; [|done].
    intros (cs0 & ds & -> & H0 & Hd & H1 & H2 & ->)%IH; [|lia].
    exists (c :: cs0), (v :: ds). cbn [mapM]. rewrite Ev, Hd. split_and!; try done; lia.
Qed.

Lemma tally_complete cs0 ds pad :
  mapM (b64_val false) cs0 = Some ds -> (pad <= 2)%nat ->
  tally 0 0 (cs0 ++ replicate pad 61) = Some (zlen cs0 + Z.of_nat pad, Z.of_nat pad).
Proof.
  intros Hd Hp. enough (forall n0, tally n0 0 (cs0 ++ replicate pad 61)
    = Some (n0 + zlen cs0 + Z.of_nat pad, Z.of_nat pad)) as H by apply (H 0).
  revert ds Hd. induction cs0 as [|c cs0 IH]; intros ds Hd n0; cbn [app].
  - destruct pad as [|[|[|?]]]; [..|lia]; cbn [replicate app tally]; cbn -[zlen Z.add];
      apply (f_equal Some), (f_equal2 pair); unfold zlen; simpl; lia.
  - cbn [mapM tally] in *. destruct (b64_val false c) as [v|] eqn:Ev; [|done].
    destruct (c =? 61) eqn:E; [bool_to_prop; subst; discriminate|]. cbn [Z.eqb negb].
    destruct (mapM (b64_val false) cs0) as [ds'|]; [|done].
    erewrite IH by done. rewrite zlen_cons. apply (f_equal Some), (f_equal2 pair); lia.
Qed.

Lemma split_blanks (t : list Z) :
  exists k t', t = replicate k 32 ++ t' /\ match t' with c :: _ => c <> 32 | [] => True end.
Proof.
  induction t as [|c t (k & t' & -> & H)]; [by exists 0%nat, []|].
  destruct (decide (c = 32)) as [->|N]; [by exists (S k), t'|].
  by exists 0%nat, (c :: replicate k 32 ++ t').
Qed.

Lemma skip_spaces_spec src slen k t rest : forall fuel i b,
  match t with c :: _ => c <> 32 | [] => True end ->
  0 <= i -> zdrop i src = replicate k 32 ++ t ++ rest -> slen = i + Z.of_nat k + zlen t ->
  (k < fuel)%nat ->
  skip_spaces fuel src slen i b = Done (i + Z.of_nat k, b || bool_decide (0 < k)%nat).
Proof.
  induction k as [|k IH]; intros [|fuel] i b Ht Hi Hs Hl Hf; try lia; cbn [skip_spaces].
  - rewrite orb_false_r. cbn [replicate app] in Hs. change (Z.of_nat 0) with 0 in *.
    destruct t as [|c t].
    + change (@zlen Z []) with 0 in Hl. rewrite (proj2 (Z.ltb_ge _ _)) by lia. by rewrite Z.add_0_r.
    + rewrite zlen_cons in Hl. pose proof (zlen_nonneg t). rewrite (proj2 (Z.ltb_lt _ _)) by lia.
      destruct (zdrop_next _ _ _ _ Hi Hs) as (-> & _). rewrite bind_Done.
      apply Z.eqb_neq in Ht as ->. by rewrite Z.add_0_r.
  - pose proof (zlen_nonneg t). rewrite (proj2 (Z.ltb_lt _ _)) by lia.
    destruct (zdrop_next _ _ _ _ Hi Hs) as (-> & Hs1 & _). rewrite bind_Done. cbn [Z.eqb Pos.eqb].
    rewrite (IH fuel (i + 1) true) by (done || lia). do 2 f_equal; [lia|by rewrite orb_true_r].
Qed.

Lemma bytes_not_digit c : 127 < c -> b64_val false c = None.
Proof.
  intros H. unfold b64_val, between. repeat case_match; bool_to_prop; simplify_eq; lia || done.
Qed.

Notation scanned slen o :=
  (Done (match o with
         | Some (n, e) => inr (slen, n, e)
         | None => inl MBEDTLS_ERR_BASE64_INVALID_CHARACTER
         end)) (only parsing).

Lemma first_pass_spec src slen : forall fuel t i n equals rest,
  is_bytes t -> 0 <= i -> zdrop i src = t ++ rest -> slen = i + zlen t -> slen < 2 ^ 64 ->
  0 <= n <= i -> 0 <= equals <= 2 -> zlen t < Z.of_nat fuel ->
  first_pass fuel src slen i n equals = scanned slen (layout false t ≫= tally n equals).
Proof.
  induction fuel as [|fuel IH]; intros t i n equals rest Hb Hi Hs Hl Hm Hn He Hf.
  { pose proof (zlen_nonneg t). lia. }
  cbn [first_pass]. destruct (i <? slen) eqn:Ei; bool_to_prop.
  2: { destruct t as [|c t]; [|rewrite zlen_cons in *; pose proof (zlen_nonneg t); lia].
       change (@zlen Z []) with 0 in *. by replace slen with i by lia. }
  destruct (split_blanks t) as (k & t' & -> & Ht).
  rewrite zlen_app, zlen_replicate in *. rewrite <- app_assoc in Hs.
  pose proof (zlen_nonneg t'). rewrite (skip_spaces_spec src slen k t' rest) by (done || lia).
  rewrite bind_Done. cbv beta iota. rewrite layout_blanks. cbn [orb]. set (b := bool_decide _).
  assert (zdrop (i + Z.of_nat k) src = t' ++ rest) as Hs'.
  { rewrite <- zdrop_zdrop, Hs by lia. rewrite zdrop_app_r, zlen_replicate by (rewrite zlen_replicate; lia).
    by rewrite Z.sub_diag, zdrop_0. }
  apply Forall_app in Hb as [_ Hb]. clear Hs. set (j := i + Z.of_nat k) in *.
  assert (n <= j) by lia. assert (0 <= j) by lia.
  destruct t' as [|c t]; [change (@zlen Z []) with 0 in *; rewrite (proj2 (Z.eqb_eq _ _)) by lia; by replace j with slen by lia|].
  rewrite zlen_cons in *. pose proof (zlen_nonneg t). rewrite (proj2 (Z.eqb_neq _ _)) by lia.
  destruct (zdrop_next _ _ _ _ H1 Hs') as (-> & Hs1 & _). rewrite bind_Done.
  apply Forall_cons in Hb as [Hc Hb].
  assert (forall n equals, 0 <= n <= j + 1 -> 0 <= equals <= 2 ->
    first_pass fuel src slen (j + 1) n equals = scanned slen (layout false t ≫= tally n equals)) as IH'.
  { intros. apply (IH t (j + 1) _ _ rest); (done || lia). }
  clear IH. rewrite size_sub_le by lia. cbn [layout]. apply Z.eqb_neq in Ht as ->.
  replace (slen - j) with (1 + zlen t) by lia.
  destruct (c =? 13) eqn:E13; [apply Z.eqb_eq in E13; subst c|]; rewrite ?andb_true_r, ?andb_false_r.
  - destruct t as [|c' t]; [by destruct b, (equals =? 0)|].
    rewrite zlen_cons in *. pose proof (zlen_nonneg t). rewrite (proj2 (Z.geb_le _ _)) by lia.
    destruct (zdrop_next (j + 1) _ _ _ ltac:(lia) Hs1) as (-> & _). rewrite bind_Done.
    change (mret ?x ≫= ?f) with (f x). cbv beta. cbn [Z.eqb Pos.eqb].
    destruct (c' =? 10) eqn:E10; [apply IH'; lia|]. by destruct b, (equals =? 0).
  - change (mret ?x ≫= ?f) with (f x). cbv beta iota.
    destruct (c =? 10) eqn:E10; [apply IH'; lia|]. destruct b; [done|].
    rewrite option_fmap_bind. unfold compose. cbn [tally].
    destruct (c >? 127) eqn:E127; bool_to_prop.
    { rewrite (proj2 (Z.eqb_neq c 61)), bytes_not_digit by lia. destruct (layout false t); [|done].
      cbn. by destruct (equals =? 0). }
    unfold u32, u64. destruct (c =? 61) eqn:E61.
    + rewrite Z.mod_small by lia. destruct (equals + 1 >? 2) eqn:E2; [by destruct (layout false t)|].
      bool_to_prop. rewrite Z.mod_small by lia. apply IH'; lia.
    + destruct (equals =? 0); cbn [negb]; [|by destruct (layout false t)].
      rewrite dec_value_neg by done. destruct (b64_val false c) as [v|] eqn:Ev.
      * rewrite bool_decide_eq_false_2 by done. rewrite Z.mod_small by lia. apply IH'; lia.
      * rewrite bool_decide_eq_true_2 by done. by destruct (layout false t).
Qed.

(** ** The second pass *)

(** The accumulator holds the digits [pd] of the quantum being read in its low bits. *)
Definition pending (x : Z) (pd : list Z) : Prop :=
  x mod 2 ^ (6 * zlen pd) = foldl (fun v d => v * 64 + d) 0 pd /\
  Forall (fun d => 0 <= d < 64) pd /\ (length pd < 4)%nat.

Lemma accumulate x v :
  0 <= v < 64 -> Z.lor (u32 (Z.shiftl x 6)) (u32 v) = (x mod 2 ^ 26) * 64 + v.
Proof.
  intros Hv. unfold u32. rewrite Z.shiftl_mul_pow2, (Z.mod_small v) by lia.
  replace ((x * 2 ^ 6) mod 2 ^ 32) with (Z.shiftl (x mod 2 ^ 26) 6).
  - by apply (lor_shiftl_add _ _ 6).
  - rewrite Z.shiftl_mul_pow2 by lia. Z.div_mod_to_equations; lia.
Qed.

Lemma group_bytes x n :
  x mod 2 ^ 24 = n ->
  [MBEDTLS_BYTE_2 x; MBEDTLS_BYTE_1 x; MBEDTLS_BYTE_0 x] = [n / 2 ^ 16; (n / 2 ^ 8) mod 2 ^ 8; n mod 2 ^ 8].
Proof.
  intros <-. unfold MBEDTLS_BYTE_2, MBEDTLS_BYTE_1, MBEDTLS_BYTE_0.
  change 0xff with (Z.ones 8). rewrite !Z.land_ones, !Z.shiftr_div_pow2 by lia.
  list_eq; try reflexivity; Z.div_mod_to_equations; lia.
Qed.

Lemma second_pass_white src w : forallb (fun c => (c =? 13) || (c =? 10) || (c =? 32)) w = true ->
  forall i s x digits st r, 0 <= s -> zdrop s src = w ++ r ->
  second_pass (length w + i) src s x digits st = second_pass i src (s + zlen w) x digits st /\
  zdrop (s + zlen w) src = r.
Proof.
  induction w as [|c w IH]; intros Hw i s x digits st r Hs Hr.
  { change (zlen []) with 0. rewrite Z.add_0_r. done. }
  cbn [forallb] in Hw. apply andb_prop in Hw as [Hc Hw].
  destruct (zdrop_next _ _ _ _ Hs Hr) as (L & Hr1 & _).
  destruct (IH Hw i (s + 1) x digits st r ltac:(lia) Hr1) as [E Hd].
  rewrite zlen_cons. replace (s + (1 + zlen w)) with (s + 1 + zlen w) by lia.
  split; [|done]. cbn [length Nat.add second_pass]. rewrite L, bind_Done, Hc. exact E.
Qed.

Lemma blanks_white k :
  forallb (fun c => (c =? 13) || (c =? 10) || (c =? 32)) (replicate k 32) = true.
Proof. by induction k. Qed.

Lemma last_digits_spec d x pd out :
  pending x pd -> zlen out + zlen (dec_digits pd) <= zlen d ->
  last_digits x (zlen pd) (written d out) = Done (written d (out ++ dec_digits pd)).
Proof.
  intros (Hx & Hr & Hl) Hc. unfold last_digits.
  destruct pd as [|d0 [|d1 [|d2 [|? pd]]]]; [..|simpl in Hl; lia];
    rewrite ?Forall_cons in Hr; cbn [dec_digits take dec4] in *.
  1, 2: rewrite app_nil_r; done.
  - change (zlen [d0; d1]) with 2 in *. cbn [Z.eqb Pos.eqb]. change (zlen [_]) with 1 in Hc. puts.
    assert ((u32 (Z.shiftl x 12)) mod 2 ^ 24 = group24 d0 d1 0 0) as E.
    { unfold u32, group24. rewrite Z.shiftl_mul_pow2 by lia. cbn [foldl] in Hx.
      change (2 ^ (6 * 2)) with (2 ^ 12) in Hx. Z.div_mod_to_equations; lia. }
    apply group_bytes in E. by injection E as -> _ _.
  - change (zlen [d0; d1; d2]) with 3 in *. cbn [Z.eqb Pos.eqb]. change (zlen [_; _]) with 2 in Hc. puts.
    assert ((u32 (Z.shiftl x 6)) mod 2 ^ 24 = group24 d0 d1 d2 0) as E.
    { unfold u32, group24. rewrite Z.shiftl_mul_pow2 by lia. cbn [foldl] in Hx.
      change (2 ^ (6 * 3)) with (2 ^ 18) in Hx. Z.div_mod_to_equations; lia. }
    apply group_bytes in E. by injection E as -> -> _.
Qed.

Lemma pending_push x pd v :
  pending x pd -> 0 <= v < 64 -> (length pd < 3)%nat ->
  pending ((x mod 2 ^ 26) * 64 + v) (pd ++ [v]).
Proof.
  intros (Hx & Hr & Hl) Hv Hl3. split_and!.
  - rewrite foldl_app. cbn [foldl]. rewrite <- Hx, zlen_app. change (zlen [v]) with 1.
    destruct pd as [|d0 [|d1 [|d2 pd]]]; [..|simpl in Hl3; lia].
    + change (zlen []) with 0. cbn. Z.div_mod_to_equations; lia.
    + change (zlen [d0]) with 1. change (2 ^ (6 * (1 + 1))) with (2 ^ 12). change (2 ^ (6 * 1)) with (2 ^ 6).
      Z.div_mod_to_equations; lia.
    + change (zlen [d0; d1]) with 2. change (2 ^ (6 * (2 + 1))) with (2 ^ 18). change (2 ^ (6 * 2)) with (2 ^ 12).
      Z.div_mod_to_equations; lia.
  - apply Forall_app_2; [done|by apply Forall_singleton].
  - rewrite length_app. simpl. lia.
Qed.

Lemma dec_group x pd v ds out d0 d1 d2 :
  pd = [d0; d1; d2] -> pending x pd -> 0 <= v < 64 ->
  let x' := (x mod 2 ^ 26) * 64 + v in
  out ++ [MBEDTLS_BYTE_2 x'; MBEDTLS_BYTE_1 x'; MBEDTLS_BYTE_0 x'] ++ dec_digits ds =
  out ++ dec_digits (pd ++ v :: ds).
Proof.
  intros -> (Hx & Hr & _) Hv x'. cbn [app dec_digits].
  assert (x' mod 2 ^ 24 = group24 d0 d1 d2 v) as E.
  { unfold x', group24. cbn [foldl] in Hx. change (zlen _) with 3 in Hx.
    change (2 ^ (6 * 3)) with (2 ^ 18) in Hx. Z.div_mod_to_equations; lia. }
  apply group_bytes in E. injection E as -> -> ->. done.
Qed.

Lemma second_pass_spec src d pad t cs' : laid_out t cs' ->
  forall cs ds s x pd out rest, cs' = cs ++ replicate pad 61 -> mapM (b64_val false) cs = Some ds ->
    is_bytes t -> 0 <= s -> zdrop s src = t ++ rest -> pending x pd ->
    zlen out + zlen (dec_digits (pd ++ ds)) <= zlen d ->
    ('(x, digits, st) ← second_pass (length t) src s x (zlen pd) (written d out);
     last_digits x digits st) = Done (written d (out ++ dec_digits (pd ++ ds))).
Proof.
  induction 1 as [k|k e t cs' He _ IH|c t cs' H32 H10 H13 _ IH];
    intros cs ds s x pd out rest Hcs Hds Hb Hs Hd Hp Hc.
  - destruct cs; [|done]. injection Hds as <-. rewrite app_nil_r in *.
    destruct (second_pass_white src _ (blanks_white k) 0 s x (zlen pd) (written d out) rest Hs Hd) as [E _].
    rewrite Nat.add_0_r in E. rewrite E. cbn [second_pass]. by apply last_digits_spec.
  - assert (forallb (fun c => (c =? 13) || (c =? 10) || (c =? 32)) (replicate k 32 ++ e) = true) as W.
    { rewrite forallb_app, blanks_white. by destruct He. }
    rewrite (app_assoc _ e t), length_app in *.
    edestruct (second_pass_white src _ W (length t) s) as [E Hr]; [done|by rewrite Hd, <- app_assoc|].
    rewrite E. apply Forall_app in Hb as [_ Hb].
    apply (IH cs ds (s + zlen (replicate k 32 ++ e)) x pd out rest); try done.
    pose proof (zlen_nonneg (replicate k 32 ++ e)). lia.
  - destruct (zdrop_next _ _ _ _ Hs Hd) as (L & Hd1 & _). cbn [length second_pass].
    apply Forall_cons in Hb as [Bc Hb].
    rewrite L, bind_Done. apply Z.eqb_neq in H32 as ->, H10 as ->, H13 as ->. cbn [orb].
    destruct cs as [|c' cs].
    { injection Hds as <-. rewrite app_nil_r in *. destruct pad as [|pad]; [done|].
      injection Hcs as -> _. by apply last_digits_spec. }
    injection Hcs as <- ->. cbn [mapM] in Hds. destruct (b64_val false c) as [v|] eqn:Ev; [|done].
    destruct (mapM (b64_val false) cs) as [ds'|] eqn:Em; [|done]. injection Hds as <-.
    destruct (c =? 61) eqn:E61; [bool_to_prop; subst; discriminate|].
    pose proof (b64_val_range _ _ _ Ev) as Rv.
    rewrite dec_value_spec, Ev by done. cbn [default]. rewrite accumulate by done.
    pose proof Hp as (_ & _ & Hl). unfold u32. rewrite Z.mod_small by (unfold zlen; lia).
    destruct (zlen pd + 1 =? 4) eqn:E4; bool_to_prop.
    + destruct pd as [|d0 [|d1 [|d2 [|? pd]]]]; try (unfold zlen in E4; simpl in E4; lia).
      pose proof (dec_group x _ v ds' out d0 d1 d2 eq_refl Hp Rv) as G. cbv zeta in G.
      change (zlen out + zlen (dec4 d0 d1 d2 v ++ dec_digits ds') <= zlen d) in Hc.
      rewrite zlen_app in Hc. change (zlen (dec4 d0 d1 d2 v)) with 3 in Hc.
      rewrite <- G. pose proof (zlen_nonneg (dec_digits ds')). puts.
      set (x' := x mod 2 ^ 26 * 64 + v).
      change (out ++ ?a :: ?b :: ?c :: dec_digits ds') with (out ++ [a; b; c] ++ dec_digits ds').
      rewrite (app_assoc out [_; _; _] (dec_digits ds')).
      apply (IH cs ds' (s + 1) x' [] (out ++ _) rest); try done; [lia| |rewrite zlen_app; cbn [app];
        change (zlen [_; _; _]) with 3; lia].
      split_and!; [apply Z.mod_1_r|done|simpl; lia].
    + change (id v) with v. replace (zlen pd + 1) with (zlen (pd ++ [v])) by (zlens).
      replace (pd ++ v :: ds') with ((pd ++ [v]) ++ ds') in * by by rewrite <- app_assoc.
      apply (IH cs ds' (s + 1) _ (pd ++ [v]) out rest); try done; [lia|].
      apply pending_push; [done..|]. unfold zlen in E4. lia.
Qed.

Lemma zlen_dec_digits ds (pad : nat) :
  (pad <= 2)%nat -> (zlen ds + Z.of_nat pad) mod 4 = 0 ->
  zlen (dec_digits ds) = (zlen ds + Z.of_nat pad) / 4 * 3 - Z.of_nat pad.
Proof.
  intros Hp. induction ds as [ds IH] using (induction_ltof1 _ (@length Z)). unfold ltof in IH.
  destruct ds as [|d0 [|d1 [|d2 [|d3 ds]]]]; intros Hm.
  1-4: destruct pad as [|[|[|?]]]; [..|lia]; vm_compute in Hm |- *; congruence.
  cbn [dec_digits]. rewrite zlen_app, IH; [|simpl; lia|]; rewrite !zlen_cons in *;
    change (zlen (dec4 d0 d1 d2 d3)) with 3 || idtac; Z.div_mod_to_equations; lia.
Qed.

Lemma laid_out_length t cs : laid_out t cs -> zlen cs <= zlen t.
Proof. induction 1; rewrite ?zlen_app, ?zlen_cons, ?zlen_replicate in *; zlens. Qed.

Section decode.
Context (dst : option (list Z)) (dlen olen : Z) (src : list Z) (slen : Z).
Hypothesis Hsrc : is_bytes src.
Hypothesis Hslen : 0 <= slen <= zlen src.
Hypothesis Hmax : slen < 2 ^ 64.
Hypothesis Hdst : forall d, dst = Some d -> dlen <= zlen d.
Hypothesis Hdlen : 0 <= dlen.

Let text : list Z := ztake slen src.

Lemma first_pass_text :
  first_pass (S (Z.to_nat slen)) src slen 0 0 0 = scanned slen (layout false text ≫= tally 0 0).
Proof.
  apply (first_pass_spec src slen _ text 0 0 0 (zdrop slen src)); unfold text;
    [auto with zlist|lia|rewrite zdrop_0; symmetry; apply ztake_zdrop|zlens..].
Qed.

Lemma decode_valid_text out :
  is_base64 text out ->
  mbedtls_base64_decode dst dlen olen src slen = Done
    match dst with
    | Some d => if dlen <? zlen out then (MBEDTLS_ERR_BASE64_BUFFER_TOO_SMALL, zlen out, dst)
                else (0, zlen out, Some (splice d 0 out))
    | None => if zlen out =? 0 then (0, 0, None)
              else (MBEDTLS_ERR_BASE64_BUFFER_TOO_SMALL, zlen out, None)
    end.
Proof.
  intros (cs & ds & pad & Ht & Hds & Hp & Hm & ->).
  assert (zlen ds = zlen cs) as Ld by (unfold zlen; by rewrite (length_mapM _ _ _ Hds)).
  unfold mbedtls_base64_decode. rewrite first_pass_text, (laid_out_layout _ _ Ht), bind_Done.
  cbn [mbind option_bind]. rewrite (tally_complete _ _ _ Hds Hp). cbv beta iota.
  rewrite <- Ld in *. set (n := zlen ds + Z.of_nat pad) in *. pose proof (zlen_nonneg ds).
  pose proof (zlen_dec_digits ds pad Hp Hm) as Lo. fold n in Lo. set (out := dec_digits ds) in *.
  pose proof (zlen_nonneg out).
  assert (n <= slen) as Hn.
  { apply laid_out_length in Ht. unfold text in Ht. rewrite zlen_app, zlen_replicate in Ht. zlens. }
  rewrite !size_sub_le by (Z.div_mod_to_equations; lia). rewrite <- Lo.
  rewrite (proj2 (Z.eqb_neq ((n - Z.of_nat pad) mod 4) 1)) by (Z.div_mod_to_equations; lia).
  rewrite Hm. cbn [Z.eqb negb]. 
  assert (zlen out <= zlen (default [] dst) ->
    ('(x, digits, st) ← second_pass (Z.to_nat slen) src 0 0 0 (default [] dst, 0);
     last_digits x digits st) = Done (written (default [] dst) out)) as Hbody.
  { intros Hcap. replace (Z.to_nat slen) with (length text) by (unfold text, ztake; rewrite length_take; unfold zlen in Hslen; lia).
    rewrite <- (written_nil (default [] dst)).
    apply (second_pass_spec src _ pad text _ Ht cs ds 0 0 [] [] (zdrop slen src)); try done.
    - unfold text. auto with zlist.
    - unfold text. rewrite zdrop_0. symmetry. apply ztake_zdrop.
    - split_and!; [done|done|simpl; lia]. }
  clear Ht. destruct dst as [d|].
  - specialize (Hdst d eq_refl). rewrite andb_false_r. cbn [orb].
    destruct (dlen <? zlen out) eqn:E; [done|]. bool_to_prop.
    destruct (bind_Done_inv _ _ _ (Hbody ltac:(change (default [] (Some d)) with d; lia))) as ([[x digits] st] & -> & L).
    rewrite bind_Done. cbv beta iota. rewrite L, bind_Done. unfold written. cbv beta iota.
    by rewrite Z.eqb_refl.
  - rewrite andb_true_r. destruct (zlen out =? 0) eqn:E; cbn [negb orb]; [|done]. bool_to_prop.
    rewrite (proj2 (Z.ltb_ge dlen _)) by lia.
    destruct (bind_Done_inv _ _ _ (Hbody ltac:(change (zlen (default [] None)) with 0; lia))) as ([[x digits] st] & -> & L).
    rewrite bind_Done. cbv beta iota. rewrite L, bind_Done. unfold written. cbv beta iota.
    by rewrite E.
Qed.

Lemma decode_invalid_text :
  ~ (exists out, is_base64 text out) ->
  mbedtls_base64_decode dst dlen olen src slen = Done (MBEDTLS_ERR_BASE64_INVALID_CHARACTER, olen, dst).
Proof.
  intros H. unfold mbedtls_base64_decode. rewrite first_pass_text, bind_Done.
  destruct (layout false text) as [cs'|] eqn:El; [|done]. cbn [mbind option_bind].
  destruct (tally 0 0 cs') as [[n e]|] eqn:Et; [|done].
  destruct (_ =? 1); [done|]. destruct (n mod 4 =? 0) eqn:E4; [|done]. exfalso. apply H.
  bool_to_prop. destruct (tally_spec _ _ _ Et) as (cs & ds & -> & Hds & He & Hn).
  exists (dec_digits ds), cs, ds, (Z.to_nat e). split_and!; try done; try lia.
  - by apply layout_laid_out.
  - rewrite Hn, zlen_app, zlen_replicate in E4. done.
Qed.
End decode.

(** ** Round trip *)

Lemma dec_enc_rest bs :
  is_bytes bs -> zlen bs < 3 -> dec_digits (enc_bytes bs) = bs /\ Forall (fun k => 0 <= k < 64) (enc_bytes bs).
Proof.
  intros Hb Hl. assert (is_byte 0) as B0 by done.
  destruct bs as [|b0 [|b1 [|? bs]]]; [by repeat constructor|..]; unfold is_bytes in Hb;
    rewrite ?Forall_cons in Hb; [destruct Hb as [Hb0 _]|destruct Hb as (Hb0 & Hb1 & _)|].
  - destruct (enc3_dec4 b0 0 0 Hb0 B0 B0) as (k0 & k1 & k2 & k3 & E & (R0 & R1 & _) & D).
    cbn [enc_bytes]. assert (k2 = 0 /\ k3 = 0) as [-> ->].
    { unfold enc3 in E. injection E as _ _ <- <-. unfold is_byte in Hb0. Z.div_mod_to_equations; lia. }
    rewrite E. cbn [take dec_digits]. rewrite D. by rewrite !Forall_cons, Forall_nil.
  - destruct (enc3_dec4 b0 b1 0 Hb0 Hb1 B0) as (k0 & k1 & k2 & k3 & E & (R0 & R1 & R2 & _) & D).
    cbn [enc_bytes]. assert (k3 = 0) as ->.
    { unfold enc3 in E. injection E as _ _ _ <-. unfold is_byte in *. Z.div_mod_to_equations; lia. }
    rewrite E. cbn [take dec_digits]. rewrite D. by rewrite !Forall_cons, Forall_nil.
  - rewrite !zlen_cons in Hl. pose proof (zlen_nonneg bs). lia.
Qed.

Lemma dec_enc_bytes bs :
  is_bytes bs -> dec_digits (enc_bytes bs) = bs /\ Forall (fun k => 0 <= k < 64) (enc_bytes bs).
Proof.
  intros Hb. destruct (split_triples bs) as (l & k & -> & _ & Hl & Hk).
  apply Forall_app in Hb as [Bl Bk]. destruct (dec_enc_rest k Bk) as [Dk Rk].
  { rewrite Hk. apply Z.mod_pos_bound. lia. }
  clear Hk. revert l Hl Bl. refine (list_ind3 _ _ _); [done|]. intros a b c l IH Bl.
  rewrite !Forall_cons in Bl. destruct Bl as (Ba & Bb & Bc & Bl). destruct (IH Bl) as [D R].
  cbn [app enc_bytes].
  destruct (enc3_dec4 a b c Ba Bb Bc) as (k0 & k1 & k2 & k3 & -> & (R0 & R1 & R2 & R3) & E).
  cbn [app dec_digits]. rewrite E, D. by rewrite !Forall_cons.
Qed.

Lemma laid_out_chars cs :
  Forall (fun c => c <> 32 /\ c <> 10 /\ c <> 13) cs -> laid_out cs cs.
Proof. induction 1 as [|c cs (H1 & H2 & H3) _ IH]; [apply (lo_end 0)|by apply lo_char]. Qed.

Lemma b64_char_ink k : 0 <= k < 64 -> b64_char false k <> 32 /\ b64_char false k <> 10 /\ b64_char false k <> 13.
Proof. intros. unfold b64_char. repeat case_match; bool_to_prop; lia. Qed.

Lemma std_encode_is_base64 bs : is_bytes bs -> is_base64 (std_encode bs) bs.
Proof.
  intros Hb. destruct (dec_enc_bytes bs Hb) as [D R].
  exists (map (b64_char false) (enc_bytes bs)), (enc_bytes bs), (padding bs). split_and!.
  - apply laid_out_chars, Forall_app_2; [|by apply Forall_replicate].
    rewrite Forall_map. eapply Forall_impl; [exact R|]. intros k. apply b64_char_ink.
  - clear D. induction R as [|k ks Hk _ IH]; [done|]. cbn [map mapM].
    rewrite b64_val_char by done. cbn [mbind option_bind]. by rewrite IH.
  - unfold padding. repeat case_match; lia.
  - pose proof (zlen_std_encode bs) as L. unfold std_encode in L.
    rewrite zlen_app, zlen_replicate in L. rewrite L.
    rewrite Z.mul_comm. apply Z.mod_mul. lia.
  - done.
Qed.

(** The decoder accepts exactly the texts of the grammar [is_base64], that is, digits
    and padding broken into lines by LF or CR LF with blanks only before a break or at the
    end: for such a text it reports the length of what the text denotes and, when the
    destination is large enough, writes those bytes and changes nothing behind them; with
    any other text it fails and changes neither the destination nor [*olen].  It reads and
    writes within its buffers and never reports an internal inconsistency. *)
Theorem mbed_base64_decode_exact dst dlen olen src slen :
  is_bytes src -> 0 <= slen <= zlen src -> slen < 2 ^ 64 ->
  (forall d, dst = Some d -> dlen <= zlen d) -> 0 <= dlen ->
  (forall out, is_base64 (ztake slen src) out ->
     mbedtls_base64_decode dst dlen olen src slen = Done
       match dst with
       | Some d => if dlen <? zlen out then (MBEDTLS_ERR_BASE64_BUFFER_TOO_SMALL, zlen out, dst)
                   else (0, zlen out, Some (splice d 0 out))
       | None => if zlen out =? 0 then (0, 0, None)
                 else (MBEDTLS_ERR_BASE64_BUFFER_TOO_SMALL, zlen out, None)
       end) /\
  (~ (exists out, is_base64 (ztake slen src) out) ->
     mbedtls_base64_decode dst dlen olen src slen =
       Done (MBEDTLS_ERR_BASE64_INVALID_CHARACTER, olen, dst)).
Proof. intros. split; [intros out; by apply decode_valid_text|by apply decode_invalid_text]. Qed.

Lemma mbed_base64_decode_exact_witness :
  mbedtls_base64_decode (Some (replicate 5 7)) 5 99 [81; 85; 74; 68; 10; 82; 65; 61; 61; 32; 88] 10 =
    Done (0, 4, Some [65; 66; 67; 68; 7]).
Proof.
  apply (proj1 (mbed_base64_decode_exact (Some (replicate 5 7)) 5 99
    [81; 85; 74; 68; 10; 82; 65; 61; 61; 32; 88] 10
    ltac:(unfold is_bytes; repeat constructor; (discriminate || reflexivity))
    ltac:(vm_compute; split; discriminate) ltac:(reflexivity)
    ltac:(intros d [= <-]; vm_compute; discriminate) ltac:(lia)) [65; 66; 67; 68]).
  exists [81; 85; 74; 68; 82; 65], [16; 20; 9; 3; 17; 0], 2%nat.
  split_and!; [|reflexivity|lia|reflexivity|reflexivity].
  do 4 (apply lo_char; [lia..|]). apply (lo_break 0 [10]); [constructor|].
  do 4 (apply lo_char; [lia..|]). apply (lo_end 1).
Defined.

Lemma std_encode_bytes bs : is_bytes bs -> is_bytes (std_encode bs).
Proof.
  intros Hb. destruct (dec_enc_bytes bs Hb) as [_ R].
  apply is_bytes_app; [|by apply Forall_replicate].
  unfold is_bytes. rewrite Forall_map. eapply Forall_impl; [exact R|]. intros k. apply b64_char_byte.
Qed.

(** What the encoder writes for any bytes, the decoder reads back as those bytes. *)
Theorem mbed_base64_roundtrip bs d out :
  is_bytes bs -> is_bytes d -> zlen (std_encode bs) < zlen d < 2 ^ 64 -> zlen bs <= zlen out ->
  exists text n, mbedtls_base64_encode (Some d) (zlen d) bs (zlen bs) = Done (0, n, Some text) /\
    mbedtls_base64_decode (Some out) (zlen out) 0 text n = Done (0, zlen bs, Some (splice out 0 bs)).
Proof.
  intros Hb Bd Hd Ho. pose proof (zlen_nonneg bs). pose proof (std_encode_bytes bs Hb) as Bt.
  pose proof (std_encode_is_base64 bs Hb) as Hi.
  assert (zlen bs <= zlen (std_encode bs)) as Hle.
  { rewrite zlen_std_encode. split_if; Z.div_mod_to_equations; lia. }
  pose proof (base64_encode_spec (Some d) (zlen d) bs (zlen bs) Hb ltac:(lia) ltac:(lia)
    ltac:(intros ? [= <-]; lia)) as E. cbv zeta in E.
  rewrite (ztake_all (zlen bs) bs) in E by lia. set (t := std_encode bs) in *.
  rewrite (proj2 (Z.leb_gt _ _)), (proj2 (Z.ltb_lt _ _)) in E by lia.
  assert (exists text, mbedtls_base64_encode (Some d) (zlen d) bs (zlen bs) = Done (0, zlen t, Some text) /\
    is_bytes text /\ zlen text = zlen d /\ ztake (zlen t) text = t) as (text & Et & Btx & Lt & Ht).
  { destruct (zlen bs =? 0) eqn:E0; bool_to_prop.
    - exists d. destruct bs; [done|rewrite zlen_cons in E0; pose proof (zlen_nonneg bs); lia].
    - assert (zlen (t ++ [0]) <= zlen d) as L by zlens. exists (splice d 0 (t ++ [0])). split_and!.
      + exact E.
      + assert (is_bytes [0]) by (apply Forall_singleton; done). unfold splice. auto 7 with zlist.
      + rewrite zlen_splice; lia.
      + pose proof (splice_0_prefix d (t ++ [0]) L) as P. pose proof (zlen_nonneg t).
        apply (f_equal (ztake (zlen t))) in P.
        rewrite ztake_ztake in P by zlens. rewrite P, ztake_app_l by lia. by apply ztake_all. }
  exists text, (zlen t). split; [done|].
  rewrite (decode_valid_text (Some out) (zlen out) 0 text (zlen t) Btx ltac:(lia) ltac:(lia)
    ltac:(intros ? [= <-]; lia) ltac:(lia) bs); [|by rewrite Ht].
  by rewrite (proj2 (Z.ltb_ge _ _)) by lia.
Qed.

Lemma mbed_base64_roundtrip_witness :
  exists text n, mbedtls_base64_encode (Some (replicate 9 7)) 9 [77; 255; 0; 1] 4 = Done (0, n, Some text) /\
    mbedtls_base64_decode (Some [9; 9; 9; 9; 9]) 5 0 text n = Done (0, 4, Some [77; 255; 0; 1; 9]).
Proof.
  apply (mbed_base64_roundtrip [77; 255; 0; 1] (replicate 9 7) [9; 9; 9; 9; 9]);
    [unfold is_bytes; repeat constructor; (discriminate || reflexivity)..| |];
    vm_compute; try split; (discriminate || reflexivity).
Defined.

(** ** The self test *)

Definition base64_test_dec : list Z :=
  [0x24; 0x48; 0x6E; 0x56; 0x87; 0x62; 0x5A; 0xBD; 0xBF; 0x17; 0xD9; 0xA2; 0xC4; 0x17; 0x1A; 0x01;
   0x94; 0xED; 0x8F; 0x1E; 0x11; 0xB3; 0xD7; 0x09; 0x0C; 0xB6; 0xE9; 0x10; 0x6F; 0x22; 0xEE; 0x13;
   0xCA; 0xB3; 0x07; 0x05; 0x76; 0xC9; 0xFA; 0x31; 0x6C; 0x08; 0x34; 0xFF; 0x8D; 0xC2; 0x6C; 0x38;
   0x00; 0x43; 0xE9; 0x54; 0x97; 0xAF; 0x50; 0x4B; 0xD1; 0x41; 0xBA; 0x95; 0x31; 0x5A; 0x0B; 0x97].

(** The characters of the string in the source. *)
Definition base64_test_enc : list Z :=
  [74; 69; 104; 117; 86; 111; 100; 105; 87; 114; 50; 47; 70; 57; 109; 105;
   120; 66; 99; 97; 65; 90; 84; 116; 106; 120; 52; 82; 115; 57; 99; 74;
   68; 76; 98; 112; 69; 71; 56; 105; 55; 104; 80; 75; 115; 119; 99; 70;
   100; 115; 110; 54; 77; 87; 119; 73; 78; 80; 43; 78; 119; 109; 119; 52;
   65; 69; 80; 112; 86; 74; 101; 118; 85; 69; 118; 82; 81; 98; 113; 86;
   77; 86; 111; 76; 108; 119; 61; 61].

(** The buffer holds zeros before the first call. *)
Definition mbedtls_base64_self_test : outcome Z :=
  '(ret, len, buffer) ← mbedtls_base64_encode (Some (replicate 128 0)) 128 base64_test_dec 64;
  if negb (ret =? 0) || negb (bool_decide (ztake 88 (default [] buffer) = base64_test_enc)) then mret 1 else
  '(ret, _, buffer) ← mbedtls_base64_decode buffer 128 len base64_test_enc 88;
  if negb (ret =? 0) || negb (bool_decide (ztake 64 (default [] buffer) = base64_test_dec)) then mret 1 else
  mret 0.

Example base64_self_test_passes : mbedtls_base64_self_test = Done 0.
Proof. vm_compute. reflexivity. Qed.
