(* ===== verification/Poly1305.v ===== *)
(** * Poly1305

    [src/internal/mbedtls/poly1305.c], the authenticator of the ChaCha20-Poly1305 cipher
    suites: the accumulator as five 32-bit limbs with 64-bit products, the block queue of the
    streaming interface, and the final reduction.  The theorems relate it to the definition
    of RFC 8439 over the integers: the limbs stay in range so that no product or sum wraps,
    each block is one step of Horner's rule modulo 2^130 - 5, and any sequence of updates
    authenticates the concatenation of its inputs. *)

From S2P Require Import Prelude Bytes.

(** ** State *)

Record limbs4 := L4 { l0 : Z; l1 : Z; l2 : Z; l3 : Z }.
Record limbs5 := L5 { a0 : Z; a1 : Z; a2 : Z; a3 : Z; a4 : Z }.

Record mbedtls_poly1305_context := Poly {
  r : limbs4;
  s : limbs4;
  acc : limbs5;
  queue : list Z;
  queue_len : Z
}.

Definition mul64 (a b : Z) : Z := u64 (a * b).

(** ** One block *)

(** acc += (padded) block as a 130-bit integer; [d0] to [d3] are the words of the block. *)
Definition block_add (acc : limbs5) (d0 d1 d2 d3 needs_padding : Z) : limbs5 :=
  let 'L5 acc0 acc1 acc2 acc3 acc4 := acc in
  let d0 := u64 (d0 + acc0) in
  let d1 := u64 (d1 + u64 (acc1 + Z.shiftr d0 32)) in
  let d2 := u64 (d2 + u64 (acc2 + Z.shiftr d1 32)) in
  let d3 := u64 (d3 + u64 (acc3 + Z.shiftr d2 32)) in
  L5 (u32 d0) (u32 d1) (u32 d2) (u32 d3)
     (u32 (acc4 + u32 (u32 (Z.shiftr d3 32) + needs_padding))).

(** acc *= r: the four sums of products and the fifth limb. *)
Definition block_mul (r : limbs4) (acc : limbs5) : limbs5 :=
  let 'L4 r0 r1 r2 r3 := r in
  let 'L5 acc0 acc1 acc2 acc3 acc4 := acc in
  let rs1 := u32 (r1 + Z.shiftr r1 2) in
  let rs2 := u32 (r2 + Z.shiftr r2 2) in
  let rs3 := u32 (r3 + Z.shiftr r3 2) in
  L5 (u64 (mul64 acc0 r0 + mul64 acc1 rs3 + mul64 acc2 rs2 + mul64 acc3 rs1))
     (u64 (mul64 acc0 r1 + mul64 acc1 r0 + mul64 acc2 rs3 + mul64 acc3 rs2 + mul64 acc4 rs1))
     (u64 (mul64 acc0 r2 + mul64 acc1 r1 + mul64 acc2 r0 + mul64 acc3 rs3 + mul64 acc4 rs2))
     (u64 (mul64 acc0 r3 + mul64 acc1 r2 + mul64 acc2 r1 + mul64 acc3 r0 + mul64 acc4 rs3))
     (u32 (acc4 * r0)).

(** acc %= (2^130 - 5) (partial remainder) *)
Definition block_reduce (d : limbs5) : limbs5 :=
  let 'L5 d0 d1 d2 d3 acc4 := d in
  let d1 := u64 (d1 + Z.shiftr d0 32) in
  let d2 := u64 (d2 + Z.shiftr d1 32) in
  let d3 := u64 (d3 + Z.shiftr d2 32) in
  let acc0 := u32 d0 in
  let acc1 := u32 d1 in
  let acc2 := u32 d2 in
  let acc3 := u32 d3 in
  let acc4 := u32 (u32 (Z.shiftr d3 32) + acc4) in
  let d0 := u64 (acc0 + Z.shiftr acc4 2 + Z.land acc4 0xFFFFFFFC) in
  let acc4 := Z.land acc4 3 in
  let acc0 := u32 d0 in
  let d0 := u64 (acc1 + Z.shiftr d0 32) in
  let acc1 := u32 d0 in
  let d0 := u64 (acc2 + Z.shiftr d0 32) in
  let acc2 := u32 d0 in
  let d0 := u64 (acc3 + Z.shiftr d0 32) in
  let acc3 := u32 d0 in
  let d0 := u64 (acc4 + Z.shiftr d0 32) in
  let acc4 := u32 d0 in
  L5 acc0 acc1 acc2 acc3 acc4.

Definition process_block (r : limbs4) (acc : limbs5) (d0 d1 d2 d3 needs_padding : Z) : limbs5 :=
  block_reduce (block_mul r (block_add acc d0 d1 d2 d3 needs_padding)).

Fixpoint process_loop (nblocks : nat) (r : limbs4) (acc : limbs5) (input : list Z)
    (offset needs_padding : Z) : outcome limbs5 :=
  match nblocks with
  | O => mret acc
  | S nblocks =>
      d0 ← MBEDTLS_GET_UINT32_LE input (offset + 0);
      d1 ← MBEDTLS_GET_UINT32_LE input (offset + 4);
      d2 ← MBEDTLS_GET_UINT32_LE input (offset + 8);
      d3 ← MBEDTLS_GET_UINT32_LE input (offset + 12);
      process_loop nblocks r (process_block r acc d0 d1 d2 d3 needs_padding) input
        (offset + 16) needs_padding
  end.

(** [input] is a buffer and the offset [start] of the pointer into it. *)
Definition poly1305_process (ctx : mbedtls_poly1305_context) (nblocks : Z) (input : list Z)
    (start needs_padding : Z) : outcome mbedtls_poly1305_context :=
  acc ← process_loop (Z.to_nat nblocks) (r ctx) (acc ctx) input start needs_padding;
  mret (Poly (r ctx) (s ctx) acc (queue ctx) (queue_len ctx)).

(** ** The tag *)

Definition poly1305_compute_mac (ctx : mbedtls_poly1305_context) (mac : list Z) : outcome (list Z) :=
  let 'L5 acc0 acc1 acc2 acc3 acc4 := acc ctx in
  let 'L4 s0 s1 s2 s3 := s ctx in
  let d := u64 (acc0 + 5) in
  let g0 := u32 d in
  let d := u64 (acc1 + Z.shiftr d 32) in
  let g1 := u32 d in
  let d := u64 (acc2 + Z.shiftr d 32) in
  let g2 := u32 d in
  let d := u64 (acc3 + Z.shiftr d 32) in
  let g3 := u32 d in
  let g4 := u32 (acc4 + u32 (Z.shiftr d 32)) in
  let mask := u32 (0 - Z.shiftr g4 2) in
  let mask_inv := u32 (Z.lnot mask) in
  let acc0 := Z.lor (Z.land acc0 mask_inv) (Z.land g0 mask) in
  let acc1 := Z.lor (Z.land acc1 mask_inv) (Z.land g1 mask) in
  let acc2 := Z.lor (Z.land acc2 mask_inv) (Z.land g2 mask) in
  let acc3 := Z.lor (Z.land acc3 mask_inv) (Z.land g3 mask) in
  let d := u64 (acc0 + s0) in
  let acc0 := u32 d in
  let d := u64 (acc1 + s1 + Z.shiftr d 32) in
  let acc1 := u32 d in
  let d := u64 (acc2 + s2 + Z.shiftr d 32) in
  let acc2 := u32 d in
  let acc3 := u32 (acc3 + u32 (s3 + u32 (Z.shiftr d 32))) in
  mac ← MBEDTLS_PUT_UINT32_LE acc0 mac 0;
  mac ← MBEDTLS_PUT_UINT32_LE acc1 mac 4;
  mac ← MBEDTLS_PUT_UINT32_LE acc2 mac 8;
  MBEDTLS_PUT_UINT32_LE acc3 mac 12.

(** ** The interface *)

Definition zeroized : mbedtls_poly1305_context :=
  Poly (L4 0 0 0 0) (L4 0 0 0 0) (L5 0 0 0 0 0) (replicate 16 0) 0.

Definition mbedtls_poly1305_init (_ : mbedtls_poly1305_context) : mbedtls_poly1305_context := zeroized.

(** [None] is the null pointer. *)
Definition mbedtls_poly1305_free (ctx : option mbedtls_poly1305_context)
    : option mbedtls_poly1305_context :=
  match ctx with None => None | Some _ => Some zeroized end.

Definition mbedtls_poly1305_starts (_ : mbedtls_poly1305_context) (key : list Z)
    : outcome (Z * mbedtls_poly1305_context) :=
  k0 ← MBEDTLS_GET_UINT32_LE key 0;
  k1 ← MBEDTLS_GET_UINT32_LE key 4;
  k2 ← MBEDTLS_GET_UINT32_LE key 8;
  k3 ← MBEDTLS_GET_UINT32_LE key 12;
  s0 ← MBEDTLS_GET_UINT32_LE key 16;
  s1 ← MBEDTLS_GET_UINT32_LE key 20;
  s2 ← MBEDTLS_GET_UINT32_LE key 24;
  s3 ← MBEDTLS_GET_UINT32_LE key 28;
  mret (0, Poly (L4 (Z.land k0 0x0FFFFFFF) (Z.land k1 0x0FFFFFFC) (Z.land k2 0x0FFFFFFC)
                    (Z.land k3 0x0FFFFFFC))
                (L4 s0 s1 s2 s3) (L5 0 0 0 0 0) (replicate 16 0) 0).

Definition set_queue (ctx : mbedtls_poly1305_context) (q : list Z) (n : Z) : mbedtls_poly1305_context :=
  Poly (r ctx) (s ctx) (acc ctx) q n.

(** The part of an update that serves the queue: the context, [offset] and [remaining]. *)
Definition update_queue (ctx : mbedtls_poly1305_context) (input : list Z) (ilen : Z)
    : outcome (mbedtls_poly1305_context * Z * Z) :=
  if (0 <? ilen) && (0 <? queue_len ctx) then
    let queue_free_len := size_sub 16 (queue_len ctx) in
    if ilen <? queue_free_len then
      bs ← load input 0 ilen;
      q ← store (queue ctx) (queue_len ctx) bs;
      mret (set_queue ctx q (u64 (queue_len ctx + ilen)), 0, 0)
    else
      bs ← load input 0 queue_free_len;
      q ← store (queue ctx) (queue_len ctx) bs;
      ctx ← poly1305_process (set_queue ctx q 0) 1 q 0 1;
      mret (ctx, queue_free_len, size_sub ilen queue_free_len)
  else mret (ctx, 0, ilen).

(** The rest of it: the whole blocks of the input, then what is left into the queue. *)
Definition update_blocks (ctx : mbedtls_poly1305_context) (input : list Z) (offset remaining : Z)
    : outcome (Z * mbedtls_poly1305_context) :=
  '(ctx, offset, remaining) ←
    (if remaining >=? 16 then
       let nblocks := remaining / 16 in
       ctx ← poly1305_process ctx nblocks input offset 1;
       mret (ctx, offset + nblocks * 16, remaining mod 16)
     else mret (ctx, offset, remaining));
  if 0 <? remaining then
    bs ← load input offset remaining;
    q ← store (queue ctx) 0 bs;
    mret (0, set_queue ctx q remaining)
  else mret (0, ctx).

Definition mbedtls_poly1305_update (ctx : mbedtls_poly1305_context) (input : list Z) (ilen : Z)
    : outcome (Z * mbedtls_poly1305_context) :=
  '(ctx, offset, remaining) ← update_queue ctx input ilen;
  update_blocks ctx input offset remaining.

Definition mbedtls_poly1305_finish (ctx : mbedtls_poly1305_context) (mac : list Z)
    : outcome (Z * mbedtls_poly1305_context * list Z) :=
  ctx ← (if 0 <? queue_len ctx then
           q ← store (queue ctx) (queue_len ctx) [1];
           let n := u64 (queue_len ctx + 1) in
           q ← store q n (replicate (Z.to_nat (size_sub 16 n)) 0);
           poly1305_process (set_queue ctx q n) 1 q 0 0
         else mret ctx);
  mac ← poly1305_compute_mac ctx mac;
  mret (0, ctx, mac).

Definition mbedtls_poly1305_mac (key input : list Z) (ilen : Z) (mac : list Z)
    : outcome (Z * list Z) :=
  let ctx := mbedtls_poly1305_init zeroized in
  '(ret, ctx) ← mbedtls_poly1305_starts ctx key;
  if negb (ret =? 0) then mret (ret, mac) else
  '(ret, ctx) ← mbedtls_poly1305_update ctx input ilen;
  if negb (ret =? 0) then mret (ret, mac) else
  '(ret, ctx, mac) ← mbedtls_poly1305_finish ctx mac;
  mret (ret, mac).

(** ** RFC 8439, section 2.5 *)

Definition P1305 : Z := 2 ^ 130 - 5.

(** Horner's rule over [n] blocks of [m], each with a one behind it. *)
Fixpoint horner (n : nat) (k a : Z) (m : list Z) : Z :=
  match n with
  | O => a
  | S n => horner n k ((a + le (ztake 16 m ++ [1])) * k mod P1305) (zdrop 16 m)
  end.

Definition clamp (k : Z) : Z := Z.land k 0x0ffffffc0ffffffc0ffffffc0fffffff.

Definition rfc_poly1305 (key m : list Z) : list Z :=
  let k := clamp (le (ztake 16 key)) in
  let blocks := Z.to_nat ((zlen m + 15) / 16) in
  le_bytes 16 (horner blocks k 0 m + le (ztake 16 (zdrop 16 key))).

(** ** Values of limbs *)

Definition val4 (x : limbs4) : Z := l0 x + l1 x * 2 ^ 32 + l2 x * 2 ^ 64 + l3 x * 2 ^ 96.
Definition val5 (x : limbs5) : Z :=
  a0 x + a1 x * 2 ^ 32 + a2 x * 2 ^ 64 + a3 x * 2 ^ 96 + a4 x * 2 ^ 128.

(** The accumulator between blocks: four words and at most two bits and a carry. *)
Definition acc_ok (x : limbs5) : Prop :=
  word (a0 x) /\ word (a1 x) /\ word (a2 x) /\ word (a3 x) /\ 0 <= a4 x <= 4.

(** The clamped multiplier. *)
Definition r_ok (x : limbs4) : Prop :=
  0 <= l0 x < 2 ^ 28 /\
  (0 <= l1 x < 2 ^ 28 /\ l1 x mod 4 = 0) /\
  (0 <= l2 x < 2 ^ 28 /\ l2 x mod 4 = 0) /\
  (0 <= l3 x < 2 ^ 28 /\ l3 x mod 4 = 0).

Lemma u64_small x : 0 <= x < 2 ^ 64 -> u64 x = x.
Proof. apply Z.mod_small. Qed.
Lemma u32_small x : 0 <= x < 2 ^ 32 -> u32 x = x.
Proof. apply Z.mod_small. Qed.
Lemma u32_word x : word (u32 x).
Proof. apply Z.mod_pos_bound. lia. Qed.

(** Names the value of a wrapping expression once it is shown not to wrap. *)
Ltac no_wrap f e x :=
  assert (f e = e) as -> by (apply Z.mod_small; Z.div_mod_to_equations; lia);
  let H := fresh "E" x in remember e as x eqn:H.

Lemma block_add_spec acc d0 d1 d2 d3 pad :
  acc_ok acc -> word d0 -> word d1 -> word d2 -> word d3 -> 0 <= pad <= 1 ->
  let x := block_add acc d0 d1 d2 d3 pad in
  (word (a0 x) /\ word (a1 x) /\ word (a2 x) /\ word (a3 x) /\ 0 <= a4 x <= 6) /\
  val5 x = val5 acc + val4 (L4 d0 d1 d2 d3) + pad * 2 ^ 128.
Proof.
  destruct acc as [x0 x1 x2 x3 x4]. unfold acc_ok, word, val5, val4, block_add.
  cbn [a0 a1 a2 a3 a4 l0 l1 l2 l3]. intros (H0 & H1 & H2 & H3 & H4) D0 D1 D2 D3 Hp.
  cbv zeta. rewrite !Z.shiftr_div_pow2 by lia.
  no_wrap u64 (d0 + x0) e0.
  no_wrap u64 (x1 + e0 / 2 ^ 32) c1. no_wrap u64 (d1 + c1) e1.
  no_wrap u64 (x2 + e1 / 2 ^ 32) c2. no_wrap u64 (d2 + c2) e2.
  no_wrap u64 (x3 + e2 / 2 ^ 32) c3. no_wrap u64 (d3 + c3) e3.
  no_wrap u32 (e3 / 2 ^ 32) c4. no_wrap u32 (c4 + pad) c5. no_wrap u32 (x4 + c5) c6.
  unfold u32. Z.div_mod_to_equations. lia.
Qed.

Lemma land_low2 x : word x -> Z.land x 0xFFFFFFFC = 4 * (x / 2 ^ 2).
Proof.
  unfold word. intros H. replace 0xFFFFFFFC with (Z.shiftl (Z.ones 30) 2) by reflexivity.
  replace x with (Z.shiftl (x / 2 ^ 2) 2 + x mod 2 ^ 2) at 1
    by (rewrite Z.shiftl_mul_pow2 by lia; Z.div_mod_to_equations; lia).
  rewrite Z.shiftl_mul_pow2 by lia. rewrite <- (lor_shiftl_add (x / 2 ^ 2)), Z.land_lor_distr_l
    by (try apply Z.mod_pos_bound; lia).
  rewrite <- Z.shiftl_land, Z.land_ones by lia.
  assert (Z.land (x mod 2 ^ 2) (Z.shiftl (Z.ones 30) 2) = 0) as ->.
  { rewrite <- Z.land_ones, <- Z.land_assoc by lia. change (Z.land (Z.ones 2) _) with 0. apply Z.land_0_r. }
  rewrite Z.lor_0_r, Z.shiftl_mul_pow2, Z.mod_small by (Z.div_mod_to_equations; lia). lia.
Qed.

Lemma block_reduce_spec d :
  0 <= a0 d < 2 ^ 63 -> 0 <= a1 d < 2 ^ 63 -> 0 <= a2 d < 2 ^ 63 -> 0 <= a3 d < 2 ^ 63 ->
  0 <= a4 d < 2 ^ 31 ->
  let x := block_reduce d in acc_ok x /\ exists k, val5 x = val5 d - k * P1305.
Proof.
  destruct d as [d0 d1 d2 d3 d4]. unfold acc_ok, word, val5, block_reduce.
  cbn [a0 a1 a2 a3 a4]. intros D0 D1 D2 D3 D4. cbv zeta. rewrite !Z.shiftr_div_pow2 by lia.
  no_wrap u64 (d1 + d0 / 2 ^ 32) e1. no_wrap u64 (d2 + e1 / 2 ^ 32) e2.
  no_wrap u64 (d3 + e2 / 2 ^ 32) e3. no_wrap u32 (e3 / 2 ^ 32) c3. no_wrap u32 (c3 + d4) c4.
  assert (Z.land c4 3 = c4 mod 2 ^ 2) as -> by (change 3 with (Z.ones 2); apply Z.land_ones; lia).
  rewrite land_low2 by (unfold word; Z.div_mod_to_equations; lia).
  assert (0 <= c4 < 2 ^ 32) as C4 by (Z.div_mod_to_equations; lia).
  unfold u32 in *. assert (0 <= e1 /\ 0 <= e2 /\ 0 <= e3) by (Z.div_mod_to_equations; lia).
  no_wrap u64 (d0 mod 2 ^ 32 + c4 / 2 ^ 2 + 4 * (c4 / 2 ^ 2)) f0.
  no_wrap u64 (e1 mod 2 ^ 32 + f0 / 2 ^ 32) f1. no_wrap u64 (e2 mod 2 ^ 32 + f1 / 2 ^ 32) f2.
  no_wrap u64 (e3 mod 2 ^ 32 + f2 / 2 ^ 32) f3. no_wrap u64 (c4 mod 2 ^ 2 + f3 / 2 ^ 32) f4.
  rewrite (Z.mod_small f4) by (Z.div_mod_to_equations; lia).
  split; [Z.div_mod_to_equations; lia|]. exists (c4 / 2 ^ 2). unfold P1305.
  Z.div_mod_to_equations. lia.
Qed.

Lemma mul64_bound x y m n : 0 <= x <= m -> 0 <= y <= n -> m * n < 2 ^ 64 ->
  mul64 x y = x * y /\ 0 <= x * y <= m * n.
Proof. intros. assert (0 <= x * y <= m * n) by nia. split; [apply u64_small; lia|done]. Qed.


Lemma sum_bound5 p0 p1 p2 p3 p4 m n o :
  0 <= p0 <= m -> 0 <= p1 <= m -> 0 <= p2 <= n -> 0 <= p3 <= n -> 0 <= p4 <= o ->
  2 * m + 2 * n + o < 2 ^ 63 ->
  u64 (p0 + p1 + p2 + p3 + p4) = p0 + p1 + p2 + p3 + p4 /\ 0 <= p0 + p1 + p2 + p3 + p4 < 2 ^ 63.
Proof. intros. rewrite u64_small; lia. Qed.

Lemma rs_small q : 0 <= 4 * q < 2 ^ 28 -> u32 (4 * q + Z.shiftr (4 * q) 2) = 5 * q.
Proof.
  intros. rewrite Z.shiftr_div_pow2 by lia. rewrite u32_small; Z.div_mod_to_equations; lia.
Qed.

(** Replaces the 64-bit product of two bounded factors by the product, with its bounds. *)
Ltac mulb H K B :=
  let E := fresh "E" in
  destruct (mul64_bound _ _ _ _ H K eq_refl) as [E B]; rewrite E; clear E.

Lemma block_mul_spec rr x :
  r_ok rr -> word (a0 x) -> word (a1 x) -> word (a2 x) -> word (a3 x) -> 0 <= a4 x <= 6 ->
  let d := block_mul rr x in
  (0 <= a0 d < 2 ^ 63 /\ 0 <= a1 d < 2 ^ 63 /\ 0 <= a2 d < 2 ^ 63 /\ 0 <= a3 d < 2 ^ 63 /\
   0 <= a4 d < 2 ^ 31) /\
  exists k, val5 d = val5 x * val4 rr - k * P1305.
Proof.
  destruct rr as [r0 r1 r2 r3], x as [x0 x1 x2 x3 x4]. unfold r_ok, word, val5, val4, block_mul.
  cbn [a0 a1 a2 a3 a4 l0 l1 l2 l3].
  intros (R0 & (R1 & M1) & (R2 & M2) & (R3 & M3)) X0 X1 X2 X3 X4.
  apply Z.mod_divide in M1 as [q1 ->], M2 as [q2 ->], M3 as [q3 ->]; [|lia..].
  rewrite !(Z.mul_comm _ 4) in *. rewrite !rs_small by done. cbv zeta.
  pose (w := 2 ^ 32). pose (b := 2 ^ 28). pose (c := 5 * 2 ^ 26).
  assert (0 <= x0 <= w /\ 0 <= x1 <= w /\ 0 <= x2 <= w /\ 0 <= x3 <= w) as (Y0 & Y1 & Y2 & Y3)
    by (unfold w; lia).
  assert (0 <= r0 <= b /\ 0 <= 4 * q1 <= b /\ 0 <= 4 * q2 <= b /\ 0 <= 4 * q3 <= b)
    as (T0 & T1 & T2 & T3) by (unfold b; lia).
  assert (0 <= 5 * q1 <= c /\ 0 <= 5 * q2 <= c /\ 0 <= 5 * q3 <= c) as (S1 & S2 & S3)
    by (unfold c; lia).
  mulb Y0 T0 P00. mulb Y1 T0 P10. mulb Y2 T0 P20. mulb Y3 T0 P30. mulb Y0 T1 P01. mulb Y1 T1 P11.
  mulb Y2 T1 P21. mulb Y0 T2 P02. mulb Y1 T2 P12. mulb Y0 T3 P03. mulb Y3 S1 P31. mulb Y2 S2 P22.
  mulb Y3 S2 P32. mulb Y1 S3 P13. mulb Y2 S3 P23. mulb Y3 S3 P33. mulb X4 S1 P41. mulb X4 S2 P42.
  mulb X4 S3 P43. assert (0 <= x4 * r0 <= 6 * b) as P40 by (clear -X4 T0; nia).
  assert (w * b <= w * c) as Hbc by (vm_compute; discriminate).
  pose proof (fun p (H : 0 <= p <= w * b) => conj (proj1 H) (Z.le_trans _ _ _ (proj2 H) Hbc)) as up.
  assert (0 <= 0 <= 6 * c) as Z0 by (vm_compute; split; discriminate).
  destruct (sum_bound5 _ _ _ _ _ _ _ _ (up _ P00) P13 P22 P31 Z0 eq_refl) as [U0 V0].
  rewrite Z.add_0_r in U0, V0.
  destruct (sum_bound5 _ _ _ _ _ _ _ _ P01 P10 P23 P32 P41 eq_refl) as [U1 V1].
  destruct (sum_bound5 _ _ _ _ _ _ _ _ P02 P11 (up _ P20) P33 P42 eq_refl) as [U2 V2].
  destruct (sum_bound5 _ _ _ _ _ _ _ _ P03 P12 P21 P30 P43 eq_refl) as [U3 V3].
  rewrite U0, U1, U2, U3.
  assert (0 <= x4 * r0 < 2 ^ 31) as V4 by (clear -P40; unfold b in P40; lia).
  rewrite u32_small by (clear -V4; lia). split; [done|]. clear.
  exists ((x1 * q3 + x2 * q2 + x3 * q1) + (x2 * q3 + x3 * q2 + x4 * q1) * 2 ^ 32
          + (x3 * q3 + x4 * q2) * 2 ^ 64 + x4 * q3 * 2 ^ 96).
  unfold P1305. ring.
Qed.

Lemma mod_minus_mul a k : (a - k * P1305) mod P1305 = a mod P1305.
Proof. replace (a - k * P1305) with (a + (- k) * P1305) by ring. apply Z_mod_plus_full. Qed.

(** One block is one step of Horner's rule, and keeps the limbs in range. *)
Lemma process_block_spec rr x d0 d1 d2 d3 pad :
  r_ok rr -> acc_ok x -> word d0 -> word d1 -> word d2 -> word d3 -> 0 <= pad <= 1 ->
  let y := process_block rr x d0 d1 d2 d3 pad in
  acc_ok y /\
  val5 y mod P1305 = (val5 x mod P1305 + (val4 (L4 d0 d1 d2 d3) + pad * 2 ^ 128)) * val4 rr mod P1305.
Proof.
  intros Hr Hx D0 D1 D2 D3 Hp y.
  destruct (block_add_spec x d0 d1 d2 d3 pad Hx D0 D1 D2 D3 Hp) as [(W0 & W1 & W2 & W3 & W4) V].
  destruct (block_mul_spec rr _ Hr W0 W1 W2 W3 W4) as [(B0 & B1 & B2 & B3 & B4) [k Vm]].
  destruct (block_reduce_spec _ B0 B1 B2 B3 B4) as [Hok [k' Vr]].
  split; [exact Hok|]. unfold y, process_block. rewrite Vr, Vm, V.
  rewrite !mod_minus_mul, <- Z.add_assoc. assert (P1305 <> 0) as Hnz by discriminate.
  rewrite <- (Z.mul_mod_idemp_l (val5 x + _)), <- (Z.mul_mod_idemp_l (_ mod _ + _)) by done.
  by rewrite Z.add_mod_idemp_l.
Qed.

(** ** The tag as bytes *)

Lemma le_bytes_words w0 w1 w2 w3 :
  word w0 -> word w1 -> word w2 -> word w3 ->
  le_bytes 4 w0 ++ le_bytes 4 w1 ++ le_bytes 4 w2 ++ le_bytes 4 w3 =
  le_bytes 16 (w0 + w1 * 2 ^ 32 + w2 * 2 ^ 64 + w3 * 2 ^ 96).
Proof.
  unfold word. intros. set (x := w0 + _ + _ + _).
  change 16%nat with (4 + (4 + (4 + 4)))%nat. rewrite !(le_bytes_app 4).
  change (8 * Z.of_nat 4) with 32. rewrite !Z.div_div by lia.
  assert (x / 2 ^ 32 = w1 + w2 * 2 ^ 32 + w3 * 2 ^ 64) as -> by (unfold x; Z.div_mod_to_equations; lia).
  assert (x / (2 ^ 32 * 2 ^ 32) = w2 + w3 * 2 ^ 32) as -> by (unfold x; Z.div_mod_to_equations; lia).
  assert (x / (2 ^ 32 * 2 ^ 32 * 2 ^ 32) = w3) as -> by (unfold x; Z.div_mod_to_equations; lia).
  rewrite <- !(le_bytes_mod 4 (_ + _)), <- (le_bytes_mod 4 x).
  change (8 * Z.of_nat 4) with 32.
  assert (x mod 2 ^ 32 = w0) as -> by (unfold x; Z.div_mod_to_equations; lia).
  do 2 f_equal; [|f_equal]; f_equal; Z.div_mod_to_equations; lia.
Qed.

(** ** The tag *)

Lemma select c x g :
  0 <= c <= 1 -> word x -> word g ->
  Z.lor (Z.land x (u32 (Z.lnot (u32 (0 - c))))) (Z.land g (u32 (0 - c))) = if c =? 0 then x else g.
Proof.
  unfold word. intros Hc Hx Hg.
  assert (forall y, 0 <= y < 2 ^ 32 -> Z.land y (2 ^ 32 - 1) = y) as L.
  { intros y Hy. change (2 ^ 32 - 1) with (Z.ones 32). rewrite Z.land_ones by lia. by apply Z.mod_small. }
  assert (c = 0 \/ c = 1) as [-> | ->] by lia; cbn [Z.eqb].
  - change (u32 (0 - 0)) with 0. change (u32 (Z.lnot 0)) with (2 ^ 32 - 1).
    rewrite L, Z.land_0_r, Z.lor_0_r by done. done.
  - change (u32 (0 - 1)) with (2 ^ 32 - 1). change (u32 (Z.lnot (2 ^ 32 - 1))) with 0.
    rewrite L, Z.land_0_r by done. done.
Qed.

(** Four words written one after the other. *)
Lemma put_words mac w0 w1 w2 w3 :
  word w0 -> word w1 -> word w2 -> word w3 -> 16 <= zlen mac ->
  (mac ← MBEDTLS_PUT_UINT32_LE w0 mac 0;
   mac ← MBEDTLS_PUT_UINT32_LE w1 mac 4;
   mac ← MBEDTLS_PUT_UINT32_LE w2 mac 8;
   MBEDTLS_PUT_UINT32_LE w3 mac 12) =
  Done (splice mac 0 (le_bytes 16 (w0 + w1 * 2 ^ 32 + w2 * 2 ^ 64 + w3 * 2 ^ 96))).
Proof.
  intros W0 W1 W2 W3 Hm. unfold MBEDTLS_PUT_UINT32_LE.
  assert (forall x, zlen (le_bytes 4 x) = 4) as L by (intros; apply le_bytes_length).
  assert (forall b out x, zlen out + 4 <= zlen b -> store (splice b 0 out) (zlen out) (le_bytes 4 x) =
    Done (splice b 0 (out ++ le_bytes 4 x))) as St by (intros; apply store_behind; rewrite L; lia).
  rewrite <- (splice_nil mac 0) at 1 by lia. pose proof (St mac [] w0) as E0.
  change (@zlen Z []) with 0 in E0. rewrite E0, bind_Done by lia. cbn [app].
  pose proof (St mac (le_bytes 4 w0) w1) as E. rewrite L in E. rewrite E, bind_Done by lia.
  pose proof (St mac (le_bytes 4 w0 ++ le_bytes 4 w1) w2) as E2. rewrite zlen_app, !L in E2. change (4 + 4) with 8 in E2.
  rewrite E2, bind_Done by lia.
  pose proof (St mac ((le_bytes 4 w0 ++ le_bytes 4 w1) ++ le_bytes 4 w2) w3) as E3.
  rewrite !zlen_app, !L in E3. change (4 + 4 + 4) with 12 in E3. rewrite E3 by lia. rewrite <- !app_assoc. by rewrite le_bytes_words.
Qed.

(** The accumulator brought below the modulus by the comparison with 2^130 - 5. *)
Lemma full_reduction x0 x1 x2 x3 x4 e0 e1 e2 e3 c3 :
  word x0 -> word x1 -> word x2 -> word x3 -> 0 <= x4 <= 4 ->
  e0 = x0 + 5 -> e1 = x1 + e0 / 2 ^ 32 -> e2 = x2 + e1 / 2 ^ 32 -> e3 = x3 + e2 / 2 ^ 32 ->
  c3 = e3 / 2 ^ 32 ->
  let v := x0 + x1 * 2 ^ 32 + x2 * 2 ^ 64 + x3 * 2 ^ 96 + x4 * 2 ^ 128 in
  v mod P1305 = if (x4 + c3) / 2 ^ 2 =? 0 then v
                else u32 e0 + u32 e1 * 2 ^ 32 + u32 e2 * 2 ^ 64 + u32 e3 * 2 ^ 96 + (x4 + c3 - 4) * 2 ^ 128.
Proof.
  intros H0 H1 H2 H3 H4 E0 E1 E2 E3 C3 v. unfold word in *.
  assert (v + 5 = u32 e0 + u32 e1 * 2 ^ 32 + u32 e2 * 2 ^ 64 + u32 e3 * 2 ^ 96 + (x4 + c3) * 2 ^ 128) as V.
  { unfold v, u32. Z.div_mod_to_equations. lia. }
  pose proof (u32_word e0) as U0. pose proof (u32_word e1) as U1. pose proof (u32_word e2) as U2.
  pose proof (u32_word e3) as U3. unfold word in *. assert (0 <= v < 5 * 2 ^ 128) by (unfold v; lia).
  clearbody v. clear E0 E1 E2 E3. destruct (_ =? 0) eqn:E; bool_to_prop.
  - apply Z.mod_small. unfold P1305. Z.div_mod_to_equations. lia.
  - assert (v mod P1305 = v - P1305) as ->.
    { symmetry. apply (Z.mod_unique_pos _ _ 1); unfold P1305; Z.div_mod_to_equations; lia. }
    unfold P1305. lia.
Qed.

Lemma compute_mac_spec ctx mac :
  acc_ok (acc ctx) -> word (l0 (s ctx)) -> word (l1 (s ctx)) -> word (l2 (s ctx)) -> word (l3 (s ctx)) ->
  16 <= zlen mac ->
  poly1305_compute_mac ctx mac =
    Done (splice mac 0 (le_bytes 16 (val5 (acc ctx) mod P1305 + val4 (s ctx)))).
Proof.
  destruct ctx as [rr [s0 s1 s2 s3] [x0 x1 x2 x3 x4] q n]. unfold acc_ok, val5, val4, poly1305_compute_mac.
  cbn [acc s a0 a1 a2 a3 a4 l0 l1 l2 l3].
  intros (H0 & H1 & H2 & H3 & H4) S0 S1 S2 S3 Hm. cbv zeta. rewrite !Z.shiftr_div_pow2 by lia.
  unfold word in *.
  no_wrap u64 (x0 + 5) e0. no_wrap u64 (x1 + e0 / 2 ^ 32) e1. no_wrap u64 (x2 + e1 / 2 ^ 32) e2.
  no_wrap u64 (x3 + e2 / 2 ^ 32) e3. no_wrap u32 (e3 / 2 ^ 32) c3.
  rewrite (u32_small (x4 + c3)) by (Z.div_mod_to_equations; lia).
  rewrite !select by (unfold word; (try apply u32_word); Z.div_mod_to_equations; lia).
  rewrite (full_reduction x0 x1 x2 x3 x4 e0 e1 e2 e3 c3) by done.
  assert (exists y0 y1 y2 y3 k, word y0 /\ word y1 /\ word y2 /\ word y3 /\
    (if (x4 + c3) / 2 ^ 2 =? 0 then x0 else u32 e0) = y0 /\ (if (x4 + c3) / 2 ^ 2 =? 0 then x1 else u32 e1) = y1 /\
    (if (x4 + c3) / 2 ^ 2 =? 0 then x2 else u32 e2) = y2 /\ (if (x4 + c3) / 2 ^ 2 =? 0 then x3 else u32 e3) = y3 /\
    (if (x4 + c3) / 2 ^ 2 =? 0 then x0 + x1 * 2 ^ 32 + x2 * 2 ^ 64 + x3 * 2 ^ 96 + x4 * 2 ^ 128
     else u32 e0 + u32 e1 * 2 ^ 32 + u32 e2 * 2 ^ 64 + u32 e3 * 2 ^ 96 + (x4 + c3 - 4) * 2 ^ 128) =
      y0 + y1 * 2 ^ 32 + y2 * 2 ^ 64 + y3 * 2 ^ 96 + k * 2 ^ 128)
    as (y0 & y1 & y2 & y3 & k & Y0 & Y1 & Y2 & Y3 & -> & -> & -> & -> & ->).
  { destruct (_ =? 0); do 5 eexists; split_and!; try reflexivity; try apply u32_word; done. }
  clear dependent x0 x1 x2 x3 x4. unfold word in *.
  no_wrap u64 (y0 + s0) f0. no_wrap u64 (y1 + s1 + f0 / 2 ^ 32) f1. no_wrap u64 (y2 + s2 + f1 / 2 ^ 32) f2.
  no_wrap u32 (f2 / 2 ^ 32) c2. rewrite put_words by (apply u32_word || done). do 2 f_equal.
  set (t := y3 + u32 (s3 + c2)).
  assert (exists j, t = u32 t + (j * 2 ^ 32) /\ exists i, u32 (s3 + c2) = s3 + c2 - i * 2 ^ 32) as (j & Ej & i & Ei).
  { exists (t / 2 ^ 32). unfold u32. split; [Z.div_mod_to_equations; lia|].
    exists ((s3 + c2) / 2 ^ 32). Z.div_mod_to_equations; lia. }
  symmetry. apply (le_bytes_congr 16 _ _ (k + j + i)). change (8 * Z.of_nat 16) with 128.
  unfold t in Ej. rewrite Ei in Ej. fold t in Ej. unfold u32 in *. Z.div_mod_to_equations. lia.
Qed.

(** ** Reading blocks *)

Lemma le_words b off :
  0 <= off -> off + 16 <= zlen b ->
  le (ztake 16 (zdrop off b)) =
    val4 (L4 (le (ztake 4 (zdrop off b))) (le (ztake 4 (zdrop (off + 4) b)))
             (le (ztake 4 (zdrop (off + 8) b))) (le (ztake 4 (zdrop (off + 12) b)))).
Proof.
  intros H0 H1. change 16 with (4 + (4 + (4 + 4))). rewrite !ztake_add, !zdrop_zdrop by lia.
  replace (off + (4 + 4)) with (off + 8) by lia. replace (off + 4 + 4) with (off + 8) by lia.
  replace (off + 8 + 4) with (off + 12) by lia.
  rewrite !le_app. unfold val4. cbn [l0 l1 l2 l3]. rewrite !zlen_ztake by zlens.
  change (8 * 4) with 32. ring.
Qed.

(** ** Horner's rule in pieces *)

Lemma horner_add n n' k a m :
  horner (n + n') k a m = horner n' k (horner n k a m) (zdrop (16 * Z.of_nat n) m).
Proof.
  revert a m. induction n as [|n IH]; intros a m; cbn [Nat.add horner].
  - by change (16 * Z.of_nat 0) with 0.
  - rewrite IH, zdrop_zdrop by lia. do 2 f_equal. lia.
Qed.

Lemma horner_app n k a m m' :
  16 * Z.of_nat n <= zlen m -> horner n k a (m ++ m') = horner n k a m.
Proof.
  revert a m. induction n as [|n IH]; intros a m Hm; cbn [horner]; [done|].
  rewrite ztake_app_l, zdrop_app_l by lia. apply IH. zlens.
Qed.

Lemma process_loop_spec rr input n : r_ok rr -> is_bytes input ->
  forall x off, acc_ok x -> 0 <= off -> off + 16 * Z.of_nat n <= zlen input ->
  exists y, process_loop n rr x input off 1 = Done y /\ acc_ok y /\
    val5 y mod P1305 = horner n (val4 rr) (val5 x mod P1305) (zdrop off input).
Proof.
  intros Hr Hb. induction n as [|n IH]; intros x off Hx Ho Hl; cbn [process_loop horner].
  { exists x. done. }
  destruct (get_uint32_spec input (off + 0)) as [-> W0]; [lia..|done|].
  destruct (get_uint32_spec input (off + 4)) as [-> W1]; [lia..|done|].
  destruct (get_uint32_spec input (off + 8)) as [-> W2]; [lia..|done|].
  destruct (get_uint32_spec input (off + 12)) as [-> W3]; [lia..|done|].
  rewrite !bind_Done. rewrite Z.add_0_r in *.
  destruct (process_block_spec rr x _ _ _ _ 1 Hr Hx W0 W1 W2 W3 ltac:(lia)) as [Hy Vy].
  destruct (IH _ (off + 16) Hy ltac:(lia) ltac:(lia)) as (y & E & Hok & V).
  exists y. split_and!; [done..|]. rewrite V, Vy, zdrop_zdrop by lia. do 2 f_equal.
  rewrite le_app, le_words by lia. rewrite zlen_ztake by zlens. change (8 * 16) with 128. cbn [le].
  f_equal.
Qed.

(** ** The streaming state *)

(** The context has absorbed the message [m]: the accumulator stands for its whole blocks,
    the queue holds the rest. *)
Record absorbed (key m : list Z) (ctx : mbedtls_poly1305_context) : Prop := Absorbed {
  ab_r : r_ok (r ctx);
  ab_rv : val4 (r ctx) = clamp (le (ztake 16 key));
  ab_s : word (l0 (s ctx)) /\ word (l1 (s ctx)) /\ word (l2 (s ctx)) /\ word (l3 (s ctx));
  ab_sv : val4 (s ctx) = le (ztake 16 (zdrop 16 key));
  ab_acc : acc_ok (acc ctx);
  ab_val : val5 (acc ctx) mod P1305 =
    horner (Z.to_nat (zlen m / 16)) (clamp (le (ztake 16 key))) 0 m;
  ab_queue : zlen (queue ctx) = 16;
  ab_bytes : is_bytes (queue ctx);
  ab_len : queue_len ctx = zlen m mod 16;
  ab_tail : ztake (queue_len ctx) (queue ctx) = zdrop (zlen m / 16 * 16) m
}.

Lemma land_split a b c d n :
  0 <= n -> 0 <= a < 2 ^ n -> 0 <= c < 2 ^ n ->
  Z.land (a + b * 2 ^ n) (c + d * 2 ^ n) = Z.land a c + Z.land b d * 2 ^ n.
Proof.
  intros Hn Ha Hc. rewrite !(Z.add_comm _ (_ * 2 ^ n)).
  rewrite <- !lor_shiftl_add by (first [done | split; [apply Z.land_nonneg; lia|];
    apply Z.le_lt_trans with c; [apply land_le_r; lia|lia]]).
  rewrite Z.shiftl_land. apply Z.bits_inj'. intros i Hi. rewrite !Z.lor_spec, !Z.land_spec, !Z.lor_spec.
  assert (forall x, 0 <= x < 2 ^ n -> n <= i -> Z.testbit x i = false) as Hb.
  { intros x Hx Hni. rewrite <- (Z.mod_small x (2 ^ n)) by done. by apply Z.mod_pow2_bits_high. }
  destruct (Z.lt_ge_cases i n).
  - rewrite !Z.shiftl_spec_low by done. by rewrite !orb_false_l.
  - rewrite (Hb a), (Hb c) by done. by rewrite !orb_false_r.
Qed.

Lemma clamp_words w0 w1 w2 w3 :
  word w0 -> word w1 -> word w2 -> word w3 ->
  let rr := L4 (Z.land w0 0x0FFFFFFF) (Z.land w1 0x0FFFFFFC) (Z.land w2 0x0FFFFFFC) (Z.land w3 0x0FFFFFFC) in
  val4 rr = clamp (val4 (L4 w0 w1 w2 w3)) /\ r_ok rr.
Proof.
  intros W0 W1 W2 W3 rr. unfold word in *. split.
  - unfold clamp, val4, rr. cbn [l0 l1 l2 l3].
    replace (w0 + w1 * 2 ^ 32 + w2 * 2 ^ 64 + w3 * 2 ^ 96)
      with (w0 + (w1 + (w2 + w3 * 2 ^ 32) * 2 ^ 32) * 2 ^ 32) by ring.
    change 0x0ffffffc0ffffffc0ffffffc0fffffff
      with (0x0fffffff + (0x0ffffffc + (0x0ffffffc + 0x0ffffffc * 2 ^ 32) * 2 ^ 32) * 2 ^ 32).
    rewrite !land_split by lia. ring.
  - assert (forall x, Z.land x 0x0FFFFFFC mod 4 = 0) as M.
    { intros x. change 4 with (2 ^ 2). rewrite <- Z.land_ones, <- Z.land_assoc by lia.
      apply Z.land_0_r. }
    unfold r_ok, rr. cbn [l0 l1 l2 l3].
    pose proof (land_le_r w0 0x0FFFFFFF). pose proof (land_le_r w1 0x0FFFFFFC).
    pose proof (land_le_r w2 0x0FFFFFFC). pose proof (land_le_r w3 0x0FFFFFFC).
    rewrite !M. lia.
Qed.

Lemma starts_spec ctx key :
  is_bytes key -> 32 <= zlen key ->
  exists ctx', mbedtls_poly1305_starts ctx key = Done (0, ctx') /\ absorbed key [] ctx'.
Proof.
  intros Hb Hl. unfold mbedtls_poly1305_starts.
  destruct (get_uint32_spec key 0) as [-> K0]; [lia..|done|].
  destruct (get_uint32_spec key 4) as [-> K1]; [lia..|done|].
  destruct (get_uint32_spec key 8) as [-> K2]; [lia..|done|].
  destruct (get_uint32_spec key 12) as [-> K3]; [lia..|done|].
  destruct (get_uint32_spec key 16) as [-> S0]; [lia..|done|].
  destruct (get_uint32_spec key 20) as [-> S1]; [lia..|done|].
  destruct (get_uint32_spec key 24) as [-> S2]; [lia..|done|].
  destruct (get_uint32_spec key 28) as [-> S3]; [lia..|done|].
  rewrite !bind_Done. eexists. split; [reflexivity|].
  destruct (clamp_words _ _ _ _ K0 K1 K2 K3) as [C R].
  pose proof (le_words key 0 ltac:(lia) ltac:(lia)) as E0. rewrite zdrop_0 in E0.
  pose proof (le_words key 16 ltac:(lia) ltac:(lia)) as E1.
  constructor; cbn [r s acc queue queue_len];
    [exact R|by rewrite C, E0, zdrop_0|done|by symmetry| |done|done| |done|done].
  - unfold acc_ok, word. cbn [a0 a1 a2 a3 a4]. lia.
  - by apply Forall_replicate.
Qed.

Section update.
Context (key : list Z).
Let k : Z := clamp (le (ztake 16 key)).

(** The second half of an update, on an empty queue. *)
Lemma update_blocks_spec ctx m input off rem :
  absorbed key m ctx -> zlen m mod 16 = 0 -> is_bytes input ->
  0 <= off -> 0 <= rem -> off + rem <= zlen input ->
  exists ctx', update_blocks ctx input off rem = Done (0, ctx') /\
    absorbed key (m ++ ztake rem (zdrop off input)) ctx'.
Proof.
  intros Hab Hm Hb Ho Hr Hl. destruct Hab as [Ar Arv As Asv Aacc Aval Aq Ab Alen Atail].
  set (x := ztake rem (zdrop off input)). assert (zlen x = rem) as Lx by (unfold x; zlens).
  pose proof (zlen_nonneg m) as Hm0. pose (n := rem / 16).
  assert (0 <= n /\ n * 16 <= rem /\ rem mod 16 = rem - n * 16 /\ rem < (n + 1) * 16) as (N0 & N1 & N2 & N3)
    by (unfold n; Z.div_mod_to_equations; lia).
  assert (zlen (m ++ x) / 16 = zlen m / 16 + n) as Ld
    by (rewrite zlen_app, Lx; unfold n; Z.div_mod_to_equations; lia).
  assert (zlen (m ++ x) mod 16 = rem mod 16) as Lm
    by (rewrite zlen_app, Lx; Z.div_mod_to_equations; lia).
  assert (zdrop (zlen (m ++ x) / 16 * 16) (m ++ x) = ztake (rem mod 16) (zdrop (off + n * 16) input)) as Lt.
  { rewrite Ld, zdrop_app_r by (Z.div_mod_to_equations; lia).
    replace ((zlen m / 16 + n) * 16 - zlen m) with (n * 16) by (Z.div_mod_to_equations; lia).
    unfold x. rewrite N2. unfold ztake, zdrop. rewrite skipn_firstn_comm, drop_drop.
    do 2 f_equal; lia. }
  destruct (process_loop_spec (r ctx) input (Z.to_nat n) Ar Hb (acc ctx) off Aacc Ho ltac:(lia))
    as (y & Ey & Hy & Vy).
  assert (val5 y mod P1305 = horner (Z.to_nat (zlen (m ++ x) / 16)) k 0 (m ++ x)) as Vx.
  { rewrite Vy, Aval, Arv, Ld, Z2Nat.inj_add by (Z.div_mod_to_equations; lia).
    rewrite horner_add. fold k.
    assert (16 * Z.of_nat (Z.to_nat (zlen m / 16)) = zlen m) as E16 by (Z.div_mod_to_equations; lia).
    rewrite horner_app by lia. rewrite E16, zdrop_app_r, Z.sub_diag, zdrop_0 by lia.
    unfold x. rewrite <- (ztake_zdrop rem (zdrop off input)) at 1. apply horner_app. fold x. lia. }
  assert (exists ctx1, (if rem >=? 16 then
       ctx ← poly1305_process ctx n input off 1; mret (ctx, off + n * 16, rem mod 16)
     else mret (ctx, off, rem)) = Done (ctx1, off + n * 16, rem mod 16) /\
     r ctx1 = r ctx /\ s ctx1 = s ctx /\ acc ctx1 = y /\ queue ctx1 = queue ctx /\
     queue_len ctx1 = queue_len ctx) as (ctx1 & Ec & C1 & C2 & C3 & C4 & C5).
  { destruct (rem >=? 16) eqn:E16; bool_to_prop.
    - eexists. unfold poly1305_process. rewrite Ey, !bind_Done. split; [reflexivity|done].
    - exists ctx. assert (n = 0) as E0 by lia. rewrite E0 in Ey. injection Ey as <-.
      rewrite E0, Z.mod_small by lia. by rewrite Z.add_0_r. }
  unfold update_blocks. fold n. cbv zeta. rewrite Ec, bind_Done. cbv beta iota.
  destruct (0 <? rem mod 16) eqn:Er; bool_to_prop.
  - rewrite load_Done, bind_Done by lia. set (bs := ztake (rem mod 16) _) in *.
    assert (zlen bs = rem mod 16) as Lb by (unfold bs; by rewrite zlen_ztake by (rewrite zlen_zdrop by lia; lia)).
    rewrite store_splice, bind_Done by (rewrite ?C4; lia). eexists. split; [reflexivity|].
    assert (is_bytes bs) by (by apply is_bytes_ztake, is_bytes_zdrop).
    constructor; cbn [r s acc queue queue_len set_queue]; rewrite ?C1, ?C2, ?C3, ?C4; try done.
    + rewrite zlen_splice; lia.
    + unfold splice. auto 7 with zlist.
    + by rewrite Lt, <- Lb, splice_0_prefix by lia.
  - eexists. split; [reflexivity|].
    constructor; rewrite ?C1, ?C2, ?C3, ?C4, ?C5; try done; [lia|].
    rewrite Lt, Alen, Hm. by replace (rem mod 16) with 0 by lia.
Qed.

Lemma splice_front b d out :
  0 <= d -> d + zlen out <= zlen b -> ztake (d + zlen out) (splice b d out) = ztake d b ++ out.
Proof.
  intros H0 H1. pose proof (zlen_nonneg out). unfold splice. rewrite app_assoc.
  assert (zlen (ztake d b ++ out) = d + zlen out) as L by (rewrite zlen_app, zlen_ztake; lia).
  rewrite ztake_app_l by lia. apply ztake_all. lia.
Qed.

(** Bytes that join the queue: they do not complete the block, or they do and it is
    processed. *)
Lemma queue_append ctx m bs :
  absorbed key m ctx -> is_bytes bs -> zlen m mod 16 + zlen bs < 16 ->
  absorbed key (m ++ bs) (set_queue ctx (splice (queue ctx) (queue_len ctx) bs) (queue_len ctx + zlen bs)).
Proof.
  intros [Ar Arv As Asv Aacc Aval Aq Ab Alen Atail] Hb Hl.
  pose proof (Z.mod_pos_bound (zlen m) 16 ltac:(lia)). pose proof (zlen_nonneg bs). pose proof (zlen_nonneg m).
  assert (zlen (m ++ bs) / 16 = zlen m / 16) as Ed by (rewrite zlen_app; Z.div_mod_to_equations; lia).
  constructor; cbn [r s acc queue queue_len set_queue]; rewrite ?Ed; try done.
  - rewrite horner_app; [done|]. Z.div_mod_to_equations; lia.
  - rewrite zlen_splice; lia.
  - unfold splice. auto 7 with zlist.
  - rewrite zlen_app. Z.div_mod_to_equations; lia.
  - rewrite splice_front, Atail, zdrop_app_l by (Z.div_mod_to_equations; lia). done.
Qed.

Lemma queue_complete ctx m bs :
  absorbed key m ctx -> is_bytes bs -> zlen m mod 16 + zlen bs = 16 ->
  exists ctx1, poly1305_process (set_queue ctx (splice (queue ctx) (queue_len ctx) bs) 0) 1
      (splice (queue ctx) (queue_len ctx) bs) 0 1 = Done ctx1 /\ absorbed key (m ++ bs) ctx1.
Proof.
  intros [Ar Arv As Asv Aacc Aval Aq Ab Alen Atail] Hb Hl.
  pose proof (Z.mod_pos_bound (zlen m) 16 ltac:(lia)). pose proof (zlen_nonneg bs). pose proof (zlen_nonneg m).
  set (q := splice (queue ctx) (queue_len ctx) bs).
  assert (zlen q = 16) as Lq by (unfold q; rewrite zlen_splice; lia).
  assert (is_bytes q) as Bq by (unfold q, splice; auto 7 with zlist).
  assert (q = zdrop (zlen m / 16 * 16) (m ++ bs)) as Eq.
  { rewrite zdrop_app_l, <- Atail by (Z.div_mod_to_equations; lia).
    rewrite <- (ztake_all 16 q), <- Hl, <- Alen by lia. unfold q. apply splice_front; lia. }
  destruct (process_loop_spec (r ctx) q 1 Ar Bq (acc ctx) 0 Aacc ltac:(lia) ltac:(lia)) as (y & Ey & Hy & Vy).
  unfold poly1305_process. cbn [r s acc set_queue queue queue_len].
  change (Z.to_nat 1) with 1%nat. rewrite Ey, bind_Done. eexists. split; [reflexivity|].
  assert (zlen (m ++ bs) / 16 = zlen m / 16 + 1) as Ed by (rewrite zlen_app; Z.div_mod_to_equations; lia).
  constructor; cbn [r s acc queue queue_len]; rewrite ?Ed; try done.
  - rewrite Vy, Aval, Arv, Z2Nat.inj_add by (Z.div_mod_to_equations; lia).
    rewrite horner_add, zdrop_0. fold k.
    rewrite (horner_app (Z.to_nat (zlen m / 16))) by (Z.div_mod_to_equations; lia).
    rewrite Eq. do 2 f_equal. rewrite Z2Nat.id by (Z.div_mod_to_equations; lia). lia.
  - rewrite zlen_app. Z.div_mod_to_equations; lia.
  - rewrite ztake_0, zdrop_all; [done|]. rewrite zlen_app. Z.div_mod_to_equations; lia.
Qed.

Lemma update_spec ctx m input ilen :
  absorbed key m ctx -> is_bytes input -> 0 <= ilen <= zlen input -> ilen < 2 ^ 64 ->
  exists ctx', mbedtls_poly1305_update ctx input ilen = Done (0, ctx') /\
    absorbed key (m ++ ztake ilen input) ctx'.
Proof.
  intros Hab Hb Hl Hm. pose proof Hab as [Ar Arv As Asv Aacc Aval Aq Ab Alen Atail].
  unfold mbedtls_poly1305_update, update_queue.
  pose proof (Z.mod_pos_bound (zlen m) 16 ltac:(lia)) as Hq.
  destruct (_ && _) eqn:E.
  2: { rewrite bind_Done. cbv beta iota.
       destruct (Z.eq_dec (zlen m mod 16) 0) as [E0|E0].
       - destruct (update_blocks_spec ctx m input 0 ilen Hab E0 Hb ltac:(lia) ltac:(lia) ltac:(lia))
           as (ctx' & Hu & Ha). by exists ctx'.
       - assert (ilen = 0) as -> by (rewrite Alen in E; apply andb_false_iff in E as [E|E]; bool_to_prop; lia).
         exists ctx. by rewrite ztake_0, app_nil_r. }
  bool_to_prop. rewrite size_sub_le by lia. destruct (ilen <? _) eqn:Ei; bool_to_prop.
  - rewrite load_Done, zdrop_0, bind_Done by lia.
    assert (zlen (ztake ilen input) = ilen) as L by (rewrite zlen_ztake; lia).
    rewrite store_splice, !bind_Done by lia. cbv beta iota. unfold update_blocks. cbn [Z.geb Z.compare].
    rewrite bind_Done. cbv beta iota. cbn [Z.ltb Z.compare]. eexists. split; [reflexivity|].
    unfold u64. rewrite Z.mod_small by lia. rewrite <- L at 3.
    apply queue_append; [done|auto with zlist|lia].
  - set (f := 16 - queue_len ctx) in *. rewrite load_Done, zdrop_0, bind_Done by lia.
    assert (zlen (ztake f input) = f) as L by (rewrite zlen_ztake; lia).
    rewrite store_splice, !bind_Done by lia.
    destruct (queue_complete ctx m (ztake f input) Hab ltac:(auto with zlist) ltac:(lia)) as (ctx1 & -> & Ha).
    rewrite !bind_Done. cbv beta iota. rewrite size_sub_le by lia.
    destruct (update_blocks_spec ctx1 _ input f (ilen - f) Ha) as (ctx' & Hu & Ha'); try done; try lia.
    { rewrite zlen_app, L. unfold f. rewrite Alen. Z.div_mod_to_equations; lia. }
    exists ctx'. split; [done|]. rewrite <- app_assoc, <- ztake_add in Ha' by lia.
    by replace (f + (ilen - f)) with ilen in Ha' by lia.
Qed.
End update.

(** ** Finishing *)

(** One block whose padding bit is in the block already. *)
Lemma process_last rr x q :
  r_ok rr -> acc_ok x -> is_bytes q -> zlen q = 16 ->
  exists y, process_loop 1 rr x q 0 0 = Done y /\ acc_ok y /\
    val5 y mod P1305 = (val5 x mod P1305 + le q) * val4 rr mod P1305.
Proof.
  intros Hr Hx Hb Hl. cbn [process_loop].
  destruct (get_uint32_spec q (0 + 0)) as [-> W0]; [lia..|done|].
  destruct (get_uint32_spec q (0 + 4)) as [-> W1]; [lia..|done|].
  destruct (get_uint32_spec q (0 + 8)) as [-> W2]; [lia..|done|].
  destruct (get_uint32_spec q (0 + 12)) as [-> W3]; [lia..|done|].
  rewrite !bind_Done.
  destruct (process_block_spec rr x _ _ _ _ 0 Hr Hx W0 W1 W2 W3 ltac:(lia)) as [Hy Vy].
  eexists. split; [reflexivity|]. split; [done|]. rewrite Vy.
  pose proof (le_words q 0 ltac:(lia) ltac:(lia)) as E. rewrite zdrop_0, ztake_all in E by lia.
  rewrite E. cbn [Z.add]. rewrite !zdrop_0. by rewrite Z.mul_0_l, Z.add_0_r.
Qed.

Lemma finish_spec key ctx m mac :
  absorbed key m ctx -> 16 <= zlen mac ->
  exists ctx', mbedtls_poly1305_finish ctx mac = Done (0, ctx', splice mac 0 (rfc_poly1305 key m)).
Proof.
  intros [Ar Arv As Asv Aacc Aval Aq Ab Alen Atail] Hm. destruct As as (S0 & S1 & S2 & S3).
  pose proof (Z.mod_pos_bound (zlen m) 16 ltac:(lia)) as Hq. pose proof (zlen_nonneg m).
  unfold mbedtls_poly1305_finish, rfc_poly1305. destruct (0 <? queue_len ctx) eqn:E; bool_to_prop.
  2: { rewrite bind_Done. rewrite compute_mac_spec, bind_Done by done. exists ctx.
       rewrite Aval, Asv. do 6 f_equal. Z.div_mod_to_equations; lia. }
  set (t := ztake (queue_len ctx) (queue ctx)) in *.
  assert (zlen t = queue_len ctx) as Lt by (unfold t; rewrite zlen_ztake; lia).
  assert (is_bytes t) as Bt by (unfold t; auto with zlist).
  unfold u64. rewrite Z.mod_small, size_sub_le by lia. set (z := replicate _ 0).
  assert (zlen z = 15 - queue_len ctx) as Lz by (unfold z; rewrite zlen_replicate; lia).
  rewrite store_splice, bind_Done by (rewrite ?zlen_singleton; lia).
  rewrite store_splice, bind_Done by (rewrite ?zlen_splice; rewrite ?zlen_singleton; lia).
  change (queue_len ctx + 1) with (queue_len ctx + zlen [1]).
  rewrite splice_splice by (rewrite ?zlen_singleton; lia). set (q := splice _ _ _).
  assert (q = t ++ [1] ++ z) as Eq.
  { unfold q, splice. fold t. rewrite (zdrop_all (_ + _)), app_nil_r; [done|].
    rewrite zlen_app, zlen_singleton. lia. }
  assert (zlen q = 16) as Lq by (rewrite Eq, !zlen_app, zlen_singleton; lia).
  assert (is_bytes q) as Bq.
  { rewrite Eq. repeat apply Forall_app_2; [done|by repeat constructor|by apply Forall_replicate]. }
  destruct (process_last (r ctx) (acc ctx) q Ar Aacc Bq Lq) as (y & Ey & Hy & Vy).
  unfold poly1305_process. cbn [r s acc set_queue queue queue_len].
  change (Z.to_nat 1) with 1%nat. rewrite Ey, !bind_Done. rewrite compute_mac_spec, bind_Done by done.
  cbn [acc s]. eexists. do 2 f_equal. f_equal.
  rewrite Vy, Aval, Arv, Asv. do 2 f_equal.
  assert ((zlen m + 15) / 16 = zlen m / 16 + 1) as -> by (Z.div_mod_to_equations; lia).
  rewrite Z2Nat.inj_add, horner_add, Z2Nat.id by (Z.div_mod_to_equations; lia).
  rewrite (Z.mul_comm 16), <- Atail. change (Z.to_nat 1) with 1%nat. cbn [horner]. rewrite (ztake_all 16 t) by lia.
  rewrite Eq, (app_assoc t [1] z), le_app. unfold z. rewrite le_zeros. by rewrite Z.mul_0_r, Z.add_0_r.
Qed.

(** A run of updates, one per chunk. *)
Fixpoint run_updates (ctx : mbedtls_poly1305_context) (chunks : list (list Z))
    : outcome mbedtls_poly1305_context :=
  match chunks with
  | [] => mret ctx
  | c :: cs =>
      '(ret, ctx) ← mbedtls_poly1305_update ctx c (zlen c);
      if ret =? 0 then run_updates ctx cs else Fault
  end.

Lemma run_updates_spec key chunks : forall ctx m,
  absorbed key m ctx -> Forall is_bytes chunks -> Forall (fun c => zlen c < 2 ^ 64) chunks ->
  exists ctx', run_updates ctx chunks = Done ctx' /\ absorbed key (m ++ concat chunks) ctx'.
Proof.
  induction chunks as [|c cs IH]; intros ctx m Ha Hb Hl; cbn [run_updates concat].
  { exists ctx. by rewrite app_nil_r. }
  apply Forall_cons in Hb as [Hc Hb]. apply Forall_cons in Hl as [Lc Hl].
  pose proof (zlen_nonneg c).
  destruct (update_spec key ctx m c (zlen c) Ha Hc ltac:(lia) Lc) as (ctx1 & -> & Ha1).
  rewrite bind_Done. cbv beta iota. cbn [Z.eqb]. rewrite (ztake_all (zlen c) c) in Ha1 by lia.
  rewrite app_assoc. by apply IH.
Qed.

(** C13.  However a message is cut into updates, the tag is the one RFC 8439 defines for the
    whole message: no limb, product or carry overflows, the queue never runs over, and
    only the sixteen bytes of the tag are written. *)
Theorem poly1305_stream_correct key chunks mac :
  is_bytes key -> 32 <= zlen key -> Forall is_bytes chunks ->
  Forall (fun c => zlen c < 2 ^ 64) chunks -> 16 <= zlen mac ->
  ('(_, ctx) ← mbedtls_poly1305_starts zeroized key;
   ctx ← run_updates ctx chunks;
   '(ret, _, mac) ← mbedtls_poly1305_finish ctx mac;
   mret (ret, mac)) = Done (0, splice mac 0 (rfc_poly1305 key (concat chunks))).
Proof.
  intros Hk Lk Hb Hl Hm. destruct (starts_spec zeroized key Hk Lk) as (ctx & -> & Ha). rewrite bind_Done.
  cbv beta iota. destruct (run_updates_spec key chunks ctx [] Ha Hb Hl) as (ctx1 & -> & Ha1).
  rewrite bind_Done. destruct (finish_spec key ctx1 _ mac Ha1 Hm) as (ctx2 & ->). by rewrite bind_Done.
Qed.

Lemma poly1305_mac_spec key input ilen mac :
  is_bytes key -> 32 <= zlen key -> is_bytes input -> 0 <= ilen <= zlen input -> ilen < 2 ^ 64 ->
  16 <= zlen mac ->
  mbedtls_poly1305_mac key input ilen mac = Done (0, splice mac 0 (rfc_poly1305 key (ztake ilen input))).
Proof.
  intros Hk Lk Hb Hl Hi Hm. unfold mbedtls_poly1305_mac.
  destruct (starts_spec (mbedtls_poly1305_init zeroized) key Hk Lk) as (ctx & -> & Ha).
  rewrite bind_Done. cbv beta iota. cbn [Z.eqb negb].
  destruct (update_spec key ctx [] input ilen Ha Hb Hl Hi) as (ctx1 & -> & Ha1).
  rewrite bind_Done. cbv beta iota. cbn [Z.eqb negb].
  destruct (finish_spec key ctx1 _ mac Ha1 Hm) as (ctx2 & ->). by rewrite bind_Done.
Qed.

(** ** The self test *)

Definition test_keys : list (list Z) :=
  [[133; 214; 190; 120; 87; 85; 109; 51; 127; 68; 82; 254; 66; 213; 6; 168; 1; 3; 128;
    138; 251; 13; 178; 253; 74; 191; 246; 175; 65; 73; 245; 27];
   [28; 146; 64; 165; 235; 85; 211; 138; 243; 51; 136; 134; 4; 246; 181; 240; 71; 57;
    23; 193; 64; 43; 128; 9; 157; 202; 92; 188; 32; 112; 117; 192]].

Definition test_data : list (list Z) :=
  [[67; 114; 121; 112; 116; 111; 103; 114; 97; 112; 104; 105; 99; 32; 70; 111; 114; 117;
    109; 32; 82; 101; 115; 101; 97; 114; 99; 104; 32; 71; 114; 111; 117; 112];
   [39; 84; 119; 97; 115; 32; 98; 114; 105; 108; 108; 105; 103; 44; 32; 97; 110; 100;
    32; 116; 104; 101; 32; 115; 108; 105; 116; 104; 121; 32; 116; 111; 118; 101; 115;
    10; 68; 105; 100; 32; 103; 121; 114; 101; 32; 97; 110; 100; 32; 103; 105; 109; 98;
    108; 101; 32; 105; 110; 32; 116; 104; 101; 32; 119; 97; 98; 101; 58; 10; 65; 108;
    108; 32; 109; 105; 109; 115; 121; 32; 119; 101; 114; 101; 32; 116; 104; 101; 32; 98;
    111; 114; 111; 103; 111; 118; 101; 115; 44; 10; 65; 110; 100; 32; 116; 104; 101; 32;
    109; 111; 109; 101; 32; 114; 97; 116; 104; 115; 32; 111; 117; 116; 103; 114; 97; 98;
    101; 46]].

Definition test_mac : list (list Z) :=
  [[168; 6; 29; 193; 48; 81; 54; 198; 194; 43; 139; 175; 12; 1; 39; 169];
   [69; 65; 102; 154; 126; 170; 238; 97; 231; 8; 220; 124; 188; 197; 235; 98]].

(** What the test prints is left out. *)
Fixpoint self_test_loop (cases : list (list Z * list Z * list Z)) : outcome Z :=
  match cases with
  | [] => mret 0
  | (key, data, expected) :: cases =>
      '(ret, mac) ← mbedtls_poly1305_mac key data (zlen data) (replicate 16 0);
      if negb (ret =? 0) then mret (-1) else
      if negb (bool_decide (mac = expected)) then mret (-1) else self_test_loop cases
  end.

Definition mbedtls_poly1305_self_test : outcome Z :=
  self_test_loop (zip (zip test_keys test_data) test_mac).

(** The self test passes, and it tests the reference definition as well. *)
Example poly1305_self_test_passes :
  mbedtls_poly1305_self_test = Done 0 /\
  zip_with rfc_poly1305 test_keys test_data = test_mac.
Proof. split; vm_compute; reflexivity. Qed.

Lemma poly1305_stream_correct_witness :
  ('(_, ctx) ← mbedtls_poly1305_starts zeroized (seqZ 1 32);
   ctx ← run_updates ctx [seqZ 0 5; []; seqZ 5 30; seqZ 35 13; [7]];
   '(ret, _, mac) ← mbedtls_poly1305_finish ctx (replicate 18 99);
   mret (ret, mac)) =
  Done (0, rfc_poly1305 (seqZ 1 32) (seqZ 0 48 ++ [7]) ++ [99; 99]).
Proof.
  change (Done _) with (Done (0, splice (replicate 18 99) 0
    (rfc_poly1305 (seqZ 1 32) (concat [seqZ 0 5; []; seqZ 5 30; seqZ 35 13; [7]])))).
  apply poly1305_stream_correct.
  - apply (bool_decide_unpack _). vm_compute. exact I.
  - vm_compute. discriminate.
  - apply (bool_decide_unpack _). vm_compute. exact I.
  - repeat constructor.
  - vm_compute. discriminate.
Defined.
