(* ===== verification/Chacha20.v ===== *)
(** * ChaCha20

    [src/internal/mbedtls/chacha20.c]: the block function, the block counter and the
    streaming interface with its leftover keystream.  The theorems state that the interface
    behaves as one stream: position by position the input is combined with the keystream of
    the blocks [counter], [counter + 1], ... however the input is cut, and a request is
    refused exactly when it would need a block behind the last counter value, so that no
    part of the keystream is used twice; the blocks are those of RFC 8439 ([rfc_block]).  [mbedtls_xor] is from [common.h]. *)

From S2P Require Import Prelude Bytes.

Definition MBEDTLS_ERR_CHACHA20_BAD_INPUT_DATA : Z := -0x51.
Definition CHACHA20_COUNTER_EXHAUSTED : Z := 64 + 1.
Definition CHACHA20_CTR_INDEX : nat := 12.

(** ** Block function *)

Definition ROTL32 (value amount : Z) : Z :=
  Z.lor (u32 (Z.shiftl value amount)) (Z.shiftr value (32 - amount)).

(** [x += y; z ^= x; z <<<= n;] *)
Definition quarter_step (st : list Z) (x y z : nat) (n : Z) : list Z :=
  let st := <[x := u32 (st !!! x + st !!! y)]> st in
  let st := <[z := Z.lxor (st !!! z) (st !!! x)]> st in
  <[z := ROTL32 (st !!! z) n]> st.

Definition chacha20_quarter_round (st : list Z) (a b c d : nat) : list Z :=
  let st := quarter_step st a b d 16 in
  let st := quarter_step st c d b 12 in
  let st := quarter_step st a b d 8 in
  quarter_step st c d b 7.

Definition chacha20_inner_block (st : list Z) : list Z :=
  let st := chacha20_quarter_round st 0 4 8 12 in
  let st := chacha20_quarter_round st 1 5 9 13 in
  let st := chacha20_quarter_round st 2 6 10 14 in
  let st := chacha20_quarter_round st 3 7 11 15 in
  let st := chacha20_quarter_round st 0 5 10 15 in
  let st := chacha20_quarter_round st 1 6 11 12 in
  let st := chacha20_quarter_round st 2 7 8 13 in
  chacha20_quarter_round st 3 4 9 14.

(** Writes the words [ws] from the index [i] on. *)
Fixpoint put_keystream (ws : list Z) (i : Z) (keystream : list Z) : outcome (list Z) :=
  match ws with
  | [] => mret keystream
  | w :: ws => keystream ← MBEDTLS_PUT_UINT32_LE w keystream (i * 4); put_keystream ws (i + 1) keystream
  end.

Definition chacha20_block (initial_state keystream : list Z) : outcome (list Z) :=
  let working_state := Nat.iter 10 chacha20_inner_block initial_state in
  let working_state := zip_with (fun w i => u32 (w + i)) working_state initial_state in
  put_keystream working_state 0 keystream.

(** ** Combining buffers

    [mbedtls_xor] works on words of [w] bytes (16, 8 or 4, as the target has them) and then
    on single bytes.  A word is combined bytewise, whatever its byte order.  The result may
    be one of the operands: every byte is read before it is written. *)

Fixpoint xor_words (fuel : nat) (w : Z) (res : list Z) (ro : Z) (a : list Z) (ao : Z) (b : list Z)
    (bo i n : Z) : outcome (list Z * Z) :=
  match fuel with
  | O => NoFuel
  | S fuel =>
      if i + w <=? n then
        v1 ← load a (ao + i) w;
        v2 ← load b (bo + i) w;
        res ← store res (ro + i) (zip_with Z.lxor v1 v2);
        xor_words fuel w res ro a ao b bo (i + w) n
      else mret (res, i)
  end.

Definition mbedtls_xor (w : Z) (res : list Z) (ro : Z) (a : list Z) (ao : Z) (b : list Z)
    (bo n : Z) : outcome (list Z) :=
  '(res, i) ← xor_words (S (Z.to_nat n)) w res ro a ao b bo 0 n;
  '(res, _) ← xor_words (S (Z.to_nat n)) 1 res ro a ao b bo i n;
  mret res.

(** ** Context *)

Record mbedtls_chacha20_context := Chacha {
  state : list Z;
  keystream8 : list Z;
  keystream_bytes_used : Z
}.

Definition mbedtls_chacha20_init (_ : mbedtls_chacha20_context) : mbedtls_chacha20_context :=
  Chacha (replicate 16 0) (replicate 64 0) 64.

Definition mbedtls_chacha20_free (ctx : option mbedtls_chacha20_context)
    : option mbedtls_chacha20_context :=
  match ctx with None => None | Some _ => Some (Chacha (replicate 16 0) (replicate 64 0) 0) end.

Definition mbedtls_chacha20_setkey (ctx : mbedtls_chacha20_context) (key : list Z)
    : outcome (Z * mbedtls_chacha20_context) :=
  k0 ← MBEDTLS_GET_UINT32_LE key 0;
  k1 ← MBEDTLS_GET_UINT32_LE key 4;
  k2 ← MBEDTLS_GET_UINT32_LE key 8;
  k3 ← MBEDTLS_GET_UINT32_LE key 12;
  k4 ← MBEDTLS_GET_UINT32_LE key 16;
  k5 ← MBEDTLS_GET_UINT32_LE key 20;
  k6 ← MBEDTLS_GET_UINT32_LE key 24;
  k7 ← MBEDTLS_GET_UINT32_LE key 28;
  mret (0, Chacha ([0x61707865; 0x3320646e; 0x79622d32; 0x6b206574; k0; k1; k2; k3; k4; k5; k6; k7]
                   ++ drop 12 (state ctx)) (keystream8 ctx) (keystream_bytes_used ctx)).

Definition mbedtls_chacha20_starts (ctx : mbedtls_chacha20_context) (nonce : list Z) (counter : Z)
    : outcome (Z * mbedtls_chacha20_context) :=
  n0 ← MBEDTLS_GET_UINT32_LE nonce 0;
  n1 ← MBEDTLS_GET_UINT32_LE nonce 4;
  n2 ← MBEDTLS_GET_UINT32_LE nonce 8;
  mret (0, Chacha (take 12 (state ctx) ++ [counter; n0; n1; n2]) (replicate 64 0) 64).

Definition counter_of (ctx : mbedtls_chacha20_context) : Z := state ctx !!! CHACHA20_CTR_INDEX.

Definition mbedtls_chacha20_check_counter_wrap (ctx : mbedtls_chacha20_context) (size : Z) : Z :=
  if keystream_bytes_used ctx >=? CHACHA20_COUNTER_EXHAUSTED then
    (if size =? 0 then 0 else MBEDTLS_ERR_CHACHA20_BAD_INPUT_DATA)
  else if size >? (2 ^ 64 - 1) / 2 then MBEDTLS_ERR_CHACHA20_BAD_INPUT_DATA else
  let blocks size :=
    let needed_blocks := size / 64 in
    let needed_blocks := if size mod 64 =? 0 then needed_blocks else needed_blocks + 1 in
    if needed_blocks >? u64 ((2 ^ 32 - 1) + 1 - counter_of ctx)
    then MBEDTLS_ERR_CHACHA20_BAD_INPUT_DATA else 0 in
  if keystream_bytes_used ctx <? 64 then
    let available_keystream := 64 - keystream_bytes_used ctx in
    if size <=? available_keystream then 0
    else if counter_of ctx =? 0 then MBEDTLS_ERR_CHACHA20_BAD_INPUT_DATA
    else blocks (size - available_keystream)
  else blocks size.

(** The keystream bytes left from the previous block. *)
Fixpoint use_leftover (fuel : nat) (ctx : mbedtls_chacha20_context) (input output : list Z)
    (offset size : Z) : outcome (mbedtls_chacha20_context * list Z * Z * Z) :=
  match fuel with
  | O => NoFuel
  | S fuel =>
      if (0 <? size) && (keystream_bytes_used ctx <? 64) then
        x ← load8 input offset;
        k ← load8 (keystream8 ctx) (keystream_bytes_used ctx);
        output ← store output offset [Z.lxor x k];
        let used := keystream_bytes_used ctx + 1 in
        let used := if (used =? 64) && (counter_of ctx =? 0) then CHACHA20_COUNTER_EXHAUSTED else used in
        use_leftover fuel (Chacha (state ctx) (keystream8 ctx) used) input output (offset + 1) (size - 1)
      else mret (ctx, output, offset, size)
  end.

(** Generates a block of keystream and increments the counter. *)
Definition next_block (ctx : mbedtls_chacha20_context) : outcome mbedtls_chacha20_context :=
  ks ← chacha20_block (state ctx) (keystream8 ctx);
  mret (Chacha (<[CHACHA20_CTR_INDEX := u32 (counter_of ctx + 1)]> (state ctx)) ks
          (keystream_bytes_used ctx)).

Definition set_used (ctx : mbedtls_chacha20_context) (n : Z) : mbedtls_chacha20_context :=
  Chacha (state ctx) (keystream8 ctx) n.

Fixpoint full_blocks (fuel : nat) (w : Z) (ctx : mbedtls_chacha20_context) (input output : list Z)
    (offset size : Z) : outcome (mbedtls_chacha20_context * list Z * Z * Z) :=
  match fuel with
  | O => NoFuel
  | S fuel =>
      if size >=? 64 then
        ctx ← next_block ctx;
        output ← mbedtls_xor w output offset input offset (keystream8 ctx) 0 64;
        let ctx := if counter_of ctx =? 0 then set_used ctx CHACHA20_COUNTER_EXHAUSTED else ctx in
        full_blocks fuel w ctx input output (offset + 64) (size - 64)
      else mret (ctx, output, offset, size)
  end.

Definition mbedtls_chacha20_update (w : Z) (ctx : mbedtls_chacha20_context) (size : Z)
    (input output : list Z) : outcome (Z * mbedtls_chacha20_context * list Z) :=
  let ret := mbedtls_chacha20_check_counter_wrap ctx size in
  if negb (ret =? 0) then mret (ret, ctx, output) else
  '(ctx, output, offset, size) ← use_leftover 65 ctx input output 0 size;
  '(ctx, output, offset, size) ← full_blocks (S (Z.to_nat (size / 64))) w ctx input output offset size;
  if 0 <? size then
    ctx ← next_block ctx;
    output ← mbedtls_xor w output offset input offset (keystream8 ctx) 0 size;
    mret (0, set_used ctx size, output)
  else mret (0, ctx, output).

Definition mbedtls_chacha20_crypt (w : Z) (key nonce : list Z) (counter data_len : Z)
    (input output : list Z) : outcome (Z * list Z) :=
  let ctx := mbedtls_chacha20_init (Chacha [] [] 0) in
  '(ret, ctx) ← mbedtls_chacha20_setkey ctx key;
  if negb (ret =? 0) then mret (ret, output) else
  '(ret, ctx) ← mbedtls_chacha20_starts ctx nonce counter;
  if negb (ret =? 0) then mret (ret, output) else
  '(ret, ctx, output) ← mbedtls_chacha20_update w ctx data_len input output;
  mret (ret, output).

(** ** The block function of RFC 8439

    The state is a matrix of four rows; a quarter round works on the words of a column, and
    the diagonals become columns when the rows are rotated. *)

Definition rfc_rotl (n x : Z) : Z := x * 2 ^ n mod 2 ^ 32 + x / 2 ^ (32 - n).

Definition rfc_quarter (a b c d : Z) : Z * Z * Z * Z :=
  let a := (a + b) mod 2 ^ 32 in let d := rfc_rotl 16 (Z.lxor d a) in
  let c := (c + d) mod 2 ^ 32 in let b := rfc_rotl 12 (Z.lxor b c) in
  let a := (a + b) mod 2 ^ 32 in let d := rfc_rotl 8 (Z.lxor d a) in
  let c := (c + d) mod 2 ^ 32 in let b := rfc_rotl 7 (Z.lxor b c) in
  (a, b, c, d).

Definition rfc_rotate (k : nat) (row : list Z) : list Z := drop k row ++ take k row.

Definition rfc_columns (m : list (list Z)) : list (list Z) :=
  let q := map (fun i => rfc_quarter (m !!! 0%nat !!! i) (m !!! 1%nat !!! i) (m !!! 2%nat !!! i) (m !!! 3%nat !!! i))
             [0; 1; 2; 3]%nat in
  [map (fun '(a, b, c, d) => a) q; map (fun '(a, b, c, d) => b) q;
   map (fun '(a, b, c, d) => c) q; map (fun '(a, b, c, d) => d) q].

Definition rfc_double_round (m : list (list Z)) : list (list Z) :=
  let m := rfc_columns m in
  let m := rfc_columns (zip_with rfc_rotate [0; 1; 2; 3]%nat m) in
  zip_with rfc_rotate [0; 3; 2; 1]%nat m.

Definition rows_of (st : list Z) : list (list Z) :=
  [take 4 st; take 4 (drop 4 st); take 4 (drop 8 st); take 4 (drop 12 st)].

(** Twenty rounds, the initial state added, the words in little-endian order. *)
Definition rfc_block (st : list Z) : list Z :=
  concat (map (le_bytes 4) (zip_with (fun w i => (w + i) mod 2 ^ 32)
    (concat (Nat.iter 10 rfc_double_round (rows_of st))) st)).

(** Sixteen words. *)
Definition words16 (st : list Z) : Prop := length st = 16%nat /\ Forall (fun x => 0 <= x < 2 ^ 32) st.

(** ** The keystream *)

(** The sixty-four bytes a state yields. *)
Definition block_bytes (st : list Z) : list Z :=
  concat (map (le_bytes 4) (zip_with (fun w i => u32 (w + i)) (Nat.iter 10 chacha20_inner_block st) st)).

Section keystream.
(** The state at the start of a message, and its counter. *)
Context (st0 : list Z).

Definition counter0 : Z := st0 !!! CHACHA20_CTR_INDEX.

(** The state for the [j]-th block of the message. *)
Definition state_at (j : Z) : list Z := <[CHACHA20_CTR_INDEX := u32 (counter0 + j)]> st0.

(** The keystream byte at position [i], and [n] of them from [pos] on. *)
Definition keystream_byte (i : Z) : Z := block_bytes (state_at (i / 64)) !!! Z.to_nat (i mod 64).
Definition keystream (pos n : Z) : list Z := map keystream_byte (seqZ pos n).

(** How many bytes there are before the counter wraps. *)
Definition capacity : Z := 64 * (2 ^ 32 - counter0).

(** The context stands at position [pos] of the keystream. *)
Record at_position (pos : Z) (ctx : mbedtls_chacha20_context) : Prop := AtPosition {
  ap_range : 0 <= pos <= capacity;
  ap_state : state ctx = state_at ((pos + 63) / 64);
  ap_len : zlen (keystream8 ctx) = 64;
  ap_used : keystream_bytes_used ctx =
    if pos mod 64 =? 0 then (if pos =? capacity then CHACHA20_COUNTER_EXHAUSTED else 64) else pos mod 64;
  ap_left : pos mod 64 <> 0 -> keystream8 ctx = block_bytes (state_at (pos / 64))
}.
End keystream.

(** What an update writes for the input [x] at position [pos]. *)
Definition combined (st0 : list Z) (pos : Z) (x : list Z) : list Z :=
  zip_with Z.lxor x (keystream st0 pos (zlen x)).

(** ** Block function *)

Lemma quarter_step_length st x y z n : length (quarter_step st x y z n) = length st.
Proof. unfold quarter_step. by rewrite !length_insert. Qed.

Lemma inner_block_length st : length (chacha20_inner_block st) = length st.
Proof.
  unfold chacha20_inner_block, chacha20_quarter_round. by rewrite !quarter_step_length.
Qed.

(** *** The block function is that of the RFC *)

Lemma rotl_rfc n x : 0 <= x < 2 ^ 32 -> 0 < n < 32 -> ROTL32 x n = rfc_rotl n x /\ 0 <= rfc_rotl n x < 2 ^ 32.
Proof.
  intros Hx Hn. unfold ROTL32, rfc_rotl, u32. rewrite Z.shiftl_mul_pow2, Z.shiftr_div_pow2 by lia.
  set (lo := x / 2 ^ (32 - n)).
  assert (2 ^ 32 = 2 ^ (32 - n) * 2 ^ n) as E by (rewrite <- Z.pow_add_r by lia; f_equal; lia).
  assert (0 < 2 ^ n) by (apply Z.pow_pos_nonneg; lia). assert (0 < 2 ^ (32 - n)) by (apply Z.pow_pos_nonneg; lia).
  assert (0 <= lo < 2 ^ n) as Hlo.
  { unfold lo. split; [apply Z.div_pos; lia|]. apply Z.div_lt_upper_bound; lia. }
  assert (x * 2 ^ n mod 2 ^ 32 = x mod 2 ^ (32 - n) * 2 ^ n) as Ehi.
  { rewrite E. rewrite Z.mul_mod_distr_r by lia. done. }
  rewrite Ehi. pose proof (Z.mod_pos_bound x (2 ^ (32 - n)) ltac:(lia)) as Hm. split.
  - rewrite <- Z.shiftl_mul_pow2 by lia. symmetry. rewrite Z.add_nocarry_lxor, Z.lxor_lor; try done.
    all: apply Z.bits_inj'; intros k Hk; rewrite Z.land_spec, Z.bits_0.
    all: destruct (Z.ltb_spec k n) as [Hkn|Hkn]; [by rewrite Z.shiftl_spec_low by lia|].
    all: assert (Z.testbit lo k = false) as ->; [|apply andb_false_r].
    all: rewrite <- (Z.mod_small lo (2 ^ n)) by lia; apply Z.mod_pow2_bits_high; lia.
  - nia.
Qed.

Lemma words16_lookup st i : words16 st -> (i < 16)%nat -> 0 <= st !!! i < 2 ^ 32.
Proof. intros [Hl Hw] Hi. apply (Forall_lookup_total_1 _ _ i Hw). lia. Qed.

Lemma words16_insert st i x : words16 st -> 0 <= x < 2 ^ 32 -> words16 (<[i := x]> st).
Proof. intros [Hl Hw] Hx. split; [by rewrite length_insert|]. by apply Forall_insert. Qed.

Lemma step_rfc st x y z t n : words16 st -> (x < 16)%nat -> (y < 16)%nat -> (z < 16)%nat ->
  NoDup [x; y; z; t] -> 0 < n < 32 ->
  exists v u st', v = (st !!! x + st !!! y) mod 2 ^ 32 /\ u = rfc_rotl n (Z.lxor (st !!! z) v) /\
    quarter_step st x y z n = st' /\ st' = <[z := u]> (<[x := v]> st) /\ words16 st' /\
    st' !!! x = v /\ st' !!! y = st !!! y /\ st' !!! z = u /\ st' !!! t = st !!! t.
Proof.
  intros Hst Hx Hy Hz HN Hn. set (v := (st !!! x + st !!! y) mod 2 ^ 32). rewrite !NoDup_cons, !elem_of_cons in HN.
  assert (0 <= v < 2 ^ 32) as Hv by (by apply Z.mod_pos_bound). pose proof Hst as [Hl _].
  assert (x <> z) as Hxz by naive_solver.
  unfold quarter_step. fold (u32 (st !!! x + st !!! y)) in v. change (u32 (st !!! x + st !!! y)) with v.
  rewrite (list_lookup_total_insert_ne st x z v), (list_lookup_total_insert_eq st x v) by (done || lia).
  rewrite list_insert_insert_eq, list_lookup_total_insert_eq by (rewrite length_insert; lia).
  destruct (rotl_rfc n (Z.lxor (st !!! z) v)) as [-> Hr]; [|done|].
  { apply (lxor_below 32); [done|by apply words16_lookup|done]. }
  eexists _, _, _. do 4 (split; [done|]). split; [by repeat apply words16_insert|].
  rewrite !list_lookup_total_insert, !length_insert, Hl. split_and!; repeat case_decide; naive_solver lia.
Qed.

(** Setting the same four entries twice is setting them once. *)
Lemma quarter_inserts (st : list Z) a b c d va vb vc vd va' vb' vc' vd' : NoDup [a; b; c; d] ->
  <[b := vb']> (<[c := vc']> (<[d := vd']> (<[a := va']> (<[b := vb]> (<[c := vc]> (<[d := vd]> (<[a := va]> st)))))))
  = <[b := vb']> (<[c := vc']> (<[d := vd']> (<[a := va']> st))).
Proof.
  rewrite !NoDup_cons, !elem_of_cons. intros HN.
  assert (a <> b /\ a <> c /\ a <> d /\ b <> c /\ b <> d /\ c <> d) as (? & ? & ? & ? & ? & ?) by naive_solver.
  apply list_eq. intros i. rewrite !list_lookup_insert, !length_insert. repeat case_decide; naive_solver.
Qed.

(** The quarter round on four different words. *)
Lemma quarter_rfc st a b c d : words16 st -> (a < 16)%nat -> (b < 16)%nat -> (c < 16)%nat -> (d < 16)%nat ->
  NoDup [a; b; c; d] ->
  chacha20_quarter_round st a b c d =
    (let '(a', b', c', d') := rfc_quarter (st !!! a) (st !!! b) (st !!! c) (st !!! d) in
     <[b := b']> (<[c := c']> (<[d := d']> (<[a := a']> st)))) /\
  words16 (chacha20_quarter_round st a b c d).
Proof.
  intros W0 Ha Hb Hc Hd HN. unfold chacha20_quarter_round, rfc_quarter. cbv zeta.
  assert (NoDup [a; b; d; c] /\ NoDup [c; d; b; a]) as [N1 N2].
  { split; (eapply NoDup_Permutation_proper; [|exact HN]); solve_Permutation. }
  destruct (step_rfc st a b d c 16 W0) as (v1 & u1 & s1 & V1 & U1 & E1 & F1 & W1 & A1 & B1 & D1 & C1);
    try (done || lia). rewrite E1.
  destruct (step_rfc s1 c d b a 12 W1) as (v2 & u2 & s2 & V2 & U2 & E2 & F2 & W2 & C2 & D2 & B2 & A2);
    try (done || lia). rewrite E2.
  destruct (step_rfc s2 a b d c 8 W2) as (v3 & u3 & s3 & V3 & U3 & E3 & F3 & W3 & A3 & B3 & D3 & C3);
    try (done || lia). rewrite E3.
  destruct (step_rfc s3 c d b a 7 W3) as (v4 & u4 & s4 & V4 & U4 & E4 & F4 & W4 & C4 & D4 & B4 & A4);
    try (done || lia). rewrite E4.
  split; [|done]. rewrite F4, F3, F2, F1, quarter_inserts by done.
  repeat (f_equal; [congruence|]). f_equal. congruence.
Qed.

(** Replaces the first quarter round of the goal by that of the RFC, on named words. *)
Ltac quarter_by_rfc W :=
  match goal with |- context [chacha20_quarter_round (?x :: ?s) ?a ?b ?c ?d] =>
    let E := fresh "E" in let Q := fresh "Q" in
    destruct (quarter_rfc (x :: s) a b c d W) as [E W'];
      [lia..|by apply (bool_decide_eq_true_1 (NoDup [a; b; c; d]))|];
    clear W; rename W' into W; rewrite E in *; clear E; cbn [lookup_total list_lookup_total] in *;
    match goal with |- context [rfc_quarter ?p ?q ?r ?t] =>
      destruct (rfc_quarter p q r t) as [[[? ?] ?] ?] eqn:Q
    end;
    cbn [insert list_insert] in *
  end.

(** Two rounds of the code on sixteen words are a double round of the matrix. *)
Lemma inner_block_rfc st : words16 st ->
  rows_of (chacha20_inner_block st) = rfc_double_round (rows_of st) /\ words16 (chacha20_inner_block st).
Proof.
  intros W. pose proof W as [Hl _].
  do 16 (destruct st as [|? st]; [done|]). destruct st; [|done]. clear Hl.
  unfold chacha20_inner_block. do 8 quarter_by_rfc W. split; [|done].
  unfold rfc_double_round, rfc_columns, rows_of, rfc_rotate.
  cbn -[rfc_quarter]. 
  repeat match goal with H : rfc_quarter _ _ _ _ = _ |- _ => progress (rewrite H); cbn -[rfc_quarter] end.
  reflexivity.
Qed.

Lemma concat_rows st : length st = 16%nat -> concat (rows_of st) = st.
Proof.
  intros Hl. do 16 (destruct st as [|? st]; [done|]). by destruct st.
Qed.

(** The code's block function is that of the RFC. *)
Lemma block_bytes_rfc st : words16 st -> block_bytes st = rfc_block st.
Proof.
  intros W. unfold block_bytes, rfc_block. do 3 f_equal.
  assert (forall n, rows_of (Nat.iter n chacha20_inner_block st) = Nat.iter n rfc_double_round (rows_of st) /\
    words16 (Nat.iter n chacha20_inner_block st)) as R.
  { induction n as [|n [IH IW]]; [done|]. rewrite !Nat.iter_succ, <- IH. by apply inner_block_rfc. }
  destruct (R 10%nat) as [<- [Hl _]]. by rewrite concat_rows.
Qed.

#[local] Opaque chacha20_inner_block.

Lemma rounds_length n st : length (Nat.iter n chacha20_inner_block st) = length st.
Proof. induction n as [|n IH]; [done|]. by rewrite Nat.iter_succ, inner_block_length. Qed.

Lemma concat_words_length ws : zlen (concat (map (le_bytes 4) ws)) = 4 * zlen ws.
Proof.
  induction ws as [|w ws IH]; [done|]. cbn [map concat]. rewrite zlen_app, le_bytes_length, IH, zlen_cons. lia.
Qed.

Lemma block_bytes_length st : length st = 16%nat -> zlen (block_bytes st) = 64.
Proof.
  intros H. unfold block_bytes. rewrite concat_words_length. unfold zlen.
  rewrite length_zip_with, rounds_length, H. reflexivity.
Qed.

Lemma put_keystream_spec ks ws : forall out,
  zlen out mod 4 = 0 -> zlen out + 4 * zlen ws <= zlen ks ->
  put_keystream ws (zlen out / 4) (splice ks 0 out) = Done (splice ks 0 (out ++ concat (map (le_bytes 4) ws))).
Proof.
  induction ws as [|w ws IH]; intros out Hm Hl; cbn [put_keystream map concat]; [by rewrite app_nil_r|].
  rewrite zlen_cons in Hl. pose proof (zlen_nonneg ws).
  assert (zlen (le_bytes 4 w) = 4) as L by apply le_bytes_length.
  unfold MBEDTLS_PUT_UINT32_LE. replace (zlen out / 4 * 4) with (zlen out) by (Z.div_mod_to_equations; lia).
  rewrite store_behind, bind_Done by lia.
  replace (zlen out / 4 + 1) with (zlen (out ++ le_bytes 4 w) / 4)
    by (rewrite zlen_app, L; Z.div_mod_to_equations; lia).
  rewrite IH by (rewrite zlen_app, L; Z.div_mod_to_equations; lia). by rewrite <- app_assoc.
Qed.

Lemma splice_whole b out : zlen out = zlen b -> splice b 0 out = out.
Proof. intros H. unfold splice. rewrite ztake_0, zdrop_all by lia. by rewrite app_nil_r. Qed.

Lemma chacha20_block_spec st ks :
  length st = 16%nat -> zlen ks = 64 -> chacha20_block st ks = Done (block_bytes st).
Proof.
  intros Hs Hk. unfold chacha20_block. set (ws := zip_with _ _ _).
  assert (zlen ws = 16) as Lw by (unfold ws, zlen; rewrite length_zip_with, rounds_length, Hs; reflexivity).
  pose proof (put_keystream_spec ks ws [] eq_refl) as E. change (zlen [] / 4) with 0 in E.
  rewrite splice_nil in E by lia. rewrite E by (change (@zlen Z []) with 0; lia). cbn [app].
  unfold block_bytes. fold ws. rewrite splice_whole; [done|]. rewrite concat_words_length. lia.
Qed.

(** ** Combining *)

Lemma xor_words_spec w a ao b bo n : 0 < w -> 0 <= ao -> 0 <= bo -> ao + n <= zlen a -> bo + n <= zlen b ->
  forall fuel res ro i out, 0 <= i <= n -> zlen out = ro + i -> ro + n <= zlen res -> n - i < Z.of_nat fuel ->
  exists j, i <= j <= n /\ n < j + w /\
    xor_words fuel w (splice res 0 out) ro a ao b bo i n =
    Done (splice res 0 (out ++ zip_with Z.lxor (ztake (j - i) (zdrop (ao + i) a)) (ztake (j - i) (zdrop (bo + i) b))), j).
Proof.
  intros Hw Ha Hb La Lb. induction fuel as [|fuel IH]; intros res ro i out Hi Lo Lr Hf; [lia|].
  cbn [xor_words]. destruct (i + w <=? n) eqn:E; bool_to_prop.
  2: { exists i. rewrite Z.sub_diag, !ztake_0. cbn [zip_with]. rewrite app_nil_r. split_and!; try lia. done. }
  rewrite !load_Done, !bind_Done by lia. rewrite <- Lo. set (v := zip_with _ _ _).
  assert (zlen v = w) as Lv.
  { unfold v, zlen. rewrite length_zip_with. unfold ztake, zdrop. rewrite !length_take, !length_drop.
    unfold zlen in *. lia. }
  rewrite store_behind, bind_Done by lia.
  destruct (IH res ro (i + w) (out ++ v)) as (j & Hj & Hn & ->); [lia|rewrite zlen_app; lia|lia..|].
  exists j. split_and!; try lia. rewrite <- app_assoc. do 4 f_equal. unfold v.
  replace (j - i) with (w + (j - (i + w))) by lia. rewrite !ztake_add, !zdrop_zdrop by lia.
  rewrite !Z.add_assoc. rewrite zip_with_app; [done|].
  unfold ztake, zdrop. rewrite !length_take, !length_drop. unfold zlen in *. lia.
Qed.

Lemma mbedtls_xor_spec w res a ao b bo n out :
  0 < w -> 0 <= ao -> 0 <= bo -> 0 <= n -> ao + n <= zlen a -> bo + n <= zlen b -> zlen out + n <= zlen res ->
  mbedtls_xor w (splice res 0 out) (zlen out) a ao b bo n =
  Done (splice res 0 (out ++ zip_with Z.lxor (ztake n (zdrop ao a)) (ztake n (zdrop bo b)))).
Proof.
  intros Hw Ha Hb Hn La Lb Lr. unfold mbedtls_xor.
  destruct (xor_words_spec w a ao b bo n Hw Ha Hb La Lb (S (Z.to_nat n)) res (zlen out) 0 out)
    as (j & Hj & _ & ->); [lia..|]. rewrite bind_Done. cbv beta iota. rewrite !Z.add_0_r, Z.sub_0_r.
  set (v := zip_with _ _ _).
  assert (zlen v = j) as Lv.
  { unfold v, zlen. rewrite length_zip_with. unfold ztake, zdrop. rewrite !length_take, !length_drop.
    unfold zlen in *. lia. }
  destruct (xor_words_spec 1 a ao b bo n ltac:(lia) Ha Hb La Lb (S (Z.to_nat n)) res (zlen out) j (out ++ v))
    as (j' & Hj' & Hn' & ->); [lia|rewrite zlen_app; lia|lia..|].
  rewrite bind_Done. cbv beta iota. replace j' with n by lia. cbv [mret outcome_ret]. do 2 f_equal.
  rewrite <- app_assoc. f_equal. unfold v.
  replace n with (j + (n - j)) at 3 4 by lia. rewrite !ztake_add, !zdrop_zdrop by lia.
  rewrite zip_with_app; [done|].
  unfold ztake, zdrop. rewrite !length_take, !length_drop. unfold zlen in *. lia.
Qed.

(** ** Positions *)

Section stream.
Context (st0 : list Z).
Hypothesis Hlen : length st0 = 16%nat.
Hypothesis Hctr : 0 <= counter0 st0 < 2 ^ 32.

Notation ks_block j := (block_bytes (state_at st0 j)).

Lemma state_at_length j : length (state_at st0 j) = 16%nat.
Proof. unfold state_at. by rewrite length_insert. Qed.

Lemma ks_block_length j : zlen (ks_block j) = 64.
Proof. apply block_bytes_length, state_at_length. Qed.

Lemma counter_at j : state_at st0 j !!! CHACHA20_CTR_INDEX = u32 (counter0 st0 + j).
Proof. unfold state_at. apply list_lookup_total_insert_eq. rewrite Hlen. unfold CHACHA20_CTR_INDEX. lia. Qed.

Lemma state_at_next j :
  <[CHACHA20_CTR_INDEX := u32 (state_at st0 j !!! CHACHA20_CTR_INDEX + 1)]> (state_at st0 j) = state_at st0 (j + 1).
Proof.
  rewrite counter_at. unfold state_at, u32. rewrite list_insert_insert_eq, Z.add_mod_idemp_l by done.
  by rewrite Z.add_assoc.
Qed.

Lemma zlen_keystream pos n : 0 <= n -> zlen (keystream st0 pos n) = n.
Proof. intros. unfold keystream, zlen. rewrite length_map, length_seqZ. lia. Qed.

Lemma keystream_add pos n m :
  0 <= n -> 0 <= m -> keystream st0 pos (n + m) = keystream st0 pos n ++ keystream st0 (pos + n) m.
Proof. intros. unfold keystream. by rewrite seqZ_app, map_app. Qed.

Lemma keystream_block j o n :
  0 <= o -> 0 <= n -> o + n <= 64 -> keystream st0 (64 * j + o) n = ztake n (zdrop o (ks_block j)).
Proof.
  intros Ho Hn. remember (Z.to_nat n) as m eqn:Hm. revert o n Ho Hn Hm.
  induction m as [|m IH]; intros o n Ho Hn Hm Hl.
  { assert (n = 0) as -> by lia. done. }
  replace n with (1 + (n - 1)) by lia. rewrite keystream_add by lia.
  rewrite ztake_zdrop_cons by (rewrite ?ks_block_length; lia).
  replace (64 * j + o + 1) with (64 * j + (o + 1)) by lia. rewrite (IH (o + 1) (n - 1)) by lia.
  unfold keystream at 1. rewrite seqZ_cons by lia. cbn [map Z.pred Z.add seqZ]. unfold keystream_byte.
  replace ((64 * j + o) / 64) with j by (Z.div_mod_to_equations; lia).
  replace ((64 * j + o) mod 64) with o by (Z.div_mod_to_equations; lia). done.
Qed.

Lemma combined_extend p x y :
  combined st0 p (x ++ y) = combined st0 p x ++ zip_with Z.lxor y (keystream st0 (p + zlen x) (zlen y)).
Proof.
  unfold combined. pose proof (zlen_nonneg x). pose proof (zlen_nonneg y).
  rewrite zlen_app, keystream_add by done. apply zip_with_app.
  pose proof (zlen_keystream p (zlen x) ltac:(lia)) as L. unfold zlen in L at 1 3. lia.
Qed.

Lemma zlen_combined p x : zlen (combined st0 p x) = zlen x.
Proof.
  unfold combined. pose proof (zlen_nonneg x). pose proof (zlen_keystream p (zlen x) ltac:(lia)) as L.
  unfold zlen in *. rewrite length_zip_with. lia.
Qed.

Lemma next_block_spec pos ctx :
  at_position st0 pos ctx -> pos mod 64 = 0 -> pos < capacity st0 ->
  next_block ctx = Done (Chacha (state_at st0 (pos / 64 + 1)) (ks_block (pos / 64)) (keystream_bytes_used ctx)) /\
  (u32 (counter0 st0 + (pos / 64 + 1)) =? 0) = (pos + 64 =? capacity st0).
Proof.
  intros [Hr Hs Hl Hu _] Hm Hc. unfold next_block, counter_of.
  replace ((pos + 63) / 64) with (pos / 64) in Hs by (Z.div_mod_to_equations; lia).
  rewrite Hs, chacha20_block_spec, bind_Done by (done || apply state_at_length).
  rewrite state_at_next. split; [done|]. unfold capacity in *.
  unfold u32. destruct (_ mod _ =? 0) eqn:E1, (pos + 64 =? _) eqn:E2; bool_to_prop; try done;
    Z.div_mod_to_equations; lia.
Qed.

(** A request is refused exactly when it goes past the last block. *)
Lemma check_counter_wrap_spec pos ctx size :
  at_position st0 pos ctx -> 0 <= size < 2 ^ 64 ->
  mbedtls_chacha20_check_counter_wrap ctx size =
    if pos + size <=? capacity st0 then 0 else MBEDTLS_ERR_CHACHA20_BAD_INPUT_DATA.
Proof.
  intros [Hr Hs Hl Hu _] Hsz. unfold mbedtls_chacha20_check_counter_wrap, counter_of.
  rewrite Hs, counter_at, Hu. unfold CHACHA20_COUNTER_EXHAUSTED, capacity, u32, u64 in *.
  clear Hs Hu. set (c := counter0 st0) in *. change ((2 ^ 64 - 1) / 2) with (2 ^ 63 - 1).
  remember ((c + (pos + 63) / 64) mod 2 ^ 32) as m eqn:Em.
  assert (0 <= m < 2 ^ 32) by (subst m; apply Z.mod_pos_bound; lia).
  rewrite (Z.mod_small (2 ^ 32 - 1 + 1 - m)) by lia. cbv zeta.
  assert (c + (pos + 63) / 64 <= 2 ^ 32) by (Z.div_mod_to_equations; lia).
  assert (m = if c + (pos + 63) / 64 =? 2 ^ 32 then 0 else c + (pos + 63) / 64) as Em'.
  { subst m. split_if; [by rewrite Heqb|]. apply Z.mod_small. Z.div_mod_to_equations; lia. }
  clear Em. revert Em'. destruct (pos mod 64 =? 0) eqn:Eq; bool_to_prop.
  - destruct (pos =? 64 * (2 ^ 32 - c)) eqn:Ec; bool_to_prop; intros Em'.
    + change (64 + 1 >=? 64 + 1) with true. cbv iota. repeat (split_if; try done); lia.
    + change (64 >=? 64 + 1) with false. change (64 <? 64) with false. cbv iota.
      assert (m = c + pos / 64) by (rewrite Em'; split_if; Z.div_mod_to_equations; lia). clear Em'.
      destruct (size mod 64 =? 0) eqn:E64; repeat (split_if; try done); bool_to_prop; Z.div_mod_to_equations; lia.
  - intros Em'. rewrite (proj2 (Z.ltb_lt (pos mod 64) 64)) by (apply Z.mod_pos_bound; lia).
    assert ((pos mod 64 >=? 64 + 1) = false) as ->
      by (rewrite Z.geb_leb; apply Z.leb_gt; pose proof (Z.mod_pos_bound pos 64); lia).
    assert (m = if c + pos / 64 + 1 =? 2 ^ 32 then 0 else c + pos / 64 + 1) as ->.
    { replace ((pos + 63) / 64) with (pos / 64 + 1) in Em' by (Z.div_mod_to_equations; lia).
      by rewrite Z.add_assoc in Em'. }
    clear Em'. destruct (c + pos / 64 + 1 =? 2 ^ 32) eqn:Ec, ((size - (64 - pos mod 64)) mod 64 =? 0) eqn:E64;
      repeat (split_if; try done); bool_to_prop; Z.div_mod_to_equations; lia.
Qed.

(** One byte of leftover keystream. *)
Lemma leftover_step pos ctx :
  at_position st0 pos ctx -> pos mod 64 <> 0 ->
  load8 (keystream8 ctx) (pos mod 64) = Done (keystream_byte st0 pos) /\
  at_position st0 (pos + 1) (Chacha (state ctx) (keystream8 ctx)
    (if (pos mod 64 + 1 =? 64) && (counter_of ctx =? 0) then CHACHA20_COUNTER_EXHAUSTED else pos mod 64 + 1)).
Proof.
  intros [Hr Hs Hl Hu Hk] Hm. specialize (Hk Hm). pose proof (Z.mod_pos_bound pos 64 ltac:(lia)).
  rewrite load8_Done by lia. split; [by rewrite Hk|]. unfold counter_of. rewrite Hs, counter_at.
  unfold capacity, u32 in *. set (c := counter0 st0) in *.
  constructor; cbn [state keystream8 keystream_bytes_used].
  - unfold capacity. fold c. Z.div_mod_to_equations; lia.
  - f_equal. Z.div_mod_to_equations; lia.
  - done.
  - assert (pos mod 64 + 1 = 64 -> ((c + (pos + 63) / 64) mod 2 ^ 32 =? 0) = (pos + 1 =? 64 * (2 ^ 32 - c))) as Hc.
    { intros E. destruct (_ mod 2 ^ 32 =? 0) eqn:E1, (pos + 1 =? _) eqn:E2; bool_to_prop; try done;
        Z.div_mod_to_equations; lia. }
    unfold capacity. fold c. destruct (pos mod 64 + 1 =? 64) eqn:E; bool_to_prop; cbn [andb].
    + rewrite Hc by done. rewrite (proj2 (Z.eqb_eq ((pos + 1) mod 64) 0)) by (Z.div_mod_to_equations; lia).
      by rewrite E.
    + rewrite (proj2 (Z.eqb_neq ((pos + 1) mod 64) 0)); Z.div_mod_to_equations; lia.
  - intros Hn. rewrite Hk. do 2 f_equal. Z.div_mod_to_equations; lia.
Qed.

(** The three phases of an update, from offset [zlen x] of the input [x ++ y ++ rest], at
    position [p + zlen x]. *)

Lemma use_leftover_spec p input output : forall fuel x y rest ctx,
  input = x ++ y ++ rest -> at_position st0 (p + zlen x) ctx ->
  zlen x + zlen y <= zlen output ->
  (p + zlen x) mod 64 = 0 \/ 64 - (p + zlen x) mod 64 < Z.of_nat fuel -> (0 < fuel)%nat ->
  exists y1 y2 ctx', y = y1 ++ y2 /\
    use_leftover fuel ctx input (splice output 0 (combined st0 p x)) (zlen x) (zlen y) =
      Done (ctx', splice output 0 (combined st0 p (x ++ y1)), zlen (x ++ y1), zlen y2) /\
    at_position st0 (p + zlen (x ++ y1)) ctx' /\ (y2 = [] \/ (p + zlen (x ++ y1)) mod 64 = 0).
Proof.
  induction fuel as [|fuel IH]; intros x y rest ctx Hin Hat Hout Hf Hf0; [lia|].
  cbn [use_leftover]. pose proof Hat as [Hr Hs Hl Hu Hk]. set (pos := p + zlen x) in *.
  pose proof (Z.mod_pos_bound pos 64 ltac:(lia)).
  destruct ((0 <? zlen y) && _) eqn:E.
  2: { exists [], y, ctx. rewrite app_nil_r. split_and!; try done.
       apply andb_false_iff in E as [E|E]; bool_to_prop.
       - left. destruct y; [done|]. rewrite zlen_cons in E. pose proof (zlen_nonneg y). lia.
       - right. fold pos. rewrite Hu in E. destruct (_ =? 0) eqn:E0; bool_to_prop; [done|lia]. }
  bool_to_prop. destruct y as [|c y]; [done|]. pose proof (zlen_nonneg x). pose proof (zlen_nonneg y).
  assert (pos mod 64 <> 0) as Hm.
  { intros Hm. rewrite Hm in Hu. cbn [Z.eqb] in Hu. unfold CHACHA20_COUNTER_EXHAUSTED in Hu.
    destruct (pos =? capacity st0); lia. }
  rewrite (proj2 (Z.eqb_neq _ _) Hm) in Hu. rewrite Hu. destruct (leftover_step pos ctx Hat Hm) as [-> Hat'].
  assert (load8 input (zlen x) = Done c) as -> by (rewrite Hin; apply load8_middle).
  rewrite !bind_Done, zlen_cons in *.
  assert (combined st0 p x ++ [Z.lxor c (keystream_byte st0 pos)] = combined st0 p (x ++ [c])) as Ec.
  { rewrite combined_extend. cbn [zlen length]. unfold keystream. by rewrite seqZ_cons. }
  rewrite <- (zlen_combined p x), store_behind, Ec, bind_Done by (rewrite zlen_combined, zlen_singleton; lia).
  rewrite zlen_combined. replace (1 + zlen y - 1) with (zlen y) by lia.
  replace (zlen x + 1) with (zlen (x ++ [c])) by (rewrite zlen_app, zlen_singleton; lia).
  replace (pos + 1) with (p + zlen (x ++ [c])) in Hat' by (rewrite zlen_app, zlen_singleton; lia).
  destruct (IH (x ++ [c]) y rest _ ltac:(by rewrite Hin, <- app_assoc) Hat') as (y1 & y2 & ctx' & Hy & E2 & Ha & Hz).
  - rewrite zlen_app, zlen_singleton. lia.
  - replace (p + zlen (x ++ [c])) with (pos + 1) by (unfold pos; rewrite zlen_app, zlen_singleton; lia).
    destruct Hf as [Hf|Hf]; [done|]. Z.div_mod_to_equations; lia.
  - lia.
  - rewrite <- app_assoc in *. cbn [app] in *. exists (c :: y1), y2, ctx'. split; [by rewrite Hy|]. done.
Qed.

Lemma zdrop_middle (x b r : list Z) : ztake (zlen b) (zdrop (zlen x) (x ++ b ++ r)) = b.
Proof.
  pose proof (zlen_nonneg x). rewrite zdrop_app_r, Z.sub_diag, zdrop_0, ztake_app_l by lia.
  apply ztake_all. lia.
Qed.

(** A fresh block and the bytes [b] combined with it. *)
Lemma block_step w p input output x b rest ctx :
  0 < w -> input = x ++ b ++ rest -> at_position st0 (p + zlen x) ctx -> (p + zlen x) mod 64 = 0 ->
  0 < zlen b <= 64 -> p + zlen x < capacity st0 -> zlen x + zlen b <= zlen output ->
  exists ctx1, next_block ctx = Done ctx1 /\
    ctx1 = Chacha (state_at st0 ((p + zlen x) / 64 + 1)) (ks_block ((p + zlen x) / 64)) 64 /\
    mbedtls_xor w (splice output 0 (combined st0 p x)) (zlen x) input (zlen x) (keystream8 ctx1) 0 (zlen b) =
      Done (splice output 0 (combined st0 p (x ++ b))).
Proof.
  intros Hw Hin Hat Hm Hb Hc Ho. set (pos := p + zlen x) in *.
  destruct (next_block_spec pos ctx Hat Hm Hc) as [-> _]. pose proof Hat as [Hr Hs Hl Hu Hk].
  rewrite Hm in Hu. rewrite (proj2 (Z.eqb_neq pos _)) in Hu by lia. cbn [Z.eqb] in Hu. rewrite Hu.
  eexists. split; [reflexivity|]. split; [reflexivity|]. cbn [keystream8].
  pose proof (ks_block_length (pos / 64)) as Lk. pose proof (zlen_nonneg x). pose proof (zlen_nonneg rest).
  rewrite <- (zlen_combined p x) at 1.
  rewrite mbedtls_xor_spec; [|lia..|rewrite Hin, !zlen_app; lia|lia|rewrite zlen_combined; lia].
  rewrite combined_extend. do 4 f_equal; [by rewrite Hin, zdrop_middle|].
  fold pos. replace pos with (64 * (pos / 64) + 0) at 2 by (Z.div_mod_to_equations; lia).
  rewrite keystream_block by lia. done.
Qed.

Lemma full_blocks_spec w p input output : 0 < w -> forall fuel x y rest ctx,
  input = x ++ y ++ rest -> at_position st0 (p + zlen x) ctx ->
  p + zlen x + zlen y <= capacity st0 -> zlen x + zlen y <= zlen output ->
  (y = [] \/ (p + zlen x) mod 64 = 0) -> zlen y / 64 < Z.of_nat fuel ->
  exists y1 y2 ctx', y = y1 ++ y2 /\
    full_blocks fuel w ctx input (splice output 0 (combined st0 p x)) (zlen x) (zlen y) =
      Done (ctx', splice output 0 (combined st0 p (x ++ y1)), zlen (x ++ y1), zlen y2) /\
    at_position st0 (p + zlen (x ++ y1)) ctx' /\ (y2 = [] \/ (p + zlen (x ++ y1)) mod 64 = 0) /\ zlen y2 < 64.
Proof.
  intros Hw. induction fuel as [|fuel IH]; intros x y rest ctx Hin Hat Hcap Hout Hy Hf.
  { pose proof (zlen_nonneg y). Z.div_mod_to_equations; lia. }
  cbn [full_blocks]. destruct (zlen y >=? 64) eqn:E; bool_to_prop.
  2: { exists [], y, ctx. rewrite app_nil_r. split_and!; try done. }
  destruct Hy as [->|Hm]; [change (zlen (@nil Z)) with 0 in E; lia|].
  pose (b := ztake 64 y). assert (zlen b = 64) as Lb by (unfold b; rewrite zlen_ztake; lia).
  assert (y = b ++ zdrop 64 y) as Ey by (symmetry; apply ztake_zdrop). set (y' := zdrop 64 y) in *.
  rewrite Ey in Hin, Hcap, Hout, Hf. rewrite !zlen_app in Hcap, Hout, Hf. pose proof (zlen_nonneg y').
  pose proof (zlen_nonneg x). rewrite <- app_assoc in Hin.
  destruct (block_step w p input output x b (y' ++ rest) ctx Hw Hin Hat Hm) as (ctx1 & -> & Ec & Ex); [lia..|].
  rewrite Lb in Ex. rewrite bind_Done, Ex, bind_Done. cbv zeta.
  destruct (next_block_spec _ _ Hat Hm ltac:(lia)) as [_ Hw0].
  set (ctx2 := if _ : bool then _ else _).
  assert (at_position st0 (p + zlen (x ++ b)) ctx2) as Hat2.
  { rewrite zlen_app, Lb, Z.add_assoc. set (pos := p + zlen x) in *. unfold ctx2, counter_of. rewrite Ec.
    cbn [state keystream8]. rewrite counter_at, Hw0. pose proof Hat as [Hr _ _ _ _].
    assert ((pos + 64) mod 64 = 0) as M by (Z.div_mod_to_equations; lia).
    unfold set_used. destruct (pos + 64 =? capacity st0) eqn:E64; bool_to_prop;
    constructor; cbn [state keystream8 keystream_bytes_used]; rewrite ?M; try done; try lia;
      try apply ks_block_length; try (f_equal; Z.div_mod_to_equations; lia); cbn [Z.eqb];
      by rewrite ?(proj2 (Z.eqb_eq _ _) E64), ?(proj2 (Z.eqb_neq _ _) E64). }
  replace (zlen x + 64) with (zlen (x ++ b)) by (rewrite zlen_app; lia).
  replace (zlen y - 64) with (zlen y') by (rewrite Ey, zlen_app; lia).
  destruct (IH (x ++ b) y' rest ctx2) as (y1 & y2 & ctx' & E1 & E2 & H1 & H2 & H3); try done.
  - by rewrite Hin, <- app_assoc.
  - rewrite zlen_app. lia.
  - rewrite zlen_app. lia.
  - right. rewrite zlen_app. Z.div_mod_to_equations; lia.
  - Z.div_mod_to_equations; lia.
  - rewrite <- app_assoc in *. exists (b ++ y1), y2, ctx'. split; [by rewrite Ey, E1, app_assoc|]. done.
Qed.

Lemma chacha20_update_spec w pos ctx size input output :
  0 < w -> at_position st0 pos ctx -> 0 <= size <= zlen input -> size < 2 ^ 64 -> size <= zlen output ->
  if pos + size <=? capacity st0
  then exists ctx', mbedtls_chacha20_update w ctx size input output =
         Done (0, ctx', splice output 0 (combined st0 pos (ztake size input))) /\
         at_position st0 (pos + size) ctx'
  else mbedtls_chacha20_update w ctx size input output =
         Done (MBEDTLS_ERR_CHACHA20_BAD_INPUT_DATA, ctx, output).
Proof.
  intros Hw Hat Hsz Hmax Ho. unfold mbedtls_chacha20_update.
  rewrite (check_counter_wrap_spec pos) by (done || lia).
  destruct (pos + size <=? capacity st0) eqn:E; [|done]. bool_to_prop. cbn [Z.eqb negb].
  pose (y := ztake size input). pose (rest := zdrop size input).
  assert (zlen y = size) as Ly by (unfold y; rewrite zlen_ztake; lia).
  assert (input = [] ++ y ++ rest) as Hin by (symmetry; apply ztake_zdrop).
  pose proof (zlen_nonneg y). pose proof (zlen_combined pos []) as L0. change (@zlen Z []) with 0 in L0.
  assert (combined st0 pos [] = []) as C0 by done.
  assert (pos + zlen (@nil Z) = pos) as P0 by (change (@zlen Z []) with 0; lia).
  destruct (use_leftover_spec pos input output 65 [] y rest ctx Hin) as (y1 & y2 & ctx1 & Ey & E1 & A1 & Z1).
  { by rewrite P0. }
  { change (@zlen Z []) with 0. lia. }
  { rewrite P0. right. pose proof (Z.mod_pos_bound pos 64 ltac:(lia)). lia. }
  { lia. }
  rewrite C0, splice_nil in E1 by lia. change (@zlen Z []) with 0 in E1. rewrite Ly in E1. rewrite E1, bind_Done.
  cbv beta iota. cbn [app] in *. clear E1. rewrite Ey, zlen_app in Ly. rewrite Ey, <- app_assoc in Hin.
  pose proof (zlen_nonneg y1). pose proof (zlen_nonneg y2).
  destruct (full_blocks_spec w pos input output Hw (S (Z.to_nat (zlen y2 / 64))) y1 y2 rest ctx1 Hin A1)
    as (y3 & y4 & ctx2 & Ey2 & E2 & A2 & Z2 & L4).
  { lia. } { lia. } { done. } { Z.div_mod_to_equations; lia. }
  rewrite E2, bind_Done. cbv beta iota. clear E2. rewrite Ey2, zlen_app in Ly.
  rewrite Ey2, <- app_assoc, app_assoc in Hin. pose proof (zlen_nonneg y3). pose proof (zlen_nonneg y4).
  assert (y = (y1 ++ y3) ++ y4) as Ey' by (by rewrite Ey, Ey2, app_assoc).
  destruct (0 <? zlen y4) eqn:E4; bool_to_prop.
  - destruct Z2 as [->|M2]; [done|]. rewrite !zlen_app in *.
    destruct (block_step w pos input output (y1 ++ y3) y4 rest ctx2 Hw Hin) as (ctx3 & -> & Ec & Ex);
      rewrite ?zlen_app; try done; try lia.
    rewrite bind_Done. rewrite zlen_app in Ex. rewrite Ex, bind_Done. eexists. split; [by fold y; rewrite Ey'|].
    rewrite Ec, zlen_app. unfold set_used. set (q := pos + (zlen y1 + zlen y3)) in *.
    pose proof (ap_range _ _ _ A2).
    replace (pos + size) with (q + zlen y4) by lia. assert ((q + zlen y4) mod 64 = zlen y4) as M4 by (Z.div_mod_to_equations; lia).
    constructor; cbn [state keystream8 keystream_bytes_used]; rewrite ?M4; try lia.
    + f_equal. Z.div_mod_to_equations; lia.
    + apply ks_block_length.
    + by rewrite (proj2 (Z.eqb_neq _ _)) by lia.
    + intros _. do 2 f_equal. Z.div_mod_to_equations; lia.
  - destruct y4; [|rewrite zlen_cons in *; pose proof (zlen_nonneg y4); lia].
    rewrite app_nil_r in Ey'. change (@zlen Z []) with 0 in Ly. fold y. rewrite Ey'. eexists. split; [reflexivity|].
    rewrite zlen_app in A2. by replace (pos + size) with (pos + (zlen y1 + zlen y3)) by lia.
Qed.
End stream.

(** ** Starting a message *)

(** The initial state of RFC 8439, section 2.3. *)
Definition rfc_state (key nonce : list Z) (counter : Z) : list Z :=
  [0x61707865; 0x3320646e; 0x79622d32; 0x6b206574] ++
  map (fun i => le (ztake 4 (zdrop (4 * i) key))) (seqZ 0 8) ++ [counter] ++
  map (fun i => le (ztake 4 (zdrop (4 * i) nonce))) (seqZ 0 3).

(** The context holds the key; the rest of the state is arbitrary. *)
Definition keyed (key : list Z) (ctx : mbedtls_chacha20_context) : Prop :=
  length (state ctx) = 16%nat /\ take 12 (state ctx) = take 12 (rfc_state key [] 0).

Lemma rfc_state_length key nonce counter : length (rfc_state key nonce counter) = 16%nat.
Proof. reflexivity. Qed.

Lemma counter0_rfc key nonce counter : counter0 (rfc_state key nonce counter) = counter.
Proof. reflexivity. Qed.

Lemma get_key key i :
  is_bytes key -> 0 <= i -> 4 * i + 4 <= zlen key ->
  MBEDTLS_GET_UINT32_LE key (4 * i) = Done (le (ztake 4 (zdrop (4 * i) key))).
Proof. intros Hb Hi Hl. by destruct (get_uint32_spec key (4 * i)) as [-> _]; [lia..|done|]. Qed.

Lemma le_word b i : is_bytes b -> 0 <= i -> 4 * i + 4 <= zlen b -> 0 <= le (ztake 4 (zdrop (4 * i) b)) < 2 ^ 32.
Proof.
  intros Hb Hi Hl. pose proof (le_range (ztake 4 (zdrop (4 * i) b))) as R.
  rewrite zlen_ztake in R by (rewrite zlen_zdrop; lia). apply R. by apply Forall_take, Forall_drop.
Qed.

Lemma words16_rfc key nonce counter :
  is_bytes key -> 32 <= zlen key -> is_bytes nonce -> 12 <= zlen nonce -> 0 <= counter < 2 ^ 32 ->
  words16 (rfc_state key nonce counter).
Proof.
  intros Hk Lk Hn Ln Hc. split; [apply rfc_state_length|]. unfold rfc_state.
  rewrite !Forall_app, !Forall_fmap. split_and!.
  1,3: repeat (apply Forall_cons_2; [lia|]); apply Forall_nil_2.
  all: apply Forall_forall; intros i Hi%elem_of_seqZ; apply le_word; (done || lia).
Qed.

Lemma setkey_spec ctx key :
  is_bytes key -> 32 <= zlen key -> length (state ctx) = 16%nat ->
  exists ctx', mbedtls_chacha20_setkey ctx key = Done (0, ctx') /\ keyed key ctx'.
Proof.
  intros Hb Hl Hs. unfold mbedtls_chacha20_setkey.
  rewrite (get_key key 0 : _ -> _ -> _ -> MBEDTLS_GET_UINT32_LE key 0 = _),
    (get_key key 1 : _ -> _ -> _ -> MBEDTLS_GET_UINT32_LE key 4 = _),
    (get_key key 2 : _ -> _ -> _ -> MBEDTLS_GET_UINT32_LE key 8 = _),
    (get_key key 3 : _ -> _ -> _ -> MBEDTLS_GET_UINT32_LE key 12 = _),
    (get_key key 4 : _ -> _ -> _ -> MBEDTLS_GET_UINT32_LE key 16 = _),
    (get_key key 5 : _ -> _ -> _ -> MBEDTLS_GET_UINT32_LE key 20 = _),
    (get_key key 6 : _ -> _ -> _ -> MBEDTLS_GET_UINT32_LE key 24 = _),
    (get_key key 7 : _ -> _ -> _ -> MBEDTLS_GET_UINT32_LE key 28 = _) by (done || lia).
  rewrite !bind_Done. eexists. split; [reflexivity|]. split; [|reflexivity].
  cbn [state]. rewrite length_app, length_drop, Hs. reflexivity.
Qed.

Lemma chacha20_starts_spec ctx key nonce counter :
  keyed key ctx -> is_bytes nonce -> 12 <= zlen nonce -> 0 <= counter < 2 ^ 32 ->
  exists ctx', mbedtls_chacha20_starts ctx nonce counter = Done (0, ctx') /\
    at_position (rfc_state key nonce counter) 0 ctx'.
Proof.
  intros [Hs Hk] Hb Hl Hc. unfold mbedtls_chacha20_starts.
  rewrite (get_key nonce 0 : _ -> _ -> _ -> MBEDTLS_GET_UINT32_LE nonce 0 = _),
    (get_key nonce 1 : _ -> _ -> _ -> MBEDTLS_GET_UINT32_LE nonce 4 = _),
    (get_key nonce 2 : _ -> _ -> _ -> MBEDTLS_GET_UINT32_LE nonce 8 = _) by (done || lia).
  rewrite !bind_Done. eexists. split; [reflexivity|]. rewrite Hk.
  assert (0 < capacity (rfc_state key nonce counter)) as Hcap by (unfold capacity; rewrite counter0_rfc; lia).
  constructor; cbn [state keystream8 keystream_bytes_used]; [lia| |done| |done].
  - unfold state_at. rewrite counter0_rfc. change ((0 + 63) / 64) with 0. rewrite Z.add_0_r.
    unfold u32. rewrite Z.mod_small by lia. reflexivity.
  - change (0 mod 64 =? 0) with true. by rewrite (proj2 (Z.eqb_neq 0 _)) by lia.
Qed.

(** The blocks of one message differ in their counters. *)
Lemma state_at_inj st0 i j :
  length st0 = 16%nat -> 0 <= counter0 st0 < 2 ^ 32 ->
  0 <= i < 2 ^ 32 - counter0 st0 -> 0 <= j < 2 ^ 32 - counter0 st0 ->
  state_at st0 i = state_at st0 j -> i = j.
Proof.
  intros Hl Hc Hi Hj H. apply (f_equal (fun st => st !!! CHACHA20_CTR_INDEX)) in H.
  rewrite !counter_at in H by done. unfold u32 in H. rewrite !Z.mod_small in H by lia. lia.
Qed.

(** A message encrypted in chunks, each into a buffer of its size. *)
Fixpoint run_crypt (w : Z) (ctx : mbedtls_chacha20_context) (chunks : list (list Z))
    : outcome (Z * list Z) :=
  match chunks with
  | [] => mret (0, [])
  | c :: cs =>
      '(ret, ctx, out) ← mbedtls_chacha20_update w ctx (zlen c) c (replicate (length c) 0);
      if negb (ret =? 0) then mret (ret, []) else
      '(ret, outs) ← run_crypt w ctx cs;
      mret (ret, out ++ outs)
  end.

Lemma run_crypt_spec w st0 : 0 < w -> length st0 = 16%nat -> 0 <= counter0 st0 < 2 ^ 32 ->
  forall chunks pos ctx, at_position st0 pos ctx -> Forall (fun c => zlen c < 2 ^ 64) chunks ->
  if pos + zlen (concat chunks) <=? capacity st0
  then run_crypt w ctx chunks = Done (0, combined st0 pos (concat chunks))
  else exists out, run_crypt w ctx chunks = Done (MBEDTLS_ERR_CHACHA20_BAD_INPUT_DATA, out).
Proof.
  intros Hw Hl Hc. induction chunks as [|c cs IH]; intros pos ctx Hat Hlen; cbn [concat run_crypt].
  { change (@zlen Z []) with 0. rewrite Z.add_0_r. by rewrite (proj2 (Z.leb_le _ _)) by apply Hat. }
  apply Forall_cons in Hlen as [Lc Hlen]. pose proof (zlen_nonneg c). pose proof (zlen_nonneg (concat cs)).
  assert (zlen (replicate (length c) 0) = zlen c) as Lr by (rewrite zlen_replicate; done).
  pose proof (chacha20_update_spec st0 Hl Hc w pos ctx (zlen c) c (replicate (length c) 0) Hw Hat
    ltac:(lia) Lc ltac:(lia)) as U. rewrite zlen_app. destruct (pos + zlen c <=? capacity st0) eqn:E; bool_to_prop.
  - destruct U as (ctx' & -> & Hat'). rewrite bind_Done. cbn [Z.eqb negb]. rewrite Z.add_assoc.
    rewrite (ztake_all (zlen c) c), splice_whole by (rewrite ?zlen_combined; lia).
    specialize (IH _ _ Hat' Hlen). destruct (_ <=? capacity st0).
    + rewrite IH, bind_Done. rewrite combined_extend by done. unfold combined at 2. done.
    + destruct IH as [out ->]. rewrite bind_Done. eauto.
  - rewrite U, bind_Done. cbn [Z.eqb negb MBEDTLS_ERR_CHACHA20_BAD_INPUT_DATA].
    rewrite (proj2 (Z.leb_gt _ _)) by lia. eauto.
Qed.

(** C14.  A message encrypted in any sequence of updates is combined, byte by byte, with the
    keystream of the consecutive blocks from [counter] on, and the request that would need
    a block behind counter 2^32 - 1 is refused; within those bounds no two blocks have the
    same state, so no keystream is produced twice; and every block is what RFC 8439 says: ten
    double rounds of columns and diagonals over the matrix, the initial words added, the
    sums written in little-endian order. *)
Theorem chacha20_stream_correct w key nonce counter chunks :
  0 < w -> is_bytes key -> 32 <= zlen key -> is_bytes nonce -> 12 <= zlen nonce ->
  0 <= counter < 2 ^ 32 -> Forall (fun c => zlen c < 2 ^ 64) chunks ->
  let st0 := rfc_state key nonce counter in
  let run :=
    '(_, ctx) ← mbedtls_chacha20_setkey (mbedtls_chacha20_init (Chacha [] [] 0)) key;
    '(_, ctx) ← mbedtls_chacha20_starts ctx nonce counter;
    run_crypt w ctx chunks in
  (zlen (concat chunks) <= 64 * (2 ^ 32 - counter) -> run = Done (0, combined st0 0 (concat chunks))) /\
  (64 * (2 ^ 32 - counter) < zlen (concat chunks) ->
     exists out, run = Done (MBEDTLS_ERR_CHACHA20_BAD_INPUT_DATA, out)) /\
  (forall i j, 0 <= i < 2 ^ 32 - counter -> 0 <= j < 2 ^ 32 - counter -> i <> j ->
     state_at st0 i <> state_at st0 j) /\
  (forall j, block_bytes (state_at st0 j) = rfc_block (state_at st0 j)).
Proof.
  intros Hw Hk Lk Hn Ln Hc Hl st0 run.
  destruct (setkey_spec (mbedtls_chacha20_init (Chacha [] [] 0)) key Hk Lk eq_refl) as (ctx1 & E1 & K).
  destruct (chacha20_starts_spec ctx1 key nonce counter K Hn Ln Hc) as (ctx & E2 & A).
  assert (run = run_crypt w ctx chunks) as ->.
  { unfold run. rewrite E1, bind_Done. cbv beta iota. by rewrite E2, bind_Done. }
  pose proof (run_crypt_spec w st0 Hw eq_refl ltac:(done) chunks 0 ctx A Hl) as R.
  unfold capacity in R. change (counter0 st0) with counter in R. rewrite Z.add_0_l in R.
  split_and!.
  - intros L. by rewrite (proj2 (Z.leb_le _ _)) in R by lia.
  - intros L. by rewrite (proj2 (Z.leb_gt _ _)) in R by lia.
  - intros i j Hi Hj N E. apply N. by apply (state_at_inj st0).
  - intros j. by apply block_bytes_rfc, words16_insert; [apply words16_rfc|by apply Z.mod_pos_bound].
Qed.

(** ** The self test *)

Definition test_keys : list (list Z) :=
  [[0; 0; 0; 0; 0; 0; 0; 0; 0; 0; 0; 0; 0; 0; 0; 0; 0; 0; 0; 0; 0; 0; 0; 0; 0; 0; 0; 0; 0;
    0; 0; 0];
   [0; 0; 0; 0; 0; 0; 0; 0; 0; 0; 0; 0; 0; 0; 0; 0; 0; 0; 0; 0; 0; 0; 0; 0; 0; 0; 0; 0; 0;
    0; 0; 1]].

Definition test_nonces : list (list Z) :=
  [[0; 0; 0; 0; 0; 0; 0; 0; 0; 0; 0; 0];
   [0; 0; 0; 0; 0; 0; 0; 0; 0; 0; 0; 2]].

Definition test_counters : list Z := [0; 1].

Definition test_input : list (list Z) :=
  [[0; 0; 0; 0; 0; 0; 0; 0; 0; 0; 0; 0; 0; 0; 0; 0; 0; 0; 0; 0; 0; 0; 0; 0; 0; 0; 0; 0; 0;
    0; 0; 0; 0; 0; 0; 0; 0; 0; 0; 0; 0; 0; 0; 0; 0; 0; 0; 0; 0; 0; 0; 0; 0; 0; 0; 0; 0; 0;
    0; 0; 0; 0; 0; 0];
   [65; 110; 121; 32; 115; 117; 98; 109; 105; 115; 115; 105; 111; 110; 32; 116; 111; 32;
    116; 104; 101; 32; 73; 69; 84; 70; 32; 105; 110; 116; 101; 110; 100; 101; 100; 32; 98;
    121; 32; 116; 104; 101; 32; 67; 111; 110; 116; 114; 105; 98; 117; 116; 111; 114; 32;
    102; 111; 114; 32; 112; 117; 98; 108; 105; 99; 97; 116; 105; 111; 110; 32; 97; 115; 32;
    97; 108; 108; 32; 111; 114; 32; 112; 97; 114; 116; 32; 111; 102; 32; 97; 110; 32; 73;
    69; 84; 70; 32; 73; 110; 116; 101; 114; 110; 101; 116; 45; 68; 114; 97; 102; 116; 32;
    111; 114; 32; 82; 70; 67; 32; 97; 110; 100; 32; 97; 110; 121; 32; 115; 116; 97; 116;
    101; 109; 101; 110; 116; 32; 109; 97; 100; 101; 32; 119; 105; 116; 104; 105; 110; 32;
    116; 104; 101; 32; 99; 111; 110; 116; 101; 120; 116; 32; 111; 102; 32; 97; 110; 32; 73;
    69; 84; 70; 32; 97; 99; 116; 105; 118; 105; 116; 121; 32; 105; 115; 32; 99; 111; 110;
    115; 105; 100; 101; 114; 101; 100; 32; 97; 110; 32; 34; 73; 69; 84; 70; 32; 67; 111;
    110; 116; 114; 105; 98; 117; 116; 105; 111; 110; 34; 46; 32; 83; 117; 99; 104; 32; 115;
    116; 97; 116; 101; 109; 101; 110; 116; 115; 32; 105; 110; 99; 108; 117; 100; 101; 32;
    111; 114; 97; 108; 32; 115; 116; 97; 116; 101; 109; 101; 110; 116; 115; 32; 105; 110;
    32; 73; 69; 84; 70; 32; 115; 101; 115; 115; 105; 111; 110; 115; 44; 32; 97; 115; 32;
    119; 101; 108; 108; 32; 97; 115; 32; 119; 114; 105; 116; 116; 101; 110; 32; 97; 110;
    100; 32; 101; 108; 101; 99; 116; 114; 111; 110; 105; 99; 32; 99; 111; 109; 109; 117;
    110; 105; 99; 97; 116; 105; 111; 110; 115; 32; 109; 97; 100; 101; 32; 97; 116; 32; 97;
    110; 121; 32; 116; 105; 109; 101; 32; 111; 114; 32; 112; 108; 97; 99; 101; 44; 32; 119;
    104; 105; 99; 104; 32; 97; 114; 101; 32; 97; 100; 100; 114; 101; 115; 115; 101; 100; 32;
    116; 111]].

Definition test_output : list (list Z) :=
  [[118; 184; 224; 173; 160; 241; 61; 144; 64; 93; 106; 229; 83; 134; 189; 40; 189; 210; 25;
    184; 160; 141; 237; 26; 168; 54; 239; 204; 139; 119; 13; 199; 218; 65; 89; 124; 81; 87;
    72; 141; 119; 36; 224; 63; 184; 216; 74; 55; 106; 67; 184; 244; 21; 24; 161; 28; 195;
    135; 182; 105; 178; 238; 101; 134];
   [163; 251; 240; 125; 243; 250; 47; 222; 79; 55; 108; 162; 62; 130; 115; 112; 65; 96; 93;
    159; 79; 79; 87; 189; 140; 255; 44; 29; 75; 121; 85; 236; 42; 151; 148; 139; 211; 114;
    41; 21; 200; 243; 211; 55; 247; 211; 112; 5; 14; 158; 150; 214; 71; 183; 195; 159; 86;
    224; 49; 202; 94; 182; 37; 13; 64; 66; 224; 39; 133; 236; 236; 250; 75; 75; 181; 232;
    234; 208; 68; 14; 32; 182; 232; 219; 9; 216; 129; 167; 198; 19; 47; 66; 14; 82; 121; 80;
    66; 189; 250; 119; 115; 216; 169; 5; 20; 71; 179; 41; 28; 225; 65; 28; 104; 4; 101; 85;
    42; 166; 196; 5; 183; 118; 77; 94; 135; 190; 168; 90; 208; 15; 132; 73; 237; 143; 114;
    208; 214; 98; 171; 5; 38; 145; 202; 102; 66; 75; 200; 109; 45; 248; 14; 164; 31; 67;
    171; 249; 55; 211; 37; 157; 196; 178; 208; 223; 180; 138; 108; 145; 57; 221; 215; 247;
    105; 102; 233; 40; 230; 53; 85; 59; 167; 108; 92; 135; 157; 123; 53; 212; 158; 178; 230;
    43; 8; 113; 205; 172; 99; 137; 57; 226; 94; 138; 30; 14; 249; 213; 40; 15; 168; 202; 50;
    139; 53; 28; 60; 118; 89; 137; 203; 207; 61; 170; 139; 108; 204; 58; 175; 159; 57; 121;
    201; 43; 55; 32; 252; 136; 220; 149; 237; 132; 161; 190; 5; 156; 100; 153; 185; 253;
    162; 54; 231; 232; 24; 176; 75; 11; 195; 156; 30; 135; 107; 25; 59; 254; 85; 105; 117;
    63; 136; 18; 140; 192; 138; 170; 155; 99; 209; 161; 111; 128; 239; 37; 84; 215; 24; 156;
    65; 31; 88; 105; 202; 82; 197; 184; 63; 163; 111; 242; 22; 185; 193; 211; 0; 98; 190;
    188; 253; 45; 197; 188; 224; 145; 25; 52; 253; 167; 154; 134; 246; 230; 152; 206; 215;
    89; 195; 255; 155; 100; 119; 51; 143; 61; 164; 249; 205; 133; 20; 234; 153; 130; 204;
    175; 179; 65; 178; 56; 77; 217; 2; 243; 209; 171; 122; 198; 29; 210; 156; 111; 33; 186;
    91; 134; 47; 55; 48; 227; 124; 253; 196; 253; 128; 108; 34; 242; 33]].

Definition self_test_case (key nonce : list Z) (counter : Z) (input expected : list Z) : outcome bool :=
  '(ret, output) ← mbedtls_chacha20_crypt 8 key nonce counter (zlen input) input (replicate 381 0);
  mret ((ret =? 0) && bool_decide (ztake (zlen input) output = expected)).

(** What the test prints is left out. *)
Fixpoint self_test_loop (cases : list (list Z * list Z * Z * list Z * list Z)) : outcome Z :=
  match cases with
  | [] => mret 0
  | (key, nonce, counter, input, expected) :: cases =>
      ok ← self_test_case key nonce counter input expected;
      if (ok : bool) then self_test_loop cases else mret (-1)
  end.

Definition mbedtls_chacha20_self_test : outcome Z :=
  self_test_loop (zip (zip (zip (zip test_keys test_nonces) test_counters) test_input) test_output).

(** The self test passes. *)
Example chacha20_self_test_passes : mbedtls_chacha20_self_test = Done 0.
Proof. vm_compute. reflexivity. Qed.

Lemma chacha20_stream_correct_witness :
  ('(_, ctx) ← mbedtls_chacha20_setkey (mbedtls_chacha20_init (Chacha [] [] 0)) (seqZ 0 32);
   '(_, ctx) ← mbedtls_chacha20_starts ctx (seqZ 7 12) (2 ^ 32 - 2);
   run_crypt 8 ctx [seqZ 0 70; []; [1; 2; 3]]) =
  Done (0, combined (rfc_state (seqZ 0 32) (seqZ 7 12) (2 ^ 32 - 2)) 0 (seqZ 0 70 ++ [1; 2; 3])).
Proof.
  apply (chacha20_stream_correct 8 (seqZ 0 32) (seqZ 7 12) (2 ^ 32 - 2) [seqZ 0 70; []; [1; 2; 3]]).
  - lia.
  - apply (bool_decide_unpack _). vm_compute. exact I.
  - vm_compute. discriminate.
  - apply (bool_decide_unpack _). vm_compute. exact I.
  - vm_compute. discriminate.
  - lia.
  - repeat constructor.
  - vm_compute. discriminate.
Defined.
