(* ===== verification/ConstTime.v ===== *)
(** * Constant-time primitives of mbedTLS

    [src/internal/mbedtls/constant_time_impl.h] and [constant_time.c]: comparisons and
    selections without branches, in the three ways they are compiled (x86-64 assembly,
    AArch64 assembly, plain C), and the memory functions built from them.  The theorems
    show that the three agree with the comparison they stand for on all 64-bit operands,
    and that each memory function does what its header says it is equivalent to.  What the
    models say about is the values; that no branch depends on a secret is not expressed. *)

From S2P Require Import Prelude Bytes.

(** How the primitives are compiled. *)
Inductive backend := X86_64 | AArch64 | Generic.

#[export] Instance backend_eq_dec : EqDecision backend.
Proof. solve_decision. Defined.

(** ** 64-bit words *)

Definition not64 (x : Z) : Z := u64 (Z.lnot x).
Definition neg64 (x : Z) : Z := u64 (- x).
Definition sub64 (x y : Z) : Z := u64 (x - y).
Definition s64 (x : Z) : Z := (x + 2 ^ 63) mod 2 ^ 64 - 2 ^ 63.
(** The arithmetic shift to the right. *)
Definition sar (n x : Z) : Z := u64 (Z.shiftr (s64 x) n).

Section primitives.
Context (be : backend).

(** The value is hidden from the compiler, not changed. *)
Definition mbedtls_ct_compiler_opaque (x : Z) : Z := x.

(** ** Conditions: all bits set, or none *)

Definition mbedtls_ct_bool (x : Z) : Z :=
  match be with
  | AArch64 =>
      let s := neg64 x in
      let x := Z.lor s x in
      sar 63 x
  | X86_64 =>
      let s := x in
      let s := neg64 s in
      let s := Z.lor x s in
      sar 63 s
  | Generic =>
      let xo := mbedtls_ct_compiler_opaque x in
      let y := Z.lor (neg64 xo) (neg64 (Z.shiftr xo 1)) in
      let y := Z.shiftr y 63 in
      neg64 y
  end.

Definition mbedtls_ct_if (condition if1 if0 : Z) : Z :=
  match be with
  | AArch64 =>
      let if1 := Z.land if1 condition in
      let condition := not64 condition in
      let condition := Z.land condition if0 in
      Z.lor if1 condition
  | X86_64 =>
      let if1 := Z.land if1 condition in
      let condition := not64 condition in
      let if0 := Z.land if0 condition in
      Z.lor if0 if1
  | Generic =>
      let not_cond := not64 (mbedtls_ct_compiler_opaque condition) in
      Z.lor (Z.land condition if1) (Z.land not_cond if0)
  end.

Definition mbedtls_ct_uint_lt (x y : Z) : Z :=
  match be with
  | AArch64 =>
      let s1 := Z.lxor y x in
      let x := sub64 x y in
      let x := Z.land x (not64 s1) in
      let s1 := Z.land s1 y in
      let s1 := Z.lor x s1 in
      sar 63 s1
  | X86_64 =>
      let s := x in
      let s := Z.lxor s y in
      let x := sub64 x y in
      let y := Z.land y s in
      let s := not64 s in
      let x := Z.land x s in
      let x := Z.lor x y in
      sar 63 x
  | Generic =>
      let xo := mbedtls_ct_compiler_opaque x in
      let yo := mbedtls_ct_compiler_opaque y in
      let cond := mbedtls_ct_bool (Z.shiftr (Z.lxor xo yo) 63) in
      let ret := mbedtls_ct_if cond yo (sub64 xo yo) in
      let ret := Z.shiftr ret 63 in
      mbedtls_ct_bool ret
  end.

Definition mbedtls_ct_uint_ne (x y : Z) : Z :=
  let diff := Z.lxor (mbedtls_ct_compiler_opaque x) (mbedtls_ct_compiler_opaque y) in
  mbedtls_ct_bool diff.

Definition mbedtls_ct_uint_eq (x y : Z) : Z := not64 (mbedtls_ct_uint_ne x y).
Definition mbedtls_ct_uint_gt (x y : Z) : Z := mbedtls_ct_uint_lt y x.
Definition mbedtls_ct_uint_ge (x y : Z) : Z := not64 (mbedtls_ct_uint_lt x y).
Definition mbedtls_ct_uint_le (x y : Z) : Z := not64 (mbedtls_ct_uint_gt x y).

Definition mbedtls_ct_bool_ne (x y : Z) : Z := Z.lxor x y.
Definition mbedtls_ct_bool_and (x y : Z) : Z := Z.land x y.
Definition mbedtls_ct_bool_or (x y : Z) : Z := Z.lor x y.
Definition mbedtls_ct_bool_not (x : Z) : Z := not64 x.

(** ** Selections *)

Definition mbedtls_ct_size_if (condition if1 if0 : Z) : Z := mbedtls_ct_if condition if1 if0.
Definition mbedtls_ct_uint_if (condition if1 if0 : Z) : Z := u32 (mbedtls_ct_if condition if1 if0).
Definition mbedtls_ct_bool_if (condition if1 if0 : Z) : Z := mbedtls_ct_if condition if1 if0.
Definition mbedtls_ct_mpi_uint_if (condition if1 if0 : Z) : Z := mbedtls_ct_if condition if1 if0.
Definition mbedtls_ct_size_if_else_0 (condition if1 : Z) : Z := Z.land condition if1.
Definition mbedtls_ct_uint_if_else_0 (condition if1 : Z) : Z := u32 (Z.land condition if1).

Definition mbedtls_ct_bool_if_else_0 (condition if1 : Z) : Z := Z.land condition if1.
Definition mbedtls_ct_mpi_uint_if_else_0 (condition if1 : Z) : Z := Z.land condition if1.

(** [int] of an unsigned value. *)
Definition mbedtls_ct_error_if (condition if1 if0 : Z) : Z :=
  - to_int (mbedtls_ct_if condition (u64 (- if1)) (u64 (- if0))).
Definition mbedtls_ct_error_if_else_0 (condition if1 : Z) : Z :=
  - to_int (Z.land condition (u64 (- if1))).

(** ** Memory functions *)

(** Words are read and written little-endian: only [lor], [lxor] and [land] are applied to
    them, so that the order of the bytes does not matter. *)

Fixpoint memcmp_words (fuel : nat) (A B : list Z) (w i n diff : Z) : outcome (Z * Z) :=
  match fuel with
  | O => NoFuel
  | S fuel =>
      if i + w <=? n then
        x ← load A i w;
        y ← load B i w;
        memcmp_words fuel A B w (i + w) n (Z.lor diff (Z.lxor (le x) (le y)))
      else mret (i, diff)
  end.

(** Only AArch64 has the loop over words of four bytes. *)
Definition mbedtls_ct_memcmp (a b : list Z) (n : Z) : outcome Z :=
  '(i, diff) ← (if decide (be = AArch64)
                then memcmp_words (S (Z.to_nat n)) a b 4 0 n 0 else mret (0, 0));
  '(_, diff) ← memcmp_words (S (Z.to_nat n)) a b 1 i n diff;
  mret (to_int (Z.lor (Z.land diff 0xffff) (Z.shiftr diff 16))).

Fixpoint memcmp_partial_loop (k : nat) (A B : list Z) (i skip_head valid_end diff : Z) : outcome Z :=
  match k with
  | O => mret diff
  | S k =>
      x ← load8 A i;
      y ← load8 B i;
      let d := Z.lxor x y in
      let valid := mbedtls_ct_bool_and (mbedtls_ct_uint_ge i skip_head) (mbedtls_ct_uint_lt i valid_end) in
      memcmp_partial_loop k A B (i + 1) skip_head valid_end
        (Z.lor diff (mbedtls_ct_uint_if_else_0 valid d))
  end.

Definition mbedtls_ct_memcmp_partial (a b : list Z) (n skip_head skip_tail : Z) : outcome Z :=
  let valid_end := sub64 n skip_tail in
  diff ← memcmp_partial_loop (Z.to_nat n) a b 0 skip_head valid_end 0;
  mret (to_int diff).

(** One pass: shifts the buffer one byte to the left, or does nothing. *)
Fixpoint shift_pass (k : nat) (buf : list Z) (n no_op : Z) : outcome (list Z) :=
  match k with
  | O => mret buf
  | S k =>
      current ← load8 buf n;
      next ← load8 buf (n + 1);
      buf ← store buf n [u8 (mbedtls_ct_uint_if no_op current next)];
      shift_pass k buf (n + 1) no_op
  end.

Fixpoint memmove_left_loop (k : nat) (buf : list Z) (i total offset : Z) : outcome (list Z) :=
  match k with
  | O => mret buf
  | S k =>
      let no_op := mbedtls_ct_uint_gt (sub64 total offset) i in
      buf ← shift_pass (Z.to_nat (total - 1)) buf 0 no_op;
      last ← load8 buf (total - 1);
      buf ← store buf (total - 1) [u8 (mbedtls_ct_uint_if_else_0 no_op last)];
      memmove_left_loop k buf (i + 1) total offset
  end.

Definition mbedtls_ct_memmove_left (start : list Z) (total offset : Z) : outcome (list Z) :=
  memmove_left_loop (Z.to_nat total) start 0 total offset.

(** [w] is the width of the words that are copied first.  [src2] is the destination when
    the pointer is null; a byte is read before it is written. *)
Fixpoint memcpy_words (fuel : nat) (w : Z) (dest src1 : list Z) (s1 : Z) (src2 : option (list Z))
    (mask not_mask i len : Z) : outcome (list Z * Z) :=
  match fuel with
  | O => NoFuel
  | S fuel =>
      if i + w <=? len then
        a ← load src1 (s1 + i) w;
        b ← load (default dest src2) i w;
        dest ← store dest i
          (le_bytes (Z.to_nat w) (Z.lor (Z.land (le a) mask) (Z.land (le b) not_mask)));
        memcpy_words fuel w dest src1 s1 src2 mask not_mask (i + w) len
      else mret (dest, i)
  end.

Definition mbedtls_ct_memcpy_if (condition : Z) (dest src1 : list Z) (s1 : Z)
    (src2 : option (list Z)) (len : Z) : outcome (list Z) :=
  let mask := condition in
  let not_mask := not64 (mbedtls_ct_compiler_opaque condition) in
  '(dest, i) ← memcpy_words (S (Z.to_nat len)) 8 dest src1 s1 src2 mask not_mask 0 len;
  '(dest, _) ← memcpy_words (S (Z.to_nat len)) 1 dest src1 s1 src2 mask not_mask i len;
  mret dest.

Fixpoint memcpy_offset_loop (k : nat) (dest src : list Z) (offsetval offset len : Z)
    : outcome (list Z) :=
  match k with
  | O => mret dest
  | S k =>
      dest ← mbedtls_ct_memcpy_if (mbedtls_ct_uint_eq offsetval offset) dest src offsetval None len;
      memcpy_offset_loop k dest src (offsetval + 1) offset len
  end.

Definition mbedtls_ct_memcpy_offset (dest src : list Z) (offset offset_min offset_max len : Z)
    : outcome (list Z) :=
  memcpy_offset_loop (Z.to_nat (offset_max - offset_min + 1)) dest src offset_min offset len.

Fixpoint zeroize_words (fuel : nat) (w : Z) (p : list Z) (mask i len : Z) : outcome (list Z * Z) :=
  match fuel with
  | O => NoFuel
  | S fuel =>
      if i + w <=? len then
        x ← load p i w;
        p ← store p i (le_bytes (Z.to_nat w) (Z.land (le x) mask));
        zeroize_words fuel w p mask (i + w) len
      else mret (p, i)
  end.

Definition mbedtls_ct_zeroize_if (condition : Z) (buf : list Z) (len : Z) : outcome (list Z) :=
  let mask := u32 (not64 condition) in
  '(p, i) ← zeroize_words (S (Z.to_nat len)) 4 buf mask 0 len;
  '(p, _) ← zeroize_words (S (Z.to_nat len)) 1 p mask i len;
  mret p.
End primitives.

(** ** Ranges and top bits *)

Definition word64 (x : Z) : Prop := 0 <= x < 2 ^ 64.

(** The condition for a boolean. *)
Definition cond (b : bool) : Z := if b then 2 ^ 64 - 1 else 0.

Create HintDb w64 discriminated.

Lemma word64_u64 x : word64 (u64 x).
Proof. apply Z.mod_pos_bound. lia. Qed.
Lemma word64_ones x : word64 x <-> Z.land x (Z.ones 64) = x.
Proof.
  rewrite Z.land_ones by lia. split; [apply Z.mod_small|]. intros <-. apply Z.mod_pos_bound. lia.
Qed.
Lemma word64_land_l x y : word64 x -> word64 (Z.land x y).
Proof. rewrite !word64_ones. intros H. by rewrite <- Z.land_assoc, (Z.land_comm y), Z.land_assoc, H. Qed.
Lemma word64_land_r x y : word64 y -> word64 (Z.land x y).
Proof. rewrite !word64_ones. intros H. by rewrite <- Z.land_assoc, H. Qed.
Lemma word64_lor x y : word64 x -> word64 y -> word64 (Z.lor x y).
Proof. rewrite !word64_ones. intros H1 H2. by rewrite Z.land_lor_distr_l, H1, H2. Qed.
Lemma word64_lxor x y : word64 x -> word64 y -> word64 (Z.lxor x y).
Proof.
  rewrite !word64_ones. intros H1 H2. apply Z.bits_inj'. intros i Hi.
  apply (f_equal (fun z => Z.testbit z i)) in H1, H2. revert H1 H2.
  rewrite !Z.land_spec, Z.lxor_spec. by destruct (Z.testbit x i), (Z.testbit y i), (Z.testbit (Z.ones 64) i).
Qed.
Lemma word64_cond b : word64 (cond b).
Proof. destruct b; unfold word64, cond; lia. Qed.
#[export] Hint Resolve word64_u64 word64_land_l word64_lor word64_lxor word64_cond : w64.
#[export] Hint Extern 1 (word64 (not64 _)) => apply word64_u64 : w64.
#[export] Hint Extern 1 (word64 (neg64 _)) => apply word64_u64 : w64.
#[export] Hint Extern 1 (word64 (sub64 _ _)) => apply word64_u64 : w64.

Lemma top_bit x : word64 x -> Z.testbit x 63 = (2 ^ 63 <=? x).
Proof.
  unfold word64. intros H. rewrite Z.testbit_odd, Z.shiftr_div_pow2 by lia.
  destruct (2 ^ 63 <=? x) eqn:E; bool_to_prop.
  - replace (x / 2 ^ 63) with 1 by (Z.div_mod_to_equations; lia). done.
  - by rewrite Z.div_small by lia.
Qed.

Lemma top_bit_shift x : word64 x -> Z.shiftr x 63 = if Z.testbit x 63 then 1 else 0.
Proof.
  intros H. rewrite top_bit, Z.shiftr_div_pow2 by (done || lia). unfold word64 in H.
  split_if; Z.div_mod_to_equations; lia.
Qed.

Lemma sar_top x : word64 x -> sar 63 x = cond (Z.testbit x 63).
Proof.
  intros H. rewrite top_bit by done. unfold word64 in H. unfold sar, s64, u64, cond.
  rewrite Z.shiftr_div_pow2 by lia. split_if.
  - replace (((x + 2 ^ 63) mod 2 ^ 64 - 2 ^ 63) / 2 ^ 63) with (-1); [done|Z.div_mod_to_equations; lia].
  - replace (((x + 2 ^ 63) mod 2 ^ 64 - 2 ^ 63) / 2 ^ 63) with 0; [done|Z.div_mod_to_equations; lia].
Qed.

Lemma not64_bit x i : 0 <= i < 64 -> Z.testbit (not64 x) i = negb (Z.testbit x i).
Proof. intros H. unfold not64, u64. rewrite Z.mod_pow2_bits_low, Z.lnot_spec by lia. done. Qed.

Lemma not64_cond b : not64 (cond b) = cond (negb b).
Proof. by destruct b. Qed.

Lemma land_cond_l b x : word64 x -> Z.land (cond b) x = if b then x else 0.
Proof.
  intros H. destruct b; cbn [cond]; [|done]. rewrite Z.land_comm. by apply word64_ones.
Qed.

Lemma neg64_top x : word64 x -> Z.testbit (neg64 x) 63 = (1 <=? x) && (x <=? 2 ^ 63).
Proof.
  intros H. rewrite top_bit by apply word64_u64. unfold word64 in H. unfold neg64, u64.
  destruct (Z.eq_dec x 0) as [->|]; [done|].
  replace (- x mod 2 ^ 64) with (2 ^ 64 - x) by (apply (Z.mod_unique_pos _ _ (-1)); lia).
  destruct (2 ^ 63 <=? _) eqn:E, (1 <=? x) eqn:E1, (x <=? 2 ^ 63) eqn:E2; bool_to_prop; done || lia.
Qed.

(** ** The primitives *)

Section primitives_correct.
Context (be : backend).

Lemma ct_bool_spec x : word64 x -> mbedtls_ct_bool be x = cond (negb (x =? 0)).
Proof.
  intros H. pose proof (neg64_top x H) as Hn. pose proof (top_bit x H) as Ht.
  assert (negb (x =? 0) = Z.testbit (neg64 x) 63 || Z.testbit x 63) as Hz.
  { rewrite Hn, Ht. unfold word64 in H.
    destruct (x =? 0) eqn:E0, (1 <=? x) eqn:E1, (x <=? 2 ^ 63) eqn:E2, (2 ^ 63 <=? x) eqn:E3; bool_to_prop; done || lia. }
  unfold mbedtls_ct_bool. destruct be; cbv zeta.
  - rewrite sar_top, Z.lor_spec, orb_comm by auto with w64. by rewrite Hz.
  - rewrite sar_top, Z.lor_spec by auto with w64. by rewrite Hz.
  - unfold mbedtls_ct_compiler_opaque.
    assert (word64 (Z.shiftr x 1)) as Hs.
    { unfold word64 in *. rewrite Z.shiftr_div_pow2 by lia. Z.div_mod_to_equations; lia. }
    rewrite top_bit_shift, Z.lor_spec by auto with w64. rewrite (neg64_top (Z.shiftr x 1) Hs), Hn.
    rewrite Z.shiftr_div_pow2 by lia. change (2 ^ 1) with 2. unfold word64 in H.
    assert ((1 <=? x) && (x <=? 2 ^ 63) || (1 <=? x / 2) && (x / 2 <=? 2 ^ 63) = negb (x =? 0)) as ->.
    { destruct (x =? 0) eqn:E0, (1 <=? x) eqn:E1, (x <=? 2 ^ 63) eqn:E2, (1 <=? x / 2) eqn:E3, (x / 2 <=? 2 ^ 63) eqn:E4;
        bool_to_prop; try done; Z.div_mod_to_equations; lia. }
    by destruct (x =? 0).
Qed.

Lemma ct_if_spec b if1 if0 : word64 if1 -> word64 if0 -> mbedtls_ct_if be (cond b) if1 if0 = if b then if1 else if0.
Proof.
  intros H1 H0. unfold mbedtls_ct_if, mbedtls_ct_compiler_opaque.
  destruct be; cbv zeta; rewrite !not64_cond, ?(Z.land_comm if1), ?(Z.land_comm if0), !land_cond_l by done;
    destruct b; cbn [negb]; by rewrite ?Z.lor_0_r, ?Z.lor_0_l.
Qed.

(** The difference of the operands decides when their top bits agree, else the top bit of
    the second does. *)
Lemma lt_top x y :
  word64 x -> word64 y ->
  (if xorb (Z.testbit x 63) (Z.testbit y 63) then Z.testbit y 63 else Z.testbit (sub64 x y) 63) = (x <? y).
Proof.
  intros Hx Hy. rewrite !top_bit by auto with w64. unfold word64, sub64, u64 in *.
  destruct (2 ^ 63 <=? x) eqn:E1, (2 ^ 63 <=? y) eqn:E2, (x <? y) eqn:E3; cbn [xorb]; bool_to_prop; try lia;
    (apply Z.leb_le || apply Z.leb_gt); Z.div_mod_to_equations; lia.
Qed.

Lemma ct_lt_spec x y : word64 x -> word64 y -> mbedtls_ct_uint_lt be x y = cond (x <? y).
Proof.
  intros Hx Hy. rewrite <- (lt_top x y) by done. unfold mbedtls_ct_uint_lt. destruct be eqn:Eb; cbv zeta.
  - rewrite sar_top by auto with w64. f_equal. rewrite Z.lor_spec, !Z.land_spec, not64_bit, Z.lxor_spec by lia.
    by destruct (Z.testbit x 63), (Z.testbit y 63), (Z.testbit (sub64 x y) 63).
  - rewrite sar_top by auto with w64. f_equal. rewrite Z.lor_spec, !Z.land_spec, not64_bit, Z.lxor_spec by lia.
    by destruct (Z.testbit x 63), (Z.testbit y 63), (Z.testbit (sub64 x y) 63).
  - unfold mbedtls_ct_compiler_opaque. rewrite <- Eb.
    rewrite (top_bit_shift (Z.lxor x y)), Z.lxor_spec by auto with w64. set (d := xorb _ _).
    assert (forall b : bool, word64 (if b then 1 else 0)) as Wb by (intros []; unfold word64; lia).
    assert (word64 (if d then y else sub64 x y)) as W by (destruct d; auto with w64).
    rewrite (ct_bool_spec (if d then 1 else 0)) by apply Wb. replace (cond (negb ((if d then 1 else 0) =? 0))) with (cond d) by (by destruct d).
    rewrite ct_if_spec, top_bit_shift, ct_bool_spec by (apply Wb || auto with w64).
    destruct d; by destruct (Z.testbit _ _).
Qed.

Lemma ct_ne_spec x y : word64 x -> word64 y -> mbedtls_ct_uint_ne be x y = cond (negb (x =? y)).
Proof.
  intros Hx Hy. unfold mbedtls_ct_uint_ne, mbedtls_ct_compiler_opaque. rewrite ct_bool_spec by auto with w64.
  do 2 f_equal. destruct (x =? y) eqn:E; bool_to_prop; [subst; by rewrite Z.lxor_nilpotent|].
  apply Z.eqb_neq. intros H. by apply Z.lxor_eq in H.
Qed.
End primitives_correct.

(** ** Comparison of buffers *)

Lemma le_inj a b : is_bytes a -> is_bytes b -> length a = length b -> le a = le b -> a = b.
Proof. intros Ha Hb Hl H. rewrite <- (le_bytes_le a), <- (le_bytes_le b) by done. by rewrite Hl, H. Qed.

Lemma length_slice (a : list Z) i w : 0 <= i -> 0 <= w -> i + w <= zlen a -> length (ztake w (zdrop i a)) = Z.to_nat w.
Proof. intros. unfold ztake, zdrop, zlen in *. rewrite length_take, length_drop. lia. Qed.

Lemma memcmp_words_spec A B w n : 0 < w <= 4 -> is_bytes A -> is_bytes B -> n <= zlen A -> n <= zlen B ->
  forall fuel i diff, 0 <= i <= n -> 0 <= diff < 2 ^ 32 -> n - i < Z.of_nat fuel ->
  exists j diff', memcmp_words fuel A B w i n diff = Done (j, diff') /\ i <= j <= n /\ n < j + w /\
    0 <= diff' < 2 ^ 32 /\
    (diff' = 0 <-> diff = 0 /\ ztake (j - i) (zdrop i A) = ztake (j - i) (zdrop i B)).
Proof.
  intros Hw HA HB LA LB. induction fuel as [|fuel IH]; intros i diff Hi Hd Hf; [lia|]. cbn [memcmp_words].
  destruct (i + w <=? n) eqn:E; bool_to_prop.
  2: { exists i, diff. rewrite Z.sub_diag. split_and!; try done; try lia. naive_solver. }
  rewrite !load_Done, !bind_Done by lia. set (x := ztake w (zdrop i A)). set (y := ztake w (zdrop i B)).
  assert (length x = Z.to_nat w /\ length y = Z.to_nat w) as [Lx Ly] by (unfold x, y; by rewrite !length_slice by lia).
  assert (is_bytes x /\ is_bytes y) as [Bx By] by (unfold x, y; auto with zlist).
  assert (forall z, is_bytes z -> length z = Z.to_nat w -> Z.land (le z) (Z.ones 32) = le z) as Hz.
  { intros z Bz Lz. rewrite Z.land_ones by lia. apply Z.mod_small. pose proof (le_range z Bz) as R.
    assert (2 ^ (8 * zlen z) <= 2 ^ 32) by (apply Z.pow_le_mono_r; unfold zlen; lia). lia. }
  set (d := Z.lor diff (Z.lxor (le x) (le y))).
  assert (0 <= d < 2 ^ 32) as Rd.
  { assert (Z.land d (Z.ones 32) = d) as <-; [|rewrite Z.land_ones by lia; apply Z.mod_pos_bound; lia].
    unfold d. rewrite Z.land_lor_distr_l, <- (Hz x Bx Lx), <- (Hz y By Ly).
    assert (Z.land diff (Z.ones 32) = diff) as -> by (rewrite Z.land_ones by lia; apply Z.mod_small; lia).
    f_equal. apply Z.bits_inj'. intros k Hk. rewrite !Z.land_spec, !Z.lxor_spec, !Z.land_spec.
    by destruct (Z.testbit (Z.ones 32) k), (Z.testbit (le x) k), (Z.testbit (le y) k). }
  destruct (IH (i + w) d ltac:(lia) Rd ltac:(lia)) as (j & d' & -> & Hj & Hn & Rd' & Hiff).
  exists j, d'. split_and!; try done; try lia. rewrite Hiff.
  replace (j - i) with (w + (j - (i + w))) by lia. rewrite !ztake_add, !zdrop_zdrop by lia. fold x y.
  unfold d. rewrite Z.lor_eq_0_iff, Z.lxor_eq_0_iff. split.
  - intros [[-> Exy] Et]. split; [done|]. by rewrite (le_inj x y Bx By ltac:(lia) Exy), Et.
  - intros [-> Ea]. apply app_inj_1 in Ea as [-> ->]; [done|lia].
Qed.

Lemma fold_diff d : 0 <= d < 2 ^ 32 ->
  let r := to_int (Z.lor (Z.land d 0xffff) (Z.shiftr d 16)) in 0 <= r <= 0xffff /\ (r = 0 <-> d = 0).
Proof.
  intros Hd. change 0xffff with (Z.ones 16). set (x := Z.lor _ _).
  assert (0 <= x < 2 ^ 16) as Rx.
  { assert (Z.land x (Z.ones 16) = x) as <-; [|rewrite Z.land_ones by lia; apply Z.mod_pos_bound; lia].
    unfold x. rewrite Z.land_lor_distr_l, <- Z.land_assoc, Z.land_diag. f_equal.
    rewrite Z.land_ones, Z.shiftr_div_pow2 by lia. apply Z.mod_small. Z.div_mod_to_equations; lia. }
  rewrite to_int_id by lia. split; [change (Z.ones 16) with (2 ^ 16 - 1); lia|].
  unfold x. rewrite Z.lor_eq_0_iff, Z.land_ones, Z.shiftr_div_pow2 by lia. Z.div_mod_to_equations; lia.
Qed.

Lemma ct_memcmp_spec be a b n :
  is_bytes a -> is_bytes b -> 0 <= n <= zlen a -> n <= zlen b ->
  exists d, mbedtls_ct_memcmp be a b n = Done d /\ 0 <= d <= 0xffff /\ (d = 0 <-> ztake n a = ztake n b).
Proof.
  intros Ha Hb Hn Hn'. unfold mbedtls_ct_memcmp.
  assert (exists j d, (if decide (be = AArch64) then memcmp_words (S (Z.to_nat n)) a b 4 0 n 0 else mret (0, 0))
    = Done (j, d) /\ 0 <= j <= n /\ 0 <= d < 2 ^ 32 /\ (d = 0 <-> ztake j a = ztake j b))
    as (j & d & -> & Hj & Rd & Hd).
  { case_decide.
    - destruct (memcmp_words_spec a b 4 n ltac:(lia) Ha Hb ltac:(lia) ltac:(lia) (S (Z.to_nat n)) 0 0)
        as (j & d & -> & Hj & _ & Rd & Hd); [lia..|].
      exists j, d. rewrite !zdrop_0, Z.sub_0_r in Hd. split_and!; try done; try lia; rewrite Hd; naive_solver.
    - exists 0, 0. split_and!; try done; lia. }
  rewrite bind_Done. cbv beta iota.
  destruct (memcmp_words_spec a b 1 n ltac:(lia) Ha Hb ltac:(lia) ltac:(lia) (S (Z.to_nat n)) j d)
    as (k & e & -> & Hk & Hkn & Re & He); [lia..|].
  rewrite bind_Done. cbv beta iota. assert (k = n) as -> by lia. destruct (fold_diff e Re) as [Rr Hr].
  eexists. split; [reflexivity|]. split; [done|]. rewrite Hr, He, Hd.
  replace n with (j + (n - j)) at 3 4 by lia. rewrite !ztake_add by lia. split.
  - by intros [-> ->].
  - intros E. apply app_inj_1 in E; [done|]. unfold ztake. rewrite !length_take. unfold zlen in *. lia.
Qed.

(** The comparison of two buffers is zero exactly when the bytes compared are equal, on
    the target that reads words as on those that read bytes, and is never negative. *)
Theorem ct_memcmp_correct be a b n :
  is_bytes a -> is_bytes b -> 0 <= n <= zlen a -> n <= zlen b ->
  exists d, mbedtls_ct_memcmp be a b n = Done d /\ 0 <= d <= 0xffff /\ (d = 0 <-> ztake n a = ztake n b).
Proof. apply ct_memcmp_spec. Qed.

Lemma ct_memcmp_correct_witness :
  exists d, mbedtls_ct_memcmp AArch64 [1; 2; 3; 4; 5; 9] [1; 2; 3; 4; 5; 7] 5 = Done d /\ d = 0.
Proof.
  destruct (ct_memcmp_correct AArch64 [1; 2; 3; 4; 5; 9] [1; 2; 3; 4; 5; 7] 5) as (d & E & _ & H).
  - apply (bool_decide_unpack _). vm_compute. exact I.
  - apply (bool_decide_unpack _). vm_compute. exact I.
  - vm_compute. split; discriminate.
  - vm_compute. discriminate.
  - exists d. split; [exact E|]. by apply H.
Defined.

(** ** Copies and moves *)

Section memory.
Context (be : backend).

Lemma select_byte b x y : is_byte x -> is_byte y -> u8 (mbedtls_ct_uint_if be (cond b) x y) = if b then x else y.
Proof.
  unfold is_byte. intros Hx Hy. unfold mbedtls_ct_uint_if. rewrite ct_if_spec by (unfold word64; lia).
  unfold u8, u32. destruct b; by rewrite (Z.mod_small _ (2 ^ 32)), Z.mod_small by lia.
Qed.

(** A pass over [x :: l]: nothing, or every byte takes the value of the next. *)
Lemma shift_pass_spec b post l : forall pre x, is_bytes (x :: l) ->
  shift_pass be (length l) (pre ++ (x :: l) ++ post) (zlen pre) (cond b) =
    Done (pre ++ (if b then x :: l else l ++ [List.last (x :: l) 0]) ++ post).
Proof.
  induction l as [|y l IH]; intros pre x Hb; cbn [length shift_pass]; [by destruct b|].
  pose proof Hb as [Hx [Hy _]%Forall_cons]%Forall_cons. pose proof (zlen_nonneg pre).
  cbn [app]. rewrite load8_middle, bind_Done.
  replace (pre ++ x :: y :: l ++ post) with ((pre ++ [x]) ++ y :: l ++ post) by (by rewrite <- app_assoc).
  replace (zlen pre + 1) with (zlen (pre ++ [x])) by (rewrite zlen_app, zlen_singleton; lia).
  rewrite load8_middle, bind_Done, select_byte by done.
  set (z := if b then x else y).
  assert (store ((pre ++ [x]) ++ y :: l ++ post) (zlen pre) [z] = Done ((pre ++ [z]) ++ y :: l ++ post)) as ->.
  { rewrite store_Done, zlen_singleton; [|lia|rewrite (zlen_app (_ ++ _)), (zlen_app pre), !zlen_singleton;
      pose proof (zlen_nonneg (y :: l ++ post)); lia].
    rewrite <- !app_assoc. rewrite ztake_app_l, ztake_all by lia. cbn [app].
    rewrite zdrop_app_r by lia. by replace (zlen pre + 1 - zlen pre) with 1 by lia. }
  rewrite bind_Done. replace (zlen (pre ++ [x])) with (zlen (pre ++ [z])) by (by rewrite !zlen_app, !zlen_singleton).
  apply Forall_cons in Hb as [_ Hb]. specialize (IH (pre ++ [z]) y Hb). cbn [app] in IH. rewrite IH.
  unfold z. rewrite <- app_assoc. by destruct b.
Qed.

(** What a pass does to the first [total] bytes. *)
Definition shifted (buf : list Z) : list Z := zdrop 1 buf ++ [0].

Lemma pass_spec b buf post total :
  is_bytes buf -> zlen buf = total -> 0 < total ->
  (buf' ← shift_pass be (Z.to_nat (total - 1)) (buf ++ post) 0 (cond b);
   last ← load8 buf' (total - 1);
   store buf' (total - 1) [u8 (mbedtls_ct_uint_if_else_0 (cond b) last)]) =
  Done ((if b then buf else shifted buf) ++ post).
Proof.
  intros Hb Hl Ht. destruct buf as [|x l]; [change (@zlen Z []) with 0 in Hl; lia|]. rewrite zlen_cons in Hl.
  replace (Z.to_nat (total - 1)) with (length l) by (unfold zlen in Hl; lia).
  pose proof (shift_pass_spec b post l [] x Hb) as E. cbn [app] in E. change (zlen []) with 0 in E.
  cbn [app]. rewrite E, bind_Done. clear E. set (l' := if b then x :: l else _).
  destruct (exists_last (l := x :: l) ltac:(done)) as (q & z & Eq).
  assert (List.last (x :: l) 0 = z) as Ez by (rewrite Eq; apply List.last_last).
  assert (zlen q = total - 1) as Lq.
  { apply (f_equal zlen) in Eq. rewrite zlen_cons, zlen_app, zlen_singleton in Eq. lia. }
  assert (is_byte z) as Bz by (rewrite Eq in Hb; by apply Forall_app in Hb as [_ [? _]%Forall_cons]).
  assert (exists p, l' = p ++ [z] /\ zlen p = total - 1 /\ (if b then x :: l else shifted (x :: l)) = p ++ [if b then z else 0])
    as (p & -> & Lp & ->).
  { unfold l'. destruct b; [by exists q|]. exists l. rewrite Ez. split_and!; [done|lia|]. unfold shifted.
    by replace (zdrop 1 (x :: l)) with l by done. }
  rewrite <- app_assoc. cbn [app]. rewrite <- Lp. rewrite load8_middle, bind_Done.
  assert (u8 (mbedtls_ct_uint_if_else_0 (cond b) z) = if b then z else 0) as ->.
  { unfold mbedtls_ct_uint_if_else_0. unfold is_byte in Bz. rewrite land_cond_l by (unfold word64; lia).
    unfold u8, u32. destruct b; [|done]. by rewrite (Z.mod_small _ (2 ^ 32)), Z.mod_small by lia. }
  rewrite store_Done, zlen_singleton; [|apply zlen_nonneg|rewrite zlen_singleton, zlen_app, zlen_cons; pose proof (zlen_nonneg post); lia].
  rewrite ztake_app_l, ztake_all, zdrop_app_r by lia. replace (zlen p + 1 - zlen p) with 1 by lia.
  by rewrite <- app_assoc.
Qed.

Lemma shifted_length buf : 0 < zlen buf -> zlen (shifted buf) = zlen buf.
Proof. intros. unfold shifted. rewrite zlen_app, zlen_singleton, zlen_zdrop; lia. Qed.

Lemma shifted_bytes buf : is_bytes buf -> is_bytes (shifted buf).
Proof. intros. unfold shifted. apply is_bytes_app; [auto with zlist|by apply Forall_singleton]. Qed.

(** After [k] shifts. *)
Lemma shifts_spec (k : nat) buf :
  Z.of_nat k <= zlen buf -> Nat.iter k shifted buf = zdrop (Z.of_nat k) buf ++ replicate k 0.
Proof.
  induction k as [|k IH]; intros Hk; [by rewrite app_nil_r|].
  rewrite Nat.iter_succ, IH by lia. unfold shifted.
  rewrite zdrop_app_l by (rewrite zlen_zdrop; lia). rewrite zdrop_zdrop, <- app_assoc by lia.
  replace (Z.of_nat k + 1) with (Z.of_nat (S k)) by lia. f_equal.
  by rewrite <- (replicate_S_end k 0).
Qed.

Lemma memmove_left_loop_spec total offset post : 0 <= offset <= total -> total < 2 ^ 64 ->
  forall k buf i, is_bytes buf -> zlen buf = total -> 0 <= i -> i + Z.of_nat k = total ->
  memmove_left_loop be k (buf ++ post) i total offset =
    Done (Nat.iter (Z.to_nat (Z.min (Z.of_nat k) offset)) shifted buf ++ post).
Proof.
  intros Ho Ht. induction k as [|k IH]; intros buf i Hb Hl Hi Hk; cbn [memmove_left_loop].
  { by replace (Z.to_nat (Z.min (Z.of_nat 0) offset)) with 0%nat by lia. }
  unfold mbedtls_ct_uint_gt, sub64, u64. rewrite Z.mod_small, ct_lt_spec by (unfold word64; lia).
  pose proof (pass_spec (i <? total - offset) buf post total Hb Hl ltac:(lia)) as P.
  apply bind_Done_inv in P as (b1 & -> & P). apply bind_Done_inv in P as (c & Ec & P).
  rewrite bind_Done, Ec, bind_Done, P, bind_Done. destruct (i <? total - offset) eqn:E; bool_to_prop.
  - rewrite IH by (done || lia). by replace (Z.min (Z.of_nat (S k)) offset) with (Z.min (Z.of_nat k) offset) by lia.
  - rewrite IH by (rewrite ?shifted_length; auto using shifted_bytes; lia).
    replace (Z.to_nat (Z.min (Z.of_nat (S k)) offset)) with (S (Z.to_nat (Z.min (Z.of_nat k) offset))) by lia.
    by rewrite Nat.iter_succ_r.
Qed.

Lemma memmove_left_spec buf total offset :
  is_bytes buf -> 0 <= offset <= total -> total <= zlen buf -> total < 2 ^ 64 ->
  mbedtls_ct_memmove_left be buf total offset =
    Done (zdrop offset (ztake total buf) ++ replicate (Z.to_nat offset) 0 ++ zdrop total buf).
Proof.
  intros Hb Ho Ht Hm. unfold mbedtls_ct_memmove_left. rewrite <- (ztake_zdrop total buf) at 1.
  assert (zlen (ztake total buf) = total) as L by (rewrite zlen_ztake; lia).
  rewrite memmove_left_loop_spec by (auto with zlist; lia).
  replace (Z.min (Z.of_nat (Z.to_nat total)) offset) with offset by lia.
  rewrite shifts_spec, Z2Nat.id by lia. by rewrite <- app_assoc.
Qed.

(** What a conditional copy leaves in the first [len] bytes. *)
Definition copied (b : bool) (dest src1 : list Z) (s1 : Z) (src2 : option (list Z)) : list Z :=
  if b then zdrop s1 src1 else default dest src2.

Lemma zdrop_splice_behind b out : zlen out <= zlen b -> zdrop (zlen out) (splice b 0 out) = zdrop (zlen out) b.
Proof. apply splice_0_suffix. Qed.

Lemma memcpy_words_spec b w dest src1 s1 src2 len : 0 < w <= 8 -> 0 <= len ->
  is_bytes dest -> is_bytes src1 -> is_bytes (default [] src2) ->
  0 <= s1 -> s1 + len <= zlen src1 -> len <= zlen dest -> (forall s, src2 = Some s -> len <= zlen s) ->
  forall fuel i, 0 <= i <= len -> len - i < Z.of_nat fuel ->
  exists j, i <= j <= len /\ len < j + w /\
    memcpy_words fuel w (splice dest 0 (ztake i (copied b dest src1 s1 src2))) src1 s1 src2
      (cond b) (cond (negb b)) i len =
    Done (splice dest 0 (ztake j (copied b dest src1 s1 src2)), j).
Proof.
  intros Hw H0 Bd B1 B2 Hs1 L1 Ld L2. set (r := copied b dest src1 s1 src2).
  assert (len <= zlen r) as Lr.
  { unfold r, copied. destruct b; [rewrite zlen_zdrop; lia|]. destruct src2; [by apply L2|done]. }
  assert (is_bytes r) as Br.
  { unfold r, copied. destruct b; [auto with zlist|]. by destruct src2. }
  induction fuel as [|fuel IH]; intros i Hi Hf; [lia|]. cbn [memcpy_words].
  destruct (i + w <=? len) eqn:E; bool_to_prop; [|exists i; split_and!; try lia; done].
  assert (zlen (ztake i r) = i) as Li by (rewrite zlen_ztake; lia).
  set (cur := splice dest 0 (ztake i r)). assert (zlen cur = zlen dest) as Lc by (unfold cur; rewrite zlen_splice; lia).
  rewrite (load_Done src1), bind_Done by lia. set (a := ztake w (zdrop (s1 + i) src1)).
  assert (exists c, load (default cur src2) i w = Done c /\ is_bytes c /\ length c = Z.to_nat w /\
    (b = false -> c = ztake w (zdrop i r))) as (c & -> & Bc & Lc' & Ec).
  { destruct src2 as [s|]; [change (default cur (Some s)) with s|change (default cur None) with cur].
    - specialize (L2 s eq_refl). rewrite load_Done by lia. eexists. split; [reflexivity|].
      split_and!; [by apply is_bytes_ztake, is_bytes_zdrop|by rewrite length_slice by lia|by intros ->].
    - rewrite load_Done by lia. eexists. split; [reflexivity|]. split_and!.
      + unfold cur, splice. auto 9 with zlist.
      + by rewrite length_slice by lia.
      + intros ->. unfold cur. rewrite <- Li at 1. rewrite splice_0_suffix, Li by lia. done. }
  rewrite bind_Done. pose proof (length_slice src1 (s1 + i) w) as La. fold a in La.
  assert (is_bytes a) as Ba by (unfold a; auto with zlist).
  assert (le_bytes (Z.to_nat w) (Z.lor (Z.land (le a) (cond b)) (Z.land (le c) (cond (negb b)))) = ztake w (zdrop i r)) as ->.
  { assert (forall z, is_bytes z -> length z = Z.to_nat w -> word64 (le z)) as W.
    { intros z Bz Lz. pose proof (le_range z Bz). assert (2 ^ (8 * zlen z) <= 2 ^ 64) by (apply Z.pow_le_mono_r; unfold zlen; lia).
      unfold word64. lia. }
    rewrite !(Z.land_comm _ (cond _)), !land_cond_l by (apply W; auto; apply La; lia). destruct b; cbn [negb].
    - rewrite Z.lor_0_r, <- La, le_bytes_le by (done || lia). unfold a, r, copied. by rewrite zdrop_zdrop by lia.
    - rewrite Z.lor_0_l, <- Lc', le_bytes_le by done. by apply Ec. }
  assert (zlen (ztake w (zdrop i r)) = w) as Lw by (rewrite zlen_ztake; [done|rewrite zlen_zdrop; lia]).
  pose proof (store_behind dest (ztake i r) (ztake w (zdrop i r))) as St. rewrite Li, Lw in St.
  unfold cur. rewrite St, bind_Done by lia.
  rewrite <- ztake_add by lia. destruct (IH (i + w)) as (j & Hj & Hn & ->); [lia..|].
  exists j. split_and!; try lia. done.
Qed.

Lemma memcpy_if_spec b dest src1 s1 src2 len :
  is_bytes dest -> is_bytes src1 -> is_bytes (default [] src2) ->
  0 <= s1 -> 0 <= len -> s1 + len <= zlen src1 -> len <= zlen dest -> (forall s, src2 = Some s -> len <= zlen s) ->
  mbedtls_ct_memcpy_if (cond b) dest src1 s1 src2 len = Done (splice dest 0 (ztake len (copied b dest src1 s1 src2))).
Proof.
  intros Bd B1 B2 Hs1 Hlen L1 Ld L2. unfold mbedtls_ct_memcpy_if, mbedtls_ct_compiler_opaque. rewrite not64_cond.
  destruct (memcpy_words_spec b 8 dest src1 s1 src2 len ltac:(lia) Hlen Bd B1 B2 Hs1 L1 Ld L2 (S (Z.to_nat len)) 0)
    as (j & Hj & _ & E); [lia..|]. rewrite ztake_0, splice_nil in E by lia. rewrite E, bind_Done. cbv beta iota.
  destruct (memcpy_words_spec b 1 dest src1 s1 src2 len ltac:(lia) Hlen Bd B1 B2 Hs1 L1 Ld L2 (S (Z.to_nat len)) j)
    as (k & Hk & Hn & ->); [lia..|]. rewrite bind_Done. cbv beta iota. by replace k with len by lia.
Qed.

Lemma splice_self dest len : 0 <= len <= zlen dest -> splice dest 0 (ztake len dest) = dest.
Proof.
  intros H. unfold splice. rewrite ztake_0, zlen_ztake, Z.add_0_l by lia. apply ztake_zdrop.
Qed.

Lemma memcpy_offset_loop_spec src offset len : is_bytes src -> 0 <= len -> 0 <= offset < 2 ^ 64 ->
  forall k dest o, is_bytes dest -> len <= zlen dest -> 0 <= o -> o + Z.of_nat k <= 2 ^ 64 ->
  o + Z.of_nat k + len <= zlen src + 1 ->
  memcpy_offset_loop be k dest src o offset len =
    Done (if (o <=? offset) && (offset <? o + Z.of_nat k)
          then splice dest 0 (ztake len (zdrop offset src)) else dest).
Proof.
  intros Bs Hl Ho. induction k as [|k IH]; intros dest o Bd Ld H0 Hm Hs; cbn [memcpy_offset_loop].
  { by destruct (o <=? offset) eqn:E1, (offset <? o + Z.of_nat 0) eqn:E2; bool_to_prop; try done; lia. }
  unfold mbedtls_ct_uint_eq. rewrite ct_ne_spec, not64_cond, negb_involutive by (unfold word64; lia).
  rewrite memcpy_if_spec by first [done|lia|apply Forall_nil_2]. rewrite bind_Done. destruct (o =? offset) eqn:E; bool_to_prop.
  - subst o. unfold copied. set (d := splice _ _ _).
    assert (zlen (ztake len (zdrop offset src)) = len) as L by (rewrite zlen_ztake; [done|rewrite zlen_zdrop; lia]).
    rewrite IH; [|unfold d, splice; auto 9 with zlist|unfold d; rewrite zlen_splice; lia|lia..].
    rewrite (proj2 (Z.leb_gt (offset + 1) _)) by lia. cbn [andb].
    by rewrite (proj2 (Z.leb_le offset _)), (proj2 (Z.ltb_lt offset _)) by lia.
  - unfold copied. change (default dest None) with dest. rewrite splice_self, IH by (done || lia).
    f_equal. replace (offset <? o + 1 + Z.of_nat k) with (offset <? o + Z.of_nat (S k)) by (f_equal; lia).
    replace (o + 1 <=? offset) with (o <=? offset); [done|].
    destruct (o <=? offset) eqn:E1, (o + 1 <=? offset) eqn:E2; bool_to_prop; done || lia.
Qed.

(** What zeroizing leaves. *)
Definition zeroized_if (b : bool) (p : list Z) : list Z := if b then replicate (length p) 0 else p.

Lemma zeroize_words_spec b w p len : 0 < w <= 4 -> is_bytes p -> len <= zlen p ->
  forall fuel i, 0 <= i <= len -> len - i < Z.of_nat fuel ->
  exists j, i <= j <= len /\ len < j + w /\
    zeroize_words fuel w (splice p 0 (ztake i (zeroized_if b p))) (u32 (not64 (cond b))) i len =
    Done (splice p 0 (ztake j (zeroized_if b p)), j).
Proof.
  intros Hw Bp Lp. set (r := zeroized_if b p).
  assert (zlen r = zlen p) as Lr by (unfold r, zeroized_if; destruct b; [apply zlen_replicate|done]).
  induction fuel as [|fuel IH]; intros i Hi Hf; [lia|]. cbn [zeroize_words].
  destruct (i + w <=? len) eqn:E; bool_to_prop; [|exists i; split_and!; try lia; done].
  assert (zlen (ztake i r) = i) as Li by (rewrite zlen_ztake; lia).
  rewrite load_Done, bind_Done by (rewrite ?zlen_splice; lia).
  assert (zdrop i (splice p 0 (ztake i r)) = zdrop i p) as ->.
  { rewrite <- Li at 1. rewrite splice_0_suffix, Li by lia. done. }
  set (x := ztake w (zdrop i p)). assert (is_bytes x) as Bx by (unfold x; auto with zlist).
  assert (length x = Z.to_nat w) as Lx by (unfold x; by rewrite length_slice by lia).
  assert (le_bytes (Z.to_nat w) (Z.land (le x) (u32 (not64 (cond b)))) = ztake w (zdrop i r)) as ->.
  { rewrite not64_cond. unfold r, zeroized_if. destruct b; cbn [negb].
    - change (u32 (cond false)) with 0. rewrite Z.land_0_r.
      unfold ztake, zdrop. rewrite drop_replicate, take_replicate.
      replace (_ `min` _)%nat with (Z.to_nat w) by (unfold zlen in *; lia).
      clear. generalize (Z.to_nat w). intros n. induction n as [|n IH]; [done|]. cbn [le_bytes replicate].
      by rewrite Z.div_0_l, IH.
    - change (u32 (cond true)) with (Z.ones 32). rewrite Z.land_ones, Z.mod_small by
        (try lia; pose proof (le_range x Bx); assert (2 ^ (8 * zlen x) <= 2 ^ 32) by (apply Z.pow_le_mono_r; unfold zlen; lia); lia).
      rewrite <- Lx. by apply le_bytes_le. }
  assert (zlen (ztake w (zdrop i r)) = w) as Lw by (rewrite zlen_ztake; [done|rewrite zlen_zdrop; lia]).
  pose proof (store_behind p (ztake i r) (ztake w (zdrop i r))) as St. rewrite Li, Lw in St.
  rewrite St, bind_Done by lia. rewrite <- ztake_add by lia.
  destruct (IH (i + w)) as (j & Hj & Hn & ->); [lia..|]. exists j. split_and!; try lia. done.
Qed.

Lemma zeroize_if_spec b p len :
  is_bytes p -> 0 <= len <= zlen p ->
  mbedtls_ct_zeroize_if (cond b) p len = Done (splice p 0 (ztake len (zeroized_if b p))).
Proof.
  intros Bp Hl. unfold mbedtls_ct_zeroize_if.
  destruct (zeroize_words_spec b 4 p len ltac:(lia) Bp ltac:(lia) (S (Z.to_nat len)) 0) as (j & Hj & _ & E); [lia..|].
  rewrite ztake_0, splice_nil in E by lia. rewrite E, bind_Done. cbv beta iota.
  destruct (zeroize_words_spec b 1 p len ltac:(lia) Bp ltac:(lia) (S (Z.to_nat len)) j) as (k & Hk & Hn & ->); [lia..|].
  rewrite bind_Done. cbv beta iota. by replace k with len by lia.
Qed.

Lemma memcmp_partial_loop_spec A B h e : is_bytes A -> is_bytes B -> word64 h -> word64 e ->
  forall k i diff, 0 <= i -> i + Z.of_nat k <= zlen A -> i + Z.of_nat k <= zlen B -> i + Z.of_nat k <= 2 ^ 64 ->
  is_byte diff ->
  exists d, memcmp_partial_loop be k A B i h e diff = Done d /\ is_byte d /\
    (d = 0 <-> diff = 0 /\ forall j, i <= j < i + Z.of_nat k -> h <= j < e -> A !!! Z.to_nat j = B !!! Z.to_nat j).
Proof.
  intros BA BB Hh He. induction k as [|k IH]; intros i diff Hi LA LB Hm Hd; cbn [memcmp_partial_loop].
  { exists diff. split_and!; [done..|]. split; [|naive_solver]. intros ->. split; [done|]. intros; lia. }
  rewrite !load8_Done, !bind_Done by lia. set (x := A !!! _). set (y := B !!! _).
  assert (forall l, is_bytes l -> i < zlen l -> is_byte (l !!! Z.to_nat i)) as Bl.
  { intros l Bl Ll. unfold is_bytes in Bl. rewrite Forall_lookup in Bl. apply (Bl (Z.to_nat i)).
    apply list_lookup_lookup_total_lt. unfold zlen in Ll. lia. }
  assert (is_byte x /\ is_byte y) as [Bx By] by (unfold x, y; split; apply Bl; done || lia).
  assert (is_byte (Z.lxor x y)) as Bxy.
  { apply is_byte_land. apply is_byte_land in Bx, By. apply Z.bits_inj'. intros j Hj.
    rewrite Z.land_spec, Z.lxor_spec, <- Bx, <- By, !Z.land_spec. by destruct (Z.testbit 255 j), (Z.testbit x j), (Z.testbit y j). }
  unfold mbedtls_ct_bool_and, mbedtls_ct_uint_ge.
  rewrite !ct_lt_spec, not64_cond, land_cond_l by (unfold word64 in *; first [lia|apply word64_cond]).
  set (v := negb (i <? h)). assert ((if v then cond (i <? e) else 0) = cond (v && (i <? e))) as -> by (by destruct v).
  set (c := v && (i <? e)).
  assert (mbedtls_ct_uint_if_else_0 (cond c) (Z.lxor x y) = if c then Z.lxor x y else 0) as ->.
  { unfold mbedtls_ct_uint_if_else_0. unfold is_byte in Bxy. rewrite land_cond_l by (unfold word64; lia).
    unfold u32. destruct c; [|done]. apply Z.mod_small. lia. }
  destruct (IH (i + 1) (Z.lor diff (if c then Z.lxor x y else 0))) as (d & -> & Bd & Hiff); [lia..| |].
  { apply byte_lor; [done|]. by destruct c. }
  exists d. split_and!; [done..|]. rewrite Hiff, Z.lor_eq_0_iff.
  assert ((if c then Z.lxor x y else 0) = 0 <-> (h <= i < e -> x = y)) as Hc.
  { unfold c, v. destruct (i <? h) eqn:E1, (i <? e) eqn:E2; cbn [negb andb]; bool_to_prop;
      rewrite ?Z.lxor_eq_0_iff; split; intros; first [done|lia|auto with lia]. }
  rewrite Hc. split.
  - intros [[-> Hx] Hr]. split; [done|]. intros j Hj Hje.
    destruct (Z.eq_dec j i) as [->|]; [by apply Hx|apply Hr; lia].
  - intros [-> Hr]. split_and!; [done| |]; [intros; apply Hr; lia|intros; apply Hr; lia].
Qed.
End memory.

Lemma memcpy_offset_spec be dest src offset offset_min offset_max len :
  is_bytes dest -> is_bytes src -> 0 <= len <= zlen dest -> 0 <= offset_min <= offset -> offset <= offset_max ->
  offset_max < 2 ^ 64 - 1 -> offset_max + len <= zlen src ->
  mbedtls_ct_memcpy_offset be dest src offset offset_min offset_max len =
    Done (splice dest 0 (ztake len (zdrop offset src))).
Proof.
  intros Bd Bs Hl H1 H2 H3 H4. unfold mbedtls_ct_memcpy_offset.
  rewrite memcpy_offset_loop_spec by (done || lia). rewrite Z2Nat.id by lia.
  by rewrite (proj2 (Z.leb_le _ _)), (proj2 (Z.ltb_lt _ _)) by lia.
Qed.

(** C15.  The comparisons without branches, as the x86-64 assembly, the AArch64 assembly and the
    plain C compute them, agree with the comparison they stand for on all 64-bit operands,
    and the selections take the first value when the condition holds and the second (or
    zero) when it does not; error codes go through the unsigned arithmetic unchanged. *)
Theorem ct_primitives_correct be x y b e e' :
  word64 x -> word64 y -> - 2 ^ 31 < e <= 0 -> - 2 ^ 31 < e' <= 0 ->
  mbedtls_ct_bool be x = cond (negb (x =? 0)) /\
  mbedtls_ct_uint_ne be x y = cond (negb (x =? y)) /\
  mbedtls_ct_uint_eq be x y = cond (x =? y) /\
  mbedtls_ct_uint_lt be x y = cond (x <? y) /\
  mbedtls_ct_uint_gt be x y = cond (y <? x) /\
  mbedtls_ct_uint_ge be x y = cond (y <=? x) /\
  mbedtls_ct_uint_le be x y = cond (x <=? y) /\
  mbedtls_ct_size_if be (cond b) x y = (if b then x else y) /\
  mbedtls_ct_size_if_else_0 (cond b) x = (if b then x else 0) /\
  mbedtls_ct_error_if be (cond b) e e' = (if b then e else e') /\
  mbedtls_ct_error_if_else_0 (cond b) e = (if b then e else 0).
Proof.
  intros Hx Hy He He'.
  unfold mbedtls_ct_uint_eq, mbedtls_ct_uint_gt, mbedtls_ct_uint_ge, mbedtls_ct_uint_le, mbedtls_ct_uint_gt,
    mbedtls_ct_size_if, mbedtls_ct_size_if_else_0, mbedtls_ct_error_if, mbedtls_ct_error_if_else_0.
  rewrite ct_bool_spec, !ct_ne_spec, !ct_lt_spec, !ct_if_spec, !land_cond_l, !not64_cond, negb_involutive,
    <- !Z.leb_antisym by auto with w64.
  assert (forall c, - 2 ^ 31 < c <= 0 -> - to_int (u64 (- c)) = c) as Hi.
  { intros c Hc. unfold u64. rewrite Z.mod_small, to_int_id; lia. }
  split_and!; try done; destruct b; by rewrite ?Hi by lia.
Qed.

Lemma ct_primitives_correct_witness :
  mbedtls_ct_uint_lt AArch64 (2 ^ 63) 7 = 0 /\ mbedtls_ct_error_if AArch64 (cond true) (-22) (-1) = -22.
Proof.
  destruct (ct_primitives_correct AArch64 (2 ^ 63) 7 true (-22) (-1))
    as (_ & _ & _ & L & _ & _ & _ & _ & _ & E & _); [vm_compute; split; discriminate || reflexivity..|].
  split; [exact L|exact E].
Defined.

(** The memory functions without secret-dependent branches are the library calls they
    replace: moving a buffer to the left by a secret offset is [memmove] and [memset], the
    conditional copy is [memcpy] from the selected source, the copy from a secret offset is
    [memcpy] from there, conditional zeroizing is [memset] or nothing. *)
Theorem ct_memory_correct be b buf src total offset offset_min offset_max len :
  is_bytes buf -> is_bytes src ->
  0 <= offset <= total -> total <= zlen buf -> total < 2 ^ 64 -> 0 <= len <= zlen buf ->
  0 <= offset_min <= offset -> offset <= offset_max -> offset_max < 2 ^ 64 - 1 -> offset_max + len <= zlen src ->
  mbedtls_ct_memmove_left be buf total offset =
    Done (zdrop offset (ztake total buf) ++ replicate (Z.to_nat offset) 0 ++ zdrop total buf) /\
  mbedtls_ct_memcpy_if (cond b) buf src offset None len =
    Done (if b then splice buf 0 (ztake len (zdrop offset src)) else buf) /\
  mbedtls_ct_memcpy_offset be buf src offset offset_min offset_max len =
    Done (splice buf 0 (ztake len (zdrop offset src))) /\
  mbedtls_ct_zeroize_if (cond b) buf len =
    Done (if b then replicate (Z.to_nat len) 0 ++ zdrop len buf else buf).
Proof.
  intros Bb Bs H1 H2 H3 H4 H5 H6 H7 H8. split_and!.
  - by apply memmove_left_spec.
  - rewrite memcpy_if_spec by first [done|lia|apply Forall_nil_2]. unfold copied.
    destruct b; [done|]. cbn [default]. by rewrite splice_self by lia.
  - by apply memcpy_offset_spec.
  - rewrite zeroize_if_spec by (done || lia). unfold zeroized_if. f_equal. destruct b; [|by apply splice_self].
    unfold splice. rewrite ztake_0, zlen_ztake by (rewrite zlen_replicate; unfold zlen in *; lia). cbn [app].
    rewrite Z.add_0_l. f_equal. unfold ztake. rewrite take_replicate. f_equal. unfold zlen in *. lia.
Qed.

Lemma ct_memory_correct_witness :
  mbedtls_ct_memmove_left X86_64 [0; 2; 9; 0; 5; 6] 5 3 = Done [0; 5; 0; 0; 0; 6].
Proof.
  apply (ct_memory_correct X86_64 true [0; 2; 9; 0; 5; 6] [1; 2; 3; 4; 5; 6; 7; 8] 5 3 1 4 4);
    try (apply (bool_decide_unpack _); vm_compute; exact I); vm_compute; split; discriminate || reflexivity.
Defined.

Lemma is_byte_to_int d : is_byte d -> to_int d = d.
Proof. unfold is_byte. intros. apply to_int_id. lia. Qed.

(** The partial comparison looks at the bytes between the head and the tail it is told to
    skip, reads all of both buffers, and returns zero exactly when those bytes agree. *)
Theorem ct_memcmp_partial_correct be a b n skip_head skip_tail :
  is_bytes a -> is_bytes b -> 0 <= n <= zlen a -> n <= zlen b -> n < 2 ^ 64 ->
  0 <= skip_head -> 0 <= skip_tail -> skip_head + skip_tail <= n ->
  exists d, mbedtls_ct_memcmp_partial be a b n skip_head skip_tail = Done d /\ 0 <= d <= 0xff /\
    (d = 0 <-> forall j, skip_head <= j < n - skip_tail -> a !!! Z.to_nat j = b !!! Z.to_nat j).
Proof.
  intros Ba Bb H1 H2 H3 H4 H5 H6. unfold mbedtls_ct_memcmp_partial, sub64, u64.
  rewrite Z.mod_small by lia.
  destruct (memcmp_partial_loop_spec be a b skip_head (n - skip_tail) Ba Bb
    ltac:(unfold word64; lia) ltac:(unfold word64; lia) (Z.to_nat n) 0 0) as (d & -> & Bd & Hd);
    [rewrite ?Z2Nat.id by lia; lia..|unfold is_byte; lia|].
  rewrite bind_Done. exists d. rewrite is_byte_to_int by done. unfold is_byte in Bd. split_and!; [done|lia..|].
  rewrite Hd, Z.add_0_l, Z2Nat.id by lia. split; [intros [_ H] j Hj; apply H; lia|intros H; split; auto with lia].
Qed.

Lemma ct_memcmp_partial_correct_witness :
  exists d, mbedtls_ct_memcmp_partial Generic [1; 2; 3; 4; 5] [9; 2; 7; 4; 8] 5 1 1 = Done d /\ 0 <= d <= 0xff.
Proof.
  destruct (ct_memcmp_partial_correct Generic [1; 2; 3; 4; 5] [9; 2; 7; 4; 8] 5 1 1) as (d & E & R & _);
    try (apply (bool_decide_unpack _); vm_compute; exact I); try (vm_compute; split; discriminate || reflexivity).
  exists d. split; [exact E|exact R].
Defined.
