(* ===== verification/ChachaPoly.v ===== *)
(** * ChaCha20-Poly1305 of mbedTLS

    [src/internal/mbedtls/chachapoly.c]: the authenticated cipher put together from the
    ChaCha20 and Poly1305 contexts, driven by a state machine of four states.  The file
    states the AEAD of RFC 8439, section 2.8, and an abstract machine that only remembers
    what it was fed; the theorems show that the code simulates that machine call by call,
    that the one-call functions compute the AEAD, and that decryption gives the plaintext
    back for the right tag and nothing for any other. *)

From S2P Require Import Prelude Bytes Poly1305 Chacha20 ConstTime.

Definition MBEDTLS_ERR_CHACHAPOLY_BAD_STATE : Z := -0x54.
Definition MBEDTLS_ERR_CHACHAPOLY_AUTH_FAILED : Z := -0x56.

Definition CHACHAPOLY_STATE_INIT : Z := 0.
Definition CHACHAPOLY_STATE_AAD : Z := 1.
Definition CHACHAPOLY_STATE_CIPHERTEXT : Z := 2.
Definition CHACHAPOLY_STATE_FINISHED : Z := 3.

Inductive mbedtls_chachapoly_mode_t := MBEDTLS_CHACHAPOLY_ENCRYPT | MBEDTLS_CHACHAPOLY_DECRYPT.

#[export] Instance mode_eq_dec : EqDecision mbedtls_chachapoly_mode_t.
Proof. solve_decision. Defined.

Record mbedtls_chachapoly_context := ChachaPoly {
  chacha20_ctx : mbedtls_chacha20_context;
  poly1305_ctx : mbedtls_poly1305_context;
  aad_len : Z;
  ciphertext_len : Z;
  state : Z;
  mode : mbedtls_chachapoly_mode_t
}.

(** ** Assignments to fields *)

Definition set_chacha20 (ctx : mbedtls_chachapoly_context) (c : mbedtls_chacha20_context) :=
  ChachaPoly c (poly1305_ctx ctx) (aad_len ctx) (ciphertext_len ctx) (state ctx) (mode ctx).
Definition set_poly1305 (ctx : mbedtls_chachapoly_context) (p : mbedtls_poly1305_context) :=
  ChachaPoly (chacha20_ctx ctx) p (aad_len ctx) (ciphertext_len ctx) (state ctx) (mode ctx).
Definition set_aad_len (ctx : mbedtls_chachapoly_context) (n : Z) :=
  ChachaPoly (chacha20_ctx ctx) (poly1305_ctx ctx) n (ciphertext_len ctx) (state ctx) (mode ctx).
Definition set_ciphertext_len (ctx : mbedtls_chachapoly_context) (n : Z) :=
  ChachaPoly (chacha20_ctx ctx) (poly1305_ctx ctx) (aad_len ctx) n (state ctx) (mode ctx).
Definition set_state (ctx : mbedtls_chachapoly_context) (n : Z) :=
  ChachaPoly (chacha20_ctx ctx) (poly1305_ctx ctx) (aad_len ctx) (ciphertext_len ctx) n (mode ctx).

(** The MAC context absorbs [len] bytes of [input]. *)
Definition feed (ctx : mbedtls_chachapoly_context) (input : list Z) (len : Z)
    : outcome (Z * mbedtls_chachapoly_context) :=
  '(ret, p) ← mbedtls_poly1305_update (poly1305_ctx ctx) input len;
  mret (ret, set_poly1305 ctx p).

(** ** Padding *)

Definition chachapoly_pad_aad (ctx : mbedtls_chachapoly_context)
    : outcome (Z * mbedtls_chachapoly_context) :=
  let partial_block_len := u32 (aad_len ctx mod 16) in
  if partial_block_len =? 0 then mret (0, ctx) else
  let zeroes := replicate 15 0 in
  feed ctx zeroes (16 - partial_block_len).

Definition chachapoly_pad_ciphertext (ctx : mbedtls_chachapoly_context)
    : outcome (Z * mbedtls_chachapoly_context) :=
  let partial_block_len := u32 (ciphertext_len ctx mod 16) in
  if partial_block_len =? 0 then mret (0, ctx) else
  let zeroes := replicate 15 0 in
  feed ctx zeroes (16 - partial_block_len).

(** ** The interface *)

Definition mbedtls_chachapoly_init (ctx : mbedtls_chachapoly_context) : mbedtls_chachapoly_context :=
  ChachaPoly (mbedtls_chacha20_init (chacha20_ctx ctx)) (mbedtls_poly1305_init (poly1305_ctx ctx))
    0 0 CHACHAPOLY_STATE_INIT MBEDTLS_CHACHAPOLY_ENCRYPT.

Definition mbedtls_chachapoly_free (ctx : option mbedtls_chachapoly_context)
    : option mbedtls_chachapoly_context :=
  ctx ← ctx;
  c ← mbedtls_chacha20_free (Some (chacha20_ctx ctx));
  p ← mbedtls_poly1305_free (Some (poly1305_ctx ctx));
  Some (ChachaPoly c p 0 0 CHACHAPOLY_STATE_INIT MBEDTLS_CHACHAPOLY_ENCRYPT).

Definition mbedtls_chachapoly_setkey (ctx : mbedtls_chachapoly_context) (key : list Z)
    : outcome (Z * mbedtls_chachapoly_context) :=
  '(ret, c) ← mbedtls_chacha20_setkey (chacha20_ctx ctx) key;
  mret (ret, set_chacha20 ctx c).

Section chachapoly.
(** The width of the words [mbedtls_xor] works on, and how the constant-time functions are
    compiled. *)
Context (w : Z) (be : backend).

(** The key buffer is input and output of the keystream call; each of its bytes is read
    before it is written.  Its zeroizing at the end leaves nothing to see. *)
Definition mbedtls_chachapoly_starts (ctx : mbedtls_chachapoly_context) (nonce : list Z)
    (m : mbedtls_chachapoly_mode_t) : outcome (Z * mbedtls_chachapoly_context) :=
  '(ret, c) ← mbedtls_chacha20_starts (chacha20_ctx ctx) nonce 0;
  let ctx := set_chacha20 ctx c in
  if negb (ret =? 0) then mret (ret, ctx) else
  let poly1305_key := replicate 64 0 in
  '(ret, c, poly1305_key) ← mbedtls_chacha20_update w (chacha20_ctx ctx) 64 poly1305_key poly1305_key;
  let ctx := set_chacha20 ctx c in
  if negb (ret =? 0) then mret (ret, ctx) else
  '(ret, p) ← mbedtls_poly1305_starts (poly1305_ctx ctx) poly1305_key;
  let ctx := set_poly1305 ctx p in
  if ret =? 0 then
    mret (ret, ChachaPoly (chacha20_ctx ctx) (poly1305_ctx ctx) 0 0 CHACHAPOLY_STATE_AAD m)
  else mret (ret, ctx).

Definition mbedtls_chachapoly_update_aad (ctx : mbedtls_chachapoly_context) (aad : list Z) (len : Z)
    : outcome (Z * mbedtls_chachapoly_context) :=
  if negb (state ctx =? CHACHAPOLY_STATE_AAD) then mret (MBEDTLS_ERR_CHACHAPOLY_BAD_STATE, ctx) else
  let ctx := set_aad_len ctx (u64 (aad_len ctx + len)) in
  feed ctx aad len.

(** The end of an update: the MAC is always over the ciphertext. *)
Definition update_data (ctx : mbedtls_chachapoly_context) (len : Z) (input output : list Z)
    : outcome (Z * mbedtls_chachapoly_context * list Z) :=
  match mode ctx with
  | MBEDTLS_CHACHAPOLY_ENCRYPT =>
      '(ret, c, output) ← mbedtls_chacha20_update w (chacha20_ctx ctx) len input output;
      let ctx := set_chacha20 ctx c in
      if negb (ret =? 0) then mret (ret, ctx, output) else
      '(ret, ctx) ← feed ctx output len;
      mret (ret, ctx, output)
  | MBEDTLS_CHACHAPOLY_DECRYPT =>
      '(ret, ctx) ← feed ctx input len;
      if negb (ret =? 0) then mret (ret, ctx, output) else
      '(ret, c, output) ← mbedtls_chacha20_update w (chacha20_ctx ctx) len input output;
      mret (ret, set_chacha20 ctx c, output)
  end.

Definition mbedtls_chachapoly_update (ctx : mbedtls_chachapoly_context) (len : Z) (input output : list Z)
    : outcome (Z * mbedtls_chachapoly_context * list Z) :=
  if negb (state ctx =? CHACHAPOLY_STATE_AAD) && negb (state ctx =? CHACHAPOLY_STATE_CIPHERTEXT)
  then mret (MBEDTLS_ERR_CHACHAPOLY_BAD_STATE, ctx, output) else
  let ret := mbedtls_chacha20_check_counter_wrap (chacha20_ctx ctx) len in
  if negb (ret =? 0) then mret (ret, ctx, output) else
  '(ret, ctx) ← (if state ctx =? CHACHAPOLY_STATE_AAD then
                   chachapoly_pad_aad (set_state ctx CHACHAPOLY_STATE_CIPHERTEXT)
                 else mret (0, ctx));
  if negb (ret =? 0) then mret (ret, ctx, output) else
  let ctx := set_ciphertext_len ctx (u64 (ciphertext_len ctx + len)) in
  update_data ctx len input output.

Definition mbedtls_chachapoly_finish (ctx : mbedtls_chachapoly_context) (mac : list Z)
    : outcome (Z * mbedtls_chachapoly_context * list Z) :=
  if state ctx =? CHACHAPOLY_STATE_INIT then mret (MBEDTLS_ERR_CHACHAPOLY_BAD_STATE, ctx, mac) else
  '(ret, ctx) ← (if state ctx =? CHACHAPOLY_STATE_AAD then chachapoly_pad_aad ctx
                 else if state ctx =? CHACHAPOLY_STATE_CIPHERTEXT then chachapoly_pad_ciphertext ctx
                 else mret (0, ctx));
  if negb (ret =? 0) then mret (ret, ctx, mac) else
  let ctx := set_state ctx CHACHAPOLY_STATE_FINISHED in
  let len_block := replicate 16 0 in
  len_block ← MBEDTLS_PUT_UINT64_LE (aad_len ctx) len_block 0;
  len_block ← MBEDTLS_PUT_UINT64_LE (ciphertext_len ctx) len_block 8;
  '(ret, ctx) ← feed ctx len_block 16;
  if negb (ret =? 0) then mret (ret, ctx, mac) else
  '(ret, p, mac) ← mbedtls_poly1305_finish (poly1305_ctx ctx) mac;
  mret (ret, set_poly1305 ctx p, mac).

(** ** The functions for a whole message *)

Definition chachapoly_crypt_and_tag (ctx : mbedtls_chachapoly_context) (m : mbedtls_chachapoly_mode_t)
    (length : Z) (nonce aad : list Z) (aad_len : Z) (input output tag : list Z)
    : outcome (Z * mbedtls_chachapoly_context * list Z * list Z) :=
  '(ret, ctx) ← mbedtls_chachapoly_starts ctx nonce m;
  if negb (ret =? 0) then mret (ret, ctx, output, tag) else
  '(ret, ctx) ← mbedtls_chachapoly_update_aad ctx aad aad_len;
  if negb (ret =? 0) then mret (ret, ctx, output, tag) else
  '(ret, ctx, output) ← mbedtls_chachapoly_update ctx length input output;
  if negb (ret =? 0) then mret (ret, ctx, output, tag) else
  '(ret, ctx, tag) ← mbedtls_chachapoly_finish ctx tag;
  mret (ret, ctx, output, tag).

Definition mbedtls_chachapoly_encrypt_and_tag (ctx : mbedtls_chachapoly_context)
    (length : Z) (nonce aad : list Z) (aad_len : Z) (input output tag : list Z)
    : outcome (Z * mbedtls_chachapoly_context * list Z * list Z) :=
  chachapoly_crypt_and_tag ctx MBEDTLS_CHACHAPOLY_ENCRYPT length nonce aad aad_len input output tag.

Definition mbedtls_chachapoly_auth_decrypt (ctx : mbedtls_chachapoly_context)
    (length : Z) (nonce aad : list Z) (aad_len : Z) (tag input output : list Z)
    : outcome (Z * mbedtls_chachapoly_context * list Z) :=
  let check_tag := replicate 16 0 in
  '(ret, ctx, output, check_tag) ←
    chachapoly_crypt_and_tag ctx MBEDTLS_CHACHAPOLY_DECRYPT length nonce aad aad_len input output check_tag;
  if negb (ret =? 0) then mret (ret, ctx, output) else
  diff ← mbedtls_ct_memcmp be tag check_tag 16;
  if negb (diff =? 0) then
    output ← store output 0 (replicate (Z.to_nat length) 0);
    mret (MBEDTLS_ERR_CHACHAPOLY_AUTH_FAILED, ctx, output)
  else mret (0, ctx, output).
End chachapoly.

(** ** RFC 8439, section 2.8 *)

Definition pad16 (x : list Z) : list Z := replicate (Z.to_nat (- zlen x mod 16)) 0.

Definition lengths (n k : Z) : list Z := le_bytes 8 n ++ le_bytes 8 k.

(** The one-time key of the MAC comes from block zero, the data from block one on. *)
Definition rfc_otk (key nonce : list Z) : list Z := ztake 32 (block_bytes (rfc_state key nonce 0)).

Definition rfc_crypt (key nonce x : list Z) : list Z := combined (rfc_state key nonce 1) 0 x.

Definition mac_data (aad ct : list Z) : list Z :=
  aad ++ pad16 aad ++ ct ++ pad16 ct ++ lengths (zlen aad) (zlen ct).

Definition rfc_tag (key nonce aad ct : list Z) : list Z :=
  rfc_poly1305 (rfc_otk key nonce) (mac_data aad ct).

(** The longest message one nonce can encrypt. *)
Definition max_message : Z := 64 * (2 ^ 32 - 1).

(** ** The abstract machine *)

(** It remembers the message, not how it is processed.  [Tagged] keeps what the MAC was
    fed, because a second finish feeds the lengths once more. *)
Inductive aead :=
  | Idle
  | Associated (nonce : list Z) (m : mbedtls_chachapoly_mode_t) (aad : list Z)
  | Ciphering (nonce : list Z) (m : mbedtls_chachapoly_mode_t) (aad ct : list Z)
  | Tagged (nonce : list Z) (fed : list Z) (n k : Z).

Inductive call :=
  | Starts (nonce : list Z) (m : mbedtls_chachapoly_mode_t)
  | UpdateAad (aad : list Z)
  | Update (input output : list Z)
  | Finish (mac : list Z).

(** What the code does for a call: the return value, the buffer it leaves, the context. *)
Definition step (w : Z) (ctx : mbedtls_chachapoly_context) (c : call)
    : outcome (Z * list Z * mbedtls_chachapoly_context) :=
  match c with
  | Starts nonce m => '(ret, ctx) ← mbedtls_chachapoly_starts w ctx nonce m; mret (ret, [], ctx)
  | UpdateAad aad => '(ret, ctx) ← mbedtls_chachapoly_update_aad ctx aad (zlen aad); mret (ret, [], ctx)
  | Update input output =>
      '(ret, ctx, output) ← mbedtls_chachapoly_update w ctx (zlen input) input output; mret (ret, output, ctx)
  | Finish mac => '(ret, ctx, mac) ← mbedtls_chachapoly_finish ctx mac; mret (ret, mac, ctx)
  end.

(** The machine continues a message of which [done] bytes are through. *)
Definition crypt_more (key nonce : list Z) (m : mbedtls_chachapoly_mode_t) (aad ct input output : list Z)
    (s : aead) : Z * list Z * aead :=
  if zlen ct + zlen input <=? max_message then
    let out := combined (rfc_state key nonce 1) (zlen ct) input in
    (0, splice output 0 out,
     Ciphering nonce m aad
       (ct ++ match m with MBEDTLS_CHACHAPOLY_ENCRYPT => out | MBEDTLS_CHACHAPOLY_DECRYPT => input end))
  else (MBEDTLS_ERR_CHACHA20_BAD_INPUT_DATA, output, s).

Definition tag_of (key nonce fed : list Z) (n k : Z) (mac : list Z) : Z * list Z * aead :=
  let fed := fed ++ lengths n k in
  (0, splice mac 0 (rfc_poly1305 (rfc_otk key nonce) fed), Tagged nonce fed n k).

(** The machine chachapoly.h documents. *)
Definition header_step (key : list Z) (s : aead) (c : call) : Z * list Z * aead :=
  match c, s with
  | Starts nonce m, _ => (0, [], Associated nonce m [])
  | UpdateAad a, Associated nonce m aad => (0, [], Associated nonce m (aad ++ a))
  | UpdateAad _, _ => (MBEDTLS_ERR_CHACHAPOLY_BAD_STATE, [], s)
  | Update input output, Associated nonce m aad => crypt_more key nonce m aad [] input output s
  | Update input output, Ciphering nonce m aad ct => crypt_more key nonce m aad ct input output s
  | Update _ output, _ => (MBEDTLS_ERR_CHACHAPOLY_BAD_STATE, output, s)
  | Finish mac, Idle => (MBEDTLS_ERR_CHACHAPOLY_BAD_STATE, mac, s)
  | Finish mac, Associated nonce _ aad => tag_of key nonce (aad ++ pad16 aad) (zlen aad) 0 mac
  | Finish mac, Ciphering nonce _ aad ct =>
      tag_of key nonce (aad ++ pad16 aad ++ ct ++ pad16 ct) (zlen aad) (zlen ct) mac
  | Finish mac, Tagged _ _ _ _ => (MBEDTLS_ERR_CHACHAPOLY_BAD_STATE, mac, s)
  end.

(** The machine the code implements: finishing a second time is not refused. *)
Definition spec_step (key : list Z) (s : aead) (c : call) : Z * list Z * aead :=
  match c, s with
  | Finish mac, Tagged nonce fed n k => tag_of key nonce fed n k mac
  | _, _ => header_step key s c
  end.

(** The buffers of a call are as large as its contract asks for. *)
Definition call_ok (c : call) : Prop :=
  match c with
  | Starts nonce _ => is_bytes nonce /\ zlen nonce = 12
  | UpdateAad aad => is_bytes aad /\ zlen aad < 2 ^ 64
  | Update input output => is_bytes input /\ is_bytes output /\ zlen input <= zlen output /\ zlen input < 2 ^ 64
  | Finish mac => 16 <= zlen mac
  end.

(** ** The representation *)

Section represents.
Context (key : list Z).

(** The parts all states after the first share: the MAC has been fed [fed], [pos] bytes of
    keystream are used, the lengths are [n] and [k]. *)
Record running (nonce fed : list Z) (pos n k : Z) (ctx : mbedtls_chachapoly_context) : Prop := Running {
  run_mac : absorbed (rfc_otk key nonce) fed (poly1305_ctx ctx);
  run_pos : at_position (rfc_state key nonce 0) (64 + pos) (chacha20_ctx ctx);
  run_aad : aad_len ctx = u64 n;
  run_ct : ciphertext_len ctx = u64 k
}.

Definition represents (s : aead) (ctx : mbedtls_chachapoly_context) : Prop :=
  match s with
  | Idle => state ctx = CHACHAPOLY_STATE_INIT /\ keyed key (chacha20_ctx ctx)
  | Associated nonce m aad =>
      state ctx = CHACHAPOLY_STATE_AAD /\ mode ctx = m /\ running nonce aad 0 (zlen aad) 0 ctx
  | Ciphering nonce m aad ct =>
      state ctx = CHACHAPOLY_STATE_CIPHERTEXT /\ mode ctx = m /\
      running nonce (aad ++ pad16 aad ++ ct) (zlen ct) (zlen aad) (zlen ct) ctx
  | Tagged nonce fed n k =>
      state ctx = CHACHAPOLY_STATE_FINISHED /\ zlen fed mod 16 = 0 /\ exists pos, running nonce fed pos n k ctx
  end.
End represents.

(** ** Bytes of the keystream and of the key *)

Lemma is_bytes_block st : is_bytes (block_bytes st).
Proof.
  unfold block_bytes, is_bytes. generalize (zip_with (fun w i => u32 (w + i)) (Nat.iter 10 chacha20_inner_block st) st).
  intros l. induction l as [|x l IH]; cbn [map concat]; [constructor|]. apply Forall_app_2; [apply is_bytes_le_bytes|done].
Qed.

Lemma byte_of b n : is_bytes b -> (n < length b)%nat -> is_byte (b !!! n).
Proof.
  unfold is_bytes. rewrite Forall_lookup. intros Hb Hn. by apply (Hb n), list_lookup_lookup_total_lt.
Qed.

#[local] Opaque chacha20_inner_block block_bytes.

Lemma keystream_byte_ok st0 i : length st0 = 16%nat -> is_byte (keystream_byte st0 i).
Proof.
  intros Hl. unfold keystream_byte. apply byte_of; [apply is_bytes_block|].
  assert (zlen (block_bytes (state_at st0 (i / 64))) = 64) as L.
  { apply block_bytes_length. unfold state_at. by rewrite length_insert. }
  revert L. generalize (block_bytes (state_at st0 (i / 64))). intros b L.
  pose proof (Z.mod_pos_bound i 64). unfold zlen in L. lia.
Qed.

Lemma lxor_byte x y : is_byte x -> is_byte y -> is_byte (Z.lxor x y).
Proof.
  rewrite !is_byte_land. intros Hx Hy. apply Z.bits_inj'. intros j Hj.
  apply (f_equal (fun z => Z.testbit z j)) in Hx, Hy. revert Hx Hy. rewrite !Z.land_spec, Z.lxor_spec.
  by destruct (Z.testbit 255 j), (Z.testbit x j), (Z.testbit y j).
Qed.

Lemma is_bytes_combined st0 pos x : length st0 = 16%nat -> is_bytes x -> is_bytes (combined st0 pos x).
Proof.
  intros Hl Hx. unfold combined, keystream. generalize (seqZ pos (zlen x)). intros l.
  revert l. induction Hx as [|b x Hb Hx IH]; intros [|i l]; cbn [map zip_with]; try constructor; [|by apply IH].
  apply lxor_byte; [done|]. by apply keystream_byte_ok.
Qed.

Lemma zlen_rfc_combined key nonce counter pos x : zlen (combined (rfc_state key nonce counter) pos x) = zlen x.
Proof. apply zlen_combined. all: apply rfc_state_length. Qed.

(** The data keystream starts at block one. *)
Lemma combined_shift key nonce pos x :
  0 <= pos -> combined (rfc_state key nonce 0) (64 + pos) x = combined (rfc_state key nonce 1) pos x.
Proof.
  intros Hp. unfold combined. generalize (zlen x). intros n.
  assert (keystream (rfc_state key nonce 0) (64 + pos) n = keystream (rfc_state key nonce 1) pos n) as ->; [|reflexivity].
  unfold keystream. rewrite <- fmap_add_seqZ. change (Z.add 64 <$> ?l) with (map (Z.add 64) l). rewrite map_map. apply map_ext. intros i.
  unfold keystream_byte. replace ((64 + i) / 64) with (1 + i / 64) by (Z.div_mod_to_equations; lia).
  replace ((64 + i) mod 64) with (i mod 64) by (Z.div_mod_to_equations; lia).
  assert (state_at (rfc_state key nonce 0) (1 + i / 64) = state_at (rfc_state key nonce 1) (i / 64)) as ->; [|reflexivity].
  unfold state_at. rewrite !counter0_rfc, Z.add_0_l. reflexivity.
Qed.

(** ** The one-time key *)

Lemma combined_zeros st0 pos n : combined st0 pos (replicate n 0) = keystream st0 pos (Z.of_nat n).
Proof.
  unfold combined. rewrite zlen_replicate. assert (length (keystream st0 pos (Z.of_nat n)) = n) as L.
  { unfold keystream. rewrite length_map, length_seqZ. lia. }
  revert L. generalize (keystream st0 pos (Z.of_nat n)). intros l. revert n.
  induction l as [|x l IH]; intros [|n] L; cbn [length replicate zip_with] in *; try discriminate; [done|].
  by rewrite IH by lia.
Qed.

Lemma first_block key nonce :
  keystream (rfc_state key nonce 0) 0 64 = block_bytes (rfc_state key nonce 0).
Proof.
  pose proof (keystream_block (rfc_state key nonce 0) ltac:(reflexivity) ltac:(rewrite counter0_rfc; lia) 0 0 64) as E.
  change (64 * 0 + 0) with 0 in E. rewrite E by lia. clear E.
  assert (state_at (rfc_state key nonce 0) 0 = rfc_state key nonce 0) as ->.
  { unfold state_at. rewrite counter0_rfc. reflexivity. }
  rewrite zdrop_0, ztake_all; [reflexivity|]. rewrite block_bytes_length by apply rfc_state_length. lia.
Qed.

Lemma absorbed_key k m ctx : 32 <= zlen k -> absorbed k m ctx -> absorbed (ztake 32 k) m ctx.
Proof.
  intros L [A1 A2 A3 A4 A5 A6 A7 A8 A9 A10].
  assert (ztake 16 (ztake 32 k) = ztake 16 k) as E1 by (apply ztake_ztake; lia).
  assert (ztake 16 (zdrop 16 (ztake 32 k)) = ztake 16 (zdrop 16 k)) as E2.
  { unfold ztake, zdrop. rewrite skipn_firstn_comm, take_take. done. }
  constructor; rewrite ?E1, ?E2; done.
Qed.

(** A context in the middle of a message still holds its key. *)
Lemma keyed_at key nonce counter pos ctx : at_position (rfc_state key nonce counter) pos ctx -> keyed key ctx.
Proof. intros [_ Hs _ _ _]. split; rewrite Hs; unfold state_at; reflexivity. Qed.

Lemma represents_keyed key s ctx : represents key s ctx -> keyed key (chacha20_ctx ctx).
Proof.
  destruct s; cbn [represents].
  - by intros [_ H].
  - intros (_ & _ & [_ H _ _]). by eapply keyed_at.
  - intros (_ & _ & [_ H _ _]). by eapply keyed_at.
  - intros (_ & _ & pos & [_ H _ _]). by eapply keyed_at.
Qed.

(** ** Feeding the MAC *)

Section running_lemmas.
Context (key : list Z).

Lemma feed_spec nonce fed pos n k ctx input len :
  running key nonce fed pos n k ctx -> is_bytes input -> 0 <= len <= zlen input -> len < 2 ^ 64 ->
  exists p, feed ctx input len = Done (0, set_poly1305 ctx p) /\
    running key nonce (fed ++ ztake len input) pos n k (set_poly1305 ctx p).
Proof.
  intros [Hm Hp Ha Hc] Hb Hl Hmax. unfold feed.
  destruct (update_spec _ _ _ input len Hm Hb Hl Hmax) as (p & -> & Hm'). rewrite bind_Done.
  exists p. split; [reflexivity|]. by constructor.
Qed.

Lemma pad_residue n : u32 (u64 n mod 16) = n mod 16.
Proof.
  unfold u32, u64. rewrite (Z.mod_small _ (2 ^ 32)) by (pose proof (Z.mod_pos_bound (n mod 2 ^ 64) 16); lia).
  Z.div_mod_to_equations; lia.
Qed.

Lemma ztake_zeros m n : 0 <= m <= Z.of_nat n -> ztake m (replicate n 0) = replicate (Z.to_nat m) 0.
Proof. intros H. unfold ztake. rewrite take_replicate. f_equal. lia. Qed.

(** Both paddings feed the zeros that are missing to a whole block. *)
Lemma pad_feed nonce fed pos n k ctx x :
  running key nonce fed pos n k ctx ->
  exists p,
    (if u32 (u64 (zlen x) mod 16) =? 0 then mret (0, ctx)
     else feed ctx (replicate 15 0) (16 - u32 (u64 (zlen x) mod 16))) = Done (0, set_poly1305 ctx p) /\
    running key nonce (fed ++ pad16 x) pos n k (set_poly1305 ctx p).
Proof.
  intros Hr. rewrite pad_residue. unfold pad16. pose proof (Z.mod_pos_bound (zlen x) 16 ltac:(lia)).
  destruct (_ =? 0) eqn:E; bool_to_prop.
  - exists (poly1305_ctx ctx). replace (- zlen x mod 16) with 0 by (Z.div_mod_to_equations; lia).
    cbn [Z.to_nat replicate]. rewrite app_nil_r. split; [by destruct ctx|]. by destruct Hr.
  - replace (- zlen x mod 16) with (16 - zlen x mod 16) by (Z.div_mod_to_equations; lia).
    destruct (feed_spec _ _ _ _ _ _ (replicate 15 0) (16 - zlen x mod 16) Hr) as (p & -> & Hr');
      [by apply Forall_replicate|rewrite zlen_replicate; lia|lia|].
    rewrite ztake_zeros in Hr' by lia. eauto.
Qed.

Lemma chacha_capacity nonce : capacity (rfc_state key nonce 0) = 64 * 2 ^ 32.
Proof. unfold capacity. rewrite counter0_rfc. lia. Qed.

(** ** The operations *)

Lemma chachapoly_starts_spec w ctx nonce m :
  0 < w -> keyed key (chacha20_ctx ctx) -> is_bytes nonce -> zlen nonce = 12 ->
  exists ctx', mbedtls_chachapoly_starts w ctx nonce m = Done (0, ctx') /\
    represents key (Associated nonce m []) ctx'.
Proof.
  intros Hw Hk Hb Hl. unfold mbedtls_chachapoly_starts.
  destruct (chacha20_starts_spec _ key nonce 0 Hk Hb ltac:(lia) ltac:(lia)) as (c & -> & Hat).
  rewrite bind_Done. cbv beta iota zeta. cbn [Z.eqb negb set_chacha20 chacha20_ctx poly1305_ctx].
  pose proof (chacha20_update_spec (rfc_state key nonce 0) ltac:(reflexivity) ltac:(rewrite counter0_rfc; lia)
    w 0 c 64 (replicate 64 0) (replicate 64 0) Hw Hat ltac:(rewrite zlen_replicate; lia) ltac:(lia)
    ltac:(rewrite zlen_replicate; lia)) as U.
  rewrite chacha_capacity in U. rewrite (proj2 (Z.leb_le _ _)) in U by lia. destruct U as (c' & -> & Hat').
  rewrite bind_Done. cbv beta iota zeta. cbn [Z.eqb negb set_chacha20 chacha20_ctx poly1305_ctx].
  rewrite (ztake_all 64) by (rewrite zlen_replicate; lia).
  rewrite combined_zeros, (first_block key nonce : keystream _ 0 (Z.of_nat 64) = _).
  assert (zlen (block_bytes (rfc_state key nonce 0)) = 64) as Lb by apply block_bytes_length, rfc_state_length.
  rewrite splice_whole by (rewrite zlen_replicate, Lb; lia).
  destruct (starts_spec (poly1305_ctx ctx) (block_bytes (rfc_state key nonce 0)) (is_bytes_block _) ltac:(lia))
    as (p & -> & Hab).
  rewrite bind_Done. cbv beta iota zeta. cbn [Z.eqb]. eexists. split; [reflexivity|].
  split_and!; [reflexivity|reflexivity|]. constructor; cbn [poly1305_ctx chacha20_ctx aad_len ciphertext_len set_poly1305];
    [|done|done|done]. apply absorbed_key; [lia|done].
Qed.

Lemma update_aad_spec nonce m aad a ctx :
  represents key (Associated nonce m aad) ctx -> is_bytes a -> zlen a < 2 ^ 64 ->
  exists ctx', mbedtls_chachapoly_update_aad ctx a (zlen a) = Done (0, ctx') /\
    represents key (Associated nonce m (aad ++ a)) ctx'.
Proof.
  intros (Hs & Hm & Hr) Hb Hl. unfold mbedtls_chachapoly_update_aad. rewrite Hs. cbn [Z.eqb negb CHACHAPOLY_STATE_AAD].
  change (CHACHAPOLY_STATE_AAD =? CHACHAPOLY_STATE_AAD) with true. cbn [negb].
  assert (running key nonce aad 0 (zlen (aad ++ a)) 0 (set_aad_len ctx (u64 (aad_len ctx + zlen a)))) as Hr'.
  { destruct Hr as [H1 H2 H3 H4]. constructor; [done..| |done]. cbn [aad_len set_aad_len]. rewrite H3, zlen_app.
    unfold u64. by rewrite Z.add_mod_idemp_l. }
  pose proof (zlen_nonneg a).
  destruct (feed_spec _ _ _ _ _ _ a (zlen a) Hr' Hb ltac:(lia) Hl) as (p & -> & Hr'').
  rewrite (ztake_all (zlen a) a) in Hr'' by lia. eexists. split; [reflexivity|]. done.
Qed.
Lemma update_data_spec w nonce m fed pos n k ctx input output :
  0 < w -> mode ctx = m -> running key nonce fed pos n k ctx -> 0 <= pos -> is_bytes input -> is_bytes output ->
  zlen input <= zlen output -> zlen input < 2 ^ 64 -> pos + zlen input <= max_message ->
  let out := combined (rfc_state key nonce 1) pos input in
  exists ctx', update_data w ctx (zlen input) input output = Done (0, ctx', splice output 0 out) /\
    state ctx' = state ctx /\ mode ctx' = m /\
    running key nonce
      (fed ++ match m with MBEDTLS_CHACHAPOLY_ENCRYPT => out | MBEDTLS_CHACHAPOLY_DECRYPT => input end)
      (pos + zlen input) n k ctx'.
Proof.
  intros Hw Hm Hr Hp Hb Bo Lo Li Hmax out. pose proof Hr as [R1 R2 R3 R4]. pose proof (zlen_nonneg input).
  assert (zlen out = zlen input) as Lout by apply zlen_rfc_combined.
  assert (is_bytes out) as Bout by (apply is_bytes_combined; [apply rfc_state_length|done]).
  pose proof (chacha20_update_spec (rfc_state key nonce 0) ltac:(reflexivity) ltac:(rewrite counter0_rfc; lia)
    w (64 + pos) (chacha20_ctx ctx) (zlen input) input output Hw R2 ltac:(lia) Li Lo) as U.
  rewrite chacha_capacity, (ztake_all (zlen input) input), combined_shift in U by lia. fold out in U.
  unfold max_message in Hmax. rewrite (proj2 (Z.leb_le _ _)) in U by lia. destruct U as (c & U & Hat).
  unfold update_data. rewrite Hm. destruct m.
  - rewrite U, bind_Done. cbv beta iota zeta. cbn [Z.eqb negb].
    assert (running key nonce fed (pos + zlen input) n k (set_chacha20 ctx c)) as Hr1.
    { constructor; [done| |done|done]. cbn [chacha20_ctx set_chacha20]. by rewrite Z.add_assoc. }
    assert (is_bytes (splice output 0 out)) as Bs by (unfold splice; auto 9 with zlist).
    destruct (feed_spec _ _ _ _ _ _ (splice output 0 out) (zlen input) Hr1 Bs) as (p & -> & Hr2);
      [rewrite zlen_splice; lia|done|].
    rewrite bind_Done. cbv beta iota. rewrite <- Lout, splice_0_prefix, Lout in Hr2 by lia. eauto 9.
  - destruct (feed_spec _ _ _ _ _ _ input (zlen input) Hr Hb ltac:(lia) Li) as (p & -> & Hr1).
    rewrite bind_Done. cbv beta iota. cbn [Z.eqb negb chacha20_ctx set_poly1305]. rewrite U, bind_Done. cbv beta iota.
    rewrite (ztake_all (zlen input) input) in Hr1 by lia.
    eexists. split; [reflexivity|]. split_and!; [done|done|]. destruct Hr1 as [Q1 Q2 Q3 Q4].
    constructor; [done| |done|done]. cbn [chacha20_ctx set_chacha20]. by rewrite Z.add_assoc.
Qed.

Lemma check_wrap nonce fed pos n k ctx len :
  running key nonce fed pos n k ctx -> 0 <= pos -> 0 <= len < 2 ^ 64 ->
  mbedtls_chacha20_check_counter_wrap (chacha20_ctx ctx) len =
    if pos + len <=? max_message then 0 else MBEDTLS_ERR_CHACHA20_BAD_INPUT_DATA.
Proof.
  intros [_ Hat _ _] Hp Hl.
  rewrite (check_counter_wrap_spec (rfc_state key nonce 0) ltac:(reflexivity) ltac:(rewrite counter0_rfc; lia) (64 + pos))
    by (done || lia).
  rewrite chacha_capacity. unfold max_message.
  destruct (64 + pos + len <=? _) eqn:E1, (pos + len <=? _) eqn:E2; bool_to_prop; done || lia.
Qed.

(** An update once the padding of the associated data is settled. *)
Lemma update_more w nonce m aad ct input output ctx ctx1 :
  0 < w -> call_ok (Update input output) ->
  state ctx = CHACHAPOLY_STATE_AAD \/ state ctx = CHACHAPOLY_STATE_CIPHERTEXT ->
  mbedtls_chacha20_check_counter_wrap (chacha20_ctx ctx) (zlen input) =
    (if zlen ct + zlen input <=? max_message then 0 else MBEDTLS_ERR_CHACHA20_BAD_INPUT_DATA) ->
  (if state ctx =? CHACHAPOLY_STATE_AAD then chachapoly_pad_aad (set_state ctx CHACHAPOLY_STATE_CIPHERTEXT)
   else mret (0, ctx)) = Done (0, ctx1) ->
  represents key (Ciphering nonce m aad ct) ctx1 ->
  forall s, represents key s ctx ->
  let '(ret, out, s') := crypt_more key nonce m aad ct input output s in
  exists ctx', mbedtls_chachapoly_update w ctx (zlen input) input output = Done (ret, ctx', out) /\
    represents key s' ctx' /\ (ret <> 0 -> ctx' = ctx).
Proof.
  intros Hw (Bi & Bo & Lo & Li) Hs Hc Ep Hr1 s Hrep. unfold mbedtls_chachapoly_update, crypt_more.
  assert (negb (state ctx =? CHACHAPOLY_STATE_AAD) && negb (state ctx =? CHACHAPOLY_STATE_CIPHERTEXT) = false) as ->
    by (by destruct Hs as [->| ->]).
  rewrite Hc. destruct (_ <=? max_message) eqn:E; bool_to_prop; [|eauto].
  cbn [Z.eqb negb]. rewrite Ep, bind_Done. cbv beta iota zeta. cbn [Z.eqb negb].
  destruct Hr1 as (S1 & M1 & [R1 R2 R3 R4]). pose proof (zlen_nonneg ct).
  set (ctx2 := set_ciphertext_len _ _).
  assert (running key nonce (aad ++ pad16 aad ++ ct) (zlen ct) (zlen aad) (zlen ct + zlen input) ctx2) as Hr2.
  { constructor; [done..|]. cbn [ctx2 ciphertext_len set_ciphertext_len]. rewrite R4. unfold u64.
    by rewrite Z.add_mod_idemp_l. }
  destruct (update_data_spec w nonce m _ _ _ _ ctx2 input output Hw M1 Hr2) as (ctx' & -> & S' & M' & Hr');
    [done..|]. eexists. split; [reflexivity|]. split; [|done]. split_and!; [by rewrite S'|done|].
  rewrite <- !app_assoc in Hr'. rewrite (zlen_app ct).
  assert (zlen (match m with MBEDTLS_CHACHAPOLY_ENCRYPT => combined (rfc_state key nonce 1) (zlen ct) input
    | MBEDTLS_CHACHAPOLY_DECRYPT => input end) = zlen input) as ->; [|done].
  destruct m; [|done]. apply zlen_rfc_combined.
Qed.

(** Nothing is left in the queue after whole blocks, and the context is not changed. *)
Lemma finish_aligned k m ctx mac :
  absorbed k m ctx -> zlen m mod 16 = 0 -> 16 <= zlen mac ->
  mbedtls_poly1305_finish ctx mac = Done (0, ctx, splice mac 0 (rfc_poly1305 k m)).
Proof.
  intros Ha Hm Hl. destruct (finish_spec k ctx m mac Ha Hl) as [ctx' E]. revert E. unfold mbedtls_poly1305_finish.
  rewrite (ab_len _ _ _ Ha), Hm. cbn [Z.ltb Z.compare]. rewrite bind_Done. intros E. rewrite E.
  apply bind_Done_inv in E as (x & _ & E). by injection E as <- _.
Qed.

Lemma zlen_lengths n k : zlen (lengths n k) = 16.
Proof. unfold lengths. by rewrite zlen_app, !le_bytes_length. Qed.

Lemma is_bytes_lengths n k : is_bytes (lengths n k).
Proof. apply is_bytes_app; apply is_bytes_le_bytes. Qed.

Lemma len_block_spec n k :
  (b ← MBEDTLS_PUT_UINT64_LE (u64 n) (replicate 16 0) 0; MBEDTLS_PUT_UINT64_LE (u64 k) b 8) = Done (lengths n k).
Proof.
  assert (forall x, le_bytes 8 (u64 x) = le_bytes 8 x) as E by (intros x; apply (le_bytes_mod 8)).
  unfold MBEDTLS_PUT_UINT64_LE. rewrite !E.
  rewrite store_splice, bind_Done by (rewrite ?le_bytes_length, ?zlen_replicate; lia).
  rewrite store_splice by (rewrite ?zlen_splice; rewrite ?le_bytes_length, ?zlen_replicate; lia).
  pose proof (splice_splice (replicate 16 0) 0 (le_bytes 8 n) (le_bytes 8 k)) as S.
  rewrite !le_bytes_length, zlen_replicate in S.
  rewrite (S : _ -> _ -> splice _ 8 _ = _) by lia.
  by rewrite splice_whole by (rewrite zlen_app, !le_bytes_length, zlen_replicate; lia).
Qed.

Lemma finish_more nonce fed pos n k mac ctx ctx1 :
  16 <= zlen mac -> state ctx <> CHACHAPOLY_STATE_INIT ->
  (if state ctx =? CHACHAPOLY_STATE_AAD then chachapoly_pad_aad ctx
   else if state ctx =? CHACHAPOLY_STATE_CIPHERTEXT then chachapoly_pad_ciphertext ctx
   else mret (0, ctx)) = Done (0, ctx1) ->
  running key nonce fed pos n k ctx1 -> zlen fed mod 16 = 0 ->
  let '(ret, out, s') := tag_of key nonce fed n k mac in
  exists ctx', mbedtls_chachapoly_finish ctx mac = Done (ret, ctx', out) /\ represents key s' ctx'.
Proof.
  intros Lm Hs Ep Hr Hf. cbn [tag_of]. unfold mbedtls_chachapoly_finish.
  rewrite (proj2 (Z.eqb_neq _ _)) by done. rewrite Ep, bind_Done. cbv beta iota zeta. cbn [Z.eqb negb].
  cbn [aad_len ciphertext_len set_state]. rewrite (run_aad _ _ _ _ _ _ _ Hr), (run_ct _ _ _ _ _ _ _ Hr).
  rewrite outcome_bind_assoc, len_block_spec, bind_Done.
  assert (running key nonce fed pos n k (set_state ctx1 CHACHAPOLY_STATE_FINISHED)) as Hr' by (by destruct Hr).
  destruct (feed_spec _ _ _ _ _ _ (lengths n k) 16 Hr' (is_bytes_lengths n k)) as (p & -> & Hr2);
    [rewrite zlen_lengths; lia|lia|]. rewrite bind_Done. cbv beta iota. cbn [Z.eqb negb].
  rewrite (ztake_all 16) in Hr2 by (rewrite zlen_lengths; lia).
  assert (zlen (fed ++ lengths n k) mod 16 = 0) as Hf2 by (rewrite zlen_app, zlen_lengths; Z.div_mod_to_equations; lia).
  rewrite (finish_aligned _ _ _ mac (run_mac _ _ _ _ _ _ _ Hr2) Hf2 Lm), bind_Done. cbv beta iota.
  eexists. split; [reflexivity|]. split_and!; [done|done|]. exists pos. by destruct Hr2.
Qed.

Lemma zlen_padded x : zlen (x ++ pad16 x) mod 16 = 0.
Proof.
  rewrite zlen_app. unfold pad16. rewrite zlen_replicate. pose proof (Z.mod_pos_bound (- zlen x) 16).
  Z.div_mod_to_equations; lia.
Qed.

(** ** Each call in each state *)

Lemma pad_aad_spec nonce fed pos (aad : list Z) k ctx :
  running key nonce fed pos (zlen aad) k ctx ->
  exists p, chachapoly_pad_aad ctx = Done (0, set_poly1305 ctx p) /\
    running key nonce (fed ++ pad16 aad) pos (zlen aad) k (set_poly1305 ctx p).
Proof.
  intros Hr. unfold chachapoly_pad_aad. rewrite (run_aad _ _ _ _ _ _ _ Hr). by apply pad_feed.
Qed.

Lemma pad_ciphertext_spec nonce fed pos n (ct : list Z) ctx :
  running key nonce fed pos n (zlen ct) ctx ->
  exists p, chachapoly_pad_ciphertext ctx = Done (0, set_poly1305 ctx p) /\
    running key nonce (fed ++ pad16 ct) pos n (zlen ct) (set_poly1305 ctx p).
Proof.
  intros Hr. unfold chachapoly_pad_ciphertext. rewrite (run_ct _ _ _ _ _ _ _ Hr). by apply pad_feed.
Qed.

(** What a call may do: answer with [ret] and [out] and go to [s'], or refuse and change
    nothing. *)
Notation answers m ctx ret out s' :=
  (exists ctx', ('(ret0, ctx0, out0) ← m; mret (ret0, out0, ctx0)) = Done (ret, out, ctx') /\
     represents key s' ctx' /\ (ret <> 0 -> ctx' = ctx)).

Lemma update_first w nonce m aad input output ctx :
  0 < w -> represents key (Associated nonce m aad) ctx -> call_ok (Update input output) ->
  let '(ret, out, s') := crypt_more key nonce m aad [] input output (Associated nonce m aad) in
  answers (mbedtls_chachapoly_update w ctx (zlen input) input output) ctx ret out s'.
Proof.
  intros Hw Hrep Hok. pose proof Hrep as (Hs & Hm & Hr). pose proof Hok as (_ & _ & _ & Li).
  pose proof (zlen_nonneg input).
  assert (running key nonce aad 0 (zlen aad) 0 (set_state ctx CHACHAPOLY_STATE_CIPHERTEXT)) as Hr1 by (by destruct Hr).
  destruct (pad_aad_spec _ _ _ _ _ _ Hr1) as (p & Ep & Hr2).
  pose proof (update_more w nonce m aad [] input output ctx
    (set_poly1305 (set_state ctx CHACHAPOLY_STATE_CIPHERTEXT) p) Hw Hok (or_introl Hs)
    (check_wrap _ _ _ _ _ _ (zlen input) Hr ltac:(lia) ltac:(lia))) as U.
  rewrite Hs in U. specialize (U Ep). destruct (crypt_more _ _ _ _ _ _ _ _) as [[ret out] s'] eqn:E.
  assert (represents key (Ciphering nonce m aad []) (set_poly1305 (set_state ctx CHACHAPOLY_STATE_CIPHERTEXT) p)) as Hr3.
  { split_and!; [done|done|]. rewrite app_nil_r. done. }
  specialize (U Hr3 _ Hrep). rewrite E in U. destruct U as (ctx' & -> & H1 & H2). by exists ctx'.
Qed.

Lemma update_next w nonce m aad ct input output ctx :
  0 < w -> represents key (Ciphering nonce m aad ct) ctx -> call_ok (Update input output) ->
  let '(ret, out, s') := crypt_more key nonce m aad ct input output (Ciphering nonce m aad ct) in
  answers (mbedtls_chachapoly_update w ctx (zlen input) input output) ctx ret out s'.
Proof.
  intros Hw Hrep Hok. pose proof Hrep as (Hs & Hm & Hr). pose proof Hok as (_ & _ & _ & Li).
  pose proof (zlen_nonneg input). pose proof (zlen_nonneg ct).
  pose proof (update_more w nonce m aad ct input output ctx ctx Hw Hok (or_intror Hs)
    (check_wrap _ _ _ _ _ _ (zlen input) Hr ltac:(lia) ltac:(lia))) as U.
  rewrite Hs in U. specialize (U eq_refl Hrep _ Hrep).
  destruct (crypt_more _ _ _ _ _ _ _ _) as [[ret out] s'] eqn:E. destruct U as (ctx' & -> & H1 & H2). by exists ctx'.
Qed.

Lemma finish_answer ctx mac ret out s' :
  ret = 0 ->
  (exists ctx', mbedtls_chachapoly_finish ctx mac = Done (ret, ctx', out) /\ represents key s' ctx') ->
  answers (mbedtls_chachapoly_finish ctx mac) ctx ret out s'.
Proof. intros -> (ctx' & -> & H). by exists ctx'. Qed.

Lemma finish_first nonce m aad mac ctx :
  represents key (Associated nonce m aad) ctx -> 16 <= zlen mac ->
  let '(ret, out, s') := tag_of key nonce (aad ++ pad16 aad) (zlen aad) 0 mac in
  answers (mbedtls_chachapoly_finish ctx mac) ctx ret out s'.
Proof.
  intros (Hs & Hm & Hr) Lm. destruct (pad_aad_spec _ _ _ _ _ _ Hr) as (p & Ep & Hr1).
  apply finish_answer; [done|]. refine (finish_more _ _ _ _ _ _ ctx _ Lm _ _ Hr1 _);
    [by rewrite Hs|by rewrite Hs|apply zlen_padded].
Qed.

Lemma finish_next nonce m aad ct mac ctx :
  represents key (Ciphering nonce m aad ct) ctx -> 16 <= zlen mac ->
  let '(ret, out, s') := tag_of key nonce (aad ++ pad16 aad ++ ct ++ pad16 ct) (zlen aad) (zlen ct) mac in
  answers (mbedtls_chachapoly_finish ctx mac) ctx ret out s'.
Proof.
  intros (Hs & Hm & Hr) Lm. destruct (pad_ciphertext_spec _ _ _ _ _ _ Hr) as (p & Ep & Hr1).
  rewrite <- !app_assoc in Hr1.
  apply finish_answer; [done|]. refine (finish_more _ _ _ _ _ _ ctx _ Lm _ _ Hr1 _); [by rewrite Hs|by rewrite Hs|].
  pose proof (zlen_padded aad) as P1. pose proof (zlen_padded ct) as P2. rewrite zlen_app in P1, P2.
  rewrite !zlen_app. Z.div_mod_to_equations; lia.
Qed.

Lemma finish_again nonce fed n k mac ctx :
  represents key (Tagged nonce fed n k) ctx -> 16 <= zlen mac ->
  let '(ret, out, s') := tag_of key nonce fed n k mac in
  answers (mbedtls_chachapoly_finish ctx mac) ctx ret out s'.
Proof.
  intros (Hs & Hf & pos & Hr) Lm. apply finish_answer; [done|].
  refine (finish_more _ _ _ _ _ _ ctx _ Lm _ _ Hr _); [by rewrite Hs|by rewrite Hs|done].
Qed.
End running_lemmas.

(** The code runs the machine. *)
Lemma step_refines w key s ctx c :
  0 < w -> represents key s ctx -> call_ok c ->
  let '(ret, out, s') := spec_step key s c in
  exists ctx', step w ctx c = Done (ret, out, ctx') /\ represents key s' ctx' /\
    (ret <> 0 -> ctx' = ctx).
Proof.
  intros Hw Hrep Hok. destruct c as [nonce m|a|input output|mac].
  - destruct Hok as [Hb Hl]. cbn [spec_step header_step step].
    destruct (chachapoly_starts_spec key w ctx nonce m Hw (represents_keyed _ _ _ Hrep) Hb Hl) as (ctx' & -> & H).
    by exists ctx'.
  - cbn [step]. destruct Hok as [Hb Hl]. destruct s as [|nonce m aad|nonce m aad ct|nonce fed n k]; cbn [spec_step header_step].
    2: { destruct (update_aad_spec key nonce m aad a ctx Hrep Hb Hl) as (ctx' & -> & H). by exists ctx'. }
    all: exists ctx; split; [|done]; unfold mbedtls_chachapoly_update_aad; by rewrite (proj1 Hrep).
  - cbn [step]. destruct s as [|nonce m aad|nonce m aad ct|nonce fed n k]; cbn [spec_step header_step].
    2: by apply update_first. 2: by apply update_next.
    all: exists ctx; split; [|done]; unfold mbedtls_chachapoly_update; by rewrite (proj1 Hrep).
  - cbn [step]. destruct s as [|nonce m aad|nonce m aad ct|nonce fed n k]; cbn [spec_step header_step].
    { exists ctx. split; [|done]. unfold mbedtls_chachapoly_finish. by rewrite (proj1 Hrep). }
    all: cbn [tag_of].
    + by eapply finish_first.
    + by eapply finish_next.
    + by eapply finish_again.
Qed.

(** C11.  The code implements an abstract machine: for every call in every state, errors
    included, it returns what the machine returns, leaves the buffer the machine leaves and
    ends in a context that represents the machine's next state; a call that is refused
    changes nothing.  The machine is the one chachapoly.h documents but for one case, where
    the code does not do what the header says: [finish] on an operation that has finished
    already reports success (chachapoly.c:221 refuses the initial state only) and writes a
    tag over the message with its lengths appended once more, while the header documents
    that it reports a bad state. *)
Theorem chachapoly_refines w key s ctx c :
  0 < w -> represents key s ctx -> call_ok c ->
  let '(ret, out, s') := spec_step key s c in
  (exists ctx', step w ctx c = Done (ret, out, ctx') /\ represents key s' ctx' /\
    (ret <> 0 -> ctx' = ctx)) /\
  match c, s with
  | Finish mac, Tagged nonce fed n k =>
      ret = 0 /\ out = splice mac 0 (rfc_poly1305 (rfc_otk key nonce) (fed ++ lengths n k)) /\
      header_step key s c = (MBEDTLS_ERR_CHACHAPOLY_BAD_STATE, mac, s)
  | _, _ => header_step key s c = (ret, out, s')
  end.
Proof.
  intros Hw Hrep Hok. pose proof (step_refines w key s ctx c Hw Hrep Hok) as H.
  destruct (spec_step key s c) as [[ret out] s'] eqn:E. split; [exact H|].
  destruct c, s; try exact E. cbn in E. by injection E as <- <- <-.
Qed.

Lemma chachapoly_setkey_spec ctx key :
  is_bytes key -> 32 <= zlen key ->
  exists ctx', mbedtls_chachapoly_setkey (mbedtls_chachapoly_init ctx) key = Done (0, ctx') /\
    represents key Idle ctx'.
Proof.
  intros Hb Hl. unfold mbedtls_chachapoly_setkey.
  destruct (setkey_spec (chacha20_ctx (mbedtls_chachapoly_init ctx)) key Hb Hl eq_refl) as (c & -> & Hk).
  rewrite bind_Done. eexists. split; [reflexivity|]. by split.
Qed.

(** ** Whole messages *)

Section messages.
Context (w : Z) (key nonce aad : list Z).
Hypothesis Hw : 0 < w.
Hypothesis Hnonce : is_bytes nonce /\ zlen nonce = 12.
Hypothesis Haad : is_bytes aad /\ zlen aad < 2 ^ 64.

Lemma crypt_and_tag_spec ctx m input output tag :
  keyed key (chacha20_ctx ctx) -> call_ok (Update input output) -> 16 <= zlen tag ->
  let out := rfc_crypt key nonce input in
  let ct := match m with MBEDTLS_CHACHAPOLY_ENCRYPT => out | MBEDTLS_CHACHAPOLY_DECRYPT => input end in
  exists ctx', keyed key (chacha20_ctx ctx') /\
    chachapoly_crypt_and_tag w ctx m (zlen input) nonce aad (zlen aad) input output tag =
    Done (if zlen input <=? max_message
          then (0, ctx', splice output 0 out, splice tag 0 (rfc_tag key nonce aad ct))
          else (MBEDTLS_ERR_CHACHA20_BAD_INPUT_DATA, ctx', output, tag)).
Proof.
  intros Hk Hok Ht out ct. unfold chachapoly_crypt_and_tag. destruct Hnonce as [Bn Ln], Haad as [Ba La].
  destruct (chachapoly_starts_spec key w ctx nonce m Hw Hk Bn Ln) as (ctx1 & -> & H1).
  rewrite bind_Done. cbv beta iota. cbn [Z.eqb negb].
  destruct (update_aad_spec key nonce m [] aad ctx1 H1 Ba La) as (ctx2 & -> & H2).
  rewrite bind_Done. cbv beta iota. cbn [Z.eqb negb app] in *.
  pose proof (update_first key w nonce m aad input output ctx2 Hw H2 Hok) as U. unfold crypt_more in U.
  change (zlen (@nil Z)) with 0 in U. rewrite Z.add_0_l in U. destruct (zlen input <=? max_message).
  - cbn [app] in U. fold (rfc_crypt key nonce input) in U. fold out ct in U.
    destruct U as (ctx3 & U & H3 & _). apply bind_Done_inv in U as ([[r3 c3] o3] & -> & U). injection U as -> -> ->.
    rewrite bind_Done. cbv beta iota. cbn [Z.eqb negb].
    destruct (finish_next key nonce m aad ct tag ctx3 H3 Ht) as (ctx4 & F & H4 & _).
    apply bind_Done_inv in F as ([[r4 c4] o4] & -> & F). injection F as -> -> ->.
    rewrite bind_Done. exists ctx4. split; [by eapply represents_keyed|].
    unfold rfc_tag, mac_data. by rewrite <- !app_assoc.
  - destruct U as (ctx3 & U & H3 & _). apply bind_Done_inv in U as ([[r3 c3] o3] & -> & U). injection U as -> -> ->.
    rewrite bind_Done. exists ctx3. split; [by eapply represents_keyed|done].
Qed.
End messages.

(** Encryption with the key of the context computes the AEAD of RFC 8439: the ciphertext
    into the first bytes of the output, the tag over the associated data and the ciphertext
    into the tag, nothing else; a message too long for the block counter is refused and
    nothing is written. *)
Theorem chachapoly_encrypt_correct w key ctx nonce aad input output tag :
  0 < w -> keyed key (chacha20_ctx ctx) -> is_bytes nonce /\ zlen nonce = 12 ->
  is_bytes aad /\ zlen aad < 2 ^ 64 -> call_ok (Update input output) -> 16 <= zlen tag ->
  let ct := rfc_crypt key nonce input in
  exists ctx',
    mbedtls_chachapoly_encrypt_and_tag w ctx (zlen input) nonce aad (zlen aad) input output tag =
    Done (if zlen input <=? max_message
          then (0, ctx', splice output 0 ct, splice tag 0 (rfc_tag key nonce aad ct))
          else (MBEDTLS_ERR_CHACHA20_BAD_INPUT_DATA, ctx', output, tag)).
Proof.
  intros Hw Hk Hn Ha Hok Ht ct.
  destruct (crypt_and_tag_spec w key nonce aad Hw Hn Ha ctx MBEDTLS_CHACHAPOLY_ENCRYPT input output tag Hk Hok Ht)
    as (ctx' & _ & E). by exists ctx'.
Qed.

Lemma zlen_rfc_poly1305 k m : zlen (rfc_poly1305 k m) = 16.
Proof. apply le_bytes_length. Qed.

Lemma decrypt_spec w be key ctx nonce aad tag ct output :
  0 < w -> keyed key (chacha20_ctx ctx) -> is_bytes nonce /\ zlen nonce = 12 ->
  is_bytes aad /\ zlen aad < 2 ^ 64 -> call_ok (Update ct output) -> is_bytes tag -> zlen tag = 16 ->
  zlen ct <= max_message ->
  exists ctx',
    mbedtls_chachapoly_auth_decrypt w be ctx (zlen ct) nonce aad (zlen aad) tag ct output =
    Done (if decide (tag = rfc_tag key nonce aad ct)
          then (0, ctx', splice output 0 (rfc_crypt key nonce ct))
          else (MBEDTLS_ERR_CHACHAPOLY_AUTH_FAILED, ctx', splice output 0 (replicate (length ct) 0))).
Proof.
  intros Hw Hk Hn Ha Hok Bt Lt Hmax. unfold mbedtls_chachapoly_auth_decrypt.
  destruct (crypt_and_tag_spec w key nonce aad Hw Hn Ha ctx MBEDTLS_CHACHAPOLY_DECRYPT ct output (replicate 16 0)
    Hk Hok ltac:(rewrite zlen_replicate; lia)) as (ctx' & _ & ->).
  exists ctx'. rewrite bind_Done, (proj2 (Z.leb_le _ _)) by done. cbv beta iota. cbn [Z.eqb negb].
  assert (zlen (rfc_tag key nonce aad ct) = 16) as Lr by apply zlen_rfc_poly1305.
  assert (is_bytes (rfc_tag key nonce aad ct)) as Br by apply is_bytes_le_bytes.
  rewrite (splice_whole (replicate 16 0)) by (rewrite zlen_replicate; lia).
  destruct (ct_memcmp_spec be tag (rfc_tag key nonce aad ct) 16 Bt Br) as (d & -> & _ & Hd); [lia..|].
  rewrite bind_Done, !ztake_all in * by lia. destruct (d =? 0) eqn:E; bool_to_prop; cbn [negb].
  - rewrite decide_True by (by apply Hd). done.
  - rewrite decide_False by (intros Et; by apply Hd in Et). destruct Hok as (_ & _ & Lo & _).
    assert (zlen (rfc_crypt key nonce ct) = zlen ct) as Lc by apply zlen_rfc_combined.
    assert (Z.to_nat (zlen ct) = length ct) as -> by (unfold zlen; lia).
    pose proof (zlen_nonneg ct).
    rewrite store_splice by (rewrite ?zlen_splice; rewrite ?zlen_replicate; unfold zlen in *; lia).
    rewrite bind_Done. do 2 f_equal. unfold splice. rewrite !ztake_0, !zlen_replicate, Lc. cbn [app]. f_equal.
    unfold zlen in *. rewrite zdrop_app_r by (unfold zlen; lia). rewrite zdrop_zdrop by (unfold zlen; lia).
    f_equal. unfold zlen; lia.
Qed.

Lemma lxor_keystream x k : length x = length k -> zip_with Z.lxor (zip_with Z.lxor x k) k = x.
Proof.
  revert k. induction x as [|a x IH]; intros [|b k] L; cbn [length zip_with] in *; try discriminate; [done|].
  rewrite Z.lxor_assoc, Z.lxor_nilpotent, Z.lxor_0_r, IH by lia. done.
Qed.

Lemma rfc_crypt_involutive key nonce x : rfc_crypt key nonce (rfc_crypt key nonce x) = x.
Proof.
  assert (forall st n, zlen x = n -> zip_with Z.lxor (combined st 0 x) (keystream st 0 n) = x) as H.
  { intros st n <-. apply lxor_keystream. unfold keystream. rewrite length_map, length_seqZ. unfold zlen. lia. }
  exact (H (rfc_state key nonce 1) _ (eq_sym (zlen_rfc_combined key nonce 1 0 x))).
Qed.

(** C12.  Decryption releases a plaintext only for the tag that belongs to the associated data
    and the ciphertext: for any other tag it reports [AUTH_FAILED] and every byte it had
    written is zero again. *)
Theorem chachapoly_decrypt_correct w be key ctx nonce aad tag ct output :
  0 < w -> keyed key (chacha20_ctx ctx) -> is_bytes nonce /\ zlen nonce = 12 ->
  is_bytes aad /\ zlen aad < 2 ^ 64 -> call_ok (Update ct output) -> is_bytes tag -> zlen tag = 16 ->
  zlen ct <= max_message ->
  exists ctx',
    mbedtls_chachapoly_auth_decrypt w be ctx (zlen ct) nonce aad (zlen aad) tag ct output =
    Done (if decide (tag = rfc_tag key nonce aad ct)
          then (0, ctx', splice output 0 (rfc_crypt key nonce ct))
          else (MBEDTLS_ERR_CHACHAPOLY_AUTH_FAILED, ctx', splice output 0 (replicate (length ct) 0))).
Proof. apply decrypt_spec. Qed.

(** What [encrypt_and_tag] produces, [auth_decrypt] with the same key, nonce and
    associated data turns back into the plaintext. *)
Theorem chachapoly_roundtrip w be key ctx nonce aad input :
  0 < w -> keyed key (chacha20_ctx ctx) -> is_bytes nonce /\ zlen nonce = 12 ->
  is_bytes aad /\ zlen aad < 2 ^ 64 -> is_bytes input -> zlen input <= max_message ->
  let zeros := replicate (length input) 0 in
  exists ctx1 ct tag ctx2,
    mbedtls_chachapoly_encrypt_and_tag w ctx (zlen input) nonce aad (zlen aad) input zeros (replicate 16 0) =
      Done (0, ctx1, ct, tag) /\ zlen ct = zlen input /\ zlen tag = 16 /\
    mbedtls_chachapoly_auth_decrypt w be ctx1 (zlen ct) nonce aad (zlen aad) tag ct zeros = Done (0, ctx2, input).
Proof.
  intros Hw Hk Hn Ha Hb Hl zeros. pose proof (zlen_nonneg input).
  assert (zlen zeros = zlen input) as Lz by (unfold zeros; by rewrite zlen_replicate).
  assert (is_bytes zeros) as Bz by (by apply Forall_replicate).
  assert (zlen input < 2 ^ 64) as Lm by (unfold max_message in Hl; lia).
  destruct (crypt_and_tag_spec w key nonce aad Hw Hn Ha ctx MBEDTLS_CHACHAPOLY_ENCRYPT input zeros (replicate 16 0) Hk)
    as (ctx1 & Hk1 & E1); [split_and!; done || lia|rewrite zlen_replicate; lia|].
  rewrite (proj2 (Z.leb_le _ _)) in E1 by done. set (ct := rfc_crypt key nonce input) in *.
  assert (zlen ct = zlen input) as Lc by apply zlen_rfc_combined.
  assert (is_bytes ct) as Bc by (apply is_bytes_combined; [apply rfc_state_length|done]).
  rewrite !splice_whole in E1 by (unfold rfc_tag; rewrite ?zlen_rfc_poly1305, ?zlen_replicate; lia).
  destruct (decrypt_spec w be key ctx1 nonce aad (rfc_tag key nonce aad ct) ct zeros Hw Hk1 Hn Ha) as (ctx2 & E2);
    [split_and!; done || lia|apply is_bytes_le_bytes|apply zlen_rfc_poly1305|lia|].
  rewrite decide_True in E2 by done. unfold ct at 4 in E2.
  rewrite rfc_crypt_involutive, splice_whole in E2 by lia.
  exists ctx1, ct, (rfc_tag key nonce aad ct), ctx2. split_and!; [exact E1|exact Lc|apply zlen_rfc_poly1305|exact E2].
Qed.

(** A context whose message is finished accepts another finish: it reports success, and
    the tag it writes is over the message with the lengths appended once more. *)
Theorem chachapoly_finish_again key nonce fed n k ctx mac :
  represents key (Tagged nonce fed n k) ctx -> 16 <= zlen mac ->
  exists ctx', mbedtls_chachapoly_finish ctx mac =
    Done (0, ctx', splice mac 0 (rfc_poly1305 (rfc_otk key nonce) (fed ++ lengths n k))).
Proof.
  intros Hr Hm. destruct (finish_again key nonce fed n k mac ctx Hr Hm) as (ctx' & F & _ & _).
  apply bind_Done_inv in F as ([[r c] o] & -> & F). injection F as -> -> ->. by exists ctx'.
Qed.

(** ** The self test *)

Definition test_key : list Z :=
  [0x80; 0x81; 0x82; 0x83; 0x84; 0x85; 0x86; 0x87; 0x88; 0x89; 0x8a; 0x8b; 0x8c; 0x8d; 0x8e; 0x8f;
   0x90; 0x91; 0x92; 0x93; 0x94; 0x95; 0x96; 0x97; 0x98; 0x99; 0x9a; 0x9b; 0x9c; 0x9d; 0x9e; 0x9f].

Definition test_nonce : list Z :=
  [0x07; 0x00; 0x00; 0x00; 0x40; 0x41; 0x42; 0x43; 0x44; 0x45; 0x46; 0x47].

Definition test_aad : list Z :=
  [0x50; 0x51; 0x52; 0x53; 0xc0; 0xc1; 0xc2; 0xc3; 0xc4; 0xc5; 0xc6; 0xc7].

Definition test_input : list Z :=
  [0x4c; 0x61; 0x64; 0x69; 0x65; 0x73; 0x20; 0x61; 0x6e; 0x64; 0x20; 0x47; 0x65; 0x6e; 0x74; 0x6c;
   0x65; 0x6d; 0x65; 0x6e; 0x20; 0x6f; 0x66; 0x20; 0x74; 0x68; 0x65; 0x20; 0x63; 0x6c; 0x61; 0x73;
   0x73; 0x20; 0x6f; 0x66; 0x20; 0x27; 0x39; 0x39; 0x3a; 0x20; 0x49; 0x66; 0x20; 0x49; 0x20; 0x63;
   0x6f; 0x75; 0x6c; 0x64; 0x20; 0x6f; 0x66; 0x66; 0x65; 0x72; 0x20; 0x79; 0x6f; 0x75; 0x20; 0x6f;
   0x6e; 0x6c; 0x79; 0x20; 0x6f; 0x6e; 0x65; 0x20; 0x74; 0x69; 0x70; 0x20; 0x66; 0x6f; 0x72; 0x20;
   0x74; 0x68; 0x65; 0x20; 0x66; 0x75; 0x74; 0x75; 0x72; 0x65; 0x2c; 0x20; 0x73; 0x75; 0x6e; 0x73;
   0x63; 0x72; 0x65; 0x65; 0x6e; 0x20; 0x77; 0x6f; 0x75; 0x6c; 0x64; 0x20; 0x62; 0x65; 0x20; 0x69;
   0x74; 0x2e].

Definition test_output : list Z :=
  [0xd3; 0x1a; 0x8d; 0x34; 0x64; 0x8e; 0x60; 0xdb; 0x7b; 0x86; 0xaf; 0xbc; 0x53; 0xef; 0x7e; 0xc2;
   0xa4; 0xad; 0xed; 0x51; 0x29; 0x6e; 0x08; 0xfe; 0xa9; 0xe2; 0xb5; 0xa7; 0x36; 0xee; 0x62; 0xd6;
   0x3d; 0xbe; 0xa4; 0x5e; 0x8c; 0xa9; 0x67; 0x12; 0x82; 0xfa; 0xfb; 0x69; 0xda; 0x92; 0x72; 0x8b;
   0x1a; 0x71; 0xde; 0x0a; 0x9e; 0x06; 0x0b; 0x29; 0x05; 0xd6; 0xa5; 0xb6; 0x7e; 0xcd; 0x3b; 0x36;
   0x92; 0xdd; 0xbd; 0x7f; 0x2d; 0x77; 0x8b; 0x8c; 0x98; 0x03; 0xae; 0xe3; 0x28; 0x09; 0x1b; 0x58;
   0xfa; 0xb3; 0x24; 0xe4; 0xfa; 0xd6; 0x75; 0x94; 0x55; 0x85; 0x80; 0x8b; 0x48; 0x31; 0xd7; 0xbc;
   0x3f; 0xf4; 0xde; 0xf0; 0x8e; 0x4b; 0x7a; 0x9d; 0xe5; 0x76; 0xd2; 0x65; 0x86; 0xce; 0xc6; 0x4b;
   0x61; 0x16].

Definition test_mac : list Z :=
  [0x1a; 0xe1; 0x0b; 0x59; 0x4f; 0x09; 0xe2; 0x6a; 0x7e; 0x90; 0x2e; 0xcb; 0xd0; 0x60; 0x06; 0x91].

(** The context before any call. *)
Definition fresh : mbedtls_chachapoly_context :=
  ChachaPoly (Chacha [] [] 0) zeroized 0 0 0 MBEDTLS_CHACHAPOLY_ENCRYPT.

(** One round, as the loop has; the buffers hold zeros before it. *)
Definition mbedtls_chachapoly_self_test (w : Z) : outcome Z :=
  let ctx := mbedtls_chachapoly_init fresh in
  '(ret, ctx) ← mbedtls_chachapoly_setkey ctx test_key;
  if negb (ret =? 0) then mret (-1) else
  '(ret, ctx, output, mac) ←
    mbedtls_chachapoly_encrypt_and_tag w ctx 114 test_nonce test_aad 12 test_input (replicate 200 0) (replicate 16 0);
  if negb (ret =? 0) then mret (-1) else
  if negb (bool_decide (ztake 114 output = test_output)) then mret (-1) else
  if negb (bool_decide (mac = test_mac)) then mret (-1) else
  mret 0.

Example chachapoly_self_test_passes : mbedtls_chachapoly_self_test 8 = Done 0.
Proof. vm_compute. reflexivity. Qed.

(** ** Witnesses *)

(** The context of the self test, with its key set. *)
Definition keyed_ctx : mbedtls_chachapoly_context :=
  match mbedtls_chachapoly_setkey (mbedtls_chachapoly_init fresh) test_key with
  | Done (_, ctx) => ctx | _ => fresh end.

Lemma keyed_ctx_keyed : keyed test_key (chacha20_ctx keyed_ctx).
Proof. split; vm_compute; reflexivity. Qed.

Lemma chachapoly_refines_witness :
  exists ctx', step 8 keyed_ctx (Update [1; 2] [0; 0]) = Done (MBEDTLS_ERR_CHACHAPOLY_BAD_STATE, [0; 0], ctx') /\
    ctx' = keyed_ctx.
Proof.
  destruct (chachapoly_refines 8 test_key Idle keyed_ctx (Update [1; 2] [0; 0])) as [(ctx' & E & _ & H) _].
  - lia.
  - split; [reflexivity|apply keyed_ctx_keyed].
  - apply (bool_decide_unpack _). vm_compute. exact I.
  - exists ctx'. split; [exact E|]. apply H. discriminate.
Defined.

Lemma chachapoly_encrypt_correct_witness :
  exists ctx', mbedtls_chachapoly_encrypt_and_tag 8 keyed_ctx 114 test_nonce test_aad 12 test_input
    (replicate 114 0) (replicate 16 0) = Done (0, ctx', test_output, test_mac).
Proof.
  destruct (chachapoly_encrypt_correct 8 test_key keyed_ctx test_nonce test_aad test_input
    (replicate 114 0) (replicate 16 0)) as (ctx' & E).
  - lia.
  - apply keyed_ctx_keyed.
  - apply (bool_decide_unpack _). vm_compute. exact I.
  - apply (bool_decide_unpack _). vm_compute. exact I.
  - apply (bool_decide_unpack _). vm_compute. exact I.
  - vm_compute. discriminate.
  - exists ctx'. change (zlen test_input) with 114 in E. change (zlen test_aad) with 12 in E. rewrite E.
    vm_compute. reflexivity.
Defined.

Lemma chachapoly_decrypt_correct_witness :
  exists ctx', mbedtls_chachapoly_auth_decrypt 8 AArch64 keyed_ctx 3 test_nonce test_aad 12 test_mac [1; 2; 3]
    (replicate 3 7) = Done (MBEDTLS_ERR_CHACHAPOLY_AUTH_FAILED, ctx', [0; 0; 0]).
Proof.
  destruct (chachapoly_decrypt_correct 8 AArch64 test_key keyed_ctx test_nonce test_aad test_mac [1; 2; 3]
    (replicate 3 7)) as (ctx' & E).
  - lia.
  - apply keyed_ctx_keyed.
  - apply (bool_decide_unpack _). vm_compute. exact I.
  - apply (bool_decide_unpack _). vm_compute. exact I.
  - apply (bool_decide_unpack _). vm_compute. exact I.
  - apply (bool_decide_unpack _). vm_compute. exact I.
  - reflexivity.
  - vm_compute. discriminate.
  - exists ctx'. change (zlen [1; 2; 3]) with 3 in E. change (zlen test_aad) with 12 in E. rewrite E.
    vm_compute. reflexivity.
Defined.

Lemma chachapoly_roundtrip_witness :
  exists ctx1 ct tag ctx2,
    mbedtls_chachapoly_encrypt_and_tag 8 keyed_ctx 114 test_nonce test_aad 12 test_input (replicate 114 0)
      (replicate 16 0) = Done (0, ctx1, ct, tag) /\
    mbedtls_chachapoly_auth_decrypt 8 X86_64 ctx1 (zlen ct) test_nonce test_aad 12 tag ct (replicate 114 0) =
      Done (0, ctx2, test_input).
Proof.
  destruct (chachapoly_roundtrip 8 X86_64 test_key keyed_ctx test_nonce test_aad test_input)
    as (ctx1 & ct & tag & ctx2 & E1 & _ & _ & E2).
  - lia.
  - apply keyed_ctx_keyed.
  - apply (bool_decide_unpack _). vm_compute. exact I.
  - apply (bool_decide_unpack _). vm_compute. exact I.
  - apply (bool_decide_unpack _). vm_compute. exact I.
  - vm_compute. discriminate.
  - exists ctx1, ct, tag, ctx2. split; [exact E1|exact E2].
Defined.
