(* ===== verification/Asn1Parse.v ===== *)
(** * ASN.1 parser of mbedTLS

    [src/internal/mbedtls/asn1parse.c]: the functions that take [unsigned char **p] and
    [end] and read a length, a tag or a value, moving [*p].  They are modelled as parsers
    over a buffer: a parser starts at an offset and gives an error code, or the offset
    behind what it read and the value.  An offset on error is not kept, as the header calls
    it undefined.  The file states which byte strings are lengths and elements, and the
    theorems show that each function accepts exactly its elements inside [end], gives their
    contents, and never reads at or behind [end]. *)

From stdpp Require Import sets.
From S2P Require Import Prelude Bytes.

Definition MBEDTLS_ERR_ASN1_OUT_OF_DATA : Z := -0x60.
Definition MBEDTLS_ERR_ASN1_UNEXPECTED_TAG : Z := -0x62.
Definition MBEDTLS_ERR_ASN1_INVALID_LENGTH : Z := -0x64.
Definition MBEDTLS_ERR_ASN1_LENGTH_MISMATCH : Z := -0x66.
Definition MBEDTLS_ERR_ASN1_INVALID_DATA : Z := -0x68.
Definition MBEDTLS_ERR_ASN1_ALLOC_FAILED : Z := -0x6A.

Definition MBEDTLS_ASN1_BOOLEAN : Z := 0x01.
Definition MBEDTLS_ASN1_INTEGER : Z := 0x02.
Definition MBEDTLS_ASN1_BIT_STRING : Z := 0x03.
Definition MBEDTLS_ASN1_NULL : Z := 0x05.
Definition MBEDTLS_ASN1_OID : Z := 0x06.
Definition MBEDTLS_ASN1_ENUMERATED : Z := 0x0A.
Definition MBEDTLS_ASN1_SEQUENCE : Z := 0x10.
Definition MBEDTLS_ASN1_CONSTRUCTED : Z := 0x20.

(** ** Parsers *)

Definition parser (A : Type) : Type := Z -> outcome (Z + Z * A).

#[export] Instance parser_ret : MRet parser := fun A a p => Done (inr (p, a)).
#[export] Instance parser_bind : MBind parser := fun A B f m p =>
  r ← m p;
  match r with
  | inl e => Done (inl e)
  | inr (p, a) => f a p
  end.

Definition fail {A} (e : Z) : parser A := fun _ => Done (inl e).
Definition pos : parser Z := fun p => Done (inr (p, p)).
Definition advance (n : Z) : parser () := fun p => Done (inr (p + n, tt)).

(** The structures; [p] is an offset into the buffer, [None] the null pointer. *)
Record mbedtls_asn1_buf := Asn1Buf { tag : Z; len : Z; p : option Z }.
Record mbedtls_asn1_bitstring := Bitstring { bs_len : Z; unused_bits : Z; bs_p : Z }.

Definition zero_buf : mbedtls_asn1_buf := Asn1Buf 0 0 None.

Section parse.
Context (buf : list Z).

Definition peek : parser Z := fun p => b ← load8 buf p; Done (inr (p, b)).

(** ** Lengths and tags *)

Fixpoint len_bytes (n : nat) (len : Z) : parser Z :=
  match n with
  | O => mret len
  | S n =>
      b ← peek;
      advance 1 ;;
      len_bytes n (Z.lor (u64 (Z.shiftl len 8)) b)
  end.

Definition mbedtls_asn1_get_len (end_ : Z) : parser Z :=
  p ← pos;
  if end_ - p <? 1 then fail MBEDTLS_ERR_ASN1_OUT_OF_DATA else
  b ← peek;
  len ←
    (if Z.land b 0x80 =? 0 then advance 1 ;; mret b else
     let n := Z.land b 0x7F in
     if (n =? 0) || (n >? 4) then fail MBEDTLS_ERR_ASN1_INVALID_LENGTH else
     if end_ - p <=? n then fail MBEDTLS_ERR_ASN1_OUT_OF_DATA else
     advance 1 ;;
     len_bytes (Z.to_nat n) 0);
  p ← pos;
  if len >? u64 (end_ - p) then fail MBEDTLS_ERR_ASN1_OUT_OF_DATA else
  mret len.

Definition mbedtls_asn1_get_tag (end_ tag : Z) : parser Z :=
  p ← pos;
  if end_ - p <? 1 then fail MBEDTLS_ERR_ASN1_OUT_OF_DATA else
  b ← peek;
  if negb (b =? tag) then fail MBEDTLS_ERR_ASN1_UNEXPECTED_TAG else
  advance 1 ;;
  mbedtls_asn1_get_len end_.

(** ** Values *)

Definition mbedtls_asn1_get_bool (end_ : Z) : parser Z :=
  len ← mbedtls_asn1_get_tag end_ MBEDTLS_ASN1_BOOLEAN;
  if negb (len =? 1) then fail MBEDTLS_ERR_ASN1_INVALID_LENGTH else
  b ← peek;
  advance 1 ;;
  mret (if negb (b =? 0) then 1 else 0).

(** Skips leading zeros; the length that is left.  [k] is the length at the start. *)
Fixpoint skip_zeros (k : nat) : parser Z :=
  match k with
  | O => mret 0
  | S k' =>
      b ← peek;
      if b =? 0 then advance 1 ;; skip_zeros k' else mret (Z.of_nat k)
  end.

(** A left shift of an [int] that leaves its range is undefined. *)
Definition int_shl8 (v : Z) : parser Z := fun p =>
  if Z.shiftl v 8 <? 2 ^ 31 then Done (inr (p, Z.shiftl v 8)) else Fault.

Fixpoint int_bytes (k : nat) (val : Z) : parser Z :=
  match k with
  | O => mret val
  | S k =>
      b ← peek;
      v ← int_shl8 val;
      advance 1 ;;
      int_bytes k (Z.lor v b)
  end.

Definition asn1_get_tagged_int (end_ tag : Z) : parser Z :=
  len ← mbedtls_asn1_get_tag end_ tag;
  if len =? 0 then fail MBEDTLS_ERR_ASN1_INVALID_LENGTH else
  b ← peek;
  if negb (Z.land b 0x80 =? 0) then fail MBEDTLS_ERR_ASN1_INVALID_LENGTH else
  len ← skip_zeros (Z.to_nat len);
  if len >? 4 then fail MBEDTLS_ERR_ASN1_INVALID_LENGTH else
  high ← (if len =? 4 then b ← peek; mret (negb (Z.land b 0x80 =? 0)) else mret false);
  if high : bool then fail MBEDTLS_ERR_ASN1_INVALID_LENGTH else
  int_bytes (Z.to_nat len) 0.

Definition mbedtls_asn1_get_int (end_ : Z) : parser Z := asn1_get_tagged_int end_ MBEDTLS_ASN1_INTEGER.
Definition mbedtls_asn1_get_enum (end_ : Z) : parser Z := asn1_get_tagged_int end_ MBEDTLS_ASN1_ENUMERATED.

Definition mbedtls_asn1_get_bitstring (end_ : Z) : parser mbedtls_asn1_bitstring :=
  len ← mbedtls_asn1_get_tag end_ MBEDTLS_ASN1_BIT_STRING;
  if len <? 1 then fail MBEDTLS_ERR_ASN1_OUT_OF_DATA else
  let len := len - 1 in
  unused_bits ← peek;
  if unused_bits >? 7 then fail MBEDTLS_ERR_ASN1_INVALID_LENGTH else
  advance 1 ;;
  p ← pos;
  advance len ;;
  q ← pos;
  if negb (q =? end_) then fail MBEDTLS_ERR_ASN1_LENGTH_MISMATCH else
  mret (Bitstring len unused_bits p).

Definition mbedtls_asn1_get_bitstring_null (end_ : Z) : parser Z :=
  len ← mbedtls_asn1_get_tag end_ MBEDTLS_ASN1_BIT_STRING;
  if len =? 0 then fail MBEDTLS_ERR_ASN1_INVALID_DATA else
  let len := len - 1 in
  b ← peek;
  if negb (b =? 0) then fail MBEDTLS_ERR_ASN1_INVALID_DATA else
  advance 1 ;;
  mret len.

(** ** Sequences *)

Section traverse.
(** The callback and its context: what it does for a tag, an offset and a length. *)
Context {S : Type} (cb : option (S -> Z -> Z -> Z -> S * Z)).
Context (tag_must_mask tag_must_val tag_may_mask tag_may_val : Z).

(** The context is kept on error too. *)
Fixpoint traverse_loop (fuel : nat) (end_ p : Z) (s : S) : outcome (S * (Z + Z)) :=
  match fuel with
  | O => NoFuel
  | Datatypes.S fuel =>
      if p <? end_ then
        tag ← load8 buf p;
        if negb (Z.land tag tag_must_mask =? tag_must_val)
        then Done (s, inl MBEDTLS_ERR_ASN1_UNEXPECTED_TAG) else
        r ← mbedtls_asn1_get_len end_ (p + 1);
        match r with
        | inl e => Done (s, inl e)
        | inr (p, len) =>
            let '(s, ret) :=
              if Z.land tag tag_may_mask =? tag_may_val then
                match cb with Some cb => cb s tag p len | None => (s, 0) end
              else (s, 0) in
            if negb (ret =? 0) then Done (s, inl ret) else
            traverse_loop fuel end_ (p + len) s
        end
      else Done (s, inr p)
  end.

Definition mbedtls_asn1_traverse_sequence_of (end_ p : Z) (s : S) : outcome (S * (Z + Z)) :=
  r ← mbedtls_asn1_get_tag end_ (Z.lor MBEDTLS_ASN1_CONSTRUCTED MBEDTLS_ASN1_SEQUENCE) p;
  match r with
  | inl e => Done (s, inl e)
  | inr (p, len) =>
      if negb (p + len =? end_) then Done (s, inl MBEDTLS_ERR_ASN1_LENGTH_MISMATCH) else
      traverse_loop (Datatypes.S (Z.to_nat (end_ - p))) end_ p s
  end.
End traverse.

(** The list in the making: its nodes in order, the last one being [cur], and the answers
    the allocator still has to give. *)
Record seq_ctx := SeqCtx { nodes : list mbedtls_asn1_buf; allocs : list bool }.

Definition set_last (l : list mbedtls_asn1_buf) (x : mbedtls_asn1_buf) : list mbedtls_asn1_buf :=
  removelast l ++ [x].

Definition asn1_get_sequence_of_cb (ctx : seq_ctx) (tag start len : Z) : seq_ctx * Z :=
  match p (List.last (nodes ctx) zero_buf) with
  | None => (SeqCtx (set_last (nodes ctx) (Asn1Buf tag len (Some start))) (allocs ctx), 0)
  | Some _ =>
      match allocs ctx with
      | true :: rest => (SeqCtx (nodes ctx ++ [Asn1Buf tag len (Some start)]) rest, 0)
      | false :: rest => (SeqCtx (nodes ctx) rest, MBEDTLS_ERR_ASN1_ALLOC_FAILED)
      | [] => (ctx, MBEDTLS_ERR_ASN1_ALLOC_FAILED)
      end
  end.

(** [cur] is the head node of the caller; it is cleared first. *)
Definition mbedtls_asn1_get_sequence_of (end_ tag p : Z) (cur : mbedtls_asn1_buf) (answers : list bool)
    : outcome (seq_ctx * (Z + Z)) :=
  let cur := zero_buf in
  mbedtls_asn1_traverse_sequence_of (Some asn1_get_sequence_of_cb) 0xFF (u8 tag) 0 0 end_ p
    (SeqCtx [cur] answers).

(** ** Algorithm identifiers *)

Definition mbedtls_asn1_get_alg (end_ : Z) : parser (mbedtls_asn1_buf * mbedtls_asn1_buf) :=
  len ← mbedtls_asn1_get_tag end_ (Z.lor MBEDTLS_ASN1_CONSTRUCTED MBEDTLS_ASN1_SEQUENCE);
  p ← pos;
  if end_ - p <? 1 then fail MBEDTLS_ERR_ASN1_OUT_OF_DATA else
  alg_tag ← peek;
  let end_ := p + len in
  alg_len ← mbedtls_asn1_get_tag end_ MBEDTLS_ASN1_OID;
  alg_p ← pos;
  let alg := Asn1Buf alg_tag alg_len (Some alg_p) in
  advance alg_len ;;
  p ← pos;
  if p =? end_ then mret (alg, zero_buf) else
  params_tag ← peek;
  advance 1 ;;
  params_len ← mbedtls_asn1_get_len end_;
  params_p ← pos;
  advance params_len ;;
  p ← pos;
  if negb (p =? end_) then fail MBEDTLS_ERR_ASN1_LENGTH_MISMATCH else
  mret (alg, Asn1Buf params_tag params_len (Some params_p)).

Definition mbedtls_asn1_get_alg_null (end_ : Z) : parser mbedtls_asn1_buf :=
  '(alg, params) ← mbedtls_asn1_get_alg end_;
  if (negb (tag params =? MBEDTLS_ASN1_NULL) && negb (tag params =? 0)) || negb (len params =? 0)
  then fail MBEDTLS_ERR_ASN1_INVALID_DATA
  else mret alg.
End parse.

(** ** What is encoded *)

(** Big-endian value. *)
Definition be (bs : list Z) : Z := fold_left (fun a b => a * 2 ^ 8 + b) bs 0.

(** The lengths the parser knows: one byte below 128, or up to four bytes behind their
    number.  A length need not have the shortest form. *)
Inductive len_form : list Z -> Z -> Prop :=
  | short_form n : 0 <= n < 128 -> len_form [n] n
  | long_form bs : 1 <= zlen bs <= 4 -> is_bytes bs -> len_form (0x80 + zlen bs :: bs) (be bs).

(** ** Big-endian values *)

Lemma be_snoc_acc bs a : fold_left (fun a b => a * 2 ^ 8 + b) bs a = a * 2 ^ (8 * zlen bs) + be bs.
Proof.
  unfold be. revert a. induction bs as [|b bs IH] using rev_ind; intros a.
  - change (2 ^ (8 * zlen (@nil Z))) with 1. cbn [fold_left]. lia.
  - rewrite !fold_left_app, IH, zlen_app, zlen_singleton. cbn [fold_left].
    replace (8 * (zlen bs + 1)) with (8 * zlen bs + 8) by lia. pose proof (zlen_nonneg bs).
    rewrite Z.pow_add_r by lia. ring.
Qed.

Lemma be_cons b bs : be (b :: bs) = b * 2 ^ (8 * zlen bs) + be bs.
Proof. unfold be at 1. cbn [fold_left]. rewrite be_snoc_acc. ring. Qed.

Lemma be_range bs : is_bytes bs -> 0 <= be bs < 2 ^ (8 * zlen bs).
Proof.
  induction bs as [|b bs IH]; intros Hb; [done|]. apply Forall_cons in Hb as [Hb Hs]. specialize (IH Hs).
  rewrite be_cons, zlen_cons. pose proof (zlen_nonneg bs). unfold is_byte in Hb.
  replace (8 * (1 + zlen bs)) with (8 + 8 * zlen bs) by lia. rewrite Z.pow_add_r by lia. nia.
Qed.

(** ** Running parsers *)

Section run.
Context (buf : list Z).

(** The buffer has the bytes [l] at [p]. *)
Definition has (p : Z) (l : list Z) : Prop := 0 <= p /\ ztake (zlen l) (zdrop p buf) = l.

Lemma has_bound q l : has q l -> q <= zlen buf -> q + zlen l <= zlen buf.
Proof.
  intros [H0 H] Hq. apply (f_equal zlen) in H. rewrite zlen_ztake_max, zlen_zdrop_max in H.
  pose proof (zlen_nonneg l). lia.
Qed.

Lemma has_app q l k : has q (l ++ k) <-> has q l /\ has (q + zlen l) k.
Proof.
  pose proof (zlen_nonneg l). pose proof (zlen_nonneg k). unfold has. rewrite zlen_app. split.
  - intros [Hq H1]. rewrite ztake_add, zdrop_zdrop in H1 by lia.
    assert (zlen (ztake (zlen l) (zdrop q buf)) = zlen l) as L.
    { pose proof (f_equal zlen H1) as E. pose proof (zlen_nonneg buf).
      rewrite !zlen_app, !zlen_ztake_max, !zlen_zdrop_max in E. rewrite zlen_ztake_max, zlen_zdrop_max. lia. }
    apply app_inj_1 in H1 as [E1 E2]; [|by apply Nat2Z.inj]. split_and!; done || lia.
  - intros [[Hq H1] [H2 H3]]. split; [done|]. rewrite ztake_add, zdrop_zdrop by lia. by rewrite H1, H3.
Qed.

Lemma has_cons q b l : has q (b :: l) <-> has q [b] /\ has (q + 1) l.
Proof. apply (has_app q [b] l). Qed.

Lemma has_byte q : 0 <= q < zlen buf -> has q [buf !!! Z.to_nat q].
Proof.
  intros H. split; [lia|]. change (zlen [_]) with 1. replace 1 with (1 + 0) by lia.
  rewrite ztake_zdrop_cons by lia. by rewrite ztake_0.
Qed.

Lemma has_slice q n : 0 <= q -> 0 <= n -> q + n <= zlen buf -> has q (ztake n (zdrop q buf)).
Proof. intros. split; [done|]. rewrite zlen_ztake; [done|]. rewrite zlen_zdrop; lia. Qed.

Lemma has_is_bytes q l : is_bytes buf -> has q l -> is_bytes l.
Proof. intros Hb [_ <-]. auto with zlist. Qed.

Lemma has_inj q l k : has q l -> has q k -> zlen l = zlen k -> l = k.
Proof. intros [_ Hl] [_ Hk] E. rewrite E in Hl. congruence. Qed.

Lemma peek_has q b : has q [b] -> peek buf q = Done (inr (q, b)).
Proof.
  intros [H0 H]. assert (q < zlen buf) as Hq.
  { apply (f_equal zlen) in H. rewrite zlen_ztake_max, zlen_zdrop_max, zlen_singleton in H. lia. }
  change (zlen [b]) with (1 + 0) in H. rewrite ztake_zdrop_cons, ztake_0 in H by lia. injection H as H.
  unfold peek. rewrite load8_Done, H by lia. done.
Qed.

Lemma bind_peek {A} q b (f : Z -> parser A) : has q [b] -> (peek buf ≫= f) q = f b q.
Proof. intros H. unfold mbind, parser_bind. by rewrite (peek_has _ _ H). Qed.

Lemma bind_inr {A B} (m : parser A) (f : A -> parser B) q q' a :
  m q = Done (inr (q', a)) -> (m ≫= f) q = f a q'.
Proof. intros H. unfold mbind, parser_bind. by rewrite H. Qed.

Lemma bind_pos {A} (f : Z -> parser A) q : (pos ≫= f) q = f q q.
Proof. reflexivity. Qed.

Lemma bind_advance {A} n (f : () -> parser A) q : (advance n ≫= f) q = f tt (q + n).
Proof. reflexivity. Qed.
End run.

(** What comes back: an error of the list, or an offset and a value related by [Q]. *)
Definition outcome_of {A} (errs : list Z) (Q : Z -> A -> Prop) (r : outcome (Z + Z * A)) : Prop :=
  match r with Done (inl e) => e ∈ errs | Done (inr (q, a)) => Q q a | _ => False end.

(** A parser at [q] accepts exactly what [R] relates to an offset and a value, and answers
    with one of the errors otherwise. *)
Definition exact {A} (m : parser A) (q : Z) (errs : list Z) (R : Z -> A -> Prop) : Prop :=
  outcome_of errs R (m q) /\ forall q' a, R q' a -> m q = Done (inr (q', a)).

Lemma exact_ret {A} (a : A) q errs : exact (mret a) q errs (fun q' a' => q' = q /\ a' = a).
Proof. split; [by split|]. by intros ? ? [-> ->]. Qed.

Lemma exact_bind {A B} (m : parser A) (f : A -> parser B) q errs R Rf :
  exact m q errs R -> (forall q' a, R q' a -> exact (f a) q' errs (Rf q' a)) ->
  exact (m ≫= f) q errs (fun q2 b => exists q1 a, R q1 a /\ Rf q1 a q2 b).
Proof.
  intros [H1 H2] Hf. split.
  - unfold mbind, parser_bind. destruct (m q) as [[e|[q1 a]]| |] eqn:E; try done. cbn [mbind outcome_bind outcome_of] in *.
    destruct (Hf q1 a H1) as [F1 _]. revert F1. unfold outcome_of. destruct (f a q1) as [[e|[q2 b]]| |]; eauto.
  - intros q2 b (q1 & a & Hr & Hb). rewrite (bind_inr _ _ q q1 a) by (by apply H2). by apply Hf.
Qed.

Lemma exact_if {A} (c : bool) e (m : parser A) q errs R :
  e ∈ errs -> (c = false -> exact m q errs R) ->
  exact (if c then fail e else m) q errs (fun q' a => c = false /\ R q' a).
Proof.
  intros He Hm. destruct c; [split; [done|]; by intros ? ? [? _]|]. destruct (Hm eq_refl) as [H1 H2]. split.
  - revert H1. unfold outcome_of. destruct (m q) as [[?|[? ?]]| |]; auto.
  - intros q' a [_ H]. by apply H2.
Qed.

Lemma exact_iff {A} (m : parser A) q errs R R' :
  (forall q' a, R q' a <-> R' q' a) -> exact m q errs R -> exact m q errs R'.
Proof.
  intros E [H1 H2]. split; [|intros q' a H; by apply H2, E].
  revert H1. unfold outcome_of. destruct (m q) as [[?|[? ?]]| |]; [done|apply E|done..].
Qed.

Lemma exact_errs {A} (m : parser A) q errs errs' R : errs ⊆ errs' -> exact m q errs R -> exact m q errs' R.
Proof.
  intros E [H1 H2]. split; [|done]. revert H1. unfold outcome_of. destruct (m q) as [[?|[? ?]]| |]; auto.
Qed.

(** In sequence, for a relation of the whole that determines the first part. *)
Lemma exact_seq {A B} (m : parser A) (f : A -> parser B) q errs R (R' : Z -> B -> Prop) :
  exact m q errs R -> (forall q2 b, R' q2 b -> exists q1 a, R q1 a) ->
  (forall q1 a, R q1 a -> exact (f a) q1 errs R') -> exact (m ≫= f) q errs R'.
Proof.
  intros Hm Hd Hf. eapply exact_iff; [|apply (exact_bind m f q errs R (fun _ _ => R')); done].
  intros q2 b. cbv beta. split; [by intros (? & ? & _ & ?)|]. intros H. destruct (Hd _ _ H) as (q1 & a & Hr). eauto.
Qed.

Lemma exact_fail {A} e q errs (R : Z -> A -> Prop) :
  e ∈ errs -> (forall q' a, ~ R q' a) -> exact (fail e) q errs R.
Proof. intros He Hn. split; [done|]. intros q' a H. by destruct (Hn q' a). Qed.

Lemma exact_done {A} (a : A) q errs (R : Z -> A -> Prop) :
  R q a -> (forall q' a', R q' a' -> q' = q /\ a' = a) -> exact (mret a) q errs R.
Proof. intros H Hu. split; [done|]. intros q' a' H'. by destruct (Hu _ _ H') as [-> ->]. Qed.

Lemma exact_run {A B} (m : parser A) (f : A -> parser B) q q1 a errs R :
  m q = Done (inr (q1, a)) -> exact (f a) q1 errs R -> exact (m ≫= f) q errs R.
Proof. intros H. unfold exact. by rewrite (bind_inr _ _ _ _ _ H). Qed.

Lemma exact_peek {A} buf q b (f : Z -> parser A) errs R :
  has buf q [b] -> exact (f b) q errs R -> exact (peek buf ≫= f) q errs R.
Proof. intros Hh [H1 H2]. unfold exact. rewrite (bind_peek _ _ _ _ Hh). by split. Qed.

Lemma exact_pos {A} q (f : Z -> parser A) errs R : exact (f q) q errs R -> exact (pos ≫= f) q errs R.
Proof. done. Qed.

Lemma exact_advance {A} n q (f : () -> parser A) errs R :
  exact (f tt) (q + n) errs R -> exact (advance n ≫= f) q errs R.
Proof. done. Qed.

Definition len_errors : list Z := [MBEDTLS_ERR_ASN1_OUT_OF_DATA; MBEDTLS_ERR_ASN1_INVALID_LENGTH].

(** ** Lengths *)

Lemma top_bit_byte b : is_byte b -> (Z.land b 0x80 =? 0) = (b <? 128).
Proof.
  intros H. apply eqb_prop. revert b H. apply all_bytes_spec. vm_compute. reflexivity.
Qed.

Lemma low_bits_byte b : is_byte b -> Z.land b 0x7F = b mod 128.
Proof. intros H. change 0x7F with (Z.ones 7). by rewrite Z.land_ones by lia. Qed.

Section lengths.
Context (buf : list Z).
Hypothesis Hb : is_bytes buf.
Hypothesis Hmax : zlen buf < 2 ^ 63.

Lemma len_bytes_ok bs : forall q acc, has buf q bs -> is_bytes bs -> 0 <= acc ->
  acc * 2 ^ (8 * zlen bs) + 2 ^ (8 * zlen bs) <= 2 ^ 64 ->
  len_bytes buf (length bs) acc q = Done (inr (q + zlen bs, acc * 2 ^ (8 * zlen bs) + be bs)).
Proof.
  induction bs as [|b bs IH]; intros q acc Hh Hbs Ha Hm; cbn [length len_bytes].
  { change (zlen []) with 0. cbn [Z.mul Z.pow]. rewrite Z.mul_1_r, !Z.add_0_r. done. }
  apply has_cons in Hh as [H1 H2]. apply Forall_cons in Hbs as [Bb Bbs]. unfold is_byte in Bb.
  pose proof (zlen_nonneg bs). rewrite zlen_cons in *.
  replace (8 * (1 + zlen bs)) with (8 + 8 * zlen bs) in * by lia. rewrite Z.pow_add_r in * by lia.
  assert (0 < 2 ^ (8 * zlen bs)) by (apply Z.pow_pos_nonneg; lia).
  rewrite (bind_peek _ _ _ _ H1), bind_advance.
  unfold u64. rewrite Z.mod_small by (rewrite Z.shiftl_mul_pow2 by lia; nia).
  rewrite lor_shiftl_add by lia. rewrite IH by (done || nia).
  rewrite be_cons. do 3 f_equal; lia.
Qed.

Lemma get_len_ok end_ q hdr n :
  0 <= q -> end_ <= zlen buf -> len_form hdr n -> has buf q hdr -> q + zlen hdr + n <= end_ ->
  mbedtls_asn1_get_len buf end_ q = Done (inr (q + zlen hdr, n)).
Proof.
  intros Hq He Hf Hh Hn. assert (0 <= n) as Hn0.
  { destruct Hf as [m Hm|bs Hl Hbs]; [lia|]. by apply be_range. }
  assert (forall x, 0 <= n -> x + n <= end_ -> 0 <= x -> (n >? u64 (end_ - x)) = false) as Hcmp.
  { intros x H0 H1 H2. unfold u64. rewrite Z.mod_small by lia. rewrite Z.gtb_ltb. apply Z.ltb_ge. lia. }
  unfold mbedtls_asn1_get_len. rewrite bind_pos. pose proof (zlen_nonneg hdr).
  assert (0 < zlen hdr) by (destruct Hf as [m Hm|bs Hl Hbs]; rewrite ?zlen_singleton, ?zlen_cons; lia).
  rewrite (proj2 (Z.ltb_ge (end_ - q) 1)) by lia. destruct Hf as [m Hm|bs Hl Hbs].
  - rewrite (bind_peek _ _ _ _ Hh), top_bit_byte by (unfold is_byte; lia).
    rewrite (proj2 (Z.ltb_lt m 128)) by lia. rewrite (bind_inr _ _ q (q + 1) m) by reflexivity.
    rewrite bind_pos, zlen_singleton in *. rewrite Hcmp by lia. done.
  - apply has_cons in Hh as [H1 H2]. rewrite zlen_cons in *.
    rewrite (bind_peek _ _ _ _ H1), top_bit_byte by (unfold is_byte; lia).
    rewrite (proj2 (Z.ltb_ge (0x80 + zlen bs) 128)) by lia.
    rewrite low_bits_byte by (unfold is_byte; lia).
    replace ((0x80 + zlen bs) mod 128) with (zlen bs) by (Z.div_mod_to_equations; lia). cbv zeta.
    rewrite (proj2 (Z.eqb_neq (zlen bs) 0)), Z.gtb_ltb, (proj2 (Z.ltb_ge 4 (zlen bs))) by lia. cbn [orb].
    rewrite (proj2 (Z.leb_gt (end_ - q) (zlen bs))) by lia.
    rewrite (bind_inr _ _ q (q + 1 + zlen bs) (be bs)).
    + rewrite bind_pos, Hcmp by lia. by rewrite Z.add_assoc.
    + rewrite bind_advance. unfold zlen at 1. rewrite Nat2Z.id. rewrite len_bytes_ok; [done|done|done|lia|].
      assert (2 ^ (8 * zlen bs) <= 2 ^ 64) by (apply Z.pow_le_mono_r; lia). lia.
Qed.

Lemma byte_at q : 0 <= q < zlen buf -> exists b, is_byte b /\ has buf q [b].
Proof.
  intros H. exists (buf !!! Z.to_nat q). split; [|by apply has_byte]. pose proof (has_byte buf q H) as Hh.
  apply has_is_bytes in Hh; [|done]. by apply Forall_cons in Hh as [? _].
Qed.

Lemma get_len_total end_ q :
  0 <= q -> end_ <= zlen buf ->
  outcome_of len_errors
    (fun q' n => exists hdr, len_form hdr n /\ has buf q hdr /\ q' = q + zlen hdr /\ q' + n <= end_)
    (mbedtls_asn1_get_len buf end_ q).
Proof.
  intros Hq He. unfold mbedtls_asn1_get_len. rewrite bind_pos.
  destruct (end_ - q <? 1) eqn:E; bool_to_prop; [left|]. destruct (byte_at q) as (b & Bb & Hh); [lia|].
  rewrite (bind_peek _ _ _ _ Hh), top_bit_byte by done.
  assert (forall x n, 0 <= x -> x <= end_ -> 0 <= n -> ((n >? u64 (end_ - x)) = true) \/ x + n <= end_) as Hcmp.
  { intros x n H0 H1 H2. unfold u64. rewrite Z.mod_small by lia. rewrite Z.gtb_ltb.
    destruct (end_ - x <? n) eqn:E2; bool_to_prop; [by left|right; lia]. }
  destruct (b <? 128) eqn:E1; bool_to_prop.
  - rewrite (bind_inr _ _ q (q + 1) b) by reflexivity. rewrite bind_pos. unfold is_byte in Bb.
    destruct (_ >? _) eqn:E2; [left|]. destruct (Hcmp (q + 1) b) as [H|H]; [lia..|congruence|].
    exists [b]. split_and!; try done. constructor. lia.
  - rewrite low_bits_byte by done. cbv zeta. unfold is_byte in Bb.
    destruct ((b mod 128 =? 0) || (b mod 128 >? 4)) eqn:E2; [right; left|].
    rewrite Z.gtb_ltb in E2. bool_to_prop. destruct (end_ - q <=? b mod 128) eqn:E3; bool_to_prop; [left|].
    assert (b = 0x80 + b mod 128) as Eb by (Z.div_mod_to_equations; lia).
    remember (b mod 128) as n eqn:En. clear En. subst b.
    pose proof (has_slice buf (q + 1) n ltac:(lia) ltac:(lia) ltac:(lia)) as Hs.
    set (bs := ztake n (zdrop (q + 1) buf)) in *.
    assert (zlen bs = n) as Ln by (unfold bs; rewrite zlen_ztake; [done|rewrite zlen_zdrop; lia]).
    assert (is_bytes bs) as Bbs by (by eapply has_is_bytes).
    rewrite (bind_inr _ _ q (q + 1 + n) (be bs)).
    + rewrite bind_pos. destruct (_ >? _) eqn:E4; [left|]. pose proof (be_range bs Bbs).
      destruct (Hcmp (q + 1 + n) (be bs)) as [Hc|Hc]; [lia..|congruence|].
      exists (0x80 + zlen bs :: bs). split_and!; [constructor; [lia|done]| |rewrite zlen_cons; lia|done].
      apply has_cons. by rewrite Ln.
    + rewrite bind_advance. replace (Z.to_nat n) with (length bs) by (unfold zlen in Ln; lia).
      rewrite len_bytes_ok, Ln; [done|done|done|lia|].
      rewrite Ln. assert (2 ^ (8 * n) <= 2 ^ 64) by (apply Z.pow_le_mono_r; lia). lia.
Qed.

Lemma get_len_exact end_ q :
  0 <= q -> end_ <= zlen buf ->
  exact (mbedtls_asn1_get_len buf end_) q len_errors
    (fun q' n => exists hdr, len_form hdr n /\ has buf q hdr /\ q' = q + zlen hdr /\ q' + n <= end_).
Proof.
  intros Hq He. split; [by apply get_len_total|]. intros q' n (hdr & Hf & Hh & -> & Hn). by apply get_len_ok.
Qed.

Lemma len_form_nonneg hdr n : len_form hdr n -> 0 <= n.
Proof. intros [m Hm|bs Hl Hbs]; [lia|]. by apply be_range. Qed.

(** ** Elements *)

(** The element at [q]: its tag, a form of its length, its content from [start] on. *)
Definition element_at (q t start : Z) (content : list Z) : Prop :=
  exists hdr, len_form hdr (zlen content) /\ has buf q (t :: hdr ++ content) /\ start = q + 1 + zlen hdr.

Definition tag_errors : list Z := MBEDTLS_ERR_ASN1_UNEXPECTED_TAG :: len_errors.

Lemma get_tag_exact end_ t q :
  0 <= q -> end_ <= zlen buf ->
  exact (mbedtls_asn1_get_tag buf end_ t) q tag_errors
    (fun start n => exists content, n = zlen content /\ element_at q t start content /\ start + n <= end_).
Proof.
  intros Hq He. unfold mbedtls_asn1_get_tag. apply exact_pos. set (b := buf !!! Z.to_nat q).
  assert (1 <= end_ - q -> has buf q [b]) as Hh by (intros; apply has_byte; lia).
  eapply exact_iff; [|apply exact_if; [set_solver|]; intros E; bool_to_prop; apply (exact_peek _ _ _ _ _ _ (Hh E))].
  2: { apply exact_if; [set_solver|]. intros E1. apply exact_advance. eapply exact_errs; [|apply get_len_exact; lia].
       set_solver. }
  intros start n. cbv beta. split.
  - intros (E & E1 & hdr & Hf & Hhdr & -> & Hn). bool_to_prop. subst t.
    assert (0 <= n) as Hn0 by (by eapply len_form_nonneg). pose proof (zlen_nonneg hdr).
    pose proof (has_slice buf (q + 1 + zlen hdr) n ltac:(lia) Hn0 ltac:(lia)) as Hc.
    set (content := ztake n _) in Hc. assert (zlen content = n) as Lc.
    { unfold content. rewrite zlen_ztake; [done|]. rewrite zlen_zdrop; lia. }
    exists content. split_and!; [done| |done]. exists hdr. rewrite Lc. split_and!; [done| |done].
    apply has_cons. split; [by apply Hh|]. apply has_app. by split.
  - intros (content & -> & (hdr & Hf & Hc & ->) & Hn). pose proof (zlen_nonneg hdr). pose proof (zlen_nonneg content).
    apply has_cons in Hc as [H1 H2]. apply has_app in H2 as [H2 H3].
    assert (1 <= end_ - q) as E by lia. split; [by apply Z.ltb_ge|]. split.
    + apply negb_false_iff, Z.eqb_eq. pose proof (has_inj _ _ _ _ (Hh E) H1 eq_refl) as Eb. by injection Eb.
    + exists hdr. split_and!; done.
Qed.

Lemma element_has q t start c : element_at q t start c -> 0 <= start /\ q < start /\ has buf start c.
Proof.
  intros (hdr & Hf & Hh & ->). apply has_cons in Hh as [[H0 _] H2]. apply has_app in H2 as [_ H3].
  pose proof (zlen_nonneg hdr). split_and!; [lia..|done].
Qed.

(** A buffer has at most one element at an offset. *)
Lemma element_inj q t t' start start' c c' :
  element_at q t start c -> element_at q t' start' c' -> t = t' /\ start = start' /\ c = c'.
Proof.
  intros H H'. assert (t = t') as <-.
  { destruct H as (hdr & _ & Hh & _), H' as (hdr' & _ & Hh' & _).
    apply has_cons in Hh as [H _]. apply has_cons in Hh' as [H' _]. pose proof (has_inj _ _ _ _ H H' eq_refl) as E.
    by injection E. }
  assert (0 <= q) as Hq by (by destruct H as (hdr & _ & [? _] & _)).
  assert (forall s x, element_at q t s x -> s + zlen x <= zlen buf) as Hle.
  { intros s x (hdr & Hf & Hh & ->). pose proof (zlen_nonneg hdr). pose proof (zlen_nonneg x).
    assert (q <= zlen buf) as Hqb.
    { destruct Hh as [_ Hh]. apply (f_equal zlen) in Hh. rewrite zlen_ztake_max, zlen_zdrop_max, zlen_cons, zlen_app in Hh. lia. }
    apply has_bound in Hh; [|done]. rewrite zlen_cons, zlen_app in Hh. lia. }
  destruct (get_tag_exact (zlen buf) t q Hq ltac:(lia)) as [_ Hok].
  rewrite (Hok start (zlen c)) in Hok by eauto. specialize (Hok start' (zlen c')).
  assert (inr (start, zlen c) = inr (start', zlen c') :> (Z + Z * Z)) as E.
  { enough (Done (inr (start, zlen c)) = Done (inr (start', zlen c')) :> outcome (Z + Z * Z)) as E by (by injection E as -> ->).
    apply Hok. eauto. }
  injection E as <- E. split_and!; [done..|]. apply element_has in H as (_ & _ & H), H' as (_ & _ & H').
  by eapply has_inj.
Qed.

(** ** Integers *)

Fixpoint strip_zeros (c : list Z) : list Z :=
  match c with
  | [] => []
  | b :: c' => if b =? 0 then strip_zeros c' else c
  end.

Lemma strip_zeros_has c : forall r, has buf r c ->
  skip_zeros buf (length c) r =
    Done (inr (r + (zlen c - zlen (strip_zeros c)), zlen (strip_zeros c))) /\
  has buf (r + (zlen c - zlen (strip_zeros c))) (strip_zeros c).
Proof.
  induction c as [|b c IH]; intros r Hh; cbn [length skip_zeros strip_zeros].
  { change (zlen (@nil Z)) with 0. rewrite Z.sub_0_r, Z.add_0_r. done. }
  pose proof Hh as [H1 H2]%has_cons. rewrite (bind_peek _ _ _ _ H1). destruct (b =? 0).
  - rewrite bind_advance. destruct (IH _ H2) as [-> H]. rewrite zlen_cons.
    replace (r + (1 + zlen c - zlen (strip_zeros c))) with (r + 1 + (zlen c - zlen (strip_zeros c))) by lia. done.
  - rewrite Z.sub_diag, Z.add_0_r. done.
Qed.

Lemma be_strip c : be (strip_zeros c) = be c.
Proof.
  induction c as [|b c IH]; cbn [strip_zeros]; [done|]. destruct (b =? 0) eqn:E; bool_to_prop; [|done].
  rewrite be_cons, IH, E. lia.
Qed.

Lemma strip_zeros_bytes c : is_bytes c -> is_bytes (strip_zeros c).
Proof.
  induction c as [|b c IH]; intros H; cbn [strip_zeros]; [done|]. pose proof H as [_ H']%Forall_cons.
  destruct (b =? 0); auto.
Qed.

(** A number without leading zeros is as large as its length says. *)
Lemma be_strip_lower c : is_bytes c -> strip_zeros c <> [] -> 2 ^ (8 * (zlen (strip_zeros c) - 1)) <= be c.
Proof.
  induction c as [|b c IH]; cbn [strip_zeros]; [done|]. intros [Bb Bc]%Forall_cons Hn.
  destruct (b =? 0) eqn:E; bool_to_prop; rewrite be_cons; [rewrite E; by apply IH|].
  rewrite zlen_cons. replace (1 + zlen c - 1) with (zlen c) by lia. unfold is_byte in Bb.
  pose proof (be_range c Bc). nia.
Qed.

Lemma int_bytes_ok bs : forall r acc, has buf r bs -> is_bytes bs -> 0 <= acc ->
  acc * 2 ^ (8 * zlen bs) + be bs < 2 ^ 31 ->
  int_bytes buf (length bs) acc r = Done (inr (r + zlen bs, acc * 2 ^ (8 * zlen bs) + be bs)).
Proof.
  induction bs as [|b bs IH]; intros r acc Hh Hbs Ha Hm; cbn [length int_bytes].
  { change (zlen []) with 0. cbn [Z.mul Z.pow]. rewrite Z.mul_1_r, !Z.add_0_r. done. }
  apply has_cons in Hh as [H1 H2]. apply Forall_cons in Hbs as [Bb Bbs]. unfold is_byte in Bb.
  pose proof (zlen_nonneg bs). pose proof (be_range bs Bbs). rewrite be_cons, zlen_cons in *.
  replace (8 * (1 + zlen bs)) with (8 + 8 * zlen bs) in * by lia. rewrite Z.pow_add_r in * by lia.
  assert (0 < 2 ^ (8 * zlen bs)) by (apply Z.pow_pos_nonneg; lia).
  rewrite (bind_peek _ _ _ _ H1). rewrite (bind_inr _ _ r r (Z.shiftl acc 8)).
  - rewrite bind_advance, lor_shiftl_add by lia. rewrite IH by (done || nia). do 3 f_equal; lia.
  - unfold int_shl8. rewrite (proj2 (Z.ltb_lt _ _)); [done|]. rewrite Z.shiftl_mul_pow2 by lia. nia.
Qed.

Section values.
Context (end_ q : Z).
Hypothesis Hq : 0 <= q.
Hypothesis Hend : end_ <= zlen buf.

(** A value with tag [t] is read from its content. *)
Lemma exact_element {A} t errs (f : Z -> parser A) (P : Z -> list Z -> Z -> A -> Prop) :
  tag_errors ⊆ errs ->
  (forall start c, element_at q t start c -> start + zlen c <= end_ -> exact (f (zlen c)) start errs (P start c)) ->
  exact (mbedtls_asn1_get_tag buf end_ t ≫= f) q errs
    (fun q' a => exists start c, element_at q t start c /\ start + zlen c <= end_ /\ P start c q' a).
Proof.
  intros He Hf. eapply exact_seq; [eapply exact_errs; [exact He|by apply get_tag_exact]| |].
  - intros q2 b (start & c & H1 & H2 & _). exists start, (zlen c), c. done.
  - intros start n (c & -> & H1 & H2). eapply exact_iff; [|by apply Hf]. intros q' a. cbv beta. split; [eauto|].
    intros (start' & c' & H1' & _ & H3). by destruct (element_inj _ _ _ _ _ _ _ H1 H1') as (_ & <- & <-).
Qed.

Lemma get_bool_exact :
  exact (mbedtls_asn1_get_bool buf end_) q tag_errors
    (fun q' v => exists start b, element_at q MBEDTLS_ASN1_BOOLEAN start [b] /\ start + 1 <= end_ /\
       q' = start + 1 /\ v = if b =? 0 then 0 else 1).
Proof.
  unfold mbedtls_asn1_get_bool. eapply exact_iff; [|apply (exact_element _ _ _ (fun start c q' v =>
    exists b, c = [b] /\ q' = start + 1 /\ v = if b =? 0 then 0 else 1)); [done|]].
  { intros q' v. split; [intros (start & c & ? & ? & b & -> & ? & ?)|intros (start & b & ? & ? & ? & ?)]; eauto 9. }
  intros start c He Hl. destruct (element_has _ _ _ _ He) as (H0 & _ & Hh).
  destruct (zlen c =? 1) eqn:E; bool_to_prop; cbn [negb].
  - destruct c as [|b [|? c]]; [done| |rewrite !zlen_cons in E; pose proof (zlen_nonneg c); lia].
    apply (exact_peek _ _ _ _ _ _ Hh), exact_advance. apply exact_done; [by exists b; destruct (b =? 0)|].
    intros q' v (b' & [= <-] & -> & ->). split; [done|]. by destruct (b =? 0).
  - apply exact_fail; [set_solver|]. by intros q' v (b & -> & _).
Qed.

(** An INTEGER or ENUMERATED is accepted exactly when it is not negative and fits an [int]. *)
Lemma get_tagged_int_exact t :
  exact (asn1_get_tagged_int buf end_ t) q tag_errors
    (fun q' v => exists start c, element_at q t start c /\ start + zlen c <= end_ /\
       c <> [] /\ List.hd 0 c < 128 /\ be c < 2 ^ 31 /\ q' = start + zlen c /\ v = be c).
Proof.
  unfold asn1_get_tagged_int. apply exact_element; [done|]. intros start c He Hl.
  destruct (element_has _ _ _ _ He) as (H0 & _ & Hh). assert (is_bytes c) as Bc by (by eapply has_is_bytes).
  destruct (zlen c =? 0) eqn:E; bool_to_prop.
  { apply exact_fail; [set_solver|]. intros q' v (Hn & _). destruct c; [done|]. rewrite zlen_cons in E.
    pose proof (zlen_nonneg c). lia. }
  destruct c as [|b c]; [done|]. pose proof Hh as [H1 _]%has_cons. pose proof Bc as [Bb _]%Forall_cons.
  apply (exact_peek _ _ _ _ _ _ H1). rewrite top_bit_byte by done.
  destruct (b <? 128) eqn:E1; bool_to_prop; cbn [negb].
  2: { apply exact_fail; [set_solver|]. intros q' v (_ & Hb' & _). cbn [List.hd] in Hb'. lia. }
  destruct (strip_zeros_has _ _ Hh) as [Hs Hr]. pose proof (be_strip (b :: c)) as Hv.
  pose proof (be_strip_lower (b :: c) Bc) as Hlow. pose proof (strip_zeros_bytes _ Bc) as Br.
  replace (Z.to_nat (zlen (b :: c))) with (length (b :: c)) by (unfold zlen; lia).
  set (full := b :: c) in *. set (rest := strip_zeros full) in *. set (r := start + (zlen full - zlen rest)) in *.
  pose proof (zlen_nonneg rest) as L0. pose proof (be_range rest Br) as Rr.
  assert (forall q' (v : Z), full <> [] /\ List.hd 0 full < 128 /\ be full < 2 ^ 31 /\ q' = start + zlen full /\ v = be full ->
    be rest < 2 ^ 31) as Hlt by (intros q' v (_ & _ & ? & _); lia).
  apply (exact_run _ _ _ _ _ _ _ Hs). clear Hs. rewrite Z.gtb_ltb.
  destruct (4 <? zlen rest) eqn:E4; bool_to_prop.
  { apply exact_fail; [set_solver|]. intros q' v Hlt'. apply Hlt in Hlt'. assert (rest <> []) as Hn by (by intros ->).
    specialize (Hlow Hn). assert (2 ^ 32 <= 2 ^ (8 * (zlen rest - 1))) by (apply Z.pow_le_mono_r; lia). lia. }
  assert (exists high, (if zlen rest =? 4 then b ← peek buf; mret (negb (Z.land b 0x80 =? 0)) else mret false) r =
    Done (inr (r, high)) /\ (high = true <-> 2 ^ 31 <= be rest)) as (high & Eh & Hhigh).
  { destruct (zlen rest =? 4) eqn:E5; bool_to_prop.
    - destruct rest as [|b0 rest']; [done|]. pose proof Hr as [Hr1 _]%has_cons. pose proof Br as [B0 B1]%Forall_cons.
      rewrite (bind_peek _ _ _ _ Hr1). eexists. split; [reflexivity|]. rewrite top_bit_byte by done.
      assert (zlen rest' = 3) as L3 by (rewrite zlen_cons in E5; lia). pose proof (be_range rest' B1) as R'.
      rewrite be_cons, L3. rewrite L3 in R'. unfold is_byte in B0.
      destruct (b0 <? 128) eqn:E6; bool_to_prop; cbn [negb]; split; intros; try done; lia.
    - exists false. split; [done|]. split; [done|]. intros. assert (2 ^ (8 * zlen rest) <= 2 ^ 24) by (apply Z.pow_le_mono_r; lia). lia. }
  apply (exact_run _ _ _ _ _ _ _ Eh). clear Eh. destruct high.
  { apply exact_fail; [set_solver|]. intros q' v Hlt'. apply Hlt in Hlt'. pose proof (proj1 Hhigh eq_refl). lia. }
  assert (be rest < 2 ^ 31) as Hsmall by (destruct (Z.lt_ge_cases (be rest) (2 ^ 31)) as [?|?]; [done|by apply Hhigh in H]).
  replace (Z.to_nat (zlen rest)) with (length rest) by (unfold zlen; lia).
  pose proof (int_bytes_ok rest r 0 Hr Br ltac:(lia) ltac:(lia)) as Ei. rewrite Z.mul_0_l, Z.add_0_l in Ei.
  replace (r + zlen rest) with (start + zlen full) in Ei by (unfold r; lia). rewrite Hv in Ei. split.
  - rewrite Ei. cbn [outcome_of]. split_and!; try done. lia.
  - intros q' v (_ & _ & _ & -> & ->). exact Ei.
Qed.

Definition value_errors : list Z :=
  MBEDTLS_ERR_ASN1_LENGTH_MISMATCH :: MBEDTLS_ERR_ASN1_INVALID_DATA :: tag_errors.

Lemma get_bitstring_exact :
  exact (mbedtls_asn1_get_bitstring buf end_) q value_errors
    (fun q' bs => exists start u bits, element_at q MBEDTLS_ASN1_BIT_STRING start (u :: bits) /\ u <= 7 /\
       start + 1 + zlen bits = end_ /\ q' = end_ /\ bs = Bitstring (zlen bits) u (start + 1)).
Proof.
  unfold mbedtls_asn1_get_bitstring. eapply exact_iff; [|apply (exact_element _ _ _ (fun start c q' bs =>
    exists u bits, c = u :: bits /\ u <= 7 /\ start + 1 + zlen bits = end_ /\ q' = end_ /\
      bs = Bitstring (zlen bits) u (start + 1))); [set_solver|]].
  { intros q' bs. split.
    - intros (start & c & ? & ? & u & bits & -> & ?). eauto 9.
    - intros (start & u & bits & ? & ? & ? & ? & ?). exists start, (u :: bits). rewrite zlen_cons.
      split_and!; [done|lia|]. eauto 9. }
  intros start c He Hl. destruct (element_has _ _ _ _ He) as (H0 & _ & Hh). pose proof (zlen_nonneg c).
  destruct (zlen c <? 1) eqn:E; bool_to_prop.
  { apply exact_fail; [set_solver|]. intros q' bs (u & bits & -> & _). rewrite zlen_cons in E.
    pose proof (zlen_nonneg bits). lia. }
  destruct c as [|u bits]; [done|]. pose proof Hh as [H1 _]%has_cons. apply (exact_peek _ _ _ _ _ _ H1).
  rewrite zlen_cons, Z.gtb_ltb. replace (1 + zlen bits - 1) with (zlen bits) by lia. cbv zeta.
  destruct (7 <? u) eqn:E7; bool_to_prop.
  { apply exact_fail; [set_solver|]. intros q' bs (u' & bits' & [= <- <-] & ? & _). lia. }
  apply exact_advance, exact_pos, exact_advance, exact_pos.
  destruct (start + 1 + zlen bits =? end_) eqn:Ee; bool_to_prop; cbn [negb].
  - apply exact_done; [rewrite Ee; eauto 9|]. intros q' bs (u' & bits' & [= <- <-] & _ & _ & -> & ->). done.
  - apply exact_fail; [set_solver|]. intros q' bs (u' & bits' & [= <- <-] & _ & ? & _). lia.
Qed.

Lemma get_bitstring_null_exact :
  exact (mbedtls_asn1_get_bitstring_null buf end_) q value_errors
    (fun q' n => exists start bits, element_at q MBEDTLS_ASN1_BIT_STRING start (0 :: bits) /\
       start + 1 + zlen bits <= end_ /\ q' = start + 1 /\ n = zlen bits).
Proof.
  unfold mbedtls_asn1_get_bitstring_null. eapply exact_iff; [|apply (exact_element _ _ _ (fun start c q' n =>
    exists bits, c = 0 :: bits /\ q' = start + 1 /\ n = zlen bits)); [set_solver|]].
  { intros q' n. split.
    - intros (start & c & ? & Hl & bits & -> & ?). rewrite zlen_cons in Hl. exists start, bits. split_and!; naive_solver lia.
    - intros (start & bits & ? & ? & ?). exists start, (0 :: bits). rewrite zlen_cons. split_and!; [done|lia|]. eauto. }
  intros start c He Hl. destruct (element_has _ _ _ _ He) as (H0 & _ & Hh).
  destruct (zlen c =? 0) eqn:E; bool_to_prop.
  { apply exact_fail; [set_solver|]. intros q' n (bits & -> & _). rewrite zlen_cons in E. pose proof (zlen_nonneg bits). lia. }
  destruct c as [|b bits]; [done|]. pose proof Hh as [H1 _]%has_cons. apply (exact_peek _ _ _ _ _ _ H1).
  destruct (b =? 0) eqn:Eb; bool_to_prop; cbn [negb].
  - subst b. apply exact_advance, exact_done; [exists bits; rewrite zlen_cons; split_and!; done || lia|].
    intros q' n (bits' & [= <-] & -> & ->). rewrite zlen_cons. split; [done|lia].
  - apply exact_fail; [set_solver|]. by intros q' n (bits' & [= -> _] & _).
Qed.
End values.

(** ** Sequences *)

(** The elements that follow each other from [q] up to [end_]. *)
Inductive items (end_ : Z) : Z -> list mbedtls_asn1_buf -> Prop :=
  | items_nil : items end_ end_ []
  | items_cons q t start c l :
      element_at q t start c -> start + zlen c <= end_ -> items end_ (start + zlen c) l ->
      items end_ q (Asn1Buf t (zlen c) (Some start) :: l).

Section visit.
Context {S : Type} (cb : option (S -> Z -> Z -> Z -> S * Z)) (must_mask must_val may_mask may_val : Z).

(** The callback runs over the elements from left to right and stops at the first that has
    not the required tag, or for which it reports an error. *)
Fixpoint visit (l : list mbedtls_asn1_buf) (s : S) : S * Z :=
  match l with
  | [] => (s, 0)
  | x :: l =>
      if negb (Z.land (tag x) must_mask =? must_val) then (s, MBEDTLS_ERR_ASN1_UNEXPECTED_TAG) else
      let '(s, ret) :=
        if Z.land (tag x) may_mask =? may_val then
          match cb with Some cb => cb s (tag x) (default 0 (p x)) (len x) | None => (s, 0) end
        else (s, 0) in
      if negb (ret =? 0) then (s, ret) else visit l s
  end.

Notation loop := (traverse_loop buf cb must_mask must_val may_mask may_val).

Lemma element_parts q t start c :
  element_at q t start c -> load8 buf q = Done t /\
  exists hdr, len_form hdr (zlen c) /\ has buf (q + 1) hdr /\ start = q + 1 + zlen hdr.
Proof.
  intros (hdr & Hf & Hh & ->). apply has_cons in Hh as [H1 H2]. apply has_app in H2 as [H2 _].
  split; [|eauto]. pose proof (peek_has _ _ _ H1) as P. unfold peek in P. apply bind_Done_inv in P as (b & -> & P).
  by injection P as ->.
Qed.

Lemma items_le end_ q l : items end_ q l -> q <= end_.
Proof.
  induction 1 as [|q t start c l He Hl _ IH]; [lia|]. apply element_has in He as (_ & ? & _).
  pose proof (zlen_nonneg c). lia.
Qed.

(** On a well-formed sequence the loop is the visit of its elements. *)
Lemma traverse_loop_ok end_ q l : end_ <= zlen buf -> items end_ q l ->
  forall fuel s, 0 <= q -> end_ - q < Z.of_nat fuel ->
  loop fuel end_ q s = Done (let '(s', ret) := visit l s in (s', if ret =? 0 then inr end_ else inl ret)).
Proof.
  intros Hend. induction 1 as [|q t start c l He Hl Hi IH]; intros fuel s Hq Hf.
  { destruct fuel as [|fuel]; [lia|]. cbn [traverse_loop visit]. by rewrite Z.ltb_irrefl. }
  pose proof (items_le _ _ _ (items_cons _ _ _ _ _ _ He Hl Hi)) as Hle.
  destruct fuel as [|fuel]; [lia|]. cbn [traverse_loop visit].
  pose proof (element_parts _ _ _ _ He) as (Et & hdr & Hlf & Hh & ->). pose proof (zlen_nonneg hdr). pose proof (zlen_nonneg c).
  rewrite (proj2 (Z.ltb_lt q end_)) by lia. rewrite Et, bind_Done. cbn [tag len p default].
  destruct (negb _) eqn:Em; [done|].
  rewrite (get_len_ok end_ (q + 1) hdr (zlen c)), bind_Done by (done || lia).
  destruct (if Z.land t may_mask =? may_val then _ else _) as [s' ret]. destruct (ret =? 0) eqn:Er; cbn [negb].
  - apply IH; lia.
  - by rewrite Er.
Qed.

(** Whatever is in the buffer, the loop ends; it reports success only for a well-formed
    sequence all of which was visited. *)
Lemma traverse_loop_total end_ : end_ <= zlen buf -> forall fuel q s, 0 <= q <= end_ -> end_ - q < Z.of_nat fuel ->
  exists s' r, loop fuel end_ q s = Done (s', r) /\
    forall q', r = inr q' -> q' = end_ /\ exists l, items end_ q l /\ visit l s = (s', 0).
Proof.
  intros Hend. induction fuel as [|fuel IH]; intros q s Hq Hf; [lia|]. cbn [traverse_loop].
  destruct (q <? end_) eqn:E; bool_to_prop.
  2: { assert (q = end_) as -> by lia. exists s, (inr end_). split; [done|]. intros q' [= <-]. split; [done|].
       exists []. split; [constructor|done]. }
  destruct (byte_at q ltac:(lia)) as (t & Bt & Ht). pose proof (peek_has _ _ _ Ht) as P. unfold peek in P.
  apply bind_Done_inv in P as (b & Eb & P). injection P as ->. rewrite Eb, bind_Done. clear Eb.
  destruct (negb (Z.land t must_mask =? must_val)) eqn:Em; [by eexists _, _|].
  pose proof (get_len_total end_ (q + 1) ltac:(lia) Hend) as G. unfold outcome_of in G.
  destruct (mbedtls_asn1_get_len buf end_ (q + 1)) as [[e|[q1 n]]| |]; try done; [by eexists _, _|].
  destruct G as (hdr & Hlf & Hh & -> & Hn). rewrite bind_Done. pose proof (zlen_nonneg hdr).
  pose proof (len_form_nonneg _ _ Hlf) as Hn0.
  set (call := if Z.land t may_mask =? may_val then _ else _). destruct call as [s1 ret] eqn:Ec. unfold call in Ec.
  destruct (ret =? 0) eqn:Er; cbn [negb]; [|by eexists _, _]. bool_to_prop. subst ret.
  destruct (IH (q + 1 + zlen hdr + n) s1) as (s' & r & -> & Hr); [lia..|]. exists s', r. split; [done|].
  intros q' ->. destruct (Hr q' eq_refl) as (-> & l & Hi & Hv). split; [done|].
  pose proof (has_slice buf (q + 1 + zlen hdr) n ltac:(lia) Hn0 ltac:(lia)) as Hc.
  set (content := ztake n _) in Hc. assert (zlen content = n) as Lc.
  { unfold content. rewrite zlen_ztake; [done|]. rewrite zlen_zdrop; lia. }
  exists (Asn1Buf t n (Some (q + 1 + zlen hdr)) :: l). split.
  - rewrite <- Lc. constructor; [|lia|by rewrite Lc]. exists hdr. rewrite Lc. split_and!; [done| |done].
    apply has_cons. split; [done|]. apply has_app. by split.
  - cbn [visit tag len p from_option id]. by rewrite Em, Ec, Z.eqb_refl.
Qed.
End visit.

(** ** Sequences of one type *)

Lemma element_tag q t start c : element_at q t start c -> is_byte t.
Proof.
  intros (hdr & _ & Hh & _). apply has_cons in Hh as [Hh _]. apply has_is_bytes in Hh; [|done].
  by apply Forall_cons in Hh as [? _].
Qed.

Lemma items_filled end_ q l : items end_ q l -> Forall (fun x => is_byte (tag x) /\ is_Some (p x)) l.
Proof. induction 1 as [|q t start c l He _ _ IH]; constructor; [|done]. split; [by eapply element_tag|done]. Qed.

Lemma land_ff t : is_byte t -> Z.land t 0xFF = t.
Proof. by rewrite <- is_byte_land. Qed.

Notation visit_seq t := (visit (Some asn1_get_sequence_of_cb) 0xFF t 0 0).

Lemma last_filled (pre : list mbedtls_asn1_buf) x : p (List.last (pre ++ [x]) zero_buf) = p x.
Proof. by rewrite List.last_last. Qed.

(** Elements with the right tag are appended, one allocation each. *)
Lemma visit_seq_ok t l : forall pre x rest,
  Forall (fun y => tag y = t /\ is_byte (tag y) /\ is_Some (p y)) (x :: l) ->
  visit_seq t l (SeqCtx (pre ++ [x]) (replicate (length l) true ++ rest)) = (SeqCtx (pre ++ x :: l) rest, 0).
Proof.
  induction l as [|y l IH]; intros pre x rest H; cbn [visit length replicate app]; [done|].
  apply Forall_cons in H as [(Hx & _ & [px Ex]) Hl]. pose proof Hl as [(Hy & By & [py Ey]) _]%Forall_cons.
  rewrite land_ff, Hy, Z.eqb_refl by done. cbn [negb]. rewrite Z.land_0_r. cbn [Z.eqb].
  unfold asn1_get_sequence_of_cb at 1. cbn [nodes allocs]. rewrite last_filled, Ex. cbn [negb Z.eqb].
  replace (Asn1Buf t (len y) (Some (default 0 (p y)))) with y by (destruct y; cbn [p tag] in *; by subst).
  rewrite IH by done. by rewrite <- app_assoc.
Qed.

Lemma visit_seq_inv t l : forall pre x a s',
  is_Some (p x) -> Forall (fun y => is_byte (tag y) /\ is_Some (p y)) l ->
  visit_seq t l (SeqCtx (pre ++ [x]) a) = (s', 0) -> Forall (fun y => tag y = t) l /\ nodes s' = pre ++ x :: l.
Proof.
  induction l as [|y l IH]; intros pre x a s' [px Ex] H; cbn [visit]; [by intros [= <-]|].
  pose proof H as [(By & [py Ey]) Hl]%Forall_cons. rewrite land_ff by done.
  destruct (tag y =? t) eqn:E; bool_to_prop; cbn [negb]; [|by intros [= _ ?]].
  rewrite Z.land_0_r. cbn [Z.eqb]. unfold asn1_get_sequence_of_cb at 1. cbn [nodes allocs]. rewrite last_filled, Ex.
  destruct a as [|[] a]; try (by intros [= _ ?]). cbn [negb Z.eqb].
  replace (Asn1Buf (tag y) (len y) (Some (default 0 (p y)))) with y by (destruct y; cbn [p] in Ey; by subst).
  intros Hv. apply IH in Hv as [H1 H2]; [|by rewrite Ey|done]. split; [by constructor|].
  by rewrite H2, <- app_assoc.
Qed.

(** The list of an empty sequence is one empty node. *)
Definition seq_nodes (l : list mbedtls_asn1_buf) : list mbedtls_asn1_buf :=
  match l with [] => [zero_buf] | _ => l end.

(** A [SEQUENCE OF] that ends at [end_], and its elements. *)
Definition sequence_of (q t end_ : Z) (l : list mbedtls_asn1_buf) : Prop :=
  exists start c, element_at q 0x30 start c /\ start + zlen c = end_ /\ items end_ start l /\
    Forall (fun x => tag x = t) l.

Lemma visit_first t x l a :
  is_byte (tag x) -> is_Some (p x) -> tag x = t ->
  visit_seq t (x :: l) (SeqCtx [zero_buf] a) = visit_seq t l (SeqCtx [x] a).
Proof.
  intros Bx [px Ex] Ht. cbn [visit]. rewrite land_ff, Ht, Z.eqb_refl by done. cbn [negb]. rewrite Z.land_0_r. cbn [Z.eqb].
  unfold asn1_get_sequence_of_cb at 1. cbn [nodes List.last p zero_buf negb Z.eqb].
  replace (Asn1Buf t (len x) (Some (default 0 (p x)))) with x by (destruct x; cbn [p tag] in *; by subst). done.
Qed.

Lemma get_sequence_of_ok q t end_ cur l rest :
  0 <= q -> end_ <= zlen buf -> is_byte t -> sequence_of q t end_ l ->
  mbedtls_asn1_get_sequence_of buf end_ t q cur (replicate (length l - 1) true ++ rest) =
    Done (SeqCtx (seq_nodes l) rest, inr end_).
Proof.
  intros Hq Hend Bt (start & c & He & Hl & Hi & Ht). unfold mbedtls_asn1_get_sequence_of, mbedtls_asn1_traverse_sequence_of.
  destruct (get_tag_exact end_ 0x30 q Hq Hend) as [_ Hok].
  change (Z.lor MBEDTLS_ASN1_CONSTRUCTED MBEDTLS_ASN1_SEQUENCE) with 0x30.
  rewrite (Hok start (zlen c)), bind_Done by (exists c; split_and!; done || lia). rewrite Hl, Z.eqb_refl. cbn [negb].
  destruct (element_has _ _ _ _ He) as (Hs & _). pose proof (zlen_nonneg c). rewrite u8_id by done.
  rewrite (traverse_loop_ok _ _ _ _ _ end_ start l Hend Hi) by lia. pose proof (items_filled _ _ _ Hi) as Hf.
  destruct l as [|x l]; [done|]. apply Forall_cons in Ht as [Hx Ht]. apply Forall_cons in Hf as [[Bx Px] Hf].
  rewrite visit_first by done. cbn [length Nat.sub]. rewrite Nat.sub_0_r.
  pose proof (visit_seq_ok t l [] x rest) as V. cbn [app] in V. rewrite V; [done|].
  constructor; [done|]. apply Forall_and. by split.
Qed.

Lemma get_sequence_of_total q t end_ cur answers :
  0 <= q -> end_ <= zlen buf -> is_byte t ->
  exists ctx r, mbedtls_asn1_get_sequence_of buf end_ t q cur answers = Done (ctx, r) /\
    forall q', r = inr q' -> q' = end_ /\ exists l, sequence_of q t end_ l /\ nodes ctx = seq_nodes l.
Proof.
  intros Hq Hend Bt. unfold mbedtls_asn1_get_sequence_of, mbedtls_asn1_traverse_sequence_of.
  change (Z.lor MBEDTLS_ASN1_CONSTRUCTED MBEDTLS_ASN1_SEQUENCE) with 0x30. rewrite u8_id by done.
  destruct (get_tag_exact end_ 0x30 q Hq Hend) as [Ht _]. unfold outcome_of in Ht.
  destruct (mbedtls_asn1_get_tag buf end_ 0x30 q) as [[e|[start n]]| |]; try done; [by eexists _, _|].
  destruct Ht as (c & -> & He & Hl). rewrite bind_Done. destruct (element_has _ _ _ _ He) as (Hs & _).
  pose proof (zlen_nonneg c). destruct (start + zlen c =? end_) eqn:E; bool_to_prop; cbn [negb]; [|by eexists _, _].
  destruct (traverse_loop_total (Some asn1_get_sequence_of_cb) 0xFF t 0 0 end_ Hend
    (S (Z.to_nat (end_ - start))) start (SeqCtx [zero_buf] answers)) as (ctx & r & -> & Hr); [lia..|].
  exists ctx, r. split; [done|]. intros q' Eq. destruct (Hr q' Eq) as (-> & l & Hi & Hv). split; [done|]. exists l.
  enough (Forall (fun x => tag x = t) l /\ nodes ctx = seq_nodes l) as [H1 H2].
  { split; [|done]. exists start, c. done. }
  pose proof (items_filled _ _ _ Hi) as Hf. destruct l as [|x l]; [cbn [visit] in Hv; by injection Hv as <-|].
  apply Forall_cons in Hf as [[Bx Px] Hf].
  assert (tag x = t) as Hx.
  { cbn [visit] in Hv. rewrite land_ff in Hv by done. destruct (tag x =? t) eqn:Ex; bool_to_prop; [done|].
    cbn [negb] in Hv. by injection Hv as _ ?. }
  rewrite visit_first in Hv by done. apply (visit_seq_inv t l []) in Hv as [H1 H2]; [|done|done].
  split; [by constructor|done].
Qed.

(** ** Algorithm identifiers *)

(** What follows the OID in the sequence that ends at [e]: nothing, or one element. *)
Definition parameters (r e : Z) (params : mbedtls_asn1_buf) : Prop :=
  (r = e /\ params = zero_buf) \/
  exists t start c, element_at r t start c /\ start + zlen c = e /\ params = Asn1Buf t (zlen c) (Some start).

Definition algorithm (q end_ q' : Z) (alg params : mbedtls_asn1_buf) : Prop :=
  exists start c r oid, element_at q 0x30 start c /\ q' = start + zlen c /\ q' <= end_ /\
    element_at start MBEDTLS_ASN1_OID r oid /\ r + zlen oid <= q' /\
    alg = Asn1Buf MBEDTLS_ASN1_OID (zlen oid) (Some r) /\ parameters (r + zlen oid) q' params.

(** The end of an algorithm identifier, once its OID is read. *)
Lemma parameters_exact (alg : mbedtls_asn1_buf) r e :
  0 <= r <= e -> e <= zlen buf ->
  exact (p ← pos;
         if p =? e then mret (alg, zero_buf) else
         params_tag ← peek buf;
         advance 1 ;;
         params_len ← mbedtls_asn1_get_len buf e;
         params_p ← pos;
         advance params_len ;;
         p ← pos;
         if negb (p =? e) then fail MBEDTLS_ERR_ASN1_LENGTH_MISMATCH else
         mret (alg, Asn1Buf params_tag params_len (Some params_p))) r value_errors
    (fun q' (a : mbedtls_asn1_buf * mbedtls_asn1_buf) => q' = e /\ a.1 = alg /\ parameters r e a.2).
Proof.
  intros Hr He. apply exact_pos. destruct (r =? e) eqn:E; bool_to_prop.
  { subst r. apply exact_done; [split_and!; [done..|by left]|]. intros q' [a1 a2] (-> & <- & Hp). split; [done|].
    cbn [fst snd] in *. destruct Hp as [[_ ->]|(t & start & c & Hel & Hc & _)]; [done|].
    apply element_has in Hel as (_ & ? & _). pose proof (zlen_nonneg c). lia. }
  destruct (byte_at r ltac:(lia)) as (t & Bt & Ht). apply (exact_peek _ _ _ _ _ _ Ht), exact_advance.
  eapply exact_seq; [eapply exact_errs; [|apply get_len_exact; lia]; set_solver| |].
  - intros q2 [a1 a2] (_ & _ & [[-> _]|(t' & start & c & Hel & Hc & _)]); [done|].
    destruct Hel as (hdr & Hf & Hh & ->). apply has_cons in Hh as [_ Hh]. apply has_app in Hh as [Hh _].
    exists (r + 1 + zlen hdr), (zlen c), hdr. split_and!; done || lia.
  - intros q1 n (hdr & Hf & Hh & -> & Hn). apply exact_pos, exact_advance, exact_pos.
    pose proof (len_form_nonneg _ _ Hf) as Hn0. pose proof (zlen_nonneg hdr).
    pose proof (has_slice buf (r + 1 + zlen hdr) n ltac:(lia) Hn0 ltac:(lia)) as Hc.
    set (content := ztake n _) in Hc. assert (zlen content = n) as Lc.
    { unfold content. rewrite zlen_ztake; [done|]. rewrite zlen_zdrop; lia. }
    assert (element_at r t (r + 1 + zlen hdr) content) as Hel.
    { exists hdr. rewrite Lc. split_and!; [done| |done]. apply has_cons. split; [done|]. apply has_app. by split. }
    assert (forall params, parameters r e params ->
      r + 1 + zlen hdr + n = e /\ params = Asn1Buf t n (Some (r + 1 + zlen hdr))) as Hu.
    { intros params [[-> _]|(t' & start & c & Hel' & Hc' & ->)]; [done|].
      destruct (element_inj _ _ _ _ _ _ _ Hel Hel') as (<- & <- & <-). by rewrite Lc in *. }
    destruct (r + 1 + zlen hdr + n =? e) eqn:Ee; bool_to_prop; cbn [negb].
    + apply exact_done.
      * split_and!; [done|done|]. right. exists t, (r + 1 + zlen hdr), content. rewrite Lc. done.
      * intros q' [a1 a2] (-> & <- & Hp). cbn [fst snd] in *. destruct (Hu _ Hp) as [_ ->]. done.
    + apply exact_fail; [set_solver|]. intros q' a (_ & _ & Hp). by destruct (Hu _ Hp).
Qed.

Lemma get_alg_exact end_ q :
  0 <= q -> end_ <= zlen buf ->
  exact (mbedtls_asn1_get_alg buf end_) q value_errors (fun q' a => algorithm q end_ q' a.1 a.2).
Proof.
  intros Hq Hend. unfold mbedtls_asn1_get_alg.
  change (Z.lor MBEDTLS_ASN1_CONSTRUCTED MBEDTLS_ASN1_SEQUENCE) with 0x30.
  eapply exact_iff; [|apply (exact_element end_ q Hq Hend 0x30 value_errors _ (fun start c q' a =>
    exists r oid, element_at start MBEDTLS_ASN1_OID r oid /\ r + zlen oid <= start + zlen c /\
      q' = start + zlen c /\ a.1 = Asn1Buf MBEDTLS_ASN1_OID (zlen oid) (Some r) /\
      parameters (r + zlen oid) (start + zlen c) a.2)); [set_solver|]].
  { intros q' a. split.
    - intros (start & c & ? & ? & r & oid & ? & ? & -> & ? & ?). exists start, c, r, oid. split_and!; done.
    - intros (start & c & r & oid & ? & -> & ? & ? & ? & ? & ?). exists start, c. split_and!; [done..|]. eauto 9. }
  intros start c He Hl. destruct (element_has _ _ _ _ He) as (H0 & _ & _). pose proof (zlen_nonneg c).
  apply exact_pos. destruct (end_ - start <? 1) eqn:E; bool_to_prop.
  { apply exact_fail; [set_solver|]. intros q' a (r & oid & Ho & Hr & _). apply element_has in Ho as (_ & ? & _).
    pose proof (zlen_nonneg oid). lia. }
  destruct (byte_at start ltac:(lia)) as (b & Bb & Hb1). apply (exact_peek _ _ _ _ _ _ Hb1). cbv zeta.
  eapply exact_iff; [|apply (exact_element (start + zlen c) start H0 ltac:(lia) MBEDTLS_ASN1_OID value_errors _
    (fun r oid q' a => q' = start + zlen c /\ a.1 = Asn1Buf MBEDTLS_ASN1_OID (zlen oid) (Some r) /\
      parameters (r + zlen oid) (start + zlen c) a.2)); [set_solver|]].
  { done. }
  intros r oid Ho Hr. apply exact_pos, exact_advance. assert (b = MBEDTLS_ASN1_OID) as ->.
  { destruct Ho as (hdr & _ & Hh & _). apply has_cons in Hh as [Hh _].
    pose proof (has_inj _ _ _ _ Hb1 Hh eq_refl) as Eb. by injection Eb. }
  destruct (element_has _ _ _ _ Ho) as (Hr0 & _ & _). pose proof (zlen_nonneg oid).
  apply (parameters_exact (Asn1Buf MBEDTLS_ASN1_OID (zlen oid) (Some r)) (r + zlen oid) (start + zlen c)); lia.
Qed.
End lengths.

(** ** Results *)

(** C16.  Reading a tag and a length accepts exactly the elements with that tag whose content
    ends inside [end], in every form of length of up to four bytes, and gives the offset
    and the length of the content; otherwise it reports one of three errors.  It never
    reads at or behind [end]. *)
Theorem asn1_get_tag_exact buf end_ t q :
  is_bytes buf -> zlen buf < 2 ^ 63 -> 0 <= q -> end_ <= zlen buf ->
  exact (mbedtls_asn1_get_tag buf end_ t) q
    [MBEDTLS_ERR_ASN1_UNEXPECTED_TAG; MBEDTLS_ERR_ASN1_OUT_OF_DATA; MBEDTLS_ERR_ASN1_INVALID_LENGTH]
    (fun start n => exists content, n = zlen content /\ element_at buf q t start content /\ start + n <= end_).
Proof. intros Hb Hm Hq He. by apply get_tag_exact. Qed.

(** An element in the long form of length, inside its buffer. *)
Lemma asn1_get_tag_exact_witness :
  mbedtls_asn1_get_tag [9; 4; 0x82; 0; 2; 7; 8; 9] 8 4 1 = Done (inr (5, 2)).
Proof.
  destruct (asn1_get_tag_exact [9; 4; 0x82; 0; 2; 7; 8; 9] 8 4 1) as [_ H].
  - apply (bool_decide_unpack _). vm_compute. exact I.
  - vm_compute. reflexivity.
  - lia.
  - vm_compute. discriminate.
  - apply H. exists [7; 8]. split_and!; [reflexivity| |lia]. exists [0x82; 0; 2]. split_and!; [|by split|reflexivity].
    apply (long_form [0; 2]); [vm_compute; split; discriminate|]. apply (bool_decide_unpack _). vm_compute. exact I.
Defined.

(** The readers of values accept exactly the well-formed values: a BOOLEAN of one byte; an
    INTEGER or ENUMERATED that is not negative and fits an [int], with any number of leading
    zeros, read without a signed overflow; a BIT STRING with at most seven unused bits that
    ends at [end]; a BIT STRING without unused bits. *)
Theorem asn1_values_exact buf end_ q :
  is_bytes buf -> zlen buf < 2 ^ 63 -> 0 <= q -> end_ <= zlen buf ->
  exact (mbedtls_asn1_get_bool buf end_) q tag_errors
    (fun q' v => exists start b, element_at buf q MBEDTLS_ASN1_BOOLEAN start [b] /\ start + 1 <= end_ /\
       q' = start + 1 /\ v = if b =? 0 then 0 else 1) /\
  (forall t, exact (asn1_get_tagged_int buf end_ t) q tag_errors
    (fun q' v => exists start c, element_at buf q t start c /\ start + zlen c <= end_ /\
       c <> [] /\ List.hd 0 c < 128 /\ be c < 2 ^ 31 /\ q' = start + zlen c /\ v = be c)) /\
  exact (mbedtls_asn1_get_bitstring buf end_) q value_errors
    (fun q' bs => exists start u bits, element_at buf q MBEDTLS_ASN1_BIT_STRING start (u :: bits) /\ u <= 7 /\
       start + 1 + zlen bits = end_ /\ q' = end_ /\ bs = Bitstring (zlen bits) u (start + 1)) /\
  exact (mbedtls_asn1_get_bitstring_null buf end_) q value_errors
    (fun q' n => exists start bits, element_at buf q MBEDTLS_ASN1_BIT_STRING start (0 :: bits) /\
       start + 1 + zlen bits <= end_ /\ q' = start + 1 /\ n = zlen bits).
Proof.
  intros Hb Hm Hq He. split_and!; [by apply get_bool_exact|intros t; by apply get_tagged_int_exact|
    by apply get_bitstring_exact|by apply get_bitstring_null_exact].
Qed.

Lemma asn1_values_exact_witness :
  mbedtls_asn1_get_int [2; 3; 0; 1; 0xff] 5 0 = Done (inr (5, 511)).
Proof.
  destruct (asn1_values_exact [2; 3; 0; 1; 0xff] 5 0) as (_ & H & _).
  - apply (bool_decide_unpack _). vm_compute. exact I.
  - vm_compute. reflexivity.
  - lia.
  - vm_compute. discriminate.
  - apply (H MBEDTLS_ASN1_INTEGER). exists 2, [0; 1; 0xff]. split_and!; try (vm_compute; congruence); try reflexivity.
    exists [3]. split_and!; [|by split|reflexivity]. apply (short_form 3). lia.
Defined.

(** A [SEQUENCE OF] is split into its elements: the code succeeds only when the sequence
    ends at [end] and is made of elements with the required tag up to there, and the list
    then holds their tags, offsets and lengths in order (one empty node when there is
    none); for such a sequence it does succeed when the allocations do.  The traversal
    ends for every input. *)
Theorem asn1_sequence_exact buf end_ t q cur answers :
  is_bytes buf -> zlen buf < 2 ^ 63 -> 0 <= q -> end_ <= zlen buf -> is_byte t ->
  (exists ctx r, mbedtls_asn1_get_sequence_of buf end_ t q cur answers = Done (ctx, r) /\
     forall q', r = inr q' -> q' = end_ /\ exists l, sequence_of buf q t end_ l /\ nodes ctx = seq_nodes l) /\
  (forall l rest, sequence_of buf q t end_ l -> answers = replicate (length l - 1) true ++ rest ->
     mbedtls_asn1_get_sequence_of buf end_ t q cur answers = Done (SeqCtx (seq_nodes l) rest, inr end_)).
Proof.
  intros Hb Hm Hq He Ht. split; [by apply get_sequence_of_total|]. intros l rest Hs ->. by apply get_sequence_of_ok.
Qed.

Lemma asn1_sequence_exact_witness :
  exists ctx r, mbedtls_asn1_get_sequence_of [0x30; 6; 2; 1; 7; 2; 1; 9] 8 2 0 zero_buf [true] = Done (ctx, r) /\
    nodes ctx = [Asn1Buf 2 1 (Some 4); Asn1Buf 2 1 (Some 7)].
Proof.
  destruct (asn1_sequence_exact [0x30; 6; 2; 1; 7; 2; 1; 9] 8 2 0 zero_buf [true]) as [(ctx & r & E & _) _].
  - apply (bool_decide_unpack _). vm_compute. exact I.
  - vm_compute. reflexivity.
  - lia.
  - vm_compute. discriminate.
  - vm_compute. split; discriminate || reflexivity.
  - exists ctx, r. split; [exact E|]. revert E. vm_compute. intros [= <- _]. reflexivity.
Defined.

(** An algorithm identifier is accepted exactly when it is a sequence of an OID and at most
    one further element that fills the sequence; the structures describe both. *)
Theorem asn1_alg_exact buf end_ q :
  is_bytes buf -> zlen buf < 2 ^ 63 -> 0 <= q -> end_ <= zlen buf ->
  exact (mbedtls_asn1_get_alg buf end_) q value_errors (fun q' a => algorithm buf q end_ q' a.1 a.2).
Proof. intros Hb Hm Hq He. by apply get_alg_exact. Qed.

Lemma asn1_alg_exact_witness :
  outcome_of value_errors (fun q' a => algorithm [0x30; 5; 6; 1; 42; 5; 0] 0 7 q' a.1 a.2)
    (mbedtls_asn1_get_alg [0x30; 5; 6; 1; 42; 5; 0] 7 0).
Proof.
  apply (asn1_alg_exact [0x30; 5; 6; 1; 42; 5; 0] 7 0).
  - apply (bool_decide_unpack _). vm_compute. exact I.
  - vm_compute. reflexivity.
  - lia.
  - vm_compute. discriminate.
Defined.

(** The head node is cleared even when the sequence is empty. *)
Example sequence_of_empty cur answers :
  mbedtls_asn1_get_sequence_of [0x30; 0] 2 2 0 cur answers = Done (SeqCtx [zero_buf] answers, inr 2).
Proof. reflexivity. Qed.
