(* ===== verification/Asn1Write.v ===== *)
(** * ASN.1 writer of mbedTLS

    [src/internal/mbedtls/asn1write.c]: the functions that write DER backwards into a
    buffer, moving [*p] towards [start], and the list of named data.  The theorems show
    that each function writes exactly the DER encoding of its value in front of [*p], or
    reports that there is no room and changes nothing outside the free part of the buffer,
    and that the parser of [Asn1Parse] reads the values back. *)

From stdpp Require Import sets.
From S2P Require Import Prelude Bytes Asn1Parse.

Definition MBEDTLS_ERR_ASN1_BUF_TOO_SMALL : Z := -0x6C.
Definition MBEDTLS_ASN1_OCTET_STRING : Z := 0x04.
Definition MBEDTLS_ASN1_UTF8_STRING : Z := 0x0C.
Definition MBEDTLS_ASN1_PRINTABLE_STRING : Z := 0x13.
Definition MBEDTLS_ASN1_IA5_STRING : Z := 0x16.

(** The buffer and the offset of [*p]. *)
Record wstate := W { wbuf : list Z; wp : Z }.

(** A writer returns a length, or a negative error code. *)
Definition writer : Type := wstate -> outcome (Z * wstate).

(** [*--( *p ) = b], and the copy of several bytes below [*p]. *)
Definition push (bs : list Z) (st : wstate) : outcome wstate :=
  b ← store (wbuf st) (wp st - zlen bs) bs;
  mret (W b (wp st - zlen bs)).

(** [MBEDTLS_ASN1_CHK_ADD]: returns an error, or goes on with the length added. *)
Definition chk_add (len : Z) (f : writer) (k : Z -> writer) : writer := fun st =>
  '(ret, st) ← f st;
  if ret <? 0 then mret (ret, st) else k (u64 (len + ret)) st.

Section write.
Context (start : Z).

(** ** Lengths and tags *)

(** The loop that counts the bytes of [l]; a [size_t] has eight. *)
Fixpoint count_bytes (fuel : nat) (l required : Z) : outcome Z :=
  if l =? 0 then mret required else
  match fuel with
  | O => NoFuel
  | S fuel => count_bytes fuel (Z.shiftr l 8) (required + 1)
  end.

Fixpoint push_len (fuel : nat) (len : Z) (st : wstate) : outcome wstate :=
  match fuel with
  | O => NoFuel
  | S fuel =>
      st ← push [Z.land len 0xff] st;
      let len := Z.shiftr len 8 in
      if len =? 0 then mret st else push_len fuel len st
  end.

Definition mbedtls_asn1_write_len (len : Z) : writer := fun st =>
  if len >? 0xFFFFFFFF then mret (MBEDTLS_ERR_ASN1_INVALID_LENGTH, st) else
  required ← (if len >=? 0x80 then count_bytes 8 len 1 else mret 1);
  if required >? wp st - start then mret (MBEDTLS_ERR_ASN1_BUF_TOO_SMALL, st) else
  st ← push_len 8 len st;
  st ← (if required >? 1 then push [u8 (0x80 + required - 1)] st else mret st);
  mret (required, st).

(** The tag is an [unsigned char]; two callers hand on an [int]. *)
Definition mbedtls_asn1_write_tag (tag : Z) : writer := fun st =>
  if wp st - start <? 1 then mret (MBEDTLS_ERR_ASN1_BUF_TOO_SMALL, st) else
  st ← push [u8 tag] st;
  mret (1, st).

Definition mbedtls_asn1_write_len_and_tag (len tag : Z) : writer :=
  chk_add len (mbedtls_asn1_write_len len) (fun len =>
  chk_add len (mbedtls_asn1_write_tag tag) (fun len st =>
  mret (to_int len, st))).

Definition mbedtls_asn1_write_raw_buffer (buf : list Z) (size : Z) : writer := fun st =>
  if (wp st <? start) || (u64 (wp st - start) <? size) then mret (MBEDTLS_ERR_ASN1_BUF_TOO_SMALL, st) else
  st ← (if negb (size =? 0) then bs ← load buf 0 size; push bs st else mret st);
  mret (to_int size, st).

(** ** Values *)

Definition mbedtls_asn1_write_null : writer := mbedtls_asn1_write_len_and_tag 0 MBEDTLS_ASN1_NULL.

Definition mbedtls_asn1_write_oid (oid : list Z) (oid_len : Z) : writer :=
  chk_add 0 (mbedtls_asn1_write_raw_buffer oid oid_len) (fun len =>
  mbedtls_asn1_write_len_and_tag len MBEDTLS_ASN1_OID).

Definition mbedtls_asn1_write_algorithm_identifier_ext (oid : list Z) (oid_len par_len : Z) (has_par : bool)
    : writer :=
  let rest len :=
    chk_add len (mbedtls_asn1_write_oid oid oid_len) (fun len =>
    mbedtls_asn1_write_len_and_tag len (Z.lor MBEDTLS_ASN1_CONSTRUCTED MBEDTLS_ASN1_SEQUENCE)) in
  if has_par then
    if par_len =? 0 then chk_add 0 mbedtls_asn1_write_null rest else rest (u64 (0 + par_len))
  else rest 0.

Definition mbedtls_asn1_write_algorithm_identifier (oid : list Z) (oid_len par_len : Z) : writer :=
  mbedtls_asn1_write_algorithm_identifier_ext oid oid_len par_len true.

Definition mbedtls_asn1_write_bool (boolean : Z) : writer := fun st =>
  if wp st - start <? 1 then mret (MBEDTLS_ERR_ASN1_BUF_TOO_SMALL, st) else
  st ← push [if negb (boolean =? 0) then 255 else 0] st;
  mbedtls_asn1_write_len_and_tag 1 MBEDTLS_ASN1_BOOLEAN st.

(** The digits of an integer: [None] when the room ends, else the length. *)
Fixpoint push_int (fuel : nat) (val len : Z) (st : wstate) : outcome (option Z * wstate) :=
  match fuel with
  | O => NoFuel
  | S fuel =>
      if wp st - start <? 1 then mret (None, st) else
      let len := len + 1 in
      st ← push [Z.land val 0xff] st;
      let val := Z.shiftr val 8 in
      if 0 <? val then push_int fuel val len st else mret (Some len, st)
  end.

Definition asn1_write_tagged_int (val tag : Z) : writer := fun st =>
  '(len, st) ← push_int 4 val 0 st;
  match len with
  | None => mret (MBEDTLS_ERR_ASN1_BUF_TOO_SMALL, st)
  | Some len =>
      b ← load8 (wbuf st) (wp st);
      if negb (Z.land b 0x80 =? 0) then
        if wp st - start <? 1 then mret (MBEDTLS_ERR_ASN1_BUF_TOO_SMALL, st) else
        st ← push [0] st;
        mbedtls_asn1_write_len_and_tag (len + 1) tag st
      else mbedtls_asn1_write_len_and_tag len tag st
  end.

Definition mbedtls_asn1_write_int (val : Z) : writer := asn1_write_tagged_int val MBEDTLS_ASN1_INTEGER.
Definition mbedtls_asn1_write_enum (val : Z) : writer := asn1_write_tagged_int val MBEDTLS_ASN1_ENUMERATED.

Definition mbedtls_asn1_write_tagged_string (tag : Z) (text : list Z) (text_len : Z) : writer :=
  chk_add 0 (mbedtls_asn1_write_raw_buffer text text_len) (fun len =>
  mbedtls_asn1_write_len_and_tag len tag).

Definition mbedtls_asn1_write_utf8_string (text : list Z) (text_len : Z) : writer :=
  mbedtls_asn1_write_tagged_string MBEDTLS_ASN1_UTF8_STRING text text_len.
Definition mbedtls_asn1_write_printable_string (text : list Z) (text_len : Z) : writer :=
  mbedtls_asn1_write_tagged_string MBEDTLS_ASN1_PRINTABLE_STRING text text_len.
Definition mbedtls_asn1_write_ia5_string (text : list Z) (text_len : Z) : writer :=
  mbedtls_asn1_write_tagged_string MBEDTLS_ASN1_IA5_STRING text text_len.

Definition mbedtls_asn1_write_octet_string (buf : list Z) (size : Z) : writer :=
  chk_add 0 (mbedtls_asn1_write_raw_buffer buf size) (fun len =>
  mbedtls_asn1_write_len_and_tag len MBEDTLS_ASN1_OCTET_STRING).

(** ** Bit strings *)

Definition mbedtls_asn1_write_bitstring (buf : list Z) (bits : Z) : writer := fun st =>
  let byte_len := u64 (bits + 7) / 8 in
  let unused_bits := u64 (byte_len * 8 - bits) in
  if (wp st <? start) || (u64 (wp st - start) <? u64 (byte_len + 1))
  then mret (MBEDTLS_ERR_ASN1_BUF_TOO_SMALL, st) else
  let len := u64 (byte_len + 1) in
  st ← (if 0 <? byte_len then
          let byte_len := byte_len - 1 in
          b ← load8 buf byte_len;
          st ← push [u8 (Z.land b (Z.lnot (Z.shiftl 1 unused_bits - 1)))] st;
          bs ← load buf 0 byte_len;
          push bs st
        else mret st);
  st ← push [u8 unused_bits] st;
  mbedtls_asn1_write_len_and_tag len MBEDTLS_ASN1_BIT_STRING st.

(** The loop over trailing zero bits; [cur_byte] is an offset, the result the bits left. *)
Fixpoint trim_bits (fuel : nat) (buf : list Z) (cur_byte shifted bits : Z) : outcome Z :=
  match fuel with
  | O => NoFuel
  | S fuel =>
      let bit := Z.land shifted 0x1 in
      let shifted := Z.shiftr shifted 1 in
      if negb (bit =? 0) then mret bits else
      let bits := bits - 1 in
      if bits =? 0 then mret bits else
      if bits mod 8 =? 0 then
        let cur_byte := cur_byte - 1 in
        shifted ← load8 buf cur_byte;
        trim_bits fuel buf cur_byte shifted bits
      else trim_bits fuel buf cur_byte shifted bits
  end.

Definition mbedtls_asn1_write_named_bitstring (buf : list Z) (bits : Z) : writer := fun st =>
  let byte_len := u64 (bits + 7) / 8 in
  let unused_bits := u64 (byte_len * 8 - bits) in
  bits ← (if negb (bits =? 0) then
            let cur_byte := byte_len - 1 in
            b ← load8 buf cur_byte;
            trim_bits (Z.to_nat bits) buf cur_byte (Z.shiftr b unused_bits) bits
          else mret 0);
  mbedtls_asn1_write_bitstring buf bits st.
End write.

(** ** DER *)

(** The digits of [n] to the base 256, without leading zeros. *)
Fixpoint base256 (fuel : nat) (n : Z) : list Z :=
  match fuel with
  | O => []
  | S fuel => if n =? 0 then [] else base256 fuel (n / 2 ^ 8) ++ [n mod 2 ^ 8]
  end.

Definition der_len (n : Z) : list Z :=
  if n <? 128 then [n] else let d := base256 8 n in 0x80 + zlen d :: d.

Definition tlv (t : Z) (content : list Z) : list Z := t :: der_len (zlen content) ++ content.

(** The content of a non-negative INTEGER: a zero in front when the sign bit would be set. *)
Definition der_int (v : Z) : list Z :=
  let d := if v =? 0 then [0] else base256 4 v in
  if List.hd 0 d <? 128 then d else 0 :: d.

(** The content of a BIT STRING of [bits] bits, the bits behind them zero. *)
Definition der_bits (buf : list Z) (bits : Z) : list Z :=
  let n := (bits + 7) / 8 in
  let unused := n * 8 - bits in
  unused :: if 0 <? n then ztake (n - 1) buf ++ [buf !!! Z.to_nat (n - 1) / 2 ^ unused * 2 ^ unused] else [].

Lemma be_snoc l x : be (l ++ [x]) = be l * 2 ^ 8 + x.
Proof. unfold be. by rewrite fold_left_app. Qed.

Lemma base256_bytes fuel : forall n, is_bytes (base256 fuel n).
Proof.
  induction fuel as [|fuel IH]; intros n; cbn [base256]; [constructor|]. split_if; [constructor|].
  apply is_bytes_app; [apply IH|]. repeat constructor; apply Z.mod_pos_bound; lia.
Qed.

Lemma pow256_S fuel : 2 ^ (8 * Z.of_nat (S fuel)) = 2 ^ 8 * 2 ^ (8 * Z.of_nat fuel).
Proof. rewrite <- Z.pow_add_r by lia. f_equal. lia. Qed.

Lemma base256_be fuel : forall n, 0 <= n < 2 ^ (8 * Z.of_nat fuel) -> be (base256 fuel n) = n.
Proof.
  induction fuel as [|fuel IH]; intros n Hn; cbn [base256].
  { change (2 ^ (8 * Z.of_nat 0)) with 1 in Hn. assert (n = 0) as -> by lia. done. }
  rewrite pow256_S in Hn. split_if; [by subst|].
  rewrite be_snoc, IH by (Z.div_mod_to_equations; lia). Z.div_mod_to_equations; lia.
Qed.

Lemma base256_length fuel : forall n k, 0 <= n < 2 ^ (8 * k) -> 0 <= k -> zlen (base256 fuel n) <= k.
Proof.
  induction fuel as [|fuel IH]; intros n k Hn Hk; cbn [base256]; [done|]. split_if; [done|].
  rewrite zlen_app, zlen_singleton. destruct (Z.eq_dec k 0) as [->|Hk0]; [change (2 ^ (8 * 0)) with 1 in Hn; lia|].
  assert (2 ^ (8 * k) = 2 ^ 8 * 2 ^ (8 * (k - 1))) as E by (rewrite <- Z.pow_add_r by lia; f_equal; lia).
  rewrite E in Hn. specialize (IH (n / 2 ^ 8) (k - 1)). assert (zlen (base256 fuel (n / 2 ^ 8)) <= k - 1); [|lia].
  apply IH; [Z.div_mod_to_equations; lia|lia].
Qed.

Lemma base256_nonempty fuel n : n <> 0 -> 1 <= zlen (base256 (S fuel) n).
Proof.
  intros Hn. cbn [base256]. rewrite (proj2 (Z.eqb_neq n 0)) by done. rewrite zlen_app, zlen_singleton.
  pose proof (zlen_nonneg (base256 fuel (n / 2 ^ 8))). lia.
Qed.

(** The lengths the writer produces are lengths the parser knows. *)
Lemma der_len_form n : 0 <= n < 2 ^ 32 -> len_form (der_len n) n.
Proof.
  intros Hn. unfold der_len. split_if; [constructor; lia|]. cbv zeta.
  rewrite <- (base256_be 8 n) at 3 by lia. apply long_form; [|apply base256_bytes].
  pose proof (base256_length 8 n 4 Hn). pose proof (base256_nonempty 7 n). lia.
Qed.

Lemma tlv_element buf q t c :
  zlen c < 2 ^ 32 -> has buf q (tlv t c) -> element_at buf q t (q + 1 + zlen (der_len (zlen c))) c.
Proof.
  intros Hc Hh. exists (der_len (zlen c)). split_and!; [|done|done]. apply der_len_form. pose proof (zlen_nonneg c). lia.
Qed.

(** ** Writing backwards *)

Definition prepend (st : wstate) (bs : list Z) : wstate :=
  W (splice (wbuf st) (wp st - zlen bs) bs) (wp st - zlen bs).

(** [start], [*p] and the end of the buffer are in order. *)
Definition valid (start : Z) (st : wstate) : Prop :=
  0 <= start <= wp st /\ wp st <= zlen (wbuf st) /\ zlen (wbuf st) < 2 ^ 31.

(** Nothing changed outside the part between [start] and [*p]. *)
Definition untouched (start : Z) (st st' : wstate) : Prop :=
  zlen (wbuf st') = zlen (wbuf st) /\ start <= wp st' <= wp st /\
  ztake start (wbuf st') = ztake start (wbuf st) /\ zdrop (wp st) (wbuf st') = zdrop (wp st) (wbuf st).

(** [f] writes [bs] and returns [n] more than their number, or reports that they do not fit. *)
Definition writes (start : Z) (f : writer) (n : Z) (bs : list Z) : Prop :=
  forall st, valid start st -> n + (wp st - start) < 2 ^ 31 ->
  if zlen bs <=? wp st - start then f st = Done (n + zlen bs, prepend st bs)
  else exists st', f st = Done (MBEDTLS_ERR_ASN1_BUF_TOO_SMALL, st') /\ untouched start st st'.

Lemma untouched_refl start st : valid start st -> untouched start st st.
Proof. intros (H1 & H2 & H3). split_and!; done || lia. Qed.

Lemma push_prepend st bs : zlen bs <= wp st <= zlen (wbuf st) -> push bs st = Done (prepend st bs).
Proof. intros H. unfold push. by rewrite store_splice by lia. Qed.

Lemma prepend_valid start st bs : valid start st -> zlen bs <= wp st - start -> valid start (prepend st bs).
Proof.
  intros (H1 & H2 & H3) Hb. pose proof (zlen_nonneg bs). unfold valid. cbn [prepend wbuf wp]. rewrite zlen_splice by lia. lia.
Qed.

Lemma prepend_untouched start st bs :
  valid start st -> zlen bs <= wp st - start -> untouched start st (prepend st bs).
Proof.
  intros (H1 & H2 & H3) Hb. pose proof (zlen_nonneg bs). unfold untouched. cbn [prepend wbuf wp].
  rewrite zlen_splice by lia. split_and!; [done|lia..| |].
  - unfold splice. rewrite ztake_app_l by (rewrite zlen_ztake; lia). by rewrite ztake_ztake by lia.
  - unfold splice. replace (wp st - zlen bs + zlen bs) with (wp st) by lia.
    rewrite zdrop_app_r by (rewrite zlen_ztake; lia). rewrite zlen_ztake by lia.
    replace (wp st - (wp st - zlen bs)) with (zlen bs) by lia.
    rewrite zdrop_app_r by lia. by rewrite Z.sub_diag, zdrop_0.
Qed.

Lemma prepend_prepend st a b :
  zlen b + zlen a <= wp st <= zlen (wbuf st) -> prepend (prepend st a) b = prepend st (b ++ a).
Proof.
  intros H. pose proof (zlen_nonneg a). pose proof (zlen_nonneg b). unfold prepend. cbn [wbuf wp]. rewrite zlen_app.
  replace (wp st - zlen a - zlen b) with (wp st - (zlen b + zlen a)) by lia. f_equal.
  replace (wp st - zlen a) with (wp st - (zlen b + zlen a) + zlen b) by lia. apply splice_before; lia.
Qed.

Lemma untouched_trans start st st1 st2 :
  valid start st -> untouched start st st1 -> untouched start st1 st2 -> untouched start st st2.
Proof.
  intros (V1 & V2 & _) (L1 & P1 & T1 & D1) (L2 & P2 & T2 & D2). split_and!; [congruence|lia..|congruence|].
  replace (wp st) with (wp st1 + (wp st - wp st1)) at 1 2 by lia.
  rewrite <- !zdrop_zdrop by lia. rewrite D2, !zdrop_zdrop by lia.
  by replace (wp st1 + (wp st - wp st1)) with (wp st) by lia.
Qed.

(** ** The parts *)

Lemma land_ff_mod n : Z.land n 0xff = n mod 2 ^ 8.
Proof. change 0xff with (Z.ones 8). by apply Z.land_ones. Qed.

Lemma shiftr_8 n : Z.shiftr n 8 = n / 2 ^ 8.
Proof. by apply Z.shiftr_div_pow2. Qed.

Lemma count_bytes_spec fuel : forall l required, 0 <= l < 2 ^ (8 * Z.of_nat fuel) ->
  count_bytes fuel l required = Done (required + zlen (base256 fuel l)).
Proof.
  induction fuel as [|fuel IH]; intros l required Hl; cbn [count_bytes base256].
  { change (2 ^ (8 * Z.of_nat 0)) with 1 in Hl. assert (l = 0) as -> by lia. cbn. by rewrite Z.add_0_r. }
  rewrite pow256_S in Hl. split_if; [by rewrite Z.add_0_r|].
  rewrite shiftr_8, IH by (Z.div_mod_to_equations; lia). rewrite zlen_app, zlen_singleton. f_equal. lia.
Qed.

Lemma push_len_step fuel n st :
  push_len (S fuel) n st =
    (st ← push [n mod 2 ^ 8] st; if n / 2 ^ 8 =? 0 then mret st else push_len fuel (n / 2 ^ 8) st).
Proof. rewrite <- land_ff_mod, <- shiftr_8. reflexivity. Qed.

Lemma push_len_spec fuel : forall n st, 0 <= n < 2 ^ (8 * Z.of_nat (S fuel)) ->
  let d := if n =? 0 then [0] else base256 (S fuel) n in
  zlen d <= wp st <= zlen (wbuf st) -> push_len (S fuel) n st = Done (prepend st d).
Proof.
  induction fuel as [|fuel IH]; intros n st Hn; cbn zeta; rewrite push_len_step.
  - intros Hd. rewrite Z.div_small by lia. cbn [Z.eqb].
    assert ((if n =? 0 then [0] else base256 1 n) = [n mod 2 ^ 8]) as E.
    { split_if; [by subst|]. cbn [base256]. by rewrite (proj2 (Z.eqb_neq n 0)) by done. }
    rewrite E in *. by rewrite push_prepend, bind_Done by done.
  - intros Hd. rewrite pow256_S in Hn.
    assert ((if n =? 0 then [0] else base256 (S (S fuel)) n) =
      (if n / 2 ^ 8 =? 0 then [] else base256 (S fuel) (n / 2 ^ 8)) ++ [n mod 2 ^ 8]) as E.
    { destruct (n =? 0) eqn:E0; bool_to_prop; [by subst|].
      change (base256 (S (S fuel)) n) with (if n =? 0 then [] else base256 (S fuel) (n / 2 ^ 8) ++ [n mod 2 ^ 8]).
      rewrite (proj2 (Z.eqb_neq n 0)) by done. split_if; [|done]. cbn [base256].
      by rewrite (proj2 (Z.eqb_eq _ 0)) by done. }
    rewrite E in *. rewrite zlen_app, zlen_singleton in Hd.
    set (h := if n / 2 ^ 8 =? 0 then [] else _) in *. pose proof (zlen_nonneg h).
    rewrite push_prepend, bind_Done by (rewrite ?zlen_singleton; lia).
    unfold h in *. destruct (n / 2 ^ 8 =? 0) eqn:E1; bool_to_prop; [done|].
    specialize (IH (n / 2 ^ 8) (prepend st [n mod 2 ^ 8])). rewrite (proj2 (Z.eqb_neq _ 0)) in IH by done.
    rewrite IH; [by rewrite prepend_prepend by (rewrite zlen_singleton; lia)| |].
    + Z.div_mod_to_equations; lia.
    + cbn [prepend wp wbuf]. rewrite zlen_splice by (rewrite ?zlen_singleton; lia). rewrite zlen_singleton. lia.
Qed.

Lemma write_len_writes start n : 0 <= n < 2 ^ 31 -> writes start (mbedtls_asn1_write_len start n) 0 (der_len n).
Proof.
  intros Hn st Hv Hr. pose proof Hv as (V1 & V2 & V3). unfold mbedtls_asn1_write_len.
  rewrite !Z.gtb_ltb, (proj2 (Z.ltb_ge _ _)) by lia.
  assert ((if n >=? 128 then count_bytes 8 n 1 else mret 1) = Done (zlen (der_len n))) as ->.
  { unfold der_len. rewrite Z.geb_leb. destruct (n <? 128) eqn:E; bool_to_prop.
    - by rewrite (proj2 (Z.leb_gt _ _)) by lia.
    - rewrite (proj2 (Z.leb_le _ _)) by lia. rewrite count_bytes_spec by lia. by rewrite zlen_cons. }
  rewrite bind_Done, Z.gtb_ltb. destruct (zlen (der_len n) <=? wp st - start) eqn:E; bool_to_prop.
  2: { rewrite (proj2 (Z.ltb_lt _ _)) by lia. exists st. split; [done|by apply untouched_refl]. }
  rewrite (proj2 (Z.ltb_ge _ _)) by lia. unfold der_len in *.
  assert (zlen (if n =? 0 then [0] else base256 8 n) <= wp st <= zlen (wbuf st)) as Hd.
  { destruct (n <? 128) eqn:E1; bool_to_prop.
    - rewrite zlen_singleton in E. split_if; [rewrite zlen_singleton; lia|].
      pose proof (base256_length 8 n 1). lia.
    - rewrite (proj2 (Z.eqb_neq n 0)) by lia. rewrite zlen_cons in E. lia. }
  rewrite (push_len_spec 7) by (done || lia). rewrite bind_Done. destruct (n <? 128) eqn:E1; bool_to_prop.
  - rewrite zlen_singleton. cbn [Z.gtb Z.ltb Z.compare Pos.compare Pos.compare_cont]. rewrite bind_Done.
    assert ((if n =? 0 then [0] else base256 8 n) = [n]) as ->; [|done].
    split_if; [by subst|]. change (base256 8 n) with (if n =? 0 then [] else base256 7 (n / 2 ^ 8) ++ [n mod 2 ^ 8]).
    rewrite (proj2 (Z.eqb_neq n 0)), Z.div_small, Z.mod_small by lia. done.
  - rewrite (proj2 (Z.eqb_neq n 0)) in * by lia. set (d := base256 8 n) in *. rewrite zlen_cons in *.
    pose proof (base256_length 8 n 4 ltac:(lia) ltac:(lia)) as L4. fold d in L4.
    pose proof (base256_nonempty 7 n ltac:(lia)) as L1. fold d in L1.
    rewrite Z.gtb_ltb, (proj2 (Z.ltb_lt 1 _)) by lia. replace (0x80 + (1 + zlen d) - 1) with (0x80 + zlen d) by lia.
    rewrite u8_id by (unfold is_byte; lia).
    rewrite push_prepend by (cbn [prepend wp wbuf]; rewrite zlen_singleton; rewrite ?zlen_splice; lia).
    rewrite bind_Done, prepend_prepend by (rewrite zlen_singleton; lia). done.
Qed.

Lemma write_tag_writes start t : writes start (mbedtls_asn1_write_tag start t) 0 [u8 t].
Proof.
  intros st Hv Hr. pose proof Hv as (V1 & V2 & V3). unfold mbedtls_asn1_write_tag. rewrite zlen_singleton.
  destruct (1 <=? wp st - start) eqn:E; bool_to_prop.
  - rewrite (proj2 (Z.ltb_ge _ _)) by lia. by rewrite push_prepend, bind_Done by (rewrite zlen_singleton; lia).
  - rewrite (proj2 (Z.ltb_lt _ _)) by lia. exists st. split; [done|by apply untouched_refl].
Qed.

(** A writer that runs behind bytes already written puts its own in front of them. *)
Lemma after_prepend start n a b (k : writer) st :
  0 <= n -> writes start k (n + zlen a) b ->
  valid start st -> n + (wp st - start) < 2 ^ 31 -> zlen a <= wp st - start ->
  if zlen (b ++ a) <=? wp st - start then k (prepend st a) = Done (n + zlen (b ++ a), prepend st (b ++ a))
  else exists st', k (prepend st a) = Done (MBEDTLS_ERR_ASN1_BUF_TOO_SMALL, st') /\ untouched start st st'.
Proof.
  intros Hn Hk Hv Hr Ha. pose proof Hv as (V1 & V2 & V3). pose proof (zlen_nonneg a). pose proof (zlen_nonneg b).
  pose proof (Hk _ (prepend_valid _ _ _ Hv Ha)) as K. cbn [prepend wp] in K. specialize (K ltac:(lia)).
  rewrite zlen_app. destruct (zlen b <=? wp st - zlen a - start) eqn:E2; bool_to_prop.
  - rewrite (proj2 (Z.leb_le _ _)) by lia. rewrite K, prepend_prepend by lia. do 2 f_equal. lia.
  - rewrite (proj2 (Z.leb_gt _ _)) by lia. destruct K as (st' & K & U). exists st'. split; [exact K|].
    eapply untouched_trans; [done|by apply prepend_untouched|exact U].
Qed.

(** One writer after the other: the second writes in front of the first. *)
Lemma chk_add_writes start n f k a b :
  0 <= n -> writes start f 0 a -> (n + zlen a < 2 ^ 31 -> writes start (k (n + zlen a)) (n + zlen a) b) ->
  writes start (chk_add n f k) n (b ++ a).
Proof.
  intros Hn Hf Hk st Hv Hr. pose proof Hv as (V1 & V2 & V3). pose proof (zlen_nonneg a). pose proof (zlen_nonneg b).
  pose proof (Hf st Hv ltac:(lia)) as F. unfold chk_add. destruct (zlen a <=? wp st - start) eqn:E; bool_to_prop.
  - rewrite F, bind_Done. cbv beta iota. rewrite Z.add_0_l, (proj2 (Z.ltb_ge _ _)) by lia.
    unfold u64. rewrite Z.mod_small by lia. apply after_prepend; [done|apply Hk; lia|done..].
  - destruct F as (st' & -> & U). rewrite bind_Done, zlen_app. rewrite (proj2 (Z.leb_gt _ _)) by lia. by exists st'.
Qed.

Lemma ret_writes start n : 0 <= n -> writes start (fun st => mret (to_int n, st)) n [].
Proof.
  intros Hn st (V1 & V2 & V3) Hr. rewrite (proj2 (Z.leb_le _ _)) by (change (zlen []) with 0; lia).
  rewrite to_int_id by lia. change (zlen []) with 0. rewrite Z.add_0_r. unfold prepend. change (zlen []) with 0.
  rewrite Z.sub_0_r, splice_nil by lia. by destruct st.
Qed.

Lemma len_and_tag_writes start n t :
  0 <= n < 2 ^ 31 -> writes start (mbedtls_asn1_write_len_and_tag start n t) n (u8 t :: der_len n).
Proof.
  intros Hn. unfold mbedtls_asn1_write_len_and_tag. change (u8 t :: der_len n) with ([u8 t] ++ der_len n).
  apply chk_add_writes; [lia|by apply write_len_writes|]. intros H. pose proof (zlen_nonneg (der_len n)).
  rewrite <- (app_nil_l [u8 t]). apply chk_add_writes; [lia|apply write_tag_writes|].
  intros H'. apply ret_writes. rewrite zlen_singleton. lia.
Qed.

Lemma raw_buffer_writes start buf size :
  0 <= size <= zlen buf -> writes start (mbedtls_asn1_write_raw_buffer start buf size) 0 (ztake size buf).
Proof.
  intros Hs st Hv Hr. pose proof Hv as (V1 & V2 & V3). unfold mbedtls_asn1_write_raw_buffer.
  assert (zlen (ztake size buf) = size) as L by (rewrite zlen_ztake; lia). rewrite L.
  rewrite (proj2 (Z.ltb_ge (wp st) _)) by lia. cbn [orb]. unfold u64. rewrite Z.mod_small by lia.
  destruct (size <=? wp st - start) eqn:E; bool_to_prop.
  - rewrite (proj2 (Z.ltb_ge _ size)) by lia. rewrite to_int_id by lia. rewrite Z.add_0_l.
    destruct (size =? 0) eqn:E0; bool_to_prop; cbn [negb].
    + subst size. rewrite bind_Done, ztake_0. unfold prepend. change (zlen []) with 0.
      rewrite Z.sub_0_r, splice_nil by lia. by destruct st.
    + rewrite load_Done, zdrop_0, bind_Done, push_prepend, bind_Done by lia. done.
  - rewrite (proj2 (Z.ltb_lt _ size)) by lia. exists st. split; [done|by apply untouched_refl].
Qed.

(** A value written by its bytes. *)
Lemma tagged_writes start t buf size :
  0 <= size <= zlen buf -> writes start (mbedtls_asn1_write_tagged_string start t buf size) 0 (tlv (u8 t) (ztake size buf)).
Proof.
  intros Hs. unfold mbedtls_asn1_write_tagged_string, tlv. rewrite app_comm_cons.
  apply chk_add_writes; [done|by apply raw_buffer_writes|]. intros H. rewrite Z.add_0_l in *.
  apply len_and_tag_writes. pose proof (zlen_nonneg (ztake size buf)). lia.
Qed.

(** A SEQUENCE around an OID and [par_len] bytes of parameters that are there already. *)
Definition alg_id_head (oid : list Z) (par_len : Z) : list Z :=
  let o := tlv MBEDTLS_ASN1_OID oid in 0x30 :: der_len (par_len + zlen o) ++ o.

Lemma alg_id_head_writes start oid size n :
  0 <= size <= zlen oid -> 0 <= n ->
  writes start (chk_add n (mbedtls_asn1_write_oid start oid size) (fun len =>
    mbedtls_asn1_write_len_and_tag start len (Z.lor MBEDTLS_ASN1_CONSTRUCTED MBEDTLS_ASN1_SEQUENCE))) n
    (alg_id_head (ztake size oid) n).
Proof.
  intros Hs Hn. unfold alg_id_head. cbv zeta. set (a := tlv MBEDTLS_ASN1_OID (ztake size oid)).
  pose proof (zlen_nonneg a). rewrite app_comm_cons.
  apply chk_add_writes; [done|by apply (tagged_writes start MBEDTLS_ASN1_OID)|]. intros H2.
  apply (len_and_tag_writes start (n + zlen a) 0x30). lia.
Qed.

Lemma alg_id_writes start oid size :
  0 <= size <= zlen oid ->
  writes start (mbedtls_asn1_write_algorithm_identifier_ext start oid size 0 true) 0
    (tlv 0x30 (tlv MBEDTLS_ASN1_OID (ztake size oid) ++ [5; 0])).
Proof.
  intros Hs. unfold mbedtls_asn1_write_algorithm_identifier_ext. cbn [Z.eqb]. unfold tlv at 1.
  set (a := tlv MBEDTLS_ASN1_OID (ztake size oid)) in *. rewrite zlen_app, app_comm_cons, app_assoc.
  apply chk_add_writes; [done|by apply (len_and_tag_writes start 0 5)|]. intros H1. rewrite Z.add_0_l in *.
  change (zlen [5; 0]) with 2 in *. rewrite (Z.add_comm (zlen a)). by apply alg_id_head_writes.
Qed.

(** Parameters the caller has written already, or none. *)
Lemma alg_id_ext_writes start oid size par_len has_par :
  0 <= size <= zlen oid -> 0 <= par_len < 2 ^ 64 -> has_par = false \/ par_len <> 0 ->
  let n := if has_par : bool then par_len else 0 in
  writes start (mbedtls_asn1_write_algorithm_identifier_ext start oid size par_len has_par) n
    (alg_id_head (ztake size oid) n).
Proof.
  intros Hs Hp Hc n. unfold mbedtls_asn1_write_algorithm_identifier_ext. unfold n. destruct has_par.
  - destruct Hc as [|Hc]; [done|]. rewrite (proj2 (Z.eqb_neq par_len 0)) by done.
    rewrite Z.add_0_l. unfold u64 at 1. rewrite Z.mod_small by lia. apply alg_id_head_writes; [done|lia].
  - by apply alg_id_head_writes.
Qed.

(** A byte in front of what is there. *)
Lemma push_writes start n b k bs :
  0 <= n -> writes start k (n + 1) bs ->
  writes start (fun st => if wp st - start <? 1 then mret (MBEDTLS_ERR_ASN1_BUF_TOO_SMALL, st) else
                          st ← push [b] st; k st) n (bs ++ [b]).
Proof.
  intros Hn Hk st Hv Hr. pose proof Hv as (V1 & V2 & V3). pose proof (zlen_nonneg bs).
  destruct (wp st - start <? 1) eqn:E; bool_to_prop.
  { rewrite zlen_app, zlen_singleton, (proj2 (Z.leb_gt _ _)) by lia. exists st. split; [done|by apply untouched_refl]. }
  rewrite push_prepend, bind_Done by (rewrite zlen_singleton; lia).
  apply after_prepend; [done|by rewrite zlen_singleton|done|done|rewrite zlen_singleton; lia].
Qed.

Lemma write_bool_writes start v :
  writes start (mbedtls_asn1_write_bool start v) 0 (tlv MBEDTLS_ASN1_BOOLEAN [if v =? 0 then 0 else 255]).
Proof.
  unfold mbedtls_asn1_write_bool. replace (if negb (v =? 0) then 255 else 0) with (if v =? 0 then 0 else 255) by (by destruct (v =? 0)).
  apply (push_writes start 0 _ (mbedtls_asn1_write_len_and_tag start 1 MBEDTLS_ASN1_BOOLEAN) [1; 1]); [done|].
  by apply (len_and_tag_writes start 1 1).
Qed.

(** ** Integers *)

Lemma push_int_step start fuel val n st :
  push_int start (S fuel) val n st =
    (if wp st - start <? 1 then mret (None, st) else
     st ← push [val mod 2 ^ 8] st;
     if 0 <? val / 2 ^ 8 then push_int start fuel (val / 2 ^ 8) (n + 1) st else mret (Some (n + 1), st)).
Proof. rewrite <- land_ff_mod, <- shiftr_8. reflexivity. Qed.

Lemma push_int_spec start fuel : forall val n st,
  0 <= val < 2 ^ (8 * Z.of_nat (S fuel)) -> valid start st ->
  let d := if val =? 0 then [0] else base256 (S fuel) val in
  if zlen d <=? wp st - start then push_int start (S fuel) val n st = Done (Some (n + zlen d), prepend st d)
  else exists st', push_int start (S fuel) val n st = Done (None, st') /\ untouched start st st'.
Proof.
  induction fuel as [|fuel IH]; intros val n st Hn Hv d; pose proof Hv as (V1 & V2 & V3); rewrite push_int_step.
  - assert (d = [val mod 2 ^ 8]) as ->.
    { unfold d. split_if; [by subst|]. cbn [base256]. by rewrite (proj2 (Z.eqb_neq val 0)) by done. }
    rewrite zlen_singleton. destruct (wp st - start <? 1) eqn:E; bool_to_prop.
    + rewrite (proj2 (Z.leb_gt _ _)) by lia. exists st. split; [done|by apply untouched_refl].
    + rewrite (proj2 (Z.leb_le _ _)) by lia. rewrite push_prepend, bind_Done by (rewrite zlen_singleton; lia).
      by rewrite Z.div_small by lia.
  - rewrite pow256_S in Hn. set (b := val mod 2 ^ 8). set (v := val / 2 ^ 8).
    assert (d = (if v =? 0 then [] else base256 (S fuel) v) ++ [b]) as Ed.
    { unfold d. destruct (val =? 0) eqn:E0; bool_to_prop; [subst val; by unfold v|].
      change (base256 (S (S fuel)) val) with (if val =? 0 then [] else base256 (S fuel) v ++ [b]).
      rewrite (proj2 (Z.eqb_neq val 0)) by done. split_if; [|done]. cbn [base256].
      by rewrite (proj2 (Z.eqb_eq v 0)) by done. }
    clearbody d. subst d. rewrite zlen_app, zlen_singleton. set (h := if v =? 0 then [] else _).
    pose proof (zlen_nonneg h). destruct (wp st - start <? 1) eqn:E; bool_to_prop.
    { rewrite (proj2 (Z.leb_gt _ _)) by lia. exists st. split; [done|by apply untouched_refl]. }
    assert (zlen [b] <= wp st - start) as Hb by (rewrite zlen_singleton; lia).
    rewrite push_prepend, bind_Done by (rewrite zlen_singleton; lia).
    assert (0 <= v < 2 ^ (8 * Z.of_nat (S fuel))) as Rv by (unfold v; Z.div_mod_to_equations; lia).
    destruct (0 <? v) eqn:Ev; bool_to_prop.
    + specialize (IH v (n + 1) (prepend st [b]) Rv (prepend_valid _ _ _ Hv Hb)). cbv zeta in IH.
      unfold h in *. rewrite (proj2 (Z.eqb_neq v 0)) in * by lia. cbn [prepend wp] in IH. rewrite zlen_singleton in IH.
      destruct (zlen (base256 (S fuel) v) <=? wp st - 1 - start) eqn:E2; bool_to_prop.
      * rewrite (proj2 (Z.leb_le _ _)) by lia.
        rewrite IH, prepend_prepend by (rewrite zlen_singleton; lia). do 3 f_equal. lia.
      * rewrite (proj2 (Z.leb_gt _ _)) by lia. destruct IH as (st' & K & U). exists st'. split; [exact K|].
        eapply untouched_trans; [done|by apply prepend_untouched|exact U].
    + assert (v = 0) as Hv0 by lia. unfold h. rewrite (proj2 (Z.eqb_eq v 0)) by done. change (zlen []) with 0.
      rewrite (proj2 (Z.leb_le _ _)) by lia. done.
Qed.

Lemma prepend_first st b d : zlen (b :: d) <= wp st <= zlen (wbuf st) ->
  load8 (wbuf (prepend st (b :: d))) (wp (prepend st (b :: d))) = Done b.
Proof.
  intros H. cbn [prepend wbuf wp]. unfold splice. set (q := wp st - zlen (b :: d)).
  pose proof (zlen_nonneg (b :: d)). assert (0 <= q <= zlen (wbuf st)) as Hq by (unfold q; lia).
  pose proof (zlen_ztake q (wbuf st) Hq) as Lq. clearbody q.
  pose proof (load8_middle (ztake q (wbuf st)) b (d ++ zdrop (q + zlen (b :: d)) (wbuf st))) as M.
  rewrite Lq in M. exact M.
Qed.

Lemma der_int_digits v : 0 <= v < 2 ^ 31 ->
  exists b d, (if v =? 0 then [0] else base256 4 v) = b :: d /\ is_byte b /\ zlen (b :: d) <= 4 /\
    der_int v = (if b <? 128 then b :: d else 0 :: b :: d).
Proof.
  intros Hv. unfold der_int. assert (is_bytes (if v =? 0 then [0] else base256 4 v)) as Hb.
  { split_if; [by repeat constructor|apply base256_bytes]. }
  destruct (if v =? 0 then [0] else base256 4 v) as [|b d] eqn:E.
  - destruct (v =? 0) eqn:E0; bool_to_prop; [done|]. pose proof (base256_nonempty 3 v E0) as L. by rewrite E in L.
  - exists b, d. split_and!; [done|by apply Forall_cons in Hb as [? _]| |done].
    rewrite <- E. split_if; [done|]. apply base256_length; lia.
Qed.

Lemma tagged_int_writes start v t :
  0 <= v < 2 ^ 31 -> writes start (asn1_write_tagged_int start v t) 0 (tlv (u8 t) (der_int v)).
Proof.
  intros Hv st Hst Hr. pose proof Hst as (V1 & V2 & V3). unfold asn1_write_tagged_int.
  destruct (der_int_digits v Hv) as (b & d & Ed & Bb & L4 & Ei).
  pose proof (push_int_spec start 3 v 0 st ltac:(lia) Hst) as P. cbv zeta in P. rewrite Ed in P.
  assert (zlen (der_int v) = zlen (b :: d) \/ zlen (der_int v) = 1 + zlen (b :: d)) as Li.
  { rewrite Ei. destruct (b <? 128); [by left|right]. by rewrite zlen_cons. }
  assert (forall x, zlen x < zlen (tlv (u8 t) x)) as Lt.
  { intros x. unfold tlv. rewrite zlen_cons, zlen_app. pose proof (zlen_nonneg (der_len (zlen x))). lia. }
  specialize (Lt (der_int v)). pose proof (zlen_nonneg d).
  destruct (zlen (b :: d) <=? wp st - start) eqn:E; bool_to_prop.
  2: { destruct P as (st' & -> & U). rewrite bind_Done. cbv beta iota. rewrite (proj2 (Z.leb_gt _ _)) by lia. by exists st'. }
  rewrite P, bind_Done. cbv beta iota. rewrite prepend_first, bind_Done, top_bit_byte, Z.add_0_l by (done || lia).
  unfold tlv. rewrite app_comm_cons. destruct (b <? 128) eqn:E1; cbn [negb].
  - rewrite Ei. apply after_prepend; [done| |done|lia|done]. apply len_and_tag_writes. rewrite zlen_cons in *. lia.
  - rewrite Ei. set (hdr := u8 t :: der_len (zlen (0 :: b :: d))).
    change (0 :: b :: d) with ([0] ++ b :: d). rewrite app_assoc.
    apply (after_prepend start 0 (b :: d) (hdr ++ [0]) (fun st =>
      if wp st - start <? 1 then mret (MBEDTLS_ERR_ASN1_BUF_TOO_SMALL, st)
      else st ← push [0] st; mbedtls_asn1_write_len_and_tag start (zlen (b :: d) + 1) t st)); [done| |done|lia|done].
    apply push_writes; [rewrite zlen_cons; lia|]. unfold hdr. rewrite (zlen_cons 0), (Z.add_comm 1).
    rewrite Z.add_0_l. apply len_and_tag_writes. rewrite zlen_cons in *. lia.
Qed.

(** The loop ends behind the first byte of a negative value. *)
Lemma tagged_int_negative start v t st :
  v < 0 -> asn1_write_tagged_int start v t st = asn1_write_tagged_int start (v mod 2 ^ 8) t st.
Proof.
  intros Hv. unfold asn1_write_tagged_int. rewrite !push_int_step, Z.mod_mod by lia.
  rewrite (proj2 (Z.ltb_ge 0 (v / 2 ^ 8))) by (Z.div_mod_to_equations; lia).
  by rewrite (Z.div_small (v mod 2 ^ 8)) by (apply Z.mod_pos_bound; lia).
Qed.

(** The value the digits of which are written for an [int]. *)
Definition written (v : Z) : Z := if v <? 0 then v mod 2 ^ 8 else v.

Lemma any_int_writes start v t :
  - 2 ^ 31 <= v < 2 ^ 31 -> writes start (asn1_write_tagged_int start v t) 0 (tlv (u8 t) (der_int (written v))).
Proof.
  intros Hv st Hst Hr. unfold written. destruct (Z.ltb_spec v 0) as [Hn|Hn].
  - rewrite tagged_int_negative by done. apply tagged_int_writes; [|done|done].
    pose proof (Z.mod_pos_bound v (2 ^ 8)). lia.
  - apply tagged_int_writes; [lia|done|done].
Qed.

(** ** Bit strings *)

Lemma clear_low b u : 0 <= u -> Z.land b (Z.lnot (Z.shiftl 1 u - 1)) = b / 2 ^ u * 2 ^ u.
Proof.
  intros Hu. rewrite Z.shiftl_1_l. replace (2 ^ u - 1) with (Z.ones u) by (rewrite Z.ones_equiv; lia).
  change (Z.land b (Z.lnot (Z.ones u))) with (Z.ldiff b (Z.ones u)) || rewrite <- Z.ldiff_land.
  by rewrite Z.ldiff_ones_r, Z.shiftr_div_pow2, Z.shiftl_mul_pow2 by lia.
Qed.

Lemma clear_low_byte b u : is_byte b -> 0 <= u -> is_byte (b / 2 ^ u * 2 ^ u).
Proof.
  unfold is_byte. intros Hb Hu. assert (0 < 2 ^ u) by (apply Z.pow_pos_nonneg; lia).
  pose proof (Z.mul_div_le b (2 ^ u)). pose proof (Z.div_pos b (2 ^ u)). nia.
Qed.

Lemma zlen_der_bits buf bits : 0 <= bits -> (bits + 7) / 8 <= zlen buf ->
  zlen (der_bits buf bits) = 1 + (bits + 7) / 8.
Proof.
  intros Hb Hl. unfold der_bits. cbv zeta. rewrite zlen_cons. f_equal. split_if; [|change (zlen []) with 0; Z.div_mod_to_equations; lia].
  rewrite zlen_app, zlen_ztake, zlen_singleton by lia. lia.
Qed.

Lemma bitstring_writes start buf bits :
  is_bytes buf -> 0 <= bits < 2 ^ 62 -> (bits + 7) / 8 <= zlen buf ->
  writes start (mbedtls_asn1_write_bitstring start buf bits) 0 (tlv MBEDTLS_ASN1_BIT_STRING (der_bits buf bits)).
Proof.
  intros Hb Hn Hl st Hv Hr. pose proof Hv as (V1 & V2 & V3). pose proof (zlen_der_bits buf bits ltac:(lia) Hl) as Ld.
  unfold mbedtls_asn1_write_bitstring, u64. rewrite (Z.mod_small (bits + 7)) by lia.
  set (n := (bits + 7) / 8) in *. assert (0 <= n < 2 ^ 60 /\ 0 <= n * 8 - bits < 8) as [Hn0 Hu] by (unfold n; Z.div_mod_to_equations; lia).
  rewrite (Z.mod_small (n * 8 - bits)), (Z.mod_small (wp st - start)), !(Z.mod_small (n + 1)) by lia.
  rewrite (proj2 (Z.ltb_ge (wp st) _)) by lia. cbn [orb]. set (d := der_bits buf bits) in *.
  assert (zlen d < zlen (tlv MBEDTLS_ASN1_BIT_STRING d)) as Lt.
  { unfold tlv. rewrite zlen_cons, zlen_app. pose proof (zlen_nonneg (der_len (zlen d))). lia. }
  destruct (wp st - start <? n + 1) eqn:E; bool_to_prop.
  { rewrite (proj2 (Z.leb_gt _ _)) by lia. exists st. split; [done|by apply untouched_refl]. }
  assert (forall k : wstate -> outcome (Z * wstate), (st0 ← (if 0 <? n then
      b ← load8 buf (n - 1);
      st0 ← push [u8 (Z.land b (Z.lnot (Z.shiftl 1 (n * 8 - bits) - 1)))] st;
      bs ← load buf 0 (n - 1);
      push bs st0
    else mret st); st0 ← push [u8 (n * 8 - bits)] st0; k st0) = k (prepend st d)) as Ek.
  { intros k. unfold d, der_bits. fold n. cbv zeta. rewrite (u8_id (n * 8 - bits)) by (unfold is_byte; lia).
    destruct (0 <? n) eqn:E0; bool_to_prop.
    - rewrite load8_Done, bind_Done, clear_low by lia. set (b := buf !!! Z.to_nat (n - 1)).
      assert (is_byte b) as Bb.
      { unfold is_bytes in Hb. rewrite Forall_lookup in Hb. apply (Hb (Z.to_nat (n - 1))).
        apply list_lookup_lookup_total_lt. unfold zlen in Hl. lia. }
      rewrite u8_id by (apply clear_low_byte; [done|lia]). set (x := b / _ * _).
      assert (zlen (ztake (n - 1) buf) = n - 1) as Lk by (rewrite zlen_ztake; lia).
      rewrite push_prepend, bind_Done by (rewrite zlen_singleton; lia).
      rewrite load_Done, zdrop_0, bind_Done by lia.
      rewrite push_prepend, bind_Done by (cbn [prepend wp wbuf]; rewrite ?zlen_splice; rewrite ?zlen_singleton; lia).
      rewrite prepend_prepend by (rewrite zlen_singleton; lia). set (ys := ztake (n - 1) buf ++ [x]).
      assert (zlen ys = n) as Ly by (unfold ys; rewrite zlen_app, zlen_singleton; lia).
      rewrite push_prepend, bind_Done by (cbn [prepend wp wbuf]; rewrite ?zlen_splice; rewrite ?zlen_singleton; lia).
      by rewrite prepend_prepend by (rewrite zlen_singleton; lia).
    - rewrite bind_Done. by rewrite push_prepend, bind_Done by (rewrite zlen_singleton; lia). }
  rewrite Ek. clear Ek. unfold tlv. rewrite app_comm_cons. rewrite Ld.
  apply after_prepend; [done| |done|lia|lia]. rewrite Ld, (Z.add_comm n 1), Z.add_0_l. apply len_and_tag_writes. lia.
Qed.

(** The bit at position [i], counted from the most significant bit of the first byte. *)
Definition bit_at (buf : list Z) (i : Z) : bool := Z.testbit (buf !!! Z.to_nat (i / 8)) (7 - i mod 8).

(** The bits up to the last one that is set. *)
Fixpoint trimmed (buf : list Z) (k : nat) : Z :=
  match k with
  | O => 0
  | S k' => if bit_at buf (Z.of_nat k') then Z.of_nat k else trimmed buf k'
  end.

Lemma land_1_odd x : (Z.land x 1 =? 0) = negb (Z.testbit x 0).
Proof.
  change 1 with (Z.ones 1). rewrite Z.land_ones, Z.bit0_odd by lia. change (2 ^ 1) with 2. rewrite Zmod_odd.
  by destruct (Z.odd x).
Qed.

Lemma trim_bits_spec buf : forall k, Z.of_nat k <= 8 * zlen buf -> (0 < k)%nat ->
  let cur := (Z.of_nat k - 1) / 8 in
  trim_bits k buf cur (Z.shiftr (buf !!! Z.to_nat cur) (8 * (cur + 1) - Z.of_nat k)) (Z.of_nat k) = Done (trimmed buf k).
Proof.
  induction k as [|k IH]; intros Hl Hk cur; [lia|]. cbn [trim_bits trimmed]. set (m := Z.of_nat (S k)) in *.
  assert (m - 1 = Z.of_nat k) as Em by (unfold m; lia).
  rewrite land_1_odd, Z.shiftr_spec, Z.add_0_l by lia.
  assert (Z.testbit (buf !!! Z.to_nat cur) (8 * (cur + 1) - m) = bit_at buf (Z.of_nat k)) as ->.
  { unfold bit_at, cur. rewrite Em. f_equal. unfold m. Z.div_mod_to_equations; lia. }
  rewrite negb_involutive. destruct (bit_at buf (Z.of_nat k)); [done|]. rewrite Em.
  destruct (Z.of_nat k =? 0) eqn:E0; bool_to_prop; [by assert (k = 0%nat) as -> by lia|].
  destruct (Z.of_nat k mod 8 =? 0) eqn:E8; bool_to_prop.
  - assert ((Z.of_nat k - 1) / 8 = cur - 1) as Ec by (unfold cur; Z.div_mod_to_equations; lia).
    rewrite load8_Done, bind_Done by (unfold cur in *; Z.div_mod_to_equations; lia).
    rewrite <- IH by lia. rewrite Ec. f_equal. replace (8 * (cur - 1 + 1) - Z.of_nat k) with 0; [by rewrite Z.shiftr_0_r|].
    unfold cur. Z.div_mod_to_equations; lia.
  - assert ((Z.of_nat k - 1) / 8 = cur) as Ec by (unfold cur; Z.div_mod_to_equations; lia).
    rewrite <- IH by lia. rewrite Ec. f_equal. rewrite Z.shiftr_shiftr by lia. f_equal. lia.
Qed.

Lemma named_bitstring_writes start buf bits :
  is_bytes buf -> 0 <= bits < 2 ^ 62 -> (bits + 7) / 8 <= zlen buf ->
  writes start (mbedtls_asn1_write_named_bitstring start buf bits) 0
    (tlv MBEDTLS_ASN1_BIT_STRING (der_bits buf (trimmed buf (Z.to_nat bits)))).
Proof.
  intros Hb Hn Hl. assert (forall k, 0 <= trimmed buf k <= Z.of_nat k) as Ht.
  { induction k as [|k IH]; cbn [trimmed]; [done|]. destruct (bit_at _ _); lia. }
  specialize (Ht (Z.to_nat bits)).
  assert (forall st, mbedtls_asn1_write_named_bitstring start buf bits st =
    mbedtls_asn1_write_bitstring start buf (trimmed buf (Z.to_nat bits)) st) as E.
  { intros st. unfold mbedtls_asn1_write_named_bitstring, u64. rewrite (Z.mod_small (bits + 7)) by lia.
    destruct (bits =? 0) eqn:E0; bool_to_prop; cbn [negb]; [by subst|].
    set (n := (bits + 7) / 8) in *. assert (n - 1 = (bits - 1) / 8 /\ 0 <= n * 8 - bits < 8) as [Ec Hu] by (unfold n; Z.div_mod_to_equations; lia).
    rewrite Z.mod_small by lia. rewrite load8_Done, bind_Done by (unfold n in *; Z.div_mod_to_equations; lia).
    pose proof (trim_bits_spec buf (Z.to_nat bits)) as T. rewrite Z2Nat.id in T by lia. cbv zeta in T. rewrite <- Ec in T.
    replace (8 * (n - 1 + 1) - bits) with (n * 8 - bits) in T by lia. rewrite T, bind_Done; [done| |lia].
    unfold n in *. Z.div_mod_to_equations; lia. }
  intros st Hv Hr. rewrite E. apply bitstring_writes; [done|lia| |done|done].
  etransitivity; [|exact Hl]. apply Z.div_le_mono; lia.
Qed.

(** ** Results *)

(** C17.  Every writer puts exactly its encoding below [*p] and returns its length, or reports
    that it does not fit and has changed nothing outside the free part between [start] and
    [*p] (a part below [2 ^ 31] bytes, as the lengths are returned in an [int]).  The encoding
    is DER for null, boolean, strings (their tag cut to a byte) and OIDs, bit strings with the
    unused bits cleared, named bit strings without their trailing zeros, and the non-negative
    values of integer and enumerated; a negative value, which the header excludes for the
    integer and not for the enumerated, is written as its low byte, that is as another,
    non-negative value.  The algorithm identifier is a SEQUENCE of the OID and a NULL, of the
    OID alone, or, in front of [par_len] bytes of parameters the caller has written there, of
    the OID and these. *)
Theorem asn1_write_correct start v t buf size bits par_len :
  - 2 ^ 31 <= v < 2 ^ 31 -> is_bytes buf -> 0 <= size <= zlen buf -> 0 <= bits < 2 ^ 62 ->
  (bits + 7) / 8 <= zlen buf -> 0 < par_len < 2 ^ 64 ->
  writes start (mbedtls_asn1_write_null start) 0 [MBEDTLS_ASN1_NULL; 0] /\
  writes start (mbedtls_asn1_write_bool start v) 0 (tlv MBEDTLS_ASN1_BOOLEAN [if v =? 0 then 0 else 255]) /\
  writes start (mbedtls_asn1_write_int start v) 0
    (tlv MBEDTLS_ASN1_INTEGER (der_int (if v <? 0 then v mod 2 ^ 8 else v))) /\
  writes start (mbedtls_asn1_write_enum start v) 0
    (tlv MBEDTLS_ASN1_ENUMERATED (der_int (if v <? 0 then v mod 2 ^ 8 else v))) /\
  writes start (mbedtls_asn1_write_tagged_string start t buf size) 0 (tlv (t mod 2 ^ 8) (ztake size buf)) /\
  writes start (mbedtls_asn1_write_octet_string start buf size) 0 (tlv MBEDTLS_ASN1_OCTET_STRING (ztake size buf)) /\
  writes start (mbedtls_asn1_write_oid start buf size) 0 (tlv MBEDTLS_ASN1_OID (ztake size buf)) /\
  writes start (mbedtls_asn1_write_algorithm_identifier start buf size 0) 0
    (tlv 0x30 (tlv MBEDTLS_ASN1_OID (ztake size buf) ++ [MBEDTLS_ASN1_NULL; 0])) /\
  writes start (mbedtls_asn1_write_algorithm_identifier start buf size par_len) par_len
    (0x30 :: der_len (par_len + zlen (tlv MBEDTLS_ASN1_OID (ztake size buf))) ++
     tlv MBEDTLS_ASN1_OID (ztake size buf)) /\
  writes start (mbedtls_asn1_write_algorithm_identifier_ext start buf size par_len false) 0
    (tlv 0x30 (tlv MBEDTLS_ASN1_OID (ztake size buf))) /\
  writes start (mbedtls_asn1_write_bitstring start buf bits) 0 (tlv MBEDTLS_ASN1_BIT_STRING (der_bits buf bits)) /\
  writes start (mbedtls_asn1_write_named_bitstring start buf bits) 0
    (tlv MBEDTLS_ASN1_BIT_STRING (der_bits buf (trimmed buf (Z.to_nat bits)))).
Proof.
  intros Hv Hb Hs Hbits Hl Hp. split_and!.
  - by apply (len_and_tag_writes start 0 5).
  - apply write_bool_writes.
  - by apply (any_int_writes start v MBEDTLS_ASN1_INTEGER).
  - by apply (any_int_writes start v MBEDTLS_ASN1_ENUMERATED).
  - by apply tagged_writes.
  - by apply (tagged_writes start MBEDTLS_ASN1_OCTET_STRING).
  - by apply (tagged_writes start MBEDTLS_ASN1_OID).
  - by apply alg_id_writes.
  - apply (alg_id_ext_writes start buf size par_len true); lia.
  - apply (alg_id_ext_writes start buf size par_len false); [done|lia|by left].
  - by apply bitstring_writes.
  - by apply named_bitstring_writes.
Qed.

Lemma asn1_write_correct_witness :
  mbedtls_asn1_write_named_bitstring 0 [0xA0; 0x40; 0] 24 (W (replicate 8 7) 8) =
    Done (5, W [7; 7; 7; 3; 3; 6; 0xA0; 0x40] 3).
Proof.
  assert (valid 0 (W (replicate 8 7) 8)) as V by (split_and!; vm_compute; congruence).
  destruct (asn1_write_correct 0 (-5) 4 [0xA0; 0x40; 0] 2 24 3) as (_ & _ & _ & _ & _ & _ & _ & _ & _ & _ & _ & H).
  - lia.
  - apply (bool_decide_unpack _). vm_compute. exact I.
  - vm_compute. split; discriminate.
  - lia.
  - vm_compute. discriminate.
  - lia.
  - apply (H _ V). vm_compute. reflexivity.
Defined.

Lemma prepend_has st bs : zlen bs <= wp st <= zlen (wbuf st) -> has (wbuf (prepend st bs)) (wp (prepend st bs)) bs.
Proof. intros H. cbn [prepend wbuf wp]. split; [lia|]. apply splice_read; lia. Qed.

Lemma prepend_bytes st bs : is_bytes (wbuf st) -> is_bytes bs -> is_bytes (wbuf (prepend st bs)).
Proof. intros H1 H2. cbn [prepend wbuf]. unfold splice. auto 9 with zlist. Qed.

(** What a writer wrote is an element for the parser. *)
Lemma written_element start st (f : writer) t c :
  writes start f 0 (tlv t c) -> valid start st -> is_bytes (wbuf st) -> is_byte t -> is_bytes c ->
  zlen (tlv t c) <= wp st - start ->
  exists st' n q, f st = Done (n, st') /\ is_bytes (wbuf st') /\ zlen (wbuf st') = zlen (wbuf st) /\
    0 <= wp st' /\ element_at (wbuf st') (wp st') t q c /\ q + zlen c = wp st.
Proof.
  intros Hw Hv Hb Ht Hc Hfit. pose proof Hv as (V1 & V2 & V3). pose proof (zlen_nonneg c).
  pose proof (Hw st Hv ltac:(lia)) as W. rewrite (proj2 (Z.leb_le _ _)) in W by done.
  assert (zlen (tlv t c) = 1 + zlen (der_len (zlen c)) + zlen c) as L by (unfold tlv; rewrite zlen_cons, zlen_app; lia).
  pose proof (zlen_nonneg (der_len (zlen c))).
  assert (is_bytes (tlv t c)) as Bt.
  { unfold tlv. constructor; [done|]. apply is_bytes_app; [|done]. unfold der_len.
    split_if; [repeat constructor; lia|]. cbv zeta. constructor; [|apply base256_bytes].
    pose proof (base256_length 8 (zlen c) 4). unfold is_byte. pose proof (zlen_nonneg (base256 8 (zlen c))). lia. }
  exists (prepend st (tlv t c)), (0 + zlen (tlv t c)), (wp st - zlen (tlv t c) + 1 + zlen (der_len (zlen c))).
  split_and!; [done|by apply prepend_bytes|cbn [prepend wbuf]; rewrite zlen_splice; lia|cbn [prepend wp]; lia| |lia].
  apply (tlv_element _ _ t c); [lia|]. apply prepend_has. lia.
Qed.

Lemma der_int_value v : 0 <= v < 2 ^ 31 ->
  is_bytes (der_int v) /\ der_int v <> [] /\ List.hd 0 (der_int v) < 128 /\ be (der_int v) = v.
Proof.
  intros Hv. destruct (der_int_digits v Hv) as (b & d & Ed & Bb & _ & ->).
  assert (is_bytes (b :: d)) as Hb by (rewrite <- Ed; split_if; [by repeat constructor|apply base256_bytes]).
  assert (be (b :: d) = v) as Hval by (rewrite <- Ed; split_if; [by subst|apply base256_be; lia]).
  destruct (b <? 128) eqn:E; bool_to_prop; [done|]. split_and!; [by constructor|done|cbn; lia|].
  by rewrite be_cons, Z.mul_0_l.
Qed.

Lemma has_lookup b q l k : has b q l -> 0 <= k < zlen l -> zdrop q b !!! Z.to_nat k = l !!! Z.to_nat k.
Proof.
  intros [_ H] Hk. rewrite <- H at 1. unfold ztake. rewrite lookup_total_take_lt; [done|lia].
Qed.

Lemma clear_low_bit b u k : 0 <= u <= k -> Z.testbit (b / 2 ^ u * 2 ^ u) k = Z.testbit b k.
Proof.
  intros H. rewrite Z.mul_pow2_bits, <- Z.shiftr_div_pow2, Z.shiftr_spec by lia. f_equal. lia.
Qed.

(** The bytes behind the number of unused bits hold the bits. *)
Lemma der_bits_parts buf bits : is_bytes buf -> 0 <= bits -> (bits + 7) / 8 <= zlen buf ->
  exists body, der_bits buf bits = (bits + 7) / 8 * 8 - bits :: body /\ is_bytes (der_bits buf bits) /\
    zlen body = (bits + 7) / 8 /\ forall i, 0 <= i < bits -> bit_at body i = bit_at buf i.
Proof.
  intros Hb H0 Hl. pose proof (zlen_der_bits buf bits H0 Hl) as L. unfold der_bits in *. cbv zeta in *.
  set (n := (bits + 7) / 8) in *. set (u := n * 8 - bits) in *.
  assert (0 <= u < 8) as Hu by (unfold u, n; Z.div_mod_to_equations; lia).
  set (body := if 0 <? n then _ else _) in *. rewrite zlen_cons in L.
  assert (forall k, 0 <= k < n -> is_byte (buf !!! Z.to_nat k)) as Bk.
  { intros k Hk. unfold is_bytes in Hb. rewrite Forall_lookup in Hb. apply (Hb (Z.to_nat k)).
    apply list_lookup_lookup_total_lt. unfold zlen in Hl. lia. }
  exists body. split_and!; [done| |lia|].
  - constructor; [unfold is_byte; lia|]. unfold body. split_if; [|constructor]. apply is_bytes_app; [auto with zlist|].
    repeat constructor; apply clear_low_byte; try lia; apply Bk; lia.
  - intros i Hi. assert (0 < n) as Hn by (unfold n; Z.div_mod_to_equations; lia).
    unfold bit_at, body. rewrite (proj2 (Z.ltb_lt 0 n)) by done.
    assert (length (ztake (n - 1) buf) = Z.to_nat (n - 1)) as Lt.
    { pose proof (zlen_ztake (n - 1) buf ltac:(lia)) as Z1. unfold zlen in Z1 at 1. lia. }
    destruct (Z.eq_dec (i / 8) (n - 1)) as [Ei|Hne].
    + rewrite Ei. replace (Z.to_nat (n - 1)) with (length (ztake (n - 1) buf)) at 1 by lia.
      rewrite list_lookup_total_middle by done. apply clear_low_bit. unfold u, n in *. Z.div_mod_to_equations; lia.
    + rewrite lookup_total_app_l by (rewrite Lt; unfold n in *; Z.div_mod_to_equations; lia).
      unfold ztake. rewrite lookup_total_take_lt; [done|]. unfold n in *. Z.div_mod_to_equations; lia.
Qed.

(** C18.  What the writers write, the parser reads back: a non-negative integer, an octet string
    as a tagged content, and the bits of a bit string with their number of unused bits. *)
Theorem asn1_write_read start st v buf size bits :
  valid start st -> is_bytes (wbuf st) -> 0 <= v < 2 ^ 31 -> is_bytes buf -> 0 <= size <= zlen buf ->
  0 <= bits < 2 ^ 62 -> (bits + 7) / 8 <= zlen buf ->
  zlen (tlv MBEDTLS_ASN1_INTEGER (der_int v)) <= wp st - start ->
  zlen (tlv MBEDTLS_ASN1_OCTET_STRING (ztake size buf)) <= wp st - start ->
  zlen (tlv MBEDTLS_ASN1_BIT_STRING (der_bits buf bits)) <= wp st - start ->
  (exists st' n, mbedtls_asn1_write_int start v st = Done (n, st') /\
     mbedtls_asn1_get_int (wbuf st') (wp st) (wp st') = Done (inr (wp st, v))) /\
  (exists st' n q, mbedtls_asn1_write_octet_string start buf size st = Done (n, st') /\
     mbedtls_asn1_get_tag (wbuf st') (wp st) MBEDTLS_ASN1_OCTET_STRING (wp st') = Done (inr (q, size)) /\
     ztake size (zdrop q (wbuf st')) = ztake size buf) /\
  (exists st' n bs, mbedtls_asn1_write_bitstring start buf bits st = Done (n, st') /\
     mbedtls_asn1_get_bitstring (wbuf st') (wp st) (wp st') = Done (inr (wp st, bs)) /\
     unused_bits bs = bs_len bs * 8 - bits /\
     forall i, 0 <= i < bits -> bit_at (zdrop (bs_p bs) (wbuf st')) i = bit_at buf i).
Proof.
  intros Hv Hb Hval Bb Hs Hbits Hl F1 F2 F3. pose proof Hv as (V1 & V2 & V3). split_and!.
  - destruct (der_int_value v Hval) as (Bi & Ni & Hi & Ei).
    destruct (written_element start st (mbedtls_asn1_write_int start v) MBEDTLS_ASN1_INTEGER (der_int v))
      as (st' & n & q & Ew & B' & L' & P' & He & Hq); [by apply (tagged_int_writes start v MBEDTLS_ASN1_INTEGER)|done|done|done|done|done|].
    exists st', n. split; [done|].
    destruct (get_tagged_int_exact (wbuf st') B' ltac:(lia) (wp st) (wp st') P' ltac:(lia) MBEDTLS_ASN1_INTEGER) as [_ H].
    apply H. exists q, (der_int v). split_and!; done || lia.
  - destruct (written_element start st (mbedtls_asn1_write_octet_string start buf size) MBEDTLS_ASN1_OCTET_STRING (ztake size buf))
      as (st' & n & q & Ew & B' & L' & P' & He & Hq);
      [by apply (tagged_writes start MBEDTLS_ASN1_OCTET_STRING)|done|done|done|auto with zlist|done|].
    assert (zlen (ztake size buf) = size) as Ls by (rewrite zlen_ztake; lia). rewrite Ls in Hq.
    exists st', n, q. split_and!; [done| |].
    + destruct (get_tag_exact (wbuf st') B' ltac:(lia) (wp st) MBEDTLS_ASN1_OCTET_STRING (wp st') P' ltac:(lia)) as [_ H].
      apply H. exists (ztake size buf). split_and!; done || lia.
    + apply element_has in He as (_ & _ & [_ Hc]). by rewrite Ls in Hc.
  - destruct (der_bits_parts buf bits Bb ltac:(lia) Hl) as (body & Ed & Bd & Lb & Hbit).
    destruct (written_element start st (mbedtls_asn1_write_bitstring start buf bits) MBEDTLS_ASN1_BIT_STRING (der_bits buf bits))
      as (st' & n & q & Ew & B' & L' & P' & He & Hq); [by apply bitstring_writes|done|done|done|done|done|].
    rewrite Ed in He, Hq. rewrite zlen_cons in Hq. set (u := (bits + 7) / 8 * 8 - bits) in *.
    assert (0 <= u <= 7) as Hu by (unfold u; Z.div_mod_to_equations; lia).
    exists st', n, (Bitstring (zlen body) u (q + 1)). cbn [unused_bits bs_len bs_p]. split_and!; [done| |lia|].
    + destruct (get_bitstring_exact (wbuf st') B' ltac:(lia) (wp st) (wp st') P' ltac:(lia)) as [_ H].
      apply H. exists q, u, body. split_and!; done || lia.
    + intros i Hi. rewrite <- Hbit by done. apply element_has in He as (_ & _ & Hh). apply has_cons in Hh as [_ Hh].
      unfold bit_at. rewrite (has_lookup _ _ _ (i / 8) Hh); [done|]. rewrite Lb. Z.div_mod_to_equations; lia.
Qed.

Lemma asn1_write_read_witness :
  exists st' n, mbedtls_asn1_write_int 0 200 (W (replicate 8 7) 8) = Done (n, st') /\
    mbedtls_asn1_get_int (wbuf st') 8 (wp st') = Done (inr (8, 200)).
Proof.
  destruct (asn1_write_read 0 (W (replicate 8 7) 8) 200 [0xA0; 0x40; 0] 2 24) as [H _].
  - split_and!; vm_compute; congruence.
  - apply (bool_decide_unpack _). vm_compute. exact I.
  - lia.
  - apply (bool_decide_unpack _). vm_compute. exact I.
  - vm_compute. split; discriminate.
  - lia.
  - vm_compute. discriminate.
  - vm_compute. discriminate.
  - vm_compute. discriminate.
  - vm_compute. discriminate.
  - exact H.
Defined.

(** A negative value is written as the low byte of it, which reads back as positive. *)
Example write_enum_negative :
  mbedtls_asn1_write_enum 0 (-1) (W (replicate 4 0) 4) = Done (4, W [0x0A; 2; 0; 0xff] 0) /\
  mbedtls_asn1_get_enum [0x0A; 2; 0; 0xff] 4 0 = Done (inr (4, 255)).
Proof. split; reflexivity. Qed.
