(* ===== verification/Asn1Named.v ===== *)
(** * Lists of named ASN.1 data

    The linked lists of [src/internal/mbedtls/asn1parse.c] and [asn1write.c] that hold a
    value per OID: looking one up, storing one, and the ways to free a list.  The heap is
    modelled by the answers the allocator gives and by the number of live blocks, so that
    leaks and double frees show.  The theorems show that a list keeps one entry per OID and
    owns exactly the live blocks through every store, failed ones included, and that
    freeing it gives all of them back. *)

From S2P Require Import Prelude.

(** An entry owns its node, its OID buffer and, when the value is not empty, a buffer for
    it; an empty value is the null pointer with length zero. *)
Record named_data := Named { nd_oid : list Z; nd_val : list Z }.

#[export] Instance named_data_eq_dec : EqDecision named_data.
Proof. solve_decision. Defined.

(** ** Allocation *)

Record heap := Heap { answers : list bool; live : Z }.

(** An allocator without answers left has no memory. *)
Definition calloc (h : heap) : bool * heap :=
  match answers h with
  | true :: a => (true, Heap a (live h + 1))
  | false :: a => (false, Heap a (live h))
  | [] => (false, h)
  end.

(** [free] of a null pointer does nothing. *)
Definition free (non_null : bool) (h : heap) : heap :=
  if non_null then Heap (answers h) (live h - 1) else h.

Definition non_empty (l : list Z) : bool := negb (zlen l =? 0).

(** ** Lookup *)

(** The condition of the loop: the lengths, then the bytes. *)
Definition oid_matches (cur : named_data) (oid : list Z) (len : Z) : outcome bool :=
  if zlen (nd_oid cur) =? len then
    o ← load oid 0 len; mret (bool_decide (nd_oid cur = o))
  else mret false.

(** The index of the entry that is found, [None] for the null pointer. *)
Fixpoint mbedtls_asn1_find_named_data (l : list named_data) (oid : list Z) (len : Z) : outcome (option nat) :=
  match l with
  | [] => mret None
  | cur :: rest =>
      found ← oid_matches cur oid len;
      if found : bool then mret (Some 0%nat) else
      r ← mbedtls_asn1_find_named_data rest oid len;
      mret (S <$> r)
  end.

(** ** Storing a value *)

(** The copy at the end of a store; [val] is the null pointer when it is [None]. *)
Definition copy_val (old : list Z) (val : option (list Z)) (val_len : Z) : outcome (list Z) :=
  match val with
  | Some v => if negb (val_len =? 0) then bs ← load v 0 val_len; store old 0 bs else mret old
  | None => mret old
  end.

(** A new entry for the head of the list, its value zeroed. *)
Definition new_entry (oid : list Z) (oid_len val_len : Z) (h : heap) : outcome (option named_data * heap) :=
  let '(ok, h) := calloc h in
  if negb ok then mret (None, h) else
  let '(ok, h) := calloc h in
  if negb ok then mret (None, free true h) else
  o ← load oid 0 oid_len;
  if negb (val_len =? 0) then
    let '(ok, h) := calloc h in
    if negb ok then mret (None, free true (free true h)) else
    mret (Some (Named o (replicate (Z.to_nat val_len) 0)), h)
  else mret (Some (Named o []), h).

(** The value buffer of an entry that is there, fitted to the new length. *)
Definition fit_val (cur : named_data) (val_len : Z) (h : heap) : option named_data * heap :=
  if val_len =? 0 then (Some (Named (nd_oid cur) []), free (non_empty (nd_val cur)) h)
  else if negb (zlen (nd_val cur) =? val_len) then
    let '(ok, h) := calloc h in
    if negb ok then (None, h) else
    (Some (Named (nd_oid cur) (replicate (Z.to_nat val_len) 0)), free (non_empty (nd_val cur)) h)
  else (Some cur, h).

(** The list, the heap and the index of the entry, [None] for the null pointer. *)
Definition mbedtls_asn1_store_named_data (head : list named_data) (oid : list Z) (oid_len : Z)
    (val : option (list Z)) (val_len : Z) (h : heap) : outcome (list named_data * heap * option nat) :=
  found ← mbedtls_asn1_find_named_data head oid oid_len;
  match found with
  | None =>
      '(e, h) ← new_entry oid oid_len val_len h;
      match e with
      | None => mret (head, h, None)
      | Some cur =>
          v ← copy_val (nd_val cur) val val_len;
          mret (Named (nd_oid cur) v :: head, h, Some 0%nat)
      end
  | Some i =>
      cur ← (match head !! i with Some cur => mret cur | None => Fault end);
      match fit_val cur val_len h with
      | (None, h) => mret (head, h, None)
      | (Some cur, h) =>
          v ← copy_val (nd_val cur) val val_len;
          mret (<[i := Named (nd_oid cur) v]> head, h, Some i)
      end
  end.

(** ** Freeing *)

Fixpoint mbedtls_asn1_free_named_data_list (l : list named_data) (h : heap) : heap :=
  match l with
  | [] => h
  | cur :: rest =>
      mbedtls_asn1_free_named_data_list rest (free true (free (non_empty (nd_val cur)) (free true h)))
  end.

(** The buffers belong to somebody else; only the nodes go. *)
Fixpoint mbedtls_asn1_free_named_data_list_shallow {A} (l : list A) (h : heap) : heap :=
  match l with
  | [] => h
  | _ :: rest => mbedtls_asn1_free_named_data_list_shallow rest (free true h)
  end.

(** The node stays and is cleared; [None] is the null pointer. *)
Definition mbedtls_asn1_free_named_data (cur : option named_data) (h : heap) : option named_data * heap :=
  match cur with
  | None => (None, h)
  | Some c => (Some (Named [] []), free (non_empty (nd_val c)) (free true h))
  end.

Fixpoint mbedtls_asn1_sequence_free {A} (seq : list A) (h : heap) : heap :=
  match seq with
  | [] => h
  | _ :: next => mbedtls_asn1_sequence_free next (free true h)
  end.

(** ** Ownership *)

(** The blocks a list owns. *)
Definition val_blocks (e : named_data) : Z := if non_empty (nd_val e) then 1 else 0.

Fixpoint blocks (l : list named_data) : Z :=
  match l with [] => 0 | e :: l => 2 + val_blocks e + blocks l end.

(** One entry per OID, and the list owns its blocks out of the live ones. *)
Record list_ok (others : Z) (l : list named_data) (h : heap) : Prop := ListOk {
  lo_nodup : NoDup (nd_oid <$> l);
  lo_live : live h = others + blocks l
}.

(** The abstract view: the value an OID has. *)
Fixpoint lookup (l : list named_data) (oid : list Z) : option (list Z) :=
  match l with
  | [] => None
  | e :: l => if decide (nd_oid e = oid) then Some (nd_val e) else lookup l oid
  end.

Lemma oid_matches_spec e oid : oid_matches e oid (zlen oid) = Done (bool_decide (nd_oid e = oid)).
Proof.
  unfold oid_matches. pose proof (zlen_nonneg oid). rewrite load_Done, zdrop_0, ztake_all, bind_Done by lia.
  split_if; [done|]. rewrite bool_decide_false; [done|]. intros Ee. by rewrite Ee in *.
Qed.

Lemma find_spec oid l :
  exists r, mbedtls_asn1_find_named_data l oid (zlen oid) = Done r /\
    match r with
    | None => oid ∉ (nd_oid <$> l)
    | Some i => exists e, l !! i = Some e /\ nd_oid e = oid
    end.
Proof.
  induction l as [|e l IH]; cbn [mbedtls_asn1_find_named_data]; [exists None; split; [done|]; apply not_elem_of_nil|].
  rewrite oid_matches_spec, bind_Done. case_bool_decide as E; [exists (Some 0%nat); split; [done|]; by exists e|].
  destruct IH as (r & -> & H). rewrite bind_Done. exists (S <$> r). split; [done|]. destruct r as [i|]; cbn [fmap option_fmap option_map].
  - done.
  - rewrite fmap_cons, not_elem_of_cons. naive_solver.
Qed.

Lemma calloc_spec h : exists (ok : bool) a, calloc h = (ok, Heap a (live h + if ok then 1 else 0)).
Proof.
  unfold calloc. destruct h as [[|[] a] n]; cbn [answers live].
  - exists false, []. by rewrite Z.add_0_r.
  - by exists true, a.
  - exists false, a. by rewrite Z.add_0_r.
Qed.

(** The contract of the value: null, or at least as long as the length given. *)
Definition val_ok (val : option (list Z)) (val_len : Z) : Prop :=
  0 <= val_len /\ forall v, val = Some v -> val_len <= zlen v.

(** What the value of an entry becomes: the bytes given, or the old ones. *)
Definition stored (old : list Z) (val : option (list Z)) (val_len : Z) : list Z :=
  match val with Some v => ztake val_len v | None => old end.

Lemma copy_val_spec old val val_len :
  val_ok val val_len -> zlen old = val_len ->
  copy_val old val val_len = Done (stored old val val_len) /\ zlen (stored old val val_len) = val_len.
Proof.
  intros [H0 Hv] Ho. unfold copy_val, stored. destruct val as [v|]; [|done]. specialize (Hv v eq_refl).
  assert (zlen (ztake val_len v) = val_len) as L by (rewrite zlen_ztake; lia).
  split_if.
  - split; [|done]. rewrite load_Done, zdrop_0, bind_Done, store_Done, L by lia.
    rewrite ztake_0, zdrop_all by lia. cbn [app]. by rewrite app_nil_r.
  - split; [|done]. destruct old as [|z old]; [by replace val_len with 0 by lia|].
    rewrite zlen_cons in Ho. pose proof (zlen_nonneg old). lia.
Qed.

Lemma val_blocks_zeros oid n : 0 < n -> val_blocks (Named oid (replicate (Z.to_nat n) 0)) = 1.
Proof.
  intros H. unfold val_blocks, non_empty. cbn [nd_val]. rewrite zlen_replicate, Z2Nat.id by lia.
  by rewrite (proj2 (Z.eqb_neq _ 0)) by lia.
Qed.

Lemma blocks_insert l i e e' : l !! i = Some e -> blocks (<[i := e']> l) = blocks l - val_blocks e + val_blocks e'.
Proof.
  revert i. induction l as [|x l IH]; intros [|i] H; cbn [blocks list_insert insert] in *; try done.
  - injection H as ->. cbn [blocks]. lia.
  - change (blocks (x :: <[i := e']> l) = 2 + val_blocks x + blocks l - val_blocks e + val_blocks e').
    cbn [blocks]. rewrite (IH i H). lia.
Qed.

Lemma lookup_insert_same l i e v oid : NoDup (nd_oid <$> l) -> l !! i = Some e -> nd_oid e = oid ->
  lookup (<[i := Named oid v]> l) oid = Some v.
Proof.
  revert i. induction l as [|x l IH]; intros [|i] Hn H Ho; try done.
  - injection H as ->. change (lookup (Named oid v :: l) oid = Some v). cbn [lookup nd_oid nd_val]. by rewrite decide_True.
  - change (lookup (x :: <[i := Named oid v]> l) oid = Some v). cbn [lookup]. rewrite fmap_cons, NoDup_cons in Hn.
    destruct Hn as [Hx Hn]. rewrite decide_False; [by eapply IH|]. intros E. apply Hx. rewrite E, <- Ho.
    apply (list_elem_of_fmap_2 nd_oid), (list_elem_of_lookup_2 _ i). exact H.
Qed.

Lemma lookup_insert_other l i e v oid oid' : l !! i = Some e -> nd_oid e = oid -> oid' <> oid ->
  lookup (<[i := Named oid v]> l) oid' = lookup l oid'.
Proof.
  revert i. induction l as [|x l IH]; intros [|i] H Ho Hne; try done.
  - injection H as ->. change (lookup (Named oid v :: l) oid' = lookup (e :: l) oid'). cbn [lookup nd_oid].
    rewrite !decide_False by congruence. done.
  - change (lookup (x :: <[i := Named oid v]> l) oid' = lookup (x :: l) oid'). cbn [lookup].
    by rewrite (IH i H Ho Hne).
Qed.

Lemma new_entry_spec oid val_len h : 0 <= val_len ->
  exists r h', new_entry oid (zlen oid) val_len h = Done (r, h') /\
    match r with
    | None => live h' = live h
    | Some e => nd_oid e = oid /\ zlen (nd_val e) = val_len /\ live h' = live h + 2 + val_blocks e
    end.
Proof.
  intros Hl. pose proof (zlen_nonneg oid). unfold new_entry.
  destruct (calloc_spec h) as (ok1 & a1 & ->). destruct ok1; cbn [negb]; [|eexists _, _; split; [done|]; cbn [live]; lia].
  destruct (calloc_spec (Heap a1 (live h + 1))) as (ok2 & a2 & ->). cbn [live].
  destruct ok2; cbn [negb]; [|eexists _, _; split; [done|]; cbn [live free answers]; lia].
  rewrite load_Done, zdrop_0, ztake_all, bind_Done by lia. destruct (val_len =? 0) eqn:E; bool_to_prop; cbn [negb].
  { eexists _, _. split; [done|]. cbn [live nd_oid nd_val]. split_and!; [done|done|]. change (val_blocks (Named oid [])) with 0. lia. }
  match goal with |- context [calloc ?x] => destruct (calloc_spec x) as (ok3 & a3 & ->) end. cbn [live].
  destruct ok3; cbn [negb]; [|eexists _, _; split; [done|]; cbn [live free answers]; lia].
  eexists _, _. split; [done|]. cbn [live nd_oid nd_val]. split_and!; [done|rewrite zlen_replicate; lia|].
  rewrite val_blocks_zeros by lia. lia.
Qed.

Lemma fit_val_spec cur val_len h : 0 <= val_len ->
  exists r h', fit_val cur val_len h = (r, h') /\
    match r with
    | None => live h' = live h
    | Some e => nd_oid e = nd_oid cur /\ zlen (nd_val e) = val_len /\ live h' = live h - val_blocks cur + val_blocks e
    end.
Proof.
  intros Hl. unfold fit_val.
  assert (forall a n, live (free (non_empty (nd_val cur)) (Heap a n)) = n - val_blocks cur) as Hf.
  { intros a n. unfold free, val_blocks. destruct (non_empty (nd_val cur)); cbn [live answers]; lia. }
  destruct (val_len =? 0) eqn:E; bool_to_prop.
  { eexists _, _. split; [done|]. destruct h as [a n]. rewrite Hf. cbn [nd_oid nd_val live]. split_and!; [done..|].
    change (val_blocks (Named (nd_oid cur) [])) with 0. lia. }
  destruct (zlen (nd_val cur) =? val_len) eqn:E1; bool_to_prop; cbn [negb].
  { eexists _, _. split; [done|]. split_and!; [done|done|lia]. }
  destruct (calloc_spec h) as (ok & a & ->). destruct ok; cbn [negb]; [|eexists _, _; split; [done|]; cbn [live]; lia].
  eexists _, _. split; [done|]. rewrite Hf. cbn [nd_oid nd_val]. split_and!; [done|rewrite zlen_replicate; lia|].
  rewrite val_blocks_zeros by lia. lia.
Qed.

Lemma val_blocks_length e e' : zlen (nd_val e) = zlen (nd_val e') -> val_blocks e = val_blocks e'.
Proof. intros E. unfold val_blocks, non_empty. by rewrite E. Qed.

(** C19.  Storing a value keeps the list well formed whether or not the allocations succeed: one
    entry per OID, and exactly the live blocks owned by the list, so nothing leaks and
    nothing is freed twice.  When it fails the list is the one before; when it succeeds
    the OID has a value of the length asked for, with the bytes given if there are any,
    and the value of every other OID is what it was. *)
Theorem asn1_store_named_data_correct others l oid val val_len h :
  list_ok others l h -> val_ok val val_len ->
  exists l' h' r, mbedtls_asn1_store_named_data l oid (zlen oid) val val_len h = Done (l', h', r) /\
    list_ok others l' h' /\
    match r with
    | None => l' = l
    | Some i => exists v, l' !! i = Some (Named oid v) /\ zlen v = val_len /\
        (forall x, val = Some x -> v = ztake val_len x) /\ lookup l' oid = Some v /\
        forall oid', oid' <> oid -> lookup l' oid' = lookup l oid'
    end.
Proof.
  intros [Hn Hlive] Hv. pose proof Hv as [H0 _]. unfold mbedtls_asn1_store_named_data.
  assert (forall v0 x, val = Some x -> stored v0 val val_len = ztake val_len x) as Hst by (by intros v0 x ->).
  destruct (find_spec oid l) as ([i|] & -> & Hf); rewrite bind_Done.
  - destruct Hf as (cur & Hi & Ho). rewrite Hi, bind_Done.
    destruct (fit_val_spec cur val_len h H0) as ([e|] & h' & -> & Hr).
    2: { exists l, h', None. split_and!; [done| |done]. constructor; [done|congruence]. }
    destruct Hr as (Eo & Lv & Lh). destruct (copy_val_spec (nd_val e) val val_len Hv Lv) as [-> Ls]. rewrite bind_Done.
    rewrite Eo, Ho. set (v := stored _ _ _) in *.
    assert (<[i := Named oid v]> l !! i = Some (Named oid v)) as Hl'.
    { apply list_lookup_insert_eq. by eapply lookup_lt_Some. }
    exists (<[i := Named oid v]> l), h', (Some i). split_and!; [done| |].
    + constructor.
      * rewrite list_fmap_insert. cbn [nd_oid]. rewrite list_insert_id; [done|]. by rewrite list_lookup_fmap, Hi, <- Ho.
      * rewrite (blocks_insert l i cur), (val_blocks_length (Named oid v) e) by (done || cbn [nd_val]; lia). lia.
    + exists v. split_and!; [done|done|by apply Hst| |].
      * by eapply lookup_insert_same.
      * intros oid' Hne. by eapply lookup_insert_other.
  - destruct (new_entry_spec oid val_len h H0) as ([e|] & h' & -> & Hr); rewrite bind_Done; cbv beta iota.
    2: { exists l, h', None. split_and!; [done| |done]. constructor; [done|congruence]. }
    destruct Hr as (Eo & Lv & Lh). destruct (copy_val_spec (nd_val e) val val_len Hv Lv) as [-> Ls]. rewrite bind_Done.
    rewrite Eo. set (v := stored _ _ _) in *. exists (Named oid v :: l), h', (Some 0%nat). split_and!; [done| |].
    + constructor; [rewrite fmap_cons; by apply NoDup_cons|]. cbn [blocks].
      rewrite (val_blocks_length (Named oid v) e) by (cbn [nd_val]; lia). lia.
    + exists v. split_and!; [done|done|by apply Hst|cbn [lookup nd_oid nd_val]; by rewrite decide_True|].
      intros oid' Hne. cbn [lookup nd_oid]. by rewrite decide_False.
Qed.

Lemma asn1_store_named_data_correct_witness :
  exists l' h' r, mbedtls_asn1_store_named_data [Named [42] [1; 2]] [42] 1 (Some [7; 8; 9]) 3 (Heap [true] 3)
    = Done (l', h', r) /\ list_ok 0 l' h'.
Proof.
  destruct (asn1_store_named_data_correct 0 [Named [42] [1; 2]] [42] (Some [7; 8; 9]) 3 (Heap [true] 3))
    as (l' & h' & r & E & H & _).
  - constructor; [apply NoDup_singleton|reflexivity].
  - split; [lia|]. intros v [= <-]. vm_compute. discriminate.
  - exists l', h', r. split; [exact E|exact H].
Defined.

(** Freeing a list gives back every block it owns, and no other. *)
Theorem asn1_free_named_data_list_correct others l h :
  list_ok others l h -> live (mbedtls_asn1_free_named_data_list l h) = others.
Proof.
  intros [_ Hl]. revert h Hl. induction l as [|e l IH]; intros h Hl; cbn [mbedtls_asn1_free_named_data_list blocks] in *; [lia|].
  apply IH. unfold free, val_blocks in *. destruct (non_empty (nd_val e)); cbn [live]; lia.
Qed.

Lemma free_nodes_spec {A} (l : list A) h :
  live (mbedtls_asn1_sequence_free l h) = live h - zlen l /\
  live (mbedtls_asn1_free_named_data_list_shallow l h) = live h - zlen l.
Proof.
  revert h. induction l as [|x l IH]; intros h; cbn [mbedtls_asn1_sequence_free mbedtls_asn1_free_named_data_list_shallow].
  - change (zlen []) with 0. lia.
  - destruct (IH (free true h)) as [-> ->]. rewrite zlen_cons. cbn [free live]. lia.
Qed.
