(* ===== verification/LimbMem.v ===== *)
(** * Memory of the big-number code

    The functions of [src/internal/mbedtls/bignum_core.c] work on arrays of 64-bit limbs
    that are given by pointers, may be the same array, and are parts of one scratch area.
    The model therefore has one memory of bytes, addresses into it, and programs that pass
    it on; limbs are stored little-endian.  [mpi m p n] is the number in the [n] limbs at
    [p], [frame P m m'] says that only bytes in [P] changed, and [runs c m Q] that the
    program [c] ends without a fault from [m] with a result and a memory in [Q]. *)

From S2P Require Import Prelude Bytes.

Notation mem := (list Z).

(** ** Programs *)

Definition prog (A : Type) : Type := mem -> outcome (A * mem).

#[export] Instance prog_ret : MRet prog := fun A a m => Done (a, m).
#[export] Instance prog_bind : MBind prog := fun A B f c m => '(a, m) ← c m; f a m.

(** A computation that does not look at the memory. *)
Definition lift {A} (o : outcome A) : prog A := fun m => a ← o; Done (a, m).

(** [ciL] and [biL] of [bignum_core.h]: bytes and bits of a limb. *)
Definition ciL : Z := 8.
Definition biL : Z := 64.

(** [p[i]] and [p[i] = x] for an array of limbs at the address [p]. *)
Definition get (p i : Z) : prog Z := fun m => l ← load m (p + ciL * i) ciL; Done (le l, m).
Definition set (p i x : Z) : prog () := fun m => m ← store m (p + ciL * i) (le_bytes 8 x); Done (tt, m).

(** The same for bytes. *)
Definition get_byte (p i : Z) : prog Z := fun m => b ← load8 m (p + i); Done (b, m).
Definition set_byte (p i x : Z) : prog () := fun m => m ← store m (p + i) [u8 x]; Done (tt, m).

Definition memset (p c n : Z) : prog () := fun m =>
  m ← store m p (replicate (Z.to_nat n) (u8 c)); Done (tt, m).

(** Copying between regions that overlap is undefined. *)
Definition memcpy (d s n : Z) : prog () := fun m =>
  if (d + n <=? s) || (s + n <=? d) || (n =? 0)
  then l ← load m s n; m ← store m d l; Done (tt, m) else Fault.

(** [for (i = lo; i < lo + k; i++)] and [for (i = hi; i > hi - k; i--)] over a state of
    local variables. *)
Fixpoint loop_up {S} (k : nat) (i : Z) (s : S) (body : Z -> S -> prog S) : prog S :=
  match k with
  | O => mret s
  | Datatypes.S k => s ← body i s; loop_up k (i + 1) s body
  end.

Fixpoint loop_down {S} (k : nat) (i : Z) (s : S) (body : Z -> S -> prog S) : prog S :=
  match k with
  | O => mret s
  | Datatypes.S k => s ← body i s; loop_down k (i - 1) s body
  end.

(** [for (i = lo; i < hi; i++)]. *)
Definition for_up {S} (lo hi : Z) (s : S) (body : Z -> S -> prog S) : prog S :=
  loop_up (Z.to_nat (hi - lo)) lo s body.

(** [for (i = hi; i > lo; i--)]. *)
Definition for_down {S} (hi lo : Z) (s : S) (body : Z -> S -> prog S) : prog S :=
  loop_down (Z.to_nat (hi - lo)) hi s body.

(** ** What the memory holds *)

Definition mpi (m : mem) (p n : Z) : Z := le (ztake (ciL * n) (zdrop p m)).

Definition fits (m : mem) (p n : Z) : Prop := 0 <= p /\ 0 <= n /\ p + ciL * n <= zlen m.

Definition wf (m : mem) : Prop := is_bytes m /\ zlen m < 2 ^ 64.

(** The bytes of the [n] limbs at [p]. *)
Definition inside (p n i : Z) : Prop := p <= i < p + ciL * n.

Definition frame (P : Z -> Prop) (m m' : mem) : Prop :=
  zlen m' = zlen m /\ is_bytes m' /\
  forall i, 0 <= i < zlen m -> ~ P i -> m' !!! Z.to_nat i = m !!! Z.to_nat i.

(** Two regions of [n] and [k] limbs without a common byte. *)
Definition apart (p n q k : Z) : Prop := p + ciL * n <= q \/ q + ciL * k <= p.

(** What the headers allow: the same array, or another one. *)
Definition alias_ok (X A n : Z) : Prop := A = X \/ apart X n A n.

Definition runs {A} (c : prog A) (m : mem) (Q : A -> mem -> Prop) : Prop :=
  exists a m', c m = Done (a, m') /\ Q a m'.

(** The base of the limbs to the [n]. *)
Definition base (n : Z) : Z := 2 ^ (biL * n).

Ltac regions := unfold alias_ok, apart, fits, inside, ciL in *; lia.

(** ** Rules for programs *)

Lemma runs_ret {A} (a : A) m (Q : A -> mem -> Prop) : Q a m -> runs (mret a) m Q.
Proof. intros H. by exists a, m. Qed.

Lemma runs_bind {A B} (c : prog A) (f : A -> prog B) m (R : A -> mem -> Prop) Q :
  runs c m R -> (forall a m', R a m' -> runs (f a) m' Q) -> runs (c ≫= f) m Q.
Proof.
  intros (a & m1 & E & H) K. destruct (K a m1 H) as (b & m2 & E2 & H2).
  exists b, m2. unfold mbind, prog_bind. by rewrite E.
Qed.

Lemma runs_mono {A} (c : prog A) m (R Q : A -> mem -> Prop) :
  runs c m R -> (forall a m', R a m' -> Q a m') -> runs c m Q.
Proof. intros (a & m' & E & H) K. exists a, m'. auto. Qed.

Lemma runs_up {S} (I : Z -> S -> mem -> Prop) (lo hi : Z) s body m :
  lo <= hi -> I lo s m ->
  (forall i s m, lo <= i < hi -> I i s m -> runs (body i s) m (fun s' m' => I (i + 1) s' m')) ->
  runs (for_up lo hi s body) m (fun s' m' => I hi s' m').
Proof.
  intros Hle H0 Hb. unfold for_up.
  enough (forall k i s m, lo <= i -> i + Z.of_nat k = hi -> I i s m ->
    runs (loop_up k i s body) m (fun s' m' => I hi s' m')) as G by (apply G; auto; lia).
  induction k as [|k IH]; intros i t m' Hi Hk HI; cbn [loop_up].
  - apply runs_ret. by replace hi with i by lia.
  - eapply runs_bind; [apply Hb; [lia|done]|]. intros t' m1 H1. apply IH; auto; lia.
Qed.

Lemma runs_down {S} (I : Z -> S -> mem -> Prop) (hi lo : Z) s body m :
  lo <= hi -> I hi s m ->
  (forall i s m, lo < i <= hi -> I i s m -> runs (body i s) m (fun s' m' => I (i - 1) s' m')) ->
  runs (for_down hi lo s body) m (fun s' m' => I lo s' m').
Proof.
  intros Hle H0 Hb. unfold for_down.
  enough (forall k i s m, i <= hi -> i - Z.of_nat k = lo -> I i s m ->
    runs (loop_down k i s body) m (fun s' m' => I lo s' m')) as G by (apply G; auto; lia).
  induction k as [|k IH]; intros i t m' Hi Hk HI; cbn [loop_down].
  - apply runs_ret. by replace lo with i by lia.
  - eapply runs_bind; [apply Hb; [lia|done]|]. intros t' m1 H1. apply IH; auto; lia.
Qed.

(** ** Numbers in memory *)

Lemma base_pos n : 0 < base n \/ n < 0.
Proof. unfold base, biL. destruct (Z.lt_ge_cases n 0); [by right|left]. apply Z.pow_pos_nonneg; lia. Qed.

Lemma base_gt0 n : 0 <= n -> 0 < base n.
Proof. intros. destruct (base_pos n); lia. Qed.

Lemma base_0 : base 0 = 1.
Proof. reflexivity. Qed.

Lemma base_1 : base 1 = 2 ^ 64.
Proof. reflexivity. Qed.

Lemma base_add n k : 0 <= n -> 0 <= k -> base (n + k) = base n * base k.
Proof. intros. unfold base, biL. rewrite Z.mul_add_distr_l, Z.pow_add_r by lia. done. Qed.

Lemma base_succ n : 0 <= n -> base (n + 1) = base n * 2 ^ 64.
Proof. intros. by rewrite base_add by lia. Qed.

Lemma slice_len (m : mem) p k : 0 <= p -> 0 <= k -> p + k <= zlen m -> zlen (ztake k (zdrop p m)) = k.
Proof. intros. rewrite zlen_ztake; [done|]. rewrite zlen_zdrop; lia. Qed.

Lemma mpi_range m p n : is_bytes m -> fits m p n -> 0 <= mpi m p n < base n.
Proof.
  unfold fits, mpi, base, biL, ciL. intros B (H0 & H1 & H2).
  pose proof (le_range (ztake (8 * n) (zdrop p m)) ltac:(auto with zlist)) as R.
  rewrite slice_len in R by lia. by replace (64 * n) with (8 * (8 * n)) by lia.
Qed.

Lemma mpi_0 m p : mpi m p 0 = 0.
Proof. reflexivity. Qed.

Lemma mpi_add m p n k : fits m p (n + k) -> 0 <= n -> 0 <= k ->
  mpi m p (n + k) = mpi m p n + base n * mpi m (p + ciL * n) k.
Proof.
  unfold fits, mpi, base, biL, ciL. intros (H0 & H1 & H2) Hn Hk.
  rewrite Z.mul_add_distr_l, ztake_add, le_app, zdrop_zdrop, slice_len by lia.
  by replace (8 * (8 * n)) with (64 * n) by lia.
Qed.

Lemma mpi_succ m p n : fits m p (n + 1) -> 0 <= n ->
  mpi m p (n + 1) = mpi m p n + base n * mpi m (p + ciL * n) 1.
Proof. intros. apply mpi_add; auto; lia. Qed.

Lemma mpi_cons m p n : fits m p n -> 0 < n ->
  mpi m p n = mpi m p 1 + 2 ^ 64 * mpi m (p + ciL * 1) (n - 1).
Proof. intros H Hn. rewrite <- base_1. replace n with (1 + (n - 1)) at 1 by lia. apply mpi_add; [regions|lia..]. Qed.

(** ** Frames *)

Lemma frame_same (P : Z -> Prop) m : is_bytes m -> frame P m m.
Proof. by unfold frame. Qed.

Lemma frame_seq (P : Z -> Prop) m m1 m2 : frame P m m1 -> frame P m1 m2 -> frame P m m2.
Proof.
  intros (L1 & B1 & H1) (L2 & B2 & H2). split_and!; [lia|done|].
  intros i Hi HP. rewrite H2 by (auto; lia). by apply H1.
Qed.

Lemma frame_mono (P R : Z -> Prop) m m' : frame P m m' -> (forall i, P i -> R i) -> frame R m m'.
Proof. intros (L & B & H) K. split_and!; [done..|]. intros i Hi HR. apply H; auto. Qed.

Lemma frame_then (P R : Z -> Prop) (Q : Z -> Prop) m m1 m2 :
  frame P m m1 -> frame R m1 m2 -> (forall i, P i -> Q i) -> (forall i, R i -> Q i) -> frame Q m m2.
Proof. intros H1 H2 K1 K2. eapply frame_seq; eapply frame_mono; eauto. Qed.

Lemma frame_len (P : Z -> Prop) m m' : frame P m m' -> zlen m' = zlen m.
Proof. by intros []. Qed.

Lemma frame_bytes (P : Z -> Prop) m m' : frame P m m' -> is_bytes m'.
Proof. by intros (_ & ? & _). Qed.

Lemma frame_wf (P : Z -> Prop) m m' : wf m -> frame P m m' -> wf m'.
Proof. intros [_ L] (L' & B & _). split; [done|lia]. Qed.

Lemma frame_fits (P : Z -> Prop) m m' p n : frame P m m' -> fits m p n -> fits m' p n.
Proof. intros F. unfold fits. by rewrite (frame_len _ _ _ F). Qed.

Lemma frame_slice (P : Z -> Prop) m m' p k :
  frame P m m' -> 0 <= p -> p + k <= zlen m -> (forall i, p <= i < p + k -> ~ P i) ->
  ztake k (zdrop p m') = ztake k (zdrop p m).
Proof.
  intros (L & _ & H) H0 H1 K. unfold ztake, zdrop. apply list_eq. intros i.
  destruct (decide (i < Z.to_nat k)%nat).
  - rewrite !lookup_take_lt, !lookup_drop by lia. unfold zlen in *.
    rewrite !list_lookup_lookup_total_lt by lia. f_equal.
    specialize (H (p + Z.of_nat i) ltac:(lia) ltac:(apply K; lia)).
    by replace (Z.to_nat (p + Z.of_nat i)) with (Z.to_nat p + i)%nat in H by lia.
  - rewrite !lookup_take_ge by lia. done.
Qed.

Lemma frame_mpi (P : Z -> Prop) m m' p n :
  frame P m m' -> fits m p n -> (forall i, inside p n i -> ~ P i) -> mpi m' p n = mpi m p n.
Proof.
  intros F (H0 & H1 & H2) K. unfold mpi. by rewrite (frame_slice P m m') by (done || lia).
Qed.

(** ** Accesses *)

Lemma splice_frame m p bs : is_bytes m -> is_bytes bs -> 0 <= p -> p + zlen bs <= zlen m ->
  frame (fun i => p <= i < p + zlen bs) m (splice m p bs).
Proof.
  intros Bm Bb H0 H1. split_and!.
  - by apply zlen_splice.
  - unfold splice. auto with zlist.
  - intros i Hi HP. unfold splice, ztake, zdrop, zlen in *.
    destruct (Z.lt_ge_cases i p).
    + rewrite lookup_total_app_l by (rewrite length_take; lia). by rewrite lookup_total_take_lt by lia.
    + rewrite lookup_total_app_r by (rewrite length_take; lia). rewrite length_take.
      rewrite lookup_total_app_r by lia. rewrite lookup_total_drop. f_equal. lia.
Qed.

Lemma le_bytes_bytes n x : is_bytes (le_bytes n x).
Proof.
  revert x. induction n as [|n IH]; intros x; cbn [le_bytes]; constructor; [|apply IH].
  unfold is_byte. apply (Z.mod_pos_bound x (2 ^ 8)). lia.
Qed.

Lemma le_le_bytes n x : le (le_bytes n x) = x mod 2 ^ (8 * Z.of_nat n).
Proof.
  revert x. induction n as [|n IH]; intros x; cbn [le_bytes le]; [by rewrite Z.mod_1_r|].
  rewrite IH. replace (8 * Z.of_nat (S n)) with (8 + 8 * Z.of_nat n) by lia.
  rewrite Z.pow_add_r by lia. assert (0 < 2 ^ (8 * Z.of_nat n)) by (apply Z.pow_pos_nonneg; lia).
  by rewrite Z.rem_mul_r by lia.
Qed.

Lemma runs_get p i m (Q : Z -> mem -> Prop) :
  fits m (p + ciL * i) 1 -> Q (mpi m (p + ciL * i) 1) m -> runs (get p i) m Q.
Proof.
  intros (H0 & _ & H1) H. eexists _, m. split; [|exact H]. unfold get.
  rewrite load_Done by (unfold ciL in *; lia). done.
Qed.

Lemma runs_set p i x m (Q : () -> mem -> Prop) :
  is_bytes m -> fits m (p + ciL * i) 1 ->
  (forall m', frame (inside (p + ciL * i) 1) m m' -> mpi m' (p + ciL * i) 1 = u64 x -> Q tt m') ->
  runs (set p i x) m Q.
Proof.
  intros B (H0 & _ & H1) H. pose proof (le_bytes_length 8 x) as L.
  exists tt, (splice m (p + ciL * i) (le_bytes 8 x)). unfold ciL in *. split.
  - unfold set, ciL. by rewrite store_splice by (rewrite ?L; lia).
  - apply H.
    + eapply frame_mono; [apply splice_frame; rewrite ?L; auto using le_bytes_bytes; lia|].
      intros j. rewrite L. unfold inside, ciL. lia.
    + unfold mpi, ciL. change (8 * 1) with (Z.of_nat 8). rewrite <- L.
      rewrite splice_read by (rewrite ?L; lia). apply le_le_bytes.
Qed.

Lemma runs_memset_bytes p c n m (Q : () -> mem -> Prop) :
  0 <= p -> 0 <= n -> p + n <= zlen m ->
  Q tt (splice m p (replicate (Z.to_nat n) (u8 c))) -> runs (memset p c n) m Q.
Proof.
  intros H0 Hn H1 H. eexists tt, _. split; [|exact H]. unfold memset.
  by rewrite store_splice by (rewrite ?zlen_replicate; lia).
Qed.

Lemma splice_mpi m p n bs : fits m p n -> zlen bs = ciL * n -> mpi (splice m p bs) p n = le bs.
Proof.
  intros (H0 & Hn & H1) L. unfold mpi. rewrite <- L, splice_read by lia. done.
Qed.

Lemma u64_limbs m p n : wf m -> fits m p n -> u64 (n * ciL) = ciL * n.
Proof. intros [_ L] (H0 & Hn & H1). unfold u64. rewrite Z.mod_small; unfold ciL in *; lia. Qed.

Lemma runs_memset m p n (Q : () -> mem -> Prop) :
  wf m -> fits m p n ->
  (forall m', frame (inside p n) m m' -> mpi m' p n = 0 -> Q tt m') -> runs (memset p 0 (u64 (n * ciL))) m Q.
Proof.
  intros W F H. rewrite (u64_limbs m p n) by done. destruct W as [B Lm]. pose proof F as (H0 & Hn & H1).
  assert (zlen (replicate (Z.to_nat (ciL * n)) (u8 0)) = ciL * n) as L
    by (rewrite zlen_replicate; unfold ciL; lia).
  apply runs_memset_bytes; [unfold ciL in *; lia..|]. apply H.
  - eapply frame_mono; [apply splice_frame; rewrite ?L; auto using is_bytes_replicate, u8_byte|].
    intros i. by rewrite L.
  - rewrite splice_mpi by done. apply le_zeros.
Qed.

Lemma runs_memcpy_bytes d s n m (Q : () -> mem -> Prop) :
  0 <= n -> 0 <= s -> 0 <= d -> s + n <= zlen m -> d + n <= zlen m -> n = 0 \/ d + n <= s \/ s + n <= d ->
  Q tt (splice m d (ztake n (zdrop s m))) -> runs (memcpy d s n) m Q.
Proof.
  intros Hn Hs Hd Ls Ld Hap H. eexists tt, _. split; [|exact H]. unfold memcpy.
  replace ((d + n <=? s) || (s + n <=? d) || (n =? 0)) with true by lia.
  rewrite load_Done by lia. rewrite bind_Done, store_splice by (rewrite ?slice_len; lia). done.
Qed.

Lemma runs_memcpy m d s n (Q : () -> mem -> Prop) :
  wf m -> fits m d n -> fits m s n -> apart d n s n ->
  (forall m', frame (inside d n) m m' -> mpi m' d n = mpi m s n -> Q tt m') -> runs (memcpy d s (u64 (n * ciL))) m Q.
Proof.
  intros W Fd Fs Hap H. rewrite (u64_limbs m d n) by done. destruct W as [B Lm].
  pose proof Fd as (D0 & Dn & D1). pose proof Fs as (S0 & _ & S1).
  assert (zlen (ztake (ciL * n) (zdrop s m)) = ciL * n) as L by (apply slice_len; unfold ciL in *; lia).
  apply runs_memcpy_bytes; [unfold ciL in *; regions..|]. apply H.
  - eapply frame_mono; [apply splice_frame; rewrite ?L; auto with zlist|]. intros i. by rewrite L.
  - by rewrite splice_mpi.
Qed.

Lemma mpi_word m p : is_bytes m -> fits m p 1 -> 0 <= mpi m p 1 < 2 ^ 64.
Proof. intros B F. pose proof (mpi_range m p 1 B F). by rewrite base_1 in *. Qed.

Lemma u64_range x : 0 <= u64 x < 2 ^ 64.
Proof. apply Z.mod_pos_bound. lia. Qed.

Lemma u64_id x : 0 <= x < 2 ^ 64 -> u64 x = x.
Proof. apply Z.mod_small. Qed.

(** Addition of words as the code detects its carry. *)
Lemma add64_carry x y : 0 <= x < 2 ^ 64 -> 0 <= y < 2 ^ 64 ->
  u64 (x + y) + 2 ^ 64 * (if u64 (x + y) <? y then 1 else 0) = x + y.
Proof. unfold u64. intros. split_if; Z.div_mod_to_equations; lia. Qed.

Lemma sub64_borrow x y : 0 <= x < 2 ^ 64 -> 0 <= y < 2 ^ 64 ->
  u64 (x - y) = x - y + 2 ^ 64 * (if x <? y then 1 else 0).
Proof. unfold u64. intros. split_if; Z.div_mod_to_equations; lia. Qed.

(** ** Arrays that are worked through limb by limb *)

Lemma runs_read (P : Z -> Prop) A i n m m1 (Q : Z -> mem -> Prop) :
  frame P m m1 -> fits m A n -> 0 <= i < n -> (forall j, inside (A + ciL * i) 1 j -> ~ P j) ->
  Q (mpi m (A + ciL * i) 1) m1 -> runs (get A i) m1 Q.
Proof.
  intros F Ft Hi K H. assert (fits m (A + ciL * i) 1) by regions.
  apply runs_get; [by eapply frame_fits|]. by rewrite (frame_mpi P m m1) by done.
Qed.

(** Writing limb [i] after those below it. *)
Lemma runs_push X i x n m m1 (Q : () -> mem -> Prop) :
  fits m X n -> 0 <= i < n -> frame (inside X i) m m1 ->
  (forall m2, frame (inside X (i + 1)) m m2 -> mpi m2 X (i + 1) = mpi m1 X i + base i * u64 x -> Q tt m2) ->
  runs (set X i x) m1 Q.
Proof.
  intros Ft Hi F H. pose proof (frame_fits _ _ _ X n F Ft) as Ft1.
  apply runs_set; [by eapply frame_bytes|regions|]. intros m2 F2 E. apply H.
  - eapply frame_then; [exact F|exact F2|..]; intros j; regions.
  - pose proof (frame_fits _ _ _ X n F2 Ft1). rewrite mpi_succ, E by regions.
    f_equal. eapply frame_mpi; [exact F2|regions|]. intros j. regions.
Qed.

(** Writing limb [i] of an array whose other limbs stay. *)
Lemma mpi_split m p i n : fits m p n -> 0 <= i < n ->
  mpi m p n = mpi m p i + base i * mpi m (p + ciL * i) 1 + base (i + 1) * mpi m (p + ciL * (i + 1)) (n - i - 1).
Proof.
  intros F Hi. replace n with (i + 1 + (n - i - 1)) at 1 by lia.
  rewrite mpi_add, mpi_succ by (try regions; lia). done.
Qed.

(** Steps over a binding whose first part is an access. *)
Lemma bind_read (P : Z -> Prop) A i n m m1 {B} (f : Z -> prog B) (Q : B -> mem -> Prop) :
  frame P m m1 -> fits m A n -> 0 <= i < n -> (forall j, inside (A + ciL * i) 1 j -> ~ P j) ->
  runs (f (mpi m (A + ciL * i) 1)) m1 Q -> runs (get A i ≫= f) m1 Q.
Proof.
  intros F Ft Hi K H. eapply runs_bind.
  - eapply (runs_read P A i n m m1 (fun x m' => x = mpi m (A + ciL * i) 1 /\ m' = m1)); auto.
  - by intros ? ? [-> ->].
Qed.

Lemma bind_push X i x n m m1 {B} (f : () -> prog B) (Q : B -> mem -> Prop) :
  fits m X n -> 0 <= i < n -> frame (inside X i) m m1 ->
  (forall m2, frame (inside X (i + 1)) m m2 -> mpi m2 X (i + 1) = mpi m1 X i + base i * u64 x ->
     runs (f tt) m2 Q) ->
  runs (set X i x ≫= f) m1 Q.
Proof.
  intros Ft Hi F H. eapply runs_bind.
  - eapply (runs_push X i x n m m1 (fun _ m2 => frame (inside X (i + 1)) m m2 /\
      mpi m2 X (i + 1) = mpi m1 X i + base i * u64 x)); auto.
  - intros [] m2 [F2 E2]. auto.
Qed.

Lemma bind_memset m p n {B} (f : () -> prog B) (Q : B -> mem -> Prop) :
  wf m -> fits m p n ->
  (forall m', frame (inside p n) m m' -> mpi m' p n = 0 -> runs (f tt) m' Q) ->
  runs (memset p 0 (u64 (n * ciL)) ≫= f) m Q.
Proof.
  intros W F H. eapply (runs_bind _ _ _ (fun _ m' => frame (inside p n) m m' /\ mpi m' p n = 0)).
  - apply runs_memset; auto.
  - intros [] m' []. auto.
Qed.

Lemma bind_memcpy m d s n {B} (f : () -> prog B) (Q : B -> mem -> Prop) :
  wf m -> fits m d n -> fits m s n -> apart d n s n ->
  (forall m', frame (inside d n) m m' -> mpi m' d n = mpi m s n -> runs (f tt) m' Q) ->
  runs (memcpy d s (u64 (n * ciL)) ≫= f) m Q.
Proof.
  intros W Fd Fs Ha H. eapply (runs_bind _ _ _ (fun _ m' => frame (inside d n) m m' /\ mpi m' d n = mpi m s n)).
  - apply runs_memcpy; auto.
  - intros [] m' []. auto.
Qed.

(** ** Parts of numbers *)

Lemma mpi_low m p n : is_bytes m -> fits m p n -> 0 < n -> mpi m p n mod 2 ^ 64 = mpi m p 1.
Proof.
  intros B F Hn. rewrite mpi_cons by done. pose proof (mpi_word m p B ltac:(regions)).
  rewrite (Z.mul_comm (2 ^ 64)), Z_mod_plus_full, Z.mod_small by lia. done.
Qed.

Lemma mpi_zero_above m p k n : is_bytes m -> fits m p n -> 0 <= k <= n -> mpi m p n = 0 ->
  mpi m p k = 0 /\ mpi m (p + ciL * k) (n - k) = 0.
Proof.
  intros B F Hk E. replace n with (k + (n - k)) in E by lia. rewrite mpi_add in E by (try regions; lia).
  pose proof (mpi_range m p k B ltac:(regions)). pose proof (mpi_range m (p + ciL * k) (n - k) B ltac:(regions)).
  pose proof (base_gt0 k ltac:(lia)). nia.
Qed.
