(* ===== verification/BignumCore.v ===== *)
(** * Big-number core of mbedTLS: linear operations and multiplication

    The functions of [src/internal/mbedtls/bignum_core.c] that compare, copy, shift, add,
    subtract and multiply arrays of limbs, and the multiply-accumulate step of [bn_mul.h]
    in the four ways it is compiled on 64-bit targets.  All of them run on the memory of
    [LimbMem].  The theorems give the number each function leaves in memory and what it
    returns in terms of the numbers it was given, with the outputs in the places of inputs
    where the header allows that, and show that no byte outside the output changes. *)

From S2P Require Import Prelude Bytes ConstTime LimbMem.

(** Whether the compiler has [__builtin_clzl]; its result for 0 is undefined. *)
Section bit_length.
Context (has_builtin_clz : bool).

Fixpoint clz_loop (k : nat) (j mask a : Z) : Z :=
  match k with
  | O => j
  | S k => if negb (Z.land a mask =? 0) then j else clz_loop k (j + 1) (Z.shiftr mask 1) a
  end.

Definition mbedtls_mpi_core_clz (a : Z) : prog Z :=
  if has_builtin_clz then fun m => if a =? 0 then Fault else Done (63 - Z.log2 a, m)
  else mret (clz_loop (Z.to_nat biL) 0 (u64 (Z.shiftl 1 (biL - 1))) a).

Fixpoint bitlen_loop (k : nat) (A i : Z) : prog Z :=
  match k with
  | O => mret 0
  | S k =>
      a ← get A i;
      if negb (a =? 0) then
        z ← mbedtls_mpi_core_clz a;
        let j := u64 (biL - z) in
        mret (u64 (i * biL + j))
      else bitlen_loop k A (i - 1)
  end.

Definition mbedtls_mpi_core_bitlen (A A_limbs : Z) : prog Z :=
  let i := to_int A_limbs - 1 in
  bitlen_loop (Z.to_nat (i + 1)) A i.

End bit_length.

(** ** Comparison and conditional moves *)

Section constant_time.
Context (be : backend).

Definition mbedtls_mpi_core_uint_le_mpi (min A A_limbs : Z) : prog Z :=
  a ← get A 0;
  let min_le_lsl := mbedtls_ct_uint_ge be a min in
  msll_mask ← for_up 1 A_limbs 0 (fun i msll_mask =>
    a ← get A i;
    mret (mbedtls_ct_bool_or msll_mask (mbedtls_ct_bool be a)));
  mret (mbedtls_ct_bool_or msll_mask min_le_lsl).

Definition mbedtls_mpi_core_lt_ct (A B limbs : Z) : prog Z :=
  '(ret, _) ← for_down limbs 0 (0, 0) (fun i '(ret, fin) =>
    b ← get B (i - 1);
    a ← get A (i - 1);
    let cond := mbedtls_ct_uint_lt be b a in
    let fin := mbedtls_ct_bool_or fin cond in
    let cond := mbedtls_ct_uint_lt be a b in
    let ret := mbedtls_ct_bool_or ret (mbedtls_ct_bool_and cond (mbedtls_ct_bool_not fin)) in
    let fin := mbedtls_ct_bool_or fin cond in
    mret (ret, fin));
  mret ret.

Definition mbedtls_mpi_core_cond_assign (X A limbs assign : Z) : prog () :=
  if X =? A then mret tt else
  for_up 0 limbs tt (fun i _ =>
    a ← get A i;
    x ← get X i;
    set X i (mbedtls_ct_mpi_uint_if be assign a x)).

Definition mbedtls_mpi_core_cond_swap (X Y limbs swap : Z) : prog () :=
  if X =? Y then mret tt else
  for_up 0 limbs tt (fun i _ =>
    tmp ← get X i;
    y ← get Y i;
    set X i (mbedtls_ct_mpi_uint_if be swap y tmp) ;;
    y ← get Y i;
    set Y i (mbedtls_ct_mpi_uint_if be swap tmp y)).

Definition mbedtls_mpi_core_check_zero_ct (A limbs : Z) : prog Z :=
  bits ← for_up 0 limbs 0 (fun i bits => a ← get A i; mret (Z.lor bits a));
  mret (mbedtls_ct_bool be bits).

Definition mbedtls_mpi_core_ct_uint_table_lookup (dest table limbs count index : Z) : prog () :=
  _ ← for_up 0 count table (fun i table =>
    let assign := mbedtls_ct_uint_eq be i index in
    mbedtls_mpi_core_cond_assign dest table limbs assign ;;
    mret (table + ciL * limbs));
  mret tt.

(** ** Shifts *)

Definition mbedtls_mpi_core_shift_r (X limbs count : Z) : prog () :=
  let v0 := count / biL in
  let v1 := Z.land count (biL - 1) in
  if (v0 >? limbs) || ((v0 =? limbs) && (v1 >? 0)) then memset X 0 (u64 (limbs * ciL)) else
  (if v0 >? 0 then
     for_up 0 (limbs - v0) tt (fun i _ => x ← get X (i + v0); set X i x) ;;
     for_up (limbs - v0) limbs tt (fun i _ => set X i 0)
   else mret tt) ;;
  if v1 >? 0 then
    _ ← for_down limbs 0 0 (fun i r0 =>
      x ← get X (i - 1);
      let r1 := u64 (Z.shiftl x (biL - v1)) in
      set X (i - 1) (Z.lor (Z.shiftr x v1) r0) ;;
      mret r1);
    mret tt
  else mret tt.

Definition mbedtls_mpi_core_shift_l (X limbs count : Z) : prog () :=
  let v0 := count / biL in
  let v1 := Z.land count (biL - 1) in
  (if v0 >? 0 then
     for_down limbs (Z.min v0 limbs) tt (fun i _ => x ← get X (i - v0 - 1); set X (i - 1) x) ;;
     for_down (Z.min v0 limbs) 0 tt (fun i _ => set X (i - 1) 0)
   else mret tt) ;;
  if v1 >? 0 then
    _ ← for_up v0 limbs 0 (fun i r0 =>
      x ← get X i;
      let r1 := Z.shiftr x (biL - v1) in
      set X i (Z.lor (u64 (Z.shiftl x v1)) r0) ;;
      mret r1);
    mret tt
  else mret tt.

(** ** Addition and subtraction *)

Definition mbedtls_mpi_core_add (X A B limbs : Z) : prog Z :=
  for_up 0 limbs 0 (fun i c =>
    a ← get A i;
    let t := u64 (c + a) in
    let c := Z.b2z (t <? a) in
    b ← get B i;
    let t := u64 (t + b) in
    let c := u64 (c + Z.b2z (t <? b)) in
    set X i t ;;
    mret c).

Definition mbedtls_mpi_core_add_if (X A limbs cond : Z) : prog Z :=
  let do_add := mbedtls_ct_bool be cond in
  for_up 0 limbs 0 (fun i c =>
    a ← get A i;
    let add := mbedtls_ct_mpi_uint_if_else_0 do_add a in
    x ← get X i;
    let t := u64 (c + x) in
    let c := Z.b2z (t <? x) in
    let t := u64 (t + add) in
    let c := u64 (c + Z.b2z (t <? add)) in
    set X i t ;;
    mret c).

Definition mbedtls_mpi_core_sub (X A B limbs : Z) : prog Z :=
  for_up 0 limbs 0 (fun i c =>
    a ← get A i;
    let z := Z.b2z (a <? c) in
    let t := u64 (a - c) in
    b ← get B i;
    let c := u64 (Z.b2z (t <? b) + z) in
    set X i (u64 (t - b)) ;;
    mret c).

Definition mbedtls_mpi_core_sub_int (X A c limbs : Z) : prog Z :=
  for_up 0 limbs c (fun i c =>
    s ← get A i;
    let t := u64 (s - c) in
    let c := Z.b2z (t >? s) in
    set X i t ;;
    mret c).

End constant_time.

(** ** Multiplication *)

(** The versions of [MULADDC_X1_CORE]: assembly for two processors, C with a type of twice
    the width, and C on single words. *)
Inductive muladdc := Asm_x86_64 | Asm_aarch64 | C_udbl | C_word.

Definition biH : Z := 32.

(** [c, d := s * b + d + c] in each version: the new value of [*d] and the new carry. *)
Definition muladdc_x86_64 (s d b c : Z) : Z * Z :=
  let rax := u64 (s * b) in
  let rdx := Z.shiftr (s * b) 64 in
  let carry := Z.b2z (2 ^ 64 <=? rax + c) in
  let rax := u64 (rax + c) in
  let rdx := u64 (rdx + carry) in
  let carry := Z.b2z (2 ^ 64 <=? d + rax) in
  (u64 (d + rax), u64 (0 + rdx + carry)).

Definition muladdc_aarch64 (s d b c : Z) : Z * Z :=
  let x6 := u64 (s * b) in
  let x7 := Z.shiftr (s * b) 64 in
  let carry := Z.b2z (2 ^ 64 <=? d + x6) in
  let x5 := u64 (d + x6) in
  let x7 := u64 (x7 + carry) in
  let carry := Z.b2z (2 ^ 64 <=? x5 + c) in
  (u64 (x5 + c), u64 (x7 + carry)).

Definition muladdc_udbl (s d b c : Z) : Z * Z :=
  let r := (s * b) mod 2 ^ 128 in
  let r0 := u64 r in
  let r1 := u64 (Z.shiftr r biL) in
  let r0 := u64 (r0 + c) in let r1 := u64 (r1 + Z.b2z (r0 <? c)) in
  let r0 := u64 (r0 + d) in let r1 := u64 (r1 + Z.b2z (r0 <? d)) in
  (r0, r1).

Definition muladdc_word (s d b c : Z) : Z * Z :=
  let b0 := Z.shiftr (u64 (Z.shiftl b biH)) biH in
  let b1 := Z.shiftr b biH in
  let s0 := Z.shiftr (u64 (Z.shiftl s biH)) biH in
  let s1 := Z.shiftr s biH in
  let rx := u64 (s0 * b1) in let r0 := u64 (s0 * b0) in
  let ry := u64 (s1 * b0) in let r1 := u64 (s1 * b1) in
  let r1 := u64 (r1 + Z.shiftr rx biH) in
  let r1 := u64 (r1 + Z.shiftr ry biH) in
  let rx := u64 (Z.shiftl rx biH) in let ry := u64 (Z.shiftl ry biH) in
  let r0 := u64 (r0 + rx) in let r1 := u64 (r1 + Z.b2z (r0 <? rx)) in
  let r0 := u64 (r0 + ry) in let r1 := u64 (r1 + Z.b2z (r0 <? ry)) in
  let r0 := u64 (r0 + c) in let r1 := u64 (r1 + Z.b2z (r0 <? c)) in
  let r0 := u64 (r0 + d) in let r1 := u64 (r1 + Z.b2z (r0 <? d)) in
  (r0, r1).

Definition muladdc_core (v : muladdc) (s d b c : Z) : Z * Z :=
  match v with
  | Asm_x86_64 => muladdc_x86_64 s d b c
  | Asm_aarch64 => muladdc_aarch64 s d b c
  | C_udbl => muladdc_udbl s d b c
  | C_word => muladdc_word s d b c
  end.

Section multiply.
Context (v : muladdc).

(** The pointers [d] and [s] and the carry. *)
Definition MULADDC_X1_CORE (b : Z) (st : Z * Z * Z) : prog (Z * Z * Z) :=
  let '(d, s, c) := st in
  sv ← get s 0;
  dv ← get d 0;
  let '(r, c) := muladdc_core v sv dv b c in
  set d 0 r ;;
  mret (d + ciL, s + ciL, c).

Definition MULADDC_X2_CORE (b : Z) (st : Z * Z * Z) : prog (Z * Z * Z) :=
  st ← MULADDC_X1_CORE b st; MULADDC_X1_CORE b st.
Definition MULADDC_X4_CORE (b : Z) (st : Z * Z * Z) : prog (Z * Z * Z) :=
  st ← MULADDC_X2_CORE b st; MULADDC_X2_CORE b st.
Definition MULADDC_X8_CORE (b : Z) (st : Z * Z * Z) : prog (Z * Z * Z) :=
  st ← MULADDC_X4_CORE b st; MULADDC_X4_CORE b st.

Definition mbedtls_mpi_core_mla (d d_len s s_len b : Z) : prog Z :=
  let s_len := if d_len <? s_len then d_len else s_len in
  let excess_len := d_len - s_len in
  let steps_x8 := s_len / 8 in
  let steps_x1 := Z.land s_len 7 in
  st ← for_up 0 steps_x8 (d, s, 0) (fun _ st => MULADDC_X8_CORE b st);
  '(d, _, c) ← for_up 0 steps_x1 st (fun _ st => MULADDC_X1_CORE b st);
  '(_, c) ← for_up 0 excess_len (d, c) (fun _ '(d, c) =>
    x ← get d 0;
    let x := u64 (x + c) in
    set d 0 x ;;
    let c := Z.b2z (x <? c) in
    mret (d + ciL, c));
  mret c.

Definition mbedtls_mpi_core_mul (X A A_limbs B B_limbs : Z) : prog () :=
  memset X 0 (u64 ((A_limbs + B_limbs) * ciL)) ;;
  for_up 0 B_limbs tt (fun i _ =>
    b ← get B i;
    _ ← mbedtls_mpi_core_mla (X + ciL * i) (A_limbs + 1) A A_limbs b;
    mret tt).

End multiply.

(** ** Addition and subtraction compute on the numbers *)

Lemma add_step a b c : 0 <= a < 2 ^ 64 -> 0 <= b < 2 ^ 64 -> 0 <= c <= 1 ->
  let t := u64 (c + a) in let t' := u64 (t + b) in
  let c' := u64 (Z.b2z (t <? a) + Z.b2z (t' <? b)) in
  t' + 2 ^ 64 * c' = a + b + c /\ 0 <= t' < 2 ^ 64 /\ 0 <= c' <= 1.
Proof.
  intros Ha Hb Hc t t' c'.
  pose proof (add64_carry c a ltac:(lia) Ha) as E1. fold t in E1.
  pose proof (u64_range (c + a)) as R1. fold t in R1.
  pose proof (add64_carry t b R1 Hb) as E2. fold t' in E2.
  pose proof (u64_range (t + b)) as R2. fold t' in R2.
  unfold c'. rewrite (u64_id (_ + _)) by (destruct (t <? a), (t' <? b); cbn [Z.b2z]; lia).
  destruct (t <? a), (t' <? b); cbn [Z.b2z] in *; lia.
Qed.

Lemma sub_step a b c : 0 <= a < 2 ^ 64 -> 0 <= b < 2 ^ 64 -> 0 <= c <= 1 ->
  let t := u64 (a - c) in
  let c' := u64 (Z.b2z (t <? b) + Z.b2z (a <? c)) in
  u64 (t - b) - 2 ^ 64 * c' = a - b - c /\ 0 <= c' <= 1.
Proof.
  intros Ha Hb Hc t c'.
  pose proof (sub64_borrow a c Ha ltac:(lia)) as E1. fold t in E1.
  pose proof (u64_range (a - c)) as R1. fold t in R1.
  pose proof (sub64_borrow t b R1 Hb) as E2.
  pose proof (u64_range (t - b)) as R2.
  unfold c'. rewrite (u64_id (_ + _)) by (destruct (t <? b), (a <? c); cbn [Z.b2z]; lia).
  destruct (t <? b), (a <? c); cbn [Z.b2z] in *; lia.
Qed.

Section linear.
Context (be : backend) (m : mem) (Wm : wf m).

Lemma alias_read X A n i j :
  alias_ok X A n -> 0 <= i < n -> inside (A + ciL * i) 1 j -> ~ inside X i j.
Proof. regions. Qed.

Lemma core_add_spec X A B n :
  fits m X n -> fits m A n -> fits m B n -> alias_ok X A n -> alias_ok X B n ->
  runs (mbedtls_mpi_core_add X A B n) m (fun c m' =>
    frame (inside X n) m m' /\ mpi m' X n + base n * c = mpi m A n + mpi m B n /\ 0 <= c <= 1).
Proof.
  intros FX FA FB HA HB. destruct Wm as [Bm _].
  apply (runs_up (fun i c m' => frame (inside X i) m m' /\
    mpi m' X i + base i * c = mpi m A i + mpi m B i /\ 0 <= c <= 1)).
  { regions. }
  { split_and!; [by apply frame_same|done|lia..]. }
  intros i c m1 Hi (F1 & E1 & Hc).
  eapply bind_read; [exact F1|exact FA|lia|intros j; by eapply alias_read; eauto|].
  eapply bind_read; [exact F1|exact FB|lia|intros j; by eapply alias_read; eauto|].
  pose proof (mpi_word m (A + ciL * i) Bm ltac:(regions)) as Ra.
  pose proof (mpi_word m (B + ciL * i) Bm ltac:(regions)) as Rb.
  destruct (add_step _ _ _ Ra Rb Hc) as (Es & Rt & Rc). cbv zeta in *.
  set (t' := u64 (u64 (c + _) + _)) in *. set (c' := u64 (Z.b2z _ + Z.b2z _)) in *.
  eapply bind_push; [exact FX|lia|exact F1|]. intros m2 F2 E2.
  apply runs_ret. split_and!; [exact F2| |lia..].
  rewrite E2, (u64_id t'), !mpi_succ, base_succ by (try regions; lia). nia.
Qed.

Lemma alias_refl X n : alias_ok X X n.
Proof. by left. Qed.

Lemma core_sub_spec X A B n :
  fits m X n -> fits m A n -> fits m B n -> alias_ok X A n -> alias_ok X B n ->
  runs (mbedtls_mpi_core_sub X A B n) m (fun c m' =>
    frame (inside X n) m m' /\ mpi m' X n - base n * c = mpi m A n - mpi m B n /\ 0 <= c <= 1).
Proof.
  intros FX FA FB HA HB. destruct Wm as [Bm _].
  apply (runs_up (fun i c m' => frame (inside X i) m m' /\
    mpi m' X i - base i * c = mpi m A i - mpi m B i /\ 0 <= c <= 1)).
  { regions. }
  { split_and!; [by apply frame_same|done|lia..]. }
  intros i c m1 Hi (F1 & E1 & Hc).
  eapply bind_read; [exact F1|exact FA|lia|intros j; by eapply alias_read; eauto|].
  eapply bind_read; [exact F1|exact FB|lia|intros j; by eapply alias_read; eauto|].
  pose proof (mpi_word m (A + ciL * i) Bm ltac:(regions)) as Ra.
  pose proof (mpi_word m (B + ciL * i) Bm ltac:(regions)) as Rb.
  destruct (sub_step _ _ _ Ra Rb Hc) as (Es & Rc). cbv zeta in *.
  set (t' := u64 (_ - mpi m (B + _) 1)) in *. set (c' := u64 (Z.b2z _ + Z.b2z _)) in *.
  eapply bind_push; [exact FX|lia|exact F1|]. intros m2 F2 E2.
  apply runs_ret. split_and!; [exact F2| |lia..]. pose proof (u64_range (u64 (mpi m (A + ciL * i) 1 - c) - mpi m (B + ciL * i) 1)).
  rewrite E2, (u64_id t'), !mpi_succ, base_succ by (try regions; lia). nia.
Qed.

(** [X += A] when [cond] is not 0. *)
Lemma core_add_if_spec X A n cond :
  fits m X n -> fits m A n -> alias_ok X A n -> 0 <= cond < 2 ^ 32 ->
  runs (mbedtls_mpi_core_add_if be X A n cond) m (fun c m' =>
    frame (inside X n) m m' /\
    mpi m' X n + base n * c = mpi m X n + (if cond =? 0 then 0 else mpi m A n) /\ 0 <= c <= 1).
Proof.
  intros FX FA HA Hcond. destruct Wm as [Bm _]. unfold mbedtls_mpi_core_add_if.
  rewrite ct_bool_spec by (unfold word64; lia).
  apply (runs_up (fun i c m' => frame (inside X i) m m' /\
    mpi m' X i + base i * c = mpi m X i + (if cond =? 0 then 0 else mpi m A i) /\ 0 <= c <= 1)).
  { regions. }
  { split_and!; [by apply frame_same|by destruct (cond =? 0)|lia..]. }
  intros i c m1 Hi (F1 & E1 & Hc).
  eapply bind_read; [exact F1|exact FA|lia|intros j; by eapply alias_read; eauto|].
  eapply bind_read; [exact F1|exact FX|lia|intros j; by eapply alias_read; eauto using alias_refl|].
  pose proof (mpi_word m (A + ciL * i) Bm ltac:(regions)) as Ra.
  pose proof (mpi_word m (X + ciL * i) Bm ltac:(regions)) as Rx.
  unfold mbedtls_ct_mpi_uint_if_else_0. rewrite land_cond_l by done.
  set (add := if negb (cond =? 0) then _ else 0) in *.
  assert (0 <= add < 2 ^ 64) as Radd by (unfold add; destruct (cond =? 0); cbn [negb]; lia).
  destruct (add_step _ _ _ Rx Radd Hc) as (Es & Rt & Rc). cbv zeta in *.
  set (t' := u64 (u64 (c + _) + _)) in *. set (c' := u64 (Z.b2z _ + Z.b2z _)) in *.
  eapply bind_push; [exact FX|lia|exact F1|]. intros m2 F2 E2.
  apply runs_ret. split_and!; [exact F2| |lia..].
  rewrite E2, (u64_id t'), !mpi_succ, base_succ by (try regions; lia).
  unfold add in *. destruct (cond =? 0); cbn [negb] in *; nia.
Qed.

Lemma core_sub_int_spec X A c n :
  fits m X n -> fits m A n -> alias_ok X A n -> 0 <= c < 2 ^ 64 ->
  runs (mbedtls_mpi_core_sub_int X A c n) m (fun c' m' =>
    frame (inside X n) m m' /\ mpi m' X n - base n * c' = mpi m A n - c /\
    (0 < n -> 0 <= c' <= 1)).
Proof.
  intros FX FA HA Hc. destruct Wm as [Bm _].
  eapply runs_mono; [apply (runs_up (fun i c' m' => frame (inside X i) m m' /\
    mpi m' X i - base i * c' = mpi m A i - c /\ 0 <= c' < 2 ^ 64 /\ (0 < i -> 0 <= c' <= 1)))|].
  { regions. }
  { split_and!; [by apply frame_same|rewrite base_0, !mpi_0; lia|lia..]. }
  2: { intros c' m' (F' & E' & _ & R'). auto. }
  intros i c' m1 Hi (F1 & E1 & Hc' & _).
  eapply bind_read; [exact F1|exact FA|lia|intros j; by eapply alias_read; eauto|].
  pose proof (mpi_word m (A + ciL * i) Bm ltac:(regions)) as Ra.
  eapply bind_push; [exact FX|lia|exact F1|]. intros m2 F2 E2. apply runs_ret.
  pose proof (sub64_borrow _ _ Ra Hc') as Es. pose proof (u64_range (mpi m (A + ciL * i) 1 - c')) as Rt.
  rewrite Z.gtb_ltb. set (t := u64 (mpi m (A + ciL * i) 1 - c')) in *.
  split_and!; [exact F2| |destruct (_ <? t); simpl; lia..].
  rewrite E2, (u64_id t), !mpi_succ, base_succ by (try regions; lia).
  assert (Z.b2z (mpi m (A + ciL * i) 1 <? t) = if mpi m (A + ciL * i) 1 <? c' then 1 else 0) as ->.
  { unfold Z.b2z. repeat split_if; lia. }
  split_if; nia.
Qed.

End linear.

(** ** Conditional moves and comparisons *)

Lemma ct_ge_spec be x y : word64 x -> word64 y -> mbedtls_ct_uint_ge be x y = cond (y <=? x).
Proof.
  intros. unfold mbedtls_ct_uint_ge. rewrite ct_lt_spec, not64_cond by done. f_equal.
  by rewrite Z.leb_antisym.
Qed.

Lemma ct_eq_spec be x y : word64 x -> word64 y -> mbedtls_ct_uint_eq be x y = cond (x =? y).
Proof.
  intros. unfold mbedtls_ct_uint_eq. rewrite ct_ne_spec, not64_cond by done. by rewrite negb_involutive.
Qed.

Lemma cond_or a b : Z.lor (cond a) (cond b) = cond (a || b).
Proof. by destruct a, b. Qed.

Lemma cond_and a b : Z.land (cond a) (cond b) = cond (a && b).
Proof. by destruct a, b. Qed.

Lemma cond_false : 0 = cond false.
Proof. reflexivity. Qed.

Section moves.
Context (be : backend) (m : mem) (Wm : wf m).

Lemma cond_assign_spec X A n b :
  fits m X n -> fits m A n -> alias_ok X A n ->
  runs (mbedtls_mpi_core_cond_assign be X A n (cond b)) m (fun _ m' =>
    frame (inside X n) m m' /\ mpi m' X n = if b then mpi m A n else mpi m X n).
Proof.
  intros FX FA HA. destruct Wm as [Bm _]. unfold mbedtls_mpi_core_cond_assign. split_if.
  { subst. apply runs_ret. split; [by apply frame_same|by destruct b]. }
  apply (runs_up (fun i _ m' => frame (inside X i) m m' /\ mpi m' X i = if b then mpi m A i else mpi m X i)).
  { regions. }
  { split; [by apply frame_same|by destruct b]. }
  intros i [] m1 Hi (F1 & E1).
  eapply bind_read; [exact F1|exact FA|lia|intros j; by eapply alias_read; eauto|].
  eapply bind_read; [exact F1|exact FX|lia|intros j; by eapply alias_read; eauto using alias_refl|].
  pose proof (mpi_word m (A + ciL * i) Bm ltac:(regions)) as Ra.
  pose proof (mpi_word m (X + ciL * i) Bm ltac:(regions)) as Rx.
  unfold mbedtls_ct_mpi_uint_if. rewrite ct_if_spec by done.
  eapply runs_push; [exact FX|lia|exact F1|]. intros m2 F2 E2. split; [exact F2|].
  rewrite E2, u64_id, E1, !mpi_succ by (try regions; destruct b; lia). by destruct b.
Qed.

Lemma cond_swap_spec X Y n b :
  fits m X n -> fits m Y n -> alias_ok X Y n ->
  runs (mbedtls_mpi_core_cond_swap be X Y n (cond b)) m (fun _ m' =>
    frame (fun j => inside X n j \/ inside Y n j) m m' /\
    mpi m' X n = (if b then mpi m Y n else mpi m X n) /\ mpi m' Y n = (if b then mpi m X n else mpi m Y n)).
Proof.
  intros FX FY HA. destruct Wm as [Bm _]. unfold mbedtls_mpi_core_cond_swap. split_if.
  { subst. apply runs_ret. split; [by apply frame_same|by destruct b]. }
  apply (runs_up (fun i _ m' => frame (fun j => inside X i j \/ inside Y i j) m m' /\
    mpi m' X i = (if b then mpi m Y i else mpi m X i) /\ mpi m' Y i = (if b then mpi m X i else mpi m Y i))).
  { regions. }
  { split; [by apply frame_same|by destruct b]. }
  intros i [] m1 Hi (F1 & EX & EY).
  eapply bind_read; [exact F1|exact FX|lia|intros j; regions|].
  eapply bind_read; [exact F1|exact FY|lia|intros j; regions|].
  pose proof (mpi_word m (Y + ciL * i) Bm ltac:(regions)) as Ry.
  pose proof (mpi_word m (X + ciL * i) Bm ltac:(regions)) as Rx.
  unfold mbedtls_ct_mpi_uint_if. rewrite !ct_if_spec by done.
  pose proof (frame_fits _ _ _ X n F1 FX) as FX1. pose proof (frame_fits _ _ _ Y n F1 FY) as FY1.
  eapply runs_bind; [eapply (runs_set _ _ _ _ (fun _ m2 => frame (inside (X + ciL * i) 1) m1 m2 /\ mpi m2 (X + ciL * i) 1 = _));
    [by eapply frame_bytes|regions|intros m2 F E; exact (conj F E)]|].
  intros [] m2 [F2 E2]. pose proof (frame_fits _ _ _ X n F2 FX1) as FX2. pose proof (frame_fits _ _ _ Y n F2 FY1) as FY2.
  assert (frame (fun j => inside X (i + 1) j \/ inside Y i j) m m2) as F02
    by (eapply frame_then; [exact F1|exact F2|..]; intros j; regions).
  eapply bind_read; [exact F02|exact FY|lia|intros j; regions|]. rewrite ct_if_spec by done.
  apply runs_set; [by eapply frame_bytes|regions|]. intros m3 F3 E3.
  pose proof (frame_fits _ _ _ X n F3 FX2). pose proof (frame_fits _ _ _ Y n F3 FY2).
  split; [eapply frame_then; [exact F02|exact F3|..]; intros j; regions|].
  rewrite !mpi_succ by (try regions; lia).
  rewrite E3, (frame_mpi _ _ _ Y i F3), (frame_mpi _ _ _ Y i F2), (frame_mpi _ _ _ X i F3), (frame_mpi _ _ _ X i F2),
    (frame_mpi _ _ _ (X + ciL * i) 1 F3), E2, EX, EY by (try regions; intros j; regions).
  rewrite !u64_id by (destruct b; lia). by destruct b.
Qed.

Lemma lt_ct_spec A B n :
  fits m A n -> fits m B n ->
  runs (mbedtls_mpi_core_lt_ct be A B n) m (fun r m' => m' = m /\ r = cond (mpi m A n <? mpi m B n)).
Proof.
  intros FA FB. destruct Wm as [Bm _]. unfold mbedtls_mpi_core_lt_ct.
  set (hi := fun P i => mpi m (P + ciL * i) (n - i)).
  eapply runs_bind; [apply (runs_down (fun i '(ret, fin) m' => m' = m /\
    ret = cond (hi A i <? hi B i) /\ fin = cond (negb (hi A i =? hi B i))))|].
  { regions. }
  { unfold hi. rewrite Z.sub_diag, !mpi_0. done. }
  2: { intros [ret fin] m' (-> & -> & _). apply runs_ret. split; [done|]. unfold hi.
    by rewrite !Z.mul_0_r, !Z.add_0_r, !Z.sub_0_r. }
  intros i [ret fin] m1 Hi (-> & -> & ->).
  assert (forall P, fits m P n -> hi P (i - 1) = mpi m (P + ciL * (i - 1)) 1 + 2 ^ 64 * hi P i /\
    word64 (mpi m (P + ciL * (i - 1)) 1)) as Hhi.
  { intros P FP. unfold hi. split; [|apply mpi_word; [done|regions]].
    rewrite mpi_cons by (try regions; lia). do 3 f_equal; lia. }
  destruct (Hhi A FA) as [EA WA]. destruct (Hhi B FB) as [EB WB].
  eapply bind_read; [by eapply (frame_same (fun _ => False))|exact FB|lia|naive_solver|].
  eapply bind_read; [by eapply (frame_same (fun _ => False))|exact FA|lia|naive_solver|].
  apply runs_ret. unfold mbedtls_ct_bool_or, mbedtls_ct_bool_and, mbedtls_ct_bool_not.
  rewrite !ct_lt_spec by done. rewrite !cond_or, not64_cond, cond_and, cond_or.
  split; [done|]. rewrite EA, EB. unfold word64 in *.
  set (a := mpi m (A + _) 1) in *. set (b := mpi m (B + _) 1) in *. clearbody a b. clear EA EB Hhi.
  set (x := hi A i). set (y := hi B i). clearbody x y.
  split; f_equal; apply eq_true_iff_eq;
    rewrite ?orb_true_iff, ?andb_true_iff, ?negb_true_iff, ?orb_false_iff, ?negb_false_iff, ?Z.ltb_lt, ?Z.ltb_ge, ?Z.eqb_eq, ?Z.eqb_neq; lia.
Qed.

Lemma check_zero_spec A n : fits m A n ->
  runs (mbedtls_mpi_core_check_zero_ct be A n) m (fun r m' => m' = m /\ r = cond (negb (mpi m A n =? 0))).
Proof.
  intros FA. destruct Wm as [Bm _]. unfold mbedtls_mpi_core_check_zero_ct.
  eapply runs_bind; [apply (runs_up (fun i bits m' => m' = m /\ word64 bits /\ (bits = 0 <-> mpi m A i = 0)))|].
  { regions. }
  { done. }
  2: { intros bits m' (-> & W & E). apply runs_ret. split; [done|]. rewrite ct_bool_spec by done.
    f_equal. destruct (bits =? 0) eqn:?, (mpi m A n =? 0) eqn:?; bool_to_prop; naive_solver. }
  intros i bits m1 Hi (-> & W & E).
  eapply bind_read; [by eapply (frame_same (fun _ => False))|exact FA|lia|naive_solver|].
  pose proof (mpi_word m (A + ciL * i) Bm ltac:(regions)) as Ra.
  apply runs_ret. split_and!; [done|by apply word64_lor|].
  rewrite Z.lor_eq_0_iff, E, mpi_succ by (try regions; lia).
  pose proof (mpi_range m A i Bm ltac:(regions)). pose proof (base_gt0 i ltac:(lia)). nia.
Qed.

Lemma uint_le_mpi_spec min A n : fits m A n -> 0 < n -> word64 min ->
  runs (mbedtls_mpi_core_uint_le_mpi be min A n) m (fun r m' => m' = m /\ r = cond (min <=? mpi m A n)).
Proof.
  intros FA Hn Wmin. destruct Wm as [Bm _]. unfold mbedtls_mpi_core_uint_le_mpi.
  eapply bind_read; [by eapply (frame_same (fun _ => False))|exact FA|lia|naive_solver|].
  replace (A + ciL * 0) with A by lia. pose proof (mpi_word m A Bm ltac:(regions)) as Ra.
  eapply runs_bind; [apply (runs_up (fun i mask m' => m' = m /\ mask = cond (negb (mpi m (A + ciL * 1) (i - 1) =? 0))))|].
  { lia. }
  { done. }
  2: { intros mask m' (-> & ->). apply runs_ret. split; [done|]. unfold mbedtls_ct_bool_or.
    rewrite ct_ge_spec, cond_or by done. f_equal. rewrite (mpi_cons m A n) by (done || lia).
    pose proof (mpi_range m (A + ciL * 1) (n - 1) Bm ltac:(regions)). unfold word64 in *.
    apply eq_true_iff_eq. rewrite orb_true_iff, negb_true_iff, !Z.leb_le, Z.eqb_neq. lia. }
  intros i mask m1 Hi (-> & ->).
  eapply bind_read; [by eapply (frame_same (fun _ => False))|exact FA|lia|naive_solver|].
  pose proof (mpi_word m (A + ciL * i) Bm ltac:(regions)) as Rai. apply runs_ret. split; [done|].
  unfold mbedtls_ct_bool_or. rewrite ct_bool_spec, cond_or by done. f_equal.
  replace (i + 1 - 1) with (i - 1 + 1) by lia. rewrite (mpi_succ m (A + ciL * 1)) by (try regions; lia).
  replace (A + ciL * 1 + ciL * (i - 1)) with (A + ciL * i) by lia.
  pose proof (mpi_range m (A + ciL * 1) (i - 1) Bm ltac:(regions)). pose proof (base_gt0 (i - 1) ltac:(lia)).
  apply eq_true_iff_eq. rewrite orb_true_iff, !negb_true_iff, !Z.eqb_neq. nia.
Qed.

End moves.

(** ** Bit lengths *)

(** The number of bits of [x]. *)
Definition bitlen (x : Z) : Z := if x =? 0 then 0 else Z.log2 x + 1.

Lemma clz_loop_spec a : 0 < a -> forall k j,
  a < 2 ^ Z.of_nat k -> j = 64 - Z.of_nat k -> clz_loop k j (2 ^ (Z.of_nat k - 1)) a = 63 - Z.log2 a.
Proof.
  intros Ha. induction k as [|k IH]; intros j Hk Hj; [simpl in Hk; lia|].
  cbn [clz_loop]. replace (Z.of_nat (S k) - 1) with (Z.of_nat k) by lia.
  assert (Z.land a (2 ^ Z.of_nat k) = if Z.testbit a (Z.of_nat k) then 2 ^ Z.of_nat k else 0) as E.
  { apply Z.bits_inj'. intros i Hi. rewrite Z.land_spec, Z.pow2_bits_eqb by lia.
    destruct (Z.eqb_spec (Z.of_nat k) i) as [<-|].
    - rewrite andb_true_r. destruct (Z.testbit a (Z.of_nat k)); [by rewrite Z.pow2_bits_true by lia|by rewrite Z.bits_0].
    - rewrite andb_false_r. destruct (Z.testbit a (Z.of_nat k)); [by rewrite Z.pow2_bits_false by lia|by rewrite Z.bits_0]. }
  rewrite E. assert (0 < 2 ^ Z.of_nat k) by (apply Z.pow_pos_nonneg; lia).
  replace (Z.of_nat (S k)) with (Z.of_nat k + 1) in * by lia. rewrite Z.pow_add_r in Hk by lia. change (2 ^ 1) with 2 in Hk.
  assert (Z.testbit a (Z.of_nat k) = (2 ^ Z.of_nat k <=? a)) as T.
  { rewrite Z.testbit_eqb by lia. destruct (Z.leb_spec (2 ^ Z.of_nat k) a).
    - replace (a / 2 ^ Z.of_nat k) with 1 by (apply (Z.div_unique a _ 1 (a - 2 ^ Z.of_nat k)); lia). done.
    - by rewrite Z.div_small by lia. }
  destruct (Z.testbit a (Z.of_nat k)) eqn:Tb; symmetry in T; bool_to_prop.
  - replace (2 ^ Z.of_nat k =? 0) with false by lia. cbn [negb].
    rewrite (Z.log2_unique a (Z.of_nat k)); [lia..|]. rewrite <- Z.add_1_r, Z.pow_add_r by lia. lia.
  - cbn. rewrite Z.shiftr_div_pow2 by lia. change (2 ^ 1) with 2.
    destruct k as [|k]; [simpl in *; lia|].
    replace (2 ^ Z.of_nat (S k) / 2) with (2 ^ (Z.of_nat (S k) - 1)).
    { apply IH; lia. }
    apply Z.div_unique_exact; [lia|]. replace (Z.of_nat (S k)) with (1 + (Z.of_nat (S k) - 1)) at 1 by lia.
    rewrite Z.pow_add_r by lia. lia.
Qed.

Lemma clz_spec bc a m : 0 < a < 2 ^ 64 -> mbedtls_mpi_core_clz bc a m = Done (63 - Z.log2 a, m).
Proof.
  intros Ha. unfold mbedtls_mpi_core_clz. destruct bc.
  - by replace (a =? 0) with false by lia.
  - unfold mret, prog_ret. do 2 f_equal. apply (clz_loop_spec a ltac:(lia) 64 0); [exact (proj2 Ha)|done].
Qed.

Lemma bitlen_high x y k : 0 <= x < 2 ^ k -> 0 < y -> 0 <= k -> bitlen (x + 2 ^ k * y) = k + bitlen y.
Proof.
  intros Hx Hy Hk. unfold bitlen. assert (0 < 2 ^ k) by lia.
  replace (x + 2 ^ k * y =? 0) with false by nia. replace (y =? 0) with false by lia.
  rewrite (Z.log2_unique _ (k + Z.log2 y)); [lia|pose proof (Z.log2_nonneg y); lia|].
  pose proof (Z.log2_spec y Hy) as [L1 L2]. pose proof (Z.log2_nonneg y).
  rewrite <- Z.add_1_r, <- Z.add_assoc, !(Z.pow_add_r 2 k) by lia. rewrite <- Z.add_1_r in L2. nia.
Qed.

Lemma bitlen_loop_spec bc m A k : is_bytes m -> fits m A (Z.of_nat k) -> Z.of_nat k < 2 ^ 31 ->
  bitlen_loop bc k A (Z.of_nat k - 1) m = Done (bitlen (mpi m A (Z.of_nat k)), m).
Proof.
  intros Bm. induction k as [|k IH]; intros F Hk; [done|]. cbn [bitlen_loop].
  replace (Z.of_nat (S k) - 1) with (Z.of_nat k) by lia. replace (Z.of_nat (S k)) with (Z.of_nat k + 1) in * by lia.
  pose proof (mpi_word m (A + ciL * Z.of_nat k) Bm ltac:(regions)) as Ra.
  unfold mbind at 1, prog_bind at 1, get. rewrite load_Done by regions. rewrite bind_Done. cbn -[bitlen_loop Z.of_nat mbedtls_mpi_core_clz].
  fold (mpi m (A + ciL * Z.of_nat k) 1). change (le (ztake ciL (zdrop (A + ciL * Z.of_nat k) m))) with (mpi m (A + ciL * Z.of_nat k) 1).
  set (a := mpi m (A + ciL * Z.of_nat k) 1) in *. rewrite mpi_succ by (done || lia). fold a. split_if.
  - unfold mbind, prog_bind. rewrite clz_spec, bind_Done by lia. unfold mret, prog_ret.
    pose proof (mpi_range m A (Z.of_nat k) Bm ltac:(regions)) as Rk. unfold base in *.
    rewrite bitlen_high by (unfold biL in *; lia).
    unfold bitlen. replace (a =? 0) with false by lia.
    pose proof (Z.log2_nonneg a). assert (Z.log2 a < 64) by (apply Z.log2_lt_pow2; lia).
    do 2 f_equal. rewrite (u64_id (biL - _)) by (unfold biL; lia). unfold biL. rewrite u64_id; lia.
  - rewrite IH by (try regions; lia). do 2 f_equal. f_equal. nia.
Qed.

Lemma core_bitlen_spec bc m A n : is_bytes m -> fits m A n -> n < 2 ^ 31 ->
  mbedtls_mpi_core_bitlen bc A n m = Done (bitlen (mpi m A n), m).
Proof.
  intros Bm F Hn. unfold mbedtls_mpi_core_bitlen. pose proof F as (_ & H0 & _). rewrite to_int_id by lia.
  replace (n - 1 + 1) with (Z.of_nat (Z.to_nat n)) by lia. rewrite Nat2Z.id.
  replace (n - 1) with (Z.of_nat (Z.to_nat n) - 1) by lia.
  rewrite bitlen_loop_spec by (rewrite ?Z2Nat.id by lia; auto). by rewrite Z2Nat.id by lia.
Qed.

(** ** Shifts *)

Section shifts.
Context (m : mem) (Wm : wf m).

(** Writing limb [i] below those above it. *)
Lemma bind_push_down X i x n m0 m1 {B} (f : () -> prog B) (Q : B -> mem -> Prop) :
  fits m0 X n -> 0 <= i < n -> frame (inside (X + ciL * (i + 1)) (n - (i + 1))) m0 m1 ->
  (forall m2, frame (inside (X + ciL * i) (n - i)) m0 m2 ->
     mpi m2 (X + ciL * i) (n - i) = u64 x + 2 ^ 64 * mpi m1 (X + ciL * (i + 1)) (n - (i + 1)) -> runs (f tt) m2 Q) ->
  runs (set X i x ≫= f) m1 Q.
Proof.
  intros Ft Hi F H. pose proof (frame_fits _ _ _ X n F Ft) as Ft1.
  eapply runs_bind; [eapply (runs_set _ _ _ _ (fun _ m2 => frame (inside (X + ciL * i) 1) m1 m2 /\ mpi m2 (X + ciL * i) 1 = u64 x));
    [by eapply frame_bytes|regions|intros m2 F2 E2; exact (conj F2 E2)]|].
  intros [] m2 [F2 E2]. apply H.
  - eapply frame_then; [exact F|exact F2|..]; intros j; regions.
  - pose proof (frame_fits _ _ _ X n F2 Ft1). rewrite mpi_cons, E2 by (try regions; lia).
    replace (X + ciL * i + ciL * 1) with (X + ciL * (i + 1)) by lia. replace (n - i - 1) with (n - (i + 1)) by lia.
    rewrite (frame_mpi _ _ _ _ _ F2) by (try regions; intros j; regions). done.
Qed.

(** A loop whose body is a single write is a loop over a binding. *)
Lemma runs_bind_ret (c : prog ()) m0 (Q : () -> mem -> Prop) : runs (c ≫= fun _ => mret tt) m0 Q -> runs c m0 Q.
Proof.
  intros (a & m' & E & H). exists a, m'. split; [|done]. unfold mbind, prog_bind, mret, prog_ret in E.
  destruct (c m0) as [[[] m1]| |]; cbn in E; by simplify_eq.
Qed.

Lemma limbs_r_spec X n v0 : fits m X n -> 0 <= v0 <= n ->
  runs (for_up 0 (n - v0) tt (fun i _ => x ← get X (i + v0); set X i x) ;;
        for_up (n - v0) n tt (fun i _ => set X i 0)) m
    (fun _ m' => frame (inside X n) m m' /\ mpi m' X n = mpi m X n / base v0).
Proof.
  intros FX Hv. destruct Wm as [Bm _].
  eapply runs_bind; [apply (runs_up (fun i _ m' => frame (inside X i) m m' /\ mpi m' X i = mpi m (X + ciL * v0) i))|].
  { lia. }
  { split; [by apply frame_same|done]. }
  { intros i [] m1 Hi (F1 & E1). eapply bind_read; [exact F1|exact FX|lia|intros j; regions|].
    eapply runs_push; [exact FX|lia|exact F1|]. intros m2 F2 E2. split; [exact F2|].
    rewrite E2, E1, mpi_succ by (try regions; lia). replace (X + ciL * v0 + ciL * i) with (X + ciL * (i + v0)) by lia.
    rewrite u64_id; [done|]. apply mpi_word; [done|regions]. }
  intros [] m1 (F1 & E1).
  eapply runs_mono; [apply (runs_up (fun i _ m' => frame (inside X i) m m' /\ mpi m' X i = mpi m (X + ciL * v0) (n - v0)))|].
  { lia. }
  { done. }
  { intros i [] m2 Hi (F2 & E2). eapply runs_push; [exact FX|lia|exact F2|]. intros m3 F3 E3.
    split; [exact F3|]. rewrite E3, E2. change (u64 0) with 0. lia. }
  intros [] m2 (F2 & E2). split; [exact F2|]. rewrite E2. replace n with (v0 + (n - v0)) at 2 by lia.
  rewrite mpi_add by (try regions; lia). pose proof (mpi_range m X v0 Bm ltac:(regions)) as R.
  rewrite (Z.mul_comm (base v0)), Z.div_add, Z.div_small by lia. lia.
Qed.

Lemma shift_right_word x hi v : 0 <= x < 2 ^ 64 -> 0 < v < 64 -> 0 <= hi ->
  let r0 := 2 ^ (64 - v) * (hi mod 2 ^ v) in
  u64 (Z.shiftl x (64 - v)) = 2 ^ (64 - v) * (x mod 2 ^ v) /\
  u64 (Z.lor (Z.shiftr x v) r0) + 2 ^ 64 * (hi / 2 ^ v) = (x + 2 ^ 64 * hi) / 2 ^ v.
Proof.
  intros Hx Hv Hhi r0. assert (2 ^ 64 = 2 ^ (64 - v) * 2 ^ v) as P by (rewrite <- Z.pow_add_r by lia; f_equal; lia).
  assert (0 < 2 ^ v) by (apply Z.pow_pos_nonneg; lia). assert (0 < 2 ^ (64 - v)) by (apply Z.pow_pos_nonneg; lia).
  split.
  - unfold u64. rewrite Z.shiftl_mul_pow2, P, Z.mul_comm by lia. apply Z.mul_mod_distr_l; lia.
  - pose proof (Z.mod_pos_bound hi (2 ^ v) ltac:(lia)) as Rm. pose proof (Z.div_mod hi (2 ^ v) ltac:(lia)) as Dm.
    assert (0 <= x / 2 ^ v < 2 ^ (64 - v)) as Rx.
    { split; [apply Z.div_pos; lia|]. apply Z.div_lt_upper_bound; lia. }
    assert (Z.lor (Z.shiftr x v) r0 = x / 2 ^ v + r0) as ->.
    { unfold r0. rewrite Z.lor_comm, Z.shiftr_div_pow2 by lia. rewrite (Z.mul_comm _ (hi mod _)), <- Z.shiftl_mul_pow2 by lia.
      rewrite lor_shiftl_add by lia. rewrite Z.shiftl_mul_pow2 by lia. lia. }
    rewrite u64_id by (unfold r0; nia). unfold r0.
    rewrite P. rewrite (Z.mul_comm (2 ^ (64 - v)) (2 ^ v)) at 1 2.
    replace (x + 2 ^ v * 2 ^ (64 - v) * hi) with (x + 2 ^ (64 - v) * hi * 2 ^ v) by ring.
    rewrite Z.div_add by lia. rewrite Dm at 3. ring.
Qed.

Lemma bits_r_spec X n v1 : fits m X n -> 0 < v1 < 64 ->
  runs (_ ← for_down n 0 0 (fun i r0 =>
      x ← get X (i - 1);
      let r1 := u64 (Z.shiftl x (biL - v1)) in
      set X (i - 1) (Z.lor (Z.shiftr x v1) r0) ;;
      mret r1);
    mret tt) m (fun _ m' => frame (inside X n) m m' /\ mpi m' X n = mpi m X n / 2 ^ v1).
Proof.
  intros FX Hv. destruct Wm as [Bm _]. assert (0 < 2 ^ v1) by (apply Z.pow_pos_nonneg; lia).
  eapply runs_bind; [apply (runs_down (fun i r0 m' => frame (inside (X + ciL * i) (n - i)) m m' /\
    r0 = 2 ^ (64 - v1) * (mpi m (X + ciL * i) (n - i) mod 2 ^ v1) /\
    mpi m' (X + ciL * i) (n - i) = mpi m (X + ciL * i) (n - i) / 2 ^ v1))|].
  { regions. }
  { rewrite Z.sub_diag, !mpi_0. split_and!; [by apply frame_same|..]; rewrite ?Z.mod_0_l, ?Z.div_0_l; lia. }
  2: { intros r0 m1 (F1 & _ & E1). apply runs_ret. rewrite Z.mul_0_r, Z.add_0_r, Z.sub_0_r in *. done. }
  intros i r0 m1 Hi (F1 & -> & E1).
  eapply bind_read; [exact F1|exact FX|lia|intros j; regions|].
  pose proof (mpi_word m (X + ciL * (i - 1)) Bm ltac:(regions)) as Rx.
  pose proof (mpi_range m (X + ciL * i) (n - i) Bm ltac:(regions)) as Rh.
  destruct (shift_right_word _ _ v1 Rx Hv (proj1 Rh)) as [Er Ew]. cbv zeta in *.
  eapply bind_push_down; [exact FX|lia| |].
  { replace (i - 1 + 1) with i by lia. exact F1. }
  intros m2 F2 E2. apply runs_ret. replace (i - 1 + 1) with i in * by lia.
  assert (mpi m (X + ciL * (i - 1)) (n - (i - 1)) = mpi m (X + ciL * (i - 1)) 1 + 2 ^ 64 * mpi m (X + ciL * i) (n - i)) as Eh.
  { rewrite mpi_cons by (try regions; lia). do 3 f_equal; lia. }
  split_and!; [exact F2| |].
  - unfold biL. rewrite Er, Eh. f_equal.
    replace (2 ^ 64) with (2 ^ (64 - v1) * 2 ^ v1) by (rewrite <- Z.pow_add_r by lia; f_equal; lia).
    replace (2 ^ (64 - v1) * 2 ^ v1 * _) with (2 ^ (64 - v1) * mpi m (X + ciL * i) (n - i) * 2 ^ v1) by ring.
    by rewrite Z_mod_plus_full.
  - rewrite E2, E1, Eh. exact Ew.
Qed.

Lemma land_63 c : Z.land c 63 = c mod 64.
Proof. change 63 with (Z.ones 6). by rewrite Z.land_ones by lia. Qed.

End shifts.

Lemma core_shift_r_spec m X n count : wf m -> fits m X n -> 0 <= count ->
  runs (mbedtls_mpi_core_shift_r X n count) m (fun _ m' =>
    frame (inside X n) m m' /\ mpi m' X n = mpi m X n / 2 ^ count).
Proof.
  intros Wm FX Hc. pose proof Wm as [Bm _]. unfold mbedtls_mpi_core_shift_r, biL. rewrite land_63.
  pose proof (Z.div_mod count 64 ltac:(lia)) as D. pose proof (Z.mod_pos_bound count 64 ltac:(lia)) as R.
  assert (0 <= count / 64) by (apply Z.div_pos; lia).
  pose proof (mpi_range m X n Bm FX) as RX.
  destruct ((count / 64 >? n) || _) eqn:Big.
  { apply (runs_memset m X n); [done..|]. intros m' F' E'. split; [done|]. rewrite E', Z.div_small; [done|].
    split; [lia|]. eapply Z.lt_le_trans; [apply RX|]. unfold base, biL. apply Z.pow_le_mono_r; [lia|].
    apply orb_true_iff in Big as [Big|Big]; bool_to_prop; lia. }
  bool_to_prop. eapply (runs_bind _ _ _ (fun _ m' => frame (inside X n) m m' /\ mpi m' X n = mpi m X n / base (count / 64))).
  { split_if; [by apply limbs_r_spec|]. apply runs_ret. replace (count / 64) with 0 by lia.
    rewrite base_0, Z.div_1_r. split; [by apply frame_same|done]. }
  intros [] m1 (F1 & E1).
  assert (forall z, (z / base (count / 64)) / 2 ^ (count mod 64) = z / 2 ^ count) as Dd.
  { intros z. rewrite Z.div_div; [|pose proof (base_gt0 (count / 64) ltac:(lia)); lia|apply Z.pow_pos_nonneg; lia].
    unfold base, biL. rewrite <- Z.pow_add_r by lia. do 2 f_equal. lia. }
  destruct (count mod 64 >? 0) eqn:Hv; bool_to_prop.
  - eapply runs_mono; [eapply (bits_r_spec m1); [by eapply frame_wf|by eapply frame_fits|lia]|].
    intros [] m2 (F2 & E2). split; [by eapply frame_seq|]. by rewrite E2, E1, Dd.
  - apply runs_ret. split; [done|]. rewrite E1, <- Dd. replace (count mod 64) with 0 by lia. by rewrite Z.div_1_r.
Qed.

Lemma runs_push_down X i x n m0 m1 (Q : () -> mem -> Prop) :
  fits m0 X n -> 0 <= i < n -> frame (inside (X + ciL * (i + 1)) (n - (i + 1))) m0 m1 ->
  (forall m2, frame (inside (X + ciL * i) (n - i)) m0 m2 ->
     mpi m2 (X + ciL * i) (n - i) = u64 x + 2 ^ 64 * mpi m1 (X + ciL * (i + 1)) (n - (i + 1)) -> Q tt m2) ->
  runs (set X i x) m1 Q.
Proof.
  intros Ft Hi F H. apply runs_bind_ret. eapply bind_push_down; [exact Ft|done|exact F|].
  intros m2 F2 E2. apply runs_ret. auto.
Qed.

Section left.
Context (m : mem) (Wm : wf m).

Lemma limbs_l_spec X n v0 : fits m X n -> 0 <= v0 ->
  runs (for_down n (Z.min v0 n) tt (fun i _ => x ← get X (i - v0 - 1); set X (i - 1) x) ;;
        for_down (Z.min v0 n) 0 tt (fun i _ => set X (i - 1) 0)) m
    (fun _ m' => frame (inside X n) m m' /\ mpi m' X (Z.min v0 n) = 0 /\
       (v0 <= n -> mpi m' (X + ciL * v0) (n - v0) = mpi m X (n - v0))).
Proof.
  intros FX Hv. destruct Wm as [Bm _]. pose proof FX as (_ & Hn & _). set (w := Z.min v0 n).
  eapply runs_bind; [apply (runs_down (fun i _ m' => frame (inside (X + ciL * i) (n - i)) m m' /\
    (v0 <= n -> mpi m' (X + ciL * i) (n - i) = mpi m (X + ciL * (i - v0)) (n - i))))|].
  { lia. }
  { split; [by apply frame_same|]. by rewrite Z.sub_diag, !mpi_0. }
  { intros i [] m1 Hi (F1 & E1).
    eapply bind_read; [exact F1|exact FX|lia|intros j; regions|].
    eapply runs_push_down; [exact FX|lia|by replace (i - 1 + 1) with i by lia|].
    intros m2 F2 E2. split; [exact F2|]. intros Hle. replace (i - 1 + 1) with i in * by lia. specialize (E1 Hle).
    rewrite E2, E1, (mpi_cons m (X + ciL * (i - 1 - v0))) by (try regions; lia).
    rewrite u64_id by (apply mpi_word; [done|regions]). f_equal; [f_equal; lia|]. do 2 f_equal; lia. }
  intros [] m1 (F1 & E1).
  eapply runs_mono; [apply (runs_down (fun i _ m' => frame (inside (X + ciL * i) (n - i)) m m' /\
    frame (inside (X + ciL * i) (w - i)) m1 m' /\ mpi m' (X + ciL * i) (w - i) = 0))|].
  { lia. }
  { split_and!; [done|by eapply frame_same, frame_bytes|by rewrite Z.sub_diag, !mpi_0]. }
  { intros i [] m2 Hi (F2 & F12 & E2). pose proof (frame_fits _ _ _ X n F1 FX) as FX1.
    eapply (runs_push_down X (i - 1) 0 w m1); [regions|lia|by replace (i - 1 + 1) with i by lia|].
    intros m3 F3 E3. replace (i - 1 + 1) with i in * by lia. split_and!; [|exact F3|rewrite E3, E2; done].
    eapply frame_then; [exact F1|exact F3|..]; intros j; regions. }
  intros [] m2 (F2 & F12 & E2). rewrite Z.mul_0_r, Z.add_0_r, Z.sub_0_r in *. split_and!; [done..|].
  intros Hle. replace v0 with w by lia. rewrite (frame_mpi _ _ _ _ _ F12) by (try intros j; unfold w in *; pose proof (frame_len _ _ _ F1); regions).
  replace w with v0 by lia. specialize (E1 ltac:(lia)). replace w with v0 in E1 by lia. rewrite E1.
  replace (X + ciL * (v0 - v0)) with X by lia. done.
Qed.

Lemma shift_left_word x v r0 : 0 <= x < 2 ^ 64 -> 0 < v < 64 -> 0 <= r0 < 2 ^ v ->
  u64 (Z.lor (u64 (Z.shiftl x v)) r0) + 2 ^ 64 * Z.shiftr x (64 - v) = 2 ^ v * x + r0 /\
  0 <= Z.shiftr x (64 - v) < 2 ^ v.
Proof.
  intros Hx Hv Hr. assert (2 ^ 64 = 2 ^ v * 2 ^ (64 - v)) as P by (rewrite <- Z.pow_add_r by lia; f_equal; lia).
  assert (0 < 2 ^ v) by lia. assert (0 < 2 ^ (64 - v)) by (apply Z.pow_pos_nonneg; lia).
  rewrite Z.shiftr_div_pow2, Z.shiftl_mul_pow2 by lia.
  assert (u64 (x * 2 ^ v) = Z.shiftl (x mod 2 ^ (64 - v)) v) as ->.
  { unfold u64. rewrite P, Z.mul_comm, Z.mul_mod_distr_l, Z.shiftl_mul_pow2 by lia. lia. }
  rewrite lor_shiftl_add by lia.
  pose proof (Z.div_mod x (2 ^ (64 - v)) ltac:(lia)) as D. pose proof (Z.mod_pos_bound x (2 ^ (64 - v)) ltac:(lia)) as R.
  assert (0 <= x / 2 ^ (64 - v) < 2 ^ v) as Q.
  { split; [apply Z.div_pos; lia|]. apply Z.div_lt_upper_bound; lia. }
  split; [|done]. rewrite u64_id by nia. rewrite P. nia.
Qed.

Lemma bits_l_spec X n v0 v1 : fits m X n -> 0 <= v0 <= n -> 0 < v1 < 64 ->
  runs (_ ← for_up v0 n 0 (fun i r0 =>
      x ← get X i;
      let r1 := Z.shiftr x (biL - v1) in
      set X i (Z.lor (u64 (Z.shiftl x v1)) r0) ;;
      mret r1);
    mret tt) m (fun _ m' => frame (inside (X + ciL * v0) (n - v0)) m m' /\
      mpi m' (X + ciL * v0) (n - v0) = (2 ^ v1 * mpi m (X + ciL * v0) (n - v0)) mod base (n - v0)).
Proof.
  intros FX H0 Hv. destruct Wm as [Bm _]. set (Y := X + ciL * v0).
  eapply runs_bind; [apply (runs_up (fun i r0 m' => frame (inside Y (i - v0)) m m' /\
    mpi m' Y (i - v0) + base (i - v0) * r0 = 2 ^ v1 * mpi m Y (i - v0) /\ 0 <= r0 < 2 ^ v1))|].
  { lia. }
  { rewrite Z.sub_diag, !mpi_0. split_and!; [by apply frame_same|lia|lia|apply Z.pow_pos_nonneg; lia]. }
  2: { intros r0 m1 (F1 & E1 & R1). apply runs_ret. split; [done|]. pose proof (frame_fits _ _ _ X n F1 FX).
    pose proof (mpi_range m1 Y (n - v0) ltac:(by eapply frame_bytes) ltac:(unfold Y; regions)) as R.
    rewrite <- E1, (Z.mul_comm (base _)), Z_mod_plus_full, Z.mod_small by lia. done. }
  intros i r0 m1 Hi (F1 & E1 & R1).
  eapply bind_read; [exact F1|exact FX|lia|intros j; unfold Y; regions|].
  pose proof (mpi_word m (X + ciL * i) Bm ltac:(regions)) as Rx.
  destruct (shift_left_word _ v1 r0 Rx Hv R1) as [Ew Er].
  assert (forall x, set X i x = set Y (i - v0) x) as -> by (intros x; unfold set; by replace (Y + ciL * (i - v0)) with (X + ciL * i) by (unfold Y; lia)).
  eapply (bind_push Y (i - v0) _ (n - v0) m m1); [unfold Y; regions|lia|exact F1|].
  intros m2 F2 E2. apply runs_ret. replace (i + 1 - v0) with (i - v0 + 1) by lia. split_and!; [exact F2| |apply Er..].
  rewrite E2, mpi_succ, base_succ by (try (unfold Y; regions); lia).
  replace (Y + ciL * (i - v0)) with (X + ciL * i) by (unfold Y; lia). unfold biL in *. nia.
Qed.

End left.

Lemma core_shift_l_spec m X n count : wf m -> fits m X n -> 0 <= count ->
  runs (mbedtls_mpi_core_shift_l X n count) m (fun _ m' =>
    frame (inside X n) m m' /\ mpi m' X n = (mpi m X n * 2 ^ count) mod base n).
Proof.
  intros Wm FX Hc. pose proof Wm as [Bm _]. pose proof FX as (_ & Hn & _). unfold mbedtls_mpi_core_shift_l.
  change (biL - 1) with 63. rewrite land_63. change (count / biL) with (count / 64).
  pose proof (Z.div_mod count 64 ltac:(lia)) as D. pose proof (Z.mod_pos_bound count 64 ltac:(lia)) as R.
  assert (0 <= count / 64) by (apply Z.div_pos; lia). set (v0 := count / 64) in *. set (v1 := count mod 64) in *.
  assert (2 ^ count = base v0 * 2 ^ v1) as Ec by (unfold base, biL; rewrite <- Z.pow_add_r by lia; f_equal; lia).
  pose proof (mpi_range m X n Bm FX) as RX. pose proof (base_gt0 n Hn).
  eapply (runs_bind _ _ _ (fun _ m' => frame (inside X n) m m' /\ mpi m' X (Z.min v0 n) = 0 /\
    (v0 <= n -> mpi m' (X + ciL * v0) (n - v0) = mpi m X (n - v0)))).
  { split_if; [by apply limbs_l_spec|]. apply runs_ret. replace v0 with 0 by lia. rewrite Z.min_l by lia.
    rewrite Z.mul_0_r, Z.add_0_r, Z.sub_0_r. split_and!; [by apply frame_same|done..]. }
  intros [] m1 (F1 & Z1 & E1). pose proof (frame_fits _ _ _ X n F1 FX) as FX1.
  destruct (Z.lt_ge_cases n v0) as [Hbig|Hle].
  { (* everything is shifted out *)
    assert (mpi m1 X n = (mpi m X n * 2 ^ count) mod base n) as Efin.
    { rewrite Z.min_r in Z1 by lia. rewrite Z1, Ec. replace v0 with (n + (v0 - n)) by lia. rewrite base_add by lia.
      replace (mpi m X n * (base n * base (v0 - n) * 2 ^ v1)) with (mpi m X n * base (v0 - n) * 2 ^ v1 * base n) by ring.
      by rewrite Z.mod_mul by lia. }
    split_if; [|by apply runs_ret]. unfold for_up. replace (Z.to_nat (n - v0)) with O by lia. cbn [loop_up].
    by eexists _, m1. }
  rewrite Z.min_l in Z1 by lia. specialize (E1 Hle).
  pose proof (mpi_range m X (n - v0) Bm ltac:(regions)) as RL. pose proof (base_gt0 (n - v0) ltac:(lia)).
  assert ((mpi m X n * 2 ^ count) mod base n = base v0 * ((2 ^ v1 * mpi m X (n - v0)) mod base (n - v0))) as Efin.
  { rewrite Ec. replace n with (v0 + (n - v0)) at 2 by lia. rewrite base_add by lia.
    replace (mpi m X n * (base v0 * 2 ^ v1)) with (base v0 * (2 ^ v1 * mpi m X n)) by ring.
    pose proof (base_gt0 v0 ltac:(lia)). rewrite Z.mul_mod_distr_l by lia. f_equal.
    replace n with (n - v0 + v0) at 1 by lia. rewrite mpi_add by (try regions; lia).
    rewrite Z.mul_add_distr_l, Z.mul_assoc, (Z.mul_comm (2 ^ v1) (base _)), <- Z.mul_assoc, (Z.mul_comm (base (n - v0))).
    by rewrite Z_mod_plus_full. }
  split_if.
  - eapply runs_mono; [apply (bits_l_spec m1); [by eapply frame_wf|done|lia|lia]|].
    intros [] m2 (F2 & E2). split; [eapply frame_then; [exact F1|exact F2|..]; intros j; regions|].
    pose proof (frame_fits _ _ _ X n F2 FX1). replace n with (v0 + (n - v0)) at 1 by lia.
    rewrite mpi_add by (try regions; lia). rewrite (frame_mpi _ _ _ X v0 F2) by (try regions; intros j; regions).
    rewrite Z1, E2, E1, Efin. lia.
  - apply runs_ret. split; [done|]. rewrite Efin. replace v1 with 0 by lia. rewrite Z.pow_0_r, Z.mul_1_l, Z.mod_small by lia.
    replace n with (v0 + (n - v0)) at 1 by lia. rewrite mpi_add, Z1, E1 by (try regions; lia). lia.
Qed.

(** ** Theorems *)

(** The additions and subtractions leave the sum or difference modulo the base of the
    [n] limbs in [X], which may be one of the operands, return the carry or borrow, and
    change no other byte; the conditional addition adds or does not. *)
Theorem core_add_sub_correct be m X A B n c :
  wf m -> fits m X n -> fits m A n -> fits m B n -> alias_ok X A n -> alias_ok X B n -> 0 <= c < 2 ^ 32 ->
  runs (mbedtls_mpi_core_add X A B n) m (fun r m' =>
    frame (inside X n) m m' /\ mpi m' X n + base n * r = mpi m A n + mpi m B n /\ 0 <= r <= 1) /\
  runs (mbedtls_mpi_core_sub X A B n) m (fun r m' =>
    frame (inside X n) m m' /\ mpi m' X n - base n * r = mpi m A n - mpi m B n /\ 0 <= r <= 1) /\
  runs (mbedtls_mpi_core_add_if be X A n c) m (fun r m' =>
    frame (inside X n) m m' /\ mpi m' X n + base n * r = mpi m X n + (if c =? 0 then 0 else mpi m A n) /\ 0 <= r <= 1) /\
  runs (mbedtls_mpi_core_sub_int X A c n) m (fun r m' =>
    frame (inside X n) m m' /\ mpi m' X n - base n * r = mpi m A n - c /\ (0 < n -> 0 <= r <= 1)).
Proof.
  intros. split_and!; [by apply core_add_spec|by apply core_sub_spec|by apply core_add_if_spec|].
  apply core_sub_int_spec; try done; lia.
Qed.

(** Evaluating closed side conditions on a concrete memory. *)
Ltac concrete :=
  match goal with
  | |- wf _ => split; [apply (bool_decide_unpack _); vm_compute; exact I|vm_compute; reflexivity]
  | |- fits _ _ _ => unfold fits, ciL; vm_compute; repeat split; discriminate
  | |- apart _ _ _ _ => unfold apart, ciL; lia
  | |- alias_ok _ _ _ => unfold alias_ok, apart, ciL; lia
  | |- word64 _ => unfold word64; lia
  | |- _ = _ => vm_compute; reflexivity
  | |- _ => first [lia | vm_compute; reflexivity | vm_compute; discriminate]
  end.

Lemma core_add_sub_correct_witness :
  let m := replicate 8 255 ++ replicate 8 0 ++ le_bytes 16 7 ++ le_bytes 16 0 in
  runs (mbedtls_mpi_core_add 0 0 16 2) m (fun r m' =>
    frame (inside 0 2) m m' /\ mpi m' 0 2 + base 2 * r = mpi m 0 2 + mpi m 16 2 /\ 0 <= r <= 1).
Proof. intros m. apply (core_add_sub_correct X86_64 m 0 0 16 2 1); unfold m; concrete. Defined.

(** The shifts divide by a power of two, or multiply by it and drop what does not fit,
    for every count. *)
Theorem core_shift_correct m X n count :
  wf m -> fits m X n -> 0 <= count ->
  runs (mbedtls_mpi_core_shift_r X n count) m (fun _ m' =>
    frame (inside X n) m m' /\ mpi m' X n = mpi m X n / 2 ^ count) /\
  runs (mbedtls_mpi_core_shift_l X n count) m (fun _ m' =>
    frame (inside X n) m m' /\ mpi m' X n = (mpi m X n * 2 ^ count) mod base n).
Proof. intros. split; [by apply core_shift_r_spec|by apply core_shift_l_spec]. Qed.

Lemma core_shift_correct_witness :
  let m := le_bytes 24 (2 ^ 100 + 12345) in
  runs (mbedtls_mpi_core_shift_l 8 2 67) m (fun _ m' =>
    frame (inside 8 2) m m' /\ mpi m' 8 2 = (mpi m 8 2 * 2 ^ 67) mod base 2).
Proof. intros m. apply (core_shift_correct m 8 2 67); unfold m; concrete. Defined.

(** The comparisons and the conditional moves of limb arrays do what their branching
    counterparts would on the numbers, in every way they are compiled, and the bit length
    is that of the number. *)
Theorem core_compare_correct be bc m X Y n min b :
  wf m -> fits m X n -> fits m Y n -> alias_ok X Y n -> 0 < n < 2 ^ 31 -> word64 min ->
  runs (mbedtls_mpi_core_lt_ct be X Y n) m (fun r m' => m' = m /\ r = cond (mpi m X n <? mpi m Y n)) /\
  runs (mbedtls_mpi_core_uint_le_mpi be min X n) m (fun r m' => m' = m /\ r = cond (min <=? mpi m X n)) /\
  runs (mbedtls_mpi_core_check_zero_ct be X n) m (fun r m' => m' = m /\ r = cond (negb (mpi m X n =? 0))) /\
  mbedtls_mpi_core_bitlen bc X n m = Done (bitlen (mpi m X n), m) /\
  runs (mbedtls_mpi_core_cond_assign be X Y n (cond b)) m (fun _ m' =>
    frame (inside X n) m m' /\ mpi m' X n = if b then mpi m Y n else mpi m X n) /\
  runs (mbedtls_mpi_core_cond_swap be X Y n (cond b)) m (fun _ m' =>
    frame (fun j => inside X n j \/ inside Y n j) m m' /\
    mpi m' X n = (if b then mpi m Y n else mpi m X n) /\ mpi m' Y n = (if b then mpi m X n else mpi m Y n)).
Proof.
  intros Wm FX FY Ha Hn Hmin. pose proof Wm as [Bm _]. split_and!; [by apply lt_ct_spec|by apply uint_le_mpi_spec; [..|lia|]|
    by apply check_zero_spec|by apply core_bitlen_spec; [..|lia]|by apply cond_assign_spec|by apply cond_swap_spec].
Qed.

Lemma core_compare_correct_witness :
  let m := le_bytes 16 (2 ^ 64 + 5) ++ le_bytes 16 (2 ^ 64 + 6) in
  runs (mbedtls_mpi_core_lt_ct AArch64 0 16 2) m (fun r m' => m' = m /\ r = cond (mpi m 0 2 <? mpi m 16 2)).
Proof. intros m. apply (core_compare_correct AArch64 true m 0 16 2 3 true); unfold m; concrete. Defined.
