(* ===== verification/BignumMul.v ===== *)
(** * Big-number core of mbedTLS: multiplication

    That the multiply-accumulate step of [bn_mul.h] computes [s * b + d + c] in all its
    versions, that [mbedtls_mpi_core_mla] adds a multiple of one number to another, and
    [mbedtls_mpi_core_mul] multiplies (models in [BignumCore]); and Montgomery
    multiplication, [mbedtls_mpi_core_montmul] of [bignum_core.c], with its constant. *)

From S2P Require Import Prelude Bytes ConstTime LimbMem BignumCore.

(** ** The step *)

Lemma split_product P : 0 <= P <= (2 ^ 64 - 1) * (2 ^ 64 - 1) ->
  P = u64 P + 2 ^ 64 * (P / 2 ^ 64) /\ 0 <= u64 P < 2 ^ 64 /\ 0 <= P / 2 ^ 64 <= 2 ^ 64 - 2.
Proof. unfold u64. intros. Z.div_mod_to_equations. lia. Qed.

Lemma b2z_if b : Z.b2z b = if b then 1 else 0.
Proof. by destruct b. Qed.

(** The carry of an addition as the processor computes it. *)
Lemma add64_flag x y : 0 <= x < 2 ^ 64 -> 0 <= y < 2 ^ 64 ->
  u64 (x + y) + 2 ^ 64 * Z.b2z (2 ^ 64 <=? x + y) = x + y.
Proof. unfold u64. intros. rewrite b2z_if. split_if; Z.div_mod_to_equations; lia. Qed.

Lemma b2z_range b : 0 <= Z.b2z b <= 1.
Proof. destruct b; simpl; lia. Qed.

(** Both halves of a product, with two words added: the result has two words. *)
Lemma accumulate_bound s b c d : word64 s -> word64 b -> word64 c -> word64 d ->
  0 <= s * b + c + d < 2 ^ 64 * 2 ^ 64.
Proof. unfold word64. nia. Qed.

Lemma carry_add r0 r1 x T : 0 <= r0 < 2 ^ 64 -> 0 <= x < 2 ^ 64 -> 0 <= r1 ->
  r0 + 2 ^ 64 * r1 + x = T -> T < 2 ^ 64 * 2 ^ 64 ->
  let r0' := u64 (r0 + x) in let r1' := u64 (r1 + Z.b2z (r0' <? x)) in
  r0' + 2 ^ 64 * r1' = T /\ 0 <= r0' < 2 ^ 64 /\ 0 <= r1' < 2 ^ 64.
Proof.
  intros Hr Hx Hr1 E HT r0' r1'. pose proof (add64_carry r0 x Hr Hx) as A. fold r0' in A. rewrite <- b2z_if in A.
  pose proof (u64_range (r0 + x)) as R. fold r0' in R. pose proof (b2z_range (r0' <? x)) as Rb.
  unfold r1'. rewrite u64_id by lia. lia.
Qed.

Lemma halves x : word64 x ->
  x = Z.shiftr (u64 (Z.shiftl x 32)) 32 + 2 ^ 32 * Z.shiftr x 32 /\
  0 <= Z.shiftr (u64 (Z.shiftl x 32)) 32 < 2 ^ 32 /\ 0 <= Z.shiftr x 32 < 2 ^ 32.
Proof.
  unfold word64, u64. intros. rewrite !Z.shiftr_div_pow2, Z.shiftl_mul_pow2 by lia. Z.div_mod_to_equations. lia.
Qed.

Lemma muladdc_word_spec s d b c : word64 s -> word64 d -> word64 b -> word64 c ->
  let '(r, c') := muladdc_core C_word s d b c in r + 2 ^ 64 * c' = s * b + d + c /\ word64 r /\ word64 c'.
Proof.
  intros Hs Hd Hb Hc. pose proof (accumulate_bound s b c d Hs Hb Hc Hd) as Bd.
  unfold muladdc_core, muladdc_word, biH.
  destruct (halves s Hs) as (Es & Rs0 & Rs1). destruct (halves b Hb) as (Eb & Rb0 & Rb1).
  set (s0 := Z.shiftr (u64 (Z.shiftl s 32)) 32) in *. set (s1 := Z.shiftr s 32) in *.
  set (b0 := Z.shiftr (u64 (Z.shiftl b 32)) 32) in *. set (b1 := Z.shiftr b 32) in *.
  clearbody s0 s1 b0 b1.
  assert (forall x y, 0 <= x < 2 ^ 32 -> 0 <= y < 2 ^ 32 -> 0 <= x * y <= (2 ^ 32 - 1) * (2 ^ 32 - 1)) as Pb by nia.
  pose proof (Pb s0 b1 Rs0 Rb1) as P01. pose proof (Pb s0 b0 Rs0 Rb0) as P00.
  pose proof (Pb s1 b0 Rs1 Rb0) as P10. pose proof (Pb s1 b1 Rs1 Rb1) as P11. clear Pb.
  rewrite (u64_id (s0 * b1)), (u64_id (s0 * b0)), (u64_id (s1 * b0)), (u64_id (s1 * b1)) by lia.
  assert (s * b = s0 * b0 + 2 ^ 32 * (s0 * b1 + s1 * b0) + 2 ^ 64 * (s1 * b1)) as Ep by (rewrite Es, Eb; ring).
  set (x01 := s0 * b1) in *. set (x00 := s0 * b0) in *. set (x10 := s1 * b0) in *. set (x11 := s1 * b1) in *.
  clearbody x00 x01 x10 x11.
  destruct (halves x01 ltac:(unfold word64; lia)) as (E01 & L01 & H01).
  destruct (halves x10 ltac:(unfold word64; lia)) as (E10 & L10 & H10).
  assert (forall x, u64 (Z.shiftl x 32) = 2 ^ 32 * Z.shiftr (u64 (Z.shiftl x 32)) 32) as Sh.
  { intros x. unfold u64. rewrite Z.shiftr_div_pow2, Z.shiftl_mul_pow2 by lia. Z.div_mod_to_equations. lia. }
  rewrite (Sh x01), (Sh x10).
  set (l01 := Z.shiftr (u64 (Z.shiftl x01 32)) 32) in *. set (h01 := Z.shiftr x01 32) in *.
  set (l10 := Z.shiftr (u64 (Z.shiftl x10 32)) 32) in *. set (h10 := Z.shiftr x10 32) in *.
  clearbody l01 h01 l10 h10. clear Sh. unfold word64 in *.
  rewrite (u64_id (x11 + h01)), (u64_id (x11 + h01 + h10)) by lia.
  destruct (carry_add x00 (x11 + h01 + h10) (2 ^ 32 * l01) (x00 + 2 ^ 64 * (x11 + h01 + h10) + 2 ^ 32 * l01)) as (A1 & A2 & A3); [lia..|].
  cbv zeta in *. set (p0 := u64 (x00 + _)) in *. set (p1 := u64 (x11 + h01 + h10 + _)) in *. clearbody p0 p1.
  destruct (carry_add p0 p1 (2 ^ 32 * l10) (s * b)) as (B1 & B2 & B3); [lia..|].
  cbv zeta in *. set (q0 := u64 (p0 + _)) in *. set (q1 := u64 (p1 + _)) in *. clearbody q0 q1.
  destruct (carry_add q0 q1 c (s * b + c)) as (C1 & C2 & C3); [lia..|].
  cbv zeta in *. set (v0 := u64 (q0 + _)) in *. set (v1 := u64 (q1 + _)) in *. clearbody v0 v1.
  destruct (carry_add v0 v1 d (s * b + d + c)) as (D1 & D2 & D3); [lia..|]. auto.
Qed.

Lemma muladdc_core_spec v s d b c : word64 s -> word64 d -> word64 b -> word64 c ->
  let '(r, c') := muladdc_core v s d b c in r + 2 ^ 64 * c' = s * b + d + c /\ word64 r /\ word64 c'.
Proof.
  intros Hs Hd Hb Hc. destruct v; [| | |by apply muladdc_word_spec].
  all: pose proof (accumulate_bound s b c d Hs Hb Hc Hd) as Bd; unfold word64 in *.
  all: assert (0 <= s * b <= (2 ^ 64 - 1) * (2 ^ 64 - 1)) as Rp by nia.
  all: destruct (split_product (s * b) Rp) as (Ep & Rl & Rh); unfold muladdc_core, muladdc_x86_64, muladdc_aarch64, muladdc_udbl.
  - rewrite Z.shiftr_div_pow2 by lia. set (lo := u64 (s * b)) in *. set (hi := s * b / 2 ^ 64) in *. clearbody lo hi.
    pose proof (add64_flag lo c Rl Hc) as A1. pose proof (u64_range (lo + c)) as R1. pose proof (b2z_range (2 ^ 64 <=? lo + c)).
    set (x := u64 (lo + c)) in *. set (k := Z.b2z (2 ^ 64 <=? lo + c)) in *. clearbody x k.
    rewrite (u64_id (hi + k)), Z.add_0_l by lia.
    pose proof (add64_flag d x Hd R1) as A2. pose proof (u64_range (d + x)). pose proof (b2z_range (2 ^ 64 <=? d + x)).
    rewrite (u64_id (hi + k + _)) by lia. lia.
  - rewrite Z.shiftr_div_pow2 by lia. set (lo := u64 (s * b)) in *. set (hi := s * b / 2 ^ 64) in *. clearbody lo hi.
    pose proof (add64_flag d lo Hd Rl) as A1. pose proof (u64_range (d + lo)) as R1. pose proof (b2z_range (2 ^ 64 <=? d + lo)).
    set (x := u64 (d + lo)) in *. set (k := Z.b2z (2 ^ 64 <=? d + lo)) in *. clearbody x k.
    rewrite (u64_id (hi + k)) by lia.
    pose proof (add64_flag x c R1 Hc) as A2. pose proof (u64_range (x + c)). pose proof (b2z_range (2 ^ 64 <=? x + c)).
    rewrite (u64_id (hi + k + _)) by lia. lia.
  - rewrite (Z.mod_small (s * b)) by lia. unfold biL. rewrite Z.shiftr_div_pow2 by lia.
    rewrite (u64_id (s * b / 2 ^ 64)) by lia. set (lo := u64 (s * b)) in *. set (hi := s * b / 2 ^ 64) in *. clearbody lo hi.
    destruct (carry_add lo hi c (s * b + c)) as (C1 & C2 & C3); [lia..|].
    cbv zeta in *. set (v0 := u64 (lo + _)) in *. set (v1 := u64 (hi + _)) in *. clearbody v0 v1.
    destruct (carry_add v0 v1 d (s * b + d + c)) as (D1 & D2 & D3); [lia..|]. auto.
Qed.

(** ** Multiply and accumulate *)

Section mla.
Context (v : muladdc) (m : mem) (Wm : wf m) (d s n b : Z).
Context (Fd : fits m d n) (Fs : fits m s n) (Hal : alias_ok d s n) (Hb : word64 b).

(** The first [j] limbs are done. *)
Definition mla_inv (j : Z) (st : Z * Z * Z) (m' : mem) : Prop :=
  let '(d', s', c) := st in
  d' = d + ciL * j /\ s' = s + ciL * j /\ word64 c /\ frame (inside d j) m m' /\
  mpi m' d j + base j * c = mpi m d j + b * mpi m s j.

Lemma x1_spec j st m' : 0 <= j < n -> mla_inv j st m' -> runs (MULADDC_X1_CORE v b st) m' (mla_inv (j + 1)).
Proof.
  destruct st as [[d' s'] c]. intros Hj (-> & -> & Hc & F & E). destruct Wm as [Bm _]. unfold MULADDC_X1_CORE.
  assert (forall p, get (p + ciL * j) 0 = get p j) as Eg by (intros p; unfold get; by rewrite Z.mul_0_r, Z.add_0_r).
  assert (forall p x, set (p + ciL * j) 0 x = set p j x) as Es by (intros p x; unfold set; by rewrite Z.mul_0_r, Z.add_0_r).
  rewrite !Eg. eapply bind_read; [exact F|exact Fs|lia|intros i; by eapply alias_read; eauto|].
  eapply bind_read; [exact F|exact Fd|lia|intros i; by eapply alias_read; eauto using alias_refl|].
  pose proof (muladdc_core_spec v (mpi m (s + ciL * j) 1) (mpi m (d + ciL * j) 1) b c) as K.
  destruct (muladdc_core v _ _ b c) as [r c'].
  destruct K as (K & Wr & Wc); [apply mpi_word; [done|regions]|apply mpi_word; [done|regions]|done..|].
  rewrite Es. eapply bind_push; [exact Fd|lia|exact F|]. intros m2 F2 E2. apply runs_ret.
  split_and!; [lia|lia|done|done|].
  rewrite E2, u64_id, !mpi_succ, base_succ by (try regions; try done; lia). unfold word64 in *. nia.
Qed.

Lemma x2_spec j st m' : 0 <= j -> j + 2 <= n -> mla_inv j st m' -> runs (MULADDC_X2_CORE v b st) m' (mla_inv (j + 2)).
Proof.
  intros Hj Hn HI. eapply runs_bind; [apply (x1_spec j); [lia|done]|]. intros st1 m1 H1.
  replace (j + 2) with (j + 1 + 1) by lia. apply x1_spec; [lia|done].
Qed.

Lemma x4_spec j st m' : 0 <= j -> j + 4 <= n -> mla_inv j st m' -> runs (MULADDC_X4_CORE v b st) m' (mla_inv (j + 4)).
Proof.
  intros Hj Hn HI. eapply runs_bind; [apply (x2_spec j); [lia|lia|done]|]. intros st1 m1 H1.
  replace (j + 4) with (j + 2 + 2) by lia. apply x2_spec; [lia|lia|done].
Qed.

Lemma x8_spec j st m' : 0 <= j -> j + 8 <= n -> mla_inv j st m' -> runs (MULADDC_X8_CORE v b st) m' (mla_inv (j + 8)).
Proof.
  intros Hj Hn HI. eapply runs_bind; [apply (x4_spec j); [lia|lia|done]|]. intros st1 m1 H1.
  replace (j + 8) with (j + 4 + 4) by lia. apply x4_spec; [lia|lia|done].
Qed.

(** The two loops, over eight limbs and over one. *)
Lemma mla_steps_spec :
  runs (st ← for_up 0 (n / 8) (d, s, 0) (fun _ st => MULADDC_X8_CORE v b st);
        for_up 0 (Z.land n 7) st (fun _ st => MULADDC_X1_CORE v b st)) m (mla_inv n).
Proof.
  pose proof Wm as [Bm _]. pose proof Fd as (_ & Hn & _).
  assert (Z.land n 7 = n mod 8) as -> by (change 7 with (Z.ones 3); by rewrite Z.land_ones by lia).
  pose proof (Z.div_mod n 8 ltac:(lia)). pose proof (Z.mod_pos_bound n 8 ltac:(lia)).
  assert (0 <= n / 8) by (apply Z.div_pos; lia).
  eapply runs_bind; [apply (runs_up (fun i => mla_inv (8 * i)))|].
  { lia. }
  { split_and!; [lia|lia|done|by apply frame_same|]. rewrite Z.mul_0_r, !mpi_0. lia. }
  { intros i st m1 Hi HI. replace (8 * (i + 1)) with (8 * i + 8) by lia. apply x8_spec; [lia|lia|done]. }
  intros st m1 HI. eapply runs_mono; [apply (runs_up (fun i => mla_inv (8 * (n / 8) + i)))|].
  { lia. }
  { by rewrite Z.add_0_r. }
  { intros i st2 m2 Hi HI2. rewrite Z.add_assoc. apply x1_spec; [lia|done]. }
  intros st2 m2 HI2. cbv beta in HI2. by replace (8 * (n / 8) + n mod 8) with n in HI2 by lia.
Qed.

End mla.

Lemma mla_spec v m d d_len s s_len b :
  wf m -> fits m d d_len -> fits m s s_len -> 0 <= s_len <= d_len -> s = d \/ apart d d_len s s_len -> word64 b ->
  runs (mbedtls_mpi_core_mla v d d_len s s_len b) m (fun c m' =>
    frame (inside d d_len) m m' /\ word64 c /\ mpi m' d d_len + base d_len * c = mpi m d d_len + b * mpi m s s_len).
Proof.
  intros Wm Fd Fs Hle Hal Hb. pose proof Wm as [Bm _]. unfold mbedtls_mpi_core_mla.
  replace (d_len <? s_len) with false by lia.
  assert (runs (st ← for_up 0 (s_len / 8) (d, s, 0) (fun _ st => MULADDC_X8_CORE v b st);
    for_up 0 (Z.land s_len 7) st (fun _ st => MULADDC_X1_CORE v b st)) m (mla_inv m d s b s_len)) as Hsteps
    by (apply mla_steps_spec; auto; regions).
  destruct Hsteps as (st & m1 & Hrun & Hinv).
  enough (runs ('(_, c) ← for_up 0 (d_len - s_len) (st.1.1, st.2) (fun _ '(d, c) =>
      x ← get d 0; set d 0 (u64 (x + c)) ;; mret (d + ciL, Z.b2z (u64 (x + c) <? c))); mret c) m1
      (fun c m' => frame (inside d d_len) m m' /\ word64 c /\
        mpi m' d d_len + base d_len * c = mpi m d d_len + b * mpi m s s_len)) as (c & m2 & Hrun2 & H2).
  { exists c, m2. split; [|done]. unfold mbind, prog_bind in Hrun, Hrun2 |- *.
    destruct (for_up 0 (s_len / 8) _ _ m) as [[st1 m']| |]; cbn in Hrun |- *; try done.
    rewrite Hrun. cbn. destruct st as [[d' s'] c']. exact Hrun2. }
  destruct st as [[d' s'] c0]. destruct Hinv as (-> & -> & Hc & F & E). cbn [fst snd].
  eapply runs_bind; [apply (runs_up (fun i '(d', c) m' => d' = d + ciL * (s_len + i) /\ word64 c /\
    frame (inside d (s_len + i)) m m' /\ mpi m' d (s_len + i) + base (s_len + i) * c = mpi m d (s_len + i) + b * mpi m s s_len))|].
  { lia. }
  { rewrite Z.add_0_r. done. }
  2: { intros [d' c] m2 (_ & Wc & F2 & E2). apply runs_ret. by replace (s_len + (d_len - s_len)) with d_len in * by lia. }
  intros i [d' c] m2 Hi (-> & Wc & F2 & E2).
  assert (forall p j, get (p + ciL * j) 0 = get p j) as Eg by (intros p j; unfold get; by rewrite Z.mul_0_r, Z.add_0_r).
  assert (forall p j x, set (p + ciL * j) 0 x = set p j x) as Es by (intros p j x; unfold set; by rewrite Z.mul_0_r, Z.add_0_r).
  rewrite Eg. eapply bind_read; [exact F2|exact Fd|lia|intros j; regions|]. rewrite Es.
  pose proof (mpi_word m (d + ciL * (s_len + i)) Bm ltac:(regions)) as Rx.
  eapply bind_push; [exact Fd|lia|exact F2|]. intros m3 F3 E3. apply runs_ret. rewrite Z.add_assoc.
  pose proof (add64_carry _ c Rx Wc) as A. pose proof (u64_range (mpi m (d + ciL * (s_len + i)) 1 + c)).
  rewrite <- b2z_if in A. pose proof (b2z_range (u64 (mpi m (d + ciL * (s_len + i)) 1 + c) <? c)).
  split_and!; [lia|unfold word64; lia|done|].
  rewrite E3, u64_id, !mpi_succ, base_succ by (try regions; lia). nia.
Qed.

(** ** Multiplication *)

Lemma core_mul_spec v m X A A_limbs B B_limbs :
  wf m -> fits m X (A_limbs + B_limbs) -> fits m A A_limbs -> fits m B B_limbs ->
  apart X (A_limbs + B_limbs) A A_limbs -> apart X (A_limbs + B_limbs) B B_limbs ->
  runs (mbedtls_mpi_core_mul v X A A_limbs B B_limbs) m (fun _ m' =>
    frame (inside X (A_limbs + B_limbs)) m m' /\ mpi m' X (A_limbs + B_limbs) = mpi m A A_limbs * mpi m B B_limbs).
Proof.
  intros Wm FX FA FB HA HB. pose proof Wm as [Bm _]. set (N := A_limbs + B_limbs) in *.
  apply (bind_memset m X N); [done..|]. intros m0 F0 E0. pose proof FA as (_ & HA0 & _). pose proof FB as (_ & HB0 & _).
  eapply runs_mono; [apply (runs_up (fun i _ m' => frame (inside X N) m m' /\ mpi m' X N = mpi m A A_limbs * mpi m B i))|].
  { lia. }
  { rewrite mpi_0. split; [done|lia]. }
  2: { done. }
  intros i [] m1 Hi (F1 & E1). pose proof (frame_wf _ _ _ Wm F1) as W1. pose proof (frame_fits _ _ _ X N F1 FX) as FX1.
  eapply bind_read; [exact F1|exact FB|lia|intros j; regions|].
  eapply runs_bind; [apply (mla_spec v m1); [done|unfold N in *; regions|by eapply frame_fits|lia|right; unfold N in *; regions|by apply mpi_word; [|regions]]|].
  intros c m2 (F2 & Wc & E2). apply runs_ret.
  assert (frame (inside X N) m m2) as F02 by (eapply frame_then; [exact F1|exact F2|..]; intros j; unfold N; regions).
  split; [done|]. pose proof (frame_fits _ _ _ X N F02 FX) as FX2.
  pose proof (mpi_range m2 X N ltac:(by eapply frame_bytes) FX2) as R2.
  rewrite (frame_mpi _ _ _ A A_limbs F1) in E2 by (try regions; intros j; regions).
  (* the parts of X: below, the window, above *)
  set (k := N - i - (A_limbs + 1)) in *. assert (0 <= k) by (unfold k, N; lia).
  assert (forall m', fits m' X N -> mpi m' X N = mpi m' X i + base i * (mpi m' (X + ciL * i) (A_limbs + 1)
    + base (A_limbs + 1) * mpi m' (X + ciL * i + ciL * (A_limbs + 1)) k)) as Split.
  { intros m' Fm'. replace N with (i + (A_limbs + 1 + k)) by (unfold k; lia).
    rewrite mpi_add, (mpi_add _ _ (A_limbs + 1) k) by (unfold k, N in *; try regions; lia). done. }
  pose proof (Split m2 FX2) as S2. pose proof (Split m1 FX1) as S1.
  rewrite (frame_mpi _ _ _ X i F2) in S2 by (unfold N in *; try regions; intros j; regions).
  rewrite (frame_mpi _ _ _ (X + ciL * i + ciL * (A_limbs + 1)) k F2) in S2 by (unfold k, N in *; try regions; intros j; regions).
  assert (mpi m2 X N + base (i + (A_limbs + 1)) * c = mpi m A A_limbs * mpi m B (i + 1)) as Efin.
  { rewrite mpi_succ, base_add by (try regions; lia). rewrite S2. rewrite S1 in E1. nia. }
  assert (0 <= mpi m A A_limbs * mpi m B (i + 1) < base (i + (A_limbs + 1))) as Rp.
  { pose proof (mpi_range m A A_limbs Bm FA). pose proof (mpi_range m B (i + 1) Bm ltac:(regions)).
    replace (i + (A_limbs + 1)) with (A_limbs + (i + 1)) by lia. rewrite base_add by lia. nia. }
  assert (c = 0) as ->; [|lia]. destruct Wc as [Wc _].
  pose proof (base_gt0 (i + (A_limbs + 1)) ltac:(lia)) as HK. clear -Efin Rp R2 Wc HK. nia.
Qed.

(** ** Theorem *)

(** C22.  In every version of the multiply-accumulate step, a multiple [b * S] of one number is
    added to another, [D], at least as long, with the carry returned; the two may be the same
    array ([S = D], the aliasing bignum_core.h allows) or do not overlap.  The product of two
    numbers of any lengths, in buffers that do not overlap the result's, is their product.
    Neither writes outside its result. *)
Theorem core_mul_correct v m D D_limbs S S_limbs b X A A_limbs B B_limbs :
  wf m -> fits m D D_limbs -> fits m S S_limbs -> S_limbs <= D_limbs ->
  S = D \/ apart D D_limbs S S_limbs -> word64 b ->
  fits m X (A_limbs + B_limbs) -> fits m A A_limbs -> fits m B B_limbs ->
  apart X (A_limbs + B_limbs) A A_limbs -> apart X (A_limbs + B_limbs) B B_limbs ->
  runs (mbedtls_mpi_core_mla v D D_limbs S S_limbs b) m (fun c m' =>
    frame (inside D D_limbs) m m' /\ word64 c /\
    mpi m' D D_limbs + base D_limbs * c = mpi m D D_limbs + b * mpi m S S_limbs) /\
  runs (mbedtls_mpi_core_mul v X A A_limbs B B_limbs) m (fun _ m' =>
    frame (inside X (A_limbs + B_limbs)) m m' /\ mpi m' X (A_limbs + B_limbs) = mpi m A A_limbs * mpi m B B_limbs).
Proof.
  intros Wm FD FS Hle Hal Hb FX FA FB XA XB. pose proof FS as (_ & HS & _).
  split; [by apply mla_spec|by apply core_mul_spec].
Qed.

(** In place, and into the three limbs in front of the factors. *)
Lemma core_mul_correct_witness :
  let m := replicate 24 9 ++ le_bytes 8 (2 ^ 64 - 1) ++ le_bytes 16 (2 ^ 128 - 1) in
  runs (mbedtls_mpi_core_mla C_word 32 2 32 2 7) m (fun c m' =>
    frame (inside 32 2) m m' /\ word64 c /\ mpi m' 32 2 + base 2 * c = mpi m 32 2 + 7 * mpi m 32 2) /\
  runs (mbedtls_mpi_core_mul C_word 0 24 1 32 2) m (fun _ m' =>
    frame (inside 0 (1 + 2)) m m' /\ mpi m' 0 (1 + 2) = mpi m 24 1 * mpi m 32 2).
Proof.
  intros m. apply (core_mul_correct C_word m 32 2 32 2 7 0 24 1 32 2); try (left; reflexivity); unfold m; concrete.
Defined.
