(* ===== verification/BignumMont.v ===== *)
(** * Big-number core of mbedTLS: Montgomery multiplication

    [mbedtls_mpi_core_montmul_init], [mbedtls_mpi_core_montmul] and the conversions to and
    from Montgomery form of [src/internal/mbedtls/bignum_core.c].  With [R] the base of the
    limbs to the number of limbs of the modulus, the theorems show that the constant is
    the negated inverse of the modulus and that the product leaves the number below [N]
    whose [R]-fold is the product modulo [N], with the output in place of an input. *)

From S2P Require Import Prelude Bytes ConstTime LimbMem BignumCore BignumMul.

(** ** Model *)

Fixpoint montmul_init_loop (fuel : nat) (i n0 x : Z) : outcome Z :=
  match fuel with
  | O => NoFuel
  | S fuel =>
      if i >=? 8 then montmul_init_loop fuel (i / 2) n0 (u64 (x * u64 (2 - u64 (n0 * x))))
      else Done x
  end.

Definition mbedtls_mpi_core_montmul_init (N : Z) : prog Z :=
  n0 ← get N 0;
  let x := u64 (n0 + u64 (Z.shiftl (Z.land (u64 (n0 + 2)) 4) 1)) in
  x ← lift (montmul_init_loop 7 biL n0 x);
  mret (u64 (not64 x + 1)).

(** [mbedtls_ct_memcpy_if] on the bytes of two regions that do not overlap. *)
Definition ct_memcpy_if_at (condition dest src1 len : Z) : prog () := fun m =>
  d ← load m dest len;
  s ← load m src1 len;
  r ← mbedtls_ct_memcpy_if condition d s 0 None len;
  m ← store m dest r;
  Done (tt, m).

Section montgomery.
Context (be : backend) (v : muladdc).

Definition mbedtls_mpi_core_montmul (X A B B_limbs N AN_limbs mm T : Z) : prog () :=
  memset T 0 (u64 ((2 * AN_limbs + 1) * ciL)) ;;
  T ← for_up 0 AN_limbs T (fun i T =>
    u0 ← get A i;
    t0 ← get T 0;
    b0 ← get B 0;
    let u1 := u64 (u64 (t0 + u64 (u0 * b0)) * mm) in
    _ ← mbedtls_mpi_core_mla v T (AN_limbs + 2) B B_limbs u0;
    _ ← mbedtls_mpi_core_mla v T (AN_limbs + 2) N AN_limbs u1;
    mret (T + ciL));
  carry ← get T AN_limbs;
  borrow ← mbedtls_mpi_core_sub X T N AN_limbs;
  ct_memcpy_if_at (mbedtls_ct_bool be (Z.lxor carry borrow)) X T (u64 (AN_limbs * ciL)).

Definition mbedtls_mpi_core_to_mont_rep (X A N AN_limbs mm rr T : Z) : prog () :=
  mbedtls_mpi_core_montmul X A rr AN_limbs N AN_limbs mm T.

(** The constant 1 is a local variable at the address [Rinv]. *)
Definition mbedtls_mpi_core_from_mont_rep (Rinv X A N AN_limbs mm T : Z) : prog () :=
  set Rinv 0 1 ;;
  mbedtls_mpi_core_montmul X A Rinv 1 N AN_limbs mm T.

End montgomery.

(** ** The constant *)

Lemma newton N x k : 0 <= k -> 2 * k <= 64 -> (N * x) mod 2 ^ k = 1 mod 2 ^ k ->
  (N * u64 (x * u64 (2 - u64 (N * x)))) mod 2 ^ (2 * k) = 1 mod 2 ^ (2 * k).
Proof.
  intros Hk H64 H. assert (0 < 2 ^ k) by (apply Z.pow_pos_nonneg; lia).
  assert (0 < 2 ^ (2 * k)) by (apply Z.pow_pos_nonneg; lia).
  assert (forall z, u64 z mod 2 ^ (2 * k) = z mod 2 ^ (2 * k)) as Eu.
  { intros z. unfold u64. symmetry. apply Znumtheory.Zmod_div_mod; [lia..|].
    exists (2 ^ (64 - 2 * k)). rewrite <- Z.pow_add_r by lia. f_equal. lia. }
  set (K := 2 ^ (2 * k)) in *. assert (exists e, N * x = 1 + 2 ^ k * e) as [e He].
  { apply Z.cong_iff_ex in H as [e He]. exists e. lia. }
  rewrite <- Z.mul_mod_idemp_r, Eu, <- (Z.mul_mod_idemp_r x), Eu by lia.
  rewrite <- (Zminus_mod_idemp_r 2), Eu, Zminus_mod_idemp_r, (Z.mul_mod_idemp_r x), (Z.mul_mod_idemp_r N) by lia.
  replace (N * (x * (2 - N * x))) with (1 - e * e * K).
  - apply Z.cong_iff_ex. exists (- (e * e)). lia.
  - rewrite Z.mul_assoc, He. unfold K. replace (2 * k) with (k + k) by lia. rewrite Z.pow_add_r by lia. ring.
Qed.

Lemma mod_u64 z k : 0 <= k <= 64 -> u64 z mod 2 ^ k = z mod 2 ^ k.
Proof.
  intros Hk. unfold u64. symmetry. apply Znumtheory.Zmod_div_mod; [apply Z.pow_pos_nonneg; lia|lia|].
  exists (2 ^ (64 - k)). rewrite <- Z.pow_add_r by lia. f_equal. lia.
Qed.

Lemma land_4 z : Z.land (u64 z) 4 = Z.land (z mod 2 ^ 3) 4.
Proof.
  rewrite <- (mod_u64 z 3) by lia. rewrite <- (Z.land_ones (u64 z)) by lia. rewrite <- Z.land_assoc. done.
Qed.

(** The first approximation is right modulo 16, whatever the odd limb. *)
Lemma first_guess n0 : Z.odd n0 = true ->
  (n0 * u64 (n0 + u64 (Z.shiftl (Z.land (u64 (n0 + 2)) 4) 1))) mod 2 ^ 4 = 1 mod 2 ^ 4.
Proof.
  intros Hodd. rewrite land_4. set (c := u64 (Z.shiftl (Z.land ((n0 + 2) mod 2 ^ 3) 4) 1)).
  rewrite <- Z.mul_mod_idemp_r, mod_u64, Z.mul_mod_idemp_r, <- Z.mul_mod_idemp_l, <- Z.mul_mod_idemp_r, <- Z.add_mod_idemp_l by lia.
  assert (c = u64 (Z.shiftl (Z.land ((n0 mod 2 ^ 4 + 2) mod 2 ^ 3) 4) 1)) as ->.
  { unfold c. do 3 f_equal. rewrite <- (Z.add_mod_idemp_l n0), (Znumtheory.Zmod_div_mod (2 ^ 3) (2 ^ 4) n0), Z.add_mod_idemp_l by (try lia; by exists 2).
    done. }
  rewrite Z.odd_spec in Hodd. destruct Hodd as [q Hq].
  assert (exists j, n0 mod 2 ^ 4 = 2 * j + 1 /\ 0 <= j < 8) as (j & Ej & Hj).
  { exists (q mod 8). subst n0. change (2 ^ 4) with (2 * 8). split; [|apply Z.mod_pos_bound; lia].
    Z.div_mod_to_equations. lia. }
  rewrite Ej. clear Ej. assert (all_below 8 (fun j => ((2 * j + 1) * ((2 * j + 1 +
    u64 (Z.shiftl (Z.land ((2 * j + 1 + 2) mod 2 ^ 3) 4) 1)) mod 2 ^ 4)) mod 2 ^ 4 =? 1 mod 2 ^ 4) = true) as H by by vm_compute.
  apply Z.eqb_eq, (all_below_spec _ _ H j Hj).
Qed.

Lemma montmul_init_spec m N : is_bytes m -> fits m N 1 -> Z.odd (mpi m N 1) = true ->
  runs (mbedtls_mpi_core_montmul_init N) m (fun mm m' => m' = m /\ word64 mm /\ (mm * mpi m N 1) mod 2 ^ 64 = (-1) mod 2 ^ 64).
Proof.
  intros Bm F Hodd. eapply (bind_read (fun _ => False) N 0 1 m); [by apply frame_same|done|lia|naive_solver|].
  rewrite Z.mul_0_r, Z.add_0_r. set (n0 := mpi m N 1) in *.
  pose proof (first_guess n0 Hodd) as G0. set (x0 := u64 (n0 + _)) in *.
  pose proof (newton n0 x0 4 ltac:(lia) ltac:(lia) G0) as G1. set (x1 := u64 (x0 * _)) in *.
  pose proof (newton n0 x1 8 ltac:(lia) ltac:(lia) G1) as G2. set (x2 := u64 (x1 * _)) in *.
  pose proof (newton n0 x2 16 ltac:(lia) ltac:(lia) G2) as G3. set (x3 := u64 (x2 * _)) in *.
  pose proof (newton n0 x3 32 ltac:(lia) ltac:(lia) G3) as G4. set (x4 := u64 (x3 * _)) in *.
  assert (montmul_init_loop 7 biL n0 x0 = Done x4) as E by reflexivity.
  eexists _, m. unfold mbind, prog_bind, lift. rewrite E. split; [reflexivity|]. split; [done|].
  change (2 * 32) with 64 in G4. clearbody x4. split; [apply u64_range|].
  rewrite <- Z.mul_mod_idemp_l by lia. unfold not64. rewrite !(mod_u64 _ 64), <- Z.add_mod_idemp_l, (mod_u64 _ 64), Z.add_mod_idemp_l, Z.mul_mod_idemp_l by lia.
  replace (Z.lnot x4 + 1) with (- x4) by (unfold Z.lnot; lia).
  replace (- x4 * n0) with (- (n0 * x4)) by ring. rewrite <- (Z.sub_0_l (n0 * x4)), <- Zminus_mod_idemp_r, G4. done.
Qed.

(** ** The product *)

Lemma memcpy_if_at_spec m b X T n :
  wf m -> fits m X n -> fits m T n ->
  runs (ct_memcpy_if_at (cond b) X T (u64 (n * ciL))) m (fun _ m' =>
    frame (inside X n) m m' /\ mpi m' X n = if b then mpi m T n else mpi m X n).
Proof.
  intros Wm FX FT. rewrite (u64_limbs m X n Wm FX). destruct Wm as [Bm _].
  pose proof FX as (X0 & Hn & X1). pose proof FT as (T0 & _ & T1).
  pose proof (slice_len m X (ciL * n) ltac:(lia) ltac:(unfold ciL; lia) X1) as LX.
  pose proof (slice_len m T (ciL * n) ltac:(lia) ltac:(unfold ciL; lia) T1) as LT.
  set (dx := ztake (ciL * n) (zdrop X m)) in *. set (tx := ztake (ciL * n) (zdrop T m)) in *.
  assert (is_bytes dx /\ is_bytes tx) as [Bd Bt] by (unfold dx, tx; auto with zlist).
  assert (splice dx 0 (ztake (ciL * n) (copied b dx tx 0 None)) = if b then tx else dx) as Er.
  { unfold copied, splice. destruct b; cbn [default]; rewrite ?zdrop_0, (ztake_all (ciL * n)), ?LT, ?LX, ztake_0 by lia;
      cbn [app]; rewrite zdrop_all by lia; apply app_nil_r. }
  exists tt, (splice m X (if b then tx else dx)). split.
  - unfold ct_memcpy_if_at. rewrite !load_Done by (unfold ciL in *; lia). rewrite !bind_Done. fold dx tx.
    rewrite memcpy_if_spec by (try done; try lia; unfold ciL in *; try lia; apply Forall_nil_2). rewrite bind_Done, Er.
    rewrite store_splice by (destruct b; lia). done.
  - split.
    + eapply frame_mono; [apply splice_frame; [done|by destruct b|lia|destruct b; lia]|].
      intros j. unfold inside. destruct b; lia.
    + rewrite splice_mpi by (done || by destruct b). by destruct b.
Qed.

(** One round on numbers: [W] grows by multiples that make it divisible by the base. *)
Lemma mont_round W b N b0 n0 u0 mm :
  0 <= W < b + N -> word64 u0 -> b mod 2 ^ 64 = b0 -> N mod 2 ^ 64 = n0 -> 0 <= b -> 0 <= N ->
  (mm * n0) mod 2 ^ 64 = (-1) mod 2 ^ 64 ->
  let u1 := u64 (u64 (W mod 2 ^ 64 + u64 (u0 * b0)) * mm) in
  (W + u0 * b + u1 * N) mod 2 ^ 64 = 0 /\ word64 u1 /\ W + u0 * b + u1 * N < 2 ^ 64 * (b + N).
Proof.
  intros HW Hu Eb En Hb HN Hmm u1. pose proof (u64_range (u64 (W mod 2 ^ 64 + u64 (u0 * b0)) * mm)) as R. fold u1 in R.
  split_and!; [|done..|unfold word64 in *; nia].
  set (y := W mod 2 ^ 64 + u64 (u0 * b0)) in *.
  assert ((W + u0 * b) mod 2 ^ 64 = y mod 2 ^ 64) as Ey.
  { unfold y. rewrite Z.add_mod_idemp_l by lia. unfold u64. rewrite Z.add_mod_idemp_r, <- Eb by lia.
    rewrite <- (Z.add_mod_idemp_r W (u0 * b)), <- (Z.add_mod_idemp_r W (u0 * _)), Z.mul_mod_idemp_r by lia. done. }
  rewrite <- Z.add_mod_idemp_l, Ey, Z.add_mod_idemp_l by lia.
  assert ((u1 * N) mod 2 ^ 64 = (y * (-1)) mod 2 ^ 64) as Eu.
  { rewrite <- Z.mul_mod_idemp_r, En by lia. unfold u1. rewrite <- Z.mul_mod_idemp_l, (mod_u64 _ 64), Z.mul_mod_idemp_l by lia.
    rewrite <- Z.mul_assoc, <- Z.mul_mod_idemp_r, Hmm, Z.mul_mod_idemp_r by lia.
    rewrite <- Z.mul_mod_idemp_l, (mod_u64 _ 64), Z.mul_mod_idemp_l by lia. done. }
  rewrite <- Z.add_mod_idemp_r, Eu, Z.add_mod_idemp_r by lia. replace (y + y * -1) with 0 by ring. done.
Qed.

Section product.
Context (be : backend) (v : muladdc) (m : mem) (Wm : wf m).
Context (X A B k N n mm T : Z).
Context (Hk : 1 <= k <= n).
Context (FX : fits m X n) (FA : fits m A n) (FB : fits m B k) (FN : fits m N n) (FT : fits m T (2 * n + 1)).
Context (TX : apart T (2 * n + 1) X n) (TA : apart T (2 * n + 1) A n).
Context (TB : apart T (2 * n + 1) B k) (TN : apart T (2 * n + 1) N n) (XN : alias_ok X N n).
Context (Hmm : (mm * mpi m N 1) mod 2 ^ 64 = (-1) mod 2 ^ 64).

Definition mont_inv (i : Z) (T' : Z) (m' : mem) : Prop :=
  T' = T + ciL * i /\ frame (inside T (2 * n + 1)) m m' /\ mpi m' (T + ciL * (i + n + 1)) (n - i) = 0 /\
  mpi m' (T + ciL * i) (n + 1) < mpi m B k + mpi m N n /\
  exists U, 0 <= U < base i /\
    base i * mpi m' (T + ciL * i) (n + 1) = mpi m A i * mpi m B k + U * mpi m N n.

(** A multiple of a number below the base added to the window of [n + 2] limbs. *)
Lemma window_mla i s sn u m1 :
  0 <= i < n -> frame (inside T (2 * n + 1)) m m1 -> fits m s sn -> 0 <= sn <= n -> apart T (2 * n + 1) s sn -> word64 u ->
  mpi m1 (T + ciL * i) (n + 2) + u * mpi m s sn < base (n + 2) ->
  runs (mbedtls_mpi_core_mla v (T + ciL * i) (n + 2) s sn u) m1 (fun _ m2 =>
    frame (inside T (2 * n + 1)) m m2 /\ frame (inside (T + ciL * i) (n + 2)) m1 m2 /\
    mpi m2 (T + ciL * i) (n + 2) = mpi m1 (T + ciL * i) (n + 2) + u * mpi m s sn).
Proof.
  intros Hi F1 Fs Hs Hap Hu Hb. pose proof (frame_fits _ _ _ T _ F1 FT) as FT1.
  eapply runs_mono; [apply (mla_spec v m1); [by eapply frame_wf|regions|by eapply frame_fits|lia|right; regions|done]|].
  intros c m2 (F2 & Wc & E2). rewrite (frame_mpi _ _ _ s sn F1) in E2 by (try regions; intros j; regions).
  split_and!; [eapply frame_then; [exact F1|exact F2|..]; intros j; regions|done|].
  pose proof (frame_fits _ _ _ T _ F2 FT1).
  pose proof (mpi_range m2 (T + ciL * i) (n + 2) ltac:(by eapply frame_bytes) ltac:(regions)) as R2.
  assert (c = 0) as ->; [|lia]. destruct Wc as [Wc _]. clear -E2 Hb R2 Wc. nia.
Qed.

Lemma mont_body i T' m1 : 0 <= i < n -> mont_inv i T' m1 ->
  runs (u0 ← get A i;
    t0 ← get T' 0;
    b0 ← get B 0;
    let u1 := u64 (u64 (t0 + u64 (u0 * b0)) * mm) in
    _ ← mbedtls_mpi_core_mla v T' (n + 2) B k u0;
    _ ← mbedtls_mpi_core_mla v T' (n + 2) N n u1;
    mret (T' + ciL)) m1 (mont_inv (i + 1)).
Proof.
  intros Hi (-> & F1 & Z1 & Lt & U & HU & E1). pose proof Wm as [Bm _].
  pose proof (frame_fits _ _ _ T _ F1 FT) as FT1. pose proof (frame_bytes _ _ _ F1) as B1.
  eapply bind_read; [exact F1|exact FA|lia|intros j; regions|].
  eapply (bind_read (fun _ => False) (T + ciL * i) 0 1 m1); [by apply frame_same|regions|lia|naive_solver|].
  eapply bind_read; [exact F1|exact FB|lia|intros j; regions|]. rewrite !Z.mul_0_r, !Z.add_0_r.
  set (W := mpi m1 (T + ciL * i) (n + 1)) in *.
  pose proof (mpi_range m1 (T + ciL * i) (n + 1) B1 ltac:(regions)) as RW. fold W in RW.
  pose proof (mpi_range m B k Bm FB) as Rb. pose proof (mpi_range m N n Bm FN) as RN.
  pose proof (mpi_word m (A + ciL * i) Bm ltac:(regions)) as Hu0.
  assert (mpi m1 (T + ciL * i) 1 = W mod 2 ^ 64) as -> by (unfold W; rewrite mpi_low by (try regions; done || lia); done).
  destruct (mont_round W (mpi m B k) (mpi m N n) (mpi m B 1) (mpi m N 1) (mpi m (A + ciL * i) 1) mm) as (D & Wu1 & Bd);
    [lia|done|apply mpi_low; [done|done|lia]|apply mpi_low; [done|done|lia]|lia|lia|done|]. cbv zeta in D, Wu1, Bd |- *.
  set (u0 := mpi m (A + ciL * i) 1) in *. set (u1 := u64 (u64 _ * mm)) in *.
  assert (mpi m1 (T + ciL * i) (n + 2) = W) as EW.
  { replace (n + 2) with (n + 1 + 1) by lia. rewrite mpi_succ by (try regions; lia). fold W.
    destruct (mpi_zero_above m1 (T + ciL * (i + n + 1)) 1 (n - i) B1) as [Z0 _]; [regions|lia|done|].
    replace (T + ciL * i + ciL * (n + 1)) with (T + ciL * (i + n + 1)) by lia. rewrite Z0. lia. }
  assert (2 ^ 64 * (mpi m B k + mpi m N n) <= base (n + 2)) as Big.
  { assert (base k <= base n) by (unfold base, biL; apply Z.pow_le_mono_r; lia).
    replace (n + 2) with (n + 1 + 1) by lia. rewrite !base_succ by lia. nia. }
  assert (0 <= u1 * mpi m N n) by (unfold word64 in *; nia).
  eapply runs_bind; [apply (window_mla i B k u0 m1); auto; lia|]. intros _ m2 (F2 & F12 & E2).
  eapply runs_bind; [apply (window_mla i N n u1 m2); auto; lia|]. intros _ m3 (F3 & F23 & E3).
  rewrite E2, EW in E3. apply runs_ret.
  pose proof (frame_fits _ _ _ T _ F3 FT) as FT3. pose proof (frame_bytes _ _ _ F3) as B3.
  assert (T + ciL * i + ciL * 1 = T + ciL * (i + 1)) as ET by lia.
  assert (mpi m3 (T + ciL * i) (n + 2) = 2 ^ 64 * mpi m3 (T + ciL * (i + 1)) (n + 1)) as Eshift.
  { pose proof (mpi_low m3 (T + ciL * i) (n + 2) B3 ltac:(regions) ltac:(lia)) as L. rewrite E3, D in L.
    rewrite mpi_cons by (try regions; lia). rewrite <- L, ET. replace (n + 2 - 1) with (n + 1) by lia. lia. }
  rewrite E3 in Eshift. set (W' := mpi m3 (T + ciL * (i + 1)) (n + 1)) in *.
  split_and!; [lia|done| | |].
  - destruct (mpi_zero_above m1 (T + ciL * (i + n + 1)) 1 (n - i) B1) as [_ Z0]; [regions|lia|done|].
    pose proof (frame_fits _ _ _ T _ F12 FT1) as FT2.
    replace (T + ciL * (i + 1 + n + 1)) with (T + ciL * (i + n + 1) + ciL * 1) by lia. replace (n - (i + 1)) with (n - i - 1) by lia.
    rewrite (frame_mpi _ _ _ _ _ F23), (frame_mpi _ _ _ _ _ F12) by (try regions; intros j; regions). exact Z0.
  - fold W'. lia.
  - fold W'. exists (U + base i * u1). pose proof (base_gt0 i ltac:(lia)). unfold word64 in *.
    rewrite base_succ, mpi_succ by (try regions; lia). fold u0. split; nia.
Qed.

Lemma mont_final W low N0 R carry x borrow :
  0 <= W < 2 * N0 -> N0 < R -> 0 <= low < R -> 0 <= x < R -> W = low + R * carry -> 0 <= carry < 2 ^ 64 ->
  x - R * borrow = low - N0 -> 0 <= borrow <= 1 ->
  word64 (Z.lxor carry borrow) /\ (if negb (Z.lxor carry borrow =? 0) then low else x) = if W <? N0 then W else W - N0.
Proof.
  intros HW HN Hl Hx EW Hc Ex Hb. assert (carry = 0 \/ carry = 1) as Hc' by nia.
  assert (borrow = 0 \/ borrow = 1) as Hb' by lia.
  destruct Hc' as [-> | ->], Hb' as [-> | ->]; cbv [Z.lxor Pos.lxor Z.of_N Z.eqb negb]; (split; [done|]); split_if; lia.
Qed.

Lemma montmul_spec : 0 < mpi m N n -> mpi m A n * mpi m B k < mpi m N n * base n ->
  runs (mbedtls_mpi_core_montmul be v X A B k N n mm T) m (fun _ m' =>
    frame (fun j => inside X n j \/ inside T (2 * n + 1) j) m m' /\ 0 <= mpi m' X n < mpi m N n /\
    (mpi m' X n * base n) mod mpi m N n = (mpi m A n * mpi m B k) mod mpi m N n).
Proof.
  intros HN Hab. pose proof Wm as [Bm _]. apply (bind_memset m T (2 * n + 1)); [done..|]. intros m0 F0 E0.
  pose proof (mpi_range m B k Bm FB) as Rb. pose proof (frame_fits _ _ _ T _ F0 FT) as FT0.
  eapply runs_bind; [apply (runs_up mont_inv 0 n T); [lia| |exact mont_body]|].
  { destruct (mpi_zero_above m0 T (n + 1) (2 * n + 1) ltac:(by eapply frame_bytes)) as [Z1 Z2]; [done|lia|done|].
    split_and!; [lia|done| | |].
    - replace (0 + n + 1) with (n + 1) by lia. replace (n - 0) with (2 * n + 1 - (n + 1)) by lia. done.
    - rewrite Z.mul_0_r, Z.add_0_r, Z1. lia.
    - exists 0. rewrite Z.mul_0_r, Z.add_0_r, Z1, mpi_0, base_0. lia. }
  intros T' m1 (-> & F1 & _ & _ & U & HU & E1).
  pose proof (frame_fits _ _ _ T _ F1 FT) as FT1. pose proof (frame_bytes _ _ _ F1) as B1. pose proof (frame_wf _ _ _ Wm F1) as W1.
  eapply (bind_read (fun _ => False) (T + ciL * n) n (n + 1) m1); [by apply frame_same|regions|lia|naive_solver|].
  eapply runs_bind; [apply (core_sub_spec m1 W1 X (T + ciL * n) N n); [by eapply frame_fits|regions|by eapply frame_fits|regions|done]|].
  intros borrow m2 (F2 & E2 & Hb). pose proof (frame_wf _ _ _ W1 F2) as W2. pose proof (frame_fits _ _ _ T _ F2 FT1) as FT2.
  assert (fits m2 X n) as FX2 by (do 2 (eapply frame_fits; [done|]); done).
  rewrite (frame_mpi _ _ _ N n F1) in E2 by (try regions; intros j; regions).
  pose proof (mpi_succ m1 (T + ciL * n) n ltac:(regions) ltac:(lia)) as EW.
  set (W := mpi m1 (T + ciL * n) (n + 1)) in *. set (low := mpi m1 (T + ciL * n) n) in *.
  pose proof (mpi_range m1 (T + ciL * n) (n + 1) B1 ltac:(regions)) as RW. fold W in RW.
  pose proof (mpi_range m1 (T + ciL * n) n B1 ltac:(regions)) as Rl. fold low in Rl.
  pose proof (mpi_range m N n Bm FN) as RN. pose proof (mpi_word m1 (T + ciL * n + ciL * n) B1 ltac:(regions)) as Rc.
  pose proof (mpi_range m2 X n (proj1 W2) FX2) as Rx.
  assert (W < 2 * mpi m N n) as W2N by (pose proof (base_gt0 n ltac:(lia)); nia).
  destruct (mont_final W low (mpi m N n) (base n) _ (mpi m2 X n) borrow ltac:(lia) (proj2 RN) Rl Rx EW Rc E2 Hb) as [Wx Ef].
  rewrite ct_bool_spec by done.
  eapply runs_mono; [apply (memcpy_if_at_spec m2); [done|done|regions]|]. intros [] m3 (F3 & E3).
  rewrite (frame_mpi _ _ _ (T + ciL * n) n F2) in E3 by (try regions; intros j; regions). fold low in E3. rewrite Ef in E3.
  split_and!.
  - assert (frame (fun j => inside X n j \/ inside T (2 * n + 1) j) m m2) as F02
      by (eapply frame_then; [exact F1|exact F2|tauto..]).
    eapply frame_then; [exact F02|exact F3|tauto..].
  - rewrite E3. split_if; lia.
  - rewrite E3. split_if; lia.
  - assert (W * base n = mpi m A n * mpi m B k + U * mpi m N n) as EWn by lia. rewrite E3. split_if.
    + rewrite EWn. apply Z_mod_plus_full.
    + replace ((W - mpi m N n) * base n) with (mpi m A n * mpi m B k + (U - base n) * mpi m N n) by lia. apply Z_mod_plus_full.
Qed.

End product.

(** ** Theorem *)

(** What the header asks of the arguments of [mbedtls_mpi_core_montmul]: [A] has the length
    of the odd modulus, [B] is not longer, the product of both is below the modulus times
    the radix, the scratch memory is separate, and [X] is the modulus or separate from it.
    [X] may be, or overlap, an operand. *)
Record mont_args (m : mem) (X A B k N n T : Z) : Prop := {
  ma_sizes : 1 <= k <= n;
  ma_fits : fits m X n /\ fits m A n /\ fits m B k /\ fits m N n /\ fits m T (2 * n + 1);
  ma_scratch : apart T (2 * n + 1) X n /\ apart T (2 * n + 1) A n /\ apart T (2 * n + 1) B k /\ apart T (2 * n + 1) N n;
  ma_modulus : alias_ok X N n;
  ma_odd : Z.odd (mpi m N n) = true;
  ma_range : mpi m A n * mpi m B k < mpi m N n * base n;
}.

Lemma odd_low_limb m N n : fits m N n -> 1 <= n -> Z.odd (mpi m N n) = true -> Z.odd (mpi m N 1) = true.
Proof.
  intros FN Hn H. rewrite (mpi_cons m N n) in H by (done || lia).
  rewrite Z.odd_add, Z.odd_mul, andb_false_l, xorb_false_r in H. done.
Qed.

(** The Montgomery constant is the negated inverse of the lowest limb of the modulus,
    and with it the product is the number [x] below [N] with [x * R = A * B] modulo [N];
    only [X] and the scratch memory change. *)
Theorem montmul_correct be v m X A B k N n T :
  wf m -> mont_args m X A B k N n T ->
  runs (mm ← mbedtls_mpi_core_montmul_init N; mbedtls_mpi_core_montmul be v X A B k N n mm T) m (fun _ m' =>
    frame (fun j => inside X n j \/ inside T (2 * n + 1) j) m m' /\ 0 <= mpi m' X n < mpi m N n /\
    (mpi m' X n * base n) mod mpi m N n = (mpi m A n * mpi m B k) mod mpi m N n).
Proof.
  intros Wm [Hk (FX & FA & FB & FN & FT) (TX & TA & TB & TN) XN Hodd Hr]. pose proof Wm as [Bm _].
  eapply runs_bind; [apply montmul_init_spec; [done|clear -FN Hk; regions|by apply (odd_low_limb m N n); [..|lia|]]|].
  intros mm m' (-> & _ & Hmm). apply montmul_spec; try done. pose proof (mpi_range m N n Bm FN).
  destruct (Z.eq_dec (mpi m N n) 0) as [E|]; [by rewrite E in Hodd|lia].
Qed.

Lemma montmul_correct_witness :
  let m := le_bytes 8 5 ++ le_bytes 8 96 ++ le_bytes 8 97 ++ replicate 24 1 in
  runs (mm ← mbedtls_mpi_core_montmul_init 16; mbedtls_mpi_core_montmul Generic Asm_x86_64 0 0 8 1 16 1 mm 24) m (fun _ m' =>
    frame (fun j => inside 0 1 j \/ inside 24 (2 * 1 + 1) j) m m' /\ 0 <= mpi m' 0 1 < mpi m 16 1 /\
    (mpi m' 0 1 * base 1) mod mpi m 16 1 = (mpi m 0 1 * mpi m 8 1) mod mpi m 16 1).
Proof.
  intros m. apply montmul_correct; [unfold m; concrete|]. split; unfold m; [lia|split_and!; concrete|split_and!; concrete|concrete|concrete|].
  vm_compute. reflexivity.
Defined.
