(* ===== verification/BignumExp.v ===== *)
(** * Big-number core of mbedTLS: modular exponentiation

    [mbedtls_mpi_core_exp_mod] of [src/internal/mbedtls/bignum_core.c], with secret and with
    public exponent: windows of bits from the top, a table of small powers in Montgomery
    form in the scratch memory, one squaring per bit.  The theorem says that the result is
    the Montgomery form of the power, for every window size the configuration allows. *)

From S2P Require Import Prelude Bytes ConstTime LimbMem BignumCore BignumMul BignumMont.

Definition MBEDTLS_MPI_IS_PUBLIC : Z := 0x2a2a2a2a.
Definition MBEDTLS_MPI_IS_SECRET : Z := 0.

(** ** Model *)

Section exponentiation.
Context (be : backend) (v : muladdc) (has_builtin_clz : bool) (MBEDTLS_MPI_WINDOW_SIZE : Z).

Definition exp_mod_get_window_size (Ebits : Z) : Z :=
  if MBEDTLS_MPI_WINDOW_SIZE >=? 6 then
    if Ebits >? 671 then 6 else if Ebits >? 239 then 5 else if Ebits >? 79 then 4 else 1
  else if MBEDTLS_MPI_WINDOW_SIZE =? 5 then
    if Ebits >? 239 then 5 else if Ebits >? 79 then 4 else 1
  else if MBEDTLS_MPI_WINDOW_SIZE >? 1 then
    if Ebits >? 79 then MBEDTLS_MPI_WINDOW_SIZE else 1
  else 1.

Definition mbedtls_mpi_core_exp_mod_working_limbs (AN_limbs E_limbs : Z) : Z :=
  let wsize := exp_mod_get_window_size (E_limbs * biL) in
  let welem := Z.shiftl 1 wsize in
  let table_limbs := welem * AN_limbs in
  let select_limbs := AN_limbs in
  let temp_limbs := 2 * AN_limbs + 1 in
  table_limbs + select_limbs + temp_limbs.

Definition exp_mod_precompute_window (A N AN_limbs mm RR welem Wtable temp : Z) : prog () :=
  memset Wtable 0 (u64 (AN_limbs * ciL)) ;;
  set Wtable 0 1 ;;
  mbedtls_mpi_core_montmul be v Wtable Wtable RR AN_limbs N AN_limbs mm temp ;;
  let W1 := Wtable + ciL * AN_limbs in
  memcpy W1 A (u64 (AN_limbs * ciL)) ;;
  _ ← for_up 2 welem W1 (fun _ Wprev =>
    let Wcur := Wprev + ciL * AN_limbs in
    mbedtls_mpi_core_montmul be v Wcur Wprev W1 AN_limbs N AN_limbs mm temp ;;
    mret Wcur);
  mret tt.

(** The new [E_limb_index] and [E_bit_index]. *)
Definition exp_mod_calc_first_bit_optionally_safe (E E_limbs E_public : Z) : prog (Z * Z) :=
  if E_public =? MBEDTLS_MPI_IS_PUBLIC then
    E_bits ← mbedtls_mpi_core_bitlen has_builtin_clz E E_limbs;
    let E_bits := if E_bits =? 0 then 1 else E_bits in
    mret (E_bits / biL, E_bits mod biL)
  else mret (E_limbs, 0).

Definition exp_mod_table_lookup_optionally_safe
    (Wselect Wtable AN_limbs welem window window_public : Z) : prog () :=
  if window_public =? MBEDTLS_MPI_IS_PUBLIC
  then memcpy Wselect (Wtable + ciL * (window * AN_limbs)) (u64 (AN_limbs * ciL))
  else mbedtls_mpi_core_ct_uint_table_lookup be Wselect Wtable AN_limbs welem window.

Fixpoint exp_mod_loop (fuel : nat) (X N AN_limbs E mm wsize welem Wtable Wselect temp E_public
    E_limb_index E_bit_index window_bits window : Z) : prog () :=
  match fuel with
  | O => fun _ => NoFuel
  | S fuel =>
      mbedtls_mpi_core_montmul be v X X X AN_limbs N AN_limbs mm temp ;;
      let '(E_limb_index, E_bit_index) :=
        if E_bit_index =? 0 then (E_limb_index - 1, biL - 1) else (E_limb_index, E_bit_index - 1) in
      let window_bits := window_bits + 1 in
      let window := u64 (Z.shiftl window 1) in
      e ← get E E_limb_index;
      let window := Z.lor window (Z.land (Z.shiftr e E_bit_index) 1) in
      let last := (E_bit_index =? 0) && (E_limb_index =? 0) in
      '(window_bits, window) ←
        (if (window_bits =? wsize) || last then
           exp_mod_table_lookup_optionally_safe Wselect Wtable AN_limbs welem window E_public ;;
           mbedtls_mpi_core_montmul be v X X Wselect AN_limbs N AN_limbs mm temp ;;
           mret (0, 0)
         else mret (window_bits, window));
      if negb last then
        exp_mod_loop fuel X N AN_limbs E mm wsize welem Wtable Wselect temp E_public
          E_limb_index E_bit_index window_bits window
      else mret tt
  end.

(** There is one round of the loop for each bit. *)
Definition mbedtls_mpi_core_exp_mod_optionally_safe
    (X A N AN_limbs E E_limbs E_public RR T : Z) : prog () :=
  '(E_limb_index, E_bit_index) ← exp_mod_calc_first_bit_optionally_safe E E_limbs E_public;
  let wsize := exp_mod_get_window_size (E_limb_index * biL) in
  let welem := Z.shiftl 1 wsize in
  let table_limbs := welem * AN_limbs in
  let select_limbs := AN_limbs in
  let Wtable := T in
  let Wselect := Wtable + ciL * table_limbs in
  let temp := Wselect + ciL * select_limbs in
  mm ← mbedtls_mpi_core_montmul_init N;
  exp_mod_precompute_window A N AN_limbs mm RR welem Wtable temp ;;
  memcpy X Wtable (u64 (AN_limbs * ciL)) ;;
  exp_mod_loop (Z.to_nat (E_limb_index * biL + E_bit_index)) X N AN_limbs E mm wsize welem
    Wtable Wselect temp E_public E_limb_index E_bit_index 0 0.

Definition mbedtls_mpi_core_exp_mod (X A N AN_limbs E E_limbs RR T : Z) : prog () :=
  mbedtls_mpi_core_exp_mod_optionally_safe X A N AN_limbs E E_limbs MBEDTLS_MPI_IS_SECRET RR T.

Definition mbedtls_mpi_core_exp_mod_unsafe (X A N AN_limbs E E_limbs RR T : Z) : prog () :=
  mbedtls_mpi_core_exp_mod_optionally_safe X A N AN_limbs E E_limbs MBEDTLS_MPI_IS_PUBLIC RR T.

End exponentiation.

(** ** Window sizes *)

Section sizes.
Context (w : Z) (Hw : 1 <= w <= 6).

Lemma window_size_range b : 1 <= exp_mod_get_window_size w b <= 6.
Proof. unfold exp_mod_get_window_size. repeat split_if; lia. Qed.

Lemma window_size_mono b c : b <= c -> exp_mod_get_window_size w b <= exp_mod_get_window_size w c.
Proof. intros. unfold exp_mod_get_window_size. repeat split_if; lia. Qed.

(** The scratch memory the caller is told to provide is enough for every first bit. *)
Lemma working_limbs_enough n El i : 0 <= n -> i <= El ->
  2 ^ exp_mod_get_window_size w (i * biL) * n + n + (2 * n + 1) <= mbedtls_mpi_core_exp_mod_working_limbs w n El.
Proof.
  intros Hn Hi. unfold mbedtls_mpi_core_exp_mod_working_limbs.
  pose proof (window_size_mono (i * biL) (El * biL) ltac:(unfold biL; lia)) as M.
  pose proof (window_size_range (El * biL)). pose proof (window_size_range (i * biL)).
  rewrite Z.shiftl_mul_pow2, Z.mul_1_l by lia. pose proof (Z.pow_le_mono_r 2 _ _ ltac:(lia) M). nia.
Qed.

End sizes.

(** ** Montgomery forms *)

Section forms.
Context (N R : Z) (HN : 0 < N) (Hrp : Z.gcd R N = 1).

(** The Montgomery form of [a] modulo [N]. *)
Definition mform (a : Z) : Z := (a * R) mod N.

Lemma mform_cancel x y : 0 <= x < N -> (x * R) mod N = (y * R) mod N -> x = y mod N.
Proof.
  intros Hx E. assert ((N | (x - y) * R)) as D.
  { apply Z.mod_divide; [lia|]. rewrite Z.mul_sub_distr_r, Zminus_mod, E, Z.sub_diag. by apply Z.mod_0_l; lia. }
  rewrite Z.mul_comm in D. apply Z.gauss in D; [|by rewrite Z.gcd_comm]. destruct D as [q Eq].
  apply (Z.mod_unique_pos y N (- q)); lia.
Qed.

Lemma mform_mul x a b : 0 <= x < N -> (x * R) mod N = (mform a * mform b) mod N -> x = mform (a * b).
Proof.
  intros Hx E. apply mform_cancel; [done|]. rewrite E. unfold mform. rewrite Z.mul_mod_idemp_l, Z.mul_mod_idemp_r by lia.
  f_equal. ring.
Qed.

Lemma mform_one x : 0 <= x < N -> (x * R) mod N = (1 * ((R * R) mod N)) mod N -> x = mform 1.
Proof. intros Hx E. apply mform_cancel; [done|]. rewrite E, !Z.mul_1_l. by rewrite Z.mod_mod by lia. Qed.

Lemma mform_range a : 0 <= mform a < N.
Proof. apply Z.mod_pos_bound. lia. Qed.

End forms.

(** ** Choosing from the table *)

Lemma table_lookup_spec be m dest table n count idx :
  wf m -> fits m dest n -> fits m table (count * n) -> apart dest n table (count * n) -> 0 <= n ->
  0 <= idx < count -> count < 2 ^ 64 ->
  runs (mbedtls_mpi_core_ct_uint_table_lookup be dest table n count idx) m (fun _ m' =>
    frame (inside dest n) m m' /\ mpi m' dest n = mpi m (table + ciL * (idx * n)) n).
Proof.
  intros Wm Fd Ft Hap Hn Hi Hc. pose proof Wm as [Bm _].
  eapply runs_bind; [apply (runs_up (fun i t m' => t = table + ciL * (i * n) /\ frame (inside dest n) m m' /\
    (idx < i -> mpi m' dest n = mpi m (table + ciL * (idx * n)) n)))|].
  { lia. }
  { split_and!; [lia|by apply frame_same|lia]. }
  2: { intros t m' (_ & F & E). apply runs_ret. split; [done|]. apply E. lia. }
  intros i t m1 Hic (-> & F1 & E1). assert (i * n + n <= count * n) as Hin by nia.
  assert (0 <= i * n) by nia.
  rewrite ct_eq_spec by (unfold word64; lia).
  eapply runs_bind; [apply (cond_assign_spec be m1 (frame_wf _ _ _ Wm F1)); [by eapply frame_fits|eapply frame_fits; [exact F1|regions]|right; regions]|].
  intros [] m2 (F2 & E2). apply runs_ret. split_and!; [lia|by eapply frame_seq|].
  intros Hlt. rewrite E2. destruct (Z.eqb_spec i idx) as [->|].
  - apply (frame_mpi _ _ _ _ _ F1); [regions|]. intros j. regions.
  - apply E1. lia.
Qed.

(** ** The powers *)

Section power.
Context (be : backend) (v : muladdc) (bc : bool) (m : mem) (Wm : wf m).
Context (X A N n E El RR T ws : Z) (E_public : Z) (a : Z).
Context (Hn : 1 <= n) (Hws : 1 <= ws <= 6) (HEl : 1 <= El).
Notation welem := (2 ^ ws).
Notation Tn := (welem * n + n + (2 * n + 1)).
Notation Wselect := (T + ciL * (welem * n)).
Notation temp := (Wselect + ciL * n).
Notation Nv := (mpi m N n).
Notation Ev := (mpi m E El).
Notation form := (mform Nv (base n)).
Context (FX : fits m X n) (FA : fits m A n) (FN : fits m N n) (FE : fits m E El) (FR : fits m RR n) (FT : fits m T Tn).
Context (TX : apart T Tn X n) (TA : apart T Tn A n) (TN : apart T Tn N n) (TE : apart T Tn E El) (TR : apart T Tn RR n).
Context (XN : apart X n N n) (XE : apart X n E El).
Context (HN : Z.odd Nv = true) (HA : mpi m A n = form a) (HR : mpi m RR n = (base n * base n) mod Nv).

Lemma welem_range : 2 <= welem <= 64 /\ 2 * n <= welem * n.
Proof.
  assert (2 ^ 1 <= 2 ^ ws) by (apply Z.pow_le_mono_r; lia). assert (2 ^ ws <= 2 ^ 6) by (apply Z.pow_le_mono_r; lia).
  change (2 ^ 1) with 2 in *. change (2 ^ 6) with 64 in *. nia.
Qed.

Lemma modulus_pos : 0 < Nv < base n.
Proof.
  pose proof Wm as [Bm _]. pose proof (mpi_range m N n Bm FN). destruct (Z.eq_dec Nv 0) as [E0|]; [|lia].
  rewrite E0 in HN. discriminate.
Qed.

Lemma modulus_coprime : Z.gcd (base n) Nv = 1.
Proof.
  unfold base, biL. apply Z.coprime_pow_l; [lia|]. red. pose proof (Z.gcd_nonneg 2 Nv) as G0.
  destruct (Z.gcd_divide_l 2 Nv) as [q Hq]. destruct (Z.gcd_divide_r 2 Nv) as [r Hr].
  assert (Z.gcd 2 Nv = 1 \/ Z.gcd 2 Nv = 2) as [|E2]; [|done|].
  { pose proof (Z.divide_pos_le _ 2 ltac:(lia) (Z.gcd_divide_l 2 Nv)).
    assert (Z.gcd 2 Nv <> 0) by (intros E0; rewrite E0 in Hq; lia). lia. }
  rewrite E2 in Hr.
  rewrite Hr, Z.odd_mul, andb_false_r in HN. discriminate.
Qed.

(** Where only [X] and the scratch memory may have changed. *)
Definition touched (j : Z) : Prop := inside X n j \/ inside T Tn j.

Lemma keeps m1 : frame touched m m1 ->
  wf m1 /\ fits m1 X n /\ fits m1 T Tn /\ fits m1 N n /\ mpi m1 N n = Nv /\ mpi m1 N 1 = mpi m N 1.
Proof.
  intros F. pose proof welem_range. split_and!; [by eapply frame_wf|by eapply frame_fits..| |];
    (eapply frame_mpi; [exact F|regions|]; intros j; unfold touched; regions).
Qed.

(** Where the parts of the scratch memory are. *)
Lemma layout :
  (forall j, inside Wselect n j -> touched j) /\
  (forall j, inside X n j \/ inside temp (2 * n + 1) j -> touched j) /\
  (forall j, inside T (welem * n) j -> ~ inside Wselect n j) /\
  (forall j, inside T (welem * n) j -> ~ (inside X n j \/ inside temp (2 * n + 1) j)) /\
  (forall j, inside X n j -> ~ inside Wselect n j) /\
  apart temp (2 * n + 1) X n /\ apart temp (2 * n + 1) Wselect n.
Proof. pose proof welem_range as Hwe. unfold touched. clear -Hn Hwe TX. split_and!; intros; regions. Qed.

Lemma layout_fits m1 : fits m1 T Tn -> fits m1 Wselect n.
Proof. pose proof welem_range as Hwe. clear -Hn Hwe. regions. Qed.

Lemma exponent_untouched i j : 0 <= i < El -> inside (E + ciL * i) 1 j -> ~ touched j.
Proof. unfold touched. clear -TE XE Hn. regions. Qed.

Context (mm : Z) (Hmm : (mm * mpi m N 1) mod 2 ^ 64 = (-1) mod 2 ^ 64).

(** A product of forms; [Y] is [X] or lies in the scratch memory in front of [temp]. *)
Lemma mul_forms m1 Y P Q p q :
  frame touched m m1 -> fits m1 Y n -> fits m1 P n -> fits m1 Q n ->
  apart temp (2 * n + 1) Y n -> apart temp (2 * n + 1) P n -> apart temp (2 * n + 1) Q n -> apart Y n N n ->
  mpi m1 P n = form p -> mpi m1 Q n = form q ->
  runs (mbedtls_mpi_core_montmul be v Y P Q n N n mm temp) m1 (fun _ m2 =>
    frame (fun j => inside Y n j \/ inside temp (2 * n + 1) j) m1 m2 /\ mpi m2 Y n = form (p * q)).
Proof.
  intros F1 FY FP FQ AY AP AQ YN EP EQ. destruct (keeps m1 F1) as (W1 & FX1 & FT1 & FN1 & EN & EN1).
  pose proof modulus_pos as HNp. pose proof welem_range as Hwe. pose proof (mform_range Nv (base n) (proj1 HNp)) as Rf.
  eapply runs_mono; [eapply (montmul_spec be v m1 W1 Y P Q n N n mm temp); auto; try lia|].
  - regions.
  - regions.
  - by right.
  - by rewrite EN1.
  - rewrite EN, EP, EQ. pose proof (Rf p). pose proof (Rf q). nia.
  - intros [] m2 (F2 & R2 & E2). split; [done|]. rewrite EN, EP, EQ in *. apply mform_mul; [lia|apply modulus_coprime|done..].
Qed.

Definition table_ok (m1 : mem) (count : Z) : Prop :=
  forall j, 0 <= j < count -> mpi m1 (T + ciL * (j * n)) n = form (a ^ j).

(** The table survives changes that do not reach its first [count] entries. *)
Lemma table_frame (P : Z -> Prop) m1 m2 count : 0 <= count <= welem -> fits m1 T Tn -> frame P m1 m2 ->
  (forall j, inside T (count * n) j -> ~ P j) -> table_ok m1 count -> table_ok m2 count.
Proof.
  intros Hc FT1 F K H j Hj. rewrite <- (H j Hj). assert (0 <= j * n /\ j * n + n <= count * n /\ count * n <= welem * n) by nia.
  eapply frame_mpi; [exact F|regions|]. intros i Hi. apply K. regions.
Qed.

Lemma table_snoc m1 count : 0 <= count -> table_ok m1 count -> mpi m1 (T + ciL * (count * n)) n = form (a ^ count) ->
  table_ok m1 (count + 1).
Proof. intros Hc H E0 j Hj. destruct (Z.eq_dec j count) as [->|]; [done|]. apply H. lia. Qed.

Lemma precompute_spec : 
  runs (exp_mod_precompute_window be v A N n mm RR welem T temp) m (fun _ m' =>
    frame (inside T Tn) m m' /\ table_ok m' welem).
Proof.
  pose proof welem_range as Hwe. pose proof modulus_pos as HNp. pose proof Wm as [Bm _].
  pose proof (base_gt0 n ltac:(lia)) as Hbn. pose proof (mform_range Nv (base n) (proj1 HNp)) as Rf.
  assert (forall m1, frame (inside T Tn) m m1 -> frame touched m m1) as Wk.
  { intros m1 F. eapply frame_mono; [exact F|]. unfold touched. tauto. }
  apply (bind_memset m T n); [done|regions|]. intros m0 F0 E0.
  assert (frame (inside T Tn) m m0) as F00 by (eapply frame_mono; [exact F0|]; intros j; regions).
  pose proof (frame_fits _ _ _ T Tn F00 FT) as FT0.
  eapply (bind_push T 0 1 n m0 m0); [regions|lia|by eapply frame_same, frame_bytes|]. intros m1 F1 E1.
  rewrite mpi_0, base_0 in E1. change (u64 1) with 1 in E1. change (0 + 1 * 1) with 1 in E1. change (0 + 1) with 1 in *.
  assert (mpi m1 T n = 1) as ET1.
  { pose proof (frame_fits _ _ _ T Tn F1 FT0). rewrite mpi_cons, E1 by (try regions; lia).
    destruct (mpi_zero_above m0 T 1 n ltac:(by eapply frame_bytes)) as [_ Z0]; [regions|lia|done|].
    rewrite (frame_mpi _ _ _ _ _ F1) by (try regions; intros j; regions). rewrite Z0. lia. }
  assert (frame (inside T Tn) m m1) as F01 by (eapply frame_then; [exact F00|exact F1|..]; intros j; regions).
  destruct (keeps m1 (Wk _ F01)) as (W1 & _ & FT1 & FN1 & EN & EN1).
  assert (mpi m1 RR n = (base n * base n) mod Nv) as ER by (rewrite <- HR; apply (frame_mpi _ _ _ _ _ F01); [done|intros j; regions]).
  eapply runs_bind; [eapply (montmul_spec be v m1 W1 T T RR n N n mm temp); try (eapply frame_fits; [exact F01|]); auto; try lia; try regions|].
  { by rewrite EN1. }
  { rewrite EN, ET1, ER. pose proof (Z.mod_pos_bound (base n * base n) Nv ltac:(lia)). nia. }
  intros [] m2 (F2 & R2 & E2). rewrite EN, ET1, ER in *.
  assert (mpi m2 T n = form 1) as EW0 by (apply mform_one; [lia|apply modulus_coprime|lia|done]).
  assert (frame (inside T Tn) m m2) as F02 by (eapply frame_then; [exact F01|exact F2|..]; intros j; regions).
  destruct (keeps m2 (Wk _ F02)) as (W2 & _ & FT2 & FN2 & _).
  apply (bind_memcpy m2 (T + ciL * n) A n); [done|regions|by eapply frame_fits|regions|]. intros m3 F3 E3.
  rewrite (frame_mpi _ _ _ A n F02), HA in E3 by (try regions; intros j; regions).
  assert (frame (inside T Tn) m m3) as F03 by (eapply frame_then; [exact F02|exact F3|..]; intros j; regions).
  assert (table_ok m3 2) as H3.
  { intros j Hj. assert (j = 0 \/ j = 1) as [-> | ->] by lia.
    - rewrite Z.mul_0_l, Z.mul_0_r, Z.add_0_r, Z.pow_0_r, <- EW0. apply (frame_mpi _ _ _ _ _ F3); [regions|intros i; regions].
    - by rewrite Z.mul_1_l, Z.pow_1_r. }
  eapply runs_bind; [apply (runs_up (fun i Wprev m' => Wprev = T + ciL * ((i - 1) * n) /\ frame (inside T Tn) m m' /\ table_ok m' i))|].
  { lia. }
  { split_and!; [lia|done..]. }
  2: { intros t m' (_ & F & H). by apply runs_ret. }
  intros i Wprev m4 Hi (-> & F4 & H4). destruct (keeps m4 (Wk _ F4)) as (W4 & _ & FT4 & FN4 & _).
  assert (0 <= (i - 1) * n /\ i * n = (i - 1) * n + n /\ i * n + n <= welem * n /\ n <= (i - 1) * n) as Hin by nia.
  replace (T + ciL * ((i - 1) * n) + ciL * n) with (T + ciL * (i * n)) by lia.
  eapply runs_bind; [apply (mul_forms m4 _ _ _ (a ^ (i - 1)) (a ^ 1)); [by apply Wk|regions..| |]|].
  { apply H4. lia. }
  { replace (T + ciL * n) with (T + ciL * (1 * n)) by lia. apply H4. lia. }
  intros [] m5 (F5 & E5). apply runs_ret. split_and!; [f_equal; lia|eapply frame_then; [exact F4|exact F5|..]; intros j; regions|].
  apply table_snoc; [lia| |].
  - eapply (table_frame _ m4 m5); [lia|done|exact F5| |done]. intros j. regions.
  - rewrite E5. f_equal. rewrite <- Z.pow_add_r by lia. f_equal. lia.
Qed.

Lemma lookup_spec m1 w : frame touched m m1 -> 0 <= w < welem -> table_ok m1 welem ->
  runs (exp_mod_table_lookup_optionally_safe be Wselect T n welem w E_public) m1 (fun _ m2 =>
    frame (inside Wselect n) m1 m2 /\ mpi m2 Wselect n = form (a ^ w)).
Proof.
  intros F1 Hw H. destruct (keeps m1 F1) as (W1 & _ & FT1 & _). pose proof welem_range as Hwe.
  assert (0 <= w * n /\ w * n + n <= welem * n) as Hwn by nia.
  unfold exp_mod_table_lookup_optionally_safe. rewrite <- (H w Hw). split_if.
  - apply runs_memcpy; [done|regions..|auto].
  - apply table_lookup_spec; [done|regions|regions|regions|lia..].
Qed.

(** The next bit of the exponent. *)
Lemma exponent_bit i bit : 0 <= i < El -> 0 <= bit < 64 ->
  Z.land (Z.shiftr (mpi m (E + ciL * i) 1) bit) 1 = (Ev / 2 ^ (64 * i + bit)) mod 2.
Proof.
  intros Hi Hb. pose proof Wm as [Bm _]. pose proof (mpi_split m E i El FE Hi) as Es.
  pose proof (mpi_range m E i Bm ltac:(regions)) as R0. pose proof (mpi_word m (E + ciL * i) Bm ltac:(regions)) as R1.
  pose proof (base_gt0 i ltac:(lia)) as Hp. rewrite base_succ in Es by lia.
  assert (mpi m (E + ciL * i) 1 = (Ev / base i) mod 2 ^ 64) as ->.
  { rewrite Es. replace (mpi m E i + _ + _) with (mpi m E i + (mpi m (E + ciL * i) 1 + mpi m (E + ciL * (i + 1)) (El - i - 1) * 2 ^ 64) * base i) by ring.
    rewrite Z.div_add, Z.div_small, Z.add_0_l, Z_mod_plus_full, Z.mod_small by lia. done. }
  change 1 with (Z.ones 1). rewrite Z.land_ones, Z.shiftr_div_pow2 by lia. change (2 ^ 1) with 2.
  rewrite <- !Z.testbit_spec' by lia. rewrite Z.mod_pow2_bits_low by lia. unfold base, biL.
  rewrite Z.div_pow2_bits by lia. do 2 f_equal. lia.
Qed.

(** The bits of the exponent above position [t], but those in the window, are done. *)
Definition exp_inv (t wb w : Z) (m1 : mem) : Prop :=
  frame touched m m1 /\ table_ok m1 welem /\ 0 <= wb < ws /\ w = (Ev / 2 ^ t) mod 2 ^ wb /\
  mpi m1 X n = form (a ^ (Ev / 2 ^ t - w)).

Lemma window_step t wb : 0 <= t - 1 -> 0 <= wb ->
  let b := (Ev / 2 ^ (t - 1)) mod 2 in let w := (Ev / 2 ^ t) mod 2 ^ wb in
  2 * w + b = (Ev / 2 ^ (t - 1)) mod 2 ^ (wb + 1) /\ Ev / 2 ^ (t - 1) - (2 * w + b) = 2 * (Ev / 2 ^ t - w).
Proof.
  intros Ht Hwb b w. assert (Ev / 2 ^ t = (Ev / 2 ^ (t - 1)) / 2) as Et.
  { rewrite Z.div_div by (try apply Z.pow_pos_nonneg; lia). replace t with (t - 1 + 1) at 1 by lia.
    by rewrite Z.pow_add_r by lia. }
  set (x := Ev / 2 ^ (t - 1)) in *. pose proof (Z.div_mod x 2 ltac:(lia)) as D. rewrite <- Et in D. fold b in D.
  split; [|lia]. unfold w. rewrite Et, Z.add_1_r, Z.pow_succ_r by lia.
  assert (0 < 2 ^ wb) by (apply Z.pow_pos_nonneg; lia). rewrite Z.rem_mul_r by lia. fold b. lia.
Qed.

Lemma exp_loop_spec fuel : forall t limb bit wb w m1,
  t = Z.of_nat fuel -> 0 < t <= 64 * El -> t = 64 * limb + bit -> 0 <= bit < 64 -> exp_inv t wb w m1 ->
  runs (exp_mod_loop be v fuel X N n E mm ws welem T Wselect temp E_public limb bit wb w) m1 (fun _ m' =>
    frame touched m m' /\ mpi m' X n = form (a ^ Ev)).
Proof.
  pose proof welem_range as Hwe. pose proof Wm as [Bm _]. pose proof (mpi_range m E El Bm FE) as RE.
  destruct layout as (LW & LM & LTW & LTM & LXW & LX & LS).
  induction fuel as [|fuel IH]; intros t limb bit wb w m1 Hf Ht Et Hbit (F1 & H1 & Hwb & Ew & EX); [lia|].
  destruct (keeps m1 F1) as (W1 & FX1 & FT1 & _). cbn [exp_mod_loop].
  eapply runs_bind; [apply (mul_forms m1 X X X _ _ F1 FX1 FX1 FX1 LX LX LX XN EX EX)|].
  intros [] m2 (F2 & E2).
  assert (frame touched m m2) as F02 by (eapply frame_then; [exact F1|exact F2|done|exact LM]).
  assert (table_ok m2 welem) as H2.
  { eapply (table_frame _ m1 m2); [lia|done|exact F2|exact LTM|done]. }
  set (limb' := (t - 1) / 64). set (bit' := (t - 1) mod 64).
  pose proof (Z.div_mod (t - 1) 64 ltac:(lia)) as Dm. pose proof (Z.mod_pos_bound (t - 1) 64 ltac:(lia)) as Rm.
  fold limb' bit' in Dm, Rm.
  replace (if bit =? 0 then (limb - 1, biL - 1) else (limb, bit - 1)) with (limb', bit').
  2: { split_if; f_equal; unfold biL; lia. }
  eapply (bind_read _ E limb' El m m2); [exact F02|exact FE|lia|intros j; by apply exponent_untouched; lia|].
  rewrite exponent_bit by lia. replace (64 * limb' + bit') with (t - 1) by lia.
  destruct (window_step t wb ltac:(lia) ltac:(lia)) as [Ew' Ed]. rewrite <- Ew in Ew', Ed.
  set (b := (Ev / 2 ^ (t - 1)) mod 2) in *. pose proof (Z.mod_pos_bound (Ev / 2 ^ (t - 1)) 2 ltac:(lia)) as Rb. fold b in Rb.
  assert (2 ^ (wb + 1) <= welem) as Pw by (apply Z.pow_le_mono_r; lia).
  pose proof (Z.mod_pos_bound (Ev / 2 ^ (t - 1)) (2 ^ (wb + 1)) ltac:(apply Z.pow_pos_nonneg; lia)) as Rw'.
  assert (0 <= w) as Hw0 by (rewrite Ew; apply Z.mod_pos_bound, Z.pow_pos_nonneg; lia).
  assert (Z.lor (u64 (Z.shiftl w 1)) b = 2 * w + b) as ->.
  { rewrite Z.shiftl_mul_pow2, u64_id, <- Z.shiftl_mul_pow2 by lia. rewrite lor_shiftl_add by lia. lia. }
  rewrite <- Ew' in Rw'. set (w' := 2 * w + b) in *.
  assert (0 <= Ev / 2 ^ t - w) as Hpos.
  { rewrite Ew. pose proof (Z.mod_le (Ev / 2 ^ t) (2 ^ wb) ltac:(apply Z.div_pos; [lia|apply Z.pow_pos_nonneg; lia]) ltac:(apply Z.pow_pos_nonneg; lia)). lia. }
  rewrite <- Z.pow_add_r, Z.add_diag, <- Ed in E2 by lia.
  set (last := (bit' =? 0) && (limb' =? 0)). assert (last = true <-> t = 1) as Hlast.
  { unfold last. rewrite andb_true_iff, !Z.eqb_eq. lia. }
  eapply (runs_bind _ _ _ (fun '(wb2, w2) m3 => (negb last = true -> exp_inv (t - 1) wb2 w2 m3) /\
    (last = true -> frame touched m m3 /\ mpi m3 X n = form (a ^ Ev)))).
  - destruct ((wb + 1 =? ws) || last) eqn:Hc.
    + destruct (keeps m2 F02) as (W2 & FX2 & FT2 & _).
      eapply runs_bind; [apply lookup_spec; [done|lia|done]|]. intros [] m3 (F3 & E3).
      assert (frame touched m m3) as F03 by (eapply frame_then; [exact F02|exact F3|done|exact LW]).
      destruct (keeps m3 F03) as (W3 & FX3 & FT3 & _).
      assert (mpi m3 X n = form (a ^ (Ev / 2 ^ (t - 1) - w'))) as E3X.
      { rewrite <- E2. by apply (frame_mpi _ _ _ _ _ F3). }
      eapply runs_bind; [apply (mul_forms m3 X X Wselect _ _ F03 FX3 FX3 (layout_fits m3 FT3) LX LX LS XN E3X E3)|].
      intros [] m4 (F4 & E4). rewrite <- Z.pow_add_r in E4 by lia. replace (Ev / 2 ^ (t - 1) - w' + w') with (Ev / 2 ^ (t - 1)) in E4 by lia.
      assert (frame touched m m4) as F04 by (eapply frame_then; [exact F03|exact F4|done|exact LM]).
      apply runs_ret. split.
      * intros _. split_and!; [done| |lia|lia| |].
        -- eapply (table_frame _ m3 m4); [lia|done|exact F4|exact LTM|].
           eapply (table_frame _ m2 m3); [lia|done|exact F3|exact LTW|done].
        -- by rewrite Z.pow_0_r, Z.mod_1_r.
        -- by rewrite Z.sub_0_r.
      * intros Hl. apply Hlast in Hl. split; [done|]. rewrite E4, Hl. by rewrite Z.sub_diag, Z.pow_0_r, Z.div_1_r.
    + apply orb_false_iff in Hc as [Hc Hl]. bool_to_prop. apply runs_ret. split; [|congruence].
      intros _. split_and!; [done|done|lia|lia|done|done].
  - intros [wb2 w2] m3 [Hgo Hend]. destruct last; cbn [negb].
    + apply runs_ret. by apply Hend.
    + apply (IH (t - 1)); [lia|split; [|lia]|lia|lia|by apply Hgo].
      assert (t <> 1) by (intros Ht1; by apply Hlast in Ht1). lia.
Qed.

End power.

(** ** The exponentiation *)

Lemma first_bit_spec bc m E El E_public :
  is_bytes m -> fits m E El -> 1 <= El < 2 ^ 31 ->
  exists limb bit, exp_mod_calc_first_bit_optionally_safe bc E El E_public m = Done ((limb, bit), m) /\
    0 <= bit < 64 /\ 0 <= limb <= El /\ 0 < 64 * limb + bit <= 64 * El /\ mpi m E El < 2 ^ (64 * limb + bit).
Proof.
  intros Bm FE HEl. pose proof (mpi_range m E El Bm FE) as RE. unfold exp_mod_calc_first_bit_optionally_safe. split_if.
  - unfold mbind, prog_bind. rewrite core_bitlen_spec by (done || lia). rewrite bind_Done. cbv beta iota. unfold mret, prog_ret.
    unfold biL. set (b := bitlen (mpi m E El)). set (b' := if b =? 0 then 1 else b).
    assert (1 <= b' <= 64 * El /\ mpi m E El < 2 ^ b') as [Rb Lb].
    { unfold b', b, bitlen, base, biL in *. destruct (Z.eqb_spec (mpi m E El) 0) as [->|]; [simpl; lia|].
      pose proof (Z.log2_nonneg (mpi m E El)). replace (Z.log2 (mpi m E El) + 1 =? 0) with false by lia.
      pose proof (Z.log2_spec (mpi m E El) ltac:(lia)) as [_ L]. rewrite <- Z.add_1_r in L.
      assert (Z.log2 (mpi m E El) < 64 * El) by (apply Z.log2_lt_pow2; lia). lia. }
    exists (b' / 64), (b' mod 64). pose proof (Z.div_mod b' 64 ltac:(lia)). pose proof (Z.mod_pos_bound b' 64 ltac:(lia)).
    replace (64 * (b' / 64) + b' mod 64) with b' by lia. split_and!; lia || done.
  - exists El, 0. unfold base, biL in *. split_and!; try lia; [done|]. rewrite Z.add_0_r. lia.
Qed.

Lemma exp_mod_spec be v bc w m X A N n E El RR T E_public a :
  let Tn := mbedtls_mpi_core_exp_mod_working_limbs w n El in
  1 <= w <= 6 -> wf m -> 1 <= n -> 1 <= El < 2 ^ 31 ->
  fits m X n -> fits m A n -> fits m N n -> fits m E El -> fits m RR n -> fits m T Tn ->
  apart T Tn X n -> apart T Tn A n -> apart T Tn N n -> apart T Tn E El -> apart T Tn RR n ->
  apart X n N n -> apart X n E El ->
  Z.odd (mpi m N n) = true -> mpi m A n = mform (mpi m N n) (base n) a ->
  mpi m RR n = (base n * base n) mod mpi m N n ->
  runs (mbedtls_mpi_core_exp_mod_optionally_safe be v bc w X A N n E El E_public RR T) m (fun _ m' =>
    frame (fun j => inside X n j \/ inside T Tn j) m m' /\
    mpi m' X n = mform (mpi m N n) (base n) (a ^ mpi m E El)).
Proof.
  intros Tn Hw Wm Hn HEl FX FA FN FE FR FT TX TA TN TE TR XN XE Hodd HA HR. pose proof Wm as [Bm _].
  destruct (first_bit_spec bc m E El E_public Bm FE HEl) as (limb & bit & Efb & Hbit & Hlimb & Ht & HEv).
  eapply (runs_bind _ _ _ (fun r m1 => r = (limb, bit) /\ m1 = m)); [by exists (limb, bit), m|]. intros [l b] m' [[= -> ->] ->].
  cbv zeta. set (ws := exp_mod_get_window_size w (limb * biL)).
  pose proof (window_size_range w Hw (limb * biL)) as Hws. fold ws in Hws. rewrite Z.shiftl_mul_pow2, Z.mul_1_l by lia.
  pose proof (working_limbs_enough w Hw n El limb ltac:(lia) ltac:(lia)) as Hen. fold ws Tn in Hen.
  set (Tn' := 2 ^ ws * n + n + (2 * n + 1)) in *. clearbody Tn.
  assert (fits m T Tn') as FT' by (assert (0 <= Tn') by nia; clear -FT Hen H; regions).
  assert (apart T Tn' X n) as TX' by (clear -TX Hen; regions). assert (apart T Tn' A n) as TA' by (clear -TA Hen; regions).
  assert (apart T Tn' N n) as TN' by (clear -TN Hen; regions). assert (apart T Tn' E El) as TE' by (clear -TE Hen; regions).
  assert (apart T Tn' RR n) as TR' by (clear -TR Hen; regions).
  eapply runs_bind; [apply montmul_init_spec; [done|clear -FN Hn; regions|by apply (odd_low_limb m N n)]|]. intros mm m' (-> & _ & Hmm).
  eapply runs_bind; [apply (precompute_spec be v m Wm X A N n E El RR T ws a); done || lia|]. intros [] m1 (F1 & H1).
  destruct (welem_range n ws Hn Hws) as [Hwe Hwn]. pose proof (frame_fits _ _ _ T Tn' F1 FT') as FT1.
  apply (bind_memcpy m1 X T n); [by eapply frame_wf|by eapply frame_fits|clear -FT1 Hn Hwn; regions|clear -TX' Hn Hwn; regions|].
  intros m2 F2 E2. assert (frame (touched X n T ws) m m2) as F02.
  { eapply frame_then; [exact F1|exact F2|..]; unfold touched; tauto. }
  assert (forall j, inside T (2 ^ ws * n) j -> ~ inside X n j) as NX by (clear -TX' Hn; intros j; regions).
  assert (table_ok m N n T a m2 (2 ^ ws)) as H2.
  { apply (table_frame m X A N n E El RR T ws a) with (P := inside X n) (m1 := m1); done || lia. }
  assert (exp_inv m X N n E El T ws a (64 * limb + bit) 0 0 m2) as H0.
  { split_and!; [done|done|lia|lia| |].
    + by rewrite Z.pow_0_r, Z.mod_1_r.
    + rewrite E2. rewrite Z.div_small by (pose proof (mpi_range m E El Bm FE); lia). specialize (H1 0 ltac:(lia)).
      rewrite Z.mul_0_l, Z.mul_0_r, Z.add_0_r in H1. exact H1. }
  eapply runs_mono; [apply (exp_loop_spec be v m Wm X A N n E El RR T ws E_public a) with (t := 64 * limb + bit);
    done || (unfold biL; lia)|].
  intros [] m3 (F3 & E3). split; [|exact E3]. eapply frame_mono; [exact F3|]. intros j. unfold touched. clear -Hen. regions.
Qed.

(** ** Theorem *)

(** What the header asks of the arguments: an odd modulus, the base in Montgomery form, the
    square of the radix modulo [N], scratch memory of the size
    [mbedtls_mpi_core_exp_mod_working_limbs] says, separate from all else; [X] may be [A] or
    [RR]. *)
Record exp_args (m : mem) (w X A N n E El RR T a : Z) : Prop := {
  ea_sizes : 1 <= w <= 6 /\ 1 <= n /\ 1 <= El < 2 ^ 31;
  ea_fits : fits m X n /\ fits m A n /\ fits m N n /\ fits m E El /\ fits m RR n /\
    fits m T (mbedtls_mpi_core_exp_mod_working_limbs w n El);
  ea_scratch : let Tn := mbedtls_mpi_core_exp_mod_working_limbs w n El in
    apart T Tn X n /\ apart T Tn A n /\ apart T Tn N n /\ apart T Tn E El /\ apart T Tn RR n;
  ea_result : apart X n N n /\ apart X n E El;
  ea_odd : Z.odd (mpi m N n) = true;
  ea_form : mpi m A n = (a * base n) mod mpi m N n;
  ea_square : mpi m RR n = (base n * base n) mod mpi m N n;
}.

(** C20.  Exponentiation, with the constant-time table lookup and without it, ends with the
    Montgomery form of [a] to the [E] modulo [N] in [X], for every window size, and changes
    only [X] and the scratch memory; that memory is large enough. *)
Theorem exp_mod_correct be v bc w m X A N n E El RR T a :
  wf m -> exp_args m w X A N n E El RR T a ->
  let Q m' := frame (fun j => inside X n j \/ inside T (mbedtls_mpi_core_exp_mod_working_limbs w n El) j) m m' /\
    mpi m' X n = (a ^ mpi m E El * base n) mod mpi m N n in
  runs (mbedtls_mpi_core_exp_mod be v bc w X A N n E El RR T) m (fun _ m' => Q m') /\
  runs (mbedtls_mpi_core_exp_mod_unsafe be v bc w X A N n E El RR T) m (fun _ m' => Q m').
Proof.
  intros Wm [(Hw & Hn & HEl) (FX & FA & FN & FE & FR & FT) (TX & TA & TN & TE & TR) (XN & XE) Hodd HA HR].
  split; by apply exp_mod_spec.
Qed.

(** 5 to the 13 modulo 97. *)
Lemma exp_mod_correct_witness :
  let R := 2 ^ 64 in
  let m := le_bytes 8 ((5 * R) mod 97) ++ le_bytes 8 97 ++ le_bytes 8 13 ++ le_bytes 8 ((R * R) mod 97) ++ replicate 48 0 in
  runs (mbedtls_mpi_core_exp_mod X86_64 Asm_x86_64 true 3 0 0 8 1 16 1 24 32) m (fun _ m' =>
    frame (fun j => inside 0 1 j \/ inside 32 (mbedtls_mpi_core_exp_mod_working_limbs 3 1 1) j) m m' /\
    mpi m' 0 1 = (5 ^ mpi m 16 1 * base 1) mod mpi m 8 1).
Proof.
  intros R m. apply (exp_mod_correct X86_64 Asm_x86_64 true 3 m 0 0 8 1 16 1 24 32 5); [unfold m, R; concrete|].
  split; unfold m, R; [lia|split_and!; concrete|change (mbedtls_mpi_core_exp_mod_working_limbs 3 1 1) with 6; split_and!; concrete|split_and!; concrete|concrete..].
Defined.
