(* ===== verification/BignumGcd.v ===== *)
(** * Big-number core of mbedTLS: greatest common divisor and modular inverse

    [mbedtls_mpi_core_gcd_modinv_odd] of [src/internal/mbedtls/bignum_core.c], which runs a
    fixed number of rounds that depends only on the sizes.  The file first shows that the
    rounds suffice: on numbers, as many rounds as the two operands have bits together reach
    the divisor.  Then it shows that the limb code computes these rounds, and with them the
    inverse modulo the odd operand. *)

From S2P Require Import Prelude Bytes ConstTime LimbMem BignumCore BignumMul.

(** ** Rounds on numbers *)

Definition ord (a b : Z) : Z * Z := if b <? a then (b, a) else (a, b).

(** Of [u], [v] and [v - u] one is even: it is halved, one of the others is kept. *)
Definition gstep (u v : Z) : Z * Z :=
  let d := v - u in
  if Z.odd u && Z.odd v then ord u (d / 2)
  else if Z.odd u then ord d (v / 2)
  else ord d (u / 2).

Fixpoint gsteps (k : nat) (uv : Z * Z) : Z * Z :=
  match k with O => uv | S k => gsteps k (gstep uv.1 uv.2) end.

(** ** The rounds suffice

    While [u] is not 0, the state is one of four shapes over an odd [x] and an even [e],
    whose sizes [p] and [q] in bits shrink by one together in each round. *)

Definition pw (p : nat) : Z := 2 ^ Z.of_nat p.

Lemma pw_S p : pw (S p) = 2 * pw p.
Proof. unfold pw. rewrite Nat2Z.inj_succ, Z.pow_succ_r by lia. done. Qed.

Lemma pw_pos p : 1 <= pw p.
Proof. unfold pw. pose proof (Z.pow_pos_nonneg 2 (Z.of_nat p)). lia. Qed.

Lemma pw_0 : pw 0 = 1.
Proof. reflexivity. Qed.

Inductive shape (u v : Z) (p q : nat) : Prop :=
  | Sum x e y f : x = 2 * y + 1 -> e = 2 * f -> 0 <= y -> 0 <= f ->
      v = x + e -> u = x \/ u = e -> x < pw p -> e < pw q -> shape u v p q
  | Top x e y f : x = 2 * y + 1 -> e = 2 * f -> 0 <= y -> 2 * x <= e ->
      v = e -> u = x \/ u = e - x -> x < pw p -> e - 2 * x < pw q -> (1 <= q)%nat -> shape u v p q
  | Below x e y f : x = 2 * y + 1 -> e = 2 * f -> 0 <= y -> x < e ->
      v = 2 * e - x -> u = e \/ u = e - x -> x < pw p -> e - x < pw q -> shape u v p q
  | Above x e y f : x = 2 * y + 1 -> e = 2 * f -> 0 <= y -> 0 <= f ->
      v = 2 * e + x -> u = e \/ u = e + x -> x < pw p -> e < pw q -> shape u v p q.

Lemma odd_2y1 y : Z.odd (2 * y + 1) = true.
Proof. by rewrite Z.add_comm, Z.odd_add_mul_2. Qed.

Lemma odd_2f f : Z.odd (2 * f) = false.
Proof. by rewrite Z.odd_mul. Qed.

Lemma gstep_odd_odd a b : gstep (2 * a + 1) (2 * b + 1) = ord (2 * a + 1) (b - a).
Proof.
  unfold gstep. rewrite !odd_2y1. cbn [andb]. f_equal.
  replace (2 * b + 1 - (2 * a + 1)) with ((b - a) * 2) by lia. by rewrite Z.div_mul by lia.
Qed.

Lemma gstep_odd_even a b : gstep (2 * a + 1) (2 * b) = ord (2 * b - (2 * a + 1)) b.
Proof.
  unfold gstep. rewrite odd_2y1, odd_2f. cbn [andb]. f_equal. by rewrite (Z.mul_comm 2), Z.div_mul by lia.
Qed.

Lemma gstep_even a v : gstep (2 * a) v = ord (v - 2 * a) a.
Proof. unfold gstep. rewrite odd_2f. cbn [andb]. f_equal. by rewrite (Z.mul_comm 2), Z.div_mul by lia. Qed.

(** The pair that follows a shape: its odd number and half of its even one. *)
Lemma gstep_pair u v o e f y : e = 2 * f -> o = 2 * y + 1 ->
  (u = o /\ v = o + e) \/ (u = e /\ v = o + e) \/ (u = e - o /\ v = e) -> gstep u v = ord o f.
Proof.
  intros -> -> [[-> ->]|[[-> ->]|[-> ->]]].
  - replace (2 * y + 1 + 2 * f) with (2 * (y + f) + 1) by lia. rewrite gstep_odd_odd. f_equal. lia.
  - rewrite gstep_even. f_equal. lia.
  - replace (2 * f - (2 * y + 1)) with (2 * (f - y - 1) + 1) by lia. rewrite gstep_odd_even. f_equal. lia.
Qed.

(** What a round ends in: 0, or a shape with one bit less. *)
Definition shrinks (uv : Z * Z) (p q : nat) : Prop :=
  uv.1 = 0 \/ exists p' q', shape uv.1 uv.2 p' q' /\ (p' + q' + 1 = p + q)%nat.

Lemma pw_ge1 x p : 1 <= x -> x < pw p -> exists p', p = S p' /\ x < 2 * pw p'.
Proof. intros Hx Hp. destruct p as [|p]; [rewrite pw_0 in Hp; lia|]. exists p. by rewrite pw_S in Hp. Qed.

Lemma pw_ge2 x p : 2 <= x -> x < pw p -> exists p', p = S (S p') /\ x < 4 * pw p'.
Proof.
  intros Hx Hp. destruct p as [|[|p]]; [rewrite pw_0 in Hp; lia|rewrite pw_S, pw_0 in Hp; lia|].
  exists p. rewrite !pw_S in Hp. split; [done|lia].
Qed.

Lemma sum_step x e y f p q : x = 2 * y + 1 -> e = 2 * f -> 0 <= y -> 0 <= f -> x < pw p -> e < pw q ->
  shrinks (ord x f) p q.
Proof.
  intros Ex Ee Hy Hf Hp Hq. unfold shrinks, ord. destruct (Z.eq_dec f 0) as [->|].
  { left. replace (0 <? x) with true by lia. done. }
  destruct (pw_ge2 e q ltac:(lia) Hq) as (q' & -> & Hq'). destruct (pw_ge1 x p ltac:(lia) Hp) as (p' & -> & Hp').
  destruct (Z.Even_or_Odd f) as [[g Eg]|[g Eg]]; split_if; cbn [fst snd].
  - right. exists (S p'), (S q'). split; [|lia]. apply (Sum _ _ _ _ (x - f) f (y - g) g); rewrite ?pw_S; lia.
  - destruct (Z.le_gt_cases (2 * x) f).
    + right. exists (S p'), (S q'). split; [|lia]. apply (Top _ _ _ _ x f y g); rewrite ?pw_S; lia.
    + right. exists (S q'), (S p'). split; [|lia]. apply (Top _ _ _ _ (f - x) f (g - y - 1) g); rewrite ?pw_S; lia.
  - right. exists (S q'), (S p'). split; [|lia]. apply (Sum _ _ _ _ f (x - f) g (y - g)); rewrite ?pw_S; lia.
  - right. exists (S p'), (S q'). split; [|lia]. apply (Sum _ _ _ _ x (f - x) y (g - y)); rewrite ?pw_S; lia.
Qed.

Lemma top_step x e y f p q o : x = 2 * y + 1 -> e = 2 * f -> 0 <= y -> 2 * x <= e ->
  x < pw p -> e - 2 * x < pw q -> (1 <= q)%nat -> o = x \/ o = e - x -> shrinks (ord o f) p q.
Proof.
  intros Ex Ee Hy Hxe Hp Hq Hq1 Ho. unfold shrinks, ord. destruct q as [|q]; [lia|]. rewrite pw_S in Hq.
  destruct (pw_ge1 x p ltac:(lia) Hp) as (p' & -> & Hp').
  destruct (Z.Even_or_Odd f) as [[g Eg]|[g Eg]]; destruct Ho as [-> | ->]; split_if; cbn [fst snd]; try lia.
  - destruct (Z.le_gt_cases (2 * x) f).
    + assert (1 <= q)%nat by (destruct q; [rewrite pw_0 in Hq; lia|lia]).
      right. exists (S p'), q. split; [|lia]. apply (Top _ _ _ _ x f y g); rewrite ?pw_S; lia.
    + right. exists q, (S p'). split; [|lia]. apply (Top _ _ _ _ (f - x) f (g - y - 1) g); rewrite ?pw_S; lia.
  - right. exists (S p'), q. split; [|lia]. apply (Below _ _ _ _ x f y g); rewrite ?pw_S; lia.
  - right. exists (S p'), q. split; [|lia]. apply (Sum _ _ _ _ x (f - x) y (g - y)); rewrite ?pw_S; lia.
  - right. exists (S p'), q. split; [|lia]. apply (Above _ _ _ _ x (f - x) y (g - y)); rewrite ?pw_S; lia.
  - right. exists (S p'), q. split; [|lia]. apply (Above _ _ _ _ x (f - x) y (g - y)); rewrite ?pw_S; lia.
Qed.

Lemma below_step x e y f p q : x = 2 * y + 1 -> e = 2 * f -> 0 <= y -> x < e -> x < pw p -> e - x < pw q ->
  shrinks (ord (e - x) f) p q.
Proof.
  intros Ex Ee Hy Hxe Hp Hq. unfold shrinks, ord.
  destruct (pw_ge1 (e - x) q ltac:(lia) Hq) as (q' & -> & Hq'). destruct (pw_ge1 x p ltac:(lia) Hp) as (p' & -> & Hp').
  destruct (Z.Even_or_Odd f) as [[g Eg]|[g Eg]]; split_if; cbn [fst snd].
  - right. exists (S p'), q'. split; [|lia]. apply (Below _ _ _ _ x f y g); rewrite ?pw_S; lia.
  - destruct (pw_ge2 x (S p') ltac:(lia) Hp) as (p2 & [= ->] & Hp2). rewrite !pw_S in Hp.
    destruct (Z.le_gt_cases (e - x) (x - f)).
    + right. exists (S q'), (S p2). split; [|lia].
      apply (Top _ _ _ _ (e - x) f (f - y - 1) g); rewrite ?pw_S; lia.
    + right. exists (S p2), (S q'). split; [|lia].
      apply (Top _ _ _ _ (x - f) f (y - g) g); rewrite ?pw_S; lia.
  - right. exists (S p'), q'. split; [|lia]. apply (Above _ _ _ _ x (f - x) y (g - y)); rewrite ?pw_S; lia.
  - destruct (Z.eq_dec x f).
    + right. exists (S p'), q'. split; [|lia]. apply (Above _ _ _ _ x 0 y 0); rewrite ?pw_S; pose proof (pw_pos q'); lia.
    + right. exists (S q'), p'. split; [|lia]. apply (Sum _ _ _ _ (e - x) (x - f) (f - y - 1) (y - g)); rewrite ?pw_S; lia.
Qed.

Lemma above_step x e y f p q : x = 2 * y + 1 -> e = 2 * f -> 0 <= y -> 0 <= f -> x < pw p -> e < pw q ->
  shrinks (ord (e + x) f) p q.
Proof.
  intros Ex Ee Hy Hf Hp Hq. unfold shrinks, ord. replace (f <? e + x) with true by lia. cbn [fst snd].
  destruct (Z.eq_dec f 0) as [->|]; [by left|].
  destruct (pw_ge1 e q ltac:(lia) Hq) as (q' & -> & Hq'). destruct (pw_ge1 x p ltac:(lia) Hp) as (p' & -> & Hp').
  destruct (Z.Even_or_Odd f) as [[g Eg]|[g Eg]]; right; exists (S p'), q'; (split; [|lia]).
  - apply (Above _ _ _ _ x f y g); rewrite ?pw_S; lia.
  - apply (Below _ _ _ _ x (f + x) y (g + y + 1)); rewrite ?pw_S; lia.
Qed.

Lemma shape_step u v p q : shape u v p q -> shrinks (gstep u v) p q.
Proof.
  intros [x e y f Ex Ee Hy Hf Ev Eu Hp Hq|x e y f Ex Ee Hy Hle Ev Eu Hp Hq H1|x e y f Ex Ee Hy Hlt Ev Eu Hp Hq|
    x e y f Ex Ee Hy Hf Ev Eu Hp Hq].
  - rewrite (gstep_pair u v x e f y) by lia. by apply (sum_step x e y f).
  - rewrite (gstep_pair u v (e - u) e f (if decide (u = x) then f - y - 1 else y)); [|done|case_decide; lia|lia].
    apply (top_step x e y f); auto; lia.
  - rewrite (gstep_pair u v (e - x) e f (f - y - 1)) by lia. by apply (below_step x e y f).
  - rewrite (gstep_pair u v (e + x) e f (f + y)) by lia. by apply (above_step x e y f).
Qed.

Lemma shape_not_0 u v p q : shape u v p q -> (p + q <> 0)%nat.
Proof.
  intros H E. assert (p = O) as -> by lia. destruct H as [x ? y ? ? ? ? ? ? ? Hp|x ? y ? ? ? ? ? ? ? Hp|x ? y ? ? ? ? ? ? ? Hp|x ? y ? ? ? ? ? ? ? Hp];
    rewrite pw_0 in Hp; lia.
Qed.

(** The final state is a fixed point. *)
Lemma gstep_0 v : 0 <= v -> gstep 0 v = (0, v).
Proof.
  intros. change 0 with (2 * 0) at 1. rewrite gstep_even, Z.mul_0_r, Z.sub_0_r. unfold ord. split_if; [done|].
  by replace v with 0 by lia.
Qed.

Lemma gstep_le u v : 0 <= u <= v -> 0 <= (gstep u v).1 <= (gstep u v).2.
Proof.
  intros H. unfold gstep, ord. repeat split_if; cbn [fst snd]; Z.div_mod_to_equations; lia.
Qed.

Lemma gsteps_shape k : forall u v p q, 0 <= u <= v -> u = 0 \/ shape u v p q -> (p + q <= k)%nat ->
  (gsteps k (u, v)).1 = 0.
Proof.
  induction k as [|k IH]; intros u v p q Huv H Hk; cbn [gsteps].
  - destruct H as [->|H]; [done|]. by apply shape_not_0 in H; lia.
  - cbn [fst snd]. pose proof (gstep_le u v Huv) as Hle. destruct H as [->|H].
    + rewrite gstep_0 by lia. apply (IH 0 v 0%nat 0%nat); [lia|by left|lia].
    + destruct (shape_step u v p q H) as [E|(p' & q' & H' & E')]; destruct (gstep u v) as [u' v']; cbn [fst snd] in *.
      * apply (IH u' v' 0%nat 0%nat); [lia|by left|lia].
      * apply (IH u' v' p' q'); [lia|by right|lia].
Qed.

(** Every pair with an odd larger number has the first shape. *)
Lemma initial_shape A N a b : 0 <= A <= N -> Z.odd N = true -> A < pw a -> N < pw b ->
  exists p q, (A = 0 \/ shape A N p q) /\ (p + q = a + b)%nat.
Proof.
  intros HA HN Ha Hb. apply Z.odd_spec in HN as [k Ek].
  destruct (Z.Even_or_Odd A) as [[h Eh]|[h Eh]].
  - exists b, a. split; [|lia]. right. apply (Sum _ _ _ _ (N - A) A (k - h) h); lia.
  - exists a, b. split; [|lia]. right. apply (Sum _ _ _ _ A (N - A) h (k - h)); lia.
Qed.

(** ** The rounds keep the divisor *)

Lemma odd_divisor g b : (g | b) -> Z.odd b = true -> Z.odd g = true.
Proof. intros [q ->]. rewrite Z.odd_mul. by intros [_ ?]%andb_prop. Qed.

Lemma odd_coprime_2 b : Z.odd b = true -> Z.gcd b 2 = 1.
Proof.
  intros Hb. pose proof (odd_divisor _ b (Z.gcd_divide_l b 2) Hb) as Ho.
  pose proof (Z.divide_pos_le _ 2 ltac:(lia) (Z.gcd_divide_r b 2)). pose proof (Z.gcd_nonneg b 2).
  assert (Z.gcd b 2 = 0 \/ Z.gcd b 2 = 1 \/ Z.gcd b 2 = 2) as [E|[E|E]] by lia; rewrite E in Ho; done.
Qed.

Lemma gcd_half a b : Z.odd b = true -> Z.gcd b (2 * a) = Z.gcd b a.
Proof.
  intros Hb. apply Z.divide_antisym_nonneg; try apply Z.gcd_nonneg; apply Z.gcd_greatest; try apply Z.gcd_divide_l.
  - apply (Z.gauss _ 2); [apply Z.gcd_divide_r|]. apply odd_coprime_2. by eapply odd_divisor; [apply Z.gcd_divide_l|].
  - apply Z.divide_mul_r, Z.gcd_divide_r.
Qed.

Lemma gcd_ord a b : Z.gcd (ord a b).1 (ord a b).2 = Z.gcd a b.
Proof. unfold ord. split_if; [apply Z.gcd_comm|done]. Qed.

Lemma gstep_gcd u v : Z.odd (Z.gcd u v) = true -> Z.gcd (gstep u v).1 (gstep u v).2 = Z.gcd u v.
Proof.
  intros Ho. destruct (Z.Even_or_Odd u) as [[a ->]|[a ->]], (Z.Even_or_Odd v) as [[b ->]|[b ->]].
  - rewrite Z.gcd_mul_mono_l in Ho. change (Z.abs 2) with 2 in Ho. by rewrite Z.odd_mul in Ho.
  - rewrite gstep_even, gcd_ord. replace (2 * b + 1 - 2 * a) with (2 * (b - a) + 1) by lia.
    rewrite <- gcd_half by apply odd_2y1. replace (2 * (b - a) + 1) with (2 * b + 1 - 2 * a) by lia.
    rewrite Z.gcd_comm. apply Z.gcd_sub_diag_r.
  - rewrite gstep_odd_even, gcd_ord. replace (2 * b - (2 * a + 1)) with (2 * (b - a - 1) + 1) by lia.
    rewrite <- gcd_half by apply odd_2y1. replace (2 * (b - a - 1) + 1) with (2 * b - (2 * a + 1)) by lia.
    rewrite Z.gcd_comm, <- (Z.gcd_opp_r (2 * b)). replace (- (2 * b - (2 * a + 1))) with (2 * a + 1 - 2 * b) by lia.
    rewrite Z.gcd_sub_diag_r. apply Z.gcd_comm.
  - rewrite gstep_odd_odd, gcd_ord. rewrite <- gcd_half by apply odd_2y1.
    replace (2 * (b - a)) with (2 * b + 1 - (2 * a + 1)) by lia. apply Z.gcd_sub_diag_r.
Qed.

Lemma gsteps_gcd k : forall u v, 0 <= u <= v -> Z.odd (Z.gcd u v) = true ->
  0 <= (gsteps k (u, v)).1 <= (gsteps k (u, v)).2 /\ Z.gcd (gsteps k (u, v)).1 (gsteps k (u, v)).2 = Z.gcd u v.
Proof.
  induction k as [|k IH]; intros u v Huv Ho; cbn [gsteps fst snd]; [done|].
  pose proof (gstep_le u v Huv) as Hle. pose proof (gstep_gcd u v Ho) as Hg.
  destruct (gstep u v) as [u' v']. cbn [fst snd] in *. rewrite <- Hg. apply IH; [done|by rewrite Hg].
Qed.

(** After as many rounds as [A] and [N] have bits the divisor is reached. *)
Lemma gsteps_reach A N a b : 0 <= A <= N -> Z.odd N = true -> A < pw a -> N < pw b ->
  gsteps (a + b) (A, N) = (0, Z.gcd A N).
Proof.
  intros HA HN Ha Hb. destruct (initial_shape A N a b HA HN Ha Hb) as (p & q & H & E).
  pose proof (gsteps_shape (a + b) A N p q HA H ltac:(lia)) as E0.
  destruct (gsteps_gcd (a + b) A N HA) as [Hle Hg].
  { eapply odd_divisor; [apply Z.gcd_divide_r|done]. }
  destruct (gsteps (a + b) (A, N)) as [u v]. cbn [fst snd] in *. subst u.
  rewrite Z.gcd_0_l, Z.abs_eq in Hg by lia. by rewrite Hg.
Qed.

(** ** Model *)

Section model.
Context (be : backend).

Definition mpi_core_sub_mod (X A B N limbs : Z) : prog () :=
  c ← mbedtls_mpi_core_sub X A B limbs;
  _ ← mbedtls_mpi_core_add_if be X N limbs (u32 c);
  mret tt.

Definition mbedtls_mpi_core_div2_mod_odd (X N limbs : Z) : prog () :=
  x0 ← get X 0;
  let odd := Z.land (u32 x0) 1 in
  c ← mbedtls_mpi_core_add_if be X N limbs odd;
  mbedtls_mpi_core_shift_r X limbs 1 ;;
  x ← get X (limbs - 1);
  set X (limbs - 1) (Z.lor x (u64 (Z.shiftl c (biL - 1)))).

(** The first half of a round: [u] and [v]; the conditions are used again. *)
Definition gcd_round (u v d t1 t2 N_limbs : Z) : prog (Z * Z * Z) :=
  u0 ← get u 0;
  let u_odd := mbedtls_ct_bool be (Z.land u0 1) in
  v0 ← get v 0;
  let v_odd := mbedtls_ct_bool be (Z.land v0 1) in
  let u_odd_v_odd := mbedtls_ct_bool_and u_odd v_odd in
  let v_even := mbedtls_ct_bool_not v_odd in
  let u_odd_v_even := mbedtls_ct_bool_and u_odd v_even in
  _ ← mbedtls_mpi_core_sub d v u N_limbs;
  memcpy t1 d (u64 (N_limbs * ciL)) ;;
  mbedtls_mpi_core_cond_assign be t1 u N_limbs u_odd_v_odd ;;
  memcpy t2 u (u64 (N_limbs * ciL)) ;;
  mbedtls_mpi_core_cond_assign be t2 v N_limbs u_odd_v_even ;;
  mbedtls_mpi_core_cond_assign be t2 d N_limbs u_odd_v_odd ;;
  mbedtls_mpi_core_shift_r t2 N_limbs 1 ;;
  memcpy u t1 (u64 (N_limbs * ciL)) ;;
  memcpy v t2 (u64 (N_limbs * ciL)) ;;
  swap ← mbedtls_mpi_core_lt_ct be v u N_limbs;
  mbedtls_mpi_core_cond_swap be u v N_limbs swap ;;
  mret (u_odd_v_odd, u_odd_v_even, swap).

(** The second half, when the inverse is asked for: [q] and [r]. *)
Definition modinv_round (q r d t1 t2 N N_limbs u_odd_v_odd u_odd_v_even swap : Z) : prog () :=
  mpi_core_sub_mod d q r N N_limbs ;;
  memcpy t1 d (u64 (N_limbs * ciL)) ;;
  mbedtls_mpi_core_cond_assign be t1 r N_limbs u_odd_v_odd ;;
  memcpy t2 r (u64 (N_limbs * ciL)) ;;
  mbedtls_mpi_core_cond_assign be t2 q N_limbs u_odd_v_even ;;
  mbedtls_mpi_core_cond_assign be t2 d N_limbs u_odd_v_odd ;;
  mbedtls_mpi_core_div2_mod_odd t2 N N_limbs ;;
  memcpy r t1 (u64 (N_limbs * ciL)) ;;
  memcpy q t2 (u64 (N_limbs * ciL)) ;;
  mbedtls_mpi_core_cond_swap be r q N_limbs swap.

(** [I] is [None] for the null pointer. *)
Definition mbedtls_mpi_core_gcd_modinv_odd (G : Z) (I : option Z) (A A_limbs N N_limbs T : Z) : prog () :=
  let u := T + ciL * (0 * N_limbs) in
  let v := G in
  let d := T + ciL * (1 * N_limbs) in
  let t1 := T + ciL * (2 * N_limbs) in
  let t2 := T + ciL * (3 * N_limbs) in
  let r := T + ciL * (4 * N_limbs) in
  let A_limbs := if A_limbs >? N_limbs then N_limbs else A_limbs in
  memcpy u A (u64 (A_limbs * ciL)) ;;
  memset (u + u64 (A_limbs * ciL)) 0 (u64 ((N_limbs - A_limbs) * ciL)) ;;
  (if negb (v =? N) then memcpy v N (u64 (N_limbs * ciL)) else mret tt) ;;
  match I with
  | Some q => memset q 0 (u64 (N_limbs * ciL)) ;; memset r 0 (u64 (N_limbs * ciL)) ;; set r 0 1
  | None => mret tt
  end ;;
  for_up 0 ((A_limbs + N_limbs) * biL) tt (fun _ _ =>
    '(u_odd_v_odd, u_odd_v_even, swap) ← gcd_round u v d t1 t2 N_limbs;
    match I with
    | Some q => modinv_round q r d t1 t2 N N_limbs u_odd_v_odd u_odd_v_even swap
    | None => mret tt
    end).

End model.

(** ** Registers

    The temporaries are arrays of [n] limbs that do not overlap.  [regs n ps] are their
    bytes; [advance F] carries the numbers in all registers but the written one over the
    step that [F] describes. *)

Definition regs (n : Z) (ps : list Z) (j : Z) : Prop := Exists (fun p => inside p n j) ps.

Lemma regs_here n ps p j : p ∈ ps -> inside p n j -> regs n ps j.
Proof. intros Hp Hj. apply Exists_exists. eauto. Qed.

Lemma apart_sym p n q : apart p n q n -> apart q n p n.
Proof. regions. Qed.

Lemma keep m0 ps n p q m m' :
  fits m0 q n -> frame (regs n ps) m0 m -> frame (inside p n) m m' -> apart p n q n -> mpi m' q n = mpi m q n.
Proof.
  intros Ft F0 F Ha. eapply frame_mpi; [exact F|by eapply frame_fits|]. clear -Ha. intros j. regions.
Qed.

Lemma regs_then m0 ps n p m m' : p ∈ ps -> frame (regs n ps) m0 m -> frame (inside p n) m m' -> frame (regs n ps) m0 m'.
Proof. intros Hp F0 F. eapply frame_then; [exact F0|exact F|done|]. intros j. by apply regs_here. Qed.

Ltac is_apart := solve [assumption | apply apart_sym; assumption].
Ltac in_regs := rewrite ?elem_of_cons, ?list_elem_of_singleton; tauto.

(** [FF] is the frame from the first memory to the one before the step. *)
Ltac advance FF F :=
  lazymatch type of F with
  | frame (inside ?p ?n) ?m ?m' =>
      lazymatch type of FF with
      | frame (regs n ?ps) ?m0 m =>
          repeat match goal with
          | H : mpi m ?q n = _ |- _ =>
              rewrite <- (keep m0 ps n p q m m' ltac:(assumption) FF F ltac:(is_apart)) in H
          end;
          let K := fresh in
          pose proof (regs_then m0 ps n p m m' ltac:(in_regs) FF F) as K; clear FF; rename K into FF
      end
  end.

Section halves.
Context (be : backend) (m : mem) (Wm : wf m).

Lemma sub_mod_spec X A B N n :
  fits m X n -> fits m A n -> fits m B n -> fits m N n -> alias_ok X A n -> alias_ok X B n -> apart X n N n ->
  mpi m A n < mpi m N n -> mpi m B n < mpi m N n ->
  runs (mpi_core_sub_mod be X A B N n) m (fun _ m' =>
    frame (inside X n) m m' /\ mpi m' X n = (mpi m A n - mpi m B n) mod mpi m N n).
Proof.
  intros FX FA FB FN XA XB XN LA LB. pose proof Wm as [Bm _].
  eapply runs_bind; [by apply (core_sub_spec m Wm X A B n)|]. intros c m1 (F1 & E1 & Hc).
  unfold u32. rewrite (Z.mod_small c) by lia. pose proof (frame_wf _ _ _ Wm F1) as W1.
  eapply runs_bind; [apply (core_add_if_spec be m1 W1 X N n c); [by eapply frame_fits..|by right|lia]|].
  intros c' m2 (F2 & E2 & Hc'). apply runs_ret. split; [by eapply frame_seq|].
  rewrite (frame_mpi _ _ _ N n F1) in E2 by (try done; intros j; regions).
  pose proof (mpi_range m A n Bm FA) as RA. pose proof (mpi_range m B n Bm FB) as RB. pose proof (mpi_range m N n Bm FN) as RN.
  assert (fits m2 X n) as FX2 by (do 2 (eapply frame_fits; [done|]); done).
  pose proof (mpi_range m2 X n ltac:(by eapply frame_bytes) FX2) as R2.
  pose proof (mpi_range m1 X n (proj1 W1) ltac:(by eapply frame_fits)) as R1.
  assert (c = 0 \/ c = 1) as [-> | ->] by lia; (assert (c' = 0 \/ c' = 1) as [-> | ->] by lia); cbn [Z.eqb] in E2.
  - rewrite Z.mod_small; lia.
  - lia.
  - lia.
  - rewrite <- (Z_mod_plus_full _ 1), Z.mod_small; lia.
Qed.

(** Half of [x] modulo the odd [N]. *)
Definition half_mod (N x : Z) : Z := if Z.odd x then (x + N) / 2 else x / 2.

Lemma half_mod_spec N x : Z.odd N = true -> 0 <= x < N -> 0 <= half_mod N x < N /\ (2 * half_mod N x) mod N = x.
Proof.
  intros HN Hx. unfold half_mod. apply Z.odd_spec in HN as [k Ek]. destruct (Z.Even_or_Odd x) as [[h ->]|[h ->]].
  - rewrite odd_2f. rewrite (Z.mul_comm 2 h), Z.div_mul by lia. split; [lia|]. rewrite Z.mod_small; lia.
  - rewrite odd_2y1. replace (2 * h + 1 + N) with ((h + k + 1) * 2) by lia. rewrite Z.div_mul by lia.
    split; [lia|]. rewrite <- (Z_mod_plus_full _ (-1)), Z.mod_small; lia.
Qed.

Lemma odd_bit x0 : Z.land (u32 x0) 1 = if Z.odd x0 then 1 else 0.
Proof.
  unfold u32. rewrite <- (Z.land_ones x0 32) by lia. rewrite <- Z.land_assoc. change (Z.land (Z.ones 32) 1) with 1.
  change 1 with (Z.ones 1) at 1. rewrite Z.land_ones by lia. change (2 ^ 1) with 2. rewrite Zmod_odd. done.
Qed.

Lemma odd_limb X n : fits m X n -> 1 <= n -> Z.odd (mpi m X 1) = Z.odd (mpi m X n).
Proof.
  intros FX Hn. rewrite (mpi_cons m X n) by (done || lia). rewrite Z.odd_add, Z.odd_mul. cbn [Z.odd andb].
  by rewrite xorb_false_r.
Qed.

Lemma div2_mod_odd_spec X N n :
  1 <= n -> fits m X n -> fits m N n -> apart X n N n -> Z.odd (mpi m N n) = true -> mpi m X n < mpi m N n ->
  runs (mbedtls_mpi_core_div2_mod_odd be X N n) m (fun _ m' =>
    frame (inside X n) m m' /\ mpi m' X n = half_mod (mpi m N n) (mpi m X n)).
Proof.
  intros Hn FX FN XN HN Hlt. pose proof Wm as [Bm _].
  eapply (bind_read (fun _ => False) X 0 n m); [by apply frame_same|done|lia|naive_solver|].
  rewrite Z.mul_0_r, Z.add_0_r, odd_bit, (odd_limb X n) by done.
  set (x := mpi m X n) in *. set (Nv := mpi m N n) in *. set (o := if Z.odd x then 1 else 0).
  eapply runs_bind; [apply (core_add_if_spec be m Wm X N n o); [done..|by right|unfold o; destruct (Z.odd x); lia]|].
  intros c m1 (F1 & E1 & Hc). fold x Nv in E1. pose proof (frame_wf _ _ _ Wm F1) as W1. pose proof (frame_fits _ _ _ _ _ F1 FX) as FX1.
  eapply runs_bind; [by apply (core_shift_r_spec m1 X n 1)|]. intros [] m2 (F2 & E2). change (2 ^ 1) with 2 in E2.
  pose proof (frame_wf _ _ _ W1 F2) as W2. pose proof (frame_fits _ _ _ _ _ F2 FX1) as FX2.
  eapply (bind_read (fun _ => False) X (n - 1) n m2); [apply frame_same, W2|done|lia|naive_solver|].
  apply runs_set; [apply W2|clear -FX2 Hn; regions|]. intros m3 F3 E3.
  pose proof (frame_fits _ _ _ _ _ F3 FX2) as FX3.
  split; [eapply frame_then; [eapply frame_seq; [exact F1|exact F2]|exact F3|done|]; clear -Hn; intros j; regions|].
  pose proof (mpi_succ m3 X (n - 1) ltac:(by replace (n - 1 + 1) with n by lia) ltac:(lia)) as S3.
  pose proof (mpi_succ m2 X (n - 1) ltac:(by replace (n - 1 + 1) with n by lia) ltac:(lia)) as S2.
  rewrite E3, (frame_mpi _ _ _ X (n - 1) F3) in S3 by (try (clear -FX2 Hn; regions); clear; intros j; regions).
  replace (n - 1 + 1) with n in * by lia.
  pose proof (mpi_word m2 (X + ciL * (n - 1)) (proj1 W2) ltac:(clear -FX2 Hn; regions)) as Rt.
  pose proof (mpi_range m2 X (n - 1) (proj1 W2) ltac:(clear -FX2 Hn; regions)) as Rl.
  pose proof (mpi_range m1 X n (proj1 W1) FX1) as R1.
  set (top := mpi m2 (X + ciL * (n - 1)) 1) in *. set (low := mpi m2 X (n - 1)) in *. set (x1 := mpi m1 X n) in *.
  pose proof (base_succ (n - 1) ltac:(lia)) as EB. replace (n - 1 + 1) with n in EB by lia. set (b := base (n - 1)) in *.
  assert (0 < b) by (apply base_gt0; lia).
  assert (top < 2 ^ 63) as Ht by (assert (x1 / 2 < b * 2 ^ 63) by (apply Z.div_lt_upper_bound; lia); nia).
  assert (Z.lor top (u64 (Z.shiftl c (biL - 1))) = top + c * 2 ^ 63) as El.
  { unfold biL. rewrite Z.lor_comm, Z.shiftl_mul_pow2, u64_id, <- Z.shiftl_mul_pow2 by lia. change (64 - 1) with 63.
    rewrite lor_shiftl_add by lia. lia. }
  rewrite El, u64_id in S3 by lia. rewrite S3. unfold half_mod. fold x Nv.
  assert (2 * (x1 / 2) + x1 mod 2 = x1) as D by (pose proof (Z.div_mod x1 2); lia).
  assert (x1 + b * 2 ^ 64 * c = x + (if o =? 0 then 0 else Nv)) as E1' by (rewrite <- EB; exact E1).
  apply Z.odd_spec in HN as [kk Ek].
  unfold o in E1'. destruct (Z.odd x) eqn:Ox; cbn [Z.eqb] in E1'.
  - rewrite <- E1'. replace (x1 + b * 2 ^ 64 * c) with (x1 + (b * 2 ^ 63 * c) * 2) by lia. rewrite Z.div_add by lia. lia.
  - rewrite Z.add_0_r in E1'. rewrite <- E1'. replace (x1 + b * 2 ^ 64 * c) with (x1 + (b * 2 ^ 63 * c) * 2) by lia. rewrite Z.div_add by lia. lia.
Qed.

End halves.

(** ** A round on limbs *)

(** What is kept and what is halved, of [u] and [v] or of [r] and [q]. *)
Definition kept (uo vo : bool) (u d : Z) : Z := if uo && vo then u else d.
Definition halved (uo vo : bool) (u v d : Z) : Z := if uo && vo then d else if uo then v else u.

Lemma gstep_kept u v :
  gstep u v = let t1 := kept (Z.odd u) (Z.odd v) u (v - u) in
              let t2 := halved (Z.odd u) (Z.odd v) u v (v - u) / 2 in
              if t2 <? t1 then (t2, t1) else (t1, t2).
Proof. unfold gstep, kept, halved, ord. destruct (Z.odd u), (Z.odd v); done. Qed.

Lemma ct_odd be x0 : mbedtls_ct_bool be (Z.land x0 1) = cond (Z.odd x0).
Proof.
  assert (Z.land x0 1 = if Z.odd x0 then 1 else 0) as ->.
  { change 1 with (Z.ones 1) at 1. rewrite Z.land_ones by lia. change (2 ^ 1) with 2. by rewrite Zmod_odd. }
  destruct (Z.odd x0); rewrite ct_bool_spec by (unfold word64; lia); done.
Qed.

Section rounds.
Context (be : backend) (m : mem) (Wm : wf m) (n : Z) (Hn : 1 <= n).

Section first.
Context (u v d t1 t2 : Z).
Context (Fu : fits m u n) (Fv : fits m v n) (Fd : fits m d n) (F1 : fits m t1 n) (F2 : fits m t2 n).
Context (Auv : apart u n v n) (Aud : apart u n d n) (Au1 : apart u n t1 n) (Au2 : apart u n t2 n).
Context (Avd : apart v n d n) (Av1 : apart v n t1 n) (Av2 : apart v n t2 n).
Context (Ad1 : apart d n t1 n) (Ad2 : apart d n t2 n) (A12 : apart t1 n t2 n).

Lemma gcd_round_spec uv vv :
  mpi m u n = uv -> mpi m v n = vv -> uv <= vv ->
  let k := kept (Z.odd uv) (Z.odd vv) uv (vv - uv) in
  let h := halved (Z.odd uv) (Z.odd vv) uv vv (vv - uv) / 2 in
  runs (gcd_round be u v d t1 t2 n) m (fun r m' =>
    frame (regs n [u; v; d; t1; t2]) m m' /\
    r = (cond (Z.odd uv && Z.odd vv), cond (Z.odd uv && negb (Z.odd vv)), cond (h <? k)) /\
    mpi m' u n = (gstep uv vv).1 /\ mpi m' v n = (gstep uv vv).2).
Proof.
  intros EU EV Hle k h. pose proof Wm as [Bm _].
  assert (frame (regs n [u; v; d; t1; t2]) m m) as FF by by apply frame_same.
  unfold gcd_round.
  eapply (bind_read (fun _ => False) u 0 n m); [by apply frame_same|done|lia|naive_solver|].
  eapply (bind_read (fun _ => False) v 0 n m); [by apply frame_same|done|lia|naive_solver|].
  rewrite !Z.mul_0_r, !Z.add_0_r, !ct_odd, (odd_limb m u n), (odd_limb m v n), EU, EV by done.
  unfold mbedtls_ct_bool_and, mbedtls_ct_bool_not. rewrite not64_cond, !cond_and.
  pose proof (mpi_range m u n Bm Fu) as Ru. pose proof (mpi_range m v n Bm Fv) as Rv. rewrite EU in Ru. rewrite EV in Rv.
  set (bo := Z.odd uv && Z.odd vv). set (be' := Z.odd uv && negb (Z.odd vv)).
  eapply runs_bind; [apply (core_sub_spec m Wm d v u n); [done..|right; is_apart|right; is_apart]|].
  intros c m1 (G1 & E1 & Hc).
  assert (mpi m1 d n = vv - uv) as ED.
  { rewrite EU, EV in E1. pose proof (mpi_range m1 d n ltac:(by eapply frame_bytes) ltac:(by eapply frame_fits)).
    assert (c = 0) by nia. subst c. lia. }
  advance FF G1.
  assert (forall m', frame (regs n [u; v; d; t1; t2]) m m' -> wf m') as WW by (intros; by eapply frame_wf).
  assert (forall m' p, frame (regs n [u; v; d; t1; t2]) m m' -> fits m p n -> fits m' p n) as FI by (intros; by eapply frame_fits).
  apply (bind_memcpy m1 t1 d n); [by eauto..|is_apart|]. intros m2 G2 ET1. rewrite ED in ET1. advance FF G2.
  eapply runs_bind; [apply (cond_assign_spec be m2 (WW _ FF) t1 u n bo); [by eauto..|right; is_apart]|].
  intros [] m3 (G3 & E3). rewrite ET1, EU in E3. advance FF G3.
  apply (bind_memcpy m3 t2 u n); [by eauto..|is_apart|]. intros m4 G4 ET2. rewrite EU in ET2. advance FF G4.
  eapply runs_bind; [apply (cond_assign_spec be m4 (WW _ FF) t2 v n be'); [by eauto..|right; is_apart]|].
  intros [] m5 (G5 & E5). rewrite ET2, EV in E5. advance FF G5.
  eapply runs_bind; [apply (cond_assign_spec be m5 (WW _ FF) t2 d n bo); [by eauto..|right; is_apart]|].
  intros [] m6 (G6 & E6). rewrite E5, ED in E6. advance FF G6.
  eapply runs_bind; [apply (core_shift_r_spec m6 t2 n 1 (WW _ FF)); [by eauto|lia]|].
  intros [] m7 (G7 & E7). change (2 ^ 1) with 2 in E7. rewrite E6 in E7. advance FF G7.
  assert (mpi m7 t1 n = k) as EK by done. clear E3.
  assert (mpi m7 t2 n = h) as EH.
  { rewrite E7. unfold h, halved, bo, be'. by destruct (Z.odd uv), (Z.odd vv). }
  apply (bind_memcpy m7 u t1 n); [by eauto..|]. intros m8 G8 EU8. rewrite EK in EU8. advance FF G8.
  apply (bind_memcpy m8 v t2 n); [by eauto..|]. intros m9 G9 EV9. rewrite EH in EV9. advance FF G9.
  eapply runs_bind; [apply (lt_ct_spec be m9 (WW _ FF) v u n); by eauto|]. intros s m' (-> & ->). rewrite EU8, EV9.
  eapply runs_bind; [apply (cond_swap_spec be m9 (WW _ FF) u v n (h <? k)); [by eauto..|by right]|].
  intros [] m10 (G10 & EU10 & EV10). rewrite EU8, EV9 in *. apply runs_ret.
  split_and!; [|done|..].
  - eapply frame_then; [exact FF|exact G10|done|]. intros j [Hj|Hj]; (eapply regs_here; [|exact Hj]; in_regs).
  - rewrite EU10, gstep_kept. cbv zeta. fold k h. by destruct (h <? k).
  - rewrite EV10, gstep_kept. cbv zeta. fold k h. by destruct (h <? k).
Qed.

End first.
Section second.
Context (q r d t1 t2 N : Z).
Context (Fq : fits m q n) (Fr : fits m r n) (Fd : fits m d n) (F1 : fits m t1 n) (F2 : fits m t2 n) (FN : fits m N n).
Context (Aqr : apart q n r n) (Aqd : apart q n d n) (Aq1 : apart q n t1 n) (Aq2 : apart q n t2 n) (AqN : apart q n N n).
Context (Ard : apart r n d n) (Ar1 : apart r n t1 n) (Ar2 : apart r n t2 n) (ArN : apart r n N n).
Context (Ad1 : apart d n t1 n) (Ad2 : apart d n t2 n) (AdN : apart d n N n).
Context (A12 : apart t1 n t2 n) (A1N : apart t1 n N n) (A2N : apart t2 n N n).

Lemma modinv_round_spec qv rv Nv uo vo (swap : bool) :
  mpi m q n = qv -> mpi m r n = rv -> mpi m N n = Nv -> Z.odd Nv = true -> qv < Nv -> rv < Nv ->
  let dd := (qv - rv) mod Nv in
  let k := kept uo vo rv dd in
  let h := half_mod Nv (halved uo vo rv qv dd) in
  runs (modinv_round be q r d t1 t2 N n (cond (uo && vo)) (cond (uo && negb vo)) (cond swap)) m (fun _ m' =>
    frame (regs n [q; r; d; t1; t2]) m m' /\
    mpi m' r n = (if swap then h else k) /\ mpi m' q n = (if swap then k else h)).
Proof.
  intros EQ ER EN Hodd Hq Hr dd k h. pose proof Wm as [Bm _].
  pose proof (mpi_range m q n Bm Fq) as Rq. pose proof (mpi_range m r n Bm Fr) as Rr. rewrite EQ in Rq. rewrite ER in Rr.
  assert (frame (regs n [q; r; d; t1; t2]) m m) as FF by by apply frame_same.
  assert (forall m', frame (regs n [q; r; d; t1; t2]) m m' -> wf m') as WW by (intros; by eapply frame_wf).
  assert (forall m' p, frame (regs n [q; r; d; t1; t2]) m m' -> fits m p n -> fits m' p n) as FI by (intros; by eapply frame_fits).
  unfold modinv_round.
  eapply runs_bind; [apply (sub_mod_spec be m Wm d q r N n); try done; try lia; right; is_apart|].
  intros [] m1 (G1 & ED). rewrite EQ, ER, EN in ED. fold dd in ED. advance FF G1.
  apply (bind_memcpy m1 t1 d n); [by eauto..|is_apart|]. intros m2 G2 ET1. rewrite ED in ET1. advance FF G2.
  eapply runs_bind; [apply (cond_assign_spec be m2 (WW _ FF) t1 r n (uo && vo)); [by eauto..|right; is_apart]|].
  intros [] m3 (G3 & E3). rewrite ET1, ER in E3. advance FF G3.
  apply (bind_memcpy m3 t2 r n); [by eauto..|is_apart|]. intros m4 G4 ET2. rewrite ER in ET2. advance FF G4.
  eapply runs_bind; [apply (cond_assign_spec be m4 (WW _ FF) t2 q n (uo && negb vo)); [by eauto..|right; is_apart]|].
  intros [] m5 (G5 & E5). rewrite ET2, EQ in E5. advance FF G5.
  eapply runs_bind; [apply (cond_assign_spec be m5 (WW _ FF) t2 d n (uo && vo)); [by eauto..|right; is_apart]|].
  intros [] m6 (G6 & E6). rewrite E5, ED in E6. advance FF G6.
  assert (mpi m6 t2 n = halved uo vo rv qv dd) as E6' by (rewrite E6; unfold halved; by destruct uo, vo). clear E6.
  assert (halved uo vo rv qv dd < Nv) as Lh.
  { pose proof (Z.mod_pos_bound (qv - rv) Nv ltac:(lia)). unfold halved, dd. destruct uo, vo; cbn [andb]; lia. }
  eapply runs_bind; [apply (div2_mod_odd_spec be m6 (WW _ FF) t2 N n); [done|by eauto..|by rewrite EN|by rewrite E6', EN]|].
  intros [] m7 (G7 & E7). rewrite E6', EN in E7. fold h in E7. advance FF G7.
  assert (mpi m7 t1 n = k) as EK by done. clear E3.
  apply (bind_memcpy m7 r t1 n); [by eauto..|]. intros m8 G8 ER8. rewrite EK in ER8. advance FF G8.
  apply (bind_memcpy m8 q t2 n); [by eauto..|]. intros m9 G9 EQ9. rewrite E7 in EQ9. advance FF G9.
  eapply runs_mono; [apply (cond_swap_spec be m9 (WW _ FF) r q n swap); [by eauto..|right; is_apart]|].
  intros [] m10 (G10 & ER10 & EQ10). rewrite ER8, EQ9 in *. split_and!; [|done..].
  eapply frame_then; [exact FF|exact G10|done|]. intros j [Hj|Hj]; (eapply regs_here; [|exact Hj]; in_regs).
Qed.

End second.
End rounds.

(** ** The cofactors *)

Lemma halved_even u v : Z.odd (halved (Z.odd u) (Z.odd v) u v (v - u)) = false.
Proof.
  unfold halved. destruct (Z.odd u) eqn:Eu, (Z.odd v) eqn:Ev; cbn [andb]; try done.
  by rewrite Z.odd_sub, Eu, Ev.
Qed.

(** [u] and [v] are [A]-multiples of [r] and [q] modulo [N]. *)
Definition cofactors (A N u v r q : Z) : Prop :=
  0 <= q < N /\ 0 <= r < N /\ (N | u - A * r) /\ (N | v - A * q).

Lemma cofactors_step A N u v r q : Z.odd N = true -> cofactors A N u v r q ->
  let dd := (q - r) mod N in
  let k := kept (Z.odd u) (Z.odd v) u (v - u) in
  let h := halved (Z.odd u) (Z.odd v) u v (v - u) / 2 in
  let k' := kept (Z.odd u) (Z.odd v) r dd in
  let h' := half_mod N (halved (Z.odd u) (Z.odd v) r q dd) in
  0 <= k' < N /\ 0 <= h' < N /\ (N | k - A * k') /\ (N | h - A * h').
Proof.
  intros HN (Hq & Hr & Du & Dv) dd k h k' h'. pose proof (Z.mod_pos_bound (q - r) N ltac:(lia)) as Rd. fold dd in Rd.
  assert (N | (v - u) - A * dd) as Dd.
  { pose proof (Z.div_mod (q - r) N ltac:(lia)) as E. fold dd in E.
    replace (v - u - A * dd) with ((v - A * q) - (u - A * r) + A * ((q - r) / N) * N) by lia.
    apply Z.divide_add_r; [by apply Z.divide_sub_r|apply Z.divide_factor_r]. }
  assert (0 <= halved (Z.odd u) (Z.odd v) r q dd < N) as Rh by (unfold halved; destruct (Z.odd u), (Z.odd v); cbn [andb]; lia).
  destruct (half_mod_spec N _ HN Rh) as [Rh' Eh]. fold h' in Rh', Eh.
  split_and!; try lia.
  - unfold k', kept. destruct (_ && _); lia.
  - unfold k', kept. destruct (_ && _); lia.
  - unfold k, k', kept. by destruct (_ && _).
  - assert (N | halved (Z.odd u) (Z.odd v) u v (v - u) - A * halved (Z.odd u) (Z.odd v) r q dd) as Dh
      by (unfold halved; destruct (Z.odd u), (Z.odd v); done).
    pose proof (halved_even u v) as Ev. set (x := halved (Z.odd u) (Z.odd v) u v (v - u)) in *.
    set (y := halved (Z.odd u) (Z.odd v) r q dd) in *. clearbody x y.
    assert (x = 2 * h) as Ex by (unfold h; pose proof (Z.div_mod x 2); pose proof (Zmod_odd x) as O; rewrite Ev in O; lia).
    apply (Z.gauss _ 2); [|by apply odd_coprime_2].
    pose proof (Z.div_mod (2 * h') N ltac:(lia)) as E2. rewrite Eh in E2.
    replace (2 * (h - A * h')) with (x - A * y + - (A * (2 * h' / N)) * N) by lia.
    apply Z.divide_add_r; [done|apply Z.divide_factor_r].
Qed.

(** ** The whole function *)

Lemma gsteps_snoc k uv : gsteps (S k) uv = gstep (gsteps k uv).1 (gsteps k uv).2.
Proof. revert uv. induction k as [|k IH]; intros uv; [done|]. change (gsteps (S (S k)) uv) with (gsteps (S k) (gstep uv.1 uv.2)). by rewrite IH. Qed.

Lemma scratch_apart T i n tn Y k : apart T tn Y k -> 0 <= i * n -> i * n + n <= tn -> apart (T + ciL * (i * n)) n Y k.
Proof. regions. Qed.

Lemma scratch_fits m T i n tn : fits m T tn -> 1 <= n -> 0 <= i * n -> i * n + n <= tn -> fits m (T + ciL * (i * n)) n.
Proof. regions. Qed.

Section gcd.
Context (be : backend) (m : mem) (Wm : wf m).
Context (G : Z) (I : option Z) (A al N n T : Z).
Notation tn := (match I with Some _ => 5 * n | None => 4 * n end).
Notation av := (mpi m A al).
Notation Nv := (mpi m N n).
Context (Hn : 1 <= n) (Hal : 0 <= al <= n).
Context (FG : fits m G n) (FA : fits m A al) (FN : fits m N n) (FT : fits m T tn).
Context (TG : apart T tn G n) (TA : apart T tn A al) (TN : apart T tn N n).
Context (GN : G = N /\ I = None \/ apart G n N n).
Context (HI : forall q, I = Some q -> fits m q n /\ apart T tn q n /\ apart q n G n /\ apart q n N n /\ 1 < Nv).
Context (Hodd : Z.odd Nv = true) (HA : av <= Nv).

Definition gcd_touched (j : Z) : Prop :=
  inside G n j \/ inside T tn j \/ match I with Some q => inside q n j | None => False end.

Lemma pointer_cases : I = None \/ exists q, I = Some q.
Proof. destruct I; eauto. Qed.

Notation reg i := (T + ciL * (i * n)).

Lemma reg_touched i j : 0 <= i -> i * n + n <= tn -> inside (reg i) n j -> gcd_touched j.
Proof. intros Hi Hin H. right. left. destruct I; clear -H Hi Hin Hn; assert (0 <= i * n) by nia; regions. Qed.

Definition gcd_inv (i : Z) (m' : mem) : Prop :=
  frame gcd_touched m m' /\ (mpi m' (reg 0) n, mpi m' G n) = gsteps (Z.to_nat i) (av, Nv) /\
  match I with
  | Some q => mpi m' N n = Nv /\ cofactors av Nv (mpi m' (reg 0) n) (mpi m' G n) (mpi m' (reg 4) n) (mpi m' q n)
  | None => True
  end.

Lemma gcd_operands i m' : is_bytes m' -> gcd_inv i m' -> 0 <= mpi m' (reg 0) n <= mpi m' G n.
Proof.
  intros B (_ & E & _). pose proof Wm as [Bm _]. pose proof (mpi_range m A al Bm FA).
  destruct (gsteps_gcd (Z.to_nat i) av Nv) as [Hle _]; [lia| |by rewrite <- E in Hle].
  eapply odd_divisor; [apply Z.gcd_divide_r|done].
Qed.

Lemma regs_apart i j : 0 <= i -> 0 <= j -> i <> j -> apart (reg i) n (reg j) n.
Proof. intros Hi Hj Hij. assert (i * n + n <= j * n \/ j * n + n <= i * n) by nia. clear -H. regions. Qed.

Lemma gcd_body_spec i m1 : 0 <= i -> gcd_inv i m1 ->
  runs ('(u_odd_v_odd, u_odd_v_even, swap) ← gcd_round be (reg 0) G (reg 1) (reg 2) (reg 3) n;
    match I with
    | Some q => modinv_round be q (reg 4) (reg 1) (reg 2) (reg 3) N n u_odd_v_odd u_odd_v_even swap
    | None => mret tt
    end) m1 (fun _ => gcd_inv (i + 1)).
Proof.
  intros Hi Hinv. pose proof Hinv as (F1 & E1 & C1). pose proof (frame_wf _ _ _ Wm F1) as W1.
  pose proof (gcd_operands i m1 (proj1 W1) Hinv) as Hle.
  assert (forall p, fits m p n -> fits m1 p n) as FI by (intros; by eapply frame_fits).
  assert (4 * n <= tn) as Htn by (destruct I; lia).
  assert (forall k, 0 <= k <= 3 -> fits m (reg k) n /\ apart (reg k) n G n) as RG.
  { intros k Hk. assert (0 <= k * n /\ k * n + n <= tn) as [] by nia. split; [by eapply scratch_fits|by eapply scratch_apart]. }
  eapply runs_bind; [apply (gcd_round_spec be m1 W1 n Hn (reg 0) G (reg 1) (reg 2) (reg 3)) with
    (uv := mpi m1 (reg 0) n) (vv := mpi m1 G n); try (apply FI, RG; lia); try (by apply FI); try (apply RG; lia);
    try (apply apart_sym, RG; lia); try (apply regs_apart; lia); done || lia|].
  set (u := mpi m1 (reg 0) n) in *. set (v := mpi m1 G n) in *.
  intros [[oo oe] sw] m2 (F2 & Er & EU & EV). simplify_eq Er. intros -> -> ->.
  assert (frame gcd_touched m m2) as F02.
  { eapply frame_then; [exact F1|exact F2|done|]. intros j. unfold regs. rewrite !Exists_cons, Exists_nil.
    intros [H|[H|[H|[H|[H|[]]]]]]; try (eapply reg_touched; [| |exact H]; lia). by left. }
  assert ((mpi m2 (reg 0) n, mpi m2 G n) = gsteps (Z.to_nat (i + 1)) (av, Nv)) as E2.
  { replace (Z.to_nat (i + 1)) with (S (Z.to_nat i)) by lia. rewrite gsteps_snoc, <- E1, EU, EV. cbn [fst snd]. by destruct (gstep u v). }
  unfold gcd_inv. destruct pointer_cases as [EI|[q EI]]; rewrite EI in C1 |- *; [by apply runs_ret|].
  destruct C1 as [EN1 (Cq & Cr & Cu & Cv)]. assert (tn = 5 * n) as Etn by by rewrite EI.
  destruct (HI q EI) as (Fq & Tq & qG & qN & HN1). pose proof (frame_wf _ _ _ Wm F02) as W2.
  assert (forall p, fits m p n -> fits m2 p n) as FI2 by (intros; by eapply frame_fits).
  assert (apart G n N n) as GN' by (destruct GN as [[_ ?]|]; [congruence|done]).
  assert (forall k, 0 <= k <= 4 -> fits m (reg k) n /\ apart (reg k) n N n /\ apart (reg k) n q n /\ apart (reg k) n G n) as RN.
  { intros k Hk. assert (0 <= k * n /\ k * n + n <= tn) as [] by (rewrite Etn; nia).
    split_and!; [by eapply scratch_fits|by eapply scratch_apart..]. }
  assert (forall p, fits m p n -> apart (reg 0) n p n -> apart G n p n -> apart (reg 1) n p n -> apart (reg 2) n p n ->
    apart (reg 3) n p n -> mpi m2 p n = mpi m1 p n) as Keep2.
  { intros p Fp P0 PG P1 P2 P3. eapply frame_mpi; [exact F2|by apply FI|]. intros j Hj. unfold regs. rewrite !Exists_cons, Exists_nil.
    intros [H|[H|[H|[H|[H|[]]]]]]; [clear -H Hj P0|clear -H Hj PG|clear -H Hj P1|clear -H Hj P2|clear -H Hj P3]; regions. }
  assert (mpi m2 N n = Nv) as EN2 by (rewrite Keep2; try done; apply RN; lia).
  assert (mpi m2 q n = mpi m1 q n) as EQ2 by (apply Keep2; try done; try (apply RN; lia); by apply apart_sym).
  assert (mpi m2 (reg 4) n = mpi m1 (reg 4) n) as ER2
    by (apply Keep2; try (apply RN; lia); try (apply regs_apart; lia); apply apart_sym, RN; lia).
  eapply runs_mono; [apply (modinv_round_spec be m2 W2 n Hn q (reg 4) (reg 1) (reg 2) (reg 3) N) with
    (qv := mpi m1 q n) (rv := mpi m1 (reg 4) n) (Nv := Nv); try (apply FI2, RN; lia); try (by apply FI2); try (apply RN; lia);
    try (apply apart_sym, RN; lia); try (apply regs_apart; lia); done || lia|].
  intros [] m3 (F3 & ER & EQ).
  assert (forall p, fits m p n -> apart q n p n -> apart (reg 4) n p n -> apart (reg 1) n p n -> apart (reg 2) n p n ->
    apart (reg 3) n p n -> mpi m3 p n = mpi m2 p n) as Keep3.
  { intros p Fp P0 PG P1 P2 P3. eapply frame_mpi; [exact F3|by apply FI2|]. intros j Hj. unfold regs. rewrite !Exists_cons, Exists_nil.
    intros [H|[H|[H|[H|[H|[]]]]]]; [clear -H Hj P0|clear -H Hj PG|clear -H Hj P1|clear -H Hj P2|clear -H Hj P3]; regions. }
  assert (mpi m3 (reg 0) n = mpi m2 (reg 0) n) as EU3
    by (apply Keep3; try (apply RN; lia); try (apply regs_apart; lia); apply apart_sym, RN; lia).
  assert (mpi m3 G n = mpi m2 G n) as EV3 by (apply Keep3; try done; apply RN; lia).
  assert (mpi m3 N n = mpi m2 N n) as EN3 by (apply Keep3; try done; apply RN; lia).
  split; [|split; [by rewrite EU3, EV3|split; [by rewrite EN3|]]].
  - eapply frame_then; [exact F02|exact F3|done|]. intros j. unfold regs. rewrite !Exists_cons, Exists_nil.
    intros [H|[H|[H|[H|[H|[]]]]]]; try (eapply reg_touched; [| |exact H]; rewrite ?Etn; lia).
    right. right. by rewrite EI.
  - rewrite EU3, EV3, ER, EQ, EU, EV.
    destruct (cofactors_step av Nv u v (mpi m1 (reg 4) n) (mpi m1 q n) Hodd ltac:(done)) as (Rk & Rh & Dk & Dh).
    rewrite gstep_kept. cbv zeta. set (sw := _ <? _) in *. destruct sw; unfold cofactors; cbn [fst snd]; done.
Qed.

(** What is in memory before the first round. *)
Lemma gcd_start_spec (k : prog ()) Q : (forall m', gcd_inv 0 m' -> runs k m' Q) ->
  runs (memcpy (reg 0) A (u64 (al * ciL)) ;;
    memset (reg 0 + u64 (al * ciL)) 0 (u64 ((n - al) * ciL)) ;;
    (if negb (G =? N) then memcpy G N (u64 (n * ciL)) else mret tt) ;;
    match I with
    | Some q => memset q 0 (u64 (n * ciL)) ;; memset (reg 4) 0 (u64 (n * ciL)) ;; set (reg 4) 0 1
    | None => mret tt
    end ;; k) m Q.
Proof.
  intros Hk. pose proof Wm as [Bm _]. assert (4 * n <= tn) as Htn by (destruct I; lia).
  assert (fits m (reg 0) n) as F0 by (clear -FT Htn Hn; regions).
  apply (bind_memcpy m (reg 0) A al); [done|clear -F0 Hal; regions|done|clear -TA Htn Hal Hn; regions|]. intros m1 F1 E1.
  pose proof (frame_wf _ _ _ Wm F1) as W1. rewrite (u64_limbs m A al) by done.
  pose proof (frame_fits _ _ _ _ _ F1 F0) as F01.
  apply (bind_memset m1 (reg 0 + ciL * al) (n - al)); [done|clear -F01 Hal; regions|]. intros m2 F2 E2.
  assert (frame (inside (reg 0) n) m m2) as F02.
  { eapply frame_then; [exact F1|exact F2|..]; clear -Hal; intros j; regions. }
  assert (mpi m2 (reg 0) n = av) as EU.
  { pose proof (frame_fits _ _ _ _ _ F02 F0) as F02'. replace n with (al + (n - al)) at 2 by lia.
    rewrite mpi_add, E2, (frame_mpi _ _ _ _ _ F2), E1 by (try (clear -F01 F02' Hal; regions); clear; intros j; regions). lia. }
  clear E1 E2 F1 F2 W1 F01 m1.
  assert (apart (reg 0) n G n /\ apart (reg 0) n N n) as [A0G A0N] by (split; (eapply scratch_apart; [eassumption|lia..])).
  eapply (runs_bind _ _ _ (fun _ m3 => frame gcd_touched m m3 /\ mpi m3 (reg 0) n = av /\ mpi m3 G n = Nv /\
    (apart G n N n -> mpi m3 N n = Nv))).
  { assert (mpi m2 N n = Nv) as EN2 by (apply (frame_mpi _ _ _ _ _ F02); [done|clear -A0N; intros j; regions]).
    assert (frame gcd_touched m m2) as FT2 by (eapply frame_mono; [exact F02|]; intros j; apply reg_touched; lia).
    split_if.
    - assert (apart G n N n) as GN' by (destruct GN as [[? _]|]; [congruence|done]).
      apply (runs_memcpy m2); [by eapply frame_wf|by eapply frame_fits..|done|]. intros m3 F3 E3.
      split_and!; [eapply frame_then; [exact FT2|exact F3|done|by left]| |by rewrite E3|].
      + rewrite <- EU. apply (frame_mpi _ _ _ _ _ F3); [by eapply frame_fits|clear -A0G; intros j; regions].
      + intros _. rewrite <- EN2. apply (frame_mpi _ _ _ _ _ F3); [by eapply frame_fits|clear -GN'; intros j; regions].
    - apply runs_ret. split_and!; [done..| |done]. by replace G with N. }
  intros [] m3 (F3 & EU3 & EG3 & EN3). pose proof (frame_wf _ _ _ Wm F3) as W3. clear m2 F02 EU.
  apply (runs_bind _ _ _ (fun _ => gcd_inv 0)); [|intros _ m4; apply Hk].
  unfold gcd_inv. change (gsteps (Z.to_nat 0) (av, Nv)) with (av, Nv).
  destruct pointer_cases as [EI|[q EI]]; rewrite EI; [apply runs_ret; by rewrite EU3, EG3|].
  assert (tn = 5 * n) as Etn by by rewrite EI. destruct (HI q EI) as (Fq & Tq & qG & qN & HN1).
  assert (apart G n N n) as GN' by (destruct GN as [[_ ?]|]; [congruence|done]). specialize (EN3 GN').
  assert (fits m (reg 4) n) as F4 by (eapply scratch_fits; [exact FT|rewrite ?Etn; lia..]).
  assert (apart (reg 4) n G n /\ apart (reg 4) n N n /\ apart (reg 4) n q n /\ apart (reg 0) n q n) as (A4G & A4N & A4q & A0q).
  { split_and!; (eapply scratch_apart; [eassumption|rewrite ?Etn; lia..]). }
  pose proof (regs_apart 0 4 ltac:(lia) ltac:(lia) ltac:(lia)) as A04.
  apply (bind_memset m3 q n); [done|by eapply frame_fits|]. intros m4 G4 EQ4. pose proof (frame_wf _ _ _ W3 G4) as W4.
  assert (forall p, fits m p n -> fits m3 p n) as FI3 by (intros; by eapply frame_fits).
  assert (forall p, fits m p n -> fits m4 p n) as FI4 by (intros; eapply frame_fits; [exact G4|auto]).
  apply (bind_memset m4 (reg 4) n); [done|by apply FI4|]. intros m5 G5 ER5.
  assert (forall p, fits m p n -> fits m5 p n) as FI5 by (intros; eapply frame_fits; [exact G5|auto]).
  eapply (runs_push (reg 4) 0 1 n m5 m5); [by apply FI5|lia|by eapply frame_same, frame_bytes|].
  intros m6 G6 ER6. rewrite mpi_0 in ER6. change (0 + 1) with 1 in *. change (0 + base 0 * u64 1) with 1 in ER6.
  assert (frame (inside (reg 4) n) m4 m6) as G46.
  { eapply frame_then; [exact G5|exact G6|done|]. clear -Hn. intros j. regions. }
  assert (mpi m6 (reg 4) n = 1) as ER.
  { destruct (mpi_zero_above m5 (reg 4) 1 n ltac:(by eapply frame_bytes) ltac:(by apply FI5) ltac:(lia) ER5) as [_ Z0].
    pose proof (FI5 _ F4) as F45. pose proof (frame_fits _ _ _ _ _ G6 F45) as F46.
    rewrite mpi_cons, ER6, (frame_mpi _ _ _ _ _ G6), Z0 by (try (clear -F45 F46 Hn; regions); try (clear; intros j; regions); lia). lia. }
  assert (forall p, fits m p n -> apart q n p n -> apart (reg 4) n p n -> mpi m6 p n = mpi m3 p n) as Keep.
  { intros p Fp Pq P4. rewrite (frame_mpi _ _ _ _ _ G46) by (auto; clear -P4; intros j; regions).
    apply (frame_mpi _ _ _ _ _ G4); [auto|clear -Pq; intros j; regions]. }
  assert (mpi m6 q n = 0) as EQ.
  { rewrite <- EQ4. apply (frame_mpi _ _ _ _ _ G46); [auto|clear -A4q; intros j; regions]. }
  assert (mpi m6 (reg 0) n = av) as EU6 by (rewrite Keep; auto; apply apart_sym; done).
  assert (mpi m6 G n = Nv) as EG6 by (rewrite Keep; auto).
  assert (mpi m6 N n = Nv) as EN6 by (rewrite Keep; auto).
  split_and!; [|by rewrite EU6, EG6|done|].
  - assert (frame gcd_touched m m4) as F04.
    { eapply frame_then; [exact F3|exact G4|done|]. intros j Hj. right. right. by rewrite EI. }
    eapply frame_then; [exact F04|exact G46|done|]. intros j. apply reg_touched; rewrite ?Etn; lia.
  - rewrite EU6, EG6, ER, EQ. unfold cofactors. split_and!; try lia.
    + exists 0. lia.
    + exists 1. lia.
Qed.

Lemma gcd_modinv_spec :
  runs (mbedtls_mpi_core_gcd_modinv_odd be G I A al N n T) m (fun _ m' =>
    frame gcd_touched m m' /\ mpi m' G n = Z.gcd av Nv /\
    forall q, I = Some q -> 0 <= mpi m' q n < Nv /\ (av * mpi m' q n) mod Nv = Z.gcd av Nv mod Nv).
Proof.
  pose proof Wm as [Bm _]. pose proof (mpi_range m A al Bm FA) as RA. pose proof (mpi_range m N n Bm FN) as RN.
  unfold mbedtls_mpi_core_gcd_modinv_odd. replace (al >? n) with false by lia. cbv zeta.
  apply gcd_start_spec. intros m1 H1.
  eapply runs_mono; [apply (runs_up (fun i _ => gcd_inv i)); [unfold biL; lia|done|]|].
  { intros i [] m2 Hi H2. apply gcd_body_spec; [lia|done]. }
  intros [] m2 (H2 & E2 & C2).
  split; [done|]. replace (Z.to_nat ((al + n) * biL)) with (Z.to_nat (64 * al) + Z.to_nat (64 * n))%nat in E2 by (unfold biL; lia).
  unfold base, biL in *.
  rewrite gsteps_reach in E2 by (try done; try lia; unfold pw; rewrite Z2Nat.id by lia; lia). simplify_eq E2. intros EU EV. split; [done|].
  intros q EI. rewrite EI in C2. destruct C2 as (_ & Rq & _ & _ & Dq). split; [done|].
  rewrite EV in Dq. destruct Dq as [k Ek].
  replace (av * mpi m2 q n) with (Z.gcd av Nv + (- k) * Nv) by lia. apply Z_mod_plus_full.
Qed.

End gcd.

(** ** Theorem *)

(** What the header asks: an odd [N], [A] not larger and not longer, scratch memory of four
    or five times the length of [N] that is separate from all else.  [G] and [I] may be [A],
    and [G] may be [N] when no inverse is asked for. *)
Record gcd_args (m : mem) (G : Z) (I : option Z) (A al N n T : Z) : Prop := {
  ga_sizes : 1 <= n /\ 0 <= al <= n;
  ga_fits : fits m G n /\ fits m A al /\ fits m N n /\ fits m T (match I with Some _ => 5 * n | None => 4 * n end);
  ga_scratch : let tn := match I with Some _ => 5 * n | None => 4 * n end in
    apart T tn G n /\ apart T tn A al /\ apart T tn N n;
  ga_result : G = N /\ I = None \/ apart G n N n;
  ga_inverse : match I with
    | Some q => fits m q n /\ apart T (5 * n) q n /\ apart q n G n /\ apart q n N n /\ 1 < mpi m N n
    | None => True
    end;
  ga_odd : Z.odd (mpi m N n) = true;
  ga_le : mpi m A al <= mpi m N n;
}.

(** C21.  After its fixed number of rounds the function has the greatest common divisor of
    [A] and [N] in [G] and, when asked, in [I] a number below [N] that multiplied with [A]
    is the divisor modulo [N], so the inverse when there is one; only these and the scratch
    memory change. *)
Theorem gcd_modinv_correct be m G I A al N n T :
  wf m -> gcd_args m G I A al N n T ->
  runs (mbedtls_mpi_core_gcd_modinv_odd be G I A al N n T) m (fun _ m' =>
    frame (fun j => inside G n j \/ inside T (match I with Some _ => 5 * n | None => 4 * n end) j \/
      match I with Some q => inside q n j | None => False end) m m' /\
    mpi m' G n = Z.gcd (mpi m A al) (mpi m N n) /\
    forall q, I = Some q -> 0 <= mpi m' q n < mpi m N n /\
      (mpi m A al * mpi m' q n) mod mpi m N n = Z.gcd (mpi m A al) (mpi m N n) mod mpi m N n).
Proof.
  intros Wm [[Hn Hal] (FG & FA & FN & FT) (TG & TA & TN) GN HI Hodd HA].
  apply gcd_modinv_spec; try done. intros q ->. done.
Qed.

(** The inverse of 40 modulo 97. *)
Lemma gcd_modinv_correct_witness :
  let m := le_bytes 8 40 ++ le_bytes 8 97 ++ replicate 56 0 in
  runs (mbedtls_mpi_core_gcd_modinv_odd AArch64 16 (Some 0) 0 1 8 1 24) m (fun _ m' =>
    frame (fun j => inside 16 1 j \/ inside 24 (5 * 1) j \/ inside 0 1 j) m m' /\
    mpi m' 16 1 = Z.gcd (mpi m 0 1) (mpi m 8 1) /\
    forall q, Some 0 = Some q -> 0 <= mpi m' q 1 < mpi m 8 1 /\
      (mpi m 0 1 * mpi m' q 1) mod mpi m 8 1 = Z.gcd (mpi m 0 1) (mpi m 8 1) mod mpi m 8 1).
Proof.
  intros m. apply (gcd_modinv_correct AArch64 m 16 (Some 0) 0 1 8 1 24); [unfold m; concrete|].
  split; unfold m; [lia|split_and!; concrete|split_and!; concrete|right; concrete|split_and!; concrete|concrete|concrete].
Defined.
