(* ===== verification/BignumIO.v ===== *)
(** * Big-number core of mbedTLS: conversion and random numbers

    [mbedtls_mpi_core_read_le], [read_be], [write_le], [write_be], [fill_random] and
    [random] of [src/internal/mbedtls/bignum_core.c], on the little-endian memory of
    [LimbMem].  The theorems show that reading and writing are inverse, that a number is
    written when it fits and refused when it does not, and that a random number is the
    first draw in range. *)

From S2P Require Import Prelude Bytes ConstTime LimbMem BignumCore.

Definition MBEDTLS_ERR_MPI_BAD_INPUT_DATA : Z := -0x0004.
Definition MBEDTLS_ERR_MPI_BUFFER_TOO_SMALL : Z := -0x0008.
Definition MBEDTLS_ERR_MPI_NOT_ACCEPTABLE : Z := -0x000E.

(** ** Model *)

(** [MBEDTLS_BSWAP64], in the version of [alignment.h] without compiler support. *)
Definition MBEDTLS_BSWAP64 (x : Z) : Z :=
  Z.lor (u64 (Z.shiftl (Z.land x 0x00000000000000ff) 56))
  (Z.lor (u64 (Z.shiftl (Z.land x 0x000000000000ff00) 40))
  (Z.lor (u64 (Z.shiftl (Z.land x 0x0000000000ff0000) 24))
  (Z.lor (u64 (Z.shiftl (Z.land x 0x00000000ff000000) 8))
  (Z.lor (Z.shiftr (Z.land x 0x000000ff00000000) 8)
  (Z.lor (Z.shiftr (Z.land x 0x0000ff0000000000) 24)
  (Z.lor (Z.shiftr (Z.land x 0x00ff000000000000) 40)
         (Z.shiftr (Z.land x 0xff00000000000000) 56))))))).

Definition CHARS_TO_LIMBS (i : Z) : Z := i / ciL + Z.b2z (negb (i mod ciL =? 0)).

Definition GET_BYTE (X i : Z) : prog Z :=
  x ← get X (i / ciL);
  mret (Z.land (Z.shiftr x ((i mod ciL) * 8)) 0xff).

Definition mpi_bigendian_to_host (a : Z) : Z := MBEDTLS_BSWAP64 a.

Fixpoint bigendian_to_host_loop (fuel : nat) (cur_limb_left cur_limb_right : Z) : prog () :=
  match fuel with
  | O => fun _ => NoFuel
  | S fuel =>
      if cur_limb_left <=? cur_limb_right then
        l ← get cur_limb_left 0;
        let tmp := mpi_bigendian_to_host l in
        r ← get cur_limb_right 0;
        set cur_limb_left 0 (mpi_bigendian_to_host r) ;;
        set cur_limb_right 0 tmp ;;
        bigendian_to_host_loop fuel (cur_limb_left + ciL) (cur_limb_right - ciL)
      else mret tt
  end.

Definition mbedtls_mpi_core_bigendian_to_host (A A_limbs : Z) : prog () :=
  if A_limbs =? 0 then mret tt else
  bigendian_to_host_loop (S (Z.to_nat A_limbs)) A (A + ciL * (A_limbs - 1)).

(** [X] is [None] for the null pointer. *)
Definition mbedtls_mpi_core_read_le (X : option Z) (X_limbs input input_length : Z) : prog Z :=
  let limbs := CHARS_TO_LIMBS input_length in
  if X_limbs <? limbs then mret MBEDTLS_ERR_MPI_BUFFER_TOO_SMALL else
  match X with
  | Some X =>
      memset X 0 (u64 (X_limbs * ciL)) ;;
      for_up 0 input_length tt (fun i _ =>
        let offset := Z.shiftl (i mod ciL) 3 in
        b ← get_byte input i;
        x ← get X (i / ciL);
        set X (i / ciL) (Z.lor x (u64 (Z.shiftl b offset))))
  | None => mret tt
  end ;;
  mret 0.

Definition mbedtls_mpi_core_read_be (X X_limbs input input_length : Z) : prog Z :=
  let limbs := CHARS_TO_LIMBS input_length in
  if X_limbs <? limbs then mret MBEDTLS_ERR_MPI_BUFFER_TOO_SMALL else
  if X_limbs =? 0 then mret 0 else
  memset X 0 (u64 (X_limbs * ciL)) ;;
  (if negb (input_length =? 0) then
     let overhead := u64 (X_limbs * ciL) - input_length in
     let Xp := X in
     memcpy (Xp + overhead) input input_length
   else mret tt) ;;
  mbedtls_mpi_core_bigendian_to_host X X_limbs ;;
  mret 0.

(** The loop that looks for a byte that does not fit: whether it found one. *)
Fixpoint high_byte_loop (k : nat) (A i : Z) : prog bool :=
  match k with
  | O => mret false
  | S k =>
      b ← GET_BYTE A i;
      if negb (b =? 0) then mret true else high_byte_loop k A (i + 1)
  end.

Definition mbedtls_mpi_core_write_le (A A_limbs output output_length : Z) : prog Z :=
  let stored_bytes := u64 (A_limbs * ciL) in
  let bytes_to_copy := if stored_bytes <? output_length then stored_bytes else output_length in
  high ← (if stored_bytes <? output_length then mret false
          else high_byte_loop (Z.to_nat (stored_bytes - bytes_to_copy)) A bytes_to_copy);
  if high : bool then mret MBEDTLS_ERR_MPI_BUFFER_TOO_SMALL else
  for_up 0 bytes_to_copy tt (fun i _ => b ← GET_BYTE A i; set_byte output i b) ;;
  (if stored_bytes <? output_length
   then memset (output + stored_bytes) 0 (output_length - stored_bytes) else mret tt) ;;
  mret 0.

Definition mbedtls_mpi_core_write_be (X X_limbs output output_length : Z) : prog Z :=
  let stored_bytes := u64 (X_limbs * ciL) in
  let bytes_to_copy := if stored_bytes <? output_length then stored_bytes else output_length in
  let p := if stored_bytes <? output_length then output + output_length - stored_bytes else output in
  high ← (if stored_bytes <? output_length
          then memset output 0 (output_length - stored_bytes) ;; mret false
          else high_byte_loop (Z.to_nat (stored_bytes - bytes_to_copy)) X bytes_to_copy);
  if high : bool then mret MBEDTLS_ERR_MPI_BUFFER_TOO_SMALL else
  for_up 0 bytes_to_copy tt (fun i _ =>
    b ← GET_BYTE X i; set_byte p (bytes_to_copy - i - 1) b) ;;
  mret 0.

Section random.
Context (be : backend) (has_builtin_clz : bool).

(** The generator behind [f_rng]: the [k]-th call for [n] bytes gives a return value and
    what it leaves in the buffer. *)
Context (f_rng : nat -> Z -> Z * list Z).

Definition rng_call (k : nat) (p n : Z) : prog Z := fun m =>
  let '(ret, bytes) := f_rng k n in
  m ← store m p bytes;
  Done (ret, m).

Definition mbedtls_mpi_core_fill_random (k : nat) (X X_limbs n_bytes : Z) : prog Z :=
  let limbs := CHARS_TO_LIMBS n_bytes in
  let overhead := limbs * ciL - n_bytes in
  if X_limbs <? limbs then mret MBEDTLS_ERR_MPI_BAD_INPUT_DATA else
  memset X 0 overhead ;;
  memset (X + limbs * ciL) 0 ((X_limbs - limbs) * ciL) ;;
  ret ← rng_call k (X + overhead) n_bytes;
  if negb (ret =? 0) then mret ret else
  mbedtls_mpi_core_bigendian_to_host X limbs ;;
  mret ret.

(** [count] is one more than the tries that are left; [k] numbers the calls of [f_rng]. *)
Fixpoint random_loop (count : nat) (k : nat) (X min N limbs n_bits n_bytes : Z) : prog Z :=
  match count with
  | O => fun _ => NoFuel
  | S count =>
      ret ← mbedtls_mpi_core_fill_random k X limbs n_bytes;
      if negb (ret =? 0) then mret ret else
      mbedtls_mpi_core_shift_r X limbs (8 * n_bytes - n_bits) ;;
      if Nat.eqb count 0 then mret MBEDTLS_ERR_MPI_NOT_ACCEPTABLE else
      ge_lower ← mbedtls_mpi_core_uint_le_mpi be min X limbs;
      lt_upper ← mbedtls_mpi_core_lt_ct be X N limbs;
      if mbedtls_ct_bool_and ge_lower lt_upper =? 0
      then random_loop count (S k) X min N limbs n_bits n_bytes else mret ret
  end.

Definition mbedtls_mpi_core_random (X min N limbs : Z) : prog Z :=
  n_bits ← mbedtls_mpi_core_bitlen has_builtin_clz N limbs;
  let n_bytes := u64 (n_bits + 7) / 8 in
  let count := if n_bytes >? 4 then 30%nat else 250%nat in
  random_loop count 0 X min N limbs n_bits n_bytes.

End random.

(** ** Bytes of numbers *)

(** The bytes at an address, and their value with the most significant byte first. *)
Definition slice (m : mem) (p k : Z) : list Z := ztake k (zdrop p m).
Definition be_value (l : list Z) : Z := le (rev l).

Lemma slice_bytes m p k : is_bytes m -> is_bytes (slice m p k).
Proof. unfold slice. auto with zlist. Qed.

Lemma le_byte l i : is_bytes l -> (i < length l)%nat ->
  Z.land (Z.shiftr (le l) (8 * Z.of_nat i)) 255 = l !!! i.
Proof.
  intros Hl. revert i. induction Hl as [|b l Hb Hl IH]; intros i Hi; [simpl in Hi; lia|].
  cbn [le]. unfold is_byte in Hb. change 255 with (Z.ones 8). rewrite Z.land_ones by lia.
  destruct i as [|i].
  - change (8 * Z.of_nat 0) with 0. rewrite Z.shiftr_0_r, Z.mul_comm, Z_mod_plus_full, Z.mod_small by lia. done.
  - change ((b :: l) !!! S i) with (l !!! i). simpl in Hi. rewrite <- (IH i) by lia. change 255 with (Z.ones 8).
    rewrite Z.land_ones by lia. f_equal. replace (8 * Z.of_nat (S i)) with (8 + 8 * Z.of_nat i) by lia.
    rewrite <- Z.shiftr_shiftr by lia. f_equal. rewrite Z.shiftr_div_pow2, Z.mul_comm, Z.div_add, Z.div_small by lia. done.
Qed.

Lemma slice_lookup m p k i : 0 <= p -> p + k <= zlen m -> 0 <= i < k -> slice m p k !!! Z.to_nat i = m !!! Z.to_nat (p + i).
Proof.
  intros. unfold slice, ztake, zdrop. rewrite lookup_total_take_lt by lia. rewrite lookup_total_drop. f_equal. lia.
Qed.

Lemma GET_BYTE_spec m X n i : is_bytes m -> fits m X n -> 0 <= i < 8 * n -> GET_BYTE X i m = Done (m !!! Z.to_nat (X + i), m).
Proof.
  intros Bm F Hi. pose proof (Z.div_mod i 8 ltac:(lia)). pose proof (Z.mod_pos_bound i 8 ltac:(lia)).
  unfold GET_BYTE, mbind, prog_bind, get, ciL. rewrite load_Done by regions. rewrite bind_Done. cbn -[Z.div Z.modulo].
  unfold mret, prog_ret. do 2 f_equal. change (ztake 8 (zdrop (X + 8 * (i / 8)) m)) with (slice m (X + 8 * (i / 8)) 8).
  replace (i mod 8 * 8) with (8 * Z.of_nat (Z.to_nat (i mod 8))) by lia.
  rewrite le_byte; [|by apply slice_bytes|].
  - rewrite slice_lookup by regions. do 2 f_equal. lia.
  - unfold slice, ztake, zdrop, zlen in *. rewrite length_take, length_drop. unfold fits, ciL, zlen in F. lia.
Qed.

(** ** Swapping bytes *)

Lemma land_byte x k : 0 <= k -> Z.land x (Z.shiftl 255 k) = Z.shiftl ((x / 2 ^ k) mod 2 ^ 8) k.
Proof.
  intros Hk. rewrite <- Z.land_ones by lia. rewrite <- Z.shiftr_div_pow2 by lia.
  apply Z.bits_inj'. intros i Hi. rewrite Z.land_spec, !Z.shiftl_spec, Z.land_spec by lia.
  destruct (Z.lt_ge_cases i k).
  - rewrite !(Z.testbit_neg_r _ (i - k)) by lia. by rewrite !andb_false_r.
  - rewrite Z.shiftr_spec by lia. by replace (i - k + k) with i by lia.
Qed.

Lemma lor_add h r k : 0 <= k -> 0 <= r < 2 ^ k -> Z.lor (h * 2 ^ k) r = h * 2 ^ k + r.
Proof. intros. rewrite <- Z.shiftl_mul_pow2 by lia. rewrite lor_shiftl_add by lia. by rewrite Z.shiftl_mul_pow2 by lia. Qed.

Lemma bswap_spec x : word64 x -> MBEDTLS_BSWAP64 x = be_value (le_bytes 8 x).
Proof.
  intros Hx. unfold MBEDTLS_BSWAP64.
  change 0xff with (Z.shiftl 255 0). change 0xff00 with (Z.shiftl 255 8). change 0xff0000 with (Z.shiftl 255 16).
  change 0xff000000 with (Z.shiftl 255 24). change 0xff00000000 with (Z.shiftl 255 32).
  change 0xff0000000000 with (Z.shiftl 255 40). change 0xff000000000000 with (Z.shiftl 255 48).
  change 0xff00000000000000 with (Z.shiftl 255 56).
  rewrite !land_byte by lia. rewrite !Z.shiftl_shiftl by lia.
  cbv [be_value]. cbn [le_bytes rev app le].
  rewrite !Z.div_div by lia. rewrite <- !Z.pow_add_r by lia.
  change (8 + 8) with 16. change (8 + 16) with 24. change (8 + 24) with 32. change (8 + 32) with 40. change (8 + 40) with 48.
  change (8 + 48) with 56. change (16 + 8) with 24. change (24 + 8) with 32. change (32 + 8) with 40. change (40 + 8) with 48. change (48 + 8) with 56.
  rewrite Z.pow_0_r, Z.div_1_r.
  assert (forall y, 0 <= y mod 2 ^ 8 < 2 ^ 8) as R by (intros y; apply Z.mod_pos_bound; lia).
  pose proof (R x) as R0. pose proof (R (x / 2 ^ 8)) as R1. pose proof (R (x / 2 ^ 16)) as R2. pose proof (R (x / 2 ^ 24)) as R3.
  pose proof (R (x / 2 ^ 32)) as R4. pose proof (R (x / 2 ^ 40)) as R5. pose proof (R (x / 2 ^ 48)) as R6. pose proof (R (x / 2 ^ 56)) as R7.
  clear R.
  set (b0 := x mod 2 ^ 8) in *. set (b1 := (x / 2 ^ 8) mod 2 ^ 8) in *. set (b2 := (x / 2 ^ 16) mod 2 ^ 8) in *.
  set (b3 := (x / 2 ^ 24) mod 2 ^ 8) in *. set (b4 := (x / 2 ^ 32) mod 2 ^ 8) in *. set (b5 := (x / 2 ^ 40) mod 2 ^ 8) in *.
  set (b6 := (x / 2 ^ 48) mod 2 ^ 8) in *. set (b7 := (x / 2 ^ 56) mod 2 ^ 8) in *. clearbody b0 b1 b2 b3 b4 b5 b6 b7.
  rewrite !Z.shiftr_shiftl_l by lia. rewrite !Z.shiftl_mul_pow2 by lia. rewrite !u64_id by lia.
  change (48 - 40) with 8. change (40 - 24) with 16. change (32 - 8) with 24. change (56 - 56) with 0.
  change (24 + 8) with 32. change (16 + 24) with 40. change (8 + 40) with 48. change (0 + 56) with 56.
  rewrite (lor_add b6 _ 8) by lia. rewrite (lor_add b5 _ 16) by lia. rewrite (lor_add b4 _ 24) by lia.
  rewrite (lor_add b3 _ 32) by lia. rewrite (lor_add b2 _ 40) by lia. rewrite (lor_add b1 _ 48) by lia.
  rewrite (lor_add b0 _ 56) by lia. lia.
Qed.

(** ** Bytes of the most significant first *)

Section swap.
Context (m : mem) (Wm : wf m) (A n : Z) (FA : fits m A n).

Notation limb m' j := (mpi m' (A + ciL * j) 1).

Definition swapped (i : Z) (m' : mem) : Prop :=
  frame (inside A n) m m' /\
  forall j, 0 <= j < n -> limb m' j = if (j <? i) || (n - 1 - i <? j) then MBEDTLS_BSWAP64 (limb m (n - 1 - j)) else limb m j.

Lemma bswap_word x : word64 x -> word64 (MBEDTLS_BSWAP64 x).
Proof.
  intros Hx. rewrite bswap_spec by done. unfold be_value.
  pose proof (le_range (rev (le_bytes 8 x))) as R. unfold zlen in R. rewrite length_rev in R. apply R.
  apply Forall_rev, le_bytes_bytes.
Qed.

Lemma set_limb m1 i x (Q : () -> mem -> Prop) : 0 <= i < n -> frame (inside A n) m m1 -> word64 x ->
  (forall m2, frame (inside A n) m m2 -> (forall j, 0 <= j < n -> limb m2 j = if j =? i then x else limb m1 j) -> Q tt m2) ->
  runs (set (A + ciL * i) 0 x) m1 Q.
Proof.
  intros Hi F1 Hx H. pose proof (frame_fits _ _ _ _ _ F1 FA) as FA1.
  apply runs_set; [by eapply frame_bytes|clear -FA1 Hi; regions|]. intros m2 F2 E2. rewrite Z.mul_0_r, Z.add_0_r in F2, E2. apply H.
  - eapply frame_then; [exact F1|exact F2|done|]. clear -Hi. intros j. regions.
  - intros j Hj. destruct (Z.eqb_spec j i) as [->|Hne]; [by rewrite E2, u64_id|].
    eapply frame_mpi; [exact F2|clear -FA1 Hj; regions|clear -Hne; intros k; regions].
Qed.

Lemma bigendian_loop_spec fuel : forall i m1, (2 * i <= n + 1) -> 0 <= i -> n - i < Z.of_nat fuel -> swapped i m1 ->
  runs (bigendian_to_host_loop fuel (A + ciL * i) (A + ciL * (n - 1 - i))) m1 (fun _ m' =>
    frame (inside A n) m m' /\ forall j, 0 <= j < n -> limb m' j = MBEDTLS_BSWAP64 (limb m (n - 1 - j))).
Proof.
  pose proof Wm as [Bm _]. pose proof FA as (_ & Hn & _).
  assert (forall j, 0 <= j < n -> word64 (limb m j)) as WL by (intros j Hj; apply mpi_word; [done|clear -FA Hj; regions]).
  induction fuel as [|fuel IH]; intros i m1 Hi H0 Hf (F1 & E1); [lia|]. cbn [bigendian_to_host_loop].
  assert ((A + ciL * i <=? A + ciL * (n - 1 - i)) = (2 * i <=? n - 1)) as -> by (apply eq_true_iff_eq; unfold ciL; lia).
  pose proof (frame_fits _ _ _ _ _ F1 FA) as FA1. split_if.
  2: { apply runs_ret. split; [done|]. intros j Hj. rewrite E1 by done.
    by replace ((j <? i) || (n - 1 - i <? j)) with true by lia. }
  assert (forall j, 0 <= j < n -> get (A + ciL * j) 0 m1 = Done (limb m1 j, m1)) as Eg.
  { intros j Hj. unfold get. rewrite load_Done by (clear -FA1 Hj; regions). rewrite Z.mul_0_r, Z.add_0_r. done. }
  eapply (runs_bind _ _ _ (fun x m' => x = limb m1 i /\ m' = m1)); [eexists _, _; split; [apply Eg; lia|done]|]. intros ? ? [-> ->].
  eapply (runs_bind _ _ _ (fun x m' => x = limb m1 (n - 1 - i) /\ m' = m1)); [eexists _, _; split; [apply Eg; lia|done]|]. intros ? ? [-> ->].
  rewrite !E1 by lia. replace ((i <? i) || _) with false by lia. replace ((n - 1 - i <? i) || _) with false by lia.
  unfold mpi_bigendian_to_host.
  eapply (runs_bind _ _ _ (fun _ m2 => frame (inside A n) m m2 /\ forall j, 0 <= j < n ->
    limb m2 j = if j =? i then MBEDTLS_BSWAP64 (limb m (n - 1 - i)) else limb m1 j)).
  { apply set_limb; [lia|done|apply bswap_word, WL; lia|auto]. }
  intros _ m2 (F2 & E2).
  eapply (runs_bind _ _ _ (fun _ m3 => frame (inside A n) m m3 /\ forall j, 0 <= j < n ->
    limb m3 j = if j =? n - 1 - i then MBEDTLS_BSWAP64 (limb m i) else limb m2 j)).
  { apply set_limb; [lia|done|apply bswap_word, WL; lia|auto]. }
  intros _ m3 (F3 & E3). replace (A + ciL * i + ciL) with (A + ciL * (i + 1)) by lia.
  replace (A + ciL * (n - 1 - i) - ciL) with (A + ciL * (n - 1 - (i + 1))) by lia.
  apply IH; [lia..|]. split; [done|]. intros j Hj. rewrite E3, E2, E1 by done.
  destruct (Z.eqb_spec j (n - 1 - i)), (Z.eqb_spec j i).
  - replace ((j <? i + 1) || _) with true by lia. do 2 f_equal. lia.
  - replace ((j <? i + 1) || _) with true by lia. do 2 f_equal. lia.
  - replace ((j <? i + 1) || _) with true by lia. do 2 f_equal. lia.
  - replace ((j <? i + 1) || (n - 1 - (i + 1) <? j)) with ((j <? i) || (n - 1 - i <? j)) by lia. done.
Qed.

Lemma be_limbs m' : frame (inside A n) m m' ->
  (forall j, 0 <= j < n -> limb m' j = MBEDTLS_BSWAP64 (limb m (n - 1 - j))) ->
  mpi m' A n = be_value (slice m A (ciL * n)).
Proof.
  intros F E. pose proof Wm as [Bm _]. pose proof FA as (A0 & Hn & A1). pose proof (frame_fits _ _ _ _ _ F FA) as FA'.
  enough (forall k : nat, Z.of_nat k <= n -> mpi m' A (Z.of_nat k) = be_value (slice m (A + ciL * (n - Z.of_nat k)) (ciL * Z.of_nat k))) as K.
  { specialize (K (Z.to_nat n) ltac:(lia)). rewrite Z2Nat.id in K by lia. rewrite K. do 2 f_equal. lia. }
  induction k as [|k IH]; intros Hk; [done|]. replace (Z.of_nat (S k)) with (Z.of_nat k + 1) in * by lia. set (z := Z.of_nat k) in *.
  rewrite mpi_succ, IH, E by (try (clear -FA' Hk; regions); lia).
  replace (n - 1 - z) with (n - (z + 1)) by lia. set (p := A + ciL * (n - (z + 1))).
  rewrite bswap_spec by (apply mpi_word; [done|unfold p; clear -FA Hk; regions]).
  assert (slice m p (ciL * (z + 1)) = slice m p 8 ++ slice m (A + ciL * (n - z)) (ciL * z)) as ->.
  { unfold slice, p. replace (ciL * (z + 1)) with (8 + ciL * z) by (unfold ciL; lia). rewrite ztake_add by (unfold ciL in *; lia).
    rewrite zdrop_zdrop by (unfold ciL in *; lia). do 3 f_equal. unfold ciL. lia. }
  unfold be_value at 3. rewrite rev_app_distr, le_app. fold (be_value (slice m (A + ciL * (n - z)) (ciL * z))).
  assert (zlen (rev (slice m (A + ciL * (n - z)) (ciL * z))) = ciL * z) as Lz.
  { unfold zlen. rewrite length_rev. apply slice_len; unfold ciL in *; lia. }
  rewrite Lz. f_equal. unfold base, biL, ciL. replace (8 * (8 * z)) with (64 * z) by lia. f_equal.
  unfold be_value, mpi. do 2 f_equal. change (ciL * 1) with 8. fold (slice m p 8).
  assert (length (slice m p 8) = 8%nat) as L8.
  { pose proof (slice_len m p 8 ltac:(unfold p, ciL in *; lia) ltac:(lia) ltac:(unfold p, ciL in *; lia)) as L. unfold slice. unfold zlen in L. lia. }
  rewrite <- L8. by rewrite le_bytes_le by by apply slice_bytes.
Qed.

Lemma bigendian_to_host_spec :
  runs (mbedtls_mpi_core_bigendian_to_host A n) m (fun _ m' =>
    frame (inside A n) m m' /\ mpi m' A n = be_value (slice m A (ciL * n))).
Proof.
  pose proof Wm as [Bm _]. pose proof FA as (_ & Hn & _). unfold mbedtls_mpi_core_bigendian_to_host. split_if.
  { apply runs_ret. split; [by apply frame_same|]. by replace n with 0 by lia. }
  replace A with (A + ciL * 0) at 1 by lia. replace (n - 1) with (n - 1 - 0) by lia.
  eapply runs_mono; [apply (bigendian_loop_spec _ 0 m); [lia..|]|].
  - split; [by apply frame_same|]. intros j Hj. by replace ((j <? 0) || (n - 1 - 0 <? j)) with false by lia.
  - intros [] m' [F E]. split; [exact F|by apply be_limbs].
Qed.

End swap.

(** ** Byte regions *)

Definition fits_bytes (m : mem) (p k : Z) : Prop := 0 <= p /\ 0 <= k /\ p + k <= zlen m.
Definition inside_bytes (p k j : Z) : Prop := p <= j < p + k.
Definition apart_bytes (p k q l : Z) : Prop := p + k <= q \/ q + l <= p.

Ltac byte_regions := unfold fits_bytes, inside_bytes, apart_bytes in *; regions.

Lemma slice_zlen m p k : fits_bytes m p k -> zlen (slice m p k) = k.
Proof. intros (? & ? & ?). by apply slice_len. Qed.

Lemma slice_add m p a b : 0 <= p -> 0 <= a -> 0 <= b -> slice m p (a + b) = slice m p a ++ slice m (p + a) b.
Proof. intros. unfold slice. rewrite ztake_add, zdrop_zdrop by lia. done. Qed.

Lemma frame_slice_keep (P : Z -> Prop) m m' p k : frame P m m' -> fits_bytes m p k ->
  (forall j, inside_bytes p k j -> ~ P j) -> slice m' p k = slice m p k.
Proof. intros F (? & ? & ?) K. unfold slice. eapply frame_slice; [exact F|lia|lia|exact K]. Qed.

Lemma frame_fits_bytes (P : Z -> Prop) m m' p k : frame P m m' -> fits_bytes m p k -> fits_bytes m' p k.
Proof. intros F. unfold fits_bytes. by rewrite (frame_len _ _ _ F). Qed.

Lemma mpi_slice m p n : mpi m p n = le (slice m p (ciL * n)).
Proof. reflexivity. Qed.

Lemma bind_memset_bytes m p k {B} (f : () -> prog B) (Q : B -> mem -> Prop) :
  is_bytes m -> fits_bytes m p k ->
  (forall m', frame (inside_bytes p k) m m' -> slice m' p k = replicate (Z.to_nat k) 0 -> runs (f tt) m' Q) ->
  runs (memset p 0 k ≫= f) m Q.
Proof.
  intros Bm (H0 & Hk & H1) H. set (z := replicate (Z.to_nat k) (u8 0)).
  assert (zlen z = k) as Lz by (unfold z; rewrite zlen_replicate; lia).
  apply (runs_bind _ _ _ (fun _ m' => m' = splice m p z)); [by apply runs_memset_bytes|]. intros [] m' ->. apply H.
  - eapply frame_mono; [apply splice_frame; [done|by apply is_bytes_replicate, u8_byte|lia|lia]|]. intros j. rewrite Lz. done.
  - unfold slice. rewrite <- Lz at 1. by rewrite splice_read by lia.
Qed.

Lemma bind_memcpy_bytes m d s k {B} (f : () -> prog B) (Q : B -> mem -> Prop) :
  is_bytes m -> fits_bytes m d k -> fits_bytes m s k -> apart_bytes d k s k ->
  (forall m', frame (inside_bytes d k) m m' -> slice m' d k = slice m s k -> runs (f tt) m' Q) ->
  runs (memcpy d s k ≫= f) m Q.
Proof.
  intros Bm (D0 & Hk & D1) (S0 & _ & S1) Ha H. pose proof (slice_len m s k S0 Hk S1) as L.
  apply (runs_bind _ _ _ (fun _ m' => m' = splice m d (slice m s k))).
  { apply runs_memcpy_bytes; try lia; [destruct Ha; lia|done]. }
  intros [] m' ->. fold (slice m s k) in L. apply H.
  - eapply frame_mono; [apply splice_frame; [done|by apply slice_bytes|lia|lia]|]. intros j. rewrite L. done.
  - unfold slice at 1. rewrite <- L at 1. by rewrite splice_read by lia.
Qed.

Lemma runs_set_byte m p i x (Q : () -> mem -> Prop) :
  is_bytes m -> is_byte x -> fits_bytes m (p + i) 1 ->
  (forall m', frame (inside_bytes (p + i) 1) m m' -> slice m' (p + i) 1 = [x] -> Q tt m') -> runs (set_byte p i x) m Q.
Proof.
  intros Bm Hx (H0 & _ & H1) H. exists tt, (splice m (p + i) [x]). split.
  - unfold set_byte. rewrite u8_id by done. by rewrite store_splice by (rewrite ?zlen_singleton; lia).
  - apply H.
    + eapply frame_mono; [apply splice_frame; [done|by repeat constructor; apply Hx|lia|done]|]. done.
    + unfold slice. change 1 with (zlen [x]) at 1. by rewrite splice_read by (rewrite ?zlen_singleton; lia).
Qed.

Lemma le_app_zeros l k : le (l ++ replicate k 0) = le l.
Proof. rewrite le_app, le_zeros. lia. Qed.

Lemma be_zeros_app l k : be_value (replicate k 0 ++ l) = be_value l.
Proof. unfold be_value. rewrite rev_app_distr, (rev_alt (replicate k 0)). change (rev_append (replicate k 0) []) with (reverse (replicate k 0)). rewrite reverse_replicate. apply le_app_zeros. Qed.

Lemma CHARS_TO_LIMBS_le k n : 0 <= k -> (CHARS_TO_LIMBS k <= n <-> k <= ciL * n).
Proof.
  intros Hk. unfold CHARS_TO_LIMBS, ciL. pose proof (Z.div_mod k 8 ltac:(lia)). pose proof (Z.mod_pos_bound k 8 ltac:(lia)).
  destruct (Z.eqb_spec (k mod 8) 0); cbn [negb Z.b2z]; lia.
Qed.

(** ** Reading *)

Lemma read_be_spec m X n input k :
  wf m -> fits m X n -> fits_bytes m input k -> apart_bytes X (ciL * n) input k ->
  runs (mbedtls_mpi_core_read_be X n input k) m (fun ret m' =>
    if k <=? ciL * n then ret = 0 /\ frame (inside X n) m m' /\ mpi m' X n = be_value (slice m input k)
    else ret = MBEDTLS_ERR_MPI_BUFFER_TOO_SMALL /\ m' = m).
Proof.
  intros Wm FX Fi Ha. pose proof Wm as [Bm _]. pose proof Fi as (_ & Hk & _). pose proof FX as (_ & Hn & _).
  pose proof (CHARS_TO_LIMBS_le k n Hk) as HC. unfold mbedtls_mpi_core_read_be.
  destruct (n <? CHARS_TO_LIMBS k) eqn:Hs; bool_to_prop.
  { apply runs_ret. replace (k <=? ciL * n) with false by lia. done. }
  replace (k <=? ciL * n) with true by lia. destruct (n =? 0) eqn:Hz; bool_to_prop.
  { apply runs_ret. split_and!; [done|by apply frame_same|]. subst n. unfold ciL in HC. by replace k with 0 by lia. }
  rewrite (u64_limbs m X n) by done.
  apply bind_memset_bytes; [done|unfold ciL in *; byte_regions|]. intros m1 F1 E1.
  assert (frame (inside X n) m m1) as F1' by done.
  apply (runs_bind _ _ _ (fun _ m2 => frame (inside X n) m m2 /\ slice m2 X (ciL * n) = replicate (Z.to_nat (ciL * n - k)) 0 ++ slice m input k)).
  { pose proof (frame_bytes _ _ _ F1) as B1. pose proof (frame_fits_bytes _ _ _ _ _ F1 Fi) as Fi1.
    pose proof (frame_fits _ _ _ _ _ F1 FX) as FX1. split_if.
    - apply runs_bind_ret. apply bind_memcpy_bytes; [done|clear -FX1 HC Hs Hk Hn; byte_regions|done|clear -Ha HC Hs Hk Hn; byte_regions|].
      intros m2 F2 E2. apply runs_ret. split; [eapply frame_then; [exact F1|exact F2|done|clear -HC Hs Hk Hn; intros j; byte_regions]|].
      replace (ciL * n) with (ciL * n - k + k) at 1 by lia. pose proof FX as (X0 & _ & _). rewrite slice_add by (unfold ciL in *; lia).
      replace (X + (ciL * n - k)) with (X + (ciL * n - k)) by lia. rewrite E2. f_equal.
      + rewrite (frame_slice_keep _ _ _ _ _ F2) by (try (clear -FX1 HC Hs Hk Hn; byte_regions); clear; intros j; byte_regions).
        rewrite <- (ztake_all (ciL * n) (replicate (Z.to_nat (ciL * n - k)) 0)) by (rewrite zlen_replicate; unfold ciL in *; lia).
        unfold slice in E1 |- *. rewrite <- (ztake_ztake (ciL * n - k) (ciL * n)), E1 by lia.
        unfold ztake. rewrite take_replicate. rewrite take_ge by (rewrite length_replicate; unfold ciL in *; lia). f_equal. unfold ciL in *; lia.
      + apply (frame_slice_keep _ _ _ _ _ F1); [done|clear -Ha; intros j; byte_regions].
    - apply runs_ret. split; [done|]. assert (k = 0) as -> by lia. rewrite E1, Z.sub_0_r. by rewrite app_nil_r. }
  intros [] m2 (F2 & E2).
  eapply runs_bind; [apply (bigendian_to_host_spec m2); [by eapply frame_wf|by eapply frame_fits]|]. intros [] m3 (F3 & E3).
  apply runs_ret. split_and!; [done|by eapply frame_seq|]. rewrite E3, E2. apply be_zeros_app.
Qed.

Lemma get_byte_spec m p i : fits_bytes m p (i + 1) -> 0 <= i -> get_byte p i m = Done (m !!! Z.to_nat (p + i), m).
Proof. intros F Hi. unfold get_byte. rewrite load8_Done by byte_regions. done. Qed.

Lemma slice_1 m p : fits_bytes m p 1 -> slice m p 1 = [m !!! Z.to_nat p].
Proof.
  intros F. pose proof (slice_zlen m p 1 F) as L. destruct (slice m p 1) as [|x [|]] eqn:E; unfold zlen in L; simpl in L; try lia.
  f_equal. pose proof (slice_lookup m p 1 0) as K. rewrite E, Z.add_0_r in K. apply K; byte_regions.
Qed.

Lemma slice_snoc m p i : fits_bytes m p (i + 1) -> 0 <= i -> slice m p (i + 1) = slice m p i ++ [m !!! Z.to_nat (p + i)].
Proof. intros F Hi. rewrite slice_add by byte_regions. rewrite (slice_1 m (p + i)) by byte_regions. done. Qed.

Lemma mem_byte_at m j : is_bytes m -> 0 <= j < zlen m -> is_byte (m !!! Z.to_nat j).
Proof. intros Bm Hj. unfold zlen in Hj. apply (Forall_lookup_1 is_byte m (Z.to_nat j)); [done|]. apply list_lookup_lookup_total_lt. lia. Qed.

Lemma read_le_spec m X n input k :
  wf m -> fits m X n -> fits_bytes m input k -> apart_bytes X (ciL * n) input k ->
  runs (mbedtls_mpi_core_read_le (Some X) n input k) m (fun ret m' =>
    if k <=? ciL * n then ret = 0 /\ frame (inside X n) m m' /\ mpi m' X n = le (slice m input k)
    else ret = MBEDTLS_ERR_MPI_BUFFER_TOO_SMALL /\ m' = m).
Proof.
  intros Wm FX Fi Ha. pose proof Wm as [Bm _]. pose proof Fi as (I0 & Hk & I1). pose proof FX as (_ & Hn & _).
  pose proof (CHARS_TO_LIMBS_le k n Hk) as HC. unfold mbedtls_mpi_core_read_le.
  destruct (n <? CHARS_TO_LIMBS k) eqn:Hs; bool_to_prop.
  { apply runs_ret. replace (k <=? ciL * n) with false by lia. done. }
  replace (k <=? ciL * n) with true by lia. assert (k <= ciL * n) as Hkn by lia. clear HC Hs.
  apply (runs_bind _ _ _ (fun _ m' => frame (inside X n) m m' /\ mpi m' X n = le (slice m input k))).
  2: { intros _ m' [F E]. by apply runs_ret. }
  apply (bind_memset m X n); [done..|]. intros m0 F0 E0.
  apply (runs_up (fun i _ m' => frame (inside X n) m m' /\ mpi m' X n = le (slice m input i))); [done|done|].
  intros i [] m1 Hi (F1 & E1). pose proof (frame_wf _ _ _ Wm F1) as W1. pose proof (frame_fits _ _ _ _ _ F1 FX) as FX1.
  pose proof (frame_fits_bytes _ _ _ _ _ F1 Fi) as Fi1.
  set (q := i / ciL). set (r := i mod ciL). pose proof (Z.div_mod i 8 ltac:(lia)) as D. pose proof (Z.mod_pos_bound i 8 ltac:(lia)) as R.
  fold ciL in D, R. fold q r in D, R. assert (0 <= q < n) as Hq by (unfold ciL in *; lia).
  assert (m1 !!! Z.to_nat (input + i) = m !!! Z.to_nat (input + i)) as Eb.
  { pose proof (frame_slice_keep _ _ _ (input + i) 1 F1 ltac:(clear -Fi Hi; byte_regions) ltac:(clear -Ha Hi; intros j; byte_regions)) as S1.
    rewrite !slice_1 in S1 by (clear -Fi Fi1 Hi; byte_regions). by simplify_eq S1. }
  eapply (runs_bind _ _ _ (fun b m' => b = m !!! Z.to_nat (input + i) /\ m' = m1)).
  { eexists _, _. split; [apply get_byte_spec; clear -Fi1 Hi; byte_regions|by rewrite Eb]. }
  intros b m' [Hb ->]. pose proof (mem_byte_at m (input + i) Bm ltac:(lia)) as Rb. rewrite <- Hb in Rb. unfold is_byte in Rb.
  eapply (bind_read (fun _ => False) X q n m1); [apply frame_same, W1|done|done|naive_solver|].
  apply runs_set; [apply W1|clear -FX1 Hq; regions|]. intros m2 F2 E2. pose proof (frame_fits _ _ _ _ _ F2 FX1) as FX2.
  split; [eapply frame_then; [exact F1|exact F2|done|clear -Hq; intros j; regions]|].
  pose proof (mpi_split m1 X q n FX1 Hq) as S1. pose proof (mpi_split m2 X q n FX2 Hq) as S2.
  rewrite E2, (frame_mpi _ _ _ X q F2), (frame_mpi _ _ _ (X + ciL * (q + 1)) (n - q - 1) F2) in S2
    by (try (clear -FX1 Hq; regions); clear; intros j; regions).
  pose proof (le_range (slice m input i) ltac:(by apply slice_bytes)) as Rl. rewrite (slice_zlen m input i) in Rl by (clear -Fi Hi; byte_regions).
  rewrite <- E1 in Rl.
  pose proof (mpi_range m1 X q (proj1 W1) ltac:(clear -FX1 Hq; regions)) as R0.
  pose proof (mpi_range m1 (X + ciL * (q + 1)) (n - q - 1) (proj1 W1) ltac:(clear -FX1 Hq; regions)) as R2.
  pose proof (mpi_word m1 (X + ciL * q) (proj1 W1) ltac:(clear -FX1 Hq; regions)) as R1.
  pose proof (base_gt0 q ltac:(lia)) as Hbq. pose proof (base_gt0 (q + 1) ltac:(lia)) as Hbq1.
  assert (2 ^ (8 * i) = base q * 2 ^ (8 * r)) as Ep by (unfold base, biL, ciL in *; rewrite <- Z.pow_add_r by lia; f_equal; lia).
  set (x := mpi m1 (X + ciL * q) 1) in *. set (lo := mpi m1 X q) in *. set (hi := mpi m1 (X + ciL * (q + 1)) (n - q - 1)) in *.
  assert (x < 2 ^ (8 * r)) as Hx by (rewrite Ep in Rl; clear -Rl S1 R0 R2 Hbq Hbq1; nia).
  assert (0 < 2 ^ (8 * r) /\ 2 ^ (8 * r) * 256 <= 2 ^ 64) as [Hp Hp2].
  { split; [apply Z.pow_pos_nonneg; unfold ciL in *; lia|]. change 256 with (2 ^ 8). rewrite <- Z.pow_add_r by (unfold ciL in *; lia).
    apply Z.pow_le_mono_r; unfold ciL in *; lia. }
  assert (Z.lor x (u64 (Z.shiftl b (Z.shiftl r 3))) = b * 2 ^ (8 * r) + x) as Elor.
  { rewrite (Z.shiftl_mul_pow2 r 3) by lia. replace (r * 2 ^ 3) with (8 * r) by lia. rewrite Z.shiftl_mul_pow2 by lia.
    rewrite u64_id by (clear -Hp Hp2 Rb; nia). rewrite Z.lor_comm. apply lor_add; lia. }
  rewrite Elor, u64_id in S2 by (clear -Hp Hp2 Rb Hx R1; nia).
  rewrite (slice_snoc m input i) by (clear -Fi Hi; byte_regions). rewrite le_app, (slice_zlen m input i) by (clear -Fi Hi; byte_regions).
  cbn [le]. rewrite <- Hb, <- E1, S2, S1, Ep. lia.
Qed.

(** ** Writing *)

Lemma high_byte_spec m A n k : forall i, is_bytes m -> fits m A n -> 0 <= i -> i + Z.of_nat k = ciL * n ->
  high_byte_loop k A i m = Done (negb (le (slice m (A + i) (Z.of_nat k)) =? 0), m).
Proof.
  induction k as [|k IH]; intros i Bm FA Hi Hk; [done|]. cbn [high_byte_loop]. unfold mbind, prog_bind.
  rewrite (GET_BYTE_spec m A n) by (try done; unfold ciL in *; lia). rewrite bind_Done.
  replace (Z.of_nat (S k)) with (1 + Z.of_nat k) by lia. pose proof FA as (A0 & _ & A1).
  rewrite slice_add, le_app by lia. rewrite slice_1 by (clear -A0 A1 Hi Hk; byte_regions). cbn [le]. change (zlen [_]) with 1.
  pose proof (mem_byte_at m (A + i) Bm ltac:(unfold ciL in *; lia)) as Rb. unfold is_byte in Rb.
  pose proof (le_range (slice m (A + i + 1) (Z.of_nat k)) ltac:(by apply slice_bytes)) as Rl.
  destruct (m !!! Z.to_nat (A + i) =? 0) eqn:Eb; bool_to_prop; cbn [negb].
  - rewrite IH by (try done; lia). rewrite Eb, Z.add_assoc.
    set (y := le (slice m (A + i + 1) _)) in *. enough ((y =? 0) = (0 + 2 ^ 8 * 0 + 2 ^ (8 * 1) * y =? 0)) as -> by done.
    clearbody y. apply eq_true_iff_eq. rewrite !Z.eqb_eq. change (2 ^ (8 * 1)) with 256. lia.
  - unfold mret, prog_ret. do 2 f_equal. change (2 ^ (8 * 1)) with 256. symmetry. apply negb_true_iff, Z.eqb_neq. lia.
Qed.

Lemma copy_up_spec m A n out k :
  wf m -> fits m A n -> 0 <= k <= ciL * n -> fits_bytes m out k -> apart_bytes out k A (ciL * n) ->
  runs (for_up 0 k tt (fun i _ => b ← GET_BYTE A i; set_byte out i b)) m (fun _ m' =>
    frame (inside_bytes out k) m m' /\ slice m' out k = slice m A k).
Proof.
  intros Wm FA Hk Fo Ha. pose proof Wm as [Bm _]. pose proof FA as (A0 & _ & A1).
  apply (runs_up (fun i _ m' => frame (inside_bytes out i) m m' /\ slice m' out i = slice m A i)); [lia|split; [by apply frame_same|done]|].
  intros i [] m1 Hi (F1 & E1). pose proof (frame_bytes _ _ _ F1) as B1. pose proof (frame_fits _ _ _ _ _ F1 FA) as FA1.
  pose proof (frame_fits_bytes _ _ _ _ _ F1 Fo) as Fo1.
  eapply (runs_bind _ _ _ (fun b m' => b = m1 !!! Z.to_nat (A + i) /\ m' = m1)).
  { eexists _, _. split; [by apply (GET_BYTE_spec m1 A n); [..|unfold ciL in *; lia]|done]. }
  intros b m' [-> ->].
  assert (m1 !!! Z.to_nat (A + i) = m !!! Z.to_nat (A + i)) as ->.
  { pose proof (frame_slice_keep _ _ _ (A + i) 1 F1 ltac:(clear -A0 A1 Hk Hi; byte_regions) ltac:(clear -Ha Hi Hk; intros j; byte_regions)) as S1.
    rewrite !slice_1 in S1 by (pose proof (frame_len _ _ _ F1); clear -A0 A1 Hk Hi H; byte_regions). by simplify_eq S1. }
  apply runs_set_byte; [done|apply mem_byte_at; [done|unfold ciL in *; lia]|clear -Fo1 Hi; byte_regions|]. intros m2 F2 E2.
  split; [eapply frame_then; [exact F1|exact F2|..]; clear -Hi; intros j; byte_regions|].
  pose proof Fo as (O0 & _ & _). rewrite (slice_add m2 out i 1), E2 by lia.
  rewrite (frame_slice_keep _ _ _ _ _ F2), E1 by (try (clear -Fo1 Hi; byte_regions); clear; intros j; byte_regions).
  symmetry. apply slice_snoc; [clear -A0 A1 Hk Hi; byte_regions|lia].
Qed.

Lemma mpi_high m A n k : fits m A n -> 0 <= k <= ciL * n ->
  mpi m A n = le (slice m A k) + 2 ^ (8 * k) * le (slice m (A + k) (ciL * n - k)).
Proof.
  intros FA Hk. pose proof FA as (A0 & _ & A1). rewrite mpi_slice. replace (ciL * n) with (k + (ciL * n - k)) at 1 by lia.
  rewrite slice_add, le_app, slice_zlen by (try lia; clear -A0 A1 Hk; byte_regions). done.
Qed.

Lemma write_le_spec m A n out k :
  wf m -> fits m A n -> fits_bytes m out k -> apart_bytes out k A (ciL * n) ->
  runs (mbedtls_mpi_core_write_le A n out k) m (fun ret m' =>
    if mpi m A n <? 2 ^ (8 * k) then ret = 0 /\ frame (inside_bytes out k) m m' /\ le (slice m' out k) = mpi m A n
    else ret = MBEDTLS_ERR_MPI_BUFFER_TOO_SMALL /\ m' = m).
Proof.
  intros Wm FA Fo Ha. pose proof Wm as [Bm _]. pose proof Fo as (O0 & Hk & O1). pose proof FA as (A0 & Hn & A1).
  unfold mbedtls_mpi_core_write_le. rewrite (u64_limbs m A n) by done. pose proof (mpi_range m A n Bm FA) as RA.
  destruct (ciL * n <? k) eqn:Hs; bool_to_prop.
  - replace (mpi m A n <? 2 ^ (8 * k)) with true.
    2: { symmetry. apply Z.ltb_lt. eapply Z.lt_le_trans; [apply RA|]. unfold base, biL, ciL in *. apply Z.pow_le_mono_r; lia. }
    eapply (runs_bind _ _ _ (fun h m' => h = false /\ m' = m)); [by apply runs_ret|]. intros h m' [-> ->]. cbv beta iota.
    eapply runs_bind; [apply (copy_up_spec m A n out (ciL * n)); [done|done|unfold ciL in *; lia|clear -Fo Hs Hn; byte_regions|clear -Ha Hs; byte_regions]|].
    intros [] m1 (F1 & E1). pose proof (frame_fits_bytes _ _ _ _ _ F1 Fo) as Fo1.
    apply (runs_bind _ _ _ (fun _ m2 => frame (inside_bytes out k) m m2 /\ le (slice m2 out k) = mpi m A n)).
    2: { intros [] m2 [F2 E2]. by apply runs_ret. }
    apply runs_bind_ret. apply bind_memset_bytes; [by eapply frame_bytes|clear -Fo1 Hs Hn; unfold ciL in *; byte_regions|]. intros m2 F2 E2.
    apply runs_ret. split; [eapply frame_then; [exact F1|exact F2|..]; clear -Hs Hn; unfold ciL in *; intros j; byte_regions|].
    replace k with (ciL * n + (k - ciL * n)) by lia. rewrite slice_add, E2 by (unfold ciL in *; lia).
    rewrite (frame_slice_keep _ _ _ _ _ F2), E1 by (try (clear -Fo1 Hs Hn; unfold ciL in *; byte_regions); clear; intros j; byte_regions).
    apply le_app_zeros.
  - eapply (runs_bind _ _ _ (fun h m' => h = negb (le (slice m (A + k) (ciL * n - k)) =? 0) /\ m' = m)).
    { eexists _, _. split; [apply (high_byte_spec m A n); [done|done|lia|lia]|]. by rewrite Z2Nat.id by lia. }
    intros h m' [-> ->]. rewrite (mpi_high m A n k) by (done || lia).
    pose proof (le_range (slice m A k) ltac:(by apply slice_bytes)) as R1. rewrite slice_zlen in R1 by (clear -A0 A1 Hs Hk; byte_regions).
    pose proof (le_range (slice m (A + k) (ciL * n - k)) ltac:(by apply slice_bytes)) as R2.
    set (y := le (slice m (A + k) (ciL * n - k))) in *. destruct (y =? 0) eqn:Ey; bool_to_prop; cbn [negb].
    + rewrite Ey, Z.mul_0_r, Z.add_0_r. replace (_ <? 2 ^ (8 * k)) with true by lia.
      eapply runs_bind; [apply (copy_up_spec m A n out k); [done|done|lia|done|done]|]. intros [] m1 (F1 & E1).
      eapply (runs_bind _ _ _ (fun _ m2 => m2 = m1)); [by apply runs_ret|]. intros [] m2 ->. apply runs_ret. by rewrite E1.
    + apply runs_ret. replace (_ <? 2 ^ (8 * k)) with false; [done|]. symmetry. apply Z.ltb_ge. clear -R1 R2 Ey. nia.
Qed.

Lemma copy_down_spec m A n p k :
  wf m -> fits m A n -> 0 <= k <= ciL * n -> fits_bytes m p k -> apart_bytes p k A (ciL * n) ->
  runs (for_up 0 k tt (fun i _ => b ← GET_BYTE A i; set_byte p (k - i - 1) b)) m (fun _ m' =>
    frame (inside_bytes p k) m m' /\ slice m' p k = rev (slice m A k)).
Proof.
  intros Wm FA Hk Fo Ha. pose proof Wm as [Bm _]. pose proof FA as (A0 & _ & A1).
  eapply runs_mono; [apply (runs_up (fun i _ m' => frame (inside_bytes (p + (k - i)) i) m m' /\
    slice m' (p + (k - i)) i = rev (slice m A i))); [lia|split; [by apply frame_same|done]|]|].
  2: { intros [] m' [F E]. rewrite Z.sub_diag, Z.add_0_r in *. done. }
  intros i [] m1 Hi (F1 & E1). pose proof (frame_bytes _ _ _ F1) as B1. pose proof (frame_fits _ _ _ _ _ F1 FA) as FA1.
  pose proof (frame_fits_bytes _ _ _ _ _ F1 Fo) as Fo1.
  eapply (runs_bind _ _ _ (fun b m' => b = m1 !!! Z.to_nat (A + i) /\ m' = m1)).
  { eexists _, _. split; [by apply (GET_BYTE_spec m1 A n); [..|unfold ciL in *; lia]|done]. }
  intros b m' [-> ->].
  assert (m1 !!! Z.to_nat (A + i) = m !!! Z.to_nat (A + i)) as ->.
  { pose proof (frame_slice_keep _ _ _ (A + i) 1 F1 ltac:(clear -A0 A1 Hk Hi; byte_regions) ltac:(clear -Ha Hi Hk; intros j; byte_regions)) as S1.
    rewrite !slice_1 in S1 by (pose proof (frame_len _ _ _ F1); clear -A0 A1 Hk Hi H; byte_regions). by simplify_eq S1. }
  apply runs_set_byte; [done|apply mem_byte_at; [done|unfold ciL in *; lia]|clear -Fo1 Hi; byte_regions|]. intros m2 F2 E2.
  split; [eapply frame_then; [exact F1|exact F2|..]; clear -Hi; intros j; byte_regions|].
  pose proof Fo as (O0 & _ & _). replace (p + (k - (i + 1))) with (p + (k - i - 1)) by lia.
  rewrite (Z.add_comm i 1), slice_add, E2 by lia. replace (p + (k - i - 1) + 1) with (p + (k - i)) by lia.
  rewrite (frame_slice_keep _ _ _ _ _ F2), E1 by (try (clear -Fo1 Hi; byte_regions); clear; intros j; byte_regions).
  rewrite (Z.add_comm 1 i), (slice_snoc m A i), rev_app_distr by (try lia; clear -A0 A1 Hk Hi; byte_regions). done.
Qed.

Lemma be_value_rev l : be_value (rev l) = le l.
Proof. unfold be_value. by rewrite rev_involutive. Qed.

Lemma write_be_spec m A n out k :
  wf m -> fits m A n -> fits_bytes m out k -> apart_bytes out k A (ciL * n) ->
  runs (mbedtls_mpi_core_write_be A n out k) m (fun ret m' =>
    if mpi m A n <? 2 ^ (8 * k) then ret = 0 /\ frame (inside_bytes out k) m m' /\ be_value (slice m' out k) = mpi m A n
    else ret = MBEDTLS_ERR_MPI_BUFFER_TOO_SMALL /\ m' = m).
Proof.
  intros Wm FA Fo Ha. pose proof Wm as [Bm _]. pose proof Fo as (O0 & Hk & O1). pose proof FA as (A0 & Hn & A1).
  unfold mbedtls_mpi_core_write_be. rewrite (u64_limbs m A n) by done. pose proof (mpi_range m A n Bm FA) as RA.
  destruct (ciL * n <? k) eqn:Hs; bool_to_prop.
  - replace (mpi m A n <? 2 ^ (8 * k)) with true.
    2: { symmetry. apply Z.ltb_lt. eapply Z.lt_le_trans; [apply RA|]. unfold base, biL, ciL in *. apply Z.pow_le_mono_r; lia. }
    eapply (runs_bind _ _ _ (fun h m1 => h = false /\ frame (inside_bytes out (k - ciL * n)) m m1 /\
      slice m1 out (k - ciL * n) = replicate (Z.to_nat (k - ciL * n)) 0)).
    { apply bind_memset_bytes; [done|clear -Fo Hs Hn; byte_regions|]. intros m1 F1 E1. by apply runs_ret. }
    intros h m1 (-> & F1 & E1). cbv beta iota. pose proof (frame_fits_bytes _ _ _ _ _ F1 Fo) as Fo1.
    replace (out + k - ciL * n) with (out + (k - ciL * n)) by lia.
    eapply runs_bind; [apply (copy_down_spec m1 A n (out + (k - ciL * n)) (ciL * n));
      [by eapply frame_wf|by eapply frame_fits|unfold ciL in *; lia|clear -Fo1 Hs Hn; byte_regions|clear -Ha Hs Hn; byte_regions]|].
    intros [] m2 (F2 & E2). apply runs_ret. split_and!; [done|eapply frame_then; [exact F1|exact F2|..]; clear -Hs Hn; intros j; byte_regions|].
    replace k with (k - ciL * n + ciL * n) at 1 by lia. rewrite slice_add, E2 by (unfold ciL in *; lia).
    rewrite (frame_slice_keep _ _ _ _ _ F2), E1 by (try (clear -Fo1 Hs Hn; byte_regions); clear; intros j; byte_regions).
    rewrite be_zeros_app, be_value_rev, mpi_slice. f_equal.
    apply (frame_slice_keep _ _ _ _ _ F1); [clear -A0 A1 Hn; byte_regions|clear -Ha Hs Hn; intros j; byte_regions].
  - eapply (runs_bind _ _ _ (fun h m' => h = negb (le (slice m (A + k) (ciL * n - k)) =? 0) /\ m' = m)).
    { eexists _, _. split; [apply (high_byte_spec m A n); [done|done|lia|lia]|]. by rewrite Z2Nat.id by lia. }
    intros h m' [-> ->]. rewrite (mpi_high m A n k) by (done || lia).
    pose proof (le_range (slice m A k) ltac:(by apply slice_bytes)) as R1. rewrite slice_zlen in R1 by (clear -A0 A1 Hs Hk; byte_regions).
    pose proof (le_range (slice m (A + k) (ciL * n - k)) ltac:(by apply slice_bytes)) as R2.
    set (y := le (slice m (A + k) (ciL * n - k))) in *. destruct (y =? 0) eqn:Ey; bool_to_prop; cbn [negb].
    + rewrite Ey, Z.mul_0_r, Z.add_0_r. replace (_ <? 2 ^ (8 * k)) with true by lia.
      eapply runs_bind; [apply (copy_down_spec m A n out k); [done|done|lia|done|done]|]. intros [] m1 (F1 & E1).
      apply runs_ret. by rewrite E1, be_value_rev.
    + apply runs_ret. replace (_ <? 2 ^ (8 * k)) with false; [done|]. symmetry. apply Z.ltb_ge. clear -R1 R2 Ey. nia.
Qed.

(** ** Random numbers *)

Section random_correct.
Context (be : backend) (bc : bool) (f_rng : nat -> Z -> Z * list Z).

(** The generator fills the buffer it is given, whatever it returns. *)
Definition rng_fills : Prop := forall k n, 0 <= n -> is_bytes (f_rng k n).2 /\ zlen (f_rng k n).2 = n.

Context (Hrng : rng_fills).

Lemma rng_call_spec m k p n : is_bytes m -> fits_bytes m p n ->
  runs (rng_call f_rng k p n) m (fun ret m' =>
    ret = (f_rng k n).1 /\ frame (inside_bytes p n) m m' /\ slice m' p n = (f_rng k n).2).
Proof.
  intros Bm (P0 & Hn & P1). destruct (Hrng k n Hn) as [Bb Lb]. unfold rng_call, runs.
  destruct (f_rng k n) as [ret bs]. cbn [fst snd] in *. exists ret, (splice m p bs). split_and!; [|done|..].
  - by rewrite store_splice by lia.
  - eapply frame_mono; [apply splice_frame; [done|done|lia|lia]|]. intros j. by rewrite Lb.
  - unfold slice. rewrite <- Lb at 1. by rewrite splice_read by lia.
Qed.

Lemma fill_random_spec m k X n nb :
  wf m -> fits m X n -> 0 <= nb <= ciL * n ->
  runs (mbedtls_mpi_core_fill_random f_rng k X n nb) m (fun ret m' =>
    ret = (f_rng k nb).1 /\ frame (inside X n) m m' /\ (ret = 0 -> mpi m' X n = be_value (f_rng k nb).2)).
Proof.
  intros Wm FX Hnb. pose proof Wm as [Bm _]. pose proof FX as (X0 & Hn & X1). unfold mbedtls_mpi_core_fill_random.
  set (L := CHARS_TO_LIMBS nb). assert (L <= n) as HL by (apply CHARS_TO_LIMBS_le; lia).
  assert (nb <= ciL * L) as HnbL by (apply CHARS_TO_LIMBS_le; lia).
  assert (ciL * L < nb + 8) as HLnb.
  { unfold L, CHARS_TO_LIMBS, ciL. pose proof (Z.div_mod nb 8 ltac:(lia)). pose proof (Z.mod_pos_bound nb 8 ltac:(lia)).
    destruct (Z.eqb_spec (nb mod 8) 0); cbn [negb Z.b2z]; lia. }
  assert (0 <= L) as HL0 by (unfold ciL in *; lia).
  replace (n <? L) with false by lia. rewrite (Z.mul_comm L ciL). set (ov := ciL * L - nb).
  apply bind_memset_bytes; [done|unfold ov; clear -FX HL HnbL Hnb HL0; byte_regions|]. intros m1 F1 E1.
  pose proof (frame_fits _ _ _ _ _ F1 FX) as FX1. rewrite (Z.mul_comm (n - L) ciL).
  apply bind_memset_bytes; [by eapply frame_bytes|clear -FX1 HL HL0; byte_regions|]. intros m2 F2 E2.
  pose proof (frame_fits _ _ _ _ _ F2 FX1) as FX2.
  eapply runs_bind; [apply rng_call_spec; [by eapply frame_bytes|unfold ov; clear -FX2 HL HnbL Hnb HL0; byte_regions]|].
  intros ret m3 (-> & F3 & E3). pose proof (frame_fits _ _ _ _ _ F3 FX2) as FX3.
  assert (frame (inside X n) m m3) as F03.
  { eapply frame_then; [eapply frame_then; [exact F1|exact F2| |]|exact F3| |].
    - instantiate (1 := inside X n). unfold ov. clear -HL HnbL Hnb HL0. intros j. byte_regions.
    - clear -HL HnbL Hnb HL0. intros j. byte_regions.
    - done.
    - unfold ov. clear -HL HnbL Hnb HL0. intros j. byte_regions. }
  destruct (_ =? 0) eqn:Hr; bool_to_prop; cbn [negb].
  2: { apply runs_ret. split_and!; [done|done|lia]. }
  eapply runs_bind; [apply (bigendian_to_host_spec m3); [by eapply frame_wf|clear -FX3 HL HL0; regions]|]. intros [] m4 (F4 & E4).
  apply runs_ret. split_and!; [done|eapply frame_then; [exact F03|exact F4|done|clear -HL; intros j; regions]|]. intros _.
  pose proof (frame_fits _ _ _ _ _ F4 FX3) as FX4.
  replace n with (L + (n - L)) at 1 by lia. rewrite mpi_add by (try lia; clear -FX4 HL HL0; regions). rewrite E4.
  assert (mpi m4 (X + ciL * L) (n - L) = 0) as ->.
  { rewrite (frame_mpi _ _ _ _ _ F4), (frame_mpi _ _ _ _ _ F3) by (try (clear -FX2 FX3 HL HL0; regions); clear -HnbL; unfold ov; intros j; byte_regions).
    rewrite mpi_slice, E2. apply le_zeros. }
  rewrite Z.mul_0_r, Z.add_0_r. replace (ciL * L) with (ov + nb) by (unfold ov; lia). rewrite slice_add, E3 by (unfold ov; lia).
  rewrite (frame_slice_keep _ _ _ _ _ F3), (frame_slice_keep _ _ _ _ _ F2), E1
    by (try (unfold ov; clear -FX1 FX2 HL HnbL Hnb HL0; byte_regions); unfold ov; clear -Hnb; intros j; byte_regions).
  apply be_zeros_app.
Qed.

Section tries.
Context (X min N n nb nbits : Z).

(** The number the [k]-th call of the generator gives. *)
Definition draw (k : nat) : Z := be_value (f_rng k nb).2 / 2 ^ (8 * nb - nbits).

Definition rng_ok (k : nat) : Prop := (f_rng k nb).1 = 0.

(** How a run of [count] tries that starts with call [k] ends: with the first number in
    range, with an error of the generator, or with the last try used up. *)
Definition tried (Nv : Z) (k count : nat) (ret x : Z) : Prop :=
  exists j, (j < count)%nat /\
    (forall i, (k <= i < k + j)%nat -> rng_ok i /\ ~ (min <= draw i < Nv)) /\
    (((S j < count)%nat /\ rng_ok (k + j) /\ ret = 0 /\ x = draw (k + j) /\ min <= x < Nv) \/
     ((f_rng (k + j) nb).1 = ret /\ ret <> 0) \/
     (S j = count /\ rng_ok (k + j) /\ ret = MBEDTLS_ERR_MPI_NOT_ACCEPTABLE)).

Lemma tried_next Nv k count ret x : rng_ok k -> ~ (min <= draw k < Nv) -> tried Nv (S k) count ret x -> tried Nv k (S count) ret x.
Proof.
  intros Hok Hout (j & Hj & Hbefore & H). exists (S j). split; [lia|]. split.
  - intros i Hi. destruct (decide (i = k)) as [->|]; [done|]. apply Hbefore. lia.
  - replace (k + S j)%nat with (S k + j)%nat by lia. destruct H as [(H1 & H)|[H|(H1 & H)]]; [left|right; left|right; right]; try done.
    + split; [lia|done].
    + split; [lia|done].
Qed.

Lemma random_loop_spec m : wf m -> fits m X n -> fits m N n -> apart X n N n -> 1 <= n -> word64 min ->
  0 <= nb <= ciL * n -> nbits <= 8 * nb ->
  forall count k m1, (0 < count)%nat -> frame (inside X n) m m1 ->
  runs (random_loop be f_rng count k X min N n nbits nb) m1 (fun ret m' =>
    frame (inside X n) m m' /\ tried (mpi m N n) k count ret (mpi m' X n)).
Proof.
  intros Wm FX FN HXN Hn Hmin Hnb Hbits. induction count as [|count IH]; intros k m1 Hc F1; [lia|]. cbn [random_loop].
  pose proof (frame_wf _ _ _ Wm F1) as W1.
  eapply runs_bind; [apply (fill_random_spec m1 k X n nb W1); [by eapply frame_fits|done]|]. intros ret m2 (Er & F2 & E2).
  pose proof (frame_seq _ _ _ _ F1 F2) as F02. destruct (ret =? 0) eqn:Hr; bool_to_prop; cbn [negb].
  2: { apply runs_ret. split; [done|]. exists O. split; [lia|]. split; [lia|]. right. left. by rewrite Nat.add_0_r. }
  specialize (E2 Hr). assert (rng_ok k) as Hok by (unfold rng_ok; congruence).
  eapply runs_bind; [apply (core_shift_r_spec m2 X n (8 * nb - nbits)); [by eapply frame_wf|by eapply frame_fits|lia]|].
  intros [] m3 (F3 & E3). rewrite E2 in E3. fold (draw k) in E3. pose proof (frame_seq _ _ _ _ F02 F3) as F03.
  pose proof (frame_wf _ _ _ Wm F03) as W3.
  assert (mpi m3 N n = mpi m N n) as EN by (apply (frame_mpi _ _ _ _ _ F03); [done|clear -HXN; intros j; regions]).
  destruct (Nat.eqb_spec count 0) as [->|Hcount].
  { apply runs_ret. split; [done|]. exists O. split; [lia|]. split; [lia|]. right. right. by rewrite Nat.add_0_r. }
  eapply runs_bind; [apply (uint_le_mpi_spec be m3 W3 min X n); [by eapply frame_fits|lia|done]|]. intros ge m' (-> & ->).
  eapply runs_bind; [apply (lt_ct_spec be m3 W3 X N n); by eapply frame_fits|]. intros lt m' (-> & ->).
  unfold mbedtls_ct_bool_and. rewrite cond_and, E3, EN.
  destruct ((min <=? draw k) && (draw k <? mpi m N n)) eqn:Hin; cbn [cond].
  - replace (_ =? 0) with false by done. apply runs_ret. split; [done|]. exists O. split; [lia|]. split; [lia|]. left.
    rewrite Nat.add_0_r, E3. apply andb_prop in Hin as [H1 H2]. bool_to_prop. split_and!; try done; lia.
  - replace (0 =? 0) with true by done. eapply runs_mono; [apply (IH (S k) m3); [lia|done]|]. intros r m4 (F4 & H4). split; [done|].
    apply tried_next; [done| |done]. apply andb_false_iff in Hin as [Hin|Hin]; bool_to_prop; lia.
Qed.

End tries.

Lemma core_random_spec m X min N n :
  wf m -> fits m X n -> fits m N n -> apart X n N n -> 1 <= n < 2 ^ 31 -> word64 min ->
  let nbits := bitlen (mpi m N n) in let nb := (nbits + 7) / 8 in
  runs (mbedtls_mpi_core_random be bc f_rng X min N n) m (fun ret m' =>
    frame (inside X n) m m' /\
    tried min nb nbits (mpi m N n) 0 (if nb >? 4 then 30 else 250)%nat ret (mpi m' X n)).
Proof.
  intros Wm FX FN HXN Hn Hmin nbits nb. pose proof Wm as [Bm _].
  eapply (runs_bind _ _ _ (fun b m' => b = nbits /\ m' = m)).
  { eexists _, _. split; [by apply core_bitlen_spec; [..|lia]|done]. }
  intros b m' [-> ->]. assert (0 <= nbits <= 64 * n) as Hb.
  { pose proof (mpi_range m N n Bm FN) as R. unfold nbits, bitlen, base, biL in *. split_if; [lia|].
    pose proof (Z.log2_nonneg (mpi m N n)). assert (Z.log2 (mpi m N n) < 64 * n) by (apply Z.log2_lt_pow2; lia). lia. }
  rewrite u64_id by lia. fold nb. assert (8 * nb - 8 < nbits <= 8 * nb) as Hnb by (unfold nb; Z.div_mod_to_equations; lia).
  eapply runs_mono; [apply (random_loop_spec X min N n nb nbits m); try done; try (unfold ciL; lia)|].
  - destruct (nb >? 4); lia.
  - done.
Qed.

End random_correct.

(** ** Theorems *)

(** C23.  Reading leaves the value of the bytes in [X], least or most significant first, when
    they fit in its limbs, and writing leaves bytes with the value of the number when they
    are enough for it, whatever the number of limbs; otherwise both report the lack of room
    and change nothing. *)
Theorem mpi_read_write_exact m X n p k :
  wf m -> fits m X n -> fits_bytes m p k -> apart_bytes X (ciL * n) p k ->
  runs (mbedtls_mpi_core_read_le (Some X) n p k) m (fun ret m' =>
    if k <=? ciL * n then ret = 0 /\ frame (inside X n) m m' /\ mpi m' X n = le (slice m p k)
    else ret = MBEDTLS_ERR_MPI_BUFFER_TOO_SMALL /\ m' = m) /\
  runs (mbedtls_mpi_core_read_be X n p k) m (fun ret m' =>
    if k <=? ciL * n then ret = 0 /\ frame (inside X n) m m' /\ mpi m' X n = be_value (slice m p k)
    else ret = MBEDTLS_ERR_MPI_BUFFER_TOO_SMALL /\ m' = m) /\
  runs (mbedtls_mpi_core_write_le X n p k) m (fun ret m' =>
    if mpi m X n <? 2 ^ (8 * k) then ret = 0 /\ frame (inside_bytes p k) m m' /\ le (slice m' p k) = mpi m X n
    else ret = MBEDTLS_ERR_MPI_BUFFER_TOO_SMALL /\ m' = m) /\
  runs (mbedtls_mpi_core_write_be X n p k) m (fun ret m' =>
    if mpi m X n <? 2 ^ (8 * k) then ret = 0 /\ frame (inside_bytes p k) m m' /\ be_value (slice m' p k) = mpi m X n
    else ret = MBEDTLS_ERR_MPI_BUFFER_TOO_SMALL /\ m' = m).
Proof.
  intros Wm FX Fp Ha. assert (apart_bytes p k X (ciL * n)) by (destruct Ha; [by right|by left]).
  split_and!; [by apply read_le_spec|by apply read_be_spec|by apply write_le_spec|by apply write_be_spec].
Qed.

Lemma mpi_read_write_exact_witness :
  let m := replicate 16 7 ++ [1; 2; 3; 4; 5; 6; 7; 8; 9] in
  runs (mbedtls_mpi_core_read_be 0 2 16 9) m (fun ret m' =>
    if 9 <=? ciL * 2 then ret = 0 /\ frame (inside 0 2) m m' /\ mpi m' 0 2 = be_value (slice m 16 9)
    else ret = MBEDTLS_ERR_MPI_BUFFER_TOO_SMALL /\ m' = m).
Proof.
  intros m. apply (mpi_read_write_exact m 0 2 16 9); unfold m; try concrete.
  - unfold fits_bytes. vm_compute. repeat split; discriminate.
  - unfold apart_bytes, ciL. lia.
Defined.

(** A random number is the first of at most 29 (for small bounds 249) draws that is at
    least [min] and below [N]; otherwise the function reports the generator's error or that
    no number was acceptable, and only [X] changes. *)
Theorem core_random_correct be bc f_rng m X min N n :
  rng_fills f_rng -> wf m -> fits m X n -> fits m N n -> apart X n N n -> 1 <= n < 2 ^ 31 -> word64 min ->
  let nbits := bitlen (mpi m N n) in let nb := (nbits + 7) / 8 in
  runs (mbedtls_mpi_core_random be bc f_rng X min N n) m (fun ret m' =>
    frame (inside X n) m m' /\
    tried f_rng min nb nbits (mpi m N n) 0 (if nb >? 4 then 30 else 250)%nat ret (mpi m' X n)).
Proof. intros Hrng Wm FX FN HXN Hn Hmin nbits nb. by apply core_random_spec. Qed.

(** A generator that counts. *)
Lemma core_random_correct_witness :
  let f_rng (k : nat) (n : Z) := (0, replicate (Z.to_nat n) (Z.of_nat k mod 256)) in
  let m := replicate 8 0 ++ le_bytes 8 100 in
  runs (mbedtls_mpi_core_random Generic false f_rng 0 3 8 1) m (fun ret m' =>
    frame (inside 0 1) m m' /\
    tried f_rng 3 1 7 100 0 250 ret (mpi m' 0 1)).
Proof.
  intros f_rng m. apply (core_random_correct Generic false f_rng m 0 3 8 1); unfold m; try concrete.
  intros k n Hn. cbn [snd f_rng]. split; [|rewrite zlen_replicate; lia].
  apply is_bytes_replicate. apply (Z.mod_pos_bound (Z.of_nat k) 256). lia.
Defined.
