(* ===== verification/Eff.v ===== *)
(** * Effects

    The TLS and signing bridges of the repository are short C programs around code
    that is not in it: the operating system, mbedTLS, Secure Transport, Schannel.
    This file has the monad they are written in, the environment that answers
    their calls, and the logic their theorems are proved with.

    A bridge names the calls it makes in an inductive type with a response type per
    call.  The environment is any function from the history of the calls made so far
    to a response, so a theorem for all environments covers every interleaving of
    results, failures and clock readings the outside can produce.  The history is
    part of the state: it is what the theorems on ordering and on the release of
    resources speak of. *)

From S2P Require Import Prelude.

(** ** The monad *)

Definition M (W A : Type) : Type := W -> outcome (A * W).

#[export] Instance M_ret {W} : MRet (M W) := fun A a w => Done (a, w).
#[export] Instance M_bind {W} : MBind (M W) := fun A B f m w =>
  match m w with
  | Done (a, w') => f a w'
  | Fault => Fault
  | NoFuel => NoFuel
  end.

Definition fault {W A} : M W A := fun _ => Fault.
Definition out_of_fuel {W A} : M W A := fun _ => NoFuel.
Definition get {W} : M W W := fun w => Done (w, w).
Definition put {W} (w : W) : M W unit := fun _ => Done (tt, w).
Definition modify {W} (f : W -> W) : M W unit := fun w => Done (tt, f w).
(** A bounds-checked access of the Prelude, in the monad. *)
Definition lift {W A} (o : outcome A) : M W A := fun w =>
  match o with
  | Done a => Done (a, w)
  | Fault => Fault
  | NoFuel => NoFuel
  end.

(** ** Calls to the outside *)

(** A world has a history of calls, newest first. *)
Class Traced (W : Type) (call : Type) := {
  hist : W -> list call;
  push : call -> W -> W;
  hist_push : forall c w, hist (push c w) = c :: hist w
}.

Definition environment (call : Type) (resp : call -> Type) : Type :=
  list call -> forall c, resp c.

Definition ext {W call} `{Traced W call} {resp : call -> Type} (env : environment call resp)
    (c : call) : M W (resp c) :=
  fun w => Done (env (hist w) c, push c w).

(** ** Weakest preconditions

    [wp m Q w]: run from [w], [m] does not fault, and if it ends it ends with [Q].
    [twp] requires in addition that it ends. *)

Definition wp {W A} (m : M W A) (Q : A -> W -> Prop) (w : W) : Prop :=
  match m w with
  | Done (a, w') => Q a w'
  | Fault => False
  | NoFuel => True
  end.

Definition twp {W A} (m : M W A) (Q : A -> W -> Prop) (w : W) : Prop :=
  match m w with
  | Done (a, w') => Q a w'
  | Fault | NoFuel => False
  end.

Section rules.
Context {W A B : Type}.
Implicit Types (w : W) (Q : A -> W -> Prop) (R : B -> W -> Prop).

Lemma wp_ret (a : A) Q w : Q a w -> wp (mret a) Q w.
Proof. done. Qed.
Lemma wp_bind (m : M W A) (f : A -> M W B) R w :
  wp m (fun a w' => wp (f a) R w') w -> wp (m ≫= f) R w.
Proof. unfold wp, mbind, M_bind. by destruct (m w) as [[a w']| |]. Qed.
Lemma wp_mono (m : M W A) Q Q' w :
  (forall a w', Q a w' -> Q' a w') -> wp m Q w -> wp m Q' w.
Proof. intros H. unfold wp. destruct (m w) as [[a w']| |]; auto. Qed.
Lemma wp_get (Q : W -> W -> Prop) w : Q w w -> wp get Q w.
Proof. done. Qed.
Lemma wp_put w' (Q : unit -> W -> Prop) w : Q tt w' -> wp (put w') Q w.
Proof. done. Qed.
Lemma wp_modify f (Q : unit -> W -> Prop) w : Q tt (f w) -> wp (modify f) Q w.
Proof. done. Qed.
Lemma wp_lift_Done (a : A) Q w : Q a w -> wp (lift (Done a)) Q w.
Proof. done. Qed.
Lemma wp_fuel Q w : wp (@out_of_fuel W A) Q w.
Proof. done. Qed.

Lemma twp_ret (a : A) Q w : Q a w -> twp (mret a) Q w.
Proof. done. Qed.
Lemma twp_bind (m : M W A) (f : A -> M W B) R w :
  twp m (fun a w' => twp (f a) R w') w -> twp (m ≫= f) R w.
Proof. unfold twp, mbind, M_bind. by destruct (m w) as [[a w']| |]. Qed.
Lemma twp_mono (m : M W A) Q Q' w :
  (forall a w', Q a w' -> Q' a w') -> twp m Q w -> twp m Q' w.
Proof. intros H. unfold twp. destruct (m w) as [[a w']| |]; auto. Qed.
Lemma twp_get (Q : W -> W -> Prop) w : Q w w -> twp get Q w.
Proof. done. Qed.
Lemma twp_modify f (Q : unit -> W -> Prop) w : Q tt (f w) -> twp (modify f) Q w.
Proof. done. Qed.
Lemma twp_lift_Done (a : A) Q w : Q a w -> twp (lift (Done a)) Q w.
Proof. done. Qed.

Lemma wp_Done (m : M W A) Q w a w' : wp m Q w -> m w = Done (a, w') -> Q a w'.
Proof. unfold wp. intros H E. by rewrite E in H. Qed.
Lemma twp_Done (m : M W A) Q w : twp m Q w -> exists a w', m w = Done (a, w') /\ Q a w'.
Proof. unfold twp. destruct (m w) as [[a w']| |]; [eauto|done..]. Qed.
Lemma twp_wp (m : M W A) Q w : twp m Q w -> wp m Q w.
Proof. unfold twp, wp. by destruct (m w) as [[a w']| |]. Qed.
End rules.

Section ext_rules.
Context {W call : Type} `{!Traced W call} {resp : call -> Type} (env : environment call resp).

Lemma wp_ext c (Q : resp c -> W -> Prop) w : Q (env (hist w) c) (push c w) -> wp (ext env c) Q w.
Proof. done. Qed.
Lemma twp_ext c (Q : resp c -> W -> Prop) w : Q (env (hist w) c) (push c w) -> twp (ext env c) Q w.
Proof. done. Qed.
Lemma wp_ext_any c (Q : resp c -> W -> Prop) w : (forall r, Q r (push c w)) -> wp (ext env c) Q w.
Proof. intros H. apply H. Qed.
End ext_rules.

(** One step of a program: the structural rules, with the response of the outside
    left as a fresh variable; stops at a loop or a call of another operation. *)
Ltac wp_step :=
  lazymatch goal with
  | |- wp (mbind _ _) _ _ => apply wp_bind
  | |- wp (mret _) _ _ => apply wp_ret
  | |- wp (ext ?e ?c) ?Q ?w => apply (wp_ext_any e c Q w); intros ?
  | |- wp get _ _ => apply wp_get
  | |- wp (put _) _ _ => apply wp_put
  | |- wp (modify _) _ _ => apply wp_modify
  | |- wp out_of_fuel _ _ => apply wp_fuel
  | |- wp (let '(_, _) := ?x in _) _ _ => destruct x eqn:?
  | |- wp (match ?x with _ => _ end) _ _ => destruct x eqn:?
  | |- wp (if ?b then _ else _) _ _ => destruct b eqn:?
  end; cbv beta.

Ltac twp_step :=
  lazymatch goal with
  | |- twp (mbind _ _) _ _ => apply twp_bind
  | |- twp (mret _) _ _ => apply twp_ret
  | |- twp (ext ?e ?c) ?Q ?w => apply (twp_ext e c Q w)
  | |- twp get _ _ => apply twp_get
  | |- twp (modify _) _ _ => apply twp_modify
  | |- twp (let '(_, _) := ?x in _) _ _ => destruct x eqn:?
  | |- twp (match ?x with _ => _ end) _ _ => destruct x eqn:?
  | |- twp (if ?b then _ else _) _ _ => destruct b eqn:?
  end; cbv beta.

(** Uses the specification [L] of the operation the program starts with; what it asks
    for is among the hypotheses. *)
Tactic Notation "wp_use" uconstr(L) "as" simple_intropattern(a) simple_intropattern(w)
    simple_intropattern(H) :=
  eapply wp_mono; [|eapply L; eassumption]; cbv beta; intros a w H; cbv beta.
