(* ===== verification/MbedBridge.v ===== *)
(** * internal/mbedtls/tls_mbedtls.c

    The TLS client of TinyGo on Linux (and of darwin with darwinstarttlswith13): the
    platform layer, the two I/O callbacks mbedTLS is given, and the four operations Go
    calls.  mbedTLS and the operating system are the environment.  A call into
    mbedTLS that may call back is answered by a program of the callbacks it makes
    ([lib]), which the model runs with the bridge's own callbacks, so every interplay
    of the two is covered.

    The heap holds the connection records by address; an access to an address that
    is not there, in particular after [free], is a fault. *)

From stdpp Require Import gmap.
From S2P Require Import Prelude Vec Eff.

(** ** Constants of tls_mbedtls.h, mbedTLS and the system *)

Definition HTTPS_MBED_OK := 0.
Definition HTTPS_MBED_ERR_ALLOC := -1.
Definition HTTPS_MBED_ERR_SETUP := -2.
Definition HTTPS_MBED_ERR_CA := -3.
Definition HTTPS_MBED_ERR_CLIENT_CERT := -4.
Definition HTTPS_MBED_ERR_HANDSHAKE := -5.
Definition HTTPS_MBED_ERR_TIMEOUT := -6.
Definition HTTPS_MBED_ERR_IO := -7.
Definition HTTPS_MBED_ERR_CLOSED := -8.

Definition MBEDTLS_ERR_SSL_TIMEOUT := -0x6800.
Definition MBEDTLS_ERR_SSL_WANT_READ := -0x6900.
Definition MBEDTLS_ERR_SSL_WANT_WRITE := -0x6880.
Definition MBEDTLS_ERR_SSL_PEER_CLOSE_NOTIFY := -0x7880.
Definition MBEDTLS_ERR_ENTROPY_SOURCE_FAILED := -0x003C.
Definition NET_ERR_RECV_FAILED := -0x004C.
Definition NET_ERR_SEND_FAILED := -0x004E.
Definition EINTR := 4.

Inductive plat : Set := Linux (a : arch) | Darwin.

(** The system call numbers of the two Linux architectures. *)
Definition SYS_read_n (a : arch) := match a with Aarch64 => 63 | X86_64 => 0 end.
Definition SYS_write_n (a : arch) := match a with Aarch64 => 64 | X86_64 => 1 end.
Definition SYS_ppoll_n (a : arch) := match a with Aarch64 => 73 | X86_64 => 271 end.
Definition SYS_getrandom_n (a : arch) := match a with Aarch64 => 278 | X86_64 => 318 end.

Definition POLL_IN := 0x001.
Definition POLL_OUT := 0x004.

(** ** The outside *)

(** What mbedTLS does inside one call: the callbacks it makes, then its result. *)
Inductive lib (A : Type) : Type :=
  | LRet (a : A)
  | LSend (buf : list Z) (k : Z -> lib A)
  | LRecv (len : Z) (k : Z -> list Z -> lib A)
  | LEntropy (output : list Z) (k : Z -> list Z -> option Z -> lib A).
Arguments LRet {_} _.
Arguments LSend {_} _ _.
Arguments LRecv {_} _ _.
Arguments LEntropy {_} _ _.

(** The mbedTLS contexts inside a connection record. *)
Inductive part : Set := PSsl | PConf | PCacert | PClicert | PPkey | PEntropy | PDrbg.

#[export] Instance part_eq_dec : EqDecision part.
Proof. solve_decision. Defined.

Inductive call : Type :=
  (* the system *)
  | CRsys (nr : Z) (fd : Z) (data : list Z) (n : Z)      (* read, write, getrandom *)
  | CPpoll (nr : Z) (fd events : Z) (timeout : option (Z * Z))
  | CSelect (nfds fd : Z) (for_write : bool) (timeout : option (Z * Z))
  | CRead (fd n : Z) | CWrite (fd : Z) (data : list Z) | CArc4 (n : Z)
  | CClock | CCalloc | CFree (p : Z)
  (* mbedTLS *)
  | CInit (p : Z) (o : part) | CFreePart (p : Z) (o : part)
  | CAddSource (p : Z) | CDrbgSeed (p : Z)
  | CCrtParse (p : Z) (o : part) (pem : list Z) (len : Z)
  | CPkParse (p : Z) (pem : list Z) (len : Z)
  | CConfigDefaults (p : Z) | CAuthmode (p : Z) (required : bool) | CCaChain (p : Z)
  | CConfRng (p : Z) | CMinVersion (p v : Z) | COwnCert (p : Z)
  | CSslSetup (p : Z) | CSetHostname (p : Z) (host : list Z) | CSetBio (p : Z)
  | CHandshake (p : Z) | CVerifyResult (p : Z)
  | CSslRead (p len : Z) | CSslWrite (p : Z) (data : list Z) | CCloseNotify (p : Z).

Definition resp (c : call) : Type :=
  match c with
  | CRsys _ _ _ _ | CRead _ _ => Z * list Z
  | CArc4 _ => list Z
  | CClock => Z * Z
  | CDrbgSeed _ | CHandshake _ | CSslWrite _ _ | CCloseNotify _ => lib Z
  | CSslRead _ _ => lib (Z * list Z)
  | CPpoll _ _ _ _ | CSelect _ _ _ _ | CWrite _ _ | CCalloc
  | CCrtParse _ _ _ _ | CPkParse _ _ _ | CConfigDefaults _ | COwnCert _ | CSslSetup _
  | CSetHostname _ _ | CVerifyResult _ => Z
  | _ => unit
  end.

(** The bridge's own fields of the record; the mbedTLS contexts in it are the
    library's state. *)
Record https_mbed : Set := {
  fd : Z;
  has_clicert : bool;
  deadline_ns : Z;
  timed_out : bool
}.

Record world : Type := { w_hist : list call; w_objs : gmap Z https_mbed }.

#[export] Instance world_traced : Traced world call := {|
  hist := w_hist;
  push := fun c w => {| w_hist := c :: w_hist w; w_objs := w_objs w |};
  hist_push := fun c w => eq_refl
|}.

(** [s->field], and its assignment. *)
Definition deref (p : Z) : M world https_mbed := fun w =>
  match w_objs w !! p with Some s => Done (s, w) | None => Fault end.
Definition update (p : Z) (f : https_mbed -> https_mbed) : M world unit := fun w =>
  match w_objs w !! p with
  | Some s => Done (tt, {| w_hist := w_hist w; w_objs := <[p := f s]> (w_objs w) |})
  | None => Fault
  end.

Definition set_deadline (d : Z) (s : https_mbed) : https_mbed :=
  {| fd := fd s; has_clicert := has_clicert s; deadline_ns := d; timed_out := timed_out s |}.
Definition set_timed_out (b : bool) (s : https_mbed) : https_mbed :=
  {| fd := fd s; has_clicert := has_clicert s; deadline_ns := deadline_ns s; timed_out := b |}.
Definition set_has_clicert (s : https_mbed) : https_mbed :=
  {| fd := fd s; has_clicert := true; deadline_ns := deadline_ns s; timed_out := timed_out s |}.

Section bridge.
Context (pf : plat) (env : environment call resp) (fuel : nat).

(** [calloc], which gives a zeroed record, and [free]. *)
Definition calloc : M world Z :=
  p ← ext env CCalloc;
  if p =? 0 then mret 0
  else
    modify (fun w => {| w_hist := w_hist w;
      w_objs := <[p := {| fd := 0; has_clicert := false; deadline_ns := 0; timed_out := false |}]>
                  (w_objs w) |});;
    mret p.
Definition free (p : Z) : M world unit :=
  deref p;;
  ext env (CFree p);;
  modify (fun w => {| w_hist := w_hist w; w_objs := delete p (w_objs w) |}).

Definition now_ns : M world Z :=
  '(sec, nsec) ← ext env CClock; mret (sec * 1000000000 + nsec).

(** An [int64_t] addition; it overflows to undefined behaviour. *)
Definition add64 (a b : Z) : M world Z :=
  if (- 2 ^ 63 <=? a + b) && (a + b <? 2 ^ 63) then mret (a + b) else fault.

(** ** The platform layer *)

Definition plat_read (fd n : Z) : M world (Z * list Z) :=
  match pf with
  | Linux a => ext env (CRsys (SYS_read_n a) fd [] n)
  | Darwin => ext env (CRead fd n)
  end.

Definition plat_write (fd : Z) (buf : list Z) : M world Z :=
  match pf with
  | Linux a => '(r, _) ← ext env (CRsys (SYS_write_n a) fd buf (zlen buf)); mret r
  | Darwin => ext env (CWrite fd buf)
  end.

(** The time left of a deadline, in the seconds and nanoseconds of a timespec or the
    seconds and microseconds of a timeval; no deadline is a null pointer. *)
Definition timespec_of (remaining : Z) : Z * Z :=
  (remaining / 1000000000, remaining mod 1000000000).
Definition timeval_of (remaining : Z) : Z * Z :=
  (remaining / 1000000000, remaining mod 1000000000 / 1000).

Fixpoint plat_wait_linux (fuel : nat) (a : arch) (fd : Z) (for_write : bool)
    (deadline now : Z) : M world Z :=
  match fuel with
  | O => out_of_fuel
  | S fuel =>
      let remaining := deadline - now in
      if negb (deadline =? 0) && (remaining <=? 0) then mret (-1)
      else
        let tsp := if deadline =? 0 then None else Some (timespec_of remaining) in
        rc ← ext env (CPpoll (SYS_ppoll_n a) fd (if for_write then POLL_OUT else POLL_IN) tsp);
        if rc >? 0 then mret 0
        else if rc =? 0 then mret (-1)
        else if rc =? - EINTR then plat_wait_linux fuel a fd for_write deadline now
        else mret (-1)
  end.

Fixpoint plat_wait_darwin_loop (fuel : nat) (fd : Z) (for_write : bool)
    (deadline now : Z) : M world Z :=
  match fuel with
  | O => out_of_fuel
  | S fuel =>
      let remaining := deadline - now in
      if negb (deadline =? 0) && (remaining <=? 0) then mret (-1)
      else
        let tvp := if deadline =? 0 then None else Some (timeval_of remaining) in
        rc ← ext env (CSelect (fd + 1) fd for_write tvp);
        if rc >? 0 then mret 0
        else if rc =? 0 then mret (-1)
        else plat_wait_darwin_loop fuel fd for_write deadline now
  end.

Definition plat_wait_darwin (fd : Z) (for_write : bool) (deadline now : Z) : M world Z :=
  if (fd <? 0) || (fd >=? 1024) then mret (-1)
  else plat_wait_darwin_loop fuel fd for_write deadline now.

Definition plat_wait (fd : Z) (for_write : bool) (deadline now : Z) : M world Z :=
  match pf with
  | Linux a => plat_wait_linux fuel a fd for_write deadline now
  | Darwin => plat_wait_darwin fd for_write deadline now
  end.

(** [getrandom] stores its bytes at [out + got]. *)
Fixpoint plat_random_linux (fuel : nat) (a : arch) (out : list Z) (got : Z)
    : M world (Z * list Z) :=
  match fuel with
  | O => out_of_fuel
  | S fuel =>
      if got <? zlen out then
        '(n, bs) ← ext env (CRsys (SYS_getrandom_n a) 0 [] (zlen out - got));
        if n <=? 0 then
          if n =? - EINTR then plat_random_linux fuel a out got else mret (-1, out)
        else
          out ← lift (store out got bs);
          plat_random_linux fuel a out (got + n)
      else mret (0, out)
  end.

Definition plat_random (out : list Z) : M world (Z * list Z) :=
  match pf with
  | Linux a => plat_random_linux fuel a out 0
  | Darwin =>
      bs ← ext env (CArc4 (zlen out));
      out ← lift (store out 0 bs);
      mret (0, out)
  end.

(** ** The callbacks *)

Definition wait_ready (s : Z) (for_write : bool) : M world Z :=
  st ← deref s;
  now ← now_ns;
  plat_wait (fd st) for_write (deadline_ns st) now.

(** [s->deadline_ns != 0 && wait_ready(s, w) != 0] *)
Definition not_ready (s : Z) (for_write : bool) : M world bool :=
  st ← deref s;
  if deadline_ns st =? 0 then mret false
  else rc ← wait_ready s for_write; mret (negb (rc =? 0)).

Definition bio_send (s : Z) (buf : list Z) : M world Z :=
  late ← not_ready s true;
  if late : bool then update s (set_timed_out true);; mret MBEDTLS_ERR_SSL_TIMEOUT
  else
    st ← deref s;
    n ← plat_write (fd st) buf;
    if n <? 0 then mret NET_ERR_SEND_FAILED else mret (to_int n).

Definition bio_recv (s : Z) (len : Z) : M world (Z * list Z) :=
  late ← not_ready s false;
  if late : bool then update s (set_timed_out true);; mret (MBEDTLS_ERR_SSL_TIMEOUT, [])
  else
    st ← deref s;
    '(n, bs) ← plat_read (fd st) len;
    if n <? 0 then mret (NET_ERR_RECV_FAILED, []) else mret (to_int n, bs).

(** The result, the output buffer and, where it is set, [*olen]. *)
Definition entropy_platform (output : list Z) : M world (Z * list Z * option Z) :=
  '(rc, out) ← plat_random output;
  if negb (rc =? 0) then mret (MBEDTLS_ERR_ENTROPY_SOURCE_FAILED, out, None)
  else mret (0, out, Some (zlen output)).

(** A call into mbedTLS, with the callbacks it makes. *)
Fixpoint run {A} (s : Z) (l : lib A) : M world A :=
  match l with
  | LRet a => mret a
  | LSend buf k => r ← bio_send s buf; run s (k r)
  | LRecv len k => '(r, bs) ← bio_recv s len; run s (k r bs)
  | LEntropy output k => '(r, out, olen) ← entropy_platform output; run s (k r out olen)
  end.

(** ** Operations *)

Definition free_state (s : Z) : M world unit :=
  if s =? 0 then mret tt
  else
    st ← deref s;
    ext env (CFreePart s PSsl);;
    ext env (CFreePart s PConf);;
    ext env (CFreePart s PCacert);;
    (if has_clicert st
     then ext env (CFreePart s PClicert);; ext env (CFreePart s PPkey)
     else mret tt);;
    ext env (CFreePart s PDrbg);;
    ext env (CFreePart s PEntropy);;
    free s.

(** [timeout_ns > 0 ? now_ns() + timeout_ns : 0] *)
Definition deadline_of (timeout_ns : Z) : M world Z :=
  if timeout_ns >? 0 then now ← now_ns; add64 now timeout_ns else mret 0.

(** [s->deadline_ns != 0 && now_ns() >= s->deadline_ns] *)
Definition past_deadline (s : Z) : M world bool :=
  st ← deref s;
  if deadline_ns st =? 0 then mret false
  else now ← now_ns; mret (now >=? deadline_ns st).

(** The code, [*out], [*tls_err] and [*verify_flags]. *)
Record hs_result : Set := HsResult { hs_code : Z; hs_out : Z; hs_tls_err : Z; hs_flags : Z }.

Definition fail (s rc code : Z) : M world hs_result :=
  free_state s;; mret (HsResult code 0 rc 0).

Definition want (rc : Z) : bool :=
  (rc =? MBEDTLS_ERR_SSL_WANT_READ) || (rc =? MBEDTLS_ERR_SSL_WANT_WRITE).

Fixpoint handshake_loop (fuel : nat) (s : Z) : M world hs_result :=
  match fuel with
  | O => out_of_fuel
  | S fuel =>
      l ← ext env (CHandshake s);
      rc ← run s l;
      if rc =? 0 then
        update s (set_deadline 0);;
        mret (HsResult HTTPS_MBED_OK s 0 0)
      else if want rc then
        late ← past_deadline s;
        if late : bool then fail s 0 HTTPS_MBED_ERR_TIMEOUT else handshake_loop fuel s
      else
        flags ← ext env (CVerifyResult s);
        st ← deref s;
        free_state s;;
        mret (HsResult (if timed_out st then HTTPS_MBED_ERR_TIMEOUT else HTTPS_MBED_ERR_HANDSHAKE)
                0 rc flags)
  end.

(** The last calls before the handshake: lines 364 to 398. *)
Definition handshake_connect (s : Z) (host : list Z) : M world hs_result :=
  rc ← ext env (CSslSetup s);
  if negb (rc =? 0) then fail s rc HTTPS_MBED_ERR_SETUP else
  rc ← ext env (CSetHostname s host);
  if negb (rc =? 0) then fail s rc HTTPS_MBED_ERR_SETUP else
  ext env (CSetBio s);;
  handshake_loop fuel s.

Definition given (pem : option (list Z)) (len : Z) : bool :=
  match pem with Some _ => len >? 0 | None => false end.

(** The client certificate: lines 339 to 362. *)
Definition handshake_identity (s : Z) (host : list Z) (cert_pem : option (list Z)) (cert_len : Z)
    (key_pem : option (list Z)) (key_len : Z) : M world hs_result :=
  if given cert_pem cert_len && given key_pem key_len then
    ext env (CInit s PClicert);;
    ext env (CInit s PPkey);;
    update s set_has_clicert;;
    rc ← ext env (CCrtParse s PClicert (default [] cert_pem) cert_len);
    if negb (rc =? 0) then fail s rc HTTPS_MBED_ERR_CLIENT_CERT else
    rc ← ext env (CPkParse s (default [] key_pem) key_len);
    if negb (rc =? 0) then fail s rc HTTPS_MBED_ERR_CLIENT_CERT else
    rc ← ext env (COwnCert s);
    if negb (rc =? 0) then fail s rc HTTPS_MBED_ERR_CLIENT_CERT else
    handshake_connect s host
  else handshake_connect s host.

(** Trust anchors and configuration: lines 310 to 337. *)
Definition handshake_configure (s : Z) (host : list Z) (skip_verify : bool) (min_version : Z)
    (ca_pem : option (list Z)) (ca_len : Z) (cert_pem : option (list Z)) (cert_len : Z)
    (key_pem : option (list Z)) (key_len : Z) : M world hs_result :=
  rc ← (if negb skip_verify && given ca_pem ca_len
        then ext env (CCrtParse s PCacert (default [] ca_pem) ca_len) else mret 0);
  if rc <? 0 then fail s rc HTTPS_MBED_ERR_CA else
  rc ← ext env (CConfigDefaults s);
  if negb (rc =? 0) then fail s rc HTTPS_MBED_ERR_SETUP else
  ext env (CAuthmode s (negb skip_verify));;
  (if skip_verify then mret tt else ext env (CCaChain s));;
  ext env (CConfRng s);;
  (if min_version =? 0 then mret tt else ext env (CMinVersion s min_version));;
  handshake_identity s host cert_pem cert_len key_pem key_len.

Definition https_mbed_handshake (fd : Z) (host : list Z) (skip_verify : bool) (min_version : Z)
    (ca_pem : option (list Z)) (ca_len : Z) (cert_pem : option (list Z)) (cert_len : Z)
    (key_pem : option (list Z)) (key_len timeout_ns : Z) : M world hs_result :=
  s ← calloc;
  if s =? 0 then mret (HsResult HTTPS_MBED_ERR_ALLOC 0 0 0) else
  d ← deadline_of timeout_ns;
  update s (fun st => {| MbedBridge.fd := fd; has_clicert := has_clicert st;
                         deadline_ns := d; timed_out := timed_out st |});;
  ext env (CInit s PSsl);;
  ext env (CInit s PConf);;
  ext env (CInit s PCacert);;
  ext env (CInit s PEntropy);;
  ext env (CInit s PDrbg);;
  ext env (CAddSource s);;
  l ← ext env (CDrbgSeed s);
  rc ← run s l;
  if negb (rc =? 0) then fail s rc HTTPS_MBED_ERR_SETUP else
  handshake_configure s host skip_verify min_version ca_pem ca_len cert_pem cert_len
    key_pem key_len.

(** The code, the caller's buffer, [*n] and [*tls_err]. *)
Fixpoint read_loop (fuel : nat) (s : Z) (buf : list Z) (len : Z)
    : M world (Z * list Z * Z * Z) :=
  match fuel with
  | O => out_of_fuel
  | S fuel =>
      l ← ext env (CSslRead s len);
      '(rc, bs) ← run s l;
      buf ← lift (store buf 0 bs);
      if rc >? 0 then mret (HTTPS_MBED_OK, buf, rc, 0)
      else if (rc =? MBEDTLS_ERR_SSL_PEER_CLOSE_NOTIFY) || (rc =? 0)
      then mret (HTTPS_MBED_OK, buf, 0, 0)
      else if want rc then
        late ← past_deadline s;
        if late : bool then mret (HTTPS_MBED_ERR_TIMEOUT, buf, 0, 0)
        else read_loop fuel s buf len
      else
        st ← deref s;
        mret (if timed_out st then HTTPS_MBED_ERR_TIMEOUT else HTTPS_MBED_ERR_IO, buf, 0, rc)
  end.

Definition https_mbed_read (handle : Z) (buf : list Z) (len timeout_ns : Z)
    : M world (Z * list Z * Z * Z) :=
  if handle =? 0 then mret (HTTPS_MBED_ERR_CLOSED, buf, 0, 0)
  else if len <=? 0 then mret (HTTPS_MBED_OK, buf, 0, 0)
  else
    d ← deadline_of timeout_ns;
    update handle (set_deadline d);;
    update handle (set_timed_out false);;
    read_loop fuel handle buf len.

(** The code, [*n] and [*tls_err]; [buf] is the caller's buffer. *)
Fixpoint write_loop (fuel : nat) (s : Z) (buf : list Z) (len written : Z)
    : M world (Z * Z * Z) :=
  match fuel with
  | O => out_of_fuel
  | S fuel =>
      if written <? len then
        data ← lift (load buf written (len - written));
        l ← ext env (CSslWrite s data);
        rc ← run s l;
        if rc >? 0 then write_loop fuel s buf len (written + rc)
        else if want rc then
          late ← past_deadline s;
          if late : bool then mret (HTTPS_MBED_ERR_TIMEOUT, written, 0)
          else write_loop fuel s buf len written
        else
          st ← deref s;
          mret (if timed_out st then HTTPS_MBED_ERR_TIMEOUT else HTTPS_MBED_ERR_IO, written, rc)
      else mret (HTTPS_MBED_OK, written, 0)
  end.

Definition https_mbed_write (handle : Z) (buf : list Z) (len timeout_ns : Z)
    : M world (Z * Z * Z) :=
  if handle =? 0 then mret (HTTPS_MBED_ERR_CLOSED, 0, 0)
  else if len <=? 0 then mret (HTTPS_MBED_OK, 0, 0)
  else
    d ← deadline_of timeout_ns;
    update handle (set_deadline d);;
    update handle (set_timed_out false);;
    write_loop fuel handle buf len 0.

Definition https_mbed_close (handle : Z) : M world unit :=
  if handle =? 0 then mret tt
  else
    now ← now_ns;
    d ← add64 now 100000000;
    update handle (set_deadline d);;
    l ← ext env (CCloseNotify handle);
    run handle l;;
    free_state handle.
End bridge.

(** ** Self test and capabilities *)

(** The four self tests in order; the first that fails gives the result. *)
Definition https_mbed_self_test (aes gcm sha256 sha512 : Z) : Z :=
  if negb (aes =? 0) then -1
  else if negb (gcm =? 0) then -2
  else if negb (sha256 =? 0) then -3
  else if negb (sha512 =? 0) then -4
  else 0.

Definition HWCAP_AES := Z.shiftl 1 3.
Definition HWCAP_SHA2 := Z.shiftl 1 6.
Definition HWCAP_SHA512 := Z.shiftl 1 21.

(** [getauxval] is given, and where the build has AES-NI code (any x86-64 one) the result
    of its probe. *)
Definition https_mbed_hwcaps (pf : plat) (auxv : Z) (aesni : option bool) : Z :=
  match pf, aesni with
  | Linux Aarch64, _ =>
      Z.lor (if Z.land auxv HWCAP_AES =? 0 then 0 else 1)
        (Z.lor (if Z.land auxv HWCAP_SHA2 =? 0 then 0 else 2)
           (if Z.land auxv HWCAP_SHA512 =? 0 then 0 else 4))
  | _, Some b => if b then 1 else 0
  | _, None => -1
  end.
