(* ===== verification/MbedSafety.v ===== *)
(** * The mbedTLS bridge: safety and contracts

    For every behaviour of mbedTLS and of the system: what the callbacks may change,
    who owns the connection record, what precedes a handshake, and what read and
    write promise to the Go side. *)

From stdpp Require Import gmap.
From S2P Require Import Prelude Vec Eff MbedBridge.

(** ** What a callback may change *)

(** Calls to the system, as opposed to mbedTLS. *)
Definition io_call (c : call) : Prop :=
  match c with
  | CRsys _ _ _ _ | CPpoll _ _ _ _ | CSelect _ _ _ _ | CRead _ _ | CWrite _ _ | CArc4 _ | CClock => True
  | _ => False
  end.

(** The record at [s] apart from the time-out mark, which is only ever raised. *)
Definition same_conn (st st' : https_mbed) : Prop :=
  fd st' = fd st /\ has_clicert st' = has_clicert st /\ deadline_ns st' = deadline_ns st /\
  (timed_out st = true -> timed_out st' = true).

(** From [w] to [w'] only system calls were made and only [s] changed, as above. *)
Definition evolves (s : Z) (w w' : world) : Prop :=
  (exists new, w_hist w' = new ++ w_hist w /\ Forall io_call new) /\
  (exists st st', w_objs w !! s = Some st /\ w_objs w' = <[s := st']> (w_objs w) /\ same_conn st st').

Definition live (s : Z) (w : world) : Prop := exists st, w_objs w !! s = Some st.

Lemma same_conn_refl st : same_conn st st.
Proof. done. Qed.
Lemma same_conn_trans a b c : same_conn a b -> same_conn b c -> same_conn a c.
Proof. unfold same_conn. intuition congruence. Qed.

Lemma evolves_refl s w : live s w -> evolves s w w.
Proof.
  intros [st H]. split; [by exists []|]. exists st, st.
  by rewrite insert_id by done.
Qed.

Lemma evolves_live s w w' : evolves s w w' -> live s w'.
Proof. intros [_ (st & st' & _ & H & _)]. exists st'. by rewrite H, lookup_insert_eq. Qed.

Lemma evolves_trans s w1 w2 w3 : evolves s w1 w2 -> evolves s w2 w3 -> evolves s w1 w3.
Proof.
  intros [(n1 & H1 & F1) (a & b & A & B & C)] [(n2 & H2 & F2) (a' & b' & A' & B' & C')].
  rewrite B, lookup_insert_eq in A'. injection A' as <-. split.
  - exists (n2 ++ n1). rewrite H2, H1, app_assoc. split; [done|by apply Forall_app].
  - exists a, b'. split; [done|]. split; [|by eapply same_conn_trans].
    by rewrite B', B, insert_insert_eq.
Qed.

Lemma evolves_push s w w' c : io_call c -> evolves s w w' -> evolves s w (push c w').
Proof.
  intros Hc [(n & H & F) R]. split; [|done]. exists (c :: n). simpl. rewrite H.
  split; [done|by constructor].
Qed.

Create HintDb evolve discriminated.
#[export] Hint Resolve evolves_refl evolves_live evolves_push : evolve.
#[export] Hint Extern 1 (io_call _) => exact I : evolve.
#[export] Hint Extern 2 (live _ (push _ _)) => (eapply evolves_live, evolves_push; [exact I|]) : evolve.

Lemma wp_deref p (Q : https_mbed -> world -> Prop) w st :
  w_objs w !! p = Some st -> Q st w -> wp (deref p) Q w.
Proof. unfold wp, deref. by intros ->. Qed.
Lemma wp_update p f (Q : unit -> world -> Prop) w st :
  w_objs w !! p = Some st ->
  Q tt {| w_hist := w_hist w; w_objs := <[p := f st]> (w_objs w) |} -> wp (update p f) Q w.
Proof. unfold wp, update. by intros ->. Qed.

Lemma evolves_timed_out s w w' :
  evolves s w w' -> wp (update s (set_timed_out true)) (fun _ => evolves s w) w'.
Proof.
  intros Hw. destruct (evolves_live _ _ _ Hw) as [st Hst].
  eapply wp_update; [exact Hst|]. eapply evolves_trans; [exact Hw|].
  split; [by exists []|]. by exists st, (set_timed_out true st).
Qed.

(** ** What the outside is relied on for

    Documented behaviour of the system and of mbedTLS: a clock that does not run over,
    calls that fill no more than the buffer they are given, and counts that say how
    much was filled or taken. *)

Inductive leaves {A} (P : A -> Prop) : lib A -> Prop :=
  | leaves_ret a : P a -> leaves P (LRet a)
  | leaves_send buf k : (forall r, leaves P (k r)) -> leaves P (LSend buf k)
  | leaves_recv len k : (forall r bs, leaves P (k r bs)) -> leaves P (LRecv len k)
  | leaves_entropy out k : (forall r bs o, leaves P (k r bs o)) -> leaves P (LEntropy out k).

Record sane (env : environment call resp) : Prop := {
  clock_range h : 0 <= (env h CClock).1 * 1000000000 + (env h CClock).2 < 2 ^ 62;
  getrandom_fills h nr m :
    let r := env h (CRsys nr 0 [] m) in 0 < r.1 -> zlen r.2 = r.1 /\ r.1 <= m;
  arc4_fills h m : 0 <= m -> zlen (env h (CArc4 m)) = m;
  ssl_read_fills h p len : 0 <= len ->
    leaves (fun r => zlen r.2 <= len /\ (0 < r.1 -> zlen r.2 = r.1)) (env h (CSslRead p len));
  ssl_write_takes h p data : leaves (fun rc => rc <= zlen data) (env h (CSslWrite p data))
}.

Section callbacks.
Context (pf : plat) (env : environment call resp) (fuel : nat) (Hsane : sane env).

Lemma wp_now_evolves s w w' :
  evolves s w w' -> wp (now_ns env) (fun _ => evolves s w) w'.
Proof. intros H. unfold now_ns. do 2 wp_step. wp_step. wp_step. by apply evolves_push. Qed.

Lemma wp_wait_evolves s w fd fw d now : forall w',
  evolves s w w' -> wp (plat_wait pf env fuel fd fw d now) (fun _ => evolves s w) w'.
Proof.
  unfold plat_wait. destruct pf as [a|].
  - induction fuel as [|n IH]; intros w' H; cbn [plat_wait_linux]; repeat wp_step; try done;
      try (by apply evolves_push). apply IH. by apply evolves_push.
  - intros w' H. unfold plat_wait_darwin. wp_step; [by apply wp_ret|]. revert w' H.
    induction fuel as [|n IH]; intros w' H; cbn [plat_wait_darwin_loop]; repeat wp_step; try done;
      try (by apply evolves_push). apply IH. by apply evolves_push.
Qed.

Lemma wp_not_ready_evolves s w fw : forall w',
  evolves s w w' -> wp (not_ready pf env fuel s fw) (fun _ => evolves s w) w'.
Proof.
  intros w' H. destruct (evolves_live _ _ _ H) as [st Hst]. unfold not_ready. wp_step.
  eapply wp_deref; [exact Hst|]. cbv beta. wp_step; [by wp_step|]. wp_step. unfold wait_ready.
  wp_step. eapply wp_deref; [exact Hst|]. cbv beta. wp_step.
  wp_use wp_now_evolves as now w1 H1.
  wp_use wp_wait_evolves as r w2 H2. by wp_step.
Qed.

Lemma wp_send_evolves s w buf w' :
  evolves s w w' -> wp (bio_send pf env fuel s buf) (fun _ => evolves s w) w'.
Proof.
  intros H. unfold bio_send. wp_step.
  wp_use wp_not_ready_evolves as late w1 H1. destruct late.
  - wp_step. wp_use evolves_timed_out as _ w2 H2. by wp_step.
  - destruct (evolves_live _ _ _ H1) as [st Hst]. wp_step.
    eapply wp_deref; [exact Hst|]. cbv beta. unfold plat_write.
    destruct pf; repeat wp_step; by apply evolves_push.
Qed.

Lemma wp_recv_evolves s w len w' :
  evolves s w w' -> wp (bio_recv pf env fuel s len) (fun _ => evolves s w) w'.
Proof.
  intros H. unfold bio_recv. wp_step.
  wp_use wp_not_ready_evolves as late w1 H1. destruct late.
  - wp_step. wp_use evolves_timed_out as _ w2 H2. by wp_step.
  - destruct (evolves_live _ _ _ H1) as [st Hst]. wp_step.
    eapply wp_deref; [exact Hst|]. cbv beta. unfold plat_read.
    destruct pf; repeat wp_step; by apply evolves_push.
Qed.

(** A getrandom loop that stays inside the buffer it fills. *)
Lemma wp_random_evolves s w a n : forall out got w',
  0 <= got <= zlen out -> evolves s w w' ->
  wp (plat_random_linux env n a out got) (fun _ => evolves s w) w'.
Proof.
  induction n as [|n IH]; intros out got w' Hg H; cbn [plat_random_linux]; [by wp_step|].
  wp_step; [|by wp_step]. bool_to_prop. wp_step.
  pose proof (getrandom_fills env Hsane (w_hist w') (SYS_getrandom_n a) (zlen out - got)) as Hr.
  cbv zeta in Hr. match goal with |- wp (ext _ ?c) _ _ => apply (wp_ext env c) end.
  change (hist w') with (w_hist w'). destruct (env (w_hist w') _) as [r bs]. simpl in Hr.
  assert (evolves s w (push (CRsys (SYS_getrandom_n a) 0 [] (zlen out - got)) w')) as H'
    by (by apply evolves_push).
  wp_step; [wp_step; [by apply IH|by wp_step]|]. bool_to_prop. destruct Hr as [Hb Hm]; [lia|].
  wp_step. rewrite store_splice by lia. apply wp_lift_Done. apply IH; [|done].
  rewrite zlen_splice; lia.
Qed.

Lemma wp_entropy_evolves s w out w' :
  evolves s w w' -> wp (entropy_platform pf env fuel out) (fun _ => evolves s w) w'.
Proof.
  intros H. pose proof (zlen_nonneg out). unfold entropy_platform, plat_random. wp_step.
  destruct pf as [a|].
  - assert (0 <= 0 <= zlen out) as Hg by lia. wp_use wp_random_evolves as [rc o] w1 H1.
    repeat wp_step; done.
  - wp_step. apply (wp_ext env (CArc4 (zlen out))). wp_step.
    pose proof (arc4_fills env Hsane (hist w') (zlen out) ltac:(lia)) as Ha.
    rewrite store_splice by lia. apply wp_lift_Done.
    repeat wp_step; by apply evolves_push.
Qed.

(** Whatever mbedTLS does in a call, it touches the connection through the callbacks
    only; and its result is one it is documented to give. *)
Lemma wp_run {A} (P : A -> Prop) s w (l : lib A) : leaves P l -> forall w',
  evolves s w w' -> wp (run pf env fuel s l) (fun a w'' => P a /\ evolves s w w'') w'.
Proof.
  induction 1 as [a Ha|buf k Hk IH|len k Hk IH|out k Hk IH]; intros w' H; cbn [run].
  - by wp_step.
  - wp_step. wp_use wp_send_evolves as r w1 H1. by apply IH.
  - wp_step. wp_use wp_recv_evolves as [r bs] w1 H1. by apply IH.
  - wp_step. wp_use wp_entropy_evolves as [[r bs] o] w1 H1. by apply IH.
Qed.

Lemma leaves_true {A} (l : lib A) : leaves (fun _ => True) l.
Proof. induction l; by constructor. Qed.

Lemma wp_run_any {A} s w (l : lib A) w' :
  evolves s w w' -> wp (run pf env fuel s l) (fun _ => evolves s w) w'.
Proof.
  intros H. eapply wp_mono; [|apply (wp_run (fun _ => True) s w l (leaves_true l) w' H)].
  by intros a w'' [_ ?].
Qed.

Lemma wp_past_deadline s w w' :
  evolves s w w' -> wp (past_deadline env s) (fun _ => evolves s w) w'.
Proof.
  intros H. destruct (evolves_live _ _ _ H) as [st Hst]. unfold past_deadline. wp_step.
  eapply wp_deref; [exact Hst|]. cbv beta. wp_step; [by wp_step|]. wp_step.
  wp_use wp_now_evolves as now w1 H1. by wp_step.
Qed.

Lemma wp_deadline_of t (Q : Z -> world -> Prop) w :
  t < 2 ^ 62 ->
  (forall d w', (w' = w \/ w' = push CClock w) -> 0 <= d -> (d = 0 <-> t <= 0) -> Q d w') ->
  wp (deadline_of env t) Q w.
Proof.
  intros Ht HQ. unfold deadline_of. wp_step; bool_to_prop.
  2:{ wp_step. apply HQ; [by left|lia|lia]. }
  wp_step. unfold now_ns. wp_step. apply (wp_ext env CClock).
  pose proof (clock_range env Hsane (w_hist w)) as Hc. change (hist w) with (w_hist w).
  destruct (env (w_hist w) CClock) as [sec nsec]. simpl in Hc. wp_step. unfold add64.
  wp_step; [wp_step; apply HQ; [by right|lia|lia]|].
  exfalso. apply andb_false_iff in Heqb0 as [E|E]; bool_to_prop; lia.
Qed.
End callbacks.

(** ** Ownership of the connection record and of the contexts in it *)

(** How many more times a context was initialised than released. *)
Fixpoint opened (p : Z) (o : part) (h : list call) : Z :=
  match h with
  | [] => 0
  | CInit q o' :: h => (if (q =? p) && bool_decide (o' = o) then 1 else 0) + opened p o h
  | CFreePart q o' :: h => opened p o h - (if (q =? p) && bool_decide (o' = o) then 1 else 0)
  | _ :: h => opened p o h
  end.

Definition neutral (c : call) : Prop :=
  match c with CInit _ _ | CFreePart _ _ => False | _ => True end.

Lemma opened_neutral p o c h : neutral c -> opened p o (c :: h) = opened p o h.
Proof. by destruct c. Qed.

Lemma opened_io p o new h : Forall io_call new -> opened p o (new ++ h) = opened p o h.
Proof.
  induction 1 as [|c new Hc _ IH]; [done|]. cbn [app]. rewrite opened_neutral; [done|].
  by destruct c.
Qed.

(** The contexts a live record holds. *)
Definition part_count (st : https_mbed) (o : part) : Z :=
  match o with PClicert | PPkey => if has_clicert st then 1 else 0 | _ => 1 end.

(** The heap is [objs0] and the record at [p], whose contexts are open. *)
Definition owned (p : Z) (objs0 : gmap Z https_mbed) (base : part -> Z) (w : world) : Prop :=
  exists st, w_objs w = <[p := st]> objs0 /\
    forall o, opened p o (w_hist w) = base o + part_count st o.

(** The record is gone and its contexts with it. *)
Definition released (p : Z) (objs0 : gmap Z https_mbed) (base : part -> Z) (w : world) : Prop :=
  w_objs w = objs0 /\ forall o, opened p o (w_hist w) = base o.

Lemma owned_live p objs0 base w : owned p objs0 base w -> live p w.
Proof. intros (st & H & _). exists st. by rewrite H, lookup_insert_eq. Qed.

Lemma owned_push p objs0 base w c :
  neutral c -> owned p objs0 base w -> owned p objs0 base (push c w).
Proof.
  intros Hc (st & H & O). exists st. split; [done|]. intros o. simpl w_hist.
  by rewrite opened_neutral.
Qed.

Ltac count_parts :=
  repeat match goal with
  | |- context [bool_decide (?a = ?b :> part)] =>
      let r := eval vm_compute in (bool_decide (a = b)) in change (bool_decide (a = b)) with r
  end; cbn [andb].

Section ownership.
Context (pf : plat) (env : environment call resp) (fuel : nat) (Hsane : sane env).
Context (p : Z) (objs0 : gmap Z https_mbed) (base : part -> Z).
Context (Hp : p <> 0) (Hfresh : objs0 !! p = None).

(** The record at [p] is [st], and its contexts are open. *)
Definition holds (st : https_mbed) (w : world) : Prop :=
  w_objs w = <[p := st]> objs0 /\ forall o, opened p o (w_hist w) = base o + part_count st o.

Lemma holds_push st w c : neutral c -> holds st w -> holds st (push c w).
Proof.
  intros Hc [H O]. split; [done|]. intros o. simpl w_hist. by rewrite opened_neutral.
Qed.

Lemma holds_owned st w : holds st w -> owned p objs0 base w.
Proof. intros H. by exists st. Qed.

Lemma holds_evolves st w w' :
  holds st w -> evolves p w w' -> exists st', holds st' w' /\ has_clicert st' = has_clicert st.
Proof.
  intros [H O] [(new & Hh & F) (a & b & A & B & (_ & C & _))].
  rewrite H, lookup_insert_eq in A. injection A as <-. exists b. split; [|done]. split.
  - by rewrite B, H, insert_insert_eq.
  - intros o. rewrite Hh, opened_io by done. rewrite O. unfold part_count. by rewrite C.
Qed.

Lemma owned_evolves w w' : owned p objs0 base w -> evolves p w w' -> owned p objs0 base w'.
Proof. intros [st H] E. destruct (holds_evolves st w w' H E) as (st' & H' & _). by exists st'. Qed.

Lemma wp_free_state w :
  owned p objs0 base w -> wp (free_state env p) (fun _ => released p objs0 base) w.
Proof.
  intros (st & Hobj & Hop). assert (w_objs w !! p = Some st) as Hst by (by rewrite Hobj, lookup_insert_eq).
  unfold free_state. rewrite (proj2 (Z.eqb_neq p 0)) by done. wp_step.
  eapply wp_deref; [exact Hst|]. cbv beta. do 7 wp_step. unfold free.
  destruct (has_clicert st) eqn:Hc; repeat first
    [ progress wp_step | eapply wp_deref; [exact Hst|]; cbv beta ];
    (split; [cbn; by rewrite Hobj, delete_insert_id|]); intros o; specialize (Hop o);
    unfold part_count in Hop; rewrite Hc in Hop; cbn [push world_traced w_hist opened];
    rewrite Z.eqb_refl; destruct o; count_parts; lia.
Qed.

Lemma wp_fail rc code w :
  owned p objs0 base w -> code <> HTTPS_MBED_OK ->
  wp (fail env p rc code)
    (fun r w' => hs_code r <> HTTPS_MBED_OK /\ hs_out r = 0 /\ released p objs0 base w') w.
Proof.
  intros H Hcode. unfold fail. wp_step. wp_use wp_free_state as _ w1 H1. by wp_step.
Qed.

(** What the handshake leaves. *)
Definition settled (r : hs_result) (w : world) : Prop :=
  (hs_code r = HTTPS_MBED_OK /\ hs_out r = p /\ owned p objs0 base w /\
   exists st, w_objs w !! p = Some st /\ deadline_ns st = 0) \/
  (hs_code r <> HTTPS_MBED_OK /\ hs_out r = 0 /\ released p objs0 base w).

Lemma wp_fail_settled rc code w :
  owned p objs0 base w -> code <> HTTPS_MBED_OK -> wp (fail env p rc code) settled w.
Proof. intros H Hc. eapply wp_mono; [|by apply wp_fail]. intros r w' ?. by right. Qed.

Lemma wp_handshake_loop n : forall w,
  owned p objs0 base w -> wp (handshake_loop pf env fuel n p) settled w.
Proof.
  induction n as [|n IH]; intros w H; cbn [handshake_loop]; [by wp_step|].
  do 2 wp_step. apply (owned_push _ _ _ _ (CHandshake p)) in H; [|done].
  wp_step. assert (evolves p (push (CHandshake p) w) (push (CHandshake p) w)) as E
    by (by apply evolves_refl, (owned_live _ objs0 base)).
  wp_use wp_run_any as rc w1 E1. pose proof (owned_evolves _ _ H E1) as H1.
  destruct (H1) as (st & Hobj & _).
  assert (w_objs w1 !! p = Some st) as Hst by (by rewrite Hobj, lookup_insert_eq).
  wp_step; [|wp_step].
  - wp_step. eapply wp_update; [exact Hst|]. wp_step. left. split_and!; [done..| |].
    + destruct H1 as (st' & Hobj' & O). exists (set_deadline 0 st'). cbn. rewrite Hobj in Hobj'.
      pose proof (f_equal (lookup p) Hobj') as E2. rewrite !lookup_insert_eq in E2.
      injection E2 as <-. rewrite Hobj, insert_insert_eq. by split.
    + eexists. cbn. by rewrite lookup_insert_eq.
  - wp_step. assert (evolves p w1 w1) as E2 by (by apply evolves_refl, (owned_live _ objs0 base)).
    wp_use wp_past_deadline as late w2 E3. pose proof (owned_evolves _ _ H1 E3) as H2.
    destruct late; [by apply wp_fail_settled|by apply IH].
  - do 3 wp_step. eapply wp_deref; [exact Hst|]. cbv beta. wp_step.
    apply (owned_push _ _ _ _ (CVerifyResult p)) in H1; [|done].
    wp_use wp_free_state as _ w2 H2. wp_step. right. cbn. by destruct (timed_out st).
Qed.

Lemma wp_handshake_connect host w :
  owned p objs0 base w -> wp (handshake_connect pf env fuel p host) settled w.
Proof.
  intros H. unfold handshake_connect. do 2 wp_step.
  apply (owned_push _ _ _ _ (CSslSetup p)) in H; [|done].
  wp_step; [by apply wp_fail_settled|]. do 2 wp_step.
  apply (owned_push _ _ _ _ (CSetHostname p host)) in H; [|done].
  wp_step; [by apply wp_fail_settled|]. do 2 wp_step.
  apply (owned_push _ _ _ _ (CSetBio p)) in H; [|done]. by apply wp_handshake_loop.
Qed.

(** Closes the goals at which a straight run of calls ends. *)
Ltac finish_held := solve
  [ apply wp_fail_settled; [eapply holds_owned; repeat (apply holds_push; [exact I|]); eassumption|done]
  | apply wp_handshake_connect; eapply holds_owned; repeat (apply holds_push; [exact I|]); eassumption ].

Lemma wp_handshake_identity host cert_pem cert_len key_pem key_len w st :
  holds st w -> has_clicert st = false ->
  wp (handshake_identity pf env fuel p host cert_pem cert_len key_pem key_len) settled w.
Proof.
  intros [Ho Hop] Hc. unfold handshake_identity. wp_step.
  2:{ apply wp_handshake_connect. by exists st. }
  do 5 wp_step. eapply wp_update; [cbn; by rewrite Ho, lookup_insert_eq|].
  match goal with |- wp _ _ ?x => set (w1 := x) end.
  assert (holds (set_has_clicert st) w1) as H.
  { split; [unfold w1; cbn; by rewrite Ho, insert_insert_eq|].
    intros o. unfold w1. cbn [push world_traced w_hist opened]. rewrite Z.eqb_refl, (Hop o).
    unfold part_count. rewrite Hc. destruct o; count_parts; cbn; lia. }
  clearbody w1. repeat wp_step; finish_held.
Qed.

Lemma wp_handshake_configure host skip min_version ca_pem ca_len cert_pem cert_len key_pem key_len w st :
  holds st w -> has_clicert st = false ->
  wp (handshake_configure pf env fuel p host skip min_version ca_pem ca_len cert_pem cert_len
        key_pem key_len) settled w.
Proof.
  intros H Hc. unfold handshake_configure. repeat wp_step; try finish_held;
    (eapply wp_handshake_identity; [repeat (apply holds_push; [exact I|]); exact H|done]).
Qed.
End ownership.


(** An outside in which everything succeeds, with a clock that advances at every call;
    the handshake sends two bytes and receives up to five. *)
Definition demo_env : environment call resp := fun h c =>
  match c as c return resp c with
  | CRsys nr _ data n => if nr =? 318 then (Z.max 0 n, replicate (Z.to_nat n) 7) else (zlen data, [])
  | CRead _ n => (0, [])
  | CArc4 n => replicate (Z.to_nat n) 7
  | CClock => (0, zlen h `mod` 1000)
  | CDrbgSeed _ => LEntropy [0; 0; 0] (fun r out o => LRet r)
  | CHandshake _ => LSend [1; 2] (fun r => LRecv 5 (fun r bs => LRet 0))
  | CSslWrite _ data => LSend data (fun r => LRet (zlen data))
  | CCloseNotify _ => LSend [9] (fun r => LRet 0)
  | CSslRead _ len => LRecv len (fun r bs => LRet (if 0 <? len then 1 else 0, if 0 <? len then [65] else []))
  | CPpoll _ _ _ _ => 1
  | CSelect _ _ _ _ => 1
  | CWrite _ data => zlen data
  | CCalloc => 4096
  | CCrtParse _ _ _ _ => 0
  | CPkParse _ _ _ => 0
  | CConfigDefaults _ => 0
  | COwnCert _ => 0
  | CSslSetup _ => 0
  | CSetHostname _ _ => 0
  | CVerifyResult _ => 0
  | CFree _ | CInit _ _ | CFreePart _ _ | CAddSource _ | CAuthmode _ _ | CCaChain _ | CConfRng _
  | CMinVersion _ _ | CSetBio _ => tt
  end.

Definition empty_world : world := {| w_hist := []; w_objs := ∅ |}.

Lemma demo_sane : sane demo_env.
Proof.
  split.
  - intros h. cbn -[Z.modulo]. pose proof (Z.mod_pos_bound (zlen h) 1000). lia.
  - intros h nr m. cbn -[zlen Z.max]. destruct (nr =? 318); cbn -[zlen Z.max]; intros H.
    + rewrite zlen_replicate. lia.
    + done.
  - intros h m Hm. cbn -[zlen]. rewrite zlen_replicate. lia.
  - intros h p len Hlen. cbn -[zlen]. constructor. intros r bs. constructor.
    destruct (Z.ltb_spec 0 len); unfold zlen; simpl; lia.
  - intros h p data. cbn -[zlen]. constructor. intros r. constructor. lia.
Qed.

