(* ===== verification/MbedContracts.v ===== *)
(** * The mbedTLS bridge: verification, read and write

    What is in force whenever a handshake runs, and what the read and write operations
    promise to the code that calls them. *)

From stdpp Require Import gmap.
From S2P Require Import Prelude Vec Eff MbedBridge MbedSafety.

(** ** Verification is configured before any handshake *)

(** [h] is a history, newest first: the peer must be verified against the given anchors
    and the given name. *)
Definition verifying (p : Z) (host : list Z) (h : list call) : Prop :=
  CSetHostname p host ∈ h /\ CAuthmode p true ∈ h /\ CCaChain p ∈ h /\ CAuthmode p false ∉ h.

(** Each handshake step of [new] was preceded by a history that satisfies [R]. *)
Definition guarded (p : Z) (R : list call -> Prop) (new : list call) : Prop :=
  forall a b, new = a ++ CHandshake p :: b -> R b.

(** Calls that do not bear on verification. *)
Definition quiet (c : call) : Prop :=
  match c with CHandshake _ | CAuthmode _ _ | CCaChain _ => False | _ => True end.

Lemma io_quiet c : io_call c -> quiet c.
Proof. by destruct c. Qed.

Section verification.
Context (pf : plat) (env : environment call resp) (fuel : nat) (Hsane : sane env).
Context (p : Z) (host : list Z) (h0 : list call).

(** The calls since [h0] satisfy [K], and every handshake among them was guarded. *)
Definition tracked (K : list call -> Prop) (w : world) : Prop :=
  live p w /\ exists new, w_hist w = new ++ h0 /\ guarded p (verifying p host) new /\ K new.

Lemma guarded_quiet cs new :
  Forall quiet cs -> guarded p (verifying p host) new -> guarded p (verifying p host) (cs ++ new).
Proof.
  induction 1 as [|c cs Hc _ IH]; intros G; [done|]. intros a b E.
  destruct a as [|a0 a]; cbn in E.
  - injection E as -> _. done.
  - injection E as _ E. by apply (IH G a b).
Qed.

Lemma verifying_quiet cs new :
  Forall quiet cs -> verifying p host new -> verifying p host (cs ++ new).
Proof.
  intros F (A & B & C & D). unfold verifying. rewrite !elem_of_app. split_and!; [by right..|].
  intros [E|E]; [|done]. rewrite Forall_forall in F. exact (F _ E).
Qed.

Lemma tracked_quiet w w' cs :
  Forall quiet cs -> w_hist w' = cs ++ w_hist w -> live p w' ->
  tracked (verifying p host) w -> tracked (verifying p host) w'.
Proof.
  intros F Hh Hl (_ & new & E & G & K). split; [done|]. exists (cs ++ new).
  rewrite Hh, E, app_assoc. split_and!; [done|by apply guarded_quiet|by apply verifying_quiet].
Qed.

Lemma tracked_evolves w w' :
  tracked (verifying p host) w -> evolves p w w' -> tracked (verifying p host) w'.
Proof.
  intros H E. pose proof (evolves_live _ _ _ E) as Hl. destruct E as [(new & Hh & F) _].
  eapply tracked_quiet; [|exact Hh|done|done]. eapply Forall_impl; [exact F|]. apply io_quiet.
Qed.

(** The end: every handshake was guarded; the record may be gone. *)
Definition guarded_history (h : list call) : Prop :=
  exists new, h = new ++ h0 /\ guarded p (verifying p host) new.
Definition all_guarded (w : world) : Prop := guarded_history (w_hist w).

Lemma guarded_cons c h : quiet c -> guarded_history h -> guarded_history (c :: h).
Proof.
  intros Hc (new & -> & G). exists (c :: new). split; [done|].
  apply (guarded_quiet [c]); [by repeat constructor|done].
Qed.

Lemma tracked_done K w : tracked K w -> all_guarded w.
Proof. intros (_ & new & ? & ? & _). by exists new. Qed.

Lemma wp_free_guarded w : live p w -> all_guarded w -> wp (free_state env p) (fun _ => all_guarded) w.
Proof.
  intros [st Hst] G. unfold free_state. wp_step; [by wp_step|]. wp_step.
  eapply wp_deref; [exact Hst|]. cbv beta. unfold free. do 7 wp_step.
  destruct (has_clicert st); repeat first
    [ progress wp_step | eapply wp_deref; [exact Hst|]; cbv beta ];
    unfold all_guarded; cbn [push world_traced w_hist];
    repeat (apply guarded_cons; [exact I|]); exact G.
Qed.

Lemma wp_fail_guarded rc code w :
  live p w -> all_guarded w -> wp (fail env p rc code) (fun _ => all_guarded) w.
Proof. intros H G. unfold fail. wp_step. wp_use wp_free_guarded as _ w1 H1. by wp_step. Qed.

Lemma wp_loop_guarded n : forall w,
  tracked (verifying p host) w -> wp (handshake_loop pf env fuel n p) (fun _ => all_guarded) w.
Proof.
  induction n as [|n IH]; intros w H; cbn [handshake_loop]; [by wp_step|]. do 2 wp_step.
  assert (tracked (verifying p host) (push (CHandshake p) w)) as H1.
  { destruct H as (Hl & new & E & G & K). split; [exact Hl|]. exists (CHandshake p :: new).
    cbn. rewrite E. split; [done|]. split.
    - intros [|a0 a] b Eb; [injection Eb as <-; done|injection Eb as _ Eb; by apply (G a b)].
    - destruct K as (A & B & C & D). unfold verifying. rewrite !elem_of_cons.
      split_and!; [by right..|]. by intros [?|?]. }
  clear H. wp_step. assert (evolves p (push (CHandshake p) w) (push (CHandshake p) w)) as E0
    by (apply evolves_refl; apply H1).
  wp_use wp_run_any as rc w1 E1. pose proof (tracked_evolves _ _ H1 E1) as H2.
  destruct (proj1 H2) as [st Hst].
  wp_step; [|wp_step].
  - wp_step. eapply wp_update; [exact Hst|]. wp_step. destruct (tracked_done _ _ H2) as (new & ? & ?).
    by exists new.
  - wp_step. assert (evolves p w1 w1) as E2 by (apply evolves_refl; apply H2).
    wp_use wp_past_deadline as late w2 E3. pose proof (tracked_evolves _ _ H2 E3) as H3.
    destruct late; [|by apply IH]. apply wp_fail_guarded; [apply H3|by eapply tracked_done].
  - do 3 wp_step. eapply wp_deref; [exact Hst|]. cbv beta. wp_step.
    assert (tracked (verifying p host) (push (CVerifyResult p) w1)) as H3
      by (by eapply (tracked_quiet w1 _ [CVerifyResult p]); [repeat constructor|done|apply H2|]).
    eapply wp_mono; [|apply wp_free_guarded; [apply H3|by eapply tracked_done]].
    intros ? w2 H4. by wp_step.
Qed.

(** The calls that configure the connection, up to its name. *)
Definition configured (new : list call) : Prop :=
  CAuthmode p true ∈ new /\ CCaChain p ∈ new /\ CAuthmode p false ∉ new.

Lemma wp_connect_guarded w :
  tracked configured w -> wp (handshake_connect pf env fuel p host) (fun _ => all_guarded) w.
Proof.
  intros (Hl & new & E & G & K). assert (all_guarded w) as Hw by (by exists new).
  unfold handshake_connect. do 2 wp_step. wp_step.
  { apply wp_fail_guarded; [exact Hl|]. by apply guarded_cons. }
  do 2 wp_step. wp_step.
  { apply wp_fail_guarded; [exact Hl|]. by repeat apply guarded_cons. }
  do 2 wp_step. apply wp_loop_guarded. split; [exact Hl|].
  exists ([CSetBio p; CSetHostname p host; CSslSetup p] ++ new). cbn. rewrite E. split; [done|].
  split; [apply (guarded_quiet [_; _; _]); [by repeat constructor|done]|].
  destruct K as (A & B & C). unfold verifying. rewrite !elem_of_cons. split_and!; [tauto..|].
  by intros [?|[?|[?|?]]].
Qed.

Lemma configured_cons c w :
  quiet c -> tracked configured w -> tracked configured (push c w).
Proof.
  intros Hc (Hl & new & E & G & A & B & C). split; [exact Hl|]. exists (c :: new). cbn.
  rewrite E. split; [done|]. split; [apply (guarded_quiet [c]); [by repeat constructor|done]|].
  unfold configured. rewrite !elem_of_cons. split_and!; [by right..|]. intros [<-|?]; done.
Qed.

Lemma configured_update w f st :
  w_objs w !! p = Some st -> tracked configured w ->
  tracked configured {| w_hist := w_hist w; w_objs := <[p := f st]> (w_objs w) |}.
Proof. intros _ (_ & H). split; [|exact H]. eexists. cbn. by rewrite lookup_insert_eq. Qed.

Lemma fail_configured rc code w :
  tracked configured w -> wp (fail env p rc code) (fun _ => all_guarded) w.
Proof. intros H. apply wp_fail_guarded; [apply H|by eapply tracked_done]. Qed.

Lemma wp_identity_guarded cert_pem cert_len key_pem key_len w :
  tracked configured w ->
  wp (handshake_identity pf env fuel p host cert_pem cert_len key_pem key_len)
    (fun _ => all_guarded) w.
Proof.
  intros H. unfold handshake_identity. wp_step; [|by apply wp_connect_guarded].
  destruct (proj1 H) as [st Hst]. do 5 wp_step. eapply wp_update; [exact Hst|].
  match goal with |- wp _ _ ?x => assert (tracked configured x) as H1; [|revert H1; generalize x] end.
  { apply (configured_update (push (CInit p PPkey) (push (CInit p PClicert) w))); [done|].
    by do 2 (apply configured_cons; [done|]). }
  clear H st Hst. intros w1 H1. repeat wp_step;
    first [apply fail_configured|apply wp_connect_guarded];
    repeat (apply configured_cons; [exact I|]); exact H1.
Qed.

(** Nothing about verification has been said yet. *)
Definition untouched (new : list call) : Prop :=
  (CAuthmode p false ∉ new) /\ forall c, c ∈ new -> quiet c.

Lemma untouched_cons c w : quiet c -> tracked untouched w -> tracked untouched (push c w).
Proof.
  intros Hc (Hl & new & E & G & A & B). split; [exact Hl|]. exists (c :: new). cbn.
  rewrite E. split; [done|]. split; [apply (guarded_quiet [c]); [by repeat constructor|done]|].
  unfold untouched. setoid_rewrite elem_of_cons. split; [intros [<-|?]; done|].
  intros c' [->|?]; auto.
Qed.

Lemma untouched_evolves w w' : tracked untouched w -> evolves p w w' -> tracked untouched w'.
Proof.
  intros (_ & new & E & G & A & B) Ev. split; [by eapply evolves_live|].
  destruct Ev as [(n1 & Hh & F) _]. exists (n1 ++ new). rewrite Hh, E, app_assoc.
  assert (Forall quiet n1) as F1 by (eapply Forall_impl; [exact F|]; apply io_quiet).
  split; [done|]. split; [by apply guarded_quiet|]. unfold untouched. setoid_rewrite elem_of_app.
  rewrite Forall_forall in F1. split; [intros [X|X]; [by apply F1 in X|done]|].
  intros c [X|X]; auto.
Qed.

Lemma configured_start w : tracked untouched w ->
  tracked configured (push (CCaChain p) (push (CAuthmode p true) w)).
Proof.
  intros (Hl & new & E & G & A & B). split; [exact Hl|].
  exists ([CCaChain p; CAuthmode p true] ++ new). cbn. rewrite E. split; [done|]. split.
  - intros a b Eb. destruct a as [|c0 [|c1 a]]; [discriminate Eb..|].
    injection Eb as _ _ Eb. by apply (G a b).
  - unfold configured. rewrite !elem_of_cons. split_and!; [tauto..|]. by intros [?|[?|?]].
Qed.

Lemma wp_configure_guarded min_version ca_pem ca_len cert_pem cert_len key_pem key_len w :
  tracked untouched w ->
  wp (handshake_configure pf env fuel p host false min_version ca_pem ca_len cert_pem cert_len
        key_pem key_len) (fun _ => all_guarded) w.
Proof.
  intros H. unfold handshake_configure. cbn [negb andb]. repeat wp_step;
    first [ apply wp_fail_guarded; [apply H|];
            apply (tracked_done untouched); repeat (apply untouched_cons; [exact I|]); exact H
          | apply wp_identity_guarded; repeat (apply configured_cons; [exact I|]);
            apply configured_start; repeat (apply untouched_cons; [exact I|]); exact H ].
Qed.
End verification.



(** ** Reading *)

Lemma leaves_both {A} (P Q : A -> Prop) l : leaves P l -> leaves Q l -> leaves (fun a => P a /\ Q a) l.
Proof.
  induction 1 as [a Ha|buf k Hk IH|len k Hk IH|out k Hk IH]; inversion 1; subst; constructor; auto.
Qed.

(** Only [s] changed in the heap, and it is live. *)
Definition only_conn (s : Z) (w w' : world) : Prop :=
  exists st st', w_objs w !! s = Some st /\ w_objs w' = <[s := st']> (w_objs w) /\
    fd st' = fd st /\ has_clicert st' = has_clicert st.

Lemma only_conn_refl s w : live s w -> only_conn s w w.
Proof. intros [st H]. exists st, st. by rewrite insert_id by done. Qed.

Lemma only_conn_live s w w' : only_conn s w w' -> live s w'.
Proof. intros (st & st' & _ & H & _). exists st'. by rewrite H, lookup_insert_eq. Qed.

Lemma only_conn_trans s w1 w2 w3 : only_conn s w1 w2 -> only_conn s w2 w3 -> only_conn s w1 w3.
Proof.
  intros (a & b & A & B & C & D) (a' & b' & A' & B' & C' & D').
  rewrite B, lookup_insert_eq in A'. injection A' as <-. exists a, b'.
  rewrite B', B, insert_insert_eq. split_and!; [done..|congruence|congruence].
Qed.

Lemma only_conn_evolves s w w' : evolves s w w' -> only_conn s w w'.
Proof. intros [_ (a & b & A & B & C & D & _)]. by exists a, b. Qed.

Lemma only_conn_push s w w' c : only_conn s w w' -> only_conn s w (push c w').
Proof. done. Qed.

(** What a read returns: the code, the buffer, [*n] and [*tls_err].  [P] is what is
    known of every result of mbedtls_ssl_read. *)
Record read_post (P : Z * list Z -> Prop) (buf : list Z) (len : Z)
    (r : Z * list Z * Z * Z) : Prop := {
  rp_code : r.1.1.1 = HTTPS_MBED_OK \/ r.1.1.1 = HTTPS_MBED_ERR_TIMEOUT \/ r.1.1.1 = HTTPS_MBED_ERR_IO;
  rp_length : zlen r.1.1.2 = zlen buf;
  rp_frame : zdrop len r.1.1.2 = zdrop len buf;
  rp_count : 0 <= r.1.2 <= len;
  rp_error : r.1.1.1 <> HTTPS_MBED_OK -> r.1.2 = 0;
  rp_data : 0 < r.1.2 -> P (r.1.2, ztake r.1.2 r.1.1.2);
  rp_eof : r.1.1.1 = HTTPS_MBED_OK -> r.1.2 = 0 ->
    exists rc bs, P (rc, bs) /\ (rc = 0 \/ rc = MBEDTLS_ERR_SSL_PEER_CLOSE_NOTIFY);
  rp_io : r.1.1.1 = HTTPS_MBED_ERR_IO ->
    exists bs, P (r.2, bs) /\ r.2 < 0 /\ want r.2 = false /\ r.2 <> MBEDTLS_ERR_SSL_PEER_CLOSE_NOTIFY
}.

Section reading.
Context (pf : plat) (env : environment call resp) (fuel : nat) (Hsane : sane env).
Context (s : Z) (len : Z) (P : Z * list Z -> Prop) (Hlen : 0 < len).
Context (HP : forall h, leaves P (env h (CSslRead s len))).

Lemma read_step_frame buf buf' bs :
  len <= zlen buf -> zlen bs <= len -> zlen buf' = zlen buf -> zdrop len buf' = zdrop len buf ->
  zlen (splice buf' 0 bs) = zlen buf /\ zdrop len (splice buf' 0 bs) = zdrop len buf.
Proof.
  intros Hb Hl L F. pose proof (zlen_nonneg bs). split; [rewrite zlen_splice; lia|].
  rewrite <- F. unfold splice. rewrite ztake_0. cbn [app]. rewrite zdrop_app_r by lia.
  rewrite zdrop_zdrop by lia. f_equal. lia.
Qed.

Lemma wp_read_loop buf (Hbuf : len <= zlen buf) n : forall w buf',
  live s w -> zlen buf' = zlen buf -> zdrop len buf' = zdrop len buf ->
  wp (read_loop pf env fuel n s buf' len)
    (fun r w' => read_post P buf len r /\ only_conn s w w') w.
Proof.
  induction n as [|n IH]; intros w buf' Hl L F; cbn [read_loop]; [by wp_step|]. wp_step.
  match goal with |- wp (ext _ ?c) _ _ => apply (wp_ext env c) end.
  pose proof (leaves_both _ _ _ (HP (hist w)) (ssl_read_fills env Hsane (hist w) s len ltac:(lia))) as HL.
  generalize dependent (env (hist w) (CSslRead s len)). intros l HL. cbv beta. wp_step.
  set (w0 := push (CSslRead s len) w).
  eapply wp_mono; [|apply (wp_run pf env fuel Hsane _ s w0 l HL w0); by apply evolves_refl].
  cbv beta. intros [rc bs] w1 [(Hp & Hb & Hrc) E]. cbn [fst snd] in *.
  assert (only_conn s w w1) as O
    by (eapply (only_conn_trans _ w w0); [by apply only_conn_push, only_conn_refl|by apply only_conn_evolves]).
  wp_step. rewrite store_splice by lia. apply wp_lift_Done.
  destruct (read_step_frame buf buf' bs Hbuf Hb L F) as [L1 F1].
  wp_step; bool_to_prop; [|wp_step; bool_to_prop].
  - wp_step. split; [|done]. specialize (Hrc ltac:(lia)). split; cbn [fst snd]; try done.
    + by left.
    + lia.
    + intros _. rewrite <- Hrc at 2. rewrite splice_0_prefix by lia. done.
    + intros _ ?. lia.
  - wp_step. split; [|done]. split; cbn [fst snd]; try done; [by left|lia|].
    intros _ _. exists rc, bs. split; [done|].
    apply orb_prop in Heqb0 as [?|?]; bool_to_prop; auto.
  - wp_step; [wp_step|].
    + eapply wp_mono; [|eapply wp_past_deadline, evolves_refl, only_conn_live; exact O].
      cbv beta. intros late w2 E2.
      assert (only_conn s w w2) as O2 by (eapply only_conn_trans; [exact O|by apply only_conn_evolves]).
      destruct late.
      * wp_step. split; [|done]. split; cbn [fst snd]; try done; [by right; left|lia].
      * eapply wp_mono; [|apply (IH w2 (splice buf' 0 bs)); [by eapply only_conn_live|done..]].
        cbv beta. intros r w3 [? ?]. split; [done|]. by eapply only_conn_trans.
    + destruct (only_conn_live _ _ _ O) as [st Hst]. wp_step. eapply wp_deref; [exact Hst|]. wp_step.
      split; [|done]. split; cbn [fst snd]; try done; [|lia|..].
      * destruct (timed_out st); auto.
      * by destruct (timed_out st).
      * intros _. exists bs. split_and!; [done|lia|done|done].
Qed.
End reading.

(** C35.  A read on a live connection touches nothing but the first [len] bytes of the
    buffer and the connection; it reports no more bytes than fit, and those it reports
    are the bytes mbedTLS delivered ([P] is whatever holds of each result of the
    library).  Success with no bytes means that the library reported the end of the
    stream, an I/O error that it reported an error, and no bytes are reported with an
    error.  The null handle and an empty buffer are answered without touching
    anything. *)
Theorem read_contract (pf : plat) (env : environment call resp) (fuel : nat)
  (handle : Z) (buf : list Z) (len timeout_ns : Z) (w : world) (P : Z * list Z -> Prop)
  (Hsane : sane env) (Htimeout : timeout_ns < 2 ^ 62) (Hbuf : len <= zlen buf)
  (Hlive : handle <> 0 -> live handle w)
  (HP : forall h, leaves P (env h (CSslRead handle len))) :
  wp (https_mbed_read pf env fuel handle buf len timeout_ns)
    (fun r w' =>
      if handle =? 0 then r = (HTTPS_MBED_ERR_CLOSED, buf, 0, 0) /\ w' = w
      else if len <=? 0 then r = (HTTPS_MBED_OK, buf, 0, 0) /\ w' = w
      else read_post P buf len r /\ only_conn handle w w') w.
Proof.
  unfold https_mbed_read. destruct (Z.eqb_spec handle 0); [by wp_step|].
  destruct (Z.leb_spec len 0); [by wp_step|]. specialize (Hlive ltac:(done)).
  wp_step. apply wp_deadline_of; [done..|]. intros d w1 Hw1 _ _. cbv beta.
  destruct Hlive as [st Hst].
  assert (w_objs w1 = w_objs w) as Ho by (by destruct Hw1 as [->| ->]).
  wp_step. eapply wp_update; [by rewrite Ho|]. wp_step.
  eapply wp_update; [cbn; by rewrite lookup_insert_eq|]. cbn [w_hist w_objs].
  rewrite insert_insert_eq. match goal with |- wp _ _ ?x => set (w2 := x) end.
  assert (only_conn handle w w2) as O.
  { exists st. eexists. split; [done|]. split; [unfold w2; cbn; by rewrite Ho|]. done. }
  eapply wp_mono; [|apply (wp_read_loop pf env fuel Hsane handle len P ltac:(lia) HP buf Hbuf fuel w2 buf);
    [by eapply only_conn_live|done..]].
  cbv beta. intros r w3 [? ?]. split; [done|]. by eapply only_conn_trans.
Qed.

Definition demo_world : world :=
  {| w_hist := []; w_objs := {[ 4096 := {| fd := 3; has_clicert := false; deadline_ns := 0; timed_out := false |} ]} |}.

Lemma read_contract_witness :
  wp (https_mbed_read (Linux X86_64) demo_env 10 4096 [0; 0; 0] 3 1000)
    (fun r w' => read_post (fun r => r = (1, [65])) [0; 0; 0] 3 r /\ only_conn 4096 demo_world w')
    demo_world /\
  exists w', https_mbed_read (Linux X86_64) demo_env 10 4096 [0; 0; 0] 3 1000 demo_world
    = Done (HTTPS_MBED_OK, [65; 0; 0], 1, 0, w').
Proof.
  split; [|eexists; vm_compute; reflexivity].
  apply (read_contract (Linux X86_64) demo_env 10 4096 [0; 0; 0] 3 1000 demo_world
    (fun r => r = (1, [65])) demo_sane).
  - lia.
  - done.
  - intros _. eexists. vm_compute. reflexivity.
  - intros h. constructor. intros r bs. by constructor.
Defined.

(** ** Writing *)

(** The data of each mbedtls_ssl_write call, oldest first. *)
Definition offers (s : Z) (new : list call) : list (list Z) :=
  omap (fun c => match c with
                 | CSslWrite q data => if q =? s then Some data else None
                 | _ => None
                 end) (rev new).

Lemma offers_io s new : Forall io_call new -> offers s new = [].
Proof.
  intros F. unfold offers. apply Forall_rev in F. induction F as [|c l Hc _ IH]; [done|].
  cbn. rewrite IH. by destruct c.
Qed.

Lemma offers_app s a b : offers s (a ++ b) = offers s b ++ offers s a.
Proof. unfold offers. by rewrite rev_app_distr, omap_app. Qed.

(** Suffixes of [data] at offsets that never go back, from [from] to [upto]. *)
Inductive resumes (data : list Z) : Z -> Z -> list (list Z) -> Prop :=
  | resumes_end from upto : from <= upto -> resumes data from upto []
  | resumes_next from k upto l : from <= k < zlen data -> resumes data k upto l ->
      resumes data from upto (zdrop k data :: l).

Lemma resumes_weaken data from from' upto l :
  from' <= from -> resumes data from upto l -> resumes data from' upto l.
Proof. intros H R. destruct R; constructor; try done; lia. Qed.

(** What a write returns: the code, [*n] and [*tls_err]. *)
Record write_post (s : Z) (data : list Z) (from : Z) (h0 : list call)
    (r : Z * Z * Z) (h : list call) : Prop := {
  wo_code : r.1.1 = HTTPS_MBED_OK \/ r.1.1 = HTTPS_MBED_ERR_TIMEOUT \/ r.1.1 = HTTPS_MBED_ERR_IO;
  wo_count : from <= r.1.2 <= zlen data;
  wo_ok : r.1.1 = HTTPS_MBED_OK <-> r.1.2 = zlen data;
  wo_offers : exists new, h = new ++ h0 /\ resumes data from r.1.2 (offers s new)
}.

Section writing.
Context (pf : plat) (env : environment call resp) (fuel : nat) (Hsane : sane env) (s : Z).

Lemma load_suffix buf len k :
  0 <= k <= len -> len <= zlen buf -> load buf k (len - k) = Done (zdrop k (ztake len buf)).
Proof.
  intros Hk Hl. rewrite load_Done by lia. f_equal.
  replace len with (k + (len - k)) at 2 by lia. rewrite ztake_add by lia.
  rewrite zdrop_app_r by zlens. replace (k - zlen (ztake k buf)) with 0 by zlens.
  by rewrite zdrop_0.
Qed.

Lemma write_post_step data from k h0 r h new1 :
  from <= k < zlen data -> Forall io_call new1 ->
  write_post s data k (new1 ++ CSslWrite s (zdrop k data) :: h0) r h ->
  write_post s data from h0 r h.
Proof.
  intros Hk F [C N K (new & Hh & R)]. split; [done|lia|done|].
  exists (new ++ new1 ++ [CSslWrite s (zdrop k data)]). split.
  - by rewrite Hh, <- !app_assoc.
  - rewrite !offers_app, (offers_io s new1) by done. cbn. rewrite Z.eqb_refl.
    by apply resumes_next.
Qed.

Lemma wp_write_loop buf len (Hbuf : len <= zlen buf) n : forall w k,
  live s w -> 0 <= k <= len ->
  wp (write_loop pf env fuel n s buf len k)
    (fun r w' => write_post s (ztake len buf) k (w_hist w) r (w_hist w') /\ only_conn s w w') w.
Proof.
  assert (forall k, 0 <= k <= len -> zlen (ztake len buf) = len) as L by (intros; zlens).
  induction n as [|n IH]; intros w k Hl Hk; cbn [write_loop]; [by wp_step|].
  specialize (L k Hk). set (data := ztake len buf) in *.
  wp_step; bool_to_prop.
  2:{ wp_step. split; [|by apply only_conn_refl]. split; cbn [fst snd]; [by left|lia|split; [lia|done]|].
      exists []. split; [done|]. constructor. lia. }
  wp_step. rewrite load_suffix by lia. apply wp_lift_Done. fold data. wp_step.
  match goal with |- wp (ext _ ?c) _ _ => apply (wp_ext env c) end.
  pose proof (ssl_write_takes env Hsane (hist w) s (zdrop k data)) as HL.
  generalize dependent (env (hist w) (CSslWrite s (zdrop k data))). intros l HL. cbv beta. wp_step.
  set (w0 := push (CSslWrite s (zdrop k data)) w).
  eapply wp_mono; [|apply (wp_run pf env fuel Hsane _ s w0 l HL w0); by apply evolves_refl].
  cbv beta. intros rc w1 [Hrc E]. rewrite zlen_zdrop in Hrc by lia.
  assert (only_conn s w w1) as O by (eapply (only_conn_trans _ w w0);
    [by apply only_conn_push, only_conn_refl|by apply only_conn_evolves]).
  pose proof (only_conn_live _ _ _ O) as Hl1.
  destruct E as [(new1 & Hh1 & F1) _]. cbn in Hh1.
  assert (forall k', k <= k' <= len -> forall r w', write_post s data k' (w_hist w1) r (w_hist w') ->
    write_post s data k (w_hist w) r (w_hist w')) as Step.
  { intros k' Hk' r w' [C N K (new & Hh & R)]. apply (write_post_step _ _ k _ _ _ new1); [lia|done|].
    split; [done|lia|done|]. exists new. rewrite Hh, Hh1. split; [done|].
    eapply resumes_weaken; [|exact R]. lia. }
  wp_step; bool_to_prop; [|wp_step].
  - eapply wp_mono; [|apply (IH w1 (k + rc)); [done|lia]]. cbv beta. intros r w2 [W O2].
    split; [apply (Step (k + rc)); [lia|done]|by eapply only_conn_trans].
  - wp_step. eapply wp_mono; [|eapply wp_past_deadline, evolves_refl; exact Hl1].
    cbv beta. intros late w2 E2.
    assert (only_conn s w w2) as O2 by (eapply only_conn_trans; [exact O|by apply only_conn_evolves]).
    assert (forall r w', write_post s data k (w_hist w2) r (w_hist w') ->
      write_post s data k (w_hist w) r (w_hist w')) as Step2.
    { destruct E2 as [(new2 & Hh2 & F2) _]. intros r w' [C N K (new & Hh & R)].
      apply (Step k ltac:(lia)). split; [done..|]. exists (new ++ new2).
      rewrite Hh, Hh2, app_assoc, offers_app, (offers_io s new2) by done. done. }
    destruct late.
    + wp_step. split; [|done]. apply Step2.
      split; cbn [fst snd]; [by right; left|lia|split; [done|lia]|].
      exists []. split; [done|]. constructor. lia.
    + eapply wp_mono; [|apply (IH w2 k); [by eapply only_conn_live|lia]]. cbv beta.
      intros r w3 [W O3]. split; [by apply Step2|by eapply only_conn_trans].
  - destruct Hl1 as [st Hst]. wp_step. eapply wp_deref; [exact Hst|]. wp_step. split; [|done].
    apply (Step k ltac:(lia)). split; cbn [fst snd]; [|lia| |].
    + destruct (timed_out st); auto.
    + split; [by destruct (timed_out st)|lia].
    + exists []. split; [done|]. constructor. lia.
Qed.
End writing.

(** A write offers the library the caller's bytes in order, always resuming
    where it was told the library stopped, and reports how far it got: success exactly
    when everything was taken, and on a time-out or an error the count of the bytes
    that were, from which the caller can go on. *)
Theorem write_contract (pf : plat) (env : environment call resp) (fuel : nat)
  (handle : Z) (buf : list Z) (len timeout_ns : Z) (w : world)
  (Hsane : sane env) (Htimeout : timeout_ns < 2 ^ 62) (Hbuf : len <= zlen buf)
  (Hlive : handle <> 0 -> live handle w) :
  wp (https_mbed_write pf env fuel handle buf len timeout_ns)
    (fun r w' =>
      if handle =? 0 then r = (HTTPS_MBED_ERR_CLOSED, 0, 0) /\ w' = w
      else if len <=? 0 then r = (HTTPS_MBED_OK, 0, 0) /\ w' = w
      else only_conn handle w w' /\
           write_post handle (ztake len buf) 0 (w_hist w) r (w_hist w')) w.
Proof.
  unfold https_mbed_write. destruct (Z.eqb_spec handle 0); [by wp_step|].
  destruct (Z.leb_spec len 0); [by wp_step|]. specialize (Hlive ltac:(done)).
  wp_step. apply wp_deadline_of; [done..|]. intros d w1 Hw1 _ _. cbv beta.
  destruct Hlive as [st Hst].
  assert (w_objs w1 = w_objs w /\ exists c, w_hist w1 = c ++ w_hist w /\ Forall io_call c)
    as (Ho & c & Hc & Fc).
  { destruct Hw1 as [->| ->]; (split; [done|]); [by exists []|exists [CClock]].
    split; [done|]. by repeat constructor. }
  wp_step. eapply wp_update; [by rewrite Ho|]. wp_step.
  eapply wp_update; [cbn; by rewrite lookup_insert_eq|]. cbn [w_hist w_objs].
  rewrite insert_insert_eq. match goal with |- wp _ _ ?x => set (w2 := x) end.
  assert (only_conn handle w w2) as O.
  { exists st. eexists. split; [done|]. split; [unfold w2; cbn; by rewrite Ho|]. done. }
  eapply wp_mono; [|apply (wp_write_loop pf env fuel Hsane handle buf len Hbuf fuel w2 0);
    [by eapply only_conn_live|lia]].
  cbv beta. intros r w3 [[C N K (new & Hh & R)] ?]. split; [by eapply only_conn_trans|].
  split; [done..|]. exists (new ++ c). rewrite offers_app, (offers_io _ c) by done.
  split; [|done]. rewrite Hh. cbn. by rewrite Hc, app_assoc.
Qed.

Lemma write_contract_witness :
  wp (https_mbed_write Darwin demo_env 10 4096 [1; 2; 3; 4] 3 0)
    (fun r w' => only_conn 4096 demo_world w' /\
       write_post 4096 [1; 2; 3] 0 [] r (w_hist w')) demo_world /\
  exists w', https_mbed_write Darwin demo_env 10 4096 [1; 2; 3; 4] 3 0 demo_world
    = Done (HTTPS_MBED_OK, 3, 0, w').
Proof.
  split; [|eexists; vm_compute; reflexivity].
  apply (write_contract Darwin demo_env 10 4096 [1; 2; 3; 4] 3 0 demo_world demo_sane).
  - lia.
  - done.
  - intros _. eexists. vm_compute. reflexivity.
Defined.
