(* ===== verification/MbedLiveness.v ===== *)
(** * The mbedTLS bridge: release, termination and the readiness wait

    A closed connection leaves nothing behind; an operation with a deadline returns
    once the clock has passed it and the system has stopped interrupting; and the one
    wait that this does not hold of. *)

From stdpp Require Import gmap.
From S2P Require Import Prelude Vec Eff MbedBridge MbedSafety MbedContracts.

(** ** Closing *)

(** Closing a connection that a handshake returned, whatever its state since,
    releases each of its contexts exactly once and its record, and nothing else. *)
Theorem close_releases (pf : plat) (env : environment call resp) (fuel : nat) (p : Z)
  (objs0 : gmap Z https_mbed) (base : part -> Z) (w : world)
  (Hsane : sane env) (Hp : p <> 0) (Hfresh : objs0 !! p = None) (Hown : owned p objs0 base w) :
  wp (https_mbed_close pf env fuel p) (fun _ => released p objs0 base) w.
Proof.
  unfold https_mbed_close. rewrite (proj2 (Z.eqb_neq p 0)) by done. wp_step. unfold now_ns.
  wp_step. apply (wp_ext env CClock). pose proof (clock_range env Hsane (w_hist w)) as Hc.
  change (hist w) with (w_hist w). destruct (env (w_hist w) CClock) as [sec nsec]. simpl in Hc.
  do 2 wp_step. unfold add64. wp_step;
    [|apply andb_false_iff in Heqb as [E|E]; bool_to_prop; lia]. do 2 wp_step.
  pose proof (owned_push _ _ _ _ CClock I Hown) as (st & Ho & Hop).
  eapply wp_update; [by rewrite Ho, lookup_insert_eq|].
  match goal with |- wp _ _ ?x => set (w1 := x) end.
  assert (owned p objs0 base w1) as H1.
  { eexists. split; [unfold w1; cbn; cbn in Ho; by rewrite Ho, insert_insert_eq|]. exact Hop. }
  clearbody w1. do 3 wp_step. apply (owned_push _ _ _ _ (CCloseNotify p)) in H1; [|done].
  assert (evolves p (push (CCloseNotify p) w1) (push (CCloseNotify p) w1)) as E
    by (by apply evolves_refl, (owned_live _ objs0 base)).
  wp_use wp_run_any as rc w2 E2. pose proof (owned_evolves _ _ _ _ _ H1 E2) as H2.
  by apply wp_free_state.
Qed.

Lemma close_releases_witness :
  wp (https_mbed_close Darwin demo_env 10 4096)
    (fun _ => released 4096 ∅ (fun o => match o with PClicert | PPkey => 0 | _ => -1 end)) demo_world.
Proof.
  apply (close_releases Darwin demo_env 10 4096 ∅ _ demo_world demo_sane).
  - done.
  - reflexivity.
  - eexists. split; [reflexivity|]. by intros [].
Defined.

(** ** Termination *)

(** Entropy buffers of at most [E] bytes. *)
Inductive entropy_le (E : Z) {A} : lib A -> Prop :=
  | entropy_ret a : entropy_le E (LRet a)
  | entropy_send buf k : (forall r, entropy_le E (k r)) -> entropy_le E (LSend buf k)
  | entropy_recv len k : (forall r bs, entropy_le E (k r bs)) -> entropy_le E (LRecv len k)
  | entropy_poll out k : zlen out <= E -> (forall r bs o, entropy_le E (k r bs o)) ->
      entropy_le E (LEntropy out k).

Definition clock_at (env : environment call resp) (h : list call) : Z :=
  (env h CClock).1 * 1000000000 + (env h CClock).2.

(** After [N] calls the clock has reached [D] and the system no longer interrupts. *)
Record settles (env : environment call resp) (N : nat) (D : Z) : Prop := {
  settles_clock h : (N <= length h)%nat -> D <= clock_at env h;
  settles_ppoll h nr fd ev t : (N <= length h)%nat -> env h (CPpoll nr fd ev t) <> - EINTR;
  settles_select h nfds fd fw t : (N <= length h)%nat -> 0 <= env h (CSelect nfds fd fw t);
  settles_getrandom h nr m : (N <= length h)%nat -> (env h (CRsys nr 0 [] m)).1 <> - EINTR
}.

Section termination.
Context (pf : plat) (env : environment call resp) (fuel N : nat) (D E : Z).
Context (Hsane : sane env) (Hset : settles env N D) (HE : 0 <= E).
Context (Hfuel : (N + Z.to_nat E < fuel)%nat).

Lemma twp_deref p (Q : https_mbed -> world -> Prop) w st :
  w_objs w !! p = Some st -> Q st w -> twp (deref p) Q w.
Proof. unfold twp, deref. by intros ->. Qed.
Lemma twp_update p f (Q : unit -> world -> Prop) w st :
  w_objs w !! p = Some st ->
  Q tt {| w_hist := w_hist w; w_objs := <[p := f st]> (w_objs w) |} -> twp (update p f) Q w.
Proof. unfold twp, update. by intros ->. Qed.

(** A program that ends and whose partial specification is known. *)
Lemma twp_of_wp {A} (m : M world A) Q w : twp m (fun _ _ => True) w -> wp m Q w -> twp m Q w.
Proof. unfold twp, wp. by destruct (m w) as [[a w']| |]. Qed.

Lemma twp_wait_linux a fd fw d now n : forall w,
  (N < n + length (w_hist w))%nat -> (0 < n)%nat ->
  twp (plat_wait_linux env n a fd fw d now) (fun _ _ => True) w.
Proof.
  induction n as [|n IH]; intros w Hn Hp; [lia|]. cbn [plat_wait_linux].
  destruct (_ && _); [by twp_step|]. do 2 twp_step. destruct (_ >? 0); [by twp_step|].
  destruct (_ =? 0); [by twp_step|].
  match goal with |- twp (if (?r =? _) then _ else _) _ _ => destruct (Z.eqb_spec r (- EINTR)) as [Er|] end;
    [|by twp_step].
  assert (~ (N <= length (w_hist w))%nat).
  { intros H. by apply (settles_ppoll env N D Hset (w_hist w)) in Er. }
  apply IH; cbn; lia.
Qed.

Lemma twp_wait_darwin fd fw d now n : forall w,
  (N < n + length (w_hist w))%nat -> (0 < n)%nat ->
  twp (plat_wait_darwin_loop env n fd fw d now) (fun _ _ => True) w.
Proof.
  induction n as [|n IH]; intros w Hn Hp; [lia|]. cbn [plat_wait_darwin_loop].
  destruct (_ && _); [by twp_step|]. do 2 twp_step.
  match goal with |- twp (if ?r >? 0 then _ else _) _ _ => set (rc := r) end.
  destruct (rc >? 0) eqn:E1; [by twp_step|]. destruct (rc =? 0) eqn:E2; [by twp_step|]. bool_to_prop.
  assert (~ (N <= length (w_hist w))%nat).
  { intros H. pose proof (settles_select env N D Hset (w_hist w) (fd + 1) fd fw
      (if d =? 0 then None else Some (timeval_of (d - now))) H) as X.
    change (env (w_hist w) _) with rc in X. lia. }
  apply IH; cbn; lia.
Qed.

Lemma twp_wait fd fw d now w : twp (plat_wait pf env fuel fd fw d now) (fun _ _ => True) w.
Proof.
  unfold plat_wait. destruct pf as [a|]; [apply twp_wait_linux; lia|].
  unfold plat_wait_darwin. destruct (_ || _); [by twp_step|]. apply twp_wait_darwin; lia.
Qed.

Lemma twp_random a n : forall out got w,
  0 <= got <= zlen out ->
  Z.max 0 (Z.of_nat N - Z.of_nat (length (w_hist w))) + (zlen out - got) < Z.of_nat n ->
  twp (plat_random_linux env n a out got) (fun _ _ => True) w.
Proof.
  induction n as [|n IH]; intros out got w Hg Hn; [lia|]. cbn [plat_random_linux].
  destruct (Z.ltb_spec got (zlen out)); [|by twp_step]. twp_step.
  match goal with |- twp (ext _ ?c) _ _ => apply (twp_ext env c) end.
  pose proof (getrandom_fills env Hsane (w_hist w) (SYS_getrandom_n a) (zlen out - got)) as Hr.
  pose proof (settles_getrandom env N D Hset (w_hist w) (SYS_getrandom_n a) (zlen out - got)) as Hs.
  change (hist w) with (w_hist w). destruct (env (w_hist w) _) as [r bs]. cbn [fst snd] in *.
  cbv zeta in Hr. cbv beta iota.
  destruct (Z.leb_spec r 0).
  - destruct (Z.eqb_spec r (- EINTR)); [|by twp_step]. apply IH; [done|]. cbn [push world_traced w_hist length].
    lia.
  - destruct Hr as [Hb Hm]; [lia|]. twp_step. rewrite store_splice by lia. apply twp_lift_Done.
    apply IH; rewrite zlen_splice by lia; [lia|]. cbn [push world_traced w_hist length]. lia.
Qed.

Lemma twp_not_ready s fw w : live s w -> twp (not_ready pf env fuel s fw) (fun _ _ => True) w.
Proof.
  intros [st Hst]. unfold not_ready, wait_ready, now_ns. twp_step.
  eapply twp_deref; [exact Hst|]. cbv beta. destruct (_ =? 0); [by twp_step|]. do 2 twp_step.
  eapply twp_deref; [exact Hst|]. cbv beta. do 3 twp_step.
  destruct (env (hist w) CClock). twp_step. eapply twp_mono; [|apply twp_wait]. intros. by twp_step.
Qed.

Lemma twp_ready_evolves s fw w :
  live s w -> twp (not_ready pf env fuel s fw) (fun _ => evolves s w) w.
Proof.
  intros H. apply twp_of_wp; [by apply twp_not_ready|]. by apply wp_not_ready_evolves, evolves_refl.
Qed.

Lemma twp_timed_out s w : live s w -> twp (update s (set_timed_out true)) (fun _ _ => True) w.
Proof. intros [st H]. by eapply twp_update. Qed.

Lemma twp_send s buf w : live s w -> twp (bio_send pf env fuel s buf) (fun _ _ => True) w.
Proof.
  intros H. unfold bio_send. twp_step. eapply twp_mono; [|by apply twp_ready_evolves].
  cbv beta. intros late w1 E1. pose proof (evolves_live _ _ _ E1) as H1. destruct late.
  - twp_step. eapply twp_mono; [|by apply twp_timed_out]. intros. by twp_step.
  - destruct H1 as [st Hst]. twp_step. eapply twp_deref; [exact Hst|]. unfold plat_write.
    destruct pf; repeat twp_step; done.
Qed.

Lemma twp_recv s len w : live s w -> twp (bio_recv pf env fuel s len) (fun _ _ => True) w.
Proof.
  intros H. unfold bio_recv. twp_step. eapply twp_mono; [|by apply twp_ready_evolves].
  cbv beta. intros late w1 E1. pose proof (evolves_live _ _ _ E1) as H1. destruct late.
  - twp_step. eapply twp_mono; [|by apply twp_timed_out]. intros. by twp_step.
  - destruct H1 as [st Hst]. twp_step. eapply twp_deref; [exact Hst|]. unfold plat_read.
    destruct pf; repeat twp_step; done.
Qed.

Lemma twp_entropy out w : zlen out <= E -> twp (entropy_platform pf env fuel out) (fun _ _ => True) w.
Proof.
  intros H. pose proof (zlen_nonneg out). unfold entropy_platform, plat_random. twp_step.
  destruct pf as [a|].
  - eapply twp_mono; [|apply twp_random; lia]. cbv beta. intros [rc o] w1 _. repeat twp_step; done.
  - do 3 twp_step. pose proof (arc4_fills env Hsane (hist w) (zlen out) ltac:(lia)) as Ha.
    rewrite store_splice by lia. apply twp_lift_Done. repeat twp_step; done.
Qed.

Lemma twp_run {A} s (l : lib A) : entropy_le E l -> forall w,
  live s w -> twp (run pf env fuel s l) (fun _ => evolves s w) w.
Proof.
  intros Hl w Hw. apply twp_of_wp; [|by apply wp_run_any, evolves_refl]. revert w Hw.
  induction Hl as [a|buf k Hk IH|len k Hk IH|out k Ho Hk IH]; intros w Hw; cbn [run]; [done|..]; twp_step.
  - eapply twp_mono; [|apply twp_of_wp; [by apply twp_send|apply wp_send_evolves, evolves_refl; done]].
    cbv beta. intros r w1 E1. apply IH. by eapply evolves_live.
  - eapply twp_mono; [|apply twp_of_wp; [by apply twp_recv|apply wp_recv_evolves, evolves_refl; done]].
    cbv beta. intros [r bs] w1 E1. apply IH. by eapply evolves_live.
  - eapply twp_mono; [|apply twp_of_wp; [by apply twp_entropy|apply wp_entropy_evolves, evolves_refl; done]].
    cbv beta. intros [[r bs] o] w1 E1. apply IH. by eapply evolves_live.
Qed.

(** The record at [s] has a deadline that the clock will reach. *)
Definition due (s : Z) (w : world) : Prop :=
  exists st, w_objs w !! s = Some st /\ 0 < deadline_ns st <= D.

Lemma due_live s w : due s w -> live s w.
Proof. intros (st & H & _). by exists st. Qed.

Lemma due_evolves s w w' : due s w -> evolves s w w' -> due s w'.
Proof.
  intros (st & H & Hd) [_ (a & b & A & B & (_ & _ & C & _))]. rewrite H in A. injection A as <-.
  exists b. rewrite B, lookup_insert_eq, C. done.
Qed.

Lemma evolves_length s w w' : evolves s w w' -> (length (w_hist w) <= length (w_hist w'))%nat.
Proof. intros [(new & -> & _) _]. rewrite length_app. lia. Qed.

Lemma twp_past_deadline s w :
  due s w -> twp (past_deadline env s)
    (fun late w' => (late = false -> (length (w_hist w) < N)%nat) /\ evolves s w w') w.
Proof.
  intros (st & Hst & Hd). unfold past_deadline, now_ns. twp_step. eapply twp_deref; [exact Hst|].
  cbv beta. rewrite (proj2 (Z.eqb_neq _ 0)) by lia. do 3 twp_step.
  pose proof (settles_clock env N D Hset (w_hist w)) as Hc. unfold clock_at in Hc.
  change (hist w) with (w_hist w). destruct (env (w_hist w) CClock) as [sec nsec]. cbn [fst snd] in Hc.
  do 2 twp_step. split.
  - intros Hlate. bool_to_prop. destruct (le_lt_dec N (length (w_hist w))) as [HN|]; [|done].
    specialize (Hc HN). lia.
  - apply evolves_push; [done|]. apply evolves_refl. by exists st.
Qed.

Lemma twp_read_loop s len (buf : list Z) (Hlen : 0 < len) (Hbuf : len <= zlen buf)
    (HEr : forall h, entropy_le E (env h (CSslRead s len))) n : forall w buf',
  due s w -> zlen buf' = zlen buf -> (N < n + length (w_hist w))%nat -> (0 < n)%nat ->
  twp (read_loop pf env fuel n s buf' len) (fun _ _ => True) w.
Proof.
  induction n as [|n IH]; intros w buf' Hw L Hn Hp; [lia|]. cbn [read_loop]. twp_step.
  match goal with |- twp (ext _ ?c) _ _ => apply (twp_ext env c) end.
  pose proof (HEr (hist w)) as HL. pose proof (ssl_read_fills env Hsane (hist w) s len ltac:(lia)) as HF.
  generalize dependent (env (hist w) (CSslRead s len)). intros l HL HF. twp_step.
  set (w0 := push (CSslRead s len) w). assert (due s w0) as Hw0 by exact Hw.
  eapply twp_mono; [|apply (twp_of_wp (run pf env fuel s l) _ w0)]; [|shelve|
    apply (wp_run pf env fuel Hsane _ s w0 l HF w0); apply evolves_refl; by apply due_live].
  Unshelve. 2:{ eapply twp_mono; [|apply twp_run; [done|by apply due_live]]. done. }
  cbv beta. intros [rc bs] w1 [[Hb _] E1]. cbn [fst snd] in Hb.
  pose proof (due_evolves _ _ _ Hw0 E1) as Hw1. pose proof (evolves_length _ _ _ E1) as Hlen1.
  cbn [w0 push world_traced w_hist length] in Hlen1.
  twp_step. rewrite store_splice by lia. apply twp_lift_Done.
  destruct (rc >? 0); [by twp_step|]. destruct (_ || _); [by twp_step|].
  destruct (want rc).
  - twp_step. eapply twp_mono; [|by apply twp_past_deadline]. cbv beta.
    intros late w2 [Hlate E2]. pose proof (evolves_length _ _ _ E2).
    destruct late; [by twp_step|]. specialize (Hlate eq_refl).
    apply IH; [by eapply due_evolves|rewrite zlen_splice; lia|lia|lia].
  - destruct Hw1 as (st & Hst & _). twp_step. eapply twp_deref; [exact Hst|]. by twp_step.
Qed.

Lemma twp_write_loop s (buf : list Z) len (Hbuf : len <= zlen buf)
    (HEw : forall h data, entropy_le E (env h (CSslWrite s data))) n : forall w k,
  due s w -> 0 <= k <= len ->
  Z.max 0 (Z.of_nat N - Z.of_nat (length (w_hist w))) + (len - k) < Z.of_nat n ->
  twp (write_loop pf env fuel n s buf len k) (fun _ _ => True) w.
Proof.
  induction n as [|n IH]; intros w k Hw Hk Hn; [lia|]. cbn [write_loop].
  destruct (Z.ltb_spec k len); [|by twp_step]. twp_step. rewrite load_suffix by lia.
  apply twp_lift_Done. twp_step. set (data := zdrop k (ztake len buf)).
  assert (zlen data = len - k) as Ld by (unfold data; zlens).
  match goal with |- twp (ext _ ?c) _ _ => apply (twp_ext env c) end.
  pose proof (HEw (hist w) data) as HL. pose proof (ssl_write_takes env Hsane (hist w) s data) as HF.
  generalize dependent (env (hist w) (CSslWrite s data)). intros l HL HF. twp_step.
  set (w0 := push (CSslWrite s data) w). assert (due s w0) as Hw0 by exact Hw.
  eapply twp_mono; [|apply (twp_of_wp (run pf env fuel s l) _ w0)]; [|shelve|
    apply (wp_run pf env fuel Hsane _ s w0 l HF w0); apply evolves_refl; by apply due_live].
  Unshelve. 2:{ eapply twp_mono; [|apply twp_run; [done|by apply due_live]]. done. }
  cbv beta. intros rc w1 [Hrc E1].
  pose proof (due_evolves _ _ _ Hw0 E1) as Hw1. pose proof (evolves_length _ _ _ E1) as Hlen1.
  cbn [w0 push world_traced w_hist length] in Hlen1.
  destruct (Z.gtb_spec rc 0); [apply IH; [done|lia|lia]|].
  destruct (want rc).
  - twp_step. eapply twp_mono; [|by apply twp_past_deadline]. cbv beta.
    intros late w2 [Hlate E2]. pose proof (evolves_length _ _ _ E2).
    destruct late; [by twp_step|]. specialize (Hlate eq_refl).
    apply IH; [by eapply due_evolves|lia|lia].
  - destruct Hw1 as (st & Hst & _). twp_step. eapply twp_deref; [exact Hst|]. by twp_step.
Qed.
End termination.


(** Setting the deadline of an operation with a time-out. *)
Lemma twp_deadline env t (Q : Z -> world -> Prop) w :
  sane env -> 0 < t < 2 ^ 62 -> Q (clock_at env (w_hist w) + t) (push CClock w) ->
  twp (deadline_of env t) Q w.
Proof.
  intros Hsane Ht HQ. unfold deadline_of, now_ns. rewrite Z.gtb_ltb, (proj2 (Z.ltb_lt 0 t)) by lia.
  do 3 twp_step. pose proof (clock_range env Hsane (w_hist w)) as Hc. unfold clock_at in HQ.
  change (hist w) with (w_hist w). destruct (env (w_hist w) CClock) as [sec nsec]. cbn [fst snd] in *.
  twp_step. unfold add64. destruct (_ && _) eqn:Eb; [by twp_step|].
  apply andb_false_iff in Eb as [Eb|Eb]; bool_to_prop; lia.
Qed.

(** C36.  With a time-out, a read and a write return: once the clock has passed the
    deadline and the system has stopped interrupting waits (after [N] calls, whatever
    happened until then), at most that many rounds more are made. *)
Theorem deadline_bounds_io (pf : plat) (env : environment call resp) (fuel N : nat) (E : Z)
  (handle : Z) (buf : list Z) (len timeout_ns : Z) (w : world)
  (Hsane : sane env) (Htimeout : 0 < timeout_ns < 2 ^ 62)
  (Hset : settles env N (clock_at env (w_hist w) + timeout_ns))
  (Hentropy : 0 <= E /\ forall h data, entropy_le E (env h (CSslRead handle len)) /\
                                   entropy_le E (env h (CSslWrite handle data)))
  (Hfuel : Z.of_nat N + E + Z.max 0 len < Z.of_nat fuel) (Hbuf : len <= zlen buf)
  (Hlive : handle <> 0 -> live handle w) :
  (exists r w', https_mbed_read pf env fuel handle buf len timeout_ns w = Done (r, w')) /\
  (exists r w', https_mbed_write pf env fuel handle buf len timeout_ns w = Done (r, w')).
Proof.
  destruct Hentropy as [HE Hent].
  pose proof (clock_range env Hsane (w_hist w)) as Hc. fold (clock_at env (w_hist w)) in Hc.
  assert (forall A (m : M world A), twp m (fun _ _ => True) w -> exists r w', m w = Done (r, w')) as X
    by (intros A m H; destruct (twp_Done _ _ _ H) as (a & w' & ? & _); eauto).
  split; apply X; clear X; [unfold https_mbed_read|unfold https_mbed_write];
    (destruct (Z.eqb_spec handle 0); [by twp_step|]); (destruct (Z.leb_spec len 0); [by twp_step|]);
    destruct (Hlive ltac:(done)) as [st Hst]; twp_step; (apply twp_deadline; [done..|]); twp_step;
    (eapply twp_update; [exact Hst|]); twp_step;
    (eapply twp_update; [cbn; by rewrite lookup_insert_eq|]).
  - apply (twp_read_loop pf env fuel N (clock_at env (w_hist w) + timeout_ns) E) with (buf := buf);
      [done..|lia|lia|lia|intros h; apply (Hent h [])| |done|cbn; lia|lia].
    eexists. cbn. rewrite lookup_insert_eq. split; [done|]. cbn. lia.
  - apply (twp_write_loop pf env fuel N (clock_at env (w_hist w) + timeout_ns) E);
      [done..|lia|lia|apply Hent| |lia|cbn; lia].
    eexists. cbn. rewrite lookup_insert_eq. split; [done|]. cbn. lia.
Qed.

(** A peer that never sends: the library always wants more, the clock goes on. *)
Definition silent_env : environment call resp := fun h c =>
  match c as c return resp c with
  | CClock => (Z.min (zlen h) 1000, 0)
  | CSslRead _ _ => LRet (MBEDTLS_ERR_SSL_WANT_READ, [])
  | CSslWrite _ _ => LRet MBEDTLS_ERR_SSL_WANT_WRITE
  | c => demo_env h c
  end.

Lemma silent_sane : sane silent_env.
Proof.
  split.
  - intros h. cbn -[Z.mul Z.min]. pose proof (zlen_nonneg h). lia.
  - apply demo_sane.
  - apply demo_sane.
  - intros h p len Hlen. cbn. constructor. cbn. unfold zlen, MBEDTLS_ERR_SSL_WANT_READ. simpl. lia.
  - intros h p data. cbn. constructor. pose proof (zlen_nonneg data).
    unfold MBEDTLS_ERR_SSL_WANT_WRITE. lia.
Qed.

Lemma silent_settles : settles silent_env 2 (clock_at silent_env [] + 2000000000).
Proof.
  split.
  - intros h Hh. unfold clock_at. cbn -[Z.mul Z.min]. unfold zlen. simpl length. lia.
  - by intros.
  - by intros.
  - intros h nr m Hh. cbn -[Z.max]. destruct (nr =? 318); cbn -[Z.max]; unfold EINTR, zlen; simpl length; lia.
Qed.

Lemma deadline_bounds_io_witness :
  ((exists r w', https_mbed_read Darwin silent_env 20 4096 [0; 0] 2 2000000000 demo_world = Done (r, w')) /\
   (exists r w', https_mbed_write Darwin silent_env 20 4096 [0; 0] 2 2000000000 demo_world = Done (r, w'))) /\
  exists w', https_mbed_read Darwin silent_env 20 4096 [0; 0] 2 2000000000 demo_world
    = Done (HTTPS_MBED_ERR_TIMEOUT, [0; 0], 0, 0, w').
Proof.
  split; [|eexists; vm_compute; reflexivity].
  apply (deadline_bounds_io Darwin silent_env 20 2 0 4096 [0; 0] 2 2000000000 demo_world silent_sane).
  - lia.
  - exact silent_settles.
  - split; [lia|]. intros h data. split; constructor.
  - lia.
  - done.
  - intros _. eexists. vm_compute. reflexivity.
Defined.

(** ** The readiness wait on darwin *)

Lemma wait_darwin_spins (env : environment call resp) fd fw d now n : forall w,
  (forall h nfds f b t, env h (CSelect nfds f b t) < 0) -> now < d -> 0 < d ->
  plat_wait_darwin_loop env n fd fw d now w = NoFuel.
Proof.
  induction n as [|n IH]; intros w Hs Hn Hd; cbn [plat_wait_darwin_loop]; [done|].
  rewrite (proj2 (Z.leb_gt (d - now) 0)) by lia. rewrite andb_false_r.
  unfold mbind, M_bind, ext at 1. specialize (Hs (hist w) (fd + 1) fd fw) as Hs'.
  match goal with |- context [env (hist w) (CSelect _ _ _ ?t)] => specialize (Hs' t) end.
  rewrite Z.gtb_ltb, (proj2 (Z.ltb_ge 0 _)), (proj2 (Z.eqb_neq _ 0)) by lia. by apply IH.
Qed.

(** C37.  The darwin wait reads the clock once, before its loop, so the deadline does not
    bound the loop: with a descriptor on which select fails every time, a wait that
    starts before its deadline never returns, however far the clock has gone on
    since ([fuel] is any number of rounds). *)
Theorem darwin_wait_unbounded (env : environment call resp) (fuel : nat) (s : Z)
  (for_write : bool) (w : world) (st : https_mbed)
  (Hconn : w_objs w !! s = Some st) (Hfd : 0 <= fd st < 1024)
  (Hdeadline : 0 < deadline_ns st /\ clock_at env (w_hist w) < deadline_ns st)
  (Hselect : forall h nfds f b t, env h (CSelect nfds f b t) < 0) :
  wait_ready Darwin env fuel s for_write w = NoFuel.
Proof.
  unfold wait_ready, now_ns, deref, mbind, M_bind, mret, M_ret, ext. rewrite Hconn.
  unfold clock_at in Hdeadline. change (hist w) with (w_hist w).
  destruct (env (w_hist w) CClock) as [sec nsec]. cbn [fst snd] in Hdeadline.
  unfold plat_wait, plat_wait_darwin.
  rewrite (proj2 (Z.ltb_ge (fd st) 0)), Z.geb_leb, (proj2 (Z.leb_gt 1024 (fd st))) by lia. cbn [orb].
  apply wait_darwin_spins; [done|lia|lia].
Qed.

(** Every select fails at once while the clock advances a second per call. *)
Definition failing_env : environment call resp := fun h c =>
  match c as c return resp c with
  | CSelect _ _ _ _ => -1
  | c => silent_env h c
  end.

Definition waiting_world : world :=
  {| w_hist := [];
     w_objs := {[ 4096 := {| fd := 3; has_clicert := false; deadline_ns := 2000000000; timed_out := false |} ]} |}.

Lemma darwin_wait_unbounded_witness :
  wait_ready Darwin failing_env 1000 4096 false waiting_world = NoFuel /\
  forall h : list call, 2 <= zlen h -> 2000000000 <= clock_at failing_env h.
Proof.
  split.
  - apply (darwin_wait_unbounded failing_env 1000 4096 false waiting_world
      {| fd := 3; has_clicert := false; deadline_ns := 2000000000; timed_out := false |}).
    + vm_compute. reflexivity.
    + cbn. lia.
    + vm_compute. done.
    + intros. cbn. lia.
  - intros h Hh. unfold clock_at. cbn -[Z.mul Z.min]. lia.
Defined.
