(* ===== verification/Host.v ===== *)
(** * Worlds with owned resources

    The state the bridges to Secure Transport, Schannel, Network.framework and the
    signing libraries run in: the history of calls, the references the C code owns (a
    bag, as the same object can be held twice) and the bridge's own memory.  Giving
    back a reference that is not held is a fault, so a theorem that a function does not
    fault includes that it releases nothing twice, and a theorem on the bag it leaves
    that it leaks nothing. *)

From stdpp Require Import gmap gmultiset.
From S2P Require Import Prelude Eff.

Record host (call res St : Type) `{Countable res} : Type := Host {
  h_hist : list call;
  h_refs : gmultiset res;
  h_st : St
}.
Arguments Host {_ _ _ _ _} _ _ _.
Arguments h_hist {_ _ _ _ _} _.
Arguments h_refs {_ _ _ _ _} _.
Arguments h_st {_ _ _ _ _} _.

#[export] Instance host_traced {call res St} `{Countable res} : Traced (host call res St) call := {|
  hist := h_hist;
  push := fun c w => Host (c :: h_hist w) (h_refs w) (h_st w);
  hist_push := fun c w => eq_refl
|}.

Section host.
Context {call res St : Type} `{Countable res}.
Abbreviation W := (host call res St).

Definition acquire (r : res) : M W unit :=
  modify (fun w => Host (h_hist w) (h_refs w ⊎ {[+ r +]}) (h_st w)).

Definition release (r : res) : M W unit := fun w =>
  if decide (r ∈ h_refs w)
  then Done (tt, Host (h_hist w) (h_refs w ∖ {[+ r +]}) (h_st w)) else Fault.

Definition get_st : M W St := fun w => Done (h_st w, w).
Definition set_st (s : St) : M W unit := modify (fun w => Host (h_hist w) (h_refs w) s).

Lemma wp_acquire r (Q : unit -> W -> Prop) w :
  Q tt (Host (h_hist w) (h_refs w ⊎ {[+ r +]}) (h_st w)) -> wp (acquire r) Q w.
Proof. done. Qed.
Lemma wp_release r (Q : unit -> W -> Prop) w :
  r ∈ h_refs w -> Q tt (Host (h_hist w) (h_refs w ∖ {[+ r +]}) (h_st w)) -> wp (release r) Q w.
Proof. intros Hr HQ. unfold wp, release. by rewrite decide_True. Qed.
Lemma wp_get_st (Q : St -> W -> Prop) w : Q (h_st w) w -> wp get_st Q w.
Proof. done. Qed.
Lemma wp_set_st s (Q : unit -> W -> Prop) w :
  Q tt (Host (h_hist w) (h_refs w) s) -> wp (set_st s) Q w.
Proof. done. Qed.

(** Giving back a reference, with what is left named. *)
Lemma wp_give r rest (Q : unit -> W -> Prop) w :
  h_refs w = rest ⊎ {[+ r +]} -> Q tt (Host (h_hist w) rest (h_st w)) -> wp (release r) Q w.
Proof.
  intros E HQ. apply wp_release; rewrite E; [multiset_solver|].
  by replace ((rest ⊎ {[+ r +]}) ∖ {[+ r +]}) with rest by multiset_solver.
Qed.

(** A call whose result, when it is not null, is a reference the caller owns. *)
Definition owning (mk : Z -> res) (m : M W Z) : M W Z :=
  p ← m; (if p =? 0 then mret tt else acquire (mk p));; mret p.
(** [if (p != NULL) release(p)] *)
Definition release_nz (mk : Z -> res) (p : Z) : M W unit :=
  if p =? 0 then mret tt else release (mk p).

(** The bag with the references named by the non-null pointers of [ps] added. *)
Definition held (mk : Z -> res) (p : Z) : gmultiset res :=
  if p =? 0 then ∅ else {[+ mk p +]}.

Lemma wp_release_nz mk p (Q : unit -> W -> Prop) w rest :
  h_refs w = rest ⊎ held mk p -> Q tt (Host (h_hist w) rest (h_st w)) -> wp (release_nz mk p) Q w.
Proof.
  unfold release_nz, held. destruct (p =? 0); intros E HQ.
  - apply wp_ret. rewrite right_id_L in E by apply _. destruct w. cbn in *. by subst.
  - by eapply wp_give.
Qed.

Lemma wp_owning mk m (Q : Z -> W -> Prop) w :
  wp m (fun p w' => Q p (Host (h_hist w') (h_refs w' ⊎ held mk p) (h_st w'))) w ->
  wp (owning mk m) Q w.
Proof.
  intros H0. unfold owning. apply wp_bind. eapply wp_mono; [|exact H0]. cbv beta. unfold held.
  intros p w' HQ. apply wp_bind. destruct (p =? 0); [|by apply wp_acquire, wp_ret].
  apply wp_ret, wp_ret. rewrite right_id_L in HQ by apply _. by destruct w'.
Qed.
End host.

(** [give R] gives back a reference and leaves the bag [R]; [give] the one on top. *)
Tactic Notation "give" constr(R) :=
  eapply (wp_give _ R); [cbn [h_refs]; clear; multiset_solver|]; cbn [h_hist h_refs h_st].
Tactic Notation "give" := eapply wp_give; [cbn [h_refs]; reflexivity|]; cbn [h_hist h_refs h_st].

(** A memory of records by address: [calloc], [free] and the accesses in between. *)
Section objects.
Context {call res O : Type} `{Countable res}.
Abbreviation W := (host call res (gmap Z O)).

Definition load_obj (p : Z) : M W O := fun w =>
  match h_st w !! p with Some o => Done (o, w) | None => Fault end.
Definition store_obj (p : Z) (f : O -> O) : M W unit := fun w =>
  match h_st w !! p with
  | Some o => Done (tt, Host (h_hist w) (h_refs w) (<[p := f o]> (h_st w)))
  | None => Fault
  end.
Definition new_obj (p : Z) (o : O) : M W unit :=
  modify (fun w => Host (h_hist w) (h_refs w) (<[p := o]> (h_st w))).
Definition drop_obj (p : Z) : M W unit := fun w =>
  match h_st w !! p with
  | Some _ => Done (tt, Host (h_hist w) (h_refs w) (delete p (h_st w)))
  | None => Fault
  end.

Lemma wp_load_obj p o (Q : O -> W -> Prop) w : h_st w !! p = Some o -> Q o w -> wp (load_obj p) Q w.
Proof. unfold wp, load_obj. by intros ->. Qed.
Lemma wp_store_obj p f o (Q : unit -> W -> Prop) w :
  h_st w !! p = Some o -> Q tt (Host (h_hist w) (h_refs w) (<[p := f o]> (h_st w))) ->
  wp (store_obj p f) Q w.
Proof. unfold wp, store_obj. by intros ->. Qed.
Lemma wp_new_obj p o (Q : unit -> W -> Prop) w :
  Q tt (Host (h_hist w) (h_refs w) (<[p := o]> (h_st w))) -> wp (new_obj p o) Q w.
Proof. done. Qed.
Lemma wp_drop_obj p o (Q : unit -> W -> Prop) w :
  h_st w !! p = Some o -> Q tt (Host (h_hist w) (h_refs w) (delete p (h_st w))) ->
  wp (drop_obj p) Q w.
Proof. unfold wp, drop_obj. by intros ->. Qed.
End objects.
