(* ===== verification/SecureTransport.v ===== *)
(** * internal/securetransport/securetransport.c

    The TLS client of darwin over Secure Transport: the two I/O functions it is given,
    the list of trust anchors, the trust decision, and the operations Go calls.  The
    system, CoreFoundation and the Security framework are the environment; a call
    that may call the I/O functions is answered by the program of its callbacks, as
    in MbedBridge.  Owned references are CoreFoundation's: Create and Copy give one,
    [CFRelease] gives it back. *)

From stdpp Require Import gmap gmultiset.
From S2P Require Import Prelude Eff Host.

(** ** Constants *)

Definition HTTPS_ST_OK := 0.
Definition HTTPS_ST_ERR_ALLOC := -1.
Definition HTTPS_ST_ERR_SETUP := -2.
Definition HTTPS_ST_ERR_HANDSHAKE := -5.
Definition HTTPS_ST_ERR_TIMEOUT := -6.
Definition HTTPS_ST_ERR_IO := -7.
Definition HTTPS_ST_ERR_CLOSED := -8.

Definition kSSLClientSide := 1.
Definition kSSLStreamType := 0.
Definition kSSLSessionOptionBreakOnServerAuth := 0.
Definition errSecSuccess := 0.
Definition errSSLWouldBlock := -9803.
Definition errSSLClosedGraceful := -9805.
Definition errSSLClosedAbort := -9806.
Definition errSSLXCertChainInvalid := -9807.
Definition errSSLClosedNoNotify := -9816.
Definition errSSLServerAuthCompleted := -9841.

(** ** The outside *)

(** What Secure Transport does inside one call: reads of an exact count, writes, and
    its result. *)
Inductive lib (A : Type) : Type :=
  | SRet (a : A)
  | SRead (want : Z) (k : Z -> list Z -> lib A)
  | SWrite (data : list Z) (k : Z -> Z -> lib A).
Arguments SRet {_} _.
Arguments SRead {_} _ _.
Arguments SWrite {_} _ _.

Inductive call : Type :=
  | CSelect (nfds fd : Z) (for_write : bool) (timeout : option (Z * Z))
  | CRead (fd n : Z) | CWrite (fd : Z) (data : list Z) | CClock | CCalloc
  (* CoreFoundation *)
  | CArrayCreate | CDataCreate (bytes : list Z) | CArrayAppend (array value : Z)
  (* Security *)
  | CCertCreate (data : Z) | CSetAnchors (trust anchors : Z) | CSetAnchorsOnly (trust : Z) (only : bool)
  | CEvaluate (trust : Z)
  | CCreateContext (side type : Z) | CSetIOFuncs (ctx : Z) | CSetConnection (ctx s : Z)
  | CSetPeerDomainName (ctx : Z) (host : list Z) | CSetMinVersion (ctx v : Z)
  | CSetOption (ctx option value : Z) | CCopyPeerTrust (ctx : Z)
  | CHandshake (ctx : Z) | CSSLRead (ctx len : Z) | CSSLWrite (ctx : Z) (data : list Z)
  | CSSLClose (ctx : Z).

Definition resp (c : call) : Type :=
  match c with
  | CRead _ _ => Z * list Z
  | CClock => Z * Z
  | CEvaluate _ => bool * Z           (* the verdict and the error object *)
  | CCopyPeerTrust _ => Z * Z         (* the status and the trust object *)
  | CHandshake _ | CSSLClose _ => lib Z
  | CSSLRead _ _ => lib (Z * list Z)  (* the status and the bytes processed *)
  | CSSLWrite _ _ => lib (Z * Z)      (* the status and the count processed *)
  | CArrayAppend _ _ => unit
  | _ => Z
  end.

Record https_st : Set := {
  ctx : Z;
  fd : Z;
  anchors : Z;
  ca_only : bool;
  skip_verify : bool;
  deadline_ns : Z;
  timed_out : bool;
  eof : bool
}.

Definition world : Type := host call Z (gmap Z https_st).
Definition cf (p : Z) : Z := p.

Definition set_ctx (p : Z) (s : https_st) : https_st :=
  {| ctx := p; fd := fd s; anchors := anchors s; ca_only := ca_only s; skip_verify := skip_verify s;
     deadline_ns := deadline_ns s; timed_out := timed_out s; eof := eof s |}.
Definition set_anchors (p : Z) (s : https_st) : https_st :=
  {| ctx := ctx s; fd := fd s; anchors := p; ca_only := ca_only s; skip_verify := skip_verify s;
     deadline_ns := deadline_ns s; timed_out := timed_out s; eof := eof s |}.
Definition set_deadline (d : Z) (s : https_st) : https_st :=
  {| ctx := ctx s; fd := fd s; anchors := anchors s; ca_only := ca_only s; skip_verify := skip_verify s;
     deadline_ns := d; timed_out := timed_out s; eof := eof s |}.
Definition set_timed_out (b : bool) (s : https_st) : https_st :=
  {| ctx := ctx s; fd := fd s; anchors := anchors s; ca_only := ca_only s; skip_verify := skip_verify s;
     deadline_ns := deadline_ns s; timed_out := b; eof := eof s |}.
Definition set_eof (s : https_st) : https_st :=
  {| ctx := ctx s; fd := fd s; anchors := anchors s; ca_only := ca_only s; skip_verify := skip_verify s;
     deadline_ns := deadline_ns s; timed_out := timed_out s; eof := true |}.

Section bridge.
Context (env : environment call resp) (fuel : nat).

Definition now_ns : M world Z :=
  '(sec, nsec) ← ext env CClock; mret (sec * 1000000000 + nsec).

(** An [int64_t] addition; it overflows to undefined behaviour. *)
Definition add64 (a b : Z) : M world Z :=
  if (- 2 ^ 63 <=? a + b) && (a + b <? 2 ^ 63) then mret (a + b) else fault.

Definition CFRelease (p : Z) : M world unit := release (cf p).

(** ** Socket I/O *)

Definition timeval_of (remaining : Z) : Z * Z :=
  (remaining / 1000000000, remaining mod 1000000000 / 1000).

Fixpoint wait_ready_loop (fuel : nat) (s : Z) (for_write : bool) : M world Z :=
  match fuel with
  | O => out_of_fuel
  | S fuel =>
      st ← load_obj s;
      tvp ← (if deadline_ns st =? 0 then mret (Some None)
             else
               now ← now_ns;
               let remaining := deadline_ns st - now in
               if remaining <=? 0 then mret None else mret (Some (Some (timeval_of remaining))));
      match tvp with
      | None => mret (-1)
      | Some tvp =>
          rc ← ext env (CSelect (fd st + 1) (fd st) for_write tvp);
          if rc >? 0 then mret 0
          else if rc =? 0 then mret (-1)
          else wait_ready_loop fuel s for_write
      end
  end.

Definition wait_ready (s : Z) (for_write : bool) : M world Z :=
  st ← load_obj s;
  if (fd st <? 0) || (fd st >=? 1024) then mret (-1)
  else wait_ready_loop fuel s for_write.

(** [s->deadline_ns != 0 && wait_ready(s, w) != 0] *)
Definition not_ready (s : Z) (for_write : bool) : M world bool :=
  st ← load_obj s;
  if deadline_ns st =? 0 then mret false
  else rc ← wait_ready s for_write; mret (negb (rc =? 0)).

(** The status and the bytes of [data] that were filled. *)
Fixpoint st_read_loop (fuel : nat) (s want : Z) (got : list Z) : M world (Z * list Z) :=
  match fuel with
  | O => out_of_fuel
  | S fuel =>
      if zlen got <? want then
        late ← not_ready s false;
        if late : bool then
          store_obj s (set_timed_out true);; mret (errSSLWouldBlock, got)
        else
          st ← load_obj s;
          '(n, bs) ← ext env (CRead (fd st) (want - zlen got));
          if n >? 0 then st_read_loop fuel s want (got ++ bs)
          else if n =? 0 then store_obj s set_eof;; mret (errSSLClosedGraceful, got)
          else mret (errSSLClosedAbort, got)
      else mret (errSecSuccess, got)
  end.
Definition st_read (s want : Z) : M world (Z * list Z) := st_read_loop fuel s want [].

(** The status and the count sent. *)
Fixpoint st_write_loop (fuel : nat) (s : Z) (data : list Z) (sent : Z) : M world (Z * Z) :=
  match fuel with
  | O => out_of_fuel
  | S fuel =>
      if sent <? zlen data then
        late ← not_ready s true;
        if late : bool then
          store_obj s (set_timed_out true);; mret (errSSLWouldBlock, sent)
        else
          st ← load_obj s;
          n ← ext env (CWrite (fd st) (zdrop sent data));
          if n >? 0 then st_write_loop fuel s data (sent + n)
          else mret (errSSLClosedAbort, sent)
      else mret (errSecSuccess, sent)
  end.
Definition st_write (s : Z) (data : list Z) : M world (Z * Z) := st_write_loop fuel s data 0.

(** A call into Secure Transport, with the callbacks it makes. *)
Fixpoint run {A} (s : Z) (l : lib A) : M world A :=
  match l with
  | SRet a => mret a
  | SRead want k => '(rc, bs) ← st_read s want; run s (k rc bs)
  | SWrite data k => '(rc, n) ← st_write s data; run s (k rc n)
  end.

(** ** Anchors *)

Definition https_st_calist_new : M world Z := owning cf (ext env CArrayCreate).

Definition https_st_calist_add (list_ : Z) (der : option (list Z)) (len : Z) : M world Z :=
  match der with
  | None => mret HTTPS_ST_ERR_SETUP
  | Some bytes =>
      if (list_ =? 0) || (len <=? 0) then mret HTTPS_ST_ERR_SETUP else
      bs ← lift (load bytes 0 len);
      data ← owning cf (ext env (CDataCreate bs));
      if data =? 0 then mret HTTPS_ST_ERR_ALLOC else
      cert ← owning cf (ext env (CCertCreate data));
      CFRelease data;;
      if cert =? 0 then mret HTTPS_ST_ERR_SETUP else
      ext env (CArrayAppend list_ cert);;
      CFRelease cert;;
      mret HTTPS_ST_OK
  end.

Definition https_st_calist_free (list_ : Z) : M world unit :=
  if list_ =? 0 then mret tt else CFRelease list_.

(** ** Trust *)

Definition evaluate_trust (s : Z) : M world Z :=
  st ← load_obj s;
  if skip_verify st then mret 0 else
  '(rc, trust) ← ext env (CCopyPeerTrust (ctx st));
  if negb (rc =? errSecSuccess) || (trust =? 0) then mret (-1) else
  acquire (cf trust);;
  (if anchors st =? 0 then mret tt
   else
     ext env (CSetAnchors trust (anchors st));;
     ext env (CSetAnchorsOnly trust (ca_only st));; mret tt);;
  '(ok, err) ← ext env (CEvaluate trust);
  (if err =? 0 then mret tt else acquire (cf err));;
  release_nz cf err;;
  CFRelease trust;;
  mret (if ok : bool then 0 else -1).

(** ** Operations *)

Definition free_state (s : Z) : M world unit :=
  if s =? 0 then mret tt
  else
    st ← load_obj s;
    release_nz cf (ctx st);;
    drop_obj s.

Definition deadline_of (timeout_ns : Z) : M world Z :=
  if timeout_ns >? 0 then now ← now_ns; add64 now timeout_ns else mret 0.

(** The code, [*out] and [*status]. *)
Record hs_result : Set := HsResult { hs_code : Z; hs_out : Z; hs_status : Z }.

Definition fail (s status code : Z) : M world hs_result :=
  free_state s;; mret (HsResult code 0 status).

(** [s->timed_out || (s->deadline_ns != 0 && now_ns() >= s->deadline_ns)] *)
Definition late (s : Z) : M world bool :=
  st ← load_obj s;
  if timed_out st then mret true
  else if deadline_ns st =? 0 then mret false
  else now ← now_ns; mret (now >=? deadline_ns st).

Fixpoint handshake_loop (fuel : nat) (s : Z) : M world hs_result :=
  match fuel with
  | O => out_of_fuel
  | S fuel =>
      st ← load_obj s;
      l ← ext env (CHandshake (ctx st));
      rc ← run s l;
      if rc =? errSecSuccess then
        store_obj s (set_deadline 0);;
        mret (HsResult HTTPS_ST_OK s 0)
      else if rc =? errSSLServerAuthCompleted then
        v ← evaluate_trust s;
        if negb (v =? 0) then fail s errSSLXCertChainInvalid HTTPS_ST_ERR_HANDSHAKE
        else handshake_loop fuel s
      else if rc =? errSSLWouldBlock then
        b ← late s;
        if b : bool then fail s 0 HTTPS_ST_ERR_TIMEOUT else handshake_loop fuel s
      else
        st ← load_obj s;
        fail s rc (if timed_out st then HTTPS_ST_ERR_TIMEOUT else HTTPS_ST_ERR_HANDSHAKE)
  end.

Definition https_st_handshake (fd : Z) (host : list Z) (skip_verify : bool) (calist : Z)
    (ca_only : bool) (min_version timeout_ns : Z) : M world hs_result :=
  s ← ext env CCalloc;
  if s =? 0 then mret (HsResult HTTPS_ST_ERR_ALLOC 0 0) else
  d ← deadline_of timeout_ns;
  new_obj s {| ctx := 0; SecureTransport.fd := fd; anchors := calist;
               SecureTransport.ca_only := ca_only; SecureTransport.skip_verify := skip_verify;
               deadline_ns := d; timed_out := false; eof := false |};;
  c ← owning cf (ext env (CCreateContext kSSLClientSide kSSLStreamType));
  store_obj s (set_ctx c);;
  if c =? 0 then fail s 0 HTTPS_ST_ERR_SETUP else
  rc ← ext env (CSetIOFuncs c);
  rc ← (if rc =? errSecSuccess then ext env (CSetConnection c s) else mret rc);
  if negb (rc =? errSecSuccess) then fail s 0 HTTPS_ST_ERR_SETUP else
  rc ← (match host with
        | [] => mret errSecSuccess
        | _ => ext env (CSetPeerDomainName c host)
        end);
  if negb (rc =? errSecSuccess) then fail s 0 HTTPS_ST_ERR_SETUP else
  (if min_version =? 0 then mret tt else ext env (CSetMinVersion c min_version);; mret tt);;
  ext env (CSetOption c kSSLSessionOptionBreakOnServerAuth 1);;
  handshake_loop fuel s.

(** The code, the caller's buffer, [*n] and [*status]. *)
Definition https_st_read (handle : Z) (buf : list Z) (len timeout_ns : Z)
    : M world (Z * list Z * Z * Z) :=
  if handle =? 0 then mret (HTTPS_ST_ERR_CLOSED, buf, 0, 0) else
  st ← load_obj handle;
  if ctx st =? 0 then mret (HTTPS_ST_ERR_CLOSED, buf, 0, 0)
  else if len <=? 0 then mret (HTTPS_ST_OK, buf, 0, 0)
  else
    d ← deadline_of timeout_ns;
    store_obj handle (set_deadline d);;
    store_obj handle (set_timed_out false);;
    l ← ext env (CSSLRead (ctx st) len);
    '(rc, bs) ← run handle l;
    buf ← lift (store buf 0 bs);
    if zlen bs >? 0 then mret (HTTPS_ST_OK, buf, zlen bs, 0)
    else if rc =? errSecSuccess then mret (HTTPS_ST_OK, buf, 0, 0)
    else if (rc =? errSSLClosedGraceful) || (rc =? errSSLClosedNoNotify)
    then mret (HTTPS_ST_OK, buf, 0, 0)
    else if rc =? errSSLWouldBlock then mret (HTTPS_ST_ERR_TIMEOUT, buf, 0, 0)
    else
      st ← load_obj handle;
      mret (if timed_out st then HTTPS_ST_ERR_TIMEOUT else HTTPS_ST_ERR_IO, buf, 0, rc).

(** The code, [*n] and [*status]. *)
Definition https_st_write (handle : Z) (buf : list Z) (len timeout_ns : Z) : M world (Z * Z * Z) :=
  if handle =? 0 then mret (HTTPS_ST_ERR_CLOSED, 0, 0) else
  st ← load_obj handle;
  if ctx st =? 0 then mret (HTTPS_ST_ERR_CLOSED, 0, 0)
  else if len <=? 0 then mret (HTTPS_ST_OK, 0, 0)
  else
    d ← deadline_of timeout_ns;
    store_obj handle (set_deadline d);;
    store_obj handle (set_timed_out false);;
    data ← lift (load buf 0 len);
    l ← ext env (CSSLWrite (ctx st) data);
    '(rc, processed) ← run handle l;
    if rc =? errSecSuccess then mret (HTTPS_ST_OK, to_int processed, 0)
    else if rc =? errSSLWouldBlock then mret (HTTPS_ST_ERR_TIMEOUT, to_int processed, 0)
    else
      st ← load_obj handle;
      mret (if timed_out st then HTTPS_ST_ERR_TIMEOUT else HTTPS_ST_ERR_IO, to_int processed, rc).

Definition https_st_close (handle : Z) : M world unit :=
  if handle =? 0 then mret tt else
  st ← load_obj handle;
  (if ctx st =? 0 then mret tt
   else
     now ← now_ns;
     d ← add64 now 100000000;
     store_obj handle (set_deadline d);;
     l ← ext env (CSSLClose (ctx st));
     run handle l;; mret tt);;
  st ← load_obj handle;
  release_nz cf (anchors st);;
  store_obj handle (set_anchors 0);;
  free_state handle.
End bridge.
