(* ===== verification/SecureTransportProps.v ===== *)
(** * The Secure Transport bridge: theorems

    The exact-count I/O functions, the trust decision, the ownership of the context and
    of the anchors, the read and write contracts, and the bounded wait. *)

From stdpp Require Import gmap gmultiset.
From S2P Require Import Prelude Eff Host SecureTransport.

(** ** What the outside is relied on for *)

Inductive leaves {A} (P : A -> Prop) : lib A -> Prop :=
  | leaves_ret a : P a -> leaves P (SRet a)
  | leaves_read want k : (forall r bs, leaves P (k r bs)) -> leaves P (SRead want k)
  | leaves_write data k : (forall r n, leaves P (k r n)) -> leaves P (SWrite data k).

(** Documented behaviour of the system and of the framework: a clock that does not run
    over, calls that fill no more than they are given, counts that say how much. *)
Record sane (env : environment call resp) : Prop := {
  clock_range h : 0 <= (env h CClock).1 * 1000000000 + (env h CClock).2 < 2 ^ 62;
  read_fills h fd n : let r := env h (CRead fd n) in 0 < r.1 -> zlen r.2 = r.1 /\ r.1 <= n;
  write_takes h fd data : env h (CWrite fd data) <= zlen data;
  ssl_read_fills h c len : 0 <= len -> leaves (fun r => zlen r.2 <= len) (env h (CSSLRead c len));
  ssl_write_takes h c data :
    leaves (fun r => 0 <= r.2 <= zlen data) (env h (CSSLWrite c data))
}.

(** ** What the I/O functions may change *)

Definition same_conn (st st' : https_st) : Prop :=
  ctx st' = ctx st /\ fd st' = fd st /\ anchors st' = anchors st /\ ca_only st' = ca_only st /\
  skip_verify st' = skip_verify st /\ deadline_ns st' = deadline_ns st /\
  (timed_out st = true -> timed_out st' = true).

(** No reference changed hands and only the marks of [s] changed. *)
Definition evolves (s : Z) (w w' : world) : Prop :=
  h_refs w' = h_refs w /\
  exists st st', h_st w !! s = Some st /\ h_st w' = <[s := st']> (h_st w) /\ same_conn st st'.

Definition live (s : Z) (w : world) : Prop := exists st, h_st w !! s = Some st.

Lemma st_evolves_refl s w : live s w -> evolves s w w.
Proof. intros [st H]. split; [done|]. exists st, st. by rewrite insert_id by done. Qed.

Lemma st_evolves_live s w w' : evolves s w w' -> live s w'.
Proof. intros [_ (st & st' & _ & H & _)]. exists st'. by rewrite H, lookup_insert_eq. Qed.

Lemma st_same_conn_trans a b c : same_conn a b -> same_conn b c -> same_conn a c.
Proof. unfold same_conn. intuition congruence. Qed.

Lemma st_evolves_trans s w1 w2 w3 : evolves s w1 w2 -> evolves s w2 w3 -> evolves s w1 w3.
Proof.
  intros [R1 (a & b & A & B & C)] [R2 (a' & b' & A' & B' & C')].
  rewrite B, lookup_insert_eq in A'. injection A' as <-. split; [congruence|].
  exists a, b'. split; [done|]. split; [|by eapply st_same_conn_trans].
  by rewrite B', B, insert_insert_eq.
Qed.

Lemma st_evolves_push s w w' c : evolves s w w' -> evolves s w (push c w').
Proof. done. Qed.

Lemma evolves_store s w w' f :
  (forall st, same_conn st (f st)) -> evolves s w w' ->
  wp (store_obj s f) (fun _ w'' => evolves s w w'' /\ exists st, h_st w'' !! s = Some (f st)) w'.
Proof.
  intros Hf Hw. destruct (st_evolves_live _ _ _ Hw) as [st Hst]. eapply wp_store_obj; [exact Hst|]. split.
  - eapply st_evolves_trans; [exact Hw|]. split; [done|]. by exists st, (f st).
  - exists st. cbn. by rewrite lookup_insert_eq.
Qed.

Section callbacks.
Context (env : environment call resp) (fuel : nat) (Hsane : sane env).

Lemma st_wp_now_evolves s w w' : evolves s w w' -> wp (now_ns env) (fun _ => evolves s w) w'.
Proof. intros H. unfold now_ns. repeat wp_step. by apply st_evolves_push. Qed.

Lemma wp_wait_loop_evolves s w fw n : forall w',
  evolves s w w' -> wp (wait_ready_loop env n s fw) (fun _ => evolves s w) w'.
Proof.
  induction n as [|n IH]; intros w' H; cbn [wait_ready_loop]; [by wp_step|].
  destruct (st_evolves_live _ _ _ H) as [st Hst]. wp_step. eapply wp_load_obj; [exact Hst|].
  wp_step. wp_step.
  - repeat wp_step; try (by apply st_evolves_push). by apply IH, st_evolves_push.
  - wp_step. wp_use st_wp_now_evolves as now w1 H1. cbv zeta.
    destruct (_ <=? 0); repeat wp_step; try done; try (by apply st_evolves_push).
    by apply IH, st_evolves_push.
Qed.

Lemma st_wp_not_ready_evolves s w fw w' :
  evolves s w w' -> wp (not_ready env fuel s fw)
    (fun late w'' => evolves s w w'' /\ (late = true -> exists st, h_st w'' !! s = Some st /\ deadline_ns st <> 0)) w'.
Proof.
  intros H. destruct (st_evolves_live _ _ _ H) as [st Hst]. unfold not_ready, wait_ready.
  wp_step. eapply wp_load_obj; [exact Hst|]. destruct (Z.eqb_spec (deadline_ns st) 0) as [|Hd];
    [by wp_step|].
  assert (forall w'', evolves s w' w'' -> evolves s w w'' /\
    exists st', h_st w'' !! s = Some st' /\ deadline_ns st' <> 0) as Fin.
  { intros w'' E. split; [by eapply st_evolves_trans|]. destruct E as [_ (a & b & A & B & C)].
    rewrite Hst in A. injection A as <-. exists b. rewrite B, lookup_insert_eq.
    split; [done|]. destruct C as (_ & _ & _ & _ & _ & -> & _). done. }
  wp_step. wp_step. eapply wp_load_obj; [exact Hst|].
  assert (evolves s w' w') as E by (apply st_evolves_refl; by exists st).
  destruct (_ || _).
  - do 2 wp_step. destruct (Fin w' E). auto.
  - wp_use wp_wait_loop_evolves as r w2 H2. wp_step. destruct (Fin w2 H2). auto.
Qed.

(** What st_read tells Secure Transport. *)
Record st_read_post (s want : Z) (r : Z * list Z) (w : world) : Prop := {
  sr_status : r.1 = errSecSuccess \/ r.1 = errSSLWouldBlock \/ r.1 = errSSLClosedGraceful \/
              r.1 = errSSLClosedAbort;
  sr_exact : 0 <= want -> r.1 = errSecSuccess <-> zlen r.2 = want;
  sr_bound : 0 <= want -> zlen r.2 <= want;
  sr_timeout : r.1 = errSSLWouldBlock ->
    exists st, h_st w !! s = Some st /\ timed_out st = true /\ deadline_ns st <> 0;
  sr_eof : r.1 = errSSLClosedGraceful -> exists st, h_st w !! s = Some st /\ eof st = true
}.

Lemma wp_st_read_loop s w want n : forall got w',
  evolves s w w' -> (0 <= want -> zlen got <= want) ->
  wp (st_read_loop env fuel n s want got)
    (fun r w'' => st_read_post s want r w'' /\ evolves s w w'') w'.
Proof.
  induction n as [|n IH]; intros got w' H Hg; cbn [st_read_loop]; [by wp_step|].
  wp_step; bool_to_prop.
  2:{ wp_step. split; [|done]. split; cbn [fst snd]; try done; [by left|]. intros Hw. lia. }
  wp_step. wp_use st_wp_not_ready_evolves as late w1 H1. destruct H1 as [H1 Hd]. destruct late.
  - destruct (Hd eq_refl) as (st & Hst & Hn). wp_step. eapply wp_store_obj; [exact Hst|]. wp_step.
    split.
    + split; cbn [fst snd]; try done; [by right; left|intros Hw; split; [done|lia]|].
      intros _. eexists. cbn. rewrite lookup_insert_eq. done.
    + eapply st_evolves_trans; [exact H1|]. split; [done|]. by exists st, (set_timed_out true st).
  - destruct (st_evolves_live _ _ _ H1) as [st Hst]. wp_step. eapply wp_load_obj; [exact Hst|]. wp_step.
    match goal with |- wp (ext _ ?c) _ _ => apply (wp_ext env c) end.
    pose proof (read_fills env Hsane (hist w1) (fd st) (want - zlen got)) as Hr. cbv zeta in Hr.
    destruct (env (hist w1) _) as [r bs]. cbn [fst snd] in Hr. wp_step; bool_to_prop.
    + destruct Hr as [Hb Hm]; [lia|]. apply IH; [by apply st_evolves_push|].
      intros Hw. rewrite zlen_app. lia.
    + wp_step; bool_to_prop.
      * wp_step. eapply wp_store_obj; [exact Hst|]. wp_step. split.
        -- split; cbn [fst snd]; try done; [tauto|intros Hw; split; [done|lia]|].
           intros _. eexists. cbn. by rewrite lookup_insert_eq.
        -- eapply st_evolves_trans; [exact H1|]. split; [done|]. by exists st, (set_eof st).
      * wp_step. split; [|by apply st_evolves_push].
        split; cbn [fst snd]; try done; [tauto|intros Hw; split; [done|lia]].
Qed.

Lemma wp_st_write_loop s w data n : forall sent w',
  evolves s w w' -> 0 <= sent <= zlen data ->
  wp (st_write_loop env fuel n s data sent)
    (fun r w'' => (0 <= r.2 <= zlen data /\ (r.1 = errSecSuccess <-> r.2 = zlen data)) /\
                  evolves s w w'') w'.
Proof.
  induction n as [|n IH]; intros sent w' H Hs; cbn [st_write_loop]; [by wp_step|].
  wp_step; bool_to_prop.
  2:{ wp_step. split; [|done]. cbn [fst snd]. split; [lia|]. split; [lia|done]. }
  wp_step. wp_use st_wp_not_ready_evolves as late w1 H1. destruct H1 as [H1 Hd].
  destruct (st_evolves_live _ _ _ H1) as [st Hst]. destruct late.
  - wp_step. eapply wp_store_obj; [exact Hst|]. wp_step. split.
    + cbn [fst snd]. split; [lia|]. split; [done|lia].
    + eapply st_evolves_trans; [exact H1|]. split; [done|]. by exists st, (set_timed_out true st).
  - wp_step. eapply wp_load_obj; [exact Hst|]. wp_step.
    match goal with |- wp (ext _ ?c) _ _ => apply (wp_ext env c) end.
    pose proof (write_takes env Hsane (hist w1) (fd st) (zdrop sent data)) as Hw.
    rewrite zlen_zdrop in Hw by lia. set (r := env (hist w1) _) in *. wp_step; bool_to_prop.
    + apply IH; [by apply st_evolves_push|]. change (env (hist w1) _) with r. lia.
    + wp_step. split; [|by apply st_evolves_push]. cbn [fst snd]. split; [lia|]. split; [done|lia].
Qed.

Lemma st_wp_run {A} (P : A -> Prop) s w (l : lib A) : leaves P l -> forall w',
  evolves s w w' -> wp (run env fuel s l) (fun a w'' => P a /\ evolves s w w'') w'.
Proof.
  induction 1 as [a Ha|want k Hk IH|data k Hk IH]; intros w' H; cbn [run].
  - by wp_step.
  - wp_step. unfold st_read.
    eapply wp_mono; [|apply (wp_st_read_loop s w want fuel [] w' H)]; [|done].
    cbv beta. intros [r bs] w1 [_ H1]. by apply IH.
  - wp_step. unfold st_write. pose proof (zlen_nonneg data).
    eapply wp_mono; [|apply (wp_st_write_loop s w data fuel 0 w' H); lia].
    cbv beta. intros [r n] w1 [_ H1]. by apply IH.
Qed.

Lemma st_leaves_true {A} (l : lib A) : leaves (fun _ => True) l.
Proof. induction l; by constructor. Qed.

Lemma st_wp_run_any {A} s w (l : lib A) w' :
  evolves s w w' -> wp (run env fuel s l) (fun _ => evolves s w) w'.
Proof.
  intros H. eapply wp_mono; [|apply (st_wp_run (fun _ => True) s w l (st_leaves_true l) w' H)].
  by intros a w'' [_ ?].
Qed.

Lemma wp_late s w w' : evolves s w w' -> wp (late env s) (fun _ => evolves s w) w'.
Proof.
  intros H. destruct (st_evolves_live _ _ _ H) as [st Hst]. unfold late. wp_step.
  eapply wp_load_obj; [exact Hst|]. destruct (timed_out st); [by wp_step|].
  destruct (_ =? 0); [by wp_step|]. wp_step. wp_use st_wp_now_evolves as now w1 H1. by wp_step.
Qed.

Lemma st_wp_deadline_of t (Q : Z -> world -> Prop) w :
  t < 2 ^ 62 ->
  (forall d w', (w' = w \/ w' = push CClock w) -> 0 <= d -> (d = 0 <-> t <= 0) -> Q d w') ->
  wp (deadline_of env t) Q w.
Proof.
  intros Ht HQ. unfold deadline_of. wp_step; bool_to_prop.
  2:{ wp_step. apply HQ; [by left|lia|lia]. }
  wp_step. unfold now_ns. wp_step. apply (wp_ext env CClock).
  pose proof (clock_range env Hsane (h_hist w)) as Hc. change (hist w) with (h_hist w).
  destruct (env (h_hist w) CClock) as [sec nsec]. simpl in Hc. wp_step. unfold add64.
  wp_step; [wp_step; apply HQ; [by right|lia|lia]|].
  exfalso. apply andb_false_iff in Heqb0 as [E|E]; bool_to_prop; lia.
Qed.
End callbacks.

(** The read function keeps the promise Secure Transport relies on: success means
    exactly the count asked for, anything else a shorter count with the bytes that did
    arrive; would-block is answered only on a deadline that ran out, with the time-out
    mark set, and a graceful close only after the end of the stream was seen. *)
Theorem st_read_exact (env : environment call resp) (fuel : nat) (s want : Z) (w : world)
  (Hsane : sane env) (Hlive : live s w) (Hwant : 0 <= want) :
  wp (st_read env fuel s want)
    (fun r w' => st_read_post s want r w' /\ evolves s w w') w.
Proof.
  unfold st_read. apply wp_st_read_loop; [done|by apply st_evolves_refl|done].
Qed.

(** An outside that succeeds: the handshake stops once for the trust decision. *)
Definition demo_env : environment call resp := fun h c =>
  match c as c return resp c with
  | CRead _ n => (Z.max 0 n, replicate (Z.to_nat n) 7)
  | CWrite _ data => zlen data
  | CClock => (0, zlen h `mod` 1000)
  | CEvaluate _ => (true, 0)
  | CCopyPeerTrust _ => (0, 30)
  | CHandshake _ =>
      if existsb (fun c => match c with CEvaluate _ => true | _ => false end) h
      then SRet 0 else SWrite [1; 2] (fun r n => SRead 5 (fun r bs => SRet errSSLServerAuthCompleted))
  | CSSLClose _ => SRet 0
  | CSSLRead _ len => SRead 2 (fun r bs => SRet (r, ztake len bs))
  | CSSLWrite _ data => SWrite data (fun r n => SRet (r, zlen data))
  | CArrayAppend _ _ => tt
  | CSelect _ _ _ _ => 1
  | CCalloc => 4096
  | CArrayCreate => 50
  | CDataCreate _ => 20
  | CCertCreate _ => 21
  | CCreateContext _ _ => 40
  | CSetAnchors _ _ | CSetAnchorsOnly _ _ | CSetIOFuncs _ | CSetConnection _ _
  | CSetPeerDomainName _ _ | CSetMinVersion _ _ | CSetOption _ _ _ => 0
  end.

Lemma st_demo_sane : sane demo_env.
Proof.
  split.
  - intros h. cbn -[Z.modulo]. pose proof (Z.mod_pos_bound (zlen h) 1000). lia.
  - intros h fd n. cbn -[zlen Z.max]. intros H. rewrite zlen_replicate. lia.
  - intros h fd data. cbn. lia.
  - intros h c len Hlen. cbn -[ztake zlen]. constructor. intros r bs. constructor. cbn -[ztake zlen].
    rewrite zlen_ztake_max. lia.
  - intros h c data. cbn -[zlen]. constructor. intros r n. constructor. cbn -[zlen].
    pose proof (zlen_nonneg data). lia.
Qed.

Definition demo_conn : https_st :=
  {| ctx := 40; fd := 3; anchors := 50; ca_only := true; skip_verify := false; deadline_ns := 0;
     timed_out := false; eof := false |}.
Definition demo_world : world := Host [] {[+ 40; 50 +]} {[ 4096 := demo_conn ]}.
Definition empty_world : world := Host [] ∅ ∅.

Lemma st_read_exact_witness :
  wp (st_read demo_env 10 4096 6)
    (fun r w' => st_read_post 4096 6 r w' /\ evolves 4096 demo_world w') demo_world /\
  exists w', st_read demo_env 10 4096 6 demo_world = Done (errSecSuccess, replicate 6 7, w').
Proof.
  split; [|eexists; vm_compute; reflexivity].
  apply (st_read_exact demo_env 10 4096 6 demo_world st_demo_sane); [|done].
  eexists. vm_compute. reflexivity.
Defined.

(** ** The trust decision *)

(** A positive verdict of the framework on the peer's trust object, taken with the
    connection's anchors installed where it has any. *)
Definition trust_verdict (env : environment call resp) (st : https_st) (h0 h : list call) : Prop :=
  exists hc he, env hc (CCopyPeerTrust (ctx st)) = (errSecSuccess, (env hc (CCopyPeerTrust (ctx st))).2) /\
    let trust := (env hc (CCopyPeerTrust (ctx st))).2 in
    trust <> 0 /\ (env he (CEvaluate trust)).1 = true /\
    suffix (CCopyPeerTrust (ctx st) :: h0) he /\ suffix (CEvaluate trust :: he) h /\
    (anchors st <> 0 ->
      he = CSetAnchorsOnly trust (ca_only st) :: CSetAnchors trust (anchors st)
             :: CCopyPeerTrust (ctx st) :: h0).

Lemma suffix_cons_self {A} (x : A) l : suffix l (x :: l).
Proof. by apply suffix_cons_r. Qed.

Lemma wp_evaluate_trust env s st w :
  h_st w !! s = Some st ->
  wp (evaluate_trust env s)
    (fun v w' => h_refs w' = h_refs w /\ h_st w' = h_st w /\ (v = 0 \/ v = -1) /\
       (v = 0 -> skip_verify st = true \/ trust_verdict env st (h_hist w) (h_hist w'))) w.
Proof.
  intros Hst. unfold evaluate_trust, CFRelease. wp_step. eapply wp_load_obj; [exact Hst|].
  destruct (skip_verify st) eqn:Hskip; [wp_step; split_and!; auto|]. wp_step.
  match goal with |- wp (ext _ ?c) _ _ => apply (wp_ext env c) end.
  match goal with |- wp (let '(_, _) := ?e in _) _ _ => destruct e as [rc trust] eqn:Ec end.
  change (env (h_hist w) (CCopyPeerTrust (ctx st)) = (rc, trust)) in Ec.
  wp_step; [wp_step; split_and!; auto; done|]. bool_to_prop. wp_step. apply wp_acquire. wp_step.
  assert (forall w1 he, h_refs w1 = h_refs w ⊎ {[+ cf trust +]} -> h_st w1 = h_st w -> h_hist w1 = he ->
    suffix (CCopyPeerTrust (ctx st) :: h_hist w) he ->
    (anchors st <> 0 -> he = CSetAnchorsOnly trust (ca_only st) :: CSetAnchors trust (anchors st)
             :: CCopyPeerTrust (ctx st) :: h_hist w) ->
    wp ('(ok, err) ← ext env (CEvaluate trust);
        (if err =? 0 then mret tt else acquire (cf err));;
        release_nz cf err;; release (cf trust);; mret (if ok : bool then 0 else -1))
      (fun v w' => h_refs w' = h_refs w /\ h_st w' = h_st w /\ (v = 0 \/ v = -1) /\
       (v = 0 -> false = true \/ trust_verdict env st (h_hist w) (h_hist w'))) w1) as Hend.
  { intros w1 he Hr Hs Hh Hsuf Hanch. wp_step.
    apply (wp_ext env (CEvaluate trust)).
    match goal with |- wp (let '(_, _) := ?e in _) _ _ => destruct e as [ok err] eqn:Ee end.
    change (env (h_hist w1) (CEvaluate trust) = (ok, err)) in Ee. wp_step. assert (forall w2, h_refs w2 = (h_refs w ⊎ {[+ cf trust +]}) ⊎ held cf err ->
      h_st w2 = h_st w -> h_hist w2 = CEvaluate trust :: he ->
      wp (release_nz cf err;; release (cf trust);; mret (if ok : bool then 0 else -1))
      (fun v w' => h_refs w' = h_refs w /\ h_st w' = h_st w /\ (v = 0 \/ v = -1) /\
       (v = 0 -> false = true \/ trust_verdict env st (h_hist w) (h_hist w'))) w2) as Hfin.
    { intros w2 R2 S2' H2. wp_step. eapply wp_release_nz; [exact R2|]. wp_step.
      apply wp_release; [cbn; multiset_solver|]. wp_step. cbn [h_refs h_st h_hist].
      split_and!; [multiset_solver|done|by destruct ok; auto|].
      destruct ok; [|done]. intros _. right. rewrite H2. exists (h_hist w), he.
      rewrite Ec. cbn [snd]. cbv zeta.
      split_and!; [f_equal; lia|lia|by rewrite <- Hh, Ee|done|done|].
      intros Ha. by apply Hanch. }
    unfold held in Hfin. destruct (err =? 0) eqn:Eerr.
    - wp_step. apply Hfin; cbn; [rewrite Hr; multiset_solver|done|by rewrite <- Hh].
    - apply wp_acquire. apply Hfin; cbn; [by rewrite Hr|done|by rewrite <- Hh]. }
  wp_step; bool_to_prop.
  - wp_step. eapply Hend; [done|done|done|done|done].
  - do 5 wp_step. eapply Hend; [done|done|done| |done].
    cbn. do 2 apply suffix_cons_r. done.
Qed.

(** The trust decision accepts a peer only when verification was switched off, or
    when the framework's verdict on the peer's trust object was positive and was asked
    for after the connection's anchors, with the anchors-only switch it was given, were
    installed; and it gives back every object it was handed. *)
Theorem evaluate_trust_sound (env : environment call resp) (s : Z) (st : https_st) (w : world)
  (Hconn : h_st w !! s = Some st) :
  wp (evaluate_trust env s)
    (fun v w' => h_refs w' = h_refs w /\ h_st w' = h_st w /\ (v = 0 \/ v = -1) /\
       (v = 0 -> skip_verify st = true \/ trust_verdict env st (h_hist w) (h_hist w'))) w.
Proof. by apply wp_evaluate_trust. Qed.

Lemma evaluate_trust_sound_witness :
  wp (evaluate_trust demo_env 4096)
    (fun v w' => h_refs w' = {[+ 40; 50 +]} /\ h_st w' = {[ 4096 := demo_conn ]} /\ (v = 0 \/ v = -1) /\
       (v = 0 -> skip_verify demo_conn = true \/ trust_verdict demo_env demo_conn [] (h_hist w'))) demo_world.
Proof. apply (evaluate_trust_sound demo_env 4096 demo_conn demo_world). vm_compute. reflexivity. Defined.

(** ** Ownership *)

Section ownership.
Context (env : environment call resp) (fuel : nat) (Hsane : sane env).
Context (p calist : Z) (objs0 : gmap Z https_st) (refs0 : gmultiset Z).
Context (Hp : p <> 0) (Hfresh : objs0 !! p = None).

(** The record at [p] with its context, on top of what there was. *)
Definition owned (c : Z) (w : world) : Prop :=
  exists st, h_st w = <[p := st]> objs0 /\ ctx st = c /\ anchors st = calist /\
    h_refs w = refs0 ⊎ held cf c.

Definition released (w : world) : Prop := h_st w = objs0 /\ h_refs w = refs0.

Definition settled (r : hs_result) (w : world) : Prop :=
  (hs_code r = HTTPS_ST_OK /\ hs_out r = p /\ exists c, c <> 0 /\ owned c w /\
     exists st, h_st w !! p = Some st /\ deadline_ns st = 0) \/
  (hs_code r <> HTTPS_ST_OK /\ hs_out r = 0 /\ released w).

Lemma owned_lookup c w : owned c w -> exists st, h_st w !! p = Some st /\ ctx st = c /\ anchors st = calist.
Proof. intros (st & -> & Hc & Ha & _). exists st. by rewrite lookup_insert_eq. Qed.

Lemma st_owned_live c w : owned c w -> live p w.
Proof. intros (st & H & _)%owned_lookup. by exists st. Qed.

Lemma st_owned_evolves c w w' : owned c w -> evolves p w w' -> owned c w'.
Proof.
  intros (st & H & Hc & Ha & Hr) [R (a & b & A & B & (C1 & _ & C2 & _))].
  rewrite H, lookup_insert_eq in A. injection A as <-. exists b.
  rewrite B, H, insert_insert_eq, R. split_and!; congruence.
Qed.

Lemma st_wp_free_state c w : owned c w -> wp (free_state p) (fun _ => released) w.
Proof.
  intros (st & H & Hc & Ha & Hr). unfold free_state. rewrite (proj2 (Z.eqb_neq p 0)) by done.
  wp_step. eapply wp_load_obj; [by rewrite H, lookup_insert_eq|]. wp_step.
  eapply wp_release_nz; [rewrite Hc; exact Hr|]. eapply wp_drop_obj; [cbn; by rewrite H, lookup_insert_eq|].
  split; cbn; [|done]. by rewrite H, delete_insert_id.
Qed.

Lemma st_wp_fail c status code w :
  owned c w -> code <> HTTPS_ST_OK -> wp (fail p status code) settled w.
Proof. intros H Hcode. unfold fail. wp_step. wp_use st_wp_free_state as _ w1 H1. wp_step. by right. Qed.

Lemma st_wp_handshake_loop c n : forall w,
  c <> 0 -> owned c w -> wp (handshake_loop env fuel n p) settled w.
Proof.
  induction n as [|n IH]; intros w Hc H; cbn [handshake_loop]; [by wp_step|]. wp_step.
  destruct (owned_lookup _ _ H) as (st & Hst & Ec & _). eapply wp_load_obj; [exact Hst|].
  do 2 wp_step. wp_step.
  assert (evolves p w (push (CHandshake (ctx st)) w)) as E
    by (apply st_evolves_push, st_evolves_refl; by exists st).
  wp_use st_wp_run_any as rc w1 E1. pose proof (st_owned_evolves _ _ _ H E1) as H1.
  destruct (owned_lookup _ _ H1) as (st1 & Hst1 & Ec1 & _).
  wp_step; [|wp_step; [|wp_step]].
  - wp_step. eapply wp_store_obj; [exact Hst1|]. wp_step. left. split_and!; [done..|].
    exists c. split; [done|]. destruct H1 as (st2 & Ho & Hc2 & Ha2 & Hr2). cbn.
    rewrite Ho, lookup_insert_eq in Hst1. injection Hst1 as ->. split.
    + exists (set_deadline 0 st1). cbn. by rewrite Ho, insert_insert_eq.
    + eexists. by rewrite lookup_insert_eq.
  - wp_step. eapply wp_mono; [|by apply wp_evaluate_trust]. cbv beta.
    intros v w2 (R2 & S2' & _). assert (owned c w2) as H2.
    { destruct H1 as (st2 & Ho & Hc2 & Ha2 & Hr2). exists st2. rewrite S2', R2. done. }
    wp_step; [by eapply st_wp_fail|by apply IH].
  - wp_step. assert (evolves p w1 w1) as E2 by (apply st_evolves_refl; by eapply st_owned_live).
    wp_use wp_late as b w2 E3. pose proof (st_owned_evolves _ _ _ H1 E3) as H2.
    destruct b; [by eapply st_wp_fail|by apply IH].
  - wp_step. eapply wp_load_obj; [exact Hst1|]. eapply st_wp_fail; [exact H1|]. by destruct (timed_out st1).
Qed.

Lemma st_owned_push c w k : owned c w -> owned c (push k w).
Proof. done. Qed.
End ownership.

(** C38.  Whatever the framework and the system answer, [https_st_handshake] leaves
    ownership unambiguous: on success the handle is the new record, which holds one
    reference to its context and has taken over the anchor list; on every failure the
    record is freed, the context released, and the anchor list still the caller's. *)
Theorem st_handshake_ownership (env : environment call resp) (fuel : nat)
  (fd : Z) (host : list Z) (skip_verify : bool) (calist : Z) (ca_only : bool)
  (min_version timeout_ns : Z) (w : world)
  (Hsane : sane env) (Htimeout : timeout_ns < 2 ^ 62)
  (Hfresh : h_st w !! env (h_hist w) CCalloc = None) :
  wp (https_st_handshake env fuel fd host skip_verify calist ca_only min_version timeout_ns)
    (fun r w' =>
      let p := env (h_hist w) CCalloc in
      (hs_code r = HTTPS_ST_OK /\ hs_out r = p /\ p <> 0 /\
       exists c, c <> 0 /\ owned p calist (h_st w) (h_refs w) c w' /\
         exists st, h_st w' !! p = Some st /\ deadline_ns st = 0) \/
      (hs_code r <> HTTPS_ST_OK /\ hs_out r = 0 /\ released (h_st w) (h_refs w) w')) w.
Proof.
  unfold https_st_handshake. wp_step. apply (wp_ext env CCalloc).
  change (hist w) with (h_hist w). set (p := env (h_hist w) CCalloc) in *. cbv zeta.
  destruct (Z.eqb_spec p 0) as [E0|Hp]; [wp_step; by right|].
  apply (wp_mono _ (settled p calist (h_st w) (h_refs w))); [intros ? ? [?|?]; [left|right]; tauto|].
  wp_step. apply st_wp_deadline_of; [done..|]. intros d w1 Hw1 _ _.
  assert (h_st w1 = h_st w /\ h_refs w1 = h_refs w) as [Hs1 Hr1] by (by destruct Hw1 as [->| ->]).
  clear Hw1. wp_step. apply wp_new_obj. unfold owning. wp_step. wp_step. wp_step.
  set (st0 := {| ctx := 0; SecureTransport.fd := fd |}). set (c := r).
  match goal with |- wp _ _ ?x => set (w2 := x) end.
  assert (h_st w2 = <[p := st0]> (h_st w) /\ h_refs w2 = h_refs w) as [Hs2 Hr2]
    by (unfold w2; cbn; by rewrite Hs1, Hr1).
  clearbody w2. wp_step.
  assert (forall w3, h_st w3 = <[p := st0]> (h_st w) -> h_refs w3 = h_refs w ⊎ held cf c ->
    wp (mret c) (fun c w' => wp (store_obj p (set_ctx c);;
      if c =? 0 then fail p 0 HTTPS_ST_ERR_SETUP else
      rc ← ext env (CSetIOFuncs c);
      rc ← (if rc =? errSecSuccess then ext env (CSetConnection c p) else mret rc);
      if negb (rc =? errSecSuccess) then fail p 0 HTTPS_ST_ERR_SETUP else
      rc ← (match host with [] => mret errSecSuccess | _ => ext env (CSetPeerDomainName c host) end);
      if negb (rc =? errSecSuccess) then fail p 0 HTTPS_ST_ERR_SETUP else
      (if min_version =? 0 then mret tt else ext env (CSetMinVersion c min_version);; mret tt);;
      ext env (CSetOption c kSSLSessionOptionBreakOnServerAuth 1);;
      handshake_loop env fuel fuel p) (settled p calist (h_st w) (h_refs w)) w') w3) as Hrest.
  { intros w3 Hs3 Hr3. wp_step. wp_step. eapply wp_store_obj; [by rewrite Hs3, lookup_insert_eq|].
    match goal with |- wp _ _ ?x => set (w4 := x) end.
    assert (owned p calist (h_st w) (h_refs w) c w4) as H.
    { exists (set_ctx c st0). unfold w4. cbn. by rewrite Hs3, insert_insert_eq, Hr3. }
    clearbody w4. destruct (Z.eqb_spec c 0) as [|Hc]; [by eapply st_wp_fail|].
    repeat wp_step; first [ eapply st_wp_fail; [done..|repeat apply st_owned_push; exact H|done]
                          | eapply st_wp_handshake_loop; [done..|repeat apply st_owned_push; exact H] ]. }
  unfold held in Hrest. destruct (c =? 0) eqn:Ec.
  - wp_step. apply Hrest; [done|]. rewrite Hr2. multiset_solver.
  - apply wp_acquire. apply Hrest; cbn; [done|]. by rewrite Hr2.
Qed.

Lemma st_handshake_ownership_witness :
  let m := https_st_handshake demo_env 10 3 [104] false 50 true 0 5000000 in
  wp m (fun r w' =>
      (hs_code r = HTTPS_ST_OK /\ hs_out r = 4096 /\ 4096 <> 0 /\
       exists c, c <> 0 /\ owned 4096 50 ∅ ∅ c w' /\
         exists st, h_st w' !! 4096 = Some st /\ deadline_ns st = 0) \/
      (hs_code r <> HTTPS_ST_OK /\ hs_out r = 0 /\ released ∅ ∅ w')) empty_world /\
  exists w', m empty_world = Done (HsResult 0 4096 0, w').
Proof.
  split; [|eexists; vm_compute; reflexivity].
  apply (st_handshake_ownership demo_env 10 3 [104] false 50 true 0 5000000 empty_world st_demo_sane);
    [lia|reflexivity].
Defined.

(** Closing a connection releases its context and the anchor list it took over,
    each exactly once, frees the record, and touches nothing else. *)
Theorem st_close_releases (env : environment call resp) (fuel : nat) (p calist c : Z)
  (objs0 : gmap Z https_st) (refs0 : gmultiset Z) (w : world)
  (Hsane : sane env) (Hp : p <> 0) (Hfresh : objs0 !! p = None)
  (Hown : owned p calist objs0 (refs0 ⊎ held cf calist) c w) :
  wp (https_st_close env fuel p) (fun _ => released objs0 refs0) w.
Proof.
  unfold https_st_close. rewrite (proj2 (Z.eqb_neq p 0)) by done.
  destruct (owned_lookup _ _ _ _ _ _ Hown) as (st & Hst & Ec & Ea). wp_step.
  eapply wp_load_obj; [exact Hst|]. wp_step.
  assert (forall w1, owned p calist objs0 (refs0 ⊎ held cf calist) c w1 ->
    wp (st ← load_obj p; release_nz cf (anchors st);; store_obj p (set_anchors 0);; free_state p)
      (fun _ => released objs0 refs0) w1) as Hend.
  { intros w1 (st1 & H1 & Hc1 & Ha1 & Hr1). wp_step.
    eapply wp_load_obj; [by rewrite H1, lookup_insert_eq|]. wp_step.
    eapply (wp_release_nz _ _ _ _ (refs0 ⊎ held cf c)); [rewrite Ha1, Hr1; multiset_solver|]. wp_step.
    eapply wp_store_obj; [cbn; by rewrite H1, lookup_insert_eq|].
    eapply (st_wp_free_state p 0 objs0 refs0 Hp Hfresh c). exists (set_anchors 0 st1). cbn.
    by rewrite H1, insert_insert_eq. }
  wp_step; [wp_step; by apply Hend|]. wp_step. unfold now_ns. wp_step. apply (wp_ext env CClock).
  pose proof (clock_range env Hsane (h_hist w)) as Hc. change (hist w) with (h_hist w).
  destruct (env (h_hist w) CClock) as [sec nsec]. simpl in Hc. do 2 wp_step. unfold add64.
  wp_step; [|apply andb_false_iff in Heqb0 as [E|E]; bool_to_prop; lia]. do 2 wp_step.
  eapply wp_store_obj; [exact Hst|]. do 3 wp_step.
  match goal with |- wp _ _ ?x => set (w1 := x) end.
  assert (owned p calist objs0 (refs0 ⊎ held cf calist) c w1) as H1.
  { destruct Hown as (st1 & H1 & Hc1 & Ha1 & Hr1). exists (set_deadline (sec * 1000000000 + nsec + 100000000) st).
    unfold w1. cbn. rewrite H1, insert_insert_eq. done. }
  clearbody w1. assert (evolves p w1 w1) as E by (apply st_evolves_refl; by eapply st_owned_live).
  wp_use st_wp_run_any as rc w2 E2. wp_step. apply Hend. by eapply st_owned_evolves.
Qed.

Lemma st_close_releases_witness :
  wp (https_st_close demo_env 10 4096) (fun _ => released ∅ ∅) demo_world.
Proof.
  apply (st_close_releases demo_env 10 4096 50 40 ∅ ∅ demo_world st_demo_sane).
  - done.
  - reflexivity.
  - exists demo_conn. split_and!; [reflexivity..|]. vm_compute. reflexivity.
Defined.

(** ** Reading and writing *)

Lemma st_leaves_both {A} (P Q : A -> Prop) l : leaves P l -> leaves Q l -> leaves (fun a => P a /\ Q a) l.
Proof.
  induction 1 as [a Ha|want k Hk IH|data k Hk IH]; inversion 1; subst; constructor; auto.
Qed.

(** No reference changed hands, and in the heap only [s], which is live. *)
Definition only_conn (s : Z) (w w' : world) : Prop :=
  h_refs w' = h_refs w /\ exists st st', h_st w !! s = Some st /\ h_st w' = <[s := st']> (h_st w) /\
    ctx st' = ctx st /\ fd st' = fd st /\ anchors st' = anchors st.

Lemma st_only_conn_evolves s w w1 w2 : only_conn s w w1 -> evolves s w1 w2 -> only_conn s w w2.
Proof.
  intros [R (a & b & A & B & C)] [R' (a' & b' & A' & B' & C')]. split; [congruence|].
  rewrite B, lookup_insert_eq in A'. injection A' as <-. exists a, b'.
  rewrite B', B, insert_insert_eq. unfold same_conn in C'. intuition congruence.
Qed.

Lemma st_only_conn_live s w w' : only_conn s w w' -> live s w'.
Proof. intros [_ (st & st' & _ & H & _)]. exists st'. by rewrite H, lookup_insert_eq. Qed.

(** The state in which an operation calls the framework. *)
Lemma wp_begin env s t st (Q : unit -> world -> Prop) w :
  sane env -> t < 2 ^ 62 -> h_st w !! s = Some st ->
  (forall w', only_conn s w w' -> Q tt w') ->
  wp (d ← deadline_of env t; store_obj s (set_deadline d);; store_obj s (set_timed_out false)) Q w.
Proof.
  intros Hsane Ht Hst HQ. wp_step. apply st_wp_deadline_of; [done..|]. intros d w1 Hw1 _ _.
  assert (h_st w1 = h_st w /\ h_refs w1 = h_refs w) as [Hs Hr] by (by destruct Hw1 as [->| ->]).
  wp_step. eapply wp_store_obj; [by rewrite Hs|]. eapply wp_store_obj; [cbn; by rewrite lookup_insert_eq|].
  apply HQ. split; [done|]. cbn. rewrite Hs, insert_insert_eq.
  exists st. eexists. by split_and!.
Qed.

Lemma wp_assoc3 {W A B C D} (m : M W A) (f : A -> M W B) (g : A -> M W C) (k : M W D) (Q : D -> W -> Prop) w :
  wp (x ← m; f x;; g x) (fun _ w' => wp k Q w') w -> wp (x ← m; f x;; g x;; k) Q w.
Proof.
  unfold wp, mbind, M_bind. destruct (m w) as [[a w1]| |]; [|done..].
  destruct (f a w1) as [[b w2]| |]; [|done..]. by destruct (g a w2) as [[c w3]| |].
Qed.

(** The code for a result of SSLRead that carried no bytes. *)
Definition read_code (rc : Z) (timed : bool) : Z :=
  if (rc =? errSecSuccess) || (rc =? errSSLClosedGraceful) || (rc =? errSSLClosedNoNotify)
  then HTTPS_ST_OK
  else if (rc =? errSSLWouldBlock) || timed then HTTPS_ST_ERR_TIMEOUT else HTTPS_ST_ERR_IO.

(** A read touches nothing but the connection and the front of the buffer, into
    which it puts exactly the bytes Secure Transport delivered ([P] is whatever holds
    of each result of SSLRead), no more than fit; without bytes the code is success
    for the end of the stream, and otherwise tells a time-out from an error, whose
    status it passes on. *)
Theorem st_read_contract (env : environment call resp) (fuel : nat)
  (handle : Z) (buf : list Z) (len timeout_ns : Z) (w : world) (st : https_st)
  (P : Z * list Z -> Prop)
  (Hsane : sane env) (Htimeout : timeout_ns < 2 ^ 62) (Hlen : 0 < len <= zlen buf)
  (Hconn : h_st w !! handle = Some st) (Hctx : handle <> 0 /\ ctx st <> 0)
  (HP : forall h, leaves P (env h (CSSLRead (ctx st) len))) :
  wp (https_st_read env fuel handle buf len timeout_ns)
    (fun '(code, buf', n, status) w' => only_conn handle w w' /\
      exists rc bs timed, P (rc, bs) /\ n = zlen bs /\ n <= len /\ buf' = splice buf 0 bs /\
        code = (if n >? 0 then HTTPS_ST_OK else read_code rc timed) /\
        (code = HTTPS_ST_ERR_IO -> status = rc) /\ (code = HTTPS_ST_OK -> status = 0)) w.
Proof.
  destruct Hctx as [Hh Hc]. unfold https_st_read. rewrite (proj2 (Z.eqb_neq handle 0)) by done.
  wp_step. eapply wp_load_obj; [exact Hconn|]. rewrite (proj2 (Z.eqb_neq (ctx st) 0)) by done.
  rewrite (proj2 (Z.leb_gt len 0)) by lia. apply wp_assoc3.
  eapply wp_begin; [done..|]. intros w1 O1. wp_step.
  match goal with |- wp (ext _ ?c) _ _ => apply (wp_ext env c) end.
  pose proof (st_leaves_both _ _ _ (HP (hist w1)) (ssl_read_fills env Hsane (hist w1) (ctx st) len ltac:(lia))) as HL.
  generalize dependent (env (hist w1) (CSSLRead (ctx st) len)). intros l HL. wp_step.
  set (w2 := push (CSSLRead (ctx st) len) w1).
  assert (evolves handle w2 w2) as E by (apply st_evolves_refl; by eapply st_only_conn_live).
  eapply wp_mono; [|apply (st_wp_run env fuel Hsane _ handle w2 l HL w2 E)].
  cbv beta. intros [rc bs] w3 [[Hp Hb] E3]. cbn [fst snd] in Hb.
  assert (only_conn handle w w3) as O3 by (by eapply st_only_conn_evolves).
  destruct (st_only_conn_live _ _ _ O3) as [st3 Hst3]. pose proof (zlen_nonneg bs).
  wp_step. rewrite store_splice by lia. apply wp_lift_Done.
  assert (forall code status, code = (if zlen bs >? 0 then HTTPS_ST_OK else read_code rc (timed_out st3)) ->
    (code = HTTPS_ST_ERR_IO -> status = rc) -> (code = HTTPS_ST_OK -> status = 0) -> forall n, n = zlen bs ->
    only_conn handle w w3 /\ exists rc bs' timed, P (rc, bs') /\ n = zlen bs' /\ n <= len /\
      splice buf 0 bs = splice buf 0 bs' /\ code = (if n >? 0 then HTTPS_ST_OK else read_code rc timed) /\
      (code = HTTPS_ST_ERR_IO -> status = rc) /\ (code = HTTPS_ST_OK -> status = 0)) as Fin.
  { intros code status Hcode H1 H2 n ->. split; [done|]. exists rc, bs, (timed_out st3). by split_and!. }
  unfold read_code in Fin. destruct (zlen bs >? 0) eqn:Eb; [wp_step; by apply Fin|]. bool_to_prop.
  destruct (rc =? errSecSuccess) eqn:E1; [wp_step; apply Fin; by (lia || done)|].
  destruct ((rc =? errSSLClosedGraceful) || (rc =? errSSLClosedNoNotify)) eqn:E2.
  { wp_step. cbn [orb] in Fin. rewrite E2 in Fin. apply Fin; by (lia || done). }
  cbn [orb] in Fin. rewrite E2 in Fin. destruct (rc =? errSSLWouldBlock) eqn:E4.
  { wp_step. apply Fin; by (lia || done). }
  wp_step. eapply wp_load_obj; [exact Hst3|]. wp_step. apply Fin; destruct (timed_out st3); by (lia || done).
Qed.

Lemma st_read_contract_witness :
  wp (https_st_read demo_env 10 4096 [0; 0; 0] 3 1000)
    (fun '(code, buf', n, status) w' => only_conn 4096 demo_world w' /\
      exists rc bs timed, True /\ n = zlen bs /\ n <= 3 /\ buf' = splice [0; 0; 0] 0 bs /\
        code = (if n >? 0 then HTTPS_ST_OK else read_code rc timed) /\
        (code = HTTPS_ST_ERR_IO -> status = rc) /\ (code = HTTPS_ST_OK -> status = 0)) demo_world /\
  exists w', https_st_read demo_env 10 4096 [0; 0; 0] 3 1000 demo_world = Done (0, [7; 7; 0], 2, 0, w').
Proof.
  split; [|eexists; vm_compute; reflexivity].
  apply (st_read_contract demo_env 10 4096 [0; 0; 0] 3 1000 demo_world demo_conn (fun _ => True) st_demo_sane).
  - lia.
  - unfold zlen; simpl; lia.
  - vm_compute. reflexivity.
  - done.
  - intros h. apply st_leaves_true.
Defined.

(** ** The readiness wait *)

Definition clock_at (env : environment call resp) (h : list call) : Z :=
  (env h CClock).1 * 1000000000 + (env h CClock).2.

(** C39.  The wait of this backend reads the clock in every round, so its deadline does
    bound it: even if select fails forever, the wait has returned, with a time-out,
    once the clock has passed the deadline. *)
Theorem st_wait_bounded (env : environment call resp) (fuel N : nat) (s : Z) (for_write : bool)
  (w : world) (st : https_st)
  (Hconn : h_st w !! s = Some st) (Hdeadline : deadline_ns st <> 0)
  (Hclock : forall h, (N <= length h)%nat -> deadline_ns st <= clock_at env h)
  (Hselect : forall h nfds fd fw t, env h (CSelect nfds fd fw t) <= 0)
  (Hfuel : (N < fuel)%nat) :
  exists w', wait_ready env fuel s for_write w = Done (-1, w').
Proof.
  assert (forall n w, h_st w !! s = Some st -> (N < n + length (h_hist w))%nat -> (0 < n)%nat ->
    twp (wait_ready_loop env n s for_write) (fun r _ => r = -1) w) as Hloop.
  { clear w Hconn. induction n as [|n IH]; intros w Hconn Hn Hp; [lia|]. cbn [wait_ready_loop].
    twp_step. unfold twp, load_obj at 1. rewrite Hconn. change (twp ?m ?Q w) with (twp m Q w).
    rewrite (proj2 (Z.eqb_neq _ 0)) by done.
    match goal with |- match ?m w with _ => _ end => change (twp m (fun r _ => r = -1) w) end.
    unfold now_ns. do 4 twp_step.
    specialize (Hclock (h_hist w)). unfold clock_at in Hclock. change (hist w) with (h_hist w).
    destruct (env (h_hist w) CClock) as [sec nsec]. cbn [fst snd] in Hclock. twp_step.
    destruct (Z.leb_spec (deadline_ns st - (sec * 1000000000 + nsec)) 0) as [|Hlt]; [by repeat twp_step|].
    do 3 twp_step. pose proof (Hselect (hist (push CClock w)) (fd st + 1) (fd st) for_write
      (Some (timeval_of (deadline_ns st - (sec * 1000000000 + nsec))))) as Hs.
    match goal with |- twp (if ?r >? 0 then _ else _) _ _ => change (r <= 0) in Hs; destruct (Z.gtb_spec r 0); [lia|] end.
    destruct (_ =? 0); [by twp_step|].
    assert (~ (N <= length (h_hist w))%nat) by (intros X; specialize (Hclock X); lia).
    apply IH; [done|cbn; lia|lia]. }
  unfold wait_ready. assert (twp (st ← load_obj s; if (fd st <? 0) || (fd st >=? 1024) then mret (-1)
    else wait_ready_loop env fuel s for_write) (fun r _ => r = -1) w) as H.
  { twp_step. unfold twp, load_obj at 1. rewrite Hconn. destruct (_ || _); [done|].
    apply Hloop; [done|lia|lia]. }
  destruct (twp_Done _ _ _ H) as (r & w' & E & ->). by exists w'.
Qed.

(** Every select fails while the clock advances a second per call. *)
Definition failing_env : environment call resp := fun h c =>
  match c as c return resp c with
  | CSelect _ _ _ _ => -1
  | CClock => (zlen h, 0)
  | c => demo_env h c
  end.
Definition waiting_world : world := Host [] ∅ {[ 4096 := set_deadline 3000000000 demo_conn ]}.

Lemma st_wait_bounded_witness : exists w', wait_ready failing_env 10 4096 false waiting_world = Done (-1, w').
Proof.
  apply (st_wait_bounded failing_env 10 3 4096 false waiting_world (set_deadline 3000000000 demo_conn)).
  - vm_compute. reflexivity.
  - done.
  - intros h Hh. unfold clock_at. cbn -[Z.mul]. unfold zlen. lia.
  - intros. cbn. lia.
  - lia.
Defined.
