(* ===== verification/Schannel.v ===== *)
(** * internal/schannel/sspibridge.c

    The TLS client of Windows over Schannel: socket I/O, the growing buffers, anchors,
    client certificates, the credential, the chain verification, the handshake, and
    the record layer that moves plaintext to the caller.  Winsock, SSPI, CryptoAPI,
    CNG and the allocator are the environment.

    The static functions take the connection record and give back the one they leave;
    the exported ones load it from and store it to the heap.  A buffer that Windows
    allocates (a token, a decoded structure) is an owned resource named by its
    pointer; so are certificates, chains, stores and keys, and the credential and
    security context of a record, named by its address.  The blocks behind the three
    buffers of a record and its wide host name come from [malloc] and are owned too:
    growing a buffer frees the old block, and freeing the record frees all four. *)

From stdpp Require Import gmap gmultiset.
From S2P Require Import Prelude Eff Host.

(** ** Constants *)

Definition HTTPS_SC_OK := 0.
Definition HTTPS_SC_ERR_ALLOC := -1.
Definition HTTPS_SC_ERR_SETUP := -2.
Definition HTTPS_SC_ERR_CA := -3.
Definition HTTPS_SC_ERR_CLIENT_CERT := -4.
Definition HTTPS_SC_ERR_HANDSHAKE := -5.
Definition HTTPS_SC_ERR_TIMEOUT := -6.
Definition HTTPS_SC_ERR_IO := -7.
Definition HTTPS_SC_ERR_CLOSED := -8.
Definition HTTPS_SC_TLS12 := 0x0303.
Definition HTTPS_SC_TLS13 := 0x0304.

Definition SC_PROT_SSL2_CLIENT := 0x00000008.
Definition SC_PROT_SSL3_CLIENT := 0x00000020.
Definition SC_PROT_TLS1_0_CLIENT := 0x00000080.
Definition SC_PROT_TLS1_1_CLIENT := 0x00000200.
Definition SC_PROT_TLS1_2_CLIENT := 0x00000800.
Definition SC_PROT_TLS1_3_CLIENT := 0x00002000.
Definition SC_CRED_NO_SYSTEM_MAPPER := 0x00000002.
Definition SC_CRED_MANUAL_CRED_VALIDATION := 0x00000008.
Definition SC_CRED_NO_DEFAULT_CREDS := 0x00000010.
Definition SC_USE_STRONG_CRYPTO := 0x00400000.
Definition SC_SCHANNEL_CRED_VERSION := 4.
Definition SC_CREDENTIALS_VERSION := 5.
Definition SC_CHAIN_EXCLUSIVE_ENABLE_CA_FLAG := 1.
Definition SC_TRUST_IS_NOT_TIME_NESTED := 0x00000002.
Definition SC_TRUST_REVOCATION_STATUS_UNKNOWN := 0x00000040.
Definition SC_TRUST_IS_OFFLINE_REVOCATION := 0x01000000.
Definition SC_STATUS_KEY_UNSUPPORTED := to_int 0x80090302.
Definition SC_ENC_INITIAL := 32768.
Definition SC_ENC_MAX := 512 * 1024.
Definition SC_SHUTDOWN_NS := 100000000.

Definition SEC_E_OK := 0.
Definition SEC_I_CONTINUE_NEEDED := 0x00090312.
Definition SEC_I_CONTEXT_EXPIRED := 0x00090317.
Definition SEC_E_INCOMPLETE_MESSAGE := to_int 0x80090318.
Definition SEC_I_INCOMPLETE_CREDENTIALS := 0x00090320.
Definition SEC_I_RENEGOTIATE := 0x00090321.
Definition CERT_E_UNTRUSTEDROOT := to_int 0x800B0109.
Definition WSAEINTR := 10004.
Definition ISC_REQ_USE_SUPPLIED_CREDS := 0x00000080.

(** The flags of [isc_flags]: replay and sequence detection, confidentiality, extended
    errors, allocated output and stream orientation. *)
Definition isc_flags : Z :=
  Z.lor 0x00000008 (Z.lor 0x00000004 (Z.lor 0x00000010 (Z.lor 0x00004000
    (Z.lor 0x00000100 0x00008000)))).

(** ** Records *)

(** A malloc'd buffer: null, or the bytes of the block at the address [b_at], with the
    capacity, length and offset the record keeps beside it. *)
Record cbuf : Set := Buf {
  b_at : Z; b_ptr : option (list Z); b_cap : Z; b_len : Z; b_off : Z
}.
Definition no_buf : cbuf := Buf 0 None 0 0 0.

Record conf : Set := {
  sock : Z; castore : Z; ca_only : bool; skip_verify : bool;
  hostw_at : Z; hostw : option (list Z); clientcert : Z
}.

Record stream_sizes : Set := { cbHeader : Z; cbMaximumMessage : Z; cbTrailer : Z }.

Record https_sc : Set := {
  cfg : conf;
  have_cred : bool;
  have_ctx : bool;
  sizes : stream_sizes;
  enc : cbuf;
  dec : cbuf;
  out : cbuf;
  deadline_ns : Z;
  eof : bool
}.

Definition set_enc (b : cbuf) (s : https_sc) : https_sc :=
  {| cfg := cfg s; have_cred := have_cred s; have_ctx := have_ctx s; sizes := sizes s;
     enc := b; dec := dec s; out := out s; deadline_ns := deadline_ns s; eof := eof s |}.
Definition set_dec (b : cbuf) (s : https_sc) : https_sc :=
  {| cfg := cfg s; have_cred := have_cred s; have_ctx := have_ctx s; sizes := sizes s;
     enc := enc s; dec := b; out := out s; deadline_ns := deadline_ns s; eof := eof s |}.
Definition set_out (b : cbuf) (s : https_sc) : https_sc :=
  {| cfg := cfg s; have_cred := have_cred s; have_ctx := have_ctx s; sizes := sizes s;
     enc := enc s; dec := dec s; out := b; deadline_ns := deadline_ns s; eof := eof s |}.
Definition set_deadline (d : Z) (s : https_sc) : https_sc :=
  {| cfg := cfg s; have_cred := have_cred s; have_ctx := have_ctx s; sizes := sizes s;
     enc := enc s; dec := dec s; out := out s; deadline_ns := d; eof := eof s |}.
Definition set_eof (s : https_sc) : https_sc :=
  {| cfg := cfg s; have_cred := have_cred s; have_ctx := have_ctx s; sizes := sizes s;
     enc := enc s; dec := dec s; out := out s; deadline_ns := deadline_ns s; eof := true |}.
Definition set_have_cred (s : https_sc) : https_sc :=
  {| cfg := cfg s; have_cred := true; have_ctx := have_ctx s; sizes := sizes s;
     enc := enc s; dec := dec s; out := out s; deadline_ns := deadline_ns s; eof := eof s |}.
Definition set_have_ctx (s : https_sc) : https_sc :=
  {| cfg := cfg s; have_cred := have_cred s; have_ctx := true; sizes := sizes s;
     enc := enc s; dec := dec s; out := out s; deadline_ns := deadline_ns s; eof := eof s |}.
Definition set_sizes (z : stream_sizes) (s : https_sc) : https_sc :=
  {| cfg := cfg s; have_cred := have_cred s; have_ctx := have_ctx s; sizes := z;
     enc := enc s; dec := dec s; out := out s; deadline_ns := deadline_ns s; eof := eof s |}.
Definition set_hostw (a : Z) (h : option (list Z)) (s : https_sc) : https_sc :=
  {| cfg := {| sock := sock (cfg s); castore := castore (cfg s); ca_only := ca_only (cfg s);
               skip_verify := skip_verify (cfg s); hostw_at := a; hostw := h;
               clientcert := clientcert (cfg s) |};
     have_cred := have_cred s; have_ctx := have_ctx s; sizes := sizes s;
     enc := enc s; dec := dec s; out := out s; deadline_ns := deadline_ns s; eof := eof s |}.

(** The client certificate Go holds: the certificate and its key provider. *)
Record sc_clientcert : Set := { cc_cert : Z; cc_prov : Z }.

(** ** Owned resources *)

Inductive res : Set :=
  | RCtxBuf (p : Z) | RCert (p : Z) | RChain (p : Z) | REngine (p : Z) | RStore (p : Z)
  | RLocal (p : Z) | RBlock (p : Z) | RNCrypt (p : Z) | RCred (s : Z) | RCtx (s : Z).

#[export] Instance res_eq_dec : EqDecision res.
Proof. solve_decision. Defined.

Definition res_code (r : res) : nat * Z :=
  match r with
  | RCtxBuf p => (0%nat, p) | RCert p => (1%nat, p) | RChain p => (2%nat, p)
  | REngine p => (3%nat, p) | RStore p => (4%nat, p) | RLocal p => (5%nat, p)
  | RBlock p => (6%nat, p) | RNCrypt p => (7%nat, p) | RCred p => (8%nat, p) | RCtx p => (9%nat, p)
  end.
Definition res_decode (c : nat * Z) : res :=
  match c with
  | (0%nat, p) => RCtxBuf p | (1%nat, p) => RCert p | (2%nat, p) => RChain p
  | (3%nat, p) => REngine p | (4%nat, p) => RStore p | (5%nat, p) => RLocal p
  | (6%nat, p) => RBlock p | (7%nat, p) => RNCrypt p | (8%nat, p) => RCred p | (_, p) => RCtx p
  end.
#[export] Program Instance res_countable : Countable res := inj_countable' res_code res_decode _.
Next Obligation. by intros []. Qed.

(** ** The outside *)

(** The credential structures: version, flags, certificate, protocols disabled or enabled. *)
Inductive cred_params : Set :=
  | Modern (version flags : Z) (cert : option Z) (disabled : Z)
  | Legacy (version flags : Z) (cert : option Z) (enabled : Z).

(** InitializeSecurityContext: the status, the token (pointer and bytes), the alert
    buffer, and how much of the input is left over. *)
Record isc_resp : Set := {
  isc_status : Z; isc_tok : Z; isc_bytes : list Z; isc_alert : Z; isc_extra : option Z
}.

Inductive buftype : Set := BEmpty | BData | BExtra | BOther.

(** DecryptMessage works in place: the status, the buffer after it, and the type,
    offset and length of the three buffers it describes. *)
Record dec_resp : Set := {
  dec_status : Z; dec_enc : list Z; dec_bufs : list (buftype * Z * Z)
}.

(** EncryptMessage works in place too: the status, the buffer and the three sizes. *)
Record enc_resp : Set := { enc_status : Z; enc_out : list Z; enc_cb : Z * Z * Z }.

Inductive call : Type :=
  | CTick | CSelect (sock : Z) (for_write : bool) (timeout : option (Z * Z)) | CWSAGetLastError
  | CRecv (sock len : Z) | CSend (sock : Z) (data : list Z)
  | CMalloc (n : Z) | CCalloc | CGetLastError
  | CCertOpenStore | CCertAddEncoded (store : Z) (der : list Z)
  | CDecodePkcs8 (der : list Z) | CMallocBlock (n : Z) | CDecodeRsaKey (der : list Z)
  | CCertCreate (der : list Z) | CNCryptOpen | CNCryptImport (prov blob : Z)
  | CSetKeyProperty (cert key : Z)
  | CAcquire (s : Z) (p : cred_params)
  | CQueryRemoteCert (s : Z) | CQuerySizes (s : Z)
  | CCreateEngine (root flags : Z) | CGetChain (engine cert store : Z)
  | CVerifyPolicy (chain : Z) (host : option (list Z)) | CChainStatus (chain : Z)
  | CInitContext (s : Z) (first : bool) (host : option (list Z)) (req : Z) (input : list Z)
  | CDecrypt (s : Z) (data : list Z)
  | CEncrypt (s : Z) (header : Z) (data : list Z) (trailer : Z)
  | CWideLen (host : list Z) | CWiden (host : list Z) (wlen : Z)
  | CApplyToken (s : Z).

Definition resp (c : call) : Type :=
  match c with
  | CRecv _ _ => Z * list Z
  | CMalloc _ => option (Z * list Z)                 (* the address and what is there *)
  | CCertAddEncoded _ _ | CSetKeyProperty _ _ => bool
  | CDecodePkcs8 _ => Z * option (list Z) * list Z   (* structure, algorithm, key *)
  | CDecodeRsaKey _ => Z * list Z                    (* blob, or null *)
  | CNCryptOpen | CNCryptImport _ _ | CQueryRemoteCert _ => Z * Z
  | CQuerySizes _ => Z * stream_sizes
  | CVerifyPolicy _ _ => bool * Z
  | CInitContext _ _ _ _ _ => isc_resp
  | CDecrypt _ _ => dec_resp
  | CEncrypt _ _ _ _ => enc_resp
  | CWiden _ _ => Z * list Z
  | _ => Z
  end.

Definition world : Type := host call res (gmap Z https_sc).

Section bridge.
Context (env : environment call resp) (fuel : nat).

Definition now_ns : M world Z := t ← ext env CTick; mret (t * 1000000).

Definition add64 (a b : Z) : M world Z :=
  if (- 2 ^ 63 <=? a + b) && (a + b <? 2 ^ 63) then mret (a + b) else fault.

(** ** Socket I/O *)

Definition timeval_of (remaining : Z) : Z * Z :=
  (remaining / 1000000000, remaining mod 1000000000 / 1000).

Fixpoint wait_ready (fuel : nat) (s : https_sc) (for_write : bool) : M world Z :=
  match fuel with
  | O => out_of_fuel
  | S fuel =>
      tvp ← (if deadline_ns s =? 0 then mret (Some None)
             else
               now ← now_ns;
               let remaining := deadline_ns s - now in
               if remaining <=? 0 then mret None else mret (Some (Some (timeval_of remaining))));
      match tvp with
      | None => mret (-1)
      | Some tvp =>
          rc ← ext env (CSelect (sock (cfg s)) for_write tvp);
          if rc >? 0 then mret 0
          else if rc =? 0 then mret (-1)
          else
            e ← ext env CWSAGetLastError;
            if e =? WSAEINTR then wait_ready fuel s for_write else mret (-2)
      end
  end.

(** The count or a negative result, the bytes, and the record. *)
Definition sock_recv (s : https_sc) (len : Z) : M world (Z * list Z * https_sc) :=
  w ← (if deadline_ns s =? 0 then mret 0 else wait_ready fuel s false);
  if negb (w =? 0) then mret (w, [], s) else
  '(n, bs) ← ext env (CRecv (sock (cfg s)) len);
  if n =? 0 then mret (0, [], set_eof s)
  else if n =? -1 then mret (-2, [], s)
  else mret (n, bs, s).

Fixpoint sock_send_all (n : nat) (s : https_sc) (buf : list Z) (sent : Z) : M world Z :=
  match n with
  | O => out_of_fuel
  | S n =>
      if sent <? zlen buf then
        w ← (if deadline_ns s =? 0 then mret 0 else wait_ready fuel s true);
        if negb (w =? 0) then mret w else
        k ← ext env (CSend (sock (cfg s)) (zdrop sent buf));
        if k =? -1 then mret (-2) else sock_send_all n s buf (sent + k)
      else mret 0
  end.

Definition sock_class (rc : Z) : Z :=
  if rc =? -1 then HTTPS_SC_ERR_TIMEOUT else HTTPS_SC_ERR_IO.

(** ** Buffers *)

(** [while (ncap < want) ncap *= 2], an [int] that must not overflow. *)
Fixpoint double_until (fuel : nat) (ncap want : Z) : M world Z :=
  match fuel with
  | O => out_of_fuel
  | S fuel =>
      if ncap <? want then
        if ncap * 2 <? 2 ^ 31 then double_until fuel (ncap * 2) want else fault
      else mret ncap
  end.

(** [free(p)] of a block that [malloc] gave; nothing for a null pointer. *)
Definition c_free (at_ : Z) (ptr : option (list Z)) : M world unit :=
  match ptr with Some _ => release (RBlock at_) | None => mret tt end.

(** The result and the buffer. *)
Definition grow (b : cbuf) (want used limit : Z) : M world (Z * cbuf) :=
  if b_cap b >=? want then mret (0, b)
  else if want >? limit then mret (-1, b)
  else
    ncap ← double_until 32 (if b_cap b >? 0 then b_cap b else 1024) want;
    let ncap := if ncap >? limit then limit else ncap in
    r ← ext env (CMalloc ncap);
    match r with
    | None => mret (-1, b)
    | Some (at_, nb) =>
        acquire (RBlock at_);;
        nb ← (match b_ptr b with
              | Some old => if used >? 0 then bs ← lift (load old 0 used); lift (store nb 0 bs)
                            else mret nb
              | None => mret nb
              end);
        c_free (b_at b) (b_ptr b);;
        mret (0, Buf at_ (Some nb) ncap (b_len b) (b_off b))
    end.

(** The bytes behind a buffer; a null pointer may not be dereferenced. *)
Definition bytes_of (b : cbuf) : M world (list Z) :=
  match b_ptr b with Some l => mret l | None => fault end.

(** ** Anchors *)

Definition https_sc_calist_new : M world Z := owning RStore (ext env CCertOpenStore).

Definition https_sc_calist_add (list_ : Z) (der : option (list Z)) (len : Z) : M world Z :=
  match der with
  | None => mret HTTPS_SC_ERR_SETUP
  | Some bytes =>
      if (list_ =? 0) || (len <=? 0) then mret HTTPS_SC_ERR_SETUP else
      bs ← lift (load bytes 0 len);
      ok ← ext env (CCertAddEncoded list_ bs);
      mret (if ok : bool then HTTPS_SC_OK else HTTPS_SC_ERR_CA)
  end.

Definition https_sc_calist_free (list_ : Z) : M world unit :=
  if list_ =? 0 then mret tt else release (RStore list_).

(** ** Client certificates *)

(** "1.2.840.113549.1.1.1" *)
Definition szOID_RSA_RSA : list Z :=
  [49;46;50;46;56;52;48;46;49;49;51;53;52;57;46;49;46;49;46;49].

(** The result, the copy (null or a block) and its bytes. *)
Definition unwrap_pkcs8 (der : list Z) : M world (Z * Z * list Z) :=
  '(info, alg, key) ← ext env (CDecodePkcs8 der);
  if info =? 0 then mret (-1, 0, []) else
  acquire (RLocal info);;
  if negb (bool_decide (alg = Some szOID_RSA_RSA)) then
    release (RLocal info);; mret (-2, 0, [])
  else
    copy ← owning RBlock (ext env (CMallocBlock (zlen key)));
    release (RLocal info);;
    if copy =? 0 then mret (-1, 0, []) else mret (0, copy, key).

(** The code, the handle's contents and [*status]. *)
Definition https_sc_clientcert_new (cert_der key_der : option (list Z)) (cert_len key_len : Z)
    (key_pkcs8 : bool) : M world (Z * option (Z * sc_clientcert) * Z) :=
  match cert_der, key_der with
  | Some cd, Some kd =>
      if (cert_len <=? 0) || (key_len <=? 0) then mret (HTTPS_SC_ERR_CLIENT_CERT, None, 0) else
      cd ← lift (load cd 0 cert_len);
      kd ← lift (load kd 0 key_len);
      cert ← owning RCert (ext env (CCertCreate cd));
      if cert =? 0 then e ← ext env CGetLastError; mret (HTTPS_SC_ERR_CLIENT_CERT, None, to_int e) else
      '(rc, unwrapped, pkcs1) ← (if key_pkcs8 then unwrap_pkcs8 kd else mret (0, 0, kd));
      if negb (rc =? 0) then
        release (RCert cert);;
        st ← (if rc =? -2 then mret SC_STATUS_KEY_UNSUPPORTED
              else e ← ext env CGetLastError; mret (to_int e));
        mret (HTTPS_SC_ERR_CLIENT_CERT, None, st)
      else
      '(blob, _) ← ext env (CDecodeRsaKey pkcs1);
      (if blob =? 0 then mret tt else acquire (RLocal blob));;
      release_nz RBlock unwrapped;;
      if blob =? 0 then
        e ← ext env CGetLastError;
        release (RCert cert);; mret (HTTPS_SC_ERR_CLIENT_CERT, None, to_int e)
      else
      '(ss, prov) ← ext env CNCryptOpen;
      if negb (ss =? 0) then
        release (RLocal blob);; release (RCert cert);; mret (HTTPS_SC_ERR_CLIENT_CERT, None, ss)
      else
      acquire (RNCrypt prov);;
      '(ss, key) ← ext env (CNCryptImport prov blob);
      release (RLocal blob);;
      if negb (ss =? 0) then
        release (RNCrypt prov);; release (RCert cert);; mret (HTTPS_SC_ERR_CLIENT_CERT, None, ss)
      else
      acquire (RNCrypt key);;
      ok ← ext env (CSetKeyProperty cert key);
      if negb ok then
        e ← ext env CGetLastError;
        release (RNCrypt key);; release (RNCrypt prov);; release (RCert cert);;
        mret (HTTPS_SC_ERR_CLIENT_CERT, None, to_int e)
      else
      (* the certificate context takes the key over *)
      release (RNCrypt key);;
      cc ← owning RBlock (ext env CCalloc);
      if cc =? 0 then
        release (RCert cert);; release (RNCrypt prov);; mret (HTTPS_SC_ERR_ALLOC, None, 0)
      else mret (HTTPS_SC_OK, Some (cc, {| cc_cert := cert; cc_prov := prov |}), 0)
  | _, _ => mret (HTTPS_SC_ERR_CLIENT_CERT, None, 0)
  end.

Definition https_sc_clientcert_free (handle : option (Z * sc_clientcert)) : M world unit :=
  match handle with
  | None => mret tt
  | Some (p, cc) =>
      release_nz RCert (cc_cert cc);;
      release_nz RNCrypt (cc_prov cc);;
      release (RBlock p)
  end.

(** ** Credentials *)

Definition disabled_below (min_version : Z) : Z :=
  let disabled := Z.lor SC_PROT_SSL2_CLIENT (Z.lor SC_PROT_SSL3_CLIENT
                    (Z.lor SC_PROT_TLS1_0_CLIENT SC_PROT_TLS1_1_CLIENT)) in
  if min_version >=? HTTPS_SC_TLS13 then Z.lor disabled SC_PROT_TLS1_2_CLIENT else disabled.

Definition enabled_from (min_version : Z) : Z :=
  if min_version >=? HTTPS_SC_TLS13 then SC_PROT_TLS1_3_CLIENT
  else Z.lor SC_PROT_TLS1_2_CLIENT SC_PROT_TLS1_3_CLIENT.

Definition cred_flags : Z :=
  Z.lor SC_CRED_MANUAL_CRED_VALIDATION (Z.lor SC_CRED_NO_DEFAULT_CREDS
    (Z.lor SC_CRED_NO_SYSTEM_MAPPER SC_USE_STRONG_CRYPTO)).

Definition acquire_cred (p : Z) (s : https_sc) (min_version : Z) : M world (Z * https_sc) :=
  let cert := if clientcert (cfg s) =? 0 then None else Some (clientcert (cfg s)) in
  ss ← ext env (CAcquire p (Modern SC_CREDENTIALS_VERSION cred_flags cert (disabled_below min_version)));
  if ss =? SEC_E_OK then acquire (RCred p);; mret (SEC_E_OK, set_have_cred s) else
  ss ← ext env (CAcquire p (Legacy SC_SCHANNEL_CRED_VERSION cred_flags cert (enabled_from min_version)));
  if ss =? SEC_E_OK then acquire (RCred p);; mret (ss, set_have_cred s) else mret (ss, s).

(** ** Trust *)

(** The result and the status, which is left alone on success. *)
Definition check_policy (s : https_sc) (chain status : Z) : M world (Z * Z) :=
  '(ok, err) ← ext env (CVerifyPolicy chain (hostw (cfg s)));
  if negb ok then e ← ext env CGetLastError; mret (-1, to_int e) else
  if negb (err =? 0) then mret (-1, to_int err) else
  t ← ext env (CChainStatus chain);
  let fatal := Z.ldiff t (Z.lor SC_TRUST_REVOCATION_STATUS_UNKNOWN
                 (Z.lor SC_TRUST_IS_OFFLINE_REVOCATION SC_TRUST_IS_NOT_TIME_NESTED)) in
  if negb (fatal =? 0) then mret (-1, to_int fatal) else mret (0, status).

(** A chain engine is null for the default one. *)
Definition verify_built (s : https_sc) (cert engine status : Z) : M world (Z * Z) :=
  chain ← owning RChain (ext env (CGetChain engine cert (castore (cfg s))));
  if chain =? 0 then
    e ← ext env CGetLastError;
    release_nz REngine engine;; mret (-1, to_int e)
  else
    '(rc, status) ← check_policy s chain status;
    release (RChain chain);;
    release_nz REngine engine;;
    mret (rc, status).

Definition verify_with (s : https_sc) (cert : Z) (exclusive : bool) (status : Z) : M world (Z * Z) :=
  if exclusive then
    if castore (cfg s) =? 0 then mret (-1, CERT_E_UNTRUSTEDROOT) else
    engine ← owning REngine (ext env (CCreateEngine (castore (cfg s)) SC_CHAIN_EXCLUSIVE_ENABLE_CA_FLAG));
    if engine =? 0 then e ← ext env CGetLastError; mret (-1, to_int e)
    else verify_built s cert engine status
  else verify_built s cert 0 status.

Definition verify_chain (p : Z) (s : https_sc) (status : Z) : M world (Z * Z) :=
  if skip_verify (cfg s) then mret (0, status) else
  '(ss, cert) ← ext env (CQueryRemoteCert p);
  if negb (ss =? SEC_E_OK) || (cert =? 0) then mret (-1, ss) else
  acquire (RCert cert);;
  '(rc, status) ← (if ca_only (cfg s) then verify_with s cert true status
                   else
                     '(rc, status) ← verify_with s cert false status;
                     if negb (rc =? 0) && negb (castore (cfg s) =? 0)
                     then verify_with s cert true status else mret (rc, status));
  release (RCert cert);;
  mret (rc, status).

(** ** Handshake *)

(** A buffer Schannel allocated, where it did. *)
Definition take_ctxbuf (p : Z) : M world unit := if p =? 0 then mret tt else acquire (RCtxBuf p).

(** [grow] when the buffer is full. *)
Definition make_room (s : https_sc) : M world (Z * https_sc) :=
  if b_len (enc s) >=? b_cap (enc s) then
    '(g, b) ← grow (enc s) (b_cap (enc s) * 2) (b_len (enc s)) SC_ENC_MAX;
    mret (g, set_enc b s)
  else mret (0, s).

(** [sock_recv] into the free end of the buffer, with [enc_len] advanced. *)
Definition recv_enc (s : https_sc) : M world (Z * https_sc) :=
  '(n, bs, s) ← sock_recv s (b_cap (enc s) - b_len (enc s));
  if n <=? 0 then mret (n, s) else
  l ← bytes_of (enc s);
  l ← lift (store l (b_len (enc s)) bs);
  mret (n, set_enc (Buf (b_at (enc s)) (Some l) (b_cap (enc s)) (b_len (enc s) + n) 0) s).

(** Drops the input Schannel consumed, keeping the last [extra] bytes. *)
Definition keep_extra (s : https_sc) (extra : Z) : M world https_sc :=
  if extra >? 0 then
    l ← bytes_of (enc s);
    bs ← lift (load l (b_len (enc s) - extra) extra);
    l ← lift (store l 0 bs);
    mret (set_enc (Buf (b_at (enc s)) (Some l) (b_cap (enc s)) extra 0) s)
  else mret (set_enc (Buf (b_at (enc s)) (b_ptr (enc s)) (b_cap (enc s)) 0 0) s).

(** The code, [*status] and the record. *)
Fixpoint handshake_loop (n : nat) (p : Z) (s : https_sc) (status req : Z)
    (need_read retried_creds : bool) : M world (Z * Z * https_sc) :=
  match n with
  | O => out_of_fuel
  | S n =>
      '(g, s) ← (if need_read then make_room s else mret (0, s));
      if negb (g =? 0) then mret (HTTPS_SC_ERR_ALLOC, status, s) else
      '(k, s) ← (if need_read then recv_enc s else mret (1, s));
      if k <? 0 then mret (sock_class k, status, s) else
      if k =? 0 then mret (HTTPS_SC_ERR_HANDSHAKE, SEC_E_INCOMPLETE_MESSAGE, s) else
      l ← bytes_of (enc s);
      input ← lift (load l 0 (b_len (enc s)));
      r ← ext env (CInitContext p false None req input);
      take_ctxbuf (isc_tok r);;
      take_ctxbuf (isc_alert r);;
      if isc_status r =? SEC_E_INCOMPLETE_MESSAGE then
        '(g, s) ← make_room s;
        if negb (g =? 0) then mret (HTTPS_SC_ERR_ALLOC, status, s)
        else handshake_loop n p s status req true retried_creds
      else
      send_rc ← (if (zlen (isc_bytes r) >? 0) && negb (isc_tok r =? 0)
                 then sock_send_all fuel s (isc_bytes r) 0 else mret 0);
      release_nz RCtxBuf (isc_tok r);;
      release_nz RCtxBuf (isc_alert r);;
      if negb (send_rc =? 0) && ((isc_status r =? SEC_E_OK) || (isc_status r =? SEC_I_CONTINUE_NEEDED))
      then mret (sock_class send_rc, status, s)
      else if (isc_status r =? SEC_I_INCOMPLETE_CREDENTIALS) && negb retried_creds
      then handshake_loop n p s status (Z.lor req ISC_REQ_USE_SUPPLIED_CREDS) false true
      else
      s ← keep_extra s (default 0 (isc_extra r));
      if isc_status r =? SEC_E_OK then mret (HTTPS_SC_OK, status, s)
      else if isc_status r =? SEC_I_CONTINUE_NEEDED
      then handshake_loop n p s status req (b_len (enc s) =? 0) retried_creds
      else mret (HTTPS_SC_ERR_HANDSHAKE, isc_status r, s)
  end.

Definition do_handshake (p : Z) (s : https_sc) (status : Z) : M world (Z * Z * https_sc) :=
  if have_ctx s then handshake_loop fuel p s status isc_flags (b_len (enc s) =? 0) false
  else
    r ← ext env (CInitContext p true (hostw (cfg s)) isc_flags []);
    take_ctxbuf (isc_tok r);;
    if negb (isc_status r =? SEC_I_CONTINUE_NEEDED) then
      release_nz RCtxBuf (isc_tok r);;
      mret (HTTPS_SC_ERR_HANDSHAKE, isc_status r, s)
    else
      acquire (RCtx p);;
      let s := set_have_ctx s in
      if (zlen (isc_bytes r) >? 0) && negb (isc_tok r =? 0) then
        rc ← sock_send_all fuel s (isc_bytes r) 0;
        release (RCtxBuf (isc_tok r));;
        if negb (rc =? 0) then mret (sock_class rc, status, s)
        else handshake_loop fuel p s status isc_flags true false
      else
        release_nz RCtxBuf (isc_tok r);;
        handshake_loop fuel p s status isc_flags true false.

(** ** Teardown and set-up *)

Definition free_state (p : Z) : M world unit :=
  if p =? 0 then mret tt
  else
    s ← load_obj p;
    (if have_ctx s then release (RCtx p) else mret tt);;
    (if have_cred s then release (RCred p) else mret tt);;
    c_free (b_at (enc s)) (b_ptr (enc s));;
    c_free (b_at (dec s)) (b_ptr (dec s));;
    c_free (b_at (out s)) (b_ptr (out s));;
    c_free (hostw_at (cfg s)) (hostw (cfg s));;
    drop_obj p.

Definition deadline_of (timeout_ns : Z) : M world Z :=
  if timeout_ns >? 0 then now ← now_ns; add64 now timeout_ns else mret 0.

(** The code, [*out] and [*status]. *)
Record hs_result : Set := HsResult { hs_code : Z; hs_out : Z; hs_status : Z }.

(** Stores the record as it is, frees it and fails. *)
Definition fail (p : Z) (s : https_sc) (status code : Z) : M world hs_result :=
  store_obj p (fun _ => s);; free_state p;; mret (HsResult code 0 status).

(** Lines 848 to 881: credential, handshake, verification, sizes. *)
Definition handshake_connect (p : Z) (s : https_sc) (min_version : Z) : M world hs_result :=
  '(ss, s) ← acquire_cred p s min_version;
  if negb (ss =? SEC_E_OK) then fail p s ss HTTPS_SC_ERR_SETUP else
  '(rc, status, s) ← do_handshake p s 0;
  if negb (rc =? HTTPS_SC_OK) then fail p s status rc else
  '(v, status) ← verify_chain p s status;
  if negb (v =? 0) then fail p s status HTTPS_SC_ERR_HANDSHAKE else
  '(ss, z) ← ext env (CQuerySizes p);
  let s := set_sizes z s in
  if negb (ss =? SEC_E_OK) then fail p s ss HTTPS_SC_ERR_SETUP else
  let outcap := to_int (cbHeader z + cbMaximumMessage z + cbTrailer z) in
  '(g, b) ← grow (out s) outcap 0 SC_ENC_MAX;
  let s := set_out b s in
  if negb (g =? 0) then fail p s status HTTPS_SC_ERR_ALLOC else
  store_obj p (fun _ => set_deadline 0 s);;
  mret (HsResult HTTPS_SC_OK p status).

Definition https_sc_handshake (sock : Z) (host : list Z) (skip_verify : bool) (calist : Z)
    (ca_only : bool) (min_version : Z) (clientcert : option sc_clientcert) (timeout_ns : Z)
    : M world hs_result :=
  p ← ext env CCalloc;
  if p =? 0 then mret (HsResult HTTPS_SC_ERR_ALLOC 0 0) else
  d ← deadline_of timeout_ns;
  let s := {| cfg := {| Schannel.sock := sock; castore := calist; Schannel.ca_only := ca_only;
                        Schannel.skip_verify := skip_verify;
                        hostw_at := 0; hostw := None;
                        Schannel.clientcert := match clientcert with
                                               | Some cc => cc_cert cc
                                               | None => 0
                                               end |};
              have_cred := false; have_ctx := false;
              sizes := {| cbHeader := 0; cbMaximumMessage := 0; cbTrailer := 0 |};
              enc := no_buf; dec := no_buf; out := no_buf; deadline_ns := d; eof := false |} in
  new_obj p s;;
  match host with
  | [] => fail p s 0 HTTPS_SC_ERR_SETUP
  | _ =>
      wlen ← ext env (CWideLen host);
      if wlen <=? 0 then fail p s 0 HTTPS_SC_ERR_SETUP else
      r ← ext env (CMalloc (wlen * 2));
      match r with
      | None => fail p s 0 HTTPS_SC_ERR_ALLOC
      | Some (at_, _) =>
          acquire (RBlock at_);;
          '(k, wide) ← ext env (CWiden host wlen);
          let s := set_hostw at_ (Some wide) s in
          if k <=? 0 then fail p s 0 HTTPS_SC_ERR_SETUP else
          '(g, b) ← grow (enc s) SC_ENC_INITIAL 0 SC_ENC_MAX;
          let s := set_enc b s in
          if negb (g =? 0) then fail p s 0 HTTPS_SC_ERR_ALLOC
          else handshake_connect p s min_version
      end
  end.

(** ** Records *)

(** The result and the record. *)
Definition stash_plaintext (s : https_sc) (data : list Z) : M world (Z * https_sc) :=
  if zlen data <=? 0 then mret (0, s) else
  s ← (if b_off (dec s) >? 0 then
         l ← bytes_of (dec s);
         bs ← lift (load l (b_off (dec s)) (b_len (dec s) - b_off (dec s)));
         l ← lift (store l 0 bs);
         mret (set_dec (Buf (b_at (dec s)) (Some l) (b_cap (dec s)) (b_len (dec s) - b_off (dec s)) 0) s)
       else mret s);
  '(g, b) ← grow (dec s) (b_len (dec s) + zlen data) (b_len (dec s)) SC_ENC_MAX;
  let s := set_dec b s in
  if negb (g =? 0) then mret (-1, s) else
  l ← bytes_of (dec s);
  l ← lift (store l (b_len (dec s)) data);
  mret (0, set_dec (Buf (b_at (dec s)) (Some l) (b_cap (dec s)) (b_len (dec s) + zlen data) (b_off (dec s))) s).

(** The bytes taken, at most [len], and the record. *)
Definition take_plaintext (s : https_sc) (len : Z) : M world (list Z * https_sc) :=
  let avail := b_len (dec s) - b_off (dec s) in
  if avail <=? 0 then mret ([], s) else
  let n := if avail <? len then avail else len in
  l ← bytes_of (dec s);
  bs ← lift (load l (b_off (dec s)) n);
  let off := b_off (dec s) + n in
  mret (bs, set_dec (if off =? b_len (dec s) then Buf (b_at (dec s)) (b_ptr (dec s)) (b_cap (dec s)) 0 0
                     else Buf (b_at (dec s)) (b_ptr (dec s)) (b_cap (dec s)) (b_len (dec s)) off) s).

Definition pending (s : https_sc) : bool := b_len (dec s) >? b_off (dec s).

(** The first buffer of a type among the three. *)
Fixpoint find_buf (t : buftype) (bufs : list (buftype * Z * Z)) : option (Z * Z) :=
  match bufs with
  | [] => None
  | (t', off, len) :: bufs =>
      match t, t' with
      | BData, BData | BExtra, BExtra => Some (off, len)
      | _, _ => find_buf t bufs
      end
  end.

(** Lines 969 to 985: the plaintext to the caller while the stash is empty, what
    does not fit to the stash.  The result of the stash comes first. *)
Definition deliver (s : https_sc) (renegotiate : bool) (plain buf : list Z) (len direct : Z)
    : M world (Z * list Z * Z * https_sc) :=
  '(buf, direct, plain) ←
    (if negb renegotiate && (b_len (dec s) =? b_off (dec s)) && (direct <? len) then
       let take := if len - direct <? zlen plain then len - direct else zlen plain in
       buf ← lift (store buf direct (ztake take plain));
       mret (buf, direct + take, zdrop take plain)
     else mret (buf, direct, plain));
  if zlen plain >? 0 then
    '(rc, s) ← stash_plaintext s plain;
    mret (rc, buf, direct, s)
  else mret (0, buf, direct, s).

(** Lines 986 to 992: the input after the record to the front. *)
Definition keep_record_extra (s : https_sc) (l : list Z) (extra : option (Z * Z))
    : M world https_sc :=
  match extra with
  | Some (off, k) =>
      if k >? 0 then
        bs ← lift (load l off k);
        l ← lift (store l 0 bs);
        mret (set_enc (Buf (b_at (enc s)) (Some l) (b_cap (enc s)) k 0) s)
      else mret (set_enc (Buf (b_at (enc s)) (Some l) (b_cap (enc s)) 0 0) s)
  | None => mret (set_enc (Buf (b_at (enc s)) (Some l) (b_cap (enc s)) 0 0) s)
  end.

(** The code, the caller's buffer, [*n], [*status] and the record. *)
Definition read_result : Type := Z * list Z * Z * Z * https_sc.

(** [*n = direct + take_plaintext(...)] *)
Definition read_done (s : https_sc) (buf : list Z) (len direct status : Z) : M world read_result :=
  '(bs, s) ← take_plaintext s (len - direct);
  buf ← lift (store buf direct bs);
  mret (HTTPS_SC_OK, buf, direct + zlen bs, status, s).

Fixpoint read_loop (n : nat) (p : Z) (s : https_sc) (buf : list Z) (len direct status : Z)
    : M world read_result :=
  match n with
  | O => out_of_fuel
  | S n =>
      let recv s :=
        if eof s then read_done s buf len direct status else
        '(rn, s) ← recv_enc s;
        if rn <? 0 then mret (sock_class rn, buf, 0, status, s)
        else if rn =? 0 then read_done s buf len direct status
        else read_loop n p s buf len direct status in
      if b_len (enc s) >? 0 then
        l ← bytes_of (enc s);
        data ← lift (load l 0 (b_len (enc s)));
        r ← ext env (CDecrypt p data);
        l ← lift (store l 0 (dec_enc r));
        let s := set_enc (Buf (b_at (enc s)) (Some l) (b_cap (enc s)) (b_len (enc s)) 0) s in
        let ss := dec_status r in
        if (ss =? SEC_E_OK) || (ss =? SEC_I_RENEGOTIATE) || (ss =? SEC_I_CONTEXT_EXPIRED) then
          plain ← (match find_buf BData (dec_bufs r) with
                   | Some (off, k) => lift (load l off k)
                   | None => mret []
                   end);
          '(rc, buf, direct, s) ← deliver s (ss =? SEC_I_RENEGOTIATE) plain buf len direct;
          if negb (rc =? 0) then mret (HTTPS_SC_ERR_ALLOC, buf, 0, status, s) else
          s ← keep_record_extra s l (find_buf BExtra (dec_bufs r));
          let s := if ss =? SEC_I_CONTEXT_EXPIRED then set_eof s else s in
          '(rc, status, s) ← (if ss =? SEC_I_RENEGOTIATE then do_handshake p s status
                              else mret (HTTPS_SC_OK, status, s));
          if negb (rc =? HTTPS_SC_OK) then mret (rc, buf, 0, status, s)
          else if (direct >? 0) || pending s then read_done s buf len direct status
          else if eof s then read_done s buf len direct status
          else read_loop n p s buf len direct status
        else if negb (ss =? SEC_E_INCOMPLETE_MESSAGE) then mret (HTTPS_SC_ERR_IO, buf, 0, ss, s)
        else
          '(g, s) ← make_room s;
          if negb (g =? 0) then mret (HTTPS_SC_ERR_ALLOC, buf, 0, status, s) else recv s
      else recv s
  end.

(** The code, the buffer, [*n] and [*status]. *)
Definition https_sc_read (handle : Z) (buf : list Z) (len timeout_ns : Z)
    : M world (Z * list Z * Z * Z) :=
  if handle =? 0 then mret (HTTPS_SC_ERR_CLOSED, buf, 0, 0) else
  s ← load_obj handle;
  if negb (have_ctx s) then mret (HTTPS_SC_ERR_CLOSED, buf, 0, 0)
  else if len <=? 0 then mret (HTTPS_SC_OK, buf, 0, 0)
  else if pending s then
    '(bs, s) ← take_plaintext s len;
    buf ← lift (store buf 0 bs);
    store_obj handle (fun _ => s);;
    mret (HTTPS_SC_OK, buf, zlen bs, 0)
  else
    d ← deadline_of timeout_ns;
    '(code, buf, n, status, s) ← read_loop fuel handle (set_deadline d s) buf len 0 0;
    store_obj handle (fun _ => s);;
    mret (code, buf, n, status).

(** The code, [*n], [*status] and the record. *)
Fixpoint write_loop (n : nat) (p : Z) (s : https_sc) (buf : list Z) (len sent : Z)
    : M world (Z * Z * Z * https_sc) :=
  match n with
  | O => out_of_fuel
  | S n =>
      if sent <? len then
        let hdr := cbHeader (sizes s) in
        let chunk := if len - sent >? to_int (cbMaximumMessage (sizes s))
                     then to_int (cbMaximumMessage (sizes s)) else len - sent in
        data ← lift (load buf sent chunk);
        l ← bytes_of (out s);
        l ← lift (store l hdr data);
        r ← ext env (CEncrypt p hdr data (cbTrailer (sizes s)));
        l ← lift (store l 0 (enc_out r));
        let s := set_out (Buf (b_at (out s)) (Some l) (b_cap (out s)) 0 0) s in
        if negb (enc_status r =? SEC_E_OK) then mret (HTTPS_SC_ERR_IO, sent, enc_status r, s) else
        let '(c0, c1, c2) := enc_cb r in
        record ← lift (load l 0 (to_int (c0 + c1 + c2)));
        rc ← sock_send_all fuel s record 0;
        if negb (rc =? 0) then mret (sock_class rc, sent, 0, s)
        else write_loop n p s buf len (sent + chunk)
      else mret (HTTPS_SC_OK, sent, 0, s)
  end.

Definition https_sc_write (handle : Z) (buf : list Z) (len timeout_ns : Z) : M world (Z * Z * Z) :=
  if handle =? 0 then mret (HTTPS_SC_ERR_CLOSED, 0, 0) else
  s ← load_obj handle;
  if negb (have_ctx s) then mret (HTTPS_SC_ERR_CLOSED, 0, 0)
  else if len <=? 0 then mret (HTTPS_SC_OK, 0, 0)
  else
    d ← deadline_of timeout_ns;
    '(code, n, status, s) ← write_loop fuel handle (set_deadline d s) buf len 0;
    store_obj handle (fun _ => s);;
    mret (code, n, status).

Definition https_sc_close (handle : Z) : M world unit :=
  if handle =? 0 then mret tt else
  s ← load_obj handle;
  (if have_ctx s && have_cred s then
     now ← now_ns;
     d ← add64 now SC_SHUTDOWN_NS;
     let s := set_deadline d s in
     a ← ext env (CApplyToken handle);
     if a =? SEC_E_OK then
       r ← ext env (CInitContext handle false None isc_flags []);
       take_ctxbuf (isc_tok r);;
       (if ((isc_status r =? SEC_E_OK) || (isc_status r =? SEC_I_CONTEXT_EXPIRED)) &&
           (zlen (isc_bytes r) >? 0) && negb (isc_tok r =? 0)
        then sock_send_all fuel s (isc_bytes r) 0;; mret tt else mret tt);;
       release_nz RCtxBuf (isc_tok r)
     else mret tt
   else mret tt);;
  release_nz RStore (castore (cfg s));;
  free_state handle.
End bridge.
