(* ===== verification/SchannelBuffers.v ===== *)
(** * The Schannel bridge: buffers and socket I/O

    The growing buffers and their invariant, the socket helpers, and the stash of
    plaintext as a queue. *)

From stdpp Require Import gmap gmultiset.
From S2P Require Import Prelude Eff Host Schannel.

(** ** What the outside is relied on for

    Documented behaviour of Winsock, the allocator and SSPI: a tick count that does not
    run over, counts within what was asked for, allocations of the size asked for, and
    buffer descriptions that stay inside the buffer they describe. *)
Record sane (env : environment call resp) : Prop := {
  tick_range h : 0 <= env h CTick * 1000000 < 2 ^ 62;
  recv_fills h s len : 0 <= len ->
    let r := env h (CRecv s len) in r.1 = -1 \/ (0 <= r.1 <= len /\ zlen r.2 = r.1);
  send_takes h s data : env h (CSend s data) = -1 \/ 0 <= env h (CSend s data) <= zlen data;
  malloc_size h n : 0 <= n -> match env h (CMalloc n) with Some (_, nb) => zlen nb = n | None => True end;
  isc_leftover h p f host req input :
    0 <= default 0 (isc_extra (env h (CInitContext p f host req input))) <= zlen input;
  isc_incomplete h p f host req input :
    let r := env h (CInitContext p f host req input) in
    isc_status r = SEC_E_INCOMPLETE_MESSAGE -> isc_tok r = 0 /\ isc_alert r = 0;
  decrypt_in_place h p data :
    let r := env h (CDecrypt p data) in
    zlen (dec_enc r) = zlen data /\
    Forall (fun b => 0 <= b.1.2 /\ 0 <= b.2 /\ b.1.2 + b.2 <= zlen data) (dec_bufs r);
  encrypt_in_place h p hdr data trl : 0 <= hdr -> 0 <= trl ->
    let r := env h (CEncrypt p hdr data trl) in
    zlen (enc_out r) <= hdr + zlen data + trl /\
    0 <= (enc_cb r).1.1 + (enc_cb r).1.2 + (enc_cb r).2 <= hdr + zlen data + trl /\
    (enc_status r = SEC_E_OK -> zlen (enc_out r) = (enc_cb r).1.1 + (enc_cb r).1.2 + (enc_cb r).2);
  stream_sizes_ok h p :
    let z := (env h (CQuerySizes p)).2 in
    0 <= cbHeader z /\ 0 < cbMaximumMessage z /\ 0 <= cbTrailer z /\
    cbHeader z + cbMaximumMessage z + cbTrailer z < 2 ^ 31
}.

(** ** Steps that only add calls to the history *)

Definition no_decrypt (c : call) : Prop := match c with CDecrypt _ _ => False | _ => True end.

Definition calm (w w' : world) : Prop :=
  h_refs w' = h_refs w /\ h_st w' = h_st w /\
  exists new, h_hist w' = new ++ h_hist w /\ Forall no_decrypt new.

Lemma calm_refl w : calm w w.
Proof. split; [done|]. split; [done|]. by exists []. Qed.

Lemma calm_trans w1 w2 w3 : calm w1 w2 -> calm w2 w3 -> calm w1 w3.
Proof.
  intros (R1 & S1 & n1 & H1 & F1) (R2 & S2' & n2 & H2 & F2). split_and!; [congruence..|].
  exists (n2 ++ n1). rewrite H2, H1, app_assoc. split; [done|by apply Forall_app].
Qed.

Lemma calm_push w w' c : no_decrypt c -> calm w w' -> calm w (push c w').
Proof.
  intros Hc (R & S & n & H & F). split_and!; [done..|]. exists (c :: n). cbn. rewrite H.
  split; [done|by constructor].
Qed.

Create HintDb calm discriminated.
#[export] Hint Resolve calm_refl calm_push calm_trans : calm.
#[export] Hint Extern 1 (no_decrypt _) => exact I : calm.

(** ** Ownership of the blocks of a record *)

(** The block behind a pointer, if it is not null. *)
Definition blk (at_ : Z) (ptr : option (list Z)) : gmultiset res :=
  match ptr with Some _ => {[+ RBlock at_ +]} | None => ∅ end.
Definition buf_refs (b : cbuf) : gmultiset res := blk (b_at b) (b_ptr b).

(** The four blocks of a record: its buffers and its wide host name. *)
Definition bufs (s : https_sc) : gmultiset res :=
  buf_refs (enc s) ⊎ buf_refs (dec s) ⊎ buf_refs (out s) ⊎ blk (hostw_at (cfg s)) (hostw (cfg s)).

(** The world holds the blocks of [s] and, apart from them, [R]. *)
Definition owns (R : gmultiset res) (s : https_sc) (w : world) : Prop := h_refs w = R ⊎ bufs s.

(** From [w] calls were made, none of them a decryption, and the record is now [s'],
    with its blocks held and the rest of the bag as before. *)
Definition moved (R : gmultiset res) (w : world) (s' : https_sc) (w' : world) : Prop :=
  owns R s' w' /\ h_st w' = h_st w /\
  exists new, h_hist w' = new ++ h_hist w /\ Forall no_decrypt new.

Lemma moved_refl R s w : owns R s w -> moved R w s w.
Proof. intros H. split_and!; [done..|]. by exists []. Qed.
Lemma moved_trans R w1 s2 w2 s3 w3 : moved R w1 s2 w2 -> moved R w2 s3 w3 -> moved R w1 s3 w3.
Proof.
  intros (R1 & S1 & n1 & H1 & F1) (R2 & S2' & n2 & H2 & F2). split_and!; [done|congruence|].
  exists (n2 ++ n1). rewrite H2, H1, app_assoc. split; [done|by apply Forall_app].
Qed.
(** Input and output in between leave the blocks alone. *)
Lemma moved_calm R w1 s2 w2 s3 w3 :
  moved R w1 s2 w2 -> calm w2 w3 -> bufs s3 = bufs s2 -> moved R w1 s3 w3.
Proof.
  intros M (R2 & S2' & N) E. eapply moved_trans; [exact M|]. split_and!; [|done..].
  unfold owns. rewrite R2, E. apply M.
Qed.
Lemma owns_calm R s w s' w' : owns R s w -> calm w w' -> bufs s' = bufs s -> moved R w s' w'.
Proof. intros H. apply (moved_calm _ _ s), moved_refl, H. Qed.
Lemma moved_owns R w s' w' : moved R w s' w' -> owns R s' w'.
Proof. by intros []. Qed.
#[export] Hint Resolve moved_refl moved_owns : calm.

Lemma wp_c_free a ptr rest (Q : unit -> world -> Prop) w :
  h_refs w = rest ⊎ blk a ptr -> Q tt (Host (h_hist w) rest (h_st w)) -> wp (c_free a ptr) Q w.
Proof.
  unfold c_free, blk. destruct ptr; intros E HQ; [by eapply wp_give|].
  apply wp_ret. rewrite right_id_L in E by apply _. destruct w. cbn in *. by subst.
Qed.

(** ** Buffers *)

(** A buffer of at most [limit] bytes with its length and offset inside it. *)
Record buf_ok (limit : Z) (b : cbuf) : Prop := {
  bo_ptr : match b_ptr b with Some l => zlen l = b_cap b | None => b_cap b = 0 end;
  bo_range : 0 <= b_off b <= b_len b /\ b_len b <= b_cap b <= limit
}.

(** The first [n] bytes of a buffer. *)
Definition front (n : Z) (b : cbuf) : list Z := ztake n (default [] (b_ptr b)).

Section buffers.
Context (env : environment call resp) (fuel : nat) (Hsane : sane env).

Lemma wp_double_until want n : forall ncap w,
  0 < ncap -> want <= 2 ^ 20 -> want <= ncap * 2 ^ (Z.of_nat n - 1) -> (0 < n)%nat ->
  ncap < 2 ^ 30 \/ want <= ncap ->
  wp (double_until n ncap want)
    (fun r w' => w' = w /\ want <= r /\ ncap <= r /\ (r = ncap \/ r < 2 * want)) w.
Proof.
  induction n as [|n IH]; intros ncap w Hc Hw Hn Hp Hb; [lia|]. cbn [double_until].
  destruct (Z.ltb_spec ncap want); [|wp_step; split_and!; try done; auto; lia].
  destruct (Z.ltb_spec (ncap * 2) (2 ^ 31)); [|lia].
  destruct n as [|n].
  { change (Z.of_nat 1 - 1) with 0 in Hn. lia. }
  eapply wp_mono; [|apply IH; try lia].
  - cbv beta. intros r w' (-> & ? & ? & ?). split_and!; try done; lia.
  - replace (Z.of_nat (S (S n)) - 1) with (Z.succ (Z.of_nat (S n) - 1)) in Hn by lia.
    rewrite Z.pow_succ_r in Hn by lia. lia.
Qed.

(** [grow] gives room for [want] bytes without losing the first [used], never more
    than [limit], and the block it holds is the buffer's; or it fails and changes
    nothing. *)
Definition grown (b : cbuf) (want used limit : Z) (R : gmultiset res) (w : world)
    (r : Z * cbuf) (w' : world) : Prop :=
  let '(g, b') := r in
  h_refs w' = R ⊎ buf_refs b' /\ h_st w' = h_st w /\
  (exists new, h_hist w' = new ++ h_hist w /\ Forall no_decrypt new) /\
  buf_ok limit b' /\ b_len b' = b_len b /\ b_off b' = b_off b /\ b_cap b <= b_cap b' /\
  (g = 0 -> want <= b_cap b' /\ front used b' = front used b /\
     (b_cap b < want -> is_Some (b_ptr b'))) /\
  (g <> 0 -> b' = b).

(** The bytes copied to the new block. *)
Lemma wp_copy_front b used nb w :
  buf_ok (b_cap b) b -> 0 <= used <= b_cap b -> used <= zlen nb ->
  wp (match b_ptr b return M world (list Z) with
      | Some old => if used >? 0 then bs ← lift (load old 0 used); lift (store nb 0 bs)
                    else mret nb
      | None => mret nb
      end)
    (fun nb' w' => w' = w /\ zlen nb' = zlen nb /\ ztake used nb' = front used b) w.
Proof.
  intros [Hp Hr] Hu Hn. unfold front. destruct (b_ptr b) as [old|]; cbn [default id from_option].
  - destruct (Z.gtb_spec used 0).
    + wp_step. rewrite load_Done by lia. apply wp_lift_Done. rewrite zdrop_0.
      assert (zlen (ztake used old) = used) as Lu by (apply zlen_ztake; lia).
      rewrite store_splice by lia. apply wp_lift_Done. split_and!; [done|rewrite zlen_splice; lia|].
      rewrite <- Lu at 1. apply splice_0_prefix. lia.
    + wp_step. split_and!; [done..|]. by replace used with 0 by lia.
  - wp_step. split_and!; [done..|]. rewrite Hp in Hu. by replace used with 0 by lia.
Qed.

Lemma wp_grow b want used limit R w :
  buf_ok limit b -> 0 <= used <= b_cap b -> 0 < limit <= 2 ^ 20 -> h_refs w = R ⊎ buf_refs b ->
  wp (grow env b want used limit) (grown b want used limit R w) w.
Proof.
  intros Hb Hu Hl HR. pose proof Hb as [Hp Hr]. unfold grow, grown.
  assert (exists new, h_hist w = new ++ h_hist w /\ Forall no_decrypt new) as N0 by (by exists []).
  destruct (b_cap b >=? want) eqn:E1; bool_to_prop.
  { wp_step. split_and!; try done. intros _. split_and!; [done..|lia]. }
  destruct (want >? limit) eqn:E2; bool_to_prop; [wp_step; split_and!; done|].
  wp_step. set (c0 := if b_cap b >? 0 then b_cap b else 1024).
  assert (0 < c0 <= 2 ^ 20 /\ b_cap b <= c0) as [Hc0 Hc1].
  { change (2 ^ 20) with 1048576 in *. unfold c0. destruct (Z.gtb_spec (b_cap b) 0); lia. }
  eapply wp_mono; [|apply (wp_double_until want 32 c0 w); [lia|lia| |lia|lia]].
  2:{ change (Z.of_nat 32 - 1) with 31. lia. }
  cbv beta. intros ncap w1 (-> & Hn1 & Hn2 & _). cbv zeta. wp_step.
  set (nc := if ncap >? limit then limit else ncap).
  assert (want <= nc <= limit /\ b_cap b <= nc) as [Hn3 Hn4]
    by (unfold nc; destruct (Z.gtb_spec ncap limit); lia).
  apply (wp_ext env (CMalloc nc)). pose proof (malloc_size env Hsane (hist w) nc ltac:(lia)) as Hm.
  assert (forall R' S', exists new, h_hist (Host (St := gmap Z https_sc) (res := res) (h_hist (push (CMalloc nc) w)) R' S') =
    new ++ h_hist w /\ Forall no_decrypt new) as N1.
  { intros R' S'. exists [CMalloc nc]. split; [done|by repeat constructor]. }
  match goal with |- wp (match ?e with _ => _ end) _ _ => change e with (env (hist w) (CMalloc nc)) end.
  destruct (env (hist w) (CMalloc nc)) as [[a nb]|].
  2:{ wp_step. split_and!; try done. apply (N1 (h_refs w) (h_st w)). }
  wp_step. apply wp_acquire. wp_step.
  eapply wp_mono; [|apply wp_copy_front; [split; [done|lia]|lia|lia]].
  cbv beta. intros nb' w2 (-> & Ln & Hf). wp_step.
  eapply (wp_c_free _ _ (R ⊎ {[+ RBlock a +]})).
  { cbn. rewrite HR. unfold buf_refs. clear. multiset_solver. }
  wp_step. cbn [h_refs h_st buf_refs blk b_at b_ptr b_len b_off b_cap]. split_and!; try done.
  - split; cbn; [lia|lia].
  - intros _. split_and!; [lia|exact Hf|by eexists].
Qed.

(** ** Socket I/O *)

Lemma wp_now w w0 : calm w0 w -> wp (now_ns env) (fun _ => calm w0) w.
Proof. intros H. unfold now_ns. repeat wp_step. auto with calm. Qed.

Lemma wp_wait_ready s fw n : forall w w0,
  calm w0 w -> wp (wait_ready env n s fw) (fun r w' => calm w0 w' /\ (r = 0 \/ r = -1 \/ r = -2)) w.
Proof.
  induction n as [|n IH]; intros w w0 H; cbn [wait_ready]; [by wp_step|]. wp_step. wp_step.
  - repeat wp_step; try (split; [auto with calm|auto]). apply IH. auto with calm.
  - wp_step. wp_use wp_now as now w1 H1. cbv zeta. destruct (_ <=? 0);
      repeat wp_step; try (split; [auto with calm|auto]). apply IH. auto with calm.
Qed.

Lemma wp_maybe_wait s fw w :
  wp (if deadline_ns s =? 0 then mret 0 else wait_ready env fuel s fw)
    (fun r w' => calm w w' /\ (r = 0 \/ r = -1 \/ r = -2)) w.
Proof. wp_step; [wp_step; auto with calm|]. apply wp_wait_ready. auto with calm. Qed.

(** The same record but for the end-of-stream mark. *)
Definition same_but_eof (s s' : https_sc) : Prop := s' = s \/ s' = set_eof s.

Lemma wp_sock_recv s len w :
  0 <= len ->
  wp (sock_recv env fuel s len)
    (fun '(n, bs, s') w' => calm w w' /\ same_but_eof s s' /\
       (n < 0 \/ (n = 0 /\ s' = set_eof s) \/ (0 < n <= len /\ zlen bs = n /\ s' = s))) w.
Proof.
  intros Hl. unfold sock_recv. wp_step. eapply wp_mono; [|apply wp_maybe_wait]. cbv beta.
  intros r w1 [H1 Hr]. wp_step.
  - wp_step. bool_to_prop. unfold same_but_eof. split_and!; auto. lia.
  - wp_step. match goal with |- wp (ext _ ?c) _ _ => apply (wp_ext env c) end.
    pose proof (recv_fills env Hsane (hist w1) (sock (cfg s)) len Hl) as Hf. cbv zeta in Hf.
    match goal with |- wp (let '(_, _) := ?e in _) _ _ => change e with (env (hist w1) (CRecv (sock (cfg s)) len));
      destruct (env (hist w1) (CRecv (sock (cfg s)) len)) as [n bs] end. cbn [fst snd] in Hf.
    unfold same_but_eof. wp_step; [|wp_step]; bool_to_prop; wp_step;
      (split; [eauto with calm|]); (split; [auto|]).
    + by right; left.
    + left. lia.
    + right. right. split_and!; [lia..|done].
Qed.

Lemma wp_send_all s buf n : forall sent w w0,
  calm w0 w -> wp (sock_send_all env fuel n s buf sent) (fun _ w' => calm w0 w') w.
Proof.
  induction n as [|n IH]; intros sent w w0 H; cbn [sock_send_all]; [by wp_step|].
  wp_step; [|by wp_step]. wp_step. eapply wp_mono; [|apply wp_maybe_wait]. cbv beta.
  intros r w1 [H1 _]. wp_step; [wp_step; eauto with calm|]. do 2 wp_step.
  wp_step; [wp_step; eauto with calm|]. apply IH. eauto with calm.
Qed.
End buffers.

(** ** The stash as a queue *)

(** The plaintext decrypted but not handed over. *)
Definition queue (b : cbuf) : list Z := ztake (b_len b - b_off b) (zdrop (b_off b) (default [] (b_ptr b))).

Lemma zlen_queue limit b : buf_ok limit b -> zlen (queue b) = b_len b - b_off b.
Proof.
  intros [Hp Hr]. unfold queue. destruct (b_ptr b) as [l|]; cbn; [zlens|].
  rewrite Hp in Hr. assert (b_len b = 0 /\ b_off b = 0) as [-> ->] by lia. done.
Qed.

Lemma SC_ENC_MAX_bound : 0 < SC_ENC_MAX <= 2 ^ 20.
Proof. unfold SC_ENC_MAX. lia. Qed.

Lemma ztake_eq_prefix {A} (n m : Z) (l k : list A) :
  0 <= m <= n -> ztake n l = ztake n k -> ztake m l = ztake m k.
Proof. intros H E. rewrite <- (ztake_ztake m n l), <- (ztake_ztake m n k) by lia. by rewrite E. Qed.

Section stash.
Context (env : environment call resp) (Hsane : sane env).

(** Compaction moves the queue to the front and keeps it. *)
Lemma wp_compact s w :
  buf_ok SC_ENC_MAX (dec s) ->
  wp (if b_off (dec s) >? 0 then
        l ← bytes_of (dec s);
        bs ← lift (load l (b_off (dec s)) (b_len (dec s) - b_off (dec s)));
        l ← lift (store l 0 bs);
        mret (set_dec (Buf (b_at (dec s)) (Some l) (b_cap (dec s)) (b_len (dec s) - b_off (dec s)) 0) s)
      else mret s)
    (fun s' w' => w' = w /\ exists b, s' = set_dec b s /\ buf_ok SC_ENC_MAX b /\ b_off b = 0 /\
       buf_refs b = buf_refs (dec s) /\ queue b = queue (dec s)) w.
Proof.
  intros [Hp Hr]. destruct (Z.gtb_spec (b_off (dec s)) 0) as [Ho|Ho].
  - wp_step. unfold bytes_of. destruct (b_ptr (dec s)) as [l|] eqn:El; [|lia].
    set (k := b_len (dec s) - b_off (dec s)) in *. set (q := ztake k (zdrop (b_off (dec s)) l)).
    assert (zlen q = k) as Lq by (unfold q; zlens).
    do 2 wp_step. rewrite load_Done by lia. apply wp_lift_Done. fold q. wp_step.
    rewrite store_splice by lia. apply wp_lift_Done. wp_step. split; [done|].
    eexists. split; [reflexivity|]. cbn. split; [|split; [done|split]].
    + split; cbn; [rewrite zlen_splice; lia|lia].
    + unfold buf_refs. by rewrite El.
    + unfold queue. cbn. rewrite El. cbn. rewrite Z.sub_0_r, zdrop_0. fold k. fold q.
      rewrite <- Lq at 1. apply splice_0_prefix. lia.
  - wp_step. split; [done|]. exists (dec s). split; [by destruct s|]. split; [by split|].
    split; [lia|done].
Qed.

Lemma wp_stash s data R w :
  buf_ok SC_ENC_MAX (dec s) -> owns R s w ->
  wp (stash_plaintext env s data)
    (fun '(rc, s') w' => moved R w s' w' /\ (exists b, s' = set_dec b s /\ buf_ok SC_ENC_MAX b /\
       queue b = (if rc =? 0 then queue (dec s) ++ data else queue (dec s)))) w.
Proof.
  intros Hd Hown. unfold stash_plaintext. pose proof SC_ENC_MAX_bound as HM.
  destruct (Z.leb_spec (zlen data) 0) as [E|E].
  { wp_step. split; [auto with calm|]. exists (dec s). split; [by destruct s|]. split; [done|].
    destruct data; [by rewrite app_nil_r|]. rewrite zlen_cons in E. pose proof (zlen_nonneg data). lia. }
  wp_step. eapply wp_mono; [|by apply wp_compact]. cbv beta. intros s1 w1 (-> & b & -> & Hb & Ho & Hrf & Hq).
  cbn [dec set_dec]. wp_step. pose proof Hb as [Hp Hr].
  set (R' := R ⊎ buf_refs (enc s) ⊎ buf_refs (out s) ⊎ blk (hostw_at (cfg s)) (hostw (cfg s))).
  assert (forall b' w', h_refs w' = R' ⊎ buf_refs b' -> owns R (set_dec b' s) w') as Hset.
  { intros b' w' E'. unfold owns, bufs. cbn. rewrite E'. unfold R'. clear. multiset_solver. }
  eapply wp_mono; [|apply (wp_grow env Hsane b (b_len b + zlen data) (b_len b) SC_ENC_MAX R' w Hb); [lia..|]].
  2:{ rewrite Hrf, Hown. unfold bufs, R'. clear. multiset_solver. }
  intros [g b2] w2 (R2 & S2' & N2 & Hb2 & Hl2 & Ho2 & Hcap & H0 & Hn). cbv zeta.
  destruct (Z.eqb_spec g 0) as [->|Hg]; cbn [negb].
  2:{ wp_step. split; [by split_and!; [apply Hset|..]|]. rewrite Hn in * by done. exists b. split; [by destruct s|]. done. }
  destruct (H0 eq_refl) as (Hroom & Hfront & Hsome). unfold bytes_of. cbn [dec set_dec].
  pose proof Hb2 as [Hp2 Hr2]. wp_step.
  destruct (b_ptr b2) as [l|] eqn:El; [|lia]. do 2 wp_step. rewrite Hl2.
  rewrite store_splice by lia. apply wp_lift_Done. wp_step.
  split. { split_and!; [|done..]. apply Hset. rewrite R2. unfold buf_refs. by rewrite El. }
  eexists. split; [by destruct s|]. cbn [Z.eqb].
  split; [split; cbn; [rewrite zlen_splice; lia|lia]|].
  rewrite <- Hq. unfold queue in *. cbn. rewrite Ho2, Ho, !Z.sub_0_r, !zdrop_0.
  unfold front in Hfront. rewrite El in Hfront. cbn in Hfront. rewrite <- Hfront.
  unfold splice. rewrite app_assoc. rewrite ztake_app_l by zlens. apply ztake_all. zlens.
Qed.

Lemma wp_take s len w :
  buf_ok SC_ENC_MAX (dec s) -> 0 <= len ->
  wp (take_plaintext s len)
    (fun '(bs, s') w' => w' = w /\ zlen bs = Z.min len (zlen (queue (dec s))) /\
       exists b, s' = set_dec b s /\ buf_ok SC_ENC_MAX b /\ buf_refs b = buf_refs (dec s) /\
         queue (dec s) = bs ++ queue b) w.
Proof.
  intros Hd Hlen. pose proof (zlen_queue _ _ Hd) as Lq. pose proof Hd as [Hp Hr].
  unfold take_plaintext. cbv zeta.
  destruct (Z.leb_spec (b_len (dec s) - b_off (dec s)) 0) as [E|E].
  { wp_step. split; [done|]. rewrite Lq. split; [change (zlen []) with 0; lia|].
    exists (dec s). split; [by destruct s|done]. }
  unfold bytes_of. destruct (b_ptr (dec s)) as [l|] eqn:El; [|lia].
  set (n := if b_len (dec s) - b_off (dec s) <? len then b_len (dec s) - b_off (dec s) else len).
  assert (n = Z.min len (b_len (dec s) - b_off (dec s))) as En
    by (unfold n; destruct (Z.ltb_spec (b_len (dec s) - b_off (dec s)) len); lia).
  clearbody n. do 2 wp_step. wp_step. rewrite load_Done by lia. apply wp_lift_Done. wp_step.
  split; [done|]. split; [rewrite Lq; zlens|].
  assert (queue (dec s) = ztake n (zdrop (b_off (dec s)) l) ++
    ztake (b_len (dec s) - (b_off (dec s) + n)) (zdrop (b_off (dec s) + n) l)) as Hq.
  { unfold queue. rewrite El. cbn [default id from_option].
    replace (b_len (dec s) - b_off (dec s)) with (n + (b_len (dec s) - (b_off (dec s) + n))) by lia.
    rewrite ztake_add by lia. by rewrite zdrop_zdrop by lia. }
  destruct (Z.eqb_spec (b_off (dec s) + n) (b_len (dec s))) as [Ee|Ee].
  - eexists. split; [reflexivity|]. split; [split; cbn; [by rewrite ?El|lia]|].
    split; [unfold buf_refs; cbn; by rewrite ?El|]. rewrite Hq. do 2 f_equal. unfold queue. cbn. rewrite ?El. replace (_ - (_ + n)) with 0 by lia. done.
  - eexists. split; [reflexivity|]. split; [split; cbn; [by rewrite ?El|lia]|].
    split; [unfold buf_refs; cbn; by rewrite ?El|]. rewrite Hq. unfold queue. cbn. by rewrite ?El.
Qed.
End stash.

(** An outside that works: the peer's handshake answer is one byte, a record read is
    its own plaintext, and a record written is its plaintext between a header of ones and
    a trailer of twos. *)
Definition demo_env : environment call resp := fun h c =>
  match c as c return resp c with
  | CTick => zlen h `mod` 1000
  | CSelect _ _ _ => 1
  | CRecv _ len => if 0 <? len then (1, [7]) else (0, [])
  | CSend _ data => zlen data
  | CMalloc n => Some (8192 + zlen h, replicate (Z.to_nat n) 0)
  | CCertAddEncoded _ _ => true
  | CSetKeyProperty _ _ => true
  | CDecodePkcs8 _ => (60, Some szOID_RSA_RSA, [1; 2])
  | CDecodeRsaKey _ => (61, [3])
  | CNCryptOpen => (0, 62)
  | CNCryptImport _ _ => (0, 63)
  | CQueryRemoteCert _ => (0, 64)
  | CQuerySizes _ => (0, {| cbHeader := 5; cbMaximumMessage := 16384; cbTrailer := 36 |})
  | CVerifyPolicy _ _ => (true, 0)
  | CInitContext _ first _ _ _ =>
      {| isc_status := if first : bool then SEC_I_CONTINUE_NEEDED else SEC_E_OK;
         isc_tok := 65; isc_bytes := [1; 2; 3]; isc_alert := 0; isc_extra := None |}
  | CDecrypt _ data => {| dec_status := SEC_E_OK; dec_enc := data; dec_bufs := [(BData, 0, zlen data)] |}
  | CEncrypt _ hdr data trl =>
      {| enc_status := SEC_E_OK;
         enc_out := replicate (Z.to_nat hdr) 1 ++ data ++ replicate (Z.to_nat trl) 2;
         enc_cb := (hdr, zlen data, trl) |}
  | CWiden host _ => (zlen host, host)
  | CMallocBlock _ => 66
  | CCalloc => 4096
  | CCertOpenStore => 67
  | CCertCreate _ => 68
  | CCreateEngine _ _ => 69
  | CGetChain _ _ _ => 70
  | CWideLen host => zlen host
  | CWSAGetLastError | CGetLastError | CAcquire _ _ | CChainStatus _ | CApplyToken _ => 0
  end.

Lemma sc_demo_sane : sane demo_env.
Proof.
  split.
  - intros h. cbn -[Z.modulo Z.mul]. pose proof (Z.mod_pos_bound (zlen h) 1000). lia.
  - intros h s len Hl. cbn -[zlen]. destruct (Z.ltb_spec 0 len); right; unfold zlen; simpl; lia.
  - intros h s data. cbn -[zlen]. right. pose proof (zlen_nonneg data). lia.
  - intros h n Hn. cbn -[zlen]. rewrite zlen_replicate. lia.
  - intros. cbn -[zlen]. pose proof (zlen_nonneg input). lia.
  - intros h p f host req input. cbn. by destruct f.
  - intros h p data. cbn -[zlen]. pose proof (zlen_nonneg data). split; [done|].
    constructor; [cbn -[zlen]; lia|constructor].
  - intros h p hdr data trl H1 H2. cbn -[zlen]. pose proof (zlen_nonneg data).
    rewrite !zlen_app, !zlen_replicate. lia.
  - intros h p. cbn. lia.
Qed.

Definition empty_world : world := Host [] ∅ ∅.

Definition demo_conn : https_sc :=
  {| cfg := {| sock := 3; castore := 67; ca_only := false; skip_verify := false;
               hostw_at := 20; hostw := Some [104]; clientcert := 0 |};
     have_cred := true; have_ctx := true;
     sizes := {| cbHeader := 5; cbMaximumMessage := 4; cbTrailer := 3 |};
     enc := Buf 21 (Some [0; 0; 0; 0]) 4 0 0; dec := Buf 22 (Some [1; 2; 3; 4]) 4 3 1;
     out := Buf 23 (Some (replicate 12 0)) 12 0 0; deadline_ns := 0; eof := false |}.
