(* ===== verification/SchannelRecords.v ===== *)
(** * The Schannel bridge: handshake and records

    The invariant of the connection record, that the handshake loop keeps it and gives
    back every token, and that reading neither loses nor invents nor reorders a byte of
    plaintext. *)

From stdpp Require Import gmap gmultiset.
From S2P Require Import Prelude Eff Host Schannel SchannelBuffers.

(** ** The invariant *)

Record wf (s : https_sc) : Prop := {
  wf_enc : buf_ok SC_ENC_MAX (enc s);
  wf_enc_off : b_off (enc s) = 0;
  wf_enc_some : is_Some (b_ptr (enc s));
  wf_enc_cap : 0 < b_cap (enc s);
  wf_dec : buf_ok SC_ENC_MAX (dec s)
}.

(** Nothing but the input buffer and the end-of-stream mark changed. *)
Definition frame (s s' : https_sc) : Prop :=
  cfg s' = cfg s /\ have_cred s' = have_cred s /\ have_ctx s' = have_ctx s /\ sizes s' = sizes s /\
  dec s' = dec s /\ out s' = out s /\ deadline_ns s' = deadline_ns s.

Lemma frame_refl s : frame s s.
Proof. done. Qed.
#[export] Hint Resolve frame_refl : calm.
Lemma frame_trans a b c : frame a b -> frame b c -> frame a c.
Proof. unfold frame. intuition congruence. Qed.
Lemma frame_enc b s : frame s (set_enc b s).
Proof. done. Qed.

(** A well-formed input buffer in a well-formed record. *)
Lemma wf_set_enc s a l cap len :
  wf s -> zlen l = cap -> 0 < cap -> 0 <= len <= cap -> cap <= SC_ENC_MAX ->
  wf (set_enc (Buf a (Some l) cap len 0) s).
Proof.
  intros [He Ho Hs Hc Hd] Hl Hp Hr Hm. split; cbn; [split; cbn; [done|lia]|done|by eexists|done|done].
Qed.

Lemma wf_enc_bytes s : wf s -> exists l, b_ptr (enc s) = Some l /\ zlen l = b_cap (enc s) /\
  0 <= b_len (enc s) <= b_cap (enc s) /\ b_cap (enc s) <= SC_ENC_MAX.
Proof.
  intros [[Hp Hr] Ho [l Hl] Hc Hd]. exists l. rewrite Hl in Hp. split_and!; [done..|lia|lia|lia].
Qed.

(** Other bytes in the same block. *)
Lemma bufs_set_enc s l l' cap len off :
  b_ptr (enc s) = Some l -> bufs (set_enc (Buf (b_at (enc s)) (Some l') cap len off) s) = bufs s.
Proof. intros E. unfold bufs, buf_refs. cbn. by rewrite E. Qed.

Section handshake.
Context (env : environment call resp) (fuel : nat) (Hsane : sane env) (R : gmultiset res).

Lemma wp_make_room s w :
  wf s -> owns R s w ->
  wp (make_room env s)
    (fun '(g, s') w' => moved R w s' w' /\ wf s' /\ frame s s' /\ eof s' = eof s /\
       b_len (enc s') = b_len (enc s) /\
       (g = 0 -> b_len (enc s') < b_cap (enc s'))) w.
Proof.
  intros Hs Hown. destruct (wf_enc_bytes s Hs) as (l & Hl & Lz & Hr & Hm). pose proof Hs as [He Ho Hsm Hc Hd].
  unfold make_room. destruct (Z.geb_spec (b_len (enc s)) (b_cap (enc s))) as [E|E].
  2:{ wp_step. split_and!; auto with calm; done. }
  wp_step. pose proof SC_ENC_MAX_bound.
  set (R' := R ⊎ buf_refs (dec s) ⊎ buf_refs (out s) ⊎ blk (hostw_at (cfg s)) (hostw (cfg s))).
  eapply wp_mono; [|apply (wp_grow env Hsane (enc s) (b_cap (enc s) * 2) (b_len (enc s)) SC_ENC_MAX R' w He); [lia..|]].
  2:{ rewrite Hown. unfold bufs, R'. clear. multiset_solver. }
  intros [g b] w1 (R1 & S1 & N1 & Hb & Hl2 & Ho2 & Hcap & H0 & Hn). wp_step.
  split. { split_and!; [|done..]. unfold owns, bufs. cbn. rewrite R1. unfold R'. clear. multiset_solver. }
  split; [|split; [done|split; [done|split; [done|]]]].
  - split; cbn; [done|congruence| |lia|done].
    destruct (Z.eq_dec g 0) as [->|Hg]; [|by rewrite Hn].
    destruct (H0 eq_refl) as (_ & _ & Hsome). apply Hsome. lia.
  - intros ->. destruct (H0 eq_refl) as (Hroom & _). cbn. lia.
Qed.

Lemma wp_recv_enc s w :
  wf s -> owns R s w ->
  wp (recv_enc env fuel s)
    (fun '(n, s') w' => moved R w s' w' /\ wf s' /\ frame s s' /\
       (n = 0 -> eof s' = true) /\ (0 < n -> eof s' = eof s /\ 0 < b_len (enc s'))) w.
Proof.
  intros Hs Hown. destruct (wf_enc_bytes s Hs) as (l & Hl & Lz & Hr & Hm). pose proof Hs as [He Ho Hsm Hc Hd].
  unfold recv_enc. wp_step.
  eapply wp_mono; [|apply (wp_sock_recv env fuel Hsane s (b_cap (enc s) - b_len (enc s)) w); lia].
  cbv beta. intros [[n bs] s1] w1 (C & Hse & Hn).
  assert (wf (set_eof s)) as Hwe by (by split).
  destruct (Z.leb_spec n 0).
  - wp_step. destruct Hse as [->| ->]; (split; [by eapply owns_calm|]); split_and!; auto; try done; try lia.
    destruct Hn as [?|[[? E]|?]]; [lia| |lia]. intros _. by rewrite E.
  - destruct Hn as [?|[?|(Hn1 & Hn2 & ->)]]; [lia|lia|].
    unfold bytes_of. rewrite Hl. do 2 wp_step. wp_step. rewrite store_splice by lia.
    apply wp_lift_Done. wp_step. split; [eapply owns_calm; [done..|by eapply bufs_set_enc]|].
    split; [apply wf_set_enc; [done|rewrite zlen_splice; lia|lia|lia|lia]|].
    split; [done|]. split; [lia|]. intros _. cbn. split; [done|lia].
Qed.

Lemma wp_keep_extra s extra w :
  wf s -> 0 <= extra <= b_len (enc s) ->
  wp (keep_extra s extra) 
    (fun s' w' => w' = w /\ bufs s' = bufs s /\ wf s' /\ frame s s' /\ eof s' = eof s) w.
Proof.
  intros Hs Hx. destruct (wf_enc_bytes s Hs) as (l & Hl & Lz & Hr & Hm). pose proof Hs as [He Ho Hsm Hc Hd].
  unfold keep_extra. destruct (Z.gtb_spec extra 0).
  - wp_step. unfold bytes_of. rewrite Hl. do 2 wp_step. rewrite load_Done by lia. apply wp_lift_Done.
    wp_step. rewrite store_splice by zlens. apply wp_lift_Done. wp_step.
    split_and!; [done|by eapply bufs_set_enc| |done|done].
    apply wf_set_enc; [done|rewrite zlen_splice; zlens|lia|lia|lia].
  - wp_step. rewrite Hl. split_and!; [done|by eapply bufs_set_enc| |done|done]. apply wf_set_enc; [done|lia|lia|lia|lia].
Qed.

Lemma wp_take_ctxbuf p (Q : unit -> world -> Prop) w :
  Q tt (Host (h_hist w) (h_refs w ⊎ held RCtxBuf p) (h_st w)) -> wp (take_ctxbuf p) Q w.
Proof.
  unfold take_ctxbuf, held. intros H. wp_step.
  - wp_step. rewrite right_id_L in H by apply _. by destruct w.
  - by apply wp_acquire.
Qed.

(** The handshake loop keeps the invariant, changes nothing but the input buffer, whose
    block it holds, and gives back every token Schannel allocated. *)
Definition shaken (s : https_sc) (w : world) (s' : https_sc) (w' : world) : Prop :=
  moved R w s' w' /\ wf s' /\ frame s s'.

Lemma shaken_trans s1 w1 s2 w2 s3 w3 : shaken s1 w1 s2 w2 -> shaken s2 w2 s3 w3 -> shaken s1 w1 s3 w3.
Proof.
  intros (M & _ & F) (M' & Hw & F'). split_and!; [by eapply moved_trans|done|by eapply frame_trans].
Qed.

(** One message given to Schannel: the tokens are taken before and given back after the
    answer was sent. *)
Lemma shaken_step s w s2 w2 tok alert c w3 w4 :
  shaken s w s2 w2 -> no_decrypt c -> h_refs w3 = (h_refs w2 ⊎ held RCtxBuf alert) ⊎ held RCtxBuf tok ->
  h_st w3 = h_st w2 -> h_hist w3 = c :: h_hist w2 -> calm w3 w4 ->
  h_refs w4 = (h_refs w2 ⊎ held RCtxBuf alert) ⊎ held RCtxBuf tok /\
  shaken s w s2 (Host (h_hist w4) (h_refs w2) (h_st w4)).
Proof.
  intros ((Ow & Sw & n & Hn & Fn) & Hw & F) Hc R3 S3 H3 (R4 & S4 & m & Hm & Fm).
  split; [congruence|]. split_and!; [|done..]. split_and!; [done|cbn; congruence|].
  exists (m ++ c :: n). cbn. rewrite Hm, H3, Hn, <- app_assoc. split; [done|].
  apply Forall_app. split; [done|by constructor].
Qed.

Lemma sc_wp_handshake_loop n : forall p s status req need retried w,
  wf s -> owns R s w ->
  wp (handshake_loop env fuel n p s status req need retried)
    (fun '(code, status', s') w' => shaken s w s' w') w.
Proof.
  induction n as [|n IH]; intros p s status req need retried w Hs Hown; cbn [handshake_loop]; [by wp_step|].
  assert (forall w2 s2 st2 req2 need2 ret2, shaken s w s2 w2 ->
    wp (handshake_loop env fuel n p s2 st2 req2 need2 ret2)
      (fun '(code, status', s') w' => shaken s w s' w') w2) as Again.
  { intros w2 s2 st2 req2 need2 ret2 H. pose proof H as (M & Hw & _).
    eapply wp_mono; [|apply IH; [done|by eapply moved_owns]]. cbv beta.
    intros [[c st] s4] w5 H5. by eapply shaken_trans. }
  wp_step. apply (wp_mono _ (fun '(g, s') w' => shaken s w s' w')).
  2:{ destruct need; [|wp_step; split_and!; auto with calm].
      eapply wp_mono; [|by apply wp_make_room]. cbv beta. by intros [g s'] w' (? & ? & ? & _). }
  intros [g s1] w1 H1. wp_step; [by wp_step|]. wp_step.
  apply (wp_mono _ (fun '(k, s') w' => shaken s w s' w')).
  2:{ destruct need; [|by wp_step]. pose proof H1 as (M1 & Hs1 & _).
      eapply wp_mono; [|apply wp_recv_enc; [done|by eapply moved_owns]]. cbv beta.
      intros [k s'] w' (C2 & ? & F2 & _). by eapply shaken_trans; [exact H1|]. }
  intros [k s2] w2 H2. wp_step; [by wp_step|]. wp_step; [by wp_step|]. clear w1 s1 H1.
  pose proof H2 as (M2 & Hs2 & F2).
  destruct (wf_enc_bytes s2 Hs2) as (l & Hl & Lz & Hr & Hm). unfold bytes_of. rewrite Hl. do 3 wp_step.
  rewrite load_Done by lia. apply wp_lift_Done. rewrite zdrop_0. wp_step.
  set (input := ztake (b_len (enc s2)) l). assert (zlen input = b_len (enc s2)) as Li by (unfold input; zlens).
  apply (wp_ext env (CInitContext p false None req input)).
  pose proof (isc_leftover env Hsane (hist w2) p false None req input) as Hx. rewrite Li in Hx.
  pose proof (isc_incomplete env Hsane (hist w2) p false None req input) as Hi. cbv zeta in Hi.
  destruct (env (hist w2) (CInitContext p false None req input)) as [ss tok bytes alert extra].
  cbn [isc_status isc_tok isc_bytes isc_alert isc_extra] in *.
  wp_step. apply wp_take_ctxbuf. wp_step. apply wp_take_ctxbuf. cbn [h_hist h_refs h_st push host_traced].
  match goal with |- wp _ _ ?x => set (w3 := x) end.
  assert (h_refs w3 = (h_refs w2 ⊎ held RCtxBuf alert) ⊎ held RCtxBuf tok) as R3
    by (unfold w3; cbn; clear; multiset_solver).
  assert (forall w4, calm w3 w4 -> h_refs w4 = (h_refs w2 ⊎ held RCtxBuf alert) ⊎ held RCtxBuf tok /\
    shaken s w s2 (Host (h_hist w4) (h_refs w2) (h_st w4))) as Step
    by (intros w4; by apply (shaken_step s w s2 w2 tok alert (CInitContext p false None req input))).
  clearbody w3. destruct (Z.eqb_spec ss SEC_E_INCOMPLETE_MESSAGE) as [Ei|Ei].
  { destruct (Hi Ei) as [-> ->]. destruct (Step w3 (calm_refl w3)) as [_ H3].
    assert (shaken s w s2 w3) as H3'.
    { replace (h_refs w2) with (h_refs w3) in H3 by (rewrite R3; unfold held; cbn; clear; multiset_solver).
      by destruct w3. }
    pose proof H3' as (M3 & _ & _). wp_step. eapply wp_mono; [|apply wp_make_room; [done|by eapply moved_owns]].
    cbv beta. intros [g2 s3] w4 (C4 & Hs3 & F3 & _).
    assert (shaken s w s3 w4) as H4 by (by eapply shaken_trans; [exact H3'|]).
    wp_step; [by wp_step|by apply Again]. }
  wp_step. apply (wp_mono _ (fun _ w' => calm w3 w')).
  2:{ wp_step; [|wp_step; auto with calm]. apply wp_send_all. auto with calm. }
  intros send_rc w4 C4. destruct (Step w4 C4) as [R4 H5]. wp_step.
  eapply wp_release_nz; [exact R4|]. wp_step. eapply wp_release_nz; [reflexivity|].
  cbn [h_hist h_st]. set (w5 := Host (h_hist w4) (h_refs w2) (h_st w4)) in *. clearbody w5.
  wp_step; [by wp_step|]. wp_step; [by apply Again|].
  wp_step. eapply wp_mono; [|by apply wp_keep_extra]. cbv beta. intros s3 w6 (-> & B3 & Hs3 & F3 & _).
  assert (shaken s w s3 w5) as H6.
  { split_and!; [|done|by eapply frame_trans; [apply H5|]]. eapply moved_calm; [apply H5|apply calm_refl|done]. }
  wp_step; [by wp_step|]. wp_step; [by apply Again|by wp_step].
Qed.

End handshake.

Section do_handshake.
Context (env : environment call resp) (fuel : nat) (Hsane : sane env).

(** The references a handshake adds: the context, if there was none before. *)
Definition new_ctx (p : Z) (s s' : https_sc) : gmultiset res :=
  if have_ctx s' && negb (have_ctx s) then {[+ RCtx p +]} else ∅.

(** The record apart from the input buffer, the end mark and the new context. *)
Definition frame_ctx (s s' : https_sc) : Prop :=
  cfg s' = cfg s /\ have_cred s' = have_cred s /\ sizes s' = sizes s /\ dec s' = dec s /\
  out s' = out s /\ deadline_ns s' = deadline_ns s /\ (have_ctx s = true -> have_ctx s' = true).

Definition handshaken (R : gmultiset res) (p : Z) (s : https_sc) (w : world)
    (r : Z * Z * https_sc) (w' : world) : Prop :=
  let '(code, status', s') := r in
  moved (R ⊎ new_ctx p s s') w s' w' /\ wf s' /\ frame_ctx s s' /\
  (code = HTTPS_SC_OK -> have_ctx s' = true).

(** The loop, entered with a context already held. *)
Lemma handshaken_loop R p s w w1 n status req need :
  wf s -> have_ctx s = false -> moved (R ⊎ {[+ RCtx p +]}) w (set_have_ctx s) w1 ->
  wp (handshake_loop env fuel n p (set_have_ctx s) status req need false) (handshaken R p s w) w1.
Proof.
  intros Hs Hc M. eapply wp_mono; [|apply (sc_wp_handshake_loop env fuel Hsane (R ⊎ {[+ RCtx p +]}))].
  - cbv beta. intros [[c st] s'] w' (M' & Hs' & F1 & F2 & F3 & F4 & F5 & F6 & F7). cbn in F3.
    unfold handshaken, new_ctx. rewrite F3, Hc. split_and!; [by eapply moved_trans|done| |done].
    unfold frame_ctx. by split_and!.
  - by destruct Hs; split.
  - apply M.
Qed.

Lemma wp_do_handshake R p s status w :
  wf s -> owns R s w -> wp (do_handshake env fuel p s status) (handshaken R p s w) w.
Proof.
  intros Hs Hown. unfold do_handshake. destruct (have_ctx s) eqn:Hc.
  { eapply wp_mono; [|by apply (sc_wp_handshake_loop env fuel Hsane R)]. cbv beta.
    intros [[c st] s'] w' (M & Hs' & (F1 & F2 & F3 & F4 & F5 & F6 & F7)).
    unfold handshaken, new_ctx. rewrite Hc, andb_false_r, (right_id_L ∅ (⊎) R).
    split_and!; [done|done| |congruence]. unfold frame_ctx. split_and!; congruence. }
  wp_step. set (c := CInitContext p true (hostw (cfg s)) isc_flags []). apply (wp_ext env c).
  assert (forall w', calm (push c w) w' -> calm w w') as Hcalm
    by (intros w' C; eapply calm_trans; [|exact C]; apply calm_push; [exact I|apply calm_refl]).
  destruct (env (hist w) c) as [ss tok bytes alert extra]. cbn [isc_status isc_tok isc_bytes isc_alert].
  wp_step. apply wp_take_ctxbuf. cbn [h_hist h_refs h_st push host_traced].
  wp_step.
  { wp_step. eapply wp_release_nz; [reflexivity|]. wp_step. unfold handshaken, new_ctx.
    rewrite Hc. cbn [andb]. rewrite (right_id_L ∅ (⊎) R). split_and!; [|done|done|done].
    apply (owns_calm _ s w); [done| |done]. apply Hcalm, calm_refl. }
  wp_step. apply wp_acquire. cbv zeta. cbn [h_hist h_refs h_st].
  match goal with |- wp _ _ ?x => set (w1 := x) end.
  assert (h_refs w1 = (h_refs w ⊎ {[+ RCtx p +]}) ⊎ held RCtxBuf tok) as R1
    by (unfold w1; cbn; clear; multiset_solver).
  assert (forall w2, calm w1 w2 ->
    moved (R ⊎ {[+ RCtx p +]}) w (set_have_ctx s) (Host (h_hist w2) (h_refs w ⊎ {[+ RCtx p +]}) (h_st w2))) as Hm.
  { intros w2 (_ & S2' & n2 & H2 & F2). split_and!; [|done|].
    - unfold owns. cbn. rewrite Hown. unfold bufs. cbn. clear. multiset_solver.
    - exists (n2 ++ [c]). cbn. rewrite H2. unfold w1. cbn. rewrite <- app_assoc. split; [done|].
      apply Forall_app. split; [done|by repeat constructor]. }
  assert (forall w2, calm w1 w2 -> h_refs w2 = (h_refs w ⊎ {[+ RCtx p +]}) ⊎ held RCtxBuf tok) as Hr
    by (intros w2 (-> & _); done).
  clearbody w1. clear R1. wp_step.
  - wp_step. eapply wp_mono; [|apply (wp_send_all env fuel _ bytes fuel 0 w1 w1); auto with calm].
    cbv beta. intros rc w2 C2. bool_to_prop. specialize (Hr w2 C2). specialize (Hm w2 C2). wp_step.
    unfold held in Hr. rewrite (proj2 (Z.eqb_neq tok 0)) in Hr by done.
    eapply wp_give; [exact Hr|]. wp_step; [|by apply handshaken_loop].
    wp_step. unfold handshaken, new_ctx. rewrite Hc. split_and!; [done|by destruct Hs; split|done|done].
  - specialize (Hr w1 (calm_refl w1)). specialize (Hm w1 (calm_refl w1)).
    wp_step. eapply wp_release_nz; [exact Hr|]. by apply handshaken_loop.
Qed.
End do_handshake.
