(* ===== verification/SchannelRead.v ===== *)
(** * The Schannel bridge: reading

    What [https_sc_read] hands over is the stream the records decrypt to: no byte is
    lost, invented or reordered, whatever the sizes of the records, of the caller's
    buffers and of what the socket gives. *)

From stdpp Require Import gmap gmultiset.
From S2P Require Import Prelude Eff Host Schannel SchannelBuffers SchannelRecords.

(** ** The stream *)

(** The plaintext a call of DecryptMessage announces. *)
Definition plaintext (r : dec_resp) : list Z :=
  if (dec_status r =? SEC_E_OK) || (dec_status r =? SEC_I_RENEGOTIATE) || (dec_status r =? SEC_I_CONTEXT_EXPIRED)
  then match find_buf BData (dec_bufs r) with
       | Some (off, k) => ztake k (zdrop off (dec_enc r))
       | None => []
       end
  else [].

(** All the plaintext of a history, oldest first. *)
Fixpoint decrypted (env : environment call resp) (h : list call) : list Z :=
  match h with
  | [] => []
  | CDecrypt p data :: h => decrypted env h ++ plaintext (env h (CDecrypt p data))
  | _ :: h => decrypted env h
  end.

Lemma decrypted_calls env new h :
  Forall no_decrypt new -> decrypted env (new ++ h) = decrypted env h.
Proof. induction 1 as [|c new Hc _ IH]; [done|]. by destruct c. Qed.

Section read.
Context (env : environment call resp) (fuel : nat) (Hsane : sane env) (R : gmultiset res).

(** From [w] to [w'] the plaintext [d] arrived, and the records in memory did not
    change. *)
Definition gains (w w' : world) (d : list Z) : Prop :=
  h_st w' = h_st w /\ decrypted env (h_hist w') = decrypted env (h_hist w) ++ d.

Lemma gains_refl w : gains w w [].
Proof. split; [done|by rewrite app_nil_r]. Qed.
Lemma gains_moved w s' w' : moved R w s' w' -> gains w w' [].
Proof.
  intros (_ & S & new & H & F). split; [done|]. by rewrite H, decrypted_calls, app_nil_r.
Qed.
Lemma gains_trans w1 w2 w3 a b : gains w1 w2 a -> gains w2 w3 b -> gains w1 w3 (a ++ b).
Proof. intros (S1 & D1) (S2' & D2). split; [congruence|]. by rewrite D2, D1, app_assoc. Qed.
Lemma gains_then_moved w1 w2 s3 w3 a : gains w1 w2 a -> moved R w2 s3 w3 -> gains w1 w3 a.
Proof. intros G C. rewrite <- (app_nil_r a). eapply gains_trans; [done|by eapply gains_moved]. Qed.
Lemma gains_decrypt w p data :
  gains w (push (CDecrypt p data) w) (plaintext (env (h_hist w) (CDecrypt p data))).
Proof. by split. Qed.

(** ** The steps of a read *)

Lemma queue_nil limit b : buf_ok limit b -> queue b = [] <-> b_len b = b_off b.
Proof.
  intros Hb. pose proof (zlen_queue _ _ Hb) as L. destruct Hb as [_ Hr]. split.
  - intros E. rewrite E in L. change (zlen []) with 0 in L. lia.
  - intros E. destruct (queue b) as [|x q]; [done|]. rewrite zlen_cons in L. pose proof (zlen_nonneg q). lia.
Qed.

Lemma wf_set_dec s b : wf s -> buf_ok SC_ENC_MAX b -> wf (set_dec b s).
Proof. intros [] Hb. by split. Qed.

Lemma owns_set_dec b s w : buf_refs b = buf_refs (dec s) -> owns R s w <-> owns R (set_dec b s) w.
Proof. intros E. unfold owns, bufs. cbn. by rewrite E. Qed.

(** A caller's buffer that changed in its first [n] bytes only. *)
Definition filled (buf buf' : list Z) (n : Z) : Prop :=
  zlen buf' = zlen buf /\ zdrop n buf' = zdrop n buf.

Lemma filled_store buf n bs :
  0 <= n -> n + zlen bs <= zlen buf ->
  filled buf (splice buf n bs) (n + zlen bs) /\
  ztake (n + zlen bs) (splice buf n bs) = ztake n buf ++ bs.
Proof.
  intros Hn Hl. pose proof (zlen_nonneg bs). assert (zlen (ztake n buf) = n) as Ln by (apply zlen_ztake; lia).
  split; [split|].
  - apply zlen_splice; lia.
  - unfold splice. rewrite app_assoc. rewrite zdrop_app_r by (rewrite zlen_app; lia). rewrite zlen_app, Ln.
    by rewrite Z.sub_diag, zdrop_0.
  - unfold splice. rewrite app_assoc. rewrite ztake_app_l by (rewrite zlen_app; lia). apply ztake_all. rewrite zlen_app. lia.
Qed.

Lemma filled_weaken buf buf' n m : filled buf buf' n -> 0 <= n <= m -> filled buf buf' m.
Proof.
  intros [L E] H. split; [done|]. replace m with (n + (m - n)) by lia.
  rewrite <- !zdrop_zdrop by lia. by rewrite E.
Qed.

(** The record changed in its buffers and end mark only. *)
Definition read_frame (s s' : https_sc) : Prop :=
  cfg s' = cfg s /\ have_cred s' = have_cred s /\ have_ctx s' = have_ctx s /\ sizes s' = sizes s /\
  out s' = out s /\ deadline_ns s' = deadline_ns s.

Lemma frame_read a b : frame a b -> read_frame a b.
Proof. unfold frame, read_frame. tauto. Qed.
Lemma read_frame_trans a b c : read_frame a b -> read_frame b c -> read_frame a c.
Proof. unfold read_frame. intuition congruence. Qed.

(** What a read leaves: the blocks of the record held, [n] bytes of the caller's buffer filled, none on an error; the
    plaintext that arrived is what was handed over followed by what is kept, unless
    there was no memory to keep it; and an empty result means the end of the stream. *)
Definition read_post (w : world) (s : https_sc) (buf : list Z) (len : Z) (r : read_result)
    (w' : world) : Prop :=
  let '(code, buf', n, status, s') := r in
  owns R s' w' /\ wf s' /\ read_frame s s' /\ 0 <= n <= len /\ filled buf buf' len /\
  (code <> HTTPS_SC_OK -> n = 0) /\
  (code = HTTPS_SC_OK -> n = 0 -> eof s' = true) /\
  exists d, gains w w' d /\ (code <> HTTPS_SC_ERR_ALLOC -> d = ztake n buf' ++ queue (dec s')).

(** An error leaves the plaintext in the queue. *)
Lemma read_post_error w s buf buf' len code status s' w' d :
  code <> HTTPS_SC_OK -> 0 <= len -> owns R s' w' -> wf s' -> read_frame s s' -> filled buf buf' len ->
  gains w w' d -> (code <> HTTPS_SC_ERR_ALLOC -> d = queue (dec s')) ->
  read_post w s buf len (code, buf', 0, status, s') w'.
Proof. intros. unfold read_post. split_and!; try done; try lia. exists d. by rewrite ztake_0. Qed.

Lemma wp_read_done s0 w0 buf0 s buf len direct status d w :
  owns R s w -> wf s -> read_frame s0 s -> 0 <= direct <= len -> len <= zlen buf0 -> 0 < len ->
  filled buf0 buf len -> gains w0 w d -> d = ztake direct buf ++ queue (dec s) ->
  0 < direct \/ queue (dec s) <> [] \/ eof s = true ->
  wp (read_done s buf len direct status) (read_post w0 s0 buf0 len) w.
Proof.
  intros Hown Hs Fr Hd Hlen Hpos Hf G Ed Hend. unfold read_done. wp_step.
  eapply wp_mono; [|apply (wp_take s (len - direct) w (wf_dec s Hs)); lia]. cbv beta.
  intros [bs s1] w1 (-> & Lb & b & -> & Hb & Hrf & Hq). pose proof (zlen_nonneg bs).
  pose proof (zlen_nonneg (queue (dec s))). assert (zlen buf = zlen buf0) as Lbuf by apply Hf.
  wp_step. rewrite store_splice by lia. apply wp_lift_Done. wp_step.
  destruct (filled_store buf direct bs) as [F T]; [lia|lia|].
  unfold read_post. split_and!; [by apply (proj1 (owns_set_dec b s w Hrf))|by apply wf_set_dec|done|lia|lia| |done| |].
  - destruct (filled_weaken _ _ _ len F ltac:(lia)) as [L1 E1]. destruct Hf as [L2 E2].
    split; congruence.
  - intros _ Hn. destruct Hend as [?|[Hne|He]]; [lia| |done].
    destruct (queue (dec s)) as [|x q]; [done|]. rewrite zlen_cons in Lb. pose proof (zlen_nonneg q). lia.
  - exists d. split; [done|]. intros _. cbn [dec set_dec]. by rewrite T, Ed, Hq, app_assoc.
Qed.

Lemma wp_deliver s reneg plain buf len w :
  owns R s w -> wf s -> queue (dec s) = [] -> 0 < len <= zlen buf ->
  wp (deliver env s reneg plain buf len 0)
    (fun '(rc, buf', direct, s') w' => moved R w s' w' /\ (exists b, s' = set_dec b s /\ buf_ok SC_ENC_MAX b) /\
       0 <= direct <= len /\ filled buf buf' len /\ (reneg = true -> direct = 0) /\
       (rc = 0 -> plain = ztake direct buf' ++ queue (dec s'))) w.
Proof.
  intros Hown Hs Hq Hl. pose proof (wf_dec s Hs) as Hd. unfold deliver.
  assert (b_len (dec s) =? b_off (dec s) = true) as ->
    by (apply Z.eqb_eq; by apply (queue_nil SC_ENC_MAX)).
  assert (0 <? len = true) as -> by (apply Z.ltb_lt; lia). rewrite !andb_true_r.
  assert (forall buf' direct rest, 0 <= direct <= len -> filled buf buf' len ->
    (reneg = true -> direct = 0) -> plain = ztake direct buf' ++ rest ->
    wp (if zlen rest >? 0 then '(rc, s1) ← stash_plaintext env s rest; mret (rc, buf', direct, s1)
        else mret (0, buf', direct, s))
      (fun '(rc, buf', direct, s') w' => moved R w s' w' /\ (exists b, s' = set_dec b s /\ buf_ok SC_ENC_MAX b) /\
         0 <= direct <= len /\ filled buf buf' len /\ (reneg = true -> direct = 0) /\
         (rc = 0 -> plain = ztake direct buf' ++ queue (dec s'))) w) as Fin.
  { intros buf' direct rest Hdir Hf Hre Ep. pose proof (zlen_nonneg rest). destruct (Z.gtb_spec (zlen rest) 0).
    - wp_step. eapply wp_mono; [|by apply wp_stash]. cbv beta. intros [rc s1] w1 (C & b & -> & Hb & Eq).
      wp_step. split_and!; [done|eauto|lia|lia|done|done|]. intros ->. rewrite Ep. cbn [dec set_dec].
      by rewrite Eq, Hq.
    - wp_step. split_and!; [by apply moved_refl| |lia|lia|done|done|].
      + exists (dec s). split; [by destruct s|done].
      + intros _. rewrite Hq, Ep. do 2 f_equal. destruct rest as [|x r]; [done|].
        rewrite zlen_cons in *. pose proof (zlen_nonneg r). lia. }
  wp_step. destruct reneg; cbn [negb].
  { wp_step. apply Fin; [lia|done|done|]. by rewrite ztake_0. }
  pose proof (zlen_nonneg plain).
  set (take := if len - 0 <? zlen plain then len - 0 else zlen plain).
  assert (0 <= take <= len /\ take <= zlen plain) as [Ht1 Ht2]
    by (unfold take; destruct (Z.ltb_spec (len - 0) (zlen plain)); lia).
  assert (zlen (ztake take plain) = take) as Lt by (apply zlen_ztake; lia).
  wp_step. rewrite store_splice by lia. apply wp_lift_Done. wp_step. cbv zeta.
  destruct (filled_store buf 0 (ztake take plain)) as [F T]; [lia|lia|]. rewrite Lt in F, T.
  apply Fin; [lia|by apply (filled_weaken _ _ (0 + take)); [|lia]|done|].
  rewrite T, ztake_0. symmetry. apply ztake_zdrop.
Qed.

Lemma find_buf_inside t bufs n off k :
  Forall (fun b : buftype * Z * Z => 0 <= b.1.2 /\ 0 <= b.2 /\ b.1.2 + b.2 <= n) bufs ->
  find_buf t bufs = Some (off, k) -> 0 <= off /\ 0 <= k /\ off + k <= n.
Proof.
  induction 1 as [|[[t' o'] k'] bufs Hb _ IH]; [done|]. cbn in *. destruct t, t'; try apply IH;
    intros E; injection E as <- <-; lia.
Qed.

Lemma wp_keep_record_extra s l extra n w :
  wf s -> zlen l = b_cap (enc s) -> n <= b_cap (enc s) ->
  (forall off k, extra = Some (off, k) -> 0 <= off /\ 0 <= k /\ off + k <= n) ->
  wp (keep_record_extra s l extra)
    (fun s' w' => w' = w /\ bufs s' = bufs s /\ wf s' /\ frame s s' /\ eof s' = eof s) w.
Proof.
  intros Hs Hl Hn Hx. destruct (wf_enc_bytes s Hs) as (l0 & Hl0 & _ & Hr & Hm). pose proof (wf_enc_cap s Hs).
  unfold keep_record_extra. destruct extra as [[off k]|].
  - destruct (Hx off k eq_refl) as (? & ? & ?). destruct (Z.gtb_spec k 0).
    + wp_step. rewrite load_Done by lia. apply wp_lift_Done. wp_step.
      rewrite store_splice by zlens. apply wp_lift_Done. wp_step.
      split_and!; [done|by eapply bufs_set_enc| |done|done]. apply wf_set_enc; [done|rewrite zlen_splice; zlens|lia|lia|lia].
    + wp_step. split_and!; [done|by eapply bufs_set_enc| |done|done]. apply wf_set_enc; [done|done|lia|lia|lia].
  - wp_step. split_and!; [done|by eapply bufs_set_enc| |done|done]. apply wf_set_enc; [done|done|lia|lia|lia].
Qed.

(** A handshake inside a connection: no reference gained, the stash left alone. *)
Lemma wp_rehandshake p s status w :
  wf s -> owns R s w -> have_ctx s = true ->
  wp (do_handshake env fuel p s status) (fun '(code, status', s') w' => shaken R s w s' w') w.
Proof.
  intros Hs Hown Hc. unfold do_handshake. rewrite Hc. by apply sc_wp_handshake_loop.
Qed.

Lemma sock_class_not n : sock_class n <> HTTPS_SC_OK /\ sock_class n <> HTTPS_SC_ERR_ALLOC.
Proof. unfold sock_class. by destruct (n =? -1). Qed.

(** After the plaintext of one record: the rest of the loop body. *)
Definition settle (n : nat) (p : Z) (r : dec_resp) (l : list Z) (buf : list Z)
    (len direct status : Z) (s : https_sc) : M world read_result :=
  s ← keep_record_extra s l (find_buf BExtra (dec_bufs r));
  let s := if dec_status r =? SEC_I_CONTEXT_EXPIRED then set_eof s else s in
  '(rc, status, s) ← (if dec_status r =? SEC_I_RENEGOTIATE then do_handshake env fuel p s status
                      else mret (HTTPS_SC_OK, status, s));
  if negb (rc =? HTTPS_SC_OK) then mret (rc, buf, 0, status, s)
  else if (direct >? 0) || pending s then read_done s buf len direct status
  else if eof s then read_done s buf len direct status
  else read_loop env fuel n p s buf len direct status.

(** What the loop is entered with and goes round with. *)
Definition loop_ok (n : nat) : Prop := forall p s status buf len w,
  owns R s w -> wf s -> have_ctx s = true -> queue (dec s) = [] -> 0 < len <= zlen buf ->
  wp (read_loop env fuel n p s buf len 0 status) (read_post w s buf len) w.

(** A later iteration's result, seen from the start of the read. *)
Lemma read_post_weaken w0 s0 buf0 w s len r w' buf :
  gains w0 w [] -> read_frame s0 s -> filled buf0 buf len -> read_post w s buf len r w' ->
  read_post w0 s0 buf0 len r w'.
Proof.
  intros G F [L E]. destruct r as [[[[code buf'] n] st] s']. unfold read_post.
  intros (Ho & Hs & Fr & Hn & [L' E'] & H1 & H2 & d & G' & Hd). split_and!; try done; try lia.
  - by eapply read_frame_trans.
  - split; congruence.
  - exists d. split; [by apply (gains_trans _ _ _ [] d G)|done].
Qed.

Lemma wp_settle n p r l buf len direct status s w0 s0 buf0 w :
  loop_ok n -> owns R s w -> wf s -> have_ctx s = true -> read_frame s0 s -> zlen l = b_cap (enc s) ->
  Forall (fun b => 0 <= b.1.2 /\ 0 <= b.2 /\ b.1.2 + b.2 <= b_len (enc s)) (dec_bufs r) ->
  0 < len <= zlen buf0 -> 0 <= direct <= len -> filled buf0 buf len ->
  (dec_status r = SEC_I_RENEGOTIATE -> direct = 0) ->
  gains w0 w (ztake direct buf ++ queue (dec s)) ->
  wp (settle n p r l buf len direct status s) (read_post w0 s0 buf0 len) w.
Proof.
  intros IH Hown Hs Hc Fr Hl Hb Hlen Hd Hf Hre G. unfold settle.
  destruct (wf_enc_bytes s Hs) as (l0 & _ & _ & Hr & Hm). wp_step.
  eapply wp_mono; [|apply (wp_keep_record_extra s l _ (b_len (enc s)) w Hs Hl); [lia|]].
  2:{ intros off k E. by eapply find_buf_inside. }
  cbv beta. intros s1 w1 (-> & B1 & Hs1 & F1 & _). cbv zeta.
  set (s2 := if _ =? _ then set_eof s1 else s1).
  assert (wf s2 /\ frame s s2 /\ bufs s2 = bufs s) as (Hs2 & F2 & B2).
  { unfold s2. destruct (_ =? _); [|done]. split_and!; [by destruct Hs1; split| |done].
    eapply frame_trans; [exact F1|done]. }
  assert (owns R s2 w) as Hown2 by (unfold owns; by rewrite B2).
  clearbody s2. wp_step.
  apply (wp_mono _ (fun '(code, status', s') w' => moved R w s' w' /\ wf s' /\ frame s2 s' /\
    (code <> HTTPS_SC_OK -> direct = 0))).
  2:{ wp_step; [|by wp_step; split_and!; auto with calm].
      bool_to_prop. assert (have_ctx s2 = true) as Hc2 by (destruct F2 as (_ & _ & -> & _); done).
      eapply wp_mono; [|by apply wp_rehandshake]. cbv beta. intros [[c st] s3] w3 (? & ? & ?).
      split_and!; auto. }
  intros [[rc st] s3] w3 (C3 & Hs3 & F3 & Hrc).
  pose proof (moved_owns _ _ _ _ C3) as Hown3. assert (frame s s3) as F4 by (by eapply frame_trans).
  assert (dec s3 = dec s) as Ed by apply F4.
  assert (have_ctx s3 = true) as Hc3 by (destruct F4 as (_ & _ & -> & _); done).
  assert (read_frame s0 s3) as Fr3 by (eapply read_frame_trans; [done|by apply frame_read]).
  assert (gains w0 w3 (ztake direct buf ++ queue (dec s3))) as G3
    by (rewrite Ed; by eapply gains_then_moved).
  destruct (Z.eqb_spec rc HTTPS_SC_OK) as [->|Hne]; cbn [negb].
  2:{ wp_step. rewrite Hrc in G3 by done. rewrite ztake_0 in G3.
      apply (read_post_error _ _ _ _ _ _ _ _ _ (queue (dec s3))); try done; lia. }
  assert (pending s3 = true <-> queue (dec s3) <> []) as Hp.
  { pose proof (wf_dec s3 Hs3) as Hd3. rewrite (queue_nil SC_ENC_MAX) by done.
    destruct Hd3 as [_ Hr3]. unfold pending. rewrite Z.gtb_lt. lia. }
  destruct ((direct >? 0) || pending s3) eqn:Epend.
  { eapply wp_read_done; try done; [lia|lia|]. apply orb_true_iff in Epend as [E|E].
    - left. apply Z.gtb_lt in E. lia.
    - right. left. by apply Hp. }
  apply orb_false_iff in Epend as [E1 E2].
  assert (direct = 0) as -> by (destruct (Z.gtb_spec direct 0); [done|lia]).
  assert (queue (dec s3) = []) as Hq3.
  { destruct (queue (dec s3)) eqn:Eq; [done|]. exfalso. rewrite (proj2 Hp) in E2; done. }
  destruct (eof s3) eqn:Ee; [eapply wp_read_done; try done; [lia|lia|auto]|].
  rewrite Hq3 in G3. assert (zlen buf = zlen buf0) as Lb by apply Hf.
  eapply wp_mono; [|apply IH; try done; lia]. intros res w' H. by eapply read_post_weaken.
Qed.

(** The end of the loop body: more input, or the end of the stream. *)
Definition receive (n : nat) (p : Z) (buf : list Z) (len direct status : Z) (s : https_sc)
    : M world read_result :=
  if eof s then read_done s buf len direct status else
  '(rn, s) ← recv_enc env fuel s;
  if rn <? 0 then mret (sock_class rn, buf, 0, status, s)
  else if rn =? 0 then read_done s buf len direct status
  else read_loop env fuel n p s buf len direct status.

Lemma wp_receive n p buf len status s w0 s0 w :
  loop_ok n -> owns R s w -> wf s -> have_ctx s = true -> read_frame s0 s -> queue (dec s) = [] ->
  0 < len <= zlen buf -> gains w0 w [] ->
  wp (receive n p buf len 0 status s) (read_post w0 s0 buf len) w.
Proof.
  intros IH Hown Hs Hc Fr Hq Hlen G. unfold receive. assert (filled buf buf len) as Hf by done.
  destruct (eof s) eqn:Ee.
  { eapply wp_read_done; try done; [lia..|]; rewrite ?Hq; auto. }
  wp_step. eapply wp_mono; [|by apply wp_recv_enc]. cbv beta. intros [rn s1] w1 (C & Hs1 & F & H0 & _).
  pose proof (moved_owns _ _ _ _ C) as Hown1.
  assert (read_frame s0 s1) as Fr1 by (eapply read_frame_trans; [done|by apply frame_read]).
  assert (gains w0 w1 []) as G1 by (by eapply gains_then_moved).
  destruct F as (_ & _ & Hc1 & _ & Hd1 & _). rewrite Hc in Hc1. rewrite <- Hd1 in Hq.
  destruct (Z.ltb_spec rn 0).
  { wp_step. apply (read_post_error _ _ _ _ _ _ _ _ _ []); try done; [apply sock_class_not|lia]. }
  destruct (Z.eqb_spec rn 0).
  { eapply wp_read_done; try done; [lia..|]; rewrite ?Hq; auto. }
  eapply wp_mono; [|by apply IH]. intros res w' H'. by eapply read_post_weaken.
Qed.

Lemma sc_wp_read_loop n : loop_ok n.
Proof.
  induction n as [|n IH]; intros p s status buf len w Hown Hs Hc Hq Hlen; [done|].
  cbn [read_loop]. fold (receive n p buf len 0 status).
  assert (gains w w []) as G0 by apply gains_refl.
  destruct (b_len (enc s) >? 0); [|by apply wp_receive].
  destruct (wf_enc_bytes s Hs) as (l & Hl & Lz & Hr & Hm). pose proof (wf_enc_cap s Hs).
  wp_step. unfold bytes_of. rewrite Hl. do 2 wp_step. rewrite load_Done by lia. apply wp_lift_Done.
  rewrite zdrop_0. wp_step. set (input := ztake (b_len (enc s)) l).
  assert (zlen input = b_len (enc s)) as Li by (unfold input; zlens).
  apply (wp_ext env (CDecrypt p input)). pose proof (gains_decrypt w p input) as G1. unfold plaintext in G1.
  destruct (decrypt_in_place env Hsane (hist w) p input) as [Ld Fb]. rewrite Li in Ld, Fb.
  cbn [hist host_traced] in *. destruct (env (h_hist w) (CDecrypt p input)) as [ss de bufs] eqn:Er.
  cbn [dec_status dec_enc dec_bufs] in *. wp_step. rewrite store_splice by lia. apply wp_lift_Done.
  set (l1 := splice l 0 de). assert (zlen l1 = b_cap (enc s)) as Ll1 by (unfold l1; rewrite zlen_splice; lia).
  set (s1 := set_enc _ s). assert (wf s1) as Hs1 by (apply wf_set_enc; [done|done|lia|lia|lia]).
  assert (owns R s1 (push (CDecrypt p input) w)) as Hown1
    by (unfold owns; cbn [h_refs push host_traced]; rewrite Hown; symmetry; f_equal; by eapply bufs_set_enc).
  set (w1 := push _ w) in *. clearbody w1.
  destruct ((ss =? SEC_E_OK) || (ss =? SEC_I_RENEGOTIATE) || (ss =? SEC_I_CONTEXT_EXPIRED)).
  - wp_step. set (plain := match find_buf BData bufs with Some (off, k) => ztake k (zdrop off de) | None => [] end) in *.
    apply (wp_mono _ (fun pl w' => pl = plain /\ w' = w1)).
    2:{ subst plain. destruct (find_buf BData bufs) as [[off k]|] eqn:Ef; [|by wp_step].
        destruct (find_buf_inside _ _ _ _ _ Fb Ef) as (? & ? & ?). rewrite load_Done by lia.
        apply wp_lift_Done. split; [|done]. unfold l1, splice. rewrite ztake_0. cbn [app].
        rewrite zdrop_app_l by lia. apply ztake_app_l. zlens. }
    intros ? ? [-> ->]. wp_step. eapply wp_mono; [|by apply wp_deliver]. cbv beta.
    intros [[[rc buf'] direct] s2] w2 (C2 & (b & -> & Hb) & Hdir & Hf & Hre & Hpl).
    pose proof (moved_owns _ _ _ _ C2) as Hown2. assert (wf (set_dec b s1)) as Hs2 by (by apply wf_set_dec).
    destruct (Z.eqb_spec rc 0) as [->|Hne]; cbn [negb].
    + rewrite Hpl in G1 by done. apply (wp_settle n p (Build_dec_resp ss de bufs)); try done.
      * intros E. apply Hre. by apply Z.eqb_eq.
      * by eapply gains_then_moved.
    + wp_step. apply (read_post_error _ _ _ _ _ _ _ _ _ plain); try done; [lia|by eapply gains_then_moved].
  - destruct (Z.eqb_spec ss SEC_E_INCOMPLETE_MESSAGE); cbn [negb].
    + wp_step. eapply wp_mono; [|by apply wp_make_room]. cbv beta.
      intros [g s2] w2 (C2 & Hs2 & F2 & _). pose proof (moved_owns _ _ _ _ C2) as Hown2. assert (gains w w2 []) as G2 by (by eapply gains_then_moved).
      pose proof F2 as (_ & _ & Hc2 & _ & Hd2 & _).
      destruct (Z.eqb_spec g 0); cbn [negb].
      * apply wp_receive; try done; [by rewrite Hc2|by apply (frame_read s1)|by rewrite Hd2].
      * wp_step. apply (read_post_error _ _ _ _ _ _ _ _ _ []); try done; [lia|by apply (frame_read s1)].
    + wp_step. apply (read_post_error _ _ _ _ _ _ _ _ _ []); try done; lia.
Qed.
End read.

(** ** Deadlines *)

Lemma sc_wp_deadline_of env timeout_ns w :
  sane env -> timeout_ns < 2 ^ 62 -> wp (deadline_of env timeout_ns) (fun _ w' => calm w w') w.
Proof.
  intros Hsane Ht. unfold deadline_of. destruct (Z.gtb_spec timeout_ns 0); [|wp_step; auto with calm].
  unfold now_ns. do 2 wp_step. apply (wp_ext env CTick). wp_step. unfold add64.
  pose proof (tick_range env Hsane (hist w)). change (2 ^ 62) with 4611686018427387904 in *.
  change (2 ^ 63) with 9223372036854775808.
  destruct ((_ <=? _) && (_ <? _)) eqn:E; [wp_step; auto with calm|].
  exfalso. apply andb_false_iff in E as [E|E]; bool_to_prop; lia.
Qed.

Lemma wf_set_deadline s d : wf s -> wf (set_deadline d s).
Proof. intros []. by split. Qed.

(** C2.  A read hands over the stream: the plaintext kept from before followed by what
    the records of this call decrypt to is what the caller gets followed by what is kept
    for the next call; an error hands over nothing and keeps it all (only an allocation
    failure may lose plaintext); an empty result means the end of the stream; no byte of
    the caller's memory outside the buffer's first [len] is written; the connection's
    invariant holds as before; and of the references nothing changes but the blocks of
    the connection's own buffers, each held exactly once before and after (a buffer that
    grows gives its old block back). *)
Theorem read_stream (env : environment call resp) (fuel : nat) (handle : Z) (buf : list Z)
  (len timeout_ns : Z) (s : https_sc) (R : gmultiset res) (w : world) (Hsane : sane env)
  (Hh : handle <> 0) (Hs : h_st w !! handle = Some s) (Hown : h_refs w = R ⊎ bufs s) (Hwf : wf s) (Hctx : have_ctx s = true)
  (Hlen : 0 < len <= zlen buf) (Ht : timeout_ns < 2 ^ 62) :
  wp (https_sc_read env fuel handle buf len timeout_ns)
    (fun '(code, buf', n, status) w' => exists s' d,
       h_st w' = <[handle := s']> (h_st w) /\ h_refs w' = R ⊎ bufs s' /\ wf s' /\
       cfg s' = cfg s /\ have_cred s' = have_cred s /\ have_ctx s' = true /\
       sizes s' = sizes s /\ out s' = out s /\
       0 <= n <= len /\ filled buf buf' len /\
       (code <> HTTPS_SC_OK -> n = 0) /\ (code = HTTPS_SC_OK -> n = 0 -> eof s' = true) /\
       decrypted env (h_hist w') = decrypted env (h_hist w) ++ d /\
       (code <> HTTPS_SC_ERR_ALLOC -> queue (dec s) ++ d = ztake n buf' ++ queue (dec s'))) w.
Proof.
  unfold https_sc_read. rewrite (proj2 (Z.eqb_neq handle 0)) by done. wp_step.
  eapply wp_load_obj; [done|]. rewrite Hctx. cbn [negb].
  destruct (Z.leb_spec len 0); [lia|]. pose proof (wf_dec s Hwf) as Hd.
  pose proof (zlen_queue _ _ Hd) as Lq. unfold pending.
  destruct (Z.gtb_spec (b_len (dec s)) (b_off (dec s))).
  - wp_step. eapply wp_mono; [|apply (wp_take s len w Hd); lia]. cbv beta.
    intros [bs s1] w1 (-> & Lb & b & -> & Hb & Hrf & Hq). pose proof (zlen_nonneg bs).
    wp_step. rewrite store_splice by lia. apply wp_lift_Done. wp_step.
    eapply wp_store_obj; [done|]. wp_step. exists (set_dec b s), [].
    destruct (filled_store buf 0 bs) as [F T]; [lia|lia|]. rewrite Z.add_0_l in F, T.
    split_and!; cbn; try done; try lia.
    + by apply (proj1 (owns_set_dec R b s w Hrf)).
    + by apply wf_set_dec.
    + apply (filled_weaken _ _ _ len F). lia.
    + by rewrite app_nil_r.
    + intros _. by rewrite app_nil_r, T, ztake_0.
  - wp_step. eapply wp_mono; [|by apply sc_wp_deadline_of]. cbv beta. intros d w1 C1.
    assert (queue (dec s) = []) as Hq by (apply (queue_nil SC_ENC_MAX); [done|destruct Hd; lia]).
    wp_step. eapply wp_mono; [|apply (sc_wp_read_loop env fuel Hsane R fuel handle (set_deadline d s) 0 buf len w1)];
      [|unfold owns; by rewrite (proj1 C1)|by apply wf_set_deadline|done..].
    cbv beta. intros [[[[code buf'] n] st] s'] w2 (Ho' & Hs' & F & Hn & Hf & Hne & Heof & dd & G & Hdd).
    destruct C1 as (R1 & S1 & new & H1 & F1). destruct G as (S2' & D2).
    wp_step. eapply wp_store_obj; [by rewrite S2', S1|]. wp_step. exists s', dd.
    destruct F as (? & ? & ? & ? & ? & _). cbn [h_st h_refs h_hist cfg have_cred have_ctx sizes out set_deadline] in *.
    split_and!; try done; try lia; try congruence.
    + rewrite D2, H1. by rewrite decrypted_calls.
    + rewrite Hq. apply Hdd.
Qed.

(** A connection with nothing kept and an empty input buffer. *)
Definition fresh_conn : https_sc := set_dec (Buf 22 (Some [1; 2; 3; 4]) 4 0 0) demo_conn.

Lemma fresh_wf : wf fresh_conn.
Proof.
  split; cbn; [split; cbn; [reflexivity|unfold SC_ENC_MAX; lia]|reflexivity|by eexists|lia|].
  split; cbn; [reflexivity|unfold SC_ENC_MAX; lia].
Qed.

Definition fresh_world : world := Host [] ({[+ RStore 67 +]} ⊎ bufs fresh_conn) {[16 := fresh_conn]}.

Lemma read_stream_witness :
  wp (https_sc_read demo_env 9 16 [0; 0; 0] 2 0)
    (fun '(code, buf', n, status) w' => exists s' d,
       h_st w' = <[16 := s']> (h_st fresh_world) /\ h_refs w' = {[+ RStore 67 +]} ⊎ bufs s' /\ wf s' /\
       cfg s' = cfg fresh_conn /\ have_cred s' = have_cred fresh_conn /\ have_ctx s' = true /\
       sizes s' = sizes fresh_conn /\ out s' = out fresh_conn /\
       0 <= n <= 2 /\ filled [0; 0; 0] buf' 2 /\
       (code <> HTTPS_SC_OK -> n = 0) /\ (code = HTTPS_SC_OK -> n = 0 -> eof s' = true) /\
       decrypted demo_env (h_hist w') = decrypted demo_env (h_hist fresh_world) ++ d /\
       (code <> HTTPS_SC_ERR_ALLOC -> queue (dec fresh_conn) ++ d = ztake n buf' ++ queue (dec s')))
    fresh_world.
Proof.
  apply (read_stream demo_env 9 16 [0; 0; 0] 2 0 fresh_conn {[+ RStore 67 +]} fresh_world sc_demo_sane).
  - lia.
  - reflexivity.
  - reflexivity.
  - apply fresh_wf.
  - reflexivity.
  - unfold zlen. cbn. lia.
  - lia.
Defined.

(** On that connection a read returns the one byte the peer sends. *)
Example read_runs :
  match https_sc_read demo_env 9 16 [0; 0; 0] 2 0 fresh_world with
  | Done ((code, buf', n, status), _) => (code, buf', n) = (HTTPS_SC_OK, [7; 0; 0], 1)
  | _ => False
  end.
Proof. vm_compute. reflexivity. Qed.
