(* ===== verification/SchannelTrust.v ===== *)
(** * The Schannel bridge: credentials, trust and set-up

    That the protocol masks follow the minimum version, that a chain is accepted only
    after every check, that importing a client certificate gives back every handle, and
    what a handshake leaves behind. *)

From stdpp Require Import gmap gmultiset.
From S2P Require Import Prelude Eff Host Schannel SchannelBuffers SchannelRecords SchannelRead.

(** ** Histories *)

(** [w'] is [w] with more calls made. *)
Definition later (w w' : world) : Prop := exists new, h_hist w' = new ++ h_hist w.

Lemma later_refl w : later w w.
Proof. by exists []. Qed.
Lemma later_push c w w' : later w w' -> later w (push c w').
Proof. intros [n H]. exists (c :: n). cbn. by rewrite H. Qed.
Lemma later_trans a b c : later a b -> later b c -> later a c.
Proof. intros [n H] [m G]. exists (m ++ n). by rewrite G, H, app_assoc. Qed.
Lemma later_state w h' R st R' st' : later w (Host h' R st) -> later w (Host h' R' st').
Proof. done. Qed.
#[export] Hint Resolve later_refl later_push : calm.
#[export] Hint Extern 2 (later _ (Host _ _ _)) => (eapply later_state; eassumption) : calm.

Lemma calm_later w w' : calm w w' -> later w w'.
Proof. intros (_ & _ & n & H & _). by exists n. Qed.

Lemma moved_later R w s' w' : moved R w s' w' -> later w w'.
Proof. intros (_ & _ & n & H & _). by exists n. Qed.

Section told.
Context (env : environment call resp).

(** Between [w] and [w'] the call [c] was made and answered [r]. *)
Definition told (w w' : world) (c : call) (r : resp c) : Prop :=
  exists a b, h_hist w' = a ++ c :: b ++ h_hist w /\ env (b ++ h_hist w) c = r.

Lemma told_now w w' c : later w w' -> told w (push c w') c (env (h_hist w') c).
Proof. intros [n H]. exists [], n. cbn. by rewrite H. Qed.
Lemma told_later w w1 w2 c r : told w w1 c r -> later w1 w2 -> told w w2 c r.
Proof. intros (a & b & H & E) [n G]. exists (n ++ a), b. by rewrite G, H, <- app_assoc. Qed.
Lemma told_earlier w w1 w2 c r : later w w1 -> told w1 w2 c r -> told w w2 c r.
Proof.
  intros [n G] (a & b & H & E). exists a, (b ++ n). rewrite H, G, <- !app_assoc.
  rewrite G in E. by split.
Qed.
Lemma told_state w h' R st R' st' c r : told w (Host h' R st) c r -> told w (Host h' R' st') c r.
Proof. done. Qed.

(** ** Trust *)

Definition ignored : Z :=
  Z.lor SC_TRUST_REVOCATION_STATUS_UNKNOWN
    (Z.lor SC_TRUST_IS_OFFLINE_REVOCATION SC_TRUST_IS_NOT_TIME_NESTED).

(** The policy accepted the chain for the host, and the chain's own status has nothing
    but the three flags the code lets pass. *)
Definition passes (w w' : world) (s : https_sc) (chain : Z) : Prop :=
  told w w' (CVerifyPolicy chain (hostw (cfg s))) (true, 0) /\
  exists t, told w w' (CChainStatus chain) t /\ Z.ldiff t ignored = 0.

(** A chain for the certificate was built, by the default engine or by one whose only
    roots are the connection's own, and passes. *)
Definition trusted (w w' : world) (s : https_sc) (cert : Z) (exclusive : bool) : Prop :=
  exists engine chain, chain <> 0 /\
    told w w' (CGetChain engine cert (castore (cfg s))) chain /\ passes w w' s chain /\
    if exclusive
    then castore (cfg s) <> 0 /\ engine <> 0 /\
         told w w' (CCreateEngine (castore (cfg s)) SC_CHAIN_EXCLUSIVE_ENABLE_CA_FLAG) engine
    else engine = 0.

(** The peer's certificate is trusted the way the connection asks for. *)
Definition verified (w w' : world) (p : Z) (s : https_sc) : Prop :=
  exists cert, cert <> 0 /\ told w w' (CQueryRemoteCert p) (SEC_E_OK, cert) /\
    (trusted w w' s cert true \/ (ca_only (cfg s) = false /\ trusted w w' s cert false)).

Lemma passes_later w w1 w2 s chain : passes w w1 s chain -> later w1 w2 -> passes w w2 s chain.
Proof. intros (H & t & T & E) L. split; [by eapply told_later|]. exists t. split; [by eapply told_later|done]. Qed.
Lemma trusted_later w w1 w2 s cert x : trusted w w1 s cert x -> later w1 w2 -> trusted w w2 s cert x.
Proof.
  intros (e & c & Hc & G & P & X) L. exists e, c. split_and!;
    [done|by eapply told_later|by eapply passes_later|].
  destruct x; [|done]. destruct X as (? & ? & ?). split_and!; [done|done|by eapply told_later].
Qed.
Lemma trusted_earlier w w1 w2 s cert x : later w w1 -> trusted w1 w2 s cert x -> trusted w w2 s cert x.
Proof.
  intros L (e & c & Hc & G & (P & t & T & E) & X). exists e, c. split_and!;
    [done|by eapply told_earlier| |].
  - split; [by eapply told_earlier|]. exists t. split; [by eapply told_earlier|done].
  - destruct x; [|done]. destruct X as (? & ? & ?). split_and!; [done|done|by eapply told_earlier].
Qed.

(** The same references and memory, and calls added. *)
Definition kept (w w' : world) : Prop := h_refs w' = h_refs w /\ h_st w' = h_st w /\ later w w'.

Lemma kept_trans a b c : kept a b -> kept b c -> kept a c.
Proof. intros (?&?&?) (?&?&?). split_and!; [congruence..|by eapply later_trans]. Qed.
Lemma kept_push a b c : kept a b -> kept a (push c b).
Proof. intros (?&?&?). split_and!; [done..|by apply later_push]. Qed.
Lemma kept_refl a : kept a a.
Proof. split_and!; auto with calm. Qed.

Lemma wp_check_policy s chain status w :
  wp (check_policy env s chain status)
    (fun '(rc, _) w' => kept w w' /\ (rc = 0 -> passes w w' s chain)) w.
Proof.
  unfold check_policy. wp_step. apply (wp_ext env (CVerifyPolicy chain (hostw (cfg s)))).
  pose proof (told_now w w (CVerifyPolicy chain (hostw (cfg s))) (later_refl w)) as T1.
  assert (kept w (push (CVerifyPolicy chain (hostw (cfg s))) w)) as K1 by apply kept_push, kept_refl.
  set (w1 := push _ w) in *. clearbody w1. cbn [hist host_traced].
  destruct (env (h_hist w) _) as [ok err]. destruct ok; cbn [negb].
  2:{ wp_step. wp_step. wp_step. split; [by apply kept_push|done]. }
  destruct (Z.eqb_spec err 0) as [->|]; cbn [negb]; [|wp_step; split; [done|done]].
  wp_step. apply (wp_ext env (CChainStatus chain)). cbv zeta. fold ignored. cbn [hist host_traced].
  pose proof (told_now w w1 (CChainStatus chain) (proj2 (proj2 K1))) as T2.
  destruct (Z.eqb_spec (Z.ldiff (env (h_hist w1) (CChainStatus chain)) ignored) 0); cbn [negb]; wp_step.
  - split; [by apply kept_push|]. intros _. split; [|eauto].
    eapply told_later; [exact T1|]. apply later_push, later_refl.
  - split; [by apply kept_push|done].
Qed.

Lemma held_nz (mk : Z -> res) p : p <> 0 -> held mk p = {[+ mk p +]}.
Proof. intros H. unfold held. by rewrite (proj2 (Z.eqb_neq p 0)). Qed.
Lemma held_0 (mk : Z -> res) : held mk 0 = ∅.
Proof. done. Qed.

(** The engine, where there is one, is given back on every path. *)
Lemma wp_verify_built s cert engine status R w :
  h_refs w = R ⊎ held REngine engine ->
  wp (verify_built env s cert engine status)
    (fun '(rc, _) w' => h_refs w' = R /\ h_st w' = h_st w /\ later w w' /\
       (rc = 0 -> exists chain, chain <> 0 /\
          told w w' (CGetChain engine cert (castore (cfg s))) chain /\ passes w w' s chain)) w.
Proof.
  intros HR. unfold verify_built. wp_step. apply wp_owning.
  apply (wp_ext env (CGetChain engine cert (castore (cfg s)))).
  pose proof (told_now w w (CGetChain engine cert (castore (cfg s))) (later_refl w)) as T.
  cbn [hist host_traced resp h_hist h_refs h_st push] in *.
  set (chain := env (h_hist w) _) in *. clearbody chain.
  destruct (Z.eqb_spec chain 0) as [->|Hc].
  { rewrite held_0, right_id_L by apply _. do 2 wp_step. wp_step.
    eapply wp_release_nz; [exact HR|]. wp_step. split_and!; try done. by eexists [_; _]. }
  wp_step. eapply wp_mono; [|apply wp_check_policy]. cbv beta.
  intros [rc st] w1 ((R1 & S1 & L1) & P). cbn [h_refs h_st] in *. wp_step.
  rewrite held_nz in R1 by done.
  apply wp_release; [rewrite R1; multiset_solver|]. wp_step.
  eapply (wp_release_nz _ _ _ _ R). { cbn. rewrite R1, HR. multiset_solver. }
  wp_step. cbn [h_hist h_st]. assert (later w w1) as L2.
  { eapply later_trans; [|exact L1]. eexists [_]. done. }
  split_and!; [done|done|exact L2|]. intros E. exists chain. split_and!; [done| |].
  - eapply told_later; [exact T|]. exact L1.
  - destruct (P E) as (P1 & t & P2 & Pt).
    split; [|exists t; split; [|done]]; (eapply told_earlier; [|eassumption]); by eexists [_].
Qed.

Lemma wp_verify_with s cert x status w :
  wp (verify_with env s cert x status)
    (fun '(rc, _) w' => kept w w' /\ (rc = 0 -> trusted w w' s cert x)) w.
Proof.
  unfold verify_with. destruct x.
  - destruct (Z.eqb_spec (castore (cfg s)) 0) as [E|E]; [wp_step; split; [apply kept_refl|done]|].
    wp_step. apply wp_owning.
    apply (wp_ext env (CCreateEngine (castore (cfg s)) SC_CHAIN_EXCLUSIVE_ENABLE_CA_FLAG)).
    pose proof (told_now w w (CCreateEngine (castore (cfg s)) SC_CHAIN_EXCLUSIVE_ENABLE_CA_FLAG)
      (later_refl w)) as T.
    cbn [hist host_traced resp h_hist h_refs h_st push] in *.
    set (engine := env (h_hist w) _) in *. clearbody engine.
    destruct (Z.eqb_spec engine 0) as [->|He].
    { rewrite held_0, right_id_L by apply _. do 2 wp_step. wp_step. split; [|done].
      split_and!; try done. by eexists [_; _]. }
    eapply wp_mono; [|apply (wp_verify_built s cert engine status (h_refs w)); done]. cbv beta.
    intros [rc st] w1 (R1 & S1 & L1 & P).
    assert (later w (Host (CCreateEngine (castore (cfg s)) SC_CHAIN_EXCLUSIVE_ENABLE_CA_FLAG :: h_hist w)
      (h_refs w) (h_st w))) as L0 by (by eexists [_]).
    assert (later w w1) as L2 by (eapply later_trans; [exact L0|exact L1]).
    split; [by split_and!|]. intros Erc. destruct (P Erc) as (chain & Hc & G & P1 & t & P2 & Pt).
    exists engine, chain. split_and!; [done| | |done|done|].
    + eapply told_earlier; [exact L0|exact G].
    + split; [|exists t; split; [|done]]; (eapply told_earlier; [exact L0|eassumption]).
    + eapply told_later; [exact T|exact L1].
  - eapply wp_mono; [|apply (wp_verify_built s cert 0 status (h_refs w))].
    2:{ by rewrite held_0, right_id_L by apply _. }
    cbv beta. intros [rc st] w1 (R1 & S1 & L1 & P). split; [by split_and!|]. intros E.
    destruct (P E) as (chain & Hc & G & P1). by exists 0, chain.
Qed.

Lemma wp_verify_chain p s status w :
  wp (verify_chain env p s status)
    (fun '(rc, _) w' => kept w w' /\ (rc = 0 -> skip_verify (cfg s) = true \/ verified w w' p s)) w.
Proof.
  unfold verify_chain. destruct (skip_verify (cfg s)); [wp_step; split; [apply kept_refl|auto]|].
  wp_step. apply (wp_ext env (CQueryRemoteCert p)).
  pose proof (told_now w w (CQueryRemoteCert p) (later_refl w)) as T.
  assert (kept w (push (CQueryRemoteCert p) w)) as K1 by apply kept_push, kept_refl.
  set (w1 := push _ w) in *. clearbody w1. cbn [hist host_traced].
  destruct (env (h_hist w) (CQueryRemoteCert p)) as [ss cert].
  destruct (Z.eqb_spec ss SEC_E_OK) as [->|]; cbn [negb orb]; [|wp_step; split; done].
  destruct (Z.eqb_spec cert 0) as [->|Hc]; [wp_step; split; done|].
  wp_step. apply wp_acquire. wp_step.
  set (w2 := Host (h_hist w1) (h_refs w1 ⊎ {[+ RCert cert +]}) (h_st w1)).
  assert (later w w2) as L2 by apply K1.
  assert (forall rc (status : Z) w', kept w2 w' -> (rc = 0 -> trusted w2 w' s cert true \/
      (ca_only (cfg s) = false /\ trusted w2 w' s cert false)) ->
    wp (release (RCert cert);; mret (rc, status))
      (fun '(rc, _) w' => kept w w' /\ (rc = 0 -> false = true \/ verified w w' p s)) w') as Fin.
  { intros rc st w' (R & S & L) H. wp_step. unfold w2 in R. cbn in R.
    apply wp_release; [rewrite R; multiset_solver|]. wp_step. destruct K1 as (R1 & S1 & L1). split.
    - split_and!; cbn; [rewrite R, R1; multiset_solver|by rewrite S|]. by eapply later_trans.
    - intros E. right. exists cert. split; [done|]. split; [by eapply told_later; [exact T|]|].
      destruct (H E) as [X|[X Y]]; [left|right; split; [done|]]; by eapply (trusted_earlier w w2). }
  apply (wp_mono _ (fun '(rc, _) w' => kept w2 w' /\ (rc = 0 -> trusted w2 w' s cert true \/
      (ca_only (cfg s) = false /\ trusted w2 w' s cert false)))).
  { intros [rc st] w' [K H]. by apply Fin. }
  destruct (ca_only (cfg s)).
  - eapply wp_mono; [|apply wp_verify_with]. cbv beta. intros [rc st] w' [K H]. split; auto.
  - wp_step. eapply wp_mono; [|apply wp_verify_with]. cbv beta. intros [rc st] w3 [K H].
    destruct (negb (rc =? 0) && negb (castore (cfg s) =? 0)); [|wp_step; split; auto].
    eapply wp_mono; [|apply wp_verify_with]. cbv beta. intros [rc2 st2] w4 [K4 H4].
    split; [by eapply kept_trans|]. intros E. left. eapply trusted_earlier; [apply K|auto].
Qed.
End told.

(** ** Protocol versions *)

(** The protocols Schannel knows, with their bit in the client masks. *)
Definition protocols : list (Z * Z) :=
  [(0x0002, SC_PROT_SSL2_CLIENT); (0x0300, SC_PROT_SSL3_CLIENT); (0x0301, SC_PROT_TLS1_0_CLIENT);
   (0x0302, SC_PROT_TLS1_1_CLIENT); (HTTPS_SC_TLS12, SC_PROT_TLS1_2_CLIENT);
   (HTTPS_SC_TLS13, SC_PROT_TLS1_3_CLIENT)].

(** The oldest version to negotiate: the one asked for, between TLS 1.2 and TLS 1.3. *)
Definition floor_version (min_version : Z) : Z := Z.min HTTPS_SC_TLS13 (Z.max HTTPS_SC_TLS12 min_version).

Definition negotiates (c : cred_params) (bit : Z) : bool :=
  match c with
  | Modern _ _ _ disabled => Z.land disabled bit =? 0
  | Legacy _ _ _ enabled => negb (Z.land enabled bit =? 0)
  end.

(** A credential that checks nothing by itself, presents the configured certificate and
    no other, and negotiates the versions from the floor on and no other. *)
Definition fits (s : https_sc) (min_version : Z) (c : cred_params) : Prop :=
  (match c with Modern _ f cert _ | Legacy _ f cert _ =>
     f = cred_flags /\ cert = (if clientcert (cfg s) =? 0 then None else Some (clientcert (cfg s))) end) /\
  forall v bit, (v, bit) ∈ protocols -> negotiates c bit = (floor_version min_version <=? v).

(** Six cases. *)
Lemma masks_fit min_version v bit :
  (v, bit) ∈ protocols ->
  (Z.land (disabled_below min_version) bit =? 0) = (floor_version min_version <=? v) /\
  negb (Z.land (enabled_from min_version) bit =? 0) = (floor_version min_version <=? v).
Proof.
  intros H. unfold disabled_below, enabled_from, floor_version.
  assert (Z.min HTTPS_SC_TLS13 (Z.max HTTPS_SC_TLS12 min_version) =
    if min_version >=? HTTPS_SC_TLS13 then HTTPS_SC_TLS13 else HTTPS_SC_TLS12) as ->.
  { unfold HTTPS_SC_TLS13, HTTPS_SC_TLS12. destruct (Z.geb_spec min_version 0x304); lia. }
  unfold protocols in H. rewrite !elem_of_cons, elem_of_nil in H.
  destruct (min_version >=? HTTPS_SC_TLS13);
    destruct H as [H|[H|[H|[H|[H|[H|[]]]]]]]; injection H as -> ->; vm_compute; auto.
Qed.

Lemma wp_acquire_cred env p s mv w :
  wp (acquire_cred env p s mv)
    (fun '(ss, s') w' => later w w' /\ h_st w' = h_st w /\
       if ss =? SEC_E_OK
       then s' = set_have_cred s /\ h_refs w' = h_refs w ⊎ {[+ RCred p +]} /\
            exists c, told env w w' (CAcquire p c) SEC_E_OK /\ fits s mv c
       else s' = s /\ h_refs w' = h_refs w) w.
Proof.
  unfold acquire_cred. cbv zeta. set (cert := if clientcert (cfg s) =? 0 then None else _).
  set (m := Modern _ _ _ _). set (l := Legacy _ _ _ _).
  assert (fits s mv m /\ fits s mv l) as [Fm Fl].
  { split; (split; [done|]); intros v bit H; by apply masks_fit. }
  clearbody m l. wp_step. apply (wp_ext env (CAcquire p m)).
  pose proof (told_now env w w (CAcquire p m) (later_refl w)) as T1. cbn [hist host_traced resp].
  assert (later w (push (CAcquire p m) w)) as L1 by auto with calm. set (w1 := push (CAcquire p m) w) in *.
  assert (h_refs w1 = h_refs w /\ h_st w1 = h_st w) as [R1 S1] by done. clearbody w1.
  destruct (Z.eqb_spec (env (h_hist w) (CAcquire p m)) SEC_E_OK) as [E|E].
  { rewrite E in T1. wp_step. apply wp_acquire. wp_step. split_and!; [done|done|]. cbn.
    split_and!; [done|by rewrite R1|by exists m]. }
  wp_step. apply (wp_ext env (CAcquire p l)).
  pose proof (told_now env w w1 (CAcquire p l) L1) as T2. cbn [hist host_traced resp].
  destruct (Z.eqb_spec (env (h_hist w1) (CAcquire p l)) SEC_E_OK) as [E2|E2].
  - rewrite E2 in *. wp_step. apply wp_acquire. wp_step.
    split_and!; [by apply (later_push (CAcquire p l))|done|]. cbn. split_and!; [done|by rewrite R1|by exists l].
  - wp_step. split_and!; [by apply later_push|done|]. by rewrite (proj2 (Z.eqb_neq _ _) E2).
Qed.

(** ** Client certificates *)

Section clientcert.
Context (env : environment call resp).

(** The references behind a client certificate handle. *)
Definition cc_refs (h : option (Z * sc_clientcert)) : gmultiset res :=
  match h with
  | None => ∅
  | Some (p, cc) => {[+ RBlock p +]} ⊎ {[+ RCert (cc_cert cc) +]} ⊎ {[+ RNCrypt (cc_prov cc) +]}
  end.

Lemma wp_unwrap_pkcs8 der w :
  wp (unwrap_pkcs8 env der)
    (fun '(rc, copy, key) w' => h_refs w' = h_refs w ⊎ held RBlock copy /\ h_st w' = h_st w /\
       (rc <> 0 -> copy = 0)) w.
Proof.
  unfold unwrap_pkcs8. do 2 wp_step. destruct r as [[info alg] key].
  destruct (Z.eqb_spec info 0); [wp_step; split_and!; [by rewrite held_0, right_id_L by apply _|done..]|].
  wp_step. apply wp_acquire. cbn [h_hist h_refs h_st push host_traced].
  destruct (negb _).
  { wp_step. give. wp_step. split_and!; [cbn; clear; multiset_solver|done..]. }
  wp_step. apply wp_owning. wp_step. cbn [h_hist h_refs h_st push host_traced]. wp_step.
  give (h_refs w ⊎ held RBlock r).
  destruct (Z.eqb_spec r 0) as [->|]; wp_step; by split_and!.
Qed.

Lemma wp_clientcert_new cd kd cert_len key_len pk w :
  (forall l, cd = Some l -> cert_len <= zlen l) -> (forall l, kd = Some l -> key_len <= zlen l) ->
  (forall h, (env h CNCryptOpen).1 = 0 -> (env h CNCryptOpen).2 <> 0) ->
  wp (https_sc_clientcert_new env cd kd cert_len key_len pk)
    (fun '(code, hnd, status) w' => h_refs w' = h_refs w ⊎ cc_refs hnd /\ h_st w' = h_st w /\
       (code = HTTPS_SC_OK <-> is_Some hnd) /\
       forall p cc, hnd = Some (p, cc) -> p <> 0 /\ cc_cert cc <> 0 /\ cc_prov cc <> 0) w.
Proof.
  intros Hcd Hkd Hopen.
  set (post := fun '(code, hnd, status) (w' : world) => h_refs w' = h_refs w ⊎ cc_refs hnd /\ h_st w' = h_st w /\
    (code = HTTPS_SC_OK <-> is_Some hnd) /\
    forall p cc, hnd = Some (p, cc) -> p <> 0 /\ cc_cert cc <> 0 /\ cc_prov cc <> 0).
  assert (forall code (st : Z) w', code <> HTTPS_SC_OK -> h_refs w' = h_refs w -> h_st w' = h_st w ->
    wp (mret (code, None, st)) post w') as Err.
  { intros code st w' Hc R S. wp_step. unfold post. split_and!; [|done| |done].
    - cbn. rewrite R. multiset_solver.
    - split; [done|]. by intros []. }
  unfold https_sc_clientcert_new. destruct cd as [cd|]; [|by apply Err]. destruct kd as [kd|]; [|by apply Err].
  specialize (Hcd cd eq_refl). specialize (Hkd kd eq_refl).
  destruct ((cert_len <=? 0) || (key_len <=? 0)) eqn:El; [by apply Err|].
  apply orb_false_iff in El as [E1 E2]. bool_to_prop.
  wp_step. rewrite load_Done by lia. apply wp_lift_Done. wp_step. rewrite load_Done by lia. apply wp_lift_Done.
  wp_step. apply wp_owning. wp_step. cbn [h_hist h_refs h_st push host_traced]. rename r into cert.
  destruct (Z.eqb_spec cert 0) as [->|Hcert].
  { do 2 wp_step. apply Err; [done|cbn; multiset_solver|done]. }
  rewrite held_nz by done. wp_step.
  apply (wp_mono _ (fun '(rc, u, key) w' => h_refs w' = h_refs w ⊎ {[+ RCert cert +]} ⊎ held RBlock u /\
    h_st w' = h_st w /\ (rc <> 0 -> u = 0))).
  2:{ destruct pk; [|wp_step; split_and!; [cbn; multiset_solver|done..]].
      eapply wp_mono; [|apply wp_unwrap_pkcs8]. by intros [[? ?] ?] ?. }
  intros [[rc u] key] w1 (R1 & S1 & Hu).
  destruct (Z.eqb_spec rc 0) as [->|Hrc]; cbn [negb].
  2:{ rewrite Hu, held_0 in R1 by done. wp_step.
      apply wp_release; [rewrite R1; multiset_solver|]. wp_step.
      apply (wp_mono _ (fun _ w' => h_refs w' = h_refs w /\ h_st w' = h_st w)).
      { intros st w2 [R2 S2']. by apply Err. }
      destruct (rc =? -2); [wp_step|do 3 wp_step]; cbn; (split; [rewrite R1; multiset_solver|done]). }
  clear Hu. do 2 wp_step. destruct r as [blob bytes]. wp_step.
  apply (wp_mono _ (fun _ w' => h_refs w' = (h_refs w ⊎ {[+ RCert cert +]} ⊎ held RLocal blob) ⊎ held RBlock u /\
    h_st w' = h_st w)).
  2:{ unfold held at 1. destruct (blob =? 0); [wp_step|apply wp_acquire]; cbn; (split; [|done]);
        rewrite R1; multiset_solver. }
  intros _ w2 [R2 S2']. wp_step. eapply wp_release_nz; [exact R2|].
  destruct (Z.eqb_spec blob 0) as [->|Hb].
  { do 3 wp_step. rewrite held_0. give (h_refs w). wp_step. by apply Err. }
  rewrite held_nz by done. wp_step. apply (wp_ext env CNCryptOpen).
  match goal with |- wp (let '(_, _) := ?e in _) _ _ => assert (e.1 = 0 -> e.2 <> 0) as Ho by apply Hopen;
    destruct e as [ss prov] end. cbn [fst snd] in Ho. cbn [h_hist h_refs h_st push host_traced].
  destruct (Z.eqb_spec ss 0) as [->|]; cbn [negb].
  2:{ wp_step. give. wp_step. give. by apply Err. }
  specialize (Ho eq_refl). wp_step. apply wp_acquire. do 2 wp_step. destruct r as [ss key'].
  cbn [h_hist h_refs h_st push host_traced]. wp_step.
  give (h_refs w ⊎ {[+ RCert cert +]} ⊎ {[+ RNCrypt prov +]}).
  destruct (Z.eqb_spec ss 0) as [->|]; cbn [negb].
  2:{ wp_step. give. wp_step. give. by apply Err. }
  wp_step. apply wp_acquire. do 2 wp_step. cbn [h_hist h_refs h_st push host_traced].
  destruct r; cbn [negb].
  2:{ do 2 wp_step. cbn [h_hist h_refs h_st push host_traced]. wp_step. give. wp_step. give. wp_step. give.
      by apply Err. }
  wp_step. give. wp_step. apply wp_owning. wp_step. cbn [h_hist h_refs h_st push host_traced].
  destruct (Z.eqb_spec r 0) as [->|Hr].
  { wp_step. give (h_refs w ⊎ {[+ RNCrypt prov +]}). wp_step. give. by apply Err. }
  rewrite held_nz by done. wp_step. unfold post. split_and!; [cbn [cc_refs cc_cert cc_prov h_refs]; clear; multiset_solver|done|done|].
  intros p cc E. by injection E as <- <-.
Qed.
End clientcert.

Lemma wp_clientcert_free hnd R w :
  h_refs w = R ⊎ cc_refs hnd ->
  (forall p cc, hnd = Some (p, cc) -> p <> 0 /\ cc_cert cc <> 0 /\ cc_prov cc <> 0) ->
  wp (https_sc_clientcert_free hnd) (fun _ w' => h_refs w' = R /\ h_st w' = h_st w) w.
Proof.
  intros HR Hnz. unfold https_sc_clientcert_free. destruct hnd as [[p cc]|].
  - destruct (Hnz p cc eq_refl) as (Hp & Hc & Hv). cbn [cc_refs] in HR. wp_step.
    eapply (wp_release_nz _ _ _ _ (R ⊎ {[+ RBlock p +]} ⊎ {[+ RNCrypt (cc_prov cc) +]})).
    { rewrite HR, held_nz by done. clear. multiset_solver. }
    wp_step. eapply (wp_release_nz _ _ _ _ (R ⊎ {[+ RBlock p +]})); [by rewrite held_nz|]. by give.
  - wp_step. cbn in HR. split; [rewrite HR; multiset_solver|done].
Qed.

(** ** Set-up and teardown *)

(** The references a record stands for: its context and credential, if it has them,
    and the blocks of its buffers and host name. *)
Definition conn_handles (p : Z) (s : https_sc) : gmultiset res :=
  (if have_ctx s then {[+ RCtx p +]} else ∅) ⊎ (if have_cred s then {[+ RCred p +]} else ∅).
Definition conn_refs (p : Z) (s : https_sc) : gmultiset res := conn_handles p s ⊎ bufs s.

Lemma owns_conn R p s w : owns (R ⊎ conn_handles p s) s w -> h_refs w = R ⊎ conn_refs p s.
Proof. unfold owns, conn_refs. intros ->. clear. multiset_solver. Qed.

Lemma sc_wp_free_state p s R w :
  p <> 0 -> h_st w !! p = Some s -> h_refs w = R ⊎ conn_refs p s ->
  wp (free_state p) (fun _ w' => h_refs w' = R /\ h_st w' = delete p (h_st w) /\ later w w') w.
Proof.
  intros Hp Hs HR. unfold free_state. rewrite (proj2 (Z.eqb_neq p 0)) by done. wp_step.
  eapply wp_load_obj; [done|]. unfold conn_refs, conn_handles in HR. wp_step.
  set (C := if have_cred s then {[+ RCred p +]} else ∅) in *.
  apply (wp_mono _ (fun _ w' => w' = Host (h_hist w) (R ⊎ bufs s ⊎ C) (h_st w))).
  2:{ clearbody C. destruct (have_ctx s).
      - eapply (wp_give _ (R ⊎ bufs s ⊎ C)); [rewrite HR; clear; multiset_solver|done].
      - wp_step. assert (h_refs w = R ⊎ bufs s ⊎ C) as <- by (rewrite HR; clear; multiset_solver). by destruct w. }
  intros _ w1 ->. wp_step.
  apply (wp_mono _ (fun _ w' => w' = Host (h_hist w) (R ⊎ bufs s) (h_st w))).
  2:{ subst C. destruct (have_cred s); [by give|]. wp_step. f_equal. cbn [h_refs]. clear. multiset_solver. }
  intros _ w1 ->. unfold bufs, buf_refs. set (H := blk (hostw_at (cfg s)) (hostw (cfg s))).
  wp_step. eapply (wp_c_free _ _ (R ⊎ blk (b_at (dec s)) (b_ptr (dec s)) ⊎ blk (b_at (out s)) (b_ptr (out s)) ⊎ H));
    [cbn; clear; multiset_solver|].
  wp_step. eapply (wp_c_free _ _ (R ⊎ blk (b_at (out s)) (b_ptr (out s)) ⊎ H)); [cbn; clear; multiset_solver|].
  wp_step. eapply (wp_c_free _ _ (R ⊎ H)); [cbn; clear; multiset_solver|].
  wp_step. eapply (wp_c_free _ _ R); [reflexivity|].
  eapply wp_drop_obj; [done|]. split_and!; [done|done|by exists []].
Qed.

Lemma sc_wp_fail p s0 s status code R w :
  p <> 0 -> h_st w !! p = Some s0 -> h_refs w = R ⊎ conn_refs p s ->
  wp (fail p s status code)
    (fun r w' => hs_code r = code /\ hs_out r = 0 /\ h_refs w' = R /\ h_st w' = delete p (h_st w)) w.
Proof.
  intros Hp Hs HR. unfold fail. wp_step. eapply wp_store_obj; [done|]. wp_step.
  eapply wp_mono; [|apply (sc_wp_free_state p s R); cbn; [done|apply lookup_insert_eq|done]].
  cbv beta. intros _ w1 (R1 & S1 & _). wp_step. split_and!; [done..|]. rewrite S1. cbn. apply delete_insert_eq.
Qed.

(** The output buffer has room for a record of the largest size. *)
Record out_ok (s : https_sc) : Prop := {
  oo_ptr : exists l, b_ptr (out s) = Some l /\ zlen l = b_cap (out s);
  oo_hdr : 0 <= cbHeader (sizes s);
  oo_max : 0 < cbMaximumMessage (sizes s);
  oo_trl : 0 <= cbTrailer (sizes s);
  oo_room : cbHeader (sizes s) + cbMaximumMessage (sizes s) + cbTrailer (sizes s) <= b_cap (out s);
  oo_cap : b_cap (out s) <= SC_ENC_MAX
}.

Section connect.
Context (env : environment call resp) (fuel : nat) (Hsane : sane env).

(** What a handshake of the record [p] ends with: a connection, with its references
    and what was checked; or nothing. *)
Definition connected (w0 w : world) (p : Z) (s0 : https_sc) (mv : Z) (r : hs_result) (w' : world) : Prop :=
  (hs_code r = HTTPS_SC_OK -> hs_out r = p /\ later w w' /\
    (exists s', h_st w' = <[p := s']> (h_st w0) /\
       h_refs w' = h_refs w0 ⊎ {[+ RCtx p +]} ⊎ {[+ RCred p +]} ⊎ bufs s' /\ wf s' /\ out_ok s' /\ cfg s' = cfg s0 /\
       have_ctx s' = true /\ have_cred s' = true /\ deadline_ns s' = 0) /\
    (exists c, told env w0 w' (CAcquire p c) SEC_E_OK /\ fits s0 mv c) /\
    (skip_verify (cfg s0) = true \/ verified env w0 w' p s0)) /\
  (hs_code r <> HTTPS_SC_OK -> hs_out r = 0 /\ h_refs w' = h_refs w0 /\ h_st w' = delete p (h_st w0)).

Lemma connected_fail w0 wm p s0 mv s1 s status code w :
  p <> 0 -> code <> HTTPS_SC_OK -> h_st w = <[p := s1]> (h_st w0) ->
  h_refs w = h_refs w0 ⊎ conn_refs p s ->
  wp (fail p s status code) (connected w0 wm p s0 mv) w.
Proof.
  intros Hp Hc S R. eapply wp_mono; [|apply (sc_wp_fail p s1 s status code (h_refs w0)); [done| |done]].
  - intros r w' (E1 & E2 & R' & S'). split; [by rewrite E1|]. intros _. split_and!; [done..|].
    rewrite S', S. apply delete_insert_eq.
  - rewrite S. apply lookup_insert_eq.
Qed.

Lemma verified_config w w' p a b : cfg a = cfg b -> verified env w w' p a -> verified env w w' p b.
Proof. intros E. unfold verified, trusted, passes. by rewrite E. Qed.
Lemma verified_widen w0 w1 w2 w3 p s :
  later w0 w1 -> later w2 w3 -> verified env w1 w2 p s -> verified env w0 w3 p s.
Proof.
  intros L1 L2 (cert & Hc & T & V). exists cert. split; [done|]. split.
  - eapply told_later; [|done]. by eapply told_earlier.
  - destruct V as [V|[X V]]; [left|right; split; [done|]];
      (eapply trusted_later; [|done]); by eapply trusted_earlier.
Qed.

Lemma sock_class_err c : sock_class c <> HTTPS_SC_OK.
Proof. apply sock_class_not. Qed.

Lemma sc_wp_handshake_connect w0 s1 p s mv w :
  p <> 0 -> h_st w = <[p := s1]> (h_st w0) -> owns (h_refs w0) s w -> later w0 w ->
  wf s -> have_ctx s = false -> have_cred s = false -> buf_ok SC_ENC_MAX (out s) ->
  wp (handshake_connect env fuel p s mv) (connected w0 w p s mv) w.
Proof.
  intros Hp S0 R0 L0 Hs Hctx Hcred Hout. unfold handshake_connect. wp_step.
  eapply wp_mono; [|apply wp_acquire_cred]. cbv beta. intros [ss sa] wa (La & Sa & Ha).
  assert (later w0 wa) as L1 by (by eapply later_trans).
  destruct (ss =? SEC_E_OK) eqn:Ess; cbn [negb].
  2:{ destruct Ha as [-> Ra]. eapply connected_fail; [done|done|by rewrite Sa|].
      apply owns_conn. unfold owns, conn_handles. rewrite Hctx, Hcred, Ra, R0. clear. multiset_solver. }
  destruct Ha as (-> & Ra & c & Tc & Fc). rewrite R0 in Ra. rewrite S0 in Sa. clear Ess.
  wp_step. assert (wf (set_have_cred s)) as Hsa by (destruct Hs; by split).
  assert (owns (h_refs w0 ⊎ {[+ RCred p +]}) (set_have_cred s) wa) as Oa.
  { unfold owns. rewrite Ra. unfold bufs. cbn. clear. multiset_solver. }
  eapply wp_mono; [|apply (wp_do_handshake env fuel Hsane _ p (set_have_cred s) 0 wa Hsa Oa)].
  intros [[rc st] s2] w2 ((R2 & S2' & n2 & H2 & _) & Hs2 & F2 & Hok). cbn in F2.
  destruct F2 as (Cf & Cr & Sz & Dc & Ot & Dl & _).
  assert (owns (h_refs w0 ⊎ conn_handles p s2) s2 w2) as R2'.
  { unfold owns. rewrite R2. unfold conn_handles, new_ctx. cbn. rewrite Cr, Hctx, andb_true_r.
    destruct (have_ctx s2); clear; multiset_solver. }
  assert (later wa w2) as Lb by (by exists n2). assert (later w0 w2) as L2 by (by eapply later_trans).
  assert (h_st w2 = <[p := s1]> (h_st w0)) as S2'' by (by rewrite S2', Sa). clear R2 S2'.
  destruct (Z.eqb_spec rc HTTPS_SC_OK) as [->|Hrc]; cbn [negb]; [|eapply connected_fail; [done..|by apply owns_conn]].
  specialize (Hok eq_refl). wp_step.
  eapply wp_mono; [|apply wp_verify_chain]. cbv beta. intros [v st2] w3 ((R3 & S3 & L3) & Hv).
  rewrite S2'' in S3.
  assert (owns (h_refs w0 ⊎ conn_handles p s2) s2 w3) as R3' by (unfold owns; by rewrite R3).
  destruct (Z.eqb_spec v 0) as [->|Hvn]; cbn [negb]; [|eapply connected_fail; [done..|by apply owns_conn]].
  specialize (Hv eq_refl). rewrite Cf in Hv. wp_step. apply (wp_ext env (CQuerySizes p)).
  pose proof (stream_sizes_ok env Hsane (hist w3) p) as Hz. cbv zeta in Hz.
  match goal with |- wp (let '(_, _) := ?e in _) _ _ =>
    change e with (env (hist w3) (CQuerySizes p)); destruct (env (hist w3) (CQuerySizes p)) as [sq z] end.
  cbn [snd] in Hz. destruct Hz as (Hz1 & Hz2 & Hz3 & Hz4).
  assert (later w0 (push (CQuerySizes p) w3)) as L4 by (apply later_push; by eapply later_trans).
  assert (later w3 (push (CQuerySizes p) w3)) as L34 by auto with calm.
  set (w4 := push (CQuerySizes p) w3) in *. assert (h_refs w4 = h_refs w3 /\ h_st w4 = h_st w3) as [R4 S4] by done.
  clearbody w4. rewrite S3 in S4.
  assert (owns (h_refs w0 ⊎ conn_handles p s2) (set_sizes z s2) w4) as R4' by (unfold owns; by rewrite R4).
  destruct (Z.eqb_spec sq SEC_E_OK) as [->|Hsq]; cbn [negb]; [|eapply connected_fail; [done..|by apply owns_conn]].
  wp_step. rewrite to_int_id by (change (2 ^ 31) with 2147483648 in *; lia).
  assert (buf_ok SC_ENC_MAX (out (set_sizes z s2))) as Hb by (cbn; by rewrite Ot).
  set (R' := h_refs w0 ⊎ conn_handles p s2 ⊎ buf_refs (enc s2) ⊎ buf_refs (dec s2) ⊎
    blk (hostw_at (cfg s2)) (hostw (cfg s2))).
  eapply wp_mono; [|apply (wp_grow env Hsane (out (set_sizes z s2)) _ 0 SC_ENC_MAX R' w4 Hb)];
    [|destruct Hb; lia|apply SC_ENC_MAX_bound|rewrite R4'; unfold R', bufs; cbn; clear; multiset_solver].
  intros [g b] w5 (R5 & S5 & (n5 & H5 & _) & Hb5 & Hl5 & Ho5 & Hcap & H0 & Hn). rewrite S4 in S5.
  assert (owns (h_refs w0 ⊎ conn_handles p s2) (set_out b (set_sizes z s2)) w5) as R5'.
  { unfold owns. rewrite R5. unfold R', bufs. cbn. clear. multiset_solver. }
  destruct (Z.eqb_spec g 0) as [->|Hg]; cbn [negb]; [|eapply connected_fail; [done..|by apply owns_conn]].
  destruct (H0 eq_refl) as (Hroom & _ & Hsome). wp_step.
  eapply wp_store_obj; [rewrite S5; apply lookup_insert_eq|]. wp_step. split; [|done]. intros _.
  assert (later w4 w5) as L45 by (by exists n5).
  assert (later w3 w5) as L35 by (by eapply later_trans).
  assert (later wa w5) as La5 by (eapply later_trans; [exact Lb|]; by eapply later_trans).
  split_and!; cbn [hs_out h_refs h_st]; [done|by apply (later_trans w wa w5)| | |].
  - exists (set_deadline 0 (set_out b (set_sizes z s2))). split_and!; cbn; try done.
    + rewrite S5. apply insert_insert_eq.
    + rewrite R5'. unfold conn_handles, bufs. cbn. rewrite Hok, Cr. clear. multiset_solver.
    + destruct Hs2; by split.
    + destruct Hb5 as [Hp5 Hr5]. destruct (b_ptr b) as [l|] eqn:El.
      * split; cbn; rewrite ?El; [eauto|lia..].
      * exfalso. destruct (Hsome) as [? ?]; [|done]. cbn in Hcap. lia.
  - exists c. split; [|done]. eapply told_earlier; [exact L0|]. eapply told_later; [exact Tc|exact La5].
  - destruct Hv as [Hv|Hv]; [by left|right]. apply (verified_config _ _ _ s2 s); [done|].
    eapply (verified_widen w0 w2 w3); [exact L2|exact L35|exact Hv].
Qed.
End connect.

(** The record keeps what the handshake was asked for; the host name it checks is the
    wide form of the one given. *)
Definition configured (env : environment call resp) (w w' : world) (sock_ : Z) (host : list Z)
    (skip : bool) (calist : Z) (only : bool) (cc : option sc_clientcert) (s : https_sc) : Prop :=
  sock (cfg s) = sock_ /\ skip_verify (cfg s) = skip /\ castore (cfg s) = calist /\ ca_only (cfg s) = only /\
  clientcert (cfg s) = match cc with Some cc => cc_cert cc | None => 0 end /\
  exists wlen k wide, told env w w' (CWiden host wlen) (k, wide) /\ 0 < k /\ hostw (cfg s) = Some wide.

Definition handshake_post (env : environment call resp) (w : world) (sock : Z) (host : list Z)
    (skip : bool) (calist : Z) (only : bool) (mv : Z) (cc : option sc_clientcert)
    (r : hs_result) (w' : world) : Prop :=
  (hs_code r = HTTPS_SC_OK -> hs_out r <> 0 /\
    exists s, h_st w' = <[hs_out r := s]> (h_st w) /\
      h_refs w' = h_refs w ⊎ {[+ RCtx (hs_out r) +]} ⊎ {[+ RCred (hs_out r) +]} ⊎ bufs s /\ wf s /\ out_ok s /\
      have_ctx s = true /\ have_cred s = true /\ deadline_ns s = 0 /\
      configured env w w' sock host skip calist only cc s /\
      (exists c, told env w w' (CAcquire (hs_out r) c) SEC_E_OK /\ fits s mv c) /\
      (skip = true \/ verified env w w' (hs_out r) s)) /\
  (hs_code r <> HTTPS_SC_OK -> hs_out r = 0 /\ h_refs w' = h_refs w /\ h_st w' = h_st w).

Lemma handshake_post_fail env w sock host skip calist only mv cc p s1 s status code w1 :
  p <> 0 -> code <> HTTPS_SC_OK -> h_st w !! p = None -> h_st w1 = <[p := s1]> (h_st w) ->
  owns (h_refs w) s w1 -> have_ctx s = false -> have_cred s = false ->
  wp (fail p s status code) (handshake_post env w sock host skip calist only mv cc) w1.
Proof.
  intros Hp Hc Hfr S R Hx Hd. eapply wp_mono; [|apply (sc_wp_fail p s1 s status code (h_refs w)); [done| |]].
  - intros r w' (E1 & E2 & R' & S'). split; [by rewrite E1|]. intros _. split_and!; [done..|].
    rewrite S', S, delete_insert_eq. by apply delete_id.
  - rewrite S. apply lookup_insert_eq.
  - apply owns_conn. unfold owns, conn_handles. rewrite R, Hx, Hd. clear. multiset_solver.
Qed.

Lemma wp_handshake env fuel sock host skip calist only mv cc timeout_ns w :
  sane env -> timeout_ns < 2 ^ 62 -> h_st w !! env (h_hist w) CCalloc = None ->
  wp (https_sc_handshake env fuel sock host skip calist only mv cc timeout_ns)
    (handshake_post env w sock host skip calist only mv cc) w.
Proof.
  intros Hsane Ht Hfr. unfold https_sc_handshake. wp_step. apply (wp_ext env CCalloc).
  cbn [hist host_traced resp]. set (p := env (h_hist w) CCalloc) in *.
  match goal with |- wp _ _ ?x => assert (kept w x) as K1 by apply kept_push, kept_refl; set (w1 := x) in * end.
  clearbody w1 p. destruct (Z.eqb_spec p 0) as [|Hp]; [wp_step; split; [done|]; intros _; split; [done|split; apply K1]|].
  wp_step. eapply wp_mono; [|by apply sc_wp_deadline_of]. cbv beta. intros d w2 C2.
  assert (kept w w2) as (R2 & S2' & L2).
  { eapply kept_trans; [exact K1|]. pose proof C2 as (? & ? & _). split_and!; [done..|by apply calm_later]. }
  clear K1 C2 w1. wp_step. apply wp_new_obj.
  match goal with |- context [fail p ?s _ _] => set (s0 := s) end.
  assert (forall s1, bufs s1 = ∅ -> owns (h_refs w) s1 w2) as O0.
  { intros s1 E. unfold owns. rewrite R2, E. clear. multiset_solver. }
  destruct host as [|y host]; [apply (handshake_post_fail _ _ _ _ _ _ _ _ _ _ s0); rewrite ?S2'; by try apply O0|].
  do 2 wp_step. destruct (Z.leb_spec r 0); [apply (handshake_post_fail _ _ _ _ _ _ _ _ _ _ s0); cbn; rewrite ?S2'; by try apply O0|].
  do 2 wp_step. destruct r0 as [[at_ nb]|]; [|apply (handshake_post_fail _ _ _ _ _ _ _ _ _ _ s0); cbn; rewrite ?S2'; by try apply O0].
  wp_step. apply wp_acquire.
  match goal with |- wp _ _ ?x => assert (later w x /\ h_refs x = h_refs w ⊎ {[+ RBlock at_ +]} /\ h_st x = <[p := s0]> (h_st w))
    as (L3 & R3 & S3); [split_and!; [|cbn; by rewrite R2|cbn; by rewrite S2']|set (w3 := x) in *; clearbody w3] end.
  { destruct L2 as [n H2]. exists (CMalloc (r * 2) :: CWideLen (y :: host) :: n). cbn. by rewrite H2. }
  clear nb R2 S2' L2 O0 w2. wp_step. apply (wp_ext env (CWiden (y :: host) r)).
  match goal with |- wp _ _ ?x => assert (later w x /\ h_refs x = h_refs w ⊎ {[+ RBlock at_ +]} /\
      h_st x = <[p := s0]> (h_st w) /\
      told env w x (CWiden (y :: host) r) (env (h_hist w3) (CWiden (y :: host) r))) as (L4 & R4 & S4 & T)
    by (split_and!; [by apply later_push|done|done|by apply told_now]); set (w4 := x) in *; clearbody w4 end.
  cbn [hist host_traced]. destruct (env (h_hist w3) (CWiden (y :: host) r)) as [k wide].
  set (s1 := set_hostw at_ (Some wide) s0).
  assert (bufs s1 = {[+ RBlock at_ +]}) as B1 by (unfold s1, s0, bufs, buf_refs; cbn [enc dec out cfg b_at b_ptr hostw hostw_at set_hostw no_buf blk]; clear; multiset_solver).
  assert (owns (h_refs w) s1 w4) as O4 by (unfold owns; by rewrite B1).
  destruct (Z.leb_spec k 0); [by apply (handshake_post_fail _ _ _ _ _ _ _ _ _ _ s0)|].
  assert (buf_ok SC_ENC_MAX no_buf) as Hnb by (split; cbn; [done|unfold SC_ENC_MAX; lia]).
  wp_step. eapply wp_mono; [|apply (wp_grow env Hsane no_buf SC_ENC_INITIAL 0 SC_ENC_MAX
    (h_refs w ⊎ {[+ RBlock at_ +]}) w4 Hnb); [cbn; lia|apply SC_ENC_MAX_bound|rewrite R4; cbn; clear; multiset_solver]].
  intros [g b] w5 (R5 & S5 & (n5 & H5 & _) & Hb5 & Hl5 & Ho5 & Hcap & Hgr & _).
  assert (later w4 w5) as L5 by (by exists n5). rewrite S4 in S5.
  assert (owns (h_refs w) (set_enc b s1) w5) as O5.
  { unfold owns. rewrite R5. unfold s1, s0, bufs, buf_refs.
    cbn [enc dec out cfg b_at b_ptr hostw hostw_at set_hostw set_enc no_buf blk]. clear. multiset_solver. }
  destruct (Z.eqb_spec g 0) as [->|Hg]; cbn [negb]; [|by apply (handshake_post_fail _ _ _ _ _ _ _ _ _ _ s0)].
  destruct (Hgr eq_refl) as (Hroom & _ & Hsome). unfold SC_ENC_INITIAL in *. cbn in Hl5, Ho5, Hcap.
  eapply wp_mono; [|apply (sc_wp_handshake_connect env fuel Hsane w s0 p (set_enc b s1) mv w5); try done].
  2:{ by eapply later_trans. }
  2:{ split; cbn; [done|done|apply Hsome; cbn; lia|lia|done]. }
  intros r1 w6 [Hok Hno]. split.
  - intros E. destruct (Hok E) as (-> & L6 & (s' & S6 & R6 & Hw & Ho & Hc & Hx & Hd & Hz) & (c & Tc & Fc) & Hv).
    split; [done|]. exists s'. split_and!; try done.
    + unfold configured. rewrite Hc. cbn. split_and!; try done. exists r, k, wide. split; [|done].
      eapply told_later; [exact T|]. by eapply later_trans.
    + exists c. split; [done|]. unfold fits in *. by rewrite Hc.
    + destruct Hv as [Hv|Hv]; [by left|right]. by apply (verified_config _ _ _ _ (set_enc b s1)).
  - intros E. destruct (Hno E) as (-> & -> & ->). split_and!; [done..|]. by apply delete_id.
Qed.

(** C6.  The chain is accepted only if verification is switched off, or a chain for the
    certificate the peer presented was built (by the default engine only if the
    connection's own anchors are not the only ones allowed), the TLS server policy
    accepted it for the host name, and its status has no flag but the three let pass;
    certificate, engine and chain are given back on every path. *)
Theorem verify_chain_sound (env : environment call resp) (p : Z) (s : https_sc) (status : Z) (w : world) :
  wp (verify_chain env p s status)
    (fun '(rc, _) w' => h_refs w' = h_refs w /\ h_st w' = h_st w /\
       (rc = 0 -> skip_verify (cfg s) = true \/ verified env w w' p s)) w.
Proof.
  eapply wp_mono; [|apply wp_verify_chain]. cbv beta. intros [rc st] w' ((R & S & _) & H). by split_and!.
Qed.

(** The credential follows the minimum version: whichever of the two structures
    Schannel accepts, it negotiates exactly the versions from the one asked for (no older
    than TLS 1.2, no newer than TLS 1.3) on, leaves the trust decision to the bridge and
    presents the configured certificate or none; a reference is held if and only if it
    succeeded. *)
Theorem credential_floor (env : environment call resp) (p : Z) (s : https_sc) (mv : Z) (w : world) :
  wp (acquire_cred env p s mv)
    (fun '(ss, s') w' => h_st w' = h_st w /\
       if ss =? SEC_E_OK
       then s' = set_have_cred s /\ h_refs w' = h_refs w ⊎ {[+ RCred p +]} /\
            exists c, told env w w' (CAcquire p c) SEC_E_OK /\ fits s mv c
       else s' = s /\ h_refs w' = h_refs w) w.
Proof.
  eapply wp_mono; [|apply wp_acquire_cred]. cbv beta. intros [ss s'] w' (_ & S & H). by split.
Qed.

(** Importing a client certificate either succeeds with a handle that holds the
    certificate and the key provider, or fails and holds nothing: the decoded key, its
    copy and the imported key are given back on every path; and freeing the handle gives
    back the rest. *)
Theorem clientcert_lifecycle (env : environment call resp) (cd kd : option (list Z))
  (cert_len key_len : Z) (pk : bool) (w : world)
  (Hcd : forall l, cd = Some l -> cert_len <= zlen l)
  (Hkd : forall l, kd = Some l -> key_len <= zlen l)
  (Hopen : forall h, (env h CNCryptOpen).1 = 0 -> (env h CNCryptOpen).2 <> 0) :
  wp (https_sc_clientcert_new env cd kd cert_len key_len pk)
    (fun '(code, hnd, _) w' => h_refs w' = h_refs w ⊎ cc_refs hnd /\
       (code = HTTPS_SC_OK <-> is_Some hnd) /\
       wp (https_sc_clientcert_free hnd) (fun _ w'' => h_refs w'' = h_refs w) w') w.
Proof.
  eapply wp_mono; [|by apply wp_clientcert_new]. cbv beta. intros [[code hnd] st] w' (R & S & E & N).
  split; [done|]. split; [done|]. eapply wp_mono; [|by apply (wp_clientcert_free hnd (h_refs w))].
  by intros ? ? [].
Qed.

(** C5.  A handshake ends either with a connection or with nothing.  On success the
    record is well formed, has room for the largest message, keeps the configuration it
    was given, holds exactly one context, one credential of the versions asked for and
    the malloc'd blocks of its buffers and wide host name, and the peer was verified
    unless verification is off; on any failure the references held are the ones held
    before (every token, certificate, chain, context, credential and malloc'd block,
    those replaced when a buffer grew included, was given back exactly once) and the
    record itself is freed. *)
Theorem sc_handshake_contract (env : environment call resp) (fuel : nat) (sock : Z) (host : list Z)
  (skip : bool) (calist : Z) (only : bool) (mv : Z) (cc : option sc_clientcert) (timeout_ns : Z)
  (w : world) (Hsane : sane env) (Ht : timeout_ns < 2 ^ 62)
  (Hfresh : h_st w !! env (h_hist w) CCalloc = None) :
  wp (https_sc_handshake env fuel sock host skip calist only mv cc timeout_ns)
    (handshake_post env w sock host skip calist only mv cc) w.
Proof. by apply wp_handshake. Qed.

Lemma clientcert_lifecycle_witness :
  wp (https_sc_clientcert_new demo_env (Some [1; 2]) (Some [3]) 2 1 true)
    (fun '(code, hnd, _) w' => h_refs w' = ∅ ⊎ cc_refs hnd /\
       (code = HTTPS_SC_OK <-> is_Some hnd) /\
       wp (https_sc_clientcert_free hnd) (fun _ w'' => h_refs w'' = ∅) w') empty_world.
Proof.
  apply (clientcert_lifecycle demo_env (Some [1; 2]) (Some [3]) 2 1 true empty_world).
  - intros l E. injection E as <-. unfold zlen. cbn. lia.
  - intros l E. injection E as <-. unfold zlen. cbn. lia.
  - intros h _. cbn. lia.
Defined.

Lemma sc_handshake_contract_witness :
  wp (https_sc_handshake demo_env 20 3 [104; 111] false 67 true HTTPS_SC_TLS12 None 0)
    (handshake_post demo_env empty_world 3 [104; 111] false 67 true HTTPS_SC_TLS12 None) empty_world.
Proof.
  apply (sc_handshake_contract demo_env 20 3 [104; 111] false 67 true HTTPS_SC_TLS12 None 0 empty_world sc_demo_sane).
  - lia.
  - reflexivity.
Defined.

(** That handshake does end, with a connection. *)
Example handshake_runs :
  match https_sc_handshake demo_env 20 3 [104; 111] false 67 true HTTPS_SC_TLS12 None 0 empty_world with
  | Done (r, w') => hs_code r = HTTPS_SC_OK /\ hs_out r = 4096
  | _ => False
  end.
Proof. vm_compute. auto. Qed.
