(* ===== verification/SchannelWrite.v ===== *)
(** * The Schannel bridge: writing and closing

    That a write cuts the caller's bytes into records that fit, encrypts them in order
    and sends each whole before the next, and that closing gives back everything. *)

From stdpp Require Import gmap gmultiset.
From S2P Require Import Prelude Eff Host Schannel SchannelBuffers SchannelRecords SchannelRead SchannelTrust.

(** ** What was encrypted, made into records and sent *)

Section streams.
Context (env : environment call resp).

(** The plaintext given to EncryptMessage, oldest first. *)
Fixpoint encrypted (h : list call) : list Z :=
  match h with
  | [] => []
  | CEncrypt _ _ data _ :: h => encrypted h ++ data
  | _ :: h => encrypted h
  end.

(** The records EncryptMessage made, each with the plaintext it was made from. *)
Fixpoint records (h : list call) : list (list Z * list Z) :=
  match h with
  | [] => []
  | CEncrypt p hdr data trl :: h =>
      records h ++ (let r := env h (CEncrypt p hdr data trl) in
                    if enc_status r =? SEC_E_OK then [(data, enc_out r)] else [])
  | _ :: h => records h
  end.

(** The bytes the socket took. *)
Fixpoint wire (h : list call) : list Z :=
  match h with
  | [] => []
  | CSend s data :: h => wire h ++ ztake (env h (CSend s data)) data
  | _ :: h => wire h
  end.

Definition waits (c : call) : Prop :=
  match c with CTick | CSelect _ _ _ | CWSAGetLastError => True | _ => False end.
Definition sends (c : call) : Prop := waits c \/ match c with CSend _ _ => True | _ => False end.

Lemma wire_waits new h : Forall waits new -> wire (new ++ h) = wire h.
Proof. induction 1 as [|c new Hc _ IH]; [done|]. by destruct c. Qed.
Lemma sends_no_record new h :
  Forall sends new -> encrypted (new ++ h) = encrypted h /\ records (new ++ h) = records h.
Proof. induction 1 as [|c new Hc _ IH]; [done|]. destruct Hc as [Hc|Hc]; by destruct c. Qed.

(** Only calls of the kind [P] were added. *)
Definition added (P : call -> Prop) (w w' : world) : Prop :=
  h_refs w' = h_refs w /\ h_st w' = h_st w /\ exists new, h_hist w' = new ++ h_hist w /\ Forall P new.

Lemma added_refl P w : added P w w.
Proof. split_and!; [done..|]. by exists []. Qed.
Lemma added_trans P a b c : added P a b -> added P b c -> added P a c.
Proof.
  intros (R1 & S1 & n & H & F) (R2 & S2' & m & G & E). split_and!; [congruence..|].
  exists (m ++ n). rewrite G, H, app_assoc. split; [done|by apply Forall_app].
Qed.
Lemma added_push (P : call -> Prop) a b c : P c -> added P a b -> added P a (push c b).
Proof. intros Hc H. eapply added_trans; [exact H|]. split_and!; [done..|]. exists [c]. auto. Qed.
Lemma added_impl (P Q : call -> Prop) a b : (forall c, P c -> Q c) -> added P a b -> added Q a b.
Proof. intros H (R & S & n & E & F). split_and!; [done..|]. exists n. split; [done|by eapply Forall_impl]. Qed.
End streams.

Create HintDb added discriminated.
#[export] Hint Resolve added_refl added_push : added.
#[export] Hint Extern 1 (waits _) => exact I : added.

Section write.
Context (env : environment call resp) (fuel : nat) (Hsane : sane env).

Lemma wp_wait_added s fw n : forall w w0,
  added waits w0 w -> wp (wait_ready env n s fw) (fun _ w' => added waits w0 w') w.
Proof.
  induction n as [|n IH]; intros w w0 H; cbn [wait_ready]; [by wp_step|]. wp_step.
  unfold now_ns. destruct (deadline_ns s =? 0);
    repeat (wp_step; auto with added); apply IH; auto with added.
Qed.

Lemma wp_maybe_wait_added s fw w :
  wp (if deadline_ns s =? 0 then mret 0 else wait_ready env fuel s fw) (fun _ w' => added waits w w') w.
Proof. wp_step; [wp_step; auto with added|]. apply wp_wait_added. auto with added. Qed.

(** The socket takes the bytes in order, all of them if and only if the result is 0. *)
Lemma wp_send_in_order s buf n : forall sent w,
  0 <= sent <= zlen buf ->
  wp (sock_send_all env fuel n s buf sent)
    (fun rc w' => added sends w w' /\ exists k, 0 <= k <= zlen buf - sent /\
       wire env (h_hist w') = wire env (h_hist w) ++ ztake k (zdrop sent buf) /\
       (rc = 0 <-> k = zlen buf - sent)) w.
Proof.
  induction n as [|n IH]; intros sent w Hs; cbn [sock_send_all]; [by wp_step|].
  destruct (Z.ltb_spec sent (zlen buf)).
  2:{ wp_step. split; [apply added_refl|]. exists 0. split_and!; [lia|lia| |lia..]. by rewrite ztake_0, app_nil_r. }
  wp_step. eapply wp_mono; [|apply wp_maybe_wait_added]. cbv beta. intros r w1 A1.
  assert (wire env (h_hist w1) = wire env (h_hist w)) as W1.
  { destruct A1 as (_ & _ & new & -> & F). by apply wire_waits. }
  apply (added_impl _ sends) in A1; [|by left].
  destruct (Z.eqb_spec r 0) as [->|Hr]; cbn [negb].
  2:{ wp_step. split; [done|]. exists 0. split_and!; [lia|lia| |lia..]. by rewrite W1, ztake_0, app_nil_r. }
  wp_step. match goal with |- wp (ext _ ?c) _ _ => apply (wp_ext env c); set (cs := c) end.
  pose proof (send_takes env Hsane (h_hist w1) (sock (cfg s)) (zdrop sent buf)) as Hk.
  assert (wire env (h_hist (push cs w1)) = wire env (h_hist w) ++ ztake (env (h_hist w1) cs) (zdrop sent buf)) as W2
    by (cbn; by rewrite W1).
  assert (added sends w (push cs w1)) as A2 by (apply added_push; [by right|done]).
  cbn [hist host_traced resp] in *. fold cs in Hk. set (k := env (h_hist w1) cs) in *. clearbody k.
  set (w2 := push cs w1) in *. clearbody w2. rewrite zlen_zdrop in Hk by lia.
  destruct (Z.eqb_spec k (-1)) as [->|Hkn].
  { wp_step. split; [done|]. exists 0. split_and!; [lia|lia| |lia..]. rewrite W2. done. }
  destruct Hk as [|Hk]; [done|]. eapply wp_mono; [|apply IH; lia]. cbv beta.
  intros rc w3 (A3 & m & Hm & W3 & Hrc). split; [by eapply added_trans|]. exists (k + m).
  split_and!; [lia|lia| |lia..].
  rewrite W3, W2, <- app_assoc. f_equal. rewrite ztake_add by lia. by rewrite zdrop_zdrop by lia.
Qed.

(** A call a write may make: waiting, sending, and encrypting a record of a size the
    negotiated protocol allows, in the place reserved for it. *)
Definition writes (p : Z) (z : stream_sizes) (c : call) : Prop :=
  sends c \/ match c with
             | CEncrypt p' hdr data trl => p' = p /\ hdr = cbHeader z /\ trl = cbTrailer z /\
                 0 < zlen data <= cbMaximumMessage z
             | _ => False
             end.

(** Of the records made, those of [full] went out whole, one after the other; there is
    at most one more, [rest], of which the socket took the bytes [part], fewer than the
    whole record. *)
Definition partly (part : list Z) (rest : list (list Z * list Z)) : Prop :=
  match rest with
  | [] => part = []
  | [(_, record)] => part `prefix_of` record /\ zlen part < zlen record
  | _ => False
  end.

(** From [sent] on: [m] bytes were encrypted in order, and the first [n - sent] of them
    are the plaintext of exactly the records that were sent whole. *)
Definition write_post (p : Z) (s : https_sc) (buf : list Z) (len sent : Z) (w : world)
    (r : Z * Z * Z * https_sc) (w' : world) : Prop :=
  let '(code, n, status, s') := r in
  (exists b, s' = set_out b s) /\ bufs s' = bufs s /\ out_ok s' /\ added (writes p (sizes s)) w w' /\
  sent <= n <= len /\ (code = HTTPS_SC_OK <-> n = len) /\
  (exists m, 0 <= n - sent <= m /\ m <= n - sent + cbMaximumMessage (sizes s) /\
     (code = HTTPS_SC_OK -> m = n - sent) /\
     encrypted (h_hist w') = encrypted (h_hist w) ++ ztake m (zdrop sent buf)) /\
  exists full rest part,
    records env (h_hist w') = records env (h_hist w) ++ full ++ rest /\
    wire env (h_hist w') = wire env (h_hist w) ++ concat full.*2 ++ part /\
    concat full.*1 = ztake (n - sent) (zdrop sent buf) /\
    partly part rest /\ (code = HTTPS_SC_OK -> rest = []).

Lemma out_ok_store s l :
  out_ok s -> zlen l = b_cap (out s) ->
  out_ok (set_out (Buf (b_at (out s)) (Some l) (b_cap (out s)) 0 0) s) /\
  bufs (set_out (Buf (b_at (out s)) (Some l) (b_cap (out s)) 0 0) s) = bufs s.
Proof.
  intros [(l0 & E & _) ? ? ? ? ?] Hl. split; [split; cbn; eauto|].
  unfold bufs, buf_refs. cbn [out set_out b_at b_ptr enc dec cfg]. by rewrite E.
Qed.

(** Stopping in the middle of a record, or for want of one. *)
Lemma write_post_stop p s b buf len sent code status chunk rest part w w' :
  code <> HTTPS_SC_OK -> out_ok (set_out b s) /\ bufs (set_out b s) = bufs s ->
  added (writes p (sizes s)) w w' -> sent < len -> 0 <= chunk <= cbMaximumMessage (sizes s) ->
  encrypted (h_hist w') = encrypted (h_hist w) ++ ztake chunk (zdrop sent buf) ->
  records env (h_hist w') = records env (h_hist w) ++ rest ->
  wire env (h_hist w') = wire env (h_hist w) ++ part -> partly part rest ->
  write_post p s buf len sent w (code, sent, status, set_out b s) w'.
Proof.
  intros Hc [Ho Hb] A Hs Hch E D W P. unfold write_post. split_and!; [by exists b|done|done|done|lia|lia|..].
  - split; [done|lia].
  - exists chunk. split_and!; try done; lia.
  - exists [], rest, part. split_and!; try done. by rewrite Z.sub_diag, ztake_0.
Qed.

(** One record and then the rest. *)
Lemma write_post_next p s b buf len sent chunk rec w w1 r w' :
  0 < chunk -> 0 <= sent -> sent + chunk <= len -> added (writes p (sizes s)) w w1 ->
  bufs (set_out b s) = bufs s ->
  encrypted (h_hist w1) = encrypted (h_hist w) ++ ztake chunk (zdrop sent buf) ->
  records env (h_hist w1) = records env (h_hist w) ++ [(ztake chunk (zdrop sent buf), rec)] ->
  wire env (h_hist w1) = wire env (h_hist w) ++ rec ->
  write_post p (set_out b s) buf len (sent + chunk) w1 r w' ->
  write_post p s buf len sent w r w'.
Proof.
  intros Hch Hs Hl A Hb E D W. destruct r as [[[code n] st] s']. unfold write_post. cbn [sizes set_out].
  intros ((b' & ->) & Hb' & Ho & A' & Hn & Hc & (m & Hm1 & Hm2 & Hm3 & E') & full & rest & part & D' & W' & C & P & Hp).
  split_and!; [by exists b'|by rewrite Hb'|done|by eapply added_trans|lia|lia|done|..].
  - exists (chunk + m). split_and!; [lia|lia|lia|intros Hok; specialize (Hm3 Hok); lia|].
    rewrite E', E, <- app_assoc. f_equal. rewrite ztake_add by lia. by rewrite zdrop_zdrop by lia.
  - exists ((ztake chunk (zdrop sent buf), rec) :: full), rest, part. split_and!; [| | |done|done].
    + by rewrite D', D, <- app_assoc.
    + rewrite W', W. cbn. by rewrite <- !app_assoc.
    + cbn. rewrite C. replace (n - sent) with (chunk + (n - (sent + chunk))) by lia.
      rewrite ztake_add by lia. by rewrite zdrop_zdrop by lia.
Qed.

Lemma sc_wp_write_loop p buf len n : forall s sent w,
  out_ok s -> 0 <= sent <= len -> len <= zlen buf -> len < 2 ^ 31 ->
  wp (write_loop env fuel n p s buf len sent) (write_post p s buf len sent w) w.
Proof.
  induction n as [|n IH]; intros s sent w Ho Hs Hlen Hl31; cbn [write_loop]; [by wp_step|].
  destruct (Z.ltb_spec sent len) as [Hlt|Hge].
  2:{ wp_step. unfold write_post. split_and!; [by exists (out s); destruct s|done|done|apply added_refl|lia|lia|..].
      - split; [lia|done].
      - exists 0. pose proof (oo_max s Ho). split_and!; [lia|lia|lia|intros _; lia|by rewrite ztake_0, app_nil_r].
      - exists [], [], []. rewrite Z.sub_diag, ztake_0, !app_nil_r. by split_and!. }
  pose proof Ho as [(l & Hl & Lz) Hh Hmx Ht Hr Hc]. pose proof SC_ENC_MAX_bound as HM.
  change (2 ^ 31) with 2147483648 in *. change (2 ^ 20) with 1048576 in *.
  rewrite !to_int_id by (change (2 ^ 31) with 2147483648; lia).
  set (chunk := if len - sent >? _ then _ else _).
  assert (0 < chunk <= cbMaximumMessage (sizes s) /\ sent + chunk <= len) as [Hch1 Hch2]
    by (unfold chunk; destruct (Z.gtb_spec (len - sent) (cbMaximumMessage (sizes s))); lia).
  clearbody chunk. cbv zeta. wp_step. rewrite load_Done by lia. apply wp_lift_Done.
  set (data := ztake chunk (zdrop sent buf)). assert (zlen data = chunk) as Ld by (unfold data; zlens).
  wp_step. unfold bytes_of. rewrite Hl. do 2 wp_step. rewrite store_splice by lia. apply wp_lift_Done.
  set (l1 := splice l _ data). assert (zlen l1 = b_cap (out s)) as Ll1 by (unfold l1; rewrite zlen_splice; lia).
  wp_step. set (c := CEncrypt p (cbHeader (sizes s)) data (cbTrailer (sizes s))).
  apply (wp_ext env c). cbn [hist host_traced].
  destruct (encrypt_in_place env Hsane (h_hist w) p (cbHeader (sizes s)) data (cbTrailer (sizes s)) Hh Ht)
    as (Hen1 & Hen2 & Hen3). fold c in Hen1, Hen2, Hen3.
  assert (added (writes p (sizes s)) w (push c w)) as A1
    by (apply added_push; [right; cbn; split_and!; [done..|lia|lia]|apply added_refl]).
  assert (encrypted (h_hist (push c w)) = encrypted (h_hist w) ++ data) as E1 by done.
  assert (records env (h_hist (push c w)) = records env (h_hist w) ++
    (if enc_status (env (h_hist w) c) =? SEC_E_OK then [(data, enc_out (env (h_hist w) c))] else [])) as D1 by done.
  assert (wire env (h_hist (push c w)) = wire env (h_hist w)) as W1 by done.
  set (w1 := push c w) in *. clearbody w1. destruct (env (h_hist w) c) as [es eo [[c0 c1] c2]].
  cbn [enc_status enc_out enc_cb fst snd] in *. wp_step. pose proof (zlen_nonneg eo).
  rewrite store_splice by lia. apply wp_lift_Done.
  set (l2 := splice l1 0 eo). assert (zlen l2 = b_cap (out s)) as Ll2 by (unfold l2; rewrite zlen_splice; lia).
  pose proof (out_ok_store s l2 Ho Ll2) as Ho2.
  destruct (Z.eqb_spec es SEC_E_OK) as [->|Hes]; cbn [negb].
  2:{ wp_step. eapply (write_post_stop _ _ _ _ _ _ _ _ chunk [] []); try done; [lia|by rewrite W1, app_nil_r]. }
  specialize (Hen3 eq_refl). wp_step. rewrite to_int_id by (change (2 ^ 31) with 2147483648; lia).
  rewrite load_Done by lia. apply wp_lift_Done.
  assert (ztake (c0 + c1 + c2) (zdrop 0 l2) = eo) as -> by (rewrite zdrop_0, <- Hen3; apply splice_0_prefix; lia).
  wp_step. eapply wp_mono; [|apply (wp_send_in_order _ eo fuel 0 w1); lia]. cbv beta.
  intros rc w2 (A2 & k & Hk & W2 & Hrc). rewrite zdrop_0, W1 in W2.
  pose proof A2 as (_ & _ & new & Hn2 & F2). destruct (sends_no_record env new (h_hist w1) F2) as [E2 D2].
  rewrite <- Hn2, E1 in E2. rewrite <- Hn2, D1 in D2.
  assert (added (writes p (sizes s)) w w2) as A3
    by (eapply added_trans; [exact A1|]; eapply added_impl; [|exact A2]; by left).
  destruct (Z.eqb_spec rc 0) as [->|Hrcn]; cbn [negb].
  - rewrite (proj1 Hrc eq_refl), Z.sub_0_r, ztake_all in W2 by lia.
    eapply wp_mono; [|apply IH; [apply Ho2|lia|lia|lia]]. intros r w3 H3.
    eapply (write_post_next p s _ buf len sent chunk eo); [lia|lia|lia|exact A3|apply Ho2|done..].
  - wp_step. eapply (write_post_stop _ _ _ _ _ _ _ _ chunk [(data, eo)] (ztake k eo)); try done.
    + apply sock_class_err.
    + lia.
    + assert (k <> zlen eo) by (intros ->; apply Hrcn, Hrc; lia).
      split; [exists (zdrop k eo); symmetry; apply ztake_zdrop|]. rewrite zlen_ztake; lia.
Qed.
End write.

Lemma wp_deadline_added env timeout_ns w :
  sane env -> timeout_ns < 2 ^ 62 -> wp (deadline_of env timeout_ns) (fun _ w' => added waits w w') w.
Proof.
  intros Hsane Ht. unfold deadline_of. destruct (Z.gtb_spec timeout_ns 0); [|wp_step; auto with added].
  unfold now_ns. do 2 wp_step. apply (wp_ext env CTick). wp_step. unfold add64.
  pose proof (tick_range env Hsane (hist w)). change (2 ^ 62) with 4611686018427387904 in *.
  change (2 ^ 63) with 9223372036854775808.
  destruct ((_ <=? _) && (_ <? _)) eqn:E; [wp_step; auto with added|].
  exfalso. apply andb_false_iff in E as [E|E]; bool_to_prop; lia.
Qed.

(** Waiting is on neither stream. *)
Lemma waits_streams env w w' :
  added waits w w' -> encrypted (h_hist w') = encrypted (h_hist w) /\
    records env (h_hist w') = records env (h_hist w) /\ wire env (h_hist w') = wire env (h_hist w).
Proof.
  intros (_ & _ & new & -> & F). pose proof (wire_waits env _ (h_hist w) F) as W.
  apply (Forall_impl _ sends) in F; [|by left]. by destruct (sends_no_record env _ (h_hist w) F) as [-> ->].
Qed.

(** C33.  A write sends the caller's bytes in order, and [*n] counts exactly those that
    went out: the first [*n] bytes are the plaintext of the records that the socket took
    whole, one after the other, and at most one more record was made, of which the socket
    took fewer bytes than it has (none was made if the encryption itself failed); [*n] is
    all of [len] if and only if the result is success, and then nothing else was
    encrypted or sent.  What was encrypted reaches at most one record further than
    [*n]; each record is of a size the protocol allows and fits the output buffer; and
    the connection, its blocks and all references are as before. *)
Theorem sc_write_contract (env : environment call resp) (fuel : nat) (handle : Z) (buf : list Z)
  (len timeout_ns : Z) (s : https_sc) (w : world) (Hsane : sane env) (Hh : handle <> 0)
  (Hs : h_st w !! handle = Some s) (Hout : out_ok s) (Hctx : have_ctx s = true)
  (Hlen : 0 < len <= zlen buf) (Hint : len < 2 ^ 31) (Ht : timeout_ns < 2 ^ 62) :
  wp (https_sc_write env fuel handle buf len timeout_ns)
    (fun '(code, n, status) w' =>
       (exists b d, h_st w' = <[handle := set_out b (set_deadline d s)]> (h_st w) /\
          out_ok (set_out b (set_deadline d s)) /\ bufs (set_out b (set_deadline d s)) = bufs s) /\
       h_refs w' = h_refs w /\ 0 <= n <= len /\ (code = HTTPS_SC_OK <-> n = len) /\
       (exists new, h_hist w' = new ++ h_hist w /\ Forall (writes handle (sizes s)) new) /\
       (exists m, n <= m <= n + cbMaximumMessage (sizes s) /\ (code = HTTPS_SC_OK -> m = n) /\
          encrypted (h_hist w') = encrypted (h_hist w) ++ ztake m buf) /\
       exists full rest part,
         records env (h_hist w') = records env (h_hist w) ++ full ++ rest /\
         wire env (h_hist w') = wire env (h_hist w) ++ concat full.*2 ++ part /\
         concat full.*1 = ztake n buf /\ partly part rest /\ (code = HTTPS_SC_OK -> rest = [])) w.
Proof.
  unfold https_sc_write. rewrite (proj2 (Z.eqb_neq handle 0)) by done. wp_step.
  eapply wp_load_obj; [done|]. rewrite Hctx. cbn [negb]. destruct (Z.leb_spec len 0); [lia|].
  wp_step. eapply wp_mono; [|by apply wp_deadline_added]. cbv beta. intros d w1 A1.
  destruct (waits_streams env _ _ A1) as (E1 & D1 & W1).
  apply (added_impl _ (writes handle (sizes s))) in A1; [|by left; left].
  assert (out_ok (set_deadline d s)) as Ho by (destruct Hout; by split).
  wp_step. eapply wp_mono; [|apply (sc_wp_write_loop env fuel Hsane handle buf len fuel (set_deadline d s) 0 w1 Ho); lia].
  cbv beta. intros [[[code n] st] s'] w2
    ((b & ->) & Hb2 & Ho2 & A2 & Hn & Hc & (m & Hm1 & Hm2 & Hm3 & E2) & full & rest & part & D2 & W2 & C2 & P).
  cbn [sizes set_deadline] in *. rewrite Z.sub_0_r, ?zdrop_0 in *.
  destruct (added_trans _ _ _ _ A1 A2) as (R & S & new & Hh2 & F).
  wp_step. eapply wp_store_obj; [by rewrite S|]. wp_step. cbn [h_st h_refs h_hist]. split_and!; try done; try lia.
  - exists b, d. split_and!; [by rewrite S|done|done].
  - by exists new.
  - exists m. split_and!; [lia|lia|done|]. by rewrite E2, E1.
  - exists full, rest, part. split_and!; [by rewrite D2, D1|by rewrite W2, W1|done|apply P|apply P].
Qed.

(** Closing a connection gives back its context, its credential, the blocks of its
    buffers and host name, the anchors and every token, and frees the record, whether or not the peer can still be told. *)
Theorem sc_close_releases (env : environment call resp) (fuel : nat) (handle : Z) (s : https_sc)
  (R : gmultiset res) (w : world) (Hsane : sane env) (Hh : handle <> 0)
  (Hs : h_st w !! handle = Some s)
  (Hrefs : h_refs w = R ⊎ conn_refs handle s ⊎ held RStore (castore (cfg s))) :
  wp (https_sc_close env fuel handle)
    (fun _ w' => h_refs w' = R /\ h_st w' = delete handle (h_st w)) w.
Proof.
  unfold https_sc_close. rewrite (proj2 (Z.eqb_neq handle 0)) by done. wp_step.
  eapply wp_load_obj; [done|]. wp_step. apply (wp_mono _ (fun _ w' => h_refs w' = h_refs w /\ h_st w' = h_st w)).
  - intros _ w1 [R1 S1]. wp_step. eapply (wp_release_nz _ _ _ _ (R ⊎ conn_refs handle s)).
    { by rewrite R1, Hrefs. }
    eapply wp_mono; [|apply (sc_wp_free_state handle s R); cbn; [done|by rewrite S1|done]].
    cbv beta. cbn. intros _ w2 (R2 & S2' & _). split; [done|]. by rewrite S2', S1.
  - destruct (have_ctx s && have_cred s); [|by wp_step]. wp_step. unfold now_ns. wp_step.
    apply (wp_ext env CTick). wp_step. unfold add64. pose proof (tick_range env Hsane (hist w)).
    unfold SC_SHUTDOWN_NS. change (2 ^ 62) with 4611686018427387904 in *. change (2 ^ 63) with 9223372036854775808.
    destruct ((_ <=? _) && (_ <? _)) eqn:E.
    2:{ exfalso. apply andb_false_iff in E as [E|E]; bool_to_prop; cbn in *; lia. }
    clear E. wp_step. wp_step. do 2 wp_step. destruct (r =? SEC_E_OK); [|by wp_step].
    do 2 wp_step. wp_step. apply wp_take_ctxbuf. cbn [h_hist h_refs h_st push host_traced].
    match goal with |- wp _ _ ?x => assert (h_refs x = h_refs w ⊎ held RCtxBuf (isc_tok r0) /\ h_st x = h_st w)
      as [R1 S1] by done; set (w1 := x) in *; clearbody w1 end.
    wp_step. apply (wp_mono _ (fun _ w' => h_refs w' = h_refs w1 /\ h_st w' = h_st w1)).
    + intros _ w2 [R2 S2']. eapply wp_release_nz; [rewrite R2; exact R1|]. cbn. by rewrite S2', S1.
    + destruct (_ && _); [|by wp_step]. wp_step. eapply wp_mono; [|apply (wp_send_all env fuel _ _ _ _ w1 w1)].
      * cbv beta. intros ? ? (? & ? & _). by wp_step.
      * apply calm_refl.
Qed.

Definition out_demo : out_ok demo_conn.
Proof. split; cbn; [eexists; split; reflexivity|lia..|unfold SC_ENC_MAX; lia]. Qed.

Lemma sc_write_contract_witness :
  wp (https_sc_write demo_env 9 16 [5; 6; 7; 8; 9; 10] 6 0)
    (fun '(code, n, status) w' =>
       (exists b d, h_st w' = <[16 := set_out b (set_deadline d demo_conn)]> {[16 := demo_conn]} /\
          out_ok (set_out b (set_deadline d demo_conn)) /\
          bufs (set_out b (set_deadline d demo_conn)) = bufs demo_conn) /\
       h_refs w' = ∅ /\ 0 <= n <= 6 /\ (code = HTTPS_SC_OK <-> n = 6) /\
       (exists new, h_hist w' = new ++ [] /\ Forall (writes 16 (sizes demo_conn)) new) /\
       (exists m, n <= m <= n + 4 /\ (code = HTTPS_SC_OK -> m = n) /\
          encrypted (h_hist w') = [] ++ ztake m [5; 6; 7; 8; 9; 10]) /\
       exists full rest part,
         records demo_env (h_hist w') = [] ++ full ++ rest /\
         wire demo_env (h_hist w') = [] ++ concat full.*2 ++ part /\
         concat full.*1 = ztake n [5; 6; 7; 8; 9; 10] /\ partly part rest /\
         (code = HTTPS_SC_OK -> rest = [])) (Host [] ∅ {[16 := demo_conn]}).
Proof.
  eapply wp_mono; [|apply (sc_write_contract demo_env 9 16 [5; 6; 7; 8; 9; 10] 6 0 demo_conn
    (Host [] ∅ {[16 := demo_conn]}) sc_demo_sane)].
  - intros [[code n] st] w' H. exact H.
  - lia.
  - reflexivity.
  - apply out_demo.
  - reflexivity.
  - unfold zlen. cbn. lia.
  - lia.
  - lia.
Defined.

Definition open_world : world :=
  Host [] ({[+ RCtx 16 +]} ⊎ {[+ RCred 16 +]} ⊎ bufs demo_conn ⊎ {[+ RStore 67 +]}) {[16 := demo_conn]}.

Lemma sc_close_releases_witness :
  wp (https_sc_close demo_env 9 16)
    (fun _ w' => h_refs w' = ∅ /\ h_st w' = delete 16 (h_st open_world)) open_world.
Proof.
  apply (sc_close_releases demo_env 9 16 demo_conn ∅ open_world sc_demo_sane).
  - lia.
  - reflexivity.
  - cbn. multiset_solver.
Defined.

(** Six bytes with four to a record: two records, all accepted and on the wire. *)
Example write_runs :
  match https_sc_write demo_env 9 16 [5; 6; 7; 8; 9; 10] 6 0 (Host [] ∅ {[16 := demo_conn]}) with
  | Done ((code, n, status), w') => (code, n) = (HTTPS_SC_OK, 6) /\
      encrypted (h_hist w') = [5; 6; 7; 8; 9; 10] /\
      wire demo_env (h_hist w') = [1;1;1;1;1; 5;6;7;8; 2;2;2; 1;1;1;1;1; 9;10; 2;2;2]
  | _ => False
  end.
Proof. vm_compute. auto. Qed.
