(* ===== verification/RsaSign.v ===== *)
(** * RSA signing: internal/rsasign and internal/mbedtls/rsasign_mbedtls.c

    The three backends behind the signing keys of the repository: CNG on Windows,
    Security.framework on macOS, mbedTLS on Linux.  The contract the two headers state is
    the class [Signer]; a client that loads a key, signs and frees it is proved against
    the class, and each backend discharges it.

    An out-parameter a function writes is an [option]: [None] is "not written". *)

From stdpp Require Import gmap gmultiset.
From S2P Require Import Prelude Eff Host.

(** ** The contract *)

Class Signer (call res St : Type) `{Countable res} : Type := {
  (** code and handle *)
  s_load : option (list Z) -> M (host call res St) (Z * option Z);
  (** code, the caller's buffer and the length *)
  s_sign : Z -> list Z -> list Z -> Z -> M (host call res St) (Z * list Z * option Z);
  s_free : Z -> M (host call res St) unit;
  (** a world in which a key can be loaded *)
  s_ready : host call res St -> Prop;
  (** the first world is the second with a key in it *)
  s_owns : host call res St -> Z -> host call res St -> Prop;
  (** between two worlds the library parsed this key, and the handle stands for it *)
  s_loaded : host call res St -> host call res St -> option (list Z) -> Z -> Prop;
  (** between two worlds the library made this signature of the digest, with the key the
      handle stands for *)
  s_made : host call res St -> host call res St -> Z -> list Z -> list Z -> Prop;

  s_load_law der w : s_ready w ->
    wp (s_load der) (fun '(rc, k) w' =>
      match k with
      | Some k => rc = 0 /\ s_owns w' k w /\ s_loaded w w' der k
      | None => rc <> 0 /\ h_refs w' = h_refs w /\ h_st w' = h_st w
      end) w;
  s_sign_law k digest out cap base w : s_owns w k base -> 0 <= cap <= zlen out ->
    wp (s_sign k digest out cap) (fun '(rc, out', n) w' =>
      s_owns w' k base /\ zlen out' = zlen out /\ zdrop cap out' = zdrop cap out /\
      match n with
      | Some n => rc = 0 /\ 0 <= n <= cap /\ s_made w w' k digest (ztake n out')
      | None => rc <> 0
      end) w;
  s_free_law k base w : s_owns w k base ->
    wp (s_free k) (fun _ w' => h_refs w' = h_refs base /\ h_st w' = h_st base /\ h_hist w' = h_hist w) w
}.

(** What the Go side does with a key that is used once. *)
Definition sign_once `{Signer call res St} (der : option (list Z)) (digest out : list Z) (cap : Z)
    : M (host call res St) (Z * list Z * option Z) :=
  '(rc, k) ← s_load der;
  match k with
  | None => mret (rc, out, None)
  | Some k => r ← s_sign k digest out cap; s_free k;; mret r
  end.

(** What a key used once leaves behind and reports: on success the library parsed the key
    given, the handle that came of it made the signature of the digest, and what was
    written is that signature. *)
Definition signs_once `{Signer call res St} (der : option (list Z)) (digest out : list Z) (cap : Z) (w : host call res St)
    (r : Z * list Z * option Z) (w' : host call res St) : Prop :=
  let '(rc, out', n) := r in
  h_refs w' = h_refs w /\ h_st w' = h_st w /\ zlen out' = zlen out /\ zdrop cap out' = zdrop cap out /\
  match n with
  | Some n => rc = 0 /\ 0 <= n <= cap /\
      exists w1 w2 k, s_loaded w w1 der k /\ s_owns w1 k w /\
        s_made w1 w2 k digest (ztake n out') /\ h_hist w' = h_hist w2
  | None => rc <> 0
  end.

Section client.
Context {call res St : Type} `{Signer call res St}.

(** Nothing is left behind, nothing is written beyond the capacity, and a length is
    reported exactly on success: that of a signature the library made with the key. *)
Lemma wp_sign_once der digest out cap w :
  s_ready w -> 0 <= cap <= zlen out ->
  wp (sign_once der digest out cap) (signs_once der digest out cap w) w.
Proof.
  intros Hr Hc. unfold sign_once. wp_step. eapply wp_mono; [|by apply s_load_law]. cbv beta.
  intros [rc [k|]] w1; [|intros (? & ? & ?); wp_step; unfold signs_once; by split_and!].
  intros (_ & Ho & Hld). wp_step. eapply wp_mono; [|by apply s_sign_law]. cbv beta.
  intros [[rc2 out'] n] w2 (Ho2 & L & D & Hn). wp_step.
  eapply wp_mono; [|by apply s_free_law]. cbv beta. intros _ w3 (R & S & Hh). wp_step.
  unfold signs_once. split_and!; try done. destruct n as [n|]; [|done]. destruct Hn as (? & ? & ?). split_and!; try lia. by exists w1, w2, k.
Qed.
End client.

(** A call answered between two worlds. *)
Definition answered `{Countable res} {call St} {resp : call -> Type} (env : environment call resp)
    (w w' : host call res St) (c : call) (r : resp c) : Prop :=
  exists a b, h_hist w' = a ++ c :: b ++ h_hist w /\ env (b ++ h_hist w) c = r.

(** ** rsasign_windows.c *)

Module Windows.

Definition RSASIGN_OK := 0.
Definition RSASIGN_ERR_LOAD := -1.
Definition RSASIGN_ERR_SIGN := -2.
Definition RSASIGN_ERR_SPACE := -3.
Definition STATUS_SUCCESS := 0.

Record rsasign_win_key : Set := { alg : Z; key : Z; bits : Z }.

Inductive res : Set := RLocal (p : Z) | RAlg (p : Z) | RKey (p : Z).
#[export] Instance res_eq_dec : EqDecision res.
Proof. solve_decision. Defined.
Definition res_code (r : res) : nat * Z :=
  match r with RLocal p => (0%nat, p) | RAlg p => (1%nat, p) | RKey p => (2%nat, p) end.
Definition res_decode (c : nat * Z) : res :=
  match c with (0%nat, p) => RLocal p | (1%nat, p) => RAlg p | (_, p) => RKey p end.
#[export] Program Instance res_countable : Countable res := inj_countable' res_code res_decode _.
Next Obligation. by intros []. Qed.

Inductive call : Type :=
  | CDecode (der : list Z) (len : Z) | CCalloc | COpenAlg | CImport (alg blob : Z)
  | CZero (blob : Z) | CBits (key : Z)
  | CSignSize (key : Z) (digest : list Z) (len : Z)
  | CSign (key : Z) (digest : list Z) (len cap : Z).

(** A blob or null; an address; a status with a handle, a number, or the bytes written
    and their count. *)
Definition resp (c : call) : Type :=
  match c with
  | COpenAlg | CImport _ _ | CBits _ | CSignSize _ _ _ => Z * Z
  | CSign _ _ _ _ => Z * list Z * Z
  | CZero _ => unit
  | _ => Z
  end.

Definition world : Type := host call res (gmap Z rsasign_win_key).

Section backend.
Context (env : environment call resp).

Definition rsasign_load (key_der : option (list Z)) : M world (Z * option Z) :=
  match key_der with
  | None => mret (RSASIGN_ERR_LOAD, None)
  | Some der =>
      if zlen der =? 0 then mret (RSASIGN_ERR_LOAD, None) else
      blob ← owning RLocal (ext env (CDecode der (u32 (zlen der))));
      if blob =? 0 then mret (RSASIGN_ERR_LOAD, None) else
      k ← ext env CCalloc;
      if k =? 0 then release (RLocal blob);; mret (RSASIGN_ERR_LOAD, None) else
      new_obj k {| alg := 0; key := 0; bits := 0 |};;
      '(st, a) ← ext env COpenAlg;
      if negb (st =? STATUS_SUCCESS) then
        release (RLocal blob);; drop_obj k;; mret (RSASIGN_ERR_LOAD, None)
      else
      acquire (RAlg a);;
      store_obj k (fun o => {| alg := a; key := key o; bits := bits o |});;
      '(st, h) ← ext env (CImport a blob);
      (if st =? STATUS_SUCCESS then
         acquire (RKey h);; store_obj k (fun o => {| alg := alg o; key := h; bits := bits o |})
       else mret tt);;
      ext env (CZero blob);;
      release (RLocal blob);;
      if negb (st =? STATUS_SUCCESS) then
        release (RAlg a);; drop_obj k;; mret (RSASIGN_ERR_LOAD, None)
      else
      '(st, n) ← ext env (CBits h);
      store_obj k (fun o => {| alg := alg o; key := key o; bits := n |});;
      if negb (st =? STATUS_SUCCESS) || (n =? 0) then
        release (RKey h);; release (RAlg a);; drop_obj k;; mret (RSASIGN_ERR_LOAD, None)
      else mret (RSASIGN_OK, Some k)
  end.

Definition rsasign_sign (k : Z) (digest out : list Z) (out_cap : Z)
    : M world (Z * list Z * option Z) :=
  if k =? 0 then mret (RSASIGN_ERR_SIGN, out, None) else
  o ← load_obj k;
  '(st, needed) ← ext env (CSignSize (key o) digest (u32 (zlen digest)));
  if negb (st =? STATUS_SUCCESS) then mret (RSASIGN_ERR_SIGN, out, None) else
  if needed >? out_cap then mret (RSASIGN_ERR_SPACE, out, None) else
  '(st, bs, written) ← ext env (CSign (key o) digest (u32 (zlen digest)) needed);
  out ← lift (store out 0 bs);
  if negb (st =? STATUS_SUCCESS) then mret (RSASIGN_ERR_SIGN, out, None)
  else mret (RSASIGN_OK, out, Some written).

Definition rsasign_free (k : Z) : M world unit :=
  if k =? 0 then mret tt else
  o ← load_obj k;
  release_nz RKey (key o);;
  release_nz RAlg (alg o);;
  drop_obj k.
End backend.

(** Documented behaviour of CNG: handles are not null on success, and a signature goes
    into the room it was given. *)
Record sane (env : environment call resp) : Prop := {
  open_handle h : (env h COpenAlg).1 = STATUS_SUCCESS -> (env h COpenAlg).2 <> 0;
  import_handle h a b : (env h (CImport a b)).1 = STATUS_SUCCESS -> (env h (CImport a b)).2 <> 0;
  sign_size h k d n : 0 <= (env h (CSignSize k d n)).2;
  sign_room h k d n cap : 0 <= cap ->
    let r := env h (CSign k d n cap) in
    zlen r.1.2 <= cap /\ (r.1.1 = STATUS_SUCCESS -> r.2 = zlen r.1.2)
}.

Section proofs.
Context (env : environment call resp) (Hsane : sane env).

(** An address the allocator may give: not one in use. *)
Definition ready (w : world) : Prop := forall c, h_st w !! env (c :: h_hist w) CCalloc = None.

Definition owns (w : world) (k : Z) (base : world) : Prop :=
  k <> 0 /\ h_st base !! k = None /\ exists o, key o <> 0 /\ alg o <> 0 /\
    h_st w = <[k := o]> (h_st base) /\ h_refs w = h_refs base ⊎ {[+ RAlg (alg o) +]} ⊎ {[+ RKey (key o) +]}.

(** The calls of a load that succeeds, from the last to the first: the block was decoded
    from the key given, and the handle in the record was imported from that block. *)
Definition loaded (w w' : world) (der : option (list Z)) (k : Z) : Prop :=
  exists d blob a h n, der = Some d /\
    let h1 := CDecode d (u32 (zlen d)) :: h_hist w in
    let h2 := COpenAlg :: CCalloc :: h1 in
    env (h_hist w) (CDecode d (u32 (zlen d))) = blob /\ blob <> 0 /\ env h1 CCalloc = k /\
    env (CCalloc :: h1) COpenAlg = (STATUS_SUCCESS, a) /\ env h2 (CImport a blob) = (STATUS_SUCCESS, h) /\
    h_hist w' = CBits h :: CZero blob :: CImport a blob :: h2 /\
    h_st w' !! k = Some {| alg := a; key := h; bits := n |}.

Definition made (w w' : world) (k : Z) (digest bs : list Z) : Prop :=
  exists o n r, h_st w !! k = Some o /\ answered env w w' (CSign (key o) digest (u32 (zlen digest)) n) r /\
    r.1 = (STATUS_SUCCESS, bs).

Lemma win_load_law der w :
  ready w ->
  wp (rsasign_load env der) (fun '(rc, k) w' =>
    match k with
    | Some k => rc = 0 /\ owns w' k w /\ loaded w w' der k
    | None => rc <> 0 /\ h_refs w' = h_refs w /\ h_st w' = h_st w
    end) w.
Proof.
  intros Hr. unfold rsasign_load. destruct der as [der|]; [|by wp_step].
  destruct (zlen der =? 0); [by wp_step|]. wp_step. apply wp_owning.
  set (c0 := CDecode der _). specialize (Hr c0). apply (wp_ext env c0). cbn [hist host_traced resp h_hist h_refs h_st push].
  set (blob := env (h_hist w) c0). assert (env (h_hist w) c0 = blob) as E0 by done. clearbody blob.
  destruct (Z.eqb_spec blob 0) as [->|Hb]; [wp_step; split_and!; [done|cbn; clear; multiset_solver|done]|].
  unfold held. rewrite (proj2 (Z.eqb_neq blob 0)) by done. wp_step. apply (wp_ext env CCalloc).
  cbn [hist host_traced resp h_hist h_refs h_st push]. set (k := env (c0 :: h_hist w) CCalloc) in *.
  assert (env (c0 :: h_hist w) CCalloc = k) as E1 by done. clearbody k.
  destruct (Z.eqb_spec k 0) as [|Hk]; [wp_step; give; by wp_step|].
  wp_step. apply wp_new_obj. cbn [h_hist h_refs h_st]. wp_step. apply (wp_ext env COpenAlg).
  match goal with |- wp (let '(_, _) := ?e in _) _ _ => assert (e.1 = STATUS_SUCCESS -> e.2 <> 0) as Ho
    by apply (open_handle env Hsane);
    destruct e as [st a] eqn:E2 end. cbn [fst snd] in Ho. cbn [h_hist h_refs h_st push host_traced].
  destruct (Z.eqb_spec st STATUS_SUCCESS) as [->|]; cbn [negb].
  2:{ wp_step. give. wp_step. eapply wp_drop_obj; [apply lookup_insert_eq|]. wp_step. cbn.
      split_and!; [done|done|]. by rewrite delete_insert_id. }
  specialize (Ho eq_refl). wp_step. apply wp_acquire. wp_step. eapply wp_store_obj; [apply lookup_insert_eq|].
  cbn [h_hist h_refs h_st push host_traced alg key bits]. rewrite insert_insert_eq.
  wp_step. apply (wp_ext env (CImport a blob)).
  match goal with |- wp (let '(_, _) := ?e in _) _ _ => assert (e.1 = STATUS_SUCCESS -> e.2 <> 0) as Hi
    by apply (import_handle env Hsane);
    destruct e as [st h] eqn:E3 end. cbn [fst snd] in Hi. cbn [h_hist h_refs h_st push host_traced].
  destruct (Z.eqb_spec st STATUS_SUCCESS) as [->|]; cbn [negb].
  2:{ do 2 wp_step. do 2 wp_step. wp_step. cbn [h_hist h_refs h_st push host_traced].
      give (h_refs w ⊎ {[+ RAlg a +]}). wp_step. give. wp_step. eapply wp_drop_obj; [apply lookup_insert_eq|].
      wp_step. split_and!; [done|done|]. cbn. by rewrite delete_insert_id. }
  specialize (Hi eq_refl). wp_step. wp_step. apply wp_acquire. eapply wp_store_obj; [apply lookup_insert_eq|].
  cbn [h_hist h_refs h_st push host_traced alg key bits]. rewrite insert_insert_eq. do 2 wp_step. wp_step.
  cbn [h_hist h_refs h_st push host_traced]. give (h_refs w ⊎ {[+ RAlg a +]} ⊎ {[+ RKey h +]}).
  do 2 wp_step. match goal with |- wp (let '(_, _) := ?e in _) _ _ => destruct e as [st n] end. cbn [h_hist h_refs h_st push host_traced]. wp_step.
  eapply wp_store_obj; [apply lookup_insert_eq|]. cbn [h_hist h_refs h_st alg key bits]. rewrite insert_insert_eq.
  destruct (_ || _).
  - wp_step. give. wp_step. give. wp_step. eapply wp_drop_obj; [apply lookup_insert_eq|]. wp_step.
    cbn. split_and!; [done|done|]. by rewrite delete_insert_id.
  - wp_step. split_and!; [done| |].
    + split; [done|]. split; [done|]. by exists {| alg := a; key := h; bits := n |}.
    + exists der, blob, a, h, n. split; [done|]. cbv zeta. split_and!; try done. apply lookup_insert_eq.
Qed.

Lemma win_sign_law k digest out cap base w :
  owns w k base -> 0 <= cap <= zlen out ->
  wp (rsasign_sign env k digest out cap) (fun '(rc, out', n) w' =>
    owns w' k base /\ zlen out' = zlen out /\ zdrop cap out' = zdrop cap out /\
    match n with
    | Some n => rc = 0 /\ 0 <= n <= cap /\ made w w' k digest (ztake n out')
    | None => rc <> 0
    end) w.
Proof.
  intros Ho Hc. pose proof Ho as (Hk & Hf & o & Hok & Hoa & HS & HR).
  unfold rsasign_sign. rewrite (proj2 (Z.eqb_neq k 0)) by done. wp_step.
  assert (h_st w !! k = Some o) as Hl by (rewrite HS; apply lookup_insert_eq).
  eapply wp_load_obj; [exact Hl|]. wp_step. set (c1 := CSignSize _ _ _). apply (wp_ext env c1).
  match goal with |- wp (let '(_, _) := ?e in _) _ _ => assert (0 <= e.2) as Hn by apply (sign_size env Hsane);
    destruct e as [st needed] end. cbn [snd] in Hn.
  assert (owns (push c1 w) k base) as Ho1 by exact Ho.
  destruct (st =? STATUS_SUCCESS); cbn [negb]; [|by wp_step].
  destruct (Z.gtb_spec needed cap); [by wp_step|].
  wp_step. set (c2 := CSign _ _ _ _). apply (wp_ext env c2).
  pose proof (sign_room env Hsane (c1 :: h_hist w) (key o) digest (u32 (zlen digest)) needed Hn) as Hr.
  fold c2 in Hr. cbn [hist host_traced push h_hist] in *. destruct (env (c1 :: h_hist w) c2) as [[st2 bs] written] eqn:E2.
  cbn [fst snd] in Hr. destruct Hr as [Hb Hw]. pose proof (zlen_nonneg bs). wp_step. rewrite store_splice by lia.
  apply wp_lift_Done.
  assert (zlen (splice out 0 bs) = zlen out) as L1 by (apply zlen_splice; lia).
  assert (zdrop cap (splice out 0 bs) = zdrop cap out) as D1.
  { replace cap with (zlen bs + (cap - zlen bs)) by lia. rewrite <- !zdrop_zdrop by lia.
    by rewrite splice_0_suffix by lia. }
  destruct (Z.eqb_spec st2 STATUS_SUCCESS) as [->|]; cbn [negb]; wp_step;
    (split; [exact Ho|]); (split; [done|]); (split; [done|]).
  - split; [done|]. rewrite Hw by done. split; [lia|]. exists o, needed, (STATUS_SUCCESS, bs, written).
    split; [done|]. split; [by exists [], [c1]|]. cbn. by rewrite splice_0_prefix by lia.
  - done.
Qed.

Lemma win_free_law k base w :
  owns w k base ->
  wp (rsasign_free k) (fun _ w' => h_refs w' = h_refs base /\ h_st w' = h_st base /\ h_hist w' = h_hist w) w.
Proof.
  intros (Hk & Hf & o & Hok & Hoa & HS & HR). unfold rsasign_free. rewrite (proj2 (Z.eqb_neq k 0)) by done.
  wp_step. eapply wp_load_obj; [rewrite HS; apply lookup_insert_eq|].
  wp_step. eapply (wp_release_nz _ _ _ _ (h_refs base ⊎ {[+ RAlg (alg o) +]})).
  { rewrite HR. unfold held. by rewrite (proj2 (Z.eqb_neq (key o) 0)). }
  wp_step. eapply (wp_release_nz _ _ _ _ (h_refs base)).
  { unfold held. by rewrite (proj2 (Z.eqb_neq (alg o) 0)). }
  cbn [h_hist h_refs h_st]. eapply wp_drop_obj; [cbn; rewrite HS; apply lookup_insert_eq|].
  cbn. split_and!; [done| |done]. rewrite HS. by rewrite delete_insert_id.
Qed.

#[export] Instance signer : Signer call res (gmap Z rsasign_win_key) := {|
  s_load := rsasign_load env; s_sign := rsasign_sign env; s_free := rsasign_free;
  s_ready := ready; s_owns := owns; s_loaded := loaded; s_made := made;
  s_load_law := win_load_law; s_sign_law := win_sign_law; s_free_law := win_free_law
|}.
End proofs.
End Windows.

(** ** rsasign_darwin.c *)

Module Darwin.

Definition RSASIGN_OK := 0.
Definition RSASIGN_ERR_LOAD := -1.
Definition RSASIGN_ERR_SIGN := -2.
Definition RSASIGN_ERR_SPACE := -3.

(** Every object is a CoreFoundation one, named by its address. *)
Inductive call : Type :=
  | CDataCreate (bs : list Z) | CDictionaryCreate | CKeyCreate (data attrs : Z)
  | CSignature (key data : Z) | CDataLength (d : Z) | CDataBytes (d : Z).

(** An object or null; an object with the error; the bytes behind a data object. *)
Definition resp (c : call) : Type :=
  match c with
  | CKeyCreate _ _ | CSignature _ _ => Z * Z
  | CDataBytes _ => list Z
  | _ => Z
  end.

Definition world : Type := host call Z unit.

Section backend.
Context (env : environment call resp).

(** [CFRelease] on an error that was set. *)
Definition drop_error (err : Z) : M world unit := release_nz id err.

(** A call that gives an object and may set an error: both are the caller's. *)
Definition create (c : M world (Z * Z)) : M world (Z * Z) :=
  '(p, err) ← c;
  (if p =? 0 then mret tt else acquire p);;
  (if err =? 0 then mret tt else acquire err);;
  mret (p, err).

Definition rsasign_load (key_der : option (list Z)) : M world (Z * option Z) :=
  data ← owning id (ext env (CDataCreate (default [] key_der)));
  if data =? 0 then mret (RSASIGN_ERR_LOAD, None) else
  attrs ← owning id (ext env CDictionaryCreate);
  if attrs =? 0 then release data;; mret (RSASIGN_ERR_LOAD, None) else
  '(key, err) ← create (ext env (CKeyCreate data attrs));
  release attrs;;
  release data;;
  if key =? 0 then drop_error err;; mret (RSASIGN_ERR_LOAD, None)
  else mret (RSASIGN_OK, Some key).

(** [for (i = 0; i < n; i++) out[i] = p[i]], from [i] on. *)
Fixpoint copy_bytes (n : nat) (p out : list Z) (i : Z) : outcome (list Z) :=
  match n with
  | O => Done out
  | S n => x ← load8 p i; out ← store out i [x]; copy_bytes n p out (i + 1)
  end.

Definition rsasign_sign (key : Z) (digest out : list Z) (out_cap : Z)
    : M world (Z * list Z * option Z) :=
  d ← owning id (ext env (CDataCreate digest));
  if d =? 0 then mret (RSASIGN_ERR_SIGN, out, None) else
  '(sig, err) ← create (ext env (CSignature key d));
  release d;;
  if sig =? 0 then drop_error err;; mret (RSASIGN_ERR_SIGN, out, None) else
  n ← ext env (CDataLength sig);
  if u64 n >? out_cap then release sig;; mret (RSASIGN_ERR_SPACE, out, None) else
  p ← ext env (CDataBytes sig);
  out ← lift (copy_bytes (Z.to_nat n) p out 0);
  release sig;;
  mret (RSASIGN_OK, out, Some (u64 n)).

Definition rsasign_free (key : Z) : M world unit := if key =? 0 then mret tt else release key.
End backend.

(** Documented behaviour of the frameworks: an error is set on failure only, and a data
    object has as many bytes as its length says. *)
Record sane (env : environment call resp) : Prop := {
  key_error h d a : (env h (CKeyCreate d a)).1 <> 0 -> (env h (CKeyCreate d a)).2 = 0;
  sig_error h k d : (env h (CSignature k d)).1 <> 0 -> (env h (CSignature k d)).2 = 0;
  data_length h h' d : zlen (env h (CDataBytes d)) = env h' (CDataLength d);
  data_range h d : env h (CDataLength d) < 2 ^ 63
}.

Lemma copy_bytes_correct p n : forall out i,
  0 <= i -> i + Z.of_nat n <= zlen p -> i + Z.of_nat n <= zlen out ->
  copy_bytes n p out i = Done (splice out i (ztake (Z.of_nat n) (zdrop i p))).
Proof.
  induction n as [|n IH]; intros out i Hi Hp Ho; cbn [copy_bytes].
  - change (Z.of_nat 0) with 0. by rewrite ztake_0, splice_nil.
  - rewrite load8_Done by lia. cbn [mbind outcome_bind]. set (x := p !!! Z.to_nat i).
    rewrite store_splice by (rewrite ?zlen_cons, ?zlen_nil; lia). cbn [mbind outcome_bind].
    assert (zlen (splice out i [x]) = zlen out) as L by (apply zlen_splice; rewrite ?zlen_cons, ?zlen_nil; lia).
    rewrite IH by lia. f_equal. replace (Z.of_nat (S n)) with (1 + Z.of_nat n) by lia.
    rewrite ztake_zdrop_cons by lia. fold x. apply (splice_splice out i [x]); [lia|].
    rewrite zlen_cons, zlen_nil, zlen_ztake by zlens. lia.
Qed.

Section proofs.
Context (env : environment call resp) (Hsane : sane env).

Definition owns (w : world) (k : Z) (base : world) : Prop :=
  k <> 0 /\ h_st w = h_st base /\ h_refs w = h_refs base ⊎ {[+ k +]}.

(** The calls of a load that succeeds, from the last to the first. *)
Definition loaded (w w' : world) (der : option (list Z)) (k : Z) : Prop :=
  exists data attrs err,
    let h1 := CDataCreate (default [] der) :: h_hist w in
    env (h_hist w) (CDataCreate (default [] der)) = data /\ data <> 0 /\
    env h1 CDictionaryCreate = attrs /\
    env (CDictionaryCreate :: h1) (CKeyCreate data attrs) = (k, err) /\
    h_hist w' = CKeyCreate data attrs :: CDictionaryCreate :: h1.

Definition made (w w' : world) (k : Z) (digest bs : list Z) : Prop :=
  exists d sig, answered env w w' (CDataCreate digest) d /\
    answered env w w' (CSignature k d) (sig, 0) /\ answered env w w' (CDataBytes sig) bs.

Lemma wp_hold p (Q : unit -> world -> Prop) w :
  Q tt (Host (h_hist w) (h_refs w ⊎ held id p) (h_st w)) -> wp (if p =? 0 then mret tt else acquire p) Q w.
Proof.
  unfold held. destruct (p =? 0); intros H; [|by apply wp_acquire]. wp_step.
  rewrite right_id_L in H by apply _. by destruct w.
Qed.

(** What a creating call leaves: the object, or the error where one was set. *)
Lemma wp_create c (Q : Z * Z -> world -> Prop) w :
  wp c (fun '(p, err) w' => Q (p, err) (Host (h_hist w') (h_refs w' ⊎ held id p ⊎ held id err) (h_st w'))) w ->
  wp (create c) Q w.
Proof.
  intros H. unfold create. wp_step. eapply wp_mono; [|exact H]. cbv beta. intros [p err] w' HQ.
  wp_step. apply wp_hold. wp_step. apply wp_hold. wp_step. exact HQ.
Qed.

Lemma dar_held_nz p : p <> 0 -> held id p = {[+ p +]}.
Proof. intros H. unfold held. by rewrite (proj2 (Z.eqb_neq p 0)). Qed.

Lemma dar_load_law der w :
  True ->
  wp (rsasign_load env der) (fun '(rc, k) w' =>
    match k with
    | Some k => rc = 0 /\ owns w' k w /\ loaded w w' der k
    | None => rc <> 0 /\ h_refs w' = h_refs w /\ h_st w' = h_st w
    end) w.
Proof.
  intros _. unfold rsasign_load. wp_step. apply wp_owning. set (c0 := CDataCreate _). apply (wp_ext env c0).
  cbn [hist host_traced resp h_hist h_refs h_st push]. set (data := env (h_hist w) c0).
  assert (env (h_hist w) c0 = data) as E0 by done. clearbody data.
  destruct (Z.eqb_spec data 0) as [->|Hd]; [wp_step; split_and!; [done|cbn; clear; multiset_solver|done]|].
  rewrite dar_held_nz by done. wp_step. apply wp_owning. apply (wp_ext env CDictionaryCreate).
  cbn [hist host_traced resp h_hist h_refs h_st push]. set (attrs := env (c0 :: h_hist w) CDictionaryCreate).
  assert (env (c0 :: h_hist w) CDictionaryCreate = attrs) as E1 by done. clearbody attrs.
  destruct (Z.eqb_spec attrs 0) as [->|Ha].
  { wp_step. give (h_refs w). by wp_step. }
  rewrite dar_held_nz by done. wp_step. apply wp_create.
  match goal with |- wp (ext _ ?c) _ _ => apply (wp_ext env c) end.
  match goal with |- context [env ?h (CKeyCreate data attrs)] =>
    pose proof (key_error env Hsane h data attrs) as He; destruct (env h (CKeyCreate data attrs)) as [key err] eqn:E2 end. cbn [fst snd] in He. cbn [h_hist h_refs h_st push host_traced].
  wp_step. give (h_refs w ⊎ {[+ data +]} ⊎ held id key ⊎ held id err).
  wp_step. give (h_refs w ⊎ held id key ⊎ held id err).
  destruct (Z.eqb_spec key 0) as [->|Hk].
  - wp_step. unfold drop_error. eapply (wp_release_nz _ _ _ _ (h_refs w)).
    { cbn [h_refs]. change (held id 0) with (∅ : gmultiset Z). clear. multiset_solver. }
    by wp_step.
  - wp_step. split_and!; [done| |exists data, attrs, err; cbv zeta; by split_and!].
    rewrite He, dar_held_nz by done. split; [done|]. split; [done|].
    cbn [h_refs]. change (held id 0) with (∅ : gmultiset Z). clear. multiset_solver.
Qed.

Lemma dar_sign_law k digest out cap base w :
  owns w k base -> 0 <= cap <= zlen out ->
  wp (rsasign_sign env k digest out cap) (fun '(rc, out', n) w' =>
    owns w' k base /\ zlen out' = zlen out /\ zdrop cap out' = zdrop cap out /\
    match n with
    | Some n => rc = 0 /\ 0 <= n <= cap /\ made w w' k digest (ztake n out')
    | None => rc <> 0
    end) w.
Proof.
  intros (Hk & S & R) Hc. assert (forall w', h_refs w' = h_refs w -> h_st w' = h_st w -> owns w' k base) as Own.
  { intros w' R' S'. unfold owns. split; [done|]. split; congruence. }
  unfold rsasign_sign. wp_step. apply wp_owning. apply (wp_ext env (CDataCreate digest)).
  cbn [hist host_traced resp h_hist h_refs h_st push]. set (d := env (h_hist w) (CDataCreate digest)).
  destruct (Z.eqb_spec d 0) as [E|Hd].
  { rewrite E. wp_step. split; [apply Own; [cbn; clear; multiset_solver|done]|done]. }
  rewrite dar_held_nz by done. wp_step. apply wp_create. set (c2 := CSignature k d). apply (wp_ext env c2).
  set (h1 := CDataCreate digest :: h_hist w). pose proof (sig_error env Hsane h1 k d) as He. fold c2 in He.
  cbn [hist host_traced push h_hist h_refs h_st] in *. fold h1.
  destruct (env h1 c2) as [sig err] eqn:E2. cbn [fst snd] in He. wp_step.
  give (h_refs w ⊎ held id sig ⊎ held id err).
  destruct (Z.eqb_spec sig 0) as [->|Hs].
  { wp_step. unfold drop_error. eapply (wp_release_nz _ _ _ _ (h_refs w)).
    { cbn [h_refs]. change (held id 0) with (∅ : gmultiset Z). clear. multiset_solver. }
    wp_step. split; [by apply Own|done]. }
  rewrite He, dar_held_nz by done. change (held id 0) with (∅ : gmultiset Z). wp_step.
  apply (wp_ext env (CDataLength sig)). cbn [hist host_traced resp h_hist h_refs h_st push].
  set (n := env (c2 :: h1) (CDataLength sig)).
  pose proof (data_length env Hsane (CDataLength sig :: c2 :: h1) (c2 :: h1) sig) as Hl.
  pose proof (data_range env Hsane (c2 :: h1) sig) as Hr. fold n in Hl, Hr.
  set (bs := env (CDataLength sig :: c2 :: h1) (CDataBytes sig)) in *. pose proof (zlen_nonneg bs) as Hb.
  assert (u64 n = n) as -> by (apply Z.mod_small; change (2 ^ 64) with 18446744073709551616;
    change (2 ^ 63) with 9223372036854775808 in Hr; lia).
  destruct (Z.gtb_spec n cap).
  { wp_step. give (h_refs w). wp_step. split; [by apply Own|done]. }
  wp_step. apply (wp_ext env (CDataBytes sig)). cbn [hist host_traced resp h_hist h_refs h_st push]. fold bs.
  wp_step. rewrite copy_bytes_correct by lia. apply wp_lift_Done. rewrite zdrop_0, Z2Nat.id by lia.
  rewrite (ztake_all n bs) by lia. wp_step. give (h_refs w). wp_step. split; [by apply Own|].
  split; [apply zlen_splice; lia|]. split.
  { replace cap with (zlen bs + (cap - zlen bs)) by lia. rewrite <- !zdrop_zdrop by lia.
    by rewrite splice_0_suffix by lia. }
  split; [done|]. split; [lia|]. rewrite <- Hl, splice_0_prefix by lia. exists d, sig. split_and!.
  - by exists [CDataBytes sig; CDataLength sig; c2], [].
  - exists [CDataBytes sig; CDataLength sig], [CDataCreate digest]. split; [done|].
    change (env h1 c2 = (sig, 0)). by rewrite E2, He.
  - by exists [], [CDataLength sig; c2; CDataCreate digest].
Qed.

Lemma dar_free_law k base w :
  owns w k base ->
  wp (rsasign_free k) (fun _ w' => h_refs w' = h_refs base /\ h_st w' = h_st base /\ h_hist w' = h_hist w) w.
Proof.
  intros (Hk & S & R). unfold rsasign_free. rewrite (proj2 (Z.eqb_neq k 0)) by done.
  by eapply wp_give.
Qed.

#[export] Instance signer : Signer call Z unit := {|
  s_load := rsasign_load env; s_sign := rsasign_sign env; s_free := rsasign_free;
  s_ready := fun _ => True; s_owns := owns; s_loaded := loaded; s_made := made;
  s_load_law := dar_load_law; s_sign_law := dar_sign_law; s_free_law := dar_free_law
|}.
End proofs.
End Darwin.

(** ** rsasign_mbedtls.c *)

Module Mbed.

Definition MBED_RSASIGN_OK := 0.
Definition MBED_RSASIGN_ERR_ALLOC := -1.
Definition MBED_RSASIGN_ERR_SEED := -2.
Definition MBED_RSASIGN_ERR_PARSE := -3.
Definition MBED_RSASIGN_ERR_NOT_RSA := -4.
Definition MBED_RSASIGN_ERR_SIGN := -5.
Definition MBED_RSASIGN_ERR_SPACE := -6.
(** MBEDTLS_MPI_MAX_SIZE, in the configuration the repository builds with. *)
Definition MBEDTLS_PK_SIGNATURE_MAX_SIZE := 1024.

(** "tinygodriver-rsasign" *)
Definition rsasign_pers : list Z :=
  [116;105;110;121;103;111;100;114;105;118;101;114;45;114;115;97;115;105;103;110].

(** The block of a key and the three contexts in it, named by the block's address. *)
Inductive res : Set := RBlock (k : Z) | RPk (k : Z) | REntropy (k : Z) | RDrbg (k : Z).
#[export] Instance res_eq_dec : EqDecision res.
Proof. solve_decision. Defined.
Definition res_code (r : res) : nat * Z :=
  match r with RBlock p => (0%nat, p) | RPk p => (1%nat, p) | REntropy p => (2%nat, p) | RDrbg p => (3%nat, p) end.
Definition res_decode (c : nat * Z) : res :=
  match c with (0%nat, p) => RBlock p | (1%nat, p) => RPk p | (2%nat, p) => REntropy p | (_, p) => RDrbg p end.
#[export] Program Instance res_countable : Countable res := inj_countable' res_code res_decode _.
Next Obligation. by intros []. Qed.

Inductive call : Type :=
  | CCalloc | CSeed (k : Z) (pers : list Z) | CParse (k : Z) (der : list Z) | CCanDoRsa (k : Z)
  | CBitlen (k : Z) | CPkSign (k : Z) (digest : list Z) (size : Z).

(** CPkSign: the code, the local buffer after the call and the length. *)
Definition resp (c : call) : Type :=
  match c with CCanDoRsa _ => bool | CPkSign _ _ _ => Z * list Z * Z | _ => Z end.

Definition world : Type := host call res unit.

Section backend.
Context (env : environment call resp).

(** The four lines of each failure path. *)
Definition discard (k : Z) : M world unit :=
  release (RDrbg k);; release (REntropy k);; release (RPk k);; release (RBlock k).

Definition mbedtls_rsasign_load (key_der : option (list Z)) : M world (Z * option Z) :=
  k ← owning RBlock (ext env CCalloc);
  if k =? 0 then mret (MBED_RSASIGN_ERR_ALLOC, None) else
  acquire (RPk k);;
  acquire (REntropy k);;
  acquire (RDrbg k);;
  rc ← ext env (CSeed k rsasign_pers);
  if negb (rc =? 0) then discard k;; mret (MBED_RSASIGN_ERR_SEED, None) else
  rc ← ext env (CParse k (default [] key_der));
  if negb (rc =? 0) then discard k;; mret (MBED_RSASIGN_ERR_PARSE, None) else
  rsa ← ext env (CCanDoRsa k);
  if negb rsa then discard k;; mret (MBED_RSASIGN_ERR_NOT_RSA, None)
  else mret (MBED_RSASIGN_OK, Some k).

Definition mbedtls_rsasign_bits (k : Z) : M world Z :=
  if k =? 0 then mret MBED_RSASIGN_ERR_PARSE else n ← ext env (CBitlen k); mret (to_int n).

Definition mbedtls_rsasign_sign (k : Z) (digest out : list Z) (out_cap : Z)
    : M world (Z * list Z * option Z) :=
  if k =? 0 then mret (MBED_RSASIGN_ERR_SIGN, out, None) else
  '(rc, sig, olen) ← ext env (CPkSign k digest MBEDTLS_PK_SIGNATURE_MAX_SIZE);
  if negb (rc =? 0) then mret (MBED_RSASIGN_ERR_SIGN, out, None) else
  if olen >? out_cap then mret (MBED_RSASIGN_ERR_SPACE, out, None) else
  bs ← lift (Prelude.load sig 0 olen);
  out ← lift (store out 0 bs);
  mret (MBED_RSASIGN_OK, out, Some olen).

Definition mbedtls_rsasign_free (k : Z) : M world unit :=
  if k =? 0 then mret tt else
  release (RPk k);; release (RDrbg k);; release (REntropy k);; release (RBlock k).
End backend.

(** mbedtls_pk_sign writes into the buffer it was given and reports a length in it. *)
Record sane (env : environment call resp) : Prop := {
  sign_room h k d size : 0 <= size ->
    let r := env h (CPkSign k d size) in zlen r.1.2 = size /\ (r.1.1 = 0 -> 0 <= r.2 <= size)
}.

Section proofs.
Context (env : environment call resp) (Hsane : sane env).

Definition owns (w : world) (k : Z) (base : world) : Prop :=
  k <> 0 /\ h_st w = h_st base /\
  h_refs w = h_refs base ⊎ {[+ RBlock k +]} ⊎ {[+ RPk k +]} ⊎ {[+ REntropy k +]} ⊎ {[+ RDrbg k +]}.

(** The calls of a load that succeeds, from the last to the first: the key was parsed into
    the context of the block. *)
Definition loaded (w w' : world) (der : option (list Z)) (k : Z) : Prop :=
  let h1 := CSeed k rsasign_pers :: CCalloc :: h_hist w in
  env (h_hist w) CCalloc = k /\ env (CCalloc :: h_hist w) (CSeed k rsasign_pers) = 0 /\
  env h1 (CParse k (default [] der)) = 0 /\
  env (CParse k (default [] der) :: h1) (CCanDoRsa k) = true /\
  h_hist w' = CCanDoRsa k :: CParse k (default [] der) :: h1.

Definition made (w w' : world) (k : Z) (digest bs : list Z) : Prop :=
  exists r, answered env w w' (CPkSign k digest MBEDTLS_PK_SIGNATURE_MAX_SIZE) r /\
    r.1.1 = 0 /\ bs = ztake r.2 r.1.2.

Lemma wp_discard k base w :
  owns w k base -> wp (discard k) (fun _ w' => h_refs w' = h_refs base /\ h_st w' = h_st base) w.
Proof.
  intros (Hk & S & R). unfold discard. wp_step. eapply wp_give; [exact R|].
  wp_step. give. wp_step. give. by give.
Qed.

Lemma mbed_load_law der w :
  True ->
  wp (mbedtls_rsasign_load env der) (fun '(rc, k) w' =>
    match k with
    | Some k => rc = 0 /\ owns w' k w /\ loaded w w' der k
    | None => rc <> 0 /\ h_refs w' = h_refs w /\ h_st w' = h_st w
    end) w.
Proof.
  intros _. unfold mbedtls_rsasign_load. wp_step. apply wp_owning. apply (wp_ext env CCalloc).
  cbn [hist host_traced resp h_hist h_refs h_st push]. set (k := env (h_hist w) CCalloc).
  assert (env (h_hist w) CCalloc = k) as E0 by done. clearbody k.
  destruct (Z.eqb_spec k 0) as [->|Hk]; [wp_step; split_and!; [done|cbn; clear; multiset_solver|done]|].
  assert (held RBlock k = {[+ RBlock k +]}) as -> by (unfold held; by rewrite (proj2 (Z.eqb_neq k 0))).
  wp_step. apply wp_acquire. wp_step. apply wp_acquire. wp_step. apply wp_acquire.
  cbn [h_hist h_refs h_st]. match goal with |- wp _ _ ?x => assert (owns x k w) as Ho by done;
    assert (h_hist x = CCalloc :: h_hist w) as H1 by done; set (w1 := x) in * end.
  clearbody w1.
  assert (forall w' code, owns w' k w -> code <> 0 ->
    wp (discard k;; mret (code, None)) (fun '(rc, k) w' =>
      match k with
      | Some k => rc = 0 /\ owns w' k w /\ loaded w w' der k
      | None => rc <> 0 /\ h_refs w' = h_refs w /\ h_st w' = h_st w
      end) w') as Hd.
  { intros w' code Ho' Hc. wp_step. eapply wp_mono; [|by apply wp_discard]. cbv beta. intros _ w2 [? ?].
    by wp_step. }
  wp_step. apply (wp_ext env (CSeed k rsasign_pers)). cbn [hist host_traced resp]. rewrite H1.
  destruct (Z.eqb_spec (env (CCalloc :: h_hist w) (CSeed k rsasign_pers)) 0) as [E1|]; cbn [negb]; [|by apply Hd].
  wp_step. set (cp := CParse k _). apply (wp_ext env cp). cbn [hist host_traced resp h_hist push]. rewrite ?H1.
  match goal with |- context [?x =? 0] => destruct (Z.eqb_spec x 0) as [E2|]; cbn [negb]; [|by apply Hd] end.
  wp_step. apply (wp_ext env (CCanDoRsa k)). cbn [hist host_traced resp h_hist push]. rewrite ?H1.
  match goal with |- context [env ?h (CCanDoRsa k)] => destruct (env h (CCanDoRsa k)) eqn:E3 end; cbn [negb]; [|by apply Hd].
  wp_step. split_and!; [done|exact Ho|]. unfold loaded. cbv zeta. by split_and!.
Qed.

Lemma mbed_sign_law k digest out cap base w :
  owns w k base -> 0 <= cap <= zlen out ->
  wp (mbedtls_rsasign_sign env k digest out cap) (fun '(rc, out', n) w' =>
    owns w' k base /\ zlen out' = zlen out /\ zdrop cap out' = zdrop cap out /\
    match n with
    | Some n => rc = 0 /\ 0 <= n <= cap /\ made w w' k digest (ztake n out')
    | None => rc <> 0
    end) w.
Proof.
  intros Ho Hc. pose proof Ho as (Hk & _). unfold mbedtls_rsasign_sign. rewrite (proj2 (Z.eqb_neq k 0)) by done.
  wp_step. set (c := CPkSign _ _ _). apply (wp_ext env c). cbn [hist host_traced].
  destruct (sign_room env Hsane (h_hist w) k digest MBEDTLS_PK_SIGNATURE_MAX_SIZE ltac:(done)) as [Ls Hr]. fold c in Ls, Hr.
  destruct (env (h_hist w) c) as [[rc sig] olen] eqn:E. cbn [fst snd] in Ls, Hr.
  destruct (Z.eqb_spec rc 0) as [->|]; cbn [negb]; [|by wp_step]. specialize (Hr eq_refl).
  destruct (Z.gtb_spec olen cap); [by wp_step|]. wp_step. rewrite load_Done by lia. apply wp_lift_Done.
  rewrite zdrop_0. set (bs := ztake olen sig). assert (zlen bs = olen) as Lb by (unfold bs; zlens).
  wp_step. rewrite store_splice by lia. apply wp_lift_Done. wp_step. split; [exact Ho|].
  split; [apply zlen_splice; lia|]. split.
  { replace cap with (zlen bs + (cap - zlen bs)) by lia. rewrite <- !zdrop_zdrop by lia.
    by rewrite splice_0_suffix by lia. }
  split; [done|]. split; [lia|]. rewrite <- Lb at 1. rewrite splice_0_prefix by lia.
  exists (0, sig, olen). split; [by exists [], []|done].
Qed.

Lemma mbed_free_law k base w :
  owns w k base ->
  wp (mbedtls_rsasign_free k) (fun _ w' => h_refs w' = h_refs base /\ h_st w' = h_st base /\ h_hist w' = h_hist w) w.
Proof.
  intros (Hk & S & R). unfold mbedtls_rsasign_free. rewrite (proj2 (Z.eqb_neq k 0)) by done.
  wp_step. eapply (wp_give _ (h_refs base ⊎ {[+ RBlock k +]} ⊎ {[+ REntropy k +]} ⊎ {[+ RDrbg k +]})).
  { rewrite R. clear. multiset_solver. }
  cbn [h_hist h_refs h_st]. wp_step. give. wp_step. give. by give.
Qed.

#[export] Instance signer : Signer call res unit := {|
  s_load := mbedtls_rsasign_load env; s_sign := mbedtls_rsasign_sign env; s_free := mbedtls_rsasign_free;
  s_ready := fun _ => True; s_owns := owns; s_loaded := loaded; s_made := made;
  s_load_law := mbed_load_law; s_sign_law := mbed_sign_law; s_free_law := mbed_free_law
|}.
End proofs.
End Mbed.

(** ** The three backends *)

(** C34.  On each platform, loading a key, signing a digest and freeing the key writes
    nothing beyond the caller's capacity, reports a length exactly on success, and leaves
    no handle, object, context or block behind, whichever call fails.  On success the key
    given to the load is the one the library parsed, the handle, object or context that
    came of parsing it is the one the library signed this digest with, and the bytes
    written are that signature. *)
Theorem rsasign_contract (der : option (list Z)) (digest out : list Z) (cap : Z)
  (wenv : environment Windows.call Windows.resp) (denv : environment Darwin.call Darwin.resp)
  (menv : environment Mbed.call Mbed.resp) (ww : Windows.world) (dw : Darwin.world) (mw : Mbed.world)
  (Hw : Windows.sane wenv) (Hd : Darwin.sane denv) (Hm : Mbed.sane menv)
  (Hready : Windows.ready wenv ww) (Hcap : 0 <= cap <= zlen out) :
  wp (sign_once (H0 := Windows.signer wenv Hw) der digest out cap)
    (signs_once (H0 := Windows.signer wenv Hw) der digest out cap ww) ww /\
  wp (sign_once (H0 := Darwin.signer denv Hd) der digest out cap)
    (signs_once (H0 := Darwin.signer denv Hd) der digest out cap dw) dw /\
  wp (sign_once (H0 := Mbed.signer menv Hm) der digest out cap)
    (signs_once (H0 := Mbed.signer menv Hm) der digest out cap mw) mw.
Proof. split_and!; by apply wp_sign_once. Qed.

(** Libraries that work and sign with two bytes. *)
Definition demo_cng : environment Windows.call Windows.resp := fun h c =>
  match c as c return Windows.resp c with
  | Windows.CDecode _ _ => 5
  | Windows.CCalloc => 16
  | Windows.COpenAlg => (0, 6)
  | Windows.CImport _ _ => (0, 7)
  | Windows.CZero _ => tt
  | Windows.CBits _ => (0, 2048)
  | Windows.CSignSize _ _ _ => (0, 2)
  | Windows.CSign _ _ _ cap => if cap <? 2 then (1, [], 0) else (0, [8; 9], 2)
  end.

Definition demo_sec : environment Darwin.call Darwin.resp := fun h c =>
  match c as c return Darwin.resp c with
  | Darwin.CDataCreate _ => 5
  | Darwin.CDictionaryCreate => 6
  | Darwin.CKeyCreate _ _ => (7, 0)
  | Darwin.CSignature _ _ => (8, 0)
  | Darwin.CDataLength _ => 2
  | Darwin.CDataBytes _ => [8; 9]
  end.

Definition demo_mbed : environment Mbed.call Mbed.resp := fun h c =>
  match c as c return Mbed.resp c with
  | Mbed.CCalloc => 16
  | Mbed.CSeed _ _ | Mbed.CParse _ _ => 0
  | Mbed.CCanDoRsa _ => true
  | Mbed.CBitlen _ => 2048
  | Mbed.CPkSign _ _ size => (if size <? 2 then 1 else 0, replicate (Z.to_nat size) 8, 2)
  end.

Lemma demo_cng_sane : Windows.sane demo_cng.
Proof.
  split; try (cbn; lia). intros h k d n cap Hc. unfold zlen. cbn. destruct (Z.ltb_spec cap 2); cbn; lia.
Qed.
Lemma demo_sec_sane : Darwin.sane demo_sec.
Proof. split; unfold zlen; cbn; lia. Qed.
Lemma demo_mbed_sane : Mbed.sane demo_mbed.
Proof.
  split. intros h k d size Hs. cbn -[zlen]. rewrite zlen_replicate. destruct (Z.ltb_spec size 2); lia.
Qed.

Lemma rsasign_contract_witness :
  let w1 : Windows.world := Host [] ∅ ∅ in let w2 : Darwin.world := Host [] ∅ tt in
  let w3 : Mbed.world := Host [] ∅ tt in
  wp (sign_once (H0 := Windows.signer demo_cng demo_cng_sane) (Some [1]) [2; 3] [0; 0; 0] 2)
    (signs_once (H0 := Windows.signer demo_cng demo_cng_sane) (Some [1]) [2; 3] [0; 0; 0] 2 w1) w1 /\
  wp (sign_once (H0 := Darwin.signer demo_sec demo_sec_sane) (Some [1]) [2; 3] [0; 0; 0] 2)
    (signs_once (H0 := Darwin.signer demo_sec demo_sec_sane) (Some [1]) [2; 3] [0; 0; 0] 2 w2) w2 /\
  wp (sign_once (H0 := Mbed.signer demo_mbed demo_mbed_sane) (Some [1]) [2; 3] [0; 0; 0] 2)
    (signs_once (H0 := Mbed.signer demo_mbed demo_mbed_sane) (Some [1]) [2; 3] [0; 0; 0] 2 w3) w3.
Proof.
  intros w1 w2 w3.
  apply (rsasign_contract (Some [1]) [2; 3] [0; 0; 0] 2 demo_cng demo_sec demo_mbed w1 w2 w3
    demo_cng_sane demo_sec_sane demo_mbed_sane).
  - intros c. reflexivity.
  - unfold zlen. cbn. lia.
Defined.

(** The three do sign. *)
Example signing_runs :
  match sign_once (H0 := Windows.signer demo_cng demo_cng_sane) (Some [1]) [2; 3] [0; 0; 0] 2 (Host [] ∅ ∅),
        sign_once (H0 := Darwin.signer demo_sec demo_sec_sane) (Some [1]) [2; 3] [0; 0; 0] 2 (Host [] ∅ tt),
        sign_once (H0 := Mbed.signer demo_mbed demo_mbed_sane) (Some [1]) [2; 3] [0; 0; 0] 2 (Host [] ∅ tt) with
  | Done (a, _), Done (b, _), Done (c, _) =>
      a = (0, [8; 9; 0], Some 2) /\ b = (0, [8; 9; 0], Some 2) /\ c = (0, [8; 8; 0], Some 2)
  | _, _, _ => False
  end.
Proof. vm_compute. auto. Qed.
