(* ===== verification/NetworkFw.v ===== *)
(** * https/tls_darwin_nw.c

    The TLS client of macOS over Network.framework.  Three operations hand a result from
    a block that runs on a dispatch thread to the calling thread: the state handler of a
    dial, the completion of a send and that of a receive.  Each is a transition system of
    the two threads whose moves are the atomic accesses of the C code, so that its
    theorems cover every interleaving; touching a released semaphore, or the caller's
    buffer after the caller has left, is a fault.

    The rest (anchors, the TLS options with the verify block, the set-up and the release
    of a connection) is sequential and lives in the world of owned references. *)

From stdpp Require Import gmap gmultiset.
From S2P Require Import Prelude Eff Host.

(** ** Constants *)

Definition HTTPS_NW_OK := 0.
Definition HTTPS_NW_ERR_SETUP := -2.
Definition HTTPS_NW_ERR_HANDSHAKE := -3.
Definition HTTPS_NW_ERR_TIMEOUT := -4.
Definition HTTPS_NW_ERR_IO := -5.
Definition HTTPS_NW_ERR_CLOSED := -6.
Definition HTTPS_NW_ERR_ALLOC := -1.

Definition nw_connection_state_waiting := 1.
Definition nw_connection_state_ready := 3.
Definition nw_connection_state_failed := 4.
Definition nw_connection_state_cancelled := 5.

(** ** The semaphore the two sides share

    Its value, the sides that may still touch it, and whether it still exists. *)

Record sema : Set := Sema { count : Z; owners : Z; alive : bool }.

Definition sema_new : sema := Sema 0 2 true.
Definition sema_signal (s : sema) : outcome sema :=
  if alive s then Done (Sema (count s + 1) (owners s) true) else Fault.
(** A wait that has been let through. *)
Definition sema_take (s : sema) : outcome sema :=
  if alive s then Done (Sema (count s - 1) (owners s) true) else Fault.
(** [__sync_sub_and_fetch(&owners, 1)] *)
Definition sema_leave (s : sema) : Z * sema := (owners s - 1, Sema (count s) (owners s - 1) (alive s)).
Definition sema_release (s : sema) : outcome sema :=
  if alive s then Done (Sema (count s) (owners s) false) else Fault.
(** Whether a wait would go through now. *)
Definition sema_open (s : sema) : bool := count s >? 0.

(** ** Receiving *)

Module Recv.

(** The calling thread: in the timed wait; timed out, about to claim; in the second
    wait; then, after a time-out or not, dropping its share, releasing, gone. *)
Inductive caller : Set :=
  | CWait | CClaim | CWaitAgain | CDrop (timed : bool) | CRelease (timed : bool) | CGone (timed : bool).

(** The completion: not run yet, copying (with the buffer or without), noting the error
    and the end, signalling, dropping its share, releasing, done. *)
Inductive completion : Set :=
  | KIdle | KCopy (owns : bool) | KNote | KSignal | KDrop | KRelease | KDone.

Record state : Set := State {
  sem : sema;
  claim : Z;                      (* 0 undecided, 1 caller timed out, 2 completion owns buf *)
  recv_status : Z;
  got_len : Z;
  spill : option (list Z);
  is_eof : bool;
  buf : list Z;
  cpc : caller;
  kpc : completion
}.

Definition set_caller (s : state) (m : sema) (c : caller) : state :=
  State m (claim s) (recv_status s) (got_len s) (spill s) (is_eof s) (buf s) c (kpc s).
Definition set_completion (s : state) (m : sema) (k : completion) : state :=
  State m (claim s) (recv_status s) (got_len s) (spill s) (is_eof s) (buf s) (cpc s) k.
Definition set_claim (s : state) (z : Z) (c : caller) (k : completion) : state :=
  State (sem s) z (recv_status s) (got_len s) (spill s) (is_eof s) (buf s) c k.

Definition start (b : list Z) : state := State sema_new 0 0 0 None false b CWait KIdle.

(** What the framework delivers: the mapped bytes or none, whether the stream is
    complete, the error code or 0; and whether malloc has room for a spill. *)
Record delivery : Set := { content : option (list Z); complete : bool; error : Z; room : bool }.

Section moves.
Context (len : Z) (d : delivery).

(** The moves of the calling thread; a timed wait may end in either way. *)
Definition caller_moves (s : state) : list (outcome state) :=
  match cpc s with
  | CWait =>
      Done (set_caller s (sem s) CClaim) ::
      (if sema_open (sem s)
       then [m ← sema_take (sem s); mret (set_caller s m (CDrop false))] else [])
  | CClaim =>
      if claim s =? 0 then [Done (set_claim s 1 (CDrop true) (kpc s))]
      else [Done (set_caller s (sem s) CWaitAgain)]
  | CWaitAgain =>
      if sema_open (sem s) then [m ← sema_take (sem s); mret (set_caller s m (CDrop false))] else []
  | CDrop t =>
      let '(n, m) := sema_leave (sem s) in
      [Done (set_caller s m (if n =? 0 then CRelease t else CGone t))]
  | CRelease t => [m ← sema_release (sem s); mret (set_caller s m (CGone t))]
  | CGone _ => []
  end.

(** The copy into the caller's buffer, which must still be there. *)
Definition fill (s : state) : outcome state :=
  match content d with
  | Some mapped =>
      match cpc s with
      | CGone _ => Fault
      | _ =>
          if zlen mapped >? 0 then
            let take := if zlen mapped <? len then zlen mapped else len in
            b ← store (buf s) 0 (ztake take mapped);
            let sp := if take <? zlen mapped
                      then (if room d then Some (zdrop take mapped) else None) else spill s in
            mret (State (sem s) (claim s) (recv_status s) take sp (is_eof s) b (cpc s) KNote)
          else mret (set_completion s (sem s) KNote)
      end
  | None => mret (set_completion s (sem s) KNote)
  end.

Definition completion_moves (s : state) : list (outcome state) :=
  match kpc s with
  | KIdle =>
      if claim s =? 0 then [Done (set_claim s 2 (cpc s) (KCopy true))]
      else [Done (set_completion s (sem s) (KCopy false))]
  | KCopy true => [fill s]
  | KCopy false => [Done (set_completion s (sem s) KNote)]
  | KNote =>
      [Done (State (sem s) (claim s) (if error d =? 0 then recv_status s else error d) (got_len s)
               (spill s) (if complete d then true else is_eof s) (buf s) (cpc s) KSignal)]
  | KSignal => [m ← sema_signal (sem s); mret (set_completion s m KDrop)]
  | KDrop =>
      let '(n, m) := sema_leave (sem s) in
      [Done (set_completion s m (if n =? 0 then KRelease else KDone))]
  | KRelease => [m ← sema_release (sem s); mret (set_completion s m KDone)]
  | KDone => []
  end.

Definition moves (s : state) : list (outcome state) := caller_moves s ++ completion_moves s.

(** One atomic access by either thread. *)
Inductive step (s : state) : state -> Prop :=
  | step_move s' : Done s' ∈ moves s -> step s s'.
End moves.
End Recv.

(** ** The connection and the rest of a receive *)

Record https_nw_conn : Set := Conn {
  conn : Z; queue : Z; anchors : Z;
  pending : option (list Z); pending_len : Z; pending_off : Z; eof : bool
}.

(** Lines 381 to 396: leftovers first.  The bytes and the connection. *)
Definition drain (c : https_nw_conn) (len : Z) : outcome (option (list Z * https_nw_conn)) :=
  match pending c with
  | Some p =>
      if pending_off c <? pending_len c then
        let avail := pending_len c - pending_off c in
        let take := if avail <? len then avail else len in
        bs ← load p (pending_off c) take;
        let off := pending_off c + take in
        mret (Some (bs, if off >=? pending_len c
                        then Conn (conn c) (queue c) (anchors c) None 0 0 (eof c)
                        else Conn (conn c) (queue c) (anchors c) (pending c) (pending_len c) off (eof c)))
      else mret None
  | None => mret None
  end.

(** The code, [*n], [*status], the caller's buffer and the connection. *)
Definition recv_result : Type := Z * Z * Z * list Z * https_nw_conn.

(** Lines 456 to 477: what the calling thread does with the state it finds. *)
Definition recv_finish (c : https_nw_conn) (s : Recv.state) (timed : bool) : recv_result :=
  if timed then (HTTPS_NW_ERR_TIMEOUT, 0, 0, Recv.buf s, c)
  else if negb (Recv.recv_status s =? 0)
  then (HTTPS_NW_ERR_IO, 0, Recv.recv_status s, Recv.buf s, c)
  else
    let e := if Recv.is_eof s then true else eof c in
    (HTTPS_NW_OK, to_int (Recv.got_len s), 0, Recv.buf s,
     match Recv.spill s with
     | Some sp => Conn (conn c) (queue c) (anchors c) (Some sp) (zlen sp) 0 e
     | None => Conn (conn c) (queue c) (anchors c) (pending c) (pending_len c) (pending_off c) e
     end).

(** A receive that does not wait, or [None] if it has to. *)
Definition https_nw_recv_now (c : option https_nw_conn) (b : list Z) (len : Z)
    : outcome (option (recv_result)) :=
  match c with
  | None => mret (Some (HTTPS_NW_ERR_CLOSED, 0, 0, b, Conn 0 0 0 None 0 0 false))
  | Some c =>
      if conn c =? 0 then mret (Some (HTTPS_NW_ERR_CLOSED, 0, 0, b, c))
      else if len <=? 0 then mret (Some (HTTPS_NW_OK, 0, 0, b, c))
      else
        r ← drain c len;
        match r with
        | Some (bs, c) => b ← store b 0 bs; mret (Some (HTTPS_NW_OK, to_int (zlen bs), 0, b, c))
        | None => if eof c then mret (Some (HTTPS_NW_OK, 0, 0, b, c)) else mret None
        end
  end.

(** The whole of [https_nw_recv]: the receive that needs no wait, or a run of the two
    threads until the calling one is gone. *)
Inductive https_nw_recv (c : option https_nw_conn) (b : list Z) (len : Z) (d : Recv.delivery)
    : recv_result -> Prop :=
  | recv_now r : https_nw_recv_now c b len = Done (Some r) -> https_nw_recv c b len d r
  | recv_waits c' s timed :
      c = Some c' -> https_nw_recv_now c b len = Done None ->
      rtc (Recv.step len d) (Recv.start b) s -> Recv.cpc s = Recv.CGone timed ->
      https_nw_recv c b len d (recv_finish c' s timed).

(** ** Sending *)

Module Send.

Inductive caller : Set := CWait | CDrop (timed : bool) | CRelease (timed : bool) | CGone (timed : bool).
Inductive completion : Set := KIdle | KSignal | KDrop | KRelease | KDone.

Record state : Set := State { sem : sema; send_status : Z; cpc : caller; kpc : completion }.

Definition start : state := State sema_new 0 CWait KIdle.

Definition caller_moves (s : state) : list (outcome state) :=
  match cpc s with
  | CWait =>
      Done (State (sem s) (send_status s) (CDrop true) (kpc s)) ::
      (if sema_open (sem s)
       then [m ← sema_take (sem s); mret (State m (send_status s) (CDrop false) (kpc s))] else [])
  | CDrop t =>
      let '(n, m) := sema_leave (sem s) in
      [Done (State m (send_status s) (if n =? 0 then CRelease t else CGone t) (kpc s))]
  | CRelease t => [m ← sema_release (sem s); mret (State m (send_status s) (CGone t) (kpc s))]
  | CGone _ => []
  end.

(** [error] is the code of the error delivered, or 0. *)
Definition completion_moves (error : Z) (s : state) : list (outcome state) :=
  match kpc s with
  | KIdle => [Done (State (sem s) (if error =? 0 then send_status s else error) (cpc s) KSignal)]
  | KSignal => [m ← sema_signal (sem s); mret (State m (send_status s) (cpc s) KDrop)]
  | KDrop =>
      let '(n, m) := sema_leave (sem s) in
      [Done (State m (send_status s) (cpc s) (if n =? 0 then KRelease else KDone))]
  | KRelease => [m ← sema_release (sem s); mret (State m (send_status s) (cpc s) KDone)]
  | KDone => []
  end.

Definition moves (error : Z) (s : state) : list (outcome state) :=
  caller_moves s ++ completion_moves error s.

Inductive step (error : Z) (s : state) : state -> Prop :=
  | step_move s' : Done s' ∈ moves error s -> step error s s'.

(** The code and [*status] the calling thread leaves with. *)
Definition finish (s : state) (timed : bool) : Z * Z :=
  if timed then (HTTPS_NW_ERR_TIMEOUT, 0)
  else if send_status s =? 0 then (HTTPS_NW_OK, 0) else (HTTPS_NW_ERR_IO, send_status s).
End Send.

(** The whole of [https_nw_send]; [data] says whether the data object was created. *)
Inductive https_nw_send (c : option https_nw_conn) (len : Z) (data : bool) (error : Z) : Z * Z -> Prop :=
  | send_closed : (forall c', c = Some c' -> conn c' = 0) ->
      https_nw_send c len data error (HTTPS_NW_ERR_CLOSED, 0)
  | send_empty c' : c = Some c' -> conn c' <> 0 -> len <= 0 ->
      https_nw_send c len data error (HTTPS_NW_OK, 0)
  | send_alloc c' : c = Some c' -> conn c' <> 0 -> 0 < len -> data = false ->
      https_nw_send c len data error (HTTPS_NW_ERR_ALLOC, 0)
  | send_waits c' s timed : c = Some c' -> conn c' <> 0 -> 0 < len -> data = true ->
      rtc (Send.step error) Send.start s -> Send.cpc s = Send.CGone timed ->
      https_nw_send c len data error (Send.finish s timed).

(** ** Dialling *)

Module Dial.

(** The switch of the state handler: the result and the status of a state that ends the
    wait, or nothing. *)
Definition outcome_of (state error : Z) : option (Z * Z) :=
  if state =? nw_connection_state_ready then Some (HTTPS_NW_OK, 0)
  else if state =? nw_connection_state_waiting then Some (HTTPS_NW_ERR_HANDSHAKE, error)
  else if state =? nw_connection_state_failed then Some (HTTPS_NW_ERR_HANDSHAKE, error)
  else if state =? nw_connection_state_cancelled then Some (HTTPS_NW_ERR_CLOSED, 0)
  else None.

(** The calling thread: waiting, reading the result, dropping its share, releasing,
    cancelling what failed, gone. *)
Inductive caller : Set :=
  | CWait | CRead | CDrop (rc st : Z) | CRelease (rc st : Z) | CCancel (rc st : Z) | CGone (rc st : Z).

(** The handler, which runs on a serial queue: between invocations, in one about to
    settle, writing the result, signalling, dropping its share, releasing. *)
Inductive handler : Set :=
  | HIdle | HSettle (rc st : Z) | HWrite (rc st : Z) | HSignal | HDrop | HRelease.

Record state : Set := State {
  sem : sema; settled : bool; state_rc : Z; state_status : Z;
  events : list (Z * Z);          (* state changes to come, with their error codes *)
  cancelled : bool; cpc : caller; hpc : handler
}.

Definition start (es : list (Z * Z)) : state := State sema_new false HTTPS_NW_OK 0 es false CWait HIdle.

Definition set_caller (s : state) (m : sema) (c : caller) : state :=
  State m (settled s) (state_rc s) (state_status s) (events s) (cancelled s) c (hpc s).
Definition set_handler (s : state) (m : sema) (h : handler) : state :=
  State m (settled s) (state_rc s) (state_status s) (events s) (cancelled s) (cpc s) h.

Definition caller_moves (s : state) : list (outcome state) :=
  match cpc s with
  | CWait =>
      Done (set_caller s (sem s) (CDrop HTTPS_NW_ERR_TIMEOUT 0)) ::
      (if sema_open (sem s) then [m ← sema_take (sem s); mret (set_caller s m CRead)] else [])
  | CRead =>
      [Done (set_caller s (sem s) (if state_rc s =? HTTPS_NW_OK then CDrop HTTPS_NW_OK 0
                                   else CDrop (state_rc s) (state_status s)))]
  | CDrop rc st =>
      let '(n, m) := sema_leave (sem s) in
      [Done (set_caller s m (if n =? 0 then CRelease rc st else CCancel rc st))]
  | CRelease rc st => [m ← sema_release (sem s); mret (set_caller s m (CCancel rc st))]
  | CCancel rc st =>
      (* a cancelled connection reaches the state "cancelled" *)
      if rc =? HTTPS_NW_OK then [Done (set_caller s (sem s) (CGone rc st))]
      else [Done (State (sem s) (settled s) (state_rc s) (state_status s)
                    (events s ++ [(nw_connection_state_cancelled, 0)]) true (CGone rc st) (hpc s))]
  | CGone _ _ => []
  end.

Definition handler_moves (s : state) : list (outcome state) :=
  match hpc s with
  | HIdle =>
      match events s with
      | [] => []
      | (e, err) :: es =>
          [Done (State (sem s) (settled s) (state_rc s) (state_status s) es (cancelled s) (cpc s)
                   (match outcome_of e err with Some (rc, st) => HSettle rc st | None => HIdle end))]
      end
  | HSettle rc st =>
      if settled s then [Done (set_handler s (sem s) HIdle)]
      else [Done (State (sem s) true (state_rc s) (state_status s) (events s) (cancelled s) (cpc s)
                    (HWrite rc st))]
  | HWrite rc st =>
      [Done (State (sem s) (settled s) rc st (events s) (cancelled s) (cpc s) HSignal)]
  | HSignal => [m ← sema_signal (sem s); mret (set_handler s m HDrop)]
  | HDrop =>
      let '(n, m) := sema_leave (sem s) in
      [Done (set_handler s m (if n =? 0 then HRelease else HIdle))]
  | HRelease => [m ← sema_release (sem s); mret (set_handler s m HIdle)]
  end.

Definition moves (s : state) : list (outcome state) := caller_moves s ++ handler_moves s.

Inductive step (s : state) : state -> Prop :=
  | step_move s' : Done s' ∈ moves s -> step s s'.
End Dial.

(** ** Anchors, options and connections *)

Inductive res : Set := RCF (p : Z) | ROS (p : Z).

#[export] Instance res_eq_dec : EqDecision res.
Proof. solve_decision. Defined.
Definition res_code (r : res) : nat * Z := match r with RCF p => (0%nat, p) | ROS p => (1%nat, p) end.
Definition res_decode (c : nat * Z) : res := match c with (0%nat, p) => RCF p | (_, p) => ROS p end.
#[export] Program Instance res_countable : Countable res := inj_countable' res_code res_decode _.
Next Obligation. by intros []. Qed.

(** The verification a connection is set up with. *)
Inductive verify_block : Set := VAccept | VAnchors (anchors : Z) (ca_only : bool) | VDefault.

Inductive call : Type :=
  | CArrayCreate | CArrayCount (a : Z) | CArrayAppend (a cert : Z)
  | CDataCreate (bs : list Z) | CCertCreate (data : Z)
  | CEndpoint (host port : list Z)
  | CParams (server_name : option (list Z)) (min_version : Z) (v : verify_block)
  | CCalloc | CConnCreate (endpoint params : Z) | CQueueCreate | CSetQueue (conn q : Z)
  | CStart (conn : Z) | CAwait (conn timeout : Z) | CCancelConn (conn : Z)
  | CCopySec (options : Z) | CSetServerName (sec : Z) (name : list Z) | CSetMinVersion (sec v : Z)
  | CSetVerify (sec : Z) (v : verify_block)
  | CTrustCopy (trust : Z) | CSetAnchors (ref a : Z) | CSetAnchorsOnly (ref : Z) (only : bool)
  | CEvaluate (ref : Z) | CComplete (ok : bool).

(** CAwait: the code and the status the two threads of [Dial] agree on.
    CEvaluate: whether the trust holds, and the error or null. *)
Definition resp (c : call) : Type :=
  match c with
  | CAwait _ _ => Z * Z
  | CEvaluate _ => bool * Z
  | CArrayAppend _ _ | CSetQueue _ _ | CStart _ | CCancelConn _ | CSetServerName _ _
  | CSetMinVersion _ _ | CSetVerify _ _ | CSetAnchors _ _ | CSetAnchorsOnly _ _ | CComplete _ => unit
  | _ => Z
  end.

Definition world : Type := host call res (gmap Z https_nw_conn).

Section bridge.
Context (env : environment call resp).

Definition https_nw_calist_new : M world Z := owning RCF (ext env CArrayCreate).

Definition https_nw_calist_add (list_ : Z) (der : option (list Z)) (len : Z) : M world Z :=
  match der with
  | None => mret HTTPS_NW_ERR_SETUP
  | Some bytes =>
      if (list_ =? 0) || (len <=? 0) then mret HTTPS_NW_ERR_SETUP else
      bs ← lift (load bytes 0 len);
      data ← owning RCF (ext env (CDataCreate bs));
      if data =? 0 then mret HTTPS_NW_ERR_ALLOC else
      cert ← owning RCF (ext env (CCertCreate data));
      release (RCF data);;
      if cert =? 0 then mret HTTPS_NW_ERR_SETUP else
      ext env (CArrayAppend list_ cert);;
      release (RCF cert);;
      mret HTTPS_NW_OK
  end.

Definition https_nw_calist_free (list_ : Z) : M world unit := release_nz RCF list_.

(** Which verification a configuration gets. *)
Definition verify_of (skip_verify custom_anchors ca_only : bool) (anchors : Z) : verify_block :=
  if skip_verify then VAccept
  else if custom_anchors || ca_only then VAnchors anchors ca_only
  else VDefault.

(** The block that sets the TLS options of a connection. *)
Definition configure_tls (options : Z) (server_name : option (list Z)) (min_version : Z)
    (v : verify_block) : M world unit :=
  sec ← owning ROS (ext env (CCopySec options));
  if sec =? 0 then mret tt else
  (match server_name with
   | Some (x :: name) => ext env (CSetServerName sec (x :: name))
   | _ => mret tt
   end);;
  (if min_version =? 0 then mret tt else ext env (CSetMinVersion sec (min_version mod 2 ^ 16)));;
  (match v with VDefault => mret tt | _ => ext env (CSetVerify sec v) end);;
  release (ROS sec).

(** The verify block of a connection, called with the peer's trust object. *)
Definition run_verify (v : verify_block) (trust : Z) : M world unit :=
  match v with
  | VAccept => ext env (CComplete true)
  | VAnchors anchors ca_only =>
      ref ← owning RCF (ext env (CTrustCopy trust));
      if ref =? 0 then ext env (CComplete false) else
      ext env (CSetAnchors ref anchors);;
      ext env (CSetAnchorsOnly ref ca_only);;
      '(ok, err) ← ext env (CEvaluate ref);
      (if err =? 0 then mret tt else acquire (RCF err));;
      release_nz RCF err;;
      release (RCF ref);;
      ext env (CComplete ok)
  | VDefault => mret tt
  end.

(** The code, [*out] and [*status]. *)
Definition https_nw_dial (host port : list Z) (server_name : option (list Z)) (skip_verify : bool)
    (calist : Z) (ca_only : bool) (min_version timeout_ns : Z) : M world (Z * Z * Z) :=
  n ← (if calist =? 0 then mret 0 else ext env (CArrayCount calist));
  endpoint ← owning ROS (ext env (CEndpoint host port));
  if endpoint =? 0 then mret (HTTPS_NW_ERR_SETUP, 0, 0) else
  params ← owning ROS (ext env (CParams server_name min_version
                         (verify_of skip_verify (n >? 0) ca_only calist)));
  if params =? 0 then release (ROS endpoint);; mret (HTTPS_NW_ERR_SETUP, 0, 0) else
  p ← ext env CCalloc;
  if p =? 0 then
    release (ROS params);; release (ROS endpoint);; mret (HTTPS_NW_ERR_ALLOC, 0, 0)
  else
  new_obj p (Conn 0 0 0 None 0 0 false);;
  cn ← owning ROS (ext env (CConnCreate endpoint params));
  release (ROS params);;
  release (ROS endpoint);;
  if cn =? 0 then drop_obj p;; mret (HTTPS_NW_ERR_SETUP, 0, 0) else
  q ← ext env CQueueCreate;
  acquire (ROS q);;
  store_obj p (fun _ => Conn cn q calist None 0 0 false);;
  ext env (CSetQueue cn q);;
  ext env (CStart cn);;
  '(rc, st) ← ext env (CAwait cn timeout_ns);
  if negb (rc =? HTTPS_NW_OK) then
    ext env (CCancelConn cn);;
    release (ROS cn);;
    release (ROS q);;
    drop_obj p;;
    mret (rc, 0, st)
  else mret (HTTPS_NW_OK, p, 0).

Definition https_nw_close (handle : Z) : M world unit :=
  if handle =? 0 then mret tt else
  c ← load_obj handle;
  (if conn c =? 0 then mret tt else ext env (CCancelConn (conn c));; release (ROS (conn c)));;
  release_nz ROS (queue c);;
  release_nz RCF (anchors c);;
  drop_obj handle.
End bridge.
