(* ===== verification/NetworkFwProps.v ===== *)
(** * Network.framework: the handoffs between threads and the connection

    In each handoff the whole shared state is a function of where the two threads are,
    which makes the invariant an equation and its preservation a finite case analysis. *)

From stdpp Require Import gmap gmultiset.
From S2P Require Import Prelude Eff Host NetworkFw.

(** ** Systems whose moves come to an end *)

(** If every move keeps [P] and lowers its rank, [P] holds after any number of moves,
    and there are at most as many as the rank at the start. *)
Lemma nsteps_ranked {A} (R : A -> A -> Prop) (P : A -> nat -> Prop) n : forall a r b,
  (forall a r b, P a r -> R a b -> exists r', P b r' /\ (r' < r)%nat) ->
  P a r -> nsteps R n a b -> exists r', P b r' /\ (n + r' <= r)%nat.
Proof.
  induction n as [|n IH]; intros a r b Hstep Ha H; inversion H as [|? ? y ? H1 H2]; subst; [by exists r|].
  destruct (Hstep a r y Ha H1) as (r1 & H3 & L1). destruct (IH y r1 b Hstep H3 H2) as (r2 & H4 & L2).
  exists r2. split; [done|lia].
Qed.

(** ** Receiving *)

Module RecvProofs.
Import Recv.

Definition holds (c : caller) : bool := match c with CRelease _ | CGone _ => false | _ => true end.
Definition releasing (c : caller) : bool := match c with CRelease _ => true | _ => false end.
Definition gone (c : caller) : bool := match c with CGone _ => true | _ => false end.
(** went through a wait *)
Definition took (c : caller) : bool :=
  match c with CDrop t | CRelease t | CGone t => negb t | _ => false end.
(** left by the time-out *)
Definition timed (c : caller) : bool := match c with CDrop t | CRelease t | CGone t => t | _ => false end.

Definition kholds (k : completion) : bool := match k with KRelease | KDone => false | _ => true end.
Definition signalled (k : completion) : bool := match k with KDrop | KRelease | KDone => true | _ => false end.
Definition copied (k : completion) : bool := match k with KIdle | KCopy _ => false | _ => true end.
Definition noted (k : completion) : bool := match k with KIdle | KCopy _ | KNote => false | _ => true end.

Section handoff.
Context (len : Z) (d : delivery) (b : list Z) (Hlen : 0 < len <= zlen b).

(** What a delivery puts into the buffer, and what does not fit. *)
Definition mapped : list Z := default [] (content d).
Definition taken : Z := Z.min (zlen mapped) len.
Definition filled : list Z := splice b 0 (ztake taken mapped).
Definition spilled : option (list Z) :=
  if (len <? zlen mapped) && room d then Some (zdrop taken mapped) else None.

(** The shared state when the threads are at [c] and [k]. *)
Definition at_ (c : caller) (k : completion) : state :=
  let own := copied k && negb (timed c) in
  State
    (Sema (Z.b2z (signalled k) - Z.b2z (took c)) (Z.b2z (holds c) + Z.b2z (kholds k))
       (holds c || kholds k || releasing c || match k with KRelease => true | _ => false end))
    (if timed c then 1 else match k with KIdle => 0 | _ => 2 end)
    (if noted k then error d else 0)
    (if own then taken else 0)
    (if own then spilled else None)
    (noted k && complete d)
    (if own then filled else b)
    c k.

(** Where the threads can be together. *)
Definition possible (c : caller) (k : completion) : bool :=
  implb (took c) (signalled k) &&
  implb (releasing c) (match k with KDone => true | _ => false end) &&
  match k with
  | KRelease => gone c
  | KIdle => match c with CWaitAgain => false | _ => true end
  | KCopy o => eqb o (negb (timed c))
  | _ => true
  end.

Definition rank (c : caller) (k : completion) : nat :=
  (match c with CWait => 5 | CClaim => 4 | CWaitAgain => 3 | CDrop _ => 2 | CRelease _ => 1 | CGone _ => 0 end) +
  (match k with KIdle => 6 | KCopy _ => 5 | KNote => 4 | KSignal => 3 | KDrop => 2 | KRelease => 1 | KDone => 0 end).

(** A move leads to such a state again, closer to the end. *)
Definition good (c : caller) (k : completion) (o : outcome state) : Prop :=
  exists c' k', o = Done (at_ c' k') /\ possible c' k' = true /\ (rank c' k' < rank c k)%nat.

Lemma taken_range : 0 <= taken <= len /\ taken <= zlen mapped.
Proof. unfold taken. pose proof (zlen_nonneg mapped). lia. Qed.

(** The copy, for a caller that is still there. *)
Lemma fill_at c : gone c = false -> timed c = false -> fill len d (at_ c (KCopy true)) = Done (at_ c KNote).
Proof.
  intros Hg Ht. destruct taken_range as [R1 R2]. unfold at_. rewrite Ht. cbn [copied noted negb andb signalled kholds].
  unfold fill, filled, spilled, taken, mapped, set_completion in *.
  cbn [cpc kpc sem claim recv_status got_len spill is_eof buf].
  assert (forall A (x y : A), match c with CGone _ => x | _ => y end = y) as Live by (by destruct c).
  destruct (content d) as [m|]; cbn [default id from_option] in *; rewrite ?Live; pose proof (zlen_nonneg b).
  2:{ change (zlen (@nil Z)) with 0. rewrite Z.min_l, ztake_0, splice_nil by lia.
      by destruct (Z.ltb_spec len 0); [lia|]. }
  assert ((if zlen m <? len then zlen m else len) = Z.min (zlen m) len) as ->
    by (destruct (Z.ltb_spec (zlen m) len); lia).
  pose proof (zlen_nonneg m). destruct (Z.gtb_spec (zlen m) 0) as [Hm|Hm].
  - rewrite store_splice by (rewrite ?zlen_ztake; lia). cbn [mbind outcome_bind].
    assert ((Z.min (zlen m) len <? zlen m) = (len <? zlen m)) as ->
      by (destruct (Z.ltb_spec len (zlen m)), (Z.ltb_spec (Z.min (zlen m) len) (zlen m)); lia).
    by destruct (len <? zlen m), (room d).
  - assert (zlen m = 0) as E0 by lia. rewrite E0, Z.min_l, ztake_0, splice_nil by lia.
    by destruct (Z.ltb_spec len 0); [lia|].
Qed.

Ltac arrive :=
  match goal with
  | |- good _ _ (Done ?s) =>
      let c := eval cbv [cpc set_caller set_completion set_claim at_] in (cpc s) in
      let k := eval cbv [kpc set_caller set_completion set_claim at_] in (kpc s) in
      exists c, k; split; [|split; [reflexivity|cbn; lia]]
  end.

Lemma note_at c : at_ c KSignal =
  State (sem (at_ c KNote)) (claim (at_ c KNote)) (if error d =? 0 then recv_status (at_ c KNote) else error d)
    (got_len (at_ c KNote)) (spill (at_ c KNote)) (if complete d then true else is_eof (at_ c KNote))
    (buf (at_ c KNote)) c KSignal.
Proof.
  unfold at_. cbn. destruct (Z.eqb_spec (error d) 0) as [->|]; by destruct (complete d).
Qed.

(** Computes the list of moves and goes through it. *)
Ltac each_move :=
  match goal with
  | |- ?o ∈ ?l -> ?g =>
      let l' := eval cbv -[filled taken spilled fill error complete at_] in l in change (o ∈ l' -> g)
  end;
  rewrite ?elem_of_cons, ?elem_of_nil; intros Ho;
  repeat match type of Ho with _ \/ _ => destruct Ho as [Ho|Ho] end; try done; subst.

Lemma recv_caller_good c k o : possible c k = true -> o ∈ caller_moves (at_ c k) -> good c k o.
Proof.
  destruct c as [| | |[]|[]|[]], k as [|[]| | | | |]; intros Hp; try discriminate Hp; clear Hp;
    unfold at_ at 1; each_move; arrive; reflexivity.
Qed.

Lemma completion_good c k o : possible c k = true -> o ∈ completion_moves len d (at_ c k) -> good c k o.
Proof.
  intros Hp. destruct k as [|[]| | | | |].
  2:{ intros Ho%list_elem_of_singleton. subst. destruct c as [| | |[]|[]|[]]; try discriminate Hp;
        rewrite fill_at by done; arrive; reflexivity. }
  3:{ intros Ho%list_elem_of_singleton. subst. change (good c KNote (Done (State (sem (at_ c KNote)) (claim (at_ c KNote))
        (if error d =? 0 then recv_status (at_ c KNote) else error d)
        (got_len (at_ c KNote)) (spill (at_ c KNote)) (if complete d then true else is_eof (at_ c KNote))
        (buf (at_ c KNote)) c KSignal))). rewrite <- note_at. exists c, KSignal. split; [done|].
      destruct c as [| | |[]|[]|[]]; try discriminate Hp; split; cbn; done || lia. }
  all: destruct c as [| | |[]|[]|[]]; try discriminate Hp; clear Hp; unfold at_ at 1; each_move; arrive; reflexivity.
Qed.

Lemma recv_moves_good c k o : possible c k = true -> o ∈ moves len d (at_ c k) -> good c k o.
Proof.
  intros Hp. unfold moves. rewrite elem_of_app. intros [Ho|Ho]; [by apply recv_caller_good|by apply completion_good].
Qed.

(** Every state of a run is one of these, at most eleven moves from the start. *)
Lemma recv_run_at s n :
  nsteps (step len d) n (start b) s ->
  exists c k, s = at_ c k /\ possible c k = true /\ (n + rank c k <= 11)%nat.
Proof.
  intros H. destruct (nsteps_ranked (step len d)
    (fun s r => exists c k, s = at_ c k /\ possible c k = true /\ r = rank c k) n (at_ CWait KIdle) 11%nat s)
    as (r & (c & k & -> & Hp & ->) & Hr); [|by exists CWait, KIdle|exact H|by exists c, k].
  intros ? ? s' (c & k & -> & Hp & ->) [y Hy].
  destruct (recv_moves_good c k _ Hp Hy) as (c1 & k1 & [= ->] & Hp1 & Hr). exists (rank c1 k1). eauto 6.
Qed.

Lemma reachable_at s : rtc (step len d) (start b) s -> exists c k, s = at_ c k /\ possible c k = true.
Proof.
  intros H. apply rtc_nsteps in H as [n H]. destruct (recv_run_at s n H) as (c & k & -> & Hp & _). eauto.
Qed.

(** A state without moves is the end of both threads. *)
Lemma recv_stuck_at c k : possible c k = true -> moves len d (at_ c k) = [] -> gone c = true /\ k = KDone.
Proof.
  destruct c as [| | |[]|[]|[]], k as [|[]| | | | |]; intros Hp Hm; try discriminate Hp;
    try discriminate Hm; done.
Qed.
End handoff.
End RecvProofs.

(** ** Sending *)

Module SendProofs.
Import Send.

Definition holds (c : caller) : bool := match c with CRelease _ | CGone _ => false | _ => true end.
Definition releasing (c : caller) : bool := match c with CRelease _ => true | _ => false end.
Definition gone (c : caller) : bool := match c with CGone _ => true | _ => false end.
Definition took (c : caller) : bool :=
  match c with CDrop t | CRelease t | CGone t => negb t | _ => false end.
Definition kholds (k : completion) : bool := match k with KRelease | KDone => false | _ => true end.
Definition signalled (k : completion) : bool := match k with KDrop | KRelease | KDone => true | _ => false end.

Section handoff.
Context (error : Z).

Definition at_ (c : caller) (k : completion) : state :=
  State
    (Sema (Z.b2z (signalled k) - Z.b2z (took c)) (Z.b2z (holds c) + Z.b2z (kholds k))
       (holds c || kholds k || releasing c || match k with KRelease => true | _ => false end))
    (match k with KIdle => 0 | _ => error end) c k.

Definition possible (c : caller) (k : completion) : bool :=
  implb (took c) (signalled k) &&
  implb (releasing c) (match k with KDone => true | _ => false end) &&
  match k with KRelease => gone c | _ => true end.

Definition rank (c : caller) (k : completion) : nat :=
  (match c with CWait => 3 | CDrop _ => 2 | CRelease _ => 1 | CGone _ => 0 end) +
  (match k with KIdle => 4 | KSignal => 3 | KDrop => 2 | KRelease => 1 | KDone => 0 end).

Definition good (c : caller) (k : completion) (o : outcome state) : Prop :=
  exists c' k', o = Done (at_ c' k') /\ possible c' k' = true /\ (rank c' k' < rank c k)%nat.

Ltac arrive :=
  match goal with
  | |- good _ _ (Done ?s) =>
      let c := eval cbv [cpc at_] in (cpc s) in let k := eval cbv [kpc at_] in (kpc s) in
      exists c, k; split; [|split; [reflexivity|cbn; lia]]
  end.
Ltac each_move :=
  match goal with
  | |- ?o ∈ ?l -> ?g => let l' := eval cbv -[at_] in l in change (o ∈ l' -> g)
  end;
  rewrite ?elem_of_cons, ?elem_of_nil; intros Ho;
  repeat match type of Ho with _ \/ _ => destruct Ho as [Ho|Ho] end; try done; subst.

Lemma send_moves_good c k o : possible c k = true -> o ∈ moves error (at_ c k) -> good c k o.
Proof.
  intros Hp. unfold moves. rewrite elem_of_app. intros [Ho|Ho]; revert Ho.
  - destruct c as [|[]|[]|[]], k; try discriminate Hp; clear Hp; unfold at_ at 1; each_move; arrive; reflexivity.
  - destruct k.
    { intros ->%list_elem_of_singleton. exists c, KSignal. split.
      - unfold at_. cbn. by destruct (Z.eqb_spec error 0) as [->|].
      - destruct c as [|[]|[]|[]]; try discriminate Hp; split; cbn; done || lia. }
    all: destruct c as [|[]|[]|[]]; try discriminate Hp; clear Hp; unfold at_ at 1; each_move; arrive; reflexivity.
Qed.

Lemma send_run_at s n :
  nsteps (step error) n start s ->
  exists c k, s = at_ c k /\ possible c k = true /\ (n + rank c k <= 7)%nat.
Proof.
  intros H. destruct (nsteps_ranked (step error)
    (fun s r => exists c k, s = at_ c k /\ possible c k = true /\ r = rank c k) n (at_ CWait KIdle) 7%nat s)
    as (r & (c & k & -> & Hp & ->) & Hr); [|by exists CWait, KIdle|exact H|by exists c, k].
  intros ? ? s' (c & k & -> & Hp & ->) [y Hy].
  destruct (send_moves_good c k _ Hp Hy) as (c1 & k1 & [= ->] & Hp1 & Hr). exists (rank c1 k1). eauto 6.
Qed.

Lemma send_stuck_at c k : possible c k = true -> moves error (at_ c k) = [] -> gone c = true /\ k = KDone.
Proof.
  destruct c as [|[]|[]|[]], k; intros Hp Hm; try discriminate Hp; try discriminate Hm; done.
Qed.
End handoff.
End SendProofs.

(** ** Dialling *)

Module DialProofs.
Import Dial.

(** The first state change that ends the wait, and how. *)
Fixpoint first_outcome (es : list (Z * Z)) : option (Z * Z) :=
  match es with
  | [] => None
  | (e, err) :: es => match outcome_of e err with Some r => Some r | None => first_outcome es end
  end.

Lemma outcome_not_timeout e err rc st : outcome_of e err = Some (rc, st) -> rc <> HTTPS_NW_ERR_TIMEOUT.
Proof.
  unfold outcome_of. intros H. repeat match type of H with (if ?b then _ else _) = _ => destruct b end;
    by simplify_eq.
Qed.
Lemma first_not_timeout es rc st : first_outcome es = Some (rc, st) -> rc <> HTTPS_NW_ERR_TIMEOUT.
Proof.
  induction es as [|[e err] es IH]; [done|]. cbn. destruct (outcome_of e err) as [[]|] eqn:E; [|done].
  intros [= -> ->]. by eapply outcome_not_timeout.
Qed.
Lemma first_cancelled es : first_outcome (es ++ [(nw_connection_state_cancelled, 0)]) <> None.
Proof. induction es as [|[e err] es IH]; [done|]. cbn. by destruct (outcome_of e err). Qed.
Lemma first_app es es' r : first_outcome es = Some r -> first_outcome (es ++ es') = Some r.
Proof. induction es as [|[e err] es IH]; [done|]. cbn. by destruct (outcome_of e err). Qed.

Definition holds (c : caller) : bool := match c with CWait | CRead | CDrop _ _ => true | _ => false end.
Definition releasing (c : caller) : bool := match c with CRelease _ _ => true | _ => false end.
(** the result the calling thread has settled on *)
Definition result (c : caller) : option (Z * Z) :=
  match c with
  | CDrop rc st | CRelease rc st | CCancel rc st | CGone rc st => Some (rc, st)
  | _ => None
  end.
Definition took (c : caller) : bool :=
  match result c with
  | Some (rc, _) => negb (rc =? HTTPS_NW_ERR_TIMEOUT)
  | None => match c with CRead => true | _ => false end
  end.
Definition hholds (s : state) : bool :=
  negb (settled s) || match hpc s with HWrite _ _ | HSignal | HDrop => true | _ => false end.
Definition signalled (s : state) : bool :=
  settled s && match hpc s with HWrite _ _ | HSignal => false | _ => true end.
Definition hreleasing (s : state) : bool := match hpc s with HRelease => true | _ => false end.

(** What the handler will settle, or has settled. *)
Definition settles (s : state) : option (Z * Z) :=
  match hpc s with
  | HWrite rc st => Some (rc, st)
  | HSettle rc st => if settled s then Some (state_rc s, state_status s) else Some (rc, st)
  | HIdle => if settled s then Some (state_rc s, state_status s) else first_outcome (events s)
  | _ => Some (state_rc s, state_status s)
  end.

Record inv (es : list (Z * Z)) (s : state) : Prop := {
  i_sem : sem s = Sema (Z.b2z (signalled s) - Z.b2z (took (cpc s)))
            (Z.b2z (holds (cpc s)) + Z.b2z (hholds s))
            (holds (cpc s) || hholds s || releasing (cpc s) || hreleasing s);
  i_took : took (cpc s) = true -> signalled s = true;
  i_rel : releasing (cpc s) = true -> hholds s = false /\ hreleasing s = false;
  i_hrel : hreleasing s = true -> holds (cpc s) = false /\ releasing (cpc s) = false;
  i_settling : match hpc s with HWrite _ _ | HSignal | HDrop | HRelease => settled s = true | _ => True end;
  i_first : cancelled s = false -> settles s = first_outcome es;
  i_timeout : forall rc st, settles s = Some (rc, st) -> rc <> HTTPS_NW_ERR_TIMEOUT;
  i_result : forall rc st, result (cpc s) = Some (rc, st) -> rc <> HTTPS_NW_ERR_TIMEOUT ->
    exists st', first_outcome es = Some (rc, st') /\ st = if rc =? HTTPS_NW_OK then 0 else st';
  i_cancel : cancelled s = match cpc s with CGone rc _ => negb (rc =? HTTPS_NW_OK) | _ => false end;
  i_settles : cancelled s = true -> settles s <> None
}.

Definition rank (s : state) : nat :=
  (match cpc s with CWait => 8 | CRead => 7 | CDrop _ _ => 6 | CRelease _ _ => 5 | CCancel _ _ => 4 | CGone _ _ => 0 end) +
  2 * length (events s) + (if settled s then 0 else 5) +
  (match hpc s with HIdle => 0 | HSettle _ _ => 1 | HWrite _ _ => 4 | HSignal => 3 | HDrop => 2 | HRelease => 1 end).

Lemma inv_start es : inv es (start es).
Proof.
  split; cbn; try done. intros rc st. apply first_not_timeout.
Qed.

Definition good (es : list (Z * Z)) (s : state) (o : outcome state) : Prop :=
  exists s', o = Done s' /\ inv es s' /\ (rank s' < rank s)%nat.

(** A move of the calling thread that leaves the handler's part alone. *)
Lemma inv_set_caller es s m c :
  inv es s -> cancelled s = false ->
  m = Sema (Z.b2z (signalled s) - Z.b2z (took c)) (Z.b2z (holds c) + Z.b2z (hholds s))
        (holds c || hholds s || releasing c || hreleasing s) ->
  (took c = true -> signalled s = true) ->
  (releasing c = true -> hholds s = false /\ hreleasing s = false) ->
  (hreleasing s = true -> holds c = false /\ releasing c = false) ->
  (forall rc st, result c = Some (rc, st) -> rc <> HTTPS_NW_ERR_TIMEOUT ->
    exists st', first_outcome es = Some (rc, st') /\ st = if rc =? HTTPS_NW_OK then 0 else st') ->
  match c with CGone rc _ => rc = HTTPS_NW_OK | _ => True end ->
  inv es (set_caller s m c).
Proof.
  intros [Hsem Htook Hrel Hhrel Hset Hfirst Hto Hres Hcan Hse] Hc Hm H1 H2 H3 H4 H5.
  split; cbn; try done. rewrite Hc. destruct c; try done. by subst.
Qed.

Lemma signalled_settles s : signalled s = true -> settles s = Some (state_rc s, state_status s).
Proof. unfold signalled, settles. destruct (settled s), (hpc s); done. Qed.

Lemma dial_caller_good es s o : inv es s -> o ∈ caller_moves s -> good es s o.
Proof.
  intros Hi. pose proof Hi as [Hsem Htook Hrel Hhrel Hset Hfirst Hto Hres Hcan Hse].
  assert (forall c m, (rank (set_caller s m c) < rank s)%nat -> inv es (set_caller s m c) ->
    good es s (Done (set_caller s m c))) as Go by (intros c m Hr Hn; by exists (set_caller s m c)).
  unfold caller_moves. destruct (cpc s) as [| |rc st|rc st|rc st|rc st] eqn:Ec; cbn in Hsem, Htook, Hrel, Hcan.
  - rewrite elem_of_cons. intros [->|Ho].
    + apply Go; [unfold rank; cbn; rewrite Ec; lia|]. apply inv_set_caller; cbn; try done.
      intros ? ? [= <- <-]. done.
    + unfold sema_open in Ho. destruct (Z.gtb_spec (count (sem s)) 0) as [Hpos|]; [|by apply elem_of_nil in Ho].
      apply list_elem_of_singleton in Ho as ->. rewrite Hsem in *. cbn in *.
      assert (signalled s = true) as Hs by (destruct (signalled s); [done|cbn in Hpos; lia]).
      apply Go; [unfold rank; cbn; rewrite Ec; lia|]. apply inv_set_caller; cbn; try done.
      f_equal. lia.
  - intros ->%list_elem_of_singleton. pose proof (Htook eq_refl) as Hs.
    pose proof (signalled_settles s Hs) as Hss. pose proof (Hto _ _ Hss) as Hnt.
    rewrite (Hfirst Hcan) in Hss.
    assert (forall rc st, rc <> HTTPS_NW_ERR_TIMEOUT -> took (CDrop rc st) = true) as Htk.
    { intros rc st Hn. cbn. by rewrite (proj2 (Z.eqb_neq _ _) Hn). }
    apply Go; [unfold rank; cbn [cpc set_caller events settled hpc]; rewrite Ec; destruct (_ =? _); cbn; lia|].
    destruct (Z.eqb_spec (state_rc s) HTTPS_NW_OK) as [E|E]; apply inv_set_caller; try done;
      try (rewrite Htk by done; by rewrite Hsem).
    + intros rc st [= <- <-] _. exists (state_status s). split; [by rewrite Hss, E|done].
    + intros rc st [= <- <-] _. exists (state_status s). split; [done|]. by rewrite (proj2 (Z.eqb_neq _ _) E).
  - intros ->%list_elem_of_singleton. assert (hreleasing s = false) as Hh.
    { destruct (hreleasing s); [|done]. by destruct (Hhrel eq_refl). }
    apply Go; [unfold rank; cbn [cpc set_caller events settled hpc]; rewrite Ec; cbn [sema_leave]; destruct (owners (sem s) - 1 =? 0); cbn; lia|].
    rewrite Hsem. cbn. rewrite ?Hh. destruct (hholds s) eqn:Ek; cbn; apply inv_set_caller; try done; cbn;
      rewrite ?Ek, ?Hh; done.
  - intros ->%list_elem_of_singleton. destruct (Hrel eq_refl) as [Hk Hh]. rewrite Hsem. cbn.
    rewrite Hk, Hh. cbn. apply Go; [unfold rank; cbn; rewrite Ec; lia|].
    apply inv_set_caller; try done; cbn; by rewrite ?Hk, ?Hh.
  - destruct (Z.eqb_spec rc HTTPS_NW_OK) as [->|Hrc]; intros ->%list_elem_of_singleton.
    + apply Go; [unfold rank; cbn; rewrite Ec; lia|]. by apply inv_set_caller.
    + eexists. split; [done|]. split; [|unfold rank; cbn; rewrite Ec, length_app; cbn; lia].
      split; try done; cbn.
      * intros r1 s1. unfold settles. cbn. unfold settles in Hto, Hfirst. cbn in *.
        destruct (hpc s); try apply Hto. destruct (settled s); [apply Hto|apply first_not_timeout].
      * by rewrite (proj2 (Z.eqb_neq _ _) Hrc).
      * intros _. unfold settles. cbn. destruct (hpc s), (settled s); try done. apply first_cancelled.
  - by intros ?%elem_of_nil.
Qed.

(** A move of the handler, which changes neither the calling thread nor what is settled. *)
Lemma inv_handler es s s' :
  inv es s -> cpc s' = cpc s -> cancelled s' = cancelled s -> settles s' = settles s ->
  sem s' = Sema (Z.b2z (signalled s') - Z.b2z (took (cpc s)))
             (Z.b2z (holds (cpc s)) + Z.b2z (hholds s'))
             (holds (cpc s) || hholds s' || releasing (cpc s) || hreleasing s') ->
  (signalled s = true -> signalled s' = true) ->
  (releasing (cpc s) = true -> hholds s' = false /\ hreleasing s' = false) ->
  (hreleasing s' = true -> holds (cpc s) = false /\ releasing (cpc s) = false) ->
  match hpc s' with HWrite _ _ | HSignal | HDrop | HRelease => settled s' = true | _ => True end ->
  inv es s'.
Proof.
  intros [Hsem Htook Hrel Hhrel Hset Hfirst Hto Hres Hcan Hse] Ec En Es H1 H2 H3 H4 H5.
  split; rewrite ?Ec, ?En, ?Es; auto.
Qed.

Lemma handler_good es s o : inv es s -> o ∈ handler_moves s -> good es s o.
Proof.
  intros Hi. pose proof Hi as [Hsem Htook Hrel Hhrel Hset Hfirst Hto Hres Hcan Hse].
  assert (forall s', inv es s' -> (rank s' < rank s)%nat -> good es s (Done s')) as Go by (intros s' ? ?; by exists s').
  destruct s as [m sd rc0 st0 ev cn c h]. unfold handler_moves.
  unfold hholds, signalled, hreleasing in Hsem, Htook, Hrel, Hhrel.
  cbn [sem settled state_rc state_status events cancelled cpc hpc] in *.
  destruct h as [|rc st|rc st| | |].
  - destruct ev as [|[e err] ev]; [by intros ?%elem_of_nil|]. intros ->%list_elem_of_singleton. apply Go.
    + eapply inv_handler; [exact Hi|..]; unfold signalled, hholds, hreleasing, settles; cbn; try done;
        destruct (outcome_of e err) as [[rc st]|]; try done; by destruct sd.
    + unfold rank. cbn. destruct (outcome_of e err) as [[rc st]|]; lia.
  - destruct sd; intros ->%list_elem_of_singleton; apply Go; try (unfold rank; cbn; lia);
      by eapply inv_handler; [exact Hi|..].
  - intros ->%list_elem_of_singleton. subst sd. apply Go; [|unfold rank; cbn; lia].
    by eapply inv_handler; [exact Hi|..].
  - intros ->%list_elem_of_singleton. subst sd m. cbn in *. rewrite orb_true_r in *. cbn.
    apply Go; [|unfold rank; cbn; lia]. eapply inv_handler; [exact Hi|..]; unfold signalled, hholds; cbn; try done.
    + f_equal; [|by rewrite orb_true_r]. destruct (took c); [by specialize (Htook eq_refl)|done].
  - intros ->%list_elem_of_singleton. subst sd m. cbn in *. rewrite orb_true_r in *. cbn in *.
    assert (releasing c = false) as Hr by (destruct (releasing c); [by destruct (Hrel eq_refl)|done]).
    apply Go; [|unfold rank; cbn; destruct (_ =? _)%Z; cbn; lia].
    destruct (holds c) eqn:Eh; cbn; eapply inv_handler; try exact Hi; unfold signalled, hholds; cbn;
      rewrite ?Eh, ?Hr; done.
  - intros ->%list_elem_of_singleton. subst sd m. cbn in *. rewrite orb_true_r in *. cbn in *.
    destruct (Hhrel eq_refl) as [Eh Er]. apply Go; [|unfold rank; cbn; lia].
    eapply inv_handler; try exact Hi; unfold signalled, hholds; cbn; rewrite ?Eh, ?Er; done.
Qed.

Lemma run_inv es s n : nsteps step n (start es) s -> inv es s /\ (n + rank s <= 13 + 2 * length es)%nat.
Proof.
  intros H. destruct (nsteps_ranked step (fun s r => inv es s /\ r = rank s) n (start es) (rank (start es)) s)
    as (r & [Hi ->] & Hr); [|split; [apply inv_start|done]|done|].
  - intros a r b [Hi ->] [b' Hb]. apply elem_of_app in Hb as [Hb|Hb].
    + destruct (dial_caller_good es a _ Hi Hb) as (s' & [= ->] & ? & ?). eauto.
    + destruct (handler_good es a _ Hi Hb) as (s' & [= ->] & ? & ?). eauto.
  - split; [done|]. unfold rank at 2 in Hr. cbn in Hr. lia.
Qed.

Lemma stuck_final es s : inv es s -> moves s = [] ->
  (exists rc st, cpc s = CGone rc st) /\ hpc s = HIdle /\ events s = [] /\ alive (sem s) = false.
Proof.
  intros [Hsem Htook Hrel Hhrel Hset Hfirst Hto Hres Hcan Hse] Hm.
  apply app_eq_nil in Hm as [Hc Hh].
  assert (exists rc st, cpc s = CGone rc st) as (rc & st & Ec).
  { unfold caller_moves in Hc. destruct (cpc s); try discriminate Hc; eauto. by destruct (rc =? HTTPS_NW_OK). }
  assert (hpc s = HIdle /\ events s = []) as [Eh Ee].
  { unfold handler_moves in Hh. destruct (hpc s); try discriminate Hh; [|by destruct (settled s)].
    destruct (events s) as [|[]]; done. }
  split; [eauto|]. split; [done|]. split; [done|]. rewrite Hsem. cbn. unfold hholds, hreleasing. rewrite Ec, Eh. cbn.
  rewrite orb_false_r. assert (settled s = true) as ->; [|done].
  destruct (settled s) eqn:Es; [done|]. rewrite Ec in *. destruct (Z.eqb_spec rc HTTPS_NW_OK) as [->|Hrc].
  - unfold signalled in Htook. rewrite Es in Htook. by specialize (Htook eq_refl).
  - exfalso. apply (Hse Hcan). unfold settles. by rewrite Eh, Es, Ee.
Qed.
End DialProofs.

(** ** What a receive hands over *)

(** The bytes kept from an earlier delivery. *)
Definition left (c : https_nw_conn) : list Z :=
  match pending c with
  | Some p => ztake (pending_len c - pending_off c) (zdrop (pending_off c) p)
  | None => []
  end.

Definition conn_ok (c : https_nw_conn) : Prop :=
  match pending c with
  | Some p => zlen p = pending_len c /\ 0 <= pending_off c < pending_len c
  | None => pending_len c = 0 /\ pending_off c = 0
  end.

Lemma drain_correct c len :
  conn_ok c -> 0 < len ->
  match pending c with
  | None => drain c len = Done None
  | Some _ => exists bs c', drain c len = Done (Some (bs, c')) /\ conn_ok c' /\ left c = bs ++ left c' /\
      0 < zlen bs <= len /\ conn c' = conn c /\ queue c' = queue c /\ anchors c' = anchors c /\ eof c' = eof c
  end.
Proof.
  intros Hc Hl. unfold conn_ok, drain, left in *. destruct (pending c) as [p|] eqn:Ep; [|done].
  destruct Hc as [Lp Ho]. rewrite (proj2 (Z.ltb_lt _ _)) by lia.
  set (take := if pending_len c - pending_off c <? len then _ else _).
  assert (take = Z.min (pending_len c - pending_off c) len) as Et
    by (unfold take; destruct (Z.ltb_spec (pending_len c - pending_off c) len); lia).
  clearbody take. rewrite load_Done by lia. cbn [mbind outcome_bind].
  assert (ztake (pending_len c - pending_off c) (zdrop (pending_off c) p) =
    ztake take (zdrop (pending_off c) p) ++
    ztake (pending_len c - (pending_off c + take)) (zdrop (pending_off c + take) p)) as E.
  { replace (pending_len c - pending_off c) with (take + (pending_len c - (pending_off c + take))) by lia.
    rewrite ztake_add by lia. by rewrite zdrop_zdrop by lia. }
  assert (zlen (ztake take (zdrop (pending_off c) p)) = take) as Lt by zlens.
  destruct (Z.geb_spec (pending_off c + take) (pending_len c)).
  - eexists _, _. split; [done|]. cbn. split_and!; try done; try lia. rewrite app_nil_r.
    rewrite E. replace (_ - (_ + take)) with 0 by lia. by rewrite ztake_0, app_nil_r.
  - eexists _, _. split; [done|]. cbn. rewrite ?Ep. split_and!; try done; lia.
Qed.

(** What the result of a receive has to satisfy. *)
Definition delivered (c : https_nw_conn) (b : list Z) (len : Z) (d : Recv.delivery) (r : recv_result) : Prop :=
  let '(code, n, status, b', c') := r in
  conn_ok c' /\ conn c' = conn c /\ queue c' = queue c /\ anchors c' = anchors c /\
  0 <= n <= len /\ zlen b' = zlen b /\ zdrop len b' = zdrop len b /\
  (code = HTTPS_NW_ERR_TIMEOUT -> b' = b /\ c' = c) /\
  (code <> HTTPS_NW_OK -> n = 0 /\ left c' = left c) /\
  (code = HTTPS_NW_OK -> exists arrived, (arrived = [] \/ arrived = RecvProofs.mapped d) /\
     (Recv.room d = true \/ zlen arrived <= len -> left c ++ arrived = ztake n b' ++ left c')) /\
  (code = HTTPS_NW_OK -> n = 0 -> zlen (RecvProofs.mapped d) = 0 \/ eof c' = true).

Lemma recv_now_delivered c b len d r :
  conn_ok c -> 0 < len <= zlen b -> len < 2 ^ 31 -> conn c <> 0 ->
  https_nw_recv_now (Some c) b len = Done (Some r) -> delivered c b len d r.
Proof.
  intros Hc Hl Hi Hn. unfold https_nw_recv_now. rewrite (proj2 (Z.eqb_neq _ _) Hn).
  destruct (Z.leb_spec len 0); [lia|]. pose proof (drain_correct c len Hc ltac:(lia)) as Hd.
  destruct (pending c) as [p|] eqn:Ep.
  - destruct Hd as (bs & c' & -> & Hc' & El & Lb & ? & ? & ? & ?). cbn [mbind outcome_bind].
    rewrite store_splice by lia. cbn [mbind outcome_bind]. intros [= <-]. unfold delivered.
    change (2 ^ 31) with 2147483648 in Hi. rewrite to_int_id by (change (2 ^ 31) with 2147483648; lia).
    split_and!; try done; try lia.
    + apply zlen_splice; lia.
    + replace len with (zlen bs + (len - zlen bs)) by lia. rewrite <- !zdrop_zdrop by lia.
      by rewrite splice_0_suffix by lia.
    + intros _. exists []. split; [by left|]. intros _. rewrite app_nil_r, splice_0_prefix by lia. done.
  - rewrite Hd. cbn [mbind outcome_bind]. destruct (eof c) eqn:Ee; [|done]. intros [= <-]. unfold delivered.
    split_and!; try done; try lia.
    + intros _. exists []. split; [by left|]. intros _. by rewrite ztake_0, app_nil_r.
    + intros _ _. by right.
Qed.

Lemma recv_finish_delivered c b len d s timed :
  conn_ok c -> 0 < len <= zlen b -> len < 2 ^ 31 -> pending c = None ->
  rtc (Recv.step len d) (Recv.start b) s -> Recv.cpc s = Recv.CGone timed ->
  delivered c b len d (recv_finish c s timed).
Proof.
  intros Hc Hl Hi Hp Hr Eg.
  assert (exists k, s = RecvProofs.at_ len d b (Recv.CGone timed) k /\
    RecvProofs.possible (Recv.CGone timed) k = true) as (k & -> & Hk).
  { destruct (RecvProofs.reachable_at len d b ltac:(lia) s Hr) as (c' & k & -> & Hk).
    cbn in Eg. subst c'. by exists k. }
  assert (left c = []) as Lc by (unfold left; by rewrite Hp).
  unfold recv_finish. destruct timed.
  - cbn [Recv.buf RecvProofs.at_ RecvProofs.timed negb andb]. rewrite andb_false_r. unfold delivered. split_and!; try done; lia.
  - assert (RecvProofs.copied k = true /\ RecvProofs.noted k = true) as [Ec En] by (by destruct k).
    destruct (RecvProofs.taken_range len d b ltac:(lia)) as [Ht1 Ht2].
    set (m := RecvProofs.mapped d) in *. set (tk := RecvProofs.taken len d) in *.
    assert (zlen (ztake tk m) = tk) as Lt by (apply zlen_ztake; lia).
    assert (zlen (RecvProofs.filled len d b) = zlen b) as Lf.
    { unfold RecvProofs.filled. fold tk m. apply zlen_splice; lia. }
    assert (zdrop len (RecvProofs.filled len d b) = zdrop len b) as Df.
    { unfold RecvProofs.filled. fold tk m. replace len with (zlen (ztake tk m) + (len - tk)) by lia.
      rewrite <- !zdrop_zdrop by lia. by rewrite splice_0_suffix by lia. }
    assert (ztake tk (RecvProofs.filled len d b) = ztake tk m) as Tf.
    { unfold RecvProofs.filled. fold tk m. rewrite <- Lt at 1. apply splice_0_prefix. lia. }
    unfold RecvProofs.at_. cbn [Recv.recv_status Recv.got_len Recv.spill Recv.is_eof Recv.buf RecvProofs.timed].
    rewrite Ec, En. cbn [negb andb]. fold tk.
    destruct (Z.eqb_spec (Recv.error d) 0) as [E0|E0]; cbn [negb].
    2:{ unfold delivered. split_and!; try done; lia. }
    change (2 ^ 31) with 2147483648 in Hi. rewrite to_int_id by (change (2 ^ 31) with 2147483648; lia).
    unfold RecvProofs.spilled. fold m tk.
    assert (tk = Z.min (zlen m) len) as Etk by done. pose proof (zlen_nonneg m).
    assert (forall c', conn c' = conn c -> queue c' = queue c -> anchors c' = anchors c -> conn_ok c' ->
      (Recv.room d = true \/ zlen m <= len -> left c' = zdrop tk m) ->
      eof c' = (if Recv.complete d then true else eof c) ->
      delivered c b len d (HTTPS_NW_OK, tk, 0, RecvProofs.filled len d b, c')) as Fin.
    { intros c' ? ? ? Hc' Hlf He. unfold delivered. fold m. split_and!; try done; try lia.
      intros _. exists m. split; [by right|]. intros Hroom. rewrite Lc, (Hlf Hroom), Tf. symmetry. apply ztake_zdrop. }
    destruct (Z.ltb_spec len (zlen m)); [destruct (Recv.room d) eqn:Er|]; cbn [andb]; apply Fin; try done.
    + unfold conn_ok. cbn. rewrite zlen_zdrop by lia. lia.
    + intros _. unfold left. cbn. rewrite Z.sub_0_r, zdrop_0. apply ztake_all. lia.
    + intros [|]; [done|lia].
    + intros _. unfold left. cbn. rewrite Hp. symmetry. apply zdrop_all. lia.
Qed.

(** ** Verification and ownership *)

Section connection.
Context (env : environment call resp).

(** The calls that set the options up, newest first, on the options object [sec]: none if
    there is none. *)
Definition option_calls (sec : Z) (name : option (list Z)) (mv : Z) (v : verify_block) : list call :=
  if sec =? 0 then [] else
  match v with VDefault => [] | _ => [CSetVerify sec v] end ++
  (if mv =? 0 then [] else [CSetMinVersion sec (mv mod 2 ^ 16)]) ++
  match name with Some (x :: l) => [CSetServerName sec (x :: l)] | _ => [] end.

Lemma wp_configure_tls options name mv v w :
  wp (configure_tls env options name mv v) (fun _ w' => h_refs w' = h_refs w /\ h_st w' = h_st w /\
    h_hist w' = option_calls (env (h_hist w) (CCopySec options)) name mv v ++ CCopySec options :: h_hist w) w.
Proof.
  unfold configure_tls. wp_step. apply wp_owning. apply (wp_ext env (CCopySec options)).
  cbn [hist host_traced resp h_hist h_refs h_st push]. set (sec := env (h_hist w) (CCopySec options)).
  unfold option_calls. destruct (Z.eqb_spec sec 0) as [E|Hr]; [rewrite E; wp_step; split_and!; [cbn; clear; multiset_solver|done..]|].
  assert (held ROS sec = {[+ ROS sec +]}) as -> by (unfold held; by rewrite (proj2 (Z.eqb_neq sec 0))).
  set (P := fun (new : list call) (_ : unit) (w' : world) => h_refs w' = h_refs w ⊎ {[+ ROS sec +]} /\
    h_st w' = h_st w /\ h_hist w' = new ++ CCopySec options :: h_hist w).
  set (n1 := match name with Some (x :: l) => [CSetServerName sec (x :: l)] | _ => [] end).
  wp_step. apply (wp_mono _ (P n1)).
  2:{ unfold n1. destruct name as [[|x l]|]; by repeat wp_step. }
  intros _ w1 (R1 & S1 & H1). wp_step.
  set (n2 := if mv =? 0 then [] else [CSetMinVersion sec (mv mod 2 ^ 16)]).
  apply (wp_mono _ (P (n2 ++ n1))).
  2:{ unfold n2. destruct (mv =? 0); repeat wp_step; unfold P; cbn; by rewrite ?H1. }
  clear w1 R1 S1 H1. intros _ w1 (R1 & S1 & H1). wp_step.
  set (n3 := match v with VDefault => [] | _ => [CSetVerify sec v] end).
  apply (wp_mono _ (P (n3 ++ n2 ++ n1))).
  2:{ unfold n3. destruct v; repeat wp_step; unfold P; cbn; by rewrite ?H1. }
  clear w1 R1 S1 H1. intros _ w1 (R1 & S1 & H1). eapply wp_give; [exact R1|]. by rewrite S1, H1.
Qed.

(** Which of the calls a configuration makes. *)
Lemma option_calls_spec sec name mv skip custom only a :
  sec <> 0 ->
  let new := option_calls sec name mv (verify_of skip custom only a) in
  (CSetVerify sec VAccept ∈ new <-> skip = true) /\
  (CSetVerify sec (VAnchors a only) ∈ new <-> skip = false /\ (custom = true \/ only = true)) /\
  ((forall b, CSetVerify sec b ∉ new) <-> skip = false /\ custom = false /\ only = false) /\
  (forall sec' b, CSetVerify sec' b ∈ new -> sec' = sec /\ (b = VAccept \/ b = VAnchors a only)) /\
  (mv <> 0 -> CSetMinVersion sec (mv mod 2 ^ 16) ∈ new) /\
  (forall x l, name = Some (x :: l) -> CSetServerName sec (x :: l) ∈ new).
Proof.
  intros Hs new. unfold new, option_calls. rewrite (proj2 (Z.eqb_neq sec 0)) by done.
  assert (forall sec' b, CSetVerify sec' b ∈ (if mv =? 0 then [] else [CSetMinVersion sec (mv mod 2 ^ 16)]) ++
    match name with Some (x :: l) => [CSetServerName sec (x :: l)] | _ => [] end -> False) as No.
  { intros sec' b. destruct (mv =? 0), name as [[|x l]|]; cbn; rewrite ?elem_of_cons, elem_of_nil; naive_solver. }
  split_and!.
  5:{ intros Hm. rewrite (proj2 (Z.eqb_neq mv 0)) by done. apply elem_of_app. right. apply elem_of_app. left. by left. }
  5:{ intros x l ->. apply elem_of_app. right. apply elem_of_app. right. by left. }
  all: setoid_rewrite elem_of_app.
  all: set (rest := (if mv =? 0 then [] else _) ++ _) in *; clearbody rest.
  all: unfold verify_of; destruct skip, custom, only; cbn [orb]; try setoid_rewrite elem_of_cons; try setoid_rewrite elem_of_nil.
  all: naive_solver.
Qed.

(** The calls the verify block makes, newest first, and the verdict it gives. *)
Definition verdict (v : verify_block) (trust : Z) (h new : list call) : Prop :=
  match v with
  | VDefault => new = []
  | VAccept => new = [CComplete true]
  | VAnchors a only =>
      new = [CComplete false; CTrustCopy trust] \/
      exists ref err ok,
        new = [CComplete ok; CEvaluate ref; CSetAnchorsOnly ref only; CSetAnchors ref a; CTrustCopy trust] /\
        ref = env h (CTrustCopy trust) /\ ref <> 0 /\
        env (CSetAnchorsOnly ref only :: CSetAnchors ref a :: CTrustCopy trust :: h) (CEvaluate ref) = (ok, err)
  end.

Lemma wp_run_verify v trust w :
  wp (run_verify env v trust) (fun _ w' => h_refs w' = h_refs w /\ h_st w' = h_st w /\
    exists new, h_hist w' = new ++ h_hist w /\ verdict v trust (h_hist w) new) w.
Proof.
  unfold run_verify. destruct v as [|a only|].
  - wp_step. split_and!; [done..|]. by exists [CComplete true].
  - wp_step. apply wp_owning. apply (wp_ext env (CTrustCopy trust)).
    cbn [hist host_traced resp h_hist h_refs h_st push]. set (ref := env (h_hist w) (CTrustCopy trust)).
    destruct (Z.eqb_spec ref 0) as [E|Hr].
    { rewrite E. wp_step. split_and!; [cbn; clear; multiset_solver|done|].
      exists [CComplete false; CTrustCopy trust]. split; [done|by left]. }
    assert (held RCF ref = {[+ RCF ref +]}) as -> by (unfold held; by rewrite (proj2 (Z.eqb_neq ref 0))).
    do 4 wp_step. wp_step. apply (wp_ext env (CEvaluate ref)). cbn [hist host_traced h_hist h_refs h_st push].
    destruct (env _ (CEvaluate ref)) as [ok err] eqn:Ee. wp_step.
    apply (wp_mono _ (fun _ w' => w' = Host
      (CEvaluate ref :: CSetAnchorsOnly ref only :: CSetAnchors ref a :: CTrustCopy trust :: h_hist w)
      (h_refs w ⊎ {[+ RCF ref +]} ⊎ held RCF err) (h_st w))).
    2:{ unfold held. destruct (err =? 0); [wp_step|by apply wp_acquire]. f_equal. clear. multiset_solver. }
    intros _ w1 ->. wp_step. eapply wp_release_nz; [reflexivity|]. cbn [h_hist h_st]. wp_step. give. wp_step.
    split_and!; [done..|]. eexists [_; _; _; _; _]. split; [done|]. right. by exists ref, err, ok.
  - wp_step. split_and!; [done..|]. by exists [].
Qed.

Lemma wp_close p c R w :
  p <> 0 -> conn c <> 0 -> queue c <> 0 -> h_st w !! p = Some c ->
  h_refs w = R ⊎ held RCF (anchors c) ⊎ {[+ ROS (queue c) +]} ⊎ {[+ ROS (conn c) +]} ->
  wp (https_nw_close env p) (fun _ w' => h_refs w' = R /\ h_st w' = delete p (h_st w)) w.
Proof.
  intros Hp Hc Hq Hs HR. unfold https_nw_close. rewrite (proj2 (Z.eqb_neq p 0)) by done. wp_step.
  eapply wp_load_obj; [done|]. rewrite (proj2 (Z.eqb_neq _ _) Hc). do 2 wp_step. wp_step.
  eapply wp_give; [exact HR|]. cbn [h_hist h_refs h_st push host_traced]. wp_step.
  eapply wp_release_nz; [unfold held at 2; by rewrite (proj2 (Z.eqb_neq _ _) Hq)|]. wp_step.
  eapply wp_release_nz; [done|]. by eapply wp_drop_obj.
Qed.

(** The calls of a dial that succeeds, newest first: the number of anchors is asked for if
    there is a list; the parameters are created with the block that sets up the
    verification the configuration asks for, and the connection started is the one
    created with them. *)
Definition dial_calls (w : world) (host port : list Z) (name : option (list Z)) (skip : bool) (calist : Z)
    (only : bool) (mv timeout cn : Z) (w' : world) : Prop :=
  exists ep pr q,
    let n := if calist =? 0 then 0 else env (h_hist w) (CArrayCount calist) in
    let h0 := (if calist =? 0 then [] else [CArrayCount calist]) ++ h_hist w in
    let cp := CParams name mv (verify_of skip (n >? 0) only calist) in
    env h0 (CEndpoint host port) = ep /\ env (CEndpoint host port :: h0) cp = pr /\
    env (CCalloc :: cp :: CEndpoint host port :: h0) (CConnCreate ep pr) = cn /\
    h_hist w' = CAwait cn timeout :: CStart cn :: CSetQueue cn q :: CQueueCreate :: CConnCreate ep pr ::
      CCalloc :: cp :: CEndpoint host port :: h0.

(** What a dial leaves: nothing, or a connection that holds its two objects. *)
Definition dialled (w : world) (host port : list Z) (name : option (list Z)) (skip : bool) (calist : Z)
    (only : bool) (mv timeout : Z) (r : Z * Z * Z) (w' : world) : Prop :=
  let '(code, out, status) := r in
  if code =? HTTPS_NW_OK then
    exists cn q, (exists h, out = env h CCalloc) /\ (exists h, q = env h CQueueCreate) /\
      out <> 0 /\ cn <> 0 /\ h_refs w' = h_refs w ⊎ {[+ ROS q +]} ⊎ {[+ ROS cn +]} /\
      h_st w' = <[out := Conn cn q calist None 0 0 false]> (h_st w) /\
      dial_calls w host port name skip calist only mv timeout cn w'
  else out = 0 /\ h_refs w' = h_refs w /\ (h_st w' = h_st w \/ exists h, h_st w' = delete (env h CCalloc) (h_st w)).

Lemma wp_dial host port name skip calist only mv timeout w :
  wp (https_nw_dial env host port name skip calist only mv timeout)
    (dialled w host port name skip calist only mv timeout) w.
Proof.
  assert (forall (mk : Z -> res) p, p <> 0 -> held mk p = {[+ mk p +]}) as Hnz.
  { intros mk p H. unfold held. by rewrite (proj2 (Z.eqb_neq p 0)). }
  unfold https_nw_dial. wp_step. set (n := if calist =? 0 then 0 else env (h_hist w) (CArrayCount calist)).
  set (h0 := (if calist =? 0 then [] else [CArrayCount calist]) ++ h_hist w).
  apply (wp_mono _ (fun k w' => k = n /\ w' = Host h0 (h_refs w) (h_st w))).
  2:{ unfold n, h0. destruct (calist =? 0); [wp_step; split; [done|by destruct w]|].
      by apply (wp_ext env (CArrayCount calist)). }
  intros ? ? [-> ->]. wp_step. apply wp_owning. apply (wp_ext env (CEndpoint host port)).
  cbn [hist host_traced resp h_hist h_refs h_st push]. set (ep := env h0 (CEndpoint host port)).
  assert (env h0 (CEndpoint host port) = ep) as Ee by done. clearbody ep.
  destruct (Z.eqb_spec ep 0) as [->|He].
  { wp_step. unfold dialled. cbn. split_and!; [done|clear; multiset_solver|by left]. }
  rewrite Hnz by done. wp_step. apply wp_owning. set (cp := CParams _ _ _). apply (wp_ext env cp).
  cbn [hist host_traced resp h_hist h_refs h_st push]. set (pr := env (CEndpoint host port :: h0) cp).
  assert (env (CEndpoint host port :: h0) cp = pr) as Ep by done. clearbody pr.
  destruct (Z.eqb_spec pr 0) as [->|Hpr]; [wp_step; give (h_refs w); wp_step; unfold dialled; cbn; by split_and!; [..|left]|].
  rewrite Hnz by done. wp_step. apply (wp_ext env CCalloc). cbn [h_hist h_refs h_st push host_traced hist resp].
  set (p := env (cp :: CEndpoint host port :: h0) CCalloc).
  assert (exists h, p = env h CCalloc) as Epp by (by eexists). clearbody p.
  destruct (Z.eqb_spec p 0) as [|Hp]; [wp_step; give; wp_step; give; wp_step; unfold dialled; cbn; by split_and!; [..|left]|].
  wp_step. apply wp_new_obj. cbn [h_hist h_refs h_st]. wp_step. apply wp_owning. set (cc := CConnCreate ep pr).
  apply (wp_ext env cc). cbn [hist host_traced resp h_hist h_refs h_st push].
  set (cn := env (CCalloc :: cp :: CEndpoint host port :: h0) cc).
  assert (env (CCalloc :: cp :: CEndpoint host port :: h0) cc = cn) as Ec by done. clearbody cn.
  wp_step. give (h_refs w ⊎ {[+ ROS ep +]} ⊎ held ROS cn).
  wp_step. give (h_refs w ⊎ held ROS cn).
  destruct (Z.eqb_spec cn 0) as [->|Hcn].
  { wp_step. eapply wp_drop_obj; [apply lookup_insert_eq|]. wp_step. unfold dialled. cbn. destruct Epp as [h ->].
    split_and!; [done|clear; multiset_solver|right; exists h; by rewrite delete_insert_eq]. }
  rewrite Hnz by done. wp_step. apply (wp_ext env CQueueCreate). cbn [h_hist h_refs h_st push host_traced hist resp].
  match goal with |- context [env ?h CQueueCreate] => set (q := env h CQueueCreate);
    assert (exists g, q = env g CQueueCreate) as Eq by (by eexists); clearbody q end.
  wp_step. apply wp_acquire. wp_step. eapply wp_store_obj; [apply lookup_insert_eq|].
  cbn [h_hist h_refs h_st push host_traced]. rewrite insert_insert_eq. do 4 wp_step. do 2 wp_step. destruct r1 as [rc st].
  destruct (Z.eqb_spec rc HTTPS_NW_OK) as [->|Hrc]; cbn [negb].
  - wp_step. unfold dialled. cbn [Z.eqb]. exists cn, q. cbn [h_hist h_refs h_st push host_traced].
    split_and!; try done; [clear; multiset_solver|]. exists ep, pr, q. cbv zeta. fold n h0 cp cc. by split_and!.
  - do 2 wp_step. wp_step. cbn [h_hist h_refs h_st push host_traced]. give (h_refs w ⊎ {[+ ROS q +]}). wp_step. give. wp_step.
    eapply wp_drop_obj; [apply lookup_insert_eq|]. wp_step. unfold dialled. rewrite (proj2 (Z.eqb_neq _ _) Hrc).
    cbn. destruct Epp as [h ->]. split_and!; [done|done|right; exists h; by rewrite delete_insert_eq].
Qed.
End connection.

(** ** Properties *)

(** C7.  In every interleaving of a receive or a send with its completion, including all
    in which the caller times out: no thread touches the semaphore after its release or
    the caller's buffer after the caller has left, there are at most eleven (seven)
    atomic accesses, neither thread can be stuck before its end, and when both have ended
    the semaphore is released. *)
Theorem recv_send_handoff (len : Z) (d : Recv.delivery) (b : list Z) (s : Recv.state) (n : nat)
  (error : Z) (s2 : Send.state) (n2 : nat)
  (Hlen : 0 < len <= zlen b) (Hrun : nsteps (Recv.step len d) n (Recv.start b) s)
  (Hrun2 : nsteps (Send.step error) n2 Send.start s2) :
  ((forall o, o ∈ Recv.moves len d s -> exists s', o = Done s') /\ (n <= 11)%nat /\
   (Recv.moves len d s = [] ->
     exists t, Recv.cpc s = Recv.CGone t /\ Recv.kpc s = Recv.KDone /\ alive (Recv.sem s) = false)) /\
  ((forall o, o ∈ Send.moves error s2 -> exists s', o = Done s') /\ (n2 <= 7)%nat /\
   (Send.moves error s2 = [] ->
     exists t, Send.cpc s2 = Send.CGone t /\ Send.kpc s2 = Send.KDone /\ alive (Send.sem s2) = false)).
Proof.
  split.
  - destruct (RecvProofs.recv_run_at len d b Hlen s n Hrun) as (c & k & -> & Hp & Hr). split_and!; [|lia|].
    + intros o Ho. destruct (RecvProofs.recv_moves_good len d b Hlen c k o Hp Ho) as (? & ? & -> & _). eauto.
    + intros Hm. destruct (RecvProofs.recv_stuck_at len d b c k Hp Hm) as [Hg ->].
      destruct c as [| | | | |t]; try done. by exists t.
  - destruct (SendProofs.send_run_at error s2 n2 Hrun2) as (c & k & -> & Hp & Hr). split_and!; [|lia|].
    + intros o Ho. destruct (SendProofs.send_moves_good error c k o Hp Ho) as (? & ? & -> & _). eauto.
    + intros Hm. destruct (SendProofs.send_stuck_at error c k Hp Hm) as [Hg ->].
      destruct c as [| | |t]; try done. by exists t.
Qed.

(** C8.  In every interleaving of a dial with the connection's state handler, whatever
    the state changes: the semaphore is never touched after its release, the threads end
    after a bounded number of accesses and then the semaphore is released; and the result
    is the time-out or that of the first state change that decides, so a dial succeeds
    only if "ready" came first. *)
Theorem dial_handoff (es : list (Z * Z)) (s : Dial.state) (n : nat)
  (Hrun : nsteps Dial.step n (Dial.start es) s) :
  (forall o, o ∈ Dial.moves s -> exists s', o = Done s') /\ (n <= 13 + 2 * length es)%nat /\
  (Dial.moves s = [] -> (exists rc st, Dial.cpc s = Dial.CGone rc st) /\ Dial.hpc s = Dial.HIdle /\
     Dial.events s = [] /\ alive (Dial.sem s) = false) /\
  (forall rc st, Dial.cpc s = Dial.CGone rc st -> rc <> HTTPS_NW_ERR_TIMEOUT ->
     exists st', DialProofs.first_outcome es = Some (rc, st') /\ st = if rc =? HTTPS_NW_OK then 0 else st').
Proof.
  destruct (DialProofs.run_inv es s n Hrun) as [Hi Hr]. split_and!; [|lia| |].
  - intros o Ho. apply elem_of_app in Ho as [Ho|Ho].
    + destruct (DialProofs.dial_caller_good es s o Hi Ho) as (? & -> & _). eauto.
    + destruct (DialProofs.handler_good es s o Hi Ho) as (? & -> & _). eauto.
  - intros Hm. by apply (DialProofs.stuck_final es).
  - intros rc st Ec. apply (DialProofs.i_result es s Hi). by rewrite Ec.
Qed.


(** A dial that fails leaves no object and no memory behind; one that succeeds
    leaves a connection, and closing it gives back its objects and the anchors and frees
    the record. *)
Theorem nw_lifecycle (env : environment call resp) (host port : list Z) (name : option (list Z))
  (skip : bool) (calist : Z) (only : bool) (mv timeout_ns : Z) (R : gmultiset res) (w : world)
  (Hfresh : forall h, h_st w !! env h CCalloc = None) (Hqueue : forall h, env h CQueueCreate <> 0)
  (Hrefs : h_refs w = R ⊎ held RCF calist) :
  wp (https_nw_dial env host port name skip calist only mv timeout_ns)
    (fun '(code, out, status) w' =>
       if code =? HTTPS_NW_OK
       then out <> 0 /\ (exists c, h_st w' = <[out := c]> (h_st w) /\ conn_ok c /\ conn c <> 0) /\
            wp (https_nw_close env out) (fun _ w'' => h_refs w'' = R /\ h_st w'' = h_st w) w'
       else out = 0 /\ h_refs w' = h_refs w /\ h_st w' = h_st w) w.
Proof.
  eapply wp_mono; [|by apply wp_dial]. intros [[code out] st] w'. unfold dialled.
  destruct (code =? HTTPS_NW_OK).
  2:{ intros (? & ? & [|[h HS]]); [done|]. split_and!; [done..|]. rewrite HS. by apply delete_id. }
  intros (cn & q & [h1 Eo] & [h2 Eq] & Ho & Hc & HR & HS & _).
  assert (h_st w !! out = None) as Hn by (by rewrite Eo). assert (q <> 0) as Hq by (by rewrite Eq).
  split; [done|]. split; [by eexists|].
  eapply wp_mono; [|apply (wp_close env out (Conn cn q calist None 0 0 false) R); try done].
  - cbv beta. intros _ w2 [R2 S2']. split; [done|]. by rewrite S2', HS, delete_insert_id.
  - rewrite HS. apply lookup_insert_eq.
  - cbn. by rewrite HR, Hrefs.
Qed.

(** C40.  How a peer is verified.  A dial that succeeds created its parameters with the
    block that sets the options up for exactly the verification asked for (anchors count
    as given if the list is there and not empty), and started the connection made with
    these parameters.  That block, if the framework gives it the options object, sets the
    server name and the minimum version where they are given, and the verify block: the
    one that accepts everything if verification is to be skipped, the one with the
    anchors if there are anchors or they are to be used alone, and none, which leaves the
    framework's own verification, if and only if none of the three holds; without the
    object it sets nothing at all, and the framework's own verification stays in place
    whatever was asked for.  The verify block accepts a peer only if verification is
    skipped, or the trust was evaluated and holds after the anchors, and whether they are
    the only ones, were set as asked for.  Neither block leaves a reference behind. *)
Theorem nw_verify_sound (env : environment call resp) (host port : list Z) (name : option (list Z))
  (skip : bool) (calist : Z) (only custom : bool) (mv timeout trust options : Z) (w : world) :
  let v := verify_of skip custom only calist in
  wp (https_nw_dial env host port name skip calist only mv timeout)
    (fun '(code, _, _) w' => code = HTTPS_NW_OK ->
       exists cn, dial_calls env w host port name skip calist only mv timeout cn w') w /\
  wp (configure_tls env options name mv v)
    (fun _ w' => h_refs w' = h_refs w /\ h_st w' = h_st w /\
       let sec := env (h_hist w) (CCopySec options) in
       exists new, h_hist w' = new ++ CCopySec options :: h_hist w /\
         (sec = 0 -> new = []) /\
         (sec <> 0 ->
           (CSetVerify sec VAccept ∈ new <-> skip = true) /\
           (CSetVerify sec (VAnchors calist only) ∈ new <-> skip = false /\ (custom = true \/ only = true)) /\
           ((forall b, CSetVerify sec b ∉ new) <-> skip = false /\ custom = false /\ only = false) /\
           (forall sec' b, CSetVerify sec' b ∈ new -> sec' = sec /\ (b = VAccept \/ b = VAnchors calist only)) /\
           (mv <> 0 -> CSetMinVersion sec (mv mod 2 ^ 16) ∈ new) /\
           (forall x l, name = Some (x :: l) -> CSetServerName sec (x :: l) ∈ new))) w /\
  wp (run_verify env v trust)
    (fun _ w' => h_refs w' = h_refs w /\ h_st w' = h_st w /\
       (CComplete true ∈ take (length (h_hist w') - length (h_hist w)) (h_hist w') ->
          skip = true \/ exists ref err, ref = env (h_hist w) (CTrustCopy trust) /\ ref <> 0 /\
            env (CSetAnchorsOnly ref only :: CSetAnchors ref calist :: CTrustCopy trust :: h_hist w)
              (CEvaluate ref) = (true, err))) w.
Proof.
  intros v. split_and!.
  - eapply wp_mono; [|apply wp_dial]. intros [[code out] st] w' H ->. unfold dialled in H. cbn [Z.eqb] in H.
    destruct H as (cn & q & _ & _ & _ & _ & _ & _ & H). by exists cn.
  - eapply wp_mono; [|apply wp_configure_tls]. cbv beta. intros _ w' (R & S & H). split_and!; [done|done|].
    cbv zeta. set (sec := env (h_hist w) (CCopySec options)) in *. eexists. split; [exact H|].
    split; [by intros ->|]. intros Hs. unfold v. by apply option_calls_spec.
  - eapply wp_mono; [|apply wp_run_verify]. cbv beta.
    intros _ w' (R & S & new & Hh & Hv). split_and!; [done|done|].
    rewrite Hh, length_app, Nat.add_sub, take_app_length. unfold v, verify_of in *.
    destruct skip; [by left|]. destruct (custom || only); cbn [verdict] in Hv; subst.
    + destruct Hv as [->|(ref & err & ok & -> & Er & Hr & Ee)]; intros Hin.
      * rewrite !elem_of_cons, elem_of_nil in Hin. naive_solver.
      * right. exists ref, err. split; [done|]. split; [done|]. rewrite !elem_of_cons, elem_of_nil in Hin.
        destruct Hin as [[= <-]|[|[|[|[|[]]]]]]; done.
    + by intros ?%elem_of_nil.
Qed.

(** ** Runs *)

(** Takes the first move [n] times. *)
Fixpoint drive {A} (moves : A -> list (outcome A)) (n : nat) (s : A) : A :=
  match n with
  | O => s
  | S n => match moves s with Done s' :: _ => drive moves n s' | _ => s end
  end.

(** Whether there are that many. *)
Fixpoint drives {A} (moves : A -> list (outcome A)) (n : nat) (s : A) : bool :=
  match n with
  | O => true
  | S n => match moves s with Done s' :: _ => drives moves n s' | _ => false end
  end.

Lemma drive_run {A} (moves : A -> list (outcome A)) (R : A -> A -> Prop) n : forall s,
  (forall a b, Done b ∈ moves a -> R a b) -> drives moves n s = true -> nsteps R n s (drive moves n s).
Proof.
  induction n as [|n IH]; intros s HR H; cbn in *; [apply nsteps_O|].
  destruct (moves s) as [|[s'| |] l] eqn:E; try done. eapply nsteps_l; [|by apply IH].
  apply HR. rewrite E. left.
Qed.

Definition demo_delivery : Recv.delivery :=
  {| Recv.content := Some [7; 8; 9]; Recv.complete := false; Recv.error := 0; Recv.room := true |}.

(** The caller times out, and the completion runs afterwards. *)
Lemma recv_send_handoff_witness :
  let s := drive (Recv.moves 2 demo_delivery) 9 (Recv.start [0; 0]) in
  let s2 := drive (Send.moves 0) 6 Send.start in
  ((forall o, o ∈ Recv.moves 2 demo_delivery s -> exists s', o = Done s') /\ (9 <= 11)%nat /\
   (Recv.moves 2 demo_delivery s = [] ->
     exists t, Recv.cpc s = Recv.CGone t /\ Recv.kpc s = Recv.KDone /\ alive (Recv.sem s) = false)) /\
  ((forall o, o ∈ Send.moves 0 s2 -> exists s', o = Done s') /\ (6 <= 7)%nat /\
   (Send.moves 0 s2 = [] ->
     exists t, Send.cpc s2 = Send.CGone t /\ Send.kpc s2 = Send.KDone /\ alive (Send.sem s2) = false)).
Proof.
  intros s s2. apply (recv_send_handoff 2 demo_delivery [0; 0] s 9 0 s2 6).
  - unfold zlen. cbn. lia.
  - apply drive_run; [by constructor|reflexivity].
  - apply drive_run; [by constructor|reflexivity].
Defined.

Lemma dial_handoff_witness :
  let s := drive Dial.moves 9 (Dial.start [(2, 0); (3, 0)]) in
  (forall o, o ∈ Dial.moves s -> exists s', o = Done s') /\ (9 <= 13 + 2 * 2)%nat /\
  (Dial.moves s = [] -> (exists rc st, Dial.cpc s = Dial.CGone rc st) /\ Dial.hpc s = Dial.HIdle /\
     Dial.events s = [] /\ alive (Dial.sem s) = false) /\
  (forall rc st, Dial.cpc s = Dial.CGone rc st -> rc <> HTTPS_NW_ERR_TIMEOUT ->
     exists st', DialProofs.first_outcome [(2, 0); (3, 0)] = Some (rc, st') /\
       st = if rc =? HTTPS_NW_OK then 0 else st').
Proof.
  intros s. apply (dial_handoff [(2, 0); (3, 0)] s 9).
  apply drive_run; [by constructor|reflexivity].
Defined.

Definition demo_nw_conn : https_nw_conn := Conn 5 6 7 (Some [1; 2; 3]) 3 1 false.


(** A receive that waits and fills the buffer, with the rest kept. *)
Example recv_waits_runs :
  https_nw_recv (Some (Conn 5 6 7 None 0 0 false)) [0; 0; 0] 2 demo_delivery
    (HTTPS_NW_OK, 2, 0, [7; 8; 0], Conn 5 6 7 (Some [9]) 1 0 false).
Proof.
  apply (recv_waits _ _ _ _ (Conn 5 6 7 None 0 0 false)
    (RecvProofs.at_ 2 demo_delivery [0; 0; 0] (Recv.CGone false) Recv.KDone) false); try reflexivity.
  apply rtc_nsteps. exists 8%nat.
  assert (forall c k c' k', Done (RecvProofs.at_ 2 demo_delivery [0; 0; 0] c' k') ∈
      Recv.moves 2 demo_delivery (RecvProofs.at_ 2 demo_delivery [0; 0; 0] c k) ->
    Recv.step 2 demo_delivery (RecvProofs.at_ 2 demo_delivery [0; 0; 0] c k)
      (RecvProofs.at_ 2 demo_delivery [0; 0; 0] c' k')) as Go by (by constructor).
  change (Recv.start [0; 0; 0]) with (RecvProofs.at_ 2 demo_delivery [0; 0; 0] Recv.CWait Recv.KIdle).
  eapply nsteps_l; [apply (Go _ _ Recv.CWait (Recv.KCopy true)); right; left|].
  eapply nsteps_l; [apply (Go _ _ Recv.CWait Recv.KNote); right; left|].
  eapply nsteps_l; [apply (Go _ _ Recv.CWait Recv.KSignal); right; left|].
  eapply nsteps_l; [apply (Go _ _ Recv.CWait Recv.KDrop); right; left|].
  eapply nsteps_l; [apply (Go _ _ (Recv.CDrop false) Recv.KDrop); right; left|].
  eapply nsteps_l; [apply (Go _ _ (Recv.CDrop false) Recv.KDone); right; left|].
  eapply nsteps_l; [apply (Go _ _ (Recv.CRelease false) Recv.KDone); left|].
  eapply nsteps_l; [apply (Go _ _ (Recv.CGone false) Recv.KDone); left|]. apply nsteps_O.
Qed.

Definition demo_nw : environment call resp := fun h c =>
  match c as c return resp c with
  | CAwait _ _ => (HTTPS_NW_OK, 0)
  | CEvaluate _ => (true, 0)
  | CArrayAppend _ _ | CSetQueue _ _ | CStart _ | CCancelConn _ | CSetServerName _ _
  | CSetMinVersion _ _ | CSetVerify _ _ | CSetAnchors _ _ | CSetAnchorsOnly _ _ | CComplete _ => tt
  | CCalloc => 64
  | CArrayCount _ => 1
  | CEndpoint _ _ => 11
  | CParams _ _ _ => 12
  | CConnCreate _ _ => 13
  | CQueueCreate => 14
  | CArrayCreate | CDataCreate _ | CCertCreate _ | CCopySec _ | CTrustCopy _ => 15
  end.

Definition anchored_world : world := Host [] (∅ ⊎ held RCF 9) ∅.

Lemma nw_lifecycle_witness :
  wp (https_nw_dial demo_nw [104] [52] None false 9 true 0x0303 1000)
    (fun '(code, out, status) w' =>
       if code =? HTTPS_NW_OK
       then out <> 0 /\ (exists c, h_st w' = <[out := c]> (h_st anchored_world) /\ conn_ok c /\ conn c <> 0) /\
            wp (https_nw_close demo_nw out)
              (fun _ w'' => h_refs w'' = ∅ /\ h_st w'' = h_st anchored_world) w'
       else out = 0 /\ h_refs w' = h_refs anchored_world /\ h_st w' = h_st anchored_world) anchored_world.
Proof.
  apply (nw_lifecycle demo_nw [104] [52] None false 9 true 0x0303 1000 ∅ anchored_world).
  - intros h. reflexivity.
  - intros h. cbn. lia.
  - reflexivity.
Defined.
