(* ===== verification/BlockHash.v ===== *)
(** * Hash functions on blocks

    What [md5.c], [sha1.c], [ripemd160.c], [sha256.c] and [sha512.c] under
    [src/internal/mbedtls] share.  A context has a byte count in two words, a chaining state
    and a buffer for an incomplete block; the files differ in the block function, the word
    size and the byte order, which are parameters here.  [Compression] is what a file
    promises of its block function; from it follows that a message fed in any pieces has the
    digest of the padded message.  The block size in bytes is twice the word size in bits. *)

From S2P Require Import Prelude Bytes.

(** ** Big-endian words *)

Definition be_bytes (n : nat) (x : Z) : list Z := rev (le_bytes n x).
Definition be_word (l : list Z) : Z := le (rev l).

Definition MBEDTLS_GET_UINT32_BE (b : list Z) (off : Z) : outcome Z := l ← load b off 4; mret (be_word l).
Definition MBEDTLS_GET_UINT64_BE (b : list Z) (off : Z) : outcome Z := l ← load b off 8; mret (be_word l).
Definition MBEDTLS_PUT_UINT32_BE (x : Z) (b : list Z) (off : Z) : outcome (list Z) := store b off (be_bytes 4 x).
Definition MBEDTLS_PUT_UINT64_BE (x : Z) (b : list Z) (off : Z) : outcome (list Z) := store b off (be_bytes 8 x).

(** ** Rotations of 32-bit words *)

Definition rotl (n x : Z) : Z := Z.lor (Z.shiftl x n mod 2 ^ 32) (Z.shiftr x (32 - n)).

Lemma rotl_word n x : 0 <= n <= 32 -> 0 <= x < 2 ^ 32 -> 0 <= rotl n x < 2 ^ 32.
Proof.
  intros Hn Hx. unfold rotl. apply lor_below; [lia|apply Z.mod_pos_bound; lia|]. rewrite Z.shiftr_div_pow2 by lia.
  assert (0 < 2 ^ (32 - n)) by (apply Z.pow_pos_nonneg; lia).
  split; [apply Z.div_pos; lia|]. apply Z.div_lt_upper_bound; [lia|nia].
Qed.

(** ** The context

    [truncated] is [is224] of SHA-256 and [is384] of SHA-512; the others do not have it. *)
Record digest_ctx := Digest {
  total0 : Z; total1 : Z; state : list Z; buffer : list Z; truncated : Z
}.

Definition set_state (ctx : digest_ctx) (s : list Z) : digest_ctx :=
  Digest (total0 ctx) (total1 ctx) s (buffer ctx) (truncated ctx).
Definition set_buffer (ctx : digest_ctx) (b : list Z) : digest_ctx :=
  Digest (total0 ctx) (total1 ctx) (state ctx) b (truncated ctx).

Definition zeroed (words block : nat) : digest_ctx := Digest 0 0 (replicate words 0) (replicate block 0) 0.

(** ** The code the files share *)

Section code.
Context (w : Z) (process : digest_ctx -> list Z -> Z -> outcome (Z * digest_ctx)).

Definition wrap (x : Z) : Z := x mod 2 ^ w.
Definition block_size : Z := 2 * w.

(** The loop of the updates that calls the block function for each whole block: result,
    context, and what is left of the input. *)
Fixpoint process_blocks (fuel : nat) (ctx : digest_ctx) (input : list Z) (off ilen : Z)
    : outcome (Z * digest_ctx * Z * Z) :=
  match fuel with
  | O => NoFuel
  | S fuel =>
      if ilen >=? block_size then
        '(ret, ctx) ← process ctx input off;
        if negb (ret =? 0) then mret (ret, ctx, off, ilen) else
        process_blocks fuel ctx input (off + block_size) (size_sub ilen block_size)
      else mret (0, ctx, off, ilen)
  end.

Definition simple_blocks (ctx : digest_ctx) (input : list Z) (off ilen : Z)
    : outcome (Z * digest_ctx * Z * Z) :=
  process_blocks (Z.to_nat (ilen / block_size + 1)) ctx input off ilen.

(** The loop over blocks in a function of its own, as SHA-256 and SHA-512 have it: it returns
    the number of bytes processed, zero after an error. *)
Fixpoint many_loop (fuel : nat) (ctx : digest_ctx) (data : list Z) (off len processed : Z)
    : outcome (Z * digest_ctx) :=
  match fuel with
  | O => NoFuel
  | S fuel =>
      if len >=? block_size then
        '(ret, ctx) ← process ctx data off;
        if negb (ret =? 0) then mret (0, ctx) else
        many_loop fuel ctx data (off + block_size) (size_sub len block_size) (u64 (processed + block_size))
      else mret (processed, ctx)
  end.

Definition process_many (ctx : digest_ctx) (data : list Z) (off len : Z) : outcome (Z * digest_ctx) :=
  many_loop (Z.to_nat (len / block_size + 1)) ctx data off len 0.

Definition MBEDTLS_ERR_ERROR_GENERIC_ERROR : Z := -0x0001.

(** The loop of their updates that calls it. *)
Fixpoint update_loop (many : digest_ctx -> list Z -> Z -> Z -> outcome (Z * digest_ctx))
    (fuel : nat) (ctx : digest_ctx) (input : list Z) (off ilen : Z) : outcome (Z * digest_ctx * Z * Z) :=
  match fuel with
  | O => NoFuel
  | S fuel =>
      if ilen >=? block_size then
        '(processed, ctx) ← many ctx input off ilen;
        if processed <? block_size then mret (MBEDTLS_ERR_ERROR_GENERIC_ERROR, ctx, off, ilen) else
        update_loop many fuel ctx input (off + processed) (size_sub ilen processed)
      else mret (0, ctx, off, ilen)
  end.

Definition many_blocks (many : digest_ctx -> list Z -> Z -> Z -> outcome (Z * digest_ctx))
    (ctx : digest_ctx) (input : list Z) (off ilen : Z) : outcome (Z * digest_ctx * Z * Z) :=
  update_loop many (Z.to_nat (ilen / block_size + 1)) ctx input off ilen.

(** [total[0] += ilen; if (total[0] < ilen) total[1]++]. *)
Definition count (ctx : digest_ctx) (ilen : Z) : digest_ctx :=
  let i := wrap ilen in
  let t0 := wrap (total0 ctx + i) in
  Digest t0 (if t0 <? i then wrap (total1 ctx + 1) else total1 ctx) (state ctx) (buffer ctx) (truncated ctx).

Section update.
Context (whole : digest_ctx -> list Z -> Z -> Z -> outcome (Z * digest_ctx * Z * Z)).

Definition update (ctx : digest_ctx) (input : list Z) (ilen : Z) : outcome (Z * digest_ctx) :=
  if ilen =? 0 then mret (0, ctx) else
  let left := Z.land (total0 ctx) (block_size - 1) in
  let fill := block_size - left in
  let ctx := count ctx ilen in
  '(ret, ctx, off, ilen, left) ←
    (if negb (left =? 0) && (ilen >=? fill) then
       bs ← load input 0 fill;
       buf ← store (buffer ctx) left bs;
       let ctx := set_buffer ctx buf in
       '(ret, ctx) ← process ctx (buffer ctx) 0;
       mret (ret, ctx, fill, size_sub ilen fill, 0)
     else mret (0, ctx, 0, ilen, left));
  if negb (ret =? 0) then mret (ret, ctx) else
  '(ret, ctx, off, ilen) ← whole ctx input off ilen;
  if negb (ret =? 0) then mret (ret, ctx) else
  if ilen >? 0 then
    bs ← load input off ilen;
    buf ← store (buffer ctx) left bs;
    mret (0, set_buffer ctx buf)
  else mret (0, ctx).

End update.

(** A word in the byte order of the function. *)
Context (big : bool).
Definition put (x : Z) (b : list Z) (off : Z) : outcome (list Z) :=
  store b off (if big then be_bytes (Z.to_nat (w / 8)) x else le_bytes (Z.to_nat (w / 8)) x).

(** The bit length, in two words. *)
Definition put_length (ctx : digest_ctx) (b : list Z) (off : Z) : outcome (list Z) :=
  let high := Z.lor (Z.shiftr (total0 ctx) (w - 3)) (wrap (Z.shiftl (total1 ctx) 3)) in
  let low := wrap (Z.shiftl (total0 ctx) 3) in
  b ← put (if big then high else low) b off;
  put (if big then low else high) b (off + w / 8).

Fixpoint put_words (ws : list Z) (output : list Z) (off : Z) : outcome (list Z) :=
  match ws with
  | [] => mret output
  | x :: ws => output ← put x output off; put_words ws output (off + w / 8)
  end.

(** The byte [0x80] and zeros until the length fits in the block, in an extra block when
    it does not. *)
Definition add_padding (ctx : digest_ctx) : outcome (Z * digest_ctx) :=
  let room := block_size - w / 4 in
  let used := Z.land (total0 ctx) (block_size - 1) in
  buf ← store (buffer ctx) used [0x80];
  let used := used + 1 in
  if used <=? room then
    buf ← store buf used (replicate (Z.to_nat (room - used)) 0);
    mret (0, set_buffer ctx buf)
  else
    buf ← store buf used (replicate (Z.to_nat (block_size - used)) 0);
    '(ret, ctx) ← process (set_buffer ctx buf) buf 0;
    if negb (ret =? 0) then mret (ret, ctx) else
    buf ← store (buffer ctx) 0 (replicate (Z.to_nat room) 0);
    mret (0, set_buffer ctx buf).

Definition last_block (ctx : digest_ctx) : outcome (Z * digest_ctx) :=
  '(ret, ctx) ← add_padding ctx;
  if negb (ret =? 0) then mret (ret, ctx) else
  buf ← put_length ctx (buffer ctx) (block_size - w / 4);
  process (set_buffer ctx buf) buf 0.

(** [words] is the number of state words, [outs] how many of them are the digest.  The
    context is zeroed at the end, also after an error. *)
Definition finish (words : nat) (outs : digest_ctx -> nat) (ctx : digest_ctx) (output : list Z)
    : outcome (Z * digest_ctx * list Z) :=
  let free := zeroed words (Z.to_nat block_size) in
  '(ret, ctx) ← last_block ctx;
  if negb (ret =? 0) then mret (ret, free, output) else
  output ← put_words (take (outs ctx) (state ctx)) output 0;
  mret (0, free, output).

End code.

(** ** Lemmas on words and buffers *)

Lemma mod_multiple x b c : 0 < b -> 0 < c -> (x mod (b * c)) mod b = x mod b.
Proof. intros. rewrite Z.rem_mul_r, (Z.mul_comm b), Z_mod_plus_full by lia. apply Zmod_mod. Qed.

Lemma count_totals W c i : 0 < W -> 0 <= i < W ->
  let t0 := (c mod W + i) mod W in
  t0 = (c + i) mod W /\
  (if t0 <? i then ((c / W) mod W + 1) mod W else (c / W) mod W) = ((c + i) / W) mod W.
Proof.
  intros HW' Hi t0. unfold t0. rewrite Zplus_mod_idemp_l. split; [done|].
  pose proof (Z.div_mod c W ltac:(lia)) as E. pose proof (Z.mod_pos_bound c W HW') as R.
  destruct (Z.lt_ge_cases (c mod W + i) W) as [L|L].
  - assert ((c + i) mod W = c mod W + i) as -> by (symmetry; apply Z.mod_unique with (c / W); lia).
    rewrite (proj2 (Z.ltb_ge _ _)) by lia. f_equal. apply Z.div_unique with (c mod W + i); lia.
  - assert ((c + i) mod W = c mod W + i - W) as -> by (symmetry; apply Z.mod_unique with (c / W + 1); lia).
    rewrite (proj2 (Z.ltb_lt _ _)) by lia. rewrite Zplus_mod_idemp_l. f_equal.
    apply Z.div_unique with (c mod W + i - W); lia.
Qed.

Lemma be_bytes_length n x : zlen (be_bytes n x) = Z.of_nat n.
Proof. unfold be_bytes. rewrite <- (le_bytes_length n x). unfold zlen. by rewrite length_rev. Qed.

Lemma is_bytes_be_bytes n x : is_bytes (be_bytes n x).
Proof. apply Forall_rev, is_bytes_le_bytes. Qed.

(** The two words of the bit length are the halves of eight times the count. *)
Lemma length_words W8 cnt : let W := 8 * W8 in 0 < W8 ->
  (8 * (cnt mod W)) mod W = (8 * cnt) mod W /\
  (cnt mod W) / W8 + (8 * ((cnt / W) mod W)) mod W = (8 * cnt / W) mod W /\
  0 <= (cnt mod W) / W8 < 8 /\ ((8 * ((cnt / W) mod W)) mod W) mod 8 = 0.
Proof.
  intros W H8. rewrite !Zmult_mod_idemp_r.
  pose proof (Z.div_mod cnt W ltac:(lia)) as E. pose proof (Z.mod_pos_bound cnt W ltac:(lia)) as R.
  set (r := cnt mod W) in *. set (q := cnt / W) in *.
  assert (0 <= r / W8 < 8) as Rs by (split; [apply Z.div_pos; lia|apply Z.div_lt_upper_bound; lia]).
  assert (((8 * q) mod W) mod 8 = 0) as M8.
  { unfold W. rewrite mod_multiple by lia. rewrite Z.mul_comm. apply Z.mod_mul. lia. }
  split_and!; [done| |lia..|done].
  assert (8 * cnt / W = 8 * q + r / W8) as ->.
  { rewrite E. replace (8 * (W * q + r)) with ((8 * q) * W + 8 * r) by lia. rewrite Z.div_add_l by lia. f_equal.
    unfold W. by rewrite Z.div_mul_cancel_l by lia. }
  apply Z.mod_unique with ((8 * q) / W); [left|pose proof (Z.div_mod (8 * q) W ltac:(lia)); lia].
  pose proof (Z.mod_pos_bound (8 * q) W ltac:(lia)). Z.div_mod_to_equations; lia.
Qed.

(** Writing behind the part of a buffer that is known. *)
Lemma prefix_store b p o k : ztake k b = p -> zlen p = k -> k + zlen o <= zlen b ->
  store b k o = Done (splice b k o) /\ ztake (k + zlen o) (splice b k o) = p ++ o /\ zlen (splice b k o) = zlen b.
Proof.
  intros E L H. pose proof (zlen_nonneg p). pose proof (zlen_nonneg o).
  split_and!; [apply store_splice; lia| |apply zlen_splice; lia].
  unfold splice. rewrite app_assoc, ztake_app_l by (rewrite zlen_app, E; lia). rewrite E. apply ztake_all. rewrite zlen_app. lia.
Qed.

(** ** Reference definition

    The message is padded with a one bit, zeros and the bit length to whole blocks, which
    the compression function folds into the initial state. *)

Section spec.
Context (w : Z) (big : bool) (compress : list Z -> list Z -> list Z) (iv : list Z).
Local Notation bs := (block_size w).

Fixpoint fold_blocks (n : nat) (st m : list Z) : list Z :=
  match n with
  | O => st
  | S n => fold_blocks n (compress st (ztake bs m)) (zdrop bs m)
  end.

(** The state after the whole blocks of [m], and what remains of [m]. *)
Definition chain (m : list Z) : list Z := fold_blocks (Z.to_nat (zlen m / bs)) iv m.
Definition tail (m : list Z) : list Z := zdrop (zlen m / bs * bs) m.

Definition encode (ws : list Z) : list Z :=
  concat (map (if big then be_bytes (Z.to_nat (w / 8)) else le_bytes (Z.to_nat (w / 8))) ws).

(** The length field for a count of [cnt] bytes: twice a word wide. *)
Definition length_field (cnt : Z) : list Z :=
  if big then be_bytes (Z.to_nat (w / 4)) (8 * cnt) else le_bytes (Z.to_nat (w / 4)) (8 * cnt).

Definition pad (cnt : Z) (m : list Z) : list Z :=
  m ++ [0x80] ++ replicate (Z.to_nat ((bs - w / 4 - 1 - zlen m) mod bs)) 0 ++ length_field cnt.

(** The digest of [outs] words with the byte count [cnt] in the padding; [cnt] is the length
    of the message when the function is used as it should be. *)
Definition digest_counting (outs : nat) (cnt : Z) (m : list Z) : list Z :=
  encode (take outs (chain (pad cnt m))).
Definition digest (outs : nat) (m : list Z) : list Z := digest_counting outs (zlen m) m.

End spec.

(** A state of [n] words. *)
Definition words_ok (w : Z) (n : nat) (st : list Z) : Prop :=
  length st = n /\ Forall (fun x => 0 <= x < 2 ^ w) st.

(** ** What a file promises *)

(** The block function computes [compress] and keeps the rest of the context. *)
Class Compression (w : Z) (words : nat) (process : digest_ctx -> list Z -> Z -> outcome (Z * digest_ctx))
    (compress : list Z -> list Z -> list Z) : Prop := {
  word_size : w = 32 \/ w = 64;
  compress_words st b : words_ok w words st -> is_bytes b -> zlen b = block_size w -> words_ok w words (compress st b);
  process_spec ctx b off :
    words_ok w words (state ctx) -> is_bytes b -> 0 <= off -> off + block_size w <= zlen b ->
    process ctx b off = Done (0, set_state ctx (compress (state ctx) (ztake (block_size w) (zdrop off b))));
}.

(** The loop over the whole blocks of an input consumes them all. *)
Class WholeBlocks (w : Z) (words : nat) (whole : digest_ctx -> list Z -> Z -> Z -> outcome (Z * digest_ctx * Z * Z))
    (compress : list Z -> list Z -> list Z) : Prop :=
  whole_spec ctx b off n :
    words_ok w words (state ctx) -> is_bytes b -> 0 <= off -> 0 <= n < 2 ^ 64 -> off + n <= zlen b ->
    whole ctx b off n =
      Done (0, set_state ctx (fold_blocks w compress (Z.to_nat (n / block_size w)) (state ctx) (zdrop off b)),
            off + n / block_size w * block_size w, n mod block_size w).

(** ** Folding *)

Section fold.
Context {w : Z} {words : nat} {process} {compress : list Z -> list Z -> list Z} {HC : Compression w words process compress}.
Context (iv : list Z).
Local Notation bs := (block_size w).
Local Notation fold := (fold_blocks w compress).
Local Notation chain := (chain w compress iv).
Local Notation tail := (tail w).

Lemma bs_cases : bs = 64 \/ bs = 128.
Proof. unfold block_size. destruct (word_size (w := w)) as [-> | ->]; lia. Qed.
Lemma bs_pos : 0 < bs.
Proof. destruct bs_cases; lia. Qed.
Hint Resolve bs_pos : core.

Lemma fold_add n k st m : fold (n + k) st m = fold k (fold n st m) (zdrop (Z.of_nat n * bs) m).
Proof.
  revert st m. induction n as [|n IH]; intros st m; cbn [Nat.add fold_blocks]; [done|].
  pose proof bs_pos. rewrite IH, zdrop_zdrop by lia. do 2 f_equal. lia.
Qed.

Lemma fold_prefix n st m c : Z.of_nat n * bs <= zlen m -> fold n st (m ++ c) = fold n st m.
Proof.
  pose proof bs_pos. revert st m. induction n as [|n IH]; intros st m H1; cbn [fold_blocks]; [done|].
  rewrite ztake_app_l, zdrop_app_l by lia. apply IH. rewrite zlen_zdrop; lia.
Qed.

Lemma fold_words n st m : words_ok w words st -> is_bytes m -> Z.of_nat n * bs <= zlen m -> words_ok w words (fold n st m).
Proof.
  pose proof bs_pos. revert st m. induction n as [|n IH]; intros st m Hs Hm Hl; cbn [fold_blocks]; [done|].
  apply IH; [apply compress_words; [done|auto with zlist|rewrite zlen_ztake; lia]|auto with zlist|rewrite zlen_zdrop; lia].
Qed.

Lemma chain_app m c : bs * (zlen m / bs) = zlen m ->
  chain (m ++ c) = fold (Z.to_nat (zlen c / bs)) (chain m) c /\ tail (m ++ c) = tail c.
Proof.
  intros E. pose proof bs_pos. unfold BlockHash.chain, BlockHash.tail.
  assert (zlen (m ++ c) / bs = zlen m / bs + zlen c / bs) as ->.
  { rewrite zlen_app. rewrite <- E at 1. rewrite Z.mul_comm, Z.div_add_l; lia. }
  pose proof (zlen_nonneg m). pose proof (zlen_nonneg c). assert (0 <= zlen m / bs) by (apply Z.div_pos; lia).
  assert (0 <= zlen c / bs) by (apply Z.div_pos; lia). split.
  - rewrite Z2Nat.inj_add, fold_add, Z2Nat.id, fold_prefix by lia. f_equal.
    rewrite zdrop_app_r by lia. by replace (zlen m / bs * bs - zlen m) with 0 by lia.
  - rewrite zdrop_app_r by nia. f_equal. nia.
Qed.

Lemma tail_split m : m = ztake (zlen m / bs * bs) m ++ tail m /\ zlen (tail m) = zlen m mod bs /\
  zlen (ztake (zlen m / bs * bs) m) = zlen m / bs * bs.
Proof.
  pose proof bs_pos. pose proof (zlen_nonneg m). pose proof (Z.div_mod (zlen m) bs ltac:(lia)).
  pose proof (Z.mod_pos_bound (zlen m) bs ltac:(lia)). assert (0 <= zlen m / bs) by (apply Z.div_pos; lia).
  unfold BlockHash.tail. split_and!; [by rewrite ztake_zdrop|rewrite zlen_zdrop; nia|rewrite zlen_ztake; nia].
Qed.

(** The whole blocks of a message alone: nothing remains. *)
Lemma chain_whole m : let m0 := ztake (zlen m / bs * bs) m in
  bs * (zlen m0 / bs) = zlen m0 /\ chain m0 = chain m.
Proof.
  intros m0. pose proof bs_pos. destruct (tail_split m) as (Em & Lt & L0). fold m0 in Em, L0.
  assert (zlen m0 / bs = zlen m / bs) as Eq by (rewrite L0, Z.div_mul; lia). split; [lia|].
  unfold BlockHash.chain. rewrite Eq. rewrite Em at 3. rewrite fold_prefix; [done|].
  pose proof (zlen_nonneg m). rewrite Z2Nat.id; [lia|apply Z.div_pos; lia].
Qed.

Lemma chain_short m c : zlen m mod bs + zlen c < bs -> chain (m ++ c) = chain m /\ tail (m ++ c) = tail m ++ c.
Proof.
  intros H. pose proof bs_pos. destruct (tail_split m) as (Em & Lt & L0). destruct (chain_whole m) as (E0 & C0).
  rewrite Em at 1 3. rewrite <- app_assoc. set (m0 := ztake _ m) in *.
  destruct (chain_app m0 (tail m ++ c) E0) as [-> ->].
  assert (zlen (tail m ++ c) / bs = 0) as Ed by (apply Z.div_small; rewrite zlen_app; pose proof (zlen_nonneg c); pose proof (zlen_nonneg (tail m)); lia).
  rewrite Ed. cbn [Z.to_nat fold_blocks]. split; [done|]. unfold BlockHash.tail at 1. by rewrite Ed.
Qed.

Lemma chain_full m c : zlen m mod bs + zlen c = bs ->
  chain (m ++ c) = compress (chain m) (tail m ++ c) /\ zlen (m ++ c) = (zlen m / bs + 1) * bs.
Proof.
  intros H. pose proof bs_pos. destruct (tail_split m) as (Em & Lt & L0). destruct (chain_whole m) as (E0 & C0).
  pose proof (Z.div_mod (zlen m) bs ltac:(lia)). split; [|rewrite zlen_app; lia].
  rewrite Em at 1. rewrite <- app_assoc. set (m0 := ztake _ m) in *.
  destruct (chain_app m0 (tail m ++ c) E0) as [-> _].
  assert (zlen (tail m ++ c) = bs) as L by (rewrite zlen_app; lia).
  rewrite L, Z.div_same by lia. change (Z.to_nat 1) with 1%nat. cbn [fold_blocks]. rewrite ztake_all by lia. by rewrite C0.
Qed.

Lemma chain_ok m : words_ok w words iv -> is_bytes m -> words_ok w words (chain m).
Proof.
  intros Hi Hm. pose proof bs_pos. pose proof (zlen_nonneg m). apply fold_words; [done|done|].
  rewrite Z2Nat.id by (apply Z.div_pos; lia). pose proof (Z.mul_div_le (zlen m) bs ltac:(lia)). lia.
Qed.

End fold.

(** ** Streaming *)

Section stream.
Context {w : Z} {words : nat} {process} {compress : list Z -> list Z -> list Z} {HC : Compression w words process compress}.
Context {whole} {HW : WholeBlocks w words whole compress}.
Context (iv : list Z) (Hiv : words_ok w words iv).
Local Notation bs := (block_size w).
Local Notation fold := (fold_blocks w compress).
Local Notation chain := (chain w compress iv).
Local Notation tail := (tail w).

(** State and buffer hold the message [m]. *)
Record holding (m : list Z) (ctx : digest_ctx) : Prop := {
  ho_msg : is_bytes m;
  ho_state : state ctx = chain m;
  ho_bytes : is_bytes (buffer ctx);
  ho_size : zlen (buffer ctx) = bs;
  ho_tail : ztake (zlen m mod bs) (buffer ctx) = tail m;
}.

(** The context has absorbed [m] and counted [cnt] bytes. *)
Record absorbed (m : list Z) (cnt : Z) (ctx : digest_ctx) : Prop := {
  ab_holding : holding m ctx;
  ab_low : total0 ctx = cnt mod 2 ^ w;
  ab_high : total1 ctx = (cnt / 2 ^ w) mod 2 ^ w;
  ab_count : cnt mod bs = zlen m mod bs;
}.

Lemma land_left x : Z.land (x mod 2 ^ w) (bs - 1) = x mod bs.
Proof using HC.
  unfold block_size. destruct (word_size (w := w)) as [Ew | Ew]; rewrite Ew.
  - change (2 * 32 - 1) with (Z.ones 6). rewrite Z.land_ones by lia. by apply (mod_multiple x (2 ^ 6) (2 ^ 26)).
  - change (2 * 64 - 1) with (Z.ones 7). rewrite Z.land_ones by lia. by apply (mod_multiple x (2 ^ 7) (2 ^ 57)).
Qed.

(** Whole blocks and a rest that does not fill one, after a message with nothing or with
    too little in the buffer. *)
Lemma chain_rest m c b n : zlen m mod bs = 0 \/ zlen m mod bs + n < bs ->
  c = ztake n b -> 0 <= n <= zlen b ->
  chain (m ++ c) = fold (Z.to_nat (n / bs)) (chain m) b /\
  tail (m ++ c) = tail m ++ ztake (n mod bs) (zdrop (n / bs * bs) b).
Proof.
  intros H -> Hn. pose proof (bs_pos (w := w)) as Hb. destruct (tail_split m) as (_ & Lt & _).
  assert (zlen (ztake n b) = n) as Lc by (apply zlen_ztake; lia).
  pose proof (Z.div_mod n bs ltac:(lia)) as En. pose proof (Z.mod_pos_bound n bs Hb). pose proof (Z.div_pos n bs ltac:(lia) Hb).
  destruct H as [H|H].
  - destruct (chain_app iv m (ztake n b)) as [-> ->]; [pose proof (Z.div_mod (zlen m) bs ltac:(lia)); lia|].
    assert (tail m = []) as -> by (apply nil_length_inv; unfold zlen in *; lia). rewrite Lc. split.
    + rewrite <- (ztake_zdrop n b) at 2. rewrite fold_prefix; [done|]. rewrite Z2Nat.id by lia. lia.
    + unfold BlockHash.tail. rewrite Lc. cbn [app]. set (q := n / bs * bs) in *.
      replace n with (q + n mod bs) at 1 by lia. rewrite ztake_add, zdrop_app_r by (try rewrite zlen_ztake; lia).
      rewrite zlen_ztake by lia. by rewrite Z.sub_diag.
  - destruct (chain_short iv m (ztake n b)) as [-> ->]; [lia|]. pose proof (zlen_nonneg (tail m)).
    rewrite Z.div_small, Z.mod_small by lia. done.
Qed.

Lemma rest_spec m ctx input off n : holding m ctx -> is_bytes input ->
  zlen m mod bs = 0 \/ zlen m mod bs + n < bs -> 0 <= off -> 0 <= n < 2 ^ 64 -> off + n <= zlen input ->
  let m' := m ++ ztake n (zdrop off input) in
  exists buf, ('(ret, ctx, off, ilen) ← whole ctx input off n;
    if negb (ret =? 0) then mret (ret, ctx) else
    if ilen >? 0 then
      l ← load input off ilen;
      buf ← store (buffer ctx) (zlen m mod bs) l;
      mret (0, set_buffer ctx buf)
    else mret (0, ctx)) = Done (0, set_buffer (set_state ctx (chain m')) buf) /\
    holding m' (set_buffer (set_state ctx (chain m')) buf).
Proof.
  intros [Bm Es Bb Lb Et] Bi H Ho Hn Hl m'. pose proof (bs_pos (w := w)) as Hb.
  destruct (chain_rest m (ztake n (zdrop off input)) (zdrop off input) n H eq_refl ltac:(rewrite zlen_zdrop; lia)) as [Ec Etl].
  fold m' in Ec, Etl. destruct (tail_split m') as (_ & Lt' & _). destruct (tail_split m) as (_ & Lt & _).
  pose proof (Z.div_mod n bs ltac:(lia)) as En. pose proof (Z.mod_pos_bound n bs Hb). pose proof (Z.div_pos n bs ltac:(lia) Hb).
  rewrite whole_spec by (rewrite ?Es; try done; apply chain_ok; done).
  rewrite bind_Done. cbv beta iota. cbn [negb Z.eqb]. rewrite Es, <- Ec.
  rewrite zdrop_zdrop in Etl by lia. pose proof (zlen_nonneg (tail m)).
  set (q := n / bs * bs) in *. set (r := ztake (n mod bs) (zdrop (off + q) input)) in *.
  assert (zlen r = n mod bs) as Lr by (apply zlen_ztake; rewrite zlen_zdrop; lia).
  assert (zlen m mod bs + zlen r <= bs) as Hfit.
  { destruct H as [->|H]; [lia|]. rewrite Lr. pose proof (Z.mod_le n bs ltac:(lia) Hb). lia. }
  assert (zlen m' mod bs = zlen m mod bs + zlen r) as Em' by (rewrite <- Lt', Etl, zlen_app; lia).
  split_if.
  - rewrite load_Done, bind_Done by lia. fold r. cbn [buffer set_state].
    rewrite store_Done, bind_Done by lia. eexists. split; [done|].
    split; cbn [state set_state set_buffer buffer]; [unfold m'; auto with zlist|done| | |].
    + apply is_bytes_app; [auto with zlist|apply is_bytes_app; unfold r; auto with zlist].
    + rewrite !zlen_app, zlen_ztake, zlen_zdrop; lia.
    + rewrite Em', Etl, app_assoc, ztake_app_l by (rewrite zlen_app, zlen_ztake; lia). rewrite Et. apply ztake_all. rewrite zlen_app. lia.
  - exists (buffer ctx). split; [by destruct ctx|].
    split; cbn [state set_state set_buffer buffer]; [unfold m'; auto with zlist|done..|].
    assert (r = []) as -> by (apply nil_length_inv; unfold zlen in *; lia).
    rewrite Em', Etl, app_nil_r. change (zlen []) with 0. by rewrite Z.add_0_r.
Qed.

(** An incomplete block is filled from the input and processed. *)
Lemma fill_spec m ctx input : holding m ctx -> is_bytes input ->
  let l := zlen m mod bs in let f := bs - l in f <= zlen input ->
  exists buf, (c ← load input 0 f;
    buf ← store (buffer ctx) l c;
    let ctx := set_buffer ctx buf in process ctx (buffer ctx) 0)
    = Done (0, set_state (set_buffer ctx buf) (chain (m ++ ztake f input))) /\
    holding (m ++ ztake f input) (set_state (set_buffer ctx buf) (chain (m ++ ztake f input))) /\
    zlen (m ++ ztake f input) mod bs = 0.
Proof.
  intros [Bm Es Bb Lb Et] Bi l f Hf. pose proof (bs_pos (w := w)) as Hb.
  pose proof (Z.mod_pos_bound (zlen m) bs Hb) as Rl. fold l in Rl, Et. rewrite load_Done, bind_Done by lia. rewrite zdrop_0.
  set (c := ztake f input). assert (zlen c = f) as Lc by (apply zlen_ztake; lia).
  rewrite store_Done, bind_Done by lia. rewrite Et, (zdrop_all (l + zlen c)), app_nil_r by lia.
  assert (zlen m mod bs + zlen c = bs) as Hfull by (fold l; lia).
  destruct (chain_full iv m c Hfull) as [Ech Elen]. destruct (tail_split m) as (_ & Lt & _).
  assert (zlen (tail m ++ c) = bs) as Lbuf by (rewrite zlen_app; lia).
  assert (is_bytes c) as Bc by (unfold c; auto with zlist).
  assert (is_bytes (tail m ++ c)) as Bbuf by (apply is_bytes_app; unfold BlockHash.tail; auto with zlist).
  assert (zlen (m ++ c) mod bs = 0) as Em by (rewrite Elen; apply Z.mod_mul; lia).
  exists (tail m ++ c). cbv zeta. rewrite process_spec by (cbn [state buffer set_buffer]; rewrite ?Es; solve [done|by apply chain_ok|lia]).
  cbn [buffer state set_buffer set_state]. rewrite zdrop_0, ztake_all by lia. rewrite Es, <- Ech. split; [done|].
  split; [|done]. split; cbn [buffer state set_buffer set_state]; [auto with zlist|done..|].
  rewrite Em, ztake_0. symmetry. apply nil_length_inv. destruct (tail_split (m ++ c)) as (_ & L & _). unfold zlen in *. lia.
Qed.

Lemma count_mod cnt n (m c : list Z) : cnt mod bs = zlen m mod bs -> zlen c = n ->
  (cnt + n mod 2 ^ w) mod bs = zlen (m ++ c) mod bs.
Proof using HC.
  intros Ec <-. pose proof (bs_pos (w := w)) as Hb. assert (exists k, 2 ^ w = bs * k /\ 0 < k) as (k & Ek & Hk).
  { unfold block_size. destruct (word_size (w := w)) as [Ew | Ew]; rewrite Ew; [exists (2 ^ 26)|exists (2 ^ 57)]; done. }
  rewrite Z.add_mod, Ec, Ek, mod_multiple by lia. rewrite <- Z.add_mod by lia. by rewrite zlen_app.
Qed.

Lemma hash_update_spec m cnt ctx input n :
  absorbed m cnt ctx -> is_bytes input -> 0 <= n <= zlen input -> n < 2 ^ 64 ->
  exists ctx', update w process whole ctx input n = Done (0, ctx') /\
    absorbed (m ++ ztake n input) (cnt + n mod 2 ^ w) ctx' /\ truncated ctx' = truncated ctx.
Proof.
  intros [Ho E0 E1 Ec] Bi Hn Hs. pose proof (bs_pos (w := w)) as Hb. pose proof (bs_cases (w := w)) as Hc.
  assert (0 < 2 ^ w) as HW0 by (apply Z.pow_pos_nonneg; destruct (word_size (w := w)); lia).
  unfold update. split_if.
  { subst n. exists ctx. rewrite ztake_0, app_nil_r, Z.mod_0_l, Z.add_0_r by lia. done. }
  rewrite E0, land_left, Ec. set (l := zlen m mod bs) in *. pose proof (Z.mod_pos_bound (zlen m) bs Hb) as Rl. fold l in Rl.
  pose proof (count_mod cnt n m (ztake n input) Ec ltac:(apply zlen_ztake; lia)) as Ec'.
  destruct (count_totals (2 ^ w) cnt (n mod 2 ^ w) HW0 (Z.mod_pos_bound n _ HW0)) as [T0 T1].
  rewrite <- E0 in T0, T1. rewrite <- E1 in T1.
  set (ctx1 := count w ctx n). change (total0 ctx1 = (cnt + n mod 2 ^ w) mod 2 ^ w) in T0.
  change (total1 ctx1 = ((cnt + n mod 2 ^ w) / 2 ^ w) mod 2 ^ w) in T1.
  assert (holding m ctx1) as Ho1 by (by destruct Ho). change (truncated ctx) with (truncated ctx1).
  clearbody ctx1. clear E0 E1 Ho ctx. split_if.
  - destruct (fill_spec m ctx1 input Ho1 Bi ltac:(fold l; lia)) as (buf1 & Ef & Ho2 & Em). fold l in Ef, Ho2, Em.
    set (f := bs - l) in *. cbv zeta in Ef.
    destruct (rest_spec (m ++ ztake f input) (set_state (set_buffer ctx1 buf1) (chain (m ++ ztake f input))) input f (n - f) Ho2 Bi)
      as (buf & Er & Ho'); [by left|lia..|].
    apply bind_Done_inv in Ef as (c & -> & Ef). apply bind_Done_inv in Ef as (b & Es & Ef).
    rewrite bind_Done, Es, bind_Done, Ef, bind_Done. cbv beta iota. rewrite bind_Done. cbv beta iota.
    cbn [negb Z.eqb]. rewrite size_sub_le by lia. rewrite Em in Er. rewrite Er. eexists. split; [done|]. split; [|done].
    split; [|done..]. rewrite <- app_assoc, <- ztake_add in * by lia. by replace (f + (n - f)) with n in * by lia.
  - rewrite bind_Done. cbv beta iota. cbn [negb Z.eqb].
    assert (l = 0 \/ l + n < bs) as Hd.
    { apply andb_false_iff in Heqb0 as [K|K]; [left|right]; bool_to_prop; lia. }
    destruct (rest_spec m ctx1 input 0 n Ho1 Bi Hd ltac:(lia) ltac:(lia) ltac:(lia)) as (buf & Er & Ho').
    fold l in Er. rewrite Er. rewrite zdrop_0 in *. eexists. split; [done|]. split; [|done]. by split.
Qed.

(** ** The final block *)

Context (big : bool).

Lemma put_length_spec cnt ctx b off :
  total0 ctx = cnt mod 2 ^ w -> total1 ctx = (cnt / 2 ^ w) mod 2 ^ w -> 0 <= off -> off + w / 4 <= zlen b ->
  put_length w big ctx b off = Done (splice b off (length_field w big cnt)) /\
  zlen (length_field w big cnt) = w / 4 /\ is_bytes (length_field w big cnt).
Proof using HC.
  intros E0 E1 Ho Hb.
  assert (exists n, w = 8 * Z.of_nat n /\ 3 <= w /\ Z.to_nat (w / 8) = n /\ Z.to_nat (w / 4) = (n + n)%nat) as (n & Ew & Hw3 & E8 & E4).
  { destruct (word_size (w := w)) as [Ew | Ew]; rewrite Ew; [exists 4%nat|exists 8%nat]; done. }
  assert (2 ^ w = 8 * 2 ^ (w - 3)) as EW by (change 8 with (2 ^ 3); rewrite <- Z.pow_add_r by lia; f_equal; lia).
  destruct (length_words (2 ^ (w - 3)) cnt ltac:(apply Z.pow_pos_nonneg; lia)) as (Lo & Hi & R8 & M8).
  rewrite <- EW in Lo, Hi, R8, M8. unfold put_length, put, length_field, wrap. rewrite E0, E1, E8, E4.
  rewrite Z.shiftr_div_pow2, !Z.shiftl_mul_pow2 by lia. change (2 ^ 3) with 8. rewrite !(Z.mul_comm _ 8).
  set (h := (8 * _) mod 2 ^ w) in Hi, M8. fold h.
  assert (Z.lor ((cnt mod 2 ^ w) / 2 ^ (w - 3)) h = (8 * cnt / 2 ^ w) mod 2 ^ w) as ->.
  { rewrite <- Hi, Z.lor_comm, (Z.add_comm _ h). replace h with (Z.shiftl (h / 8) 3)
      by (rewrite Z.shiftl_mul_pow2 by lia; change (2 ^ 3) with 8; pose proof (Z.div_mod h 8); lia).
    by rewrite lor_shiftl_add, Z.shiftl_mul_pow2 by (change (2 ^ 3) with 8; lia). }
  rewrite Lo. unfold be_bytes. rewrite le_bytes_app, rev_app_distr, <- Ew.
  rewrite <- (le_bytes_mod n (8 * cnt)), <- (le_bytes_mod n (8 * cnt / 2 ^ w)), <- Ew.
  replace (w / 8) with (Z.of_nat n) by (rewrite Ew; rewrite Z.mul_comm, Z.div_mul; lia).
  assert (w / 4 = Z.of_nat n + Z.of_nat n) as E4' by (rewrite Ew; replace (8 * Z.of_nat n) with ((2 * Z.of_nat n) * 4) by lia; rewrite Z.div_mul; lia).
  assert (forall x, zlen (rev (le_bytes n x)) = Z.of_nat n) as Lr by (intros x; apply be_bytes_length).
  destruct big.
  - split_and!; [|rewrite zlen_app, !Lr; lia|apply is_bytes_app; apply is_bytes_be_bytes].
    rewrite store_splice, bind_Done by (rewrite ?Lr; lia).
    rewrite store_splice by (rewrite ?zlen_splice; rewrite ?Lr; lia). rewrite <- (Lr ((8 * cnt / 2 ^ w) mod 2 ^ w)) at 1.
    by rewrite splice_splice by (rewrite ?Lr; lia).
  - split_and!; [|rewrite zlen_app, !le_bytes_length; lia|apply is_bytes_app; apply is_bytes_le_bytes].
    rewrite store_splice, bind_Done by (rewrite ?le_bytes_length; lia).
    rewrite store_splice by (rewrite ?zlen_splice; rewrite ?le_bytes_length; lia). rewrite <- (le_bytes_length n ((8 * cnt) mod 2 ^ w)) at 1.
    by rewrite splice_splice by (rewrite ?le_bytes_length; lia).
Qed.

Lemma encode_length ws : zlen (encode w big ws) = zlen ws * (w / 8).
Proof using HC.
  assert (0 <= w / 8) by (apply Z.div_pos; destruct (word_size (w := w)); lia).
  induction ws as [|x ws IH]; [done|]. unfold encode in *. cbn [map concat]. rewrite zlen_app, IH, zlen_cons.
  destruct big; rewrite ?be_bytes_length, ?le_bytes_length; lia.
Qed.

Lemma put_words_spec ws : forall output off, 0 <= off -> off + zlen (encode w big ws) <= zlen output ->
  put_words w big ws output off = Done (splice output off (encode w big ws)).
Proof using HC.
  induction ws as [|x ws IH]; intros output off Ho Hl; cbn [put_words].
  { change (encode w big []) with (@nil Z). by rewrite splice_nil. }
  assert (encode w big (x :: ws) = encode w big [x] ++ encode w big ws) as E by (unfold encode; cbn [map concat]; by rewrite app_nil_r).
  assert (put w big x output off = store output off (encode w big [x])) as ->.
  { unfold put, encode. cbn [map concat]. rewrite app_nil_r. by destruct big. }
  rewrite E, zlen_app in Hl. pose proof (zlen_nonneg (encode w big ws)).
  rewrite store_splice, bind_Done by lia. pose proof (encode_length [x]) as L. rewrite zlen_singleton, Z.mul_1_l in L. pose proof (zlen_nonneg (encode w big [x])).
  rewrite IH by (rewrite ?zlen_splice; lia). rewrite <- L, splice_splice, E by lia. done.
Qed.

(** One more block, given as what the buffer holds and the bytes [c] that fill it. *)
Lemma last_block_spec m ctx buf c : is_bytes m -> is_bytes c -> state ctx = chain m -> zlen buf = bs ->
  zlen m mod bs + zlen c = bs -> ztake bs buf = tail m ++ c ->
  process (set_buffer ctx buf) buf 0 = Done (0, set_state (set_buffer ctx buf) (chain (m ++ c))).
Proof.
  intros Bm Bc Es Lb Lc Et. pose proof (bs_pos (w := w)). rewrite ztake_all in Et by lia. subst buf.
  assert (is_bytes (tail m ++ c)) by (apply is_bytes_app; unfold BlockHash.tail; auto with zlist).
  rewrite process_spec by (cbn [state set_buffer]; rewrite ?Es; solve [done|by apply chain_ok|lia]).
  cbn [state set_buffer]. rewrite zdrop_0, ztake_all by lia. destruct (chain_full iv m c Lc) as [-> _]. by rewrite Es.
Qed.

Lemma pad_zeros (m : list Z) : let l := zlen m mod bs in let room := bs - w / 4 in
  (bs - w / 4 - 1 - zlen m) mod bs = if l + 1 <=? room then room - (l + 1) else bs - (l + 1) + room.
Proof using HC.
  intros l room. pose proof (bs_pos (w := w)) as Hb. pose proof (Z.mod_pos_bound (zlen m) bs Hb) as Rl. fold l in Rl.
  assert (bs = 8 * (w / 4)) as Ebw by (unfold block_size; destruct (word_size (w := w)) as [Ew | Ew]; rewrite Ew; done).
  pose proof (Z.div_mod (zlen m) bs ltac:(lia)) as Em. fold l in Em. symmetry.
  split_if; [apply Z.mod_unique with (- (zlen m / bs))|apply Z.mod_unique with (- (zlen m / bs) - 1)]; lia.
Qed.

(** After the padding all that is missing is the length. *)
Lemma add_padding_spec m cnt ctx : absorbed m cnt ctx ->
  exists ctx' m' c', add_padding w process ctx = Done (0, ctx') /\ pad w big cnt m = m' ++ c' ++ length_field w big cnt /\
    is_bytes m' /\ is_bytes c' /\ state ctx' = chain m' /\ zlen (buffer ctx') = bs /\
    zlen m' mod bs + zlen c' = bs - w / 4 /\ ztake (bs - w / 4) (buffer ctx') = tail m' ++ c' /\
    total0 ctx' = total0 ctx /\ total1 ctx' = total1 ctx /\ truncated ctx' = truncated ctx.
Proof.
  intros [[Bm Es Bb Lb Et] E0 E1 Ec]. pose proof (bs_pos (w := w)) as Hb.
  assert (bs = 8 * (w / 4) /\ 8 <= w / 4) as [Ebw H4] by (unfold block_size; destruct (word_size (w := w)) as [Ew | Ew]; rewrite Ew; done).
  pose proof (Z.mod_pos_bound (zlen m) bs Hb) as Rl. destruct (tail_split m) as (_ & Lt & _).
  pose proof (pad_zeros m) as Ez. unfold add_padding, pad. rewrite E0, land_left, Ec. set (l := zlen m mod bs) in *.
  set (room := bs - w / 4) in *. cbv zeta in Ez. rewrite Ez.
  destruct (prefix_store (buffer ctx) (tail m) [0x80] l Et ltac:(lia) ltac:(rewrite zlen_singleton; lia)) as (-> & P1 & L1).
  rewrite zlen_singleton in P1. set (b1 := splice (buffer ctx) l [0x80]) in *. rewrite bind_Done. split_if.
  - set (z := replicate (Z.to_nat (room - (l + 1))) 0).
    assert (zlen z = room - (l + 1)) as Lz by (unfold z; rewrite zlen_replicate; lia).
    destruct (prefix_store b1 (tail m ++ [0x80]) z (l + 1) P1) as (-> & P2 & L2); [rewrite zlen_app, zlen_singleton; lia|lia|].
    rewrite bind_Done. eexists _, m, ([0x80] ++ z). split; [done|]. cbn [state buffer set_buffer total0 total1 truncated].
    split_and!; try done; [apply is_bytes_app; [by repeat constructor|by apply is_bytes_replicate]|lia| |].
    + fold l. rewrite zlen_app, zlen_singleton. lia.
    + rewrite app_assoc, <- P2. f_equal. lia.
  - set (z := replicate (Z.to_nat (bs - (l + 1))) 0).
    assert (zlen z = bs - (l + 1)) as Lz by (unfold z; rewrite zlen_replicate; lia).
    assert (is_bytes ([0x80] ++ z)) as Bz by (apply is_bytes_app; [by repeat constructor|by apply is_bytes_replicate]).
    destruct (prefix_store b1 (tail m ++ [0x80]) z (l + 1) P1) as (-> & P2 & L2); [rewrite zlen_app, zlen_singleton; lia|lia|].
    rewrite bind_Done. rewrite (last_block_spec m ctx _ ([0x80] ++ z)); [|done|done|done|lia|fold l; rewrite zlen_app, zlen_singleton; lia|].
    2:{ rewrite app_assoc, <- P2. f_equal. lia. }
    rewrite bind_Done. cbv beta iota. cbn [negb Z.eqb buffer set_state set_buffer].
    assert (zlen m mod bs + zlen ([0x80] ++ z) = bs) as Hf by (fold l; rewrite zlen_app, zlen_singleton; lia).
    destruct (chain_full iv m _ Hf) as [_ Elen]. set (m1 := m ++ [0x80] ++ z) in *.
    assert (zlen m1 mod bs = 0) as Em1 by (rewrite Elen; apply Z.mod_mul; lia).
    assert (tail m1 = []) as Etl by (apply nil_length_inv; destruct (tail_split m1) as (_ & L & _); unfold zlen in *; lia).
    set (z2 := replicate (Z.to_nat room) 0). assert (zlen z2 = room) as Lz2 by (unfold z2; rewrite zlen_replicate; lia).
    destruct (prefix_store (splice b1 (l + 1) z) [] z2 0 eq_refl eq_refl ltac:(lia)) as (-> & P3 & L3).
    rewrite bind_Done. eexists _, m1, z2. split; [done|]. cbn [state buffer set_buffer set_state total0 total1 truncated].
    split_and!; try done; [|unfold m1; auto with zlist|by apply is_bytes_replicate|lia..| |].
    + unfold m1, z, z2. rewrite <- !app_assoc. do 2 f_equal. rewrite app_assoc, <- replicate_add. do 2 f_equal. lia.
    + lia.
    + rewrite Etl, <- P3. f_equal. lia.
Qed.

Lemma last_block_ok m cnt ctx : absorbed m cnt ctx ->
  exists ctx', last_block w process big ctx = Done (0, ctx') /\ state ctx' = chain (pad w big cnt m) /\
    is_bytes (pad w big cnt m) /\ truncated ctx' = truncated ctx.
Proof.
  intros Ha. destruct (add_padding_spec m cnt ctx Ha) as (ctx1 & m1 & c1 & E & Ep & Bm & Bc & Es & Lb & Ll & Et & T0 & T1 & Tt).
  destruct Ha as [_ E0 E1 _]. assert (0 < w / 4 < bs) as H4 by (unfold block_size; destruct (word_size (w := w)) as [Ew | Ew]; rewrite Ew; done).
  unfold last_block. rewrite E, bind_Done. cbv beta iota. cbn [negb Z.eqb].
  destruct (put_length_spec cnt ctx1 (buffer ctx1) (bs - w / 4)) as (-> & Lf & Bf); [congruence..|lia|lia|].
  rewrite bind_Done. set (lf := length_field w big cnt) in *.
  destruct (tail_split m1) as (_ & Lt & _).
  destruct (prefix_store (buffer ctx1) (tail m1 ++ c1) lf (bs - w / 4) Et) as (_ & P & L); [rewrite zlen_app; lia|lia|].
  rewrite (last_block_spec m1 ctx1 _ (c1 ++ lf)).
  - eexists. split; [done|]. rewrite Ep. split_and!; [done| |done]. auto with zlist.
  - done.
  - auto with zlist.
  - done.
  - lia.
  - rewrite zlen_app. lia.
  - rewrite app_assoc, <- P. f_equal. lia.
Qed.

Lemma hash_finish_spec outs k m cnt ctx output :
  absorbed m cnt ctx -> (forall c, truncated c = truncated ctx -> outs c = k) -> (k <= words)%nat ->
  Z.of_nat k * (w / 8) <= zlen output ->
  finish w process big words outs ctx output =
    Done (0, zeroed words (Z.to_nat bs), splice output 0 (digest_counting w big compress iv k cnt m)) /\
  zlen (digest_counting w big compress iv k cnt m) = Z.of_nat k * (w / 8).
Proof.
  intros Ha Hk Hkw Hout. destruct (last_block_ok m cnt ctx Ha) as (ctx' & E & Es & Bp & Tt).
  pose proof (chain_ok iv (pad w big cnt m) Hiv Bp) as [Lw _].
  assert (zlen (digest_counting w big compress iv k cnt m) = Z.of_nat k * (w / 8)) as Ld.
  { unfold digest_counting. rewrite encode_length. unfold zlen. rewrite length_take, Lw. f_equal. lia. }
  split; [|done]. unfold finish. rewrite E, bind_Done. cbv beta iota. cbn [negb Z.eqb]. rewrite Es, (Hk ctx' Tt).
  unfold digest_counting in *. by rewrite put_words_spec by lia.
Qed.

End stream.

(** The plain loop consumes the whole blocks. *)
#[export] Instance simple_blocks_whole {w words process compress} (HC : Compression w words process compress) :
  WholeBlocks w words (simple_blocks w process) compress.
Proof.
  intros ctx b off n Hs Bb Ho Hn Hl. pose proof (bs_pos (w := w)) as Hb. unfold simple_blocks.
  pose proof (Z.div_pos n (block_size w) ltac:(lia) Hb) as Hq.
  pose proof (Z.div_mod n (block_size w) ltac:(lia)) as En. pose proof (Z.mod_pos_bound n (block_size w) Hb) as Rn.
  rewrite Z2Nat.inj_add, Nat.add_1_r by lia. remember (Z.to_nat (n / block_size w)) as k eqn:Ek.
  assert (n / block_size w = Z.of_nat k) as Eq by lia. clear Ek. revert ctx off n Hs Ho Hn Hl Hq En Rn Eq.
  induction k as [|k IH]; intros ctx off n Hs Ho Hn Hl Hq En Rn Eq.
  - cbn [process_blocks]. rewrite Z.geb_leb, (proj2 (Z.leb_gt _ _)) by lia. cbn [fold_blocks]. rewrite Eq in *. rewrite Z.mul_0_l, Z.add_0_r.
    replace n with (n mod block_size w) at 1 by lia. by destruct ctx.
  - remember (S k) as f eqn:Ef. cbn [process_blocks]. subst f. rewrite Eq in En.
    rewrite Z.geb_leb, (proj2 (Z.leb_le _ _)) by nia. rewrite process_spec by (done || nia). rewrite bind_Done. cbv beta iota.
    cbn [negb Z.eqb]. rewrite size_sub_le by nia.
    assert ((n - block_size w) / block_size w = Z.of_nat k /\ (n - block_size w) mod block_size w = n mod block_size w) as [Eq' Em].
    { split; [symmetry; apply Z.div_unique with (n mod block_size w)|symmetry; apply Z.mod_unique with (Z.of_nat k)]; lia. }
    rewrite IH; rewrite ?Eq', ?Em; cbn [state set_state]; try lia.
    + cbn [fold_blocks]. rewrite zdrop_zdrop by lia. rewrite Eq.
      by replace (off + block_size w + Z.of_nat k * block_size w) with (off + Z.of_nat (S k) * block_size w) by lia.
    + apply compress_words; [done|auto with zlist|]. rewrite zlen_ztake; [done|rewrite zlen_zdrop; nia].
Qed.

(** A function that processes all whole blocks of its input. *)
Class ProcessMany (w : Z) (words : nat) (many : digest_ctx -> list Z -> Z -> Z -> outcome (Z * digest_ctx))
    (compress : list Z -> list Z -> list Z) : Prop :=
  process_many_spec ctx b off n :
    words_ok w words (state ctx) -> is_bytes b -> 0 <= off -> 0 <= n < 2 ^ 64 -> off + n <= zlen b ->
    many ctx b off n =
      Done (n / block_size w * block_size w,
            set_state ctx (fold_blocks w compress (Z.to_nat (n / block_size w)) (state ctx) (zdrop off b))).

#[export] Instance process_many_c {w words process compress} (HC : Compression w words process compress) :
  ProcessMany w words (process_many w process) compress.
Proof.
  intros ctx b off n Hs Bb Ho Hn Hl. pose proof (bs_pos (w := w)) as Hb. unfold process_many.
  pose proof (Z.div_pos n (block_size w) ltac:(lia) Hb) as Hq.
  pose proof (Z.div_mod n (block_size w) ltac:(lia)) as En. pose proof (Z.mod_pos_bound n (block_size w) Hb) as Rn.
  rewrite Z2Nat.inj_add, Nat.add_1_r by lia. remember (Z.to_nat (n / block_size w)) as k eqn:Ek.
  assert (n / block_size w = Z.of_nat k) as Eq by lia. clear Ek Hq. rewrite Eq in *.
  clear Eq. set (r := n mod block_size w) in *. clearbody r.
  assert (forall p, 0 <= p -> p + n < 2 ^ 64 -> many_loop w process (S k) ctx b off n p =
    Done (p + Z.of_nat k * block_size w, set_state ctx (fold_blocks w compress k (state ctx) (zdrop off b)))) as K;
    [|rewrite <- (Z.add_0_l (Z.of_nat k * block_size w)); apply K; lia].
  revert ctx off n Hs Ho Hn Hl En.
  induction k as [|k IH]; intros ctx off n Hs Ho Hn Hl En p Hp Hpn.
  - cbn [many_loop]. rewrite Z.geb_leb, (proj2 (Z.leb_gt _ _)) by lia. cbn [fold_blocks]. rewrite Z.mul_0_l, Z.add_0_r. by destruct ctx.
  - remember (S k) as f eqn:Ef. cbn [many_loop]. subst f.
    rewrite Z.geb_leb, (proj2 (Z.leb_le _ _)) by nia. rewrite process_spec by (done || nia). rewrite bind_Done. cbv beta iota.
    cbn [negb Z.eqb]. rewrite size_sub_le by nia. unfold u64. rewrite Z.mod_small by nia.
    rewrite IH; cbn [state set_state]; try nia.
    + cbn [fold_blocks]. rewrite zdrop_zdrop by lia.
      by replace (p + block_size w + Z.of_nat k * block_size w) with (p + Z.of_nat (S k) * block_size w) by lia.
    + apply compress_words; [done|auto with zlist|]. rewrite zlen_ztake; [done|rewrite zlen_zdrop; nia].
Qed.

#[export] Instance many_blocks_whole {w words process compress many} (HC : Compression w words process compress)
    (HM : ProcessMany w words many compress) : WholeBlocks w words (many_blocks w many) compress.
Proof.
  intros ctx b off n Hs Bb Ho Hn Hl. pose proof (bs_pos (w := w)) as Hb. unfold many_blocks.
  pose proof (Z.div_pos n (block_size w) ltac:(lia) Hb) as Hq.
  pose proof (Z.div_mod n (block_size w) ltac:(lia)) as En. pose proof (Z.mod_pos_bound n (block_size w) Hb) as Rn.
  rewrite Z2Nat.inj_add, Nat.add_1_r by lia. cbn [update_loop]. split_if.
  - assert (1 <= n / block_size w) by (apply Z.div_le_lower_bound; lia).
    rewrite process_many_spec, bind_Done by done. cbv beta iota. rewrite (proj2 (Z.ltb_ge _ _)) by nia.
    destruct (Z.to_nat (n / block_size w)) as [|k] eqn:Ek; [nia|]. rewrite size_sub_le by nia.
    replace (n - n / block_size w * block_size w) with (n mod block_size w) by lia. cbn [update_loop].
    by rewrite Z.geb_leb, (proj2 (Z.leb_gt _ _)) by lia.
  - rewrite (Z.div_small n), (Z.mod_small n) by lia. cbn [Z.to_nat fold_blocks]. rewrite Z.mul_0_l, Z.add_0_r. by destruct ctx.
Qed.

Lemma word_lookup w (l : list Z) i : 0 < w -> Forall (fun x => 0 <= x < 2 ^ w) l -> 0 <= l !!! i < 2 ^ w.
Proof.
  intros Hw F. rewrite list_lookup_total_alt. destruct (l !! i) as [x|] eqn:E; cbn.
  - by apply (Forall_lookup_1 (fun x => 0 <= x < 2 ^ w) l i).
  - split; [done|]. by apply (Z.pow_gt_1 2 w).
Qed.

(** The state after the rounds is added to the state before. *)
Lemma add_words w n s A : 0 < w -> length s = n -> length A = n -> words_ok w n (zip_with (fun x y => (x + y) mod 2 ^ w) s A).
Proof.
  intros Hw <-. revert A. induction s as [|x s IH]; intros [|y A] H; try done. injection H as H.
  destruct (IH A H) as [L F]. cbn [zip_with]. split; [cbn [length]; by rewrite L|].
  constructor; [apply Z.mod_pos_bound, Z.pow_pos_nonneg; lia|done].
Qed.

(** ** Little-endian blocks *)

(** The code reads the words of a block one after the other. *)
Fixpoint load_le (n : nat) (data : list Z) (off : Z) : outcome (list Z) :=
  match n with
  | O => mret []
  | S n => x ← MBEDTLS_GET_UINT32_LE data off; xs ← load_le n data (off + 4); mret (x :: xs)
  end.

Fixpoint words_le (n : nat) (b : list Z) : list Z :=
  match n with O => [] | S n => le (ztake 4 b) :: words_le n (zdrop 4 b) end.

Lemma load_le_spec n : forall data off, is_bytes data -> 0 <= off -> off + 4 * Z.of_nat n <= zlen data ->
  load_le n data off = Done (words_le n (zdrop off data)).
Proof.
  induction n as [|n IH]; intros data off Bd Ho Hl; cbn [load_le words_le]; [done|].
  destruct (get_uint32_spec data off Ho ltac:(lia) Bd) as [-> _]. rewrite bind_Done, IH, bind_Done by (done || lia).
  by rewrite zdrop_zdrop by lia.
Qed.

Lemma words_le_ok n : forall b, is_bytes b -> 4 * Z.of_nat n <= zlen b ->
  length (words_le n b) = n /\ Forall (fun x => 0 <= x < 2 ^ 32) (words_le n b).
Proof.
  induction n as [|n IH]; intros b Bb Lb; cbn [words_le]; [by split|].
  destruct (IH (zdrop 4 b)) as [L F]; [auto with zlist|rewrite zlen_zdrop; lia|].
  split; [cbn [length]; by rewrite L|]. constructor; [|done].
  pose proof (le_range (ztake 4 b) ltac:(auto with zlist)) as R. rewrite zlen_ztake in R by lia. exact R.
Qed.

Lemma words_le_app n : forall b c, 4 * Z.of_nat n <= zlen b -> words_le n (b ++ c) = words_le n b.
Proof.
  induction n as [|n IH]; intros b c Lb; cbn [words_le]; [done|].
  rewrite ztake_app_l, zdrop_app_l, IH by (rewrite ?zlen_zdrop; lia). done.
Qed.

(** Reading the block at [off] is reading the block. *)
Lemma load_le_block b off : is_bytes b -> 0 <= off -> off + 64 <= zlen b ->
  let X := words_le 16 (ztake 64 (zdrop off b)) in
  load_le 16 b off = Done X /\ length X = 16%nat /\ Forall (fun x => 0 <= x < 2 ^ 32) X.
Proof.
  intros Bb Ho Hl X. assert (zlen (ztake 64 (zdrop off b)) = 64) as Lz by (rewrite zlen_ztake; [done|rewrite zlen_zdrop; lia]).
  split; [|apply words_le_ok; [auto with zlist|lia]]. rewrite load_le_spec by (done || lia). f_equal.
  rewrite <- (ztake_zdrop 64 (zdrop off b)) at 1. apply words_le_app. lia.
Qed.

(** The complement of a word. *)
Definition not32 (x : Z) : Z := Z.lxor x 0xFFFFFFFF.

Lemma not32_lnot x : 0 <= x < 2 ^ 32 -> not32 x = Z.lnot x mod 2 ^ 32 /\ 0 <= not32 x < 2 ^ 32.
Proof.
  intros Hx. assert (not32 x = Z.lnot x mod 2 ^ 32) as ->; [|split; [done|apply Z.mod_pos_bound; lia]].
  apply Z.bits_inj'. intros i Hi. unfold not32. rewrite Z.lxor_spec. change 0xFFFFFFFF with (Z.ones 32).
  destruct (Z.lt_ge_cases i 32).
  - rewrite Z.ones_spec_low, Z.mod_pow2_bits_low, Z.lnot_spec by lia. apply xorb_true_r.
  - rewrite Z.ones_spec_high, Z.mod_pow2_bits_high by lia. rewrite xorb_false_r. rewrite <- (Z.mod_small x (2 ^ 32)) by done.
    by rewrite Z.mod_pow2_bits_high by lia.
Qed.

(** ** Unrolled rounds

    The block functions keep their registers in place and let the roles rotate from round to
    round instead.  [roles n t A] is the array of [n] registers seen from the roles at round
    [t]. *)
Definition roles (n t : nat) (A : list Z) : list Z := map (fun r => A !!! ((r + n - t mod n) mod n)%nat) (seq 0 n).

(** A sequence extended by a function of what it is so far. *)
Fixpoint extend (next : list Z -> Z) (n : nat) (W : list Z) : list Z :=
  match n with
  | O => W
  | S n => extend next n (W ++ [next W])
  end.

Section extend.
Context (next : list Z -> Z).

Lemma extend_length n W : length (extend next n W) = (length W + n)%nat.
Proof. revert W. induction n as [|n IH]; intros W; cbn [extend]; [lia|]. rewrite IH, length_app. cbn. lia. Qed.

Lemma extend_prefix n W : take (length W) (extend next n W) = W.
Proof.
  revert W. induction n as [|n IH]; intros W; cbn [extend]; [by rewrite take_ge|].
  specialize (IH (W ++ [next W])). rewrite length_app in IH. cbn [length] in IH.
  apply (f_equal (take (length W))) in IH. rewrite take_take in IH. replace (length W `min` (length W + 1))%nat with (length W) in IH by lia.
  by rewrite IH, take_app_length.
Qed.

Lemma extend_Forall (Q : Z -> Prop) n W : (forall W, Forall Q W -> Q (next W)) -> Forall Q W -> Forall Q (extend next n W).
Proof.
  intros HQ. revert W. induction n as [|n IH]; intros W H; cbn [extend]; [done|]. apply IH, Forall_app. split; [done|].
  constructor; [by apply HQ|constructor].
Qed.

Lemma extend_add a b M : extend next (a + b) M = extend next b (extend next a M).
Proof. revert M. induction a as [|a IH]; intros M; cbn [Nat.add extend]; [done|apply IH]. Qed.

Lemma extend_nth n M t : (length M <= t < length M + n)%nat -> extend next n M !!! t = next (take t (extend next n M)).
Proof.
  intros Ht. set (l := length M) in *. replace n with ((t - l) + S (n - (t - l) - 1))%nat by lia. rewrite extend_add.
  assert (length (extend next (t - l) M) = t) as L by (rewrite extend_length; lia).
  set (M' := extend next (t - l) M) in *. generalize (n - (t - l) - 1)%nat as b. intros b.
  pose proof (extend_prefix (S b) M') as Ep0. rewrite L in Ep0. rewrite Ep0. clear Ep0.
  cbn [extend]. pose proof (extend_prefix b (M' ++ [next M'])) as Ep.
  rewrite length_app in Ep. cbn [length] in Ep. rewrite <- (lookup_total_take_lt _ (length M' + 1) t), Ep by lia.
  rewrite lookup_total_app_r by lia. by rewrite L, Nat.sub_diag.
Qed.

End extend.

(** ** Whole messages *)

(** An update per piece of the message. *)
Fixpoint run_updates {T} (upd : T -> list Z -> Z -> outcome (Z * T)) (ctx : T) (chunks : list (list Z))
    : outcome (Z * T) :=
  match chunks with
  | [] => mret (0, ctx)
  | c :: cs =>
      '(ret, ctx) ← upd ctx c (zlen c);
      if ret =? 0 then run_updates upd ctx cs else mret (ret, ctx)
  end.

(** The bytes the context counts: of a piece, only the length modulo the word size. *)
Definition counted (w : Z) (chunks : list (list Z)) : Z := foldr (fun c n => zlen c mod 2 ^ w + n) 0 chunks.

Lemma counted_concat w chunks : Forall (fun c => zlen c < 2 ^ w) chunks -> counted w chunks = zlen (concat chunks).
Proof.
  induction 1 as [|c cs Hc _ IH]; [done|]. cbn [counted foldr concat]. unfold counted in IH.
  rewrite IH, zlen_app, Z.mod_small by (pose proof (zlen_nonneg c); lia). done.
Qed.

Section whole_message.
Context {w : Z} {words : nat} {process} {compress : list Z -> list Z -> list Z} {HC : Compression w words process compress}.
Context {whole} {HW : WholeBlocks w words whole compress}.
Context (iv : list Z) (Hiv : words_ok w words iv).
Local Notation absorbed := (absorbed (w := w) (compress := compress) iv).

Lemma absorbed_nil tr buf : is_bytes buf -> zlen buf = block_size w -> absorbed [] 0 (Digest 0 0 iv buf tr).
Proof.
  intros Bb Lb. pose proof (bs_pos (w := w)) as Hb.
  split; [split; cbn [state buffer]; try done| | |]; cbn [total0 total1]; rewrite ?Z.div_0_l, ?Z.mod_0_l; try done;
    try lia; try (apply Z.pow_nonzero; destruct (word_size (w := w)); lia).
  constructor.
Qed.

Lemma hash_run_updates_spec chunks : forall ctx m cnt,
  absorbed m cnt ctx -> Forall is_bytes chunks -> Forall (fun c => zlen c < 2 ^ 64) chunks ->
  exists ctx', run_updates (update w process whole) ctx chunks = Done (0, ctx') /\
    absorbed (m ++ concat chunks) (cnt + counted w chunks) ctx' /\ truncated ctx' = truncated ctx.
Proof.
  induction chunks as [|c cs IH]; intros ctx m cnt Ha Hb Hl; cbn [run_updates concat].
  { exists ctx. change (counted w []) with 0. by rewrite app_nil_r, Z.add_0_r. }
  apply Forall_cons in Hb as [Hc Hb]. apply Forall_cons in Hl as [Lc Hl]. pose proof (zlen_nonneg c).
  destruct (hash_update_spec iv Hiv m cnt ctx c (zlen c) Ha Hc ltac:(lia) Lc) as (ctx1 & -> & Ha1 & T1).
  rewrite bind_Done. cbv beta iota. cbn [Z.eqb]. rewrite (ztake_all (zlen c) c) in Ha1 by lia.
  destruct (IH ctx1 _ _ Ha1 Hb Hl) as (ctx2 & E & Ha2 & T2). exists ctx2. rewrite <- app_assoc in Ha2.
  cbn [counted foldr]. unfold counted in Ha2. rewrite Z.add_assoc. split_and!; [done|done|congruence].
Qed.

(** A message in any pieces: the digest of the whole with the count of the pieces. *)
Lemma stream_spec big outs k ctx chunks output :
  absorbed [] 0 ctx -> Forall is_bytes chunks -> Forall (fun c => zlen c < 2 ^ 64) chunks ->
  (forall c, truncated c = truncated ctx -> outs c = k) -> (k <= words)%nat -> Z.of_nat k * (w / 8) <= zlen output ->
  ('(ret, ctx) ← run_updates (update w process whole) ctx chunks;
   if negb (ret =? 0) then mret (ret, ctx, output) else finish w process big words outs ctx output) =
    Done (0, zeroed words (Z.to_nat (block_size w)),
      splice output 0 (digest_counting w big compress iv k (counted w chunks) (concat chunks))).
Proof.
  intros Ha Hb Hl Hk Hkw Ho. destruct (hash_run_updates_spec chunks ctx [] 0 Ha Hb Hl) as (ctx1 & -> & Ha1 & T1).
  rewrite bind_Done. cbv beta iota. cbn [negb Z.eqb]. rewrite Z.add_0_l in Ha1.
  apply (hash_finish_spec iv Hiv big outs k _ _ ctx1 output Ha1); [|done|done]. intros c Hc. apply Hk. congruence.
Qed.

(** A message in one piece: update and finish both succeed. *)
Lemma one_shot_spec big outs k ctx input n output :
  absorbed [] 0 ctx -> is_bytes input -> 0 <= n <= zlen input -> n < 2 ^ 64 ->
  (forall c, truncated c = truncated ctx -> outs c = k) -> (k <= words)%nat -> Z.of_nat k * (w / 8) <= zlen output ->
  exists ctx', update w process whole ctx input n = Done (0, ctx') /\
    finish w process big words outs ctx' output =
      Done (0, zeroed words (Z.to_nat (block_size w)),
        splice output 0 (digest_counting w big compress iv k (n mod 2 ^ w) (ztake n input))).
Proof.
  intros Ha Hb Hn Hs Hk Hkw Ho.
  destruct (hash_update_spec iv Hiv [] 0 ctx input n Ha Hb Hn ltac:(lia)) as (ctx1 & -> & Ha1 & T1). exists ctx1.
  split; [done|]. apply (hash_finish_spec iv Hiv big outs k _ _ ctx1 output Ha1); [|done|done]. intros c Hc. apply Hk. congruence.
Qed.

End whole_message.
