(* ===== verification/Sha2.v ===== *)
(** * The SHA-2 family

    The reference definition of FIPS 180-4, for both word sizes, and what [sha256.c] and
    [sha512.c] share: the macros of a round, with the rotations as parameters, and the proof
    that eight unrolled rounds on an array whose roles rotate are eight rounds of the
    standard. *)

From S2P Require Import Prelude Bytes BlockHash.

(** ** FIPS 180-4 *)

Section fips.
Context (w : Z).

Definition rotr (n x : Z) : Z := Z.lor (Z.shiftr x n) (Z.shiftl x (w - n) mod 2 ^ w).
Definition Ch (x y z : Z) : Z := Z.lxor (Z.land x y) (Z.land (Z.lnot x) z).
Definition Maj (x y z : Z) : Z := Z.lxor (Z.lxor (Z.land x y) (Z.land x z)) (Z.land y z).

(** The four functions of the word size: [Sigma0], [Sigma1] of the rounds and [sigma0],
    [sigma1] of the schedule. *)
Context (Sigma0 Sigma1 sigma0 sigma1 : Z -> Z).

Definition fips_round (k x : Z) (s : list Z) : list Z :=
  match s with
  | [a; b; c; d; e; f; g; h] =>
      let T1 := h + Sigma1 e + Ch e f g + k + x in
      let T2 := Sigma0 a + Maj a b c in
      [(T1 + T2) mod 2 ^ w; a; b; c; (d + T1) mod 2 ^ w; e; f; g]
  | _ => s
  end.

(** [n] rounds from round [t] on. *)
Fixpoint fips_rounds (n t : nat) (K W s : list Z) : list Z :=
  match n with
  | O => s
  | S n => fips_rounds n (S t) K W (fips_round (K !!! t) (W !!! t) s)
  end.

(** The word that follows a schedule. *)
Definition next_word (W : list Z) : Z :=
  let t := length W in
  (sigma1 (W !!! (t - 2)%nat) + W !!! (t - 7)%nat + sigma0 (W !!! (t - 15)%nat) + W !!! (t - 16)%nat) mod 2 ^ w.

Definition schedule (n : nat) (W : list Z) : list Z := extend next_word n W.

(** The words of a block. *)
Fixpoint words_of (n : nat) (b : list Z) : list Z :=
  match n with
  | O => []
  | S n => be_word (ztake (w / 8) b) :: words_of n (zdrop (w / 8) b)
  end.

Definition fips_compress (K : list Z) (s b : list Z) : list Z :=
  let W := schedule (length K - 16) (words_of 16 b) in
  zip_with (fun x y => (x + y) mod 2 ^ w) s (fips_rounds (length K) 0 K W s).

End fips.

(** The constants: the first [w] bits of the fractional parts of square and cube roots of
    the first primes. *)

Definition is_prime (n : Z) : bool := (2 <=? n) && forallb (fun d => negb (n mod d =? 0)) (seqZ 2 (n - 2)).
Definition primes : list Z := filter (fun n => is_prime n = true) (seqZ 2 408).

Definition frac_root (e w p k : Z) : Prop :=
  exists i, 0 <= i /\ 0 <= k < 2 ^ w /\ (i * 2 ^ w + k) ^ e <= p * 2 ^ (e * w) < (i * 2 ^ w + k + 1) ^ e.

(** Deciding it, for roots below 32. *)
Definition is_frac_root (e w p k : Z) : bool :=
  (0 <=? k) && (k <? 2 ^ w) &&
  existsb (fun i => ((i * 2 ^ w + k) ^ e <=? p * 2 ^ (e * w)) && (p * 2 ^ (e * w) <? (i * 2 ^ w + k + 1) ^ e)) (seqZ 0 32).

Fixpoint are_frac_roots (e w : Z) (ps ks : list Z) : bool :=
  match ps, ks with
  | [], [] => true
  | p :: ps, k :: ks => is_frac_root e w p k && are_frac_roots e w ps ks
  | _, _ => false
  end.

Lemma frac_roots_check e w ps : forall ks, are_frac_roots e w ps ks = true -> Forall2 (frac_root e w) ps ks.
Proof.
  induction ps as [|p ps IH]; intros [|k ks] H; cbn [are_frac_roots] in H; try done.
  apply andb_prop in H as [H1 H2]. constructor; [|by apply IH].
  unfold is_frac_root in H1. apply andb_prop in H1 as [H1 H3]. bool_to_prop.
  apply existsb_exists in H3 as (i & Hi & H3). bool_to_prop. exists i.
  apply list_elem_of_In, elem_of_seqZ in Hi. lia.
Qed.

(** ** The macros of the code *)

Section macros.
Context (w : Z) (S0 S1 S2 S3 : Z -> Z).

Definition F0 (x y z : Z) : Z := Z.lor (Z.land x y) (Z.land z (Z.lor x y)).
Definition F1 (x y z : Z) : Z := Z.lxor z (Z.land x (Z.lxor y z)).

(** [W[t] = S1(W[t - 2]) + W[t - 7] + S0(W[t - 15]) + W[t - 16]]. *)
Definition R (W : list Z) (t : nat) : list Z :=
  <[t := (S1 (W !!! (t - 2)%nat) + W !!! (t - 7)%nat + S0 (W !!! (t - 15)%nat) + W !!! (t - 16)%nat) mod 2 ^ w]> W.

(** A round on the array [A]; [a] to [h] are the indices that play these roles. *)
Definition P (A : list Z) (a b c d e f g h : nat) (x K : Z) : list Z :=
  let temp1 := (A !!! h + S3 (A !!! e) + F1 (A !!! e) (A !!! f) (A !!! g) + K + x) mod 2 ^ w in
  let temp2 := (S2 (A !!! a) + F0 (A !!! a) (A !!! b) (A !!! c)) mod 2 ^ w in
  let A := <[d := (A !!! d + temp1) mod 2 ^ w]> A in
  <[h := (temp1 + temp2) mod 2 ^ w]> A.

(** The words of a block, read one after the other. *)
Definition get (b : list Z) (off : Z) : outcome Z := l ← load b off (w / 8); mret (be_word l).

Fixpoint load_words (n : nat) (data : list Z) (off : Z) : outcome (list Z) :=
  match n with
  | O => mret []
  | S n => x ← get data off; ws ← load_words n data (off + w / 8); mret (x :: ws)
  end.

(** Eight rounds from round [i] on, with the words of [W]. *)
Definition P8 (i : nat) (K W A : list Z) : list Z :=
  let A := P A 0 1 2 3 4 5 6 7 (W !!! (i + 0)%nat) (K !!! (i + 0)%nat) in
  let A := P A 7 0 1 2 3 4 5 6 (W !!! (i + 1)%nat) (K !!! (i + 1)%nat) in
  let A := P A 6 7 0 1 2 3 4 5 (W !!! (i + 2)%nat) (K !!! (i + 2)%nat) in
  let A := P A 5 6 7 0 1 2 3 4 (W !!! (i + 3)%nat) (K !!! (i + 3)%nat) in
  let A := P A 4 5 6 7 0 1 2 3 (W !!! (i + 4)%nat) (K !!! (i + 4)%nat) in
  let A := P A 3 4 5 6 7 0 1 2 (W !!! (i + 5)%nat) (K !!! (i + 5)%nat) in
  let A := P A 2 3 4 5 6 7 0 1 (W !!! (i + 6)%nat) (K !!! (i + 6)%nat) in
  P A 1 2 3 4 5 6 7 0 (W !!! (i + 7)%nat) (K !!! (i + 7)%nat).

End macros.

(** ** The macros compute the standard's functions *)

Lemma F0_Maj x y z : F0 x y z = Maj x y z.
Proof.
  apply Z.bits_inj'. intros i Hi. unfold F0, Maj. rewrite !Z.lxor_spec, !Z.lor_spec, !Z.land_spec, !Z.lor_spec.
  by destruct (Z.testbit x i), (Z.testbit y i), (Z.testbit z i).
Qed.

Lemma F1_Ch x y z : F1 x y z = Ch x y z.
Proof.
  apply Z.bits_inj'. intros i Hi. unfold F1, Ch. rewrite !Z.lxor_spec, !Z.land_spec, !Z.lxor_spec, Z.lnot_spec by lia.
  by destruct (Z.testbit x i), (Z.testbit y i), (Z.testbit z i).
Qed.

Section rounds.
Context (w : Z) (Hw : 0 < w) (S0 S1 S2 S3 Sigma0 Sigma1 sigma0 sigma1 : Z -> Z).
Local Notation is_word x := (0 <= x < 2 ^ w).
Context (HS0 : forall x, is_word x -> S0 x = sigma0 x) (HS1 : forall x, is_word x -> S1 x = sigma1 x).
Context (HS2 : forall x, is_word x -> S2 x = Sigma0 x) (HS3 : forall x, is_word x -> S3 x = Sigma1 x).
Local Notation round := (fips_round w Sigma0 Sigma1).
Local Notation rounds := (fips_rounds w Sigma0 Sigma1).
Local Notation P := (P w S2 S3).

Lemma mod_word x : is_word (x mod 2 ^ w).
Proof using Hw. apply Z.mod_pos_bound, Z.pow_pos_nonneg; lia. Qed.

(** Eight elements. *)
Lemma eight_inv (A : list Z) : length A = 8%nat ->
  exists a b c d e f g h, A = [a; b; c; d; e; f; g; h].
Proof. intros H. do 8 (destruct A as [|? A]; [done|]). destruct A; [|done]. by repeat eexists. Qed.

Lemma P_role j A x k : (j < 8)%nat -> words_ok w 8 A ->
  let r i := ((i + 8 - j) mod 8)%nat in
  let A' := P A (r 0%nat) (r 1%nat) (r 2%nat) (r 3%nat) (r 4%nat) (r 5%nat) (r 6%nat) (r 7%nat) x k in
  roles 8 (S j) A' = round k x (roles 8 j A) /\ words_ok w 8 A'.
Proof using All.
  intros Hj [HA FA] r A'. destruct (eight_inv A HA) as (a & b & c & d & e & f & g & h & ->).
  rewrite !Forall_cons in FA. destruct FA as (Fa & Fb & Fc & Fd & Fe & Ff & Fg & Fh & _).
  assert (forall T1 T2, ((T1 mod 2 ^ w + T2 mod 2 ^ w) mod 2 ^ w = (T1 + T2) mod 2 ^ w)) as EA by (intros; symmetry; apply Zplus_mod).
  pose proof mod_word as MW.
  do 8 (destruct j as [|j]; [unfold A', r, Sha2.P; cbn -[Z.add Z.modulo Z.pow Z.mul];
    rewrite HS2, HS3, F0_Maj, F1_Ch, EA, Zplus_mod_idemp_r by done;
    split; [done|split; [done|repeat (constructor; [done || apply MW|]); constructor]]|]). lia.
Qed.

Lemma roles_0 A : length A = 8%nat -> roles 8 0 A = A /\ roles 8 8 A = A.
Proof. intros H. by destruct (eight_inv A H) as (? & ? & ? & ? & ? & ? & ? & ? & ->). Qed.

(** One of the eight rounds: the next array, named [A'], with what is known of it. *)
Local Ltac play j A HA A' E HA' i K W :=
  destruct (P_role j A (W !!! (i + j)%nat) (K !!! (i + j)%nat) ltac:(lia) HA) as [E HA'];
  cbn [Nat.add Nat.sub Nat.modulo Nat.divmod fst snd] in E, HA'; set (A' := P A _ _ _ _ _ _ _ _ _ _) in *.

Lemma P8_spec i K W A : words_ok w 8 A ->
  P8 w S2 S3 i K W A = rounds 8 i K W A /\ words_ok w 8 (P8 w S2 S3 i K W A).
Proof using All.
  intros H0. unfold P8.
  play 0%nat A H0 A1 E1 H1 i K W. play 1%nat A1 H1 A2 E2 H2 i K W. play 2%nat A2 H2 A3 E3 H3 i K W.
  play 3%nat A3 H3 A4 E4 H4 i K W. play 4%nat A4 H4 A5 E5 H5 i K W. play 5%nat A5 H5 A6 E6 H6 i K W.
  play 6%nat A6 H6 A7 E7 H7 i K W. play 7%nat A7 H7 A8 E8 H8 i K W.
  split; [|exact H8]. destruct (roles_0 A8 (proj1 H8)) as [_ <-]. rewrite E8, E7, E6, E5, E4, E3, E2, E1.
  destruct (roles_0 A (proj1 H0)) as [-> _]. cbn [fips_rounds]. repeat (rewrite <- plus_n_Sm || rewrite <- plus_n_O). done.
Qed.

Lemma rounds_add n k t K W s : rounds (n + k) t K W s = rounds k (t + n) K W (rounds n t K W s).
Proof.
  revert t s. induction n as [|n IH]; intros t s; cbn [Nat.add fips_rounds]; [by rewrite Nat.add_0_r|].
  rewrite IH. by rewrite Nat.add_succ_r.
Qed.

Lemma rounds_ext n : forall t K W W' s, (forall i, (t <= i < t + n)%nat -> W !!! i = W' !!! i) ->
  rounds n t K W s = rounds n t K W' s.
Proof.
  induction n as [|n IH]; intros t K W W' s H; cbn [fips_rounds]; [done|].
  rewrite (H t) by lia. apply IH. intros i Hi. apply H. lia.
Qed.

(** ** The schedule, computed in place *)

Local Notation next := (next_word w sigma0 sigma1).
Local Notation sched := (schedule w sigma0 sigma1).

Lemma schedule_words n W : Forall (fun x => is_word x) W -> Forall (fun x => is_word x) (sched n W).
Proof using Hw. apply extend_Forall. intros. apply mod_word. Qed.

(** Writing word [t] extends the part of the array that agrees with the schedule. *)
Lemma R_spec n M t W : let S := sched n M in length M = 16%nat -> Forall (fun x => is_word x) M ->
  (16 <= t < 16 + n)%nat -> length W = (16 + n)%nat -> take t W = take t S ->
  take (t + 1) (R w S0 S1 W t) = take (t + 1) S /\ length (R w S0 S1 W t) = (16 + n)%nat.
Proof using All.
  intros S LM FM Ht LW Et. assert (length S = 16 + n)%nat as LS by (unfold S; unfold schedule; rewrite extend_length; lia).
  assert (Forall (fun x => is_word x) S) as FS by (by apply schedule_words).
  assert (forall i, (i < t)%nat -> W !!! i = S !!! i /\ is_word (S !!! i)) as Ei.
  { intros i Hi. split.
    - rewrite <- (lookup_total_take_lt W t i), <- (lookup_total_take_lt S t i) by done. by rewrite Et.
    - apply (Forall_lookup_1 (fun x => is_word x) S i); [done|]. apply list_lookup_lookup_total_lt. lia. }
  split; [|unfold R; by rewrite length_insert].
  pose proof (extend_nth next n M t ltac:(lia)) as Es. fold (sched n M) in Es. fold S in Es.
  apply list_eq. intros i. destruct (Nat.lt_ge_cases i (t + 1)) as [Hi|Hi]; [|by rewrite !lookup_take_ge by lia].
  rewrite !lookup_take_lt by lia. unfold R. destruct (Nat.eq_dec i t) as [->|Hne].
  - rewrite list_lookup_insert_eq by lia. rewrite (list_lookup_lookup_total_lt S t) by lia. f_equal. rewrite Es.
    unfold next_word. rewrite length_take, Nat.min_l by lia. rewrite !lookup_total_take_lt by lia.
    destruct (Ei (t - 2)%nat ltac:(lia)) as [-> ?], (Ei (t - 7)%nat ltac:(lia)) as [-> _], (Ei (t - 15)%nat ltac:(lia)) as [-> ?],
      (Ei (t - 16)%nat ltac:(lia)) as [-> _]. by rewrite HS0, HS1.
  - rewrite list_lookup_insert_ne by done. rewrite !list_lookup_lookup_total_lt by lia. f_equal. apply Ei. lia.
Qed.

Lemma load_words_spec n : forall data off, 0 <= off -> off + Z.of_nat n * (w / 8) <= zlen data ->
  load_words w n data off = Done (words_of w n (zdrop off data)).
Proof using Hw.
  assert (0 <= w / 8) as H8 by (apply Z.div_pos; lia).
  induction n as [|n IH]; intros data off Ho Hl; cbn [load_words words_of]; [done|].
  unfold get. rewrite load_Done, bind_Done by nia. rewrite bind_Done, IH, bind_Done by lia. by rewrite zdrop_zdrop by lia.
Qed.

Lemma words_of_ok n : forall b, is_bytes b -> Z.of_nat n * (w / 8) <= zlen b -> w mod 8 = 0 ->
  length (words_of w n b) = n /\ Forall (fun x => is_word x) (words_of w n b).
Proof using Hw.
  assert (0 <= w / 8) as H8 by (apply Z.div_pos; lia).
  induction n as [|n IH]; intros b Bb Lb Hm; cbn [words_of]; [by split|].
  destruct (IH (zdrop (w / 8) b)) as [L F]; [auto with zlist|rewrite zlen_zdrop; nia|done|].
  split; [cbn [length]; by rewrite L|]. constructor; [|done]. unfold be_word.
  assert (is_bytes (rev (ztake (w / 8) b))) as Br by (apply Forall_rev; by apply is_bytes_ztake).
  pose proof (le_range _ Br) as Rr.
  assert (zlen (rev (ztake (w / 8) b)) = w / 8) as Lr by (unfold zlen at 1; rewrite length_rev; apply zlen_ztake; nia).
  rewrite Lr in Rr. replace (8 * (w / 8)) with w in Rr by (pose proof (Z.div_mod w 8); lia). exact Rr.
Qed.

Lemma words_of_app n : forall b c, Z.of_nat n * (w / 8) <= zlen b -> words_of w n (b ++ c) = words_of w n b.
Proof using Hw.
  assert (0 <= w / 8) as H8 by (apply Z.div_pos; lia).
  induction n as [|n IH]; intros b c Lb; cbn [words_of]; [done|].
  assert (w / 8 + Z.of_nat n * (w / 8) <= zlen b) by lia. assert (0 <= Z.of_nat n * (w / 8)) by nia.
  rewrite ztake_app_l, zdrop_app_l by lia. rewrite IH; [done|]. rewrite zlen_zdrop; lia.
Qed.

End rounds.
