(* ===== verification/Sha256.v ===== *)
(** * SHA-256 and SHA-224

    [src/internal/mbedtls/sha256.c] as compiled without the instructions of the Armv8
    cryptographic extension: the block function, streaming and the one-call function, and
    that they compute the digests of FIPS 180-4. *)

From S2P Require Import Prelude Bytes BlockHash Sha2.

(** ** The code *)

Definition SHA256_BLOCK_SIZE : Z := 64.
Definition MBEDTLS_ERR_SHA256_BAD_INPUT_DATA : Z := -0x0074.

Definition K : list Z :=
  [0x428A2F98; 0x71374491; 0xB5C0FBCF; 0xE9B5DBA5; 0x3956C25B; 0x59F111F1; 0x923F82A4; 0xAB1C5ED5;
   0xD807AA98; 0x12835B01; 0x243185BE; 0x550C7DC3; 0x72BE5D74; 0x80DEB1FE; 0x9BDC06A7; 0xC19BF174;
   0xE49B69C1; 0xEFBE4786; 0x0FC19DC6; 0x240CA1CC; 0x2DE92C6F; 0x4A7484AA; 0x5CB0A9DC; 0x76F988DA;
   0x983E5152; 0xA831C66D; 0xB00327C8; 0xBF597FC7; 0xC6E00BF3; 0xD5A79147; 0x06CA6351; 0x14292967;
   0x27B70A85; 0x2E1B2138; 0x4D2C6DFC; 0x53380D13; 0x650A7354; 0x766A0ABB; 0x81C2C92E; 0x92722C85;
   0xA2BFE8A1; 0xA81A664B; 0xC24B8B70; 0xC76C51A3; 0xD192E819; 0xD6990624; 0xF40E3585; 0x106AA070;
   0x19A4C116; 0x1E376C08; 0x2748774C; 0x34B0BCB5; 0x391C0CB3; 0x4ED8AA4A; 0x5B9CCA4F; 0x682E6FF3;
   0x748F82EE; 0x78A5636F; 0x84C87814; 0x8CC70208; 0x90BEFFFA; 0xA4506CEB; 0xBEF9A3F7; 0xC67178F2].

Definition SHR (x n : Z) : Z := Z.shiftr (Z.land x 0xFFFFFFFF) n.
Definition ROTR (x n : Z) : Z := Z.lor (SHR x n) (u32 (Z.shiftl x (32 - n))).
Definition S0 (x : Z) : Z := Z.lxor (Z.lxor (ROTR x 7) (ROTR x 18)) (SHR x 3).
Definition S1 (x : Z) : Z := Z.lxor (Z.lxor (ROTR x 17) (ROTR x 19)) (SHR x 10).
Definition S2 (x : Z) : Z := Z.lxor (Z.lxor (ROTR x 2) (ROTR x 13)) (ROTR x 22).
Definition S3 (x : Z) : Z := Z.lxor (Z.lxor (ROTR x 6) (ROTR x 11)) (ROTR x 25).

Definition R : list Z -> nat -> list Z := Sha2.R 32 S0 S1.
Definition P : list Z -> nat -> nat -> nat -> nat -> nat -> nat -> nat -> nat -> Z -> Z -> list Z := Sha2.P 32 S2 S3.

(** Eight rounds that extend the schedule as they go. *)
Definition scheduled_rounds (i : nat) (AW : list Z * list Z) : list Z * list Z :=
  let '(A, W) := AW in
  let W := R W (i + 0) in let A := P A 0 1 2 3 4 5 6 7 (W !!! (i + 0)%nat) (K !!! (i + 0)%nat) in
  let W := R W (i + 1) in let A := P A 7 0 1 2 3 4 5 6 (W !!! (i + 1)%nat) (K !!! (i + 1)%nat) in
  let W := R W (i + 2) in let A := P A 6 7 0 1 2 3 4 5 (W !!! (i + 2)%nat) (K !!! (i + 2)%nat) in
  let W := R W (i + 3) in let A := P A 5 6 7 0 1 2 3 4 (W !!! (i + 3)%nat) (K !!! (i + 3)%nat) in
  let W := R W (i + 4) in let A := P A 4 5 6 7 0 1 2 3 (W !!! (i + 4)%nat) (K !!! (i + 4)%nat) in
  let W := R W (i + 5) in let A := P A 3 4 5 6 7 0 1 2 (W !!! (i + 5)%nat) (K !!! (i + 5)%nat) in
  let W := R W (i + 6) in let A := P A 2 3 4 5 6 7 0 1 (W !!! (i + 6)%nat) (K !!! (i + 6)%nat) in
  let W := R W (i + 7) in let A := P A 1 2 3 4 5 6 7 0 (W !!! (i + 7)%nat) (K !!! (i + 7)%nat) in
  (A, W).

(** [W] has 64 entries; those from 16 on are written before they are read. *)
Definition mbedtls_internal_sha256_process_c (ctx : digest_ctx) (data : list Z) (off : Z) : outcome (Z * digest_ctx) :=
  let A := state ctx in
  M ← load_words 32 16 data off;
  let W := M ++ replicate 48 0 in
  let A := fold_left (fun A i => P8 32 S2 S3 i K W A) [0; 8]%nat A in
  let '(A, W) := fold_left (fun AW i => scheduled_rounds i AW) [16; 24; 32; 40; 48; 56]%nat (A, W) in
  mret (0, set_state ctx (zip_with (fun s a => u32 (s + a)) (state ctx) A)).

Definition mbedtls_internal_sha256_process_many_c : digest_ctx -> list Z -> Z -> Z -> outcome (Z * digest_ctx) :=
  process_many 32 mbedtls_internal_sha256_process_c.

Definition mbedtls_sha256_init (_ : digest_ctx) : digest_ctx := zeroed 8 64.
Definition mbedtls_sha256_free (ctx : option digest_ctx) : option digest_ctx :=
  match ctx with None => None | Some _ => Some (zeroed 8 64) end.
Definition mbedtls_sha256_clone (dst src : digest_ctx) : digest_ctx := src.

Definition sha256_iv : list Z :=
  [0x6A09E667; 0xBB67AE85; 0x3C6EF372; 0xA54FF53A; 0x510E527F; 0x9B05688C; 0x1F83D9AB; 0x5BE0CD19].
Definition sha224_iv : list Z :=
  [0xC1059ED8; 0x367CD507; 0x3070DD17; 0xF70E5939; 0xFFC00B31; 0x68581511; 0x64F98FA7; 0xBEFA4FA4].

Definition mbedtls_sha256_starts (ctx : digest_ctx) (is224 : Z) : Z * digest_ctx :=
  if negb (is224 =? 0) && negb (is224 =? 1) then (MBEDTLS_ERR_SHA256_BAD_INPUT_DATA, ctx) else
  (0, Digest 0 0 (if is224 =? 0 then sha256_iv else sha224_iv) (buffer ctx) is224).

Definition mbedtls_sha256_update : digest_ctx -> list Z -> Z -> outcome (Z * digest_ctx) :=
  update 32 mbedtls_internal_sha256_process_c (many_blocks 32 mbedtls_internal_sha256_process_many_c).

(** All eight words, or seven for SHA-224. *)
Definition mbedtls_sha256_finish : digest_ctx -> list Z -> outcome (Z * digest_ctx * list Z) :=
  finish 32 mbedtls_internal_sha256_process_c true 8 (fun ctx => if truncated ctx =? 0 then 8%nat else 7%nat).

Definition mbedtls_sha256 (input : list Z) (ilen : Z) (output : list Z) (is224 : Z) : outcome (Z * list Z) :=
  if negb (is224 =? 0) && negb (is224 =? 1) then mret (MBEDTLS_ERR_SHA256_BAD_INPUT_DATA, output) else
  let ctx := mbedtls_sha256_init (zeroed 8 64) in
  let '(ret, ctx) := mbedtls_sha256_starts ctx is224 in
  if negb (ret =? 0) then mret (ret, output) else
  '(ret, ctx) ← mbedtls_sha256_update ctx input ilen;
  if negb (ret =? 0) then mret (ret, output) else
  '(ret, ctx, output) ← mbedtls_sha256_finish ctx output;
  mret (ret, output).

(** ** The functions of FIPS 180-4 *)

Definition Sigma0 (x : Z) : Z := Z.lxor (Z.lxor (rotr 32 2 x) (rotr 32 13 x)) (rotr 32 22 x).
Definition Sigma1 (x : Z) : Z := Z.lxor (Z.lxor (rotr 32 6 x) (rotr 32 11 x)) (rotr 32 25 x).
Definition sigma0 (x : Z) : Z := Z.lxor (Z.lxor (rotr 32 7 x) (rotr 32 18 x)) (Z.shiftr x 3).
Definition sigma1 (x : Z) : Z := Z.lxor (Z.lxor (rotr 32 17 x) (rotr 32 19 x)) (Z.shiftr x 10).

Definition sha256_compress : list Z -> list Z -> list Z := fips_compress 32 Sigma0 Sigma1 sigma0 sigma1 K.

(** The digests: eight words, or seven of another initial state. *)
Definition sha256 (m : list Z) : list Z := digest 32 true sha256_compress sha256_iv 8 m.
Definition sha224 (m : list Z) : list Z := digest 32 true sha256_compress sha224_iv 7 m.

(** ** Proofs *)

Lemma SHR_word x n : 0 <= x < 2 ^ 32 -> SHR x n = Z.shiftr x n.
Proof. intros H. unfold SHR. change 0xFFFFFFFF with (Z.ones 32). by rewrite Z.land_ones, Z.mod_small by lia. Qed.

Lemma ROTR_word x n : 0 <= x < 2 ^ 32 -> ROTR x n = rotr 32 n x.
Proof. intros H. unfold ROTR. by rewrite SHR_word. Qed.

Lemma S0_word x : 0 <= x < 2 ^ 32 -> S0 x = sigma0 x.
Proof. intros. unfold S0. by rewrite !ROTR_word, SHR_word. Qed.
Lemma S1_word x : 0 <= x < 2 ^ 32 -> S1 x = sigma1 x.
Proof. intros. unfold S1. by rewrite !ROTR_word, SHR_word. Qed.
Lemma S2_word x : 0 <= x < 2 ^ 32 -> S2 x = Sigma0 x.
Proof. intros. unfold S2. by rewrite !ROTR_word. Qed.
Lemma S3_word x : 0 <= x < 2 ^ 32 -> S3 x = Sigma1 x.
Proof. intros. unfold S3. by rewrite !ROTR_word. Qed.

Section block.
Context (M : list Z) (LM : length M = 16%nat) (FM : Forall (fun x => 0 <= x < 2 ^ 32) M).
Local Notation Sch := (schedule 32 sigma0 sigma1 48 M).

(** The array agrees with the schedule up to [t]. *)
Definition filled (t : nat) (W : list Z) : Prop := take t W = take t Sch /\ length W = 64%nat.

Lemma R_filled t W : (16 <= t < 64)%nat -> filled t W -> filled (t + 1) (R W t) /\ R W t !!! t = Sch !!! t.
Proof using All.
  intros Ht [Et LW].
  destruct (R_spec 32 ltac:(lia) S0 S1 S2 S3 Sigma0 Sigma1 sigma0 sigma1 S0_word S1_word S2_word S3_word 48 M t W LM FM ltac:(lia) LW Et) as [E L].
  split; [by split|]. rewrite <- (lookup_total_take_lt (R W t) (t + 1) t), <- (lookup_total_take_lt Sch (t + 1) t) by lia.
  by unfold R; rewrite E.
Qed.

Local Ltac extend i j W HW W' HW' :=
  let E := fresh in
  destruct (R_filled (i + j)%nat W ltac:(lia) HW) as [HW' E]; rewrite E; clear E;
  set (W' := R W (i + j)%nat) in *; replace (i + j + 1)%nat with (i + S j)%nat in HW' by lia.

Lemma scheduled_rounds_spec i A W : (16 <= i)%nat -> (i + 8 <= 64)%nat -> filled i W ->
  exists W', scheduled_rounds i (A, W) = (P8 32 S2 S3 i K Sch A, W') /\ filled (i + 8) W'.
Proof using All.
  intros Hi1 Hi2 H0. rewrite <- (Nat.add_0_r i) in H0. unfold scheduled_rounds.
  extend i 0%nat W H0 W1 H1. extend i 1%nat W1 H1 W2 H2. extend i 2%nat W2 H2 W3 H3. extend i 3%nat W3 H3 W4 H4.
  extend i 4%nat W4 H4 W5 H5. extend i 5%nat W5 H5 W6 H6. extend i 6%nat W6 H6 W7 H7. extend i 7%nat W7 H7 W8 H8.
  exists W8. split; [|exact H8]. clear. unfold P8, P. cbv zeta. reflexivity.
Qed.

Lemma P8_round i W A : words_ok 32 8 A -> (forall t, (i <= t < i + 8)%nat -> W !!! t = Sch !!! t) ->
  P8 32 S2 S3 i K W A = fips_rounds 32 Sigma0 Sigma1 8 i K Sch A /\ words_ok 32 8 (P8 32 S2 S3 i K W A).
Proof using All.
  intros HA HW. destruct (P8_spec 32 ltac:(lia) S0 S1 S2 S3 Sigma0 Sigma1 sigma0 sigma1 S0_word S1_word S2_word S3_word i K W A HA) as [E H].
  split; [|done]. rewrite E. by apply rounds_ext.
Qed.

(** [n] groups of eight rounds from [i] on. *)
Fixpoint eights (n i : nat) : list nat := match n with O => [] | S n => i :: eights n (i + 8) end.

Lemma groups_spec n : forall i A W, (16 <= i)%nat -> (i + 8 * n <= 64)%nat -> filled i W -> words_ok 32 8 A ->
  exists W', fold_left (fun AW i => scheduled_rounds i AW) (eights n i) (A, W) =
    (fips_rounds 32 Sigma0 Sigma1 (8 * n) i K Sch A, W') /\ words_ok 32 8 (fips_rounds 32 Sigma0 Sigma1 (8 * n) i K Sch A).
Proof using All.
  induction n as [|n IH]; intros i A W Hi1 Hi2 HF HA.
  { exists W. rewrite Nat.mul_0_r. cbn [eights fold_left fips_rounds]. by split. }
  destruct (scheduled_rounds_spec i A W Hi1 ltac:(lia) HF) as (W1 & E1 & F1).
  destruct (P8_round i Sch A HA ltac:(done)) as [E2 H2].
  destruct (IH (i + 8)%nat _ W1 ltac:(lia) ltac:(lia) F1 H2) as (W' & E3 & H3). exists W'.
  replace (8 * S n)%nat with (8 + 8 * n)%nat by lia. rewrite rounds_add, <- E2. split; [|done].
  cbn [eights fold_left]. rewrite E1. exact E3.
Qed.

Lemma sha256_rounds_spec A : words_ok 32 8 A ->
  let W := M ++ replicate 48 0 in
  let A1 := fold_left (fun A i => P8 32 S2 S3 i K W A) [0; 8]%nat A in
  exists W', fold_left (fun AW i => scheduled_rounds i AW) [16; 24; 32; 40; 48; 56]%nat (A1, W) =
    (fips_rounds 32 Sigma0 Sigma1 64 0 K Sch A, W') /\ words_ok 32 8 (fips_rounds 32 Sigma0 Sigma1 64 0 K Sch A).
Proof using All.
  intros H0 W A1. assert (filled 16 W) as HF.
  { split; [|unfold W; rewrite length_app, length_replicate; lia]. unfold W.
    pose proof (extend_prefix (next_word 32 sigma0 sigma1) 48 M) as E. rewrite LM in E. unfold schedule. rewrite E.
    pose proof (take_app_length M (replicate 48 0)) as E'. by rewrite LM in E'. }
  assert (forall t, (t < 16)%nat -> W !!! t = Sch !!! t) as HW.
  { intros t Ht. rewrite <- (lookup_total_take_lt W 16 t), <- (lookup_total_take_lt Sch 16 t) by lia. by rewrite (proj1 HF). }
  destruct (P8_round 0 W A H0) as [E1 H1]; [intros; apply HW; lia|].
  destruct (P8_round 8 W _ H1) as [E2 H2]; [intros; apply HW; lia|].
  destruct (groups_spec 6 16 A1 W ltac:(lia) ltac:(lia) HF H2) as (W' & E3 & H3). exists W'.
  assert (fips_rounds 32 Sigma0 Sigma1 64 0 K Sch A = fips_rounds 32 Sigma0 Sigma1 (8 * 6) 16 K Sch A1) as ->; [|by split].
  change 64%nat with (8 + (8 + 8 * 6))%nat. rewrite !rounds_add. unfold A1. cbn [fold_left]. by rewrite E2, E1.
Qed.

End block.

#[export] Instance sha256_compression : Compression 32 8 mbedtls_internal_sha256_process_c sha256_compress.
Proof.
  assert (forall s b, words_ok 32 8 s -> is_bytes b -> zlen b = 64 ->
    length (words_of 32 16 b) = 16%nat /\ Forall (fun x => 0 <= x < 2 ^ 32) (words_of 32 16 b)) as HM.
  { intros s b _ Bb Lb. by apply words_of_ok; [..|rewrite Lb|]. }
  split; [by left| |].
  - intros s b Hs Bb Lb. destruct (HM s b Hs Bb Lb) as [LM FM]. destruct (sha256_rounds_spec _ LM FM s Hs) as (_ & _ & H).
    apply add_words; [lia|apply Hs|apply H].
  - intros ctx b off Hs Bb Ho Hl. unfold block_size in Hl. unfold mbedtls_internal_sha256_process_c.
    rewrite load_words_spec, bind_Done by (change (Z.of_nat 16 * (32 / 8)) with 64; lia).
    assert (is_bytes (ztake 64 (zdrop off b)) /\ zlen (ztake 64 (zdrop off b)) = 64) as [Bz Lz].
    { split; [auto with zlist|]. rewrite zlen_ztake; [done|rewrite zlen_zdrop; lia]. }
    assert (words_of 32 16 (zdrop off b) = words_of 32 16 (ztake 64 (zdrop off b))) as ->.
    { rewrite <- (ztake_zdrop 64 (zdrop off b)) at 1. apply words_of_app; [lia|by rewrite Lz]. }
    destruct (HM _ _ Hs Bz Lz) as [LM FM]. destruct (sha256_rounds_spec _ LM FM _ Hs) as (W' & E & _).
    cbv zeta in E. rewrite E. reflexivity.
Qed.

Lemma sha256_iv_words : words_ok 32 8 sha256_iv /\ words_ok 32 8 sha224_iv.
Proof. split; (split; [done|]); apply (bool_decide_unpack _); vm_compute; exact I. Qed.

Lemma sha256_starts_spec ctx tr : (tr = 0 \/ tr = 1) -> is_bytes (buffer ctx) -> zlen (buffer ctx) = 64 ->
  let iv := if tr =? 0 then sha256_iv else sha224_iv in
  exists ctx', mbedtls_sha256_starts ctx tr = (0, ctx') /\ truncated ctx' = tr /\ words_ok 32 8 iv /\
    absorbed (w := 32) (compress := sha256_compress) iv [] 0 ctx'.
Proof.
  intros Ht Bb Lb iv. exists (Digest 0 0 iv (buffer ctx) tr). destruct sha256_iv_words as [I1 I2].
  split_and!; [by destruct Ht as [-> | ->]|done|unfold iv; by destruct (tr =? 0)|by apply absorbed_nil].
Qed.

(** The digest for [is224], as bytes. *)
Definition sha256_digest (is224 : Z) (m : list Z) : list Z := if is224 =? 0 then sha256 m else sha224 m.

(** ** Theorems *)

(** C25.  A context of any content that is started takes a message in any pieces, each of
    fewer than 2^32 bytes, and then has the SHA-256 or SHA-224 of FIPS 180-4 of the whole:
    only its bytes are written, and the context is erased. *)
Theorem sha256_stream_correct ctx is224 chunks output :
  is224 = 0 \/ is224 = 1 -> is_bytes (buffer ctx) -> zlen (buffer ctx) = 64 ->
  Forall is_bytes chunks -> Forall (fun c => zlen c < 2 ^ 32) chunks -> 32 - 4 * is224 <= zlen output ->
  (let '(_, ctx) := mbedtls_sha256_starts ctx is224 in
   '(ret, ctx) ← run_updates mbedtls_sha256_update ctx chunks;
   if negb (ret =? 0) then mret (ret, ctx, output) else mbedtls_sha256_finish ctx output) =
    Done (0, zeroed 8 64, splice output 0 (sha256_digest is224 (concat chunks))).
Proof.
  intros Ht Bb Lb Hc Hl Ho. destruct (sha256_starts_spec ctx is224 Ht Bb Lb) as (ctx' & -> & Et & Hiv & Ha). subst is224.
  unfold mbedtls_sha256_update, mbedtls_sha256_finish.
  rewrite (stream_spec (whole := many_blocks 32 mbedtls_internal_sha256_process_many_c) _ Hiv true _
    (if truncated ctx' =? 0 then 8%nat else 7%nat) ctx' chunks output Ha Hc).
  - rewrite counted_concat by done. change (Z.to_nat (block_size 32)) with 64%nat. unfold sha256_digest.
    by destruct (truncated ctx' =? 0).
  - eapply Forall_impl; [exact Hl|]. cbv beta. intros. lia.
  - by intros c ->.
  - destruct (truncated ctx' =? 0); lia.
  - change (32 / 8) with 4. destruct Ht as [E | E]; rewrite E in *; cbn [Z.eqb]; lia.
Qed.

Lemma sha256_stream_correct_witness :
  (let '(_, ctx) := mbedtls_sha256_starts (zeroed 8 64) 1 in
   '(ret, ctx) ← run_updates mbedtls_sha256_update ctx [[97]; []; [98; 99]];
   if negb (ret =? 0) then mret (ret, ctx, replicate 30 7) else mbedtls_sha256_finish ctx (replicate 30 7)) =
    Done (0, zeroed 8 64, splice (replicate 30 7) 0 (sha256_digest 1 (concat [[97]; []; [98; 99]]))).
Proof.
  apply (sha256_stream_correct (zeroed 8 64) 1 [[97]; []; [98; 99]] (replicate 30 7)); [by right| | | | |].
  - by apply is_bytes_replicate.
  - reflexivity.
  - apply (bool_decide_unpack _). vm_compute. exact I.
  - repeat (constructor; [vm_compute; reflexivity|]). constructor.
  - vm_compute. discriminate.
Defined.

(** The one-call function has the digest of its input, of fewer than 2^32 bytes, behind
    no other change; it refuses a selector other than 0 and 1. *)
Theorem sha256_correct input ilen output is224 :
  is_bytes input -> 0 <= ilen <= zlen input -> ilen < 2 ^ 32 -> 32 - 4 * is224 <= zlen output ->
  mbedtls_sha256 input ilen output is224 =
    Done (if (is224 =? 0) || (is224 =? 1) then (0, splice output 0 (sha256_digest is224 (ztake ilen input)))
          else (MBEDTLS_ERR_SHA256_BAD_INPUT_DATA, output)).
Proof.
  intros Bi Hl Hs Ho. unfold mbedtls_sha256. rewrite <- negb_orb. destruct ((is224 =? 0) || (is224 =? 1)) eqn:Eb; [|done].
  assert (is224 = 0 \/ is224 = 1) as Ht by (apply orb_prop in Eb as [?|?]; bool_to_prop; tauto).
  destruct (sha256_starts_spec (mbedtls_sha256_init (zeroed 8 64)) is224 Ht ltac:(by apply is_bytes_replicate) ltac:(done))
    as (ctx & -> & Et & Hiv & Ha). subst is224. cbn [negb Z.eqb]. unfold mbedtls_sha256_update, mbedtls_sha256_finish.
  destruct (one_shot_spec (whole := many_blocks 32 mbedtls_internal_sha256_process_many_c) _ Hiv true
    (fun c => if truncated c =? 0 then 8%nat else 7%nat) (if truncated ctx =? 0 then 8%nat else 7%nat) ctx input ilen output
    Ha Bi Hl) as (ctx1 & E1 & E2).
  - lia.
  - intros c Hc. by rewrite Hc.
  - destruct (truncated ctx =? 0); lia.
  - change (32 / 8) with 4. destruct Ht as [E | E]; rewrite E in *; cbn [Z.eqb]; lia.
  - rewrite E1, bind_Done. cbv beta iota. cbn [negb Z.eqb]. rewrite E2, bind_Done. cbv beta iota.
    rewrite Z.mod_small by lia. unfold sha256_digest, sha256, sha224, digest. rewrite zlen_ztake by lia. by destruct (truncated ctx =? 0).
Qed.

Lemma sha256_correct_witness :
  mbedtls_sha256 [97; 98; 99] 3 (replicate 32 0) 0 =
    Done (0, splice (replicate 32 0) 0 (sha256_digest 0 (ztake 3 [97; 98; 99]))).
Proof.
  apply (sha256_correct [97; 98; 99] 3 (replicate 32 0) 0); [apply (bool_decide_unpack _); vm_compute; exact I|vm_compute; split; discriminate|
    vm_compute; reflexivity|vm_compute; discriminate].
Defined.

(** C26.  A single piece of 2^32 bytes is hashed as if it had length zero: the count in the
    context takes the length of a piece modulo 2^32, so the padding that is hashed is not
    the padding of the message. *)
Theorem sha256_long_piece ctx c output :
  is_bytes (buffer ctx) -> zlen (buffer ctx) = 64 -> is_bytes c -> zlen c = 2 ^ 32 -> 32 <= zlen output ->
  (let '(_, ctx) := mbedtls_sha256_starts ctx 0 in
   '(ret, ctx) ← mbedtls_sha256_update ctx c (zlen c);
   if negb (ret =? 0) then mret (ret, ctx, output) else mbedtls_sha256_finish ctx output) =
    Done (0, zeroed 8 64, splice output 0 (digest_counting 32 true sha256_compress sha256_iv 8 0 c)) /\
  pad 32 true 0 c <> pad 32 true (zlen c) c.
Proof.
  intros Bb Lb Bc Lc Ho. split.
  - destruct (sha256_starts_spec ctx 0 ltac:(by left) Bb Lb) as (ctx' & -> & Et & Hiv & Ha).
    destruct (one_shot_spec (whole := many_blocks 32 mbedtls_internal_sha256_process_many_c) _ Hiv true
      (fun c => if truncated c =? 0 then 8%nat else 7%nat) 8 ctx' c (zlen c) output Ha Bc) as (ctx1 & E1 & E2); [lia..| | | |].
    + intros x Hx. by rewrite Hx, Et.
    + lia.
    + change (32 / 8) with 4. lia.
    + unfold mbedtls_sha256_update, mbedtls_sha256_finish. rewrite E1, bind_Done. cbv beta iota. cbn [negb Z.eqb].
      rewrite E2, ztake_all, Lc, Z.mod_same by lia. done.
  - rewrite Lc. unfold pad. intros H. apply app_inv_head, app_inv_head, app_inv_head in H. discriminate H.
Qed.

Lemma sha256_long_piece_witness :
  let c := replicate (Z.to_nat (2 ^ 32)) 0 in
  pad 32 true 0 c <> pad 32 true (zlen c) c.
Proof.
  intros c. apply (sha256_long_piece (zeroed 8 64) c (replicate 32 0)).
  - by apply is_bytes_replicate.
  - reflexivity.
  - by apply is_bytes_replicate.
  - unfold c. rewrite zlen_replicate. apply Z2Nat.id. discriminate.
  - vm_compute. discriminate.
Defined.

(** The test vectors of the file. *)
Example sha256_abc : sha256_digest 0 [97; 98; 99] = [0xBA; 0x78; 0x16; 0xBF; 0x8F; 0x01; 0xCF; 0xEA; 0x41; 0x41; 0x40; 0xDE; 0x5D; 0xAE; 0x22; 0x23;
  0xB0; 0x03; 0x61; 0xA3; 0x96; 0x17; 0x7A; 0x9C; 0xB4; 0x10; 0xFF; 0x61; 0xF2; 0x00; 0x15; 0xAD].
Proof. vm_compute. reflexivity. Qed.
