(* ===== verification/Sha512.v ===== *)
(** * SHA-512 and SHA-384

    [src/internal/mbedtls/sha512.c] as compiled without the instructions of the Armv8
    cryptographic extension: the block function, streaming and the one-call function, and
    that they compute the digests of FIPS 180-4.  The constants of both SHA-2 files are
    checked against their definition in the standard. *)

From S2P Require Import Prelude Bytes BlockHash Sha2 Sha256.

(** ** The code *)

Definition SHA512_BLOCK_SIZE : Z := 128.
Definition MBEDTLS_ERR_SHA512_BAD_INPUT_DATA : Z := -0x0075.

Definition K : list Z :=
  [0x428A2F98D728AE22; 0x7137449123EF65CD; 0xB5C0FBCFEC4D3B2F; 0xE9B5DBA58189DBBC;
   0x3956C25BF348B538; 0x59F111F1B605D019; 0x923F82A4AF194F9B; 0xAB1C5ED5DA6D8118;
   0xD807AA98A3030242; 0x12835B0145706FBE; 0x243185BE4EE4B28C; 0x550C7DC3D5FFB4E2;
   0x72BE5D74F27B896F; 0x80DEB1FE3B1696B1; 0x9BDC06A725C71235; 0xC19BF174CF692694;
   0xE49B69C19EF14AD2; 0xEFBE4786384F25E3; 0x0FC19DC68B8CD5B5; 0x240CA1CC77AC9C65;
   0x2DE92C6F592B0275; 0x4A7484AA6EA6E483; 0x5CB0A9DCBD41FBD4; 0x76F988DA831153B5;
   0x983E5152EE66DFAB; 0xA831C66D2DB43210; 0xB00327C898FB213F; 0xBF597FC7BEEF0EE4;
   0xC6E00BF33DA88FC2; 0xD5A79147930AA725; 0x06CA6351E003826F; 0x142929670A0E6E70;
   0x27B70A8546D22FFC; 0x2E1B21385C26C926; 0x4D2C6DFC5AC42AED; 0x53380D139D95B3DF;
   0x650A73548BAF63DE; 0x766A0ABB3C77B2A8; 0x81C2C92E47EDAEE6; 0x92722C851482353B;
   0xA2BFE8A14CF10364; 0xA81A664BBC423001; 0xC24B8B70D0F89791; 0xC76C51A30654BE30;
   0xD192E819D6EF5218; 0xD69906245565A910; 0xF40E35855771202A; 0x106AA07032BBD1B8;
   0x19A4C116B8D2D0C8; 0x1E376C085141AB53; 0x2748774CDF8EEB99; 0x34B0BCB5E19B48A8;
   0x391C0CB3C5C95A63; 0x4ED8AA4AE3418ACB; 0x5B9CCA4F7763E373; 0x682E6FF3D6B2B8A3;
   0x748F82EE5DEFB2FC; 0x78A5636F43172F60; 0x84C87814A1F0AB72; 0x8CC702081A6439EC;
   0x90BEFFFA23631E28; 0xA4506CEBDE82BDE9; 0xBEF9A3F7B2C67915; 0xC67178F2E372532B;
   0xCA273ECEEA26619C; 0xD186B8C721C0C207; 0xEADA7DD6CDE0EB1E; 0xF57D4F7FEE6ED178;
   0x06F067AA72176FBA; 0x0A637DC5A2C898A6; 0x113F9804BEF90DAE; 0x1B710B35131C471B;
   0x28DB77F523047D84; 0x32CAAB7B40C72493; 0x3C9EBE0A15C9BEBC; 0x431D67C49C100D4C;
   0x4CC5D4BECB3E42B6; 0x597F299CFC657E2A; 0x5FCB6FAB3AD6FAEC; 0x6C44198C4A475817].

Definition SHR (x n : Z) : Z := Z.shiftr x n.
Definition ROTR (x n : Z) : Z := Z.lor (SHR x n) (u64 (Z.shiftl x (64 - n))).
Definition S0 (x : Z) : Z := Z.lxor (Z.lxor (ROTR x 1) (ROTR x 8)) (SHR x 7).
Definition S1 (x : Z) : Z := Z.lxor (Z.lxor (ROTR x 19) (ROTR x 61)) (SHR x 6).
Definition S2 (x : Z) : Z := Z.lxor (Z.lxor (ROTR x 28) (ROTR x 34)) (ROTR x 39).
Definition S3 (x : Z) : Z := Z.lxor (Z.lxor (ROTR x 14) (ROTR x 18)) (ROTR x 41).

(** [W] has 80 entries; those from 16 on are written before they are read. *)
Definition mbedtls_internal_sha512_process_c (ctx : digest_ctx) (data : list Z) (off : Z) : outcome (Z * digest_ctx) :=
  let A := state ctx in
  M ← load_words 64 16 data off;
  let W := M ++ replicate 64 0 in
  let W := fold_left (fun W i => Sha2.R 64 S0 S1 W i) (seq 16 64) W in
  let A := fold_left (fun A i => P8 64 S2 S3 i K W A) [0; 8; 16; 24; 32; 40; 48; 56; 64; 72]%nat A in
  mret (0, set_state ctx (zip_with (fun s a => u64 (s + a)) (state ctx) A)).

Definition mbedtls_internal_sha512_process_many_c : digest_ctx -> list Z -> Z -> Z -> outcome (Z * digest_ctx) :=
  process_many 64 mbedtls_internal_sha512_process_c.

Definition mbedtls_sha512_init (_ : digest_ctx) : digest_ctx := zeroed 8 128.
Definition mbedtls_sha512_free (ctx : option digest_ctx) : option digest_ctx :=
  match ctx with None => None | Some _ => Some (zeroed 8 128) end.
Definition mbedtls_sha512_clone (dst src : digest_ctx) : digest_ctx := src.

Definition sha512_iv : list Z :=
  [0x6A09E667F3BCC908; 0xBB67AE8584CAA73B; 0x3C6EF372FE94F82B; 0xA54FF53A5F1D36F1;
   0x510E527FADE682D1; 0x9B05688C2B3E6C1F; 0x1F83D9ABFB41BD6B; 0x5BE0CD19137E2179].
Definition sha384_iv : list Z :=
  [0xCBBB9D5DC1059ED8; 0x629A292A367CD507; 0x9159015A3070DD17; 0x152FECD8F70E5939;
   0x67332667FFC00B31; 0x8EB44A8768581511; 0xDB0C2E0D64F98FA7; 0x47B5481DBEFA4FA4].

Definition mbedtls_sha512_starts (ctx : digest_ctx) (is384 : Z) : Z * digest_ctx :=
  if negb (is384 =? 0) && negb (is384 =? 1) then (MBEDTLS_ERR_SHA512_BAD_INPUT_DATA, ctx) else
  (0, Digest 0 0 (if is384 =? 0 then sha512_iv else sha384_iv) (buffer ctx) is384).

Definition mbedtls_sha512_update : digest_ctx -> list Z -> Z -> outcome (Z * digest_ctx) :=
  update 64 mbedtls_internal_sha512_process_c (many_blocks 64 mbedtls_internal_sha512_process_many_c).

(** All eight words, or six for SHA-384. *)
Definition mbedtls_sha512_finish : digest_ctx -> list Z -> outcome (Z * digest_ctx * list Z) :=
  finish 64 mbedtls_internal_sha512_process_c true 8 (fun ctx => if truncated ctx =? 0 then 8%nat else 6%nat).

Definition mbedtls_sha512 (input : list Z) (ilen : Z) (output : list Z) (is384 : Z) : outcome (Z * list Z) :=
  if negb (is384 =? 0) && negb (is384 =? 1) then mret (MBEDTLS_ERR_SHA512_BAD_INPUT_DATA, output) else
  let ctx := mbedtls_sha512_init (zeroed 8 128) in
  let '(ret, ctx) := mbedtls_sha512_starts ctx is384 in
  if negb (ret =? 0) then mret (ret, output) else
  '(ret, ctx) ← mbedtls_sha512_update ctx input ilen;
  if negb (ret =? 0) then mret (ret, output) else
  '(ret, ctx, output) ← mbedtls_sha512_finish ctx output;
  mret (ret, output).

(** ** The functions of FIPS 180-4 *)

Definition Sigma0 (x : Z) : Z := Z.lxor (Z.lxor (rotr 64 28 x) (rotr 64 34 x)) (rotr 64 39 x).
Definition Sigma1 (x : Z) : Z := Z.lxor (Z.lxor (rotr 64 14 x) (rotr 64 18 x)) (rotr 64 41 x).
Definition sigma0 (x : Z) : Z := Z.lxor (Z.lxor (rotr 64 1 x) (rotr 64 8 x)) (Z.shiftr x 7).
Definition sigma1 (x : Z) : Z := Z.lxor (Z.lxor (rotr 64 19 x) (rotr 64 61 x)) (Z.shiftr x 6).

Definition sha512_compress : list Z -> list Z -> list Z := fips_compress 64 Sigma0 Sigma1 sigma0 sigma1 K.

(** The digests: eight words, or six of another initial state. *)
Definition sha512 (m : list Z) : list Z := digest 64 true sha512_compress sha512_iv 8 m.
Definition sha384 (m : list Z) : list Z := digest 64 true sha512_compress sha384_iv 6 m.
Definition sha512_digest (is384 : Z) (m : list Z) : list Z := if is384 =? 0 then sha512 m else sha384 m.

(** ** Proofs *)

Section block.
Context (M : list Z) (LM : length M = 16%nat) (FM : Forall (fun x => 0 <= x < 2 ^ 64) M).
Local Notation Sch := (schedule 64 sigma0 sigma1 64 M).
Local Notation rounds := (fips_rounds 64 Sigma0 Sigma1).

(** The loop over the schedule fills the array. *)
Lemma schedule_loop n : forall t W, (16 <= t)%nat -> (t + n <= 80)%nat -> take t W = take t Sch -> length W = 80%nat ->
  take (t + n) (fold_left (fun W i => Sha2.R 64 S0 S1 W i) (seq t n) W) = take (t + n) Sch.
Proof using All.
  induction n as [|n IH]; intros t W H1 H2 Et LW; cbn [seq fold_left]; [by rewrite Nat.add_0_r|].
  destruct (R_spec 64 ltac:(lia) S0 S1 S2 S3 Sigma0 Sigma1 sigma0 sigma1 ltac:(done) ltac:(done) ltac:(done) ltac:(done)
    64 M t W LM FM ltac:(lia) LW Et) as [E L].
  replace (t + S n)%nat with (S t + n)%nat by lia. apply IH; [lia|lia| |done]. by replace (S t) with (t + 1)%nat by lia.
Qed.

Lemma fold_eights {B} (f : B -> nat -> B) n i b : fold_left f (eights (S n) i) b = fold_left f (eights n (i + 8)) (f b i).
Proof. reflexivity. Qed.

(** [n] groups of eight rounds from [i] on. *)
Lemma P8_groups n : forall i A, words_ok 64 8 A ->
  fold_left (fun A i => P8 64 S2 S3 i K Sch A) (eights n i) A = rounds (8 * n) i K Sch A /\
  words_ok 64 8 (rounds (8 * n) i K Sch A).
Proof using All.
  induction n as [|n IH]; intros i A HA; [by rewrite Nat.mul_0_r|].
  destruct (P8_spec 64 ltac:(lia) S0 S1 S2 S3 Sigma0 Sigma1 sigma0 sigma1 ltac:(done) ltac:(done) ltac:(done) ltac:(done)
    i K Sch A HA) as [E H].
  replace (8 * S n)%nat with (8 + 8 * n)%nat by lia. rewrite rounds_add, fold_eights, E.
  rewrite E in H. exact (IH (i + 8)%nat _ H).
Qed.

Lemma schedule_all : fold_left (fun W i => Sha2.R 64 S0 S1 W i) (seq 16 64) (M ++ replicate 64 0) = Sch.
Proof using All.
  assert (forall n t V, length (fold_left (fun W i => Sha2.R 64 S0 S1 W i) (seq t n) V) = length V) as HL.
  { clear. induction n as [|n IH]; intros t V; cbn [seq fold_left]; [done|]. rewrite IH. unfold Sha2.R. by rewrite length_insert. }
  assert (length (M ++ replicate 64 0) = 80%nat) as LW by (rewrite length_app, length_replicate, LM; done).
  assert (take 16 (M ++ replicate 64 0) = take 16 Sch) as E16.
  { pose proof (extend_prefix (next_word 64 sigma0 sigma1) 64 M) as E1. rewrite LM in E1. unfold schedule. rewrite E1.
    pose proof (take_app_length M (replicate 64 0)) as E2. by rewrite LM in E2. }
  pose proof (schedule_loop 64 16 (M ++ replicate 64 0) ltac:(lia) ltac:(lia) E16 LW) as E.
  rewrite (take_ge (fold_left _ _ _)) in E by (rewrite HL, LW; lia).
  rewrite (take_ge Sch) in E by (unfold schedule; rewrite extend_length; lia). exact E.
Qed.

Lemma sha512_rounds_spec A : words_ok 64 8 A ->
  let W := fold_left (fun W i => Sha2.R 64 S0 S1 W i) (seq 16 64) (M ++ replicate 64 0) in
  fold_left (fun A i => P8 64 S2 S3 i K W A) [0; 8; 16; 24; 32; 40; 48; 56; 64; 72]%nat A = rounds 80 0 K Sch A /\
  words_ok 64 8 (rounds 80 0 K Sch A).
Proof using All.
  intros HA. cbv zeta. rewrite schedule_all.
  assert ([0; 8; 16; 24; 32; 40; 48; 56; 64; 72]%nat = eights 10 0) as -> by reflexivity.
  assert (80%nat = 8 * 10)%nat as -> by reflexivity. by apply P8_groups.
Qed.

End block.

#[export] Instance sha512_compression : Compression 64 8 mbedtls_internal_sha512_process_c sha512_compress.
Proof.
  assert (forall s b, words_ok 64 8 s -> is_bytes b -> zlen b = 128 ->
    length (words_of 64 16 b) = 16%nat /\ Forall (fun x => 0 <= x < 2 ^ 64) (words_of 64 16 b)) as HM.
  { intros s b _ Bb Lb. by apply words_of_ok; [..|rewrite Lb|]. }
  split; [by right| |].
  - intros s b Hs Bb Lb. destruct (HM s b Hs Bb Lb) as [LM FM]. destruct (sha512_rounds_spec _ LM FM s Hs) as (_ & H).
    apply add_words; [lia|apply Hs|apply H].
  - intros ctx b off Hs Bb Ho Hl. unfold block_size in Hl. unfold mbedtls_internal_sha512_process_c.
    rewrite load_words_spec, bind_Done by (change (Z.of_nat 16 * (64 / 8)) with 128; lia).
    assert (is_bytes (ztake 128 (zdrop off b)) /\ zlen (ztake 128 (zdrop off b)) = 128) as [Bz Lz].
    { split; [auto with zlist|]. rewrite zlen_ztake; [done|rewrite zlen_zdrop; lia]. }
    assert (words_of 64 16 (zdrop off b) = words_of 64 16 (ztake 128 (zdrop off b))) as ->.
    { rewrite <- (ztake_zdrop 128 (zdrop off b)) at 1. apply words_of_app; [lia|by rewrite Lz]. }
    destruct (HM _ _ Hs Bz Lz) as [LM FM]. destruct (sha512_rounds_spec _ LM FM _ Hs) as (E & _).
    cbv zeta in E. rewrite E. reflexivity.
Qed.

Lemma sha512_iv_words : words_ok 64 8 sha512_iv /\ words_ok 64 8 sha384_iv.
Proof. split; (split; [done|]); apply (bool_decide_unpack _); vm_compute; exact I. Qed.

Lemma sha512_starts_spec ctx tr : (tr = 0 \/ tr = 1) -> is_bytes (buffer ctx) -> zlen (buffer ctx) = 128 ->
  let iv := if tr =? 0 then sha512_iv else sha384_iv in
  exists ctx', mbedtls_sha512_starts ctx tr = (0, ctx') /\ truncated ctx' = tr /\ words_ok 64 8 iv /\
    absorbed (w := 64) (compress := sha512_compress) iv [] 0 ctx'.
Proof.
  intros Ht Bb Lb iv. exists (Digest 0 0 iv (buffer ctx) tr). destruct sha512_iv_words as [I1 I2].
  split_and!; [by destruct Ht as [-> | ->]|done|unfold iv; by destruct (tr =? 0)|by apply absorbed_nil].
Qed.

(** ** Theorems *)

(** A context of any content that is started takes a message in any pieces, each of
    fewer than 2^64 bytes, and then has the SHA-512 or SHA-384 of FIPS 180-4 of the whole:
    only its bytes are written, and the context is erased. *)
Theorem sha512_stream_correct ctx is384 chunks output :
  is384 = 0 \/ is384 = 1 -> is_bytes (buffer ctx) -> zlen (buffer ctx) = 128 ->
  Forall is_bytes chunks -> Forall (fun c => zlen c < 2 ^ 64) chunks -> 64 - 16 * is384 <= zlen output ->
  (let '(_, ctx) := mbedtls_sha512_starts ctx is384 in
   '(ret, ctx) ← run_updates mbedtls_sha512_update ctx chunks;
   if negb (ret =? 0) then mret (ret, ctx, output) else mbedtls_sha512_finish ctx output) =
    Done (0, zeroed 8 128, splice output 0 (sha512_digest is384 (concat chunks))).
Proof.
  intros Ht Bb Lb Hc Hl Ho. destruct (sha512_starts_spec ctx is384 Ht Bb Lb) as (ctx' & -> & Et & Hiv & Ha). subst is384.
  unfold mbedtls_sha512_update, mbedtls_sha512_finish.
  rewrite (stream_spec (whole := many_blocks 64 mbedtls_internal_sha512_process_many_c) _ Hiv true _
    (if truncated ctx' =? 0 then 8%nat else 6%nat) ctx' chunks output Ha Hc).
  - rewrite counted_concat by done. change (Z.to_nat (block_size 64)) with 128%nat. unfold sha512_digest.
    by destruct (truncated ctx' =? 0).
  - eapply Forall_impl; [exact Hl|]. cbv beta. intros. lia.
  - by intros c ->.
  - destruct (truncated ctx' =? 0); lia.
  - change (64 / 8) with 8. destruct Ht as [E | E]; rewrite E in *; cbn [Z.eqb]; lia.
Qed.

Lemma sha512_stream_correct_witness :
  (let '(_, ctx) := mbedtls_sha512_starts (zeroed 8 128) 1 in
   '(ret, ctx) ← run_updates mbedtls_sha512_update ctx [[97]; []; [98; 99]];
   if negb (ret =? 0) then mret (ret, ctx, replicate 50 7) else mbedtls_sha512_finish ctx (replicate 50 7)) =
    Done (0, zeroed 8 128, splice (replicate 50 7) 0 (sha512_digest 1 (concat [[97]; []; [98; 99]]))).
Proof.
  apply (sha512_stream_correct (zeroed 8 128) 1 [[97]; []; [98; 99]] (replicate 50 7)); [by right| | | | |].
  - by apply is_bytes_replicate.
  - reflexivity.
  - apply (bool_decide_unpack _). vm_compute. exact I.
  - repeat (constructor; [vm_compute; reflexivity|]). constructor.
  - vm_compute. discriminate.
Defined.

(** The one-call function has the digest of its input, of fewer than 2^64 bytes, behind
    no other change; it refuses a selector other than 0 and 1. *)
Theorem sha512_correct input ilen output is384 :
  is_bytes input -> 0 <= ilen <= zlen input -> ilen < 2 ^ 64 -> 64 - 16 * is384 <= zlen output ->
  mbedtls_sha512 input ilen output is384 =
    Done (if (is384 =? 0) || (is384 =? 1) then (0, splice output 0 (sha512_digest is384 (ztake ilen input)))
          else (MBEDTLS_ERR_SHA512_BAD_INPUT_DATA, output)).
Proof.
  intros Bi Hl Hs Ho. unfold mbedtls_sha512. rewrite <- negb_orb. destruct ((is384 =? 0) || (is384 =? 1)) eqn:Eb; [|done].
  assert (is384 = 0 \/ is384 = 1) as Ht by (apply orb_prop in Eb as [?|?]; bool_to_prop; tauto).
  destruct (sha512_starts_spec (mbedtls_sha512_init (zeroed 8 128)) is384 Ht ltac:(by apply is_bytes_replicate) ltac:(done))
    as (ctx & -> & Et & Hiv & Ha). subst is384. cbn [negb Z.eqb]. unfold mbedtls_sha512_update, mbedtls_sha512_finish.
  destruct (one_shot_spec (whole := many_blocks 64 mbedtls_internal_sha512_process_many_c) _ Hiv true
    (fun c => if truncated c =? 0 then 8%nat else 6%nat) (if truncated ctx =? 0 then 8%nat else 6%nat) ctx input ilen output
    Ha Bi Hl) as (ctx1 & E1 & E2).
  - lia.
  - intros c Hc. by rewrite Hc.
  - destruct (truncated ctx =? 0); lia.
  - change (64 / 8) with 8. destruct Ht as [E | E]; rewrite E in *; cbn [Z.eqb]; lia.
  - rewrite E1, bind_Done. cbv beta iota. cbn [negb Z.eqb]. rewrite E2, bind_Done. cbv beta iota.
    rewrite Z.mod_small by lia. unfold sha512_digest, sha512, sha384, digest. rewrite zlen_ztake by lia. by destruct (truncated ctx =? 0).
Qed.

Lemma sha512_correct_witness :
  mbedtls_sha512 [97; 98; 99] 3 (replicate 64 0) 0 =
    Done (0, splice (replicate 64 0) 0 (sha512_digest 0 (ztake 3 [97; 98; 99]))).
Proof.
  apply (sha512_correct [97; 98; 99] 3 (replicate 64 0) 0); [apply (bool_decide_unpack _); vm_compute; exact I|vm_compute; split; discriminate|
    vm_compute; reflexivity|vm_compute; discriminate].
Defined.


(** C27.  The constants of both files are what the standard defines: the first bits of the
    fractional parts of the cube roots of the first 80 primes and of the square roots of the
    first sixteen; those of SHA-256 and SHA-224 are parts of the longer ones. *)
Theorem sha2_constants_correct :
  Forall2 (frac_root 3 64) (take 80 primes) K /\
  Forall2 (frac_root 2 64) (take 8 primes) sha512_iv /\ Forall2 (frac_root 2 64) (take 8 (drop 8 primes)) sha384_iv /\
  Sha256.K = map (fun k => k / 2 ^ 32) (take 64 K) /\ sha256_iv = map (fun k => k / 2 ^ 32) sha512_iv /\
  sha224_iv = map (fun k => k mod 2 ^ 32) sha384_iv.
Proof.
  split_and!; [apply frac_roots_check; vm_compute; reflexivity..|vm_compute; reflexivity|vm_compute; reflexivity|vm_compute; reflexivity].
Qed.

(** A test vector of the file. *)
Example sha384_abc : ztake 8 (sha512_digest 1 [97; 98; 99]) = [0xCB; 0x00; 0x75; 0x3F; 0x45; 0xA3; 0x5E; 0x8B].
Proof. vm_compute. reflexivity. Qed.
