(* ===== verification/Sha1.v ===== *)
(** * SHA-1

    [src/internal/mbedtls/sha1.c]: the block function with its unrolled rounds, streaming and
    the one-call function, and that they compute the digest of FIPS 180-4. *)

From S2P Require Import Prelude Bytes BlockHash Sha2.

(** ** The code *)

(** The registers of the block function are an array of five. *)
Definition A : nat := 0.
Definition B : nat := 1.
Definition C : nat := 2.
Definition D : nat := 3.
Definition E : nat := 4.

(** [S(x, n)], a rotation. *)
Definition S' (x n : Z) : Z := Z.lor (u32 (Z.shiftl x n)) (Z.shiftr (Z.land x 0xFFFFFFFF) (32 - n)).

(** [R(t)] stores the next word of the schedule in the array of sixteen. *)
Definition R (W : list Z) (t : nat) : list Z :=
  let temp := Z.lxor (Z.lxor (Z.lxor (W !!! Nat.land (t - 3) 15) (W !!! Nat.land (t - 8) 15))
                     (W !!! Nat.land (t - 14) 15)) (W !!! Nat.land t 15) in
  <[Nat.land t 15 := S' temp 1]> W.

Definition F1 (x y z : Z) : Z := Z.lxor z (Z.land x (Z.lxor y z)).
Definition F2 (x y z : Z) : Z := Z.lxor (Z.lxor x y) z.
Definition F3 (x y z : Z) : Z := Z.lor (Z.land x y) (Z.land z (Z.lor x y)).

Definition P (F : Z -> Z -> Z -> Z) (K : Z) (regs : list Z) (a b c d e : nat) (x : Z) : list Z :=
  let regs := <[e := u32 (regs !!! e + S' (regs !!! a) 5 + F (regs !!! b) (regs !!! c) (regs !!! d) + K + x)]> regs in
  <[b := S' (regs !!! b) 30]> regs.

(** The rounds in the order of the code: the roles of the registers and the word. *)
Definition steps1 : list (nat * nat * nat * nat * nat * nat) :=
  [(A, B, C, D, E, 0); (E, A, B, C, D, 1); (D, E, A, B, C, 2); (C, D, E, A, B, 3); (B, C, D, E, A, 4);
   (A, B, C, D, E, 5); (E, A, B, C, D, 6); (D, E, A, B, C, 7); (C, D, E, A, B, 8); (B, C, D, E, A, 9);
   (A, B, C, D, E, 10); (E, A, B, C, D, 11); (D, E, A, B, C, 12); (C, D, E, A, B, 13); (B, C, D, E, A, 14);
   (A, B, C, D, E, 15); (E, A, B, C, D, 16); (D, E, A, B, C, 17); (C, D, E, A, B, 18); (B, C, D, E, A, 19)]%nat.

Definition steps2 : list (nat * nat * nat * nat * nat * nat) :=
  [(A, B, C, D, E, 20); (E, A, B, C, D, 21); (D, E, A, B, C, 22); (C, D, E, A, B, 23); (B, C, D, E, A, 24);
   (A, B, C, D, E, 25); (E, A, B, C, D, 26); (D, E, A, B, C, 27); (C, D, E, A, B, 28); (B, C, D, E, A, 29);
   (A, B, C, D, E, 30); (E, A, B, C, D, 31); (D, E, A, B, C, 32); (C, D, E, A, B, 33); (B, C, D, E, A, 34);
   (A, B, C, D, E, 35); (E, A, B, C, D, 36); (D, E, A, B, C, 37); (C, D, E, A, B, 38); (B, C, D, E, A, 39)]%nat.

Definition steps3 : list (nat * nat * nat * nat * nat * nat) :=
  [(A, B, C, D, E, 40); (E, A, B, C, D, 41); (D, E, A, B, C, 42); (C, D, E, A, B, 43); (B, C, D, E, A, 44);
   (A, B, C, D, E, 45); (E, A, B, C, D, 46); (D, E, A, B, C, 47); (C, D, E, A, B, 48); (B, C, D, E, A, 49);
   (A, B, C, D, E, 50); (E, A, B, C, D, 51); (D, E, A, B, C, 52); (C, D, E, A, B, 53); (B, C, D, E, A, 54);
   (A, B, C, D, E, 55); (E, A, B, C, D, 56); (D, E, A, B, C, 57); (C, D, E, A, B, 58); (B, C, D, E, A, 59)]%nat.

Definition steps4 : list (nat * nat * nat * nat * nat * nat) :=
  [(A, B, C, D, E, 60); (E, A, B, C, D, 61); (D, E, A, B, C, 62); (C, D, E, A, B, 63); (B, C, D, E, A, 64);
   (A, B, C, D, E, 65); (E, A, B, C, D, 66); (D, E, A, B, C, 67); (C, D, E, A, B, 68); (B, C, D, E, A, 69);
   (A, B, C, D, E, 70); (E, A, B, C, D, 71); (D, E, A, B, C, 72); (C, D, E, A, B, 73); (B, C, D, E, A, 74);
   (A, B, C, D, E, 75); (E, A, B, C, D, 76); (D, E, A, B, C, 77); (C, D, E, A, B, 78); (B, C, D, E, A, 79)]%nat.

(** One of them: the first sixteen words are those of the block. *)
Definition step (F : Z -> Z -> Z -> Z) (K : Z) (st : list Z * list Z) (s : nat * nat * nat * nat * nat * nat)
    : list Z * list Z :=
  let '(regs, W) := st in
  let '(a, b, c, d, e, t) := s in
  let W := if (t <? 16)%nat then W else R W t in
  (P F K regs a b c d e (W !!! Nat.land t 15), W).

Definition mbedtls_internal_sha1_process (ctx : digest_ctx) (data : list Z) (off : Z) : outcome (Z * digest_ctx) :=
  W ← load_words 32 16 data off;
  let st := (state ctx, W) in
  let st := fold_left (step F1 0x5A827999) steps1 st in
  let st := fold_left (step F2 0x6ED9EBA1) steps2 st in
  let st := fold_left (step F3 0x8F1BBCDC) steps3 st in
  let st := fold_left (step F2 0xCA62C1D6) steps4 st in
  mret (0, set_state ctx (zip_with (fun s r => u32 (s + r)) (state ctx) st.1)).

Definition mbedtls_sha1_init (_ : digest_ctx) : digest_ctx := zeroed 5 64.
Definition mbedtls_sha1_free (ctx : option digest_ctx) : option digest_ctx :=
  match ctx with None => None | Some _ => Some (zeroed 5 64) end.
Definition mbedtls_sha1_clone (dst src : digest_ctx) : digest_ctx := src.

Definition sha1_iv : list Z := [0x67452301; 0xEFCDAB89; 0x98BADCFE; 0x10325476; 0xC3D2E1F0].

Definition mbedtls_sha1_starts (ctx : digest_ctx) : Z * digest_ctx :=
  (0, Digest 0 0 sha1_iv (buffer ctx) (truncated ctx)).

Definition mbedtls_sha1_update : digest_ctx -> list Z -> Z -> outcome (Z * digest_ctx) :=
  update 32 mbedtls_internal_sha1_process (simple_blocks 32 mbedtls_internal_sha1_process).

Definition mbedtls_sha1_finish : digest_ctx -> list Z -> outcome (Z * digest_ctx * list Z) :=
  finish 32 mbedtls_internal_sha1_process true 5 (fun _ => 5%nat).

Definition mbedtls_sha1 (input : list Z) (ilen : Z) (output : list Z) : outcome (Z * list Z) :=
  let ctx := mbedtls_sha1_init (zeroed 5 64) in
  let '(ret, ctx) := mbedtls_sha1_starts ctx in
  if negb (ret =? 0) then mret (ret, output) else
  '(ret, ctx) ← mbedtls_sha1_update ctx input ilen;
  if negb (ret =? 0) then mret (ret, output) else
  '(ret, ctx, output) ← mbedtls_sha1_finish ctx output;
  mret (ret, output).

(** ** FIPS 180-4 *)

(** The function and the constant of round [t]. *)
Definition f (t : nat) (x y z : Z) : Z :=
  if (t <? 20)%nat then Ch x y z else if (t <? 40)%nat then Z.lxor (Z.lxor x y) z
  else if (t <? 60)%nat then Maj x y z else Z.lxor (Z.lxor x y) z.
Definition K (t : nat) : Z :=
  if (t <? 20)%nat then 0x5A827999 else if (t <? 40)%nat then 0x6ED9EBA1
  else if (t <? 60)%nat then 0x8F1BBCDC else 0xCA62C1D6.

Definition fips_step (t : nat) (x : Z) (s : list Z) : list Z :=
  match s with
  | [a; b; c; d; e] => [(rotl 5 a + f t b c d + e + K t + x) mod 2 ^ 32; a; rotl 30 b; c; d]
  | _ => s
  end.

Fixpoint sha1_rounds (n t : nat) (W s : list Z) : list Z :=
  match n with
  | O => s
  | S n => sha1_rounds n (S t) W (fips_step t (W !!! t) s)
  end.

Definition sha1_next (W : list Z) : Z :=
  let t := length W in
  rotl 1 (Z.lxor (Z.lxor (Z.lxor (W !!! (t - 3)%nat) (W !!! (t - 8)%nat)) (W !!! (t - 14)%nat)) (W !!! (t - 16)%nat)).

Definition sha1_compress (s b : list Z) : list Z :=
  zip_with (fun x y => (x + y) mod 2 ^ 32) s (sha1_rounds 80 0 (extend sha1_next 64 (words_of 32 16 b)) s).

Definition sha1 (m : list Z) : list Z := digest 32 true sha1_compress sha1_iv 5 m.

(** ** Proofs *)

Local Notation is_word x := (0 <= x < 2 ^ 32).

Lemma sha1_S_rotl x n : is_word x -> S' x n = rotl n x.
Proof.
  intros H. unfold S', rotl. change 0xFFFFFFFF with (Z.ones 32). by rewrite Z.land_ones, (Z.mod_small x) by lia.
Qed.

(** A line of the rounds by its number. *)
Definition line (t : nat) : nat * nat * nat * nat * nat * nat :=
  let r i := ((i + 5 - t mod 5) mod 5)%nat in (r 0, r 1, r 2, r 3, r 4, t)%nat.

Lemma sha1_steps_lines :
  steps1 = map line (seq 0 20) /\ steps2 = map line (seq 20 20) /\ steps3 = map line (seq 40 20) /\ steps4 = map line (seq 60 20).
Proof. by vm_compute. Qed.

Lemma five_inv (l : list Z) : length l = 5%nat -> exists a b c d e, l = [a; b; c; d; e].
Proof. intros H. do 5 (destruct l as [|? l]; [done|]). destruct l; [|done]. by repeat eexists. Qed.

Lemma sha1_P_role F k t regs x : words_ok 32 5 regs ->
  (forall x y z, F x y z = f t x y z) -> k = K t ->
  let '(a, b, c, d, e, _) := line t in
  roles 5 (S t) (P F k regs a b c d e x) = fips_step t x (roles 5 t regs) /\ words_ok 32 5 (P F k regs a b c d e x).
Proof.
  intros [HA FA] HF ->. destruct (five_inv regs HA) as (a & b & c & d & e & ->).
  rewrite !Forall_cons in FA. destruct FA as (Fa & Fb & Fc & Fd & Fe & _). unfold line, roles.
  assert (forall s, is_word (u32 s)) as HM by (intros; apply Z.mod_pos_bound; lia).
  assert (t mod 5 = 0 \/ t mod 5 = 1 \/ t mod 5 = 2 \/ t mod 5 = 3 \/ t mod 5 = 4)%nat as Ht by (pose proof (Nat.mod_upper_bound t 5); lia).
  assert (S t mod 5 = S (t mod 5) mod 5)%nat as ES by (rewrite <- Nat.add_1_r, <- (Nat.add_1_r (t mod 5)), Nat.Div0.add_mod_idemp_l; done).
  rewrite ES. destruct Ht as [-> | [-> | [-> | [-> | ->]]]]; unfold P; cbn -[f K S' Z.add u32 rotl];
    rewrite !sha1_S_rotl by done; rewrite HF;
    (split; [unfold u32; f_equal; f_equal; lia|split; [done|repeat (constructor; [solve [done|apply HM|by apply rotl_word]|]); constructor]]).
Qed.

Section block.
Context (M : list Z) (LM : length M = 16%nat) (FM : Forall (fun x => is_word x) M).
Local Notation Sch := (extend sha1_next 64 M).

(** The array of sixteen holds the last sixteen words of the schedule before [t], or the
    first sixteen. *)
Definition ring (t : nat) (W : list Z) : Prop :=
  length W = 16%nat /\ forall i, (i < t `max` 16 <= i + 16)%nat -> W !!! Nat.land i 15 = Sch !!! i.

Lemma land15 i : Nat.land i 15 = (i mod 16)%nat.
Proof. apply (Nat.land_ones i 4). Qed.

Lemma xor4_word (W : list Z) i j k l : Forall (fun x => is_word x) W ->
  is_word (Z.lxor (Z.lxor (Z.lxor (W !!! i) (W !!! j)) (W !!! k)) (W !!! l)).
Proof. intros F. assert (forall i, is_word (W !!! i)) by (intros; by apply word_lookup). repeat (apply lxor_below; [lia| |]); done. Qed.

Lemma Sch_words : Forall (fun x => is_word x) Sch.
Proof using All. apply extend_Forall; [|done]. intros W F. apply rotl_word; [lia|]. by apply xor4_word. Qed.

Lemma ring_first : ring 16 M.
Proof using All.
  split; [done|]. intros i Hi. rewrite land15, Nat.mod_small by lia.
  pose proof (extend_prefix sha1_next 64 M) as E. rewrite LM in E. rewrite <- (lookup_total_take_lt Sch 16 i), E by lia. done.
Qed.

(** The word a round uses, and the array for the next. *)
Lemma ring_step t W : (t < 80)%nat -> ring t W ->
  let W' := if (t <? 16)%nat then W else R W t in W' !!! Nat.land t 15 = Sch !!! t /\ ring (S t) W'.
Proof using All.
  intros Ht [LW HW]. destruct (Nat.ltb_spec t 16) as [H|H]; cbv zeta.
  { split; [apply HW; lia|]. split; [done|]. intros i Hi. apply HW. lia. }
  assert (length Sch = 80%nat) as LS by (rewrite extend_length; lia). pose proof Sch_words as FS.
  assert (R W t !!! Nat.land t 15 = Sch !!! t) as E.
  { unfold R. rewrite list_lookup_total_insert_eq by (rewrite land15, LW; by apply Nat.mod_upper_bound).
    rewrite (HW (t - 3)%nat), (HW (t - 8)%nat), (HW (t - 14)%nat) by lia.
    assert (Nat.land t 15 = Nat.land (t - 16) 15) as ->.
    { rewrite !land15. pose proof (Nat.Div0.mod_add (t - 16) 1 16) as Em. by replace (t - 16 + 1 * 16)%nat with t in Em by lia. }
    rewrite (HW (t - 16)%nat) by lia. rewrite sha1_S_rotl by (by apply xor4_word).
    rewrite (extend_nth sha1_next 64 M t) by lia. set (T := Sch) in *. unfold sha1_next. rewrite length_take, LS, Nat.min_l by lia.
    by rewrite !lookup_total_take_lt by lia. }
  split; [done|]. split; [unfold R; by rewrite length_insert|]. intros i Hi. destruct (Nat.eq_dec i t) as [->|Hne]; [done|].
  unfold R. rewrite list_lookup_total_insert_ne; [apply HW; lia|]. rewrite !land15. intros Hm.
  assert (t = 16 * (t / 16) + t mod 16)%nat by (apply Nat.div_mod; lia).
  assert (i = 16 * (i / 16) + i mod 16)%nat by (apply Nat.div_mod; lia). lia.
Qed.

(** Rounds [t] to [t + n]. *)
Lemma sha1_rounds_spec F k n : forall t regs W, (t + n <= 80)%nat ->
  (forall i x y z, (t <= i < t + n)%nat -> F x y z = f i x y z /\ k = K i) -> words_ok 32 5 regs -> ring t W ->
  let '(regs', W') := fold_left (step F k) (map line (seq t n)) (regs, W) in
  roles 5 (t + n) regs' = sha1_rounds n t Sch (roles 5 t regs) /\ words_ok 32 5 regs' /\ ring (t + n) W'.
Proof using All.
  induction n as [|n IH]; intros t regs W Ht HF Hr HW; [by rewrite Nat.add_0_r|].
  cbn [seq map fold_left sha1_rounds]. destruct (ring_step t W ltac:(lia) HW) as [Ex HW'].
  destruct (sha1_P_role F k t regs (Sch !!! t) Hr) as [E Hr']; [intros; apply (HF t); lia|apply (HF t 0 0 0); lia|].
  unfold step at 2. cbn [line]. unfold line at 1. rewrite Ex. rewrite <- E. replace (t + S n)%nat with (S t + n)%nat by lia.
  apply IH; [lia| |done|done]. intros. apply HF. lia.
Qed.

End block.

Lemma sha1_rounds_add n k t W s : sha1_rounds (n + k) t W s = sha1_rounds k (t + n) W (sha1_rounds n t W s).
Proof.
  revert t s. induction n as [|n IH]; intros t s; cbn [Nat.add sha1_rounds]; [by rewrite Nat.add_0_r|].
  rewrite IH. by rewrite Nat.add_succ_r.
Qed.

Lemma f_constant t x y z :
  ((t < 20)%nat -> F1 x y z = f t x y z /\ 0x5A827999 = K t) /\
  ((20 <= t < 40)%nat -> F2 x y z = f t x y z /\ 0x6ED9EBA1 = K t) /\
  ((40 <= t < 60)%nat -> F3 x y z = f t x y z /\ 0x8F1BBCDC = K t) /\
  ((60 <= t)%nat -> F2 x y z = f t x y z /\ 0xCA62C1D6 = K t).
Proof.
  unfold f, K. destruct (Nat.ltb_spec t 20), (Nat.ltb_spec t 40), (Nat.ltb_spec t 60); split_and!; intros Ht; try lia;
    (split; [|done]); first [done|apply F1_Ch|apply F0_Maj].
Qed.

Lemma sha1_all_rounds M regs : length M = 16%nat -> Forall (fun x => is_word x) M -> words_ok 32 5 regs ->
  let st := fold_left (step F2 0xCA62C1D6) steps4 (fold_left (step F3 0x8F1BBCDC) steps3
    (fold_left (step F2 0x6ED9EBA1) steps2 (fold_left (step F1 0x5A827999) steps1 (regs, M)))) in
  st.1 = sha1_rounds 80 0 (extend sha1_next 64 M) regs /\ words_ok 32 5 st.1.
Proof.
  intros LM FM Hr. destruct sha1_steps_lines as (-> & -> & -> & ->). cbv zeta.
  assert (forall regs', length regs' = 5%nat -> roles 5 0 regs' = regs') as R0 by (intros r' L; by destruct (five_inv r' L) as (? & ? & ? & ? & ? & ->)).
  pose proof (sha1_rounds_spec M LM FM F1 0x5A827999 20 0 regs M ltac:(lia)) as H1.
  destruct (fold_left _ _ (regs, M)) as [r1 W1]. destruct H1 as (E1 & O1 & G1);
    [intros; apply f_constant; lia|done|split; [done|]; intros i Hi; apply (ring_first M LM FM); lia|].
  pose proof (sha1_rounds_spec M LM FM F2 0x6ED9EBA1 20 20 r1 W1 ltac:(lia)) as H2.
  destruct (fold_left _ _ (r1, W1)) as [r2 W2]. destruct H2 as (E2 & O2 & G2); [intros; apply f_constant; lia|done..|].
  pose proof (sha1_rounds_spec M LM FM F3 0x8F1BBCDC 20 40 r2 W2 ltac:(lia)) as H3.
  destruct (fold_left _ _ (r2, W2)) as [r3 W3]. destruct H3 as (E3 & O3 & G3); [intros; apply f_constant; lia|done..|].
  pose proof (sha1_rounds_spec M LM FM F2 0xCA62C1D6 20 60 r3 W3 ltac:(lia)) as H4.
  destruct (fold_left _ _ (r3, W3)) as [r4 W4]. destruct H4 as (E4 & O4 & G4); [intros; apply f_constant; lia|done..|].
  split; [|done]. cbn [fst]. rewrite <- (R0 r4) by apply O4. rewrite <- (R0 regs) at 1 by apply Hr.
  change (roles 5 0 r4) with (roles 5 (60 + 20) r4). change (60 + 20)%nat with 80%nat in *. rewrite E4.
  change 80%nat with (20 + (20 + (20 + 20)))%nat. rewrite !sha1_rounds_add. cbn [Nat.add] in *. by rewrite E3, E2, E1.
Qed.

#[export] Instance sha1_compression : Compression 32 5 mbedtls_internal_sha1_process sha1_compress.
Proof.
  assert (forall b, is_bytes b -> zlen b = 64 ->
    length (words_of 32 16 b) = 16%nat /\ Forall (fun x => is_word x) (words_of 32 16 b)) as HM.
  { intros b Bb Lb. by apply words_of_ok; [..|rewrite Lb|]. }
  split; [by left| |].
  - intros s b Hs Bb Lb. destruct (HM b Bb Lb) as [LM FM]. destruct (sha1_all_rounds _ s LM FM Hs) as [E O].
    unfold sha1_compress. rewrite <- E. apply add_words; [lia|apply Hs|apply O].
  - intros ctx b off Hs Bb Ho Hl. unfold block_size in Hl. unfold mbedtls_internal_sha1_process.
    rewrite load_words_spec, bind_Done by (change (Z.of_nat 16 * (32 / 8)) with 64; lia).
    assert (is_bytes (ztake 64 (zdrop off b)) /\ zlen (ztake 64 (zdrop off b)) = 64) as [Bz Lz].
    { split; [auto with zlist|]. rewrite zlen_ztake; [done|rewrite zlen_zdrop; lia]. }
    assert (words_of 32 16 (zdrop off b) = words_of 32 16 (ztake 64 (zdrop off b))) as ->.
    { rewrite <- (ztake_zdrop 64 (zdrop off b)) at 1. apply words_of_app; [lia|by rewrite Lz]. }
    destruct (HM _ Bz Lz) as [LM FM]. destruct (sha1_all_rounds _ _ LM FM Hs) as [E _]. cbv zeta in E |- *. rewrite E. reflexivity.
Qed.

Lemma sha1_iv_words : words_ok 32 5 sha1_iv.
Proof. split; [done|]. apply (bool_decide_unpack _). vm_compute. exact I. Qed.

Lemma sha1_starts_spec ctx : is_bytes (buffer ctx) -> zlen (buffer ctx) = 64 ->
  exists ctx', mbedtls_sha1_starts ctx = (0, ctx') /\ absorbed (w := 32) (compress := sha1_compress) sha1_iv [] 0 ctx'.
Proof. intros Bb Lb. eexists. split; [done|]. by apply absorbed_nil. Qed.

(** ** Theorems *)

(** A context of any content that is started takes a message in any pieces, each of
    fewer than 2^32 bytes, and then has the SHA-1 of FIPS 180-4 of the whole: only its bytes are
    written, and the context is erased. *)
Theorem sha1_stream_correct ctx chunks output :
  is_bytes (buffer ctx) -> zlen (buffer ctx) = 64 ->
  Forall is_bytes chunks -> Forall (fun c => zlen c < 2 ^ 32) chunks -> 20 <= zlen output ->
  (let '(_, ctx) := mbedtls_sha1_starts ctx in
   '(ret, ctx) ← run_updates mbedtls_sha1_update ctx chunks;
   if negb (ret =? 0) then mret (ret, ctx, output) else mbedtls_sha1_finish ctx output) =
    Done (0, zeroed 5 64, splice output 0 (sha1 (concat chunks))).
Proof.
  intros Bb Lb Hc Hl Ho. destruct (sha1_starts_spec ctx Bb Lb) as (ctx' & -> & Ha).
  unfold mbedtls_sha1_update, mbedtls_sha1_finish.
  rewrite (stream_spec (whole := simple_blocks 32 mbedtls_internal_sha1_process) _ sha1_iv_words true _ 5 ctx' chunks output Ha Hc);
    [by rewrite counted_concat by done| |done|lia|exact Ho].
  eapply Forall_impl; [exact Hl|]. cbv beta. intros. lia.
Qed.

Lemma sha1_stream_correct_witness :
  (let '(_, ctx) := mbedtls_sha1_starts (zeroed 5 64) in
   '(ret, ctx) ← run_updates mbedtls_sha1_update ctx [[97]; []; [98; 99]];
   if negb (ret =? 0) then mret (ret, ctx, replicate 22 7) else mbedtls_sha1_finish ctx (replicate 22 7)) =
    Done (0, zeroed 5 64, splice (replicate 22 7) 0 (sha1 (concat [[97]; []; [98; 99]]))).
Proof.
  apply (sha1_stream_correct (zeroed 5 64) [[97]; []; [98; 99]] (replicate 22 7)).
  - by apply is_bytes_replicate.
  - reflexivity.
  - apply (bool_decide_unpack _). vm_compute. exact I.
  - repeat (constructor; [vm_compute; reflexivity|]). constructor.
  - vm_compute. discriminate.
Defined.

(** The one-call function has the digest of its input. *)
Theorem sha1_correct input ilen output :
  is_bytes input -> 0 <= ilen <= zlen input -> ilen < 2 ^ 32 -> 20 <= zlen output ->
  mbedtls_sha1 input ilen output = Done (0, splice output 0 (sha1 (ztake ilen input))).
Proof.
  intros Bi Hl Hs Ho. unfold mbedtls_sha1.
  destruct (sha1_starts_spec (mbedtls_sha1_init (zeroed 5 64)) ltac:(by apply is_bytes_replicate) ltac:(done)) as (ctx & -> & Ha).
  cbn [negb Z.eqb].
  destruct (one_shot_spec (whole := simple_blocks 32 mbedtls_internal_sha1_process) _ sha1_iv_words true (fun _ => 5%nat) 5 ctx input ilen output
    Ha Bi Hl) as (ctx1 & E1 & E2); [lia|done|lia|exact Ho|].
  unfold mbedtls_sha1_update. rewrite E1, bind_Done. cbv beta iota. cbn [negb Z.eqb]. unfold mbedtls_sha1_finish. rewrite E2, bind_Done. cbv beta iota.
  unfold sha1, digest. by rewrite Z.mod_small, zlen_ztake by lia.
Qed.

(** The constants of the rounds are the first bits of the square roots of 2, 3, 5 and 10. *)
Lemma sha1_constants t : (t < 80)%nat -> exists n, (n = 2 \/ n = 3 \/ n = 5 \/ n = 10) /\
  K t ^ 2 <= n * 2 ^ 60 < (K t + 1) ^ 2.
Proof.
  intros Ht. unfold K. destruct (Nat.ltb_spec t 20); [exists 2; split; [tauto|done]|].
  destruct (Nat.ltb_spec t 40); [exists 3; split; [tauto|done]|]. destruct (Nat.ltb_spec t 60); [exists 5|exists 10]; (split; [tauto|done]).
Qed.
