(* ===== verification/Md5.v ===== *)
(** * MD5

    [src/internal/mbedtls/md5.c]: the block function with its unrolled rounds, streaming and
    the one-call function, and that they compute the digest of RFC 1321. *)

From S2P Require Import Prelude Bytes BlockHash.

(** ** The code *)

(** The registers of the block function are an array of four. *)
Definition A : nat := 0.
Definition B : nat := 1.
Definition C : nat := 2.
Definition D : nat := 3.

(** [S(x, n)], a rotation. *)
Definition S' (x n : Z) : Z := Z.lor (u32 (Z.shiftl x n)) (Z.shiftr (Z.land x 0xFFFFFFFF) (32 - n)).

(** The function [F] of each group of rounds. *)
Definition F1 (x y z : Z) : Z := Z.lxor z (Z.land x (Z.lxor y z)).
Definition F2 (x y z : Z) : Z := Z.lxor y (Z.land z (Z.lxor x y)).
Definition F3 (x y z : Z) : Z := Z.lxor (Z.lxor x y) z.
Definition F4 (x y z : Z) : Z := Z.lxor y (Z.lor x (not32 z)).

Definition P (F : Z -> Z -> Z -> Z) (X regs : list Z) (line : nat * nat * nat * nat * nat * Z * Z) : list Z :=
  let '(a, b, c, d, k, s, t) := line in
  let regs := <[a := u32 (regs !!! a + (F (regs !!! b) (regs !!! c) (regs !!! d) + X !!! k + t))]> regs in
  <[a := u32 (S' (regs !!! a) s + regs !!! b)]> regs.

(** The rounds in the order of the code. *)
Definition steps1 : list (nat * nat * nat * nat * nat * Z * Z) :=
  [(A, B, C, D, 0%nat, 7, 0xD76AA478); (D, A, B, C, 1%nat, 12, 0xE8C7B756);
   (C, D, A, B, 2%nat, 17, 0x242070DB); (B, C, D, A, 3%nat, 22, 0xC1BDCEEE);
   (A, B, C, D, 4%nat, 7, 0xF57C0FAF); (D, A, B, C, 5%nat, 12, 0x4787C62A);
   (C, D, A, B, 6%nat, 17, 0xA8304613); (B, C, D, A, 7%nat, 22, 0xFD469501);
   (A, B, C, D, 8%nat, 7, 0x698098D8); (D, A, B, C, 9%nat, 12, 0x8B44F7AF);
   (C, D, A, B, 10%nat, 17, 0xFFFF5BB1); (B, C, D, A, 11%nat, 22, 0x895CD7BE);
   (A, B, C, D, 12%nat, 7, 0x6B901122); (D, A, B, C, 13%nat, 12, 0xFD987193);
   (C, D, A, B, 14%nat, 17, 0xA679438E); (B, C, D, A, 15%nat, 22, 0x49B40821)].

Definition steps2 : list (nat * nat * nat * nat * nat * Z * Z) :=
  [(A, B, C, D, 1%nat, 5, 0xF61E2562); (D, A, B, C, 6%nat, 9, 0xC040B340);
   (C, D, A, B, 11%nat, 14, 0x265E5A51); (B, C, D, A, 0%nat, 20, 0xE9B6C7AA);
   (A, B, C, D, 5%nat, 5, 0xD62F105D); (D, A, B, C, 10%nat, 9, 0x02441453);
   (C, D, A, B, 15%nat, 14, 0xD8A1E681); (B, C, D, A, 4%nat, 20, 0xE7D3FBC8);
   (A, B, C, D, 9%nat, 5, 0x21E1CDE6); (D, A, B, C, 14%nat, 9, 0xC33707D6);
   (C, D, A, B, 3%nat, 14, 0xF4D50D87); (B, C, D, A, 8%nat, 20, 0x455A14ED);
   (A, B, C, D, 13%nat, 5, 0xA9E3E905); (D, A, B, C, 2%nat, 9, 0xFCEFA3F8);
   (C, D, A, B, 7%nat, 14, 0x676F02D9); (B, C, D, A, 12%nat, 20, 0x8D2A4C8A)].

Definition steps3 : list (nat * nat * nat * nat * nat * Z * Z) :=
  [(A, B, C, D, 5%nat, 4, 0xFFFA3942); (D, A, B, C, 8%nat, 11, 0x8771F681);
   (C, D, A, B, 11%nat, 16, 0x6D9D6122); (B, C, D, A, 14%nat, 23, 0xFDE5380C);
   (A, B, C, D, 1%nat, 4, 0xA4BEEA44); (D, A, B, C, 4%nat, 11, 0x4BDECFA9);
   (C, D, A, B, 7%nat, 16, 0xF6BB4B60); (B, C, D, A, 10%nat, 23, 0xBEBFBC70);
   (A, B, C, D, 13%nat, 4, 0x289B7EC6); (D, A, B, C, 0%nat, 11, 0xEAA127FA);
   (C, D, A, B, 3%nat, 16, 0xD4EF3085); (B, C, D, A, 6%nat, 23, 0x04881D05);
   (A, B, C, D, 9%nat, 4, 0xD9D4D039); (D, A, B, C, 12%nat, 11, 0xE6DB99E5);
   (C, D, A, B, 15%nat, 16, 0x1FA27CF8); (B, C, D, A, 2%nat, 23, 0xC4AC5665)].

Definition steps4 : list (nat * nat * nat * nat * nat * Z * Z) :=
  [(A, B, C, D, 0%nat, 6, 0xF4292244); (D, A, B, C, 7%nat, 10, 0x432AFF97);
   (C, D, A, B, 14%nat, 15, 0xAB9423A7); (B, C, D, A, 5%nat, 21, 0xFC93A039);
   (A, B, C, D, 12%nat, 6, 0x655B59C3); (D, A, B, C, 3%nat, 10, 0x8F0CCC92);
   (C, D, A, B, 10%nat, 15, 0xFFEFF47D); (B, C, D, A, 1%nat, 21, 0x85845DD1);
   (A, B, C, D, 8%nat, 6, 0x6FA87E4F); (D, A, B, C, 15%nat, 10, 0xFE2CE6E0);
   (C, D, A, B, 6%nat, 15, 0xA3014314); (B, C, D, A, 13%nat, 21, 0x4E0811A1);
   (A, B, C, D, 4%nat, 6, 0xF7537E82); (D, A, B, C, 11%nat, 10, 0xBD3AF235);
   (C, D, A, B, 2%nat, 15, 0x2AD7D2BB); (B, C, D, A, 9%nat, 21, 0xEB86D391)].

Definition mbedtls_internal_md5_process (ctx : digest_ctx) (data : list Z) (off : Z) : outcome (Z * digest_ctx) :=
  X ← load_le 16 data off;
  let regs := state ctx in
  let regs := fold_left (P F1 X) steps1 regs in
  let regs := fold_left (P F2 X) steps2 regs in
  let regs := fold_left (P F3 X) steps3 regs in
  let regs := fold_left (P F4 X) steps4 regs in
  mret (0, set_state ctx (zip_with (fun s r => u32 (s + r)) (state ctx) regs)).

Definition mbedtls_md5_init (_ : digest_ctx) : digest_ctx := zeroed 4 64.
Definition mbedtls_md5_free (ctx : option digest_ctx) : option digest_ctx :=
  match ctx with None => None | Some _ => Some (zeroed 4 64) end.
Definition mbedtls_md5_clone (dst src : digest_ctx) : digest_ctx := src.

Definition md5_iv : list Z := [0x67452301; 0xEFCDAB89; 0x98BADCFE; 0x10325476].

Definition mbedtls_md5_starts (ctx : digest_ctx) : Z * digest_ctx :=
  (0, Digest 0 0 md5_iv (buffer ctx) (truncated ctx)).

Definition mbedtls_md5_update : digest_ctx -> list Z -> Z -> outcome (Z * digest_ctx) :=
  update 32 mbedtls_internal_md5_process (simple_blocks 32 mbedtls_internal_md5_process).

Definition mbedtls_md5_finish : digest_ctx -> list Z -> outcome (Z * digest_ctx * list Z) :=
  finish 32 mbedtls_internal_md5_process false 4 (fun _ => 4%nat).

Definition mbedtls_md5 (input : list Z) (ilen : Z) (output : list Z) : outcome (Z * list Z) :=
  let ctx := mbedtls_md5_init (zeroed 4 64) in
  let '(ret, ctx) := mbedtls_md5_starts ctx in
  if negb (ret =? 0) then mret (ret, output) else
  '(ret, ctx) ← mbedtls_md5_update ctx input ilen;
  if negb (ret =? 0) then mret (ret, output) else
  '(ret, ctx, output) ← mbedtls_md5_finish ctx output;
  mret (ret, output).

(** ** RFC 1321 *)

(** The auxiliary function, the index of the word and the rotation of step [i]. *)
Definition f (i : nat) (x y z : Z) : Z :=
  match (i / 16)%nat with
  | 0%nat => Z.lor (Z.land x y) (Z.land (Z.lnot x) z)
  | 1%nat => Z.lor (Z.land x z) (Z.land y (Z.lnot z))
  | 2%nat => Z.lxor (Z.lxor x y) z
  | _ => Z.lxor y (Z.lor x (Z.lnot z mod 2 ^ 32))
  end.
Definition word_index (i : nat) : nat :=
  match (i / 16)%nat with
  | 0%nat => i mod 16
  | 1%nat => (5 * i + 1) mod 16
  | 2%nat => (3 * i + 5) mod 16
  | _ => (7 * i) mod 16
  end.
Definition rotation (i : nat) : Z :=
  [[7; 12; 17; 22]; [5; 9; 14; 20]; [4; 11; 16; 23]; [6; 10; 15; 21]] !!! (i / 16)%nat !!! (i mod 4)%nat.

(** The table [T] of the RFC. *)
Definition T : list Z :=
  [0xD76AA478; 0xE8C7B756; 0x242070DB; 0xC1BDCEEE; 0xF57C0FAF; 0x4787C62A; 0xA8304613; 0xFD469501;
   0x698098D8; 0x8B44F7AF; 0xFFFF5BB1; 0x895CD7BE; 0x6B901122; 0xFD987193; 0xA679438E; 0x49B40821;
   0xF61E2562; 0xC040B340; 0x265E5A51; 0xE9B6C7AA; 0xD62F105D; 0x02441453; 0xD8A1E681; 0xE7D3FBC8;
   0x21E1CDE6; 0xC33707D6; 0xF4D50D87; 0x455A14ED; 0xA9E3E905; 0xFCEFA3F8; 0x676F02D9; 0x8D2A4C8A;
   0xFFFA3942; 0x8771F681; 0x6D9D6122; 0xFDE5380C; 0xA4BEEA44; 0x4BDECFA9; 0xF6BB4B60; 0xBEBFBC70;
   0x289B7EC6; 0xEAA127FA; 0xD4EF3085; 0x04881D05; 0xD9D4D039; 0xE6DB99E5; 0x1FA27CF8; 0xC4AC5665;
   0xF4292244; 0x432AFF97; 0xAB9423A7; 0xFC93A039; 0x655B59C3; 0x8F0CCC92; 0xFFEFF47D; 0x85845DD1;
   0x6FA87E4F; 0xFE2CE6E0; 0xA3014314; 0x4E0811A1; 0xF7537E82; 0xBD3AF235; 0x2AD7D2BB; 0xEB86D391].

Definition rfc_step (X : list Z) (s : list Z) (i : nat) : list Z :=
  match s with
  | [a; b; c; d] =>
      [d; (b + rotl (rotation i) ((a + f i b c d + X !!! word_index i + T !!! i) mod 2 ^ 32)) mod 2 ^ 32; b; c]
  | _ => s
  end.

Definition md5_compress (s b : list Z) : list Z :=
  zip_with (fun x y => (x + y) mod 2 ^ 32) s (fold_left (rfc_step (words_le 16 b)) (seq 0 64) s).

Definition md5 (m : list Z) : list Z := digest 32 false md5_compress md5_iv 4 m.

(** ** Proofs *)

Local Notation is_word x := (0 <= x < 2 ^ 32).

Lemma md5_S_rotl x n : is_word x -> S' x n = rotl n x.
Proof.
  intros H. unfold S', rotl. change 0xFFFFFFFF with (Z.ones 32). by rewrite Z.land_ones, (Z.mod_small x) by lia.
Qed.

(** A line of the rounds by its number. *)
Definition line (i : nat) : nat * nat * nat * nat * nat * Z * Z :=
  let r j := ((j + 4 - i mod 4) mod 4)%nat in (r 0%nat, r 1%nat, r 2%nat, r 3%nat, word_index i, rotation i, T !!! i).

Lemma md5_steps_lines :
  steps1 = map line (seq 0 16) /\ steps2 = map line (seq 16 16) /\ steps3 = map line (seq 32 16) /\ steps4 = map line (seq 48 16).
Proof. by vm_compute. Qed.

Lemma four_inv (l : list Z) : length l = 4%nat -> exists a b c d, l = [a; b; c; d].
Proof. intros H. do 4 (destruct l as [|? l]; [done|]). destruct l; [|done]. by repeat eexists. Qed.

(** The functions of the code are those of the RFC. *)
Lemma F_rfc i x y z : is_word z ->
  ((i < 16)%nat -> F1 x y z = f i x y z) /\ ((16 <= i < 32)%nat -> F2 x y z = f i x y z) /\
  ((32 <= i < 48)%nat -> F3 x y z = f i x y z) /\ ((48 <= i < 64)%nat -> F4 x y z = f i x y z).
Proof.
  intros Hz. assert (forall k, (16 * k <= i < 16 * (k + 1))%nat -> (i / 16 = k)%nat) as Hd.
  { intros k Hk. symmetry. apply Nat.div_unique with (i - 16 * k)%nat; lia. }
  unfold f. split_and!; intros Hi; [rewrite (Hd 0%nat) by lia|rewrite (Hd 1%nat) by lia|rewrite (Hd 2%nat) by lia|rewrite (Hd 3%nat) by lia].
  - apply Z.bits_inj'. intros j Hj. unfold F1. rewrite Z.lxor_spec, Z.lor_spec, !Z.land_spec, Z.lxor_spec, Z.lnot_spec by lia.
    by destruct (Z.testbit x j), (Z.testbit y j), (Z.testbit z j).
  - apply Z.bits_inj'. intros j Hj. unfold F2. rewrite Z.lxor_spec, Z.lor_spec, !Z.land_spec, Z.lxor_spec, Z.lnot_spec by lia.
    by destruct (Z.testbit x j), (Z.testbit y j), (Z.testbit z j).
  - done.
  - unfold F4. by destruct (not32_lnot z Hz) as [-> _].
Qed.

Lemma md5_P_role F X i regs : words_ok 32 4 regs -> (forall x y z, is_word z -> F x y z = f i x y z) ->
  roles 4 (S i) (P F X regs (line i)) = rfc_step X (roles 4 i regs) i /\ words_ok 32 4 (P F X regs (line i)).
Proof.
  intros [HA FA] HF. destruct (four_inv regs HA) as (a & b & c & d & ->).
  rewrite !Forall_cons in FA. destruct FA as (Fa & Fb & Fc & Fd & _). unfold line, roles.
  assert (forall s, is_word (u32 s)) as HM by (intros; apply Z.mod_pos_bound; lia).
  assert (i mod 4 = 0 \/ i mod 4 = 1 \/ i mod 4 = 2 \/ i mod 4 = 3)%nat as Hi by (pose proof (Nat.mod_upper_bound i 4); lia).
  assert (S i mod 4 = S (i mod 4) mod 4)%nat as ES by (rewrite <- Nat.add_1_r, <- (Nat.add_1_r (i mod 4)), Nat.Div0.add_mod_idemp_l; done).
  rewrite ES. destruct Hi as [-> | [-> | [-> | ->]]]; unfold P; cbn -[f word_index rotation T S' Z.add u32 rotl];
    rewrite md5_S_rotl by done; rewrite HF by done;
    (split; [|split; [done|repeat (constructor; [solve [done|apply HM]|]); constructor]]);
    unfold u32; do 2 f_equal; rewrite Z.add_comm; do 2 f_equal; f_equal; f_equal; lia.
Qed.

Lemma md5_rounds_spec F X n : forall i regs, words_ok 32 4 regs ->
  (forall j x y z, (i <= j < i + n)%nat -> is_word z -> F x y z = f j x y z) ->
  let regs' := fold_left (P F X) (map line (seq i n)) regs in
  roles 4 (i + n) regs' = fold_left (rfc_step X) (seq i n) (roles 4 i regs) /\ words_ok 32 4 regs'.
Proof.
  induction n as [|n IH]; intros i regs Hr HF; [by rewrite Nat.add_0_r|]. cbn [seq map fold_left].
  destruct (md5_P_role F X i regs Hr) as [E Hr']; [intros; apply HF; [lia|done]|]. rewrite <- E.
  replace (i + S n)%nat with (S i + n)%nat by lia. apply IH; [done|]. intros. apply HF; [lia|done].
Qed.

Lemma md5_all_rounds X regs : words_ok 32 4 regs ->
  let r := fold_left (P F4 X) steps4 (fold_left (P F3 X) steps3 (fold_left (P F2 X) steps2 (fold_left (P F1 X) steps1 regs))) in
  r = fold_left (rfc_step X) (seq 0 64) regs /\ words_ok 32 4 r.
Proof.
  intros Hr. destruct md5_steps_lines as (-> & -> & -> & ->). cbv zeta.
  assert (forall r, length r = 4%nat -> roles 4 0 r = r) as R0 by (intros r' L; by destruct (four_inv r' L) as (? & ? & ? & ? & ->)).
  destruct (md5_rounds_spec F1 X 16 0 regs Hr) as [E1 H1]; [intros; apply F_rfc; [done|lia]|]. set (r1 := fold_left (P F1 X) _ _) in *.
  destruct (md5_rounds_spec F2 X 16 16 r1 H1) as [E2 H2]; [intros; apply F_rfc; [done|lia]|]. set (r2 := fold_left (P F2 X) _ _) in *.
  destruct (md5_rounds_spec F3 X 16 32 r2 H2) as [E3 H3]; [intros; apply F_rfc; [done|lia]|]. set (r3 := fold_left (P F3 X) _ _) in *.
  destruct (md5_rounds_spec F4 X 16 48 r3 H3) as [E4 H4]; [intros; apply F_rfc; [done|lia]|]. set (r4 := fold_left (P F4 X) _ _) in *.
  split; [|done]. rewrite <- (R0 r4) by apply H4. rewrite <- (R0 regs) by apply Hr.
  change (roles 4 0 r4) with (roles 4 (48 + 16) r4). rewrite E4. change (seq 0 64) with (seq 0 16 ++ seq 16 16 ++ seq 32 16 ++ seq 48 16).
  rewrite !fold_left_app. cbn [Nat.add] in E1, E2, E3. by rewrite E3, E2, E1.
Qed.

#[export] Instance md5_compression : Compression 32 4 mbedtls_internal_md5_process md5_compress.
Proof.
  split; [by left| |].
  - intros s b Hs Bb Lb. unfold md5_compress. destruct (md5_all_rounds (words_le 16 b) s Hs) as [E H].
    apply add_words; [lia|apply Hs|]. rewrite <- E. apply H.
  - intros ctx b off Hs Bb Ho Hl. unfold block_size in Hl. unfold mbedtls_internal_md5_process.
    destruct (load_le_block b off Bb Ho ltac:(lia)) as (-> & _). rewrite bind_Done.
    destruct (md5_all_rounds (words_le 16 (ztake 64 (zdrop off b))) _ Hs) as [E _]. cbv zeta in E |- *. rewrite E. reflexivity.
Qed.

Lemma md5_iv_words : words_ok 32 4 md5_iv.
Proof. split; [done|]. apply (bool_decide_unpack _). vm_compute. exact I. Qed.

Lemma md5_starts_spec ctx : is_bytes (buffer ctx) -> zlen (buffer ctx) = 64 ->
  exists ctx', mbedtls_md5_starts ctx = (0, ctx') /\ absorbed (w := 32) (compress := md5_compress) md5_iv [] 0 ctx'.
Proof. intros Bb Lb. eexists. split; [done|]. by apply absorbed_nil. Qed.

(** ** Theorems *)

(** A context of any content that is started takes a message in any pieces, each of
    fewer than 2^32 bytes, and then has the MD5 of RFC 1321 of the whole: only its bytes are
    written, and the context is erased. *)
Theorem md5_stream_correct ctx chunks output :
  is_bytes (buffer ctx) -> zlen (buffer ctx) = 64 ->
  Forall is_bytes chunks -> Forall (fun c => zlen c < 2 ^ 32) chunks -> 16 <= zlen output ->
  (let '(_, ctx) := mbedtls_md5_starts ctx in
   '(ret, ctx) ← run_updates mbedtls_md5_update ctx chunks;
   if negb (ret =? 0) then mret (ret, ctx, output) else mbedtls_md5_finish ctx output) =
    Done (0, zeroed 4 64, splice output 0 (md5 (concat chunks))).
Proof.
  intros Bb Lb Hc Hl Ho. destruct (md5_starts_spec ctx Bb Lb) as (ctx' & -> & Ha).
  unfold mbedtls_md5_update, mbedtls_md5_finish.
  rewrite (stream_spec (whole := simple_blocks 32 mbedtls_internal_md5_process) _ md5_iv_words false _ 4 ctx' chunks output Ha Hc);
    [by rewrite counted_concat by done| |done|lia|exact Ho].
  eapply Forall_impl; [exact Hl|]. cbv beta. intros. lia.
Qed.

Lemma md5_stream_correct_witness :
  (let '(_, ctx) := mbedtls_md5_starts (zeroed 4 64) in
   '(ret, ctx) ← run_updates mbedtls_md5_update ctx [[97]; []; [98; 99]];
   if negb (ret =? 0) then mret (ret, ctx, replicate 18 7) else mbedtls_md5_finish ctx (replicate 18 7)) =
    Done (0, zeroed 4 64, splice (replicate 18 7) 0 (md5 (concat [[97]; []; [98; 99]]))).
Proof.
  apply (md5_stream_correct (zeroed 4 64) [[97]; []; [98; 99]] (replicate 18 7)).
  - by apply is_bytes_replicate.
  - reflexivity.
  - apply (bool_decide_unpack _). vm_compute. exact I.
  - repeat (constructor; [vm_compute; reflexivity|]). constructor.
  - vm_compute. discriminate.
Defined.

(** The one-call function has the digest of its input. *)
Theorem md5_correct input ilen output :
  is_bytes input -> 0 <= ilen <= zlen input -> ilen < 2 ^ 32 -> 16 <= zlen output ->
  mbedtls_md5 input ilen output = Done (0, splice output 0 (md5 (ztake ilen input))).
Proof.
  intros Bi Hl Hs Ho. unfold mbedtls_md5.
  destruct (md5_starts_spec (mbedtls_md5_init (zeroed 4 64)) ltac:(by apply is_bytes_replicate) ltac:(done)) as (ctx & -> & Ha).
  cbn [negb Z.eqb].
  destruct (one_shot_spec (whole := simple_blocks 32 mbedtls_internal_md5_process) _ md5_iv_words false (fun _ => 4%nat) 4 ctx input ilen output
    Ha Bi Hl) as (ctx1 & E1 & E2); [lia|done|lia|exact Ho|].
  unfold mbedtls_md5_update. rewrite E1, bind_Done. cbv beta iota. cbn [negb Z.eqb]. unfold mbedtls_md5_finish. rewrite E2, bind_Done. cbv beta iota.
  unfold md5, digest. by rewrite Z.mod_small, zlen_ztake by lia.
Qed.
