(* ===== verification/Ripemd160.v ===== *)
(** * RIPEMD-160

    [src/internal/mbedtls/ripemd160.c]: the block function with its two unrolled lines,
    streaming, the padding by two further updates and the one-call function, and that they
    compute the hash of the RIPEMD-160 specification. *)

From S2P Require Import Prelude Bytes BlockHash.

(** ** The code *)

(** The registers of a line are an array of five; there are two lines. *)
Definition A : nat := 0.
Definition B : nat := 1.
Definition C : nat := 2.
Definition D : nat := 3.
Definition E : nat := 4.

Definition F1 (x y z : Z) : Z := Z.lxor (Z.lxor x y) z.
Definition F2 (x y z : Z) : Z := Z.lor (Z.land x y) (Z.land (not32 x) z).
Definition F3 (x y z : Z) : Z := Z.lxor (Z.lor x (not32 y)) z.
Definition F4 (x y z : Z) : Z := Z.lor (Z.land x z) (Z.land y (not32 z)).
Definition F5 (x y z : Z) : Z := Z.lxor x (Z.lor y (not32 z)).

(** [S(x, n)], a rotation. *)
Definition S' (x n : Z) : Z := Z.lor (u32 (Z.shiftl x n)) (Z.shiftr x (32 - n)).

Definition P (X : list Z) (regs : list Z) (a b c d e r : nat) (s : Z) (f : Z -> Z -> Z -> Z) (k : Z) : list Z :=
  let regs := <[a := u32 (regs !!! a + (f (regs !!! b) (regs !!! c) (regs !!! d) + X !!! r + k))]> regs in
  let regs := <[a := u32 (S' (regs !!! a) s + regs !!! e)]> regs in
  <[c := S' (regs !!! c) 10]> regs.

(** A step of both lines. *)
Definition P2 (F : Z -> Z -> Z -> Z) (K : Z) (Fp : Z -> Z -> Z -> Z) (Kp : Z) (X : list Z) (st : list Z * list Z)
    (line : nat * nat * nat * nat * nat * nat * Z * nat * Z) : list Z * list Z :=
  let '(a, b, c, d, e, r, s, rp, sp) := line in
  (P X st.1 a b c d e r s F K, P X st.2 a b c d e rp sp Fp Kp).

(** The rounds in the order of the code. *)
Definition steps1 : list (nat * nat * nat * nat * nat * nat * Z * nat * Z) :=
  [(A, B, C, D, E, 0%nat, 11, 5%nat, 8); (E, A, B, C, D, 1%nat, 14, 14%nat, 9);
   (D, E, A, B, C, 2%nat, 15, 7%nat, 9); (C, D, E, A, B, 3%nat, 12, 0%nat, 11);
   (B, C, D, E, A, 4%nat, 5, 9%nat, 13); (A, B, C, D, E, 5%nat, 8, 2%nat, 15);
   (E, A, B, C, D, 6%nat, 7, 11%nat, 15); (D, E, A, B, C, 7%nat, 9, 4%nat, 5);
   (C, D, E, A, B, 8%nat, 11, 13%nat, 7); (B, C, D, E, A, 9%nat, 13, 6%nat, 7);
   (A, B, C, D, E, 10%nat, 14, 15%nat, 8); (E, A, B, C, D, 11%nat, 15, 8%nat, 11);
   (D, E, A, B, C, 12%nat, 6, 1%nat, 14); (C, D, E, A, B, 13%nat, 7, 10%nat, 14);
   (B, C, D, E, A, 14%nat, 9, 3%nat, 12); (A, B, C, D, E, 15%nat, 8, 12%nat, 6)].

Definition steps2 : list (nat * nat * nat * nat * nat * nat * Z * nat * Z) :=
  [(E, A, B, C, D, 7%nat, 7, 6%nat, 9); (D, E, A, B, C, 4%nat, 6, 11%nat, 13);
   (C, D, E, A, B, 13%nat, 8, 3%nat, 15); (B, C, D, E, A, 1%nat, 13, 7%nat, 7);
   (A, B, C, D, E, 10%nat, 11, 0%nat, 12); (E, A, B, C, D, 6%nat, 9, 13%nat, 8);
   (D, E, A, B, C, 15%nat, 7, 5%nat, 9); (C, D, E, A, B, 3%nat, 15, 10%nat, 11);
   (B, C, D, E, A, 12%nat, 7, 14%nat, 7); (A, B, C, D, E, 0%nat, 12, 15%nat, 7);
   (E, A, B, C, D, 9%nat, 15, 8%nat, 12); (D, E, A, B, C, 5%nat, 9, 12%nat, 7);
   (C, D, E, A, B, 2%nat, 11, 4%nat, 6); (B, C, D, E, A, 14%nat, 7, 9%nat, 15);
   (A, B, C, D, E, 11%nat, 13, 1%nat, 13); (E, A, B, C, D, 8%nat, 12, 2%nat, 11)].

Definition steps3 : list (nat * nat * nat * nat * nat * nat * Z * nat * Z) :=
  [(D, E, A, B, C, 3%nat, 11, 15%nat, 9); (C, D, E, A, B, 10%nat, 13, 5%nat, 7);
   (B, C, D, E, A, 14%nat, 6, 1%nat, 15); (A, B, C, D, E, 4%nat, 7, 3%nat, 11);
   (E, A, B, C, D, 9%nat, 14, 7%nat, 8); (D, E, A, B, C, 15%nat, 9, 14%nat, 6);
   (C, D, E, A, B, 8%nat, 13, 6%nat, 6); (B, C, D, E, A, 1%nat, 15, 9%nat, 14);
   (A, B, C, D, E, 2%nat, 14, 11%nat, 12); (E, A, B, C, D, 7%nat, 8, 8%nat, 13);
   (D, E, A, B, C, 0%nat, 13, 12%nat, 5); (C, D, E, A, B, 6%nat, 6, 2%nat, 14);
   (B, C, D, E, A, 13%nat, 5, 10%nat, 13); (A, B, C, D, E, 11%nat, 12, 0%nat, 13);
   (E, A, B, C, D, 5%nat, 7, 4%nat, 7); (D, E, A, B, C, 12%nat, 5, 13%nat, 5)].

Definition steps4 : list (nat * nat * nat * nat * nat * nat * Z * nat * Z) :=
  [(C, D, E, A, B, 1%nat, 11, 8%nat, 15); (B, C, D, E, A, 9%nat, 12, 6%nat, 5);
   (A, B, C, D, E, 11%nat, 14, 4%nat, 8); (E, A, B, C, D, 10%nat, 15, 1%nat, 11);
   (D, E, A, B, C, 0%nat, 14, 3%nat, 14); (C, D, E, A, B, 8%nat, 15, 11%nat, 14);
   (B, C, D, E, A, 12%nat, 9, 15%nat, 6); (A, B, C, D, E, 4%nat, 8, 0%nat, 14);
   (E, A, B, C, D, 13%nat, 9, 5%nat, 6); (D, E, A, B, C, 3%nat, 14, 12%nat, 9);
   (C, D, E, A, B, 7%nat, 5, 2%nat, 12); (B, C, D, E, A, 15%nat, 6, 13%nat, 9);
   (A, B, C, D, E, 14%nat, 8, 9%nat, 12); (E, A, B, C, D, 5%nat, 6, 7%nat, 5);
   (D, E, A, B, C, 6%nat, 5, 10%nat, 15); (C, D, E, A, B, 2%nat, 12, 14%nat, 8)].

Definition steps5 : list (nat * nat * nat * nat * nat * nat * Z * nat * Z) :=
  [(B, C, D, E, A, 4%nat, 9, 12%nat, 8); (A, B, C, D, E, 0%nat, 15, 15%nat, 5);
   (E, A, B, C, D, 5%nat, 5, 10%nat, 12); (D, E, A, B, C, 9%nat, 11, 4%nat, 9);
   (C, D, E, A, B, 7%nat, 6, 1%nat, 12); (B, C, D, E, A, 12%nat, 8, 5%nat, 5);
   (A, B, C, D, E, 2%nat, 13, 8%nat, 14); (E, A, B, C, D, 10%nat, 12, 7%nat, 6);
   (D, E, A, B, C, 14%nat, 5, 6%nat, 8); (C, D, E, A, B, 1%nat, 12, 2%nat, 13);
   (B, C, D, E, A, 3%nat, 13, 13%nat, 6); (A, B, C, D, E, 8%nat, 14, 14%nat, 5);
   (E, A, B, C, D, 11%nat, 11, 0%nat, 15); (D, E, A, B, C, 6%nat, 8, 3%nat, 13);
   (C, D, E, A, B, 15%nat, 5, 9%nat, 11); (B, C, D, E, A, 13%nat, 6, 11%nat, 11)].

Definition mbedtls_internal_ripemd160_process (ctx : digest_ctx) (data : list Z) (off : Z) : outcome (Z * digest_ctx) :=
  X ← load_le 16 data off;
  let st := (state ctx, state ctx) in
  let st := fold_left (P2 F1 0x00000000 F5 0x50A28BE6 X) steps1 st in
  let st := fold_left (P2 F2 0x5A827999 F4 0x5C4DD124 X) steps2 st in
  let st := fold_left (P2 F3 0x6ED9EBA1 F3 0x6D703EF3 X) steps3 st in
  let st := fold_left (P2 F4 0x8F1BBCDC F2 0x7A6D76E9 X) steps4 st in
  let '(l, p) := fold_left (P2 F5 0xA953FD4E F1 0x00000000 X) steps5 st in
  let h := state ctx in
  mret (0, set_state ctx
    [u32 (h !!! 1%nat + l !!! C + p !!! D); u32 (h !!! 2%nat + l !!! D + p !!! E); u32 (h !!! 3%nat + l !!! E + p !!! A);
     u32 (h !!! 4%nat + l !!! A + p !!! B); u32 (h !!! 0%nat + l !!! B + p !!! C)]).

Definition mbedtls_ripemd160_init (_ : digest_ctx) : digest_ctx := zeroed 5 64.
Definition mbedtls_ripemd160_free (ctx : option digest_ctx) : option digest_ctx :=
  match ctx with None => None | Some _ => Some (zeroed 5 64) end.
Definition mbedtls_ripemd160_clone (dst src : digest_ctx) : digest_ctx := src.

Definition ripemd160_iv : list Z := [0x67452301; 0xEFCDAB89; 0x98BADCFE; 0x10325476; 0xC3D2E1F0].

Definition mbedtls_ripemd160_starts (ctx : digest_ctx) : Z * digest_ctx :=
  (0, Digest 0 0 ripemd160_iv (buffer ctx) (truncated ctx)).

Definition mbedtls_ripemd160_update : digest_ctx -> list Z -> Z -> outcome (Z * digest_ctx) :=
  update 32 mbedtls_internal_ripemd160_process (simple_blocks 32 mbedtls_internal_ripemd160_process).

Definition ripemd160_padding : list Z := 0x80 :: replicate 63 0.

(** The length is taken before the padding is fed to the context as two updates. *)
Definition mbedtls_ripemd160_finish (ctx : digest_ctx) (output : list Z) : outcome (Z * digest_ctx * list Z) :=
  msglen ← put_length 32 false ctx (replicate 8 0) 0;
  let last := Z.land (total0 ctx) 0x3F in
  let padn := if last <? 56 then 56 - last else 120 - last in
  '(ret, ctx) ← mbedtls_ripemd160_update ctx ripemd160_padding padn;
  if negb (ret =? 0) then mret (ret, zeroed 5 64, output) else
  '(ret, ctx) ← mbedtls_ripemd160_update ctx msglen 8;
  if negb (ret =? 0) then mret (ret, zeroed 5 64, output) else
  output ← put_words 32 false (take 5 (state ctx)) output 0;
  mret (0, zeroed 5 64, output).

Definition mbedtls_ripemd160 (input : list Z) (ilen : Z) (output : list Z) : outcome (Z * list Z) :=
  let ctx := mbedtls_ripemd160_init (zeroed 5 64) in
  let '(ret, ctx) := mbedtls_ripemd160_starts ctx in
  if negb (ret =? 0) then mret (ret, output) else
  '(ret, ctx) ← mbedtls_ripemd160_update ctx input ilen;
  if negb (ret =? 0) then mret (ret, output) else
  '(ret, ctx, output) ← mbedtls_ripemd160_finish ctx output;
  mret (ret, output).

(** ** The specification of RIPEMD-160 *)

Definition lnot32 (x : Z) : Z := Z.lnot x mod 2 ^ 32.

(** The functions of the rounds, by the number of the step. *)
Definition f (j : nat) (x y z : Z) : Z :=
  match (j / 16)%nat with
  | 0%nat => Z.lxor (Z.lxor x y) z
  | 1%nat => Z.lor (Z.land x y) (Z.land (lnot32 x) z)
  | 2%nat => Z.lxor (Z.lor x (lnot32 y)) z
  | 3%nat => Z.lor (Z.land x z) (Z.land y (lnot32 z))
  | _ => Z.lxor x (Z.lor y (lnot32 z))
  end.
Definition K (j : nat) : Z := [0; 0x5A827999; 0x6ED9EBA1; 0x8F1BBCDC; 0xA953FD4E] !!! (j / 16)%nat.
Definition K' (j : nat) : Z := [0x50A28BE6; 0x5C4DD124; 0x6D703EF3; 0x7A6D76E9; 0] !!! (j / 16)%nat.

(** The order of the words: powers of the permutation [rho], in the second line after the
    permutation that takes [i] to [9 i + 5]. *)
Definition rho (i : nat) : nat := [7; 4; 13; 1; 10; 6; 15; 3; 12; 0; 9; 5; 2; 14; 11; 8]%nat !!! i.
Definition r (j : nat) : nat := Nat.iter (j / 16)%nat rho (j mod 16)%nat.
Definition r' (j : nat) : nat := Nat.iter (j / 16)%nat rho ((9 * (j mod 16) + 5) mod 16)%nat.

(** The rotation of a round for each word. *)
Definition shifts : list (list Z) :=
  [[11; 14; 15; 12; 5; 8; 7; 9; 11; 13; 14; 15; 6; 7; 9; 8];
   [12; 13; 11; 15; 6; 9; 9; 7; 12; 15; 11; 13; 7; 8; 7; 7];
   [13; 15; 14; 11; 7; 7; 6; 8; 13; 14; 13; 12; 5; 5; 6; 9];
   [14; 11; 12; 14; 8; 6; 5; 5; 15; 12; 15; 14; 9; 9; 8; 6];
   [15; 12; 13; 13; 9; 5; 8; 6; 14; 11; 12; 11; 8; 6; 5; 5]].
Definition s (j : nat) : Z := shifts !!! (j / 16)%nat !!! r j.
Definition s' (j : nat) : Z := shifts !!! (j / 16)%nat !!! r' j.

Definition line_step (g : Z -> Z -> Z -> Z) (x k n : Z) (v : list Z) : list Z :=
  match v with
  | [a; b; c; d; e] => [e; (rotl n ((a + g b c d + x + k) mod 2 ^ 32) + e) mod 2 ^ 32; b; rotl 10 c; d]
  | _ => v
  end.
Definition left_step (X v : list Z) (j : nat) : list Z := line_step (f j) (X !!! r j) (K j) (s j) v.
Definition right_step (X v : list Z) (j : nat) : list Z := line_step (f (79 - j)) (X !!! r' j) (K' j) (s' j) v.

Definition ripemd160_compress (h b : list Z) : list Z :=
  let X := words_le 16 b in
  match h, fold_left (left_step X) (seq 0 80) h, fold_left (right_step X) (seq 0 80) h with
  | [h0; h1; h2; h3; h4], [a; b; c; d; e], [a'; b'; c'; d'; e'] =>
      [(h1 + c + d') mod 2 ^ 32; (h2 + d + e') mod 2 ^ 32; (h3 + e + a') mod 2 ^ 32;
       (h4 + a + b') mod 2 ^ 32; (h0 + b + c') mod 2 ^ 32]
  | _, _, _ => h
  end.

Definition ripemd160 (m : list Z) : list Z := digest 32 false ripemd160_compress ripemd160_iv 5 m.

(** ** Proofs *)

Local Notation is_word x := (0 <= x < 2 ^ 32).

(** A line of the rounds by its number. *)
Definition line (j : nat) : nat * nat * nat * nat * nat * nat * Z * nat * Z :=
  let i n := ((n + 5 - j mod 5) mod 5)%nat in (i 0%nat, i 1%nat, i 2%nat, i 3%nat, i 4%nat, r j, s j, r' j, s' j).

Lemma ripemd160_steps_lines :
  steps1 = map line (seq 0 16) /\ steps2 = map line (seq 16 16) /\ steps3 = map line (seq 32 16) /\
  steps4 = map line (seq 48 16) /\ steps5 = map line (seq 64 16).
Proof. by vm_compute. Qed.

Lemma five_regs (l : list Z) : length l = 5%nat -> exists a b c d e, l = [a; b; c; d; e].
Proof. intros H. do 5 (destruct l as [|? l]; [done|]). destruct l; [|done]. by repeat eexists. Qed.

Lemma ripemd160_P_role g h X j regs k n x : words_ok 32 5 regs -> (forall x y z, is_word x -> is_word y -> is_word z -> g x y z = h x y z) ->
  let '(a, b, c, d, e, _, _, _, _) := line j in
  roles 5 (S j) (P X regs a b c d e x n g k) = line_step h (X !!! x) k n (roles 5 j regs) /\
  words_ok 32 5 (P X regs a b c d e x n g k).
Proof.
  intros [HA FA] HF. destruct (five_regs regs HA) as (a & b & c & d & e & ->).
  rewrite !Forall_cons in FA. destruct FA as (Fa & Fb & Fc & Fd & Fe & _). unfold line, roles.
  assert (forall s, is_word (u32 s)) as HM by (intros; apply Z.mod_pos_bound; lia).
  assert (forall v, is_word v -> is_word (rotl 10 v)) as HR by (intros; by apply rotl_word).
  assert (j mod 5 = 0 \/ j mod 5 = 1 \/ j mod 5 = 2 \/ j mod 5 = 3 \/ j mod 5 = 4)%nat as Hj by (pose proof (Nat.mod_upper_bound j 5); lia).
  assert (S j mod 5 = S (j mod 5) mod 5)%nat as ES by (rewrite <- Nat.add_1_r, <- (Nat.add_1_r (j mod 5)), Nat.Div0.add_mod_idemp_l; done).
  change S' with (fun x n => rotl n x). rewrite ES.
  destruct Hj as [-> | [-> | [-> | [-> | ->]]]]; unfold P; cbn -[r s r' s' Z.add u32 rotl];
    rewrite HF by done;
    (split; [|split; [done|repeat (constructor; [solve [done|apply HM|by apply HR]|]); constructor]]);
    unfold u32; rewrite !Z.add_assoc; reflexivity.
Qed.

(** The functions of a group of sixteen steps, in both lines. *)
Definition group (F Fp : Z -> Z -> Z -> Z) (k kp : Z) (j : nat) : Prop :=
  forall x y z, is_word x -> is_word y -> is_word z -> F x y z = f j x y z /\ Fp x y z = f (79 - j) x y z /\ k = K j /\ kp = K' j.

Lemma groups j :
  ((j < 16)%nat -> group F1 F5 0x00000000 0x50A28BE6 j) /\ ((16 <= j < 32)%nat -> group F2 F4 0x5A827999 0x5C4DD124 j) /\
  ((32 <= j < 48)%nat -> group F3 F3 0x6ED9EBA1 0x6D703EF3 j) /\ ((48 <= j < 64)%nat -> group F4 F2 0x8F1BBCDC 0x7A6D76E9 j) /\
  ((64 <= j < 80)%nat -> group F5 F1 0xA953FD4E 0x00000000 j).
Proof.
  assert (forall i k, (16 * k <= i < 16 * (k + 1))%nat -> (i / 16 = k)%nat) as Hd.
  { intros i k Hk. symmetry. apply Nat.div_unique with (i - 16 * k)%nat; lia. }
  assert (forall i k, (16 * k <= i < 16 * (k + 1))%nat -> (k < 5)%nat -> ((79 - i) / 16 = 4 - k)%nat) as Hd' by (intros i k Hk Hk5; apply Hd; lia).
  assert (forall x, is_word x -> lnot32 x = not32 x) as Hn by (intros x Hx; symmetry; by apply not32_lnot).
  unfold group, f, K, K'.
  split_and!; intros Hj x y z Hx Hy Hz;
    [pose proof (Hd j 0%nat ltac:(lia)) as Q; pose proof (Hd' j 0%nat ltac:(lia) ltac:(lia)) as Q'|pose proof (Hd j 1%nat ltac:(lia)) as Q; pose proof (Hd' j 1%nat ltac:(lia) ltac:(lia)) as Q'|pose proof (Hd j 2%nat ltac:(lia)) as Q; pose proof (Hd' j 2%nat ltac:(lia) ltac:(lia)) as Q'|
     pose proof (Hd j 3%nat ltac:(lia)) as Q; pose proof (Hd' j 3%nat ltac:(lia) ltac:(lia)) as Q'|pose proof (Hd j 4%nat ltac:(lia)) as Q; pose proof (Hd' j 4%nat ltac:(lia) ltac:(lia)) as Q'];
    rewrite Q, Q'; cbn [Nat.sub]; rewrite ?(Hn x Hx), ?(Hn y Hy), ?(Hn z Hz); done.
Qed.

Lemma ripemd160_rounds_spec F Fp k kp X n : forall j st, words_ok 32 5 st.1 -> words_ok 32 5 st.2 ->
  (forall i, (j <= i < j + n)%nat -> group F Fp k kp i) ->
  let st' := fold_left (P2 F k Fp kp X) (map line (seq j n)) st in
  roles 5 (j + n) st'.1 = fold_left (left_step X) (seq j n) (roles 5 j st.1) /\ words_ok 32 5 st'.1 /\
  roles 5 (j + n) st'.2 = fold_left (right_step X) (seq j n) (roles 5 j st.2) /\ words_ok 32 5 st'.2.
Proof.
  induction n as [|n IH]; intros j [l p] Hl Hp HF; [rewrite Nat.add_0_r; by split_and!|]. cbn [seq map fold_left fst snd].
  pose proof (HF j ltac:(lia)) as Hg. destruct (Hg 0 0 0) as (_ & _ & -> & ->); [lia..|].
  destruct (ripemd160_P_role F (f j) X j l (K j) (s j) (r j) Hl) as [E1 O1]; [intros; by apply Hg|].
  destruct (ripemd160_P_role Fp (f (79 - j)) X j p (K' j) (s' j) (r' j) Hp) as [E2 O2]; [intros; by apply Hg|].
  unfold left_step at 2, right_step at 2. rewrite <- E1, <- E2.
  replace (j + S n)%nat with (S j + n)%nat by lia. apply IH; [done|done|]. intros i Hi x y z Hx Hy Hz.
  by apply HF; [lia|..].
Qed.

Lemma ripemd160_all_rounds X h : words_ok 32 5 h ->
  let st := fold_left (P2 F5 0xA953FD4E F1 0x00000000 X) steps5 (fold_left (P2 F4 0x8F1BBCDC F2 0x7A6D76E9 X) steps4
    (fold_left (P2 F3 0x6ED9EBA1 F3 0x6D703EF3 X) steps3 (fold_left (P2 F2 0x5A827999 F4 0x5C4DD124 X) steps2
    (fold_left (P2 F1 0x00000000 F5 0x50A28BE6 X) steps1 (h, h))))) in
  exists l p, st = (l, p) /\ words_ok 32 5 l /\ words_ok 32 5 p /\
    fold_left (left_step X) (seq 0 80) h = l /\ fold_left (right_step X) (seq 0 80) h = p.
Proof.
  intros Hh. destruct ripemd160_steps_lines as (-> & -> & -> & -> & ->). cbv zeta.
  assert (forall l, length l = 5%nat -> roles 5 0 l = l) as R0 by (intros l L; by destruct (five_regs l L) as (? & ? & ? & ? & ? & ->)).
  destruct (ripemd160_rounds_spec F1 F5 0x00000000 0x50A28BE6 X 16 0 (h, h) Hh Hh) as (L1 & OL1 & P1 & OP1); [intros; apply groups; lia|]. set (st1 := fold_left _ _ (h, h)) in *.
  destruct (ripemd160_rounds_spec F2 F4 0x5A827999 0x5C4DD124 X 16 16 st1 OL1 OP1) as (L2 & OL2 & P2 & OP2); [intros; apply groups; lia|]. set (st2 := fold_left _ _ st1) in *.
  destruct (ripemd160_rounds_spec F3 F3 0x6ED9EBA1 0x6D703EF3 X 16 32 st2 OL2 OP2) as (L3 & OL3 & P3 & OP3); [intros; apply groups; lia|]. set (st3 := fold_left _ _ st2) in *.
  destruct (ripemd160_rounds_spec F4 F2 0x8F1BBCDC 0x7A6D76E9 X 16 48 st3 OL3 OP3) as (L4 & OL4 & P4 & OP4); [intros; apply groups; lia|]. set (st4 := fold_left _ _ st3) in *.
  destruct (ripemd160_rounds_spec F5 F1 0xA953FD4E 0x00000000 X 16 64 st4 OL4 OP4) as (L5 & OL5 & P5 & OP5); [intros; apply groups; lia|]. set (st5 := fold_left _ _ st4) in *.
  exists st5.1, st5.2. clearbody st1 st2 st3 st4 st5. split; [by destruct st5|]. split; [exact OL5|]. split; [exact OP5|].
  cbn [Nat.add fst snd] in *. rewrite <- (R0 st5.1 (proj1 OL5)), <- (R0 st5.2 (proj1 OP5)).
  change (roles 5 0) with (roles 5 80). rewrite L5, P5, L4, L3, L2, L1, P4, P3, P2, P1.
  change (seq 0 80) with (seq 0 16 ++ seq 16 16 ++ seq 32 16 ++ seq 48 16 ++ seq 64 16). rewrite !fold_left_app.
  rewrite !(R0 h (proj1 Hh)). split; reflexivity.
Qed.

(** How the lines are added up. *)
Definition combine (h l p : list Z) : list Z :=
  [u32 (h !!! 1%nat + l !!! C + p !!! D); u32 (h !!! 2%nat + l !!! D + p !!! E); u32 (h !!! 3%nat + l !!! E + p !!! A);
   u32 (h !!! 4%nat + l !!! A + p !!! B); u32 (h !!! 0%nat + l !!! B + p !!! C)].

Lemma compress_combine h b l p : length h = 5%nat -> length l = 5%nat -> length p = 5%nat ->
  fold_left (left_step (words_le 16 b)) (seq 0 80) h = l -> fold_left (right_step (words_le 16 b)) (seq 0 80) h = p ->
  ripemd160_compress h b = combine h l p.
Proof.
  intros Lh Ll Lp El Ep. destruct (five_regs h Lh) as (? & ? & ? & ? & ? & ->), (five_regs l Ll) as (? & ? & ? & ? & ? & ->), (five_regs p Lp) as (? & ? & ? & ? & ? & ->).
  unfold ripemd160_compress. cbv zeta. rewrite El, Ep. reflexivity.
Qed.

#[export] Instance ripemd160_compression : Compression 32 5 mbedtls_internal_ripemd160_process ripemd160_compress.
Proof.
  assert (forall s, is_word (u32 s)) as HM by (intros; apply Z.mod_pos_bound; lia).
  split; [by left| |].
  - intros h b Hh Bb Lb. destruct (ripemd160_all_rounds (words_le 16 b) h Hh) as (l & p & _ & [Ol _] & [Op _] & El & Ep).
    rewrite (compress_combine h b l p (proj1 Hh) Ol Op El Ep). split; [reflexivity|].
    unfold combine. repeat (constructor; [apply HM|]). constructor.
  - intros ctx b off Hs Bb Ho Hl. unfold block_size in Hl. unfold mbedtls_internal_ripemd160_process.
    destruct (load_le_block b off Bb Ho ltac:(lia)) as (-> & _). rewrite bind_Done. change (block_size 32) with 64.
    destruct (ripemd160_all_rounds (words_le 16 (ztake 64 (zdrop off b))) _ Hs) as (l & p & E & [Ol _] & [Op _] & El & Ep).
    cbv zeta. rewrite E, (compress_combine (state ctx) _ l p (proj1 Hs) Ol Op El Ep). reflexivity.
Qed.

(** Padding by two updates is the padding of the other functions. *)
Lemma ripemd160_finish_spec m cnt ctx output :
  absorbed (w := 32) (compress := ripemd160_compress) ripemd160_iv m cnt ctx -> words_ok 32 5 ripemd160_iv -> 20 <= zlen output ->
  mbedtls_ripemd160_finish ctx output =
    Done (0, zeroed 5 64, splice output 0 (digest_counting 32 false ripemd160_compress ripemd160_iv 5 cnt m)).
Proof.
  intros Ha Hiv Ho. pose proof Ha as [[Bm _ _ _ _] E0 E1 Ec]. unfold mbedtls_ripemd160_finish.
  destruct (put_length_spec (w := 32) false cnt ctx (replicate 8 0) 0 E0 E1 ltac:(lia) ltac:(done)) as (-> & Lf & Bf).
  rewrite bind_Done. change (32 / 4) with 8 in Lf. set (lf := length_field 32 false cnt) in *.
  assert (splice (replicate 8 0) 0 lf = lf) as ->.
  { unfold splice. rewrite Lf. cbn [ztake]. by rewrite zdrop_all, app_nil_r by done. }
  rewrite E0. change 0x3F with (block_size 32 - 1). rewrite (land_left (w := 32)), Ec. change (block_size 32) with 64.
  pose proof (pad_zeros (w := 32) m) as Ez. change (block_size 32) with 64 in Ez. change (32 / 4) with 8 in Ez. cbv zeta in Ez.
  pose proof (Z.mod_pos_bound (zlen m) 64 ltac:(lia)) as Rl. set (l := zlen m mod 64) in *.
  set (padn := if l <? 56 then 56 - l else 120 - l).
  assert (padn = 1 + (64 - 8 - 1 - zlen m) mod 64 /\ 1 <= padn <= 64) as [Ep Rp].
  { rewrite Ez. unfold padn. destruct (Z.ltb_spec l 56), (Z.leb_spec (l + 1) (64 - 8)); lia. }
  assert (zlen ripemd160_padding = 64) as Lp by reflexivity.
  assert (is_bytes ripemd160_padding) as Bp by (constructor; [done|by apply is_bytes_replicate]).
  destruct (hash_update_spec (whole := simple_blocks 32 mbedtls_internal_ripemd160_process) _ Hiv m cnt ctx ripemd160_padding padn Ha Bp ltac:(lia) ltac:(lia))
    as (ctx1 & U1 & Ha1 & _). unfold mbedtls_ripemd160_update. rewrite U1, bind_Done. cbv beta iota. cbn [negb Z.eqb].
  destruct (hash_update_spec (whole := simple_blocks 32 mbedtls_internal_ripemd160_process) _ Hiv _ _ ctx1 lf 8 Ha1 Bf ltac:(lia) ltac:(lia))
    as (ctx2 & U2 & Ha2 & _). rewrite U2, bind_Done. cbv beta iota. cbn [negb Z.eqb].
  destruct Ha2 as [[Bm2 Es2 _ _ _] _ _ _]. rewrite (ztake_all 8 lf) in Es2, Bm2 by lia.
  assert (ztake padn ripemd160_padding = 0x80 :: replicate (Z.to_nat ((64 - 8 - 1 - zlen m) mod 64)) 0) as Et.
  { pose proof (Z.mod_pos_bound (64 - 8 - 1 - zlen m) 64 ltac:(lia)) as Rk. rewrite Ep. set (k := (64 - 8 - 1 - zlen m) mod 64) in *.
    rewrite ztake_add by lia. change (ztake 1 ripemd160_padding) with [0x80]. change (zdrop 1 ripemd160_padding) with (replicate 63 0).
    unfold ztake. rewrite take_replicate. cbn [app]. do 2 f_equal. lia. }
  assert ((m ++ ztake padn ripemd160_padding) ++ lf = pad 32 false cnt m) as Epad by (rewrite Et, <- app_assoc; reflexivity).
  rewrite Epad in Es2, Bm2. rewrite Es2. pose proof (chain_ok ripemd160_iv (pad 32 false cnt m) Hiv Bm2) as [Lw _].
  unfold digest_counting. rewrite put_words_spec; [done|lia|]. rewrite encode_length. unfold zlen at 1. rewrite length_take, Lw. change (32 / 8) with 4. lia.
Qed.

Lemma ripemd160_iv_words : words_ok 32 5 ripemd160_iv.
Proof. split; [done|]. apply (bool_decide_unpack _). vm_compute. exact I. Qed.

Lemma ripemd160_starts_spec ctx : is_bytes (buffer ctx) -> zlen (buffer ctx) = 64 ->
  exists ctx', mbedtls_ripemd160_starts ctx = (0, ctx') /\ absorbed (w := 32) (compress := ripemd160_compress) ripemd160_iv [] 0 ctx'.
Proof. intros Bb Lb. eexists. split; [done|]. by apply absorbed_nil. Qed.

(** ** Theorems *)

(** A context of any content that is started takes a message in any pieces, each of
    fewer than 2^32 bytes, and then has the RIPEMD-160 of its specification of the whole: only its bytes are
    written, and the context is erased. *)
Theorem ripemd160_stream_correct ctx chunks output :
  is_bytes (buffer ctx) -> zlen (buffer ctx) = 64 ->
  Forall is_bytes chunks -> Forall (fun c => zlen c < 2 ^ 32) chunks -> 20 <= zlen output ->
  (let '(_, ctx) := mbedtls_ripemd160_starts ctx in
   '(ret, ctx) ← run_updates mbedtls_ripemd160_update ctx chunks;
   if negb (ret =? 0) then mret (ret, ctx, output) else mbedtls_ripemd160_finish ctx output) =
    Done (0, zeroed 5 64, splice output 0 (ripemd160 (concat chunks))).
Proof.
  intros Bb Lb Hc Hl Ho. destruct (ripemd160_starts_spec ctx Bb Lb) as (ctx' & -> & Ha).
  unfold mbedtls_ripemd160_update.
  destruct (hash_run_updates_spec (whole := simple_blocks 32 mbedtls_internal_ripemd160_process) _ ripemd160_iv_words chunks ctx' [] 0 Ha Hc)
    as (ctx1 & -> & Ha1 & _); [eapply Forall_impl; [exact Hl|]; cbv beta; intros; lia|].
  rewrite bind_Done. cbv beta iota. cbn [negb Z.eqb]. rewrite Z.add_0_l, counted_concat in Ha1 by done.
  by apply (ripemd160_finish_spec _ _ ctx1 output Ha1 ripemd160_iv_words).
Qed.

Lemma ripemd160_stream_correct_witness :
  (let '(_, ctx) := mbedtls_ripemd160_starts (zeroed 5 64) in
   '(ret, ctx) ← run_updates mbedtls_ripemd160_update ctx [[97]; []; [98; 99]];
   if negb (ret =? 0) then mret (ret, ctx, replicate 22 7) else mbedtls_ripemd160_finish ctx (replicate 22 7)) =
    Done (0, zeroed 5 64, splice (replicate 22 7) 0 (ripemd160 (concat [[97]; []; [98; 99]]))).
Proof.
  apply (ripemd160_stream_correct (zeroed 5 64) [[97]; []; [98; 99]] (replicate 22 7)).
  - by apply is_bytes_replicate.
  - reflexivity.
  - apply (bool_decide_unpack _). vm_compute. exact I.
  - repeat (constructor; [vm_compute; reflexivity|]). constructor.
  - vm_compute. discriminate.
Defined.

(** The one-call function has the digest of its input. *)
Theorem ripemd160_correct input ilen output :
  is_bytes input -> 0 <= ilen <= zlen input -> ilen < 2 ^ 32 -> 20 <= zlen output ->
  mbedtls_ripemd160 input ilen output = Done (0, splice output 0 (ripemd160 (ztake ilen input))).
Proof.
  intros Bi Hl Hs Ho. unfold mbedtls_ripemd160.
  destruct (ripemd160_starts_spec (mbedtls_ripemd160_init (zeroed 5 64)) ltac:(by apply is_bytes_replicate) ltac:(done)) as (ctx & -> & Ha).
  cbn [negb Z.eqb].
  destruct (hash_update_spec (whole := simple_blocks 32 mbedtls_internal_ripemd160_process) _ ripemd160_iv_words [] 0 ctx input ilen Ha Bi Hl) as (ctx1 & E1 & Ha1 & _); [lia|].
  unfold mbedtls_ripemd160_update. rewrite E1, bind_Done. cbv beta iota. cbn [negb Z.eqb]. rewrite Z.add_0_l, Z.mod_small in Ha1 by lia.
  rewrite (ripemd160_finish_spec _ _ ctx1 output Ha1 ripemd160_iv_words Ho), bind_Done. cbv beta iota.
  unfold ripemd160, digest. by rewrite zlen_ztake by lia.
Qed.

(** The constants are the first bits of the square roots of 2, 3, 5 and 7 in the first line,
    of their cube roots in the second. *)
Lemma ripemd160_constants :
  Forall2 (fun k n => k ^ 2 <= n * 2 ^ 60 < (k + 1) ^ 2) (map K [16; 32; 48; 64]%nat) [2; 3; 5; 7] /\
  Forall2 (fun k n => k ^ 3 <= n * 2 ^ 90 < (k + 1) ^ 3) (map K' [0; 16; 32; 48]%nat) [2; 3; 5; 7].
Proof. split; repeat (constructor; [vm_compute; split; [discriminate|reflexivity]|]); constructor. Qed.
