(* ===== verification/Keccak.v ===== *)
(** * The permutation of SHA-3

    [keccak_f1600] of [src/internal/mbedtls/sha3.c], with the parts the preprocessor
    unrolls in both forms, against the permutation of FIPS 202, which is written there on
    single bits and derives its constants: the rotations from a walk over the columns, the
    round constants from a shift register. *)

From S2P Require Import Prelude Bytes.

(** ** The code *)

(** [H(b63, b31, b15)]: three bits of a mask, moved to where the low byte is free. *)
Definition H (b63 b31 b15 : Z) : Z := Z.lor (Z.lor (Z.shiftl b63 6) (Z.shiftl b31 5)) (Z.shiftl b15 4).

Definition iota_r_packed : list Z :=
  [Z.lor (H 0 0 0) 0x01; Z.lor (H 0 0 1) 0x82; Z.lor (H 1 0 1) 0x8a; Z.lor (H 1 1 1) 0x00;
   Z.lor (H 0 0 1) 0x8b; Z.lor (H 0 1 0) 0x01; Z.lor (H 1 1 1) 0x81; Z.lor (H 1 0 1) 0x09;
   Z.lor (H 0 0 0) 0x8a; Z.lor (H 0 0 0) 0x88; Z.lor (H 0 1 1) 0x09; Z.lor (H 0 1 0) 0x0a;
   Z.lor (H 0 1 1) 0x8b; Z.lor (H 1 0 0) 0x8b; Z.lor (H 1 0 1) 0x89; Z.lor (H 1 0 1) 0x03;
   Z.lor (H 1 0 1) 0x02; Z.lor (H 1 0 0) 0x80; Z.lor (H 0 0 1) 0x0a; Z.lor (H 1 1 0) 0x0a;
   Z.lor (H 1 1 1) 0x81; Z.lor (H 1 0 1) 0x80; Z.lor (H 0 1 0) 0x01; Z.lor (H 1 1 1) 0x08].

Definition rho : list Z := [0x3f022425; 0x1c143a09; 0x2c3d3615; 0x27191713; 0x312b382e; 0x3e030832].
Definition pi : list Z := [0x110b070a; 0x10050312; 0x04181508; 0x0d13170f; 0x0e14020c; 0x01060916].

Definition ROTR64 (x y : Z) : Z := Z.lor (u64 (Z.shiftl x (64 - y))) (Z.shiftr x y).

(** [~x] on 64 bits. *)
Definition not64 (x : Z) : Z := Z.lxor x 0xFFFFFFFFFFFFFFFF.

(** Which parts are unrolled, as the macros [MBEDTLS_SHA3_*_UNROLL] say. *)
Record unrolling := Unrolling { THETA_UNROLL : bool; RHO_UNROLL : bool; PI_UNROLL : bool; CHI_UNROLL : bool }.

(** [s[i] ^= t; s[i + 5] ^= t; s[i + 10] ^= t; s[i + 15] ^= t; s[i + 20] ^= t;] *)
Definition xor_column (s : list Z) (t : Z) (i0 i1 i2 i3 i4 : nat) : list Z :=
  fold_left (fun s i => <[i := Z.lxor (s !!! i) t]> s) [i0; i1; i2; i3; i4] s.

Definition column (s : list Z) (i0 i1 i2 i3 i4 : nat) : Z :=
  Z.lxor (Z.lxor (Z.lxor (Z.lxor (s !!! i0) (s !!! i1)) (s !!! i2)) (s !!! i3)) (s !!! i4).

Definition theta_rolled (s : list Z) : list Z :=
  let lane := map (fun i => column s i (i + 5) (i + 10) (i + 15) (i + 20)) (seq 0 5) in
  fold_left (fun s i =>
    let t := Z.lxor (lane !!! ((i + 4) mod 5)%nat) (ROTR64 (lane !!! ((i + 1) mod 5)%nat) 63) in
    xor_column s t i (i + 5) (i + 10) (i + 15) (i + 20)) (seq 0 5) s.

Definition theta_unrolled (s : list Z) : list Z :=
  let lane0 := column s 0 5 10 15 20 in
  let lane1 := column s 1 6 11 16 21 in
  let lane2 := column s 2 7 12 17 22 in
  let lane3 := column s 3 8 13 18 23 in
  let lane4 := column s 4 9 14 19 24 in
  let s := xor_column s (Z.lxor lane4 (ROTR64 lane1 63)) 0 5 10 15 20 in
  let s := xor_column s (Z.lxor lane0 (ROTR64 lane2 63)) 1 6 11 16 21 in
  let s := xor_column s (Z.lxor lane1 (ROTR64 lane3 63)) 2 7 12 17 22 in
  let s := xor_column s (Z.lxor lane2 (ROTR64 lane4 63)) 3 8 13 18 23 in
  xor_column s (Z.lxor lane3 (ROTR64 lane0 63)) 4 9 14 19 24.

Definition rotate (s : list Z) (i : nat) (r : Z) : list Z := <[i := ROTR64 (s !!! i) r]> s.

Definition rho_rolled (s : list Z) : list Z :=
  fold_left (fun s i =>
    let r := rho !!! ((i - 1) / 4)%nat in
    fst (fold_left (fun '(s, r) j => (rotate s j (u8 (Z.shiftr r 24)), u32 (Z.shiftl r 8)))
           [i; i + 1; i + 2; i + 3]%nat (s, r))) [1; 5; 9; 13; 17; 21]%nat s.

Definition rho_unrolled (s : list Z) : list Z :=
  fold_left (fun s i =>
    let r := rho !!! ((i - 1) / 4)%nat in
    let s := rotate s (i + 0) (MBEDTLS_BYTE_3 r) in
    let s := rotate s (i + 1) (MBEDTLS_BYTE_2 r) in
    let s := rotate s (i + 2) (MBEDTLS_BYTE_1 r) in
    rotate s (i + 3) (MBEDTLS_BYTE_0 r)) [1; 5; 9; 13; 17; 21]%nat s.

(** [SWAP(s[i], t)]. *)
Definition SWAP (st : list Z * Z) (i : Z) : list Z * Z :=
  let '(s, t) := st in (<[Z.to_nat i := t]> s, s !!! Z.to_nat i).

Definition pi_rolled (s : list Z) : list Z :=
  fst (fold_left (fun st i =>
    let p := pi !!! (i / 4)%nat in
    fst (fold_left (fun '(st, p) (_ : nat) => (SWAP st (Z.land p 0xff), Z.shiftr p 8)) (seq 0 4) (st, p)))
    [0; 4; 8; 12; 16; 20]%nat (s, s !!! 1%nat)).

Definition pi_swaps (p : Z) (st : list Z * Z) : list Z * Z :=
  let st := SWAP (SWAP st (MBEDTLS_BYTE_0 p)) (MBEDTLS_BYTE_1 p) in
  SWAP (SWAP st (MBEDTLS_BYTE_2 p)) (MBEDTLS_BYTE_3 p).

Definition pi_unrolled (s : list Z) : list Z :=
  let st := pi_swaps (pi !!! 0%nat) (s, s !!! 1%nat) in
  let st := pi_swaps (pi !!! 1%nat) st in
  let st := pi_swaps (pi !!! 2%nat) st in
  let st := pi_swaps (pi !!! 3%nat) st in
  let st := pi_swaps (pi !!! 4%nat) st in
  fst (pi_swaps (pi !!! 5%nat) st).

(** A row of five lanes, all read before the first is written. *)
Definition chi_row (s : list Z) (i0 i1 i2 i3 i4 : nat) : list Z :=
  let lane0 := s !!! i0 in let lane1 := s !!! i1 in let lane2 := s !!! i2 in
  let lane3 := s !!! i3 in let lane4 := s !!! i4 in
  let s := <[i0 := Z.lxor (s !!! i0) (Z.land (not64 lane1) lane2)]> s in
  let s := <[i1 := Z.lxor (s !!! i1) (Z.land (not64 lane2) lane3)]> s in
  let s := <[i2 := Z.lxor (s !!! i2) (Z.land (not64 lane3) lane4)]> s in
  let s := <[i3 := Z.lxor (s !!! i3) (Z.land (not64 lane4) lane0)]> s in
  <[i4 := Z.lxor (s !!! i4) (Z.land (not64 lane0) lane1)]> s.

Definition chi_rolled (s : list Z) : list Z :=
  fold_left (fun s i => chi_row s (i + 0) (i + 1) (i + 2) (i + 3) (i + 4)) [0; 5; 10; 15; 20]%nat s.

Definition chi_unrolled (s : list Z) : list Z :=
  let s := chi_row s 0 1 2 3 4 in
  let s := chi_row s 5 6 7 8 9 in
  let s := chi_row s 10 11 12 13 14 in
  let s := chi_row s 15 16 17 18 19 in
  chi_row s 20 21 22 23 24.

(** The round mask, unpacked. *)
Definition iota_mask (round : nat) : Z :=
  let r := iota_r_packed !!! round in
  Z.lor (Z.lor (Z.lor (Z.shiftl (Z.land r 0x40) 57) (Z.shiftl (Z.land r 0x20) 26)) (Z.shiftl (Z.land r 0x10) 11))
    (Z.land r 0x8f).

Definition iota (s : list Z) (round : nat) : list Z := <[0%nat := Z.lxor (s !!! 0%nat) (iota_mask round)]> s.

Definition keccak_round (u : unrolling) (s : list Z) (round : nat) : list Z :=
  let s := if THETA_UNROLL u then theta_unrolled s else theta_rolled s in
  let s := if RHO_UNROLL u then rho_unrolled s else rho_rolled s in
  let s := if PI_UNROLL u then pi_unrolled s else pi_rolled s in
  let s := if CHI_UNROLL u then chi_unrolled s else chi_rolled s in
  iota s round.

Definition keccak_f1600 (u : unrolling) (s : list Z) : list Z := fold_left (keccak_round u) (seq 0 24) s.

(** ** FIPS 202

    A state array is 25 lanes of 64 bits; the lane of the coordinates [x], [y] is at
    [5 y + x]. *)

Definition bit (A : list (list bool)) (x y z : nat) : bool := (A !!! (5 * y + x)%nat) !!! z.

Definition array (f : nat -> nat -> nat -> bool) : list (list bool) :=
  map (fun k => map (fun z => f (k mod 5)%nat (k / 5)%nat z) (seq 0 64)) (seq 0 25).

(** 3.2.1 *)
Definition Theta (A : list (list bool)) : list (list bool) :=
  let C x z := xorb (xorb (xorb (xorb (bit A x 0 z) (bit A x 1 z)) (bit A x 2 z)) (bit A x 3 z)) (bit A x 4 z) in
  let D x z := xorb (C ((x + 4) mod 5)%nat z) (C ((x + 1) mod 5)%nat ((z + 63) mod 64)%nat) in
  array (fun x y z => xorb (bit A x y z) (D x z)).

(** 3.2.2: the walk from the column [(1, 0)] and the offset at each of its 24 steps. *)
Fixpoint rho_walk (n t x y : nat) : list (nat * nat * nat) :=
  match n with
  | O => []
  | S n => (x, y, ((t + 1) * (t + 2) / 2)%nat) :: rho_walk n (t + 1) y ((2 * x + 3 * y) mod 5)%nat
  end.

Fixpoint offset_in (l : list (nat * nat * nat)) (x y : nat) : nat :=
  match l with
  | [] => 0
  | (a, b, o) :: l => if Nat.eqb a x && Nat.eqb b y then o else offset_in l x y
  end.

Definition offset (x y : nat) : nat := offset_in (rho_walk 24 0 1 0) x y.

Definition Rho (A : list (list bool)) : list (list bool) :=
  array (fun x y z => bit A x y (Z.to_nat ((Z.of_nat z - Z.of_nat (offset x y)) mod 64))).

(** 3.2.3 *)
Definition Pi (A : list (list bool)) : list (list bool) := array (fun x y z => bit A ((x + 3 * y) mod 5)%nat x z).

(** 3.2.4 *)
Definition Chi (A : list (list bool)) : list (list bool) :=
  array (fun x y z => xorb (bit A x y z) (xorb (bit A ((x + 1) mod 5)%nat y z) true && bit A ((x + 2) mod 5)%nat y z)).

(** 3.2.5: the shift register, its bits [R[0]] to [R[7]], after a step. *)
Definition lfsr (R : list bool) : list bool :=
  match R with
  | [r0; r1; r2; r3; r4; r5; r6; r7] => [r7; r0; r1; r2; xorb r3 r7; xorb r4 r7; xorb r5 r7; r6]
  | _ => R
  end.

Definition rc (t : nat) : bool :=
  if (t mod 255 =? 0)%nat then true
  else Nat.iter (t mod 255) lfsr [true; false; false; false; false; false; false; false] !!! 0%nat.

Definition RC (ir z : nat) : bool :=
  existsb (fun j => Nat.eqb z (2 ^ j - 1) && rc (j + 7 * ir)) (seq 0 7).

Definition Iota (ir : nat) (A : list (list bool)) : list (list bool) :=
  array (fun x y z => if Nat.eqb x 0 && Nat.eqb y 0 then xorb (bit A x y z) (RC ir z) else bit A x y z).

Definition Rnd (A : list (list bool)) (ir : nat) : list (list bool) := Iota ir (Chi (Pi (Rho (Theta A)))).

(** 3.1.2, 3.1.3 and 3.3: strings of 1600 bits to state arrays and back. *)
Definition to_array (S : list bool) : list (list bool) := array (fun x y z => S !!! (64 * (5 * y + x) + z)%nat).
Definition to_string (A : list (list bool)) : list bool := concat A.

Definition KECCAK_f (S : list bool) : list bool := to_string (fold_left Rnd (seq 0 24) (to_array S)).

(** ** The code computes the permutation *)

(** The array of the lanes of a state. *)
Definition bits64 (x : Z) : list bool := map (fun z => Z.testbit x (Z.of_nat z)) (seq 0 64).
Definition lanes (s : list Z) : list (list bool) := map bits64 s.

(** A state: 25 words. *)
Definition state_ok (s : list Z) : Prop := length s = 25%nat /\ Forall (fun x => 0 <= x < 2 ^ 64) s.

Lemma seq_lookup_total a n i : (i < n)%nat -> seq a n !!! i = (a + i)%nat.
Proof. intros. apply list_lookup_total_correct, lookup_seq. lia. Qed.

Lemma map_lookup_total {A B} `{Inhabited A, Inhabited B} (f : A -> B) l i : (i < length l)%nat -> map f l !!! i = f (l !!! i).
Proof.
  intros Hi. apply list_lookup_total_correct. rewrite list_lookup_fmap, list_lookup_lookup_total_lt by done. done.
Qed.

Lemma lane_index x y : (x < 5)%nat -> ((5 * y + x) mod 5 = x /\ (5 * y + x) / 5 = y)%nat.
Proof.
  intros. replace (5 * y + x)%nat with (x + y * 5)%nat by lia.
  rewrite Nat.Div0.mod_add, Nat.div_add, Nat.mod_small, Nat.div_small by lia. done.
Qed.

Lemma bit_array f x y z : (x < 5)%nat -> (y < 5)%nat -> (z < 64)%nat -> bit (array f) x y z = f x y z.
Proof.
  intros Hx Hy Hz. unfold bit, array. rewrite map_lookup_total by (rewrite length_seq; lia).
  rewrite map_lookup_total by (rewrite length_seq; lia). rewrite !seq_lookup_total by lia. cbn [Nat.add].
  destruct (lane_index x y Hx) as [-> ->]. done.
Qed.

Lemma array_ext f g : (forall x y z, (x < 5)%nat -> (y < 5)%nat -> (z < 64)%nat -> f x y z = g x y z) -> array f = array g.
Proof.
  intros E. unfold array. apply map_ext_in. intros k Hk%in_seq. apply map_ext_in. intros z Hz%in_seq.
  apply E; [apply Nat.mod_upper_bound; lia|apply Nat.Div0.div_lt_upper_bound; lia|lia].
Qed.

(** Lanes given by a function of the index. *)
Lemma lanes_array g : lanes (map g (seq 0 25)) = array (fun x y z => Z.testbit (g (5 * y + x)%nat) (Z.of_nat z)).
Proof.
  unfold lanes, array. rewrite map_map. apply map_ext. intros k. unfold bits64. apply map_ext. intros z.
  rewrite <- (Nat.div_mod_eq k 5). done.
Qed.

Lemma bit_lanes s x y z : length s = 25%nat -> (x < 5)%nat -> (y < 5)%nat -> (z < 64)%nat ->
  bit (lanes s) x y z = Z.testbit (s !!! (5 * y + x)%nat) (Z.of_nat z).
Proof.
  intros Ls Hx Hy Hz. unfold bit, lanes, bits64. rewrite map_lookup_total by lia.
  by rewrite map_lookup_total, seq_lookup_total by (rewrite ?length_seq; lia).
Qed.

(** *** Bits of the word operations *)

Lemma ROTR64_testbit x y z : 0 < y < 64 -> 0 <= z < 64 -> 0 <= x < 2 ^ 64 ->
  Z.testbit (ROTR64 x y) z = Z.testbit x ((z + y) mod 64).
Proof.
  intros Hy Hz Hx. unfold ROTR64, u64. rewrite Z.lor_spec, Z.mod_pow2_bits_low, Z.shiftr_spec by lia.
  destruct (Z.lt_ge_cases (z + y) 64).
  - rewrite Z.shiftl_spec_low, Z.mod_small by lia. done.
  - rewrite Z.shiftl_spec, (testbit_high 64 x (z + y)), orb_false_r by lia. f_equal.
    rewrite <- (Z.mod_add (z + y) (-1)) by lia. rewrite Z.mod_small by lia. lia.
Qed.

Lemma not64_testbit x z : 0 <= z < 64 -> Z.testbit (not64 x) z = negb (Z.testbit x z).
Proof.
  intros Hz. unfold not64. rewrite Z.lxor_spec. change 0xFFFFFFFFFFFFFFFF with (Z.ones 64).
  rewrite Z.ones_spec_low by lia. apply xorb_true_r.
Qed.

(** *** The steps, lane by lane *)

(** A state is its 25 words; the operations on words stay closed. *)
Ltac by_lanes s Ls tac :=
  do 25 (destruct s as [|? s]; [discriminate Ls|]); destruct s; [|discriminate Ls]; tac; reflexivity.

Definition C (s : list Z) (x : nat) : Z := column s x (x + 5) (x + 10) (x + 15) (x + 20).

Lemma theta_lanes s : length s = 25%nat ->
  theta_unrolled s = map (fun k => Z.lxor (s !!! k) (Z.lxor (C s ((k mod 5 + 4) mod 5)) (ROTR64 (C s ((k mod 5 + 1) mod 5)) 63))) (seq 0 25) /\
  theta_rolled s = theta_unrolled s.
Proof. intros Ls. split; by_lanes s Ls ltac:(cbv -[Z.lxor ROTR64]). Qed.

(** The rotation of each lane to the right, as the table has it. *)
Definition rotations : list Z :=
  0 :: concat (map (fun r => [MBEDTLS_BYTE_3 r; MBEDTLS_BYTE_2 r; MBEDTLS_BYTE_1 r; MBEDTLS_BYTE_0 r]) rho).

Lemma rho_lanes s : length s = 25%nat ->
  rho_unrolled s = map (fun k => if Nat.eqb k 0 then s !!! 0%nat else ROTR64 (s !!! k) (rotations !!! k)) (seq 0 25) /\
  rho_rolled s = rho_unrolled s.
Proof. intros Ls. split; by_lanes s Ls ltac:(cbv -[ROTR64]). Qed.

Lemma pi_lanes s : length s = 25%nat ->
  pi_unrolled s = map (fun k => s !!! (5 * (k mod 5) + (k mod 5 + 3 * (k / 5)) mod 5)%nat) (seq 0 25) /\
  pi_rolled s = pi_unrolled s.
Proof. intros Ls. split; by_lanes s Ls ltac:(cbv). Qed.

Lemma chi_lanes s : length s = 25%nat ->
  chi_unrolled s = map (fun k => Z.lxor (s !!! k)
    (Z.land (not64 (s !!! (5 * (k / 5) + (k mod 5 + 1) mod 5)%nat)) (s !!! (5 * (k / 5) + (k mod 5 + 2) mod 5)%nat))) (seq 0 25) /\
  chi_rolled s = chi_unrolled s.
Proof. intros Ls. split; by_lanes s Ls ltac:(cbv -[Z.lxor Z.land not64]). Qed.

Lemma iota_lanes s r : length s = 25%nat ->
  iota s r = map (fun k => if Nat.eqb k 0 then Z.lxor (s !!! 0%nat) (iota_mask r) else s !!! k) (seq 0 25).
Proof. intros Ls. by_lanes s Ls ltac:(cbv -[Z.lxor iota_mask]). Qed.

(** *** The steps are those of the standard *)

Lemma state_ok_map g : (forall k, (k < 25)%nat -> 0 <= g k < 2 ^ 64) -> state_ok (map g (seq 0 25)).
Proof.
  intros Hg. split; [done|]. apply Forall_map, Forall_forall. intros k [_ Hk]%elem_of_seq. apply Hg. lia.
Qed.

Lemma state_word s k : state_ok s -> 0 <= s !!! k < 2 ^ 64.
Proof.
  intros [_ F]. destruct (s !! k) as [x|] eqn:E.
  - rewrite (list_lookup_total_correct _ _ _ E). by apply (Forall_lookup_1 _ _ _ _ F E).
  - rewrite list_lookup_total_alt, E. cbn. lia.
Qed.

Lemma ROTR64_below x y : 0 <= y -> 0 <= x < 2 ^ 64 -> 0 <= ROTR64 x y < 2 ^ 64.
Proof. intros. apply lor_below; [lia|apply Z.mod_pos_bound; lia|by apply shiftr_below]. Qed.

Lemma not64_below x : 0 <= x < 2 ^ 64 -> 0 <= not64 x < 2 ^ 64.
Proof. intros. by apply lxor_below. Qed.

Lemma column_below s x : state_ok s -> 0 <= C s x < 2 ^ 64.
Proof. intros Hs. unfold C, column. repeat apply lxor_below; try lia; by apply state_word. Qed.

Create HintDb words discriminated.
#[local] Hint Resolve state_word ROTR64_below not64_below column_below lxor_below land_below : words.

Lemma index_mod5 k : (k mod 5 < 5)%nat.
Proof. apply Nat.mod_upper_bound. lia. Qed.

Lemma theta_ok s : state_ok s -> state_ok (theta_unrolled s) /\ lanes (theta_unrolled s) = Theta (lanes s).
Proof.
  intros Hs. destruct (theta_lanes s (proj1 Hs)) as [-> _]. split.
  { apply state_ok_map. intros k _. apply lxor_below; [lia|auto with words|]. apply lxor_below; auto with words lia. }
  rewrite lanes_array. apply array_ext. intros x y z Hx Hy Hz. destruct (lane_index x y Hx) as [-> _].
  rewrite !Z.lxor_spec, ROTR64_testbit by (auto with words || lia).
  assert (forall x z, (x < 5)%nat -> (z < 64)%nat -> Z.testbit (C s x) (Z.of_nat z) =
    xorb (xorb (xorb (xorb (bit (lanes s) x 0 z) (bit (lanes s) x 1 z)) (bit (lanes s) x 2 z)) (bit (lanes s) x 3 z)) (bit (lanes s) x 4 z)) as HC.
  { intros a b Ha Hb. rewrite !bit_lanes by (apply Hs || lia). unfold C, column. rewrite !Z.lxor_spec.
    by rewrite !(Nat.add_comm a). }
  rewrite <- (HC _ z), <- HC by (try apply index_mod5; try apply Nat.mod_upper_bound; lia).
  rewrite bit_lanes by (apply Hs || lia). do 3 f_equal. rewrite Nat2Z.inj_mod. f_equal. lia.
Qed.

Lemma rotations_ok x y : (x < 5)%nat -> (y < 5)%nat -> (5 * y + x <> 0)%nat ->
  0 < rotations !!! (5 * y + x)%nat < 64 /\
  (rotations !!! (5 * y + x)%nat + Z.of_nat (offset x y)) mod 64 = 0.
Proof.
  intros Hx Hy Hn.
  assert (forallb (fun x => forallb (fun y => Nat.eqb (5 * y + x) 0 || (let r := rotations !!! (5 * y + x)%nat in
    (0 <? r) && (r <? 64) && ((r + Z.of_nat (offset x y)) mod 64 =? 0))) (seq 0 5)) (seq 0 5) = true) as E by (vm_compute; done).
  rewrite forallb_forall in E. specialize (E x ltac:(apply in_seq; lia)). rewrite forallb_forall in E.
  specialize (E y ltac:(apply in_seq; lia)). apply orb_prop in E as [E%Nat.eqb_eq|E]; [done|]. cbv zeta in E. bool_to_prop. lia.
Qed.

Lemma rho_ok s : state_ok s -> state_ok (rho_unrolled s) /\ lanes (rho_unrolled s) = Rho (lanes s).
Proof.
  intros Hs. destruct (rho_lanes s (proj1 Hs)) as [-> _]. split.
  { apply state_ok_map. intros k Hk. destruct (Nat.eqb_spec k 0) as [->|Hn]; [auto with words|].
    apply ROTR64_below; [|auto with words]. rewrite (Nat.div_mod_eq k 5) in Hn |- *.
    destruct (rotations_ok (k mod 5) (k / 5)); [apply index_mod5|apply Nat.Div0.div_lt_upper_bound; lia|done|lia]. }
  rewrite lanes_array. apply array_ext. intros x y z Hx Hy Hz.
  assert (forall i, bit (lanes s) x y (Z.to_nat (i mod 64)) = Z.testbit (s !!! (5 * y + x)%nat) (i mod 64)) as HB.
  { intros i. pose proof (Z.mod_pos_bound i 64). rewrite bit_lanes by (apply Hs || lia). f_equal. lia. }
  rewrite HB. destruct (Nat.eqb_spec (5 * y + x) 0) as [E|Hn].
  - assert (x = 0%nat) as -> by lia. assert (y = 0%nat) as -> by lia. change (offset 0 0) with 0%nat.
    rewrite Z.sub_0_r, Z.mod_small by lia. done.
  - destruct (rotations_ok x y Hx Hy Hn) as [R M]. rewrite ROTR64_testbit by (auto with words || lia). f_equal.
    set (r := rotations !!! _) in *. set (o := Z.of_nat (offset x y)) in *. clearbody r o.
    apply Z.mod_divide in M; [|lia]. destruct M as [q M]. replace r with (- o + q * 64) by lia.
    rewrite Z.add_assoc, Z.mod_add by lia. done.
Qed.

Lemma pi_ok s : state_ok s -> state_ok (pi_unrolled s) /\ lanes (pi_unrolled s) = Pi (lanes s).
Proof.
  intros Hs. destruct (pi_lanes s (proj1 Hs)) as [-> _]. split; [apply state_ok_map; auto with words|].
  rewrite lanes_array. apply array_ext. intros x y z Hx Hy Hz. destruct (lane_index x y Hx) as [-> ->].
  by rewrite bit_lanes by (apply Hs || apply index_mod5 || lia).
Qed.

Lemma chi_ok s : state_ok s -> state_ok (chi_unrolled s) /\ lanes (chi_unrolled s) = Chi (lanes s).
Proof.
  intros Hs. destruct (chi_lanes s (proj1 Hs)) as [-> _]. split.
  { apply state_ok_map. intros k _. apply lxor_below; [lia|auto with words|]. apply land_below; auto with words lia. }
  rewrite lanes_array. apply array_ext. intros x y z Hx Hy Hz. destruct (lane_index x y Hx) as [-> ->].
  rewrite !bit_lanes by (apply Hs || apply index_mod5 || lia).
  by rewrite Z.lxor_spec, Z.land_spec, not64_testbit, xorb_true_r by lia.
Qed.

Lemma iota_mask_ok r : (r < 24)%nat -> 0 <= iota_mask r < 2 ^ 64 /\
  forall z, (z < 64)%nat -> Z.testbit (iota_mask r) (Z.of_nat z) = RC r z.
Proof.
  intros Hr.
  assert (forallb (fun r => (0 <=? iota_mask r) && (iota_mask r <? 2 ^ 64) &&
    forallb (fun z => Bool.eqb (Z.testbit (iota_mask r) (Z.of_nat z)) (RC r z)) (seq 0 64)) (seq 0 24) = true) as E by (vm_compute; done).
  rewrite forallb_forall in E. specialize (E r ltac:(apply in_seq; lia)). bool_to_prop.
  split; [lia|]. intros z Hz. rewrite forallb_forall in H1. apply eqb_prop, H1, in_seq. lia.
Qed.

Lemma iota_ok s r : (r < 24)%nat -> state_ok s -> state_ok (iota s r) /\ lanes (iota s r) = Iota r (lanes s).
Proof.
  intros Hr Hs. destruct (iota_mask_ok r Hr) as [Hm HR]. rewrite iota_lanes by apply Hs. split.
  { apply state_ok_map. intros k _. destruct (Nat.eqb k 0); [apply lxor_below; [lia|auto with words|done]|auto with words]. }
  rewrite lanes_array. apply array_ext. intros x y z Hx Hy Hz. rewrite bit_lanes by (apply Hs || lia).
  destruct (Nat.eqb_spec (5 * y + x) 0) as [E|E].
  - assert (x = 0%nat) as -> by lia. assert (y = 0%nat) as -> by lia. cbn [Nat.eqb andb]. by rewrite Z.lxor_spec, HR.
  - replace (Nat.eqb x 0 && Nat.eqb y 0) with false; [done|].
    destruct (Nat.eqb_spec x 0), (Nat.eqb_spec y 0); cbn; done || lia.
Qed.

(** Whatever is unrolled. *)
Lemma round_unrolling u s r : length s = 25%nat ->
  keccak_round u s r = iota (chi_unrolled (pi_unrolled (rho_unrolled (theta_unrolled s)))) r.
Proof.
  intros Ls. assert (forall g, length (map g (seq 0 25) : list Z) = 25%nat) as LM by (intros; by rewrite length_map).
  unfold keccak_round. destruct (theta_lanes s Ls) as [E ->]. replace (if THETA_UNROLL u then _ else _) with (theta_unrolled s) by by destruct u.(THETA_UNROLL).
  assert (length (theta_unrolled s) = 25%nat) as L1 by (rewrite E; apply LM). set (s1 := theta_unrolled s) in *. clearbody s1.
  destruct (rho_lanes s1 L1) as [E1 ->]. replace (if RHO_UNROLL u then _ else _) with (rho_unrolled s1) by by destruct u.(RHO_UNROLL).
  assert (length (rho_unrolled s1) = 25%nat) as L2 by (rewrite E1; apply LM). set (s2 := rho_unrolled s1) in *. clearbody s2.
  destruct (pi_lanes s2 L2) as [E2 ->]. replace (if PI_UNROLL u then _ else _) with (pi_unrolled s2) by by destruct u.(PI_UNROLL).
  assert (length (pi_unrolled s2) = 25%nat) as L3 by (rewrite E2; apply LM). set (s3 := pi_unrolled s2) in *. clearbody s3.
  destruct (chi_lanes s3 L3) as [_ ->]. by destruct u.(CHI_UNROLL).
Qed.

Lemma round_ok u s r : (r < 24)%nat -> state_ok s -> state_ok (keccak_round u s r) /\ lanes (keccak_round u s r) = Rnd (lanes s) r.
Proof.
  intros Hr Hs. rewrite round_unrolling by apply Hs. unfold Rnd.
  destruct (theta_ok s Hs) as [H1 <-]. destruct (rho_ok _ H1) as [H2 <-]. destruct (pi_ok _ H2) as [H3 <-].
  destruct (chi_ok _ H3) as [H4 <-]. by apply iota_ok.
Qed.

Lemma rounds_ok u n : forall r s, (r + n <= 24)%nat -> state_ok s ->
  state_ok (fold_left (keccak_round u) (seq r n) s) /\
  lanes (fold_left (keccak_round u) (seq r n) s) = fold_left Rnd (seq r n) (lanes s).
Proof.
  induction n as [|n IH]; intros r s Hr Hs; cbn [seq fold_left]; [done|].
  destruct (round_ok u s r ltac:(lia) Hs) as [H1 <-]. apply IH; [lia|done].
Qed.

(** The string of a state. *)
Definition bit_string (s : list Z) : list bool := to_string (lanes s).

Lemma bits64_length x : length (bits64 x) = 64%nat.
Proof. done. Qed.

Lemma concat_lookup_total (l : list (list bool)) k z : Forall (fun x => length x = 64%nat) l -> (k < length l)%nat -> (z < 64)%nat ->
  concat l !!! (64 * k + z)%nat = (l !!! k) !!! z.
Proof.
  intros F. revert k. induction F as [|x l Hx F IH]; intros k Hk Hz; cbn [length concat] in *; [lia|].
  destruct k as [|k].
  - rewrite lookup_total_app_l by lia. done.
  - rewrite lookup_total_app_r by lia. change ((x :: l) !!! S k) with (l !!! k). rewrite <- IH by lia. f_equal. lia.
Qed.

Lemma string_lookup s x y z : length s = 25%nat -> (x < 5)%nat -> (y < 5)%nat -> (z < 64)%nat ->
  bit_string s !!! (64 * (5 * y + x) + z)%nat = bit (lanes s) x y z.
Proof.
  intros Ls Hx Hy Hz. unfold bit_string, to_string, bit. apply concat_lookup_total; [|unfold lanes; rewrite length_map; lia|done].
  apply Forall_map, Forall_true. done.
Qed.

Lemma to_array_string s : length s = 25%nat -> to_array (bit_string s) = lanes s.
Proof.
  intros Ls. assert (lanes s = array (bit (lanes s))) as E.
  { rewrite <- (list_fmap_id s) at 1. replace (id <$> s) with (map (fun k => s !!! k) (seq 0 25)).
    - rewrite lanes_array. apply array_ext. intros. by rewrite bit_lanes.
    - do 25 (destruct s as [|? s]; [discriminate Ls|]); by destruct s. }
  rewrite E. apply array_ext. intros. by apply string_lookup.
Qed.

Lemma keccak_ok u s : state_ok s ->
  state_ok (keccak_f1600 u s) /\ bit_string (keccak_f1600 u s) = KECCAK_f (bit_string s).
Proof.
  intros Hs. destruct (rounds_ok u 24 0 s ltac:(lia) Hs) as [H1 H2]. split; [exact H1|].
  unfold KECCAK_f. rewrite to_array_string by apply Hs. rewrite <- H2. reflexivity.
Qed.

(** C24.  [keccak_f1600], however much of it is unrolled, maps a state to the one whose bits
    FIPS 202 prescribes: its rotations, its order of lanes and its packed round masks are the
    walk, the transposition and the shift register of the standard. *)
Theorem keccak_correct u s : state_ok s ->
  state_ok (keccak_f1600 u s) /\ bit_string (keccak_f1600 u s) = KECCAK_f (bit_string s).
Proof. apply keccak_ok. Qed.

Lemma keccak_correct_witness :
  state_ok (keccak_f1600 (Unrolling false true true true) (replicate 25 0)) /\
  bit_string (keccak_f1600 (Unrolling false true true true) (replicate 25 0)) = KECCAK_f (bit_string (replicate 25 0)).
Proof.
  apply (keccak_correct (Unrolling false true true true) (replicate 25 0)).
  split; [reflexivity|]. apply (bool_decide_unpack _). vm_compute. exact I.
Defined.
