(* ===== verification/Sha3.v ===== *)
(** * SHA-3

    [src/internal/mbedtls/sha3.c]: the sponge around the permutation of [Keccak], which
    absorbs its input byte by byte up to a word boundary, then word by word, then byte by
    byte, and the hash functions of FIPS 202, section 6.1, in bits as the standard has them. *)

From S2P Require Import Prelude Bytes BlockHash Keccak.

(** ** The code *)

Definition MBEDTLS_ERR_SHA3_BAD_INPUT_DATA : Z := -0x0076.

Definition MBEDTLS_SHA3_NONE : Z := 0.
Definition MBEDTLS_SHA3_224 : Z := 1.
Definition MBEDTLS_SHA3_256 : Z := 2.
Definition MBEDTLS_SHA3_384 : Z := 3.
Definition MBEDTLS_SHA3_512 : Z := 4.

Record mbedtls_sha3_context := Sha3Ctx {
  state : list Z; index : Z; olen : Z; max_block_size : Z
}.

Definition set_state (ctx : mbedtls_sha3_context) (s : list Z) : mbedtls_sha3_context :=
  Sha3Ctx s (index ctx) (olen ctx) (max_block_size ctx).
Definition set_index (ctx : mbedtls_sha3_context) (i : Z) : mbedtls_sha3_context :=
  Sha3Ctx (state ctx) i (olen ctx) (max_block_size ctx).

Definition XOR_BYTE : Z := 0x6.

Definition sha3_zeroed : mbedtls_sha3_context := Sha3Ctx (replicate 25 0) 0 0 0.
Definition mbedtls_sha3_init (_ : mbedtls_sha3_context) : mbedtls_sha3_context := sha3_zeroed.
Definition mbedtls_sha3_free (ctx : option mbedtls_sha3_context) : option mbedtls_sha3_context :=
  match ctx with None => None | Some _ => Some sha3_zeroed end.
Definition mbedtls_sha3_clone (dst src : mbedtls_sha3_context) : mbedtls_sha3_context := src.

(** [ctx->state[idx >> 3] ^= (uint64_t) v << ((idx & 7) << 3)]. *)
Definition ABSORB (ctx : mbedtls_sha3_context) (idx v : Z) : outcome mbedtls_sha3_context :=
  let i := Z.shiftr idx 3 in
  if (0 <=? i) && (i <? zlen (state ctx)) then
    let i := Z.to_nat i in
    Done (set_state ctx (<[i := Z.lxor (state ctx !!! i) (u64 (Z.shiftl v (Z.shiftl (Z.land idx 0x7) 3)))]> (state ctx)))
  else Fault.

Definition SQUEEZE (ctx : mbedtls_sha3_context) (idx : Z) : outcome Z :=
  let i := Z.shiftr idx 3 in
  if (0 <=? i) && (i <? zlen (state ctx)) then
    Done (u8 (Z.shiftr (state ctx !!! Z.to_nat i) (Z.shiftl (Z.land idx 0x7) 3)))
  else Fault.

Section code.
Context (u : unrolling).

(** [if ((ctx->index = (ctx->index + n) % ctx->max_block_size) == 0) keccak_f1600(ctx);]
    The remainder by zero is undefined: the context was not started. *)
Definition advance (ctx : mbedtls_sha3_context) (n : Z) : outcome mbedtls_sha3_context :=
  if max_block_size ctx =? 0 then Fault else
  let ctx := set_index ctx (u32 (index ctx + n) mod max_block_size ctx) in
  mret (if index ctx =? 0 then set_state ctx (keccak_f1600 u (state ctx)) else ctx).

Definition mbedtls_sha3_starts (ctx : mbedtls_sha3_context) (id : Z) : Z * mbedtls_sha3_context :=
  let start d r := (0, Sha3Ctx (replicate 25 0) 0 (d / 8) (r / 8)) in
  if id =? MBEDTLS_SHA3_224 then start 224 1152
  else if id =? MBEDTLS_SHA3_256 then start 256 1088
  else if id =? MBEDTLS_SHA3_384 then start 384 832
  else if id =? MBEDTLS_SHA3_512 then start 512 576
  else (MBEDTLS_ERR_SHA3_BAD_INPUT_DATA, ctx).

(** [for (; align_bytes > 0; align_bytes--)], which does not reduce the index. *)
Fixpoint align_loop (align_bytes : nat) (ctx : mbedtls_sha3_context) (input : list Z) (off ilen : Z)
    : outcome (mbedtls_sha3_context * Z * Z) :=
  match align_bytes with
  | O => mret (ctx, off, ilen)
  | S align_bytes =>
      b ← load8 input off;
      ctx ← ABSORB ctx (index ctx) b;
      align_loop align_bytes (set_index ctx (u32 (index ctx + 1))) input (off + 1) (size_sub ilen 1)
  end.

Fixpoint chunk_loop (fuel : nat) (ctx : mbedtls_sha3_context) (input : list Z) (off ilen : Z)
    : outcome (mbedtls_sha3_context * Z * Z) :=
  match fuel with
  | O => NoFuel
  | S fuel =>
      if ilen >=? 8 then
        v ← MBEDTLS_GET_UINT64_LE input off;
        ctx ← ABSORB ctx (index ctx) v;
        ctx ← advance ctx 8;
        chunk_loop fuel ctx input (off + 8) (size_sub ilen 8)
      else mret (ctx, off, ilen)
  end.

Fixpoint byte_loop (fuel : nat) (ctx : mbedtls_sha3_context) (input : list Z) (off ilen : Z)
    : outcome mbedtls_sha3_context :=
  match fuel with
  | O => NoFuel
  | S fuel =>
      if ilen >? 0 then
        b ← load8 input off;
        ctx ← ABSORB ctx (index ctx) b;
        ctx ← advance ctx 1;
        byte_loop fuel ctx input (off + 1) (size_sub ilen 1)
      else mret ctx
  end.

Definition mbedtls_sha3_update (ctx : mbedtls_sha3_context) (input : list Z) (ilen : Z)
    : outcome (Z * mbedtls_sha3_context) :=
  '(ctx, off, ilen) ←
    (if ilen >=? 8 then
       let align_bytes := 8 - index ctx mod 8 in
       '(ctx, off, ilen) ←
         (if negb (align_bytes =? 0) then
            '(ctx, off, ilen) ← align_loop (Z.to_nat align_bytes) ctx input 0 ilen;
            ctx ← advance ctx 0;
            mret (ctx, off, ilen)
          else mret (ctx, 0, ilen));
       chunk_loop (Z.to_nat (ilen / 8 + 1)) ctx input off ilen
     else mret (ctx, 0, ilen));
  ctx ← byte_loop (Z.to_nat (ilen + 1)) ctx input off ilen;
  mret (0, ctx).

Fixpoint squeeze_loop (n : nat) (ctx : mbedtls_sha3_context) (output : list Z) (off : Z)
    : outcome (mbedtls_sha3_context * list Z) :=
  match n with
  | O => mret (ctx, output)
  | S n =>
      b ← SQUEEZE ctx (index ctx);
      output ← store output off [b];
      ctx ← advance ctx 1;
      squeeze_loop n ctx output (off + 1)
  end.

(** The context is zeroed at the end, also after an error. *)
Definition mbedtls_sha3_finish (ctx : mbedtls_sha3_context) (output : list Z) (olen' : Z)
    : outcome (Z * mbedtls_sha3_context * list Z) :=
  if (olen ctx >? 0) && (olen ctx >? olen') then mret (MBEDTLS_ERR_SHA3_BAD_INPUT_DATA, sha3_zeroed, output) else
  let olen' := if olen ctx >? 0 then olen ctx else olen' in
  ctx ← ABSORB ctx (index ctx) XOR_BYTE;
  ctx ← ABSORB ctx (max_block_size ctx - 1) 0x80;
  let ctx := set_state ctx (keccak_f1600 u (state ctx)) in
  let ctx := set_index ctx 0 in
  '(ctx, output) ← squeeze_loop (Z.to_nat olen') ctx output 0;
  mret (0, sha3_zeroed, output).

Definition mbedtls_sha3 (id : Z) (input : list Z) (ilen : Z) (output : list Z) (olen' : Z)
    : outcome (Z * list Z) :=
  let ctx := mbedtls_sha3_init sha3_zeroed in
  let '(ret, ctx) := mbedtls_sha3_starts ctx id in
  if negb (ret =? 0) then mret (ret, output) else
  '(ret, ctx) ← mbedtls_sha3_update ctx input ilen;
  if negb (ret =? 0) then mret (ret, output) else
  '(ret, ctx, output) ← mbedtls_sha3_finish ctx output olen';
  mret (ret, output).

End code.

(** ** FIPS 202 *)

(** Bytes as strings of bits, the lowest bit first (B.1). *)
Definition bits (n : nat) (x : Z) : list bool := map (fun z => Z.testbit x (Z.of_nat z)) (seq 0 n).
Definition to_bits (m : list Z) : list bool := concat (map (bits 8) m).

Fixpoint number (l : list bool) : Z := match l with [] => 0 | b :: l => Z.b2z b + 2 * number l end.
Fixpoint of_bits (n : nat) (l : list bool) : list Z :=
  match n with O => [] | S n => number (take 8 l) :: of_bits n (drop 8 l) end.

(** 5.1 *)
Definition pad10_1 (x m : Z) : list bool := true :: replicate (Z.to_nat ((- m - 2) mod x)) false ++ [true].

(** Section 4 *)
Definition xor_block (S P : list bool) : list bool := zip_with xorb S (P ++ replicate (1600 - length P) false).

Fixpoint absorb (n r : nat) (S P : list bool) : list bool :=
  match n with
  | O => S
  | Datatypes.S n => absorb n r (KECCAK_f (xor_block S (take r P))) (drop r P)
  end.

Fixpoint squeeze (n r : nat) (S : list bool) : list bool :=
  match n with O => [] | Datatypes.S n => take r S ++ squeeze n r (KECCAK_f S) end.

Definition SPONGE (r : nat) (N : list bool) (d : nat) : list bool :=
  let P := N ++ pad10_1 (Z.of_nat r) (zlen N) in
  let S := absorb (length P / r) r (replicate 1600 false) P in
  take d (squeeze ((d + r - 1) / r) r S).

(** 5.2 and 6.1: SHA3-224, SHA3-256, SHA3-384 and SHA3-512. *)
Definition KECCAK (c : nat) (N : list bool) (d : nat) : list bool := SPONGE (1600 - c) N d.
Definition SHA3 (d : nat) (M : list bool) : list bool := KECCAK (2 * d) (M ++ [false; true]) d.

Definition sha3 (d : nat) (m : list Z) : list Z := of_bits (d / 8) (SHA3 d (to_bits m)).

(** ** Strings and words *)

(** [P] combined into [S] from the bit [o] on. *)
Definition xor_at (o : nat) (P S : list bool) : list bool :=
  map (fun i => xorb (S !!! i) (bool_decide (o <= i < o + length P)%nat && (P !!! (i - o)%nat))) (seq 0 1600).

Lemma xor_at_length o P S : length (xor_at o P S) = 1600%nat.
Proof. unfold xor_at. by rewrite length_map, length_seq. Qed.

Lemma xor_at_lookup o P S i : (i < 1600)%nat ->
  xor_at o P S !!! i = xorb (S !!! i) (bool_decide (o <= i < o + length P)%nat && (P !!! (i - o)%nat)).
Proof. intros Hi. unfold xor_at. by rewrite map_lookup_total, seq_lookup_total by (rewrite ?length_seq; lia). Qed.

(** Strings of a state are equal when their bits are. *)
Lemma string_ext (S T : list bool) : length S = 1600%nat -> length T = 1600%nat ->
  (forall i, (i < 1600)%nat -> S !!! i = T !!! i) -> S = T.
Proof.
  intros HS HT E. apply list_eq_same_length with 1600%nat; [done..|]. intros i x y Hi Sx Ty.
  apply list_lookup_total_correct in Sx, Ty. rewrite <- Sx, <- Ty. by apply E.
Qed.

Ltac in_range :=
  repeat match goal with
  | |- context [bool_decide ?P] => first [rewrite (bool_decide_true P) by lia | rewrite (bool_decide_false P) by lia]
  end.

Lemma xor_at_app o P Q S : xor_at (o + length P) Q (xor_at o P S) = xor_at o (P ++ Q) S.
Proof.
  apply string_ext; [apply xor_at_length..|]. intros i Hi. rewrite !xor_at_lookup, length_app by done.
  destruct (decide (i < o)%nat); [in_range; by rewrite !xorb_false_r|].
  destruct (decide (i < o + length P)%nat).
  - in_range. rewrite lookup_total_app_l by lia. by rewrite !xorb_false_r.
  - destruct (decide (i < o + length P + length Q)%nat); in_range; cbn [andb]; [|by rewrite !xorb_false_r].
    rewrite lookup_total_app_r, xorb_false_r by lia. do 2 f_equal. lia.
Qed.

Lemma xor_at_nil o S : length S = 1600%nat -> xor_at o [] S = S.
Proof.
  intros LS. apply string_ext; [apply xor_at_length|done|]. intros i Hi. rewrite xor_at_lookup by done.
  cbn [length]. in_range. apply xorb_false_r.
Qed.

Lemma xor_block_at S P : length S = 1600%nat -> (length P <= 1600)%nat -> xor_block S P = xor_at 0 P S.
Proof.
  intros LS LP. unfold xor_block. assert (length (P ++ replicate (1600 - length P) false) = 1600%nat) as L
    by (rewrite length_app, length_replicate; lia).
  apply string_ext; [rewrite length_zip_with; lia|apply xor_at_length|]. intros i Hi.
  rewrite xor_at_lookup by done. rewrite (lookup_total_zip_with xorb) by lia. f_equal.
  destruct (decide (i < length P)%nat); in_range; cbn [andb].
  - rewrite lookup_total_app_l by lia. f_equal. lia.
  - rewrite lookup_total_app_r by lia. apply list_lookup_total_correct, lookup_replicate. split; [done|lia].
Qed.

Lemma string_bit s i : length s = 25%nat -> (i < 1600)%nat ->
  bit_string s !!! i = Z.testbit (s !!! (i / 64)%nat) (Z.of_nat (i mod 64)).
Proof.
  intros Ls Hi. pose proof (Nat.mod_upper_bound i 64 ltac:(lia)) as Hz.
  assert (i / 64 < 25)%nat as Hk by (apply Nat.Div0.div_lt_upper_bound; lia).
  rewrite (Nat.div_mod_eq i 64) at 1. unfold bit_string, to_string. rewrite concat_lookup_total.
  - unfold lanes. rewrite map_lookup_total by lia. unfold bits64. by rewrite map_lookup_total, seq_lookup_total by (rewrite ?length_seq; lia).
  - apply Forall_map, Forall_true. done.
  - unfold lanes. rewrite length_map. lia.
  - done.
Qed.

Lemma string_length s : length s = 25%nat -> length (bit_string s) = 1600%nat.
Proof.
  intros Ls. do 25 (destruct s as [|? s]; [discriminate Ls|]). destruct s; [|discriminate Ls]. reflexivity.
Qed.

Lemma bits_length n x : length (bits n x) = n.
Proof. unfold bits. by rewrite length_map, length_seq. Qed.

Lemma bits_lookup n x i : (i < n)%nat -> bits n x !!! i = Z.testbit x (Z.of_nat i).
Proof. intros. unfold bits. by rewrite map_lookup_total, seq_lookup_total by (rewrite ?length_seq; lia). Qed.

(** The index of a byte as word and bit. *)
Lemma index_split idx : 0 <= idx -> Z.shiftr idx 3 = idx / 8 /\ Z.shiftl (Z.land idx 0x7) 3 = 8 * (idx mod 8).
Proof.
  intros. rewrite Z.shiftr_div_pow2, Z.shiftl_mul_pow2 by lia. change 0x7 with (Z.ones 3).
  rewrite Z.land_ones by lia. change (2 ^ 3) with 8. lia.
Qed.

Lemma ABSORB_spec ctx idx (n : nat) v : state_ok (state ctx) -> 0 <= idx < 200 -> idx mod 8 + Z.of_nat n <= 8 ->
  0 <= v < 2 ^ (8 * Z.of_nat n) ->
  exists s, ABSORB ctx idx v = Done (set_state ctx s) /\ state_ok s /\
    bit_string s = xor_at (Z.to_nat (8 * idx)) (bits (8 * n) v) (bit_string (state ctx)).
Proof.
  intros [Ls Fs] Hi Hn Hv. unfold ABSORB. destruct (index_split idx) as [-> ->]; [lia|].
  assert (0 <= idx / 8 < 25) as Hk by (split; [apply Z.div_pos|apply Z.div_lt_upper_bound]; lia).
  assert (0 <= 8 * (idx mod 8) <= 56) as Hz by (pose proof (Z.mod_pos_bound idx 8); lia).
  unfold zlen. rewrite Ls. rewrite (proj2 (Z.leb_le 0 _)), (proj2 (Z.ltb_lt _ _)) by lia. cbn [andb].
  set (k := Z.to_nat (idx / 8)). set (z := 8 * (idx mod 8)) in *.
  assert (0 <= u64 (Z.shiftl v z) < 2 ^ 64) as Hw by (apply Z.mod_pos_bound; lia). eexists. split; [reflexivity|].
  assert (length (<[k := Z.lxor (state ctx !!! k) (u64 (Z.shiftl v z))]> (state ctx)) = 25%nat) as Ls' by (by rewrite length_insert).
  split; [split; [done|]|].
  { apply Forall_insert; [done|]. apply lxor_below; [lia| |done]. apply state_word. done. }
  apply string_ext; [by apply string_length|apply xor_at_length|]. intros i Hi1.
  rewrite xor_at_lookup, !string_bit, bits_length by done.
  assert (idx = 8 * (idx / 8) + idx mod 8) as Ei by (apply Z.div_mod; lia).
  pose proof (Nat.div_mod_eq i 64) as E64. pose proof (Nat.mod_upper_bound i 64 ltac:(lia)) as Hm.
  destruct (decide (i / 64 = k)%nat) as [Ek|Hne]; [rewrite Ek in *|].
  - rewrite list_lookup_total_insert_eq by lia. rewrite Z.lxor_spec. f_equal.
    unfold u64. rewrite Z.mod_pow2_bits_low by lia.
    destruct (Z.lt_ge_cases (Z.of_nat (i mod 64)) z).
    + rewrite Z.shiftl_spec_low by lia. in_range. done.
    + rewrite Z.shiftl_spec by lia. destruct (Z.lt_ge_cases (Z.of_nat (i mod 64) - z) (8 * Z.of_nat n)).
      * in_range. cbn [andb]. rewrite bits_lookup by lia. f_equal. lia.
      * in_range. cbn [andb]. apply (testbit_high (8 * Z.of_nat n)); [lia|done].
  - rewrite list_lookup_total_insert_ne by done. in_range. cbn [andb]. by rewrite xorb_false_r.
Qed.

Lemma to_bits_app m c : to_bits (m ++ c) = to_bits m ++ to_bits c.
Proof. unfold to_bits. by rewrite map_app, concat_app. Qed.

Lemma to_bits_length m : length (to_bits m) = (8 * length m)%nat.
Proof.
  induction m as [|b m IH]; [done|]. change (to_bits (b :: m)) with (bits 8 b ++ to_bits m).
  rewrite length_app, bits_length, IH. cbn [length]. lia.
Qed.

Lemma bits_le l : is_bytes l -> bits (8 * length l) (le l) = to_bits l.
Proof.
  intros Hl. apply list_eq_same_length with (8 * length l)%nat; [apply to_bits_length|apply bits_length|].
  intros i x y Hi Sx Ty. apply list_lookup_total_correct in Sx, Ty. rewrite <- Sx, <- Ty, bits_lookup by done.
  clear x y Sx Ty. revert i Hi. induction Hl as [|b l Hb Hl IH]; intros i Hi; cbn [length] in Hi; [lia|].
  change (to_bits (b :: l)) with (bits 8 b ++ to_bits l). cbn [le]. unfold is_byte in Hb.
  replace (b + 2 ^ 8 * le l) with (le l * 2 ^ 8 + b) by lia. rewrite <- lor_shiftl_add, Z.lor_spec by lia.
  destruct (decide (i < 8)%nat).
  - rewrite lookup_total_app_l, bits_lookup, Z.shiftl_spec_low by (rewrite ?bits_length; lia). done.
  - rewrite lookup_total_app_r, bits_length, <- IH, Z.shiftl_spec by (rewrite ?bits_length; lia).
    rewrite (testbit_high 8 b), orb_false_r by lia. f_equal. lia.
Qed.

(** ** Absorbing *)

Lemma array_length f : length (concat (array f)) = 1600%nat.
Proof. reflexivity. Qed.

Lemma KECCAK_f_length S : length (KECCAK_f S) = 1600%nat.
Proof.
  unfold KECCAK_f, to_string. change (seq 0 24) with (seq 0 23 ++ [23%nat]). rewrite fold_left_app. cbn [fold_left].
  unfold Rnd at 1, Iota. apply array_length.
Qed.

Lemma absorb_length n r S P : length S = 1600%nat -> length (absorb n r S P) = 1600%nat.
Proof. revert S P. induction n as [|n IH]; intros S P LS; [done|]. apply IH, KECCAK_f_length. Qed.

Lemma absorb_snoc n r S P :
  absorb (n + 1) r S P = KECCAK_f (xor_block (absorb n r S P) (take r (drop (n * r) P))).
Proof.
  revert S P. induction n as [|n IH]; intros S P; [done|]. cbn [Nat.add absorb]. rewrite IH, drop_drop. done.
Qed.

Lemma absorb_prefix n r S P Q : (n * r <= length P)%nat -> absorb n r S (P ++ Q) = absorb n r S P.
Proof.
  revert S P. induction n as [|n IH]; intros S P L; [done|]. cbn [absorb].
  rewrite take_app_le, drop_app_le by lia. apply IH. rewrite length_drop. lia.
Qed.

Section absorbing.
Context (u : unrolling) (R : Z) (HR : 8 <= R < 200) (HR8 : R mod 8 = 0).
Local Notation r := (Z.to_nat (8 * R)).

(** The whole blocks of a message, absorbed, and what is left of it. *)
Definition base (m : list Z) : list bool := absorb (Z.to_nat (zlen m / R)) r (replicate 1600 false) (to_bits m).
Definition rest (m : list Z) : list Z := zdrop (zlen m / R * R) m.

Lemma blocks_bound (m : list Z) : 0 <= zlen m / R /\ zlen m = zlen m / R * R + zlen m mod R /\ 0 <= zlen m mod R < R.
Proof using HR.
  pose proof (zlen_nonneg m). split; [apply Z.div_pos; lia|]. split; [|apply Z.mod_pos_bound; lia].
  rewrite (Z.mul_comm _ R). apply Z.div_mod. lia.
Qed.

Lemma base_length m : length (base m) = 1600%nat.
Proof. apply absorb_length. done. Qed.

Lemma rest_length m : zlen (rest m) = zlen m mod R.
Proof using HR. destruct (blocks_bound m) as (? & E & ?). unfold rest. rewrite zlen_zdrop; lia. Qed.

(** A piece that does not reach the end of the block. *)
Lemma base_short m c : zlen m mod R + zlen c < R -> base (m ++ c) = base m /\ rest (m ++ c) = rest m ++ c.
Proof using HR.
  intros Hc. destruct (blocks_bound m) as (Hq & E & ?). pose proof (zlen_nonneg c).
  assert (zlen (m ++ c) / R = zlen m / R) as Ed.
  { rewrite zlen_app. symmetry. apply Z.div_unique with (zlen m mod R + zlen c); lia. }
  unfold base, rest. rewrite Ed. split.
  - rewrite to_bits_app. apply absorb_prefix. rewrite to_bits_length. unfold zlen in *. nia.
  - apply zdrop_app_l. lia.
Qed.

(** A piece that completes it. *)
Lemma base_full m c : zlen m mod R + zlen c = R ->
  base (m ++ c) = KECCAK_f (xor_at 0 (to_bits (rest m ++ c)) (base m)) /\ rest (m ++ c) = [].
Proof using HR.
  intros Hc. destruct (blocks_bound m) as (Hq & E & ?). pose proof (zlen_nonneg c).
  assert (zlen (m ++ c) / R = zlen m / R + 1) as Ed.
  { rewrite zlen_app. symmetry. apply Z.div_unique with 0; lia. }
  assert (length (to_bits (rest m ++ c)) = r) as Lb.
  { rewrite to_bits_length, length_app. pose proof (rest_length m). unfold zlen in *. lia. }
  unfold base, rest. rewrite Ed. split; [|apply zdrop_all; rewrite zlen_app; lia].
  rewrite Z2Nat.inj_add by lia. change (Z.to_nat 1) with 1%nat. rewrite absorb_snoc.
  assert (m ++ c = ztake (zlen m / R * R) m ++ (rest m ++ c)) as Em by (unfold rest; by rewrite app_assoc, ztake_zdrop).
  assert (length (to_bits (ztake (zlen m / R * R) m)) = (Z.to_nat (zlen m / R) * r)%nat) as Lt.
  { rewrite to_bits_length. assert (zlen (ztake (zlen m / R * R) m) = zlen m / R * R) as L by (rewrite zlen_ztake; lia).
    unfold zlen in L. unfold zlen. nia. }
  rewrite (to_bits_app m c) at 1. rewrite absorb_prefix by (rewrite to_bits_length; unfold zlen in *; nia).
  rewrite xor_block_at by (rewrite ?absorb_length, ?length_take by done; lia).
  apply (f_equal (fun P => KECCAK_f (xor_at 0 P _))).
  rewrite Em, to_bits_app, drop_app_length' by done. apply (take_ge (to_bits (rest m ++ c))). rewrite Lb. done.
Qed.

Record absorbing (m : list Z) (d : Z) (ctx : mbedtls_sha3_context) : Prop := {
  a_index : index ctx = zlen m mod R;
  a_block : max_block_size ctx = R;
  a_olen : olen ctx = d;
  a_state : state_ok (state ctx);
  a_string : bit_string (state ctx) = xor_at 0 (to_bits (rest m)) (base m)
}.

(** Moving the index past a piece whose bits are in the state. *)
Lemma advance_spec m d ctx c ctx1 n : absorbing m d ctx -> 0 < zlen c -> zlen m mod R + zlen c <= R ->
  state_ok (state ctx1) -> bit_string (state ctx1) = xor_at (Z.to_nat (8 * index ctx)) (to_bits c) (bit_string (state ctx)) ->
  max_block_size ctx1 = R -> olen ctx1 = d -> index ctx1 + n = zlen m mod R + zlen c ->
  exists ctx', advance u ctx1 n = Done ctx' /\ absorbing (m ++ c) d ctx'.
Proof using HR.
  intros [Ai Ab Ao As At] Hc Hr Hs Hstr HB HO Hi. pose proof (rest_length m) as Lr. destruct (blocks_bound m) as (Hq & E & Hm).
  unfold advance. rewrite HB, (proj2 (Z.eqb_neq R 0)) by lia. unfold u32. rewrite (Z.mod_small _ (2 ^ 32)) by lia.
  assert ((index ctx1 + n) mod R = zlen (m ++ c) mod R) as EI.
  { rewrite Hi, zlen_app. rewrite Z.add_mod_idemp_l by lia. done. }
  assert (bit_string (state ctx1) = xor_at 0 (to_bits (rest m ++ c)) (base m)) as ES.
  { rewrite Hstr, At, Ai, to_bits_app, <- xor_at_app. f_equal. rewrite to_bits_length. unfold zlen in *. lia. }
  eexists. split; [reflexivity|]. cbn [set_index index]. rewrite EI. destruct (Z.eq_dec (zlen m mod R + zlen c) R) as [Ef|Hne].
  - destruct (base_full m c Ef) as [Eb Er]. assert (zlen (m ++ c) mod R = 0) as E0 by (rewrite <- EI, Hi, Ef; apply Z.mod_same; lia).
    rewrite E0. cbn [Z.eqb]. destruct (keccak_ok u (state ctx1) Hs) as [K1 K2].
    split; cbn [set_state set_index index state max_block_size olen]; try done.
    rewrite Er. change (to_bits []) with (@nil bool). rewrite xor_at_nil by apply base_length.
    rewrite Eb, <- ES. exact K2.
  - destruct (base_short m c ltac:(lia)) as [Eb Er].
    assert (zlen (m ++ c) mod R <> 0) as E0 by (rewrite <- EI, Hi, Z.mod_small; lia).
    rewrite (proj2 (Z.eqb_neq _ _) E0). split; cbn [set_state set_index index state max_block_size olen]; try done.
    rewrite Er, Eb. exact ES.
Qed.

Lemma mod_multiple_sum (m : list Z) c : (zlen m + c) mod R mod 8 = (zlen m + c) mod 8.
Proof using HR HR8.
  assert (R = 8 * (R / 8)) as ER by (apply Z.div_exact; lia). rewrite ER.
  apply mod_multiple; [lia|]. apply Z.div_str_pos. lia.
Qed.

(** A byte, or eight of them from a word boundary on. *)
Lemma step_spec m d ctx c n : absorbing m d ctx -> is_bytes c -> zlen c = n -> 0 < n -> (zlen m mod R) mod 8 + n <= 8 ->
  exists ctx1, ABSORB ctx (index ctx) (le c) = Done ctx1 /\
  exists ctx', advance u ctx1 n = Done ctx' /\ absorbing (m ++ c) d ctx'.
Proof using HR HR8.
  intros HA Hc Ln Hn H8. pose proof HA as [Ai Ab Ao As At]. destruct (blocks_bound m) as (_ & _ & Hm).
  assert (zlen m mod R + n <= R) as Hle by (Z.div_mod_to_equations; lia).
  destruct (ABSORB_spec ctx (index ctx) (length c) (le c)) as (s & E & Hs & Hst); [done|lia|rewrite Ai; unfold zlen in *; lia|by apply le_range|].
  exists (set_state ctx s). split; [exact E|].
  apply (advance_spec m d ctx c); cbn [set_state state index max_block_size olen]; try done; try lia.
  rewrite Hst, bits_le by done. done.
Qed.

Lemma load8_piece (input : list Z) off : 0 <= off < zlen input -> is_bytes input ->
  exists b, load8 input off = Done b /\ is_byte b /\ ztake 1 (zdrop off input) = [b].
Proof.
  intros Ho Hb. exists (input !!! Z.to_nat off). rewrite load8_Done by done.
  rewrite zdrop_cons by done. split; [done|]. split; [|done].
  apply (Forall_lookup_total_1 is_byte); [done|unfold zlen in *; lia].
Qed.

Lemma byte_loop_spec input d : is_bytes input -> forall fuel m ctx off n, absorbing m d ctx -> 0 <= off -> 0 <= n ->
  off + n <= zlen input -> n < 2 ^ 64 -> n < Z.of_nat fuel ->
  exists ctx', byte_loop u fuel ctx input off n = Done ctx' /\ absorbing (m ++ ztake n (zdrop off input)) d ctx'.
Proof using HR HR8.
  intros Bi. induction fuel as [|fuel IH]; intros m ctx off n HA Ho Hn Hl H64 Hf; [lia|]. cbn [byte_loop].
  rewrite Z.gtb_ltb. destruct (Z.ltb_spec 0 n).
  - destruct (load8_piece input off ltac:(lia) Bi) as (b & -> & Hb & Hp). rewrite bind_Done.
    destruct (step_spec m d ctx [b] 1) as (ctx1 & E1 & ctx2 & E2 & HA2); [done|by constructor|done|lia| |].
    { pose proof (Z.mod_pos_bound (zlen m mod R) 8). lia. }
    replace (le [b]) with b in E1 by (cbn; lia). rewrite E1, bind_Done, E2, bind_Done, size_sub_le by lia.
    destruct (IH (m ++ [b]) ctx2 (off + 1) (n - 1)) as (ctx3 & E3 & HA3); [done|lia..|].
    exists ctx3. split; [exact E3|]. replace n with (1 + (n - 1)) by lia.
    rewrite ztake_add, Hp, zdrop_zdrop, (app_assoc m) by lia. exact HA3.
  - exists ctx. split; [done|]. replace n with 0 by lia. by rewrite ztake_0, app_nil_r.
Qed.

Lemma chunk_loop_spec input d : is_bytes input -> forall fuel m ctx off n, absorbing m d ctx -> (zlen m mod R) mod 8 = 0 ->
  0 <= off -> 0 <= n -> off + n <= zlen input -> n < 2 ^ 64 -> n / 8 < Z.of_nat fuel ->
  exists ctx', chunk_loop u fuel ctx input off n = Done (ctx', off + n / 8 * 8, n mod 8) /\
    absorbing (m ++ ztake (n / 8 * 8) (zdrop off input)) d ctx'.
Proof using HR HR8.
  intros Bi. induction fuel as [|fuel IH]; intros m ctx off n HA H8 Ho Hn Hl H64 Hf; [Z.div_mod_to_equations; lia|].
  cbn [chunk_loop]. rewrite Z.geb_leb. destruct (Z.leb_spec 8 n).
  - unfold MBEDTLS_GET_UINT64_LE. rewrite load_Done, !bind_Done by lia.
    set (c := ztake 8 (zdrop off input)). assert (zlen c = 8) as Lc by (unfold c; rewrite zlen_ztake; rewrite ?zlen_zdrop; lia).
    destruct (step_spec m d ctx c 8) as (ctx1 & E1 & ctx2 & E2 & HA2); [done|unfold c; auto with zlist|done|lia|lia|].
    rewrite E1, bind_Done, E2, bind_Done, size_sub_le by lia.
    assert (n / 8 = 1 + (n - 8) / 8) as Ed by (Z.div_mod_to_equations; lia).
    assert (n mod 8 = (n - 8) mod 8) as Em by (Z.div_mod_to_equations; lia).
    destruct (IH (m ++ c) ctx2 (off + 8) (n - 8)) as (ctx3 & E3 & HA3); [done| |lia..|].
    { rewrite zlen_app, Lc, mod_multiple_sum. Z.div_mod_to_equations; lia. }
    exists ctx3. rewrite E3, Em. split; [do 3 f_equal; lia|].
    assert (0 <= (n - 8) / 8) by (apply Z.div_pos; lia).
    replace (n / 8 * 8) with (8 + (n - 8) / 8 * 8) by lia. rewrite ztake_add, zdrop_zdrop, (app_assoc m) by lia. exact HA3.
  - exists ctx. rewrite Z.div_small, Z.mod_small, Z.mul_0_l, ztake_0, app_nil_r by lia. split; [do 3 f_equal; lia|done].
Qed.

Lemma align_loop_spec input : is_bytes input -> forall (k : nat) ctx off n, state_ok (state ctx) ->
  0 <= index ctx <= 200 -> (k = 0%nat \/ index ctx < 200 /\ index ctx mod 8 + Z.of_nat k <= 8) -> 0 <= off -> Z.of_nat k <= n -> off + n <= zlen input -> n < 2 ^ 64 ->
  exists s, align_loop k ctx input off n =
      Done (Sha3Ctx s (index ctx + Z.of_nat k) (olen ctx) (max_block_size ctx), off + Z.of_nat k, n - Z.of_nat k) /\
    state_ok s /\ bit_string s = xor_at (Z.to_nat (8 * index ctx)) (to_bits (ztake (Z.of_nat k) (zdrop off input))) (bit_string (state ctx)).
Proof.
  intros Bi. induction k as [|k IH]; intros ctx off n Hs Hi H8 Ho Hk Hl H64; cbn [align_loop].
  { exists (state ctx). rewrite ztake_0. change (to_bits []) with (@nil bool).
    rewrite xor_at_nil by (apply string_length, Hs). rewrite Z.add_0_r, Z.add_0_r, Z.sub_0_r. by destruct ctx. }
  destruct H8 as [|[Hi' H8]]; [done|].
  destruct (load8_piece input off ltac:(lia) Bi) as (b & -> & Hb & Hp). rewrite bind_Done.
  destruct (ABSORB_spec ctx (index ctx) 1 b Hs) as (s & -> & Hs' & Est); [lia|lia|exact Hb|]. rewrite bind_Done, size_sub_le by lia.
  cbn [set_state index]. unfold u32. rewrite (Z.mod_small (index ctx + 1)) by lia.
  destruct (IH (set_index (set_state ctx s) (index ctx + 1)) (off + 1) (n - 1)) as (s' & E & Hs'' & Est'); cbn [set_state set_index state index];
    try done; try lia.
  { destruct k as [|k]; [by left|right]. split; Z.div_mod_to_equations; lia. }
  exists s'. rewrite E. cbn [set_state set_index state index olen max_block_size] in *.
  replace (Z.of_nat (S k)) with (1 + Z.of_nat k) by lia. split; [by rewrite !Z.add_assoc, Z.sub_add_distr|]. split; [done|].
  rewrite Est', Est.
  rewrite ztake_add, Hp, zdrop_zdrop, to_bits_app, <- xor_at_app by lia. f_equal. rewrite to_bits_length. cbn [length]. lia.
Qed.

Lemma sha3_update_spec m d ctx input n : absorbing m d ctx -> is_bytes input -> 0 <= n <= zlen input -> n < 2 ^ 64 ->
  exists ctx', mbedtls_sha3_update u ctx input n = Done (0, ctx') /\ absorbing (m ++ ztake n input) d ctx'.
Proof using HR HR8.
  intros HA Bi Hn H64. unfold mbedtls_sha3_update. rewrite Z.geb_leb. destruct (Z.leb_spec 8 n).
  - pose proof HA as [Ai Ab Ao As At]. destruct (blocks_bound m) as (_ & _ & Hm). cbv zeta.
    set (a := 8 - index ctx mod 8). assert (1 <= a <= 8) as Ha by (pose proof (Z.mod_pos_bound (index ctx) 8); lia).
    rewrite (proj2 (Z.eqb_neq a 0)) by lia. cbn [negb].
    destruct (align_loop_spec input Bi (Z.to_nat a) ctx 0 n As) as (s & E & Hs & Est); [lia|right; unfold a; lia|lia..|].
    rewrite Z2Nat.id, zdrop_0 in * by lia. rewrite E, bind_Done.
    assert (zlen (ztake a input) = a) as La by (apply zlen_ztake; lia).
    destruct (advance_spec m d ctx (ztake a input) (Sha3Ctx s (index ctx + a) (olen ctx) (max_block_size ctx)) 0 HA)
      as (ctx1 & E1 & HA1); cbn [state index olen max_block_size]; try done; try lia.
    { unfold a in *. rewrite Ai in *. Z.div_mod_to_equations; lia. }
    rewrite E1, bind_Done. unfold mret, outcome_ret. rewrite bind_Done, Z.add_0_l.
    destruct (chunk_loop_spec input d Bi (Z.to_nat ((n - a) / 8 + 1)) (m ++ ztake a input) ctx1 a (n - a) HA1)
      as (ctx2 & E2 & HA2); try lia.
    { rewrite zlen_app, La, mod_multiple_sum. unfold a. rewrite Ai. Z.div_mod_to_equations; lia. }
    rewrite E2, bind_Done. assert (0 <= (n - a) / 8) by (apply Z.div_pos; lia).
    assert (n - a = (n - a) / 8 * 8 + (n - a) mod 8) as Es by (rewrite (Z.mul_comm _ 8); apply Z.div_mod; lia).
    pose proof (Z.mod_pos_bound (n - a) 8).
    destruct (byte_loop_spec input d Bi (Z.to_nat ((n - a) mod 8 + 1)) _ ctx2 (a + (n - a) / 8 * 8) ((n - a) mod 8) HA2)
      as (ctx3 & E3 & HA3); [lia..|].
    rewrite E3, bind_Done. exists ctx3. split; [done|]. rewrite <- !app_assoc in HA3. replace n with (a + ((n - a) / 8 * 8 + (n - a) mod 8)) by lia.
    rewrite ztake_add, ztake_add, zdrop_zdrop by lia. exact HA3.
  - rewrite bind_Done.
    destruct (byte_loop_spec input d Bi (Z.to_nat (n + 1)) m ctx 0 n HA) as (ctx3 & E3 & HA3); [lia..|].
    rewrite E3, bind_Done. exists ctx3. split; [done|exact HA3].
Qed.

(** *** The last block *)

(** The suffix and the padding of a message of which [k] bytes are left. *)
Definition suffix (k : Z) : list bool := [false; true; true] ++ replicate (Z.to_nat (8 * (R - k) - 4)) false ++ [true].

Lemma suffix_pad (m : list Z) : [false; true] ++ pad10_1 (8 * R) (8 * zlen m + 2) = suffix (zlen m mod R).
Proof using HR.
  destruct (blocks_bound m) as (_ & E & Hm). unfold pad10_1, suffix. cbn [app]. do 5 f_equal. f_equal.
  symmetry. apply Z.mod_unique with (- (zlen m / R) - 1); lia.
Qed.

Lemma suffix_length k : 0 <= k < R -> length (suffix k) = Z.to_nat (8 * (R - k)).
Proof. intros. unfold suffix. rewrite !length_app, length_replicate. cbn [length]. lia. Qed.

(** The two bytes that the code combines into the block. *)
Lemma suffix_bytes k T : 0 <= k < R ->
  xor_at (Z.to_nat (8 * (R - 1))) (bits 8 0x80) (xor_at (Z.to_nat (8 * k)) (bits 8 XOR_BYTE) T) = xor_at (Z.to_nat (8 * k)) (suffix k) T.
Proof using HR.
  intros Hk. apply string_ext; [apply xor_at_length..|]. intros i Hi. rewrite !xor_at_lookup, !bits_length, suffix_length by done.
  rewrite xorb_assoc_reverse. f_equal. set (o := Z.to_nat (8 * k)). set (l := Z.to_nat (8 * (R - 1))).
  assert (l + 8 = Z.to_nat (8 * R))%nat as El by lia.
  assert (forall j, (j < Z.to_nat (8 * (R - k)))%nat -> suffix k !!! j = bool_decide (j = 1 \/ j = 2 \/ (j + 1)%nat = Z.to_nat (8 * (R - k)))%nat) as HS.
  { intros j Hj. unfold suffix. destruct j as [|[|[|j]]]; [by rewrite bool_decide_false by lia|by rewrite bool_decide_true by lia..|].
    rewrite lookup_total_app_r by (cbn; lia). cbn [length]. replace (S (S (S j)) - 3)%nat with j by lia.
    destruct (decide (j < Z.to_nat (8 * (R - k) - 4))%nat).
    - rewrite lookup_total_app_l, bool_decide_false by (rewrite ?length_replicate; lia).
      apply list_lookup_total_correct, lookup_replicate. done.
    - rewrite lookup_total_app_r, length_replicate, bool_decide_true by (rewrite ?length_replicate; lia).
      replace (j - _)%nat with 0%nat by lia. done. }
  assert (forall j, (j < 8)%nat -> bits 8 XOR_BYTE !!! j = bool_decide (j = 1 \/ j = 2)%nat /\ bits 8 0x80 !!! j = bool_decide (j = 7)%nat) as HB.
  { intros j Hj. do 8 (destruct j as [|j]; [done|]). lia. }
  destruct (decide (o <= i < l + 8)%nat); [|in_range; done].
  rewrite (bool_decide_true (o <= i < o + Z.to_nat (8 * (R - k)))%nat), HS by lia. cbn [andb].
  destruct (decide (i < o + 8)%nat), (decide (l <= i)%nat); in_range; cbn [andb]; rewrite ?xorb_false_l, ?xorb_false_r.
  - rewrite (proj1 (HB (i - o)%nat ltac:(lia))), (proj2 (HB (i - l)%nat ltac:(lia))). destruct (decide (i - l = 7)%nat).
    + rewrite (bool_decide_false (i - o = 1 \/ i - o = 2)%nat), (bool_decide_true (i - l = 7)%nat), bool_decide_true by lia. done.
    + rewrite (bool_decide_false (i - l = 7)%nat), xorb_false_r by lia. apply bool_decide_ext. lia.
  - rewrite (proj1 (HB (i - o)%nat ltac:(lia))). apply bool_decide_ext. lia.
  - rewrite (proj2 (HB (i - l)%nat ltac:(lia))). apply bool_decide_ext. lia.
  - done.
Qed.

Lemma last_block_string m : is_bytes m ->
  KECCAK_f (xor_at 0 (to_bits (rest m) ++ suffix (zlen m mod R)) (base m)) =
  (let P := (to_bits m ++ [false; true]) ++ pad10_1 (Z.of_nat r) (zlen (to_bits m ++ [false; true])) in
   absorb (length P / r) r (replicate 1600 false) P).
Proof using HR.
  intros Bm. destruct (blocks_bound m) as (Hq & E & Hm). cbv zeta. rewrite <- app_assoc.
  replace (zlen (to_bits m ++ [false; true])) with (8 * zlen m + 2) by (rewrite zlen_app; unfold zlen; rewrite to_bits_length; cbn [length]; lia).
  rewrite Z2Nat.id, suffix_pad by lia. set (k := zlen m mod R) in *.
  assert (length (to_bits m ++ suffix k) = (Z.to_nat (zlen m / R) + 1) * r)%nat as LP.
  { rewrite length_app, to_bits_length, suffix_length by lia. unfold zlen in *. nia. }
  rewrite LP, Nat.div_mul, absorb_snoc by lia.
  assert (Z.to_nat (zlen m / R) * r <= length (to_bits m))%nat by (rewrite to_bits_length; unfold zlen in *; nia).
  rewrite absorb_prefix by done. fold (base m). rewrite xor_block_at by (rewrite ?base_length, ?length_take by done; lia).
  apply (f_equal (fun P => KECCAK_f (xor_at 0 P _))). rewrite drop_app_le by done.
  assert (drop (Z.to_nat (zlen m / R) * r) (to_bits m) = to_bits (rest m)) as ->.
  { assert (to_bits m = to_bits (ztake (zlen m / R * R) m) ++ to_bits (rest m)) as -> by (unfold rest; by rewrite <- to_bits_app, ztake_zdrop).
    apply drop_app_length'.
    rewrite to_bits_length. assert (zlen (ztake (zlen m / R * R) m) = zlen m / R * R) as L by (rewrite zlen_ztake; lia).
    unfold zlen in L. unfold zlen. nia. }
  symmetry. apply take_ge. rewrite length_app, to_bits_length, suffix_length by lia. pose proof (rest_length m) as Lr. fold k in Lr. unfold zlen in Lr. lia.
Qed.

(** *** Squeezing *)

(** The byte [i] of a state. *)
Definition byte_at (s : list Z) (i : Z) : Z := u8 (Z.shiftr (s !!! Z.to_nat (i / 8)) (8 * (i mod 8))).

Lemma squeeze_loop_spec s d output : length s = 25%nat -> forall n i out, 0 <= i -> i + Z.of_nat n < R -> zlen out + Z.of_nat n <= zlen output ->
  squeeze_loop u n (Sha3Ctx s i d R) (splice output 0 out) (zlen out) =
  Done (Sha3Ctx s (i + Z.of_nat n) d R, splice output 0 (out ++ map (byte_at s) (seqZ i (Z.of_nat n)))).
Proof using HR.
  intros Ls. induction n as [|n IH]; intros i out Hi Hn Ho; cbn [squeeze_loop].
  { change (Z.of_nat 0) with 0. rewrite Z.add_0_r, seqZ_nil, app_nil_r by lia. done. }
  unfold SQUEEZE. cbn [index state]. destruct (index_split i Hi) as [-> ->].
  assert (0 <= i / 8 < 25) by (split; [apply Z.div_pos|apply Z.div_lt_upper_bound]; lia).
  replace (zlen s) with 25 by (unfold zlen; by rewrite Ls). rewrite (proj2 (Z.leb_le 0 _)), (proj2 (Z.ltb_lt _ _)) by lia. cbn [andb].
  rewrite bind_Done, store_behind, bind_Done by (rewrite zlen_singleton; lia).
  unfold advance. cbn [max_block_size set_index index state olen]. rewrite (proj2 (Z.eqb_neq R 0)) by lia.
  unfold u32. rewrite (Z.mod_small _ (2 ^ 32)), (Z.mod_small (i + 1) R), (proj2 (Z.eqb_neq (i + 1) 0)) by lia.
  unfold mret, outcome_ret. rewrite bind_Done. fold (byte_at s i). change (set_index _ _) with (Sha3Ctx s (i + 1) d R).
  replace (zlen out + 1) with (zlen (out ++ [byte_at s i])) by (rewrite zlen_app, zlen_singleton; done).
  rewrite IH by (rewrite ?zlen_app, ?zlen_singleton; lia). rewrite (seqZ_cons i (Z.of_nat (S n))) by lia.
  cbn [map]. rewrite <- app_assoc. replace (Z.succ i) with (i + 1) by lia. replace (Z.pred (Z.of_nat (S n))) with (Z.of_nat n) by lia.
  replace (i + 1 + Z.of_nat n) with (i + Z.of_nat (S n)) by lia. done.
Qed.

End absorbing.

Lemma number_bits b : is_byte b -> number (bits 8 b) = b.
Proof.
  intros Hb. pose proof (all_bytes_spec (fun b => number (bits 8 b) =? b) ltac:(vm_compute; done) b Hb) as E. by apply Z.eqb_eq in E.
Qed.

Lemma of_bits_to_bits m P : is_bytes m -> of_bits (length m) (to_bits m ++ P) = m.
Proof.
  induction 1 as [|b m Hb _ IH]; [done|]. cbn [length of_bits]. change (to_bits (b :: m)) with (bits 8 b ++ to_bits m).
  rewrite <- app_assoc, take_app_length', drop_app_length' by (by rewrite bits_length). by rewrite number_bits, IH.
Qed.

Lemma to_bits_bytes s n : length s = 25%nat -> (n <= 200)%nat ->
  to_bits (map (byte_at s) (seqZ 0 (Z.of_nat n))) = take (8 * n) (bit_string s).
Proof.
  intros Ls. induction n as [|n IH]; intros Hn; [by rewrite seqZ_nil by lia|].
  replace (seqZ 0 (Z.of_nat (S n))) with (seqZ 0 (Z.of_nat n) ++ [Z.of_nat n]).
  2:{ replace (Z.of_nat (S n)) with (Z.of_nat n + 1) by lia. rewrite seqZ_app by lia. by rewrite Z.add_0_l. }
  rewrite map_app, to_bits_app, IH by lia. replace (8 * S n)%nat with (8 * n + 8)%nat by lia. rewrite <- take_take_drop. f_equal.
  change (to_bits (map _ [_])) with (bits 8 (byte_at s (Z.of_nat n)) ++ []). rewrite app_nil_r.
  pose proof (string_length s Ls) as LS.
  apply list_eq_same_length with 8%nat; [rewrite length_take, length_drop; lia|apply bits_length|].
  intros i x y Hi Sx Ty. apply list_lookup_total_correct in Sx, Ty. rewrite <- Sx, <- Ty.
  rewrite bits_lookup, lookup_total_take, lookup_total_drop, string_bit by lia. unfold byte_at.
  rewrite u8_testbit, Z.shiftr_spec by lia.
  assert ((8 * n + i) / 64 = Z.to_nat (Z.of_nat n / 8))%nat as ->.
  { apply Nat2Z.inj. rewrite Nat2Z.inj_div, Z2Nat.id by (apply Z.div_pos; lia). Z.div_mod_to_equations; lia. }
  rewrite decide_True by done. f_equal. rewrite Nat2Z.inj_mod. Z.div_mod_to_equations; lia.
Qed.

(** ** The hash functions *)

(** The digest is [D] bytes long; twice that is not absorbed into. *)
Lemma sha3_bytes m D s : is_bytes m -> length s = 25%nat -> 8 <= D <= 64 -> let R := 200 - 2 * D in
  bit_string s = (let r := Z.to_nat (8 * R) in
    let P := (to_bits m ++ [false; true]) ++ pad10_1 (Z.of_nat r) (zlen (to_bits m ++ [false; true])) in
    absorb (length P / r) r (replicate 1600 false) P) ->
  sha3 (Z.to_nat (8 * D)) m = map (byte_at s) (seqZ 0 D).
Proof.
  intros Bm Ls HD R Es. unfold sha3, SHA3, KECCAK, SPONGE.
  replace (1600 - 2 * Z.to_nat (8 * D))%nat with (Z.to_nat (8 * R)) by lia. cbv zeta in Es |- *. rewrite <- Es. clear Es.
  assert ((Z.to_nat (8 * D) + Z.to_nat (8 * R) - 1) / Z.to_nat (8 * R) = 1)%nat as ->.
  { symmetry. apply Nat.div_unique with (Z.to_nat (8 * D) - 1)%nat; lia. }
  cbn [squeeze]. rewrite app_nil_r, take_take. replace (Z.to_nat (8 * D) `min` Z.to_nat (8 * R))%nat with (8 * Z.to_nat D)%nat by lia.
  rewrite <- to_bits_bytes by (done || lia). rewrite Z2Nat.id by lia.
  replace (Z.to_nat (8 * D) / 8)%nat with (length (map (byte_at s) (seqZ 0 D))).
  2:{ rewrite length_map, length_seqZ. replace (Z.to_nat (8 * D)) with (Z.to_nat D * 8)%nat by lia. by rewrite Nat.div_mul. }
  rewrite <- (app_nil_r (to_bits _)). apply of_bits_to_bits. apply Forall_map, Forall_forall. intros i _. apply u8_byte.
Qed.

Lemma sha3_finish_spec u D m ctx output n : 8 <= D <= 64 -> D mod 4 = 0 -> absorbing (200 - 2 * D) m D ctx -> is_bytes m ->
  D <= n -> D <= zlen output ->
  mbedtls_sha3_finish u ctx output n = Done (0, sha3_zeroed, splice output 0 (sha3 (Z.to_nat (8 * D)) m)).
Proof.
  intros HD H4 [Ai Ab Ao As At] Bm Hn Ho. set (R := 200 - 2 * D) in *. assert (8 <= R < 200) as HR by lia.
  assert (R mod 8 = 0) as H8 by (Z.div_mod_to_equations; lia). destruct (blocks_bound R HR m) as (_ & _ & Hm).
  unfold mbedtls_sha3_finish. rewrite Ao, !Z.gtb_ltb, (proj2 (Z.ltb_lt 0 D)), (proj2 (Z.ltb_ge n D)) by lia. cbn [andb].
  destruct (ABSORB_spec ctx (index ctx) 1 XOR_BYTE As) as (s & -> & Hs & Es); [lia|pose proof (Z.mod_pos_bound (index ctx) 8); lia|done|].
  rewrite bind_Done. cbn [set_state max_block_size]. rewrite Ab.
  destruct (ABSORB_spec (set_state ctx s) (R - 1) 1 0x80 Hs) as (s2 & -> & Hs2 & Es2); [lia|pose proof (Z.mod_pos_bound (R - 1) 8); lia|done|].
  rewrite bind_Done. unfold set_index, set_state in *. cbn [state index olen max_block_size] in *. rewrite Ab, Ao.
  destruct (keccak_ok u s2 Hs2) as [K1 K2]. set (s3 := keccak_f1600 u s2) in *. clearbody s3.
  rewrite <- (splice_nil output 0) at 1 by lia.
  pose proof (squeeze_loop_spec u R HR s3 D output (proj1 K1) (Z.to_nat D) 0 []) as Q. rewrite Z2Nat.id in Q by lia.
  change (zlen []) with 0 in Q. rewrite Q by lia. rewrite bind_Done. cbn [app]. do 3 f_equal.
  symmetry. apply sha3_bytes; [done|apply K1|done|]. rewrite K2, Es2, Es, At, Ai. change (8 * 1)%nat with 8%nat.
  rewrite (suffix_bytes R HR) by lia.
  assert (length (to_bits (rest R m)) = Z.to_nat (8 * (zlen m mod R))) as Lr.
  { pose proof (rest_length R HR m) as L. rewrite to_bits_length. unfold zlen in L |- *. lia. }
  pose proof (xor_at_app 0 (to_bits (rest R m)) (suffix R (zlen m mod R)) (base R m)) as X. cbn [Nat.add] in X.
  rewrite <- Lr, X. by apply last_block_string.
Qed.

Lemma absorbing_nil R D : 8 <= R < 200 -> absorbing R [] D (Sha3Ctx (replicate 25 0) 0 D R).
Proof.
  intros HR. split; cbn [index max_block_size olen state]; try done.
  split; [done|]. by apply Forall_replicate.
Qed.

Lemma sha3_run_updates_spec u R D : 8 <= R < 200 -> R mod 8 = 0 -> forall chunks m ctx, absorbing R m D ctx ->
  Forall is_bytes chunks -> Forall (fun c => zlen c < 2 ^ 64) chunks ->
  exists ctx', run_updates (mbedtls_sha3_update u) ctx chunks = Done (0, ctx') /\ absorbing R (m ++ concat chunks) D ctx'.
Proof.
  intros HR H8. induction chunks as [|c cs IH]; intros m ctx HA Bc Lc; cbn [run_updates concat].
  { exists ctx. by rewrite app_nil_r. }
  inversion Bc; inversion Lc; subst.
  destruct (sha3_update_spec u R HR H8 m D ctx c (zlen c) HA) as (ctx1 & -> & HA1); [done|pose proof (zlen_nonneg c); lia|done|].
  rewrite bind_Done. cbn [Z.eqb]. rewrite ztake_all in HA1 by lia. destruct (IH _ _ HA1) as (ctx2 & E & HA2); [done..|].
  exists ctx2. by rewrite app_assoc.
Qed.

(** The output length of each function, in bytes. *)
Definition sha3_size (id : Z) : Z :=
  if id =? MBEDTLS_SHA3_224 then 28 else if id =? MBEDTLS_SHA3_256 then 32 else if id =? MBEDTLS_SHA3_384 then 48 else 64.

Lemma sha3_starts_spec ctx id : MBEDTLS_SHA3_224 <= id <= MBEDTLS_SHA3_512 ->
  8 <= sha3_size id <= 64 /\ sha3_size id mod 4 = 0 /\
  exists ctx', mbedtls_sha3_starts ctx id = (0, ctx') /\ absorbing (200 - 2 * sha3_size id) [] (sha3_size id) ctx'.
Proof.
  unfold MBEDTLS_SHA3_224, MBEDTLS_SHA3_512. intros H.
  assert (id = 1 \/ id = 2 \/ id = 3 \/ id = 4) as [-> | [-> | [-> | ->]]] by lia; (split; [by vm_compute|split; [done|]]);
    eexists; (split; [reflexivity|]); apply absorbing_nil; by vm_compute.
Qed.

(** A message fed to a started SHA-3 context in pieces of any sizes gives the digest of
    FIPS 202 at the front of the output and wipes the context, whatever is unrolled and
    wherever the pieces fall in words and blocks; an output that is too short is refused with
    an error, and so is an unknown function. *)
Theorem sha3_stream_correct u ctx id chunks output n :
  Forall is_bytes chunks -> Forall (fun c => zlen c < 2 ^ 64) chunks ->
  (MBEDTLS_SHA3_224 <= id <= MBEDTLS_SHA3_512 -> sha3_size id <= zlen output ->
   exists ctx1 ctx2, mbedtls_sha3_starts ctx id = (0, ctx1) /\
     run_updates (mbedtls_sha3_update u) ctx1 chunks = Done (0, ctx2) /\
     mbedtls_sha3_finish u ctx2 output n =
       if sha3_size id <=? n then Done (0, sha3_zeroed, splice output 0 (sha3 (Z.to_nat (8 * sha3_size id)) (concat chunks)))
       else Done (MBEDTLS_ERR_SHA3_BAD_INPUT_DATA, sha3_zeroed, output)) /\
  (~ MBEDTLS_SHA3_224 <= id <= MBEDTLS_SHA3_512 -> mbedtls_sha3_starts ctx id = (MBEDTLS_ERR_SHA3_BAD_INPUT_DATA, ctx)).
Proof.
  intros Bc Lc. split.
  - intros Hid Ho. destruct (sha3_starts_spec ctx id Hid) as (HD & H4 & ctx1 & E1 & HA1). set (D := sha3_size id) in *.
    destruct (sha3_run_updates_spec u (200 - 2 * D) D ltac:(lia) ltac:(clear - H4; Z.div_mod_to_equations; lia) chunks [] ctx1 HA1 Bc Lc)
      as (ctx2 & E2 & HA2).
    exists ctx1, ctx2. split; [done|]. split; [done|]. destruct (Z.leb_spec D n).
    + apply sha3_finish_spec; try done. clear - Bc. induction Bc; [constructor|by apply is_bytes_app].
    + unfold mbedtls_sha3_finish. rewrite (a_olen _ _ _ _ HA2), !Z.gtb_ltb, (proj2 (Z.ltb_lt 0 D)), (proj2 (Z.ltb_lt n D)) by lia. done.
  - unfold MBEDTLS_SHA3_224, MBEDTLS_SHA3_512. intros H. unfold mbedtls_sha3_starts, MBEDTLS_SHA3_224, MBEDTLS_SHA3_256, MBEDTLS_SHA3_384, MBEDTLS_SHA3_512.
    rewrite !(proj2 (Z.eqb_neq id _)) by lia. done.
Qed.

Lemma sha3_stream_correct_witness :
  exists ctx1 ctx2, mbedtls_sha3_starts sha3_zeroed MBEDTLS_SHA3_256 = (0, ctx1) /\
    run_updates (mbedtls_sha3_update (Unrolling false true true true)) ctx1 [[97]; []; [98; 99]] = Done (0, ctx2) /\
    mbedtls_sha3_finish (Unrolling false true true true) ctx2 (replicate 32 0) 32 =
      Done (0, sha3_zeroed, splice (replicate 32 0) 0 (sha3 256 [97; 98; 99])).
Proof.
  apply (proj1 (sha3_stream_correct (Unrolling false true true true) sha3_zeroed MBEDTLS_SHA3_256 [[97]; []; [98; 99]]
    (replicate 32 0) 32 ltac:(repeat constructor; unfold is_byte; lia) ltac:(repeat constructor; reflexivity))).
  - unfold MBEDTLS_SHA3_224, MBEDTLS_SHA3_256, MBEDTLS_SHA3_512. lia.
  - by vm_compute.
Defined.

(** The one-call function. *)
Lemma sha3_one_call u id input n output olen' : is_bytes input -> 0 <= n <= zlen input -> n < 2 ^ 64 ->
  MBEDTLS_SHA3_224 <= id <= MBEDTLS_SHA3_512 -> sha3_size id <= olen' -> sha3_size id <= zlen output ->
  mbedtls_sha3 u id input n output olen' = Done (0, splice output 0 (sha3 (Z.to_nat (8 * sha3_size id)) (ztake n input))).
Proof.
  intros Bi Hn H64 Hid Ho Hl. unfold mbedtls_sha3.
  destruct (sha3_starts_spec (mbedtls_sha3_init sha3_zeroed) id Hid) as (HD & H4 & ctx1 & -> & HA1). cbn [Z.eqb negb].
  set (D := sha3_size id) in *.
  destruct (sha3_update_spec u (200 - 2 * D) ltac:(lia) ltac:(clear - H4; Z.div_mod_to_equations; lia) [] D ctx1 input n HA1 Bi Hn H64)
    as (ctx2 & -> & HA2). rewrite bind_Done. cbn [Z.eqb negb].
  rewrite (sha3_finish_spec u D (ztake n input)) by (done || lia || auto with zlist). done.
Qed.
