(* ===== verification/Digests.v ===== *)
(** * What a hash function promises

    The class [Streaming] says what the functions of [md5.c], [ripemd160.c], [sha1.c],
    [sha256.c], [sha512.c] and [sha3.c] have in common from outside: a context of the right
    shape can be started, takes a message in pieces and ends with its hash.  The files of the
    hash functions provide the instances; the digest layer of [md.c] is proved against the
    class. *)

From S2P Require Import Prelude Bytes BlockHash Sha2 Sha256 Sha512 Sha1 Md5 Ripemd160 Keccak Sha3.

Class Streaming {T : Type} (limit size : Z) (hash : list Z -> list Z) (start : T -> Z * T)
    (upd : T -> list Z -> Z -> outcome (Z * T)) (fin : T -> list Z -> outcome (Z * T * list Z)) := {
  (** any content, but buffers of the right size *)
  shaped : T -> Prop;
  (** the message so far *)
  holds : list Z -> T -> Prop;
  holds_shaped m c : holds m c -> shaped c;
  start_ok c : shaped c -> exists c', start c = (0, c') /\ holds [] c';
  update_ok m c input n : holds m c -> is_bytes input -> 0 <= n <= zlen input -> n < limit ->
    exists c', upd c input n = Done (0, c') /\ holds (m ++ ztake n input) c';
  finish_ok m c output : holds m c -> size <= zlen output ->
    exists c', fin c output = Done (0, c', splice output 0 (hash m)) /\ shaped c';
  hash_ok m : is_bytes m -> is_bytes (hash m) /\ zlen (hash m) = size
}.

(** ** Hashes on blocks *)

Section block.
Context {w : Z} {words : nat} {process} {compress : list Z -> list Z -> list Z} {HC : Compression w words process compress}.
Context {whole} {HW : WholeBlocks w words whole compress}.
Context (iv : list Z) (Hiv : words_ok w words iv) (big : bool).

Definition block_shaped (c : digest_ctx) : Prop := is_bytes (buffer c) /\ zlen (buffer c) = block_size w.
Definition block_holds (tr : Z) (m : list Z) (c : digest_ctx) : Prop :=
  absorbed (w := w) (compress := compress) iv m (zlen m) c /\ truncated c = tr.

Lemma block_holds_shaped tr m c : block_holds tr m c -> block_shaped c.
Proof. intros [[[] _ _ _] _]. done. Qed.

Lemma block_update tr m c input n : block_holds tr m c -> is_bytes input -> 0 <= n <= zlen input -> n < 2 ^ w ->
  exists c', update w process whole c input n = Done (0, c') /\ block_holds tr (m ++ ztake n input) c'.
Proof using HC HW Hiv.
  intros [Ha Ht] Bi Hn Hl. assert (2 ^ w <= 2 ^ 64) by (apply Z.pow_le_mono_r; [lia|destruct (word_size (w := w)); lia]).
  destruct (hash_update_spec iv Hiv m (zlen m) c input n Ha Bi Hn ltac:(lia)) as (c' & E & Ha' & Ht'). exists c'.
  split; [done|]. split; [|congruence]. rewrite Z.mod_small in Ha' by lia. by rewrite zlen_app, zlen_ztake by lia.
Qed.

Lemma is_bytes_encode ws : is_bytes (encode w big ws).
Proof.
  unfold encode. apply Forall_concat, Forall_map, Forall_forall. intros x _.
  destruct big; [apply is_bytes_be_bytes|apply is_bytes_le_bytes].
Qed.

Lemma is_bytes_pad cnt m : is_bytes m -> is_bytes (pad w big cnt m).
Proof.
  intros Bm. unfold pad. apply is_bytes_app; [done|]. constructor; [done|]. cbn [app]. apply is_bytes_app; [by apply is_bytes_replicate|].
  unfold length_field. destruct big; [apply is_bytes_be_bytes|apply is_bytes_le_bytes].
Qed.

Lemma digest_ok k m : is_bytes m -> (k <= words)%nat ->
  is_bytes (digest w big compress iv k m) /\ zlen (digest w big compress iv k m) = Z.of_nat k * (w / 8).
Proof using HC Hiv.
  intros Bm Hk. unfold digest, digest_counting. split; [apply is_bytes_encode|].
  destruct (chain_ok iv (pad w big (zlen m) m) Hiv (is_bytes_pad _ _ Bm)) as [Lw _].
  rewrite encode_length. unfold zlen at 1. rewrite length_take, Lw. f_equal. lia.
Qed.

Lemma block_finish outs k tr m c output : block_holds tr m c -> (forall c, truncated c = tr -> outs c = k) -> (k <= words)%nat ->
  Z.of_nat k * (w / 8) <= zlen output ->
  exists c', finish w process big words outs c output = Done (0, c', splice output 0 (digest w big compress iv k m)) /\ block_shaped c'.
Proof using HC Hiv.
  intros [Ha Ht] Ho Hk Hl. exists (zeroed words (Z.to_nat (block_size w))). split.
  - apply (hash_finish_spec iv Hiv big outs k m (zlen m) c output Ha); [|done|done]. intros d Hd. apply Ho. congruence.
  - split; cbn [zeroed buffer]; [by apply is_bytes_replicate|]. rewrite zlen_replicate, Z2Nat.id; [done|].
    pose proof (bs_pos (w := w)). lia.
Qed.

End block.

#[export] Instance md5_streaming : Streaming (2 ^ 32) 16 md5 mbedtls_md5_starts mbedtls_md5_update mbedtls_md5_finish.
Proof.
  refine {| shaped := block_shaped (w := 32); holds m c := block_holds (w := 32) (compress := md5_compress) md5_iv (truncated c) m c |}.
  - intros m c. apply block_holds_shaped.
  - intros c [Bb Lb]. destruct (md5_starts_spec c Bb Lb) as (c' & E & Ha). exists c'. split; [done|]. by split.
  - intros m c input n Hc Bi Hn Hl. destruct (block_update (whole := simple_blocks 32 mbedtls_internal_md5_process) md5_iv md5_iv_words _ m c input n Hc Bi Hn Hl)
      as (c' & E & H1 & _). exists c'. split; [exact E|]. by split.
  - intros m c output Hc Ho. apply (block_finish md5_iv md5_iv_words false _ 4 _ m c output Hc); [done|lia|exact Ho].
  - intros m Bm. apply (digest_ok md5_iv md5_iv_words false 4 m Bm). lia.
Defined.

#[export] Instance sha1_streaming : Streaming (2 ^ 32) 20 sha1 mbedtls_sha1_starts mbedtls_sha1_update mbedtls_sha1_finish.
Proof.
  refine {| shaped := block_shaped (w := 32); holds m c := block_holds (w := 32) (compress := sha1_compress) sha1_iv (truncated c) m c |}.
  - intros m c. apply block_holds_shaped.
  - intros c [Bb Lb]. destruct (sha1_starts_spec c Bb Lb) as (c' & E & Ha). exists c'. split; [done|]. by split.
  - intros m c input n Hc Bi Hn Hl. destruct (block_update (whole := simple_blocks 32 mbedtls_internal_sha1_process) sha1_iv sha1_iv_words _ m c input n Hc Bi Hn Hl)
      as (c' & E & H1 & _). exists c'. split; [exact E|]. by split.
  - intros m c output Hc Ho. apply (block_finish sha1_iv sha1_iv_words true _ 5 _ m c output Hc); [done|lia|exact Ho].
  - intros m Bm. apply (digest_ok sha1_iv sha1_iv_words true 5 m Bm). lia.
Defined.

#[export] Instance ripemd160_streaming :
  Streaming (2 ^ 32) 20 ripemd160 mbedtls_ripemd160_starts mbedtls_ripemd160_update mbedtls_ripemd160_finish.
Proof.
  refine {| shaped := block_shaped (w := 32); holds m c := block_holds (w := 32) (compress := ripemd160_compress) ripemd160_iv (truncated c) m c |}.
  - intros m c. apply block_holds_shaped.
  - intros c [Bb Lb]. destruct (ripemd160_starts_spec c Bb Lb) as (c' & E & Ha). exists c'. split; [done|]. by split.
  - intros m c input n Hc Bi Hn Hl. destruct (block_update (whole := simple_blocks 32 mbedtls_internal_ripemd160_process) ripemd160_iv ripemd160_iv_words _ m c input n Hc Bi Hn Hl)
      as (c' & E & H1 & _). exists c'. split; [exact E|]. by split.
  - intros m c output [Hc _] Ho. exists (zeroed 5 64). split; [by apply ripemd160_finish_spec; [..|apply ripemd160_iv_words|]|].
    split; [by apply is_bytes_replicate|done].
  - intros m Bm. apply (digest_ok ripemd160_iv ripemd160_iv_words false 5 m Bm). lia.
Defined.

(** SHA-256 and SHA-512 with their truncated forms. *)
Definition sha256_start (is224 : Z) (c : digest_ctx) : Z * digest_ctx := mbedtls_sha256_starts c is224.
Definition sha512_start (is384 : Z) (c : digest_ctx) : Z * digest_ctx := mbedtls_sha512_starts c is384.

#[export] Instance sha256_streaming (is224 : bool) : let tr := Z.b2z is224 in
  Streaming (2 ^ 32) (32 - 4 * tr) (sha256_digest tr) (sha256_start tr) mbedtls_sha256_update mbedtls_sha256_finish.
Proof.
  set (tr := Z.b2z is224). set (iv := if tr =? 0 then sha256_iv else sha224_iv). set (k := if tr =? 0 then 8%nat else 7%nat).
  assert (words_ok 32 8 iv) as Hiv by (unfold iv; destruct sha256_iv_words, (tr =? 0); done).
  assert (Z.of_nat k * (32 / 8) = 32 - 4 * tr /\ (k <= 8)%nat) as [Ek Hk] by (unfold k, tr; destruct is224; (split; [reflexivity|vm_compute; lia])).
  assert (forall m, sha256_digest tr m = digest 32 true sha256_compress iv k m) as Ed by (intros; by destruct is224).
  refine {| shaped := block_shaped (w := 32); holds m c := block_holds (w := 32) (compress := sha256_compress) iv tr m c |}.
  - intros m c. apply block_holds_shaped.
  - intros c [Bb Lb]. destruct (sha256_starts_spec c tr ltac:(destruct is224; [by right|by left]) Bb Lb) as (c' & E & Et & _ & Ha).
    exists c'. split; [done|]. by split.
  - intros m c input n Hc Bi Hn Hl. apply (block_update (whole := many_blocks 32 mbedtls_internal_sha256_process_many_c) iv Hiv _ m c input n Hc Bi Hn Hl).
  - intros m c output Hc Ho. rewrite Ed. apply (block_finish iv Hiv true _ k _ m c output Hc); [|done|lia]. by intros d ->.
  - intros m Bm. rewrite Ed, <- Ek. by apply (digest_ok iv Hiv true k m Bm).
Defined.

#[export] Instance sha512_streaming (is384 : bool) : let tr := Z.b2z is384 in
  Streaming (2 ^ 64) (64 - 16 * tr) (sha512_digest tr) (sha512_start tr) mbedtls_sha512_update mbedtls_sha512_finish.
Proof.
  set (tr := Z.b2z is384). set (iv := if tr =? 0 then sha512_iv else sha384_iv). set (k := if tr =? 0 then 8%nat else 6%nat).
  assert (words_ok 64 8 iv) as Hiv by (unfold iv; destruct sha512_iv_words, (tr =? 0); done).
  assert (Z.of_nat k * (64 / 8) = 64 - 16 * tr /\ (k <= 8)%nat) as [Ek Hk] by (unfold k, tr; destruct is384; (split; [reflexivity|vm_compute; lia])).
  assert (forall m, sha512_digest tr m = digest 64 true sha512_compress iv k m) as Ed by (intros; by destruct is384).
  refine {| shaped := block_shaped (w := 64); holds m c := block_holds (w := 64) (compress := sha512_compress) iv tr m c |}.
  - intros m c. apply block_holds_shaped.
  - intros c [Bb Lb]. destruct (sha512_starts_spec c tr ltac:(destruct is384; [by right|by left]) Bb Lb) as (c' & E & Et & _ & Ha).
    exists c'. split; [done|]. by split.
  - intros m c input n Hc Bi Hn Hl. apply (block_update (whole := many_blocks 64 mbedtls_internal_sha512_process_many_c) iv Hiv _ m c input n Hc Bi Hn Hl).
  - intros m c output Hc Ho. rewrite Ed. apply (block_finish iv Hiv true _ k _ m c output Hc); [|done|lia]. by intros d ->.
  - intros m Bm. rewrite Ed, <- Ek. by apply (digest_ok iv Hiv true k m Bm).
Defined.

(** ** SHA-3 *)

Lemma number_byte l : (length l <= 8)%nat -> is_byte (number l).
Proof.
  intros Hl. assert (0 <= number l < 2 ^ Z.of_nat (length l)) as Hn.
  { clear Hl. induction l as [|b l IH]; cbn [number length]; [done|]. rewrite Nat2Z.inj_succ, Z.pow_succ_r by lia. destruct b; cbn [Z.b2z]; lia. }
  assert (2 ^ Z.of_nat (length l) <= 2 ^ 8) by (apply Z.pow_le_mono_r; lia). unfold is_byte. lia.
Qed.

Lemma of_bits_ok n l : is_bytes (of_bits n l) /\ length (of_bits n l) = n.
Proof.
  revert l. induction n as [|n IH]; intros l; cbn [of_bits length]; [split; [constructor|done]|].
  destruct (IH (drop 8 l)) as [B L]. split; [|by rewrite L]. constructor; [|done]. apply number_byte. rewrite length_take. lia.
Qed.

Definition sha3_start (id : Z) (c : mbedtls_sha3_context) : Z * mbedtls_sha3_context := mbedtls_sha3_starts c id.

#[export] Instance sha3_streaming (u : unrolling) (id n : Z) (Hid : MBEDTLS_SHA3_224 <= id <= MBEDTLS_SHA3_512) (Hn : sha3_size id <= n) :
  Streaming (2 ^ 64) (sha3_size id) (sha3 (Z.to_nat (8 * sha3_size id))) (sha3_start id) (mbedtls_sha3_update u)
    (fun c output => mbedtls_sha3_finish u c output n).
Proof.
  set (D := sha3_size id). fold D in Hn.
  assert (8 <= D <= 64) as HD by apply (sha3_starts_spec sha3_zeroed id Hid).
  assert (D mod 4 = 0) as H4 by apply (sha3_starts_spec sha3_zeroed id Hid).
  refine {| shaped _ := True; holds m c := is_bytes m /\ absorbing (200 - 2 * D) m D c |}.
  - done.
  - intros c _. destruct (sha3_starts_spec c id Hid) as (_ & _ & c' & E & Ha). exists c'. split; [exact E|]. by split; [constructor|].
  - intros m c input k [Bm Hc] Bi Hk Hl.
    destruct (sha3_update_spec u (200 - 2 * D) ltac:(lia) ltac:(clear - H4; Z.div_mod_to_equations; lia) m D c input k Hc Bi Hk Hl)
      as (c' & E & Ha). exists c'. split; [exact E|]. split; [auto with zlist|done].
  - intros m c output [Bm Hc] Ho. exists sha3_zeroed. split; [|done]. by apply sha3_finish_spec.
  - intros m Bm. destruct (of_bits_ok (Z.to_nat (8 * D) / 8) (SHA3 (Z.to_nat (8 * D)) (to_bits m))) as [B L].
    split; [exact B|]. unfold zlen, sha3. rewrite L. replace (Z.to_nat (8 * D)) with (Z.to_nat D * 8)%nat by lia. rewrite Nat.div_mul by lia. lia.
Defined.
