(* ===== verification/Md.v ===== *)
(** * The digest layer

    [src/internal/mbedtls/md.c]: one interface to the eleven hash functions, their sizes and
    names, and HMAC on top of it.  A context has a [void *] to the context of the hash
    function; here that is a sum type, and using it as the wrong member is a [Fault].  Memory
    comes from an allocator that may refuse; the number of objects alive is counted.  The
    engine is the built-in one: no hash goes through PSA in this configuration. *)

From stdpp Require Import strings.
From S2P Require Import Prelude Bytes Chacha20 BlockHash Sha2 Sha256 Sha512 Sha1 Md5 Ripemd160 Keccak Sha3 Digests.

(** ** Types and tables *)

Inductive mbedtls_md_type_t :=
  | MBEDTLS_MD_NONE | MBEDTLS_MD_MD5 | MBEDTLS_MD_RIPEMD160 | MBEDTLS_MD_SHA1
  | MBEDTLS_MD_SHA224 | MBEDTLS_MD_SHA256 | MBEDTLS_MD_SHA384 | MBEDTLS_MD_SHA512
  | MBEDTLS_MD_SHA3_224 | MBEDTLS_MD_SHA3_256 | MBEDTLS_MD_SHA3_384 | MBEDTLS_MD_SHA3_512.

#[export] Instance md_type_eq_dec : EqDecision mbedtls_md_type_t.
Proof. solve_decision. Defined.

Record mbedtls_md_info_t := MD_INFO { type : mbedtls_md_type_t; size : Z; block_size : Z }.

#[export] Instance md_info_eq_dec : EqDecision mbedtls_md_info_t.
Proof. solve_decision. Defined.

Definition MBEDTLS_MD_MAX_SIZE : Z := 64.
Definition MBEDTLS_ERR_MD_BAD_INPUT_DATA : Z := -0x5100.
Definition MBEDTLS_ERR_MD_ALLOC_FAILED : Z := -0x5180.

Definition mbedtls_md5_info := MD_INFO MBEDTLS_MD_MD5 16 64.
Definition mbedtls_ripemd160_info := MD_INFO MBEDTLS_MD_RIPEMD160 20 64.
Definition mbedtls_sha1_info := MD_INFO MBEDTLS_MD_SHA1 20 64.
Definition mbedtls_sha224_info := MD_INFO MBEDTLS_MD_SHA224 28 64.
Definition mbedtls_sha256_info := MD_INFO MBEDTLS_MD_SHA256 32 64.
Definition mbedtls_sha384_info := MD_INFO MBEDTLS_MD_SHA384 48 128.
Definition mbedtls_sha512_info := MD_INFO MBEDTLS_MD_SHA512 64 128.
Definition mbedtls_sha3_224_info := MD_INFO MBEDTLS_MD_SHA3_224 28 144.
Definition mbedtls_sha3_256_info := MD_INFO MBEDTLS_MD_SHA3_256 32 136.
Definition mbedtls_sha3_384_info := MD_INFO MBEDTLS_MD_SHA3_384 48 104.
Definition mbedtls_sha3_512_info := MD_INFO MBEDTLS_MD_SHA3_512 64 72.

(** A pointer to an info is [None] when it is null.  The infos are the static ones, so that
    pointers are equal exactly when the infos are. *)
Definition mbedtls_md_info_from_type (md_type : mbedtls_md_type_t) : option mbedtls_md_info_t :=
  match md_type with
  | MBEDTLS_MD_MD5 => Some mbedtls_md5_info
  | MBEDTLS_MD_RIPEMD160 => Some mbedtls_ripemd160_info
  | MBEDTLS_MD_SHA1 => Some mbedtls_sha1_info
  | MBEDTLS_MD_SHA224 => Some mbedtls_sha224_info
  | MBEDTLS_MD_SHA256 => Some mbedtls_sha256_info
  | MBEDTLS_MD_SHA384 => Some mbedtls_sha384_info
  | MBEDTLS_MD_SHA512 => Some mbedtls_sha512_info
  | MBEDTLS_MD_SHA3_224 => Some mbedtls_sha3_224_info
  | MBEDTLS_MD_SHA3_256 => Some mbedtls_sha3_256_info
  | MBEDTLS_MD_SHA3_384 => Some mbedtls_sha3_384_info
  | MBEDTLS_MD_SHA3_512 => Some mbedtls_sha3_512_info
  | MBEDTLS_MD_NONE => None
  end.

Definition mbedtls_md_get_size (md_info : option mbedtls_md_info_t) : Z :=
  match md_info with None => 0 | Some i => size i end.

Definition mbedtls_md_get_type (md_info : option mbedtls_md_info_t) : mbedtls_md_type_t :=
  match md_info with None => MBEDTLS_MD_NONE | Some i => type i end.

Definition supported_digests : list mbedtls_md_type_t :=
  [MBEDTLS_MD_SHA512; MBEDTLS_MD_SHA384; MBEDTLS_MD_SHA256; MBEDTLS_MD_SHA224; MBEDTLS_MD_SHA1;
   MBEDTLS_MD_RIPEMD160; MBEDTLS_MD_MD5; MBEDTLS_MD_SHA3_224; MBEDTLS_MD_SHA3_256; MBEDTLS_MD_SHA3_384;
   MBEDTLS_MD_SHA3_512; MBEDTLS_MD_NONE].
Definition mbedtls_md_list : list mbedtls_md_type_t := supported_digests.

Definition md_names : list (option string * mbedtls_md_type_t) :=
  [(Some "MD5"%string, MBEDTLS_MD_MD5); (Some "RIPEMD160"%string, MBEDTLS_MD_RIPEMD160);
   (Some "SHA1"%string, MBEDTLS_MD_SHA1); (Some "SHA"%string, MBEDTLS_MD_SHA1);
   (Some "SHA224"%string, MBEDTLS_MD_SHA224); (Some "SHA256"%string, MBEDTLS_MD_SHA256);
   (Some "SHA384"%string, MBEDTLS_MD_SHA384); (Some "SHA512"%string, MBEDTLS_MD_SHA512);
   (Some "SHA3-224"%string, MBEDTLS_MD_SHA3_224); (Some "SHA3-256"%string, MBEDTLS_MD_SHA3_256);
   (Some "SHA3-384"%string, MBEDTLS_MD_SHA3_384); (Some "SHA3-512"%string, MBEDTLS_MD_SHA3_512);
   (None, MBEDTLS_MD_NONE)].

(** The loops stop at the last entry of the table; running off it is a [Fault]. *)
Fixpoint find_name (md_name : string) (entries : list (option string * mbedtls_md_type_t)) : outcome mbedtls_md_type_t :=
  match entries with
  | [] => Fault
  | (None, t) :: _ => mret t
  | (Some n, t) :: entries => if String.eqb n md_name then mret t else find_name md_name entries
  end.

Definition mbedtls_md_info_from_string (md_name : option string) : outcome (option mbedtls_md_info_t) :=
  match md_name with
  | None => mret None
  | Some n => t ← find_name n md_names; mret (mbedtls_md_info_from_type t)
  end.

Fixpoint find_type (md_type : mbedtls_md_type_t) (entries : list (option string * mbedtls_md_type_t)) : outcome (option string) :=
  match entries with
  | [] => Fault
  | (n, t) :: entries =>
      if bool_decide (t = MBEDTLS_MD_NONE) || bool_decide (t = md_type) then mret n else find_type md_type entries
  end.

Definition mbedtls_md_get_name (md_info : option mbedtls_md_info_t) : outcome (option string) :=
  match md_info with None => mret None | Some i => find_type (type i) md_names end.

(** ** Contexts *)

(** What the [void *md_ctx] points to. *)
Inductive md_object :=
  | OMd5 (c : digest_ctx) | ORipemd160 (c : digest_ctx) | OSha1 (c : digest_ctx)
  | OSha256 (c : digest_ctx) | OSha512 (c : digest_ctx) | OSha3 (c : mbedtls_sha3_context).

Record mbedtls_md_context_t := MdCtx {
  md_info : option mbedtls_md_info_t;
  md_ctx : option md_object;
  hmac_ctx : option (list Z)
}.

Definition md_zero : mbedtls_md_context_t := MdCtx None None None.
Definition set_object (c : mbedtls_md_context_t) (o : md_object) : mbedtls_md_context_t :=
  MdCtx (md_info c) (Some o) (hmac_ctx c).
Definition set_hmac (c : mbedtls_md_context_t) (b : list Z) : mbedtls_md_context_t :=
  MdCtx (md_info c) (md_ctx c) (Some b).

Definition mbedtls_md_info_from_ctx (ctx : option mbedtls_md_context_t) : option mbedtls_md_info_t :=
  match ctx with None => None | Some c => md_info c end.

(** The allocator: its answers to come (success when there is none left) and the number of
    objects alive. *)
Record heap := Heap { answers : list bool; live : Z }.

Definition mbedtls_calloc (h : heap) : bool * heap :=
  match answers h with
  | [] => (true, Heap [] (live h + 1))
  | a :: l => (a, Heap l (if a then live h + 1 else live h))
  end.
Definition mbedtls_free (h : heap) : heap := Heap (answers h) (live h - 1).

Definition mbedtls_md_init (_ : mbedtls_md_context_t) : mbedtls_md_context_t := md_zero.

(** The object is the context of the function [t]. *)
Definition object_of (t : mbedtls_md_type_t) (o : md_object) : bool :=
  match t, o with
  | MBEDTLS_MD_MD5, OMd5 _ | MBEDTLS_MD_RIPEMD160, ORipemd160 _ | MBEDTLS_MD_SHA1, OSha1 _
  | (MBEDTLS_MD_SHA224 | MBEDTLS_MD_SHA256), OSha256 _ | (MBEDTLS_MD_SHA384 | MBEDTLS_MD_SHA512), OSha512 _
  | (MBEDTLS_MD_SHA3_224 | MBEDTLS_MD_SHA3_256 | MBEDTLS_MD_SHA3_384 | MBEDTLS_MD_SHA3_512), OSha3 _ => true
  | _, _ => false
  end.

(** The object is wiped as the context of the function that the info names, and freed. *)
Definition mbedtls_md_free (ctx : option mbedtls_md_context_t) (h : heap) : outcome (option mbedtls_md_context_t * heap) :=
  match ctx with
  | None => mret (None, h)
  | Some c =>
      match md_info c with
      | None => mret (Some c, h)
      | Some i =>
          h ← (match md_ctx c with
               | None => mret h
               | Some o => if bool_decide (type i = MBEDTLS_MD_NONE) || object_of (type i) o then mret (mbedtls_free h) else Fault
               end);
          h ← (match hmac_ctx c with
               | None => mret h
               | Some b => if 2 * block_size i <=? zlen b then mret (mbedtls_free h) else Fault
               end);
          mret (Some md_zero, h)
      end
  end.

Definition mbedtls_md_clone (dst src : option mbedtls_md_context_t) : outcome (Z * option mbedtls_md_context_t) :=
  match dst, src with
  | Some d, Some s =>
      match md_info d, md_info s with
      | Some di, Some si =>
          if negb (bool_decide (di = si)) then mret (MBEDTLS_ERR_MD_BAD_INPUT_DATA, dst) else
          match type si with
          | MBEDTLS_MD_NONE => mret (MBEDTLS_ERR_MD_BAD_INPUT_DATA, dst)
          | t =>
              match md_ctx d, md_ctx s with
              | Some od, Some os =>
                  if negb (object_of t od && object_of t os) then Fault else
                  match od, os with
                  | OMd5 x, OMd5 y => mret (0, Some (set_object d (OMd5 (mbedtls_md5_clone x y))))
                  | ORipemd160 x, ORipemd160 y => mret (0, Some (set_object d (ORipemd160 (mbedtls_ripemd160_clone x y))))
                  | OSha1 x, OSha1 y => mret (0, Some (set_object d (OSha1 (mbedtls_sha1_clone x y))))
                  | OSha256 x, OSha256 y => mret (0, Some (set_object d (OSha256 (mbedtls_sha256_clone x y))))
                  | OSha512 x, OSha512 y => mret (0, Some (set_object d (OSha512 (mbedtls_sha512_clone x y))))
                  | OSha3 x, OSha3 y => mret (0, Some (set_object d (OSha3 (mbedtls_sha3_clone x y))))
                  | _, _ => Fault
                  end
              | _, _ => Fault
              end
          end
      | _, _ => mret (MBEDTLS_ERR_MD_BAD_INPUT_DATA, dst)
      end
  | _, _ => mret (MBEDTLS_ERR_MD_BAD_INPUT_DATA, dst)
  end.

(** [ALLOC]: the fresh object, initialised. *)
Definition ALLOC (t : mbedtls_md_type_t) : option md_object :=
  match t with
  | MBEDTLS_MD_MD5 => Some (OMd5 (mbedtls_md5_init (zeroed 4 64)))
  | MBEDTLS_MD_RIPEMD160 => Some (ORipemd160 (mbedtls_ripemd160_init (zeroed 5 64)))
  | MBEDTLS_MD_SHA1 => Some (OSha1 (mbedtls_sha1_init (zeroed 5 64)))
  | MBEDTLS_MD_SHA224 | MBEDTLS_MD_SHA256 => Some (OSha256 (mbedtls_sha256_init (zeroed 8 64)))
  | MBEDTLS_MD_SHA384 | MBEDTLS_MD_SHA512 => Some (OSha512 (mbedtls_sha512_init (zeroed 8 128)))
  | MBEDTLS_MD_SHA3_224 | MBEDTLS_MD_SHA3_256 | MBEDTLS_MD_SHA3_384 | MBEDTLS_MD_SHA3_512 =>
      Some (OSha3 (mbedtls_sha3_init sha3_zeroed))
  | MBEDTLS_MD_NONE => None
  end.

Definition mbedtls_md_setup (ctx : option mbedtls_md_context_t) (info : option mbedtls_md_info_t) (hmac : Z) (h : heap)
    : outcome (Z * option mbedtls_md_context_t * heap) :=
  match ctx, info with
  | Some _, Some i =>
      let c := MdCtx (Some i) None None in
      match ALLOC (type i) with
      | None => mret (MBEDTLS_ERR_MD_BAD_INPUT_DATA, Some c, h)
      | Some o =>
          let '(a, h) := mbedtls_calloc h in
          if negb a then mret (MBEDTLS_ERR_MD_ALLOC_FAILED, Some c, h) else
          let c := set_object c o in
          if negb (hmac =? 0) then
            let '(a, h) := mbedtls_calloc h in
            if negb a then '(c, h) ← mbedtls_md_free (Some c) h; mret (MBEDTLS_ERR_MD_ALLOC_FAILED, c, h) else
            mret (0, Some (set_hmac c (replicate (Z.to_nat (2 * block_size i)) 0)), h)
          else mret (0, Some c, h)
      end
  | _, _ => mret (MBEDTLS_ERR_MD_BAD_INPUT_DATA, ctx, h)
  end.

(** ** Hashing *)

Section hashing.
Context (u : unrolling).

(** Runs [f] on context and info, or reports that one is missing. *)
Definition with_info {A} (ctx : option mbedtls_md_context_t) (bad : A)
    (f : mbedtls_md_context_t -> mbedtls_md_info_t -> outcome A) : outcome A :=
  match ctx with
  | None => mret bad
  | Some c => match md_info c with None => mret bad | Some i => f c i end
  end.

Definition mbedtls_md_starts (ctx : option mbedtls_md_context_t) : outcome (Z * option mbedtls_md_context_t) :=
  with_info ctx (MBEDTLS_ERR_MD_BAD_INPUT_DATA, ctx) (fun c i =>
    let put (r : Z * md_object) := mret (fst r, Some (set_object c (snd r))) in
    let sha3 id o := match o with OSha3 x => let '(r, x) := mbedtls_sha3_starts x id in put (r, OSha3 x) | _ => Fault end in
    match type i, md_ctx c with
    | MBEDTLS_MD_MD5, Some (OMd5 x) => let '(r, x) := mbedtls_md5_starts x in put (r, OMd5 x)
    | MBEDTLS_MD_RIPEMD160, Some (ORipemd160 x) => let '(r, x) := mbedtls_ripemd160_starts x in put (r, ORipemd160 x)
    | MBEDTLS_MD_SHA1, Some (OSha1 x) => let '(r, x) := mbedtls_sha1_starts x in put (r, OSha1 x)
    | MBEDTLS_MD_SHA224, Some (OSha256 x) => let '(r, x) := mbedtls_sha256_starts x 1 in put (r, OSha256 x)
    | MBEDTLS_MD_SHA256, Some (OSha256 x) => let '(r, x) := mbedtls_sha256_starts x 0 in put (r, OSha256 x)
    | MBEDTLS_MD_SHA384, Some (OSha512 x) => let '(r, x) := mbedtls_sha512_starts x 1 in put (r, OSha512 x)
    | MBEDTLS_MD_SHA512, Some (OSha512 x) => let '(r, x) := mbedtls_sha512_starts x 0 in put (r, OSha512 x)
    | MBEDTLS_MD_SHA3_224, Some o => sha3 MBEDTLS_SHA3_224 o
    | MBEDTLS_MD_SHA3_256, Some o => sha3 MBEDTLS_SHA3_256 o
    | MBEDTLS_MD_SHA3_384, Some o => sha3 MBEDTLS_SHA3_384 o
    | MBEDTLS_MD_SHA3_512, Some o => sha3 MBEDTLS_SHA3_512 o
    | MBEDTLS_MD_NONE, _ => mret (MBEDTLS_ERR_MD_BAD_INPUT_DATA, ctx)
    | _, _ => Fault
    end).

Definition mbedtls_md_update (ctx : option mbedtls_md_context_t) (input : list Z) (ilen : Z)
    : outcome (Z * option mbedtls_md_context_t) :=
  with_info ctx (MBEDTLS_ERR_MD_BAD_INPUT_DATA, ctx) (fun c i =>
    let put {T} (wrap : T -> md_object) (run : outcome (Z * T)) := '(r, x) ← run; mret (r, Some (set_object c (wrap x))) in
    match type i, md_ctx c with
    | MBEDTLS_MD_MD5, Some (OMd5 x) => put OMd5 (mbedtls_md5_update x input ilen)
    | MBEDTLS_MD_RIPEMD160, Some (ORipemd160 x) => put ORipemd160 (mbedtls_ripemd160_update x input ilen)
    | MBEDTLS_MD_SHA1, Some (OSha1 x) => put OSha1 (mbedtls_sha1_update x input ilen)
    | (MBEDTLS_MD_SHA224 | MBEDTLS_MD_SHA256), Some (OSha256 x) => put OSha256 (mbedtls_sha256_update x input ilen)
    | (MBEDTLS_MD_SHA384 | MBEDTLS_MD_SHA512), Some (OSha512 x) => put OSha512 (mbedtls_sha512_update x input ilen)
    | (MBEDTLS_MD_SHA3_224 | MBEDTLS_MD_SHA3_256 | MBEDTLS_MD_SHA3_384 | MBEDTLS_MD_SHA3_512), Some (OSha3 x) =>
        put OSha3 (mbedtls_sha3_update u x input ilen)
    | MBEDTLS_MD_NONE, _ => mret (MBEDTLS_ERR_MD_BAD_INPUT_DATA, ctx)
    | _, _ => Fault
    end).

Definition mbedtls_md_finish (ctx : option mbedtls_md_context_t) (output : list Z)
    : outcome (Z * option mbedtls_md_context_t * list Z) :=
  with_info ctx (MBEDTLS_ERR_MD_BAD_INPUT_DATA, ctx, output) (fun c i =>
    let put {T} (wrap : T -> md_object) (run : outcome (Z * T * list Z)) :=
      '(r, x, output) ← run; mret (r, Some (set_object c (wrap x)), output) in
    match type i, md_ctx c with
    | MBEDTLS_MD_MD5, Some (OMd5 x) => put OMd5 (mbedtls_md5_finish x output)
    | MBEDTLS_MD_RIPEMD160, Some (ORipemd160 x) => put ORipemd160 (mbedtls_ripemd160_finish x output)
    | MBEDTLS_MD_SHA1, Some (OSha1 x) => put OSha1 (mbedtls_sha1_finish x output)
    | (MBEDTLS_MD_SHA224 | MBEDTLS_MD_SHA256), Some (OSha256 x) => put OSha256 (mbedtls_sha256_finish x output)
    | (MBEDTLS_MD_SHA384 | MBEDTLS_MD_SHA512), Some (OSha512 x) => put OSha512 (mbedtls_sha512_finish x output)
    | (MBEDTLS_MD_SHA3_224 | MBEDTLS_MD_SHA3_256 | MBEDTLS_MD_SHA3_384 | MBEDTLS_MD_SHA3_512), Some (OSha3 x) =>
        put OSha3 (mbedtls_sha3_finish u x output (size i))
    | MBEDTLS_MD_NONE, _ => mret (MBEDTLS_ERR_MD_BAD_INPUT_DATA, ctx, output)
    | _, _ => Fault
    end).

Definition mbedtls_md (info : option mbedtls_md_info_t) (input : list Z) (ilen : Z) (output : list Z) : outcome (Z * list Z) :=
  match info with
  | None => mret (MBEDTLS_ERR_MD_BAD_INPUT_DATA, output)
  | Some i =>
      match type i with
      | MBEDTLS_MD_MD5 => mbedtls_md5 input ilen output
      | MBEDTLS_MD_RIPEMD160 => mbedtls_ripemd160 input ilen output
      | MBEDTLS_MD_SHA1 => mbedtls_sha1 input ilen output
      | MBEDTLS_MD_SHA224 => mbedtls_sha256 input ilen output 1
      | MBEDTLS_MD_SHA256 => mbedtls_sha256 input ilen output 0
      | MBEDTLS_MD_SHA384 => mbedtls_sha512 input ilen output 1
      | MBEDTLS_MD_SHA512 => mbedtls_sha512 input ilen output 0
      | MBEDTLS_MD_SHA3_224 => mbedtls_sha3 u MBEDTLS_SHA3_224 input ilen output (size i)
      | MBEDTLS_MD_SHA3_256 => mbedtls_sha3 u MBEDTLS_SHA3_256 input ilen output (size i)
      | MBEDTLS_MD_SHA3_384 => mbedtls_sha3 u MBEDTLS_SHA3_384 input ilen output (size i)
      | MBEDTLS_MD_SHA3_512 => mbedtls_sha3 u MBEDTLS_SHA3_512 input ilen output (size i)
      | MBEDTLS_MD_NONE => mret (MBEDTLS_ERR_MD_BAD_INPUT_DATA, output)
      end
  end.

(** ** HMAC

    [w] is the size of the words [mbedtls_xor] works with.  The buffers [sum] and [tmp] are
    uninitialised in the code; the bytes that are used of them have been written. *)

Context (w : Z).

Definition with_hmac {A} (ctx : option mbedtls_md_context_t) (bad : A)
    (f : mbedtls_md_context_t -> mbedtls_md_info_t -> list Z -> outcome A) : outcome A :=
  with_info ctx bad (fun c i => match hmac_ctx c with None => mret bad | Some b => f c i b end).

Definition mbedtls_md_hmac_starts (ctx : option mbedtls_md_context_t) (key : list Z) (keylen : Z)
    : outcome (Z * option mbedtls_md_context_t) :=
  with_hmac ctx (MBEDTLS_ERR_MD_BAD_INPUT_DATA, ctx) (fun c i b =>
    '(ret, ctx, key, keylen) ←
      (if keylen >? block_size i then
         '(ret, ctx) ← mbedtls_md_starts ctx;
         if negb (ret =? 0) then mret (ret, ctx, key, keylen) else
         '(ret, ctx) ← mbedtls_md_update ctx key keylen;
         if negb (ret =? 0) then mret (ret, ctx, key, keylen) else
         '(ret, ctx, sum) ← mbedtls_md_finish ctx (replicate (Z.to_nat MBEDTLS_MD_MAX_SIZE) 0);
         if negb (ret =? 0) then mret (ret, ctx, key, keylen) else
         mret (0, ctx, sum, size i)
       else mret (0, ctx, key, keylen));
    if negb (ret =? 0) then mret (ret, ctx) else
    b ← store b 0 (replicate (Z.to_nat (block_size i)) 0x36);
    b ← store b (block_size i) (replicate (Z.to_nat (block_size i)) 0x5C);
    b ← mbedtls_xor w b 0 b 0 key 0 keylen;
    b ← mbedtls_xor w b (block_size i) b (block_size i) key 0 keylen;
    let ctx := (fun c => set_hmac c b) <$> ctx in
    '(ret, ctx) ← mbedtls_md_starts ctx;
    if negb (ret =? 0) then mret (ret, ctx) else
    mbedtls_md_update ctx b (block_size i)).

Definition mbedtls_md_hmac_update (ctx : option mbedtls_md_context_t) (input : list Z) (ilen : Z)
    : outcome (Z * option mbedtls_md_context_t) :=
  with_hmac ctx (MBEDTLS_ERR_MD_BAD_INPUT_DATA, ctx) (fun _ _ _ => mbedtls_md_update ctx input ilen).

Definition mbedtls_md_hmac_finish (ctx : option mbedtls_md_context_t) (output : list Z)
    : outcome (Z * option mbedtls_md_context_t * list Z) :=
  with_hmac ctx (MBEDTLS_ERR_MD_BAD_INPUT_DATA, ctx, output) (fun c i b =>
    '(ret, ctx, tmp) ← mbedtls_md_finish ctx (replicate (Z.to_nat MBEDTLS_MD_MAX_SIZE) 0);
    if negb (ret =? 0) then mret (ret, ctx, output) else
    '(ret, ctx) ← mbedtls_md_starts ctx;
    if negb (ret =? 0) then mret (ret, ctx, output) else
    '(ret, ctx) ← mbedtls_md_update ctx (zdrop (block_size i) b) (block_size i);
    if negb (ret =? 0) then mret (ret, ctx, output) else
    '(ret, ctx) ← mbedtls_md_update ctx tmp (size i);
    if negb (ret =? 0) then mret (ret, ctx, output) else
    mbedtls_md_finish ctx output).

Definition mbedtls_md_hmac_reset (ctx : option mbedtls_md_context_t) : outcome (Z * option mbedtls_md_context_t) :=
  with_hmac ctx (MBEDTLS_ERR_MD_BAD_INPUT_DATA, ctx) (fun c i b =>
    '(ret, ctx) ← mbedtls_md_starts ctx;
    if negb (ret =? 0) then mret (ret, ctx) else
    mbedtls_md_update ctx b (block_size i)).

Definition mbedtls_md_hmac (info : option mbedtls_md_info_t) (key : list Z) (keylen : Z) (input : list Z) (ilen : Z)
    (output : list Z) (h : heap) : outcome (Z * list Z * heap) :=
  match info with
  | None => mret (MBEDTLS_ERR_MD_BAD_INPUT_DATA, output, h)
  | Some i =>
      let ctx := Some (mbedtls_md_init md_zero) in
      '(ret, ctx, h) ← mbedtls_md_setup ctx (Some i) 1 h;
      '(ret, ctx, output) ←
        (if negb (ret =? 0) then mret (ret, ctx, output) else
         '(ret, ctx) ← mbedtls_md_hmac_starts ctx key keylen;
         if negb (ret =? 0) then mret (ret, ctx, output) else
         '(ret, ctx) ← mbedtls_md_hmac_update ctx input ilen;
         if negb (ret =? 0) then mret (ret, ctx, output) else
         mbedtls_md_hmac_finish ctx output);
      '(_, h) ← mbedtls_md_free ctx h;
      mret (ret, output, h)
  end.

End hashing.

(** ** What the layer promises *)

(** The hash function of a type, the pieces it may be given and the name of its info. *)
Definition md_digest (t : mbedtls_md_type_t) : list Z -> list Z :=
  match t with
  | MBEDTLS_MD_NONE => fun _ => []
  | MBEDTLS_MD_MD5 => md5
  | MBEDTLS_MD_RIPEMD160 => ripemd160
  | MBEDTLS_MD_SHA1 => sha1
  | MBEDTLS_MD_SHA224 => sha224
  | MBEDTLS_MD_SHA256 => sha256
  | MBEDTLS_MD_SHA384 => sha384
  | MBEDTLS_MD_SHA512 => sha512
  | MBEDTLS_MD_SHA3_224 => sha3 224
  | MBEDTLS_MD_SHA3_256 => sha3 256
  | MBEDTLS_MD_SHA3_384 => sha3 384
  | MBEDTLS_MD_SHA3_512 => sha3 512
  end.

Definition md_limit (t : mbedtls_md_type_t) : Z :=
  match t with
  | MBEDTLS_MD_MD5 | MBEDTLS_MD_RIPEMD160 | MBEDTLS_MD_SHA1 | MBEDTLS_MD_SHA224 | MBEDTLS_MD_SHA256 => 2 ^ 32
  | _ => 2 ^ 64
  end.

Section laws.
Context (u : unrolling).

#[local] Instance sha3_224 : Streaming (2 ^ 64) 28 (sha3 224) (sha3_start MBEDTLS_SHA3_224) (mbedtls_sha3_update u)
  (fun c output => mbedtls_sha3_finish u c output 28).
Proof. refine (sha3_streaming u MBEDTLS_SHA3_224 28 _ _); by vm_compute. Defined.
#[local] Instance sha3_256 : Streaming (2 ^ 64) 32 (sha3 256) (sha3_start MBEDTLS_SHA3_256) (mbedtls_sha3_update u)
  (fun c output => mbedtls_sha3_finish u c output 32).
Proof. refine (sha3_streaming u MBEDTLS_SHA3_256 32 _ _); by vm_compute. Defined.
#[local] Instance sha3_384 : Streaming (2 ^ 64) 48 (sha3 384) (sha3_start MBEDTLS_SHA3_384) (mbedtls_sha3_update u)
  (fun c output => mbedtls_sha3_finish u c output 48).
Proof. refine (sha3_streaming u MBEDTLS_SHA3_384 48 _ _); by vm_compute. Defined.
#[local] Instance sha3_512 : Streaming (2 ^ 64) 64 (sha3 512) (sha3_start MBEDTLS_SHA3_512) (mbedtls_sha3_update u)
  (fun c output => mbedtls_sha3_finish u c output 64).
Proof. refine (sha3_streaming u MBEDTLS_SHA3_512 64 _ _); by vm_compute. Defined.

(** The object is shaped as the context of [t]; it holds the message [m]. *)
Definition md_shaped (t : mbedtls_md_type_t) (o : md_object) : Prop :=
  match t, o with
  | MBEDTLS_MD_MD5, OMd5 c => shaped (Streaming := md5_streaming) c
  | MBEDTLS_MD_RIPEMD160, ORipemd160 c => shaped (Streaming := ripemd160_streaming) c
  | MBEDTLS_MD_SHA1, OSha1 c => shaped (Streaming := sha1_streaming) c
  | MBEDTLS_MD_SHA224, OSha256 c => shaped (Streaming := sha256_streaming true) c
  | MBEDTLS_MD_SHA256, OSha256 c => shaped (Streaming := sha256_streaming false) c
  | MBEDTLS_MD_SHA384, OSha512 c => shaped (Streaming := sha512_streaming true) c
  | MBEDTLS_MD_SHA512, OSha512 c => shaped (Streaming := sha512_streaming false) c
  | MBEDTLS_MD_SHA3_224, OSha3 c => shaped (Streaming := sha3_224) c
  | MBEDTLS_MD_SHA3_256, OSha3 c => shaped (Streaming := sha3_256) c
  | MBEDTLS_MD_SHA3_384, OSha3 c => shaped (Streaming := sha3_384) c
  | MBEDTLS_MD_SHA3_512, OSha3 c => shaped (Streaming := sha3_512) c
  | _, _ => False
  end.

Definition md_holds (t : mbedtls_md_type_t) (m : list Z) (o : md_object) : Prop :=
  match t, o with
  | MBEDTLS_MD_MD5, OMd5 c => holds (Streaming := md5_streaming) m c
  | MBEDTLS_MD_RIPEMD160, ORipemd160 c => holds (Streaming := ripemd160_streaming) m c
  | MBEDTLS_MD_SHA1, OSha1 c => holds (Streaming := sha1_streaming) m c
  | MBEDTLS_MD_SHA224, OSha256 c => holds (Streaming := sha256_streaming true) m c
  | MBEDTLS_MD_SHA256, OSha256 c => holds (Streaming := sha256_streaming false) m c
  | MBEDTLS_MD_SHA384, OSha512 c => holds (Streaming := sha512_streaming true) m c
  | MBEDTLS_MD_SHA512, OSha512 c => holds (Streaming := sha512_streaming false) m c
  | MBEDTLS_MD_SHA3_224, OSha3 c => holds (Streaming := sha3_224) m c
  | MBEDTLS_MD_SHA3_256, OSha3 c => holds (Streaming := sha3_256) m c
  | MBEDTLS_MD_SHA3_384, OSha3 c => holds (Streaming := sha3_384) m c
  | MBEDTLS_MD_SHA3_512, OSha3 c => holds (Streaming := sha3_512) m c
  | _, _ => False
  end.

(** The context of [t] with the object [o] and the pads [b]. *)
Definition md_of (t : mbedtls_md_type_t) (o : md_object) (b : option (list Z)) : option mbedtls_md_context_t :=
  Some (MdCtx (mbedtls_md_info_from_type t) (Some o) b).

Lemma md_holds_shaped t m o : md_holds t m o -> md_shaped t o.
Proof. destruct t, o; cbn [md_holds md_shaped]; try done; apply holds_shaped. Qed.

(** A case per hash function, with the tables looked up. *)
Ltac md_cases t o :=
  destruct t, o as [c|c|c|c|c|c]; cbn [md_shaped md_holds]; try done;
  cbn [md_info mbedtls_md_info_from_type md_ctx type size
    mbedtls_md5_info mbedtls_ripemd160_info mbedtls_sha1_info mbedtls_sha224_info mbedtls_sha256_info mbedtls_sha384_info
    mbedtls_sha512_info mbedtls_sha3_224_info mbedtls_sha3_256_info mbedtls_sha3_384_info mbedtls_sha3_512_info].

Lemma md_starts_ok t o b : md_shaped t o -> exists o', mbedtls_md_starts (md_of t o b) = Done (0, md_of t o' b) /\ md_holds t [] o'.
Proof.
  unfold mbedtls_md_starts, md_of, with_info. md_cases t o; intros Hs; apply start_ok in Hs as (c' & E & Hc);
    unfold sha256_start, sha512_start, sha3_start in E; cbn [Z.b2z] in E; rewrite E; eexists; (split; [reflexivity|exact Hc]).
Qed.

Lemma md_update_ok t m o b input n : md_holds t m o -> is_bytes input -> 0 <= n <= zlen input -> n < md_limit t ->
  exists o', mbedtls_md_update u (md_of t o b) input n = Done (0, md_of t o' b) /\ md_holds t (m ++ ztake n input) o'.
Proof.
  unfold mbedtls_md_update, md_of, with_info. intros Hm Bi Hn Hl. revert Hm Hl.
  md_cases t o; intros Hm Hl; destruct (update_ok m c input n Hm Bi Hn Hl) as (c' & -> & Hc); eexists; (split; [reflexivity|exact Hc]).
Qed.

Lemma md_size_ok_with t i : mbedtls_md_info_from_type t = Some i ->
  type i = t /\ 16 <= size i <= 64 /\ size i <= block_size i /\ 64 <= block_size i <= 144 /\
  forall m, is_bytes m -> is_bytes (md_digest t m) /\ zlen (md_digest t m) = size i.
Proof.
  destruct t; intros [= <-]; (split; [done|]); (split; [by vm_compute|]); (split; [by vm_compute|]); (split; [by vm_compute|]); intros m Bm; cbn [md_digest size].
  - apply (hash_ok (Streaming := md5_streaming) m Bm).
  - apply (hash_ok (Streaming := ripemd160_streaming) m Bm).
  - apply (hash_ok (Streaming := sha1_streaming) m Bm).
  - apply (hash_ok (Streaming := sha256_streaming true) m Bm).
  - apply (hash_ok (Streaming := sha256_streaming false) m Bm).
  - apply (hash_ok (Streaming := sha512_streaming true) m Bm).
  - apply (hash_ok (Streaming := sha512_streaming false) m Bm).
  - apply (hash_ok (Streaming := sha3_224) m Bm).
  - apply (hash_ok (Streaming := sha3_256) m Bm).
  - apply (hash_ok (Streaming := sha3_384) m Bm).
  - apply (hash_ok (Streaming := sha3_512) m Bm).
Qed.

Lemma md_finish_ok t i m o b output : mbedtls_md_info_from_type t = Some i -> md_holds t m o -> size i <= zlen output ->
  exists o', mbedtls_md_finish u (md_of t o b) output = Done (0, md_of t o' b, splice output 0 (md_digest t m)) /\ md_shaped t o'.
Proof.
  unfold mbedtls_md_finish, md_of, with_info. intros Hi Hm Ho. revert Hi Hm Ho.
  md_cases t o; intros [= <-] Hm Ho; destruct (finish_ok m c output Hm Ho) as (c' & E & Hc); rewrite E; eexists; (split; [reflexivity|exact Hc]).
Qed.

Lemma md_alloc_ok t i : mbedtls_md_info_from_type t = Some i -> exists o, ALLOC (type i) = Some o /\ md_shaped t o.
Proof.
  destruct t; intros [= <-]; cbn [type]; eexists; (split; [reflexivity|]); cbn [md_shaped]; try exact I;
    (hnf; split; [by apply is_bytes_replicate|done]).
Qed.

Lemma md_shaped_object t o : md_shaped t o -> object_of t o = true.
Proof. destruct t, o; done. Qed.

Lemma md_one_call t i input n output : mbedtls_md_info_from_type t = Some i -> is_bytes input -> 0 <= n <= zlen input -> n < md_limit t ->
  size i <= zlen output -> mbedtls_md u (Some i) input n output = Done (0, splice output 0 (md_digest t (ztake n input))).
Proof.
  unfold mbedtls_md. intros Hi Bi Hn Hl Ho. revert Hi Hl Ho. destruct t; intros [= <-] Hl Ho; cbn [type size md_digest] in *.
  - by apply md5_correct.
  - by apply ripemd160_correct.
  - by apply sha1_correct.
  - rewrite (sha256_correct input n output 1 Bi Hn Hl Ho). reflexivity.
  - rewrite (sha256_correct input n output 0 Bi Hn Hl Ho). reflexivity.
  - rewrite (sha512_correct input n output 1 Bi Hn Hl Ho). reflexivity.
  - rewrite (sha512_correct input n output 0 Bi Hn Hl Ho). reflexivity.
  - by apply (sha3_one_call u MBEDTLS_SHA3_224).
  - by apply (sha3_one_call u MBEDTLS_SHA3_256).
  - by apply (sha3_one_call u MBEDTLS_SHA3_384).
  - by apply (sha3_one_call u MBEDTLS_SHA3_512).
Qed.

End laws.

Lemma md_size_ok t i : mbedtls_md_info_from_type t = Some i ->
  type i = t /\ 16 <= size i <= 64 /\ size i <= block_size i /\ 64 <= block_size i <= 144 /\
  forall m, is_bytes m -> is_bytes (md_digest t m) /\ zlen (md_digest t m) = size i.
Proof. apply (md_size_ok_with (Unrolling false false false false)). Qed.

(** ** HMAC

    RFC 2104: the key, hashed when it is longer than a block, is padded with zeros. *)

Definition md_block (t : mbedtls_md_type_t) : Z := match mbedtls_md_info_from_type t with Some i => block_size i | None => 0 end.

Definition hmac_key (t : mbedtls_md_type_t) (key : list Z) : list Z :=
  let k := if zlen key >? md_block t then md_digest t key else key in
  k ++ replicate (Z.to_nat (md_block t - zlen k)) 0.

Definition pad_with (x : Z) (k : list Z) : list Z := map (Z.lxor x) k.

Definition hmac (t : mbedtls_md_type_t) (key m : list Z) : list Z :=
  let k := hmac_key t key in
  md_digest t (pad_with 0x5C k ++ md_digest t (pad_with 0x36 k ++ m)).

(** The two pads, as the context keeps them. *)
Definition pads (t : mbedtls_md_type_t) (key : list Z) : list Z :=
  pad_with 0x36 (hmac_key t key) ++ pad_with 0x5C (hmac_key t key).

Lemma xor_region w p B v q key n : 0 < w -> 0 <= n <= B -> n <= zlen key ->
  let b := p ++ replicate (Z.to_nat B) v ++ q in
  mbedtls_xor w b (zlen p) b (zlen p) key 0 n = Done (p ++ pad_with v (ztake n key ++ replicate (Z.to_nat (B - n)) 0) ++ q).
Proof.
  intros Hw Hn Hk b. pose proof (zlen_nonneg p). pose proof (zlen_nonneg q).
  assert (zlen b = zlen p + B + zlen q) as Lb by (unfold b; rewrite !zlen_app, zlen_replicate; lia).
  assert (splice b 0 p = b) as Eb by (unfold b, splice; rewrite zdrop_app_r, Z.add_0_l, Z.sub_diag, zdrop_0 by lia; done).
  rewrite <- Eb at 1. rewrite mbedtls_xor_spec by lia. f_equal. rewrite zdrop_0.
  assert (zip_with Z.lxor (ztake n (zdrop (zlen p) b)) (ztake n key) = pad_with v (ztake n key)) as ->.
  { unfold b. rewrite zdrop_app_r, Z.sub_diag, zdrop_0, ztake_app_l by (rewrite ?zlen_replicate; lia).
    unfold ztake. rewrite take_replicate. replace (Z.to_nat n `min` Z.to_nat B)%nat with (length (take (Z.to_nat n) key)).
    2:{ rewrite length_take. unfold zlen in Hk. lia. }
    unfold pad_with. generalize (take (Z.to_nat n) key). intros l. induction l as [|x l IH]; [done|]. cbn [length replicate zip_with map]. by rewrite IH. }
  assert (zlen (pad_with v (ztake n key)) = n) as Lz by (unfold pad_with; rewrite zlen_map; apply zlen_ztake; lia).
  unfold splice, pad_with. rewrite map_app, <- !app_assoc. cbn [Z.add]. change (ztake 0 b) with (@nil Z). cbn [app]. do 2 f_equal.
  fold (pad_with v (ztake n key)). rewrite zlen_app, Lz. unfold b. rewrite zdrop_app_r by lia.
  replace (zlen p + n - zlen p) with n by lia. rewrite zdrop_app_l by (rewrite zlen_replicate; lia). f_equal.
  unfold zdrop. rewrite drop_replicate, (fmap_replicate (Z.lxor v)), Z.lxor_0_r. f_equal. lia.
Qed.

Lemma hmac_key_ok t i key : mbedtls_md_info_from_type t = Some i -> is_bytes key ->
  is_bytes (hmac_key t key) /\ zlen (hmac_key t key) = block_size i.
Proof.
  intros Hi Bk. destruct (md_size_ok t i Hi) as (_ & Hs & Hsb & HB & Hd). unfold hmac_key, md_block. rewrite Hi.
  cbv zeta. set (k := if zlen key >? block_size i then _ else _).
  assert (is_bytes k /\ zlen k <= block_size i) as [Bk' Lk].
  { unfold k. rewrite Z.gtb_ltb. destruct (Z.ltb_spec (block_size i) (zlen key)); [|done]. destruct (Hd key Bk) as [? ->]. split; [done|lia]. }
  split; [apply is_bytes_app; [done|by apply is_bytes_replicate]|]. rewrite zlen_app, zlen_replicate. lia.
Qed.

Lemma pad_with_bytes x k : is_byte x -> is_bytes k -> is_bytes (pad_with x k).
Proof.
  intros Hx Hk. unfold pad_with. apply Forall_map. apply (Forall_impl _ _ _ Hk). intros y Hy.
  apply (lxor_below 8 x y); [lia|exact Hx|exact Hy].
Qed.

Lemma pads_ok t i key : mbedtls_md_info_from_type t = Some i -> is_bytes key ->
  is_bytes (pads t key) /\ zlen (pads t key) = 2 * block_size i /\
  ztake (block_size i) (pads t key) = pad_with 0x36 (hmac_key t key) /\ zdrop (block_size i) (pads t key) = pad_with 0x5C (hmac_key t key).
Proof.
  intros Hi Bk. destruct (hmac_key_ok t i key Hi Bk) as [B L]. unfold pads.
  assert (forall x, zlen (pad_with x (hmac_key t key)) = block_size i) as Lp by (intros; unfold pad_with; by rewrite zlen_map).
  split; [apply is_bytes_app; by apply pad_with_bytes|]. split; [rewrite zlen_app, !Lp; lia|]. split.
  - rewrite ztake_app_l by (rewrite Lp; lia). apply ztake_all. rewrite Lp. lia.
  - rewrite zdrop_app_r by (rewrite Lp; lia). by rewrite Lp, Z.sub_diag.
Qed.

Lemma hmac_ok t i key m : mbedtls_md_info_from_type t = Some i -> is_bytes key -> is_bytes m ->
  is_bytes (hmac t key m) /\ zlen (hmac t key m) = size i.
Proof.
  intros Hi Bk Bm. destruct (md_size_ok t i Hi) as (_ & _ & _ & _ & Hd). destruct (hmac_key_ok t i key Hi Bk) as [Bh _].
  unfold hmac. cbv zeta. apply Hd, is_bytes_app; [by apply pad_with_bytes|]. apply Hd, is_bytes_app; [by apply pad_with_bytes|done].
Qed.

(** Writing the pads. *)
Lemma pads_written {A} w B key n b (f : list Z -> outcome A) : 0 < w -> 0 <= n <= B -> n <= zlen key -> zlen b = 2 * B ->
  (b ← store b 0 (replicate (Z.to_nat B) 0x36); b ← store b B (replicate (Z.to_nat B) 0x5C);
   b ← mbedtls_xor w b 0 b 0 key 0 n; b ← mbedtls_xor w b B b B key 0 n; f b) =
  (let k := ztake n key ++ replicate (Z.to_nat (B - n)) 0 in f (pad_with 0x36 k ++ pad_with 0x5C k)).
Proof.
  intros Hw Hn Hk Lb.
  assert (forall x : Z, zlen (replicate (Z.to_nat B) x) = B) as LR by (intros; rewrite zlen_replicate; lia).
  rewrite store_Done, bind_Done by (rewrite ?LR; lia). change (ztake 0 b) with (@nil Z). cbn [app]. rewrite LR, Z.add_0_l.
  rewrite store_Done, bind_Done by (rewrite ?zlen_app, ?LR, ?zlen_zdrop; lia).
  rewrite ztake_app_l, (ztake_all B (replicate _ _)), LR by (rewrite LR; lia).
  rewrite (zdrop_all (B + B)), app_nil_r by (rewrite zlen_app, LR, zlen_zdrop; lia).
  pose proof (xor_region w [] B 0x36 (replicate (Z.to_nat B) 0x5C) key n Hw Hn Hk) as X. cbv zeta in X. cbn [app] in X.
  rewrite (zlen_nil : zlen (@nil Z) = 0) in X. rewrite X, bind_Done.
  set (k := ztake n key ++ replicate (Z.to_nat (B - n)) 0).
  assert (zlen k = B) as Lk by (unfold k; rewrite zlen_app, zlen_ztake, zlen_replicate by lia; lia).
  assert (zlen (pad_with 0x36 k) = B) as Lp by (unfold pad_with; by rewrite zlen_map).
  pose proof (xor_region w (pad_with 0x36 k) B 0x5C [] key n Hw Hn Hk) as Y. cbv zeta in Y. rewrite !app_nil_r, Lp in Y. rewrite Y, bind_Done. done.
Qed.

Section hmac_laws.
Context (u : unrolling) (w : Z) (Hw : 0 < w).
Context (t : mbedtls_md_type_t) (i : mbedtls_md_info_t) (Hi : mbedtls_md_info_from_type t = Some i).

Lemma with_hmac_of {A} o b (bad : A) f : with_hmac (md_of t o (Some b)) bad f = f (MdCtx (Some i) (Some o) (Some b)) i b.
Proof using Hi. unfold with_hmac, with_info, md_of. cbn [md_info hmac_ctx]. by rewrite Hi. Qed.

Lemma md_block_of : md_block t = block_size i.
Proof using Hi. unfold md_block. by rewrite Hi. Qed.

(** The key that is padded. *)
Lemma hmac_key_part key n : 0 <= n <= zlen key -> n <= block_size i ->
  hmac_key t (ztake n key) = ztake n key ++ replicate (Z.to_nat (block_size i - n)) 0.
Proof using Hi.
  intros Hn Hb. unfold hmac_key. rewrite md_block_of, zlen_ztake, Z.gtb_ltb, (proj2 (Z.ltb_ge _ _)) by lia.
  by rewrite zlen_ztake by lia.
Qed.

Lemma hmac_key_hashed key n : is_bytes key -> 0 <= n <= zlen key -> block_size i < n ->
  hmac_key t (ztake n key) = md_digest t (ztake n key) ++ replicate (Z.to_nat (block_size i - size i)) 0.
Proof using Hi.
  intros Bk Hn Hb. unfold hmac_key. rewrite md_block_of, zlen_ztake, Z.gtb_ltb, (proj2 (Z.ltb_lt _ _)) by lia.
  destruct (md_size_ok t i Hi) as (_ & _ & _ & _ & Hd). by destruct (Hd (ztake n key) ltac:(auto with zlist)) as [_ ->].
Qed.

Lemma hmac_starts_ok o b key n : md_shaped u t o -> zlen b = 2 * block_size i -> is_bytes key -> 0 <= n <= zlen key -> n < md_limit t ->
  exists o', mbedtls_md_hmac_starts u w (md_of t o (Some b)) key n = Done (0, md_of t o' (Some (pads t (ztake n key)))) /\
    md_holds u t (pad_with 0x36 (hmac_key t (ztake n key))) o'.
Proof using Hi Hw.
  intros Hs Lb Bk Hn Hl. destruct (md_size_ok t i Hi) as (_ & Hsz & Hsb & HB & Hd).
  assert (forall o1 key' n', md_shaped u t o1 -> 0 <= n' <= block_size i -> n' <= zlen key' ->
    hmac_key t (ztake n key) = ztake n' key' ++ replicate (Z.to_nat (block_size i - n')) 0 ->
    exists o', (b ← store b 0 (replicate (Z.to_nat (block_size i)) 0x36); b ← store b (block_size i) (replicate (Z.to_nat (block_size i)) 0x5C);
      b ← mbedtls_xor w b 0 b 0 key' 0 n'; b' ← mbedtls_xor w b (block_size i) b (block_size i) key' 0 n';
      '(ret, ctx) ← mbedtls_md_starts (md_of t o1 (Some b'));
      if negb (ret =? 0) then mret (ret, ctx) else mbedtls_md_update u ctx b' (block_size i)) =
      Done (0, md_of t o' (Some (pads t (ztake n key)))) /\ md_holds u t (pad_with 0x36 (hmac_key t (ztake n key))) o') as Rest.
  { intros o1 key' n' Hs1 Hn' Hk' Ek. rewrite (pads_written w (block_size i) key' n' b _ Hw Hn' Hk' Lb). cbv zeta. rewrite <- Ek.
    fold (pads t (ztake n key)). destruct (pads_ok t i (ztake n key) Hi ltac:(auto with zlist)) as (Bp & Lp & Tp & _).
    destruct (md_starts_ok u t o1 (Some (pads t (ztake n key))) Hs1) as (o2 & -> & H2). rewrite bind_Done. cbn [Z.eqb negb].
    destruct (md_update_ok u t [] o2 (Some (pads t (ztake n key))) (pads t (ztake n key)) (block_size i) H2 Bp ltac:(lia)) as (o3 & -> & H3).
    { destruct t; cbn; lia. }
    rewrite Tp in H3. by exists o3. }
  unfold mbedtls_md_hmac_starts. rewrite with_hmac_of, Z.gtb_ltb. destruct (Z.ltb_spec (block_size i) n).
  - destruct (md_starts_ok u t o (Some b) Hs) as (o1 & -> & H1). rewrite !bind_Done. cbn [Z.eqb negb].
    destruct (md_update_ok u t [] o1 (Some b) key n H1 Bk Hn Hl) as (o2 & -> & H2). rewrite bind_Done. cbn [Z.eqb negb app] in *.
    destruct (md_finish_ok u t i _ o2 (Some b) (replicate (Z.to_nat MBEDTLS_MD_MAX_SIZE) 0) Hi H2) as (o3 & -> & H3).
    { rewrite zlen_replicate. unfold MBEDTLS_MD_MAX_SIZE. lia. }
    rewrite bind_Done. cbn [Z.eqb negb]. rewrite bind_Done. cbn [Z.eqb negb].
    destruct (Hd (ztake n key) ltac:(auto with zlist)) as [Bd Ld].
    set (sum := splice _ _ _). assert (ztake (size i) sum = md_digest t (ztake n key) /\ zlen sum = 64) as [Es Lsum].
    { unfold sum. rewrite <- Ld. split; [apply splice_0_prefix|rewrite zlen_splice]; rewrite ?zlen_replicate, ?Ld; unfold MBEDTLS_MD_MAX_SIZE; lia. }
    clearbody sum. apply (Rest o3 sum (size i)); [done|lia..|]. rewrite Es. by apply hmac_key_hashed.
  - rewrite bind_Done. cbn [Z.eqb negb]. apply (Rest o key n); [done|lia..|]. apply hmac_key_part; lia.
Qed.

Lemma hmac_update_ok o b m input n : md_holds u t m o -> is_bytes input -> 0 <= n <= zlen input -> n < md_limit t ->
  exists o', mbedtls_md_hmac_update u (md_of t o (Some b)) input n = Done (0, md_of t o' (Some b)) /\ md_holds u t (m ++ ztake n input) o'.
Proof using Hi. intros. unfold mbedtls_md_hmac_update. rewrite with_hmac_of. by apply md_update_ok. Qed.

(** The outer hash of whatever the inner one has been given. *)
Lemma hmac_finish_gen o key m output : is_bytes key -> is_bytes m -> md_holds u t m o -> size i <= zlen output ->
  exists o', mbedtls_md_hmac_finish u (md_of t o (Some (pads t key))) output =
      Done (0, md_of t o' (Some (pads t key)), splice output 0 (md_digest t (pad_with 0x5C (hmac_key t key) ++ md_digest t m))) /\ md_shaped u t o'.
Proof using Hi.
  intros Bk Bm Hm Ho. destruct (md_size_ok t i Hi) as (_ & Hsz & Hsb & HB & Hd). destruct (pads_ok t i key Hi Bk) as (Bp & Lp & _ & Dp).
  destruct (hmac_key_ok t i key Hi Bk) as [Bh Lh].
  assert (size i < md_limit t /\ block_size i < md_limit t) as [L1 L2] by (destruct t; cbn; lia).
  unfold mbedtls_md_hmac_finish. rewrite with_hmac_of.
  destruct (md_finish_ok u t i _ o (Some (pads t key)) (replicate (Z.to_nat MBEDTLS_MD_MAX_SIZE) 0) Hi Hm) as (o1 & -> & H1).
  { rewrite zlen_replicate. unfold MBEDTLS_MD_MAX_SIZE. lia. }
  rewrite bind_Done. cbn [Z.eqb negb]. destruct (Hd m Bm) as [Bd Ld].
  set (tmp := splice _ _ _). assert (ztake (size i) tmp = md_digest t m /\ zlen tmp = 64 /\ is_bytes tmp) as (Et & Lt & Bt).
  { unfold tmp. rewrite <- Ld. split_and!; [apply splice_0_prefix|rewrite zlen_splice|]; rewrite ?zlen_replicate, ?Ld; unfold MBEDTLS_MD_MAX_SIZE; try lia.
    apply is_bytes_splice; [by apply is_bytes_replicate|done]. }
  clearbody tmp. destruct (md_starts_ok u t o1 (Some (pads t key)) H1) as (o2 & -> & H2). rewrite bind_Done. cbn [Z.eqb negb].
  destruct (md_update_ok u t [] o2 (Some (pads t key)) (zdrop (block_size i) (pads t key)) (block_size i) H2) as (o3 & -> & H3);
    [auto with zlist|rewrite zlen_zdrop; lia|done|]. rewrite bind_Done. cbn [Z.eqb negb app] in *.
  destruct (md_update_ok u t _ o3 (Some (pads t key)) tmp (size i) H3 Bt ltac:(lia) L1) as (o4 & -> & H4). rewrite bind_Done. cbn [Z.eqb negb].
  rewrite Dp, Et in H4. assert (zlen (pad_with 0x5C (hmac_key t key)) = block_size i) as Lo by (unfold pad_with; by rewrite zlen_map).
  rewrite (ztake_all _ (pad_with _ _)) in H4 by lia. exact (md_finish_ok u t i _ o4 _ output Hi H4 Ho).
Qed.

Lemma hmac_finish_ok o key m output : is_bytes key -> is_bytes m -> md_holds u t (pad_with 0x36 (hmac_key t key) ++ m) o -> size i <= zlen output ->
  exists o', mbedtls_md_hmac_finish u (md_of t o (Some (pads t key))) output =
      Done (0, md_of t o' (Some (pads t key)), splice output 0 (hmac t key m)) /\ md_shaped u t o'.
Proof using Hi.
  intros Bk Bm Hm Ho. destruct (hmac_key_ok t i key Hi Bk) as [Bh _].
  apply (hmac_finish_gen o key (pad_with 0x36 (hmac_key t key) ++ m) output Bk); [|done..]. apply is_bytes_app; [by apply pad_with_bytes|done].
Qed.

Lemma hmac_reset_ok o key : is_bytes key -> md_shaped u t o ->
  exists o', mbedtls_md_hmac_reset u (md_of t o (Some (pads t key))) = Done (0, md_of t o' (Some (pads t key))) /\
    md_holds u t (pad_with 0x36 (hmac_key t key)) o'.
Proof using Hi.
  intros Bk Hs. destruct (md_size_ok t i Hi) as (_ & Hsz & Hsb & HB & Hd). destruct (pads_ok t i key Hi Bk) as (Bp & Lp & Tp & _).
  unfold mbedtls_md_hmac_reset. rewrite with_hmac_of.
  destruct (md_starts_ok u t o (Some (pads t key)) Hs) as (o2 & -> & H2). rewrite bind_Done. cbn [Z.eqb negb].
  destruct (md_update_ok u t [] o2 (Some (pads t key)) (pads t key) (block_size i) H2 Bp ltac:(lia)) as (o3 & -> & H3).
  { destruct t; cbn; lia. }
  rewrite Tp in H3. by exists o3.
Qed.

End hmac_laws.

(** ** Memory *)

(** The allocator grants the next [n] requests. *)
Definition grants (n : nat) (h : heap) : bool := forallb id (take n (answers h)).

(** What [mbedtls_md_setup] leaves: for use, or after a failure. *)
Lemma md_setup_ok u t i hm h : mbedtls_md_info_from_type t = Some i ->
  let n := if hm =? 0 then 1%nat else 2%nat in
  exists ret c h', mbedtls_md_setup (Some md_zero) (Some i) hm h = Done (ret, Some c, h') /\
    if grants n h
    then ret = 0 /\ h' = Heap (drop n (answers h)) (live h + Z.of_nat n) /\
      exists o, md_shaped u t o /\ Some c = md_of t o (if hm =? 0 then None else Some (replicate (Z.to_nat (2 * block_size i)) 0))
    else ret = MBEDTLS_ERR_MD_ALLOC_FAILED /\ live h' = live h /\ md_ctx c = None /\ hmac_ctx c = None.
Proof.
  intros Hi n. destruct (md_size_ok t i Hi) as (Ht & _). destruct (md_alloc_ok u t i Hi) as (o & Eo & Ho).
  unfold mbedtls_md_setup. rewrite Eo. unfold n, grants, mbedtls_calloc, md_of. rewrite Hi. destruct h as [l k]. cbn [answers live].
  assert (forall a b : Z, a = b -> forall l, Heap l a = Heap l b) as EH by (by intros ?? ->).
  destruct l as [|[] l]; cbn [negb].
  - destruct (hm =? 0); cbn [negb answers]; do 3 eexists; (split; [reflexivity|]); cbn [answers live forallb take drop id andb];
      (split; [done|]); (split; [apply EH; lia|]); exists o; done.
  - destruct (hm =? 0); cbn [negb answers take forallb id andb].
    + do 3 eexists. split; [reflexivity|]. rewrite take_0. cbn [forallb]. split; [done|]. split; [apply EH; cbn; lia|]. exists o. done.
    + destruct l as [|[] l]; cbn [negb take forallb id andb].
      * do 3 eexists. split; [reflexivity|]. split; [done|]. split; [apply EH; cbn; lia|]. exists o. done.
      * rewrite take_0. cbn [forallb]. do 3 eexists. split; [reflexivity|]. split; [done|]. split; [apply EH; cbn; lia|]. exists o. done.
      * unfold mbedtls_md_free. cbn [set_object md_info md_ctx hmac_ctx]. rewrite Ht, (md_shaped_object u t o Ho), orb_true_r.
        do 3 eexists. split; [reflexivity|]. split; [done|]. cbn. split; [lia|done].
  - do 3 eexists. split; [reflexivity|]. replace (forallb id _) with false by by destruct (hm =? 0). cbn. done.
Qed.

Lemma md_free_of u t i o b h : mbedtls_md_info_from_type t = Some i -> md_shaped u t o -> (forall p, b = Some p -> zlen p = 2 * block_size i) ->
  mbedtls_md_free (md_of t o b) h = Done (Some md_zero, Heap (answers h) (live h - match b with Some _ => 2 | None => 1 end)).
Proof.
  intros Hi Ho Hb. destruct (md_size_ok t i Hi) as (Ht & _). unfold mbedtls_md_free, md_of. cbn [md_info md_ctx hmac_ctx]. rewrite Hi, Ht, (md_shaped_object u t o Ho), orb_true_r.
  rewrite bind_Done. destruct b as [p|]; [|by rewrite bind_Done]. rewrite (Hb p eq_refl), Z.leb_refl, bind_Done. unfold mbedtls_free. cbn [answers live].
  unfold mret, outcome_ret. do 3 f_equal. lia.
Qed.

(** ** Theorems *)

(** For each of the eleven hash functions a context that is set up, started, fed a
    message in pieces of any sizes within the limit of the function, and finished gives the
    hash of the message, and freeing it returns the memory; without memory the set-up reports
    it and keeps nothing. *)
Theorem md_stream_correct u t i chunks output h :
  mbedtls_md_info_from_type t = Some i -> Forall is_bytes chunks -> Forall (fun c => zlen c < md_limit t) chunks -> size i <= zlen output ->
  exists ret ctx h1, mbedtls_md_setup (Some (mbedtls_md_init md_zero)) (Some i) 0 h = Done (ret, ctx, h1) /\
    if grants 1 h
    then ret = 0 /\ exists ctx1 ctx2 ctx3 h2, mbedtls_md_starts ctx = Done (0, ctx1) /\
      run_updates (mbedtls_md_update u) ctx1 chunks = Done (0, ctx2) /\
      mbedtls_md_finish u ctx2 output = Done (0, ctx3, splice output 0 (md_digest t (concat chunks))) /\
      mbedtls_md_free ctx3 h1 = Done (Some md_zero, h2) /\ live h2 = live h
    else ret = MBEDTLS_ERR_MD_ALLOC_FAILED /\ live h1 = live h.
Proof.
  intros Hi Bc Lc Ho. destruct (md_setup_ok u t i 0 h Hi) as (ret & c & h1 & E & H). cbn [Z.eqb] in H.
  exists ret, (Some c), h1. split; [exact E|]. destruct (grants 1 h); [|tauto]. destruct H as (-> & -> & o & Hs & ->). split; [done|].
  destruct (md_starts_ok u t o None Hs) as (o1 & E1 & H1).
  assert (forall chunks m o, Forall is_bytes chunks -> Forall (fun c => zlen c < md_limit t) chunks -> md_holds u t m o ->
    exists o', run_updates (mbedtls_md_update u) (md_of t o None) chunks = Done (0, md_of t o' None) /\ md_holds u t (m ++ concat chunks) o') as RU.
  { clear. induction chunks as [|x xs IH]; intros m o B L Hm; cbn [run_updates concat].
    - exists o. by rewrite app_nil_r.
    - apply Forall_cons in B as [Bx B]. apply Forall_cons in L as [Lx L].
      destruct (md_update_ok u t m o None x (zlen x) Hm Bx ltac:(pose proof (zlen_nonneg x); lia) Lx) as (o1 & -> & H1).
      rewrite bind_Done. cbn [Z.eqb]. rewrite ztake_all in H1 by lia. rewrite app_assoc. by apply IH. }
  destruct (RU chunks [] o1 Bc Lc H1) as (o2 & E2 & H2).
  destruct (md_finish_ok u t i _ o2 None output Hi H2 Ho) as (o3 & E3 & H3).
  exists (md_of t o1 None), (md_of t o2 None), (md_of t o3 None). eexists. split; [exact E1|]. split; [exact E2|]. split; [exact E3|].
  rewrite (md_free_of u t i o3 None _ Hi H3) by done. split; [reflexivity|]. cbn. lia.
Qed.

Lemma md_stream_correct_witness : let u := Unrolling false true true true in let h := Heap [true] 5 in
  let chunks := [[97]; []; [98; 99]] in let output := replicate 22 7 in
  exists ret ctx h1, mbedtls_md_setup (Some (mbedtls_md_init md_zero)) (Some mbedtls_sha1_info) 0 h = Done (ret, ctx, h1) /\
    if grants 1 h
    then ret = 0 /\ exists ctx1 ctx2 ctx3 h2, mbedtls_md_starts ctx = Done (0, ctx1) /\
      run_updates (mbedtls_md_update u) ctx1 chunks = Done (0, ctx2) /\
      mbedtls_md_finish u ctx2 output = Done (0, ctx3, splice output 0 (md_digest MBEDTLS_MD_SHA1 (concat chunks))) /\
      mbedtls_md_free ctx3 h1 = Done (Some md_zero, h2) /\ live h2 = live h
    else ret = MBEDTLS_ERR_MD_ALLOC_FAILED /\ live h1 = live h.
Proof.
  intros u h chunks output. refine (md_stream_correct u MBEDTLS_MD_SHA1 mbedtls_sha1_info chunks output h _ _ _ _).
  - reflexivity.
  - apply (bool_decide_unpack _). vm_compute. exact I.
  - repeat (constructor; [vm_compute; reflexivity|]). constructor.
  - vm_compute. discriminate.
Defined.

(** A function that sets up a context with room for the pads, runs, and frees it. *)
Lemma md_bracket {A B} u t i h (a a' : A) ret (run : option mbedtls_md_context_t -> outcome (Z * option mbedtls_md_context_t * A))
    (f : Z -> A -> heap -> outcome B) : mbedtls_md_info_from_type t = Some i ->
  (forall o b, md_shaped u t o -> zlen b = 2 * block_size i ->
    exists o' b', run (md_of t o (Some b)) = Done (ret, md_of t o' (Some b'), a') /\ md_shaped u t o' /\ zlen b' = 2 * block_size i) ->
  exists h', ('(ret, ctx, h) ← mbedtls_md_setup (Some (mbedtls_md_init md_zero)) (Some i) 1 h;
    '(ret, ctx, a) ← (if negb (ret =? 0) then mret (ret, ctx, a) else run ctx);
    '(_, h) ← mbedtls_md_free ctx h; f ret a h) = (if grants 2 h then f ret a' h' else f MBEDTLS_ERR_MD_ALLOC_FAILED a h') /\
    live h' = live h /\ (grants 2 h = true -> answers h' = drop 2 (answers h)).
Proof.
  intros Hi Hrun. unfold mbedtls_md_init. destruct (md_setup_ok u t i 1 h Hi) as (r & c & h1 & -> & H). rewrite bind_Done. cbn [Z.eqb] in H.
  destruct (grants 2 h).
  - destruct H as (-> & -> & o & Hs & ->). cbn [Z.eqb negb].
    destruct (Hrun o (replicate (Z.to_nat (2 * block_size i)) 0) Hs) as (o' & b' & -> & Hs' & Lb).
    { rewrite zlen_replicate. destruct (md_size_ok t i Hi). lia. }
    rewrite bind_Done, (md_free_of u t i o' _ _ Hi Hs'), bind_Done by (by intros p [= <-]).
    eexists. split; [reflexivity|]. cbn [answers live]. split; [lia|done].
  - destruct H as (-> & Hl & Hc & Hh). cbn [Z.eqb negb MBEDTLS_ERR_MD_ALLOC_FAILED]. rewrite bind_Done. unfold mbedtls_md_free. rewrite Hc, Hh.
    destruct (md_info c); rewrite ?bind_Done; eexists; (split; [reflexivity|]); by split.
Qed.

(** One call with a hash function that exists. *)
Lemma md_hmac_run u w t i key keylen input ilen output h :
  0 < w -> mbedtls_md_info_from_type t = Some i -> is_bytes key -> 0 <= keylen <= zlen key -> keylen < md_limit t ->
  is_bytes input -> 0 <= ilen <= zlen input -> ilen < md_limit t -> size i <= zlen output ->
  exists h', mbedtls_md_hmac u w (Some i) key keylen input ilen output h =
    Done (if grants 2 h then (0, splice output 0 (hmac t (ztake keylen key) (ztake ilen input)), h')
          else (MBEDTLS_ERR_MD_ALLOC_FAILED, output, h')) /\ live h' = live h /\ (grants 2 h = true -> answers h' = drop 2 (answers h)).
Proof.
  intros Hw Hi Bk Hk Lk Bi Hn Ln Ho. unfold mbedtls_md_hmac. cbv zeta.
  assert (is_bytes (ztake keylen key)) as Bkk by auto with zlist.
  destruct (md_bracket u t i h output (splice output 0 (hmac t (ztake keylen key) (ztake ilen input))) 0
    (fun ctx => '(ret, ctx) ← mbedtls_md_hmac_starts u w ctx key keylen;
         if negb (ret =? 0) then mret (ret, ctx, output) else
         '(ret, ctx) ← mbedtls_md_hmac_update u ctx input ilen;
         if negb (ret =? 0) then mret (ret, ctx, output) else
         mbedtls_md_hmac_finish u ctx output) (fun ret output h => mret (ret, output, h)) Hi) as (h' & -> & Hl & Ha).
  - intros o b Hs Lb. destruct (hmac_starts_ok u w Hw t i Hi o b key keylen Hs Lb Bk Hk Lk) as (o1 & -> & H1). rewrite bind_Done. cbn [Z.eqb negb].
    destruct (hmac_update_ok u t i Hi o1 (pads t (ztake keylen key)) _ input ilen H1 Bi Hn Ln) as (o2 & -> & H2). rewrite bind_Done. cbn [Z.eqb negb].
    destruct (hmac_finish_ok u t i Hi o2 (ztake keylen key) (ztake ilen input) output Bkk ltac:(auto with zlist) H2 Ho) as (o3 & -> & H3).
    exists o3. eexists. split; [reflexivity|]. split; [done|]. apply (pads_ok t i _ Hi Bkk).
  - exists h'. by destruct (grants 2 h).
Qed.

(** The one-call HMAC of any of the hash functions writes the HMAC of RFC 2104 and nothing
    else, whatever the length of the key; when memory is refused, at either of its two requests,
    it reports that and writes nothing, and so it does when the type names no hash function.
    All memory is returned on every path. *)
Theorem hmac_correct u w t key keylen input ilen output h :
  0 < w -> is_bytes key -> 0 <= keylen <= zlen key -> keylen < md_limit t ->
  is_bytes input -> 0 <= ilen <= zlen input -> ilen < md_limit t -> mbedtls_md_get_size (mbedtls_md_info_from_type t) <= zlen output ->
  exists h', mbedtls_md_hmac u w (mbedtls_md_info_from_type t) key keylen input ilen output h =
    Done (if bool_decide (t = MBEDTLS_MD_NONE) then (MBEDTLS_ERR_MD_BAD_INPUT_DATA, output, h')
          else if grants 2 h then (0, splice output 0 (hmac t (ztake keylen key) (ztake ilen input)), h')
          else (MBEDTLS_ERR_MD_ALLOC_FAILED, output, h')) /\ live h' = live h.
Proof.
  intros Hw Bk Hk Lk Bi Hn Ln Ho. destruct (mbedtls_md_info_from_type t) as [i|] eqn:Hi; cbn [mbedtls_md_get_size] in Ho.
  - rewrite bool_decide_false by (by intros ->).
    destruct (md_hmac_run u w t i key keylen input ilen output h Hw Hi Bk Hk Lk Bi Hn Ln Ho) as (h' & E & Hl & _). by exists h'.
  - rewrite bool_decide_true by by destruct t. by exists h.
Qed.

Lemma hmac_correct_witness : let u := Unrolling false true true true in let t := MBEDTLS_MD_SHA256 in
  let key := replicate 70 11 in let input := [72; 105] in let output := replicate 32 0 in let h := Heap [] 3 in
  exists h', mbedtls_md_hmac u 8 (mbedtls_md_info_from_type t) key 70 input 2 output h =
    Done (if bool_decide (t = MBEDTLS_MD_NONE) then (MBEDTLS_ERR_MD_BAD_INPUT_DATA, output, h')
          else if grants 2 h then (0, splice output 0 (hmac t (ztake 70 key) (ztake 2 input)), h')
          else (MBEDTLS_ERR_MD_ALLOC_FAILED, output, h')) /\ live h' = live h.
Proof.
  intros u t key input output h. refine (hmac_correct u 8 t key 70 input 2 output h _ _ _ _ _ _ _ _);
    [reflexivity|apply (bool_decide_unpack _); vm_compute; exact I|vm_compute; split; discriminate|reflexivity
    |apply (bool_decide_unpack _); vm_compute; exact I|vm_compute; split; discriminate|reflexivity|vm_compute; discriminate].
Defined.

(** The look-up by name. *)
Lemma find_name_spec s : exists t, find_name s md_names = Done t /\
  (t <> MBEDTLS_MD_NONE -> (Some s, t) ∈ md_names).
Proof.
  unfold md_names. cbn [find_name]. repeat match goal with |- context [String.eqb ?a s] => destruct (String.eqb_spec a s) as [<-|] end;
    eexists; (split; [reflexivity|]); intros H; try done; repeat constructor.
Qed.

(** Names and types.  Every hash function has a name that finds it again, and every type
    that the table of names or the list of digests mentions, apart from the end mark, has an
    info.  A name that finds an info is the name of that info or the alias of SHA-1; the
    look-ups never run off the table. *)
Theorem md_names_roundtrip :
  (forall t i, mbedtls_md_info_from_type t = Some i -> mbedtls_md_get_type (Some i) = t /\ t ∈ mbedtls_md_list /\
    exists n, mbedtls_md_get_name (Some i) = Done (Some n) /\ mbedtls_md_info_from_string (Some n) = Done (Some i)) /\
  (forall s, exists r, mbedtls_md_info_from_string s = Done r /\
    forall i, r = Some i -> exists n, mbedtls_md_get_name (Some i) = Done (Some n) /\ (s = Some n \/ s = Some "SHA"%string /\ n = "SHA1"%string)).
Proof.
  split.
  - intros t i Hi. destruct t; try discriminate Hi; injection Hi as <-; (split; [done|]); (split; [repeat constructor|]);
      eexists; split; reflexivity.
  - intros [s|]; cbn [mbedtls_md_info_from_string]; [|by exists None]. destruct (find_name_spec s) as (t & -> & Ht). rewrite bind_Done.
    eexists. split; [reflexivity|]. intros i Hi. assert (t <> MBEDTLS_MD_NONE) as N by by intros ->. specialize (Ht N). unfold md_names in Ht.
    repeat (apply elem_of_cons in Ht as [[= -> ->]|Ht]; [injection Hi as <-; eexists; split; [reflexivity|]; tauto|]).
    apply elem_of_cons in Ht as [[=]|Ht]. by apply elem_of_nil in Ht.
Qed.
