(* ===== verification/MdMachine.v ===== *)
(** * The digest layer as a machine

    A program holds several contexts of one hash function and calls the functions of [md.c]
    on them in any order that the interface allows: starting, feeding, finishing, starting
    and resetting HMAC, cloning one context into another.  The machine here keeps, for each
    context, the key whose pads it holds and the bytes hashed since the last start; it gives
    types to the sequences of calls, and the code simulates it. *)

From S2P Require Import Prelude Bytes BlockHash Keccak Sha3 Digests Md.

(** ** Calls *)

Inductive md_op :=
  | Starts | Update (input : list Z) | Finish
  | HmacStarts (key : list Z) | HmacUpdate (input : list Z) | HmacFinish | HmacReset.
Inductive md_call := On (j : nat) (op : md_op) | Clone (dst src : nat).

Section machine.
Context (u : unrolling) (w : Z).

(** An operation of the code on a context: the status, the context, and the output buffer,
    which only the finishing functions write. *)
Definition exec_op (op : md_op) (c : option mbedtls_md_context_t) (output : list Z)
    : outcome (Z * option mbedtls_md_context_t * list Z) :=
  let keep (run : outcome (Z * option mbedtls_md_context_t)) := '(r, c) ← run; mret (r, c, output) in
  match op with
  | Starts => keep (mbedtls_md_starts c)
  | Update x => keep (mbedtls_md_update u c x (zlen x))
  | Finish => mbedtls_md_finish u c output
  | HmacStarts key => keep (mbedtls_md_hmac_starts u w c key (zlen key))
  | HmacUpdate x => keep (mbedtls_md_hmac_update u c x (zlen x))
  | HmacFinish => mbedtls_md_hmac_finish u c output
  | HmacReset => keep (mbedtls_md_hmac_reset u c)
  end.

(** A call on an array of contexts. *)
Definition exec (cs : list (option mbedtls_md_context_t)) (call : md_call) (output : list Z)
    : outcome (Z * list (option mbedtls_md_context_t) * list Z) :=
  match call with
  | On j op =>
      match cs !! j with
      | Some c => '(r, c, out) ← exec_op op c output; mret (r, <[j:=c]> cs, out)
      | None => Fault
      end
  | Clone d s =>
      match cs !! d, cs !! s with
      | Some dst, Some src => '(r, c) ← mbedtls_md_clone dst src; mret (r, <[d:=c]> cs, output)
      | _, _ => Fault
      end
  end.

(** The calls one after the other, each with a fresh output buffer. *)
Fixpoint exec_all (cs : list (option mbedtls_md_context_t)) (calls : list md_call) (output : list Z)
    : outcome (list Z * list (option mbedtls_md_context_t) * list (list Z)) :=
  match calls with
  | [] => mret ([], cs, [])
  | call :: calls =>
      '(r, cs, out) ← exec cs call output;
      '(rs, cs, outs) ← exec_all cs calls output;
      mret (r :: rs, cs, out :: outs)
  end.

End machine.

(** ** The machine *)

(** What a context promises: whether it has room for the pads, the key they are made from,
    and the bytes hashed so far when it is running. *)
Record phase := Phase { keyed : bool; hkey : option (list Z); running : option (list Z) }.

Definition ipad (t : mbedtls_md_type_t) (key : list Z) : list Z := pad_with 0x36 (hmac_key t key).
Definition opad (t : mbedtls_md_type_t) (key : list Z) : list Z := pad_with 0x5C (hmac_key t key).

Section spec.
Context (t : mbedtls_md_type_t).

(** Bytes, and not more than the length arithmetic of the function can count. *)
Definition piece_ok (x : list Z) : bool := bool_decide (is_bytes x) && (zlen x <? md_limit t).

(** One operation: the phase it leads to and what it outputs; [None] when it is not allowed. *)
Definition step (p : phase) (op : md_op) : option (phase * option (list Z)) :=
  match op, p with
  | Starts, Phase kd k _ => Some (Phase kd k (Some []), None)
  | Update x, Phase kd k (Some m) => if piece_ok x then Some (Phase kd k (Some (m ++ x)), None) else None
  | Finish, Phase kd k (Some m) => Some (Phase kd k None, Some (md_digest t m))
  | HmacStarts key, Phase true _ _ => if piece_ok key then Some (Phase true (Some key) (Some (ipad t key)), None) else None
  | HmacUpdate x, Phase true k (Some m) => if piece_ok x then Some (Phase true k (Some (m ++ x)), None) else None
  | HmacFinish, Phase true (Some key) (Some m) => Some (Phase true (Some key) None, Some (md_digest t (opad t key ++ md_digest t m)))
  | HmacReset, Phase true (Some key) _ => Some (Phase true (Some key) (Some (ipad t key)), None)
  | _, _ => None
  end.

(** On all contexts.  A clone hashes on from where its source is, under its own key. *)
Definition steps (ps : list phase) (call : md_call) : option (list phase * option (list Z)) :=
  match call with
  | On j op => p ← ps !! j; '(p, out) ← step p op; mret (<[j:=p]> ps, out)
  | Clone d s => pd ← ps !! d; p ← ps !! s; mret (<[d:=Phase (keyed pd) (hkey pd) (running p)]> ps, None)
  end.

(** The calls that the machine allows, and their outputs. *)
Fixpoint well_typed (ps : list phase) (calls : list md_call) : option (list phase * list (option (list Z))) :=
  match calls with
  | [] => mret (ps, [])
  | call :: calls =>
      '(ps, out) ← steps ps call;
      '(ps, outs) ← well_typed ps calls;
      mret (ps, out :: outs)
  end.

End spec.

(** ** Agreement *)

Section agreement.
Context (u : unrolling) (w : Z) (Hw : 0 < w).
Context (t : mbedtls_md_type_t) (i : mbedtls_md_info_t) (Hi : mbedtls_md_info_from_type t = Some i).

Definition room (kd : bool) (b : option (list Z)) : Prop :=
  match kd, b with true, Some b => zlen b = 2 * block_size i | false, None => True | _, _ => False end.

Record agrees_with (o : md_object) (b : option (list Z)) (p : phase) : Prop := Agrees {
  ag_shaped : md_shaped u t o;
  ag_room : room (keyed p) b;
  ag_key k : hkey p = Some k -> is_bytes k /\ b = Some (pads t k);
  ag_running m : running p = Some m -> is_bytes m /\ md_holds u t m o
}.
Definition agrees (c : option mbedtls_md_context_t) (p : phase) : Prop := exists o b, c = md_of t o b /\ agrees_with o b p.

Definition written (output : list Z) (out : option (list Z)) : list Z :=
  match out with Some d => splice output 0 d | None => output end.

(** A running context. *)
Lemma agrees_running o b kd k m : md_holds u t m o -> is_bytes m -> room kd b ->
  (forall key, k = Some key -> is_bytes key /\ b = Some (pads t key)) -> agrees (md_of t o b) (Phase kd k (Some m)).
Proof. intros Hm Bm Hr Hk. exists o, b. split; [done|]. split; [by eapply md_holds_shaped|done..|]. by intros ? [= <-]. Qed.

(** A context that has finished. *)
Lemma agrees_idle o b kd k : md_shaped u t o -> room kd b ->
  (forall key, k = Some key -> is_bytes key /\ b = Some (pads t key)) -> agrees (md_of t o b) (Phase kd k None).
Proof. intros Hm Hr Hk. by exists o, b. Qed.

Lemma ipad_bytes key : is_bytes key -> is_bytes (ipad t key).
Proof using Hi. intros Bk. apply pad_with_bytes; [done|]. by destruct (hmac_key_ok t i key Hi Bk). Qed.

Lemma piece_ok_spec x : piece_ok t x = true -> is_bytes x /\ 0 <= zlen x <= zlen x /\ zlen x < md_limit t.
Proof. unfold piece_ok. intros [B%bool_decide_eq_true_1 L%Z.ltb_lt]%andb_prop. pose proof (zlen_nonneg x). split; [done|lia]. Qed.

Lemma exec_op_agrees op c p p' out output : agrees c p -> step t p op = Some (p', out) -> size i <= zlen output ->
  exists c', exec_op u w op c output = Done (0, c', written output out) /\ agrees c' p'.
Proof using Hi Hw.
  intros (o & b & -> & [Hs Hr Hk Hm]) St Ho. destruct p as [kd k r]. cbn [keyed hkey running] in *.
  destruct op as [|x| |key|x| |]; cbn [step] in St.
  - injection St as <- <-. cbn [exec_op written]. destruct (md_starts_ok u t o b Hs) as (o1 & -> & H1).
    rewrite bind_Done. eexists. split; [reflexivity|]. apply agrees_running; [done|constructor|done..].
  - destruct r as [m|]; [|done]. destruct (piece_ok t x) eqn:Px; [|done]. injection St as <- <-. apply piece_ok_spec in Px as (Bx & Lx & Ly).
    destruct (Hm m eq_refl) as [Bm Ha]. cbn [exec_op written]. destruct (md_update_ok u t m o b x (zlen x) Ha Bx Lx Ly) as (o1 & -> & H1).
    rewrite bind_Done. rewrite ztake_all in H1 by lia. eexists. split; [reflexivity|]. apply agrees_running; [done|by apply is_bytes_app|done..].
  - destruct r as [m|]; [|done]. injection St as <- <-. destruct (Hm m eq_refl) as [Bm Ha]. cbn [exec_op written].
    destruct (md_finish_ok u t i m o b output Hi Ha Ho) as (o1 & -> & H1). eexists. split; [reflexivity|]. by apply agrees_idle.
  - destruct kd; [|done]. destruct (piece_ok t key) eqn:Px; [|done]. injection St as <- <-. apply piece_ok_spec in Px as (Bx & Lx & Ly).
    destruct b as [b|]; [|done]. cbn [room] in Hr. cbn [exec_op written].
    destruct (hmac_starts_ok u w Hw t i Hi o b key (zlen key) Hs Hr Bx Lx Ly) as (o1 & -> & H1). rewrite bind_Done, ztake_all in * by lia.
    eexists. split; [reflexivity|]. apply agrees_running; [done|by apply ipad_bytes|by apply (pads_ok t i)|]. by intros ? [= <-].
  - destruct kd; [|done]. destruct r as [m|]; [|done]. destruct (piece_ok t x) eqn:Px; [|done]. injection St as <- <-.
    apply piece_ok_spec in Px as (Bx & Lx & Ly). destruct (Hm m eq_refl) as [Bm Ha]. destruct b as [b|]; [|done]. cbn [exec_op written].
    destruct (hmac_update_ok u t i Hi o b m x (zlen x) Ha Bx Lx Ly) as (o1 & -> & H1).
    rewrite bind_Done. rewrite ztake_all in H1 by lia. eexists. split; [reflexivity|]. apply agrees_running; [done|by apply is_bytes_app|done..].
  - destruct kd; [|done]. destruct k as [key|]; [|done]. destruct r as [m|]; [|done]. injection St as <- <-.
    destruct (Hk key eq_refl) as [Bk ->]. destruct (Hm m eq_refl) as [Bm Ha]. cbn [exec_op written].
    destruct (hmac_finish_gen u t i Hi o key m output Bk Bm Ha Ho) as (o1 & -> & H1). eexists. split; [reflexivity|]. by apply agrees_idle.
  - destruct kd; [|done]. destruct k as [key|]; [|done]. injection St as <- <-. destruct (Hk key eq_refl) as [Bk ->]. cbn [exec_op written].
    destruct (hmac_reset_ok u t i Hi o key Bk Hs) as (o1 & -> & H1). rewrite bind_Done. eexists. split; [reflexivity|].
    apply agrees_running; [done|by apply ipad_bytes|done|done].
Qed.

Lemma clone_agrees cd cs pd p : agrees cd pd -> agrees cs p ->
  exists c', mbedtls_md_clone cd cs = Done (0, c') /\ agrees c' (Phase (keyed pd) (hkey pd) (running p)).
Proof using Hi.
  intros (o & b & -> & [Hs Hr Hk _]) (o' & b' & -> & [Hs' _ _ Hm]). destruct (md_size_ok t i Hi) as (Ht & _).
  exists (md_of t o' b). split.
  - unfold mbedtls_md_clone, md_of. cbn [md_info md_ctx]. rewrite Hi, bool_decide_true, Ht by done. cbn [negb].
    apply md_shaped_object in Hs, Hs'. unfold set_object. cbn [md_info hmac_ctx]. clear Ht Hr Hk Hm. revert Hs Hs'.
    destruct t, o; intros Hs Hs'; try done; destruct o'; try done; cbn [object_of andb negb]; by rewrite Hi.
  - exists o', b. split; [done|]. by split.
Qed.

Lemma exec_agrees call cs ps ps' out output : Forall2 agrees cs ps -> steps t ps call = Some (ps', out) -> size i <= zlen output ->
  exists cs', exec u w cs call output = Done (0, cs', written output out) /\ Forall2 agrees cs' ps'.
Proof using Hi Hw.
  intros HF St Ho. destruct call as [j op|d s]; cbn [steps exec] in *.
  - destruct (ps !! j) as [p|] eqn:Ep; [|done]. destruct (Forall2_lookup_r _ _ _ _ _ HF Ep) as (c & -> & Hc).
    cbn in St. destruct (step t p op) as [[p' o]|] eqn:Es; [|done]. injection St as <- <-.
    destruct (exec_op_agrees op c p p' o output Hc Es Ho) as (c' & -> & Hc'). rewrite bind_Done. eexists. split; [reflexivity|].
    by apply Forall2_insert.
  - destruct (ps !! d) as [pd|] eqn:Ed; [|done]. destruct (ps !! s) as [p|] eqn:Es; [|done]. injection St as <- <-.
    destruct (Forall2_lookup_r _ _ _ _ _ HF Ed) as (cd & -> & Hd). destruct (Forall2_lookup_r _ _ _ _ _ HF Es) as (c & -> & Hc).
    destruct (clone_agrees cd c pd p Hd Hc) as (c' & -> & Hc'). rewrite bind_Done. eexists. split; [reflexivity|]. by apply Forall2_insert.
Qed.

Lemma exec_all_agrees calls output : size i <= zlen output -> forall cs ps ps' outs,
  Forall2 agrees cs ps -> well_typed t ps calls = Some (ps', outs) ->
  exists cs', exec_all u w cs calls output = Done (replicate (length calls) 0, cs', map (written output) outs) /\ Forall2 agrees cs' ps'.
Proof using Hi Hw.
  intros Ho. induction calls as [|call calls IH]; intros cs ps ps' outs HF Ht; cbn [well_typed exec_all length replicate] in *.
  { injection Ht as <- <-. by exists cs. }
  destruct (steps t ps call) as [[ps1 out]|] eqn:Es; [|done]. cbn in Ht. destruct (well_typed t ps1 calls) as [[ps2 outs2]|] eqn:Ew; [|done].
  injection Ht as <- <-. destruct (exec_agrees call cs ps ps1 out output HF Es Ho) as (cs1 & -> & HF1). rewrite bind_Done.
  destruct (IH cs1 ps1 ps2 outs2 HF1 Ew) as (cs2 & -> & HF2). rewrite bind_Done. by exists cs2.
Qed.

End agreement.

(** ** Whole programs *)

(** Contexts set up one after the other, with room for the pads where the flag says so. *)
Fixpoint setup_all (info : option mbedtls_md_info_t) (flags : list bool) (h : heap)
    : outcome (list Z * list (option mbedtls_md_context_t) * heap) :=
  match flags with
  | [] => mret ([], [], h)
  | f :: flags =>
      '(r, c, h) ← mbedtls_md_setup (Some (mbedtls_md_init md_zero)) info (Z.b2z f) h;
      '(rs, cs, h) ← setup_all info flags h;
      mret (r :: rs, c :: cs, h)
  end.

Fixpoint free_all (cs : list (option mbedtls_md_context_t)) (h : heap) : outcome heap :=
  match cs with
  | [] => mret h
  | c :: cs => '(_, h) ← mbedtls_md_free c h; free_all cs h
  end.

Definition md_program (u : unrolling) (w : Z) (info : option mbedtls_md_info_t) (flags : list bool) (calls : list md_call)
    (output : list Z) (h : heap) : outcome (list Z * list (list Z) * heap) :=
  '(rs, cs, h) ← setup_all info flags h;
  '(rs', cs, outs) ← exec_all u w cs calls output;
  h ← free_all cs h;
  mret (rs ++ rs', outs, h).

Definition fresh (flags : list bool) : list phase := map (fun f => Phase f None None) flags.

Section programs.
Context (u : unrolling) (w : Z) (Hw : 0 < w).
Context (t : mbedtls_md_type_t) (i : mbedtls_md_info_t) (Hi : mbedtls_md_info_from_type t = Some i).

Lemma grants_app n m h h' : grants (n + m) h = true -> answers h' = drop n (answers h) -> grants n h = true /\ grants m h' = true.
Proof.
  unfold grants. intros H ->. rewrite <- take_take_drop, forallb_app in H. by apply andb_prop in H.
Qed.

(** What the contexts own. *)
Definition owned (ps : list phase) : Z := foldr (fun p n => (if keyed p then 2 else 1) + n) 0 ps.
Definition requests (flags : list bool) : nat := foldr (fun f n => ((if f : bool then 2 else 1) + n)%nat) 0%nat flags.

Lemma setup_all_agrees flags : forall h, grants (requests flags) h = true ->
  exists cs h', setup_all (Some i) flags h = Done (replicate (length flags) 0, cs, h') /\ live h' = live h + owned (fresh flags) /\
    Forall2 (agrees u t i) cs (fresh flags).
Proof using Hi.
  induction flags as [|f flags IH]; intros h Hg; cbn [setup_all requests foldr length replicate fresh map owned] in *.
  { exists [], h. split; [done|]. split; [lia|constructor]. }
  unfold mbedtls_md_init. destruct (md_setup_ok u t i (Z.b2z f) h Hi) as (r & c & h1 & -> & H). rewrite bind_Done.
  set (n := if Z.b2z f =? 0 then 1%nat else 2%nat) in *. assert (n = if f then 2%nat else 1%nat) as En by by destruct f. rewrite <- En in Hg.
  destruct (grants_app n (requests flags) h (Heap (drop n (answers h)) (live h + Z.of_nat n)) Hg eq_refl) as [G1 G2]. rewrite G1 in H.
  destruct H as (-> & -> & o & Hs & Hc). destruct (IH _ G2) as (cs & h' & -> & Hl & HF). rewrite bind_Done.
  exists (Some c :: cs), h'. split; [done|]. cbn [live] in Hl. split; [unfold fresh, owned in Hl; cbn [keyed]; rewrite Hl, En; destruct f; lia|].
  constructor; [|exact HF]. exists o. eexists. split; [exact Hc|]. split; cbn [keyed hkey running]; try done.
  destruct f; cbn [room Z.eqb Z.b2z]; [|done]. rewrite zlen_replicate. destruct (md_size_ok t i Hi). lia.
Qed.

Lemma free_all_agrees cs ps : Forall2 (agrees u t i) cs ps -> forall h, exists h', free_all cs h = Done h' /\ live h' = live h - owned ps.
Proof using Hi.
  induction 1 as [|c p cs ps Hc _ IH]; intros h; cbn [free_all owned foldr].
  { exists h. split; [done|lia]. }
  destruct Hc as (o & b & -> & [Hs Hr _ _]). rewrite (md_free_of u t i o b h Hi Hs).
  - rewrite bind_Done. destruct (IH (Heap (answers h) (live h - match b with Some _ => 2 | None => 1 end))) as (h' & -> & Hl).
    exists h'. split; [done|]. cbn [live] in Hl. unfold owned in Hl. destruct (keyed p), b; cbn in Hr; try done; lia.
  - intros q ->. by destruct (keyed p).
Qed.

(** The machine changes no allocation. *)
Lemma step_keyed p op p' out : step t p op = Some (p', out) -> keyed p' = keyed p.
Proof.
  destruct p as [[] k [m|]], op; cbn [step]; repeat match goal with |- context [piece_ok t ?x] => destruct (piece_ok t x) end;
    try (destruct k); try done; by intros [= <- <-].
Qed.

Lemma owned_insert ps j p p' : ps !! j = Some p -> keyed p' = keyed p -> owned (<[j:=p']> ps) = owned ps.
Proof.
  revert j. induction ps as [|q ps IH]; intros [|j] Hj Hk; cbn in *; try done.
  - injection Hj as ->. by rewrite Hk.
  - fold (owned (<[j:=p']> ps)). fold (owned ps). by rewrite IH.
Qed.

Lemma well_typed_owned calls : forall ps ps' outs, well_typed t ps calls = Some (ps', outs) -> owned ps' = owned ps.
Proof.
  induction calls as [|call calls IH]; intros ps ps' outs H; cbn [well_typed] in H; [by injection H as <- <-|].
  destruct (steps t ps call) as [[ps1 out]|] eqn:Es; [|done]. cbn in H. destruct (well_typed t ps1 calls) as [[ps2 outs2]|] eqn:Ew; [|done].
  injection H as <- <-. rewrite (IH _ _ _ Ew). destruct call as [j op|d s]; cbn [steps] in Es.
  - destruct (ps !! j) as [p|] eqn:Ep; [|done]. cbn in Es. destruct (step t p op) as [[p' o]|] eqn:E; [|done]. injection Es as <- <-.
    eapply owned_insert; [done|]. by eapply step_keyed.
  - destruct (ps !! d) as [pd|] eqn:Ep; [|done]. destruct (ps !! s) as [p|]; [|done]. injection Es as <- <-. by eapply owned_insert.
Qed.

End programs.

(** ** Theorems *)

(** C29.  The interface has types: a sequence of calls that the machine allows, on contexts of
    one hash function that agree with the phases of the machine, never faults.  Every call
    succeeds, the outputs are those of the machine, and the contexts agree with its phases
    again. *)
Theorem md_calls_typed u w t i calls cs ps ps' outs output :
  0 < w -> mbedtls_md_info_from_type t = Some i -> Forall2 (agrees u t i) cs ps ->
  well_typed t ps calls = Some (ps', outs) -> size i <= zlen output ->
  exists cs', exec_all u w cs calls output = Done (replicate (length calls) 0, cs', map (written output) outs) /\
    Forall2 (agrees u t i) cs' ps'.
Proof. intros Hw Hi HF Ht Ho. by eapply exec_all_agrees. Qed.

Lemma md_calls_typed_witness :
  let u := Unrolling false true true true in let t := MBEDTLS_MD_SHA1 in let cs := [Some (MdCtx (Some mbedtls_sha1_info) (Some (OSha1 (zeroed 5 64))) None)] in
  let calls := [On 0 Starts; On 0 (Update [97; 98]); Clone 0 0; On 0 Finish] in let output := replicate 20 0 in
  exists cs', exec_all u 8 cs calls output = Done (replicate (length calls) 0, cs', map (written output) [None; None; None; Some (md_digest t [97; 98])]) /\
    Forall2 (agrees u t mbedtls_sha1_info) cs' [Phase false None None].
Proof.
  intros u t cs calls output. refine (md_calls_typed u 8 t mbedtls_sha1_info calls cs [Phase false None None] _ _ output _ _ _ _ _).
  - reflexivity.
  - reflexivity.
  - constructor; [|constructor]. exists (OSha1 (zeroed 5 64)), None. split; [reflexivity|]. split; try discriminate; [|exact I].
    split; [apply (bool_decide_unpack _); vm_compute; exact I|reflexivity].
  - reflexivity.
  - vm_compute. discriminate.
Defined.

(** C28.  A program sets up contexts of a hash function, makes any calls that the machine allows
    from fresh contexts (hashing, HMAC under several keys, resets, clones, in any order and
    interleaving) and frees the contexts: with memory for them it gets the outputs of the
    machine, every status is 0, and all memory is returned. *)
Theorem md_program_correct u w t i flags calls ps outs output h :
  0 < w -> mbedtls_md_info_from_type t = Some i -> well_typed t (fresh flags) calls = Some (ps, outs) ->
  size i <= zlen output -> grants (requests flags) h = true ->
  exists h', md_program u w (Some i) flags calls output h =
    Done (replicate (length flags + length calls) 0, map (written output) outs, h') /\ live h' = live h.
Proof.
  intros Hw Hi Ht Ho Hg. unfold md_program. destruct (setup_all_agrees u t i Hi flags h Hg) as (cs & h1 & -> & L1 & HF). rewrite bind_Done.
  destruct (exec_all_agrees u w Hw t i Hi calls output Ho cs _ ps outs HF Ht) as (cs' & -> & HF'). rewrite bind_Done.
  destruct (free_all_agrees u t i Hi cs' ps HF' h1) as (h' & -> & L2). rewrite bind_Done. exists h'.
  rewrite <- replicate_add. split; [done|]. rewrite L2, L1, (well_typed_owned t calls _ _ _ Ht). lia.
Qed.

Lemma md_program_correct_witness :
  let u := Unrolling false true true true in let t := MBEDTLS_MD_SHA256 in let key := [74; 101; 102; 101] in let output := replicate 32 0 in
  let calls := [On 0 (HmacStarts key); On 0 (HmacUpdate [104]); Clone 1 0; On 0 HmacFinish; On 1 (Update [105]); On 0 HmacReset; On 1 Finish; On 0 HmacFinish] in
  exists h', md_program u 8 (Some mbedtls_sha256_info) [true; false] calls output (Heap [true; true] 0) =
    Done (replicate (length [true; false] + length calls) 0,
      map (written output) [None; None; None; Some (md_digest t (opad t key ++ md_digest t (ipad t key ++ [104]))); None; None;
        Some (md_digest t ((ipad t key ++ [104]) ++ [105])); Some (md_digest t (opad t key ++ md_digest t (ipad t key)))], h') /\
    live h' = live (Heap [true; true] 0).
Proof.
  intros u t key output calls. refine (md_program_correct u 8 t mbedtls_sha256_info [true; false] calls _ _ output (Heap [true; true] 0) _ _ _ _ _).
  - reflexivity.
  - reflexivity.
  - reflexivity.
  - vm_compute. discriminate.
  - reflexivity.
Defined.
