(* ===== verification/OutBlocks.v ===== *)
(** * Output in blocks

    A key derivation or a random generator makes its output from blocks of one size and cuts
    the last one.  Here is what such output is, and how a buffer fills up with it. *)

From S2P Require Import Prelude Bytes.

(** The first [k] of the blocks [T 1], [T 2], ... *)
Fixpoint blocks (T : nat -> list Z) (k : nat) : list Z :=
  match k with O => [] | S k' => blocks T k' ++ T k end.

Definition ceil_div (a b : Z) : Z := (a + b - 1) / b.

Lemma ceil_div_spec a b : 0 <= a -> 0 < b ->
  (if negb (a mod b =? 0) then a / b + 1 else a / b) = ceil_div a b /\ (ceil_div a b <> 0 -> (ceil_div a b - 1) * b < a) /\
  a <= ceil_div a b * b /\ 0 <= ceil_div a b.
Proof.
  intros Ha Hb. pose proof (Z.div_mod a b ltac:(lia)) as D. pose proof (Z.mod_pos_bound a b Hb) as M. pose proof (Z.div_pos a b Ha Hb) as P.
  assert (ceil_div a b = if a mod b =? 0 then a / b else a / b + 1) as ->.
  { unfold ceil_div. destruct (Z.eqb_spec (a mod b) 0); symmetry.
    - apply (Z.div_unique _ _ _ (b - 1)); lia.
    - apply (Z.div_unique _ _ _ (a mod b - 1)); lia. }
  destruct (Z.eqb_spec (a mod b) 0); cbn [negb]; split_and!; try done; try lia.
Qed.

Lemma blocks_ext T T' k : (forall j, (j <= k)%nat -> T j = T' j) -> blocks T k = blocks T' k.
Proof. induction k as [|k IH]; intros H; cbn [blocks]; [done|]. rewrite IH by (intros; apply H; lia). by rewrite H by lia. Qed.

Section filling.
Context (T : nat -> list Z) (s : Z) (Hs : 0 < s) (n : nat) (HT : forall k, (0 < k <= n)%nat -> zlen (T k) = s).

Lemma blocks_len k : (k <= n)%nat -> zlen (blocks T k) = Z.of_nat k * s.
Proof using HT. induction k as [|k IH]; intros Hk; cbn [blocks]; [done|]. rewrite zlen_app, IH, HT by lia. lia. Qed.

Context (out : list Z) (len : Z) (Hlen : 0 <= len <= zlen out).

(** The buffer after [k] blocks. *)
Definition filled (k : nat) : list Z := splice out 0 (ztake len (blocks T k)).

Lemma filled_0 : filled 0 = out.
Proof using Hlen. unfold filled. cbn [blocks]. rewrite ztake_all by (rewrite zlen_nil; lia). apply splice_nil. lia. Qed.

Lemma zlen_filled k : zlen (filled k) = zlen out.
Proof using Hlen. unfold filled. apply zlen_splice; [lia|]. unfold zlen, ztake in *. rewrite length_take. lia. Qed.

(** One more block, or what is left to fill of it. *)
Lemma filled_step k num : (k < n)%nat -> num = Z.min s (len - Z.of_nat k * s) -> Z.of_nat k * s <= len ->
  store (filled k) (Z.of_nat k * s) (ztake num (T (S k))) = Done (filled (S k)).
Proof using All.
  intros Hk -> Hp. pose proof (blocks_len k ltac:(lia)) as LS. pose proof (HT (S k) ltac:(lia)) as LT.
  set (ch := ztake _ (T (S k))).
  assert (ch = ztake (len - Z.of_nat k * s) (T (S k)) /\ 0 <= zlen ch <= len - Z.of_nat k * s) as [Ec Lc].
  { unfold ch. split; [|rewrite zlen_ztake; lia]. destruct (Z.min_spec s (len - Z.of_nat k * s)) as [[? ->]|[? ->]]; [|done].
    rewrite !ztake_all by lia. done. }
  assert (filled k = splice out 0 (blocks T k)) as -> by (unfold filled; rewrite ztake_all by lia; done).
  rewrite store_splice by (rewrite ?zlen_splice; lia). f_equal.
  rewrite <- LS, <- (Z.add_0_l (zlen (blocks T k))), splice_splice by lia. unfold filled. cbn [blocks].
  f_equal. rewrite ztake_app_r by lia. by rewrite LS, Ec.
Qed.

End filling.
