(* ===== verification/Hkdf.v ===== *)
(** * HKDF

    [src/internal/mbedtls/hkdf.c]: the key derivation function of RFC 5869 on top of the HMAC
    of [md.c].  The salt, the info and the output may be null pointers; the buffers [prk] and
    [t] are local to the functions, and wiping them at the end is not visible outside. *)

From S2P Require Import Prelude Bytes BlockHash Keccak Sha3 Digests Md OutBlocks.

Definition MBEDTLS_ERR_HKDF_BAD_INPUT_DATA : Z := -0x5F80.

Section code.
Context (u : unrolling) (w : Z).

Definition mbedtls_hkdf_extract (md : option mbedtls_md_info_t) (salt : option (list Z)) (salt_len : Z) (ikm : list Z) (ikm_len : Z)
    (prk : list Z) (h : heap) : outcome (Z * list Z * heap) :=
  let null_salt := replicate (Z.to_nat MBEDTLS_MD_MAX_SIZE) 0 in
  match salt with
  | None =>
      if negb (salt_len =? 0) then mret (MBEDTLS_ERR_HKDF_BAD_INPUT_DATA, prk, h) else
      let hash_len := mbedtls_md_get_size md in
      if hash_len =? 0 then mret (MBEDTLS_ERR_HKDF_BAD_INPUT_DATA, prk, h) else
      mbedtls_md_hmac u w md null_salt hash_len ikm ikm_len prk h
  | Some salt => mbedtls_md_hmac u w md salt salt_len ikm ikm_len prk h
  end.

(** The body of the loop up to the hash: [T(i)] from [T(i-1)], the first [t_len] bytes of [t]. *)
Definition expand_round (ctx : option mbedtls_md_context_t) (prk : list Z) (prk_len : Z) (info : list Z) (info_len : Z)
    (t : list Z) (t_len c : Z) : outcome (Z * option mbedtls_md_context_t * list Z) :=
  '(ret, ctx) ← mbedtls_md_hmac_starts u w ctx prk prk_len;
  if negb (ret =? 0) then mret (ret, ctx, t) else
  '(ret, ctx) ← mbedtls_md_hmac_update u ctx t t_len;
  if negb (ret =? 0) then mret (ret, ctx, t) else
  '(ret, ctx) ← mbedtls_md_hmac_update u ctx info info_len;
  if negb (ret =? 0) then mret (ret, ctx, t) else
  '(ret, ctx) ← mbedtls_md_hmac_update u ctx [c] 1;
  if negb (ret =? 0) then mret (ret, ctx, t) else
  mbedtls_md_hmac_finish u ctx t.

(** The loop, with [rounds] rounds to go. *)
Fixpoint expand_loop (rounds : nat) (i n hash_len : Z) (ctx : option mbedtls_md_context_t) (prk : list Z) (prk_len : Z)
    (info : list Z) (info_len : Z) (t : list Z) (t_len pos : Z) (okm : list Z) (okm_len : Z)
    : outcome (Z * option mbedtls_md_context_t * list Z) :=
  match rounds with
  | O => mret (0, ctx, okm)
  | S rounds =>
      '(ret, ctx, t) ← expand_round ctx prk prk_len info info_len t t_len (Z.land i 0xff);
      if negb (ret =? 0) then mret (ret, ctx, okm) else
      let num_to_copy := if negb (i =? n) then hash_len else okm_len - pos in
      chunk ← load t 0 num_to_copy;
      okm ← store okm pos chunk;
      expand_loop rounds (i + 1) n hash_len ctx prk prk_len info info_len t hash_len (pos + hash_len) okm okm_len
  end.

Definition mbedtls_hkdf_expand (md : option mbedtls_md_info_t) (prk : list Z) (prk_len : Z) (info : option (list Z)) (info_len : Z)
    (okm : option (list Z)) (okm_len : Z) (h : heap) : outcome (Z * option (list Z) * heap) :=
  match okm with
  | None => mret (MBEDTLS_ERR_HKDF_BAD_INPUT_DATA, None, h)
  | Some buf =>
      let hash_len := mbedtls_md_get_size md in
      if (prk_len <? hash_len) || (hash_len =? 0) then mret (MBEDTLS_ERR_HKDF_BAD_INPUT_DATA, okm, h) else
      let '(info, info_len) := match info with None => ([], 0) | Some info => (info, info_len) end in
      let n := okm_len / hash_len in
      let n := if negb (okm_len mod hash_len =? 0) then n + 1 else n in
      if n >? 255 then mret (MBEDTLS_ERR_HKDF_BAD_INPUT_DATA, okm, h) else
      let ctx := Some (mbedtls_md_init md_zero) in
      '(ret, ctx, h) ← mbedtls_md_setup ctx md 1 h;
      '(ret, ctx, buf) ←
        (if negb (ret =? 0) then mret (ret, ctx, buf) else
         t ← store (replicate (Z.to_nat MBEDTLS_MD_MAX_SIZE) 0) 0 (replicate (Z.to_nat hash_len) 0);
         expand_loop (Z.to_nat n) 1 n hash_len ctx prk prk_len info info_len t 0 0 buf okm_len);
      '(_, h) ← mbedtls_md_free ctx h;
      mret (ret, Some buf, h)
  end.

Definition mbedtls_hkdf (md : option mbedtls_md_info_t) (salt : option (list Z)) (salt_len : Z) (ikm : list Z) (ikm_len : Z)
    (info : option (list Z)) (info_len : Z) (okm : option (list Z)) (okm_len : Z) (h : heap) : outcome (Z * option (list Z) * heap) :=
  '(ret, prk, h) ← mbedtls_hkdf_extract md salt salt_len ikm ikm_len (replicate (Z.to_nat MBEDTLS_MD_MAX_SIZE) 0) h;
  if ret =? 0 then mbedtls_hkdf_expand md prk (mbedtls_md_get_size md) info info_len okm okm_len h
  else mret (ret, okm, h).

End code.

(** ** RFC 5869 *)

(** [T(k)], and the two steps. *)
Fixpoint hkdf_T (t : mbedtls_md_type_t) (prk info : list Z) (k : nat) : list Z :=
  match k with
  | O => []
  | S k' => hmac t prk (hkdf_T t prk info k' ++ info ++ [Z.of_nat k])
  end.
Definition hkdf_expand (t : mbedtls_md_type_t) (prk info : list Z) (len : Z) : list Z :=
  ztake len (blocks (hkdf_T t prk info) (Z.to_nat (ceil_div len (mbedtls_md_get_size (mbedtls_md_info_from_type t))))).
Definition hkdf_extract (t : mbedtls_md_type_t) (salt : option (list Z)) (ikm : list Z) : list Z :=
  hmac t (default (replicate (Z.to_nat (mbedtls_md_get_size (mbedtls_md_info_from_type t))) 0) salt) ikm.

(** ** The code follows the RFC *)

Section rounds.
Context (u : unrolling) (w : Z) (Hw : 0 < w).
Context (t : mbedtls_md_type_t) (i : mbedtls_md_info_t) (Hi : mbedtls_md_info_from_type t = Some i).

Context (prk : list Z) (prk_len : Z) (Bprk : is_bytes prk) (Hprk : 0 <= prk_len <= zlen prk) (Lprk : prk_len < md_limit t).
Context (info : list Z) (info_len : Z) (Binfo : is_bytes info) (Hinfo : 0 <= info_len <= zlen info) (Linfo : info_len < md_limit t).

Local Abbreviation pk := (ztake prk_len prk).
Local Abbreviation inf := (ztake info_len info).
Local Abbreviation T := (hkdf_T t pk inf).

Lemma pk_bytes : is_bytes pk.
Proof using Bprk. auto with zlist. Qed.

Lemma expand_round_ok o b tb t_len c : md_shaped u t o -> zlen b = 2 * block_size i -> is_bytes tb -> 0 <= t_len <= zlen tb ->
  t_len <= 64 -> size i <= zlen tb -> is_byte c ->
  exists o', expand_round u w (md_of t o (Some b)) prk prk_len info info_len tb t_len c =
      Done (0, md_of t o' (Some (pads t pk)), splice tb 0 (hmac t pk (ztake t_len tb ++ inf ++ [c]))) /\ md_shaped u t o'.
Proof using All.
  intros Hs Lb Bt Ht H64 Hz Bc. unfold expand_round. assert (64 < md_limit t) as L64 by (destruct t; cbn; lia).
  destruct (hmac_starts_ok u w Hw t i Hi o b prk prk_len Hs Lb Bprk Hprk Lprk) as (o1 & -> & H1). rewrite bind_Done. cbn [Z.eqb negb].
  destruct (hmac_update_ok u t i Hi o1 (pads t pk) _ tb t_len H1 Bt Ht ltac:(lia)) as (o2 & -> & H2). rewrite bind_Done. cbn [Z.eqb negb].
  destruct (hmac_update_ok u t i Hi o2 (pads t pk) _ info info_len H2 Binfo Hinfo Linfo) as (o3 & -> & H3). rewrite bind_Done. cbn [Z.eqb negb].
  assert (is_bytes [c]) as Bc1 by (constructor; [done|constructor]).
  destruct (hmac_update_ok u t i Hi o3 (pads t pk) _ [c] 1 H3 Bc1 ltac:(done) ltac:(lia)) as (o4 & -> & H4). rewrite bind_Done. cbn [Z.eqb negb].
  rewrite (ztake_all 1 [c]), <- !app_assoc in H4 by done.
  apply (hmac_finish_ok u t i Hi o4 pk _ tb pk_bytes); [|done..]. repeat apply is_bytes_app; auto with zlist.
Qed.

Lemma T_ok k : (k <= 255)%nat -> is_bytes (T k) /\ zlen (T k) = if (k =? 0)%nat then 0 else size i.
Proof using Hi Bprk Binfo.
  induction k as [|k IH]; intros Hk; cbn [hkdf_T Nat.eqb]; [split; [constructor|done]|]. destruct IH as [B _]; [lia|].
  apply (hmac_ok t i _ _ Hi); [apply pk_bytes|]. apply is_bytes_app; [done|]. apply is_bytes_app; [auto with zlist|].
  constructor; [unfold is_byte; lia|constructor].
Qed.

Context (okm : list Z) (okm_len : Z) (Hokm : 0 <= okm_len <= zlen okm) (n : nat) (Hn : (n <= 255)%nat).
Context (Hlow : n <> 0%nat -> (Z.of_nat n - 1) * size i < okm_len) (Hhigh : okm_len <= Z.of_nat n * size i).

Lemma T_len k : (0 < k <= n)%nat -> zlen (T k) = size i.
Proof using Hi Bprk Binfo Hn. intros Hk. destruct (T_ok k) as [_ ->]; [clear - Hk Hn; lia|]. destruct k; [clear - Hk; lia|done]. Qed.

Local Abbreviation okm_after := (filled T okm okm_len).

(** Copying a block, or its part, from the buffer [t]. *)
Lemma copy_step {A} k tb (f : list Z -> outcome A) : (k < n)%nat -> zlen tb = 64 -> ztake (size i) tb = T (S k) ->
  (chunk ← load tb 0 (if negb (Z.of_nat (S k) =? Z.of_nat n) then size i else okm_len - Z.of_nat k * size i);
   okm ← store (okm_after k) (Z.of_nat k * size i) chunk; f okm) = f (okm_after (S k)).
Proof using All.
  intros Hk Lt Et. destruct (md_size_ok t i Hi) as (_ & Hsz & _). set (num := if negb _ then _ else _).
  assert (Z.of_nat k * size i <= (Z.of_nat n - 1) * size i) by (apply Z.mul_le_mono_nonneg_r; lia).
  assert (num = Z.min (size i) (okm_len - Z.of_nat k * size i)) as En.
  { unfold num. destruct (Z.eqb_spec (Z.of_nat (S k)) (Z.of_nat n)) as [E|]; cbn [negb]; [rewrite <- E in Hhigh; lia|].
    assert ((Z.of_nat k + 1) * size i <= (Z.of_nat n - 1) * size i) by (apply Z.mul_le_mono_nonneg_r; lia). lia. }
  rewrite load_Done, bind_Done, zdrop_0 by lia. rewrite <- (ztake_ztake num (size i) tb), Et by lia.
  rewrite (filled_step T (size i) ltac:(lia) n T_len okm okm_len Hokm k num Hk En) by lia. by rewrite bind_Done.
Qed.

Lemma expand_loop_ok rounds : forall k o b tb, (k + rounds = n)%nat -> md_shaped u t o -> zlen b = 2 * block_size i ->
  is_bytes tb -> zlen tb = 64 -> ztake (zlen (T k)) tb = T k ->
  exists o' b', expand_loop u w rounds (Z.of_nat (S k)) (Z.of_nat n) (size i) (md_of t o (Some b)) prk prk_len info info_len tb (zlen (T k))
      (Z.of_nat k * size i) (okm_after k) okm_len = Done (0, md_of t o' (Some b'), okm_after n) /\ md_shaped u t o' /\ zlen b' = 2 * block_size i.
Proof using All.
  destruct (md_size_ok t i Hi) as (_ & Hsz & _). induction rounds as [|rounds IH]; intros k o b tb Hk Hs Lb Bt Lt Et; cbn [expand_loop].
  { replace n with k by lia. by exists o, b. }
  destruct (T_ok k ltac:(lia)) as [_ Lk]. destruct (T_ok (S k) ltac:(lia)) as [BT LT]. cbn [Nat.eqb] in LT.
  assert (0 <= zlen (T k) <= 64) by (rewrite Lk; destruct (k =? 0)%nat; lia).
  assert (Z.land (Z.of_nat (S k)) 255 = Z.of_nat (S k)) as -> by (change 255 with (Z.ones 8); rewrite Z.land_ones, Z.mod_small; lia).
  destruct (expand_round_ok o b tb (zlen (T k)) (Z.of_nat (S k)) Hs Lb Bt ltac:(lia) ltac:(lia) ltac:(lia)) as (o1 & E1 & H1).
  { unfold is_byte. lia. }
  rewrite Et in E1. change (hmac t pk (T k ++ inf ++ [Z.of_nat (S k)])) with (T (S k)) in E1. rewrite E1, bind_Done. cbn [Z.eqb negb].
  set (tb1 := splice tb 0 (T (S k))) in *. assert (zlen tb1 = 64) as L1 by (unfold tb1; rewrite zlen_splice; lia).
  assert (ztake (zlen (T (S k))) tb1 = T (S k)) as E2 by (apply splice_0_prefix; lia).
  rewrite copy_step by (rewrite <- ?LT; done || lia). replace (Z.of_nat k * size i + size i) with (Z.of_nat (S k) * size i) by lia.
  replace (Z.of_nat (S k) + 1) with (Z.of_nat (S (S k))) by lia.
  destruct (IH (S k) o1 (pads t pk) tb1) as (o' & b' & E & H'); [lia|done|apply (pads_ok t i pk Hi pk_bytes)| |done|done|].
  { by apply is_bytes_splice. }
  rewrite LT in E. by exists o', b'.
Qed.

End rounds.

(** ** The two steps *)

Section steps.
Context (u : unrolling) (w : Z) (Hw : 0 < w).
Context (t : mbedtls_md_type_t) (i : mbedtls_md_info_t) (Hi : mbedtls_md_info_from_type t = Some i).

(** A null info is empty. *)
Definition info_bytes (info : option (list Z)) (info_len : Z) : list Z := match info with None => [] | Some b => ztake info_len b end.
Definition info_ok (info : option (list Z)) (info_len : Z) : Prop :=
  match info with None => True | Some b => is_bytes b /\ 0 <= info_len <= zlen b /\ info_len < md_limit t end.

Lemma hkdf_expand_ok prk prk_len info info_len okm okm_len h :
  is_bytes prk -> 0 <= prk_len <= zlen prk -> prk_len < md_limit t -> size i <= prk_len -> info_ok info info_len -> 0 <= okm_len <= zlen okm ->
  exists h', mbedtls_hkdf_expand u w (Some i) prk prk_len info info_len (Some okm) okm_len h =
    Done (if okm_len >? 255 * size i then (MBEDTLS_ERR_HKDF_BAD_INPUT_DATA, Some okm, h')
          else if grants 2 h then (0, Some (splice okm 0 (hkdf_expand t (ztake prk_len prk) (info_bytes info info_len) okm_len)), h')
          else (MBEDTLS_ERR_MD_ALLOC_FAILED, Some okm, h')) /\ live h' = live h.
Proof using Hi Hw.
  intros Bp Hp Lp Hs Hin Ho. destruct (md_size_ok t i Hi) as (_ & Hsz & _). unfold mbedtls_hkdf_expand. cbn [mbedtls_md_get_size].
  rewrite (proj2 (Z.ltb_ge _ _)), (proj2 (Z.eqb_neq _ _)) by lia. cbn [orb].
  destruct (match info with None => _ | Some _ => _ end) as [inf il] eqn:Einf.
  assert (info_bytes info info_len = ztake il inf /\ is_bytes inf /\ 0 <= il <= zlen inf /\ il < md_limit t) as (-> & Bin & Hil & Lil).
  { destruct info as [b|]; injection Einf as <- <-; [done|]. split; [done|]. split; [constructor|]. split; [done|]. by destruct t. }
  clear Einf Hin info info_len. destruct (ceil_div_spec okm_len (size i) ltac:(lia) ltac:(lia)) as (-> & Hlow & Hhigh & Hn). set (n := ceil_div okm_len (size i)) in *.
  assert ((n >? 255) = (okm_len >? 255 * size i)) as ->.
  { rewrite !Z.gtb_ltb. destruct (Z.ltb_spec 255 n), (Z.ltb_spec (255 * size i) okm_len); try done; exfalso.
    - assert (255 * size i <= (n - 1) * size i) by (apply Z.mul_le_mono_nonneg_r; lia). lia.
    - assert (n * size i <= 255 * size i) by (apply Z.mul_le_mono_nonneg_r; lia). lia. }
  rewrite Z.gtb_ltb. destruct (Z.ltb_spec (255 * size i) okm_len); [by exists h|].
  assert (n <= 255) by (destruct (Z.le_gt_cases n 255); [done|assert (255 * size i <= (n - 1) * size i) by (apply Z.mul_le_mono_nonneg_r; lia); lia]).
  destruct (md_bracket u t i h okm (splice okm 0 (hkdf_expand t (ztake prk_len prk) (ztake il inf) okm_len)) 0
    (fun ctx => t ← store (replicate (Z.to_nat MBEDTLS_MD_MAX_SIZE) 0) 0 (replicate (Z.to_nat (size i)) 0);
      expand_loop u w (Z.to_nat n) 1 n (size i) ctx prk prk_len inf il t 0 0 okm okm_len) (fun ret buf h => mret (ret, Some buf, h)) Hi) as (h' & -> & Hl & _).
  - intros o b Hso Lb. rewrite store_splice, bind_Done by (rewrite ?zlen_replicate; unfold MBEDTLS_MD_MAX_SIZE; lia).
    destruct (expand_loop_ok u w Hw t i Hi prk prk_len Bp Hp Lp inf il Bin Hil Lil okm okm_len Ho (Z.to_nat n) ltac:(lia) ltac:(rewrite Z2Nat.id; lia)
      ltac:(rewrite Z2Nat.id; lia) (Z.to_nat n) 0 o b (splice (replicate (Z.to_nat MBEDTLS_MD_MAX_SIZE) 0) 0 (replicate (Z.to_nat (size i)) 0)))
      as (o' & b' & E & Hs' & Lb'); [lia|done|done| | |done|].
    { apply is_bytes_splice; by apply is_bytes_replicate. }
    { rewrite zlen_splice; rewrite ?zlen_replicate; unfold MBEDTLS_MD_MAX_SIZE; lia. }
    rewrite filled_0 in E by done. cbn [hkdf_T] in E. change (Z.of_nat 1) with 1 in E. change (zlen (@nil Z)) with 0 in E.
    change (Z.of_nat 0 * size i) with 0 in E. rewrite Z2Nat.id in E by lia. unfold filled in E. rewrite E. exists o', b'. split; [|done].
    unfold hkdf_expand. by rewrite Hi.
  - exists h'. by destruct (grants 2 h).
Qed.

End steps.

Section whole.
Context (u : unrolling) (w : Z) (Hw : 0 < w).
Context (t : mbedtls_md_type_t) (i : mbedtls_md_info_t) (Hi : mbedtls_md_info_from_type t = Some i).

(** The salt: without one, the length has to be 0. *)
Definition salt_bytes (salt : option (list Z)) (salt_len : Z) : option (list Z) := ztake salt_len <$> salt.
Definition salt_ok (salt : option (list Z)) (salt_len : Z) : Prop :=
  match salt with None => True | Some b => is_bytes b /\ 0 <= salt_len <= zlen b /\ salt_len < md_limit t end.
Definition salt_missing (salt : option (list Z)) (salt_len : Z) : bool := bool_decide (salt = None) && negb (salt_len =? 0).

Lemma hkdf_extract_ok salt salt_len ikm ikm_len prk h :
  salt_ok salt salt_len -> is_bytes ikm -> 0 <= ikm_len <= zlen ikm -> ikm_len < md_limit t -> size i <= zlen prk ->
  exists h', mbedtls_hkdf_extract u w (Some i) salt salt_len ikm ikm_len prk h =
    Done (if salt_missing salt salt_len then (MBEDTLS_ERR_HKDF_BAD_INPUT_DATA, prk, h')
          else if grants 2 h then (0, splice prk 0 (hkdf_extract t (salt_bytes salt salt_len) (ztake ikm_len ikm)), h')
          else (MBEDTLS_ERR_MD_ALLOC_FAILED, prk, h')) /\ live h' = live h /\ (grants 2 h = true -> salt_missing salt salt_len = false -> answers h' = drop 2 (answers h)).
Proof using Hi Hw.
  intros Hsa Bi Hl Ll Hp. destruct (md_size_ok t i Hi) as (_ & Hsz & _). unfold mbedtls_hkdf_extract, salt_missing, hkdf_extract, salt_bytes.
  rewrite Hi. cbn [mbedtls_md_get_size]. destruct salt as [b|]; cbn [bool_decide andb fmap option_fmap option_map default].
  - destruct Hsa as (Bb & Hb & Lb). destruct (md_hmac_run u w t i b salt_len ikm ikm_len prk h Hw Hi Bb Hb Lb Bi Hl Ll Hp) as (h' & E & Hlv & Ha).
    exists h'. rewrite bool_decide_false by done. split; [exact E|]. split; [done|]. auto.
  - rewrite bool_decide_true by done. cbn [andb]. destruct (salt_len =? 0); cbn [negb]; [|by exists h].
    rewrite (proj2 (Z.eqb_neq _ _)) by lia. set (z := replicate (Z.to_nat MBEDTLS_MD_MAX_SIZE) 0).
    assert (is_bytes z /\ zlen z = 64) as [Bz Lz] by (split; [by apply is_bytes_replicate|unfold z; by rewrite zlen_replicate]).
    destruct (md_hmac_run u w t i z (size i) ikm ikm_len prk h Hw Hi Bz ltac:(lia) ltac:(destruct t; cbn; lia) Bi Hl Ll Hp) as (h' & E & Hlv & Ha).
    exists h'. rewrite E. split; [|auto]. destruct (grants 2 h); [|done]. do 5 f_equal. unfold z, ztake. rewrite take_replicate.
    f_equal. unfold MBEDTLS_MD_MAX_SIZE. lia.
Qed.

End whole.

(** ** Theorem *)

(** C30.  Key derivation.  For every hash function, a salt (or none), key material and info (or
    none) each shorter than what the code of the hash function can count in one piece
    ([md_limit]: 2^32 bytes for MD5, SHA-1, RIPEMD-160, SHA-224 and SHA-256, 2^64 for the
    others), and any output length, the function writes the bytes of RFC 5869 and nothing
    behind them.  hkdf.h states no such bound; a longer piece given to one of the five is
    counted modulo 2^32 and hashed wrongly, which C26 shows for SHA-256, so the result is not
    RFC 5869 there.  A length without a salt and an output of more than 255 blocks are refused,
    and every one of the four requests for memory may fail: then the output is as it was.  All
    memory is returned on every path. *)
Theorem hkdf_correct u w t i salt salt_len ikm ikm_len info info_len okm okm_len h :
  0 < w -> mbedtls_md_info_from_type t = Some i -> salt_ok t salt salt_len -> info_ok t info info_len ->
  is_bytes ikm -> 0 <= ikm_len <= zlen ikm -> ikm_len < md_limit t -> 0 <= okm_len <= zlen okm ->
  exists h', mbedtls_hkdf u w (Some i) salt salt_len ikm ikm_len info info_len (Some okm) okm_len h =
    Done (if salt_missing salt salt_len then (MBEDTLS_ERR_HKDF_BAD_INPUT_DATA, Some okm, h')
          else if negb (grants 2 h) then (MBEDTLS_ERR_MD_ALLOC_FAILED, Some okm, h')
          else if okm_len >? 255 * size i then (MBEDTLS_ERR_HKDF_BAD_INPUT_DATA, Some okm, h')
          else if negb (grants 4 h) then (MBEDTLS_ERR_MD_ALLOC_FAILED, Some okm, h')
          else (0, Some (splice okm 0 (hkdf_expand t (hkdf_extract t (salt_bytes salt salt_len) (ztake ikm_len ikm)) (info_bytes info info_len) okm_len)), h')) /\
    live h' = live h.
Proof.
  intros Hw Hi Hsa Hin Bi Hl Ll Ho. destruct (md_size_ok t i Hi) as (_ & Hsz & _). unfold mbedtls_hkdf.
  set (z := replicate (Z.to_nat MBEDTLS_MD_MAX_SIZE) 0). assert (is_bytes z /\ zlen z = 64) as [Bz Lz] by (split; [by apply is_bytes_replicate|unfold z; by rewrite zlen_replicate]).
  destruct (hkdf_extract_ok u w Hw t i Hi salt salt_len ikm ikm_len z h Hsa Bi Hl Ll ltac:(lia)) as (h1 & -> & L1 & A1). rewrite bind_Done.
  destruct (salt_missing salt salt_len); [by exists h1|]. destruct (grants 2 h) eqn:G; [|by exists h1]. cbn [Z.eqb negb mbedtls_md_get_size].
  set (k := hkdf_extract _ _ _). assert (is_bytes k /\ zlen k = size i) as [Bk Lk].
  { apply (hmac_ok t i _ _ Hi); [|auto with zlist]. destruct salt as [b|]; cbn; [destruct Hsa; auto with zlist|by apply is_bytes_replicate]. }
  assert (is_bytes (splice z 0 k)) as Bs by (apply is_bytes_splice; auto with zlist).
  assert (zlen (splice z 0 k) = 64) as Ls by (rewrite zlen_splice; lia).
  destruct (hkdf_expand_ok u w Hw t i Hi (splice z 0 k) (size i) info info_len okm okm_len h1 Bs ltac:(lia) ltac:(destruct t; cbn; lia) ltac:(lia) Hin Ho)
    as (h2 & -> & L2).
  assert (ztake (size i) (splice z 0 k) = k) as -> by (rewrite <- Lk; apply splice_0_prefix; lia). exists h2. split; [|lia]. destruct (okm_len >? 255 * size i); [done|].
  assert (grants 4 h = grants 2 h1) as ->; [|by destruct (grants 2 h1)].
  unfold grants in *. change 4%nat with (2 + 2)%nat. rewrite <- take_take_drop, forallb_app, G, A1 by done. done.
Qed.

(** Test case 1 of RFC 5869. *)
Lemma hkdf_correct_witness :
  let u := Unrolling false true true true in let t := MBEDTLS_MD_SHA256 in let h := Heap [] 0 in
  let salt := Some [0; 1; 2; 3; 4; 5; 6; 7; 8; 9; 10; 11; 12] in let ikm := replicate 22 11 in
  let info := Some [240; 241; 242; 243; 244; 245; 246; 247; 248; 249] in let okm := replicate 44 0 in
  exists h', mbedtls_hkdf u 8 (Some mbedtls_sha256_info) salt 13 ikm 22 info 10 (Some okm) 42 h =
    Done (if salt_missing salt 13 then (MBEDTLS_ERR_HKDF_BAD_INPUT_DATA, Some okm, h')
          else if negb (grants 2 h) then (MBEDTLS_ERR_MD_ALLOC_FAILED, Some okm, h')
          else if 42 >? 255 * size mbedtls_sha256_info then (MBEDTLS_ERR_HKDF_BAD_INPUT_DATA, Some okm, h')
          else if negb (grants 4 h) then (MBEDTLS_ERR_MD_ALLOC_FAILED, Some okm, h')
          else (0, Some (splice okm 0 (hkdf_expand t (hkdf_extract t (salt_bytes salt 13) (ztake 22 ikm)) (info_bytes info 10) 42)), h')) /\
    live h' = live h.
Proof.
  intros u t h salt ikm info okm. refine (hkdf_correct u 8 t mbedtls_sha256_info salt 13 ikm 22 info 10 okm 42 h _ _ _ _ _ _ _ _).
  - reflexivity.
  - reflexivity.
  - split; [apply (bool_decide_unpack _); vm_compute; exact I|]. split; [vm_compute; split; discriminate|reflexivity].
  - split; [apply (bool_decide_unpack _); vm_compute; exact I|]. split; [vm_compute; split; discriminate|reflexivity].
  - apply (bool_decide_unpack _). vm_compute. exact I.
  - vm_compute. split; discriminate.
  - reflexivity.
  - vm_compute. split; discriminate.
Defined.

Example hkdf_rfc5869_1 :
  let r := hkdf_expand MBEDTLS_MD_SHA256
    (hkdf_extract MBEDTLS_MD_SHA256 (Some [0; 1; 2; 3; 4; 5; 6; 7; 8; 9; 10; 11; 12]) (replicate 22 11))
    [240; 241; 242; 243; 244; 245; 246; 247; 248; 249] 42 in
  (take 8 r, drop 38 r) = ([0x3c; 0xb2; 0x5f; 0x25; 0xfa; 0xac; 0xd5; 0x7a], [0x87; 0x18; 0x58; 0x65]).
Proof. vm_compute. reflexivity. Qed.
