(* ===== verification/Pkcs5.v ===== *)
(** * Keys from passwords

    PBKDF2 of [src/internal/mbedtls/pkcs5.c], on the HMAC of [md.c].  An [unsigned int] has 32
    bits, so that the check for more iterations is not compiled.  The rest of the file decrypts
    with keys derived like this and needs the ciphers. *)

From S2P Require Import Prelude Bytes Chacha20 BlockHash Keccak Sha3 Digests Md OutBlocks.

Definition MBEDTLS_ERR_PKCS5_FEATURE_UNAVAILABLE : Z := -0x2e80.

Local Abbreviation ctx_ptr := (option mbedtls_md_context_t).

Section code.
Context (u : unrolling) (w : Z).

(** The big-endian counter, from its last byte on. *)
Fixpoint count_up (i : nat) (counter : list Z) : outcome (list Z) :=
  match i with
  | O => mret counter
  | S j =>
      v ← load8 counter (Z.of_nat j);
      counter ← store counter (Z.of_nat j) [u8 (v + 1)];
      if negb (u8 (v + 1) =? 0) then mret counter else count_up j counter
  end.

(** The iterations behind the first: [rounds] of them are left. *)
Fixpoint iterate (rounds : nat) (ctx : ctx_ptr) (md_size : Z) (md1 work : list Z) : outcome (Z * ctx_ptr * list Z * list Z) :=
  match rounds with
  | O => mret (0, ctx, md1, work)
  | S rounds =>
      '(ret, ctx) ← mbedtls_md_hmac_update u ctx md1 md_size;
      if negb (ret =? 0) then mret (ret, ctx, md1, work) else
      '(ret, ctx, md1) ← mbedtls_md_hmac_finish u ctx md1;
      if negb (ret =? 0) then mret (ret, ctx, md1, work) else
      '(ret, ctx) ← mbedtls_md_hmac_reset u ctx;
      if negb (ret =? 0) then mret (ret, ctx, md1, work) else
      work ← mbedtls_xor w work 0 work 0 md1 0 md_size;
      iterate rounds ctx md_size md1 work
  end.

(** One block, in [work]. *)
Definition pbkdf2_block (ctx : ctx_ptr) (md_size : Z) (salt : list Z) (slen iteration_count : Z) (counter md1 work : list Z)
    : outcome (Z * ctx_ptr * list Z * list Z) :=
  '(ret, ctx) ← mbedtls_md_hmac_update u ctx salt slen;
  if negb (ret =? 0) then mret (ret, ctx, md1, work) else
  '(ret, ctx) ← mbedtls_md_hmac_update u ctx counter 4;
  if negb (ret =? 0) then mret (ret, ctx, md1, work) else
  '(ret, ctx, work) ← mbedtls_md_hmac_finish u ctx work;
  if negb (ret =? 0) then mret (ret, ctx, md1, work) else
  '(ret, ctx) ← mbedtls_md_hmac_reset u ctx;
  if negb (ret =? 0) then mret (ret, ctx, md1, work) else
  first ← load work 0 md_size;
  md1 ← store md1 0 first;
  iterate (Z.to_nat (iteration_count - 1)) ctx md_size md1 work.

Fixpoint pbkdf2_loop (fuel : nat) (ctx : ctx_ptr) (md_size : Z) (salt : list Z) (slen iteration_count : Z) (counter md1 work : list Z)
    (key_length : Z) (output : list Z) (out_p : Z) : outcome (Z * ctx_ptr * list Z) :=
  match fuel with
  | O => NoFuel
  | S fuel =>
      if key_length =? 0 then mret (0, ctx, output) else
      '(ret, ctx, md1, work) ← pbkdf2_block ctx md_size salt slen iteration_count counter md1 work;
      if negb (ret =? 0) then mret (ret, ctx, output) else
      let use_len := if key_length <? md_size then key_length else md_size in
      chunk ← load work 0 use_len;
      output ← store output out_p chunk;
      counter ← count_up 4 counter;
      pbkdf2_loop fuel ctx md_size salt slen iteration_count counter md1 work (u32 (key_length - use_len)) output (out_p + use_len)
  end.

Definition pkcs5_pbkdf2_hmac (ctx : ctx_ptr) (password : list Z) (plen : Z) (salt : list Z) (slen iteration_count key_length : Z)
    (output : list Z) : outcome (Z * ctx_ptr * list Z) :=
  let md_size := mbedtls_md_get_size (mbedtls_md_info_from_ctx ctx) in
  '(ret, ctx) ← mbedtls_md_hmac_starts u w ctx password plen;
  if negb (ret =? 0) then mret (ret, ctx, output) else
  pbkdf2_loop (S (Z.to_nat key_length)) ctx md_size salt slen iteration_count [0; 0; 0; 1]
    (replicate (Z.to_nat MBEDTLS_MD_MAX_SIZE) 0) (replicate (Z.to_nat MBEDTLS_MD_MAX_SIZE) 0) key_length output 0.

Definition mbedtls_pkcs5_pbkdf2_hmac (ctx : ctx_ptr) (password : list Z) (plen : Z) (salt : list Z) (slen iteration_count key_length : Z)
    (output : list Z) : outcome (Z * ctx_ptr * list Z) :=
  pkcs5_pbkdf2_hmac ctx password plen salt slen iteration_count key_length output.

Definition mbedtls_pkcs5_pbkdf2_hmac_ext (md_alg : mbedtls_md_type_t) (password : list Z) (plen : Z) (salt : list Z)
    (slen iteration_count key_length : Z) (output : list Z) (h : heap) : outcome (Z * list Z * heap) :=
  match mbedtls_md_info_from_type md_alg with
  | None => mret (MBEDTLS_ERR_PKCS5_FEATURE_UNAVAILABLE, output, h)
  | Some md_info =>
      let ctx := Some (mbedtls_md_init md_zero) in
      '(ret, ctx, h) ← mbedtls_md_setup ctx (Some md_info) 1 h;
      '(ret, ctx, output) ←
        (if negb (ret =? 0) then mret (ret, ctx, output) else
         pkcs5_pbkdf2_hmac ctx password plen salt slen iteration_count key_length output);
      '(_, h) ← mbedtls_md_free ctx h;
      mret (ret, output, h)
  end.

End code.

(** ** PKCS #5 *)

(** [U_(j+1)] and [F] of the block [k], for [c + 1] iterations. *)
Fixpoint pbkdf2_U (t : mbedtls_md_type_t) (password salt : list Z) (k : nat) (j : nat) : list Z :=
  match j with
  | O => hmac t password (salt ++ be_bytes 4 (Z.of_nat k))
  | S j => hmac t password (pbkdf2_U t password salt k j)
  end.
Fixpoint pbkdf2_F (t : mbedtls_md_type_t) (password salt : list Z) (c k : nat) : list Z :=
  match c with
  | O => pbkdf2_U t password salt k 0
  | S c' => zip_with Z.lxor (pbkdf2_F t password salt c' k) (pbkdf2_U t password salt k c)
  end.
Definition pbkdf2 (t : mbedtls_md_type_t) (password salt : list Z) (iterations len : Z) : list Z :=
  ztake len (blocks (pbkdf2_F t password salt (Z.to_nat (iterations - 1)))
    (Z.to_nat (ceil_div len (mbedtls_md_get_size (mbedtls_md_info_from_type t))))).

(** ** Proofs *)

Lemma be_bytes_S n x : be_bytes (S n) x = be_bytes n (x / 2 ^ 8) ++ [x mod 2 ^ 8].
Proof. done. Qed.

Lemma count_up_spec i x tl : count_up i (be_bytes i x ++ tl) = Done (be_bytes i (x + 1) ++ tl).
Proof.
  revert x tl. induction i as [|i IH]; intros x tl; [done|]. cbn [count_up]. rewrite !be_bytes_S, <- !app_assoc. cbn [app].
  pose proof (be_bytes_length i (x / 2 ^ 8)) as L. rewrite <- L, load8_middle, bind_Done, store_splice, bind_Done
    by (rewrite ?zlen_app, ?zlen_cons, ?zlen_nil; pose proof (zlen_nonneg tl); lia).
  unfold splice. rewrite ztake_app_l, ztake_all by lia. change (zlen [_]) with 1. rewrite zdrop_app_r by lia.
  replace (zlen _ + 1 - zlen _) with 1 by lia. change (zdrop 1 (x mod 2 ^ 8 :: tl)) with tl. unfold u8.
  pose proof (Z.mod_pos_bound x (2 ^ 8) ltac:(lia)). pose proof (Z.div_mod x (2 ^ 8) ltac:(lia)).
  destruct (Z.eqb_spec ((x mod 2 ^ 8 + 1) mod 2 ^ 8) 0) as [E|E]; cbn [negb app].
  - assert (x mod 2 ^ 8 = 255) by (destruct (Z.eq_dec (x mod 2 ^ 8) 255); [done|rewrite Z.mod_small in E; lia]).
    rewrite IH, E. do 2 f_equal; [f_equal|f_equal]; [apply (Z.div_unique _ _ _ 0)|apply (Z.mod_unique _ _ (x / 2 ^ 8 + 1))]; lia.
  - assert (x mod 2 ^ 8 <> 255) by (intros N; apply E; by rewrite N).
    unfold mret, outcome_ret. rewrite Z.mod_small by lia. do 2 f_equal; [f_equal|f_equal];
      [apply (Z.div_unique _ _ _ (x mod 2 ^ 8 + 1))|apply (Z.mod_unique _ _ (x / 2 ^ 8))]; lia.
Qed.

(** Combining into the first operand. *)
Lemma xor_into w b key n : 0 < w -> 0 <= n <= zlen b -> n <= zlen key ->
  mbedtls_xor w b 0 b 0 key 0 n = Done (splice b 0 (zip_with Z.lxor (ztake n b) (ztake n key))).
Proof.
  intros Hw Hb Hk. pose proof (mbedtls_xor_spec w b b 0 key 0 n [] Hw) as X. change (zlen (@nil Z)) with 0 in X.
  rewrite splice_nil in X by lia. cbn [app] in X. rewrite !zdrop_0 in X. apply X; lia.
Qed.

Lemma zip_lxor_bytes a b : is_bytes a -> is_bytes b -> is_bytes (zip_with Z.lxor a b).
Proof.
  intros Ha. revert b. induction Ha as [|x a Hx _ IH]; intros [|y b] Hb; try constructor; apply Forall_cons in Hb as [Hy Hb]; [|by apply IH].
  by apply (lxor_below 8 x y).
Qed.

Section derivation.
Context (u : unrolling) (w : Z) (Hw : 0 < w).
Context (t : mbedtls_md_type_t) (i : mbedtls_md_info_t) (Hi : mbedtls_md_info_from_type t = Some i).
Context (pw : list Z) (Bpw : is_bytes pw).
Context (salt : list Z) (slen : Z) (Bs : is_bytes salt) (Hs : 0 <= slen <= zlen salt) (Ls : slen < md_limit t).

Local Abbreviation sa := (ztake slen salt).
Local Abbreviation U := (pbkdf2_U t pw sa).
Local Abbreviation F := (pbkdf2_F t pw sa).
(** The context as it is between the messages: keyed and reset. *)
Local Abbreviation ready := (fun o => md_holds u t (pad_with 0x36 (hmac_key t pw)) o).

Lemma U_ok k j : is_bytes (U k j) /\ zlen (U k j) = size i.
Proof using Hi Bpw Bs.
  induction j as [|j [IH _]]; cbn [pbkdf2_U]; apply (hmac_ok t i); try done.
  apply is_bytes_app; [auto with zlist|apply is_bytes_be_bytes].
Qed.

Lemma F_ok c k : is_bytes (F c k) /\ zlen (F c k) = size i.
Proof using Hi Bpw Bs.
  induction c as [|c [B L]]; cbn [pbkdf2_F]; [apply U_ok|]. destruct (U_ok k (S c)) as [B' L']. split.
  - apply (zip_lxor_bytes _ _ B B').
  - unfold zlen in *. rewrite length_zip_with. lia.
Qed.

(** A message in one piece under the key, then the reset. *)
Lemma hmac_message {A} o m input n buf (f : ctx_ptr -> list Z -> outcome A) (bad : Z -> ctx_ptr -> list Z -> outcome A) :
  md_holds u t (pad_with 0x36 (hmac_key t pw) ++ m) o -> is_bytes m -> is_bytes input -> 0 <= n <= zlen input -> n < md_limit t -> size i <= zlen buf ->
  exists o', ready o' /\
  ('(ret, ctx) ← mbedtls_md_hmac_update u (md_of t o (Some (pads t pw))) input n;
   if negb (ret =? 0) then bad ret ctx buf else
   '(ret, ctx, buf) ← mbedtls_md_hmac_finish u ctx buf;
   if negb (ret =? 0) then bad ret ctx buf else
   '(ret, ctx) ← mbedtls_md_hmac_reset u ctx;
   if negb (ret =? 0) then bad ret ctx buf else f ctx buf) = f (md_of t o' (Some (pads t pw))) (splice buf 0 (hmac t pw (m ++ ztake n input))).
Proof using Hi Bpw.
  intros Hm Bm Bi Hn Ln Hb.
  destruct (hmac_update_ok u t i Hi o (pads t pw) _ input n Hm Bi Hn Ln) as (o1 & -> & H1). rewrite bind_Done. cbn [Z.eqb negb]. rewrite <- app_assoc in H1.
  destruct (hmac_finish_ok u t i Hi o1 pw (m ++ ztake n input) buf Bpw ltac:(apply is_bytes_app; auto with zlist) H1 Hb) as (o2 & -> & H2). rewrite bind_Done. cbn [Z.eqb negb].
  destruct (hmac_reset_ok u t i Hi o2 pw Bpw H2) as (o3 & -> & H3). rewrite bind_Done. cbn [Z.eqb negb]. by exists o3.
Qed.

(** A buffer whose first bytes are [x]. *)
Definition begins (b x : list Z) : Prop := is_bytes b /\ zlen b = 64 /\ ztake (size i) b = x.

Lemma begins_splice b x y : begins b x -> is_bytes y -> zlen y = size i -> begins (splice b 0 y) y.
Proof using Hi.
  intros (B & L & _) By Ly. destruct (md_size_ok t i Hi) as (_ & Hsz & _). split; [|split].
  - apply is_bytes_splice; auto with zlist.
  - rewrite zlen_splice; lia.
  - rewrite <- Ly. apply splice_0_prefix. lia.
Qed.

Lemma iterate_ok rounds : forall c k o md1 work, ready o -> begins md1 (U k c) -> begins work (F c k) ->
  exists o' md1' work', iterate u w rounds (md_of t o (Some (pads t pw))) (size i) md1 work = Done (0, md_of t o' (Some (pads t pw)), md1', work') /\
    ready o' /\ begins work' (F (c + rounds) k) /\ begins md1' (U k (c + rounds)).
Proof using All.
  destruct (md_size_ok t i Hi) as (_ & Hsz & _). assert (size i < md_limit t) as Lz by (destruct t; cbn; lia).
  induction rounds as [|rounds IH]; intros c k o md1 work Ho Hm Hwk; cbn [iterate].
  { rewrite Nat.add_0_r. by exists o, md1, work. }
  pose proof Hm as (Bm & Lm & Em). pose proof Hwk as (Bk & Lk & Ek). destruct (U_ok k (S c)) as [BU LU]. destruct (F_ok (S c) k) as [BF LF].
  rewrite <- (app_nil_r (pad_with _ _)) in Ho.
  destruct (hmac_message o [] md1 (size i) md1 (fun ctx md1 => work ← mbedtls_xor w work 0 work 0 md1 0 (size i); iterate u w rounds ctx (size i) md1 work)
    (fun ret ctx md1 => mret (ret, ctx, md1, work)) Ho ltac:(constructor) Bm ltac:(lia) Lz ltac:(lia)) as (o1 & H1 & ->).
  cbn [app]. rewrite Em. change (hmac t pw (U k c)) with (U k (S c)).
  pose proof (begins_splice md1 _ (U k (S c)) Hm BU LU) as Hm1. pose proof Hm1 as (_ & L1 & E1).
  rewrite xor_into, bind_Done, E1, Ek by lia. change (zip_with Z.lxor (F c k) (U k (S c))) with (F (S c) k).
  rewrite <- Nat.add_succ_comm. apply IH; [done|done|]. by eapply begins_splice.
Qed.

Lemma block_ok k iterations o md1 work x y : ready o -> begins md1 x -> begins work y ->
  exists o' md1' work' x', pbkdf2_block u w (md_of t o (Some (pads t pw))) (size i) salt slen iterations (be_bytes 4 (Z.of_nat k)) md1 work =
      Done (0, md_of t o' (Some (pads t pw)), md1', work') /\
    ready o' /\ begins work' (F (Z.to_nat (iterations - 1)) k) /\ begins md1' x'.
Proof using All.
  intros Ho Hm Hwk. destruct (md_size_ok t i Hi) as (_ & Hsz & _). assert (4 < md_limit t) as L4 by (destruct t; cbn; lia). unfold pbkdf2_block.
  destruct (hmac_update_ok u t i Hi o (pads t pw) _ salt slen Ho Bs Hs Ls) as (o1 & -> & H1). rewrite bind_Done. cbn [Z.eqb negb].
  pose proof Hwk as (Bk & Lk & _). pose proof (be_bytes_length 4 (Z.of_nat k)) as Lc. destruct (U_ok k 0) as [BU LU].
  destruct (hmac_message o1 sa (be_bytes 4 (Z.of_nat k)) 4 work (fun ctx work => first ← load work 0 (size i); md1 ← store md1 0 first; iterate u w (Z.to_nat (iterations - 1)) ctx (size i) md1 work)
    (fun ret ctx work => mret (ret, ctx, md1, work)) H1 ltac:(auto with zlist) (is_bytes_be_bytes _ _) ltac:(lia) L4 ltac:(lia)) as (o2 & H2 & ->).
  rewrite (ztake_all 4) by lia. change (hmac t pw (sa ++ be_bytes 4 (Z.of_nat k))) with (U k 0).
  pose proof (begins_splice work _ (U k 0) Hwk BU LU) as Hw1. pose proof Hw1 as (_ & L1 & E1). pose proof Hm as (_ & Lm & _).
  rewrite load_Done, bind_Done, zdrop_0, E1, store_splice, bind_Done by lia.
  destruct (iterate_ok (Z.to_nat (iterations - 1)) 0 k o2 (splice md1 0 (U k 0)) (splice work 0 (U k 0)) H2) as (o3 & md1' & work' & -> & H3 & Hw3 & Hm3);
    [by eapply begins_splice|done|].
  by exists o3, md1', work', (U k (0 + Z.to_nat (iterations - 1))).
Qed.

Context (iterations : Z) (output : list Z) (len : Z) (Hlen : 0 <= len <= zlen output) (H32 : len < 2 ^ 32).
Local Abbreviation T := (F (Z.to_nat (iterations - 1))).
Local Abbreviation n := (Z.to_nat (ceil_div len (size i))).

Lemma loop_ok fuel : forall k o md1 work x y, ready o -> begins md1 x -> begins work y ->
  (k < n)%nat -> (Z.to_nat (len - Z.of_nat k * size i) < fuel)%nat ->
  exists o', pbkdf2_loop u w fuel (md_of t o (Some (pads t pw))) (size i) salt slen iterations (be_bytes 4 (Z.of_nat (S k))) md1 work
      (len - Z.of_nat k * size i) (filled T output len k) (Z.of_nat k * size i) =
    Done (0, md_of t o' (Some (pads t pw)), filled T output len n) /\ md_shaped u t o'.
Proof using All.
  destruct (md_size_ok t i Hi) as (_ & Hsz & _). destruct (ceil_div_spec len (size i) ltac:(lia) ltac:(lia)) as (_ & Hlow & Hhigh & Hn0).
  set (N := ceil_div len (size i)) in *.
  induction fuel as [|fuel IH]; intros k o md1 work x y Ho Hm Hwk Hk Hf; [lia|]. cbn [pbkdf2_loop].
  assert (Z.of_nat k * size i <= (N - 1) * size i) by (apply Z.mul_le_mono_nonneg_r; lia).
  set (r := len - Z.of_nat k * size i) in *. rewrite (proj2 (Z.eqb_neq _ _)) by lia.
  destruct (block_ok (S k) iterations o md1 work x y Ho Hm Hwk) as (o1 & md1' & work' & x' & -> & H1 & Hw1 & Hm1). rewrite bind_Done. cbn [Z.eqb negb].
  pose proof Hw1 as (_ & Lw & Ew). set (use := if r <? size i then r else size i). assert (use = Z.min (size i) r) as Eu by (unfold use; destruct (Z.ltb_spec r (size i)); lia).
  clearbody use. rewrite load_Done, bind_Done, zdrop_0 by lia. rewrite <- (ztake_ztake use (size i) work'), Ew by lia.
  rewrite (filled_step T (size i) ltac:(lia) (S k) ltac:(intros; apply F_ok) output len Hlen k use ltac:(lia) Eu), bind_Done by lia.
  pose proof (count_up_spec 4 (Z.of_nat (S k)) []) as CU. rewrite !app_nil_r in CU. rewrite CU, bind_Done.
  replace (Z.of_nat (S k) + 1) with (Z.of_nat (S (S k))) by lia. unfold u32. rewrite Z.mod_small by lia.
  destruct (decide (S k = Z.to_nat N)) as [EN|NN].
  - assert (r <= size i) by (replace N with (Z.of_nat k + 1) in Hhigh by lia; lia). replace (r - use) with 0 by lia.
    destruct fuel as [|fuel]; [lia|]. cbn [pbkdf2_loop Z.eqb]. exists o1. rewrite EN. split; [done|]. by eapply md_holds_shaped.
  - assert ((Z.of_nat k + 1) * size i <= (N - 1) * size i) by (apply Z.mul_le_mono_nonneg_r; lia).
    replace (r - use) with (len - Z.of_nat (S k) * size i) by lia. replace (Z.of_nat k * size i + use) with (Z.of_nat (S k) * size i) by lia.
    apply (IH (S k) o1 md1' work' _ _ H1 Hm1 Hw1); lia.
Qed.

End derivation.

Section derive.
Context (u : unrolling) (w : Z) (Hw : 0 < w).
Context (t : mbedtls_md_type_t) (i : mbedtls_md_info_t) (Hi : mbedtls_md_info_from_type t = Some i).

Lemma pbkdf2_ok o b pw plen salt slen iterations len output : md_shaped u t o -> zlen b = 2 * block_size i ->
  is_bytes pw -> 0 <= plen <= zlen pw -> plen < md_limit t -> is_bytes salt -> 0 <= slen <= zlen salt -> slen < md_limit t ->
  0 <= len <= zlen output -> len < 2 ^ 32 ->
  exists o', pkcs5_pbkdf2_hmac u w (md_of t o (Some b)) pw plen salt slen iterations len output =
      Done (0, md_of t o' (Some (pads t (ztake plen pw))), splice output 0 (pbkdf2 t (ztake plen pw) (ztake slen salt) iterations len)) /\ md_shaped u t o'.
Proof using Hi Hw.
  intros Hs Lb Bp Hp Lp Bs Hsl Lsl Hlen H32. destruct (md_size_ok t i Hi) as (_ & Hsz & _). unfold pkcs5_pbkdf2_hmac.
  unfold mbedtls_md_info_from_ctx. unfold md_of at 1. cbn [md_info]. rewrite Hi. cbn [mbedtls_md_get_size].
  destruct (hmac_starts_ok u w Hw t i Hi o b pw plen Hs Lb Bp Hp Lp) as (o1 & -> & H1). rewrite bind_Done. cbn [Z.eqb negb].
  set (buf := replicate (Z.to_nat MBEDTLS_MD_MAX_SIZE) 0).
  assert (begins i buf (ztake (size i) buf)) as Hbuf by (split; [by apply is_bytes_replicate|split; [unfold buf; by rewrite zlen_replicate|done]]).
  destruct (Z.eq_dec len 0) as [->|N0].
  - exists o1. cbn [pbkdf2_loop Z.eqb]. split; [|by eapply md_holds_shaped]. unfold pbkdf2, ztake at 2. cbn [Z.to_nat take].
    by rewrite splice_nil.
  - destruct (ceil_div_spec len (size i) ltac:(lia) ltac:(lia)) as (_ & _ & Hhigh & Hn0).
    destruct (loop_ok u w Hw t i Hi (ztake plen pw) ltac:(auto with zlist) salt slen Bs Hsl Lsl iterations output len Hlen H32
      (S (Z.to_nat len)) 0 o1 buf buf _ _ H1 Hbuf Hbuf) as (o' & E & H'); [|lia|].
    { destruct (Z.eq_dec (ceil_div len (size i)) 0) as [E|]; [rewrite E in Hhigh|]; lia. }
    rewrite filled_0 in E by done. change (be_bytes 4 (Z.of_nat 1)) with [0; 0; 0; 1] in E. change (Z.of_nat 0 * size i) with 0 in E.
    rewrite Z.sub_0_r in E. exists o'. split; [|done]. rewrite E. unfold filled, pbkdf2. by rewrite Hi.
Qed.

End derive.

(** ** Theorem *)

(** C31.  Deriving a key from a password gives PBKDF2 of PKCS #5, for a password and a salt each
    shorter than what the code of the hash function can count in one piece ([md_limit]: 2^32
    bytes for MD5, SHA-1, RIPEMD-160, SHA-224 and SHA-256, 2^64 for the others; pkcs5.h states
    no such bound, and a longer piece given to one of the five is counted modulo 2^32 and
    hashed wrongly, which C26 shows for SHA-256), any number of iterations (none counts as
    one) and any length below 2^32, which is what the parameter can hold, block by block with
    the counter carried over its four bytes; nothing is written behind the key.  An unknown
    hash function and a refusal of memory are reported with the output as it was, and memory
    is returned on every path. *)
Theorem pbkdf2_correct u w t pw plen salt slen iterations len output h :
  0 < w -> is_bytes pw -> 0 <= plen <= zlen pw -> plen < md_limit t -> is_bytes salt -> 0 <= slen <= zlen salt -> slen < md_limit t ->
  0 <= len <= zlen output -> len < 2 ^ 32 ->
  exists h', mbedtls_pkcs5_pbkdf2_hmac_ext u w t pw plen salt slen iterations len output h =
    Done (if bool_decide (t = MBEDTLS_MD_NONE) then (MBEDTLS_ERR_PKCS5_FEATURE_UNAVAILABLE, output, h')
          else if grants 2 h then (0, splice output 0 (pbkdf2 t (ztake plen pw) (ztake slen salt) iterations len), h')
          else (MBEDTLS_ERR_MD_ALLOC_FAILED, output, h')) /\ live h' = live h.
Proof.
  intros Hw Bp Hp Lp Bs Hsl Lsl Hlen H32. unfold mbedtls_pkcs5_pbkdf2_hmac_ext. destruct (mbedtls_md_info_from_type t) as [i|] eqn:Hi.
  2:{ rewrite bool_decide_true by by destruct t. by exists h. }
  rewrite bool_decide_false by (by intros ->). cbv zeta.
  destruct (md_bracket u t i h output (splice output 0 (pbkdf2 t (ztake plen pw) (ztake slen salt) iterations len)) 0
    (fun ctx => pkcs5_pbkdf2_hmac u w ctx pw plen salt slen iterations len output) (fun ret output h => mret (ret, output, h)) Hi) as (h' & -> & Hl & _).
  - intros o b Hs Lb. destruct (pbkdf2_ok u w Hw t i Hi o b pw plen salt slen iterations len output Hs Lb) as (o' & -> & Hs'); try done.
    exists o'. eexists. split; [reflexivity|]. split; [done|]. apply (pads_ok t i _ Hi). auto with zlist.
  - exists h'. by destruct (grants 2 h).
Qed.

Lemma pbkdf2_correct_witness : let u := Unrolling false true true true in let t := MBEDTLS_MD_SHA1 in let h := Heap [] 0 in
  let pw := [112; 97; 115; 115; 119; 111; 114; 100] in let salt := [115; 97; 108; 116] in let output := replicate 21 7 in
  exists h', mbedtls_pkcs5_pbkdf2_hmac_ext u 8 t pw 8 salt 4 2 20 output h =
    Done (if bool_decide (t = MBEDTLS_MD_NONE) then (MBEDTLS_ERR_PKCS5_FEATURE_UNAVAILABLE, output, h')
          else if grants 2 h then (0, splice output 0 (pbkdf2 t (ztake 8 pw) (ztake 4 salt) 2 20), h')
          else (MBEDTLS_ERR_MD_ALLOC_FAILED, output, h')) /\ live h' = live h.
Proof.
  intros u t h pw salt output. refine (pbkdf2_correct u 8 t pw 8 salt 4 2 20 output h _ _ _ _ _ _ _ _ _);
    [reflexivity|apply (bool_decide_unpack _); vm_compute; exact I|vm_compute; split; discriminate|reflexivity
    |apply (bool_decide_unpack _); vm_compute; exact I|vm_compute; split; discriminate|reflexivity|vm_compute; split; discriminate|reflexivity].
Defined.

(** The second test of RFC 6070. *)
Example pbkdf2_rfc6070 :
  pbkdf2 MBEDTLS_MD_SHA1 [112; 97; 115; 115; 119; 111; 114; 100] [115; 97; 108; 116] 2 20 =
  [0xea; 0x6c; 0x01; 0x4d; 0xc7; 0x2d; 0x6f; 0x8c; 0xcd; 0x1e; 0xd9; 0x2a; 0xce; 0x1d; 0x41; 0xf0; 0xd8; 0xde; 0x89; 0x57].
Proof. vm_compute. reflexivity. Qed.
