(* ===== verification/HmacDrbg.v ===== *)
(** * The HMAC random generator

    [src/internal/mbedtls/hmac_drbg.c]: the generator of NIST SP 800-90A on HMAC, seeded from
    a buffer or from an entropy source that is called again for reseeding.  The source is a
    function pointer, and what it does is a parameter here: given its state and the number of
    bytes wanted it answers a status, the bytes it wrote and its next state.  The mutex of
    [mbedtls_hmac_drbg_random] appears with the results of locking and unlocking it. *)

From S2P Require Import Prelude Bytes Chacha20 BlockHash Keccak Sha3 Digests Md OutBlocks.

Definition MBEDTLS_ERR_HMAC_DRBG_REQUEST_TOO_BIG : Z := -0x0003.
Definition MBEDTLS_ERR_HMAC_DRBG_INPUT_TOO_BIG : Z := -0x0005.
Definition MBEDTLS_ERR_HMAC_DRBG_ENTROPY_SOURCE_FAILED : Z := -0x0009.
Definition MBEDTLS_ERR_THREADING_MUTEX_ERROR : Z := -0x001E.
Definition MBEDTLS_HMAC_DRBG_RESEED_INTERVAL : Z := 10000.
Definition MBEDTLS_HMAC_DRBG_MAX_INPUT : Z := 256.
Definition MBEDTLS_HMAC_DRBG_MAX_REQUEST : Z := 1024.
Definition MBEDTLS_HMAC_DRBG_MAX_SEED_INPUT : Z := 384.
Definition MBEDTLS_HMAC_DRBG_PR_OFF : Z := 0.
Definition MBEDTLS_HMAC_DRBG_PR_ON : Z := 1.

Section code.
Context (u : unrolling) (w : Z) {E : Type}.

Definition entropy_fn : Type := E -> Z -> Z * list Z * E.

(** [drbg_md] is the address of the member [md_ctx]. *)
Record mbedtls_hmac_drbg_context := Drbg {
  drbg_md : option mbedtls_md_context_t;
  V : list Z;
  reseed_counter : Z;
  entropy_len : Z;
  prediction_resistance : Z;
  reseed_interval : Z;
  f_entropy : option entropy_fn
}.

Definition set_md (c : mbedtls_hmac_drbg_context) (m : option mbedtls_md_context_t) : mbedtls_hmac_drbg_context :=
  Drbg m (V c) (reseed_counter c) (entropy_len c) (prediction_resistance c) (reseed_interval c) (f_entropy c).
Definition set_V (c : mbedtls_hmac_drbg_context) (v : list Z) : mbedtls_hmac_drbg_context :=
  Drbg (drbg_md c) v (reseed_counter c) (entropy_len c) (prediction_resistance c) (reseed_interval c) (f_entropy c).
Definition set_counter (c : mbedtls_hmac_drbg_context) (n : Z) : mbedtls_hmac_drbg_context :=
  Drbg (drbg_md c) (V c) n (entropy_len c) (prediction_resistance c) (reseed_interval c) (f_entropy c).
Definition set_source (c : mbedtls_hmac_drbg_context) (f : entropy_fn) : mbedtls_hmac_drbg_context :=
  Drbg (drbg_md c) (V c) (reseed_counter c) (entropy_len c) (prediction_resistance c) (reseed_interval c) (Some f).

Definition mbedtls_hmac_drbg_set_prediction_resistance (c : mbedtls_hmac_drbg_context) (resistance : Z) : mbedtls_hmac_drbg_context :=
  Drbg (drbg_md c) (V c) (reseed_counter c) (entropy_len c) resistance (reseed_interval c) (f_entropy c).
Definition mbedtls_hmac_drbg_set_entropy_len (c : mbedtls_hmac_drbg_context) (len : Z) : mbedtls_hmac_drbg_context :=
  Drbg (drbg_md c) (V c) (reseed_counter c) len (prediction_resistance c) (reseed_interval c) (f_entropy c).
Definition mbedtls_hmac_drbg_set_reseed_interval (c : mbedtls_hmac_drbg_context) (interval : Z) : mbedtls_hmac_drbg_context :=
  Drbg (drbg_md c) (V c) (reseed_counter c) (entropy_len c) (prediction_resistance c) interval (f_entropy c).

Definition mbedtls_hmac_drbg_init : mbedtls_hmac_drbg_context :=
  Drbg (Some md_zero) (replicate (Z.to_nat MBEDTLS_MD_MAX_SIZE) 0) 0 0 0 MBEDTLS_HMAC_DRBG_RESEED_INTERVAL None.

(** A call on the HMAC context; the rest runs when it succeeds. *)
Definition on_md (c : mbedtls_hmac_drbg_context) (run : option mbedtls_md_context_t -> outcome (Z * option mbedtls_md_context_t))
    (k : mbedtls_hmac_drbg_context -> outcome (Z * mbedtls_hmac_drbg_context)) : outcome (Z * mbedtls_hmac_drbg_context) :=
  '(ret, m) ← run (drbg_md c);
  if negb (ret =? 0) then mret (ret, set_md c m) else k (set_md c m).

(** One round of the loop of the update. *)
Definition update_round (c : mbedtls_hmac_drbg_context) (md_len rounds sep : Z) (additional : list Z) (add_len : Z)
    : outcome (Z * mbedtls_hmac_drbg_context) :=
  on_md c (fun m => mbedtls_md_hmac_reset u m) (fun c =>
  on_md c (fun m => mbedtls_md_hmac_update u m (V c) md_len) (fun c =>
  on_md c (fun m => mbedtls_md_hmac_update u m [sep] 1) (fun c =>
  on_md c (fun m => if rounds =? 2 then mbedtls_md_hmac_update u m additional add_len else mret (0, m)) (fun c =>
  '(ret, m, K) ← mbedtls_md_hmac_finish u (drbg_md c) (replicate (Z.to_nat MBEDTLS_MD_MAX_SIZE) 0);
  let c := set_md c m in
  if negb (ret =? 0) then mret (ret, c) else
  on_md c (fun m => mbedtls_md_hmac_starts u w m K md_len) (fun c =>
  on_md c (fun m => mbedtls_md_hmac_update u m (V c) md_len) (fun c =>
  '(ret, m, v) ← mbedtls_md_hmac_finish u (drbg_md c) (V c);
  mret (ret, set_V (set_md c m) v))))))).

Fixpoint update_loop (todo : nat) (c : mbedtls_hmac_drbg_context) (md_len rounds sep : Z) (additional : list Z) (add_len : Z)
    : outcome (Z * mbedtls_hmac_drbg_context) :=
  match todo with
  | O => mret (0, c)
  | S todo =>
      '(ret, c) ← update_round c md_len rounds sep additional add_len;
      if negb (ret =? 0) then mret (ret, c) else update_loop todo c md_len rounds (sep + 1) additional add_len
  end.

Definition mbedtls_hmac_drbg_update (c : mbedtls_hmac_drbg_context) (additional : option (list Z)) (add_len : Z)
    : outcome (Z * mbedtls_hmac_drbg_context) :=
  let md_len := mbedtls_md_get_size (mbedtls_md_info_from_ctx (drbg_md c)) in
  match additional with
  | Some data => if negb (add_len =? 0) then update_loop 2 c md_len 2 0 data add_len else update_loop 1 c md_len 1 0 data add_len
  | None => update_loop 1 c md_len 1 0 [] add_len
  end.

Definition mbedtls_hmac_drbg_seed_buf (c : mbedtls_hmac_drbg_context) (md_info : option mbedtls_md_info_t) (data : option (list Z)) (data_len : Z)
    (h : heap) : outcome (Z * mbedtls_hmac_drbg_context * heap) :=
  '(ret, m, h) ← mbedtls_md_setup (drbg_md c) md_info 1 h;
  let c := set_md c m in
  if negb (ret =? 0) then mret (ret, c, h) else
  '(ret, c) ← on_md c (fun m => mbedtls_md_hmac_starts u w m (V c) (mbedtls_md_get_size md_info)) (fun c =>
    v ← store (V c) 0 (replicate (Z.to_nat (mbedtls_md_get_size md_info)) 0x01);
    mbedtls_hmac_drbg_update (set_V c v) data data_len);
  mret (ret, c, h).

Definition hmac_drbg_reseed_core (c : mbedtls_hmac_drbg_context) (e : E) (additional : option (list Z)) (len use_nonce : Z)
    : outcome (Z * mbedtls_hmac_drbg_context * E) :=
  let total_entropy_len := if use_nonce =? 0 then entropy_len c else u64 (entropy_len c * 3) / 2 in
  if (len >? MBEDTLS_HMAC_DRBG_MAX_INPUT) || (u64 (total_entropy_len + len) >? MBEDTLS_HMAC_DRBG_MAX_SEED_INPUT)
  then mret (MBEDTLS_ERR_HMAC_DRBG_INPUT_TOO_BIG, c, e) else
  let seed := replicate (Z.to_nat MBEDTLS_HMAC_DRBG_MAX_SEED_INPUT) 0 in
  match f_entropy c with
  | None => Fault
  | Some f =>
      let '(ret, bytes, e) := f e (entropy_len c) in
      seed ← store seed 0 bytes;
      if negb (ret =? 0) then mret (MBEDTLS_ERR_HMAC_DRBG_ENTROPY_SOURCE_FAILED, c, e) else
      let seedlen := entropy_len c in
      '(failed, seed, seedlen, e) ←
        (if negb (use_nonce =? 0) then
           let '(ret, bytes, e) := f e (entropy_len c / 2) in
           seed ← store seed seedlen bytes;
           if negb (ret =? 0) then mret (true, seed, seedlen, e) else mret (false, seed, seedlen + entropy_len c / 2, e)
         else mret (false, seed, seedlen, e));
      if failed : bool then mret (MBEDTLS_ERR_HMAC_DRBG_ENTROPY_SOURCE_FAILED, c, e) else
      '(seed, seedlen) ←
        (match additional with
         | Some data =>
             if negb (len =? 0) then data ← load data 0 len; seed ← store seed seedlen data; mret (seed, seedlen + len)
             else mret (seed, seedlen)
         | None => mret (seed, seedlen)
         end);
      '(ret, c) ← mbedtls_hmac_drbg_update c (Some seed) seedlen;
      if negb (ret =? 0) then mret (ret, c, e) else mret (0, set_counter c 0, e)
  end.

Definition mbedtls_hmac_drbg_reseed (c : mbedtls_hmac_drbg_context) (e : E) (additional : option (list Z)) (len : Z)
    : outcome (Z * mbedtls_hmac_drbg_context * E) :=
  hmac_drbg_reseed_core c e additional len 0.

Definition mbedtls_hmac_drbg_seed (c : mbedtls_hmac_drbg_context) (md_info : option mbedtls_md_info_t) (f : entropy_fn) (e : E)
    (custom : option (list Z)) (len : Z) (h : heap) : outcome (Z * mbedtls_hmac_drbg_context * E * heap) :=
  '(ret, m, h) ← mbedtls_md_setup (drbg_md c) md_info 1 h;
  let c := set_md c m in
  if negb (ret =? 0) then mret (ret, c, e, h) else
  let md_size := mbedtls_md_get_size md_info in
  '(ret, m) ← mbedtls_md_hmac_starts u w (drbg_md c) (V c) md_size;
  let c := set_md c m in
  if negb (ret =? 0) then mret (ret, c, e, h) else
  v ← store (V c) 0 (replicate (Z.to_nat md_size) 0x01);
  let c := set_source (set_V c v) f in
  let c := if entropy_len c =? 0
           then mbedtls_hmac_drbg_set_entropy_len c (if md_size <=? 20 then 16 else if md_size <=? 28 then 24 else 32) else c in
  '(ret, c, e) ← hmac_drbg_reseed_core c e custom len 1;
  mret (ret, c, e, h).

(** The loop that generates bytes: it stops when nothing is left, or on an error. *)
Fixpoint generate_loop (fuel : nat) (c : mbedtls_hmac_drbg_context) (md_len : Z) (output : list Z) (out remaining : Z)
    : outcome (Z * mbedtls_hmac_drbg_context * list Z) :=
  match fuel with
  | O => NoFuel
  | S fuel =>
      if remaining =? 0 then mret (0, c, output) else
      let use_len := if remaining >? md_len then md_len else remaining in
      '(ret, c) ← on_md c (fun m => mbedtls_md_hmac_reset u m) (fun c =>
        on_md c (fun m => mbedtls_md_hmac_update u m (V c) md_len) (fun c =>
        '(ret, m, v) ← mbedtls_md_hmac_finish u (drbg_md c) (V c); mret (ret, set_V (set_md c m) v)));
      if negb (ret =? 0) then mret (ret, c, output) else
      chunk ← load (V c) 0 use_len;
      output ← store output out chunk;
      generate_loop fuel c md_len output (out + use_len) (remaining - use_len)
  end.

Definition INT_MAX : Z := 2 ^ 31 - 1.

(** Counting beyond [INT_MAX] is undefined. *)
Definition mbedtls_hmac_drbg_random_with_add (c : mbedtls_hmac_drbg_context) (e : E) (output : list Z) (out_len : Z)
    (additional : option (list Z)) (add_len : Z) : outcome (Z * mbedtls_hmac_drbg_context * E * list Z) :=
  let md_len := mbedtls_md_get_size (mbedtls_md_info_from_ctx (drbg_md c)) in
  if out_len >? MBEDTLS_HMAC_DRBG_MAX_REQUEST then mret (MBEDTLS_ERR_HMAC_DRBG_REQUEST_TOO_BIG, c, e, output) else
  if add_len >? MBEDTLS_HMAC_DRBG_MAX_INPUT then mret (MBEDTLS_ERR_HMAC_DRBG_INPUT_TOO_BIG, c, e, output) else
  '(ret, c, e, add_len) ←
    (if bool_decide (is_Some (f_entropy c)) &&
        ((prediction_resistance c =? MBEDTLS_HMAC_DRBG_PR_ON) || (reseed_counter c >=? reseed_interval c))
     then '(ret, c, e) ← mbedtls_hmac_drbg_reseed c e additional add_len; mret (ret, c, e, 0)
     else mret (0, c, e, add_len));
  if negb (ret =? 0) then mret (ret, c, e, output) else
  '(ret, c) ←
    (match additional with
     | Some data => if negb (add_len =? 0) then mbedtls_hmac_drbg_update c (Some data) add_len else mret (0, c)
     | None => mret (0, c)
     end);
  if negb (ret =? 0) then mret (ret, c, e, output) else
  '(ret, c, output) ← generate_loop (S (Z.to_nat out_len)) c md_len output 0 out_len;
  if negb (ret =? 0) then mret (ret, c, e, output) else
  '(ret, c) ← mbedtls_hmac_drbg_update c additional add_len;
  if negb (ret =? 0) then mret (ret, c, e, output) else
  if reseed_counter c =? INT_MAX then Fault else
  mret (0, set_counter c (reseed_counter c + 1), e, output).

(** [lock] and [unlock] are what the mutex functions return. *)
Definition mbedtls_hmac_drbg_random (lock unlock : Z) (c : mbedtls_hmac_drbg_context) (e : E) (output : list Z) (out_len : Z)
    : outcome (Z * mbedtls_hmac_drbg_context * E * list Z) :=
  if negb (lock =? 0) then mret (lock, c, e, output) else
  '(ret, c, e, output) ← mbedtls_hmac_drbg_random_with_add c e output out_len None 0;
  if negb (unlock =? 0) then mret (MBEDTLS_ERR_THREADING_MUTEX_ERROR, c, e, output) else
  mret (ret, c, e, output).

Definition mbedtls_hmac_drbg_free (ctx : option mbedtls_hmac_drbg_context) (h : heap) : outcome (option mbedtls_hmac_drbg_context * heap) :=
  match ctx with
  | None => mret (None, h)
  | Some c => '(_, h) ← mbedtls_md_free (drbg_md c) h; mret (Some mbedtls_hmac_drbg_init, h)
  end.

End code.

Arguments mbedtls_hmac_drbg_context : clear implicits.
Arguments entropy_fn : clear implicits.

(** ** SP 800-90A

    The key and the value of the generator, and its three functions on them. *)

Definition drbg_update (t : mbedtls_md_type_t) (data : list Z) '((K, v) : list Z * list Z) : list Z * list Z :=
  let K := hmac t K (v ++ [0] ++ data) in
  let v := hmac t K v in
  if bool_decide (data = []) then (K, v) else
  let K := hmac t K (v ++ [1] ++ data) in
  (K, hmac t K v).

(** The value after [k] blocks of output, which are these values. *)
Fixpoint drbg_chain (t : mbedtls_md_type_t) (K v : list Z) (k : nat) : list Z :=
  match k with O => v | S k => hmac t K (drbg_chain t K v k) end.

Definition drbg_generate (t : mbedtls_md_type_t) (len : Z) '((K, v) : list Z * list Z) : list Z * (list Z * list Z) :=
  let n := Z.to_nat (ceil_div len (mbedtls_md_get_size (mbedtls_md_info_from_type t))) in
  (ztake len (blocks (drbg_chain t K v) n), (K, drbg_chain t K v n)).

Definition drbg_initial (t : mbedtls_md_type_t) : list Z * list Z :=
  let n := Z.to_nat (mbedtls_md_get_size (mbedtls_md_info_from_type t)) in (replicate n 0, replicate n 1).

(** ** The working state *)

(** What is not the working state. *)
Record settings (E : Type) := Settings {
  s_counter : Z; s_entropy_len : Z; s_resistance : Z; s_interval : Z; s_source : option (entropy_fn E)
}.
Arguments Settings {E}.
Arguments s_counter {E}.
Arguments s_entropy_len {E}.
Arguments s_resistance {E}.
Arguments s_interval {E}.
Arguments s_source {E}.

Definition settings_of {E} (c : mbedtls_hmac_drbg_context E) : settings E :=
  Settings (reseed_counter c) (entropy_len c) (prediction_resistance c) (reseed_interval c) (f_entropy c).

Section working.
Context (u : unrolling) (w : Z) (Hw : 0 < w) {E : Type}.
Context (t : mbedtls_md_type_t) (i : mbedtls_md_info_t) (Hi : mbedtls_md_info_from_type t = Some i).

(** The context is keyed with [K] and has the value [v]. *)
Record works (c : mbedtls_hmac_drbg_context E) (K v : list Z) : Prop := Works {
  works_md : exists o, drbg_md c = md_of t o (Some (pads t K)) /\ md_shaped u t o;
  works_key : is_bytes K /\ zlen K = size i;
  works_V : is_bytes (V c) /\ zlen (V c) = 64 /\ ztake (size i) (V c) = v
}.

Definition same_settings (c c' : mbedtls_hmac_drbg_context E) : Prop := settings_of c' = settings_of c.

Lemma on_md_Done c m m' run k : drbg_md c = m -> run m = Done (0, m') -> on_md (E := E) c run k = k (set_md c m').
Proof. intros <- Hr. unfold on_md. rewrite Hr, bind_Done. done. Qed.

Lemma value_ok c K v : works c K v -> is_bytes v /\ zlen v = size i.
Proof using Hi.
  intros [_ _ (B & L & <-)]. destruct (md_size_ok t i Hi) as (_ & Hsz & _). split; [auto with zlist|]. apply zlen_ztake. lia.
Qed.

Lemma md_len_of c K v : works c K v -> mbedtls_md_get_size (mbedtls_md_info_from_ctx (drbg_md c)) = size i.
Proof using Hi. intros [(o & -> & _) _ _]. unfold md_of, mbedtls_md_info_from_ctx. cbn [md_info]. by rewrite Hi. Qed.

(** A message of the value and more, under the key, behind a reset. *)
Lemma keyed_value c K v : works c K v -> exists o,
  mbedtls_md_hmac_reset u (drbg_md c) = Done (0, md_of t o (Some (pads t K))) /\
  exists o1, mbedtls_md_hmac_update u (md_of t o (Some (pads t K))) (V c) (size i) = Done (0, md_of t o1 (Some (pads t K))) /\
    md_holds u t (pad_with 0x36 (hmac_key t K) ++ v) o1.
Proof using Hi.
  intros [(o & Hm & Hs) [BK LK] (B & L & <-)]. destruct (md_size_ok t i Hi) as (_ & Hsz & _). rewrite Hm.
  destruct (hmac_reset_ok u t i Hi o K BK Hs) as (o1 & E1 & H1). exists o1. split; [exact E1|].
  assert (size i < md_limit t) as Hl by (destruct t; cbn; lia).
  destruct (hmac_update_ok u t i Hi o1 (pads t K) _ (V c) (size i) H1 B ltac:(lia) Hl) as (o2 & E2 & H2). by exists o2.
Qed.

(** The new value under a key that has just been set. *)
Lemma new_value c K o v0 : md_shaped u t o -> drbg_md c = md_of t o (Some (pads t K)) -> is_bytes K -> zlen K = size i ->
  is_bytes (V c) -> zlen (V c) = 64 -> ztake (size i) (V c) = v0 ->
  md_holds u t (pad_with 0x36 (hmac_key t K) ++ v0) o ->
  exists c', ('(ret, m, v) ← mbedtls_md_hmac_finish u (drbg_md c) (V c); mret (ret, set_V (set_md c m) v)) = Done (0, c') /\
    works c' K (hmac t K v0) /\ same_settings c c'.
Proof using Hi.
  intros Hs Hm BK LK BV LV EV Hh. destruct (md_size_ok t i Hi) as (_ & Hsz & _). rewrite Hm.
  assert (is_bytes v0) as B0 by (rewrite <- EV; auto with zlist). destruct (hmac_ok t i K v0 Hi BK B0) as [Bh Lh].
  destruct (hmac_finish_ok u t i Hi o K v0 (V c) BK B0 Hh ltac:(lia)) as (o' & -> & H'). rewrite bind_Done.
  eexists. split; [reflexivity|]. split; [|done]. split; cbn; [by exists o'|done|]. split_and!.
  - apply is_bytes_splice; auto with zlist.
  - rewrite zlen_splice; lia.
  - rewrite <- Lh. apply splice_0_prefix. lia.
Qed.

Lemma update_round_ok c K v rounds sep data n : works c K v -> is_byte sep -> is_bytes data -> 0 <= n <= zlen data -> n < md_limit t ->
  exists c', update_round u w c (size i) rounds sep data n = Done (0, c') /\ same_settings c c' /\
    let K' := hmac t K (v ++ [sep] ++ (if rounds =? 2 then ztake n data else [])) in works c' K' (hmac t K' v).
Proof using All.
  intros Hc Bsep Bd Hn Hl. pose proof Hc as [_ [BK LK] (BV & LV & EV)]. destruct (value_ok c K v Hc) as [Bv Lv].
  destruct (md_size_ok t i Hi) as (_ & Hsz & _). assert (size i < md_limit t /\ 1 < md_limit t) as [Hl1 Hl2] by (destruct t; cbn; lia).
  destruct (keyed_value c K v Hc) as (o1 & E1 & o2 & E2 & H2). unfold update_round.
  rewrite (on_md_Done _ _ _ _ _ eq_refl E1), (on_md_Done _ _ _ _ _ eq_refl E2).
  assert (is_bytes [sep]) as Bs by (constructor; [done|constructor]).
  destruct (hmac_update_ok u t i Hi o2 (pads t K) _ [sep] 1 H2 Bs ltac:(done) Hl2) as (o3 & E3 & H3).
  rewrite (on_md_Done _ _ _ _ _ eq_refl E3). set (add := if rounds =? 2 then _ else _).
  assert (exists o4, (if rounds =? 2 then mbedtls_md_hmac_update u (md_of t o3 (Some (pads t K))) data n else mret (0, md_of t o3 (Some (pads t K)))) =
    Done (0, md_of t o4 (Some (pads t K))) /\ md_holds u t (pad_with 0x36 (hmac_key t K) ++ v ++ [sep] ++ add) o4 /\ is_bytes add) as (o4 & E4 & H4 & Ba).
  { unfold add. rewrite (ztake_all 1 [sep]), <- app_assoc in H3 by done. destruct (rounds =? 2).
    - destruct (hmac_update_ok u t i Hi o3 (pads t K) _ data n H3 Bd Hn Hl) as (o4 & -> & H4). exists o4. rewrite <- !app_assoc in H4. auto with zlist.
    - exists o3. rewrite app_nil_r. split; [done|]. split; [done|constructor]. }
  rewrite (on_md_Done _ _ _ _ _ eq_refl E4). cbn [drbg_md set_md V].
  assert (is_bytes (v ++ [sep] ++ add)) as Bm by (repeat apply is_bytes_app; done). set (K' := hmac t K (v ++ [sep] ++ add)).
  destruct (hmac_ok t i K _ Hi BK Bm) as [BK' LK']. fold K' in BK', LK'. set (buf := replicate (Z.to_nat MBEDTLS_MD_MAX_SIZE) 0).
  assert (is_bytes buf /\ zlen buf = 64) as [Bb Lb] by (split; [by apply is_bytes_replicate|unfold buf; by rewrite zlen_replicate]).
  destruct (hmac_finish_ok u t i Hi o4 K (v ++ [sep] ++ add) buf BK Bm H4 ltac:(lia)) as (o5 & -> & H5). rewrite bind_Done. cbn [Z.eqb negb].
  fold K'. set (kb := splice buf 0 K'). assert (is_bytes kb /\ zlen kb = 64 /\ ztake (size i) kb = K') as (Bkb & Lkb & Ekb).
  { unfold kb. split_and!; [apply is_bytes_splice; auto with zlist|rewrite zlen_splice; lia|]. rewrite <- LK'. apply splice_0_prefix. lia. }
  destruct (hmac_starts_ok u w Hw t i Hi o5 (pads t K) kb (size i) H5) as (o6 & E6 & H6); [apply (pads_ok t i K Hi BK)|done|lia|done|].
  rewrite (on_md_Done _ _ _ _ _ eq_refl E6). rewrite Ekb in E6, H6 |- *. cbn [set_md V].
  destruct (hmac_update_ok u t i Hi o6 (pads t K') _ (V c) (size i) H6 BV ltac:(lia) Hl1) as (o7 & E7 & H7).
  rewrite (on_md_Done _ _ _ _ _ eq_refl E7). rewrite EV in H7.
  destruct (new_value (set_md c (md_of t o7 (Some (pads t K')))) K' o7 v) as (c' & Ec & Hc' & Hset); try done; [by eapply md_holds_shaped|].
  cbn [drbg_md set_md V] in Ec |- *. exists c'. split; [exact Ec|]. split; [exact Hset|exact Hc'].
Qed.

(** Optional data and its length. *)
Definition data_bytes (data : option (list Z)) (n : Z) : list Z := match data with Some d => ztake n d | None => [] end.
Definition data_ok (data : option (list Z)) (n : Z) : Prop :=
  0 <= n < 2 ^ 32 /\ match data with Some d => is_bytes d /\ n <= zlen d | None => n = 0 end.

Lemma data_bytes_ok data n : data_ok data n -> is_bytes (data_bytes data n) /\ zlen (data_bytes data n) = n.
Proof.
  intros [Hn Hd]. destruct data as [d|]; cbn; [|split; [constructor|by rewrite Hd]]. destruct Hd as [B L]. split; [auto with zlist|apply zlen_ztake; lia].
Qed.

(** Data of any length a [size_t] can give; what is used of it is short. *)
Definition data_fits (data : option (list Z)) (n : Z) : Prop :=
  0 <= n < 2 ^ 64 /\ match data with Some d => is_bytes d /\ n <= zlen d | None => n = 0 end.

Lemma data_fits_ok data n : data_fits data n -> n <= 256 -> data_ok data n.
Proof. intros [Hn Hd] Hs. split; [lia|exact Hd]. Qed.

Lemma data_bytes_fits data n : data_fits data n -> is_bytes (data_bytes data n) /\ zlen (data_bytes data n) = n.
Proof.
  intros [Hn Hd]. destruct data as [d|]; cbn; [|split; [constructor|by rewrite Hd]]. destruct Hd as [B L]. split; [auto with zlist|apply zlen_ztake; lia].
Qed.

Lemma same_settings_trans c1 c2 c3 : same_settings c1 c2 -> same_settings c2 c3 -> same_settings c1 c3.
Proof. unfold same_settings. congruence. Qed.

Lemma update_ok c K v data n : works c K v -> data_ok data n ->
  exists c', mbedtls_hmac_drbg_update u w c data n = Done (0, c') /\ same_settings c c' /\
    works c' (fst (drbg_update t (data_bytes data n) (K, v))) (snd (drbg_update t (data_bytes data n) (K, v))).
Proof using All.
  intros Hc Hd. pose proof (data_bytes_ok data n Hd) as [Bd Ld]. destruct Hd as [Hn Hd].
  assert (n < md_limit t) as Hl by (destruct t; cbn; lia). unfold mbedtls_hmac_drbg_update. rewrite (md_len_of c K v Hc).
  assert (forall d, is_bytes d -> n <= zlen d -> data_bytes data n = [] ->
    exists c', update_loop u w 1 c (size i) 1 0 d n = Done (0, c') /\ same_settings c c' /\
      works c' (fst (drbg_update t (data_bytes data n) (K, v))) (snd (drbg_update t (data_bytes data n) (K, v)))) as One.
  { intros d B L ->. cbn [update_loop]. destruct (update_round_ok c K v 1 0 d n Hc ltac:(done) B ltac:(lia) Hl) as (c1 & -> & S1 & H1).
    rewrite bind_Done. cbn [Z.eqb negb]. exists c1. split; [done|]. split; [done|]. exact H1. }
  destruct data as [d|]; [|apply One; [constructor|rewrite Hd; done|done]]. destruct Hd as [B L]. cbn [data_bytes] in *.
  destruct (Z.eqb_spec n 0) as [->|N0]; cbn [negb]; [by apply One|]. cbn [update_loop].
  destruct (update_round_ok c K v 2 0 d n Hc ltac:(done) B ltac:(lia) Hl) as (c1 & -> & S1 & H1). rewrite bind_Done. cbn [Z.eqb negb].
  destruct (update_round_ok c1 _ _ 2 (0 + 1) d n H1 ltac:(done) B ltac:(lia) Hl) as (c2 & -> & S2 & H2). rewrite bind_Done. cbn [Z.eqb negb].
  exists c2. split; [done|]. split; [by eapply same_settings_trans|]. unfold drbg_update. rewrite bool_decide_false; [exact H2|].
  intros E0. rewrite E0 in Ld. change (zlen (@nil Z)) with 0 in Ld. lia.
Qed.

(** One block of output. *)
Lemma drbg_block_ok c K v : works c K v ->
  exists c', (on_md c (fun m => mbedtls_md_hmac_reset u m) (fun c =>
      on_md c (fun m => mbedtls_md_hmac_update u m (V c) (size i)) (fun c =>
      '(ret, m, v) ← mbedtls_md_hmac_finish u (drbg_md c) (V c); mret (ret, set_V (set_md c m) v)))) = Done (0, c') /\
    same_settings c c' /\ works c' K (hmac t K v).
Proof using Hi.
  intros Hc. pose proof Hc as [_ [BK LK] (BV & LV & EV)]. destruct (keyed_value c K v Hc) as (o1 & E1 & o2 & E2 & H2).
  rewrite (on_md_Done _ _ _ _ _ eq_refl E1), (on_md_Done _ _ _ _ _ eq_refl E2).
  destruct (new_value (set_md c (md_of t o2 (Some (pads t K)))) K o2 v) as (c' & Ec & Hc' & Hset); try done; [by eapply md_holds_shaped|].
  exists c'. split; [exact Ec|]. split; [exact Hset|exact Hc'].
Qed.

Section generating.
Context (K v0 output : list Z) (len : Z) (Hlen : 0 <= len <= zlen output) (BK : is_bytes K) (Bv : is_bytes v0) (Lv : zlen v0 = size i).
Local Abbreviation T := (drbg_chain t K v0).
Local Abbreviation N := (ceil_div len (size i)).

Lemma drbg_chain_ok k : is_bytes (T k) /\ zlen (T k) = size i.
Proof using Hi BK Bv Lv. induction k as [|k [IH _]]; cbn [drbg_chain]; [done|]. by apply (hmac_ok t i). Qed.

Lemma generate_ok fuel : forall k c, works c K (T k) -> (k < Z.to_nat N)%nat -> (Z.to_nat (len - Z.of_nat k * size i) < fuel)%nat ->
  exists c', generate_loop u fuel c (size i) (filled T output len k) (Z.of_nat k * size i) (len - Z.of_nat k * size i) =
      Done (0, c', filled T output len (Z.to_nat N)) /\ same_settings c c' /\ works c' K (T (Z.to_nat N)).
Proof using Hi BK Bv Lv Hlen.
  destruct (md_size_ok t i Hi) as (_ & Hsz & _). destruct (ceil_div_spec len (size i) ltac:(lia) ltac:(lia)) as (_ & Hlow & Hhigh & Hn0).
  induction fuel as [|fuel IH]; intros k c Hc Hk Hf; [lia|]. cbn [generate_loop].
  assert (Z.of_nat k * size i <= (N - 1) * size i) by (apply Z.mul_le_mono_nonneg_r; lia).
  set (r := len - Z.of_nat k * size i) in *. rewrite (proj2 (Z.eqb_neq _ _)) by lia.
  destruct (drbg_block_ok c K (T k) Hc) as (c1 & E1 & S1 & H1). rewrite E1, bind_Done. cbn [Z.eqb negb]. pose proof H1 as [_ _ (B1 & L1 & EV)].
  set (use := if r >? size i then _ else _). assert (use = Z.min (size i) r) as Eu by (unfold use; rewrite Z.gtb_ltb; destruct (Z.ltb_spec (size i) r); lia).
  clearbody use. rewrite load_Done, bind_Done, zdrop_0 by lia. rewrite <- (ztake_ztake use (size i) (V c1)), EV by lia.
  change (hmac t K (T k)) with (T (S k)) in *.
  rewrite (filled_step T (size i) ltac:(lia) (S k) ltac:(intros; apply drbg_chain_ok) output len Hlen k use ltac:(lia) Eu), bind_Done by lia.
  destruct (decide (S k = Z.to_nat N)) as [EN|NN].
  - assert (r <= size i) by (replace N with (Z.of_nat k + 1) in Hhigh by lia; lia). replace (r - use) with 0 by lia.
    destruct fuel as [|fuel]; [lia|]. cbn [generate_loop Z.eqb]. exists c1. rewrite <- EN. done.
  - assert ((Z.of_nat k + 1) * size i <= (N - 1) * size i) by (apply Z.mul_le_mono_nonneg_r; lia).
    replace (r - use) with (len - Z.of_nat (S k) * size i) by lia. replace (Z.of_nat k * size i + use) with (Z.of_nat (S k) * size i) by lia.
    destruct (IH (S k) c1 H1 ltac:(lia) ltac:(lia)) as (c' & -> & S2 & H2). exists c'. split; [done|]. split; [by eapply same_settings_trans|done].
Qed.

(** The whole loop. *)
Lemma generate_all_ok c : works c K v0 ->
  exists c', generate_loop u (S (Z.to_nat len)) c (size i) output 0 len = Done (0, c', splice output 0 (fst (drbg_generate t len (K, v0)))) /\
    same_settings c c' /\ works c' (fst (snd (drbg_generate t len (K, v0)))) (snd (snd (drbg_generate t len (K, v0)))).
Proof using Hi BK Bv Lv Hlen.
  intros Hc. destruct (md_size_ok t i Hi) as (_ & Hsz & _). destruct (ceil_div_spec len (size i) ltac:(lia) ltac:(lia)) as (_ & Hlow & Hhigh & Hn0).
  unfold drbg_generate. rewrite Hi. cbn [mbedtls_md_get_size fst snd]. destruct (Z.eq_dec len 0) as [Z0|N0].
  - assert (N = 0) as -> by (rewrite Z0; unfold ceil_div; apply Z.div_small; lia). rewrite Z0.
    cbn [generate_loop Z.eqb]. exists c. cbn [Z.to_nat blocks drbg_chain]. change (ztake 0 []) with (@nil Z). rewrite splice_nil by lia. done.
  - destruct (generate_ok (S (Z.to_nat len)) 0 c Hc) as (c' & Ec & S' & H'); [|lia|].
    { destruct (Z.eq_dec N 0) as [E0|]; [rewrite E0 in Hhigh|]; lia. }
    rewrite filled_0 in Ec by done. change (Z.of_nat 0 * size i) with 0 in Ec. rewrite Z.sub_0_r in Ec. exists c'. rewrite Ec. done.
Qed.

End generating.

End working.

(** ** The generator as a machine *)

Section machine.
Context (t : mbedtls_md_type_t) {E : Type}.

Definition generator : Type := list Z * list Z * settings E.

(** [None] is a call that the interface does not allow: reseeding without a source, and the
    request that would carry the counter beyond an [int]. *)
Definition gen_reseed (nonce : bool) (add : list Z) (g : generator) (e : E) : option (Z * generator * E) :=
  let '(kv, s) := g in
  let reseeded data := (drbg_update t data kv, Settings 0 (s_entropy_len s) (s_resistance s) (s_interval s) (s_source s)) in
  if (256 <? zlen add) || (384 <? (if nonce then s_entropy_len s * 3 / 2 else s_entropy_len s) + zlen add)
  then Some (MBEDTLS_ERR_HMAC_DRBG_INPUT_TOO_BIG, g, e) else
  match s_source s with
  | None => None
  | Some f =>
      let '(r, b1, e) := f e (s_entropy_len s) in
      if negb (r =? 0) then Some (MBEDTLS_ERR_HMAC_DRBG_ENTROPY_SOURCE_FAILED, g, e) else
      if nonce then
        let '(r, b2, e) := f e (s_entropy_len s / 2) in
        if negb (r =? 0) then Some (MBEDTLS_ERR_HMAC_DRBG_ENTROPY_SOURCE_FAILED, g, e) else
        Some (0, reseeded (b1 ++ b2 ++ add), e)
      else Some (0, reseeded (b1 ++ add), e)
  end.

Definition needs_reseed (s : settings E) : bool :=
  bool_decide (is_Some (s_source s)) && ((s_resistance s =? 1) || (s_interval s <=? s_counter s)).

(** A request behind the reseeding. *)
Definition gen_request (len : Z) (add : list Z) (g : generator) (e : E) : option (Z * option (list Z) * generator * E) :=
  let '(kv, s) := g in
  let kv := if bool_decide (add = []) then kv else drbg_update t add kv in
  let '(out, kv) := drbg_generate t len kv in
  if s_counter s =? INT_MAX then None else
  Some (0, Some out, (drbg_update t add kv, Settings (s_counter s + 1) (s_entropy_len s) (s_resistance s) (s_interval s) (s_source s)), e).

(** A request: the status, the bytes when it succeeds, the generator and the source. *)
Definition gen_random (len : Z) (add : list Z) (g : generator) (e : E) : option (Z * option (list Z) * generator * E) :=
  if 1024 <? len then Some (MBEDTLS_ERR_HMAC_DRBG_REQUEST_TOO_BIG, None, g, e) else
  if 256 <? zlen add then Some (MBEDTLS_ERR_HMAC_DRBG_INPUT_TOO_BIG, None, g, e) else
  '(r, g, e, add) ← (if needs_reseed (snd g) then '(r, g, e) ← gen_reseed false add g e; mret (r, g, e, []) else mret (0, g, e, add));
  if negb (r =? 0) then Some (r, None, g, e) else
  gen_request len add g e.

(** The source writes bytes, no more than it is asked for, and all of them when it succeeds. *)
Definition entropy_ok (f : entropy_fn E) : Prop :=
  forall e n, 0 <= n -> let '(r, b, _) := f e n in is_bytes b /\ zlen b <= n /\ (r = 0 -> zlen b = n).

End machine.

Arguments generator : clear implicits.

Section refinement.
Context (u : unrolling) (w : Z) (Hw : 0 < w) {E : Type}.
Context (t : mbedtls_md_type_t) (i : mbedtls_md_info_t) (Hi : mbedtls_md_info_from_type t = Some i).

Definition agrees (c : mbedtls_hmac_drbg_context E) (g : generator E) : Prop :=
  works u t i c (fst (fst g)) (snd (fst g)) /\ settings_of c = snd g.
(** The entropy length and the longest additional data together do not wrap a [size_t]. *)
Definition source_ok (s : settings E) : Prop :=
  0 <= s_entropy_len s < 2 ^ 64 - 256 /\ forall f, s_source s = Some f -> entropy_ok f.

Lemma update_agrees c kv s data n : agrees c (kv, s) -> data_ok data n ->
  exists c', mbedtls_hmac_drbg_update u w c data n = Done (0, c') /\ agrees c' (drbg_update t (data_bytes data n) kv, s).
Proof using Hi Hw.
  intros [Hc Hs] Hd. destruct kv as [K v]. destruct (update_ok u w Hw t i Hi c K v data n Hc Hd) as (c' & -> & S' & H').
  exists c'. split; [done|]. split; [exact H'|]. unfold same_settings in S'. cbn [snd] in *. congruence.
Qed.

(** The end of reseeding, with the bytes [x] of the source in the seed. *)
Lemma reseed_finish c kv s x data n (e : E) : agrees c (kv, s) -> is_bytes x -> data_ok data n -> zlen x + n <= 384 ->
  exists c', ('(seed, seedlen) ←
      (match data with
       | Some data => if negb (n =? 0) then data ← load data 0 n; seed ← store (splice (replicate 384 0) 0 x) (zlen x) data; mret (seed, zlen x + n)
                      else mret (splice (replicate 384 0) 0 x, zlen x)
       | None => mret (splice (replicate 384 0) 0 x, zlen x)
       end);
    '(ret, c) ← mbedtls_hmac_drbg_update u w c (Some seed) seedlen;
    if negb (ret =? 0) then mret (ret, c, e) else mret (0, set_counter c 0, e)) = Done (0, c', e) /\
    agrees c' (drbg_update t (x ++ data_bytes data n) kv, Settings 0 (s_entropy_len s) (s_resistance s) (s_interval s) (s_source s)).
Proof using Hi Hw.
  intros Hc Bx Hd Hl. destruct (data_bytes_ok data n Hd) as [Bd Ld]. pose proof (zlen_nonneg x). pose proof (proj1 Hd). set (y := x ++ data_bytes data n).
  assert (zlen (replicate 384 0) = 384) as L0 by by rewrite zlen_replicate.
  assert (zlen y = zlen x + n) as Ly by (unfold y; rewrite zlen_app; lia).
  assert (match data with
    | Some d => if negb (n =? 0) then d ← load d 0 n; seed ← store (splice (replicate 384 0) 0 x) (zlen x) d; mret (seed, zlen x + n)
                else mret (splice (replicate 384 0) 0 x, zlen x)
    | None => mret (splice (replicate 384 0) 0 x, zlen x) end = Done (splice (replicate 384 0) 0 y, zlen y)) as ->.
  { destruct Hd as [Hn Hd]. destruct data as [d|]; cbn [data_bytes] in *.
    - destruct Hd as [B L]. destruct (Z.eqb_spec n 0) as [E0|]; cbn [negb].
      + rewrite Ly. subst n. unfold y. change (ztake 0 d) with (@nil Z). rewrite app_nil_r, Z.add_0_r. done.
      + rewrite load_Done, bind_Done, zdrop_0, store_splice, bind_Done by (rewrite ?zlen_splice; lia). rewrite <- (Z.add_0_l (zlen x)) at 1.
        rewrite splice_splice by lia. by rewrite Ly.
    - unfold y. rewrite app_nil_r. done. }
  rewrite bind_Done. assert (is_bytes y) as By by (apply is_bytes_app; done).
  destruct (update_agrees c kv s (Some (splice (replicate 384 0) 0 y)) (zlen y) Hc) as (c' & -> & [Hw' Hs']).
  { split; [lia|]. split; [|rewrite zlen_splice; lia]. apply is_bytes_splice; [by apply is_bytes_replicate|done]. }
  rewrite bind_Done. cbn [Z.eqb negb data_bytes] in *. rewrite splice_0_prefix in Hw', Hs' by lia. exists (set_counter c' 0). split; [done|].
  split; [|cbn [snd] in *; by rewrite <- Hs']. destruct Hw'. by split.
Qed.

Lemma reseed_core_agrees c g e data n nonce r g' e' : agrees c g -> source_ok (snd g) -> data_fits data n ->
  nonce = 0 \/ s_entropy_len (snd g) * 3 < 2 ^ 64 ->
  gen_reseed t (negb (nonce =? 0)) (data_bytes data n) g e = Some (r, g', e') ->
  exists c', hmac_drbg_reseed_core u w c e data n nonce = Done (r, c', e') /\ agrees c' g'.
Proof using Hi Hw.
  destruct g as [kv s]. intros Hc [Hel Hso] Hd Hnonce. pose proof Hc as [Hwk Hs]. cbn [snd] in *. subst s. unfold gen_reseed, hmac_drbg_reseed_core.
  destruct (data_bytes_fits data n Hd) as [Bd Ld]. pose proof Hd as [Hn _].
  rewrite !Z.gtb_ltb, Ld. cbn [settings_of s_entropy_len s_source s_resistance s_interval] in *. set (el := entropy_len c) in *.
  assert (el * 3 / 2 = el + el / 2) as E32 by (replace (el * 3) with (el * 2 + el) by lia; apply Z.div_add_l; lia).
  assert (0 <= el / 2 <= el) as H2 by (split; [apply Z.div_pos|apply Z.div_le_upper_bound]; lia).
  replace (if nonce =? 0 then el else u64 (el * 3) / 2) with (if negb (nonce =? 0) then el * 3 / 2 else el).
  2:{ destruct (Z.eqb_spec nonce 0) as [|Hne]; [done|]. unfold u64. cbn [negb]. rewrite Z.mod_small; [done|]. destruct Hnonce; [done|lia]. }
  set (total := if negb (nonce =? 0) then _ else _).
  assert (0 <= total < 2 ^ 64 - 256) as Ht.
  { unfold total. destruct (Z.eqb_spec nonce 0) as [|Hne]; cbn [negb]; [lia|]. destruct Hnonce; [done|lia]. }
  unfold MBEDTLS_HMAC_DRBG_MAX_INPUT, MBEDTLS_HMAC_DRBG_MAX_SEED_INPUT.
  destruct (Z.ltb_spec 256 n) as [|H256]; cbn [orb]; [intros [= <- <- <-]; by exists c|].
  pose proof (data_fits_ok data n Hd H256) as Hd'. clear Hd. rename Hd' into Hd.
  unfold u64. rewrite (Z.mod_small (total + n)) by lia.
  destruct (Z.ltb_spec 384 (total + n)) as [|Hfit]; [intros [= <- <- <-]; by exists c|].
  destruct (f_entropy c) as [f|] eqn:Ec; [|done]. specialize (Hso f eq_refl). pose proof (Hso e el ltac:(lia)) as F1.
  destruct (f e el) as [[r1 b1] e1]. destruct F1 as (B1 & L1 & F1). change (Z.to_nat 384) with 384%nat.
  assert (zlen (replicate 384 0) = 384) as L0 by by rewrite zlen_replicate. assert (el <= 384) as H384 by (unfold total in Hfit; destruct (negb _); lia).
  rewrite store_splice, bind_Done by lia. destruct (Z.eqb_spec r1 0) as [->|]; cbn [negb]; [|intros [= <- <- <-]; by exists c].
  specialize (F1 eq_refl). unfold total in Hfit. clear total Ht. destruct (nonce =? 0) eqn:En; cbn [negb] in *.
  - rewrite bind_Done. intros [= <- <- <-]. rewrite <- F1.
    destruct (reseed_finish c kv (settings_of c) b1 data n e1 Hc B1 Hd ltac:(lia)) as (c' & E' & A'). exists c'. split; [exact E'|].
    cbn [settings_of s_entropy_len s_source s_resistance s_interval] in A'. rewrite F1, <- Ec. exact A'.
  - pose proof (Hso e1 (el / 2) ltac:(lia)) as F2. destruct (f e1 (el / 2)) as [[r2 b2] e2]. destruct F2 as (B2 & L2 & F2).
    rewrite store_splice, bind_Done by (rewrite ?zlen_splice; lia). destruct (Z.eqb_spec r2 0) as [->|]; cbn [negb]; [|rewrite bind_Done; intros [= <- <- <-]; by exists c].
    specialize (F2 eq_refl). rewrite bind_Done. intros [= <- <- <-].
    replace (splice (splice (replicate 384 0) 0 b1) el b2) with (splice (replicate 384 0) 0 (b1 ++ b2)).
    2:{ rewrite <- splice_splice by lia. by rewrite Z.add_0_l, F1. }
    replace (el + el / 2) with (zlen (b1 ++ b2)) by (rewrite zlen_app; lia). rewrite app_assoc.
    destruct (reseed_finish c kv (settings_of c) (b1 ++ b2) data n e2 Hc) as (c' & E' & A'); [by apply is_bytes_app|done|rewrite zlen_app; lia|].
    exists c'. split; [exact E'|]. cbn [settings_of s_entropy_len s_source s_resistance s_interval] in A'. rewrite <- Ec. exact A'.
Qed.

Lemma gen_reseed_settings nonce add kv (s : settings E) e r g' e' : gen_reseed t nonce add (kv, s) e = Some (r, g', e') ->
  s_entropy_len (snd g') = s_entropy_len s /\ s_resistance (snd g') = s_resistance s /\ s_interval (snd g') = s_interval s /\
  s_source (snd g') = s_source s /\ (s_counter (snd g') = s_counter s \/ s_counter (snd g') = 0) /\ (r = 0 -> s_counter (snd g') = 0).
Proof.
  unfold gen_reseed. destruct (_ || _); [intros [= <- <- <-]; cbn; split_and!; auto; done|]. destruct (s_source s) as [f|] eqn:Es; [|done].
  destruct (f e _) as [[r1 b1] e1]. destruct (negb (r1 =? 0)); [intros [= <- <- <-]; cbn; split_and!; auto; done|].
  destruct nonce; [|intros [= <- <- <-]; cbn; split_and!; auto].
  destruct (f e1 _) as [[r2 b2] e2]. destruct (negb (r2 =? 0)); intros [= <- <- <-]; cbn; split_and!; auto; done.
Qed.

Lemma request_agrees c g (e : E) output len data n r out g' e' : agrees c g -> data_ok data n -> 0 <= len <= zlen output ->
  gen_request t len (data_bytes data n) g e = Some (r, out, g', e') ->
  exists c', ('(ret, c) ← (match data with
       | Some d => if negb (n =? 0) then mbedtls_hmac_drbg_update u w c (Some d) n else mret (0, c)
       | None => mret (0, c) end);
    if negb (ret =? 0) then mret (ret, c, e, output) else
    '(ret, c, output) ← generate_loop u (S (Z.to_nat len)) c (size i) output 0 len;
    if negb (ret =? 0) then mret (ret, c, e, output) else
    '(ret, c) ← mbedtls_hmac_drbg_update u w c data n;
    if negb (ret =? 0) then mret (ret, c, e, output) else
    if reseed_counter c =? INT_MAX then Fault else
    mret (0, set_counter c (reseed_counter c + 1), e, output)) =
    Done (r, c', e', match out with Some b => splice output 0 b | None => output end) /\ agrees c' g'.
Proof using Hi Hw.
  destruct g as [kv s]. intros Hc Hd Hlen Hg. destruct (data_bytes_ok data n Hd) as [Bd Ld]. unfold gen_request in Hg.
  set (kv1 := if bool_decide _ then _ else _) in *.
  assert (exists c1, match data with Some d => if negb (n =? 0) then mbedtls_hmac_drbg_update u w c (Some d) n else mret (0, c) | None => mret (0, c) end
    = Done (0, c1) /\ agrees c1 (kv1, s)) as (c1 & -> & A1).
  { unfold kv1. destruct data as [d|]; cbn [data_bytes] in *; [|by exists c]. destruct (Z.eqb_spec n 0) as [->|]; cbn [negb].
    - change (ztake 0 d) with (@nil Z). by exists c.
    - rewrite bool_decide_false; [by apply (update_agrees c kv s (Some d) n)|]. intros E0. rewrite E0 in Ld. change (zlen (@nil Z)) with 0 in Ld. lia. }
  clearbody kv1. destruct kv1 as [K v]. rewrite bind_Done. cbn [Z.eqb negb]. pose proof A1 as [W1 S1]. cbn [fst snd] in W1, S1.
  destruct (value_ok u t i Hi c1 K v W1) as [Bv Lv]. pose proof W1 as [_ [BK _] _].
  destruct (generate_all_ok u t i Hi K v output len Hlen BK Bv Lv c1 W1) as (c2 & -> & S2 & W2). rewrite bind_Done. cbn [Z.eqb negb].
  destruct (drbg_generate t len (K, v)) as [o kv2]. cbn [fst snd] in *.
  destruct (update_agrees c2 kv2 s data n ltac:(split; [done|unfold same_settings in S2; cbn; congruence]) Hd) as (c3 & -> & [W3 S3]).
  rewrite bind_Done. cbn [Z.eqb negb snd] in *. replace (reseed_counter c3) with (s_counter s) by by rewrite <- S3.
  destruct (s_counter s =? INT_MAX); [done|]. injection Hg as <- <- <- <-. eexists. split; [reflexivity|].
  split; [|by rewrite <- S3]. destruct W3. by split.
Qed.

Lemma random_agrees c g e output len data n r out g' e' : agrees c g -> source_ok (snd g) -> data_fits data n -> 0 <= len <= zlen output ->
  gen_random t len (data_bytes data n) g e = Some (r, out, g', e') ->
  exists c', mbedtls_hmac_drbg_random_with_add u w c e output len data n =
    Done (r, c', e', match out with Some b => splice output 0 b | None => output end) /\ agrees c' g'.
Proof using Hi Hw.
  intros Hc Hso Hd Hlen. destruct g as [[K v] s]. unfold gen_random, mbedtls_hmac_drbg_random_with_add. cbn [snd] in *.
  rewrite (md_len_of u t i Hi c K v (proj1 Hc)), !Z.gtb_ltb. destruct (data_bytes_fits data n Hd) as [Bd Ld]. rewrite Ld.
  unfold MBEDTLS_HMAC_DRBG_MAX_REQUEST, MBEDTLS_HMAC_DRBG_MAX_INPUT.
  destruct (1024 <? len); [intros [= <- <- <- <-]; by exists c|]. destruct (Z.ltb_spec 256 n) as [|H256]; [intros [= <- <- <- <-]; by exists c|].
  pose proof (data_fits_ok data n Hd H256) as Hd'.
  replace (bool_decide (is_Some (f_entropy c)) && _) with (needs_reseed s).
  2:{ pose proof (proj2 Hc) as Hs. cbn [snd] in Hs. rewrite <- Hs. unfold needs_reseed, settings_of. cbn. by rewrite Z.geb_leb. }
  destruct (needs_reseed s); intros Hg; cbv [mbind option_bind mret option_ret] in Hg; cbv beta iota in Hg.
  - destruct (gen_reseed t false (data_bytes data n) (K, v, s) e) as [[[r1 g1] e1]|] eqn:Eg; [|done].
    destruct (reseed_core_agrees c _ e data n 0 r1 g1 e1 Hc Hso Hd (or_introl eq_refl) Eg) as (c1 & E1 & A1). unfold mbedtls_hmac_drbg_reseed. rewrite E1, !bind_Done.
    destruct (negb (r1 =? 0)); [injection Hg as <- <- <- <-; by exists c1|].
    apply (request_agrees c1 g1 e1 output len data 0 r out g' e' A1); [|done|].
    + destruct Hd' as [Hn Hd']. split; [lia|]. destruct data as [d|]; [|done]. split; [tauto|apply zlen_nonneg].
    + replace (data_bytes data 0) with (@nil Z) by by destruct data. exact Hg.
  - rewrite !bind_Done. cbn [Z.eqb negb]. by apply (request_agrees c (K, v, s)).
Qed.

(** Seeding a context that [mbedtls_hmac_drbg_init] has prepared; the lengths and intervals may
    have been set since. *)
Definition unseeded (c : mbedtls_hmac_drbg_context E) : Prop :=
  drbg_md c = Some md_zero /\ V c = replicate (Z.to_nat MBEDTLS_MD_MAX_SIZE) 0.

Lemma seed_start c h : unseeded c -> grants 2 h = true ->
  exists o v, mbedtls_md_setup (drbg_md c) (Some i) 1 h = Done (0, md_of t o (Some (replicate (Z.to_nat (2 * block_size i)) 0)),
      Heap (drop 2 (answers h)) (live h + 2)) /\
    exists o', mbedtls_md_hmac_starts u w (md_of t o (Some (replicate (Z.to_nat (2 * block_size i)) 0))) (V c) (size i) =
        Done (0, md_of t o' (Some (pads t (fst (drbg_initial t))))) /\
      store (V c) 0 (replicate (Z.to_nat (size i)) 1) = Done v /\
      forall c' : mbedtls_hmac_drbg_context E, drbg_md c' = md_of t o' (Some (pads t (fst (drbg_initial t)))) -> V c' = v -> works u t i c' (fst (drbg_initial t)) (snd (drbg_initial t)).
Proof using Hi Hw.
  intros [Hm HV] Hg. destruct (md_size_ok t i Hi) as (_ & Hsz & _). assert (size i < md_limit t) as Hl by (destruct t; cbn; lia).
  destruct (md_setup_ok u t i 1 h Hi) as (r & c0 & h1 & E0 & H0). cbn [Z.eqb] in H0. rewrite Hg in H0. destruct H0 as (-> & -> & o & Hs & Ec).
  exists o, (splice (V c) 0 (replicate (Z.to_nat (size i)) 1)). rewrite Hm, E0, Ec. split; [done|].
  assert (is_bytes (V c) /\ zlen (V c) = 64) as [BV LV] by (rewrite HV; split; [by apply is_bytes_replicate|by rewrite zlen_replicate]).
  destruct (hmac_starts_ok u w Hw t i Hi o (replicate (Z.to_nat (2 * block_size i)) 0) (V c) (size i) Hs) as (o' & E1 & H1);
    [rewrite zlen_replicate; destruct (md_size_ok t i Hi); lia|done|lia|done|].
  assert (ztake (size i) (V c) = fst (drbg_initial t)) as EK.
  { unfold drbg_initial. rewrite Hi, HV. cbn [fst mbedtls_md_get_size]. unfold ztake. rewrite take_replicate. f_equal. unfold MBEDTLS_MD_MAX_SIZE. lia. }
  rewrite EK in E1, H1. assert (zlen (replicate (Z.to_nat (size i)) 1) = size i) as L1 by (rewrite zlen_replicate; lia).
  exists o'. split; [exact E1|]. split; [apply store_splice; lia|]. intros c' Ec' Ev. split.
  - exists o'. split; [done|]. by eapply md_holds_shaped.
  - rewrite <- EK. split; [auto with zlist|apply zlen_ztake; lia].
  - rewrite Ev. split; [apply is_bytes_splice; [done|by apply is_bytes_replicate]|]. split; [rewrite zlen_splice; lia|].
    rewrite <- L1 at 1. rewrite splice_0_prefix by lia. unfold drbg_initial. by rewrite Hi.
Qed.

(** Seeding from a buffer: a generator without a source. *)
Lemma seed_buf_agrees c data n h : unseeded c -> grants 2 h = true -> data_ok data n ->
  exists c', mbedtls_hmac_drbg_seed_buf u w c (Some i) data n h = Done (0, c', Heap (drop 2 (answers h)) (live h + 2)) /\
    agrees c' (drbg_update t (data_bytes data n) (drbg_initial t), settings_of c).
Proof using Hi Hw.
  intros Hc Hg Hd. destruct (seed_start c h Hc Hg) as (o & v & E0 & o' & E1 & E2 & Hwk). unfold mbedtls_hmac_drbg_seed_buf.
  rewrite E0, bind_Done. cbn [Z.eqb negb mbedtls_md_get_size]. rewrite (on_md_Done _ _ _ _ _ eq_refl E1). cbn [V set_md].
  rewrite E2, bind_Done. set (c1 := set_V _ v).
  destruct (update_agrees c1 (drbg_initial t) (settings_of c) data n) as (c2 & -> & A2); [split; [by apply Hwk|done]|done|].
  rewrite bind_Done. by exists c2.
Qed.

Definition default_len (n : Z) : Z := if n <=? 20 then 16 else if n <=? 28 then 24 else 32.
Definition gen_seed (s : settings E) (f : entropy_fn E) (custom : list Z) (e : E) : option (Z * generator E * E) :=
  gen_reseed t true custom (drbg_initial t,
    Settings (s_counter s) (if s_entropy_len s =? 0 then default_len (size i) else s_entropy_len s) (s_resistance s) (s_interval s) (Some f)) e.

Lemma seed_agrees c f e custom n h r g e' : unseeded c -> grants 2 h = true -> 0 <= entropy_len c -> entropy_len c * 3 < 2 ^ 64 -> entropy_ok f -> data_fits custom n ->
  gen_seed (settings_of c) f (data_bytes custom n) e = Some (r, g, e') ->
  exists c', mbedtls_hmac_drbg_seed u w c (Some i) f e custom n h = Done (r, c', e', Heap (drop 2 (answers h)) (live h + 2)) /\ agrees c' g.
Proof using Hi Hw.
  intros Hc Hg Hel0 Hel Hf Hd Hs. destruct (seed_start c h Hc Hg) as (o & v & E0 & o' & E1 & E2 & Hwk). unfold mbedtls_hmac_drbg_seed.
  rewrite E0, bind_Done. cbn [Z.eqb negb drbg_md set_md V mbedtls_md_get_size]. rewrite E1, bind_Done. cbn [Z.eqb negb drbg_md set_md V].
  rewrite E2, bind_Done. set (c1 := set_source _ f). set (c2 := if entropy_len c1 =? 0 then _ else _).
  set (el := if entropy_len c =? 0 then default_len (size i) else entropy_len c).
  assert (0 <= el /\ el * 3 < 2 ^ 64) as [Hel1 Hel2] by (unfold el, default_len; repeat case_match; lia).
  assert (settings_of c2 = Settings (reseed_counter c) el
    (prediction_resistance c) (reseed_interval c) (Some f)) as S2 by (unfold c2, c1, el; cbn; by destruct (entropy_len c =? 0)).
  assert (agrees c2 (drbg_initial t, settings_of c2)) as A2.
  { split; [|done]. cbn [fst snd]. unfold c2. destruct (entropy_len c1 =? 0); by apply Hwk. }
  destruct (reseed_core_agrees c2 _ e custom n 1 r g e' A2 ltac:(rewrite S2; split; [cbn; lia|by intros ? [= <-]]) Hd ltac:(right; rewrite S2; exact Hel2)) as (c' & -> & A').
  - rewrite S2. exact Hs.
  - rewrite bind_Done. by exists c'.
Qed.

End refinement.

(** ** Sessions *)

Inductive drbg_call :=
  | Random (len : Z) (add : option (list Z)) | Reseed (add : option (list Z))
  | SetResistance (r : Z) | SetInterval (n : Z) | SetEntropyLen (n : Z).

Definition length_of (data : option (list Z)) : Z := match data with Some d => zlen d | None => 0 end.

Section sessions.
Context (u : unrolling) (w : Z) {E : Type}.

(** A call of the code, with the output buffer as it leaves it. *)
Definition exec_call (c : mbedtls_hmac_drbg_context E) (e : E) (call : drbg_call) (output : list Z)
    : outcome (Z * mbedtls_hmac_drbg_context E * E * list Z) :=
  match call with
  | Random len add => mbedtls_hmac_drbg_random_with_add u w c e output len add (length_of add)
  | Reseed add => '(r, c, e) ← mbedtls_hmac_drbg_reseed u w c e add (length_of add); mret (r, c, e, output)
  | SetResistance r => mret (0, mbedtls_hmac_drbg_set_prediction_resistance c r, e, output)
  | SetInterval n => mret (0, mbedtls_hmac_drbg_set_reseed_interval c n, e, output)
  | SetEntropyLen n => mret (0, mbedtls_hmac_drbg_set_entropy_len c n, e, output)
  end.

Fixpoint exec_calls (c : mbedtls_hmac_drbg_context E) (e : E) (calls : list drbg_call) (output : list Z)
    : outcome (list (Z * list Z) * mbedtls_hmac_drbg_context E * E) :=
  match calls with
  | [] => mret ([], c, e)
  | call :: calls =>
      '(r, c, e, out) ← exec_call c e call output;
      '(rs, c, e) ← exec_calls c e calls output;
      mret ((r, out) :: rs, c, e)
  end.

Context (t : mbedtls_md_type_t).

Definition gen_call (g : generator E) (e : E) (call : drbg_call) : option (Z * option (list Z) * generator E * E) :=
  let '(kv, s) := g in
  match call with
  | Random len add => gen_random t len (default [] add) g e
  | Reseed add => '(r, g, e) ← gen_reseed t false (default [] add) g e; mret (r, None, g, e)
  | SetResistance r => Some (0, None, (kv, Settings (s_counter s) (s_entropy_len s) r (s_interval s) (s_source s)), e)
  | SetInterval n => Some (0, None, (kv, Settings (s_counter s) (s_entropy_len s) (s_resistance s) n (s_source s)), e)
  | SetEntropyLen n => Some (0, None, (kv, Settings (s_counter s) n (s_resistance s) (s_interval s) (s_source s)), e)
  end.

Fixpoint gen_calls (g : generator E) (e : E) (calls : list drbg_call) : option (list (Z * option (list Z)) * generator E * E) :=
  match calls with
  | [] => mret ([], g, e)
  | call :: calls =>
      '(r, out, g, e) ← gen_call g e call;
      '(rs, g, e) ← gen_calls g e calls;
      mret ((r, out) :: rs, g, e)
  end.

(** Arguments of the types of the C code, a buffer with room for the request, and an entropy
    length of less than [2 ^ 64 - 256]: from there on the length of the seed wraps around. *)
Definition call_ok (room : Z) (call : drbg_call) : Prop :=
  match call with
  | Random len add => 0 <= len <= room /\ data_fits add (length_of add)
  | Reseed add => data_fits add (length_of add)
  | SetResistance r => True
  | SetInterval n => n <= INT_MAX
  | SetEntropyLen n => 0 <= n < 2 ^ 64 - 256
  end.

(** A generator with a source can always go on: it counts no further than the interval. *)
Definition alive (s : settings E) : Prop := is_Some (s_source s) /\ s_counter s <= INT_MAX /\ s_interval s <= INT_MAX.

Lemma reseed_alive nonce add (g : generator E) e : alive (snd g) ->
  exists r g' e', gen_reseed t nonce add g e = Some (r, g', e') /\ alive (snd g') /\ (r = 0 -> s_counter (snd g') = 0) /\
    (source_ok (snd g) -> source_ok (snd g')).
Proof.
  destruct g as [kv s]. intros ([f Hf] & Hc & Hn). assert (is_Some (gen_reseed t nonce add (kv, s) e)) as [[[r g'] e'] Hg].
  { unfold gen_reseed. destruct (_ || _); [by eexists|]. cbn [snd] in Hf. rewrite Hf. destruct (f e _) as [[r1 b1] e1].
    destruct (negb (r1 =? 0)); [by eexists|]. destruct nonce; [|by eexists]. destruct (f e1 _) as [[r2 b2] e2]. destruct (negb (r2 =? 0)); by eexists. }
  exists r, g', e'. split; [done|]. cbn [snd] in *. destruct (gen_reseed_settings t nonce add kv s e r g' e' Hg) as (A & B & C & D & X & Y).
  unfold alive, source_ok. rewrite A, C, D. split; [|done]. split; [by eexists|]. split; [|done]. unfold INT_MAX in *. destruct X as [->| ->]; lia.
Qed.

Lemma call_alive g e call room : alive (snd g) -> call_ok room call ->
  exists r out g' e', gen_call g e call = Some (r, out, g', e') /\ alive (snd g') /\ (source_ok (snd g) -> source_ok (snd g')).
Proof.
  destruct g as [kv s]. intros Ha Hok. destruct call as [len add|add|r|n|n]; cbn [gen_call].
  - unfold gen_random. destruct (1024 <? len); [by do 4 eexists|]. destruct (256 <? _); [by do 4 eexists|]. cbn [snd].
    assert (forall add g1 e1, alive (snd g1) -> s_counter (snd g1) < INT_MAX -> (source_ok (snd (kv, s)) -> source_ok (snd g1)) ->
      exists r out g' e', gen_request t len add g1 e1 = Some (r, out, g', e') /\ alive (snd g') /\ (source_ok (snd (kv, s)) -> source_ok (snd g'))) as Rest.
    { intros add1 [kv1 s1] e1 (A1 & A2 & A3) Hlt Hs1. cbn [snd] in *. unfold gen_request. destruct (drbg_generate t len _) as [o kv2].
      rewrite (proj2 (Z.eqb_neq _ _)) by lia. do 4 eexists. split; [reflexivity|]. split; [|exact Hs1]. split; [done|]. cbn. split; [unfold INT_MAX in *; lia|done]. }
    destruct (needs_reseed s) eqn:Hn.
    + destruct (reseed_alive false (default [] add) (kv, s) e Ha) as (r1 & g1 & e1 & -> & H1 & H2 & H3). cbn [mbind option_bind].
      destruct (Z.eqb_spec r1 0) as [->|N]; cbn [mbind option_bind mret option_ret].
      * cbn [negb Z.eqb]. apply Rest; [done|rewrite H2 by done; unfold INT_MAX; lia|done].
      * rewrite (proj2 (Z.eqb_neq _ _)) by done. cbn [negb]. by do 4 eexists.
    + cbn [mbind option_bind mret option_ret negb Z.eqb]. apply Rest; [done| |done]. destruct Ha as (Hsrc & Hc & Hi).
      unfold needs_reseed in Hn. rewrite bool_decide_true in Hn by done. cbn [andb snd] in *. apply orb_false_elim in Hn as [_ Hn%Z.leb_gt]. lia.
  - destruct (reseed_alive false (default [] add) (kv, s) e Ha) as (r1 & g1 & e1 & -> & H1 & _ & H3). by do 4 eexists.
  - do 4 eexists. split; [reflexivity|]. done.
  - do 4 eexists. split; [reflexivity|]. split; [|done]. destruct Ha as (A & B & C). done.
  - do 4 eexists. split; [reflexivity|]. split; [done|]. intros [_ Hs]. done.
Qed.

Context (Hw : 0 < w) (i : mbedtls_md_info_t) (Hi : mbedtls_md_info_from_type t = Some i).

Definition left_by (output : list Z) '((r, out) : Z * option (list Z)) : Z * list Z :=
  (r, match out with Some b => splice output 0 b | None => output end).

Lemma data_bytes_all data : data_bytes data (length_of data) = default [] data.
Proof. destruct data as [d|]; [|done]. cbn. apply ztake_all. lia. Qed.

Lemma call_agrees c g e call output r out g' e' : agrees u t i c g -> source_ok (snd g) -> call_ok (zlen output) call ->
  gen_call g e call = Some (r, out, g', e') ->
  exists c', exec_call c e call output = Done (r, c', e', snd (left_by output (r, out))) /\ agrees u t i c' g'.
Proof using Hi Hw.
  destruct g as [kv s]. intros Hc Hs Hok Hg. pose proof Hc as [Hk Hse]. cbn [fst snd] in Hk, Hse.
  destruct call as [len add|add|r0|n|n]; cbn [gen_call exec_call left_by snd] in *.
  - destruct Hok as [Hlen Hd]. rewrite <- data_bytes_all in Hg. by apply (random_agrees u w Hw t i Hi c (kv, s)).
  - rewrite <- data_bytes_all in Hg. destruct (gen_reseed t false _ (kv, s) e) as [[[r1 g1] e1]|] eqn:Eg; [|done]. injection Hg as <- <- <- <-.
    destruct (reseed_core_agrees u w Hw t i Hi c (kv, s) e add (length_of add) 0 r1 g1 e1 Hc Hs Hok (or_introl eq_refl) Eg) as (c' & E1 & A1).
    unfold mbedtls_hmac_drbg_reseed. rewrite E1, bind_Done. by exists c'.
  - injection Hg as <- <- <- <-. eexists. split; [reflexivity|]. split; [destruct Hk; by split|by rewrite <- Hse].
  - injection Hg as <- <- <- <-. eexists. split; [reflexivity|]. split; [destruct Hk; by split|by rewrite <- Hse].
  - injection Hg as <- <- <- <-. eexists. split; [reflexivity|]. split; [destruct Hk; by split|by rewrite <- Hse].
Qed.

Lemma calls_agree output calls : Forall (call_ok (zlen output)) calls -> forall c g e, agrees u t i c g -> source_ok (snd g) -> alive (snd g) ->
  exists rs c' g' e', exec_calls c e calls output = Done (map (left_by output) rs, c', e') /\ gen_calls g e calls = Some (rs, g', e') /\
    agrees u t i c' g'.
Proof using Hi Hw.
  induction 1 as [|call calls Hok _ IH]; intros c g e Hc Hs Ha; cbn [exec_calls gen_calls].
  { by exists [], c, g, e. }
  destruct (call_alive g e call (zlen output) Ha Hok) as (r & out & g1 & e1 & Hg & A1 & S1).
  destruct (call_agrees c g e call output r out g1 e1 Hc Hs Hok Hg) as (c1 & -> & H1). rewrite bind_Done, Hg.
  destruct (IH c1 g1 e1 H1 (S1 Hs) A1) as (rs & c' & g' & e' & -> & E2 & H2). rewrite bind_Done. cbn [mbind option_bind].
  rewrite E2. exists ((r, out) :: rs), c', g', e'. by split.
Qed.

End sessions.

(** ** The self test *)

Definition OUTPUT_LEN : Z := 80.
Definition entropy_pr : list Z :=
  [0xa0; 0xc9; 0xab; 0x58; 0xf1; 0xe2; 0xe5; 0xa4; 0xde; 0x3e; 0xbd; 0x4f; 0xf7; 0x3e; 0x9c; 0x5b;
   0x64; 0xef; 0xd8; 0xca; 0x02; 0x8c; 0xf8; 0x11; 0x48; 0xa5; 0x84; 0xfe; 0x69; 0xab; 0x5a; 0xee;
   0x42; 0xaa; 0x4d; 0x42; 0x17; 0x60; 0x99; 0xd4; 0x5e; 0x13; 0x97; 0xdc; 0x40; 0x4d; 0x86; 0xa3;
   0x7b; 0xf5; 0x59; 0x54; 0x75; 0x69; 0x51; 0xe4].
Definition result_pr : list Z :=
  [0x9a; 0x00; 0xa2; 0xd0; 0x0e; 0xd5; 0x9b; 0xfe; 0x31; 0xec; 0xb1; 0x39; 0x9b; 0x60; 0x81; 0x48;
   0xd1; 0x96; 0x9d; 0x25; 0x0d; 0x3c; 0x1e; 0x94; 0x10; 0x10; 0x98; 0x12; 0x93; 0x25; 0xca; 0xb8;
   0xfc; 0xcc; 0x2d; 0x54; 0x73; 0x19; 0x70; 0xc0; 0x10; 0x7a; 0xa4; 0x89; 0x25; 0x19; 0x95; 0x5e;
   0x4b; 0xc6; 0x00; 0x1d; 0x7f; 0x4e; 0x6a; 0x2b; 0xf8; 0xa3; 0x01; 0xab; 0x46; 0x05; 0x5c; 0x09;
   0xa6; 0x71; 0x88; 0xf1; 0xa7; 0x40; 0xee; 0xf3; 0xe1; 0x5c; 0x02; 0x9b; 0x44; 0xaf; 0x03; 0x44].
Definition entropy_nopr : list Z :=
  [0x79; 0x34; 0x9b; 0xbf; 0x7c; 0xdd; 0xa5; 0x79; 0x95; 0x57; 0x86; 0x66; 0x21; 0xc9; 0x13; 0x83;
   0x11; 0x46; 0x73; 0x3a; 0xbf; 0x8c; 0x35; 0xc8; 0xc7; 0x21; 0x5b; 0x5b; 0x96; 0xc4; 0x8e; 0x9b;
   0x33; 0x8c; 0x74; 0xe3; 0xe9; 0x9d; 0xfe; 0xdf].
Definition result_nopr : list Z :=
  [0xc6; 0xa1; 0x6a; 0xb8; 0xd4; 0x20; 0x70; 0x6f; 0x0f; 0x34; 0xab; 0x7f; 0xec; 0x5a; 0xdc; 0xa9;
   0xd8; 0xca; 0x3a; 0x13; 0x3e; 0x15; 0x9c; 0xa6; 0xac; 0x43; 0xc6; 0xf8; 0xa2; 0xbe; 0x22; 0x83;
   0x4a; 0x4c; 0x0a; 0x0a; 0xff; 0xb1; 0x0d; 0x71; 0x94; 0xf1; 0xc1; 0xa5; 0xcf; 0x73; 0x22; 0xec;
   0x1a; 0xe0; 0x96; 0x4e; 0xd4; 0xbf; 0x12; 0x27; 0x46; 0xe0; 0x87; 0xfd; 0xb5; 0xb3; 0xe9; 0x1b;
   0x34; 0x93; 0xd5; 0xbb; 0x98; 0xfa; 0xed; 0x49; 0xe8; 0x5f; 0x13; 0x0f; 0xc8; 0xa4; 0x59; 0xb7].

(** Entropy from a buffer, from the offset on; reading behind its end is what the code must not do,
    and gives less here than was asked for. *)
Definition hmac_drbg_self_test_entropy (data : list Z) (test_offset len : Z) : Z * list Z * Z :=
  (0, ztake len (zdrop test_offset data), test_offset + len).

(** One part of the test: seeding, what is done [between], two requests, the comparison. *)
Definition self_test_part (u : unrolling) (w : Z) (entropy result : list Z)
    (between : mbedtls_hmac_drbg_context Z -> Z -> outcome (Z * mbedtls_hmac_drbg_context Z * Z)) (h : heap) : outcome (Z * heap) :=
  let c := mbedtls_hmac_drbg_init in
  '(ret, c, e, h) ← mbedtls_hmac_drbg_seed u w c (mbedtls_md_info_from_type MBEDTLS_MD_SHA1) (hmac_drbg_self_test_entropy entropy) 0 None 0 h;
  if negb (ret =? 0) then mret (1, h) else
  '(ret, c, e) ← between c e;
  if negb (ret =? 0) then mret (1, h) else
  '(ret, c, e, buf) ← mbedtls_hmac_drbg_random u w 0 0 c e (replicate (Z.to_nat OUTPUT_LEN) 0) OUTPUT_LEN;
  if negb (ret =? 0) then mret (1, h) else
  '(ret, c, e, buf) ← mbedtls_hmac_drbg_random u w 0 0 c e buf OUTPUT_LEN;
  if negb (ret =? 0) then mret (1, h) else
  if negb (bool_decide (buf = result)) then mret (1, h) else
  '(c, h) ← mbedtls_hmac_drbg_free (Some c) h;
  '(_, h) ← mbedtls_hmac_drbg_free c h;
  mret (0, h).

Definition mbedtls_hmac_drbg_self_test (u : unrolling) (w : Z) (h : heap) : outcome (Z * heap) :=
  '(ret, h) ← self_test_part u w entropy_pr result_pr
    (fun c e => mret (0, mbedtls_hmac_drbg_set_prediction_resistance c MBEDTLS_HMAC_DRBG_PR_ON, e)) h;
  if negb (ret =? 0) then mret (1, h) else
  self_test_part u w entropy_nopr result_nopr (fun c e => mbedtls_hmac_drbg_reseed u w c e None 0) h.

Example hmac_drbg_self_test_passes :
  mbedtls_hmac_drbg_self_test (Unrolling false true true true) 8 (Heap [] 0) = Done (0, Heap [] 0).
Proof. vm_compute. reflexivity. Qed.

(** ** Theorems *)

(** The bound on the seed is checked in the arithmetic of [size_t].  With an entropy length whose
    triple wraps around the check passes, and a source that delivers what it is asked for
    writes beyond the buffer of the seed. *)
Lemma entropy_len_wraps {E} u w (c : mbedtls_hmac_drbg_context E) (f : entropy_fn E) e : entropy_ok f -> f_entropy c = Some f ->
  entropy_len c = 6148914691236517206 -> (forall e n, fst (fst (f e n)) = 0) ->
  hmac_drbg_reseed_core u w c e None 0 1 = Fault.
Proof.
  intros Hf Hs Hl H0. unfold hmac_drbg_reseed_core. rewrite Hs, Hl. change (negb (1 =? 0)) with true.
  set (big := 6148914691236517206). assert (0 <= big) as Hb by by vm_compute. pose proof (Hf e big Hb) as F. specialize (H0 e big).
  destruct (f e big) as [[r b] e1]. cbn [fst] in H0. destruct F as (_ & _ & F). specialize (F H0).
  change ((0 >? MBEDTLS_HMAC_DRBG_MAX_INPUT) || _) with false. cbv iota. unfold store. rewrite F, zlen_replicate. reflexivity.
Qed.

(** The same when such a length is set before the context is seeded. *)
Lemma seed_wraps {E} u w t i (f : entropy_fn E) e h : 0 < w -> mbedtls_md_info_from_type t = Some i -> grants 2 h = true ->
  entropy_ok f -> (forall e n, fst (fst (f e n)) = 0) ->
  mbedtls_hmac_drbg_seed u w (mbedtls_hmac_drbg_set_entropy_len mbedtls_hmac_drbg_init 6148914691236517206) (Some i) f e None 0 h = Fault.
Proof.
  intros Hw Hi Hg Hf H0. set (c := mbedtls_hmac_drbg_set_entropy_len mbedtls_hmac_drbg_init _).
  destruct (seed_start u w Hw t i Hi c h) as (o & v & E0 & o' & E1 & E2 & _); [done|done|]. unfold mbedtls_hmac_drbg_seed.
  rewrite E0, bind_Done. cbn [Z.eqb negb drbg_md set_md V mbedtls_md_get_size]. rewrite E1, bind_Done. cbn [Z.eqb negb drbg_md set_md V].
  rewrite E2, bind_Done. cbv zeta. rewrite (entropy_len_wraps u w _ f e Hf); try done.
Qed.

(** C32.  A session with the generator: a context is initialised, an entropy length may be set,
    it is seeded from an entropy source that keeps its contract, then any calls follow,
    requests with and without additional data, reseeding, changes of the settings, and the
    context is freed.  Every call finishes with the status and the bytes of the generator of
    SP 800-90A, failures of the source and requests that are too big included; the generator
    reseeds when its interval is over or prediction resistance asks for it, and its counter
    never overflows.  Memory is returned, and without memory the seeding reports that and keeps
    nothing.  This holds for the entropy lengths whose sums in the check of the seed's length
    (hmac_drbg.c:150-157) do not wrap around a [size_t]: a triple below [2 ^ 64] when seeding,
    and less than [2 ^ 64 - 256] when reseeding; hmac_drbg.h puts no bound on the length, and
    beyond these the check can pass while the source is asked to fill more than the buffer has,
    as the last clause shows: seeding with the length 6148914691236517206 runs out of bounds. *)
Theorem hmac_drbg_correct {E} u w t i (f : entropy_fn E) e el custom calls output h :
  0 < w -> mbedtls_md_info_from_type t = Some i -> entropy_ok f -> 0 <= el -> el * 3 < 2 ^ 64 ->
  data_fits custom (length_of custom) -> Forall (call_ok (zlen output)) calls ->
  (exists r c e1 h1, mbedtls_hmac_drbg_seed u w (mbedtls_hmac_drbg_set_entropy_len mbedtls_hmac_drbg_init el)
      (Some i) f e custom (length_of custom) h = Done (r, c, e1, h1) /\
    if grants 2 h
    then exists g rs c' g' e' h', gen_seed t i (settings_of (mbedtls_hmac_drbg_set_entropy_len mbedtls_hmac_drbg_init el))
        f (default [] custom) e = Some (r, g, e1) /\
      exec_calls u w c e1 calls output = Done (map (left_by output) rs, c', e') /\ gen_calls t g e1 calls = Some (rs, g', e') /\
      mbedtls_hmac_drbg_free (Some c') h1 = Done (Some mbedtls_hmac_drbg_init, h') /\ live h' = live h
    else r = MBEDTLS_ERR_MD_ALLOC_FAILED /\ live h1 = live h) /\
  (grants 2 h = true -> (forall e n, fst (fst (f e n)) = 0) ->
    mbedtls_hmac_drbg_seed u w (mbedtls_hmac_drbg_set_entropy_len mbedtls_hmac_drbg_init 6148914691236517206)
      (Some i) f e None 0 h = Fault).
Proof.
  intros Hw Hi Hf He0 He3 Hd Hok. split; [|by intros; eapply seed_wraps].
  set (c0 := mbedtls_hmac_drbg_set_entropy_len mbedtls_hmac_drbg_init el).
  destruct (md_size_ok t i Hi) as (_ & Hsz & _). destruct (grants 2 h) eqn:G.
  - set (s0 := Settings 0 (if el =? 0 then default_len (size i) else el) 0 MBEDTLS_HMAC_DRBG_RESEED_INTERVAL (Some f)).
    assert (alive s0 /\ source_ok s0) as [Al So].
    { split; [split; [by eexists|split; by vm_compute]|]. split; [cbn; unfold default_len; repeat case_match; lia|by intros ? [= <-]]. }
    destruct (reseed_alive t true (default [] custom) (drbg_initial t, s0) e Al) as (r & g & e1 & Eg & Ag & _ & Sg).
    pose proof Eg as Es. rewrite <- data_bytes_all in Es.
    destruct (seed_agrees u w Hw t i Hi c0 f e custom (length_of custom) h r g e1) as (c & -> & Hc); try done.
    exists r, c, e1. eexists. split; [reflexivity|].
    destruct (calls_agree u w t Hw i Hi output calls Hok c g e1 Hc (Sg So) Ag) as (rs & c' & g' & e' & E1 & E2 & [[(o & Hm & Hs) [BK _] _] _]).
    exists g, rs, c', g', e'. cbn [mbedtls_hmac_drbg_free]. rewrite Hm, (md_free_of u t i o _ _ Hi Hs), bind_Done by (intros ? [= <-]; by apply (pads_ok t i)).
    eexists. split; [exact Eg|]. split; [exact E1|]. split; [exact E2|]. split; [reflexivity|]. cbn [live answers]. lia.
  - unfold mbedtls_hmac_drbg_seed. cbn [drbg_md mbedtls_hmac_drbg_init c0 mbedtls_hmac_drbg_set_entropy_len].
    destruct (md_setup_ok u t i 1 h Hi) as (r & c & h1 & -> & H). cbn [Z.eqb] in H.
    rewrite G in H. destruct H as (-> & Hl & _). rewrite bind_Done. cbn [Z.eqb negb MBEDTLS_ERR_MD_ALLOC_FAILED]. by do 4 eexists.
Qed.

(** A source that counts. *)
Definition counting_source (e : Z) (n : Z) : Z * list Z * Z := (0, replicate (Z.to_nat n) (e mod 256), e + 1).

Lemma hmac_drbg_correct_witness :
  let u := Unrolling false true true true in let t := MBEDTLS_MD_SHA256 in let i := mbedtls_sha256_info in let h := Heap [] 0 in
  let custom := Some [1; 2; 3] in let output := replicate 40 0 in
  let calls := [Random 40 None; SetResistance 1; Random 5 (Some [9]); SetEntropyLen 400; Random 5 None; SetEntropyLen 20; Reseed (Some [7; 7])] in
  (exists r c e1 h1, mbedtls_hmac_drbg_seed u 8 (mbedtls_hmac_drbg_set_entropy_len mbedtls_hmac_drbg_init 0)
      (Some i) counting_source 0 custom (length_of custom) h = Done (r, c, e1, h1) /\
    if grants 2 h
    then exists g rs c' g' e' h', gen_seed t i (settings_of (mbedtls_hmac_drbg_set_entropy_len mbedtls_hmac_drbg_init 0))
        counting_source (default [] custom) 0 = Some (r, g, e1) /\
      exec_calls u 8 c e1 calls output = Done (map (left_by output) rs, c', e') /\ gen_calls t g e1 calls = Some (rs, g', e') /\
      mbedtls_hmac_drbg_free (Some c') h1 = Done (Some mbedtls_hmac_drbg_init, h') /\ live h' = live h
    else r = MBEDTLS_ERR_MD_ALLOC_FAILED /\ live h1 = live h) /\
  mbedtls_hmac_drbg_seed u 8 (mbedtls_hmac_drbg_set_entropy_len mbedtls_hmac_drbg_init 6148914691236517206)
    (Some i) counting_source 0 None 0 h = Fault.
Proof.
  intros u t i h custom output calls.
  destruct (hmac_drbg_correct u 8 t i counting_source 0 0 custom calls output h) as [H1 H2].
  - reflexivity.
  - reflexivity.
  - intros e n Hn. split; [apply is_bytes_replicate; unfold is_byte; apply Z.mod_pos_bound; lia|]. rewrite zlen_replicate. split; [lia|]. intros _. lia.
  - reflexivity.
  - reflexivity.
  - split; [vm_compute; split; [discriminate|reflexivity]|]. split; [apply (bool_decide_unpack _); vm_compute; exact I|vm_compute; discriminate].
  - repeat constructor; try (vm_compute; discriminate); try (apply (bool_decide_unpack _); vm_compute; exact I).
  - split; [exact H1|]. apply H2; reflexivity.
Defined.
